(* ===== verification/_CoqProject ===== *)
-Q . S2P
Prelude.v
RustStr.v
Utf8.v
RustPath.v
Json.v
PolicyPaths.v
Tokenizer.v
GitPolicy.v
Operands.v
FileSystem.v
Denial.v
Launcher.v
LauncherSafety.v
General.v
StoreRecords.v
StoreSql.v
StoreOps.v
StoreView.v
StoreRefine.v
StoreProps.v
StoreKeeps.v
Contract.v
Projection.v
Observation.v
ObservationProps.v
RuntimeEvents.v
Activity.v
ActivityTracker.v
TrackerProps.v
RuntimeOwner.v
OwnerProps.v
Codex.v
CodexRuntime.v
CodexProps.v
RuntimeLifecycle.v
Sink.v
SinkProps.v
Diagnostics.v
Recovery.v
RecoveryProps.v
Control.v
Messages.v
Starting.v
Monitor.v
Admission.v
MessageProps.v
StartWait.v
StartingProps.v
AdmissionProps.v
ControlProps.v
MonitorProps.v
RpcErrors.v
RpcViews.v
RpcBound.v
RpcWait.v
RpcWaitProps.v
RpcConfig.v
RpcProfiles.v
RpcProfileProps.v
RpcAgents.v
RpcAgentProps.v
AgentStatus.v
AgentStatusProps.v
RpcHandlers.v
RpcHandlerProps.v
RpcService.v
Reaper.v
Agy.v
AgyRuntime.v
AgyProps.v
Transport.v
TransportProps.v
ReaperProps.v
Dsh.v
DshRuntime.v
DshProps.v
Mcp.v
DshProfile.v
Provider.v
Factories.v
