(* ===== verification/Prelude.v ===== *)
(** * external-subagent: a verification library

    external-subagent runs third-party coding agents as supervised subagents.  A
    client submits a task to a daemon; the daemon prepares a launch, keeps the
    task in a SQLite store, drives an agent process over a JSON line protocol,
    and decides every permission request of the agent with a bounded policy.
    This library models the parts of the Rust workspace that carry that logic
    and proves what they guarantee.  File names below are under [src/crates].

    ** The parts and the files that model them

    The permission policy ([external-core/src/policy]).  The agent runtime asks
    before each tool call; [PolicyLauncher::decide_zcode_permission] answers.
    - [PolicyPaths.v]: [paths.rs], [requests.rs], the errors of [lib.rs].
    - [Tokenizer.v], [GitPolicy.v], [Operands.v]: [commands.rs], the grammar of
      the read-only shell commands: words, git options, path operands, sed, find.
    - [Denial.v]: [denial.rs], the identity of a denial and the advice sent back.
    - [FileSystem.v]: the questions the policy asks the operating system, as a
      class with the laws it relies on, and [Tree], a concrete file system with
      links that satisfies them.  A decision sees one snapshot of it; races
      between a decision and the use of the path are outside the model.
    - [Launcher.v]: [launcher.rs] and [capabilities.rs], every decision the
      launcher takes.  [LauncherSafety.v] holds the theorems on it.

    Task preparation ([external-core/src/general.rs]): [General.v], from the
    submitted manifest to the launcher of the task.

    The task store ([external-store]).  One SQLite database holds tasks, events,
    messages, pending requests, results and a lifecycle ledger.
    - [StoreRecords.v]: the schema's rows and columns, the stored enumerations.
    - [StoreSql.v]: transactions as a state and error monad with rollback, and
      the SQL statements the store uses.
    - [StoreOps.v]: every operation of [tasks.rs], [lifecycle.rs], [messages.rs],
      [pending.rs], [results.rs] and [recovery.rs].
    - [StoreView.v]: what is stored for one task, and the abstract task machine
      [view_step] on it.  [StoreRefine.v]: every operation keeps the database
      invariant and moves each task by that machine.  [StoreProps.v]: the store
      as a transition system and the theorems on its histories.

    The wire contract ([external-contract/src]).
    - [Contract.v]: the strict envelopes and the line parser.
    - [Projection.v]: the readers of session and workspace results, model
      references, the answer offered to a permission request.
    - [Activity.v]: the event constructors ([activity.rs]), and with them the
      daemon's parser of the same vocabulary ([activity_parser.rs]).

    What the daemon observes of a runtime ([external-daemon/src]).
    - [RuntimeEvents.v]: exits, frames, losses and terminals, the vocabulary shared
      with [external-runtime/src/lib.rs].
    - [Observation.v] ([observation.rs]): tool calls and public reasoning, redacted,
      bounded and guarded against replays; theorems in [ObservationProps.v].
    - [ActivityTracker.v] ([activity_tracker.rs]): the counters of the last minute
      and the text a waiting client reads; theorems in [TrackerProps.v].
    - [RuntimeOwner.v] ([lib.rs]): the publisher of terminals, the turn tracker, the
      cache of offered answers, the event pump, the end of a process; theorems in
      [OwnerProps.v].
    - [Codex.v], [CodexRuntime.v] ([subagents/codex], [external-daemon/src/codex]):
      the parameters and checks of a thread, and the projection of every
      notification on the shared state; theorems in [CodexProps.v].

    The scheduler ([external-daemon/src/scheduler]), over the store's operations.
    - [RuntimeLifecycle.v] ([state.rs], [projection.rs]): the latch that admits a
      runtime's events, and what of an event is stored.
    - [Sink.v] ([lifecycle_sink.rs]): every write for a runtime, the seal of a
      natural completion, the result of a task; theorems in [SinkProps.v].
    - [Diagnostics.v] ([diagnostics.rs]): failure records and the search for the
      longest tail that fits, with its theorems.
    - [Recovery.v] ([recovery.rs]): startup recovery and tasks without a runtime;
      theorems in [RecoveryProps.v].
    - [Control.v] ([control.rs], [lifecycle.rs], [types.rs], [runtime_owner.rs]):
      the class [ManagedRuntime], deadlines, stop, close, the routed terminal;
      theorems in [ControlProps.v].
    - [Messages.v] ([messages.rs]): delivery, sending, resuming, answering; theorems
      in [MessageProps.v].
    - [Starting.v] ([lifecycle.rs], the routes of [lib.rs]): claiming and starting a
      task, from the claim over the spawned and the registered runtime to its
      monitor; theorems in [StartingProps.v].
    - [Monitor.v] ([monitor.rs]): the rounds of the thread that watches a runtime;
      theorems in [MonitorProps.v].
    - [StartWait.v] ([admission.rs]): the bounded wait of a submission, and what its
      expiry cancels and kills.
    - [Admission.v] ([admission.rs]): submission, drain, activation; theorems in
      [AdmissionProps.v].
    - [StoreKeeps.v]: predicates on databases that every store operation keeps, with
      the tactics that prove them by the shape of a transaction.

    The RPC service ([external-daemon/src/rpc], [agent_status.rs]).
    - [RpcErrors.v] ([errors.rs]): the closed set of error codes.  [RpcViews.v]
      ([views.rs]): what a client sees of a task, with its theorems.
    - [RpcBound.v] ([wait.rs]): the fitting of wait and list responses into the frame,
      by stages that shorten them.  [RpcWait.v] ([wait.rs]): waits on
      one agent and on a list, over the polls of the scheduler.  [RpcWaitProps.v]: the
      theorems on both.
    - [RpcConfig.v] ([config.rs]): the configuration document.  [RpcProfiles.v]
      ([profiles.rs]): profile files and the scan of their directory.
      [RpcProfileProps.v]: the theorems on both.
    - [RpcAgents.v] ([agents.rs]): admission, from tokens, profiles and configuration to
      the identity a task is given; theorems in [RpcAgentProps.v].
    - [AgentStatus.v] ([agent_status.rs], the status views of the RPC): probes and the
      status an agent is shown with; theorems in [AgentStatusProps.v].
    - [RpcHandlers.v] ([handlers.rs]): every request of a client; theorems on pages,
      instructions and frames in [RpcHandlerProps.v].
    - [RpcService.v]: histories of requests against the service with the drain of
      [scheduler/admission.rs], with the theorems on them.

    Processes and adapters ([external-runtime], [subagents], [external-daemon/src]).
    - [Reaper.v] ([external-runtime/src/lib.rs]): the checks and the escalation of the
      ways to reap a process group, and the gate of concurrent stops; theorems in
      [ReaperProps.v].
    - [Transport.v] ([external-runtime/src/lib.rs]): frame codecs, the bounded line
      reader, pending requests and their dispatcher; theorems in [TransportProps.v].
    - [Agy.v] ([subagents/agy]) and [AgyRuntime.v] ([external-daemon/src/agy]): events,
      the classifier of a turn, the owner and its pump; theorems in [AgyProps.v].
    - [Dsh.v] ([subagents/dsh/src/acp]) and [DshRuntime.v] ([external-daemon/src/dsh]):
      the ACP dialect, sessions, offers and settlements; theorems in [DshProps.v].
    - [DshProfile.v] ([subagents/dsh/src/profile.rs]): launches of dsh, the generated
      patch, and the judgement of the configuration dsh prints before it may be
      prompted, with its theorems.
    - [Factories.v] ([codex/factory.rs], [dsh/factory.rs]): what is prepared and verified
      before a child of codex or dsh is started, with its theorems.
    - [Provider.v] ([zcode/provider.rs]): the provider file composed for zcode, its atomic
      writing and the environment that names it, with its theorems.

    The MCP server ([external-daemon/src/mcp]): [Mcp.v], every tool as a client of the
    dispatcher, public ids, errors and views, with its theorems.

    Shared: [Prelude.v] (results, panics, tactics, hint databases, list lemmas),
    [RustStr.v], [Utf8.v] and [RustPath.v] (Rust's [str] and [Path] as the source
    uses them), [Json.v] ([serde_json::Value]).

    The components meet where the program composes them: [General.launcher]
    builds the [Launcher] whose decisions call the command grammar and
    [Denial]; the store's operations compose through one transaction monad, and the
    scheduler's operations are sequences of them ([Sched]), with the calls of a
    runtime in between ([Act] on a [World]).  Every operation of the scheduler is
    shown to be a history of the store's transition system, so the store's theorems
    hold of the scheduler.

    ** What the theorems show

    - Confinement: the one directory entry an allowed file change names, every link
      resolved, is in the writable locations ([allowed_mutation_confined]), from the
      manifest on ([prepared_task_write_confined]); every allowed tool call is in one
      of three classes, and the arguments of a shell command that are not confined
      paths are named ([allowed_tool_call_classified]); denials have a closed
      vocabulary and sensitive ones tell the agent to stop.
    - The command grammar: the tokenizer and the git policy against declarative
      grammars, no bare metacharacter, quoting round trips, no git option that writes,
      executes or leaves the repository, operands accounted for.
    - The store: refinement of the task machine, one unfinished task per
      workspace, phases against open work, the ledger as history, cancellation
      and closing as final, epochs as fences, exactly-once records, immutable
      results, ordered claims, resume as all or nothing.
    - The contract: strict responses, round trips, authoritative projections,
      exact model comparison, answers only from the offered options.
    - Observation: bounds and exact counts of what is recorded, replays without
      effect, the text of a wait delivered once, exact counters of the window.
    - A runtime: the first terminal wins, a terminal claims no more than was
      observed, an answer is one the runtime offered; a Codex thread moves by a
      two-state machine of turns and is adopted only when every echo confirms it.
    - The scheduler: a message reaches the runtime at most once and a repeated send
      changes nothing; the delivery loop ends; a task closed through its runtime
      ends with an honest outcome; startup recovery ends the tasks that need
      it and leaves every other row untouched; a claim that is not started leaves nothing running and
      one that is started runs under its epoch; the monitor gives up only an entry
      that is released or taken over, a transport fault outranks all it sees, and
      what it stores is honest; a submission's wait reports a cancellation exactly
      when it recorded one; an activation is handed out only when everything is
      reaped and stays valid; failure records keep the longest tail that fits.
    - The RPC service: a wait answers with what the first telling poll showed and a wait
      on a list accounts for every agent; responses fit their frame, are only shortened,
      are whole when they fit, and are refused only if their least form does not; a configuration is read as written; profile names are unambiguous;
      admission grants exactly what configuration and profiles allow; a shown status is
      the finding of the last probe that looked, and lasts until a look or a change of
      revision or scope; a probe counts only on a clean turn; pages enumerate the tasks;
      every frame is answered; instructions are delivered once; a draining service
      refuses submissions.
    - Processes and adapters: signals go only to the group that was persisted, checked
      before each; of concurrent stops one is performed; a pending request is answered
      once, also when the child is lost; messages survive the wire; agy inputs are
      accounted for and a settled turn is final; a dsh session is prompted only after
      every verification, its settlement sees the frames before it, and a dump in the
      provider's shape admits a launch exactly when it has the pinned controls, tools,
      guard and executors; a child
      is started only behind that judgement for its task's mode and manifest; a provider
      file is composed faithfully and seen whole or not at all.
    - The MCP server: a tool call is the dispatcher's call of the same name, its
      observations pass its own checks, and internal details are not disclosed.

    ** Modelling choices

    Strings are UTF-8 byte sequences; integers of a column or a wire field are
    [Z] with the conversions of the source and their failures.  Errors are
    values of [result]; an index out of range is [Panics].  Loops over an index
    are recursions on the remaining input.  An operation that holds a lock is one
    step; where the source releases the lock or waits, what the other threads did
    meanwhile is an argument or part of the call's effect.

    Fuel: [Launcher.resolve_loop] gets one more than the number of components of the
    path, and each round drops one ([resolve_loop_fuel]); [Tree.walk] bounds the
    links followed, as an operating system does; [General.allocate_loop] has the 32
    rounds of the source; [Utf8.next_boundary] gets the length of the string
    ([next_boundary_spec]); [Diagnostics.bisect] the number of candidates, and
    [shrink_budgets] the 7 halvings that reach the floor; [Messages.deliver_queued]
    one more than the number of stored messages ([delivery_loop_terminates]);
    [RpcBound.halve_pages], [fit_loop] and [bisect_last] the length of what they
    shorten; [AgentStatus.walk_option] the depth the source allows; the
    reading of all pages of a list one more than the number of tasks; [Transport.read_loop] and
    [lossy_loop] the length of the stream; [Provider.ancestors] the length of the path
    ([ancestors_unfold]).  The walks of [DshProfile] are structural.
    The polls of a wait and of the reaper bound what is observed before the deadline.  The
    rounds of [Starting.start_ready] and [Monitor.monitor], and the polls of
    [StartWait], bound an observation, not the program: the theorems hold for every
    number of them, and a run that is not over by then says so in its result.

    A store operation reads the clock once, where the source may read it again for a
    second column.  [restore_terminal_after_resume_failure] is modelled but is not a
    step of the store: nothing calls it.

    Parameters: the file system, the creation of a scratch directory (its name
    holds a hash, the clock and random bytes), the digest of a result, decoding and
    encoding of JSON text (with [CompactJson], the size of compact output, where a
    bound needs it), serde's derived codec of a prepared task, the wording of errors
    of SQLite and serde and of [{:?}], the order in which a hash set is iterated, the
    clocks, what stopping or observing a process group showed, what other threads do
    while a lock is awaited or the monitor pauses ([wait_operation], [pause]), the
    factory of runtimes, the re-creation of a scratch directory ([create_dir_all]),
    the check of the runtime's file, [CODEX_HOME], the package's version, the listing
    of the profile directory, the order of a hash map, what a probe observed, the
    environment, random ids, the operating system's answers as functions of what was
    asked before, the bounds of lines and messages, a driver's answers, the parser and
    printer of YAML, the output of dsh's probes, the host of a factory, the system's
    answers while a file is written, the encoder and the transport of the
    MCP facade, and a runtime's calls with what other threads do during them
    ([RuntimeLaws]: they move the database by histories of the store and hand over no
    message themselves).

    ** What is not modelled

    Schema creation and migration, opening the database, the Windows path projection
    and the outgoing parameter structs of the contract.  Of the scheduler, the writer of
    the diagnostics log, [shutdown_all] and the table of failures that [record_failure]
    fills for diagnostics.  Sockets and named pipes, the spawning of processes, pipes
    with deadlines, the observers of the platforms and Windows jobs.  Of MCP, the
    schemas and descriptions of the tools, serde's decoders, the stdio server and the
    client binary.  The gates of the test harness, log lines, and the entry points of
    the daemon.  These are I/O, or text that another program reads. *)
From Stdlib Require Export ZArith Lia Ascii.
From stdpp Require Export base tactics strings option sets list.

Declare Scope agent_scope.
Delimit Scope agent_scope with agent.
#[global] Open Scope string_scope.
#[global] Open Scope agent_scope.
#[global] Open Scope nat_scope.
#[global] Open Scope list_scope.

(** Boolean equality of Rust strings, as the source's [==] on [&str]. *)
Notation "a ≟ b" := (String.eqb a b) (at level 70, no associativity) : agent_scope.

(** ** Result: Rust's [Result<T, E>] with the [?] operator as bind *)

Inductive result (E A : Type) : Type :=
| Ok (a : A)
| Err (e : E).
Arguments Ok {E A} a.
Arguments Err {E A} e.

#[global] Instance result_ret {E} : MRet (result E) := fun _ a => Ok a.
#[global] Instance result_bind {E} : MBind (result E) := fun _ _ f m =>
  match m with Ok a => f a | Err e => Err e end.
#[global] Instance result_fmap {E} : FMap (result E) := fun _ _ f m =>
  match m with Ok a => Ok (f a) | Err e => Err e end.

#[global] Instance result_eq_dec {E A} `{EqDecision E, EqDecision A} :
  EqDecision (result E A).
Proof. solve_decision. Defined.

(** [Option::ok_or]. *)
Definition ok_or {E A} (e : E) (o : option A) : result E A :=
  match o with Some a => Ok a | None => Err e end.

(** ** Outcome: a Rust call either returns or panics (index out of range) *)

Inductive outcome (A : Type) : Type :=
| Returns (a : A)
| Panics.
Arguments Returns {A} a.
Arguments Panics {A}.

#[global] Instance outcome_ret : MRet outcome := fun _ a => Returns a.
#[global] Instance outcome_bind : MBind outcome := fun _ _ f m =>
  match m with Returns a => f a | Panics => Panics end.

(** [slice[n..]]: panics when [n] exceeds the length. *)
Definition slice_from {A} (n : nat) (l : list A) : outcome (list A) :=
  if Nat.leb n (length l) then Returns (drop n l) else Panics.

(** ** The development's hint databases and tactics *)

Create HintDb agent discriminated.
Create Rewrite HintDb agent_rw.
Create Rewrite HintDb store.

(** Splits boolean conjunctions, negations and disjunctions in hypotheses into
    propositions, and turns [≟] and [String.eqb] facts into equations. *)
Ltac bool_hyp :=
  repeat match goal with
  | H : _ && _ = true |- _ => apply andb_true_iff in H; destruct H
  | H : _ || _ = false |- _ => apply orb_false_iff in H; destruct H
  | H : negb _ = true |- _ => apply negb_true_iff in H
  | H : negb _ = false |- _ => apply negb_false_iff in H
  | H : String.eqb ?a ?a = false |- _ => rewrite String.eqb_refl in H; discriminate
  | H : String.eqb _ _ = true |- _ => apply String.eqb_eq in H
  | H : String.eqb _ _ = false |- _ => apply String.eqb_neq in H
  | H : bool_decide _ = true |- _ => apply bool_decide_eq_true in H
  | H : bool_decide _ = false |- _ => apply bool_decide_eq_false in H
  | H : Nat.leb _ _ = true |- _ => apply Nat.leb_le in H
  | H : Nat.leb _ _ = false |- _ => apply Nat.leb_gt in H
  | H : Nat.ltb _ _ = true |- _ => apply Nat.ltb_lt in H
  | H : Nat.ltb _ _ = false |- _ => apply Nat.ltb_ge in H
  | H : Z.leb _ _ = true |- _ => apply Z.leb_le in H
  | H : Z.leb _ _ = false |- _ => apply Z.leb_gt in H
  | H : Z.ltb _ _ = true |- _ => apply Z.ltb_lt in H
  | H : Z.ltb _ _ = false |- _ => apply Z.ltb_ge in H
  | H : Z.eqb _ _ = true |- _ => apply Z.eqb_eq in H
  | H : Z.eqb _ _ = false |- _ => apply Z.eqb_neq in H
  end.

(** Case analysis on the scrutinee of the outermost [if] or [match] of a
    hypothesis, dropping the impossible branches. *)
Ltac case_in H :=
  repeat match type of H with
  | context [match ?x with _ => _ end] =>
      lazymatch x with
      | context [match _ with _ => _ end] => fail
      | _ => destruct x eqn:?; try discriminate H
      end
  end.

(** One step of [case_in], for hypotheses with many branches. *)
Ltac case_step H :=
  match type of H with
  | context [match ?x with _ => _ end] =>
      lazymatch x with
      | context [match _ with _ => _ end] => fail
      | _ => destruct x eqn:?; try discriminate H
      end
  end.

(** ** Generic lemmas *)

Section result_lemmas.
Context {E A B : Type}.

Lemma result_bind_ok (m : result E A) (f : A → result E B) (b : B) :
  (m ≫= f) = Ok b ↔ ∃ a, m = Ok a ∧ f a = Ok b.
Proof. destruct m; simpl; naive_solver. Qed.

Lemma result_bind_err (m : result E A) (f : A → result E B) (e : E) :
  (m ≫= f) = Err e ↔ m = Err e ∨ ∃ a, m = Ok a ∧ f a = Err e.
Proof. destruct m; simpl; naive_solver. Qed.

Lemma ok_or_ok (e : E) (o : option A) a : ok_or e o = Ok a ↔ o = Some a.
Proof. destruct o; simpl; naive_solver. Qed.
End result_lemmas.

(** [iter().map(f).collect::<Result<Vec<_>, _>>()]: the first error wins. *)
Fixpoint traverse {E A B} (f : A → result E B) (l : list A) : result E (list B) :=
  match l with
  | [] => Ok []
  | a :: l' => b ← f a; bs ← traverse f l'; Ok (b :: bs)
  end.

Lemma traverse_ok {E A B} (f : A → result E B) l bs :
  traverse f l = Ok bs ↔ Forall2 (λ a b, f a = Ok b) l bs.
Proof.
  revert bs; induction l as [|a l IH]; intros bs; simpl.
  - split; [intros [= <-]; constructor | inversion 1; done].
  - split.
    + intros (b & Hb & (bs' & Hbs & [= <-])%result_bind_ok)%result_bind_ok.
      constructor; [done | by apply IH].
    + inversion 1 as [|? b ? bs' Hb Hbs]; simplify_eq.
      rewrite Hb; simpl. apply IH in Hbs. by rewrite Hbs.
Qed.

(** [iter().map(f).collect::<Option<Vec<_>>>()]. *)
Fixpoint collect_option {A B} (f : A → option B) (l : list A) : option (list B) :=
  match l with
  | [] => Some []
  | a :: l' => b ← f a; bs ← collect_option f l'; Some (b :: bs)
  end.

(** [matches!(s, "a" | "b" | ...)]. *)
Definition one_of (s : string) (l : list string) : bool := existsb (String.eqb s) l.
#[global] Arguments one_of : simpl never.

Lemma one_of_true s l : one_of s l = true ↔ s ∈ l.
Proof.
  unfold one_of. rewrite existsb_exists. split.
  - intros (x & Hin & Heq). apply String.eqb_eq in Heq as ->. by apply list_elem_of_In.
  - intros Hin. exists s. split; [by apply list_elem_of_In | apply String.eqb_refl].
Qed.

Lemma one_of_false s l : one_of s l = false ↔ s ∉ l.
Proof. rewrite <- one_of_true. destruct (one_of s l); naive_solver. Qed.

Lemma forallb_true_iff {A} (P : A → bool) (l : list A) :
  forallb P l = true ↔ ∀ x, x ∈ l → P x = true.
Proof.
  rewrite forallb_forall. split; intros H x Hx; apply H; by apply list_elem_of_In.
Qed.

Lemma existsb_true_iff {A} (P : A → bool) (l : list A) :
  existsb P l = true ↔ ∃ x, x ∈ l ∧ P x = true.
Proof.
  rewrite existsb_exists. split; intros (x & Hx & HP); exists x;
    (split; [by apply list_elem_of_In | done]).
Qed.

Lemma existsb_false_iff {A} (P : A → bool) (l : list A) :
  existsb P l = false ↔ ∀ x, x ∈ l → P x = false.
Proof.
  split.
  - intros H x Hx. destruct (P x) eqn:E; [|done].
    assert (existsb P l = true); [|congruence].
    apply existsb_true_iff; eauto.
  - intros H. destruct (existsb P l) eqn:E; [|done].
    apply existsb_true_iff in E as (x & Hx & HP). by rewrite (H x Hx) in HP.
Qed.

#[export] Hint Rewrite @result_bind_ok @ok_or_ok one_of_true @forallb_true_iff
  @existsb_true_iff : agent_rw.
