(* ===== verification/RustStr.v ===== *)
(** * Rust [str] operations

    Rust strings are UTF-8 byte sequences.  A [string] here is the byte
    sequence itself, so [String.length] is [str::len], and every ASCII-only
    operation of the source (prefix, suffix and substring tests, splitting at an
    ASCII separator, ASCII case folding) acts byte by byte.  Only iteration over
    [char]s and Unicode white space need decoding: [chars] cuts a string at the
    lengths its leading bytes announce. *)

From S2P Require Import Prelude.

Definition byte_of (n : nat) : ascii := Ascii.ascii_of_nat n.
Definition code (c : ascii) : nat := Ascii.nat_of_ascii c.

(** The double quote character (a literal cannot hold it). *)
Definition dquote : ascii := byte_of 34.
Definition squote : ascii := "'"%char.

(** ** Byte classes *)

Definition is_ascii_digit (c : ascii) : bool :=
  Nat.leb 48 (code c) && Nat.leb (code c) 57.
Definition is_ascii_uppercase (c : ascii) : bool :=
  Nat.leb 65 (code c) && Nat.leb (code c) 90.
Definition is_ascii_lowercase (c : ascii) : bool :=
  Nat.leb 97 (code c) && Nat.leb (code c) 122.
Definition is_ascii_alphanumeric (c : ascii) : bool :=
  is_ascii_digit c || is_ascii_uppercase c || is_ascii_lowercase c.

Definition ascii_lower (c : ascii) : ascii :=
  if is_ascii_uppercase c then byte_of (code c + 32) else c.

(** ** Whole-string operations *)

Definition str_is_empty (s : string) : bool :=
  match s with EmptyString => true | _ => false end.

Fixpoint str_all (P : ascii → bool) (s : string) : bool :=
  match s with EmptyString => true | String c s' => P c && str_all P s' end.

Definition str_any (P : ascii → bool) (s : string) : bool :=
  negb (str_all (λ c, negb (P c)) s).

Fixpoint str_map (f : ascii → ascii) (s : string) : string :=
  match s with EmptyString => EmptyString | String c s' => String (f c) (str_map f s') end.

Definition to_ascii_lowercase (s : string) : string := str_map ascii_lower s.

(** [str::replace(from, to)] for single-byte characters. *)
Definition replace_char (from to : ascii) (s : string) : string :=
  str_map (λ c, if Ascii.eqb c from then to else c) s.

Fixpoint strip_prefix (p s : string) : option string :=
  match p, s with
  | EmptyString, _ => Some s
  | String a p', String b s' => if Ascii.eqb a b then strip_prefix p' s' else None
  | String _ _, EmptyString => None
  end.

Definition starts_with (s p : string) : bool :=
  match strip_prefix p s with Some _ => true | None => false end.

Definition starts_with_char (s : string) (c : ascii) : bool :=
  match s with String a _ => Ascii.eqb a c | EmptyString => false end.

Fixpoint ends_with (s p : string) : bool :=
  (s ≟ p) || match s with EmptyString => false | String _ s' => ends_with s' p end.

Fixpoint str_contains (s p : string) : bool :=
  starts_with s p || match s with EmptyString => false | String _ s' => str_contains s' p end.

Definition contains_char (s : string) (c : ascii) : bool := str_any (Ascii.eqb c) s.

(** [str::strip_suffix(char)]. *)
Fixpoint strip_suffix_char (c : ascii) (s : string) : option string :=
  match s with
  | EmptyString => None
  | String a EmptyString => if Ascii.eqb a c then Some EmptyString else None
  | String a s' => option_map (String a) (strip_suffix_char c s')
  end.

(** [str::split_once(char)]. *)
Fixpoint split_once (c : ascii) (s : string) : option (string * string) :=
  match s with
  | EmptyString => None
  | String a s' =>
      if Ascii.eqb a c then Some (EmptyString, s')
      else option_map (λ '(x, y), (String a x, y)) (split_once c s')
  end.

(** [str::split(char)]: always at least one piece. *)
Fixpoint split_char (c : ascii) (s : string) : list string :=
  match s with
  | EmptyString => [EmptyString]
  | String a s' =>
      if Ascii.eqb a c then EmptyString :: split_char c s'
      else match split_char c s' with
           | x :: xs => String a x :: xs
           | [] => [String a EmptyString]
           end
  end.

Fixpoint join_with (sep : string) (l : list string) : string :=
  match l with
  | [] => EmptyString
  | [x] => x
  | x :: l' => x +:+ sep +:+ join_with sep l'
  end.

(** [trim_start_matches(c)]. *)
Fixpoint trim_start_matches (c : ascii) (s : string) : string :=
  match s with
  | String a s' => if Ascii.eqb a c then trim_start_matches c s' else s
  | EmptyString => EmptyString
  end.

(** ** Characters *)

(** Bytes a character needs after its leading byte. *)
Definition utf8_extra (c : ascii) : nat :=
  if Nat.leb 240 (code c) then 3
  else if Nat.leb 224 (code c) then 2
  else if Nat.leb 192 (code c) then 1 else 0.

(** [str::chars], each character as its own byte string.  The first argument is
    the number of continuation bytes still owed to the last character. *)
Fixpoint chars_from (owed : nat) (s : string) : list string :=
  match s with
  | EmptyString => []
  | String c s' =>
      match owed with
      | 0 => match utf8_extra c, chars_from (utf8_extra c) s' with
             | 0, l => String c EmptyString :: l
             | S _, x :: l => String c x :: l
             | S _, [] => [String c EmptyString]
             end
      | 1 => String c EmptyString :: chars_from 0 s'
      | S (S k) => match chars_from (S k) s' with
                   | x :: l => String c x :: l
                   | [] => [String c EmptyString]
                   end
      end
  end.

Definition chars (s : string) : list string := chars_from 0 s.

Definition bytes3 (a b c : nat) : string :=
  String (byte_of a) (String (byte_of b) (String (byte_of c) EmptyString)).

(** [char::is_whitespace]: the Unicode White_Space property. *)
Definition whitespace_chars : list string :=
  map (λ n, String (byte_of n) EmptyString) [9; 10; 11; 12; 13; 32] ++
  map (λ n, String (byte_of 194) (String (byte_of n) EmptyString)) [133; 160] ++
  [bytes3 225 154 128] ++
  map (bytes3 226 128)
    [128; 129; 130; 131; 132; 133; 134; 135; 136; 137; 138; 168; 169; 175] ++
  [bytes3 226 129 159; bytes3 227 128 128].

Definition is_whitespace (ch : string) : bool := one_of ch whitespace_chars.

(** [s.trim().is_empty()]. *)
Definition trim_is_empty (s : string) : bool := forallb is_whitespace (chars s).

(** ** Integer parsing: [str::parse::<uN>()] accepts an optional [+] and at least
    one ASCII digit, and fails on overflow of the type's [max]. *)

Definition digit_value (c : ascii) : Z := (Z.of_nat (code c) - 48)%Z.

Fixpoint parse_digits (max acc : Z) (s : string) : option Z :=
  match s with
  | EmptyString => Some acc
  | String c s' =>
      if is_ascii_digit c then
        let acc' := (acc * 10 + digit_value c)%Z in
        if Z.leb acc' max then parse_digits max acc' s' else None
      else None
  end.

Definition parse_unsigned (max : Z) (s : string) : option Z :=
  match s with
  | EmptyString => None
  | String "+" EmptyString => None
  | String "+" s' => parse_digits max 0 s'
  | _ => parse_digits max 0 s
  end.

Definition u8_max : Z := 255.
Definition u16_max : Z := 65535.
Definition u32_max : Z := 4294967295.
Definition u64_max : Z := 18446744073709551615.
Definition i64_max : Z := 9223372036854775807.

(** [u64::saturating_add] and [u64::saturating_sub]. *)
Definition saturating_add (a b : Z) : Z := Z.min u64_max (a + b).
Definition saturating_sub (a b : Z) : Z := Z.max 0 (a - b).

(** The [NUL] byte, as a one-byte string. *)
Definition nul_str : string := String (byte_of 0) EmptyString.

(** ** Lemmas *)

#[global] Arguments String.append : simpl nomatch.

Lemma strip_prefix_some p s r : strip_prefix p s = Some r ↔ s = p +:+ r.
Proof.
  revert s; induction p as [|a p IH]; intros s; simpl.
  - split; [by intros [= ->] | by intros ->].
  - destruct s as [|b s]; [done|].
    destruct (Ascii.eqb_spec a b) as [->|Hne].
    + rewrite IH. split; [by intros -> | by intros [= ->]].
    + split; [done | by intros [= ->]].
Qed.

Lemma starts_with_true s p : starts_with s p = true ↔ ∃ r, s = p +:+ r.
Proof.
  unfold starts_with. destruct (strip_prefix p s) as [r|] eqn:E.
  - apply strip_prefix_some in E. by split; [intros _; exists r|].
  - split; [done|]. intros (r & Hr%strip_prefix_some). congruence.
Qed.

Lemma split_once_some c s x y :
  split_once c s = Some (x, y) → s = x +:+ String c y.
Proof.
  revert x y; induction s as [|a s IH]; intros x y; simpl; [done|].
  destruct (Ascii.eqb_spec a c) as [->|Hne]; [by intros [= <- <-]|].
  destruct (split_once c s) as [[x' y']|]; simpl; [|done].
  intros [= <- <-]. by rewrite (IH x' y' eq_refl).
Qed.

Lemma split_char_nonempty c s : split_char c s ≠ [].
Proof. induction s as [|a s IH]; simpl; [done|]. repeat case_match; done. Qed.

Lemma split_char_app c s t :
  split_char c (s +:+ String c t) = split_char c s ++ split_char c t.
Proof.
  induction s as [|a s IH]; simpl.
  - by rewrite Ascii.eqb_refl.
  - destruct (Ascii.eqb a c); simpl; [by rewrite IH|].
    rewrite IH. destruct (split_char c s) eqn:E; [|done].
    by apply split_char_nonempty in E.
Qed.

Lemma string_app_assoc (a b c : string) : (a +:+ b) +:+ c = a +:+ (b +:+ c).
Proof. induction a as [|x a IH]; simpl; [done|]. by rewrite IH. Qed.

Lemma string_app_nil_r (a : string) : a +:+ "" = a.
Proof. induction a as [|x a IH]; simpl; [done|]. by rewrite IH. Qed.

Lemma string_app_length (a b : string) :
  String.length (a +:+ b) = String.length a + String.length b.
Proof. induction a as [|x a IH]; simpl; [done|]. by rewrite IH. Qed.

Lemma str_all_app P a b : str_all P (a +:+ b) = str_all P a && str_all P b.
Proof. induction a as [|x a IH]; simpl; [done|]. by rewrite IH, andb_assoc. Qed.

Lemma parse_digits_bound max acc s n :
  parse_digits max acc s = Some n → (0 ≤ acc ≤ max)%Z → (0 ≤ n ≤ max)%Z.
Proof.
  revert acc; induction s as [|c s IH]; intros acc; simpl; [by intros [= <-]|].
  destruct (is_ascii_digit c) eqn:Hd; [|done].
  destruct (Z.leb_spec (acc * 10 + digit_value c) max); [|done].
  intros Hp Hacc. apply IH in Hp; [done|].
  unfold is_ascii_digit in Hd. unfold digit_value in *. bool_hyp. lia.
Qed.

Lemma parse_unsigned_bound max s n :
  parse_unsigned max s = Some n → (0 ≤ max)%Z → (0 ≤ n ≤ max)%Z.
Proof.
  unfold parse_unsigned. intros H Hmax.
  repeat case_match; try done; eapply parse_digits_bound; eauto; lia.
Qed.

(** ** Characters of concatenations *)

(** Continuation bytes still owed after reading [s] with [owed] outstanding. *)
Fixpoint owed_after (owed : nat) (s : string) : nat :=
  match s with
  | EmptyString => owed
  | String c s' => owed_after (match owed with 0 => utf8_extra c | S k => k end) s'
  end.

(** A string that ends on a character boundary, as every Rust [str] does. *)
Definition char_aligned (s : string) : Prop := owed_after 0 s = 0.

Lemma chars_from_app owed a b :
  owed_after owed a = 0 → chars_from owed (a +:+ b) = chars_from owed a ++ chars_from 0 b.
Proof.
  revert owed; induction a as [|c a IH]; intros owed; simpl.
  - by intros ->.
  - destruct owed as [|[|k]]; intros H.
    + rewrite IH by done.
      destruct (utf8_extra c) as [|e] eqn:He; [done|].
      destruct (chars_from (S e) a) eqn:Ea; [|done].
      destruct a as [|a0 a]; [simpl in H; lia|].
      simpl in Ea. repeat case_match; done.
    + by rewrite IH.
    + rewrite IH by done. destruct (chars_from (S k) a) eqn:Ea; [|done].
      destruct a as [|a0 a]; [simpl in H; lia|].
      simpl in Ea. repeat case_match; done.
Qed.

Lemma chars_app a b : char_aligned a → chars (a +:+ b) = chars a ++ chars b.
Proof. apply chars_from_app. Qed.

Lemma chars_from_concat owed s acc :
  fold_left String.append (chars_from owed s) acc = acc +:+ s.
Proof.
  revert owed acc; induction s as [|c s IH]; intros owed acc; simpl.
  - by rewrite string_app_nil_r.
  - assert (Hsnoc : ∀ k, fold_left String.append
        (match chars_from k s with
         | [] => [String c EmptyString] | x :: l => String c x :: l end) acc
        = acc +:+ String c s).
    { intros k. specialize (IH k (acc +:+ String c EmptyString)).
      rewrite string_app_assoc in IH. simpl in IH.
      destruct (chars_from k s) as [|x l] eqn:E; simpl.
      - simpl in IH. done.
      - simpl in IH. rewrite <- IH. f_equal. by rewrite string_app_assoc. }
    assert (Hcons : ∀ k, fold_left String.append (String c EmptyString :: chars_from k s) acc
        = acc +:+ String c s).
    { intros k. simpl. rewrite IH, string_app_assoc. done. }
    destruct owed as [|[|k]].
    + destruct (utf8_extra c); [apply Hcons | apply Hsnoc].
    + apply Hcons.
    + apply Hsnoc.
Qed.

Lemma chars_concat s acc : fold_left String.append (chars s) acc = acc +:+ s.
Proof. apply chars_from_concat. Qed.

(** ** Splitting and joining *)

Lemma split_char_join c s : join_with (String c EmptyString) (split_char c s) = s.
Proof.
  induction s as [|a s IH]; simpl; [done|].
  destruct (split_char c s) as [|h r] eqn:E; [by apply split_char_nonempty in E|].
  destruct (Ascii.eqb_spec a c) as [->|Hne].
  - simpl in *. by rewrite IH.
  - destruct r; simpl in *; by rewrite IH.
Qed.

Lemma split_char_absent c s : str_all (λ a, negb (Ascii.eqb a c)) s = true → split_char c s = [s].
Proof.
  induction s as [|a s IH]; simpl; [done|]. intros [Ha Hs]%andb_true_iff.
  apply negb_true_iff in Ha. rewrite Ha. by rewrite IH.
Qed.

Lemma strip_suffix_char_app c s : strip_suffix_char c (s +:+ String c EmptyString) = Some s.
Proof.
  induction s as [|a s IH]; simpl.
  - by rewrite Ascii.eqb_refl.
  - rewrite IH. by destruct s.
Qed.

Lemma strip_suffix_char_some c s r :
  strip_suffix_char c s = Some r → s = r +:+ String c EmptyString.
Proof.
  revert r; induction s as [|a s IH]; intros r; simpl; [done|].
  destruct s as [|b s].
  - destruct (Ascii.eqb_spec a c) as [->|]; by intros [= <-].
  - destruct (strip_suffix_char c (String b s)) as [r'|]; simpl; [|done].
    intros [= <-]. by rewrite (IH r' eq_refl).
Qed.

Lemma str_all_impl (P Q : ascii → bool) s :
  (∀ c, P c = true → Q c = true) → str_all P s = true → str_all Q s = true.
Proof.
  intros HPQ. induction s as [|a s IH]; simpl; [done|].
  intros [Ha Hs]%andb_true_iff. by rewrite (HPQ _ Ha), (IH Hs).
Qed.

Lemma contains_char_cons c a s : contains_char (String a s) c = Ascii.eqb c a || contains_char s c.
Proof. unfold contains_char, str_any. simpl. destruct (Ascii.eqb c a); simpl; done. Qed.

Lemma contains_char_app a b c :
  contains_char (a +:+ b) c = contains_char a c || contains_char b c.
Proof. unfold contains_char, str_any. by rewrite str_all_app, negb_andb. Qed.

Lemma split_once_none c s : split_once c s = None ↔ contains_char s c = false.
Proof.
  induction s as [|a s IH]; [done|]. rewrite contains_char_cons. cbn [split_once].
  rewrite (Ascii.eqb_sym c a). destruct (Ascii.eqb a c); [done|].
  cbn [orb]. rewrite <- IH. by destruct (split_once c s) as [[]|].
Qed.

Lemma split_once_app c p m :
  contains_char p c = false → split_once c (p +:+ String c m) = Some (p, m).
Proof.
  induction p as [|a p IH]; simpl; [by rewrite Ascii.eqb_refl|].
  rewrite contains_char_cons, (Ascii.eqb_sym c a). intros [-> Hp]%orb_false_iff.
  by rewrite IH.
Qed.

(** Clients reason about these through the lemmas above. *)
#[global] Arguments strip_prefix : simpl never.
#[global] Arguments starts_with : simpl never.
#[global] Arguments split_once : simpl never.
#[global] Arguments str_contains : simpl never.
#[global] Arguments ends_with : simpl never.
#[global] Arguments String.eqb : simpl never.
#[global] Arguments Ascii.eqb : simpl never.
