(* ===== verification/Utf8.v ===== *)
(** * Character boundaries and rolling windows

    [str::is_char_boundary], the two loops the daemon writes around it (forward
    to the next boundary before it drops a prefix, backward to the previous one
    before it cuts a suffix), and slicing, which panics off a boundary.

    A Rust [str] never starts inside a character; [starts_char] states that, and
    it is all the windows below need of UTF-8. *)

From S2P Require Import Prelude RustStr.

(** A byte [10xxxxxx]: inside a character, never its first byte. *)
Definition is_continuation (c : ascii) : bool :=
  Nat.leb 128 (code c) && Nat.ltb (code c) 192.

Definition starts_char (s : string) : bool :=
  match s with String c _ => negb (is_continuation c) | EmptyString => true end.

Fixpoint str_drop (n : nat) (s : string) : string :=
  match n, s with
  | 0, _ => s
  | S n', String _ s' => str_drop n' s'
  | S _, EmptyString => EmptyString
  end.

Fixpoint str_take (n : nat) (s : string) : string :=
  match n, s with
  | S n', String c s' => String c (str_take n' s')
  | _, _ => EmptyString
  end.

(** [str::is_char_boundary]: both ends are boundaries, past the end is not. *)
Definition is_char_boundary (s : string) (i : nat) : bool :=
  match i with
  | 0 => true
  | _ => Nat.leb i (String.length s) && starts_char (str_drop i s)
  end.

(** [&s[i..]] and [&s[..i]] panic off a boundary. *)
Definition slice_tail (i : nat) (s : string) : outcome string :=
  if is_char_boundary s i then Returns (str_drop i s) else Panics.
Definition slice_head (i : nat) (s : string) : outcome string :=
  if is_char_boundary s i then Returns (str_take i s) else Panics.

(** [while !s.is_char_boundary(i) { i += 1 }]; the end of the string is a
    boundary, so [length s - i] rounds are enough. *)
Fixpoint next_boundary (fuel : nat) (s : string) (i : nat) : nat :=
  if is_char_boundary s i then i
  else match fuel with 0 => i | S fuel' => next_boundary fuel' s (i + 1) end.

(** [while !s.is_char_boundary(i) { i -= 1 }]; zero is a boundary. *)
Fixpoint prev_boundary (s : string) (i : nat) : nat :=
  if is_char_boundary s i then i
  else match i with 0 => 0 | S i' => prev_boundary s i' end.

(** The rolling window of the daemon: above [cap] bytes the head is dropped up to
    the next boundary. *)
Definition roll (cap : nat) (s : string) : string :=
  if Nat.ltb cap (String.length s) then
    let split := String.length s - cap in
    str_drop (next_boundary (String.length s - split) s split) s
  else s.

(** ** Lemmas *)

Lemma str_drop_length n s : String.length (str_drop n s) = String.length s - n.
Proof. revert s; induction n as [|n IH]; intros [|c s]; simpl; auto. Qed.

Lemma str_take_length n s : String.length (str_take n s) = n `min` String.length s.
Proof. revert s; induction n as [|n IH]; intros [|c s]; simpl; auto. Qed.

Lemma str_take_drop n s : str_take n s +:+ str_drop n s = s.
Proof. revert s; induction n as [|n IH]; intros [|c s]; simpl; auto. by rewrite IH. Qed.

Lemma str_drop_app n a b :
  str_drop n (a +:+ b) = str_drop n a +:+ str_drop (n - String.length a) b.
Proof.
  revert n; induction a as [|c a IH]; intros n; simpl.
  - rewrite Nat.sub_0_r. destruct n; [done|]. by destruct b.
  - destruct n as [|n]; simpl; [done|]. apply IH.
Qed.

Lemma str_drop_all n s : String.length s ≤ n → str_drop n s = EmptyString.
Proof.
  revert s; induction n as [|n IH]; intros [|c s]; simpl; try done; [lia|].
  intros. apply IH. lia.
Qed.

Lemma str_drop_drop m n s : str_drop m (str_drop n s) = str_drop (n + m) s.
Proof.
  revert s; induction n as [|n IH]; intros [|c s]; simpl; auto; by destruct m.
Qed.

Lemma str_drop_app_length a b : str_drop (String.length a) (a +:+ b) = b.
Proof. induction a as [|c a IH]; simpl; auto. Qed.

Lemma str_drop_app_le n a b :
  n ≤ String.length a → str_drop n (a +:+ b) = str_drop n a +:+ b.
Proof.
  intros H. rewrite str_drop_app. by replace (n - String.length a) with 0 by lia.
Qed.

Lemma boundary_end s : is_char_boundary s (String.length s) = true.
Proof.
  unfold is_char_boundary. destruct (String.length s) eqn:E; [done|].
  rewrite Nat.leb_refl, str_drop_all by lia. done.
Qed.

Lemma boundary_drop s i :
  starts_char s = true → is_char_boundary s i = true → starts_char (str_drop i s) = true.
Proof. destruct i; [done|]. unfold is_char_boundary. intros _ H. by bool_hyp. Qed.

Lemma boundary_le s i : is_char_boundary s i = true → i ≤ String.length s.
Proof. destruct i; [lia|]. unfold is_char_boundary. intros. by bool_hyp. Qed.

Lemma boundary_of_drop s i :
  i ≤ String.length s → starts_char (str_drop i s) = true → is_char_boundary s i = true.
Proof.
  intros Hi Hs. destruct i as [|i]; [done|]. unfold is_char_boundary. rewrite Hs.
  apply Nat.leb_le in Hi. by rewrite Hi.
Qed.

Lemma starts_char_app a b :
  starts_char a = true → starts_char b = true → starts_char (a +:+ b) = true.
Proof. by destruct a. Qed.

(** The forward loop ends on a boundary, at or after its start. *)
Lemma next_boundary_spec fuel s i :
  i ≤ String.length s → String.length s - i ≤ fuel →
  is_char_boundary s (next_boundary fuel s i) = true
  ∧ i ≤ next_boundary fuel s i ≤ String.length s.
Proof.
  revert i; induction fuel as [|fuel IH]; intros i Hi Hf; simpl.
  - assert (i = String.length s) as -> by lia. rewrite boundary_end, boundary_end. lia.
  - destruct (is_char_boundary s i) eqn:E; [by split|].
    assert (i ≠ String.length s) by (intros ->; by rewrite boundary_end in E).
    destruct (IH (i + 1)) as [Hb Hl]; [lia | lia |]. split; [done | lia].
Qed.

Lemma prev_boundary_spec s i :
  is_char_boundary s (prev_boundary s i) = true ∧ prev_boundary s i ≤ i.
Proof.
  induction i as [|i [IHb IHl]]; [done|]. cbn [prev_boundary].
  destruct (is_char_boundary s (S i)) eqn:E; [done|]. split; [done | lia].
Qed.

Section roll.
Context (cap : nat) (s : string).

Lemma roll_drop : ∃ n, roll cap s = str_drop n s ∧ is_char_boundary s n = true.
Proof.
  unfold roll. destruct (Nat.ltb_spec cap (String.length s)).
  - eexists. split; [done|]. apply next_boundary_spec; lia.
  - by exists 0.
Qed.

Lemma roll_length : String.length (roll cap s) ≤ cap.
Proof.
  unfold roll. destruct (Nat.ltb_spec cap (String.length s)); [|done].
  rewrite str_drop_length.
  destruct (next_boundary_spec (String.length s - (String.length s - cap)) s
              (String.length s - cap)) as [_ ?]; lia.
Qed.

Lemma roll_id : String.length s ≤ cap → roll cap s = s.
Proof. unfold roll. intros H. destruct (Nat.ltb_spec cap (String.length s)); [lia | done]. Qed.

Lemma roll_starts_char : starts_char s = true → starts_char (roll cap s) = true.
Proof. destruct roll_drop as (n & -> & Hb). intros. by apply boundary_drop. Qed.

Lemma roll_suffix : ∃ p, s = p +:+ roll cap s.
Proof. destruct roll_drop as (n & -> & _). exists (str_take n s). by rewrite str_take_drop. Qed.
End roll.

(** The head cut to at most [n] bytes on a boundary. *)
Lemma slice_head_prev n s :
  ∃ r, slice_head (prev_boundary s n) s = Returns r ∧ String.length r ≤ n ∧ ∃ t, s = r +:+ t.
Proof.
  destruct (prev_boundary_spec s n) as [Hb Hl]. unfold slice_head. rewrite Hb.
  eexists. split; [done|]. rewrite str_take_length. split; [lia|].
  eexists. symmetry. apply str_take_drop.
Qed.
