(* ===== verification/RustPath.v ===== *)
(** * Rust [std::path] on Unix

    A path is its byte string; two paths are equal, and one is a prefix of
    another, component-wise ([PartialEq for Path], [Path::starts_with]).  There is
    no [Prefix] component: that variant exists on Windows only. *)

From S2P Require Import Prelude RustStr.

Notation Path := string (only parsing).

Inductive Component :=
| RootDir
| CurDir
| ParentDir
| Normal (name : string).

#[global] Instance Component_eq_dec : EqDecision Component.
Proof. solve_decision. Defined.

Definition slash : ascii := "/"%char.

Definition is_absolute (p : Path) : bool := starts_with_char p slash.

(** A part between separators: empty and [.] parts are skipped. *)
Definition parse_part (s : string) : option Component :=
  if str_is_empty s then None
  else if s ≟ "." then None
  else if s ≟ ".." then Some ParentDir
  else Some (Normal s).

(** [Path::components]: only a leading [.] of a relative path is kept. *)
Definition components (p : Path) : list Component :=
  let parts := split_char slash p in
  if is_absolute p then RootDir :: omap parse_part parts
  else match parts with
       | first :: rest =>
           if first ≟ "." then CurDir :: omap parse_part rest
           else omap parse_part parts
       | [] => []
       end.

Definition component_str (c : Component) : string :=
  match c with
  | RootDir => "/"
  | CurDir => "."
  | ParentDir => ".."
  | Normal name => name
  end.

Definition path_eq (p q : Path) : bool := bool_decide (components p = components q).

Definition path_starts_with (p base : Path) : bool :=
  bool_decide (components base `prefix_of` components p).

(** Last byte of a path, for the separator that [PathBuf::push] may add. *)
Fixpoint last_char (s : string) : option ascii :=
  match s with
  | EmptyString => None
  | String c EmptyString => Some c
  | String _ s' => last_char s'
  end.

(** [Path::join] / [PathBuf::push]. *)
Definition join (base rel : Path) : Path :=
  if is_absolute rel then rel
  else match last_char base with
       | None => rel
       | Some c => if Ascii.eqb c slash then base +:+ rel else base +:+ String slash rel
       end.

(** [components().collect::<PathBuf>()]. *)
Definition collect_components (l : list Component) : Path :=
  fold_left (λ p c, join p (component_str c)) l "".

Fixpoint comp_strip (base l : list Component) : option (list Component) :=
  match base, l with
  | [], _ => Some l
  | b :: base', c :: l' => if decide (b = c) then comp_strip base' l' else None
  | _ :: _, [] => None
  end.

(** [Path::strip_prefix(base).ok()], the remainder rebuilt from its components. *)
Definition path_strip_prefix (p base : Path) : option Path :=
  option_map collect_components (comp_strip (components base) (components p)).

Definition droppable (s : string) : bool := str_is_empty s || (s ≟ ".").

Fixpoint trim_end (l : list string) : list string :=
  match l with
  | [] => []
  | x :: l' => match trim_end l' with
               | [] => if droppable x then [] else [x]
               | l'' => x :: l''
               end
  end.

(** [Path::parent]. *)
Definition parent (p : Path) : option Path :=
  match split_char slash p with
  | [] => None
  | h :: t =>
      match trim_end t with
      | [] => if is_absolute p || str_is_empty h then None else Some ""
      | t' => let t'' := trim_end (removelast t') in
              Some (if is_absolute p && bool_decide (t'' = []) then "/"
                    else join_with "/" (h :: t''))
      end
  end.

(** [Path::file_name]. *)
Definition file_name (p : Path) : option string :=
  match last (components p) with Some (Normal n) => Some n | _ => None end.

Definition has_parent_dir (p : Path) : bool :=
  existsb (λ c, bool_decide (c = ParentDir)) (components p).

(** ** Sanity of the definitions on the cases of the standard documentation *)

Example components_doc :
  components "/tmp//foo/./bar.txt/" = [RootDir; Normal "tmp"; Normal "foo"; Normal "bar.txt"]
  ∧ components "./a/../b" = [CurDir; Normal "a"; ParentDir; Normal "b"]
  ∧ components "" = [] ∧ components "." = [CurDir] ∧ components "/" = [RootDir].
Proof. by vm_compute. Qed.

Example parent_doc :
  parent "/foo/bar" = Some "/foo" ∧ parent "/foo" = Some "/" ∧ parent "/" = None
  ∧ parent "foo/bar" = Some "foo" ∧ parent "foo" = Some "" ∧ parent "" = None
  ∧ parent "/a//b/./c/" = Some "/a//b" ∧ file_name "foo.txt/." = Some "foo.txt"
  ∧ file_name "foo/.." = None ∧ join "/etc" "passwd" = "/etc/passwd"
  ∧ join "/etc" "/bin/sh" = "/bin/sh".
Proof. by vm_compute. Qed.

(** ** Lemmas *)

Lemma path_starts_with_true p base :
  path_starts_with p base = true ↔ components base `prefix_of` components p.
Proof. apply bool_decide_eq_true. Qed.

Lemma path_starts_with_refl p : path_starts_with p p = true.
Proof. apply path_starts_with_true. done. Qed.

Lemma path_starts_with_trans p q r :
  path_starts_with p q = true → path_starts_with q r = true → path_starts_with p r = true.
Proof. rewrite !path_starts_with_true. intros ??. by etrans. Qed.

Lemma is_absolute_app s t : s ≠ "" → is_absolute (s +:+ t) = is_absolute s.
Proof. destruct s; done. Qed.

(** The skipped and kept parts of a path that continues another one. *)
Lemma components_app_slash s t :
  s ≠ "" →
  components (s +:+ String slash t) = components s ++ omap parse_part (split_char slash t).
Proof.
  intros Hs. unfold components. rewrite split_char_app, is_absolute_app by done.
  destruct (is_absolute s); [by rewrite omap_app|].
  destruct (split_char slash s) as [|h r] eqn:E; [by apply split_char_nonempty in E|].
  simpl. destruct (h ≟ "."); [by rewrite omap_app|].
  destruct (parse_part h); [by rewrite omap_app | by rewrite omap_app].
Qed.

Lemma last_char_app_slash s :
  last_char s = Some slash → ∃ s', s = s' +:+ "/".
Proof.
  induction s as [|c s IH]; [done|].
  destruct s as [|d s]; simpl.
  - intros [= ->]. by exists "".
  - intros [s' Hs']%IH. exists (String c s'). by rewrite Hs'.
Qed.

Lemma last_char_none s : last_char s = None ↔ s = "".
Proof.
  split; [|by intros ->]. induction s as [|c s IH]; [done|].
  destruct s; simpl; [done|]. intros H. by specialize (IH H).
Qed.

(** Joining a relative path appends its components to the base. *)
Lemma components_join base rel :
  base ≠ "" → is_absolute rel = false →
  components (join base rel) = components base ++ omap parse_part (split_char slash rel).
Proof.
  intros Hb Hr. unfold join. rewrite Hr.
  destruct (last_char base) as [c|] eqn:Hc; [|by apply last_char_none in Hc].
  destruct (Ascii.eqb_spec c slash) as [->|Hne]; [|by apply components_app_slash].
  apply last_char_app_slash in Hc as [s' ->].
  rewrite string_app_assoc. change ("/" +:+ rel) with (String slash rel).
  destruct (decide (s' = "")) as [->|Hs'].
  - unfold components. simpl. done.
  - rewrite !components_app_slash by done. simpl. by rewrite app_nil_r.
Qed.

Lemma join_absolute base rel : is_absolute rel = true → join base rel = rel.
Proof. intros H. unfold join. by rewrite H. Qed.

Lemma starts_with_join base rel :
  base ≠ "" → is_absolute rel = false → path_starts_with (join base rel) base = true.
Proof.
  intros Hb Hr. apply path_starts_with_true. rewrite components_join by done.
  by apply prefix_app_r.
Qed.

Lemma comp_strip_some base l r : comp_strip base l = Some r ↔ l = base ++ r.
Proof.
  revert l; induction base as [|b base IH]; intros l; simpl.
  - split; [by intros [= ->] | by intros ->].
  - destruct l as [|c l]; [done|]. case_decide as Hd.
    + subst. rewrite IH. split; [by intros -> | by intros [= ->]].
    + split; [done | by intros [= ->]].
Qed.

Lemma comp_strip_none base l : comp_strip base l = None ↔ ¬ base `prefix_of` l.
Proof.
  destruct (comp_strip base l) as [r|] eqn:E.
  - apply comp_strip_some in E. split; [done|]. intros []. by exists r.
  - split; [|done]. intros _ [r Hr%comp_strip_some]. congruence.
Qed.

(** Every component of a canonicalised path is the root or a plain name. *)
Definition plain_component (c : Component) : Prop :=
  match c with RootDir | Normal _ => True | _ => False end.

(** ** [parent] and [file_name] split a path at its last component *)

Definition no_slash (s : string) : Prop := str_all (λ a, negb (Ascii.eqb a slash)) s = true.

Lemma split_char_no_slash p : Forall no_slash (split_char slash p).
Proof.
  induction p as [|c p IH]; simpl; [repeat constructor|].
  destruct (Ascii.eqb c slash) eqn:E; [by constructor|].
  destruct (split_char slash p) as [|h t]; [repeat constructor; unfold no_slash; simpl; by rewrite E|].
  inversion IH; subst. constructor; [|done]. unfold no_slash in *. simpl. by rewrite E.
Qed.

Lemma split_join_with l :
  l ≠ [] → Forall no_slash l → split_char slash (join_with "/" l) = l.
Proof.
  induction l as [|x l IH]; [done|]. intros _ [Hx Hl]%Forall_cons.
  destruct l as [|y l]; [by apply split_char_absent|].
  change (join_with "/" (x :: y :: l)) with (x +:+ String slash (join_with "/" (y :: l))).
  by rewrite split_char_app, split_char_absent, IH.
Qed.

Lemma droppable_parse s : droppable s = true ↔ parse_part s = None.
Proof.
  unfold droppable, parse_part. destruct (str_is_empty s); [done|]. simpl.
  destruct (s ≟ "."); [done|]. by destruct (s ≟ "..").
Qed.

Lemma omap_parse_cons x l :
  omap parse_part (x :: l) = option_list (parse_part x) ++ omap parse_part l.
Proof. simpl. by destruct (parse_part x). Qed.

Lemma trim_end_spec l :
  omap parse_part (trim_end l) = omap parse_part l
  ∧ (trim_end l = [] ∨ ∃ init x, trim_end l = init ++ [x] ∧ droppable x = false).
Proof.
  induction l as [|x l [IH1 IH2]]; [auto|]. rewrite omap_parse_cons, <- IH1. cbn [trim_end].
  destruct (trim_end l) as [|y l'] eqn:E.
  - destruct (droppable x) eqn:Hx.
    + split; [|by left]. apply droppable_parse in Hx. by rewrite Hx.
    + split; [by rewrite omap_parse_cons|]. right. by exists [], x.
  - split; [by rewrite omap_parse_cons|]. right.
    destruct IH2 as [|(init & z & Heq & Hz)]; [done|].
    exists (x :: init), z. simpl. by rewrite Heq.
Qed.

Lemma trim_end_incl l : Forall no_slash l → Forall no_slash (trim_end l).
Proof.
  induction l as [|x l IH]; simpl; [done|]. intros [Hx Hl]%Forall_cons.
  specialize (IH Hl). destruct (trim_end l); [destruct (droppable x); auto | by constructor].
Qed.

Lemma split_absolute p h t :
  split_char slash p = h :: t → is_absolute p = bool_decide (h = "" ∧ t ≠ []).
Proof.
  unfold is_absolute. destruct p as [|c p]; simpl.
  - intros [= <- <-]. symmetry. apply bool_decide_eq_false. naive_solver.
  - destruct (Ascii.eqb c slash) eqn:E.
    + intros [= <- <-]. symmetry. apply bool_decide_eq_true.
      split; [done | apply split_char_nonempty].
    + destruct (split_char slash p); intros [= <- <-]; symmetry; apply bool_decide_eq_false;
        naive_solver.
Qed.

(** The components of a relative or absolute path from its slash-separated parts. *)
Definition part_components (h : string) (t : list string) : list Component :=
  if bool_decide (h = "" ∧ t ≠ []) then RootDir :: omap parse_part t
  else (if h ≟ "." then [CurDir] else option_list (parse_part h)) ++ omap parse_part t.

Lemma components_split p h t :
  split_char slash p = h :: t → components p = part_components h t.
Proof.
  intros E. unfold components, part_components. rewrite (split_absolute _ _ _ E), E.
  case_bool_decide as H; [by destruct H as [-> _]|].
  destruct (h ≟ "."); [done|]. simpl. by destruct (parse_part h).
Qed.

Lemma components_join_with h t :
  Forall no_slash (h :: t) → components (join_with "/" (h :: t)) = part_components h t.
Proof. intros H. apply components_split. by apply split_join_with. Qed.

Lemma part_components_app h t init x :
  omap parse_part t = omap parse_part (init ++ [x]) → t ≠ [] → droppable x = false →
  ∃ c, part_components h t
       = (if bool_decide (h = "") && bool_decide (init = []) then [RootDir]
          else part_components h init) ++ [c].
Proof.
  intros Ht Hne Hx. destruct (parse_part x) as [c|] eqn:Hc;
    [|by apply droppable_parse in Hc; congruence].
  exists c. unfold part_components. rewrite Ht, omap_app. simpl. rewrite Hc.
  destruct (decide (h = "")) as [->|Hh].
  - rewrite bool_decide_eq_true_2 by done. by destruct init.
  - rewrite !(bool_decide_eq_false_2 (h = _ ∧ _)), (bool_decide_eq_false_2 (h = "")) by naive_solver.
    by rewrite app_assoc.
Qed.

(** A name that can stand between separators. *)
Definition plain_name (n : string) : Prop := parse_part n = Some (Normal n) ∧ no_slash n.

Definition plain (c : Component) : Prop :=
  match c with Normal n => plain_name n | _ => True end.

Lemma parse_part_plain s c : no_slash s → parse_part s = Some c → plain c.
Proof.
  intros Hs H. unfold parse_part in H. unfold plain, plain_name, parse_part.
  destruct (str_is_empty s) eqn:E1; [done|]. destruct (s ≟ ".") eqn:E2; [done|].
  destruct (s ≟ "..") eqn:E3; simplify_eq; [done|]. by rewrite E1, E2, E3.
Qed.

Lemma components_plain p : Forall plain (components p).
Proof.
  destruct (split_char slash p) as [|h t] eqn:E; [by apply split_char_nonempty in E|].
  pose proof (split_char_no_slash p) as Hns. rewrite E in Hns. apply Forall_cons in Hns as [Hh Ht].
  assert (Hom : Forall plain (omap parse_part t)).
  { apply Forall_forall. intros c (s & Hs & Hc)%list_elem_of_omap.
    eapply parse_part_plain; [|done]. by eapply Forall_forall in Ht. }
  rewrite (components_split _ _ _ E). unfold part_components.
  case_bool_decide; [by constructor|]. apply Forall_app. split; [|done].
  destruct (h ≟ "."); [by repeat constructor|].
  destruct (parse_part h) as [c|] eqn:Hc; repeat constructor. by eapply parse_part_plain.
Qed.

Lemma omap_plain l : Forall plain_name l → omap parse_part l = Normal <$> l.
Proof.
  induction 1 as [|x l [Hx _] Hl IH]; [done|]. by rewrite omap_parse_cons, Hx, IH.
Qed.

Lemma file_name_plain p n : file_name p = Some n → plain_name n.
Proof.
  unfold file_name. destruct (last (components p)) as [c|] eqn:E; [|done].
  apply last_Some in E as [l El]. pose proof (components_plain p) as Hp.
  rewrite El in Hp. apply Forall_app in Hp as [_ [Hc _]%Forall_cons].
  destruct c; [done..|]. by intros [= ->].
Qed.

Lemma plain_name_relative n : plain_name n → is_absolute n = false.
Proof.
  intros [_ Hs]. destruct n as [|c n]; [done|]. unfold no_slash, is_absolute in *. simpl in *.
  bool_hyp. done.
Qed.

(** Pushing plain names appends them as components. *)
Lemma components_join_plain base n :
  base ≠ "" → plain_name n → components (join base n) = components base ++ [Normal n].
Proof.
  intros Hb Hn. rewrite components_join by auto using plain_name_relative.
  destruct Hn as [Hp Hs]. rewrite split_char_absent by done. simpl. by rewrite Hp.
Qed.

Lemma join_nonempty base n : base ≠ "" → join base n ≠ "".
Proof.
  intros Hb. unfold join. destruct (is_absolute n) eqn:E; [by intros ->|].
  destruct (last_char base) as [c|] eqn:Hc; [|by apply last_char_none in Hc].
  destruct (Ascii.eqb c slash); by destruct base.
Qed.

Lemma components_fold_join base names :
  base ≠ "" → Forall plain_name names →
  components (fold_left join names base) = components base ++ (Normal <$> names).
Proof.
  intros Hb Hn. revert base Hb. induction Hn as [|n names Hn _ IH]; intros base Hb; simpl.
  - by rewrite app_nil_r.
  - rewrite IH by by apply join_nonempty. by rewrite components_join_plain, <- app_assoc.
Qed.

Lemma last_snoc_normal (l : list Component) c n :
  match last (l ++ [c]) with Some (Normal m) => Some m | _ => None end = Some n → c = Normal n.
Proof. rewrite last_snoc. destruct c; naive_solver. Qed.

(** A path with a file name has a parent, and consists of the parent's components
    followed by that name. *)
Lemma parent_file_name p n :
  file_name p = Some n →
  ∃ q, parent p = Some q ∧ components p = components q ++ [Normal n].
Proof.
  unfold file_name, parent. destruct (split_char slash p) as [|h t] eqn:E;
    [by apply split_char_nonempty in E|].
  pose proof (split_char_no_slash p) as Hns. rewrite E in Hns. apply Forall_cons in Hns as [Hh Ht].
  pose proof (trim_end_incl _ Ht) as Hns'. destruct (trim_end_spec t) as [Hom Htr].
  rewrite (split_absolute _ _ _ E), (components_split _ _ _ E).
  destruct Htr as [Hnil|(init & x & Heq & Hx)].
  - rewrite Hnil in *. simpl in Hom. unfold part_components. rewrite <- Hom, app_nil_r.
    case_bool_decide; [done|]. destruct (String.eqb_spec h ".") as [->|]; [done|].
    destruct (parse_part h) as [c|] eqn:Hc; [|done]. simpl. destruct c; try done.
    intros [= ->]. exists "". split; [|done]. by destruct h.
  - rewrite Heq in *. apply Forall_app in Hns' as [Hinit _]. symmetry in Hom.
    assert (t ≠ []) as Hne by (intros ->; by destruct init).
    destruct (trim_end_spec init) as [Hoi _].
    assert (Hom' : omap parse_part t = omap parse_part (trim_end init ++ [x]))
      by by rewrite Hom, !omap_app, Hoi.
    destruct (part_components_app h t (trim_end init) x Hom' Hne Hx) as (c & ->).
    intros ->%last_snoc_normal.
    assert (bool_decide (h = "" ∧ t ≠ []) = bool_decide (h = "")) as ->
      by (apply bool_decide_ext; naive_solver).
    destruct (init ++ [x]) as [|y l] eqn:Hcons; [by destruct init|].
    rewrite <- Hcons, removelast_last. eexists. split; [done|].
    destruct (bool_decide (h = "") && _); [done|].
    rewrite components_join_with; [done|]. constructor; [done | by apply trim_end_incl].
Qed.

(** ** Rebuilding a path from its components *)

(** A component that can follow another one. *)
Definition inner_component (c : Component) : Prop :=
  match c with ParentDir => True | Normal n => plain_name n | _ => False end.

Lemma parse_part_inner s c : no_slash s → parse_part s = Some c → inner_component c.
Proof.
  intros Hs H. pose proof (parse_part_plain s c Hs H) as Hp. unfold parse_part in H.
  by repeat case_match; simplify_eq/=.
Qed.

Lemma components_shape p :
  components p = [] ∨ ∃ c cs, components p = c :: cs ∧ Forall inner_component cs.
Proof.
  destruct (split_char slash p) as [|h t] eqn:E; [by apply split_char_nonempty in E|].
  pose proof (split_char_no_slash p) as Hns. rewrite E in Hns. apply Forall_cons in Hns as [Hh Ht].
  assert (Hom : Forall inner_component (omap parse_part t)).
  { apply Forall_forall. intros c (s & Hs & Hc)%list_elem_of_omap.
    eapply parse_part_inner; [|done]. by eapply Forall_forall in Ht. }
  rewrite (components_split _ _ _ E). unfold part_components.
  case_bool_decide as Hd; [by right; eauto|].
  destruct (h ≟ ".") eqn:Edot; [by right; eexists; eauto|].
  destruct (parse_part h) as [c|] eqn:Hc; simpl; [by right; eauto|].
  unfold parse_part in Hc. rewrite Edot in Hc. destruct h; [|by simpl in Hc; case_match].
  destruct t; [by left | exfalso; by apply Hd].
Qed.

Lemma component_str_relative c : inner_component c → is_absolute (component_str c) = false.
Proof. destruct c; [done..|]. apply plain_name_relative. Qed.

Lemma components_join_inner base c :
  base ≠ "" → inner_component c → components (join base (component_str c)) = components base ++ [c].
Proof.
  destruct c; try done; intros Hb Hc; [by rewrite components_join|].
  by apply components_join_plain.
Qed.

Lemma components_fold_inner base cs :
  base ≠ "" → Forall inner_component cs →
  components (fold_left (λ p c, join p (component_str c)) cs base) = components base ++ cs.
Proof.
  intros Hb Hc. revert base Hb. induction Hc as [|c cs Hc _ IH]; intros base Hb; simpl.
  - by rewrite app_nil_r.
  - rewrite IH by by apply join_nonempty. by rewrite components_join_inner, <- app_assoc.
Qed.

(** [components().collect::<PathBuf>()] keeps the components. *)
Lemma components_collect p : components (collect_components (components p)) = components p.
Proof.
  pose proof (components_plain p) as Hp.
  destruct (components_shape p) as [->|(c & cs & Hc & Hin)]; [done|].
  rewrite Hc in *. apply Forall_cons in Hp as [Hpc _]. unfold collect_components. simpl.
  assert (join "" (component_str c) = component_str c) as ->.
  { unfold join. by destruct (is_absolute _). }
  assert (components (component_str c) = [c]) as Hone.
  { destruct c as [| | |n]; [done..|]. destruct Hpc as [Hpp Hs]. simpl.
    rewrite (components_split n n []) by by apply split_char_absent.
    unfold part_components. rewrite bool_decide_eq_false_2 by naive_solver.
    destruct (String.eqb_spec n ".") as [->|]; [done|]. by rewrite Hpp. }
  rewrite components_fold_inner, Hone; [done| |done]. intros E. by rewrite E in Hone.
Qed.

Lemma is_absolute_components p : is_absolute p = bool_decide (head (components p) = Some RootDir).
Proof.
  unfold components. destruct (is_absolute p) eqn:E; [done|].
  destruct (split_char slash p) as [|h t] eqn:Hs; [by apply split_char_nonempty in Hs|].
  symmetry. apply bool_decide_eq_false. destruct (h ≟ "."); [done|].
  assert (∀ l, head (omap parse_part l) ≠ Some RootDir) as Hom; [|apply Hom].
  induction l as [|x l IH]; [done|]. rewrite omap_parse_cons.
  destruct (parse_part x) eqn:Hx; [|done]. simpl. unfold parse_part in Hx.
  repeat case_match; naive_solver.
Qed.

#[export] Hint Resolve path_starts_with_refl starts_with_join : agent.
