(* ===== verification/Json.v ===== *)
(** * [serde_json::Value] as the source uses it

    Objects are [serde_json::Map] with the default (sorted, duplicate-free)
    backend; an association list whose lookup takes the first binding models
    them.  Numbers keep serde's three internal forms. *)

From S2P Require Import Prelude RustStr.

Inductive Number :=
| PosInt (n : Z)        (** [u64] *)
| NegInt (n : Z)        (** a negative [i64] *)
| Float (repr : string).

#[global] Instance Number_eq_dec : EqDecision Number.
Proof. solve_decision. Defined.

Inductive Value :=
| VNull
| VBool (b : bool)
| VNumber (n : Number)
| VString (s : string)
| VArray (items : list Value)
| VObject (fields : list (string * Value)).

Definition Fields : Type := list (string * Value).

(** Equality of values: a map is its sorted list of entries. *)
Fixpoint value_eq_dec (v w : Value) {struct v} : {v = w} + {v ≠ w}.
Proof.
  assert (Hf : ∀ p q : string * Value, (∀ y, {p.2 = y} + {p.2 ≠ y}) → {p = q} + {p ≠ q}).
  { intros [k a] [l b] Ha. destruct (decide (k = l)) as [->|Hne]; [|right; congruence].
    destruct (Ha b); [left | right]; simpl in *; congruence. }
  destruct v as [|a|a|a|l|l], w as [|b|b|b|m|m]; try (right; discriminate).
  - by left.
  - destruct (decide (a = b)); [left | right]; congruence.
  - destruct (decide (a = b)); [left | right]; congruence.
  - destruct (decide (a = b)); [left | right]; congruence.
  - assert (H : {l = m} + {l ≠ m}).
    { revert m. induction l as [|x l IH]; intros [|y m]; try (right; discriminate); [by left|].
      destruct (value_eq_dec x y), (IH m); [left | right | right | right]; congruence. }
    destruct H; [left | right]; congruence.
  - assert (H : {l = m} + {l ≠ m}).
    { revert m. induction l as [|[k x] l IH]; intros [|y m]; try (right; discriminate); [by left|].
      destruct (Hf (k, x) y (value_eq_dec x)), (IH m);
        [left | right | right | right]; congruence. }
    destruct H; [left | right]; congruence.
Defined.

#[global] Instance Value_eq_dec : EqDecision Value := value_eq_dec.

Fixpoint field_lookup (key : string) (fields : Fields) : option Value :=
  match fields with
  | [] => None
  | (k, v) :: rest => if k ≟ key then Some v else field_lookup key rest
  end.

Definition contains_key (fields : Fields) (key : string) : bool :=
  existsb (λ '(k, _), k ≟ key) fields.

(** [Map::remove]. *)
Definition field_remove (key : string) (fields : Fields) : Fields :=
  List.filter (λ '(k, _), negb (k ≟ key)) fields.

(** [Value::get(&str)]: [None] unless the value is an object. *)
Definition get (v : Value) (key : string) : option Value :=
  match v with VObject fields => field_lookup key fields | _ => None end.

Definition as_str (v : Value) : option string :=
  match v with VString s => Some s | _ => None end.

Definition as_array (v : Value) : option (list Value) :=
  match v with VArray l => Some l | _ => None end.

Definition as_object (v : Value) : option Fields :=
  match v with VObject f => Some f | _ => None end.

Definition as_u64 (v : Value) : option Z :=
  match v with VNumber (PosInt n) => Some n | _ => None end.

Definition is_null (v : Value) : bool :=
  match v with VNull => true | _ => false end.

(** [value.get(key).and_then(Value::as_str)]. *)
Definition get_str (v : Value) (key : string) : option string := get v key ≫= as_str.

(** [value.get(key).unwrap_or(&Value::Null)]. *)
Definition get_or_null (v : Value) (key : string) : Value :=
  default VNull (get v key).

Lemma contains_key_lookup fields key :
  contains_key fields key = true ↔ is_Some (field_lookup key fields).
Proof.
  induction fields as [|[k v] rest IH]; simpl.
  - split; [done | by intros [? ?]].
  - destruct (k ≟ key); simpl; [by split; [eexists|] | done].
Qed.

Lemma field_remove_lookup key fields : field_lookup key (field_remove key fields) = None.
Proof.
  induction fields as [|[k v] rest IH]; simpl; [done|].
  destruct (k ≟ key) eqn:E; simpl; [done | by rewrite E].
Qed.

Lemma field_remove_other key key' fields :
  key ≠ key' → field_lookup key' (field_remove key fields) = field_lookup key' fields.
Proof.
  intros Hne. induction fields as [|[k v] rest IH]; simpl; [done|].
  destruct (String.eqb_spec k key) as [->|?]; simpl.
  - rewrite IH. destruct (String.eqb_spec key key'); [done|done].
  - by rewrite IH.
Qed.
