(* ===== verification/PolicyPaths.v ===== *)
(** * Path classification of the permission policy

    [crates/external-core/src/policy/paths.rs] and [requests.rs]: which paths
    count as credentials, agent metadata or protected repository metadata, and
    the closed set of permission requests. *)

From S2P Require Import Prelude RustStr RustPath Json.

(** ** Preparation errors ([lib.rs]) *)

Inductive PreparationError :=
| InvalidManifest (message : string)
| InvalidPath (path : Path) (reason : string)
| PathEscape (path root : Path)
| SymlinkInput (path : Path)
| MissingInput (path : Path)
| ForbiddenInput (path : Path)
| CredentialInput (path : Path)
| PolicyError (message : string)
| IoError
| JsonError.

#[global] Instance PreparationError_eq_dec : EqDecision PreparationError.
Proof. solve_decision. Defined.

Definition error_code (e : PreparationError) : string :=
  match e with
  | InvalidManifest _ => "INVALID_MANIFEST"
  | InvalidPath _ _ => "INVALID_PATH"
  | PathEscape _ _ => "PATH_ESCAPE"
  | SymlinkInput _ => "SYMLINK_INPUT"
  | MissingInput _ => "MISSING_INPUT"
  | ForbiddenInput _ => "FORBIDDEN_INPUT"
  | CredentialInput _ => "CREDENTIAL_INPUT"
  | PolicyError _ => "POLICY_DENIED"
  | IoError => "IO_ERROR"
  | JsonError => "JSON_ERROR"
  end.

Notation PreparationResult := (result PreparationError).

(** ** Requests ([requests.rs]) *)

Inductive ExternalDecision := Allow | Deny.

#[global] Instance ExternalDecision_eq_dec : EqDecision ExternalDecision.
Proof. solve_decision. Defined.

Inductive PermissionRequest :=
| Read (path : Path)
| Write (path : Path)
| Edit (path : Path)
| Delete (path : Path)
| Move (source destination : Path)
| Execute (program : Path) (args : list string) (cwd : Path)
| Network (target : string)
| GitRefMutation
| CredentialRead (path : Path).

Record PermissionDecision := mk_decision { allowed : bool; reason : string }.

#[global] Instance PermissionDecision_eq_dec : EqDecision PermissionDecision.
Proof. solve_decision. Defined.

Definition zcode_file_path (input : Value) : option string :=
  match get input "file_path", get input "path" with
  | Some file_path, None => as_str file_path
  | None, Some path => as_str path
  | Some file_path, Some path =>
      match as_str file_path, as_str path with
      | Some file_path, Some path => if file_path ≟ path then Some file_path else None
      | _, _ => None
      end
  | None, None => None
  end.

(** ** Path predicates ([paths.rs]) *)

Definition lexical_confined_path (root value : Path) : PreparationResult Path :=
  if is_absolute value || has_parent_dir value
  then Err (InvalidPath value "path must be repository-relative and confined")
  else Ok (join root value).

Definition protected_name (s : string) : bool :=
  (s ≟ ".git") || (s ≟ ".agent-work") || (s ≟ ".gitmodules").

Definition protected_worktree_path (worktree target : Path) : bool :=
  match comp_strip (components worktree) (components target) with
  | None => false
  | Some relative => existsb (λ c, protected_name (component_str c)) relative
  end.

Definition credential_names : list string :=
  [".ssh"; ".git"; ".env"; ".env.local"; ".env.production"; ".aws"; ".gnupg";
   ".netrc"; ".npmrc"; "credentials"; "credentials.json"; "auth.json"; "id_rsa";
   "id_ed25519"; "known_hosts"; "authorized_keys"].

Definition credential_component (value : string) : bool :=
  one_of value credential_names
  || str_contains value "access_token"
  || str_contains value "api_key"
  || str_contains value "secret_key"
  || ends_with value ".pem"
  || ends_with value ".key"
  || ends_with value ".p12"
  || ends_with value ".pfx"
  || ends_with value ".jks"
  || ends_with value ".kdbx".

Definition is_credential_path (path : Path) : bool :=
  existsb (λ c, credential_component (to_ascii_lowercase (component_str c))) (components path).

Definition is_agent_metadata_path (path : Path) : bool :=
  let normalized := to_ascii_lowercase (replace_char "\"%char slash path) in
  existsb (λ component, component ≟ ".agent-work") (split_char slash normalized).

(** ** Lemmas *)

Lemma has_parent_dir_false p : has_parent_dir p = false ↔ ParentDir ∉ components p.
Proof.
  unfold has_parent_dir. rewrite existsb_false_iff. split.
  - intros H Hin. specialize (H _ Hin). by apply bool_decide_eq_false in H.
  - intros H c Hc. apply bool_decide_eq_false. by intros ->.
Qed.

(** A confined relative path stays under a non-empty root and brings no [..]. *)
Lemma lexical_confined_ok root value p :
  root ≠ "" → lexical_confined_path root value = Ok p →
  path_starts_with p root = true ∧ ParentDir ∉ components value.
Proof.
  unfold lexical_confined_path. intros Hroot H.
  destruct (is_absolute value) eqn:Ha; simpl in H; [done|].
  destruct (has_parent_dir value) eqn:Hp; [done|]. injection H as <-.
  split; [by apply starts_with_join | by apply has_parent_dir_false].
Qed.

(** Credential detection looks at each component, so it is inherited by every
    path that extends a credential path. *)
Lemma is_credential_prefix p q :
  path_starts_with q p = true → is_credential_path p = true → is_credential_path q = true.
Proof.
  unfold is_credential_path. rewrite path_starts_with_true, !existsb_true_iff.
  intros [r ->] (c & Hc & Hb). exists c. split; [set_solver | done].
Qed.

Lemma protected_prefix w p q :
  path_starts_with q p = true → protected_worktree_path w p = true →
  protected_worktree_path w q = true.
Proof.
  unfold protected_worktree_path. rewrite path_starts_with_true.
  intros [r Hr]. destruct (comp_strip (components w) (components p)) as [l|] eqn:E; [|done].
  apply comp_strip_some in E. intros Hp.
  assert (comp_strip (components w) (components q) = Some (l ++ r)) as ->.
  { apply comp_strip_some. by rewrite Hr, E, app_assoc. }
  by rewrite existsb_app, Hp.
Qed.
