(* ===== verification/Tokenizer.v ===== *)
(** * The agent Bash tokenizer

    [tokenize_agent_bash] and [valid_agent_sed] of
    [crates/external-core/src/policy/commands.rs].  The tokenizer is a single
    pass over the characters with one pending word and at most one open quote;
    [lexes] is the grammar it is proved to implement. *)

From S2P Require Import Prelude RustStr.

Definition str_len (s : string) : Z := Z.of_nat (String.length s).

Definition char_str (c : ascii) : string := String c EmptyString.

Definition shell_metachars : list string :=
  [";"; "&"; "|"; ">"; "<"; "$"; "`"; "("; ")"; "{"; "}"; "*"; "?"; "["; "]"; "#"; "!"; "\"].

Definition is_quote (ch : string) : bool := (ch ≟ char_str squote) || (ch ≟ char_str dquote).

Definition is_line_break (c : ascii) : bool := Nat.eqb (code c) 10 || Nat.eqb (code c) 13.

(** The loop's variables: [result], [current] and [quote]. *)
Record LexState := mk_lex {
  lex_result : list string;
  lex_current : string;
  lex_quote : option string }.

Definition flush (current : string) : list string :=
  if str_is_empty current then [] else [current].

Definition tokenize_step (st : LexState) (character : string) : option LexState :=
  match lex_quote st with
  | Some delimiter =>
      if character ≟ delimiter
      then Some (mk_lex (lex_result st) (lex_current st) None)
      else Some (mk_lex (lex_result st) (lex_current st +:+ character) (Some delimiter))
  | None =>
      if is_quote character
      then Some (mk_lex (lex_result st) (lex_current st) (Some character))
      else if is_whitespace character
      then Some (mk_lex (lex_result st ++ flush (lex_current st)) "" None)
      else if one_of character shell_metachars then None
      else Some (mk_lex (lex_result st) (lex_current st +:+ character) None)
  end.

Fixpoint tokenize_loop (st : LexState) (l : list string) : option LexState :=
  match l with
  | [] => Some st
  | character :: rest => st' ← tokenize_step st character; tokenize_loop st' rest
  end.

Definition max_command_bytes : Z := 16 * 1024.
Definition max_command_words : nat := 128.

Definition tokenize_agent_bash (command : string) : option (list string) :=
  if str_is_empty command
     || Z.ltb max_command_bytes (str_len command)
     || str_any is_line_break command
  then None
  else
    st ← tokenize_loop (mk_lex [] "" None) (chars command);
    match lex_quote st with
    | Some _ => None
    | None =>
        let words := lex_result st ++ flush (lex_current st) in
        if Nat.ltb max_command_words (length words) then None
        else match words with [] => None | _ => Some words end
    end.

(** [valid_agent_sed]: only [sed -n '<line>p'] and [sed -n '<line>,<line>p']. *)
Definition sed_number (value : string) : bool :=
  negb (str_is_empty value) && str_all is_ascii_digit value
  && match parse_unsigned u64_max value with Some n => Z.leb n 10000 | None => false end.

Definition no_options (args : list string) : bool :=
  forallb (λ arg, negb (starts_with_char arg "-"%char)) args.
#[global] Arguments no_options : simpl never.

Definition valid_agent_sed (args : list string) : bool :=
  match args with
  | flag :: range :: file :: files =>
      if negb (flag ≟ "-n") then false
      else
        let pieces := split_char ","%char (default "" (strip_suffix_char "p"%char range)) in
        match pieces with
        | first :: second :: _ :: _ => false
        | [first; second] =>
            sed_number first && sed_number second && no_options (file :: files)
        | [first] =>
            sed_number first && no_options (file :: files)
        | [] => false
        end
  | _ => false
  end.

(** ** The grammar *)

Definition ordinary_char (ch : string) : Prop :=
  is_quote ch = false ∧ is_whitespace ch = false ∧ one_of ch shell_metachars = false.

(** [lexes l cur ws]: with [cur] already read into the pending word, the
    characters [l] complete it and continue with the words [ws].  Quoted text is
    taken verbatim; outside quotes no metacharacter may occur. *)
Inductive lexes : list string → string → list string → Prop :=
| lex_end cur : lexes [] cur (flush cur)
| lex_bare ch l cur ws :
    ordinary_char ch → lexes l (cur +:+ ch) ws → lexes (ch :: l) cur ws
| lex_space ch l cur ws :
    is_quote ch = false → is_whitespace ch = true → lexes l "" ws →
    lexes (ch :: l) cur (flush cur ++ ws)
| lex_quoted d body l cur ws :
    is_quote d = true → d ∉ body → lexes l (fold_left String.append body cur) ws →
    lexes (d :: body ++ d :: l) cur ws.

#[export] Hint Constructors lexes : agent.

(** What the loop computes from a state, read off the grammar. *)
Lemma loop_complete l cur ws acc :
  lexes l cur ws →
  ∃ st, tokenize_loop (mk_lex acc cur None) l = Some st
        ∧ lex_quote st = None ∧ lex_result st ++ flush (lex_current st) = acc ++ ws.
Proof.
  intros H; revert acc; induction H as
    [cur|ch l cur ws (Hq & Hs & Hm) Hl IH|ch l cur ws Hq Hs Hl IH|d body l cur ws Hd Hb Hl IH];
    intros acc; simpl.
  - by eexists.
  - unfold tokenize_step; simpl. rewrite Hq, Hs, Hm; simpl. apply IH.
  - unfold tokenize_step; simpl. rewrite Hq, Hs; simpl.
    destruct (IH (acc ++ flush cur)) as (st & ? & ? & Hst).
    exists st. by rewrite Hst, app_assoc.
  - unfold tokenize_step; simpl. rewrite Hd; simpl.
    assert (tokenize_loop (mk_lex acc cur (Some d)) (body ++ d :: l)
            = tokenize_loop (mk_lex acc (fold_left String.append body cur) None) l) as ->;
      [|apply IH].
    clear IH Hl. revert cur; induction body as [|b body IHb]; intros cur; simpl.
    + unfold tokenize_step; simpl. by rewrite String.eqb_refl.
    + apply not_elem_of_cons in Hb as [Hne Hb].
      unfold tokenize_step; simpl.
      destruct (String.eqb_spec b d); [congruence|]. simpl. by apply IHb.
Qed.

(** Inside an open quote: the text up to the closing delimiter is verbatim. *)
Lemma loop_quoted d l st acc cur :
  tokenize_loop (mk_lex acc cur (Some d)) l = Some st → lex_quote st = None →
  ∃ body rest, l = body ++ d :: rest ∧ d ∉ body
    ∧ tokenize_loop (mk_lex acc (fold_left String.append body cur) None) rest = Some st.
Proof.
  revert cur; induction l as [|ch l IH]; intros cur; simpl.
  - intros [= <-]. done.
  - unfold tokenize_step; simpl. destruct (String.eqb_spec ch d) as [->|Hne]; simpl.
    + intros H _. exists [], l. split; [done|]. split; [set_solver | done].
    + intros H Hq. destruct (IH _ H Hq) as (body & rest & -> & Hb & Hr).
      exists (ch :: body), rest. split; [done|]. split; [set_solver | done].
Qed.

Lemma loop_sound_len n l st acc cur :
  length l ≤ n →
  tokenize_loop (mk_lex acc cur None) l = Some st → lex_quote st = None →
  ∃ ws, lexes l cur ws ∧ lex_result st ++ flush (lex_current st) = acc ++ ws.
Proof.
  revert l acc cur; induction n as [|n IH]; intros [|ch l] acc cur Hn; simpl in *;
    try (intros [= <-] _; eexists; split; [apply lex_end | done]); [lia|].
  unfold tokenize_step; simpl.
  destruct (is_quote ch) eqn:Hq; simpl.
  - intros H Hst. destruct (loop_quoted _ _ _ _ _ H Hst) as (body & rest & -> & Hb & Hr).
    rewrite length_app in Hn; simpl in Hn.
    apply IH in Hr as (ws & Hws & Heq); [|lia|done].
    exists ws. split; [by apply lex_quoted | done].
  - destruct (is_whitespace ch) eqn:Hs; simpl.
    + intros H Hst. apply IH in H as (ws & Hws & Heq); [|lia|done].
      exists (flush cur ++ ws). split; [by apply lex_space | by rewrite Heq, app_assoc].
    + destruct (one_of ch shell_metachars) eqn:Hm; simpl; [done|].
      intros H Hst. apply IH in H as (ws & Hws & Heq); [|lia|done].
      exists ws. split; [by apply lex_bare | done].
Qed.

Lemma lexes_functional l cur ws ws' : lexes l cur ws → lexes l cur ws' → ws = ws'.
Proof.
  intros (st & H1 & _ & E1)%(loop_complete _ _ _ []) (st' & H2 & _ & E2)%(loop_complete _ _ _ []).
  rewrite H1 in H2. simplify_eq. simpl in *. congruence.
Qed.

(** ** Correctness *)

Lemma tokenize_sound command argv :
  tokenize_agent_bash command = Some argv →
  command ≠ "" ∧ (str_len command ≤ max_command_bytes)%Z
  ∧ str_any is_line_break command = false
  ∧ lexes (chars command) "" argv ∧ argv ≠ [] ∧ length argv ≤ max_command_words.
Proof.
  unfold tokenize_agent_bash.
  destruct (str_is_empty command) eqn:He; [done|].
  destruct (Z.ltb_spec max_command_bytes (str_len command)); [done|].
  destruct (str_any is_line_break command); [done|]. simpl.
  destruct (tokenize_loop _ _) as [st|] eqn:Hl; simpl; [|done].
  destruct (lex_quote st) eqn:Hq; [done|].
  destruct (loop_sound_len _ _ _ _ _ (le_n _) Hl Hq) as (ws & Hws & ->). simpl.
  destruct (Nat.ltb_spec max_command_words (length ws)); [done|].
  intros H'. assert (ws = argv ∧ argv ≠ []) as [-> Hne] by (destruct ws; naive_solver).
  split_and!; try done. by intros ->.
Qed.

Lemma tokenize_complete command argv :
  command ≠ "" ∧ (str_len command ≤ max_command_bytes)%Z
  ∧ str_any is_line_break command = false
  ∧ lexes (chars command) "" argv ∧ argv ≠ [] ∧ length argv ≤ max_command_words →
  tokenize_agent_bash command = Some argv.
Proof.
  unfold tokenize_agent_bash.
  intros (Hne & Hlen & Hnl & Hlex & Hargv & Hmax).
  assert (str_is_empty command = false) as -> by by destruct command.
  destruct (Z.ltb_spec max_command_bytes (str_len command)); [lia|]. rewrite Hnl. simpl.
  destruct (loop_complete _ _ _ [] Hlex) as (st & -> & Hq & Hst). simpl.
  rewrite Hq, Hst. simpl.
  destruct (Nat.ltb_spec max_command_words (length argv)); [lia|]. by destruct argv.
Qed.

(** C38. The tokenizer accepts exactly the single-line commands of at most 16 KiB
    and 128 words that the quoting grammar [lexes] reads, and returns the words
    the grammar gives: no shell metacharacter is ever accepted outside quotes,
    every quote is closed, and quoted text is taken verbatim. *)
Theorem tokenize_agent_bash_grammar command argv :
  tokenize_agent_bash command = Some argv ↔
  command ≠ "" ∧ (str_len command ≤ max_command_bytes)%Z
  ∧ str_any is_line_break command = false
  ∧ lexes (chars command) "" argv ∧ argv ≠ [] ∧ length argv ≤ max_command_words.
Proof. split; [apply tokenize_sound | apply tokenize_complete]. Qed.

(** Quoting a word with a delimiter it does not contain. *)
Definition quote_word (d : ascii) (w : string) : string :=
  String d (w +:+ char_str d).

Definition quotable (d : ascii) (w : string) : Prop :=
  w ≠ "" ∧ char_aligned w ∧ char_str d ∉ chars w.

Definition quote_command (d : ascii) (ws : list string) : string :=
  join_with " " (map (quote_word d) ws).

Lemma chars_quote_word d w rest :
  utf8_extra d = 0 → char_aligned w →
  chars (quote_word d w +:+ rest) = char_str d :: chars w ++ char_str d :: chars rest.
Proof.
  intros Hd Hw. unfold quote_word. simpl. rewrite string_app_assoc.
  unfold chars; simpl. rewrite Hd, (chars_from_app 0 w _ Hw). simpl. by rewrite Hd.
Qed.

Lemma lexes_quoted_words d ws :
  (d = squote ∨ d = dquote) → ws ≠ [] → Forall (quotable d) ws →
  lexes (chars (quote_command d ws)) "" ws.
Proof.
  intros Hd Hne Hws. unfold quote_command.
  assert (Hq : is_quote (char_str d) = true) by (destruct Hd as [-> | ->]; reflexivity).
  assert (Hx : utf8_extra d = 0) by (destruct Hd as [-> | ->]; reflexivity).
  induction Hws as [|w ws (Hw & Ha & Hnin) Hws IH]; [done|].
  assert (Hflush : flush w = [w]) by by destruct w.
  destruct ws as [|w' ws].
  - simpl. rewrite <- (string_app_nil_r (quote_word d w)), chars_quote_word by done.
    apply lex_quoted; [done..|]. rewrite chars_concat. simpl.
    rewrite <- Hflush. apply lex_end.
  - change (join_with " " (map (quote_word d) (w :: w' :: ws)))
      with (quote_word d w +:+ (" " +:+ join_with " " (map (quote_word d) (w' :: ws)))).
    rewrite chars_quote_word by done.
    apply lex_quoted; [done..|]. rewrite chars_concat. simpl.
    change (w :: w' :: ws) with ([w] ++ w' :: ws). rewrite <- Hflush.
    apply (lex_space " "); [reflexivity..|]. by apply IH.
Qed.

(** Quoting round trip: any list of up to 128 non-empty words, each quoted
    with single (or each with double) quotes it does not contain, is tokenized
    back to exactly those words.  With double quotes this includes words such as
    [$(id)], which a shell would still expand. *)
Theorem quote_tokenize_roundtrip d ws :
  (d = squote ∨ d = dquote) → ws ≠ [] → length ws ≤ max_command_words →
  Forall (quotable d) ws →
  (str_len (quote_command d ws) ≤ max_command_bytes)%Z →
  str_any is_line_break (quote_command d ws) = false →
  tokenize_agent_bash (quote_command d ws) = Some ws.
Proof.
  intros Hd Hne Hlen Hws Hbytes Hnl. apply tokenize_complete.
  split_and!; [|done|done|by apply lexes_quoted_words|done|done].
  destruct ws as [|w [|w' ws]]; by destruct Hne + done.
Qed.

Lemma quote_tokenize_roundtrip_witness :
  tokenize_agent_bash (quote_command dquote ["grep"; "$(id)"; "a b"])
  = Some ["grep"; "$(id)"; "a b"].
Proof.
  apply quote_tokenize_roundtrip; [by right | done | by vm_compute; lia | |
    by vm_compute | by vm_compute].
  repeat constructor; try done; vm_compute; set_solver.
Defined.

(** Characters of a command that stand outside quotes, by the same scan. *)
Fixpoint unquoted (quote : option string) (l : list string) : list string :=
  match l with
  | [] => []
  | ch :: l' =>
      match quote with
      | Some d => if ch ≟ d then unquoted None l' else unquoted quote l'
      | None => if is_quote ch then unquoted (Some ch) l' else ch :: unquoted None l'
      end
  end.

Lemma unquoted_body d body l :
  d ∉ body → unquoted (Some d) (body ++ d :: l) = unquoted None l.
Proof.
  induction body as [|b body IH]; intros Hb; simpl.
  - by rewrite String.eqb_refl.
  - apply not_elem_of_cons in Hb as [Hne Hb].
    destruct (String.eqb_spec b d); [congruence | by apply IH].
Qed.

Lemma metachar_not_space ch : one_of ch shell_metachars = true → is_whitespace ch = false.
Proof.
  intros Hm%one_of_true. apply negb_true_iff. revert ch Hm.
  apply (forallb_true_iff (λ c, negb (is_whitespace c))). by vm_compute.
Qed.

(** A command the tokenizer accepts has no shell metacharacter outside
    quotes: command separators, redirections, expansions, globs, comments and
    escapes can only appear in quoted text. *)
Theorem tokenize_no_bare_metachar command argv ch :
  tokenize_agent_bash command = Some argv →
  ch ∈ unquoted None (chars command) → one_of ch shell_metachars = false.
Proof.
  intros (_ & _ & _ & Hlex & _)%tokenize_sound. revert ch.
  induction Hlex as [cur|c l cur ws (Hq & Hs & Hm) Hl IH|c l cur ws Hq Hs Hl IH
                    |d body l cur ws Hd Hb Hl IH]; intros ch; simpl.
  - by intros ?%elem_of_nil.
  - rewrite Hq. intros [->|?]%elem_of_cons; auto.
  - rewrite Hq. intros [->|?]%elem_of_cons; [|auto].
    destruct (one_of c shell_metachars) eqn:E; [|done]. exfalso.
    apply metachar_not_space in E. congruence.
  - rewrite Hd. rewrite unquoted_body by done. auto.
Qed.

Lemma tokenize_no_bare_metachar_witness :
  one_of "l" shell_metachars = false.
Proof. apply (tokenize_no_bare_metachar "ls -l '*'" ["ls"; "-l"; "*"]); vm_compute; set_solver. Defined.

(** ** The bounded [sed] form *)

(** A line number of the accepted range: decimal digits, at most 10000. *)
Definition sed_line (s : string) : Prop :=
  s ≠ "" ∧ str_all is_ascii_digit s = true
  ∧ ∃ n, parse_unsigned u64_max s = Some n ∧ (0 ≤ n ≤ 10000)%Z.

Lemma sed_number_true s : sed_number s = true ↔ sed_line s.
Proof.
  unfold sed_number, sed_line. split.
  - intros H. bool_hyp. destruct (parse_unsigned u64_max s) as [n|] eqn:E; [|done].
    split; [by intros -> | split; [done|]]. exists n. split; [done|].
    apply parse_unsigned_bound in E; [|by vm_compute]. bool_hyp. lia.
  - intros (Hne & Hd & n & -> & Hn). rewrite Hd. destruct s; [done|]. simpl.
    apply Z.leb_le. lia.
Qed.

Lemma no_options_true l :
  no_options l = true ↔ ∀ arg, arg ∈ l → starts_with_char arg "-"%char = false.
Proof.
  unfold no_options. rewrite forallb_true_iff.
  split; intros H a Ha; specialize (H a Ha); by apply negb_true_iff.
Qed.

Lemma sed_line_no_comma s :
  sed_line s → str_all (λ a, negb (Ascii.eqb a ","%char)) s = true.
Proof.
  intros (_ & Hd & _). revert Hd. apply str_all_impl. intros c Hc.
  destruct (Ascii.eqb_spec c ","%char) as [->|]; [by vm_compute in Hc | done].
Qed.

(** The two accepted shapes of the [sed] script. *)
Definition sed_range (range : string) : Prop :=
  (∃ n, sed_line n ∧ range = n +:+ "p")
  ∨ (∃ n m, sed_line n ∧ sed_line m ∧ range = n +:+ "," +:+ m +:+ "p").

(** The [sed] guard accepts exactly [sed -n <n>p <files>] and
    [sed -n <n>,<m>p <files>] with decimal line numbers up to 10000 and at least
    one file, none of which looks like an option: no script can write, execute or
    read beyond the printed range. *)
Theorem valid_agent_sed_exact args :
  valid_agent_sed args = true ↔
  ∃ range file files, args = "-n" :: range :: file :: files ∧ sed_range range
    ∧ ∀ arg, arg ∈ file :: files → starts_with_char arg "-"%char = false.
Proof.
  split.
  - destruct args as [|flag [|range [|file files]]]; try done. simpl.
    destruct (String.eqb_spec flag "-n") as [->|]; [simpl|done].
    intros H. exists range, file, files. split; [done|].
    pose proof (split_char_join ","%char (default "" (strip_suffix_char "p"%char range))) as Hj.
    destruct (strip_suffix_char "p"%char range) as [body|] eqn:Hp; simpl in *; [|done].
    apply strip_suffix_char_some in Hp as ->.
    destruct (split_char ","%char body) as [|x [|y [|z r]]]; try done; simpl in Hj; subst;
      rewrite ?andb_true_iff, ?sed_number_true, no_options_true in H; (split; [|apply H]).
    + left. exists body. split; [apply H | done].
    + right. exists x, y. split; [apply H | split; [apply H|]].
      by rewrite !string_app_assoc.
  - intros (range & file & files & -> & Hr & Hf).
    apply no_options_true in Hf.
    unfold valid_agent_sed. rewrite Hf. simpl.
    destruct Hr as [(n & Hn & ->) | (n & m & Hn & Hm & ->)].
    + rewrite strip_suffix_char_app. simpl.
      rewrite split_char_absent by by apply sed_line_no_comma.
      apply sed_number_true in Hn. by rewrite Hn.
    + rewrite <- (string_app_assoc "," m "p"), <- (string_app_assoc n _ "p"),
        strip_suffix_char_app. simpl.
      rewrite split_char_app, !split_char_absent by by apply sed_line_no_comma.
      simpl. apply sed_number_true in Hn, Hm. by rewrite Hn, Hm.
Qed.
