(* ===== verification/GitPolicy.v ===== *)
(** * The git command policy

    The git grammar of [crates/external-core/src/policy/commands.rs]: which
    read-only git invocations an agent may run, and which operands it may name.
    Loops over an index are recursions over the remaining arguments.  The policy is
    compared with a declarative grammar, and its options with a table of what the
    options of git may do. *)

From S2P Require Import Prelude RustStr RustPath PolicyPaths Tokenizer.

(** ** Option tables *)

Definition AGENT_BASH_COMMAND_FAMILIES : list string :=
  ["pwd"; "ls"; "stat"; "wc"; "head"; "tail"; "cat"; "grep"; "rg"; "sed"; "find";
   "git"; "shasum"; "cksum"].

Definition git_status_flags : list string :=
  ["--short"; "-s"; "--branch"; "-b"; "--porcelain"; "--long"; "--no-ahead-behind";
   "--show-stash"; "--no-renames"].

Definition git_denied_options : list string :=
  ["--output"; "--ext-diff"; "--textconv"; "--no-index"; "--show-signature"; "--exec";
   "--stdin"].

Definition git_diff_flags : list string :=
  ["--cached"; "--staged"; "--stat"; "--shortstat"; "--numstat"; "--name-only";
   "--name-status"; "--check"; "--binary"; "--full-index"; "--no-color"; "--minimal";
   "--patience"; "--histogram"; "--ignore-space-change"; "--ignore-all-space";
   "--ignore-blank-lines"; "--exit-code"; "--quiet"; "--find-renames"; "--find-copies";
   "--relative"; "--merge-base"; "--no-renames"; "--word-diff"; "-p"; "-s"].

Definition git_log_flags : list string :=
  ["--oneline"; "--graph"; "--all"; "--branches"; "--tags"; "--remotes"; "--reverse";
   "--topo-order"; "--date-order"; "--author-date-order"; "--first-parent"; "--merges";
   "--no-merges"; "--name-only"; "--name-status"; "--stat"; "--shortstat"; "--numstat";
   "--patch"; "--no-patch"; "--decorate"; "--no-decorate"; "--full-history";
   "--simplify-merges"; "--dense"; "--sparse"; "--boundary"; "--left-right";
   "--cherry-pick"; "--cherry-mark"; "--ancestry-path"; "--bisect"; "-p"].

Definition git_show_flags : list string :=
  ["--stat"; "--name-only"; "--name-status"; "--no-color"; "--no-patch"; "-s";
   "--oneline"; "--decorate"; "--no-decorate"].

Definition git_diff_value_options : list string :=
  ["--unified"; "--diff-filter"; "--submodule"; "--word-diff"; "--word-diff-regex";
   "--find-renames"; "--find-copies"; "--color"; "--src-prefix"; "--dst-prefix";
   "--line-prefix"; "--inter-hunk-context"].

Definition git_log_value_options : list string :=
  ["--max-count"; "--skip"; "--since"; "--until"; "--after"; "--before"; "--author";
   "--committer"; "--grep"; "--pretty"; "--format"; "--date"; "--decorate";
   "--diff-filter"; "--unified"; "--color"].

Definition git_show_value_options : list string :=
  ["--format"; "--pretty"; "--color"].

Definition git_rev_parse_flags : list string :=
  ["--verify"; "--quiet"; "-q"; "--show-toplevel"; "--show-prefix";
   "--is-inside-work-tree"; "--is-bare-repository"; "--is-shallow-repository";
   "--show-object-format"].

Definition git_ls_files_flags : list string :=
  ["--cached"; "--deleted"; "--modified"; "--others"; "--ignored"; "--stage";
   "--unmerged"; "--killed"; "--directory"; "--empty-directory"; "--full-name";
   "--error-unmatch"; "--deduplicate"; "-c"; "-d"; "-m"; "-o"; "-i"; "-u"; "-s"; "-t";
   "-k"].

Definition git_denied_prefixes : list string :=
  ["--output="; "--exec="; "--ext-diff="; "--textconv="; "--no-index="].

Definition dash : ascii := "-"%char.

Definition agent_bash_program_allowed (program : string) : bool :=
  one_of program AGENT_BASH_COMMAND_FAMILIES.

Definition valid_positive_integer (value : string) : bool :=
  match parse_unsigned u32_max value with Some n => Z.ltb 0 n | None => false end.

Definition valid_nonnegative_integer (value : string) : bool :=
  match parse_unsigned u16_max value with Some _ => true | None => false end.

(** ** Operands *)

Definition unsafe_agent_git_object_path (arg : string) : bool :=
  match split_once ":"%char arg with
  | None => false
  | Some (_, object_path) =>
      str_is_empty object_path
      || is_absolute object_path
      || has_parent_dir object_path
      || is_credential_path object_path
      || is_agent_metadata_path object_path
  end.

Definition safe_agent_git_operand (arg : string) : bool :=
  negb (str_is_empty arg)
  && negb (starts_with_char arg slash)
  && negb (starts_with_char arg "~"%char)
  && negb (existsb (λ component, str_is_empty component || (component ≟ ".."))
             (split_char slash arg))
  && negb (is_credential_path arg)
  && negb (is_agent_metadata_path arg)
  && negb (unsafe_agent_git_object_path arg).

(** ** Subcommands *)

Definition git_status_option (arg : string) : bool :=
  one_of arg git_status_flags
  || match strip_prefix "--porcelain=" arg with
     | Some v => one_of v ["v1"; "v2"] | None => false end
  || match strip_prefix "--untracked-files=" arg with
     | Some v => one_of v ["no"; "normal"; "all"] | None => false end.

Definition valid_agent_git_status (args : list string) : bool :=
  forallb (λ arg, if starts_with_char arg dash then git_status_option arg else false) args.

Definition git_denied_option (arg : string) : bool :=
  one_of arg git_denied_options || existsb (starts_with arg) git_denied_prefixes.

Definition git_boolean_option (subcommand arg : string) : bool :=
  if subcommand ≟ "diff" then one_of arg git_diff_flags
  else if subcommand ≟ "log" then one_of arg git_log_flags
  else if subcommand ≟ "show" then one_of arg git_show_flags
  else false.

Definition git_value_option (subcommand name : string) : bool :=
  if subcommand ≟ "diff" then one_of name git_diff_value_options
  else if subcommand ≟ "log" then one_of name git_log_value_options
  else if subcommand ≟ "show" then one_of name git_show_value_options
  else false.

(** The numeric constraints on an option's value. *)
Definition git_value_rejected (name value : string) : bool :=
  (one_of name ["--max-count"; "--skip"] && negb (valid_positive_integer value))
  || (one_of name ["--unified"; "--inter-hunk-context"]
      && negb (valid_nonnegative_integer value)).

Definition git_option_name (arg : string) : string * option string :=
  match split_once "="%char arg with
  | None => (arg, None)
  | Some (name, value) => (name, Some value)
  end.

Fixpoint git_diff_like_loop (subcommand : string) (paths_mode : bool) (args : list string)
    : bool :=
  match args with
  | [] => true
  | arg :: rest =>
      if arg ≟ "--" then git_diff_like_loop subcommand true rest
      else if paths_mode then
        if negb (safe_agent_git_operand arg) then false
        else git_diff_like_loop subcommand paths_mode rest
      else if git_denied_option arg then false
      else if starts_with_char arg dash then
        if git_boolean_option subcommand arg then git_diff_like_loop subcommand paths_mode rest
        else if (subcommand ≟ "log") && ((arg ≟ "-n") || starts_with arg "-n") then
          match strip_prefix "-n" arg with
          | Some (String _ _ as value) =>
              if negb (valid_positive_integer value) then false
              else git_diff_like_loop subcommand paths_mode rest
          | _ =>
              match rest with
              | [] => false
              | value :: rest' =>
                  if negb (valid_positive_integer value) then false
                  else git_diff_like_loop subcommand paths_mode rest'
              end
          end
        else
          let '(name, inline_value) := git_option_name arg in
          if negb (git_value_option subcommand name) then false
          else match inline_value with
               | Some value =>
                   if str_is_empty value then false
                   else if git_value_rejected name value then false
                   else git_diff_like_loop subcommand paths_mode rest
               | None =>
                   match rest with
                   | [] => false
                   | value :: rest' =>
                       if starts_with_char value dash || str_is_empty value then false
                       else if git_value_rejected name value then false
                       else git_diff_like_loop subcommand paths_mode rest'
                   end
               end
      else if negb (safe_agent_git_operand arg) then false
      else git_diff_like_loop subcommand paths_mode rest
  end.

Definition valid_agent_git_diff_like (subcommand : string) (args : list string) : bool :=
  git_diff_like_loop subcommand false args.

Definition git_rev_parse_option (arg : string) : bool :=
  one_of arg git_rev_parse_flags
  || match strip_prefix "--short=" arg with
     | Some value => str_all is_ascii_digit value | None => false end
  || (arg ≟ "--short").

Definition valid_agent_git_rev_parse (args : list string) : bool :=
  match args with
  | [] => false
  | _ => forallb (λ arg, if starts_with_char arg dash then git_rev_parse_option arg
                         else safe_agent_git_operand arg) args
  end.

Definition valid_agent_git_cat_file (args : list string) : bool :=
  match args with
  | [flag; object] => one_of flag ["-e"; "-p"; "-t"; "-s"] && safe_agent_git_operand object
  | _ => false
  end.

Fixpoint git_ls_files_loop (paths_mode : bool) (args : list string) : bool :=
  match args with
  | [] => true
  | arg :: rest =>
      if arg ≟ "--" then git_ls_files_loop true rest
      else if paths_mode then
        if negb (safe_agent_git_operand arg) then false else git_ls_files_loop paths_mode rest
      else if one_of arg git_ls_files_flags then git_ls_files_loop paths_mode rest
      else false
  end.

Definition valid_agent_git_ls_files (args : list string) : bool := git_ls_files_loop false args.

Fixpoint git_branch_loop (list_mode : bool) (args : list string) : bool :=
  match args with
  | [] => true
  | arg :: rest =>
      if arg ≟ "--list" then git_branch_loop true rest
      else if one_of arg ["--all"; "--remotes"; "--verbose"; "-a"; "-r"; "-v"; "-vv"]
      then git_branch_loop list_mode rest
      else if starts_with_char arg dash then false
      else if list_mode then git_branch_loop list_mode rest
      else false
  end.

Definition valid_agent_git_branch (args : list string) : bool :=
  if bool_decide (args = []) || bool_decide (args = ["--show-current"]) then true
  else git_branch_loop false args.

(** The index of the subcommand: one leading [--no-pager] is skipped. *)
Definition skip_no_pager (args : list string) : list string :=
  match args with
  | first :: rest => if first ≟ "--no-pager" then rest else args
  | [] => []
  end.

Definition valid_agent_git (args : list string) : bool :=
  match skip_no_pager args with
  | [] => false
  | subcommand :: sub_args =>
      if subcommand ≟ "status" then valid_agent_git_status sub_args
      else if one_of subcommand ["diff"; "show"; "log"]
      then valid_agent_git_diff_like subcommand sub_args
      else if subcommand ≟ "rev-parse" then valid_agent_git_rev_parse sub_args
      else if subcommand ≟ "cat-file" then valid_agent_git_cat_file sub_args
      else if subcommand ≟ "ls-files" then valid_agent_git_ls_files sub_args
      else if subcommand ≟ "branch" then valid_agent_git_branch sub_args
      else false
  end.

(** [git_path_operands]: the operands after [--], which are canonicalised later.
    The position test looks for [--no-pager] anywhere in the arguments. *)
Fixpoint after_separator (args : list string) : option (list string) :=
  match args with
  | [] => None
  | arg :: rest => if arg ≟ "--" then Some rest else after_separator rest
  end.

Definition git_path_operands (args : list string) : option (list string) :=
  let command_index := if existsb (String.eqb "--no-pager") args then 1 else 0 in
  match drop command_index args with
  | [] => None
  | _ :: operands =>
      match after_separator operands with
      | Some paths => Some paths
      | None => Some []
      end
  end.

(** ** Operand safety *)

Lemma split_dotdot_component s c :
  c ∈ omap parse_part (split_char slash s) → c = ParentDir → ".." ∈ split_char slash s.
Proof.
  intros (x & Hx & Hp)%list_elem_of_omap ->. unfold parse_part in Hp.
  destruct (str_is_empty x); [done|]. destruct (x ≟ "."); [done|].
  destruct (String.eqb_spec x "..") as [->|]; done.
Qed.

Lemma parent_dir_part p : ParentDir ∈ components p → ".." ∈ split_char slash p.
Proof.
  unfold components. intros H.
  destruct (is_absolute p).
  - apply elem_of_cons in H as [H|H]; [done|]. by eapply split_dotdot_component.
  - destruct (split_char slash p) as [|h r] eqn:E; [by apply elem_of_nil in H|].
    destruct (h ≟ ".").
    + apply elem_of_cons in H as [H|H]; [done|].
      apply list_elem_of_omap in H as (x & Hx & Hp). unfold parse_part in Hp.
      destruct (str_is_empty x); [done|]. destruct (x ≟ "."); [done|].
      destruct (String.eqb_spec x "..") as [->|]; [|done]. by apply elem_of_cons; right.
    + rewrite <- E in *. by eapply split_dotdot_component.
Qed.

(** A repository-relative path that names nothing sensitive. *)
Definition harmless_path (p : Path) : Prop :=
  p ≠ "" ∧ is_absolute p = false ∧ ParentDir ∉ components p
  ∧ is_credential_path p = false ∧ is_agent_metadata_path p = false.

(** A git operand the policy accepts, and the path after a [rev:] prefix in
    it, is repository-relative, has no [..] component and names neither a
    credential nor agent metadata; joined to the repository it stays inside. *)
Theorem safe_operand_harmless arg :
  safe_agent_git_operand arg = true →
  harmless_path arg
  ∧ (∀ rev p, split_once ":"%char arg = Some (rev, p) → harmless_path p)
  ∧ (∀ root, root ≠ "" → path_starts_with (join root arg) root = true).
Proof.
  unfold safe_agent_git_operand. intros H. bool_hyp.
  assert (Habs : is_absolute arg = false) by done.
  assert (Hne : arg ≠ "") by by intros ->.
  split; [|split].
  - split_and!; try done. intros Hp%parent_dir_part.
    match goal with H : existsb _ _ = false |- _ =>
      rewrite existsb_false_iff in H; specialize (H _ Hp); done end.
  - intros rev p Hp. unfold unsafe_agent_git_object_path in *. rewrite Hp in *. bool_hyp.
    split_and!; try done; [by intros -> | by apply has_parent_dir_false].
  - intros root Hr. by apply starts_with_join.
Qed.

Lemma safe_operand_harmless_witness : harmless_path "HEAD:src/main.rs".
Proof. apply (safe_operand_harmless "HEAD:src/main.rs"). by vm_compute. Defined.

(** ** The grammar of the accepted invocations *)

Fixpoint before_separator (args : list string) : list string :=
  match args with
  | [] => []
  | arg :: rest => if arg ≟ "--" then [] else arg :: before_separator rest
  end.

Definition dashed (a : string) : Prop := starts_with_char a dash = true.

(** Numbers where the option counts, any other text otherwise. *)
Definition option_value_ok (name value : string) : Prop :=
  value ≠ ""
  ∧ (name ∈ ["--max-count"; "--skip"] → valid_positive_integer value = true)
  ∧ (name ∈ ["--unified"; "--inter-hunk-context"] → valid_nonnegative_integer value = true).

(** The arguments of [diff], [show] and [log]: flags, options with their value,
    revision operands, and after [--] only safe operands.  [counted] adds the
    commit limit [-n] of [log]. *)
Inductive diff_like (flags values : list string) (counted : bool) : list string → Prop :=
| dl_end : diff_like flags values counted []
| dl_flag a rest :
    a ∈ flags → diff_like flags values counted rest → diff_like flags values counted (a :: rest)
| dl_limit n rest :
    counted = true → valid_positive_integer n = true → diff_like flags values counted rest →
    diff_like flags values counted (("-n" +:+ n) :: rest)
| dl_limit_word n rest :
    counted = true → valid_positive_integer n = true → diff_like flags values counted rest →
    diff_like flags values counted ("-n" :: n :: rest)
| dl_inline name value rest :
    name ∈ values → option_value_ok name value → diff_like flags values counted rest →
    diff_like flags values counted ((name +:+ String "="%char value) :: rest)
| dl_value name value rest :
    name ∈ values → name ∉ flags → option_value_ok name value → ¬ dashed value →
    diff_like flags values counted rest → diff_like flags values counted (name :: value :: rest)
| dl_operand a rest :
    ¬ dashed a → safe_agent_git_operand a = true → diff_like flags values counted rest →
    diff_like flags values counted (a :: rest)
| dl_paths paths :
    Forall (λ a, a = "--" ∨ safe_agent_git_operand a = true) paths →
    diff_like flags values counted ("--" :: paths).

Definition status_word (a : string) : Prop :=
  a ∈ ["--short"; "-s"; "--branch"; "-b"; "--porcelain"; "--porcelain=v1"; "--porcelain=v2";
       "--long"; "--no-ahead-behind"; "--show-stash"; "--no-renames"; "--untracked-files=no";
       "--untracked-files=normal"; "--untracked-files=all"].

Definition rev_parse_word (a : string) : Prop :=
  a ∈ git_rev_parse_flags ∨ a = "--short"
  ∨ (∃ digits, a = "--short=" +:+ digits ∧ str_all is_ascii_digit digits = true)
  ∨ (¬ dashed a ∧ safe_agent_git_operand a = true).

Definition branch_flag (a : string) : Prop :=
  a ∈ ["--all"; "--remotes"; "--verbose"; "-a"; "-r"; "-v"; "-vv"].

(** The subcommand and its arguments. *)
Inductive git_words : string → list string → Prop :=
| gw_status words : Forall status_word words → git_words "status" words
| gw_diff words :
    diff_like git_diff_flags git_diff_value_options false words → git_words "diff" words
| gw_log words :
    diff_like git_log_flags git_log_value_options true words → git_words "log" words
| gw_show words :
    diff_like git_show_flags git_show_value_options false words → git_words "show" words
| gw_rev_parse words :
    words ≠ [] → Forall rev_parse_word words → git_words "rev-parse" words
| gw_cat_file flag object :
    flag ∈ ["-e"; "-p"; "-t"; "-s"] → safe_agent_git_operand object = true →
    git_words "cat-file" [flag; object]
| gw_ls_files flags :
    Forall (.∈ git_ls_files_flags) flags → git_words "ls-files" flags
| gw_ls_files_paths flags paths :
    Forall (.∈ git_ls_files_flags) flags →
    Forall (λ a, a = "--" ∨ safe_agent_git_operand a = true) paths →
    git_words "ls-files" (flags ++ "--" :: paths)
| gw_branch_current : git_words "branch" ["--show-current"]
| gw_branch flags : Forall branch_flag flags → git_words "branch" flags
| gw_branch_list flags rest :
    Forall branch_flag flags →
    Forall (λ a, a = "--list" ∨ branch_flag a ∨ ¬ dashed a) rest →
    git_words "branch" (flags ++ "--list" :: rest).

Inductive git_invocation : list string → Prop :=
| gi_direct sub words : git_words sub words → git_invocation (sub :: words)
| gi_no_pager sub words : git_words sub words → git_invocation ("--no-pager" :: sub :: words).

(** *** Arguments after the separator *)

Lemma denied_option_dash a : git_denied_option a = true → dashed a.
Proof.
  unfold git_denied_option, dashed. intros [H|H]%orb_true_iff.
  - apply one_of_true in H. revert a H. apply (forallb_true_iff (λ a, starts_with_char a dash)).
    by vm_compute.
  - apply existsb_true_iff in H as (p & Hp & (r & ->)%starts_with_true).
    assert (starts_with_char p dash = true) as Hd.
    { revert p Hp. apply (forallb_true_iff (λ a, starts_with_char a dash)). by vm_compute. }
    by destruct p.
Qed.

Lemma undashed_operand a :
  ¬ dashed a →
  starts_with_char a dash = false ∧ git_denied_option a = false ∧ (a ≟ "--") = false.
Proof.
  intros H. split_and!.
  - by apply not_true_iff_false.
  - apply not_true_iff_false. by intros ?%denied_option_dash.
  - apply String.eqb_neq. by intros ->.
Qed.

Lemma positive_integer_no_dash v : valid_positive_integer v = true → ¬ dashed v.
Proof.
  unfold valid_positive_integer, dashed. destruct v as [|c v]; [done|]. simpl.
  destruct (Ascii.eqb_spec c dash) as [->|]; done.
Qed.

Lemma diff_like_paths sub args :
  git_diff_like_loop sub true args = true ↔
  Forall (λ a, a = "--" ∨ safe_agent_git_operand a = true) args.
Proof.
  induction args as [|b args IH]; simpl; [by split|]. rewrite Forall_cons, <- IH.
  destruct (String.eqb_spec b "--") as [->|]; [naive_solver|].
  destruct (safe_agent_git_operand b); naive_solver.
Qed.

Lemma option_value_ok_iff name value :
  option_value_ok name value ↔ str_is_empty value = false ∧ git_value_rejected name value = false.
Proof.
  unfold option_value_ok, git_value_rejected. rewrite <- !one_of_true.
  destruct value as [|c value]; [naive_solver|].
  destruct (one_of name ["--max-count"; "--skip"]),
    (one_of name ["--unified"; "--inter-hunk-context"]),
    (valid_positive_integer (String c value)), (valid_nonnegative_integer (String c value));
    simpl; naive_solver.
Qed.

(** *** The option loop of [diff], [show] and [log] *)

(** What the loop needs of the option tables: no flag and no option with a value
    is taken for a denied option, the separator or a commit limit. *)
Record option_tables (sub : string) (flags values : list string) (counted : bool) : Prop := {
  ot_flags a : git_boolean_option sub a = one_of a flags;
  ot_values a : git_value_option sub a = one_of a values;
  ot_counted : (sub ≟ "log") = counted;
  ot_flag_words : Forall (λ a, git_denied_option a = false ∧ dashed a ∧ (a ≟ "--") = false
                               ∧ starts_with a "-n" = false) flags;
  ot_value_words : Forall (λ a, git_denied_option a = false ∧ dashed a ∧ (a ≟ "--") = false
                                ∧ starts_with a "-n" = false
                                ∧ contains_char a "="%char = false) values;
  ot_inline_words : Forall (λ a, ∀ v, let w := a +:+ String "="%char v in
      git_denied_option w = false ∧ dashed w ∧ (w ≟ "--") = false
      ∧ starts_with w "-n" = false ∧ one_of w flags = false) values }.

Ltac check_tables :=
  constructor; [by intros a | by intros a | done | repeat constructor..].

Lemma diff_tables : option_tables "diff" git_diff_flags git_diff_value_options false.
Proof. check_tables. Qed.
Lemma log_tables : option_tables "log" git_log_flags git_log_value_options true.
Proof. check_tables. Qed.
Lemma show_tables : option_tables "show" git_show_flags git_show_value_options false.
Proof. check_tables. Qed.

Section loop.
Context {sub : string} {flags values : list string} {counted : bool}.
Context (Hot : option_tables sub flags values counted).

Local Notation loop := (git_diff_like_loop sub false).

Lemma limit_prefix a : starts_with a "-n" = false → (a ≟ "-n") = false.
Proof. intros H. apply String.eqb_neq. by intros ->. Qed.

Lemma loop_flag a rest : a ∈ flags → loop (a :: rest) = loop rest.
Proof.
  intros Ha. destruct (proj1 (Forall_forall _ _) (ot_flag_words _ _ _ _ Hot) a Ha)
    as (Hden & Hd & Hsep & _).
  simpl. rewrite Hsep, Hden, Hd, (ot_flags _ _ _ _ Hot).
  by apply one_of_true in Ha as ->.
Qed.

Lemma limit_word_not_flag n : one_of ("-n" +:+ n) flags = false.
Proof.
  apply one_of_false. intros Ha.
  destruct (proj1 (Forall_forall _ _) (ot_flag_words _ _ _ _ Hot) _ Ha) as (_ & _ & _ & Hn).
  by destruct n.
Qed.

Lemma limit_not_flag : one_of "-n" flags = false.
Proof. exact (limit_word_not_flag ""). Qed.

Lemma loop_limit n rest :
  counted = true → n ≠ "" →
  loop (("-n" +:+ n) :: rest) = valid_positive_integer n && loop rest.
Proof.
  intros Hc Hne. cbn [git_diff_like_loop]. rewrite (ot_flags _ _ _ _ Hot), limit_word_not_flag.
  rewrite (ot_counted _ _ _ _ Hot), Hc. destruct n as [|c n]; [done|]. simpl.
  by destruct (valid_positive_integer _).
Qed.

Lemma loop_limit_word n rest :
  counted = true → loop ("-n" :: n :: rest) = valid_positive_integer n && loop rest.
Proof.
  intros Hc. cbn [git_diff_like_loop].
  rewrite (ot_flags _ _ _ _ Hot), limit_not_flag, (ot_counted _ _ _ _ Hot), Hc. simpl.
  by destruct (valid_positive_integer _).
Qed.

Lemma loop_inline name value rest :
  name ∈ values → option_value_ok name value →
  loop ((name +:+ String "="%char value) :: rest) = loop rest.
Proof.
  intros Hn [He Hr]%option_value_ok_iff.
  destruct (proj1 (Forall_forall _ _) (ot_inline_words _ _ _ _ Hot) _ Hn value)
    as (Hden & Hd & Hsep & Hlim & Hfl).
  destruct (proj1 (Forall_forall _ _) (ot_value_words _ _ _ _ Hot) _ Hn) as (_ & _ & _ & _ & Heq).
  cbn [git_diff_like_loop]. unfold git_option_name. rewrite split_once_app by done.
  rewrite Hsep, Hden, Hd, (ot_flags _ _ _ _ Hot), Hfl, Hlim, limit_prefix by done.
  rewrite andb_false_r. apply one_of_true in Hn.
  by rewrite (ot_values _ _ _ _ Hot), Hn, He, Hr.
Qed.

Lemma loop_value name value rest :
  name ∈ values → name ∉ flags → option_value_ok name value → ¬ dashed value →
  loop (name :: value :: rest) = loop rest.
Proof.
  intros Hn Hf%one_of_false [He Hr]%option_value_ok_iff (Hv & _)%undashed_operand.
  destruct (proj1 (Forall_forall _ _) (ot_value_words _ _ _ _ Hot) _ Hn)
    as (Hden & Hd & Hsep & Hlim & Heq).
  cbn [git_diff_like_loop]. unfold git_option_name.
  rewrite (proj2 (split_once_none "="%char name)) by done.
  rewrite Hsep, Hden, Hd, (ot_flags _ _ _ _ Hot), Hf, Hlim, limit_prefix by done.
  rewrite andb_false_r. apply one_of_true in Hn.
  by rewrite (ot_values _ _ _ _ Hot), Hn, Hv, He, Hr.
Qed.

Lemma accepted_limit n rest :
  counted = true → (loop rest = true → diff_like flags values counted rest) →
  (∀ v rest', rest = v :: rest' → loop rest' = true → diff_like flags values counted rest') →
  loop (("-n" +:+ n) :: rest) = true → diff_like flags values counted (("-n" +:+ n) :: rest).
Proof.
  intros Hc IHr IHv. destruct (decide (n = "")) as [->|Hne].
  - change ("-n" +:+ "") with "-n". destruct rest as [|v r'].
    + cbn [git_diff_like_loop]. rewrite (ot_flags _ _ _ _ Hot), limit_not_flag.
      by rewrite (ot_counted _ _ _ _ Hot), Hc.
    + rewrite loop_limit_word by done. intros [Hv Hl]%andb_true_iff. eapply dl_limit_word, IHv; done.
  - rewrite loop_limit by done. intros [Hv Hl]%andb_true_iff. by apply dl_limit, IHr.
Qed.

Lemma diff_like_accepted args : diff_like flags values counted args → loop args = true.
Proof.
  induction 1 as [|a rest Ha _ IH|n rest Hc Hn _ IH|n rest Hc Hn _ IH|name v rest Hn Hv _ IH
                 |name v rest Hn Hf Hv Hd _ IH|a rest Ha Hs _ IH|paths Hp]; [done|..].
  - by rewrite loop_flag.
  - rewrite loop_limit, Hn by (done || by intros ->). done.
  - by rewrite loop_limit_word, Hn.
  - by rewrite loop_inline.
  - by rewrite loop_value.
  - apply undashed_operand in Ha as (Hd & Hden & Hsep). simpl. by rewrite Hsep, Hden, Hd, Hs.
  - simpl. by apply diff_like_paths.
Qed.

Lemma accepted_diff_like args : loop args = true → diff_like flags values counted args.
Proof.
  induction args as [args IH] using (induction_ltof1 _ (@length _)); unfold ltof in IH.
  destruct args as [|arg rest]; [constructor|].
  assert (IHr : loop rest = true → diff_like flags values counted rest) by (apply IH; simpl; lia).
  assert (IHv : ∀ v rest', rest = v :: rest' → loop rest' = true → diff_like flags values counted rest')
    by (intros v r' ->; apply IH; simpl; lia).
  destruct (one_of arg flags) eqn:Hfl.
  { apply one_of_true in Hfl. rewrite loop_flag by done. intros. by apply dl_flag, IHr. }
  destruct (counted && starts_with arg "-n") eqn:Hlim.
  { apply andb_true_iff in Hlim as [Hc (n & ->)%starts_with_true]. by apply accepted_limit. }
  cbn [git_diff_like_loop]. rewrite (ot_flags _ _ _ _ Hot), (ot_counted _ _ _ _ Hot), Hfl.
  destruct (String.eqb_spec arg "--") as [->|Hsep].
  { intros H. by apply dl_paths, (diff_like_paths sub). }
  destruct (git_denied_option arg); [done|].
  destruct (starts_with_char arg dash) eqn:Hd.
  2: { destruct (safe_agent_git_operand arg) eqn:Hs; [|done]. intros H.
       apply dl_operand; [unfold dashed; congruence | done | by apply IHr]. }
  assert (counted && ((arg ≟ "-n") || starts_with arg "-n") = false) as ->.
  { destruct counted; [|done]. simpl in *. by rewrite Hlim, limit_prefix. }
  unfold git_option_name. destruct (split_once "="%char arg) as [[name value]|] eqn:Heq.
  - apply split_once_some in Heq as ->. rewrite (ot_values _ _ _ _ Hot).
    destruct (one_of name values) eqn:Hn; [|done]. apply one_of_true in Hn. simpl.
    destruct (str_is_empty value) eqn:He; [done|].
    destruct (git_value_rejected name value) eqn:Hr; [done|]. intros H.
    apply dl_inline; [done | by apply option_value_ok_iff | by apply IHr].
  - rewrite (ot_values _ _ _ _ Hot). destruct (one_of arg values) eqn:Hn; [|done].
    apply one_of_true in Hn. simpl. destruct rest as [|v r']; [done|].
    destruct (starts_with_char v dash) eqn:Hv; [done|]. simpl.
    destruct (str_is_empty v) eqn:He; [done|].
    destruct (git_value_rejected arg v) eqn:Hr; [done|]. intros H.
    apply dl_value; [done | by apply one_of_false | by apply option_value_ok_iff | |by eapply IHv].
    unfold dashed. congruence.
Qed.

Lemma diff_like_grammar args : loop args = true ↔ diff_like flags values counted args.
Proof. split; [apply accepted_diff_like | apply diff_like_accepted]. Qed.

End loop.

(** *** The other subcommands *)

Lemma status_grammar args : valid_agent_git_status args = true ↔ Forall status_word args.
Proof.
  unfold valid_agent_git_status. rewrite forallb_true_iff, Forall_forall.
  apply forall_proper. intros a. apply forall_proper. intros _. split.
  - destruct (starts_with_char a dash); [|done]. unfold git_status_option.
    intros [[Hf|Hp]%orb_true_iff|Hu]%orb_true_iff.
    + apply one_of_true in Hf. revert a Hf. apply (Forall_forall status_word).
      repeat constructor; apply one_of_true; by vm_compute.
    + destruct (strip_prefix _ a) as [v|] eqn:E; [|done]. apply strip_prefix_some in E as ->.
      apply one_of_true in Hp. revert v Hp. apply (Forall_forall (λ v, status_word ("--porcelain=" +:+ v))).
      repeat constructor; apply one_of_true; by vm_compute.
    + destruct (strip_prefix _ a) as [v|] eqn:E; [|done]. apply strip_prefix_some in E as ->.
      apply one_of_true in Hu. revert v Hu. apply (Forall_forall (λ v, status_word ("--untracked-files=" +:+ v))).
      repeat constructor; apply one_of_true; by vm_compute.
  - revert a. by apply (forallb_true_iff (λ a, if starts_with_char a dash then git_status_option a else false)).
Qed.

Lemma rev_parse_grammar args :
  valid_agent_git_rev_parse args = true ↔ args ≠ [] ∧ Forall rev_parse_word args.
Proof.
  unfold valid_agent_git_rev_parse. destruct args as [|x args]; [naive_solver|].
  rewrite forallb_true_iff, Forall_forall.
  enough (Hw : ∀ a, (if starts_with_char a dash then git_rev_parse_option a
                     else safe_agent_git_operand a) = true ↔ rev_parse_word a).
  { setoid_rewrite Hw. naive_solver. }
  intros a. unfold rev_parse_word, git_rev_parse_option, dashed.
  rewrite <- one_of_true. split.
  - destruct (starts_with_char a dash) eqn:Hd; [|intros; right; right; right; by split].
    intros [[?|Hp]%orb_true_iff|?%String.eqb_eq]%orb_true_iff; [by left | | by right; left].
    destruct (strip_prefix _ a) as [v|] eqn:E; [|done]. apply strip_prefix_some in E as ->.
    right; right; left. eauto.
  - intros [Hf|[->|[(v & -> & Hv)|[Hd Hs]]]].
    + rewrite Hf. apply one_of_true in Hf. revert a Hf.
      by apply (forallb_true_iff (λ a, if starts_with_char a dash then true else safe_agent_git_operand a)).
    + done.
    + simpl. by rewrite Hv.
    + by destruct (starts_with_char a dash).
Qed.

Lemma ls_files_paths args :
  git_ls_files_loop true args = true ↔
  Forall (λ a, a = "--" ∨ safe_agent_git_operand a = true) args.
Proof.
  induction args as [|b args IH]; simpl; [by split|]. rewrite Forall_cons, <- IH.
  destruct (String.eqb_spec b "--") as [->|]; [naive_solver|].
  destruct (safe_agent_git_operand b); naive_solver.
Qed.

Lemma ls_files_flags_app flags rest :
  Forall (.∈ git_ls_files_flags) flags →
  git_ls_files_loop false (flags ++ rest) = git_ls_files_loop false rest.
Proof.
  induction 1 as [|a flags Ha _ IH]; [done|]. simpl.
  destruct (String.eqb_spec a "--") as [->|]; [by apply one_of_true in Ha|].
  by apply one_of_true in Ha as ->.
Qed.

Lemma ls_files_grammar args :
  valid_agent_git_ls_files args = true ↔ git_words "ls-files" args.
Proof.
  unfold valid_agent_git_ls_files. split.
  - assert (H : git_ls_files_loop false args = true →
      Forall (.∈ git_ls_files_flags) args
      ∨ ∃ flags paths, args = flags ++ "--" :: paths ∧ Forall (.∈ git_ls_files_flags) flags
          ∧ Forall (λ a, a = "--" ∨ safe_agent_git_operand a = true) paths).
    { induction args as [|a args IH]; [by left|]. simpl.
      destruct (String.eqb_spec a "--") as [->|].
      { intros Hp%ls_files_paths. right. by exists [], args. }
      destruct (one_of a git_ls_files_flags) eqn:Ha; [|done]. apply one_of_true in Ha.
      intros [?|(flags & paths & -> & ? & ?)]%IH; [left; by constructor|].
      right. exists (a :: flags), paths. split_and!; [done | by constructor | done]. }
    intros [?|(flags & paths & -> & ? & ?)]%H; by constructor.
  - inversion 1 as [| | | | | |? Hf|flags paths Hf Hp| | |]; subst.
    + rewrite <- (app_nil_r args). by rewrite ls_files_flags_app.
    + rewrite ls_files_flags_app by done. by apply ls_files_paths.
Qed.

Lemma branch_flags_app list_mode flags rest :
  Forall branch_flag flags →
  git_branch_loop list_mode (flags ++ rest) = git_branch_loop list_mode rest.
Proof.
  induction 1 as [|a flags Ha _ IH]; [done|]. simpl.
  destruct (String.eqb_spec a "--list") as [->|]; [by apply one_of_true in Ha|].
  by apply one_of_true in Ha as ->.
Qed.

Lemma branch_list_grammar rest :
  git_branch_loop true rest = true ↔ Forall (λ a, a = "--list" ∨ branch_flag a ∨ ¬ dashed a) rest.
Proof.
  unfold dashed, branch_flag. setoid_rewrite <- one_of_true.
  induction rest as [|a rest IH]; [by split|]. simpl. rewrite Forall_cons, <- IH.
  destruct (String.eqb_spec a "--list") as [->|]; [naive_solver|].
  destruct (one_of a _); [naive_solver|]. destruct (starts_with_char a dash); naive_solver.
Qed.

Lemma branch_grammar args : valid_agent_git_branch args = true ↔ git_words "branch" args.
Proof.
  unfold valid_agent_git_branch. split.
  - destruct (_ || _) eqn:E.
    { intros _. apply orb_true_iff in E as [->%bool_decide_eq_true| ->%bool_decide_eq_true];
        [by apply gw_branch | constructor]. }
    clear E. assert (H : git_branch_loop false args = true → Forall branch_flag args
      ∨ ∃ flags rest, args = flags ++ "--list" :: rest ∧ Forall branch_flag flags
          ∧ Forall (λ a, a = "--list" ∨ branch_flag a ∨ ¬ dashed a) rest).
    { induction args as [|a args IH]; [by left|]. simpl.
      destruct (String.eqb_spec a "--list") as [->|].
      { intros Hp%branch_list_grammar. right. by exists [], args. }
      destruct (one_of a _) eqn:Ha; [|by destruct (starts_with_char a dash)]. apply one_of_true in Ha.
      intros [?|(flags & rest & -> & ? & ?)]%IH; [left; by constructor|].
      right. exists (a :: flags), rest. split_and!; [done | by constructor | done]. }
    intros [?|(flags & rest & -> & ? & ?)]%H; [by apply gw_branch | by apply gw_branch_list].
  - inversion 1 as [| | | | | | | | |flags Hf|flags rest Hf Hr]; subst; [done|..];
      (destruct (_ || _); [done|]).
    + rewrite <- (app_nil_r args). by rewrite branch_flags_app.
    + rewrite branch_flags_app by done. by apply branch_list_grammar.
Qed.

Lemma cat_file_grammar args : valid_agent_git_cat_file args = true ↔ git_words "cat-file" args.
Proof.
  unfold valid_agent_git_cat_file. split.
  - destruct args as [|flag [|object [|]]]; try done.
    intros [Hf%one_of_true Ho]%andb_true_iff. by constructor.
  - inversion 1 as [| | | | |flag object Hf Ho| | | | |]; subst.
    apply one_of_true in Hf as ->. by rewrite Ho.
Qed.

(** The policy accepts exactly the words of the grammar. *)
Lemma git_words_grammar sub words :
  valid_agent_git (sub :: words) = true ∧ sub ≠ "--no-pager" ↔ git_words sub words.
Proof.
  assert (Hp : git_words sub words → (sub ≟ "--no-pager") = false) by by destruct 1.
  unfold valid_agent_git, skip_no_pager. split.
  - intros [H Hn%String.eqb_neq]. rewrite Hn in H. revert H.
    destruct (String.eqb_spec sub "status") as [->|]; [intros; by apply gw_status, status_grammar|].
    destruct (one_of sub ["diff"; "show"; "log"]) eqn:Hd.
    { apply one_of_true in Hd. rewrite !elem_of_cons in Hd.
      destruct Hd as [->|[->|[->|Hd]]]; intros H; [..| by apply elem_of_nil in Hd].
      - by apply gw_diff, (diff_like_grammar diff_tables).
      - by apply gw_show, (diff_like_grammar show_tables).
      - by apply gw_log, (diff_like_grammar log_tables). }
    destruct (String.eqb_spec sub "rev-parse") as [->|].
    { intros [? ?]%rev_parse_grammar. by constructor. }
    destruct (String.eqb_spec sub "cat-file") as [->|]; [apply cat_file_grammar|].
    destruct (String.eqb_spec sub "ls-files") as [->|]; [apply ls_files_grammar|].
    destruct (String.eqb_spec sub "branch") as [->|]; [apply branch_grammar | done].
  - intros Hw. split; [|by apply String.eqb_neq, Hp]. rewrite (Hp Hw). clear Hp.
    destruct Hw as [w Hw|w Hw|w Hw|w Hw|w Hne Hw|flag object Hf Ho|w Hw|f p Hf Hp| |f Hf|f r Hf Hr].
    + by apply status_grammar.
    + by apply (diff_like_grammar diff_tables).
    + by apply (diff_like_grammar log_tables).
    + by apply (diff_like_grammar show_tables).
    + by apply rev_parse_grammar.
    + by apply cat_file_grammar; constructor.
    + by apply ls_files_grammar; constructor.
    + by apply ls_files_grammar; constructor.
    + done.
    + by apply branch_grammar, gw_branch.
    + by apply branch_grammar, gw_branch_list.
Qed.

Lemma git_invocation_grammar args : valid_agent_git args = true ↔ git_invocation args.
Proof.
  split.
  - intros H. destruct args as [|a args]; [done|].
    destruct (String.eqb_spec a "--no-pager") as [->|Hne].
    + destruct args as [|sub words]; [done|]. destruct (String.eqb_spec sub "--no-pager") as [->|]; [done|].
      apply gi_no_pager, git_words_grammar. split; [|done].
      unfold valid_agent_git in *. simpl in H |- *. by destruct (String.eqb_spec sub "--no-pager").
    + by apply gi_direct, git_words_grammar.
  - destruct 1 as [sub words [? _]%git_words_grammar|sub words [H Hn]%git_words_grammar]; [done|].
    unfold valid_agent_git in *. simpl in H |- *. by destruct (String.eqb_spec sub "--no-pager").
Qed.

(** ** Options that reach beyond reading the repository *)

(** Long options of these subcommands that, by git's documentation, write a file
    or a reference, run another program, or read what is not in the repository. *)
Definition harmful_long : list string :=
  ["--output"; "--ext-diff"; "--textconv"; "--filters"; "--show-signature"; "--exec";
   "--exec-path"; "--no-index"; "--git-dir"; "--work-tree"; "--resolve-git-dir"; "--parseopt";
   "--exclude-from"; "--exclude-per-directory"; "--pathspec-from-file"; "--stdin"; "--batch";
   "--batch-check"; "--batch-command"; "--batch-all-objects"; "--delete"; "--move"; "--copy";
   "--force"; "--edit-description"; "--set-upstream-to"; "--set-upstream"; "--unset-upstream";
   "--track"; "--create-reflog"].

(** The short ones, by subcommand. *)
Definition harmful_letters (sub : string) : list ascii :=
  if sub ≟ "branch" then ["d"; "D"; "m"; "M"; "c"; "C"; "f"; "u"; "t"]%char
  else if sub ≟ "ls-files" then ["x"; "X"]%char
  else if one_of sub ["diff"; "show"; "log"] then ["O"]%char
  else [].

(** Git expands an unambiguous prefix of a long option, takes its value after
    [=], and reads the letters after a single dash as options of their own. *)
Definition harmful (sub word : string) : bool :=
  if starts_with word "--"
  then existsb (λ o, starts_with o (fst (git_option_name word))) harmful_long
  else existsb (contains_char word) (harmful_letters sub).

(** The option words of an invocation: those with a dash before [--]; of [cat-file],
    which takes exactly one option and one object, the first. *)
Definition option_words (sub : string) (words : list string) : list string :=
  if sub ≟ "cat-file" then take 1 words
  else filter (λ a, starts_with_char a dash = true) (before_separator words).

Lemma parse_digits_chars max acc s n c :
  parse_digits max acc s = Some n → contains_char s c = true → is_ascii_digit c = true.
Proof.
  revert acc. induction s as [|a s IH]; intros acc; [done|]. simpl. rewrite contains_char_cons.
  destruct (is_ascii_digit a) eqn:Ha; [|done]. destruct (Z.leb _ _); [|done].
  intros Hp [->%Ascii.eqb_eq|Hc]%orb_true_iff; [done | by eapply IH].
Qed.

Lemma positive_integer_no_letter s c :
  valid_positive_integer s = true → is_ascii_digit c = false → c ≠ "+"%char → contains_char s c = false.
Proof.
  unfold valid_positive_integer. destruct (parse_unsigned u32_max s) as [n|] eqn:E; [|done].
  intros _ Hc Hp. apply not_true_iff_false. intros Hin.
  assert (Hd : ∀ s', parse_digits u32_max 0 s' = Some n → contains_char s' c = false).
  { intros s' Hs'. apply not_true_iff_false. intros Hx.
    rewrite (parse_digits_chars _ _ _ _ _ Hs' Hx) in Hc. done. }
  destruct s as [|a s]; [done|]. rewrite contains_char_cons in Hin.
  destruct (Ascii.eqb_spec a "+"%char) as [->|Ha].
  - apply orb_true_iff in Hin as [?%Ascii.eqb_eq|Hin]; [done|].
    destruct s as [|b s]; [done|]. change (parse_digits u32_max 0 (String b s) = Some n) in E.
    by rewrite Hd in Hin.
  - rewrite <- contains_char_cons, Hd in Hin; [done|].
    unfold parse_unsigned in E. by repeat case_match.
Qed.

Lemma harmful_inline sub name v :
  starts_with name "--" = true → contains_char name "="%char = false →
  harmful sub (name +:+ String "="%char v) = harmful sub name.
Proof.
  intros Hs He. unfold harmful, git_option_name. rewrite split_once_app by done.
  rewrite (proj2 (split_once_none "="%char name)) by done. rewrite Hs.
  apply starts_with_true in Hs as [r ->].
  rewrite (proj2 (starts_with_true _ _)); [done|]. rewrite string_app_assoc. eauto.
Qed.

Lemma harmful_limit n :
  valid_positive_integer n = true → harmful "log" ("-n" +:+ n) = false.
Proof.
  intros Hn. unfold harmful. assert (starts_with ("-n" +:+ n) "--" = false) as -> by done.
  change (harmful_letters "log") with ["O"%char]. cbn [existsb].
  rewrite contains_char_app, (positive_integer_no_letter n) by done. done.
Qed.

(** What a table must satisfy for no word of the option loop to be harmful. *)
Record harmless_tables (sub : string) (flags values : list string) (counted : bool) : Prop := {
  ht_flags : Forall (λ a, harmful sub a = false) flags;
  ht_values : Forall (λ a, harmful sub a = false ∧ starts_with a "--" = true
                           ∧ contains_char a "="%char = false) values;
  ht_counted : counted = true → sub = "log" }.

Lemma diff_harmless : harmless_tables "diff" git_diff_flags git_diff_value_options false.
Proof. constructor; [repeat constructor | repeat constructor | done]. Qed.
Lemma log_harmless : harmless_tables "log" git_log_flags git_log_value_options true.
Proof. constructor; [repeat constructor | repeat constructor | done]. Qed.
Lemma show_harmless : harmless_tables "show" git_show_flags git_show_value_options false.
Proof. constructor; [repeat constructor | repeat constructor | done]. Qed.

Lemma elem_of_before_separator a x args :
  a ∈ before_separator (x :: args) → a = x ∨ a ∈ before_separator args.
Proof. simpl. destruct (x ≟ "--"); [by intros ?%elem_of_nil | by intros ?%elem_of_cons]. Qed.

Lemma diff_like_harmless sub flags values counted args a :
  harmless_tables sub flags values counted → diff_like flags values counted args →
  a ∈ before_separator args → dashed a → harmful sub a = false.
Proof.
  intros [Hfl Hva Hco] Hd. rewrite Forall_forall in Hfl, Hva.
  induction Hd as [|x rest Hx _ IH|n rest Hc Hn _ IH|n rest Hc Hn _ IH|name v rest Hn Hv _ IH
                  |name v rest Hn Hf Hv Hud _ IH|x rest Hx Hs _ IH|paths Hp]; intros Ha Hda.
  - by apply elem_of_nil in Ha.
  - apply elem_of_before_separator in Ha as [->|Ha]; [by apply Hfl | by apply IH].
  - apply elem_of_before_separator in Ha as [->|Ha]; [|by apply IH].
    rewrite (Hco Hc). by apply harmful_limit.
  - apply elem_of_before_separator in Ha as [->|[->|Ha]%elem_of_before_separator];
      [by rewrite (Hco Hc) | | by apply IH].
    by apply positive_integer_no_dash in Hn.
  - apply elem_of_before_separator in Ha as [->|Ha]; [|by apply IH].
    destruct (Hva _ Hn) as (? & ? & ?). by rewrite harmful_inline.
  - apply elem_of_before_separator in Ha as [->|[->|Ha]%elem_of_before_separator];
      [by apply Hva | done | by apply IH].
  - apply elem_of_before_separator in Ha as [->|Ha]; [done | by apply IH].
  - by apply elem_of_nil in Ha.
Qed.

Lemma before_separator_incl args a : a ∈ before_separator args → a ∈ args.
Proof.
  induction args as [|x args IH]; simpl; [done|]. destruct (x ≟ "--"); [by intros ?%elem_of_nil|].
  intros [->|?]%elem_of_cons; [by left | right; auto].
Qed.

(** Words from a table are decided by evaluation. *)
Lemma table_harmless sub table a :
  forallb (λ x, negb (harmful sub x)) table = true → a ∈ table → harmful sub a = false.
Proof. intros Ht Ha. apply negb_true_iff. revert a Ha. by apply forallb_true_iff. Qed.

Lemma rev_parse_harmless a : rev_parse_word a → dashed a → harmful "rev-parse" a = false.
Proof.
  intros [Ha|[->|[(v & -> & _)|[? _]]]] Hd; [| done | done | done].
  eapply table_harmless, Ha. by vm_compute.
Qed.

Lemma branch_harmless a :
  a = "--list" ∨ branch_flag a ∨ ¬ dashed a → dashed a → harmful "branch" a = false.
Proof. intros [->|[Ha|?]] Hd; [done | | done]. eapply table_harmless, Ha. by vm_compute. Qed.

Lemma before_separator_app flags rest :
  before_separator (flags ++ "--" :: rest) = before_separator flags.
Proof. induction flags as [|a flags IH]; simpl; [done|]. destruct (a ≟ "--"); [done | by rewrite IH]. Qed.

Lemma git_words_harmless sub words a :
  git_words sub words → a ∈ option_words sub words → harmful sub a = false.
Proof.
  intros Hw Ha. assert (Hin : sub ≠ "cat-file" → dashed a ∧ a ∈ before_separator words).
  { intros Hs%String.eqb_neq. unfold option_words in Ha. rewrite Hs in Ha.
    by apply list_elem_of_filter in Ha. }
  destruct Hw as [w Hw|w Hw|w Hw|w Hw|w _ Hw|flag object Hf Ho|w Hw|f p Hf _| |f Hf|f r Hf Hr].
  6: { apply list_elem_of_singleton in Ha as ->. eapply table_harmless, Hf. by vm_compute. }
  all: destruct Hin as [Hd Hin]; [done|].
  2: by eapply diff_like_harmless; [apply diff_harmless|..].
  2: by eapply diff_like_harmless; [apply log_harmless|..].
  2: by eapply diff_like_harmless; [apply show_harmless|..].
  4: rewrite before_separator_app in Hin.
  all: apply before_separator_incl in Hin.
  - rewrite Forall_forall in Hw. eapply table_harmless; [|by apply Hw]. by vm_compute.
  - rewrite Forall_forall in Hw. by apply rev_parse_harmless; [apply Hw|].
  - rewrite Forall_forall in Hw. eapply table_harmless, Hw, Hin. by vm_compute.
  - rewrite Forall_forall in Hf. eapply table_harmless, Hf, Hin. by vm_compute.
  - by apply list_elem_of_singleton in Hin as ->.
  - rewrite Forall_forall in Hf. apply branch_harmless; [right; left; by apply Hf | done].
  - apply branch_harmless; [|done]. rewrite Forall_forall in Hf, Hr.
    apply elem_of_app in Hin as [Hin|[->|Hin]%elem_of_cons]; [right; left; by apply Hf | by left | by apply Hr].
Qed.



(** Deleting or renaming a branch, writing the diff to a file and comparing files
    outside the repository are not in the grammar. *)
Example git_mutations_refused :
  ¬ git_invocation ["branch"; "-D"; "main"] ∧ ¬ git_invocation ["branch"; "new"]
  ∧ ¬ git_invocation ["diff"; "--output=x"] ∧ ¬ git_invocation ["diff"; "--no-index"; "a"; "b"]
  ∧ ¬ git_invocation ["status"; "--porcelain="] ∧ ¬ git_invocation ["-c"; "core.pager=x"; "log"].
Proof. rewrite <- !git_invocation_grammar. by vm_compute. Qed.

(** The object of [cat-file] is checked as an operand only, so a word with a dash
    passes for one. *)
Example cat_file_object_may_be_option : valid_agent_git ["cat-file"; "-p"; "--textconv"] = true.
Proof. by vm_compute. Qed.

(** An option whose value git documents as optional, to be attached with [=], takes
    the next word as its value here: that word, an operand for git, is not checked
    by [safe_agent_git_operand]. *)
Example optional_value_operand_unchecked :
  safe_agent_git_operand "../other/notes" = false
  ∧ valid_agent_git ["diff"; "--color"; "../other/notes"; "--submodule"; "../other/plan"] = true.
Proof. by vm_compute. Qed.

(** ** The operands handed to canonicalisation *)

(** When [--no-pager] occurs at most as the first argument, the operands
    that are canonicalised later are exactly those after the first [--] of the
    subcommand that the option grammar checked. *)
Theorem git_path_operands_exact args subcommand operands :
  skip_no_pager args = subcommand :: operands → "--no-pager" ∉ subcommand :: operands →
  git_path_operands args = Some (default [] (after_separator operands)).
Proof.
  intros Hs Hn. unfold git_path_operands.
  destruct args as [|a args]; [done|]. simpl in Hs.
  destruct (String.eqb_spec a "--no-pager") as [->|Hne].
  - subst args. simpl. by destruct (after_separator operands).
  - injection Hs as -> ->.
    assert (existsb (String.eqb "--no-pager") (subcommand :: operands) = false) as ->.
    { apply existsb_false_iff. intros x Hx. apply String.eqb_neq. by intros <-. }
    simpl. by destruct (after_separator operands).
Qed.

Lemma git_path_operands_exact_witness :
  git_path_operands ["--no-pager"; "log"; "--"; "src"; "docs"] = Some ["src"; "docs"].
Proof.
  apply (git_path_operands_exact ["--no-pager"; "log"; "--"; "src"; "docs"] "log"
           ["--"; "src"; "docs"]); [done | set_solver].
Defined.

(** When [--no-pager] occurs as an operand after [--], the subcommand is
    taken to be the separator itself and no operand is handed to canonicalisation,
    although the option grammar accepts the command. *)
Theorem git_path_operands_lost rest :
  "--" ∉ rest → (∀ a, a ∈ rest → safe_agent_git_operand a = true) →
  valid_agent_git ("log" :: "--" :: "--no-pager" :: rest) = true
  ∧ git_path_operands ("log" :: "--" :: "--no-pager" :: rest) = Some [].
Proof.
  intros Hs Hr. split.
  - change (git_diff_like_loop "log" true ("--no-pager" :: rest) = true). simpl.
    induction rest as [|a rest IH]; [done|]. simpl.
    apply not_elem_of_cons in Hs as [Hne Hs].
    destruct (String.eqb_spec a "--"); [congruence|].
    rewrite (Hr a) by set_solver. apply IH; [done | set_solver].
  - unfold git_path_operands. simpl.
    assert (after_separator rest = None) as ->; [|done].
    induction rest as [|a rest IH]; [done|]. simpl.
    apply not_elem_of_cons in Hs as [Hne Hs].
    destruct (String.eqb_spec a "--"); [congruence|]. apply IH; [done | set_solver].
Qed.

Lemma git_path_operands_lost_witness :
  valid_agent_git ["log"; "--"; "--no-pager"; "link"] = true
  ∧ git_path_operands ["log"; "--"; "--no-pager"; "link"] = Some [].
Proof. apply (git_path_operands_lost ["link"]); [set_solver|]. intros a ->%list_elem_of_singleton. by vm_compute. Defined.
