(* ===== verification/Operands.v ===== *)
(** * Path operands of the allowlisted commands

    [agent_bash_path_operands] and the per-command grammars of
    [crates/external-core/src/policy/commands.rs]: which arguments of an accepted
    command are paths, to be canonicalised fail-closed by the launcher. *)

From S2P Require Import Prelude RustStr RustPath PolicyPaths Tokenizer GitPolicy.

Definition ls_flags : list string :=
  ["-a"; "-A"; "-l"; "-d"; "-h"; "-n"; "-i"; "-1"; "-G"; "--all"; "--almost-all";
   "--directory"; "--human-readable"; "--inode"; "--numeric-uid-gid"; "--color=never";
   "--group-directories-first"].

Definition stat_flags : list string :=
  ["-L"; "-x"; "--dereference"; "--file-system"; "--terse"].

Definition wc_flags : list string :=
  ["-c"; "-l"; "-m"; "-w"; "-L"; "--bytes"; "--chars"; "--lines"; "--max-line-length";
   "--words"].

Definition cat_flags : list string :=
  ["-A"; "-b"; "-E"; "-n"; "-s"; "-t"; "-T"; "-u"; "-v"; "--number";
   "--number-nonblank"; "--show-all"; "--show-ends"; "--show-tabs"; "--squeeze-blank"].

Definition shasum_flags : list string :=
  ["-b"; "-p"; "-t"; "-U"; "-0"; "--tag"; "-l"].

Definition rg_boolean_long : list string :=
  ["--line-number"; "--with-filename"; "--no-filename"; "--ignore-case";
   "--case-sensitive"; "--smart-case"; "--fixed-strings"; "--files";
   "--files-with-matches"; "--files-without-match"; "--count"; "--count-matches";
   "--only-matching"; "--word-regexp"; "--line-regexp"; "--json"; "--stats";
   "--heading"; "--no-heading"; "--column"; "--pcre2"; "--color=never"].

Definition grep_boolean_long : list string :=
  ["--with-filename"; "--no-filename"; "--ignore-case"; "--no-messages";
   "--invert-match"; "--line-number"; "--files-with-matches"; "--files-without-match";
   "--count"; "--only-matching"; "--word-regexp"; "--line-regexp"; "--fixed-strings";
   "--extended-regexp"; "--perl-regexp"; "--binary-files=without-match";
   "--binary-files=text"; "--color=never"].

Definition rg_value_long : list string :=
  ["--regexp"; "--glob"; "--type"; "--type-not"; "--max-count"; "--after-context";
   "--before-context"; "--context"; "--file"; "--ignore-file"; "--encoding"; "--sort";
   "--sortr"].

Definition grep_value_long : list string :=
  ["--regexp"; "--file"; "--max-count"; "--after-context"; "--before-context";
   "--context"; "--include"; "--exclude"; "--exclude-dir"; "--exclude-from";
   "--directories"; "--devices"].

Definition rg_denied_options : list string :=
  ["--pre"; "--pre-glob"; "--hostname-bin"; "--search-zip"; "--follow"].

Definition find_denied : list string :=
  ["-L"; "-H"; "-delete"; "-exec"; "-execdir"; "-ok"; "-okdir"; "-prune"; "-ls";
   "-print"; "-print0"; "-fprint"; "-fprint0"; "-fprintf"; "-fls"; "-printf";
   "-writable"].

(** [value_options.iter().any(|option| arg.starts_with(option + "="))]. *)
Definition inline_option (options : list string) (arg : string) : bool :=
  existsb (λ option, starts_with arg (option +:+ "=")) options.
#[global] Arguments inline_option : simpl never.

(** [simple_path_operands]: the loop over [index], with [paths] and
    [options_ended] as its variables. *)
Fixpoint simple_loop (booleans values : list string) (options_ended : bool)
    (paths args : list string) : option (list string) :=
  match args with
  | [] => Some paths
  | arg :: rest =>
      if arg ≟ "-" then None
      else if negb options_ended && (arg ≟ "--") then simple_loop booleans values true paths rest
      else if negb options_ended && (one_of arg booleans || inline_option values arg)
      then simple_loop booleans values options_ended paths rest
      else if negb options_ended && one_of arg values then
        match rest with
        | [] => None
        | _ :: rest' => simple_loop booleans values options_ended paths rest'
        end
      else if negb options_ended && (arg ≟ "-")
      then simple_loop booleans values options_ended (paths ++ [arg]) rest
      else if negb options_ended && starts_with_char arg dash then None
      else simple_loop booleans values options_ended (paths ++ [arg]) rest
  end.

Definition simple_path_operands (args booleans values : list string) : option (list string) :=
  simple_loop booleans values false [] args.

Definition non_empty (paths : list string) : option (list string) :=
  match paths with [] => None | _ => Some paths end.

Definition required_path_operands (args booleans values : list string) : option (list string) :=
  simple_path_operands args booleans values ≫= non_empty.

Definition head_tail_values : list string := ["-n"; "--lines"; "-c"; "--bytes"].

Definition numeric_flag (arg : string) : bool :=
  match strip_prefix "-" arg with
  | Some value => negb (str_is_empty value) && str_all is_ascii_digit value
  | None => false
  end.

Fixpoint head_tail_loop (program : string) (options_ended : bool) (paths args : list string)
    : option (list string) :=
  match args with
  | [] => Some paths
  | arg :: rest =>
      if negb options_ended && (arg ≟ "--") then head_tail_loop program true paths rest
      else if negb options_ended && one_of arg ["-q"; "-v"; "--quiet"; "--silent"; "--verbose"]
      then head_tail_loop program options_ended paths rest
      else if negb options_ended && (program ≟ "tail")
              && one_of arg ["-f"; "-F"; "--follow"; "--retry"] then None
      else if negb options_ended && (numeric_flag arg || inline_option head_tail_values arg)
      then head_tail_loop program options_ended paths rest
      else if negb options_ended && one_of arg head_tail_values then
        match rest with
        | [] => None
        | _ :: rest' => head_tail_loop program options_ended paths rest'
        end
      else if negb options_ended && starts_with_char arg dash then None
      else head_tail_loop program options_ended (paths ++ [arg]) rest
  end.

Definition head_tail_path_operands (program : string) (args : list string)
    : option (list string) :=
  head_tail_loop program false [] args ≫= non_empty.

(** ** grep and ripgrep *)

Definition grep_boolean_short (ripgrep : bool) : string :=
  if ripgrep then "nHhIiSsFUlcvqwo" else "HhIiLnqsvEFPowx".
Definition grep_value_short (ripgrep : bool) : string :=
  if ripgrep then "egtmABC" else "efmABC".
Definition grep_boolean_options (ripgrep : bool) : list string :=
  if ripgrep then rg_boolean_long else grep_boolean_long.
Definition grep_value_options (ripgrep : bool) : list string :=
  if ripgrep then rg_value_long else grep_value_long.

Record GrepState := mk_grep {
  grep_paths : list string;
  pattern_specified : bool;
  files_mode : bool;
  options_ended : bool }.

Definition push_path (st : GrepState) (p : string) : GrepState :=
  mk_grep (grep_paths st ++ [p]) (pattern_specified st) (files_mode st) (options_ended st).
Definition set_pattern (st : GrepState) : GrepState :=
  mk_grep (grep_paths st) true (files_mode st) (options_ended st).

(** The state after a long value option [option] took [value]. *)
Definition grep_long_value (option value : string) (st : GrepState) : GrepState :=
  let st := if one_of option ["--regexp"; "--file"] then set_pattern st else st in
  if one_of option ["--file"; "--ignore-file"; "--exclude-from"] then push_path st value else st.

(** The state after a short value option took [value]. *)
Definition grep_short_value (cluster value : string) (st : GrepState) : GrepState :=
  let st := if one_of cluster ["e"; "f"] then set_pattern st else st in
  if cluster ≟ "f" then push_path st value else st.

Definition rg_denied (arg : string) : bool :=
  existsb (λ option, (arg ≟ option) || starts_with arg (option +:+ "=")) rg_denied_options.

Fixpoint grep_loop (ripgrep : bool) (st : GrepState) (args : list string) : option GrepState :=
  match args with
  | [] => Some st
  | arg :: rest =>
      if negb (options_ended st) && (arg ≟ "--") then
        grep_loop ripgrep (mk_grep (grep_paths st) (pattern_specified st) (files_mode st) true) rest
      else if negb (options_ended st) && ripgrep && rg_denied arg then None
      else if negb (options_ended st) && starts_with arg "--" then
        if one_of arg (grep_boolean_options ripgrep) then
          grep_loop ripgrep (mk_grep (grep_paths st) (pattern_specified st)
                               (files_mode st || (arg ≟ "--files")) (options_ended st)) rest
        else
          match split_once "="%char arg with
          | Some (option, value) =>
              if negb (one_of option (grep_value_options ripgrep)) then None
              else grep_loop ripgrep (grep_long_value option value st) rest
          | None =>
              if negb (one_of arg (grep_value_options ripgrep)) then None
              else match rest with
                   | [] => None
                   | value :: rest' => grep_loop ripgrep (grep_long_value arg value st) rest'
                   end
          end
      else if negb (options_ended st) && (arg ≟ "-") then
        grep_loop ripgrep (push_path st arg) rest
      else if negb (options_ended st) && starts_with_char arg dash then
        let cluster := match arg with String _ c => c | EmptyString => EmptyString end in
        if Nat.eqb (String.length cluster) 1 && str_contains (grep_value_short ripgrep) cluster then
          match rest with
          | [] => None
          | value :: rest' => grep_loop ripgrep (grep_short_value cluster value st) rest'
          end
        else if negb (str_all (contains_char (grep_boolean_short ripgrep)) cluster) then None
        else grep_loop ripgrep st rest
      else if files_mode st || pattern_specified st then grep_loop ripgrep (push_path st arg) rest
      else grep_loop ripgrep (set_pattern st) rest
  end.

Definition grep_like_path_operands (args : list string) (ripgrep : bool) : option (list string) :=
  st ← grep_loop ripgrep (mk_grep [] false false false) args;
  if (negb (files_mode st) && negb (pattern_specified st))
     || (negb ripgrep && bool_decide (grep_paths st = []))
  then None else Some (grep_paths st).

(** ** find *)

Fixpoint find_start_paths (args : list string) : list string * list string :=
  match args with
  | arg :: rest =>
      if starts_with_char arg dash then ([], args)
      else let '(paths, rest') := find_start_paths rest in (arg :: paths, rest')
  | [] => ([], [])
  end.

Definition find_type_char (value : string) : bool :=
  one_of value ["f"; "d"; "l"; "p"; "s"; "b"; "c"].

Fixpoint find_loop (paths args : list string) : option (list string) :=
  match args with
  | [] => Some paths
  | arg :: rest =>
      if one_of arg find_denied then None
      else if one_of arg ["-maxdepth"; "-mindepth"] then
        match rest with
        | [] => None
        | value :: rest' =>
            match parse_unsigned u8_max value with
            | Some n => if Z.ltb 50 n then None else find_loop paths rest'
            | None => None
            end
        end
      else if arg ≟ "-type" then
        match rest with
        | [] => None
        | value :: rest' => if find_type_char value then find_loop paths rest' else None
        end
      else if one_of arg ["-name"; "-iname"; "-path"; "-ipath"; "-size"; "-mtime"; "-mmin"] then
        match rest with
        | [] => None
        | value :: rest' =>
            if str_is_empty value || starts_with_char value dash then None
            else find_loop paths rest'
        end
      else if arg ≟ "-newer" then
        match rest with
        | [] => None
        | value :: rest' =>
            if str_is_empty value then None else find_loop (paths ++ [value]) rest'
        end
      else if one_of arg ["-empty"; "-readable"; "-quit"] then find_loop paths rest
      else None
  end.

Definition valid_agent_find (args : list string) : option (list string) :=
  let '(paths, rest) := find_start_paths args in
  match paths with [] => None | _ => find_loop paths rest end.

(** ** Dispatch on the program *)

Definition agent_bash_path_operands (program : string) (args : list string)
    : option (list string) :=
  if program ≟ "pwd" then
    if forallb (λ arg, one_of arg ["-L"; "-P"]) args then Some [] else None
  else if program ≟ "ls" then simple_path_operands args ls_flags ["--time-style"]
  else if program ≟ "stat" then
    simple_path_operands args stat_flags ["-f"; "-c"; "--format"; "--printf"]
  else if program ≟ "wc" then required_path_operands args wc_flags []
  else if one_of program ["head"; "tail"] then head_tail_path_operands program args
  else if program ≟ "cat" then required_path_operands args cat_flags []
  else if program ≟ "grep" then grep_like_path_operands args false
  else if program ≟ "rg" then grep_like_path_operands args true
  else if program ≟ "sed" then if valid_agent_sed args then Some (drop 2 args) else None
  else if program ≟ "find" then valid_agent_find args
  else if program ≟ "git" then git_path_operands args
  else if one_of program ["shasum"; "cksum"] then
    required_path_operands args shasum_flags ["-a"; "--algorithm"; "--length"]
  else None.

(** ** Every operand is accounted for *)

(** Each argument that is not an option is handed on as a path or is the value
    of the option just before it. *)
Definition accounted (values args paths : list string) : Prop :=
  ∀ pre arg post, args = pre ++ arg :: post → starts_with_char arg dash = false →
    arg ∈ paths ∨ ∃ option, last pre = Some option ∧ option ∈ values.

Section accounted_lemmas.
Context (values : list string).

Lemma accounted_nil paths : accounted values [] paths.
Proof. intros [|? ?] ? ? H; discriminate. Qed.

Lemma accounted_cons a args paths :
  starts_with_char a dash = true ∨ a ∈ paths →
  accounted values args paths → accounted values (a :: args) paths.
Proof.
  intros Ha H [|b pre] arg post [= -> ->] Hd.
  - destruct Ha; [congruence | by left].
  - destruct (H pre arg post eq_refl Hd) as [?|(o & Ho & Hv)]; [by left|right].
    exists o. split; [|done]. destruct pre; [done|]. by rewrite last_cons_cons.
Qed.

Lemma accounted_value o x args paths :
  starts_with_char o dash = true → o ∈ values →
  accounted values args paths → accounted values (o :: x :: args) paths.
Proof.
  intros Ho Hv H pre arg post Heq Hd.
  destruct pre as [|b [|c pre]]; simplify_eq/=; [congruence | right; by exists b|].
  destruct (H pre arg post eq_refl Hd) as [?|(o' & Ho' & Hv')]; [by left|right].
  exists o'. split; [|done]. destruct pre; [done|]. by rewrite !last_cons_cons.
Qed.
End accounted_lemmas.

#[export] Hint Resolve accounted_nil accounted_cons accounted_value : agent.

Definition all_dashed (l : list string) : Prop :=
  ∀ a, one_of a l = true → starts_with_char a dash = true.

Lemma all_dashed_intro l : forallb (λ a, starts_with_char a dash) l = true → all_dashed l.
Proof. intros H a Ha%one_of_true. revert a Ha. by apply forallb_true_iff. Qed.

Lemma inline_option_dashed l a :
  all_dashed l → inline_option l a = true → starts_with_char a dash = true.
Proof.
  intros Hl (o & Ho & (r & ->)%starts_with_true)%existsb_true_iff.
  assert (starts_with_char o dash = true) as Hd by by apply Hl, one_of_true.
  by destruct o.
Qed.

Lemma sep_dashed a : (a ≟ "--") = true → starts_with_char a dash = true.
Proof. by intros ->%String.eqb_eq. Qed.

Section simple_commands.
Context (booleans values : list string).
Context (Hb : all_dashed booleans) (Hv : all_dashed values).

(** The loop never drops an operand, and what it collected so far survives. *)
Lemma simple_loop_accounted args ended acc paths :
  simple_loop booleans values ended acc args = Some paths →
  (∀ p, p ∈ acc → p ∈ paths) ∧ accounted values args paths.
Proof.
  revert ended acc.
  induction args as [args IH] using (induction_ltof1 _ (@length _)); unfold ltof in IH.
  intros ended acc. destruct args as [|arg rest]; simpl.
  { intros [= <-]. split; [done | apply accounted_nil]. }
  assert (IHr := λ e a, IH rest ltac:(simpl; lia) e a).
  assert (Hskip : starts_with_char arg dash = true → ∀ e,
    simple_loop booleans values e acc rest = Some paths →
    (∀ p, p ∈ acc → p ∈ paths) ∧ accounted values (arg :: rest) paths).
  { intros Hd e [H1 H2]%IHr. auto with agent. }
  assert (Hpath : simple_loop booleans values ended (acc ++ [arg]) rest = Some paths →
    (∀ p, p ∈ acc → p ∈ paths) ∧ accounted values (arg :: rest) paths).
  { intros [H1 H2]%IHr. split; [set_solver|].
    apply accounted_cons; [right; set_solver | done]. }
  destruct (arg ≟ "-"); [done|].
  destruct ended; simpl; [exact Hpath|].
  destruct (arg ≟ "--") eqn:Hs; [by apply Hskip, sep_dashed|].
  destruct (one_of arg booleans || inline_option values arg) eqn:Hbool.
  { apply Hskip. apply orb_true_iff in Hbool as [H|H]; [by apply Hb|].
    by eapply inline_option_dashed. }
  destruct (one_of arg values) eqn:Hval.
  { destruct rest as [|x rest']; [done|]. intros [H1 H2]%IH; [|simpl; lia].
    split; [done|]. apply accounted_value; [by apply Hv | by apply one_of_true | done]. }
  destruct (starts_with_char arg dash); [done | exact Hpath].
Qed.
End simple_commands.

Lemma head_tail_accounted program args ended acc paths :
  head_tail_loop program ended acc args = Some paths →
  (∀ p, p ∈ acc → p ∈ paths) ∧ accounted head_tail_values args paths.
Proof.
  revert ended acc.
  induction args as [args IH] using (induction_ltof1 _ (@length _)); unfold ltof in IH.
  intros ended acc. destruct args as [|arg rest]; simpl.
  { intros [= <-]. split; [done | apply accounted_nil]. }
  assert (IHr := λ e a, IH rest ltac:(simpl; lia) e a).
  assert (Hskip : starts_with_char arg dash = true → ∀ e,
    head_tail_loop program e acc rest = Some paths →
    (∀ p, p ∈ acc → p ∈ paths) ∧ accounted head_tail_values (arg :: rest) paths).
  { intros Hd e [H1 H2]%IHr. auto with agent. }
  assert (Hpath : head_tail_loop program ended (acc ++ [arg]) rest = Some paths →
    (∀ p, p ∈ acc → p ∈ paths) ∧ accounted head_tail_values (arg :: rest) paths).
  { intros [H1 H2]%IHr. split; [set_solver|].
    apply accounted_cons; [right; set_solver | done]. }
  assert (Hv : all_dashed head_tail_values) by (apply all_dashed_intro; by vm_compute).
  destruct ended; simpl; [exact Hpath|].
  destruct (arg ≟ "--") eqn:Hs; [by apply Hskip, sep_dashed|].
  destruct (one_of arg _) eqn:Hq.
  { apply Hskip. revert Hq. apply all_dashed_intro. by vm_compute. }
  destruct ((program ≟ "tail") && _); [done|].
  destruct (numeric_flag arg || inline_option head_tail_values arg) eqn:Hnum.
  { apply Hskip. apply orb_true_iff in Hnum as [H|H]; [|by eapply inline_option_dashed].
    unfold numeric_flag in H. destruct (strip_prefix "-" arg) eqn:E; [|done].
    by apply strip_prefix_some in E as ->. }
  destruct (one_of arg head_tail_values) eqn:Hval.
  { destruct rest as [|x rest']; [done|]. intros [H1 H2]%IH; [|simpl; lia].
    split; [done|]. apply accounted_value; [by apply Hv | by apply one_of_true | done]. }
  destruct (starts_with_char arg dash); [done | exact Hpath].
Qed.

(** Commands whose every positional argument is a path. *)
Definition simple_programs : list string :=
  ["ls"; "stat"; "wc"; "cat"; "head"; "tail"; "shasum"; "cksum"].

Definition program_value_options (program : string) : list string :=
  if program ≟ "ls" then ["--time-style"]
  else if program ≟ "stat" then ["-f"; "-c"; "--format"; "--printf"]
  else if one_of program ["head"; "tail"] then head_tail_values
  else if one_of program ["shasum"; "cksum"] then ["-a"; "--algorithm"; "--length"]
  else [].

Lemma simple_operands_accounted args b v paths :
  forallb (λ a, starts_with_char a dash) b = true →
  forallb (λ a, starts_with_char a dash) v = true →
  simple_path_operands args b v = Some paths → accounted v args paths.
Proof. intros Hb%all_dashed_intro Hv%all_dashed_intro H. by apply simple_loop_accounted in H as [_ H]. Qed.

Lemma required_operands_accounted args b v paths :
  forallb (λ a, starts_with_char a dash) b = true →
  forallb (λ a, starts_with_char a dash) v = true →
  required_path_operands args b v = Some paths → accounted v args paths.
Proof.
  unfold required_path_operands. intros Hb Hv H.
  destruct (simple_path_operands args b v) as [ps|] eqn:E; simpl in H; [|done].
  assert (ps = paths) as -> by (destruct ps; naive_solver).
  by apply simple_operands_accounted in E.
Qed.

(** For [ls], [stat], [wc], [cat], [head], [tail], [shasum] and [cksum] no
    path argument escapes the confinement check: every argument of an accepted
    command that does not start with a dash is handed on as a path to
    canonicalise, unless it is the value of the option right before it. *)
Theorem path_operands_complete program args paths :
  program ∈ simple_programs → agent_bash_path_operands program args = Some paths →
  accounted (program_value_options program) args paths.
Proof.
  unfold simple_programs. intros Hp.
  repeat (apply elem_of_cons in Hp as [->|Hp]; [| try by apply elem_of_nil in Hp]);
    unfold agent_bash_path_operands; simpl; intros H;
    try (eapply simple_operands_accounted; [| |exact H]; by vm_compute);
    try (eapply required_operands_accounted; [| |exact H]; by vm_compute);
    unfold head_tail_path_operands in H;
    destruct (head_tail_loop _ _ _ _) as [ps|] eqn:E in H; simpl in H; try done;
    (assert (ps = paths) as -> by (destruct ps; naive_solver));
    by apply head_tail_accounted in E as [_ E].
Qed.

Lemma path_operands_complete_witness :
  accounted head_tail_values ["-n"; "5"; "a.txt"; "--"; "-b"] ["a.txt"; "-b"].
Proof. apply (path_operands_complete "head"); [set_solver | by vm_compute]. Defined.

(** ** grep and ripgrep *)

Definition accounted_but_one (values args paths : list string) : Prop :=
  accounted values args paths
  ∨ ∃ pre pattern post, args = pre ++ pattern :: post
      ∧ accounted values pre paths ∧ accounted values post paths.

Lemma but_one_cons values a args paths :
  starts_with_char a dash = true ∨ a ∈ paths →
  accounted_but_one values args paths → accounted_but_one values (a :: args) paths.
Proof.
  intros Ha [H|(pre & pat & post & -> & H1 & H2)]; [left; by apply accounted_cons|].
  right. exists (a :: pre), pat, post. split_and!; [done | by apply accounted_cons | done].
Qed.

Lemma but_one_value values o x args paths :
  starts_with_char o dash = true → o ∈ values →
  accounted_but_one values args paths → accounted_but_one values (o :: x :: args) paths.
Proof.
  intros Ho Hv [H|(pre & pat & post & -> & H1 & H2)]; [left; by apply accounted_value|].
  right. exists (o :: x :: pre), pat, post. split_and!; [done | by apply accounted_value | done].
Qed.

Definition grep_values (ripgrep : bool) : list string :=
  (if ripgrep then ["-e"; "-g"; "-t"; "-m"; "-A"; "-B"; "-C"]
   else ["-e"; "-f"; "-m"; "-A"; "-B"; "-C"]) ++ grep_value_options ripgrep.

(** What the rest of the loop owes a state: a pattern may still be consumed only
    when neither an explicit pattern nor [--files] was seen. *)
Definition grep_owed (ripgrep : bool) (st : GrepState) (args paths : list string) : Prop :=
  if files_mode st || pattern_specified st then accounted (grep_values ripgrep) args paths
  else accounted_but_one (grep_values ripgrep) args paths.

Definition grep_paths_kept (st st' : GrepState) : Prop :=
  ∀ p, p ∈ grep_paths st → p ∈ grep_paths st'.

Lemma owed_dash rg st st' a args paths :
  starts_with_char a dash = true →
  (files_mode st || pattern_specified st = true → files_mode st' || pattern_specified st' = true) →
  grep_owed rg st' args paths → grep_owed rg st (a :: args) paths.
Proof.
  unfold grep_owed. intros Hd Himp H.
  destruct (files_mode st || pattern_specified st).
  - rewrite Himp in H by done. auto with agent.
  - apply but_one_cons; [by left|]. by destruct (files_mode st' || pattern_specified st'); [left|].
Qed.

Lemma owed_value rg st st' o x args paths :
  starts_with_char o dash = true → o ∈ grep_values rg →
  (files_mode st || pattern_specified st = true → files_mode st' || pattern_specified st' = true) →
  grep_owed rg st' args paths → grep_owed rg st (o :: x :: args) paths.
Proof.
  unfold grep_owed. intros Hd Hv Himp H.
  destruct (files_mode st || pattern_specified st).
  - rewrite Himp in H by done. auto with agent.
  - apply but_one_value; [done..|]. by destruct (files_mode st' || pattern_specified st'); [left|].
Qed.

Lemma long_value_spec o v st :
  grep_paths_kept st (grep_long_value o v st)
  ∧ (files_mode st || pattern_specified st = true →
     files_mode (grep_long_value o v st) || pattern_specified (grep_long_value o v st) = true).
Proof.
  unfold grep_long_value, grep_paths_kept.
  destruct (one_of o ["--regexp"; "--file"]), (one_of o ["--file"; "--ignore-file"; "--exclude-from"]);
    simpl; (split; [set_solver | by rewrite ?orb_true_r]).
Qed.

Lemma short_value_spec c v st :
  grep_paths_kept st (grep_short_value c v st)
  ∧ (files_mode st || pattern_specified st = true →
     files_mode (grep_short_value c v st) || pattern_specified (grep_short_value c v st) = true).
Proof.
  unfold grep_short_value, grep_paths_kept.
  destruct (one_of c ["e"; "f"]), (c ≟ "f"); simpl; (split; [set_solver | by rewrite ?orb_true_r]).
Qed.

Lemma str_contains_char s c :
  str_contains s (String c EmptyString) = true → contains_char s c = true.
Proof.
  induction s as [|a s IH]; [done|]. cbn [str_contains]. unfold contains_char, str_any in *.
  intros [H|H]%orb_true_iff; cbn [str_all].
  - apply starts_with_true in H as (r & [= -> ->]). by rewrite Ascii.eqb_refl.
  - apply IH in H. apply negb_true_iff in H. rewrite H. by rewrite andb_false_r.
Qed.

Lemma short_value_option rg c :
  str_contains (grep_value_short rg) (String c EmptyString) = true →
  String dash (String c EmptyString) ∈ grep_values rg.
Proof.
  intros H%str_contains_char. apply one_of_true.
  destruct rg; revert H; unfold contains_char, str_any; simpl;
    repeat (match goal with |- context [Ascii.eqb c ?x] =>
      destruct (Ascii.eqb_spec c x) as [->|]; [by intros _; vm_compute|] end);
    done.
Qed.

Lemma grep_loop_accounted rg args st st' :
  grep_loop rg st args = Some st' →
  grep_paths_kept st st' ∧ grep_owed rg st args (grep_paths st').
Proof.
  revert st.
  induction args as [args IH] using (induction_ltof1 _ (@length _)); unfold ltof in IH.
  intros st. destruct args as [|arg rest]; simpl.
  { intros [= <-]. split; [by intros p|]. unfold grep_owed.
    destruct (_ || _); [|left]; apply accounted_nil. }
  assert (IHr := λ s, IH rest ltac:(simpl; lia) s).
  assert (Hskip : ∀ s, starts_with_char arg dash = true → grep_paths_kept st s →
    (files_mode st || pattern_specified st = true → files_mode s || pattern_specified s = true) →
    grep_loop rg s rest = Some st' →
    grep_paths_kept st st' ∧ grep_owed rg st (arg :: rest) (grep_paths st')).
  { intros s Hd Hk Hi [H1 H2]%IHr. split; [intros p Hp; auto | by eapply owed_dash]. }
  assert (Hval : ∀ x rest' s, rest = x :: rest' → starts_with_char arg dash = true →
    arg ∈ grep_values rg → grep_paths_kept st s →
    (files_mode st || pattern_specified st = true → files_mode s || pattern_specified s = true) →
    grep_loop rg s rest' = Some st' →
    grep_paths_kept st st' ∧ grep_owed rg st (arg :: rest) (grep_paths st')).
  { intros x r' s -> Hd Hv Hk Hi [H1 H2]%IH; [|simpl; lia].
    split; [intros p Hp; auto | by eapply owed_value]. }
  assert (Hpos : (if files_mode st || pattern_specified st
                  then grep_loop rg (push_path st arg) rest
                  else grep_loop rg (set_pattern st) rest) = Some st' →
    grep_paths_kept st st' ∧ grep_owed rg st (arg :: rest) (grep_paths st')).
  { destruct (files_mode st || pattern_specified st) eqn:Hm.
    - intros [H1 H2]%IHr. unfold grep_owed in *. simpl in *. rewrite Hm in *.
      split; [intros p Hp; apply H1; set_solver|].
      apply accounted_cons; [right; apply H1; set_solver | done].
    - intros [H1 H2]%IHr. unfold grep_owed in *. simpl in *. rewrite orb_true_r in H2.
      rewrite Hm. split; [done|]. right. exists [], arg, rest. auto using accounted_nil. }
  destruct (options_ended st) eqn:He; simpl; [exact Hpos|].
  destruct (arg ≟ "--") eqn:Hs.
  { apply Hskip; [by apply sep_dashed | by intros p | done]. }
  destruct (rg && rg_denied arg); [done|].
  destruct (starts_with arg "--") eqn:Hl.
  { assert (Hd : starts_with_char arg dash = true) by by apply starts_with_true in Hl as (? & ->).
    destruct (one_of arg (grep_boolean_options rg)).
    { apply Hskip; [done | by intros p |]. simpl.
      by destruct (files_mode st), (pattern_specified st); rewrite ?orb_true_r. }
    destruct (split_once _ arg) as [[o v]|].
    - destruct (one_of o _); [|done]. destruct (long_value_spec o v st). by apply Hskip.
    - destruct (one_of arg _) eqn:Ho; [|done]. destruct rest as [|x rest']; [done|].
      destruct (long_value_spec arg x st). eapply Hval; [done..| |done|done].
      apply elem_of_app. right. by apply one_of_true. }
  destruct (String.eqb_spec arg "-") as [->|Hne].
  { apply Hskip; [done | intros p Hp; simpl; set_solver | done]. }
  destruct (starts_with_char arg dash) eqn:Hd; [|exact Hpos].
  destruct arg as [|d cluster]; [done|]. simpl in Hd. apply Ascii.eqb_eq in Hd as ->.
  destruct (Nat.eqb _ 1 && _) eqn:Hsv.
  - bool_hyp. apply Nat.eqb_eq in H. destruct cluster as [|c [|]]; try done.
    destruct rest as [|x rest']; [done|]. destruct (short_value_spec (String c "") x st).
    eapply Hval; [done..| |done|done]. by apply short_value_option.
  - destruct (str_all _ cluster); [|done]. apply Hskip; [done | by intros p | done].
Qed.

(** For [grep] and [rg] at most one argument that does not start with a
    dash, the search pattern, is not handed on to the confinement check: all
    others are paths or values of the option right before them. *)
Theorem grep_operands_accounted args ripgrep paths :
  grep_like_path_operands args ripgrep = Some paths →
  accounted_but_one (grep_values ripgrep) args paths.
Proof.
  unfold grep_like_path_operands. intros H.
  destruct (grep_loop _ _ _) as [st|] eqn:E; simpl in H; [|done].
  apply grep_loop_accounted in E as [_ E]. unfold grep_owed in E. simpl in E.
  by destruct (_ || _); simplify_eq.
Qed.

Lemma grep_operands_accounted_witness :
  accounted_but_one (grep_values false) ["-n"; "-f"; "pats"; "x"; "a.rs"] ["pats"; "x"; "a.rs"].
Proof. apply (grep_operands_accounted _ false). by vm_compute. Defined.

(** The argument taken for the pattern is decided left to right: a file
    named before an explicit [-e] pattern is taken for the pattern and never
    checked, although [grep] then reads it as an input file. *)
Theorem grep_operand_before_pattern_unchecked file pattern other ripgrep :
  starts_with_char file dash = false → starts_with_char other dash = false →
  grep_like_path_operands [file; "-e"; pattern; other] ripgrep = Some [other].
Proof.
  intros Hf Ho. unfold grep_like_path_operands.
  assert (Hnl : ∀ s, starts_with_char s dash = false →
    (s ≟ "--") = false ∧ (s ≟ "-") = false ∧ starts_with s "--" = false ∧ rg_denied s = false).
  { intros s Hs. split_and!.
    - by destruct (String.eqb_spec s "--") as [->|].
    - by destruct (String.eqb_spec s "-") as [->|].
    - destruct (starts_with s "--") eqn:E; [|done]. by apply starts_with_true in E as (? & ->).
    - apply existsb_false_iff. intros o Hin. apply orb_false_iff.
      assert (Hod : starts_with_char o dash = true).
      { revert o Hin. apply (forallb_true_iff (λ o, starts_with_char o dash)). by vm_compute. }
      split; [by destruct (String.eqb_spec s o) as [->|]; [congruence|]|].
      destruct (starts_with s _) eqn:E; [|done]. apply starts_with_true in E as (? & ->).
      destruct o; simpl in *; congruence. }
  destruct (Hnl file Hf) as (H1 & H2 & H3 & H4), (Hnl other Ho) as (G1 & G2 & G3 & G4).
  simpl. rewrite H1, H2, H3, H4, Hf, andb_false_r. simpl.
  destruct ripgrep; simpl; rewrite G1, G2, G3, ?G4, Ho; reflexivity.
Qed.

Lemma grep_operand_before_pattern_unchecked_witness :
  grep_like_path_operands ["/etc/passwd"; "-e"; "root"; "README.md"] false = Some ["README.md"].
Proof. by apply grep_operand_before_pattern_unchecked. Defined.

(** ** find *)

(** Each argument of the expression is harmless unless it is the operand of the
    option right before it. *)
Definition find_guarded (args paths : list string) : Prop :=
  ∀ pre arg post, args = pre ++ arg :: post → one_of arg find_denied = true →
    last pre = Some "-newer" ∧ arg ∈ paths.

Lemma find_guarded_nil paths : find_guarded [] paths.
Proof. intros [|??] ? ? H; discriminate. Qed.

Lemma find_guarded_cons a args paths :
  one_of a find_denied = false → find_guarded args paths → find_guarded (a :: args) paths.
Proof.
  intros Ha H [|b pre] arg post [= -> ->] Hd; [congruence|].
  destruct (H pre arg post eq_refl Hd) as [Hl Hp]. split; [|done].
  destruct pre; [done|]. by rewrite last_cons_cons.
Qed.

Lemma find_guarded_newer x args paths :
  x ∈ paths → find_guarded args paths → find_guarded ("-newer" :: x :: args) paths.
Proof.
  intros Hx H [|b [|c pre]] arg post Heq Hd; simplify_eq/=; [done|].
  destruct (H pre arg post eq_refl Hd) as [Hl Hp]. split; [|done].
  destruct pre; [done|]. by rewrite !last_cons_cons.
Qed.

Lemma not_denied_undashed x : starts_with_char x dash = false → one_of x find_denied = false.
Proof.
  intros Hx. apply one_of_false. intros Hin. revert x Hin Hx.
  assert (∀ x, x ∈ find_denied → starts_with_char x dash = true) as H; [|intros x Hin; rewrite H by done; done].
  apply (forallb_true_iff (λ o, starts_with_char o dash)). by vm_compute.
Qed.

Lemma depth_not_denied x n : parse_unsigned u8_max x = Some n → one_of x find_denied = false.
Proof.
  intros H. apply one_of_false. intros Hin. revert x Hin H.
  apply (Forall_forall (λ x, parse_unsigned u8_max x = Some n → False)).
  repeat constructor; by vm_compute.
Qed.

Lemma type_not_denied x : find_type_char x = true → one_of x find_denied = false.
Proof.
  intros H%one_of_true. revert x H.
  apply (Forall_forall (λ x, one_of x find_denied = false)). repeat constructor; by vm_compute.
Qed.

Lemma find_loop_guarded paths args out :
  find_loop paths args = Some out →
  (∀ p, p ∈ paths → p ∈ out) ∧ find_guarded args out.
Proof.
  revert paths. induction args as [args IH] using (induction_ltof1 _ (@length _)).
  unfold ltof in IH. intros paths.
  destruct args as [|arg rest]; [by intros [= ->]; split; [|apply find_guarded_nil]|].
  simpl. destruct (one_of arg find_denied) eqn:Hd; [done|].
  assert (Hskip : ∀ x rest', rest = x :: rest' → one_of x find_denied = false →
    find_loop paths rest' = Some out →
    (∀ p, p ∈ paths → p ∈ out) ∧ find_guarded (arg :: rest) out).
  { intros x r -> Hx [H1 H2]%IH; [|simpl; lia]. auto using find_guarded_cons. }
  destruct (one_of arg ["-maxdepth"; _]).
  { destruct rest as [|x rest']; [done|]. destruct (parse_unsigned _ x) as [n|] eqn:Hx; [|done].
    destruct (Z.ltb _ _); [done|]. eapply Hskip; eauto using depth_not_denied. }
  destruct (arg ≟ "-type").
  { destruct rest as [|x rest']; [done|]. destruct (find_type_char x) eqn:Hx; [|done].
    eapply Hskip; eauto using type_not_denied. }
  destruct (one_of arg ("-name" :: _)).
  { destruct rest as [|x rest']; [done|]. destruct (_ || _) eqn:Hx; [done|]. bool_hyp.
    eapply Hskip; eauto using not_denied_undashed. }
  destruct (String.eqb_spec arg "-newer") as [->|_].
  { destruct rest as [|x rest']; [done|]. destruct (str_is_empty x); [done|].
    intros [H1 H2]%IH; [|simpl; lia]. split; [set_solver|].
    apply find_guarded_newer; [set_solver | done]. }
  destruct (one_of arg ["-empty"; _; _]); [|done]. intros [H1 H2]%IH; [|simpl; lia].
  by split; [|apply find_guarded_cons].
Qed.

Lemma find_start_paths_split args paths rest :
  find_start_paths args = (paths, rest) →
  args = paths ++ rest ∧ ∀ p, p ∈ paths → starts_with_char p dash = false.
Proof.
  revert paths. induction args as [|a args IH]; simpl; intros paths;
    [intros [= <- <-]; set_solver|].
  destruct (starts_with_char a dash) eqn:Ha; [intros [= <- <-]; set_solver|].
  destruct (find_start_paths args) as [ps r]. intros [= <- <-].
  destruct (IH ps eq_refl) as [-> Hp]. split; [done | set_solver].
Qed.

(** An accepted [find] never runs or deletes anything: an argument spelled
    like an action ([-exec], [-delete], [-fprint], ...) occurs only as the
    operand of [-newer], where it is a file name that is checked too. *)
Theorem valid_agent_find_no_action args paths :
  valid_agent_find args = Some paths → find_guarded args paths.
Proof.
  unfold valid_agent_find. destruct (find_start_paths args) as [starts rest] eqn:E.
  apply find_start_paths_split in E as [-> Hs].
  destruct starts as [|s starts]; [done|]. intros [_ H]%find_loop_guarded. revert Hs.
  generalize (s :: starts). intros l; induction l as [|a l IH]; intros Hs; [done|].
  apply find_guarded_cons; [apply not_denied_undashed; set_solver | apply IH; set_solver].
Qed.

Lemma valid_agent_find_no_action_witness :
  find_guarded ["src"; "-newer"; "-exec"; "-type"; "f"] ["src"; "-exec"].
Proof. apply valid_agent_find_no_action. by vm_compute. Defined.

(** The options of a [find] expression that take the next argument. *)
Definition find_values : list string :=
  ["-maxdepth"; "-mindepth"; "-type"; "-name"; "-iname"; "-path"; "-ipath"; "-size"; "-mtime";
   "-mmin"; "-newer"].

Lemma find_loop_accounted paths args out :
  find_loop paths args = Some out →
  (∀ p, p ∈ paths → p ∈ out) ∧ accounted find_values args out.
Proof.
  revert paths. induction args as [args IH] using (induction_ltof1 _ (@length _)).
  unfold ltof in IH. intros paths.
  destruct args as [|arg rest]; [by intros [= ->]; split; [|apply accounted_nil]|].
  simpl. destruct (one_of arg find_denied); [done|].
  assert (Hval : ∀ l x rest' ps, one_of arg l = true →
    forallb (λ o, one_of o find_values) l = true → rest = x :: rest' →
    (∀ p, p ∈ paths → p ∈ ps) → find_loop ps rest' = Some out →
    (∀ p, p ∈ paths → p ∈ out) ∧ accounted find_values (arg :: rest) out).
  { intros l x r ps Hl%one_of_true Hv -> Hps [H1 H2]%IH; [|simpl; lia].
    rewrite forallb_true_iff in Hv. apply Hv in Hl. split; [auto|].
    apply accounted_value; [| by apply one_of_true | done].
    revert Hl. apply all_dashed_intro. by vm_compute. }
  destruct (one_of arg ["-maxdepth"; _]) eqn:E1.
  { destruct rest as [|x rest']; [done|]. destruct (parse_unsigned _ x); [|done].
    destruct (Z.ltb _ _); [done|]. by eapply Hval. }
  destruct (arg ≟ "-type") eqn:E2.
  { destruct rest as [|x rest']; [done|]. destruct (find_type_char x); [|done].
    apply String.eqb_eq in E2 as ->. by eapply (Hval ["-type"]). }
  destruct (one_of arg ("-name" :: _)) eqn:E3.
  { destruct rest as [|x rest']; [done|]. destruct (_ || _); [done|]. by eapply Hval. }
  destruct (arg ≟ "-newer") eqn:E4.
  { destruct rest as [|x rest']; [done|]. destruct (str_is_empty x); [done|].
    apply String.eqb_eq in E4 as ->. eapply (Hval ["-newer"]); [done..|]. set_solver. }
  destruct (one_of arg ["-empty"; _; _]) eqn:E5; [|done]. intros [H1 H2]%IH; [|simpl; lia].
  split; [done|]. apply accounted_cons; [left | done]. revert E5. apply all_dashed_intro. by vm_compute.
Qed.

Lemma find_accounted args paths :
  valid_agent_find args = Some paths → accounted find_values args paths.
Proof.
  unfold valid_agent_find. destruct (find_start_paths args) as [starts rest] eqn:E.
  apply find_start_paths_split in E as [-> _].
  destruct starts as [|s starts]; [done|]. intros [Hs H]%find_loop_accounted. revert Hs.
  generalize (s :: starts). intros l; induction l as [|a l IH]; intros Hs; [done|].
  apply accounted_cons; [right; apply Hs; by left | apply IH; set_solver].
Qed.

(** ** All programs *)

(** What an accepted command line hands on to the confinement check, read off its
    arguments: everything without a dash except the values of options, and except
    for one argument of [grep] and [rg], the line range of [sed], and what precedes
    [--] in a git command. *)
Definition arguments_accounted (program : string) (args paths : list string) : Prop :=
  (program = "pwd" → paths = [] ∧ ∀ a, a ∈ args → a ∈ ["-L"; "-P"])
  ∧ (program ∈ simple_programs → accounted (program_value_options program) args paths)
  ∧ (program = "grep" → accounted_but_one (grep_values false) args paths)
  ∧ (program = "rg" → accounted_but_one (grep_values true) args paths)
  ∧ (program = "find" → accounted find_values args paths ∧ find_guarded args paths)
  ∧ (program = "sed" → ∃ range, args = "-n" :: range :: paths)
  ∧ (program = "git" → ∀ sub operands, skip_no_pager args = sub :: operands →
       "--no-pager" ∉ sub :: operands → paths = default [] (after_separator operands)).

Lemma sed_arguments args :
  valid_agent_sed args = true → ∃ range, args = "-n" :: range :: drop 2 args.
Proof.
  destruct args as [|flag [|range [|file files]]]; try done. simpl.
  destruct (String.eqb_spec flag "-n") as [->|]; [eauto | done].
Qed.

Lemma path_operands_accounted program args paths :
  agent_bash_path_operands program args = Some paths → arguments_accounted program args paths.
Proof.
  intros H. split_and!; try (intros ->; unfold agent_bash_path_operands in H; simpl in H).
  - destruct (forallb _ args) eqn:E; simplify_eq. split; [done|]. rewrite forallb_true_iff in E.
    intros a Ha. by apply one_of_true, E.
  - intros Hp. by apply path_operands_complete.
  - by apply grep_operands_accounted.
  - by apply grep_operands_accounted.
  - split; [by apply find_accounted | by apply valid_agent_find_no_action].
  - destruct (valid_agent_sed args) eqn:E; simplify_eq. by apply sed_arguments.
  - intros sub operands Hs Hn. rewrite (git_path_operands_exact _ _ _ Hs Hn) in H. congruence.
Qed.
