(* ===== verification/FileSystem.v ===== *)
(** * The file system the policy consults

    The launcher asks the operating system four questions: [fs::canonicalize],
    [fs::symlink_metadata], [Path::is_dir] and [Path::is_file].  [FileSystem] is
    that interface and [FileSystemLaws] the documented behaviour the policy
    relies on; the policy's theorems are proved against it.  [Tree] is a concrete
    file system with directories, files and symbolic links that satisfies it. *)

From stdpp Require Import gmap.
From S2P Require Import Prelude RustStr RustPath.

Inductive Metadata := Found | NotFound | OtherError.

#[global] Instance Metadata_eq_dec : EqDecision Metadata.
Proof. solve_decision. Defined.

Class FileSystem := {
  canonicalize : Path → option Path;
  symlink_metadata : Path → Metadata;
  is_dir : Path → bool;
  is_file : Path → bool }.

(** The text of an absolute path with the given names. *)
Definition render (names : list string) : Path := "/" +:+ join_with "/" names.

(** A canonical path is absolute, made of plain names only, and written without
    redundant separators. *)
Definition canonical_path (p : Path) : Prop :=
  ∃ names, Forall plain_name names ∧ p = render names.

Class FileSystemLaws `{FileSystem} := {
  canonicalize_canonical p q : canonicalize p = Some q → canonical_path q;
  (** [canonicalize] fails when the path does not exist. *)
  canonicalize_found p q : canonicalize p = Some q → symlink_metadata p = Found }.

Lemma render_components names :
  Forall plain_name names → components (render names) = RootDir :: (Normal <$> names).
Proof.
  intros Hn. unfold render. change ("/" +:+ ?r) with (String slash r).
  unfold components. simpl. f_equal.
  destruct names as [|n names]; [done|].
  rewrite split_join_with; [by apply omap_plain | done |].
  eapply Forall_impl; [done | by intros ? []].
Qed.

Lemma canonical_path_no_parent p : canonical_path p → ParentDir ∉ components p.
Proof.
  intros (names & Hn & ->). rewrite render_components by done.
  by intros [?|(n & ? & _)%list_elem_of_fmap]%elem_of_cons.
Qed.

Lemma canonical_path_nonempty p : canonical_path p → p ≠ "".
Proof. by intros (names & _ & ->). Qed.

Lemma plain_name_kept n : plain_name n → droppable n = false.
Proof.
  intros [Hp _]. destruct (droppable n) eqn:E; [|done]. apply droppable_parse in E. congruence.
Qed.

Lemma trim_end_plain l : Forall plain_name l → trim_end l = l.
Proof.
  induction 1 as [|x l Hx _ IH]; [done|]. simpl. rewrite IH.
  destruct l; [by rewrite plain_name_kept | done].
Qed.

Lemma split_render names :
  Forall plain_name names → names ≠ [] → split_char slash (render names) = "" :: names.
Proof.
  intros Hn Hne. unfold render. change ("/" +:+ ?r) with (String slash r). simpl. f_equal.
  apply split_join_with; [done|]. eapply Forall_impl; [done | by intros ? []].
Qed.

Lemma split_join_render names n :
  Forall plain_name names → plain_name n →
  split_char slash (join (render names) n) = "" :: names ++ [n].
Proof.
  intros Hns Hn. unfold join. rewrite plain_name_relative by done.
  destruct (decide (names = [])) as [->|Hne].
  { simpl. f_equal. apply split_char_absent, Hn. }
  destruct (last_char (render names)) as [c|] eqn:Hc; [|by apply last_char_none in Hc].
  destruct (Ascii.eqb_spec c slash) as [->|_].
  - exfalso. apply last_char_app_slash in Hc as [s' Hs'].
    pose proof (split_render names Hns Hne) as Hsp. rewrite Hs' in Hsp.
    change (s' +:+ "/") with (s' +:+ String slash "") in Hsp. rewrite split_char_app in Hsp.
    destruct names as [|x l _] using rev_ind; [done|]. simpl in Hsp.
    change ("" :: l ++ [x]) with (("" :: l) ++ [x]) in Hsp. apply app_inj_tail in Hsp as [_ <-].
    by apply Forall_app in Hns as [_ [[? _] _]%Forall_cons].
  - rewrite split_char_app, split_render, split_char_absent by (done || apply Hn). done.
Qed.

(** The parent of a name pushed on a canonical path is that path again. *)
Lemma parent_join_canonical p n :
  canonical_path p → plain_name n → parent (join p n) = Some p.
Proof.
  intros (names & Hns & ->) Hn. pose proof (split_join_render names n Hns Hn) as Hsp.
  unfold parent. rewrite Hsp, (split_absolute _ _ _ Hsp).
  rewrite trim_end_plain by (apply Forall_app; auto).
  rewrite bool_decide_eq_true_2 by (split; [done|]; by destruct names).
  destruct (names ++ [n]) as [|x l] eqn:E; [by destruct names|].
  rewrite <- E, removelast_last, trim_end_plain by done. by destruct names.
Qed.

(** ** A concrete file system *)

Module Tree.

Inductive Node := Dir | File | Link (target : Path).

Definition t : Type := gmap (list string) Node.

Inductive WalkError := ENOENT | ENOTDIR | ELOOP.

(** Path resolution from the directory [at_]: symbolic links are expanded, the
    last one only when [follow] is set; [fuel] bounds the expansions. *)
Fixpoint walk (fuel : nat) (tree : t) (follow : bool) (at_ : list string)
    (rest : list Component) : result WalkError (list string) :=
  match fuel with
  | O => Err ELOOP
  | S fuel =>
      match rest with
      | [] => Ok at_
      | RootDir :: rest => walk fuel tree follow [] rest
      | CurDir :: rest => walk fuel tree follow at_ rest
      | ParentDir :: rest => walk fuel tree follow (removelast at_) rest
      | Normal n :: rest =>
          match tree !! (at_ ++ [n]), rest with
          | None, _ => Err ENOENT
          | Some Dir, _ => walk fuel tree follow (at_ ++ [n]) rest
          | Some File, [] => Ok (at_ ++ [n])
          | Some File, _ => Err ENOTDIR
          | Some (Link target), [] =>
              if follow then walk fuel tree follow at_ (components target) else Ok (at_ ++ [n])
          | Some (Link target), _ => walk fuel tree follow at_ (components target ++ rest)
          end
      end
  end.

Definition walk_fuel : nat := 400.

Definition resolve (tree : t) (follow : bool) (p : Path) : result WalkError (list string) :=
  if is_absolute p then walk walk_fuel tree follow [] (components p) else Err ENOENT.

Definition node_is (tree : t) (p : Path) (P : Node → bool) : bool :=
  match resolve tree true p with
  | Ok [] => P Dir
  | Ok names => match tree !! names with Some n => P n | None => false end
  | Err _ => false
  end.

#[export] Instance fs (tree : t) : FileSystem := {
  canonicalize p := match resolve tree true p with Ok names => Some (render names) | Err _ => None end;
  symlink_metadata p := match resolve tree false p with
                        | Ok _ => Found
                        | Err ENOENT => NotFound
                        | Err _ => OtherError
                        end;
  is_dir p := node_is tree p (λ n, match n with Dir => true | _ => false end);
  is_file p := node_is tree p (λ n, match n with File => true | _ => false end) }.

Lemma removelast_Forall {A} (P : A → Prop) (l : list A) : Forall P l → Forall P (removelast l).
Proof.
  destruct l as [|x l] using rev_ind; [done|]. rewrite removelast_last.
  intros [? _]%Forall_app. done.
Qed.

Lemma walk_plain fuel tree follow at_ rest names :
  walk fuel tree follow at_ rest = Ok names →
  Forall plain_name at_ → Forall plain rest → Forall plain_name names.
Proof.
  revert at_ rest. induction fuel as [|fuel IH]; intros at_ rest; simpl; [done|].
  destruct rest as [|c rest]; [by intros [= ->]|]. intros H Hat [Hc Hr]%Forall_cons.
  destruct c as [| | |n].
  1-3: eapply IH; eauto using removelast_Forall.
  assert (Hsnoc : Forall plain_name (at_ ++ [n])) by (apply Forall_app; auto).
  assert (Hl : ∀ target, Forall plain (components target ++ rest))
    by (intros; apply Forall_app; auto using components_plain).
  destruct (tree !! _) as [[| |target]|] eqn:E; [by eapply IH | | | done].
  - by destruct rest; simplify_eq.
  - destruct rest as [|c rest]; [|by eapply IH].
    destruct follow; simplify_eq; [eapply IH; eauto using components_plain | done].
Qed.

(** A path whose last link can be followed has an entry. *)
Lemma walk_entry fuel tree at_ rest names :
  walk fuel tree true at_ rest = Ok names → ∃ names', walk fuel tree false at_ rest = Ok names'.
Proof.
  revert at_ rest. induction fuel as [|fuel IH]; intros at_ rest; simpl; [done|].
  destruct rest as [|[| | |n] rest]; [eauto.. |].
  destruct (tree !! _) as [[| |target]|]; [eauto | by destruct rest; eauto | | done].
  destruct rest; eauto.
Qed.

#[export] Instance fs_laws (tree : t) : @FileSystemLaws (fs tree).
Proof.
  constructor; intros p q; simpl; unfold resolve; (destruct (is_absolute p); [|done]);
    destruct (walk _ _ true _ _) as [names|] eqn:E; try done; intros [= <-].
  - exists names. split; [|done]. eapply walk_plain; eauto using components_plain.
  - by destruct (walk_entry _ _ _ _ _ E) as [names' ->].
Qed.

(** A repository with a link to a directory inside it and one to the outside. *)
Definition sample : t :=
  <[["repo"] := Dir]> $ <[["repo"; "src"] := Dir]> $
  <[["repo"; "src"; "a.rs"] := File]> $ <[["repo"; "in"] := Link "src"]> $
  <[["repo"; "out"] := Link "/etc"]> $ <[["repo"; ".env"] := File]> $
  <[["repo"; "notes"] := Link ".env"]> $
  <[["etc"] := Dir]> $ <[["etc"; "passwd"] := File]> $
  <[["tmp"] := Dir]> $ <[["tmp"; "s"] := Dir]> ∅.

End Tree.
