(* ===== verification/Denial.v ===== *)
(** * Denial identity and recovery advice

    [crates/external-core/src/policy/denial.rs]: the daemon-side identity of a
    denied tool call (program family, category, reason, operand class), the
    fingerprint under which repeated denials are counted, and the feedback text
    sent back to the agent. *)

From S2P Require Import Prelude RustStr RustPath Json PolicyPaths Tokenizer GitPolicy.

Definition AGENT_BASH_POLICY_VERSION : string := "zcode-agent-bash/v1.0.0".

Record PermissionDenialSemantics := mk_semantics {
  program_family : string;
  category : string;
  reason_code : string;
  operand_class : string;
  retry_class : string;
  recommended_action : string }.

#[global] Instance PermissionDenialSemantics_eq_dec : EqDecision PermissionDenialSemantics.
Proof. solve_decision. Defined.

Definition fingerprint (d : PermissionDenialSemantics) : string :=
  "family=" +:+ program_family d +:+ ";category=" +:+ category d
  +:+ ";reason=" +:+ reason_code d +:+ ";operand=" +:+ operand_class d.

Definition feedback (d : PermissionDenialSemantics) (repeated : bool) : string :=
  if repeated then
    "DENY[policy_version=" +:+ AGENT_BASH_POLICY_VERSION
    +:+ ";code=REPEATED_DENIED_OPERATION;retry=do_not_retry_equivalent;next=use_read_or_existing_inputs;original_code="
    +:+ reason_code d +:+ "]"
  else
    "DENY[policy_version=" +:+ AGENT_BASH_POLICY_VERSION +:+ ";code=" +:+ reason_code d
    +:+ ";retry=" +:+ retry_class d +:+ ";next=" +:+ recommended_action d +:+ "]".

(** The four identity strings: family, category, inferred reason, operand class. *)
Definition Identity : Type := string * string * string * string.

(** ** Read-like tools *)

Definition read_denial_identity (tool : string) (input : Value) (validated_reason : string)
    : Identity :=
  let path := if tool ≟ "read" then zcode_file_path input else get_str input "path" in
  let path_is (P : Path → bool) := match path with Some p => P p | None => false end in
  if (validated_reason ≟ "credential_read_denied") || path_is is_credential_path
  then (tool, "path", "credential_read_denied", "sensitive_path")
  else if one_of validated_reason ["read_path_escape_denied"; "agent_metadata_read_denied"]
          || path_is has_parent_dir
  then (tool, "path", "read_path_escape_denied", "outside_scope")
  else (tool, "path", validated_reason,
        match path with Some _ => "unavailable_path" | None => "missing_path" end).

(** ** Git *)

Definition git_override_options : list string := ["-C"; "-c"; "--git-dir"; "--work-tree"].

Definition git_repository_override (value : string) : bool :=
  one_of value ["--git-dir"; "--work-tree"]
  || starts_with value "--git-dir=" || starts_with value "--work-tree=".

Fixpoint git_denial_category (args : list string) : string :=
  match args with
  | [] => "unknown"
  | value :: rest =>
      if one_of value git_override_options then
        match rest with [] => "unknown" | _ :: rest' => git_denial_category rest' end
      else if starts_with value "--git-dir=" || starts_with value "--work-tree="
              || starts_with value "-c" || (value ≟ "--no-pager")
      then git_denial_category rest
      else to_ascii_lowercase (trim_start_matches dash value)
  end.

Definition git_mutations : list string :=
  ["add"; "apply"; "branch"; "checkout"; "clean"; "commit"; "merge"; "mv"; "rebase"; "reset";
   "restore"; "rm"; "switch"; "tag"].

Definition git_write_option (value : string) : bool :=
  one_of value ["--output"; "--ext-diff"; "--textconv"; "--no-index"]
  || starts_with value "--output=".

Definition sensitive_operand (value : string) : bool :=
  is_credential_path value || is_agent_metadata_path value.

Definition git_denial_operand_class (args : list string) : string :=
  if existsb (λ value, value ≟ "-C") args then "cwd_override"
  else if existsb (λ value, (value ≟ "-c") || starts_with value "-c") args
  then "config_override"
  else if existsb git_repository_override args then "repository_override"
  else if existsb git_write_option args then "write_option"
  else if existsb sensitive_operand args then "sensitive_path"
  else if match args with value :: _ => one_of value git_mutations | [] => false end
  then "mutation"
  else "option_or_operand".

(** ** Shell commands *)

(** [Path::new(program).file_name()] lower-cased, or [unknown]. *)
Definition program_name (program : option string) : string :=
  to_ascii_lowercase (default "unknown" (program ≫= file_name)).

(** [argv[1..]] is in range where it is used: with an empty [argv] the family is
    [unknown], which is not allowlisted. *)
Definition bash_denial_identity (command : string) : Identity :=
  match tokenize_agent_bash command with
  | None =>
      ("shell", "composition", "shell_composition_or_expansion_denied",
       if contains_char command (byte_of 10) || contains_char command (byte_of 13)
       then "multiline" else "compound_command")
  | Some argv =>
      let family := program_name (head argv) in
      let args := drop 1 argv in
      if negb (agent_bash_program_allowed family)
      then (family, "program", "command_not_allowlisted", "program")
      else if family ≟ "git" then
        let operand_class := git_denial_operand_class args in
        (family, git_denial_category args,
         if operand_class ≟ "sensitive_path" then "git_sensitive_path_denied"
         else "git_option_or_mutation_denied", operand_class)
      else
        let credential_path := existsb is_credential_path args in
        let agent_metadata_path := existsb is_agent_metadata_path args in
        let operand_class :=
          if credential_path || agent_metadata_path then "sensitive_path"
          else if existsb (λ value, starts_with_char value dash) args then "option"
          else if Nat.leb (length argv) 1 then "missing_path"
          else "path" in
        let inferred_reason :=
          if operand_class ≟ "sensitive_path" then
            if agent_metadata_path then "agent_metadata_read_denied" else "credential_read_denied"
          else if operand_class ≟ "missing_path" then "command_option_not_allowlisted"
          else "external_policy_denied" in
        (family, family, inferred_reason, operand_class)
  end.

(** ** Recovery advice *)

Definition network_clients : list string :=
  ["curl"; "wget"; "ssh"; "scp"; "sftp"; "nc"; "ncat"; "telnet"].

Definition build_tools : list string :=
  ["cargo"; "rustc"; "npm"; "npx"; "pnpm"; "yarn"; "bun"; "docker"; "make"; "cmake"; "pytest";
   "python"; "python3"; "go"].

Definition stop_reason_fragments : list string :=
  ["credential"; "sensitive"; "secret"; "network"; "write"; "mutation"; "outside"; "escape";
   "protected"; "agent_metadata"].

Definition denial_recovery (tool program_family reason_code operand_class : string)
    : string * string :=
  if starts_with reason_code "shell_" || str_contains reason_code "multiline"
     || (reason_code ≟ "shell_composition_or_expansion_denied")
  then ("split_once", "split_into_single_commands")
  else if (tool ≟ "read")
          && one_of reason_code ["read_path_unverifiable"; "permission_request_unrecognized"]
  then ("simplify_once", "correct_read_path_once")
  else if (program_family ≟ "git")
          && one_of operand_class ["cwd_override"; "config_override"; "repository_override"]
  then ("simplify_once", "remove_denied_option_once")
  else if str_contains reason_code "option_not_allowlisted"
          && negb (one_of operand_class ["write_option"; "mutation"; "sensitive_path"])
  then ("simplify_once", "remove_denied_option_once")
  else if one_of reason_code ["command_not_allowlisted"; "program_not_allowlisted"] then
    if one_of program_family network_clients
    then ("do_not_retry_equivalent", "stop_evidence_path")
    else if one_of program_family build_tools then ("use_prepared_inputs", "use_prepared_inputs")
    else ("use_read", "use_read_or_prepared_inputs")
  else if existsb (str_contains reason_code) stop_reason_fragments
          || (reason_code ≟ "external_policy_denied")
          || one_of operand_class ["write_option"; "mutation"; "sensitive_path"; "outside_scope"]
  then ("do_not_retry_equivalent", "stop_evidence_path")
  else ("use_read", "use_read_or_prepared_inputs").

(** ** The identity of a denied call *)

Definition tool_denial_identity (tool : string) (input : Value) (validated_reason : string)
    : Identity :=
  if tool ≟ "bash" then
    match get_str input "command" with
    | Some command => bash_denial_identity command
    | None => ("bash", "command", "bash_command_missing", "missing_command")
    end
  else if one_of tool ["read"; "grep"; "glob"] then
    read_denial_identity tool input validated_reason
  else if one_of tool ["write"; "edit"; "delete"; "move"] then
    (tool, "write", "write_denied", "mutation")
  else if one_of tool ["execute"; "terminal"] then
    (program_name (get_str input "program"), "execute", "command_not_allowlisted", "program")
  else if tool ≟ "network" then
    ("network", "network", "network_not_enforced_and_request_denied", "network")
  else if tool ≟ "git_ref_mutation" then
    ("git", "ref_mutation", "git_ref_mutation_denied", "mutation")
  else if starts_with tool "mcp__" then
    ("mcp_tool", "mcp_tool", "permission_request_unrecognized", "unknown")
  else (tool, "unknown", "permission_request_unrecognized", "unknown").

Definition denied_tool (params : Value) : string :=
  to_ascii_lowercase (default "unknown" (get_str params "toolName")).

Definition permission_denial_semantics (params : Value) (validated_reason : string)
    : option PermissionDenialSemantics :=
  let tool := denied_tool params in
  let input := get_or_null params "input" in
  let '(program_family, category, inferred_reason, operand_class) :=
    tool_denial_identity tool input validated_reason in
  let reason_code := if str_is_empty validated_reason then inferred_reason else validated_reason in
  let '(retry_class, recommended_action) :=
    denial_recovery tool program_family reason_code operand_class in
  Some (mk_semantics program_family category reason_code operand_class retry_class
          recommended_action).

(** ** Properties *)

(** A denial always has an identity, and its reason is the validated one. *)
Lemma denial_semantics_some params reason :
  reason ≠ "" →
  ∃ d, permission_denial_semantics params reason = Some d ∧ reason_code d = reason
       ∧ (retry_class d, recommended_action d)
         = denial_recovery (denied_tool params) (program_family d) reason (operand_class d).
Proof.
  intros Hr. unfold permission_denial_semantics.
  destruct (tool_denial_identity _ _ _) as [[[fam cat] inf] op].
  assert (str_is_empty reason = false) as -> by by destruct reason.
  destruct (denial_recovery _ _ _ _) as [rt act] eqn:E. by eexists.
Qed.

(** The reasons for which the agent is told to stop. *)
Definition stop_reasons : list string :=
  ["credential_read_denied"; "agent_metadata_read_denied"; "read_path_escape_denied";
   "path_outside_agent_roots"; "cwd_outside_agent_roots"; "git_sensitive_path_denied";
   "git_ref_mutation_denied"; "git_option_or_mutation_denied";
   "network_not_enforced_and_request_denied"; "write_path_unverifiable";
   "protected_worktree_metadata_denied"; "tracked_writes_denied_for_access_mode";
   "write_outside_result_roots_denied"; "external_policy_denied"].

Definition git_override (d : PermissionDenialSemantics) : bool :=
  (program_family d ≟ "git")
  && one_of (operand_class d) ["cwd_override"; "config_override"; "repository_override"].

Lemma stop_recovery tool fam reason op :
  reason ∈ stop_reasons →
  (fam ≟ "git") && one_of op ["cwd_override"; "config_override"; "repository_override"] = false →
  denial_recovery tool fam reason op = ("do_not_retry_equivalent", "stop_evidence_path").
Proof.
  intros Hin Hg. unfold denial_recovery. rewrite Hg. clear Hg. revert reason Hin.
  apply (Forall_forall (λ reason, (if starts_with reason "shell_" || _ || _ then _ else _) = _)).
  repeat constructor; (destruct (tool ≟ "read"); vm_compute; reflexivity).
Qed.

(** The write tools are classed as mutations, whatever they were given. *)
Lemma write_tool_identity tool input reason :
  one_of tool ["write"; "edit"; "delete"; "move"] = true →
  tool_denial_identity tool input reason = (tool, "write", "write_denied", "mutation").
Proof.
  intros H%one_of_true. revert tool H.
  apply (Forall_forall (λ tool, tool_denial_identity tool input reason
    = (tool, "write", "write_denied", "mutation"))).
  repeat constructor.
Qed.

(** A denial for a sensitive reason always tells the agent to stop, never to
    retry: for every tool call and every stop reason, unless the call is a git
    command whose directory or configuration override can simply be removed. *)
Theorem sensitive_denial_stops params reason d :
  permission_denial_semantics params reason = Some d →
  reason ∈ stop_reasons → git_override d = false →
  feedback d false
  = "DENY[policy_version=" +:+ AGENT_BASH_POLICY_VERSION +:+ ";code=" +:+ reason
    +:+ ";retry=do_not_retry_equivalent;next=stop_evidence_path]".
Proof.
  intros Hd Hin Hg. assert (reason ≠ "") as Hne.
  { intros ->. revert Hin. rewrite <- one_of_true. by vm_compute. }
  destruct (denial_semantics_some params reason Hne) as (d' & Hd' & Hrc & Hrec).
  simplify_eq. rewrite stop_recovery in Hrec by done. injection Hrec as Hrt Hact.
  unfold feedback. by rewrite Hrt, Hact.
Qed.

Lemma sensitive_denial_stops_witness :
  let params := VObject [("toolName", VString "Read");
                         ("input", VObject [("file_path", VString "/repo/.env")])] in
  option_map (λ d, feedback d false)
    (permission_denial_semantics params "credential_read_denied")
  = Some ("DENY[policy_version=" +:+ AGENT_BASH_POLICY_VERSION +:+ ";code="
          +:+ "credential_read_denied"
          +:+ ";retry=do_not_retry_equivalent;next=stop_evidence_path]").
Proof.
  intros params. destruct (permission_denial_semantics params _) as [d|] eqn:E; [|done].
  change (Some (feedback d false) = Some ("DENY[policy_version=" +:+ AGENT_BASH_POLICY_VERSION
    +:+ ";code=" +:+ "credential_read_denied"
    +:+ ";retry=do_not_retry_equivalent;next=stop_evidence_path]")).
  f_equal. apply (sensitive_denial_stops params); [done | |].
  - apply one_of_true. by vm_compute.
  - vm_compute in E. by injection E as <-.
Defined.
