(* ===== verification/Launcher.v ===== *)
(** * The bounded permission policy

    [crates/external-core/src/policy/launcher.rs]: construction of a
    [PolicyLauncher], the decision on a closed permission request, and the
    decision on a tool call as the agent runtime reports it. *)

From S2P Require Import Prelude RustStr RustPath Json PolicyPaths Tokenizer GitPolicy Operands FileSystem Denial.

(** ** Data ([general.rs], [capabilities.rs], [launcher.rs]) *)

Inductive AccessMode := ReadOnly | WorkspaceWrite.

#[global] Instance AccessMode_eq_dec : EqDecision AccessMode.
Proof. solve_decision. Defined.

Inductive SandboxEnforcement := Unsupported.

Record PolicyCapabilities := mk_capabilities {
  exact_command_allowlist : bool;
  sanitized_environment : bool;
  bounded_time_and_output : bool;
  local_hard_deny : bool;
  source_integrity_diagnostics : bool;
  network_isolation_enforced : bool;
  network_control : string;
  os_sandbox : SandboxEnforcement }.

Definition for_network (network_allowed : bool) : PolicyCapabilities :=
  mk_capabilities true true true true true false
    (if network_allowed
     then "manifest allows network; no network isolation is enforced"
     else "known network clients and URL arguments denied; general network isolation unsupported")
    Unsupported.

Definition default_capabilities : PolicyCapabilities := for_network false.

Inductive EntryState := Existing | Missing.

Record PolicyLauncher := mk_launcher {
  worktree : Path;
  scratch_root : Path;
  report_target : Path;
  readable_inputs : list Path;
  network_allowed : bool;
  capabilities : PolicyCapabilities;
  access_mode : AccessMode;
  tracked_write_roots : list Path;
  interactive_bash : bool }.

Definition deny (r : string) : PermissionDecision := mk_decision false r.
Definition allow (r : string) : PermissionDecision := mk_decision true r.

Section launcher.
Context `{FileSystem}.

(** ** Construction *)

Definition io_canonicalize (p : Path) : PreparationResult Path := ok_or IoError (canonicalize p).

Definition new (worktree scratch_root report_target : Path) (readable_inputs : list Path)
    (network_allowed : bool) (capabilities : PolicyCapabilities)
    : PreparationResult PolicyLauncher :=
  worktree ← io_canonicalize worktree;
  scratch_root ← io_canonicalize scratch_root;
  report_parent ← ok_or (InvalidPath report_target "report target has no parent")
                    (parent report_target);
  report_parent ← io_canonicalize report_parent;
  name ← ok_or (InvalidPath report_target "report target has no file name")
           (file_name report_target);
  let report_target := join report_parent name in
  readable_inputs ← traverse io_canonicalize readable_inputs;
  Ok (mk_launcher worktree scratch_root report_target readable_inputs network_allowed
        capabilities ReadOnly [] false).

Definition tracked_root (worktree root : Path) : PreparationResult Path :=
  root ← lexical_confined_path worktree root;
  if protected_worktree_path worktree root
  then Err (PolicyError "tracked write root targets protected metadata")
  else Ok root.

Definition for_general (worktree scratch_root result_target : Path) (readable_inputs : list Path)
    (capabilities : PolicyCapabilities) (access_mode : AccessMode)
    (tracked_write_roots : list Path) : PreparationResult PolicyLauncher :=
  launcher ← new worktree scratch_root result_target readable_inputs false capabilities;
  roots ← match access_mode with
          | WorkspaceWrite => traverse (tracked_root (Launcher.worktree launcher)) tracked_write_roots
          | ReadOnly =>
              match tracked_write_roots with
              | [] => Ok []
              | _ => Err (PolicyError "read-only access cannot define tracked write roots")
              end
          end;
  Ok (mk_launcher (Launcher.worktree launcher) (Launcher.scratch_root launcher)
        (report_target launcher) (Launcher.readable_inputs launcher)
        (network_allowed launcher) (Launcher.capabilities launcher) access_mode roots
        (interactive_bash launcher)).

Definition set_interactive_bash (self : PolicyLauncher) (enabled : bool) : PolicyLauncher :=
  mk_launcher (worktree self) (scratch_root self) (report_target self) (readable_inputs self)
    (network_allowed self) (capabilities self) (access_mode self) (tracked_write_roots self)
    enabled.

(** ** Roots *)

Definition is_agent_root (self : PolicyLauncher) (path : Path) : bool :=
  path_starts_with path (worktree self)
  || existsb (λ root, path_starts_with path root) (readable_inputs self).

Definition enters_agent_metadata (self : PolicyLauncher) (path : Path) : bool :=
  existsb is_agent_metadata_path
    (omap (path_strip_prefix path) (worktree self :: readable_inputs self)).

Definition resolve_job_path (self : PolicyLauncher) (value : Path) : Path :=
  if is_absolute value then value else join (worktree self) value.

(** ** Writes *)

Definition resolved_write_denial (self : PolicyLauncher) (target : Path) : option string :=
  match parent (report_target self) with
  | None => Some "write_path_unverifiable"
  | Some report_root =>
      if path_starts_with target (worktree self) then
        if protected_worktree_path (worktree self) target
        then Some "protected_worktree_metadata_denied"
        else match access_mode self with
             | WorkspaceWrite =>
                 if existsb (λ root, path_starts_with target root) (tracked_write_roots self)
                 then None else Some "tracked_path_not_allowlisted"
             | ReadOnly => Some "tracked_writes_denied_for_access_mode"
             end
      else if path_starts_with target report_root then Some "daemon_result_root_denied"
      else if path_eq target (scratch_root self) || path_eq target report_root
              || (negb (path_starts_with target (scratch_root self))
                  && negb (path_starts_with target report_root))
      then Some "write_outside_result_roots_denied"
      else None
  end.

Definition unverifiable {A} (o : option A) : result string A := ok_or "write_path_unverifiable" o.

Definition canonical_parent_entry (path : Path) : result string Path :=
  parent ← unverifiable (RustPath.parent path);
  filename ← unverifiable (file_name path);
  canonical_parent ← unverifiable (canonicalize parent);
  if negb (is_dir canonical_parent) then Err "write_path_unverifiable"
  else Ok (join canonical_parent filename).

(** The loop of [resolve_nonexistent_entry]; [missing] grows at its end.  [fuel]
    bounds the number of [pop]s, see [resolve_loop_fuel]. *)
Fixpoint resolve_loop (fuel : nat) (current : Path) (missing : list string) : option Path :=
  match fuel with
  | O => None
  | S fuel =>
      match symlink_metadata current with
      | Found =>
          canonical ← canonicalize current;
          if negb (is_dir canonical) then None
          else Some (fold_left join (rev missing) canonical)
      | NotFound =>
          name ← file_name current;
          match parent current with
          | None => None
          | Some parent => resolve_loop fuel parent (missing ++ [name])
          end
      | OtherError => None
      end
  end.

Definition resolve_nonexistent_entry (path : Path) : option Path :=
  resolve_loop (S (length (components path))) path [].

Definition check_candidate (self : PolicyLauncher) (state : EntryState) (candidate : Path)
    : result string EntryState :=
  match resolved_write_denial self candidate with
  | Some reason => Err reason
  | None => Ok state
  end.

Definition lexical_entry_state (self : PolicyLauncher) (path : Path) (must_exist : bool)
    : result string EntryState :=
  if negb (is_absolute path) || has_parent_dir path then Err "write_path_unverifiable"
  else match resolved_write_denial self path with
       | Some reason => Err reason
       | None =>
           match symlink_metadata path with
           | Found =>
               candidate ← canonical_parent_entry path;
               check_candidate self Existing candidate
           | NotFound =>
               if negb must_exist then
                 match resolve_nonexistent_entry path with
                 | None => Err "write_path_unverifiable"
                 | Some candidate => check_candidate self Missing candidate
                 end
               else Err "write_path_unverifiable"
           | OtherError => Err "write_path_unverifiable"
           end
       end.

Definition canonical_write_denial (self : PolicyLauncher) (path : Path) : option string :=
  match canonicalize path with
  | None => Some "write_path_unverifiable"
  | Some canonical => resolved_write_denial self canonical
  end.

Definition followed_write_denial (self : PolicyLauncher) (path : Path) (must_exist : bool)
    : option string :=
  match lexical_entry_state self path must_exist with
  | Ok Existing => canonical_write_denial self path
  | Ok Missing => None
  | Err reason => Some reason
  end.

Definition lexical_entry_denial (self : PolicyLauncher) (path : Path) (must_exist : bool)
    : option string :=
  match lexical_entry_state self path must_exist with
  | Err reason => Some reason
  | Ok _ => None
  end.

(** ** Decisions on closed requests *)

Definition read_denial (self : PolicyLauncher) (path : Path) : option string :=
  if is_credential_path path then Some "credential_read_denied"
  else match canonicalize path with
       | None => Some "read_path_unverifiable"
       | Some path =>
           if enters_agent_metadata self path then Some "agent_metadata_read_denied"
           else if is_agent_root self path then None
           else Some "read_path_escape_denied"
       end.

Definition hard_deny_reason (self : PolicyLauncher) (request : PermissionRequest)
    : option string :=
  match request with
  | Network _ =>
      if negb (network_allowed self) then Some "network_not_enforced_and_request_denied" else None
  | GitRefMutation => Some "git_ref_mutation_denied"
  | CredentialRead _ => Some "credential_read_denied"
  | Read path => read_denial self path
  | Write path => followed_write_denial self path false
  | Edit path => followed_write_denial self path true
  | Delete path => lexical_entry_denial self path true
  | Move source destination =>
      match lexical_entry_denial self source true with
      | Some reason => Some reason
      | None => lexical_entry_denial self destination false
      end
  | Execute _ _ _ => None
  end.

(** [PolicyLauncher::decide]. *)
Definition decide_request (self : PolicyLauncher) (request : PermissionRequest)
    (external : ExternalDecision) : PermissionDecision :=
  match hard_deny_reason self request with
  | Some reason => deny reason
  | None =>
      match external with
      | Deny => deny "external_policy_denied"
      | Allow => allow "allowed_by_bounded_policy"
      end
  end.

(** ** Decisions on shell commands *)

Definition agent_path_confined (self : PolicyLauncher) (cwd : Path) (require_file : bool)
    (arg : string) : bool :=
  if (arg ≟ "-") || starts_with_char arg "~" || has_parent_dir arg || is_credential_path arg
     || is_agent_metadata_path arg
  then false
  else
    let candidate := if is_absolute arg then arg else join cwd arg in
    match canonicalize candidate with
    | None => false
    | Some real =>
        if negb (is_agent_root self real) || is_credential_path real
           || enters_agent_metadata self real
        then false
        else negb require_file || is_file real
    end.

Definition agent_paths_confined (self : PolicyLauncher) (args : list string) (cwd : Path)
    (require_file : bool) : bool :=
  forallb (agent_path_confined self cwd require_file) args.

Definition file_only_programs : list string :=
  ["cat"; "wc"; "head"; "tail"; "sed"; "shasum"; "cksum"].

(** The part of [decide_agent_bash] after the git checks. *)
Definition decide_operands (self : PolicyLauncher) (program : string) (args : list string)
    (cwd : Path) : PermissionDecision :=
  match agent_bash_path_operands program args with
  | None => deny "command_option_not_allowlisted"
  | Some path_args =>
      if existsb (λ path, path ≟ "-") path_args then deny "stdin_input_denied"
      else if negb (agent_paths_confined self path_args cwd (one_of program file_only_programs))
      then deny "path_outside_agent_roots"
      else allow "agent_bash_allowlisted"
  end.

(** The part of [decide_agent_bash] after tokenization.  [&argv[2..]] panics when
    the command is a lone [git]; [&argv[1..]] is in range, as an empty [argv] has
    the program [""], which is not allowlisted. *)
Definition decide_argv (self : PolicyLauncher) (argv : list string) (cwd : Path)
    : outcome PermissionDecision :=
  let program := default "" (head argv) in
  if negb (agent_bash_program_allowed program) then Returns (deny "command_not_allowlisted")
  else if (program ≟ "sed") && negb (valid_agent_sed (drop 1 argv))
  then Returns (deny "sed_form_not_bounded")
  else
    git_sensitive ← (if program ≟ "git" then
                       operands ← slice_from 2 argv; Returns (existsb sensitive_operand operands)
                     else Returns false);
    if (git_sensitive : bool) then Returns (deny "git_sensitive_path_denied")
    else if (program ≟ "git") && negb (valid_agent_git (drop 1 argv))
    then Returns (deny "git_option_or_mutation_denied")
    else Returns (decide_operands self program (drop 1 argv) cwd).

Definition decide_agent_bash (self : PolicyLauncher) (input : Value) (external : ExternalDecision)
    : outcome PermissionDecision :=
  match external with
  | Deny => Returns (deny "external_policy_denied")
  | Allow =>
      match get_str input "command" with
      | None => Returns (deny "bash_command_missing")
      | Some command =>
          let cwd := default (worktree self) (get_str input "cwd") in
          match canonicalize cwd with
          | None => Returns (deny "cwd_outside_agent_roots")
          | Some cwd =>
              if negb (is_agent_root self cwd) then Returns (deny "cwd_outside_agent_roots")
              else match tokenize_agent_bash command with
                   | None => Returns (deny "shell_composition_or_expansion_denied")
                   | Some argv => decide_argv self argv cwd
                   end
          end
      end
  end.

(** ** Decisions on tool calls *)

Definition move_request (self : PolicyLauncher) (input : Value) : option PermissionRequest :=
  match get_str input "source", get_str input "destination" with
  | Some source, Some destination =>
      Some (Move (resolve_job_path self source) (resolve_job_path self destination))
  | _, _ => None
  end.

Definition execute_request (self : PolicyLauncher) (input : Value) : option PermissionRequest :=
  match get_str input "program",
        (get input "args" ≫= as_array) ≫= collect_option as_str,
        get_str input "cwd" with
  | Some program, Some args, Some cwd =>
      Some (Execute program args (resolve_job_path self cwd))
  | _, _, _ => None
  end.

(** The closed request a tool call stands for, by its lower-cased name. *)
Definition zcode_request (self : PolicyLauncher) (tool : string) (input : Value)
    : option PermissionRequest :=
  let file (f : Path → PermissionRequest) :=
    option_map (λ path, f (resolve_job_path self path)) (zcode_file_path input) in
  if tool ≟ "read" then file Read
  else if one_of tool ["grep"; "glob"] then
    option_map (λ path, Read (resolve_job_path self path)) (get_str input "path")
  else if tool ≟ "write" then file Write
  else if tool ≟ "edit" then file Edit
  else if tool ≟ "delete" then file Delete
  else if tool ≟ "move" then move_request self input
  else if tool ≟ "network" then option_map Network (get_str input "target")
  else if tool ≟ "git_ref_mutation" then Some GitRefMutation
  else if one_of tool ["execute"; "terminal"] then execute_request self input
  else None.

Definition decide_zcode_permission (self : PolicyLauncher) (params : Value)
    (external : ExternalDecision) : outcome PermissionDecision :=
  match get_str params "toolName" with
  | None => Returns (deny "permission_tool_missing")
  | Some tool_name =>
      let input := get_or_null params "input" in
      if tool_name ≟ "Bash" then
        match access_mode self with
        | ReadOnly => decide_agent_bash self input external
        | WorkspaceWrite =>
            if interactive_bash self then
              match external with
              | Deny => Returns (deny "external_policy_denied")
              | Allow => Returns (allow "interactive_permission_required")
              end
            else Returns (deny "permission_request_unrecognized")
        end
      else match zcode_request self (to_ascii_lowercase tool_name) input with
           | Some request => Returns (decide_request self request external)
           | None => Returns (deny "permission_request_unrecognized")
           end
  end.

Definition decide_zcode_permission_validated (self : PolicyLauncher) (params : Value)
    (external : ExternalDecision)
    : outcome (PermissionDecision * option PermissionDenialSemantics) :=
  decision ← decide_zcode_permission self params external;
  Returns (decision,
    if allowed decision then None
    else permission_denial_semantics params
           (match external with Deny => "external_policy_denied" | Allow => reason decision end)).

Definition validated_zcode_denial (self : PolicyLauncher) (params : Value)
    (external : ExternalDecision) : outcome (option PermissionDenialSemantics) :=
  r ← decide_zcode_permission_validated self params external; Returns (snd r).

End launcher.

Definition external_zcode_denial (params : Value) : option PermissionDenialSemantics :=
  permission_denial_semantics params "external_policy_denied".
