(* ===== verification/LauncherSafety.v ===== *)
(** * What the permission policy guarantees

    Theorems on [Launcher]: where an allowed mutation can land, which shell
    commands and tool calls can be allowed, when the policy panics, and that
    every denial carries an identity from a closed vocabulary. *)

From stdpp Require Import gmap.
From S2P Require Import Prelude RustStr RustPath Json PolicyPaths Tokenizer GitPolicy Operands FileSystem Denial Launcher.

Section safety.
Context `{FileSystemLaws}.

(** ** Locations *)

(** [hangs p ancestor names]: [p] is [names] below [ancestor], and nothing exists
    at the paths strictly between them. *)
Inductive hangs : Path → Path → list string → Prop :=
| hangs_parent p ancestor name :
    parent p = Some ancestor → file_name p = Some name → hangs p ancestor [name]
| hangs_missing p q ancestor names name :
    parent p = Some q → file_name p = Some name → symlink_metadata q = NotFound →
    hangs q ancestor names → hangs p ancestor (names ++ [name]).

(** The directory entry a path names: its deepest existing proper ancestor, a
    directory, with every symbolic link resolved by the file system, followed by
    the names below it.  [entry_at_unique] shows that a path has at most one. *)
Definition entry_at (p loc : Path) : Prop :=
  ∃ ancestor dir names,
    hangs p ancestor names ∧ canonicalize ancestor = Some dir ∧ is_dir dir = true
    ∧ components loc = components dir ++ (Normal <$> names).

(** An ancestor that resolves exists, so it ends the search: no other ancestor
    can stand in for it. *)
Lemma hangs_unique p a names dir a' names' dir' :
  hangs p a names → canonicalize a = Some dir → hangs p a' names' → canonicalize a' = Some dir' →
  a = a' ∧ names = names'.
Proof.
  intros Hh Hd Hh' Hd'. apply canonicalize_found in Hd, Hd'. clear dir dir'.
  revert a' names' Hh' Hd'.
  induction Hh as [p a n Hp Hn|p q a names n Hp Hn Hq Hh IH]; intros a' names' Hh' Hd';
    inversion Hh' as [? ? n' Hp' Hn'|? q' ? names0 n' Hp' Hn' Hq' Hh0]; simplify_eq; try congruence; [done|].
  by destruct (IH Hd _ _ Hh0 Hd') as [-> ->].
Qed.

Lemma entry_at_unique p loc loc' :
  entry_at p loc → entry_at p loc' → components loc = components loc'.
Proof.
  intros (a & d & ns & Hh & Hd & _ & ->) (a' & d' & ns' & Hh' & Hd' & _ & ->).
  destruct (hangs_unique _ _ _ _ _ _ _ Hh Hd Hh' Hd') as [-> ->]. by simplify_eq.
Qed.

(** Where the policy lets an agent write. *)
Definition writable_location (self : PolicyLauncher) (loc : Path) : Prop :=
  (access_mode self = WorkspaceWrite
   ∧ path_starts_with loc (worktree self) = true
   ∧ protected_worktree_path (worktree self) loc = false
   ∧ ∃ root, root ∈ tracked_write_roots self ∧ path_starts_with loc root = true)
  ∨ (path_starts_with loc (worktree self) = false
     ∧ path_starts_with loc (scratch_root self) = true
     ∧ path_eq loc (scratch_root self) = false
     ∧ ∃ report_root, parent (report_target self) = Some report_root
                      ∧ path_starts_with loc report_root = false).

Lemma resolved_write_allowed self loc :
  resolved_write_denial self loc = None → writable_location self loc.
Proof.
  unfold resolved_write_denial, writable_location.
  destruct (parent (report_target self)) as [rr|]; [|done].
  destruct (path_starts_with loc (worktree self)).
  - destruct (protected_worktree_path _ _); [done|]. destruct (access_mode self); [done|].
    destruct (existsb _ _) eqn:E; [|done]. apply existsb_true_iff in E as (r & ? & ?). eauto 8.
  - destruct (path_starts_with loc rr) eqn:Hrr; [done|].
    destruct (path_eq loc (scratch_root self)); [done|].
    destruct (path_eq loc rr); [done|]. simpl.
    destruct (path_starts_with loc (scratch_root self)); [|done]. intros _. right. eauto 8.
Qed.

(** Only the components of a location matter. *)
Lemma writable_location_components self loc loc' :
  components loc = components loc' → writable_location self loc → writable_location self loc'.
Proof.
  unfold writable_location, protected_worktree_path, path_starts_with, path_eq. by intros ->.
Qed.

(** The entry of a path exists and is writable; there is no other entry. *)
Definition entry_confined (self : PolicyLauncher) (p : Path) : Prop :=
  (∃ loc, entry_at p loc) ∧ ∀ loc, entry_at p loc → writable_location self loc.

Lemma entry_confined_at self p loc :
  entry_at p loc → writable_location self loc → entry_confined self p.
Proof.
  intros He Hw. split; [eauto|]. intros loc' He'.
  eapply writable_location_components, Hw. by eapply entry_at_unique.
Qed.

(** ** Resolution of the entry *)

Lemma canonical_parent_entry_at path loc :
  canonical_parent_entry path = Ok loc → entry_at path loc.
Proof.
  unfold canonical_parent_entry, unverifiable.
  intros (q & Hq%ok_or_ok & (n & Hn%ok_or_ok & (d & Hd%ok_or_ok & H')%result_bind_ok)
    %result_bind_ok)%result_bind_ok.
  destruct (is_dir d) eqn:Hdir; simplify_eq/=.
  destruct (parent_file_name _ _ Hn) as (q' & Hq' & Hc). simplify_eq.
  exists q, d, [n]. split_and!; try done; [by constructor|]. apply components_join_plain.
  - eapply canonical_path_nonempty, canonicalize_canonical; eauto.
  - by eapply file_name_plain.
Qed.

(** The loop removes one component per round, so it never runs out of fuel. *)
Lemma resolve_loop_fuel fuel fuel' current missing :
  length (components current) < fuel → length (components current) < fuel' →
  resolve_loop fuel current missing = resolve_loop fuel' current missing.
Proof.
  revert fuel' current missing. induction fuel as [|fuel IH]; intros [|fuel'] cur miss; simpl;
    [lia..|]. intros Hf Hf'.
  destruct (symlink_metadata cur); [done| |done].
  destruct (file_name cur) as [n|] eqn:Hn; simpl; [|done].
  destruct (parent_file_name _ _ Hn) as (q & -> & Hc).
  rewrite Hc, length_app in Hf, Hf'. simpl in *. apply IH; lia.
Qed.

(** Walking up from a missing path: [missing] holds the names passed so far. *)
Lemma resolve_loop_entry fuel current missing loc :
  resolve_loop fuel current missing = Some loc → Forall plain_name missing →
  symlink_metadata current = NotFound →
  ∃ ancestor dir names,
    hangs current ancestor names ∧ canonicalize ancestor = Some dir ∧ is_dir dir = true
    ∧ components loc = components dir ++ (Normal <$> names ++ rev missing).
Proof.
  revert current missing. induction fuel as [|fuel IH]; intros cur miss; simpl; [done|].
  intros Hl Hm Hnf. rewrite Hnf in Hl.
  destruct (file_name cur) as [n|] eqn:Hn; simpl in Hl; [|done].
  destruct (parent_file_name _ _ Hn) as (q & Hq & _). rewrite Hq in Hl.
  assert (Hm' : Forall plain_name (miss ++ [n])).
  { apply Forall_app. split; [done|]. constructor; [by eapply file_name_plain | done]. }
  destruct (symlink_metadata q) eqn:Hmq; [| |by destruct fuel; simpl in Hl; rewrite ?Hmq in Hl].
  - destruct fuel as [|fuel]; simpl in Hl; [done|]. rewrite Hmq in Hl.
    destruct (canonicalize q) as [d|] eqn:Hd; simpl in Hl; [|done].
    destruct (is_dir d) eqn:Hdir; simplify_eq/=.
    exists q, d, [n]. split_and!; [by constructor | done..|].
    rewrite components_fold_join, rev_unit; [done | | by apply Forall_rev].
    eapply canonical_path_nonempty, canonicalize_canonical; eauto.
  - destruct (IH _ _ Hl Hm' Hmq) as (a & d & names & Hh & Hd & Hdir & Hc).
    exists a, d, (names ++ [n]). split_and!; [by eapply hangs_missing | done..|].
    by rewrite Hc, rev_unit, <- app_assoc.
Qed.

Lemma resolve_nonexistent_entry_at path loc :
  symlink_metadata path = NotFound → resolve_nonexistent_entry path = Some loc →
  entry_at path loc.
Proof.
  intros Hnf Hr. destruct (resolve_loop_entry _ _ _ _ Hr) as (a & d & ns & ? & ? & ? & Hc); [done..|].
  exists a, d, ns. by rewrite app_nil_r in Hc.
Qed.

(** ** Lexical checks *)

Lemma check_candidate_ok self st candidate st' :
  check_candidate self st candidate = Ok st' → st' = st ∧ writable_location self candidate.
Proof.
  unfold check_candidate. destruct (resolved_write_denial _ _) eqn:E; [done|].
  intros [= <-]. auto using resolved_write_allowed.
Qed.

Lemma lexical_entry_ok self path must_exist st :
  lexical_entry_state self path must_exist = Ok st →
  is_absolute path = true ∧ ParentDir ∉ components path
  ∧ writable_location self path
  ∧ (must_exist = true → st = Existing)
  ∧ symlink_metadata path = (match st with Existing => Found | Missing => NotFound end)
  ∧ entry_confined self path.
Proof.
  unfold lexical_entry_state. destruct (is_absolute path); [|done].
  destruct (has_parent_dir path) eqn:Hp; [done|]. simpl. apply has_parent_dir_false in Hp.
  destruct (resolved_write_denial self path) eqn:Hr; [done|].
  apply resolved_write_allowed in Hr.
  destruct (symlink_metadata path) eqn:Hm; [| |done].
  - intros (c & Hc%canonical_parent_entry_at & [-> ?]%check_candidate_ok)%result_bind_ok.
    split_and!; try done. by eapply entry_confined_at.
  - destruct must_exist; [done|]. simpl.
    destruct (resolve_nonexistent_entry path) as [c|] eqn:Hc; [|done].
    intros [-> ?]%check_candidate_ok. split_and!; try done.
    eapply entry_confined_at; eauto using resolve_nonexistent_entry_at.
Qed.

(** The paths a request changes, with whether the change goes through a final
    symbolic link. *)
Definition mutations (request : PermissionRequest) : list (Path * bool) :=
  match request with
  | Write p | Edit p => [(p, true)]
  | Delete p => [(p, false)]
  | Move source destination => [(source, false); (destination, false)]
  | _ => []
  end.

Lemma lexical_entry_denial_none self path must_exist :
  lexical_entry_denial self path must_exist = None →
  ∃ st, lexical_entry_state self path must_exist = Ok st.
Proof. unfold lexical_entry_denial. destruct (lexical_entry_state _ _ _); naive_solver. Qed.

Lemma followed_write_none self path must_exist :
  followed_write_denial self path must_exist = None →
  ∃ st, lexical_entry_state self path must_exist = Ok st
        ∧ (st = Existing → ∃ q, canonicalize path = Some q ∧ writable_location self q).
Proof.
  unfold followed_write_denial, canonical_write_denial.
  destruct (lexical_entry_state self path must_exist) as [[]|]; [| eauto; naive_solver |done].
  destruct (canonicalize path) as [q|]; [|done].
  intros Hq%resolved_write_allowed. eauto.
Qed.

Lemma decide_request_allowed self request external :
  allowed (decide_request self request external) = true →
  hard_deny_reason self request = None ∧ external = Allow.
Proof.
  unfold decide_request. destruct (hard_deny_reason self request); [done|].
  by destruct external.
Qed.

Lemma mutation_state self request p follow :
  hard_deny_reason self request = None → (p, follow) ∈ mutations request →
  ∃ must_exist st, lexical_entry_state self p must_exist = Ok st
    ∧ (follow = true → st = Existing →
       ∃ q, canonicalize p = Some q ∧ writable_location self q).
Proof.
  destruct request as [| | | |src dst| | | |]; simpl; intros Hd Hin; try by apply elem_of_nil in Hin.
  1,2: apply list_elem_of_singleton in Hin as [= -> ->];
    apply followed_write_none in Hd as (st & ? & ?); eauto 6.
  - apply list_elem_of_singleton in Hin as [= -> ->].
    apply lexical_entry_denial_none in Hd as (st & ?). exists true, st. by split.
  - destruct (lexical_entry_denial self src true) eqn:Hs; [done|].
    apply lexical_entry_denial_none in Hs as (st & ?), Hd as (st' & ?).
    apply elem_of_cons in Hin as [[= -> ->]|[= -> ->]%list_elem_of_singleton];
      [exists true, st | exists false, st']; by split.
Qed.

(** A change at [p] stays in the writable locations: its directory entry does,
    and, when the change goes through an existing entry, so does what that entry
    resolves to. *)
Definition change_confined (self : PolicyLauncher) (p : Path) (follow : bool) : Prop :=
  is_absolute p = true ∧ ParentDir ∉ components p ∧ entry_confined self p
  ∧ (follow = true → symlink_metadata p = Found →
     ∃ target, canonicalize p = Some target ∧ writable_location self target).

Lemma mutation_confined self request p follow :
  hard_deny_reason self request = None → (p, follow) ∈ mutations request →
  change_confined self p follow.
Proof.
  intros Hd Hin. destruct (mutation_state _ _ _ _ Hd Hin) as (me & st & Hst & Hf).
  apply lexical_entry_ok in Hst as (Ha & Hp & _ & _ & Hm & Hloc).
  split_and!; try done. intros Hfo Hfound. apply Hf; [done|]. destruct st; congruence.
Qed.

(** C1. Write confinement.  Whatever the file system holds, symbolic links
    included: if a write, edit, delete or move is allowed, the external decision
    was to allow, the path is absolute without [..], the one directory entry it
    names (its deepest existing ancestor with every link resolved, then the names
    below it) exists and lies in a writable location, and when the change goes
    through an existing entry its link target does too. *)
Theorem allowed_mutation_confined self request external p follow :
  allowed (decide_request self request external) = true → (p, follow) ∈ mutations request →
  external = Allow ∧ is_absolute p = true ∧ ParentDir ∉ components p
  ∧ (∃ loc, entry_at p loc) ∧ (∀ loc, entry_at p loc → writable_location self loc)
  ∧ (follow = true → symlink_metadata p = Found →
     ∃ target, canonicalize p = Some target ∧ writable_location self target).
Proof.
  intros [Hd ->]%decide_request_allowed Hin.
  destruct (mutation_confined _ _ _ _ Hd Hin) as (? & ? & [? ?] & ?). by split_and!.
Qed.

(** ** Shell commands *)

(** What the operand text itself must not be. *)
Definition harmless_operand (arg : string) : Prop :=
  arg ≠ "-" ∧ starts_with_char arg "~" = false ∧ ParentDir ∉ components arg
  ∧ is_credential_path arg = false ∧ is_agent_metadata_path arg = false.

(** A path operand is confined: it resolves to an existing location under the
    agent's roots that is neither a credential nor agent metadata. *)
Definition operand_confined (self : PolicyLauncher) (cwd : Path) (require_file : bool)
    (arg : string) : Prop :=
  harmless_operand arg ∧
  ∃ real, canonicalize (if is_absolute arg then arg else join cwd arg) = Some real
    ∧ is_agent_root self real = true ∧ is_credential_path real = false
    ∧ enters_agent_metadata self real = false
    ∧ (require_file = true → is_file real = true).

Lemma agent_path_confined_true self cwd require_file arg :
  agent_path_confined self cwd require_file arg = true →
  operand_confined self cwd require_file arg.
Proof.
  unfold agent_path_confined, operand_confined, harmless_operand.
  destruct (_ || _) eqn:E; [done|]. bool_hyp.
  destruct (canonicalize _) as [real|]; [|done].
  destruct (negb (is_agent_root self real) || _ || _) eqn:E2; [done|]. bool_hyp.
  intros Hf. split.
  - split_and!; [done..| by apply has_parent_dir_false | done | done].
  - exists real. split_and!; try done. intros ->. done.
Qed.

Lemma decide_operands_allowed self program args cwd :
  allowed (decide_operands self program args cwd) = true →
  ∃ paths, agent_bash_path_operands program args = Some paths
    ∧ ∀ p, p ∈ paths → operand_confined self cwd (one_of program file_only_programs) p.
Proof.
  unfold decide_operands. destruct (agent_bash_path_operands program args) as [paths|]; [|done].
  destruct (existsb _ _); [done|].
  destruct (agent_paths_confined _ _ _ _) eqn:E; [|done]. intros _. exists paths. split; [done|].
  intros p Hp. apply agent_path_confined_true. revert p Hp. by apply forallb_true_iff.
Qed.

Lemma decide_argv_allowed self argv cwd d :
  decide_argv self argv cwd = Returns d → allowed d = true →
  ∃ program args paths, argv = program :: args ∧ program ∈ AGENT_BASH_COMMAND_FAMILIES
    ∧ (program = "sed" → valid_agent_sed args = true)
    ∧ (program = "git" → valid_agent_git args = true
                         ∧ ∀ a, a ∈ drop 1 args → sensitive_operand a = false)
    ∧ agent_bash_path_operands program args = Some paths
    ∧ ∀ p, p ∈ paths → operand_confined self cwd (one_of program file_only_programs) p.
Proof.
  unfold decide_argv. destruct argv as [|program args]; [by intros [= <-]|]. simpl. rewrite drop_0.
  destruct (agent_bash_program_allowed program) eqn:Hp; simpl; [|by intros [= <-]]. apply one_of_true in Hp.
  destruct (_ && _) eqn:Hs; [by intros [= <-]|]. cbn [negb].
  assert (Hsed : program = "sed" → valid_agent_sed args = true).
  { intros ->. simpl in Hs. by apply negb_false_iff in Hs. }
  intros Hret Hall. exists program, args.
  assert (Hfin : Returns (decide_operands self program args cwd) = Returns d →
    ∃ paths, agent_bash_path_operands program args = Some paths
    ∧ ∀ p, p ∈ paths → operand_confined self cwd (one_of program file_only_programs) p).
  { intros [= <-]. by apply decide_operands_allowed. }
  destruct (String.eqb_spec program "git") as [->|Hng]; simpl in Hret.
  - destruct (slice_from 2 _) as [ops|] eqn:Hsl; simpl in Hret; [|done].
    destruct (existsb sensitive_operand ops) eqn:He; [by simplify_eq|].
    destruct (valid_agent_git args) eqn:Hv; simpl in Hret; [|by simplify_eq].
    destruct (Hfin Hret) as (paths & ? & ?). exists paths. split_and!; try done.
    intros _. split; [done|]. intros a Ha. revert a Ha. apply existsb_false_iff.
    unfold slice_from in Hsl. destruct (Nat.leb _ _); [|done]. by simplify_eq/=.
  - destruct (Hfin Hret) as (paths & ? & ?). exists paths. by split_and!.
Qed.

Lemma decide_argv_panics self argv cwd :
  decide_argv self argv cwd = Panics → argv = ["git"].
Proof.
  unfold decide_argv. destruct argv as [|program args]; [done|]. simpl.
  destruct (negb _); [done|]. destruct (_ && _); [done|].
  destruct (String.eqb_spec program "git") as [->|]; [|done].
  destruct args as [|a args]; [done|]. simpl.
  destruct (existsb _ _); [done|]. by destruct (negb _).
Qed.

(** Everything an allowed read-only shell command is known to satisfy: it runs in
    an agent root, it is one of the listed programs with arguments in that
    program's grammar, and the arguments that [arguments_accounted] reads as paths
    resolve to existing locations the agent may read.  The pattern of a search, the
    values of options and what a git command names before [--] are not among
    them. *)
Definition bash_confined (self : PolicyLauncher) (input : Value) : Prop :=
  ∃ command cwd program args paths,
    get_str input "command" = Some command
    ∧ canonicalize (default (worktree self) (get_str input "cwd")) = Some cwd
    ∧ is_agent_root self cwd = true
    ∧ tokenize_agent_bash command = Some (program :: args)
    ∧ program ∈ AGENT_BASH_COMMAND_FAMILIES
    ∧ (program = "sed" → valid_agent_sed args = true)
    ∧ (program = "git" → git_invocation args
                         ∧ ∀ a, a ∈ drop 1 args → sensitive_operand a = false)
    ∧ arguments_accounted program args paths
    ∧ ∀ p, p ∈ paths → operand_confined self cwd (one_of program file_only_programs) p.

Lemma decide_agent_bash_allowed self input external d :
  decide_agent_bash self input external = Returns d → allowed d = true →
  external = Allow ∧ bash_confined self input.
Proof.
  unfold decide_agent_bash. destruct external; [|by intros [= <-]].
  destruct (get_str input "command") as [command|] eqn:Hc; [|by intros [= <-]].
  destruct (canonicalize _) as [cwd|] eqn:Hcwd; [|by intros [= <-]].
  destruct (is_agent_root self cwd) eqn:Hroot; simpl; [|by intros [= <-]].
  destruct (tokenize_agent_bash command) as [argv|] eqn:Ht; [|by intros [= <-]].
  intros Hd Ha. destruct (decide_argv_allowed _ _ _ _ Hd Ha)
    as (program & args & paths & -> & ? & ? & Hgit & Hpaths%path_operands_accounted & ?).
  split; [done|]. exists command, cwd, program, args, paths. split_and!; try done.
  intros Hg. destruct (Hgit Hg) as [Hv ?]. split; [by apply git_invocation_grammar | done].
Qed.

(** A file the agent may read through the file tools. *)
Definition read_confined (self : PolicyLauncher) (path : Path) : Prop :=
  is_credential_path path = false
  ∧ ∃ real, canonicalize path = Some real ∧ is_agent_root self real = true
            ∧ enters_agent_metadata self real = false.

Lemma read_denial_none self path : read_denial self path = None ↔ read_confined self path.
Proof.
  unfold read_denial, read_confined. destruct (is_credential_path path); [naive_solver|].
  destruct (canonicalize path) as [real|]; [|naive_solver].
  destruct (enters_agent_metadata self real) eqn:E1, (is_agent_root self real) eqn:E2;
    naive_solver congruence.
Qed.

(** What a closed request must satisfy to pass every hard denial. *)
Definition request_safe (self : PolicyLauncher) (request : PermissionRequest) : Prop :=
  match request with
  | Read path => read_confined self path
  | Write _ | Edit _ | Delete _ | Move _ _ =>
      ∀ p follow, (p, follow) ∈ mutations request → change_confined self p follow
  | Network _ => network_allowed self = true
  | GitRefMutation | CredentialRead _ => False
  | Execute _ _ _ => True
  end.

Lemma request_safe_allowed self request external :
  allowed (decide_request self request external) = true → request_safe self request.
Proof.
  intros [Hd _]%decide_request_allowed.
  pose proof (λ p follow, mutation_confined self request p follow Hd) as Hm.
  destruct request; simpl in *; try done; [by apply read_denial_none|].
  by destruct (network_allowed self).
Qed.


(** The policy returns a decision for every tool call but one: it panics
    exactly on the read-only shell command that consists of the single word
    [git], run from an agent root. *)
Theorem policy_panics_iff_lone_git self params external :
  decide_zcode_permission self params external = Panics ↔
  external = Allow ∧ get_str params "toolName" = Some "Bash" ∧ access_mode self = ReadOnly
  ∧ ∃ command cwd,
      get_str (get_or_null params "input") "command" = Some command
      ∧ tokenize_agent_bash command = Some ["git"]
      ∧ canonicalize (default (worktree self) (get_str (get_or_null params "input") "cwd"))
        = Some cwd
      ∧ is_agent_root self cwd = true.
Proof.
  unfold decide_zcode_permission, decide_agent_bash. split.
  - destruct (get_str params "toolName") as [tool|]; [|done].
    destruct (String.eqb_spec tool "Bash") as [->|]; [|by destruct (zcode_request _ _ _)].
    destruct (access_mode self); [|by destruct (interactive_bash self), external].
    destruct external; [|done].
    destruct (get_str _ "command") as [command|]; [|done].
    destruct (canonicalize _) as [cwd|]; [|done].
    destruct (is_agent_root self cwd) eqn:Hroot; [|done]. simpl.
    destruct (tokenize_agent_bash command) as [argv|] eqn:Ht; [|done].
    intros Hp%decide_argv_panics. subst. split_and!; eauto 8.
  - intros (-> & -> & -> & command & cwd & -> & Ht & -> & Hr). simpl. by rewrite Hr, Ht.
Qed.

(** ** Denials *)

(** Every reason the policy can deny with. *)
Definition denial_reasons : list string :=
  ["permission_tool_missing"; "permission_request_unrecognized"; "external_policy_denied";
   "bash_command_missing"; "cwd_outside_agent_roots"; "shell_composition_or_expansion_denied";
   "command_not_allowlisted"; "sed_form_not_bounded"; "git_sensitive_path_denied";
   "git_option_or_mutation_denied"; "command_option_not_allowlisted"; "stdin_input_denied";
   "path_outside_agent_roots"; "network_not_enforced_and_request_denied";
   "git_ref_mutation_denied"; "credential_read_denied"; "read_path_unverifiable";
   "agent_metadata_read_denied"; "read_path_escape_denied"; "write_path_unverifiable";
   "protected_worktree_metadata_denied"; "tracked_path_not_allowlisted";
   "tracked_writes_denied_for_access_mode"; "daemon_result_root_denied";
   "write_outside_result_roots_denied"].

Definition known_reason (r : string) : Prop := one_of r denial_reasons = true.

Lemma resolved_write_reason self loc r : resolved_write_denial self loc = Some r → known_reason r.
Proof. unfold resolved_write_denial. intros H'. by repeat case_match; simplify_eq. Qed.

Lemma check_candidate_reason self st c r : check_candidate self st c = Err r → known_reason r.
Proof.
  unfold check_candidate. destruct (resolved_write_denial self c) eqn:E; [|done].
  intros [= <-]. by eapply resolved_write_reason.
Qed.

Lemma canonical_parent_reason path r : canonical_parent_entry path = Err r → known_reason r.
Proof.
  unfold canonical_parent_entry, unverifiable.
  destruct (parent path); simpl; [|by intros [= <-]].
  destruct (file_name path); simpl; [|by intros [= <-]].
  destruct (canonicalize _) as [c|]; simpl; [|by intros [= <-]].
  destruct (is_dir c); [done | by intros [= <-]].
Qed.

Lemma lexical_entry_reason self path me r :
  lexical_entry_state self path me = Err r → known_reason r.
Proof.
  unfold lexical_entry_state. destruct (_ || _); [by intros [= <-]|].
  destruct (resolved_write_denial self path) eqn:Hr;
    [intros [= <-]; by eapply resolved_write_reason|].
  destruct (symlink_metadata path); [| |by intros [= <-]].
  - intros [?|(c & _ & ?)]%result_bind_err; eauto using canonical_parent_reason, check_candidate_reason.
  - destruct me; simpl; [by intros [= <-]|].
    destruct (resolve_nonexistent_entry path); [|by intros [= <-]].
    apply check_candidate_reason.
Qed.

Lemma lexical_denial_reason self path me r :
  lexical_entry_denial self path me = Some r → known_reason r.
Proof.
  unfold lexical_entry_denial. destruct (lexical_entry_state self path me) eqn:E; [done|].
  intros [= <-]. by eapply lexical_entry_reason.
Qed.

Lemma followed_denial_reason self path me r :
  followed_write_denial self path me = Some r → known_reason r.
Proof.
  unfold followed_write_denial, canonical_write_denial.
  destruct (lexical_entry_state self path me) as [[]|] eqn:E; [|done|].
  - destruct (canonicalize path); [apply resolved_write_reason | by intros [= <-]].
  - intros [= <-]. by eapply lexical_entry_reason.
Qed.

Lemma read_denial_reason self path r : read_denial self path = Some r → known_reason r.
Proof. unfold read_denial. intros H'. by repeat case_match; simplify_eq. Qed.

Lemma hard_deny_known self request r : hard_deny_reason self request = Some r → known_reason r.
Proof.
  destruct request as [| | | |src dst| | | |]; simpl;
    eauto using read_denial_reason, followed_denial_reason, lexical_denial_reason.
  - destruct (lexical_entry_denial self src true) eqn:E; [|apply lexical_denial_reason].
    intros [= <-]. by eapply lexical_denial_reason.
  - done.
  - destruct (network_allowed self); [done | by intros [= <-]].
  - by intros [= <-].
  - by intros [= <-].
Qed.

Lemma decide_request_reason self request external :
  allowed (decide_request self request external) = false →
  known_reason (reason (decide_request self request external)).
Proof.
  unfold decide_request. destruct (hard_deny_reason self request) eqn:E.
  - intros _. by eapply hard_deny_known.
  - by destruct external.
Qed.

Lemma decide_argv_reason self argv cwd d :
  decide_argv self argv cwd = Returns d → allowed d = false → known_reason (reason d).
Proof.
  unfold decide_argv. destruct (negb (agent_bash_program_allowed _)); [by intros [= <-]|].
  destruct (_ && negb (valid_agent_sed _)); [by intros [= <-]|].
  destruct (if _ ≟ "git" then _ else _) as [sensitive|]; simpl; [|done].
  destruct sensitive; [by intros [= <-]|].
  destruct (_ && negb (valid_agent_git _)); intros [= <-]; [done|].
  unfold decide_operands. destruct (agent_bash_path_operands _ _); [|done].
  destruct (existsb _ _); [done|]. by destruct (negb _).
Qed.

Lemma decide_zcode_reason self params external d :
  decide_zcode_permission self params external = Returns d → allowed d = false →
  known_reason (reason d).
Proof.
  unfold decide_zcode_permission, decide_agent_bash.
  destruct (get_str params "toolName") as [tool|]; [|by intros [= <-]].
  destruct (tool ≟ "Bash").
  - destruct (access_mode self).
    + destruct external; [|by intros [= <-]].
      destruct (get_str _ "command"); [|by intros [= <-]].
      destruct (canonicalize _) as [cwd|]; [|by intros [= <-]].
      destruct (is_agent_root self cwd); simpl; [|by intros [= <-]].
      destruct (tokenize_agent_bash _); [apply decide_argv_reason | by intros [= <-]].
    + destruct (interactive_bash self); [|by intros [= <-]].
      destruct external; by intros [= <-].
  - destruct (zcode_request _ _ _); intros [= <-]; [apply decide_request_reason | done].
Qed.

(** Denials carry an identity, from a closed vocabulary: a decision comes
    with a denial identity exactly when it is not allowed, its reason code is one
    of the policy's own reasons (never caller text), and it is the fixed
    [external_policy_denied] when the external decision was to deny. *)
Theorem validated_denial_closed self params external d denial :
  decide_zcode_permission_validated self params external = Returns (d, denial) →
  (is_Some denial ↔ allowed d = false)
  ∧ ∀ s, denial = Some s →
      reason_code s ∈ denial_reasons
      ∧ reason_code s = (if bool_decide (external = Deny) then "external_policy_denied"
                         else reason d).
Proof.
  unfold decide_zcode_permission_validated.
  destruct (decide_zcode_permission self params external) as [d'|] eqn:Hd; simpl; [|done].
  intros [= -> <-]. destruct (allowed d) eqn:Ha; [split; [split; [by intros []|done]|done]|].
  assert (Hr : known_reason (match external with Deny => "external_policy_denied"
                             | Allow => reason d end)).
  { destruct external; [by eapply decide_zcode_reason | done]. }
  destruct (denial_semantics_some params (match external with Deny => "external_policy_denied"
                             | Allow => reason d end)) as (s & Hs & Hrc & _).
  { intros E. rewrite E in Hr. by vm_compute in Hr. }
  rewrite Hs. split; [split; [done | by eexists]|]. intros ? [= <-].
  rewrite Hrc. split; [by apply one_of_true|]. by destruct external.
Qed.

(** ** Construction *)

(** What [new] and [for_general] establish. *)
Record launcher_wf (self : PolicyLauncher) : Prop := {
  wf_worktree : canonical_path (worktree self);
  wf_scratch : canonical_path (scratch_root self);
  wf_inputs : ∀ p, p ∈ readable_inputs self → canonical_path p;
  wf_report : ∃ root name, canonical_path root ∧ plain_name name
                           ∧ components (report_target self) = components root ++ [Normal name];
  wf_tracked : ∀ p, p ∈ tracked_write_roots self →
      path_starts_with p (worktree self) = true
      ∧ protected_worktree_path (worktree self) p = false;
  wf_read_only : access_mode self = ReadOnly → tracked_write_roots self = [] }.

Lemma io_canonicalize_ok p q : io_canonicalize p = Ok q → canonicalize p = Some q ∧ canonical_path q.
Proof.
  unfold io_canonicalize. intros Hc%ok_or_ok. split; [done|].
  by eapply canonicalize_canonical.
Qed.

Lemma new_wf w sc rt inputs net caps self :
  new w sc rt inputs net caps = Ok self →
  launcher_wf self ∧ canonicalize w = Some (worktree self)
  ∧ canonicalize sc = Some (scratch_root self) ∧ network_allowed self = net
  ∧ tracked_write_roots self = [] ∧ access_mode self = ReadOnly ∧ interactive_bash self = false
  ∧ ∃ rp rr name, parent rt = Some rp ∧ canonicalize rp = Some rr ∧ file_name rt = Some name
                  ∧ report_target self = join rr name.
Proof.
  unfold new. intros (w' & [Hw Hwc]%io_canonicalize_ok & (sc' & [Hs Hsc]%io_canonicalize_ok
    & (rp & Hrp%ok_or_ok & (rr & [Hrr Hrc]%io_canonicalize_ok & (n & Hn%ok_or_ok
    & (ins & Hins%traverse_ok & [= <-])%result_bind_ok)%result_bind_ok)%result_bind_ok)
    %result_bind_ok)%result_bind_ok)%result_bind_ok.
  split_and!; simpl; eauto 8. constructor; simpl; try done.
  - intros p Hp. apply list_elem_of_lookup in Hp as [k Hk].
    destruct (Forall2_lookup_r _ _ _ _ _ Hins Hk) as (x & _ & [_ ?]%io_canonicalize_ok). done.
  - exists rr, n. split_and!; [done | by eapply file_name_plain |].
    apply components_join_plain; [by apply canonical_path_nonempty | by eapply file_name_plain].
  - by intros p ?%elem_of_nil.
Qed.

Lemma tracked_root_ok w p q :
  w ≠ "" → tracked_root w p = Ok q →
  q = join w p ∧ path_starts_with q w = true ∧ protected_worktree_path w q = false.
Proof.
  intros Hw (q' & Hl & Hq)%result_bind_ok.
  destruct (lexical_confined_ok _ _ _ Hw Hl) as [Hs _].
  destruct (protected_worktree_path w q') eqn:Hp; simplify_eq. split_and!; try done.
  unfold lexical_confined_path in Hl. by destruct (_ || _); simplify_eq.
Qed.

Lemma for_general_wf w sc rt inputs caps mode roots self :
  for_general w sc rt inputs caps mode roots = Ok self →
  launcher_wf self ∧ canonicalize w = Some (worktree self)
  ∧ canonicalize sc = Some (scratch_root self) ∧ network_allowed self = false
  ∧ access_mode self = mode ∧ interactive_bash self = false
  ∧ tracked_write_roots self = (join (worktree self) <$> roots)
  ∧ ∃ rp rr name, parent rt = Some rp ∧ canonicalize rp = Some rr ∧ file_name rt = Some name
                  ∧ report_target self = join rr name.
Proof.
  intros (l & Hl & (rs & Hrs & [= <-])%result_bind_ok)%result_bind_ok.
  destruct (new_wf _ _ _ _ _ _ _ Hl) as (Hwf & ? & ? & ? & _ & _ & ? & ?).
  destruct Hwf as [Hw Hs Hi Hr _ _]. pose proof (canonical_path_nonempty _ Hw) as Hne.
  assert (Htr : rs = (join (worktree l) <$> roots) ∧ ∀ p, p ∈ rs →
     path_starts_with p (worktree l) = true ∧ protected_worktree_path (worktree l) p = false).
  { destruct mode; [destruct roots; simplify_eq; split; [done | by intros ? ?%elem_of_nil]|].
    apply traverse_ok in Hrs. clear -Hrs Hne. induction Hrs as [|x y xs ys Hxy _ [-> IH]].
    - split; [done | by intros ? ?%elem_of_nil].
    - destruct (tracked_root_ok _ _ _ Hne Hxy) as (-> & ? & ?). split; [done|].
      intros p [->|Hp]%elem_of_cons; [done | by apply IH]. }
  destruct Htr as [Heq Htr]. split_and!; try done.
  constructor; simpl; try done. intros ->. destruct roots; [by simplify_eq | done].
Qed.

End safety.

(** ** Witnesses on a concrete file system *)

Definition sample_launcher (mode : AccessMode) (roots : list Path) : PolicyLauncher :=
  mk_launcher "/repo" "/tmp/s" "/tmp/s/result.json" [] false default_capabilities mode roots false.

#[local] Existing Instance Tree.fs.
#[local] Instance sample_fs : FileSystem := Tree.fs Tree.sample.
#[local] Instance sample_laws : FileSystemLaws := Tree.fs_laws Tree.sample.

Definition bash_call (command : string) : Value :=
  VObject [("toolName", VString "Bash"); ("input", VObject [("command", VString command)])].

Lemma allowed_mutation_confined_witness :
  (∃ loc, entry_at "/repo/in" loc)
  ∧ ∃ target, canonicalize "/repo/in" = Some target
              ∧ writable_location (sample_launcher WorkspaceWrite ["/repo"]) target.
Proof.
  destruct (allowed_mutation_confined (sample_launcher WorkspaceWrite ["/repo"])
    (Edit "/repo/in") Allow "/repo/in" true) as (_ & _ & _ & Hloc & _ & Hf).
  - by vm_compute.
  - set_solver.
  - split; [exact Hloc|]. apply Hf; by vm_compute.
Defined.

(** The entry of a path below a link is where the link leads: for an existing and
    for a new file under [/repo/out], a link to [/etc], the only entry lies
    outside every writable location, although both paths are lexically inside. *)
Example link_escapes_not_confined (name : string) :
  name = "passwd" ∨ name = "newfile" →
  entry_at ("/repo/out/" +:+ name) ("/etc/" +:+ name)
  ∧ ¬ entry_confined (sample_launcher WorkspaceWrite ["/repo"]) ("/repo/out/" +:+ name).
Proof.
  intros Hn. assert (He : entry_at ("/repo/out/" +:+ name) ("/etc/" +:+ name)).
  { exists "/repo/out", "/etc", [name].
    destruct Hn as [-> | ->]; (split; [by apply hangs_parent|]); by split_and!. }
  split; [done|]. intros [_ Hw]. apply Hw in He.
  destruct Hn as [-> | ->]; destruct He as [(_ & Hs & _)|(_ & Hs & _)]; by vm_compute in Hs.
Qed.


Lemma validated_denial_closed_witness :
  ∃ s, decide_zcode_permission_validated (sample_launcher ReadOnly [])
         (bash_call "rm -rf src") Allow
       = Returns (deny "command_not_allowlisted", Some s)
       ∧ reason_code s ∈ denial_reasons.
Proof.
  destruct (decide_zcode_permission_validated (sample_launcher ReadOnly [])
    (bash_call "rm -rf src") Allow) as [[d denial]|] eqn:E; [|by vm_compute in E].
  destruct (validated_denial_closed _ _ _ _ _ E) as [Hiff Hcode].
  assert (d = deny "command_not_allowlisted") as -> by (vm_compute in E; by simplify_eq).
  destruct denial as [s|]; [|by destruct Hiff as [_ []]].
  exists s. split; [done|]. by apply Hcode.
Defined.

(** The read tools check the credential names of the requested path but not of
    the file it resolves to: a link to a credential inside the worktree is read. *)
Lemma read_link_to_credential_allowed :
  let self := sample_launcher ReadOnly [] in
  decide_request self (Read "/repo/.env") Allow = deny "credential_read_denied"
  ∧ canonicalize "/repo/notes" = Some "/repo/.env"
  ∧ decide_request self (Read "/repo/notes") Allow = allow "allowed_by_bounded_policy".
Proof. by vm_compute. Qed.

(** Writing through a link that leaves the repository is denied. *)
Example write_through_link_denied :
  let self := sample_launcher WorkspaceWrite ["/repo"] in
  decide_request self (Write "/repo/out/passwd") Allow
    = deny "write_outside_result_roots_denied"
  ∧ decide_request self (Write "/repo/in/b.rs") Allow = allow "allowed_by_bounded_policy"
  ∧ decide_request self (Edit "/repo/missing") Allow = deny "write_path_unverifiable"
  ∧ decide_request self (Delete "/repo/out") Allow = allow "allowed_by_bounded_policy".
Proof. by vm_compute. Qed.
