(* ===== verification/General.v ===== *)
(** * Preparing a task

    [crates/external-core/src/general.rs]: validation of the submitted manifest,
    the prepared task, the launcher it is run under, and the finalizer.  The name
    of a scratch directory depends on the clock, a process-wide counter,
    [/dev/urandom] and SHA-256; the result of each creation attempt is a
    parameter. *)

From stdpp Require Import gmap.
From S2P Require Import Prelude RustStr RustPath Json PolicyPaths Tokenizer FileSystem Denial Launcher LauncherSafety.

Definition GENERAL_TASK_SCHEMA : string := "zcode-general-task/v1".
Definition MAX_PROMPT_BYTES : Z := 256 * 1024.

Inductive PermissionMode := Build | EditMode | Plan | Yolo.

#[global] Instance PermissionMode_eq_dec : EqDecision PermissionMode.
Proof. solve_decision. Defined.

Definition mode_access (mode : PermissionMode) : AccessMode :=
  match mode with
  | Plan => ReadOnly
  | Build | EditMode | Yolo => WorkspaceWrite
  end.

Record GeneralTaskManifest := mk_manifest {
  schema : string;
  agent_id : string;
  repository : Path;
  permission_mode : option PermissionMode;
  prompt : string;
  write_manifest : list Path }.

Record PreparedWorkspace := mk_workspace { ws_path : Path; ws_scratch_root : Path }.

Record AdmissionIdentity := mk_admission {
  agent : string;
  config_revision : Z;
  adapter_version : string;
  model : option string;
  model_source : string;
  effort : option string;
  developer_instructions : option string }.

Record PreparedGeneralTask := mk_prepared {
  admission : option AdmissionIdentity;
  prep_schema : string;
  prep_agent_id : string;
  prep_repository : Path;
  workspace : PreparedWorkspace;
  prep_permission_mode : PermissionMode;
  prep_write_manifest : list Path }.

Definition with_admission (self : PreparedGeneralTask) (identity : AdmissionIdentity)
    : PreparationResult PreparedGeneralTask :=
  Ok (mk_prepared (Some identity) (prep_schema self) (prep_agent_id self) (prep_repository self)
        (workspace self) (prep_permission_mode self) (prep_write_manifest self)).

(** ** Validation *)

Definition identifier_byte (c : ascii) : bool :=
  is_ascii_alphanumeric c || Ascii.eqb c "-" || Ascii.eqb c "_" || Ascii.eqb c "."
  || Ascii.eqb c ":".

(** [any(|path| !unique.insert(path))] over a [HashSet<&PathBuf>], whose equality
    is component-wise. *)
Fixpoint has_duplicates (seen l : list Path) : bool :=
  match l with
  | [] => false
  | p :: l' => existsb (path_eq p) seen || has_duplicates (p :: seen) l'
  end.

Definition invalid_identity (manifest : GeneralTaskManifest) : bool :=
  str_is_empty (agent_id manifest)
  || Z.ltb 256 (str_len (agent_id manifest))
  || negb (str_all identifier_byte (agent_id manifest))
  || trim_is_empty (prompt manifest)
  || Z.ltb MAX_PROMPT_BYTES (str_len (prompt manifest))
  || contains_char (prompt manifest) (byte_of 0).

Definition validate_manifest (manifest : GeneralTaskManifest) : PreparationResult unit :=
  if negb (schema manifest ≟ GENERAL_TASK_SCHEMA)
  then Err (InvalidManifest "unsupported general task schema")
  else if invalid_identity manifest then Err (InvalidManifest "invalid task identity or prompt")
  else if has_duplicates [] (write_manifest manifest)
  then Err (InvalidManifest "write_manifest contains duplicates")
  else Ok tt.

Definition confined_relative (path : Path) : PreparationResult Path :=
  if str_is_empty path || is_absolute path
     || existsb (λ c, match c with ParentDir | RootDir => true | _ => false end) (components path)
  then Err (InvalidPath path "path must be repository-relative")
  else Ok (collect_components (components path)).

Definition protected_metadata (path : Path) : bool :=
  existsb (λ c, match c with Normal name => (name ≟ ".git") || (name ≟ ".gitmodules") | _ => false end)
    (components path).

Definition validate_write_scope (mode : PermissionMode) (write_manifest : list Path)
    : PreparationResult unit :=
  if bool_decide (mode = Plan) && negb (bool_decide (write_manifest = []))
  then Err (InvalidManifest "plan mode does not accept a write manifest")
  else if existsb protected_metadata write_manifest
  then Err (PolicyError "protected repository metadata path")
  else Ok tt.

Definition is_public_task_id (value : string) : bool :=
  Nat.eqb (String.length value) 8 && str_all is_ascii_digit value.

(** The result of creating a scratch directory; [Created] holds what
    [fs::canonicalize] then returns for it. *)
Inductive CreateDir := Created (canonical : option Path) | AlreadyExists | CreateFailed.

Section general.
Context `{FileSystem}.

(** One round of [allocate_submission]: [create_dir] of a freshly named scratch
    directory and its canonical path, by repository, agent id and round. *)
Context (create_scratch : Path → string → nat → CreateDir).

Fixpoint allocate_loop (rounds attempt : nat) (repository : Path) (id : string)
    : PreparationResult (string * Path) :=
  match rounds with
  | O => Err (InvalidManifest "could not allocate a unique task scratch directory")
  | S rounds =>
      match create_scratch repository id attempt with
      | Created (Some scratch_root) => Ok (id, scratch_root)
      | Created None => Err IoError
      | AlreadyExists => allocate_loop rounds (S attempt) repository id
      | CreateFailed => Err IoError
      end
  end.

Definition allocate_submission (repository : Path) (id : string)
    : PreparationResult (string * Path) :=
  allocate_loop 32 0 repository id.

Definition canonical_general_repository (path : Path) : PreparationResult Path :=
  if negb (is_absolute path) then Err (InvalidPath path "repository must be absolute")
  else canonical ← io_canonicalize path;
       if negb (is_dir canonical) then Err (InvalidPath canonical "workspace is not a directory")
       else Ok canonical.

Definition allocate_identity (repository : Path) (id : string) : PreparationResult (string * Path) :=
  if is_public_task_id id then
    allocated ← allocate_submission repository id; Ok (id, snd allocated)
  else allocate_submission repository id.

Definition prepare_direct_submission (manifest : GeneralTaskManifest)
    : PreparationResult PreparedGeneralTask :=
  _ ← validate_manifest manifest;
  repository ← canonical_general_repository (repository manifest);
  identity ← allocate_identity repository (agent_id manifest);
  let mode := default Build (permission_mode manifest) in
  roots ← traverse confined_relative (write_manifest manifest);
  let roots := if negb (bool_decide (mode = Plan)) && bool_decide (roots = [])
               then ["."] else roots in
  _ ← validate_write_scope mode roots;
  Ok (mk_prepared None (schema manifest) (fst identity) repository
        (mk_workspace repository (snd identity)) mode roots).

Definition prepare : GeneralTaskManifest → PreparationResult PreparedGeneralTask :=
  prepare_direct_submission.
Definition prepare_submission : GeneralTaskManifest → PreparationResult PreparedGeneralTask :=
  prepare_direct_submission.

(** ** The launcher of a prepared task *)

Definition build_launcher (self : PreparedGeneralTask) (inputs : list Path)
    : PreparationResult PolicyLauncher :=
  for_general (ws_path (workspace self)) (ws_scratch_root (workspace self))
    (join (ws_scratch_root (workspace self)) "result.json") inputs default_capabilities
    (mode_access (prep_permission_mode self)) (prep_write_manifest self).

Definition launcher (self : PreparedGeneralTask) : PreparationResult PolicyLauncher :=
  build_launcher self [].

Definition final_tree_launcher (self : PreparedGeneralTask) : PreparationResult PolicyLauncher :=
  launcher self.

End general.

(** ** Completion *)

Inductive CompletionOutcome :=
| CCompleted | CFailed | CCancelled | CTimedOut | CRuntimeLost | CResultInvalid.

#[global] Instance CompletionOutcome_eq_dec : EqDecision CompletionOutcome.
Proof. solve_decision. Defined.

Record GeneralCompletion := mk_completion {
  outcome_ : CompletionOutcome;
  completion_reason : option string;
  summary : string;
  residual_gaps : list string;
  cleaned : bool;
  failure_message : option string }.

Definition retry_cleanup (persisted : GeneralCompletion) : GeneralCompletion :=
  mk_completion (outcome_ persisted) (completion_reason persisted) (summary persisted)
    (residual_gaps persisted) true (failure_message persisted).

Definition finalize (requested : CompletionOutcome) : GeneralCompletion :=
  mk_completion requested None "" [] true None.

Definition finish_cleanup : GeneralCompletion → GeneralCompletion := retry_cleanup.

(** ** Properties of prepared tasks *)

Section prepared.
Context `{FileSystemLaws}.
Context (create_scratch : Path → string → nat → CreateDir).

(** [fs::canonicalize] of the new directory, as for every other path. *)
Context (scratch_canonical : ∀ repository id attempt p,
  create_scratch repository id attempt = Created (Some p) → canonical_path p).

(** A write root that stays inside the repository and off its metadata. *)
Definition root_confined (p : Path) : Prop :=
  is_absolute p = false ∧ ParentDir ∉ components p
  ∧ Normal ".git" ∉ components p ∧ Normal ".gitmodules" ∉ components p.

(** What preparation establishes. *)
Record prepared_wf (t : PreparedGeneralTask) : Prop := {
  pwf_repository : canonical_path (prep_repository t) ∧ is_dir (prep_repository t) = true;
  pwf_workspace : ws_path (workspace t) = prep_repository t;
  pwf_scratch : canonical_path (ws_scratch_root (workspace t));
  pwf_agent : str_all identifier_byte (prep_agent_id t) = true
              ∧ 0 < String.length (prep_agent_id t) ≤ 256;
  pwf_plan : prep_permission_mode t = Plan ↔ prep_write_manifest t = [];
  pwf_roots : ∀ p, p ∈ prep_write_manifest t → root_confined p }.

Lemma allocate_loop_ok rounds attempt repo id r :
  allocate_loop create_scratch rounds attempt repo id = Ok r →
  fst r = id ∧ canonical_path (snd r).
Proof.
  revert attempt. induction rounds as [|rounds IH]; intros attempt; simpl; [done|].
  destruct (create_scratch repo id attempt) as [[p|]| |] eqn:E; try done; [|apply IH].
  intros [= <-]. eauto.
Qed.

Lemma allocate_identity_ok repo id r :
  allocate_identity create_scratch repo id = Ok r → fst r = id ∧ canonical_path (snd r).
Proof.
  unfold allocate_identity. destruct (is_public_task_id id); [|apply allocate_loop_ok].
  intros ([id' p] & [_ ?]%allocate_loop_ok & [= <-])%result_bind_ok. done.
Qed.

Lemma canonical_repository_ok p q :
  canonical_general_repository p = Ok q → canonical_path q ∧ is_dir q = true.
Proof.
  unfold canonical_general_repository. destruct (is_absolute p); [|done]. simpl.
  intros (c & [_ Hc]%io_canonicalize_ok & Hq)%result_bind_ok.
  destruct (is_dir c) eqn:E; by simplify_eq/=.
Qed.

Lemma validate_manifest_ok m :
  validate_manifest m = Ok tt →
  schema m = GENERAL_TASK_SCHEMA ∧ str_all identifier_byte (agent_id m) = true
  ∧ 0 < String.length (agent_id m) ≤ 256.
Proof.
  unfold validate_manifest, invalid_identity.
  destruct (String.eqb_spec (schema m) GENERAL_TASK_SCHEMA); [|done]. simpl.
  destruct (_ || _) eqn:E; [done|]. bool_hyp. intros _. split_and!; try done.
  - destruct (agent_id m); [done | simpl; lia].
  - unfold str_len in *. lia.
Qed.

Lemma confined_relative_ok p q :
  confined_relative p = Ok q → is_absolute q = false ∧ ParentDir ∉ components q.
Proof.
  unfold confined_relative. destruct (str_is_empty p || _ || _) eqn:E; [done|]. bool_hyp.
  intros [= <-]. rewrite is_absolute_components, components_collect, <- is_absolute_components.
  split; [done|]. intros Hin. eapply existsb_false_iff in Hin; [|done]. done.
Qed.

Lemma validate_write_scope_ok mode roots :
  validate_write_scope mode roots = Ok tt →
  (mode = Plan → roots = [])
  ∧ ∀ p, p ∈ roots → Normal ".git" ∉ components p ∧ Normal ".gitmodules" ∉ components p.
Proof.
  unfold validate_write_scope. destruct (_ && _) eqn:Hp; [done|].
  destruct (existsb _ _) eqn:He; [done|]. intros _. split.
  - intros ->. simpl in Hp. by bool_hyp.
  - intros p Hin. rewrite existsb_false_iff in He. specialize (He p Hin).
    unfold protected_metadata in He. rewrite existsb_false_iff in He.
    split; intros Hc; by specialize (He _ Hc).
Qed.

Lemma prepare_direct_wf m t :
  prepare_direct_submission create_scratch m = Ok t → prepared_wf t.
Proof.
  unfold prepare_direct_submission.
  intros ([] & (_ & Hid & Hlen)%validate_manifest_ok & (repo & [Hrc Hrd]%canonical_repository_ok
    & (id & [Hi Hsc]%allocate_identity_ok & (roots & Hroots%traverse_ok
    & ([] & Hscope & [= <-])%result_bind_ok)%result_bind_ok)%result_bind_ok)%result_bind_ok)
    %result_bind_ok.
  assert (Hconf : ∀ p, p ∈ roots → is_absolute p = false ∧ ParentDir ∉ components p).
  { intros p Hp. apply list_elem_of_lookup in Hp as [k Hk].
    destruct (Forall2_lookup_r _ _ _ _ _ Hroots Hk) as (x & _ & Hx). by eapply confined_relative_ok. }
  apply validate_write_scope_ok in Hscope as [Hplan Hmeta].
  revert Hplan Hmeta. generalize (default Build (permission_mode m)). intros mode Hplan Hmeta.
  constructor; simpl; try done; [by rewrite Hi| |].
  - split; [exact Hplan|]. destruct (decide (mode = Plan)) as [->|Hn]; [done|].
    rewrite (bool_decide_eq_false_2 (mode = Plan)) by done. simpl. case_bool_decide; intros Hr; [done | by destruct roots].
  - intros p Hp. destruct (Hmeta p Hp). enough (is_absolute p = false ∧ ParentDir ∉ components p)
      by (unfold root_confined; naive_solver).
    destruct (_ && _); [|by apply Hconf]. apply list_elem_of_singleton in Hp as ->.
    split; [done|]. by apply has_parent_dir_false.
Qed.

Lemma result_name_plain : plain_name "result.json".
Proof. by split. Qed.

(** The result file of a prepared task lives in its scratch directory, so nothing
    outside the worktree is writable. *)
Lemma prepared_report_root t self :
  prepared_wf t → launcher t = Ok self →
  parent (report_target self) = Some (scratch_root self)
  ∧ canonicalize (prep_repository t) = Some (worktree self)
  ∧ access_mode self = mode_access (prep_permission_mode t)
  ∧ tracked_write_roots self = (join (worktree self) <$> prep_write_manifest t).
Proof.
  intros Hwf Hl. unfold launcher, build_launcher in Hl.
  destruct (for_general_wf _ _ _ _ _ _ _ _ Hl)
    as (Hlw & Hw & Hs & _ & Hm & _ & Ht & rp & rr & name & Hrp & Hrr & Hn & Hrt).
  rewrite (pwf_workspace _ Hwf) in Hw.
  rewrite parent_join_canonical in Hrp by (apply (pwf_scratch _ Hwf) || apply result_name_plain).
  injection Hrp as <-. rewrite Hs in Hrr. injection Hrr as <-.
  split_and!; try done. rewrite Hrt. apply parent_join_canonical; [apply (wf_scratch _ Hlw)|].
  by eapply file_name_plain.
Qed.

Lemma prepared_writable t self loc :
  prepared_wf t → launcher t = Ok self → writable_location self loc →
  prep_permission_mode t ≠ Plan ∧ path_starts_with loc (worktree self) = true
  ∧ protected_worktree_path (worktree self) loc = false
  ∧ ∃ root, root ∈ prep_write_manifest t
            ∧ path_starts_with loc (join (worktree self) root) = true.
Proof.
  intros Hwf Hl Hloc. destruct (prepared_report_root _ _ Hwf Hl) as (Hp & _ & Hm & Ht).
  destruct Hloc as [(Hacc & Hin & Hprot & r & Hr & Hs)|(_ & Hsc & _ & rr & Hrr & Hn)].
  - rewrite Hm in Hacc. rewrite Ht in Hr. apply list_elem_of_fmap in Hr as (root & -> & Hroot).
    split_and!; try done; [|eauto]. intros Hplan. by rewrite Hplan in Hacc.
  - rewrite Hp in Hrr. injection Hrr as <-. congruence.
Qed.

(** A location under the repository [repo] and one of the write roots of the
    task, outside the protected metadata. *)
Definition under_write_root (t : PreparedGeneralTask) (repo loc : Path) : Prop :=
  path_starts_with loc repo = true ∧ protected_worktree_path repo loc = false
  ∧ ∃ root, root ∈ prep_write_manifest t ∧ root_confined root
            ∧ path_starts_with loc (join repo root) = true.

Lemma prepared_writable_under t self loc :
  prepared_wf t → launcher t = Ok self → writable_location self loc →
  prep_permission_mode t ≠ Plan ∧ under_write_root t (worktree self) loc.
Proof.
  intros Hwf Hl Hloc.
  destruct (prepared_writable _ _ _ Hwf Hl Hloc) as (? & ? & ? & root & Hr & ?).
  split; [done|]. split_and!; [done..|]. exists root. split_and!; [done | by apply (pwf_roots _ Hwf) | done].
Qed.


End prepared.

(** ** A concrete submission *)

Module Submission.

Definition create_scratch (_ : Path) (_ : string) (_ : nat) : CreateDir := Created (Some "/tmp/s").

Definition manifest (mode : PermissionMode) (roots : list Path) : GeneralTaskManifest :=
  mk_manifest GENERAL_TASK_SCHEMA "10000000" "/repo/." (Some mode) "fix it" roots.

Definition task (mode : PermissionMode) (roots : list Path) : PreparedGeneralTask :=
  mk_prepared None GENERAL_TASK_SCHEMA "10000000" "/repo" (mk_workspace "/repo" "/tmp/s") mode roots.

End Submission.

