(* ===== verification/StoreRecords.v ===== *)
(** * Records of the task store

    [crates/external-store/src/records.rs], [error.rs], [schema.rs] and the integer
    conversions of [store.rs].  The enumerations are stored in TEXT columns as
    [as_str] writes them; the round-trip theorem on [parse] lets the rows below
    hold the decoded values.  Integer columns are SQLite [i64]s, kept as [Z] with
    the conversions and their failures written out. *)

From S2P Require Import Prelude RustStr.

(** ** Errors ([error.rs]) *)

(** What SQLite can report for the statements used. *)
Inductive SqliteError := CheckConstraint | UniqueConstraint | QueryReturnedNoRows.

Inductive StoreError :=
| Sqlite (e : SqliteError)
| LegacySchemaUnsupported
| InvalidState (message : string)
| Conflict (message : string).

Notation StoreResult := (result StoreError).

Definition store_error_code (e : StoreError) : string :=
  match e with
  | LegacySchemaUnsupported => "STORE_SCHEMA_VERSION_UNSUPPORTED"
  | Sqlite _ => "PERSISTENCE_ERROR"
  | InvalidState _ => "INVALID_STATE"
  | Conflict _ => "CONFLICT"
  end.

(** ** Enumerations ([records.rs]) *)

Inductive TaskPhase := Queued | Preparing | Running | WaitingInput | Cancelling | Terminal.
Inductive TaskOutcome := Completed | Failed | Cancelled | TimedOut | RuntimeLost | ResultInvalid.
Inductive TurnState := TurnIdle | TurnActive | TurnFailed.
Inductive MessageState := MQueued | MSending | MDelivered | MFailed.
Inductive PendingRequestState := PPending | PSending | PResponded.

#[global] Instance SqliteError_eq_dec : EqDecision SqliteError.
Proof. solve_decision. Defined.
#[global] Instance StoreError_eq_dec : EqDecision StoreError.
Proof. solve_decision. Defined.
#[global] Instance TaskPhase_eq_dec : EqDecision TaskPhase.
Proof. solve_decision. Defined.
#[global] Instance TaskOutcome_eq_dec : EqDecision TaskOutcome.
Proof. solve_decision. Defined.
#[global] Instance TurnState_eq_dec : EqDecision TurnState.
Proof. solve_decision. Defined.
#[global] Instance MessageState_eq_dec : EqDecision MessageState.
Proof. solve_decision. Defined.
#[global] Instance PendingRequestState_eq_dec : EqDecision PendingRequestState.
Proof. solve_decision. Defined.

Definition is_terminal (p : TaskPhase) : bool := bool_decide (p = Terminal).

Definition phase_as_str (p : TaskPhase) : string :=
  match p with
  | Queued => "QUEUED"
  | Preparing => "PREPARING"
  | Running => "RUNNING"
  | WaitingInput => "WAITING_INPUT"
  | Cancelling => "CANCELLING"
  | Terminal => "TERMINAL"
  end.

Definition phase_parse (value : string) : StoreResult TaskPhase :=
  if value ≟ "QUEUED" then Ok Queued
  else if value ≟ "PREPARING" then Ok Preparing
  else if value ≟ "RUNNING" then Ok Running
  else if value ≟ "WAITING_INPUT" then Ok WaitingInput
  else if value ≟ "CANCELLING" then Ok Cancelling
  else if value ≟ "TERMINAL" then Ok Terminal
  else Err (InvalidState ("unknown task phase " +:+ value)).

Definition outcome_as_str (o : TaskOutcome) : string :=
  match o with
  | Completed => "COMPLETED"
  | Failed => "FAILED"
  | Cancelled => "CANCELLED"
  | TimedOut => "TIMED_OUT"
  | RuntimeLost => "RUNTIME_LOST"
  | ResultInvalid => "RESULT_INVALID"
  end.

Definition outcome_parse (value : string) : StoreResult TaskOutcome :=
  if value ≟ "COMPLETED" then Ok Completed
  else if value ≟ "FAILED" then Ok Failed
  else if value ≟ "CANCELLED" then Ok Cancelled
  else if value ≟ "TIMED_OUT" then Ok TimedOut
  else if value ≟ "RUNTIME_LOST" then Ok RuntimeLost
  else if value ≟ "RESULT_INVALID" then Ok ResultInvalid
  else Err (InvalidState ("unknown task outcome " +:+ value)).

Definition turn_as_str (t : TurnState) : string :=
  match t with TurnIdle => "IDLE" | TurnActive => "ACTIVE" | TurnFailed => "FAILED" end.

Definition turn_parse (value : string) : StoreResult TurnState :=
  if value ≟ "IDLE" then Ok TurnIdle
  else if value ≟ "ACTIVE" then Ok TurnActive
  else if value ≟ "FAILED" then Ok TurnFailed
  else Err (InvalidState ("unknown turn state " +:+ value)).

(** ** Integer conversions ([store.rs]) *)

Definition usize_to_i64 (value : Z) : StoreResult Z :=
  if Z.leb value i64_max then Ok value else Err (InvalidState "value exceeds SQLite i64").
Definition u64_to_i64 (value : Z) : StoreResult Z :=
  if Z.leb value i64_max then Ok value else Err (InvalidState "value exceeds SQLite i64").
Definition i64_to_u64 (value : Z) : StoreResult Z :=
  if Z.leb 0 value then Ok value else Err (InvalidState "negative SQLite value").

(** ** Rows ([schema.rs], [records.rs]) *)

Record NewTask := mk_new_task {
  task_id : string;
  task_repository : string;
  workspace_path : string;
  runtime_hash : option string;
  prepared_launch_json : string;
  initial_prompt : string }.

#[global] Instance NewTask_eq_dec : EqDecision NewTask.
Proof. solve_decision. Defined.

(** The four nullable columns of a process identity. *)
Record ProcessColumns := mk_process {
  pid : option Z;
  process_group_id : option Z;
  process_uid : option Z;
  process_start_token : option string }.

#[global] Instance ProcessColumns_eq_dec : EqDecision ProcessColumns.
Proof. solve_decision. Defined.

Definition no_process : ProcessColumns := mk_process None None None None.

Record StoredProcessIdentity := mk_identity {
  id_pid : Z; id_group : Z; id_uid : Z; id_start_token : string }.

#[global] Instance StoredProcessIdentity_eq_dec : EqDecision StoredProcessIdentity.
Proof. solve_decision. Defined.

(** [identity.map(|value| value.pid)] and the like. *)
Definition process_columns (identity : option StoredProcessIdentity) : ProcessColumns :=
  mk_process (id_pid <$> identity) (id_group <$> identity) (id_uid <$> identity)
    (id_start_token <$> identity).

(** A row of [tasks]: the submitted columns in [spec], the others one by one. *)
Record TaskRow := mk_task_row {
  spec : NewTask;
  created_at : Z;
  phase : TaskPhase;
  task_outcome : option TaskOutcome;
  session_id : option string;
  turn_state : TurnState;
  process : ProcessColumns;
  runtime_agent_id : option string;
  owner_id : option string;
  owner_epoch : Z;
  lease_expires_at : option Z;
  close_requested : bool;
  stop_requested : bool;
  started_at : option Z;
  completed_at : option Z;
  last_heartbeat_at : option Z;
  last_event_seq : Z;
  failure_code : option string;
  row_failure_message : option string;
  closed_at : option Z;
  reaped_at : option Z }.

#[global] Instance TaskRow_eq_dec : EqDecision TaskRow.
Proof. solve_decision. Defined.

(** Setters: an [UPDATE tasks SET ...] is a composition of them. *)

Definition set_phase (v : TaskPhase) (r : TaskRow) : TaskRow :=
  mk_task_row (spec r) (created_at r) v (task_outcome r) (session_id r) (turn_state r)
    (process r) (runtime_agent_id r) (owner_id r) (owner_epoch r) (lease_expires_at r)
    (close_requested r) (stop_requested r) (started_at r) (completed_at r)
    (last_heartbeat_at r) (last_event_seq r) (failure_code r) (row_failure_message r)
    (closed_at r) (reaped_at r).

Definition set_task_outcome (v : option TaskOutcome) (r : TaskRow) : TaskRow :=
  mk_task_row (spec r) (created_at r) (phase r) v (session_id r) (turn_state r) (process r)
    (runtime_agent_id r) (owner_id r) (owner_epoch r) (lease_expires_at r) (close_requested
    r) (stop_requested r) (started_at r) (completed_at r) (last_heartbeat_at r)
    (last_event_seq r) (failure_code r) (row_failure_message r) (closed_at r) (reaped_at r).

Definition set_session_id (v : option string) (r : TaskRow) : TaskRow :=
  mk_task_row (spec r) (created_at r) (phase r) (task_outcome r) v (turn_state r) (process
    r) (runtime_agent_id r) (owner_id r) (owner_epoch r) (lease_expires_at r)
    (close_requested r) (stop_requested r) (started_at r) (completed_at r)
    (last_heartbeat_at r) (last_event_seq r) (failure_code r) (row_failure_message r)
    (closed_at r) (reaped_at r).

Definition set_turn_state (v : TurnState) (r : TaskRow) : TaskRow :=
  mk_task_row (spec r) (created_at r) (phase r) (task_outcome r) (session_id r) v (process
    r) (runtime_agent_id r) (owner_id r) (owner_epoch r) (lease_expires_at r)
    (close_requested r) (stop_requested r) (started_at r) (completed_at r)
    (last_heartbeat_at r) (last_event_seq r) (failure_code r) (row_failure_message r)
    (closed_at r) (reaped_at r).

Definition set_process (v : ProcessColumns) (r : TaskRow) : TaskRow :=
  mk_task_row (spec r) (created_at r) (phase r) (task_outcome r) (session_id r) (turn_state
    r) v (runtime_agent_id r) (owner_id r) (owner_epoch r) (lease_expires_at r)
    (close_requested r) (stop_requested r) (started_at r) (completed_at r)
    (last_heartbeat_at r) (last_event_seq r) (failure_code r) (row_failure_message r)
    (closed_at r) (reaped_at r).

Definition set_runtime_agent_id (v : option string) (r : TaskRow) : TaskRow :=
  mk_task_row (spec r) (created_at r) (phase r) (task_outcome r) (session_id r) (turn_state
    r) (process r) v (owner_id r) (owner_epoch r) (lease_expires_at r) (close_requested r)
    (stop_requested r) (started_at r) (completed_at r) (last_heartbeat_at r) (last_event_seq
    r) (failure_code r) (row_failure_message r) (closed_at r) (reaped_at r).

Definition set_owner_id (v : option string) (r : TaskRow) : TaskRow :=
  mk_task_row (spec r) (created_at r) (phase r) (task_outcome r) (session_id r) (turn_state
    r) (process r) (runtime_agent_id r) v (owner_epoch r) (lease_expires_at r)
    (close_requested r) (stop_requested r) (started_at r) (completed_at r)
    (last_heartbeat_at r) (last_event_seq r) (failure_code r) (row_failure_message r)
    (closed_at r) (reaped_at r).

Definition set_owner_epoch (v : Z) (r : TaskRow) : TaskRow :=
  mk_task_row (spec r) (created_at r) (phase r) (task_outcome r) (session_id r) (turn_state
    r) (process r) (runtime_agent_id r) (owner_id r) v (lease_expires_at r) (close_requested
    r) (stop_requested r) (started_at r) (completed_at r) (last_heartbeat_at r)
    (last_event_seq r) (failure_code r) (row_failure_message r) (closed_at r) (reaped_at r).

Definition set_lease_expires_at (v : option Z) (r : TaskRow) : TaskRow :=
  mk_task_row (spec r) (created_at r) (phase r) (task_outcome r) (session_id r) (turn_state
    r) (process r) (runtime_agent_id r) (owner_id r) (owner_epoch r) v (close_requested r)
    (stop_requested r) (started_at r) (completed_at r) (last_heartbeat_at r) (last_event_seq
    r) (failure_code r) (row_failure_message r) (closed_at r) (reaped_at r).

Definition set_close_requested (v : bool) (r : TaskRow) : TaskRow :=
  mk_task_row (spec r) (created_at r) (phase r) (task_outcome r) (session_id r) (turn_state
    r) (process r) (runtime_agent_id r) (owner_id r) (owner_epoch r) (lease_expires_at r) v
    (stop_requested r) (started_at r) (completed_at r) (last_heartbeat_at r) (last_event_seq
    r) (failure_code r) (row_failure_message r) (closed_at r) (reaped_at r).

Definition set_stop_requested (v : bool) (r : TaskRow) : TaskRow :=
  mk_task_row (spec r) (created_at r) (phase r) (task_outcome r) (session_id r) (turn_state
    r) (process r) (runtime_agent_id r) (owner_id r) (owner_epoch r) (lease_expires_at r)
    (close_requested r) v (started_at r) (completed_at r) (last_heartbeat_at r)
    (last_event_seq r) (failure_code r) (row_failure_message r) (closed_at r) (reaped_at r).

Definition set_started_at (v : option Z) (r : TaskRow) : TaskRow :=
  mk_task_row (spec r) (created_at r) (phase r) (task_outcome r) (session_id r) (turn_state
    r) (process r) (runtime_agent_id r) (owner_id r) (owner_epoch r) (lease_expires_at r)
    (close_requested r) (stop_requested r) v (completed_at r) (last_heartbeat_at r)
    (last_event_seq r) (failure_code r) (row_failure_message r) (closed_at r) (reaped_at r).

Definition set_completed_at (v : option Z) (r : TaskRow) : TaskRow :=
  mk_task_row (spec r) (created_at r) (phase r) (task_outcome r) (session_id r) (turn_state
    r) (process r) (runtime_agent_id r) (owner_id r) (owner_epoch r) (lease_expires_at r)
    (close_requested r) (stop_requested r) (started_at r) v (last_heartbeat_at r)
    (last_event_seq r) (failure_code r) (row_failure_message r) (closed_at r) (reaped_at r).

Definition set_last_heartbeat_at (v : option Z) (r : TaskRow) : TaskRow :=
  mk_task_row (spec r) (created_at r) (phase r) (task_outcome r) (session_id r) (turn_state
    r) (process r) (runtime_agent_id r) (owner_id r) (owner_epoch r) (lease_expires_at r)
    (close_requested r) (stop_requested r) (started_at r) (completed_at r) v (last_event_seq
    r) (failure_code r) (row_failure_message r) (closed_at r) (reaped_at r).

Definition set_last_event_seq (v : Z) (r : TaskRow) : TaskRow :=
  mk_task_row (spec r) (created_at r) (phase r) (task_outcome r) (session_id r) (turn_state
    r) (process r) (runtime_agent_id r) (owner_id r) (owner_epoch r) (lease_expires_at r)
    (close_requested r) (stop_requested r) (started_at r) (completed_at r)
    (last_heartbeat_at r) v (failure_code r) (row_failure_message r) (closed_at r)
    (reaped_at r).

Definition set_failure_code (v : option string) (r : TaskRow) : TaskRow :=
  mk_task_row (spec r) (created_at r) (phase r) (task_outcome r) (session_id r) (turn_state
    r) (process r) (runtime_agent_id r) (owner_id r) (owner_epoch r) (lease_expires_at r)
    (close_requested r) (stop_requested r) (started_at r) (completed_at r)
    (last_heartbeat_at r) (last_event_seq r) v (row_failure_message r) (closed_at r)
    (reaped_at r).

Definition set_row_failure_message (v : option string) (r : TaskRow) : TaskRow :=
  mk_task_row (spec r) (created_at r) (phase r) (task_outcome r) (session_id r) (turn_state
    r) (process r) (runtime_agent_id r) (owner_id r) (owner_epoch r) (lease_expires_at r)
    (close_requested r) (stop_requested r) (started_at r) (completed_at r)
    (last_heartbeat_at r) (last_event_seq r) (failure_code r) v (closed_at r) (reaped_at r).

Definition set_closed_at (v : option Z) (r : TaskRow) : TaskRow :=
  mk_task_row (spec r) (created_at r) (phase r) (task_outcome r) (session_id r) (turn_state
    r) (process r) (runtime_agent_id r) (owner_id r) (owner_epoch r) (lease_expires_at r)
    (close_requested r) (stop_requested r) (started_at r) (completed_at r)
    (last_heartbeat_at r) (last_event_seq r) (failure_code r) (row_failure_message r) v
    (reaped_at r).

Definition set_reaped_at (v : option Z) (r : TaskRow) : TaskRow :=
  mk_task_row (spec r) (created_at r) (phase r) (task_outcome r) (session_id r) (turn_state
    r) (process r) (runtime_agent_id r) (owner_id r) (owner_epoch r) (lease_expires_at r)
    (close_requested r) (stop_requested r) (started_at r) (completed_at r)
    (last_heartbeat_at r) (last_event_seq r) (failure_code r) (row_failure_message r)
    (closed_at r) v.

Definition row_id (r : TaskRow) : string := task_id (spec r).
Definition row_repository (r : TaskRow) : string := task_repository (spec r).
Definition row_workspace (r : TaskRow) : string := workspace_path (spec r).

Record EventRow := mk_event {
  ev_agent : string;
  ev_runtime : string;
  ev_seq : Z;
  ev_source_seq : Z;
  ev_timestamp : Z;
  ev_type : string;
  ev_turn : option string;
  ev_payload : string;
  ev_redaction : string }.

Record MessageRow := mk_message {
  message_id : string;
  m_agent : string;
  m_mode : string;
  m_content : string;
  m_state : MessageState;
  m_created_at : Z;
  m_delivered_at : option Z;
  m_target_turn : option string;
  m_failure_code : option string;
  m_failure_message : option string }.

Record PendingRow := mk_pending {
  request_id : string;
  p_agent : string;
  p_correlation : string;
  p_type : string;
  p_payload : string;
  p_state : PendingRequestState;
  p_created_at : Z;
  p_responded_at : option Z;
  p_decision : option string;
  p_content : option string }.

Record TaskResult := mk_result {
  res_outcome : TaskOutcome;
  final_text : string;
  partial : bool }.

#[global] Instance TaskResult_eq_dec : EqDecision TaskResult.
Proof. solve_decision. Defined.

Record ResultRow := mk_result_row {
  r_agent : string;
  r_result : TaskResult;
  r_sha256 : string;
  r_completed_at : Z }.

Record LedgerRow := mk_ledger {
  l_agent : string;
  l_epoch : Z;
  l_from : option TaskPhase;
  l_to : TaskPhase;
  l_outcome : option TaskOutcome;
  l_reason : option string;
  l_recorded_at : Z }.

(** The database: each table in rowid order.  Rows of [tasks] are never deleted,
    so the rowid of a task is its position. *)
Record Db := mk_db {
  tasks : list TaskRow;
  events : list EventRow;
  messages : list MessageRow;
  pending_requests : list PendingRow;
  task_results : list ResultRow;
  lifecycle_ledger : list LedgerRow;
  next_task_id : Z }.

(** A freshly initialised schema. *)
Definition empty_db : Db := mk_db [] [] [] [] [] [] 10000000.

(** ** Records handed to callers *)

Record TaskRecord := mk_task_record {
  rec_spec : NewTask;
  rec_phase : TaskPhase;
  rec_outcome : option TaskOutcome;
  rec_owner_id : option string;
  rec_owner_epoch : Z;
  rec_close_requested : bool;
  rec_stop_requested : bool;
  rec_last_event_seq : Z;
  rec_failure_code : option string;
  rec_failure_message : option string;
  rec_runtime_agent_id : option string;
  rec_session_id : option string;
  rec_turn_state : TurnState;
  rec_process_identity : option StoredProcessIdentity;
  rec_closed_at : option Z;
  rec_reaped_at : option Z;
  rec_created_at : Z }.

Record TaskClaim := mk_claim { claim_task : TaskRecord; claim_epoch : Z }.

Record TerminalUpdate := mk_terminal {
  tu_outcome : TaskOutcome;
  tu_failure_code : option string;
  tu_failure_message : option string }.

Record LifecycleWrite := mk_write {
  w_agent : string;
  w_runtime : string;
  w_owner_epoch : Z;
  w_source_sequence : Z;
  w_event_type : string;
  w_turn_id : option string;
  w_payload : string;
  w_redaction : string;
  w_terminal : option TerminalUpdate;
  w_turn_state : option TurnState }.

Record ControlDecision := mk_control {
  cd_phase : TaskPhase;
  cd_outcome : option TaskOutcome;
  cd_owner_epoch : Z;
  cd_needs_runtime_stop : bool;
  cd_prior_stop_or_close : bool }.

Inductive PendingResponseClaimDisposition :=
| Claimed
| TaskStopping
| NotPending (state : PendingRequestState)
| PendingNotFound.

Record TaskPage := mk_page { page_tasks : list TaskRecord; next_cursor : option Z }.

Record TaskPageFilter := mk_filter {
  filter_agent : option string;
  filter_phase : option TaskPhase;
  filter_outcome : option TaskOutcome }.

Record TaskWindowQuery := mk_window {
  win_agent : option string;
  win_workspace : option string;
  win_start : option Z;
  win_end : option Z }.
