(* ===== verification/StoreSql.v ===== *)
(** * Transactions and statements of the task store

    The state-and-error monad of a transaction, the SQL statements the store uses
    as operations on the row lists, and the row decoding of
    [crates/external-store/src/tasks.rs] ([query_task], [query_guard]).  A
    transaction that returns an error is rolled back by dropping it. *)

From S2P Require Import Prelude RustStr StoreRecords.

(** ** Transactions *)

Definition Tx (A : Type) : Type := Db → StoreResult (A * Db).

#[global] Instance tx_ret : MRet Tx := λ A a db, Ok (a, db).
#[global] Instance tx_bind : MBind Tx := λ A B f m db,
  match m db with Ok (a, db') => f a db' | Err e => Err e end.

Definition tx_fail {A} (e : StoreError) : Tx A := λ _, Err e.
Definition tx_get {A} (f : Db → A) : Tx A := λ db, Ok (f db, db).
Definition tx_put (f : Db → Db) : Tx unit := λ db, Ok (tt, f db).
Definition tx_lift {A} (r : StoreResult A) : Tx A := λ db,
  match r with Ok a => Ok (a, db) | Err e => Err e end.

(** [transaction_with_behavior(Immediate)] up to [commit]: the changes are kept
    only when every statement succeeded. *)
Definition immediate {A} (t : Tx A) (db : Db) : StoreResult A * Db :=
  match t db with
  | Ok (a, db') => (Ok a, db')
  | Err e => (Err e, db)
  end.

(** Work done after the commit, on the committed database. *)
Definition after_commit {A B} (f : A → StoreResult B) (r : StoreResult A * Db)
    : StoreResult B * Db :=
  (fst r ≫= f, snd r).

(** ** Table updates *)

Definition with_tasks (f : list TaskRow → list TaskRow) (db : Db) : Db :=
  mk_db (f (tasks db)) (events db) (messages db) (pending_requests db) (task_results db)
    (lifecycle_ledger db) (next_task_id db).
Definition with_events (f : list EventRow → list EventRow) (db : Db) : Db :=
  mk_db (tasks db) (f (events db)) (messages db) (pending_requests db) (task_results db)
    (lifecycle_ledger db) (next_task_id db).
Definition with_messages (f : list MessageRow → list MessageRow) (db : Db) : Db :=
  mk_db (tasks db) (events db) (f (messages db)) (pending_requests db) (task_results db)
    (lifecycle_ledger db) (next_task_id db).
Definition with_pending (f : list PendingRow → list PendingRow) (db : Db) : Db :=
  mk_db (tasks db) (events db) (messages db) (f (pending_requests db)) (task_results db)
    (lifecycle_ledger db) (next_task_id db).
Definition with_results (f : list ResultRow → list ResultRow) (db : Db) : Db :=
  mk_db (tasks db) (events db) (messages db) (pending_requests db) (f (task_results db))
    (lifecycle_ledger db) (next_task_id db).
Definition with_ledger (f : list LedgerRow → list LedgerRow) (db : Db) : Db :=
  mk_db (tasks db) (events db) (messages db) (pending_requests db) (task_results db)
    (f (lifecycle_ledger db)) (next_task_id db).
Definition with_next_id (v : Z) (db : Db) : Db :=
  mk_db (tasks db) (events db) (messages db) (pending_requests db) (task_results db)
    (lifecycle_ledger db) v.

(** [UPDATE ... SET f WHERE P]: the new rows and the number of changed ones. *)
Definition update_rows {A} (P : A → bool) (f : A → A) (l : list A) : list A :=
  map (λ r, if P r then f r else r) l.
Definition count_rows {A} (P : A → bool) (l : list A) : nat := length (List.filter P l).

(** [CHECK ((phase = 'TERMINAL') = (outcome IS NOT NULL))]. *)
Definition row_check (r : TaskRow) : bool :=
  Bool.eqb (is_terminal (phase r)) (match task_outcome r with Some _ => true | None => false end).

Definition update_tasks (P : TaskRow → bool) (f : TaskRow → TaskRow) : Tx nat := λ db,
  if forallb row_check (update_rows P f (tasks db))
  then Ok (count_rows P (tasks db), with_tasks (update_rows P f) db)
  else Err (Sqlite CheckConstraint).

Definition update_messages (P : MessageRow → bool) (f : MessageRow → MessageRow) : Tx nat := λ db,
  Ok (count_rows P (messages db), with_messages (update_rows P f) db).

Definition update_pending (P : PendingRow → bool) (f : PendingRow → PendingRow) : Tx nat := λ db,
  Ok (count_rows P (pending_requests db), with_pending (update_rows P f) db).

(** ** Selection and order *)

(** [ORDER BY key, rowid]: a stable insertion sort. *)
Fixpoint insert_by {A} (key : A → Z) (x : A) (l : list A) : list A :=
  match l with
  | [] => [x]
  | y :: l' => if Z.ltb (key y) (key x) then y :: insert_by key x l'
               else x :: y :: l'
  end.

Definition order_by {A} (key : A → Z) (l : list A) : list A :=
  fold_right (insert_by key) [] l.

Definition find_task (id : string) (l : list TaskRow) : option TaskRow :=
  List.find (λ r, row_id r ≟ id) l.
Definition find_message (id : string) (l : list MessageRow) : option MessageRow :=
  List.find (λ m, message_id m ≟ id) l.
Definition find_pending (id : string) (l : list PendingRow) : option PendingRow :=
  List.find (λ p, request_id p ≟ id) l.
Definition find_result (id : string) (l : list ResultRow) : option ResultRow :=
  List.find (λ r, r_agent r ≟ id) l.

Definition phase_in (ps : list TaskPhase) (p : TaskPhase) : bool := bool_decide (p ∈ ps).

(** [phase IN ('PREPARING','RUNNING','WAITING_INPUT','CANCELLING')]. *)
Definition active_phase : TaskPhase → bool := phase_in [Preparing; Running; WaitingInput; Cancelling].
(** The same with [QUEUED]: every phase but [TERMINAL]. *)
Definition occupying_phase : TaskPhase → bool :=
  phase_in [Queued; Preparing; Running; WaitingInput; Cancelling].

Definition live_message (m : MessageRow) : bool :=
  match m_state m with MQueued | MSending => true | _ => false end.
Definition live_pending (p : PendingRow) : bool :=
  match p_state p with PPending | PSending => true | _ => false end.

(** ** Row decoding ([tasks.rs]) *)

Definition in_range (lo hi v : Z) : bool := Z.leb lo v && Z.leb v hi.

Definition convert_process (c : ProcessColumns) : StoreResult (option StoredProcessIdentity) :=
  match pid c, process_group_id c, process_uid c, process_start_token c with
  | Some p, Some g, Some u, Some token =>
      if negb (in_range 0 u32_max p) then Err (InvalidState "stored pid is invalid")
      else if negb (in_range (-2147483648) 2147483647 g)
      then Err (InvalidState "stored process group is invalid")
      else if negb (in_range 0 u32_max u) then Err (InvalidState "stored uid is invalid")
      else Ok (Some (mk_identity p g u token))
  | None, None, None, None => Ok None
  | _, _, _, _ => Err (InvalidState "stored process identity is incomplete")
  end.

Definition convert_task_row (r : TaskRow) : StoreResult TaskRecord :=
  process_identity ← convert_process (process r);
  epoch ← i64_to_u64 (owner_epoch r);
  last_seq ← i64_to_u64 (last_event_seq r);
  Ok (mk_task_record (spec r) (phase r) (task_outcome r) (owner_id r) epoch
        (close_requested r) (stop_requested r) last_seq (failure_code r)
        (row_failure_message r) (runtime_agent_id r) (session_id r) (turn_state r)
        process_identity (closed_at r) (reaped_at r) (created_at r)).

Definition query_task_db (db : Db) (id : string) : StoreResult (option TaskRecord) :=
  match find_task id (tasks db) with
  | None => Ok None
  | Some r => record ← convert_task_row r; Ok (Some record)
  end.

Definition query_task (id : string) : Tx (option TaskRecord) := λ db,
  match query_task_db db id with Ok o => Ok (o, db) | Err e => Err e end.

(** The columns [query_guard] selects. *)
Record Guard := mk_guard {
  g_phase : TaskPhase;
  g_outcome : option TaskOutcome;
  g_epoch : Z;
  g_close : bool;
  g_stop : bool }.

Definition query_guard (id : string) : Tx Guard := λ db,
  match find_task id (tasks db) with
  | None => Err (InvalidState ("unknown task " +:+ id))
  | Some r =>
      match i64_to_u64 (owner_epoch r) with
      | Err e => Err e
      | Ok epoch =>
          Ok (mk_guard (phase r) (task_outcome r) epoch (close_requested r) (stop_requested r), db)
      end
  end.

(** ** Statements shared by several operations *)

Definition insert_ledger (now : Z) (id : string) (epoch : Z) (from : option TaskPhase)
    (to : TaskPhase) (o : option TaskOutcome) (reason : option string) : Tx unit :=
  e ← tx_lift (u64_to_i64 epoch);
  tx_put (with_ledger (λ l, l ++ [mk_ledger id e from to o reason now])).

Definition fail_live_message (reason : string) (m : MessageRow) : MessageRow :=
  mk_message (message_id m) (m_agent m) (m_mode m) (m_content m) MFailed (m_created_at m)
    (m_delivered_at m) (m_target_turn m) (Some reason) (Some "runtime is no longer available").

Definition settle_terminal_commands (id reason : string) : Tx unit :=
  _ ← update_messages (λ m, (m_agent m ≟ id) && live_message m) (fail_live_message reason);
  tx_put (with_pending (List.filter (λ p, negb ((p_agent p ≟ id) && live_pending p)))).

(** [COALESCE(a, b)] with a non-null default. *)
Definition coalesce {A} (a : option A) (b : A) : option A := Some (default b a).
