(* ===== verification/StoreOps.v ===== *)
(** * Operations of the task store

    [crates/external-store/src/tasks.rs], [lifecycle.rs], [messages.rs],
    [pending.rs], [results.rs] and [recovery.rs].  Every operation maps a database
    to its result and the database it leaves; [now] is the wall clock in
    milliseconds, read once per operation. *)

From stdpp Require Import pretty.
From S2P Require Import Prelude RustStr StoreRecords StoreSql.

(** ** Identity and submission ([tasks.rs]) *)

Definition reserve_task_id : Db → StoreResult string * Db :=
  immediate (
    next ← tx_get next_task_id;
    if negb (in_range 10000000 99999999 next) then tx_fail (Conflict "task id allocator exhausted")
    else _ ← tx_put (with_next_id (next + 1)%Z); mret (pretty next)).

Definition invalid_text (value : string) : bool :=
  trim_is_empty value || contains_char value (byte_of 0).

Fixpoint first_invalid (fields : list (string * string)) : option string :=
  match fields with
  | [] => None
  | (name, value) :: rest => if invalid_text value then Some name else first_invalid rest
  end.

Definition validate_task (task : NewTask) : StoreResult unit :=
  match first_invalid
          [("agent_id", task_id task); ("repository", task_repository task);
           ("workspace_path", workspace_path task);
           ("prepared_launch_json", prepared_launch_json task);
           ("initial_prompt", initial_prompt task)] with
  | Some name => Err (InvalidState (name +:+ " is invalid"))
  | None => Ok tt
  end.

(** The row [INSERT INTO tasks] creates, with the column defaults. *)
Definition new_row (task : NewTask) (now : Z) : TaskRow :=
  mk_task_row task now Queued None None TurnIdle no_process None None 0 None false false None
    None None 0 None None None None.

(** [SELECT agent_id FROM tasks WHERE workspace_path=? AND phase IN (...) ORDER BY
    created_at, rowid LIMIT 1]. *)
Definition workspace_occupant (P : TaskRow → bool) (path : string) (l : list TaskRow)
    : option TaskRow :=
  head (order_by created_at
    (List.filter (λ r, (row_workspace r ≟ path) && P r && occupying_phase (phase r)) l)).

Definition enqueue_task_authoritative (now : Z) (task : NewTask) (db : Db)
    : StoreResult TaskRecord * Db :=
  match validate_task task with
  | Err e => (Err e, db)
  | Ok _ =>
      immediate (
        existing ← query_task (task_id task);
        match existing with
        | Some _ => tx_fail (Conflict ("agent id " +:+ task_id task +:+ " already exists"))
        | None =>
            occupant ← tx_get (λ db, workspace_occupant (λ _, true) (workspace_path task) (tasks db));
            match occupant with
            | Some r => tx_fail (Conflict ("WORKSPACE_BUSY active_agent_id=" +:+ row_id r))
            | None =>
                _ ← tx_put (with_tasks (λ l, l ++ [new_row task now]));
                _ ← insert_ledger now (task_id task) 0 None Queued None None;
                stored ← query_task (task_id task);
                tx_lift (ok_or (InvalidState "inserted task disappeared") stored)
            end
        end) db
  end.

(** ** Claims ([tasks.rs]) *)

Definition active_in_repository (repository : string) (l : list TaskRow) : nat :=
  count_rows (λ r, (row_repository r ≟ repository) && active_phase (phase r)) l.

(** The [WHERE] clause of both claim queries. *)
Definition claimable (limit : Z) (l : list TaskRow) (r : TaskRow) : bool :=
  bool_decide (phase r = Queued) && negb (close_requested r) && negb (stop_requested r)
  && Z.ltb (Z.of_nat (active_in_repository (row_repository r) l)) limit.

Definition claim_row (owner : string) (now : Z) (r : TaskRow) : TaskRow :=
  set_last_heartbeat_at (Some now) (set_started_at (coalesce (started_at r) now)
    (set_owner_epoch (owner_epoch r + 1)%Z (set_owner_id (Some owner) (set_phase Preparing r)))).

Definition unclaimed (id : string) (r : TaskRow) : bool :=
  (row_id r ≟ id) && bool_decide (phase r = Queued) && negb (close_requested r)
  && negb (stop_requested r).

(** From the chosen candidate to the committed claim. *)
Definition claim_candidate (now : Z) (owner : string) (candidate : option TaskRow)
    : Tx (option TaskClaim) :=
  match candidate with
  | None => mret None
  | Some r =>
      let id := row_id r in
      changed ← update_tasks (unclaimed id) (claim_row owner now);
      if negb (Nat.eqb changed 1) then tx_fail (Conflict ("task " +:+ id +:+ " lost its queue claim"))
      else
        found ← query_task id;
        task ← tx_lift (ok_or (InvalidState "claimed task disappeared") found);
        _ ← insert_ledger now id (rec_owner_epoch task) (Some Queued) Preparing None (Some "CLAIMED");
        mret (Some (mk_claim task (rec_owner_epoch task)))
  end.

Definition claim_next (now : Z) (owner : string) (global_limit per_workspace_limit : Z) (db : Db)
    : StoreResult (option TaskClaim) * Db :=
  if Z.eqb per_workspace_limit 0 then (Ok None, db)
  else immediate (
    limit ← tx_lift (usize_to_i64 per_workspace_limit);
    candidate ← tx_get (λ db, head (order_by created_at
                  (List.filter (claimable limit (tasks db)) (tasks db))));
    claim_candidate now owner candidate) db.

Definition claim_specific (now : Z) (id owner : string) (per_workspace_limit : Z) (db : Db)
    : StoreResult (option TaskClaim) * Db :=
  if Z.eqb per_workspace_limit 0 then (Ok None, db)
  else immediate (
    limit ← tx_lift (usize_to_i64 per_workspace_limit);
    candidate ← tx_get (λ db, head
                  (List.filter (λ r, (row_id r ≟ id) && claimable limit (tasks db) r) (tasks db)));
    claim_candidate now owner candidate) db.

(** ** Starting and cancelling ([tasks.rs]) *)

Definition cancel_unstarted_if_still_fresh (now : Z) (id : string)
    : Db → StoreResult (TaskPhase * Z + TaskRecord) * Db :=
  immediate (
    found ← query_task id;
    task ← tx_lift (ok_or (InvalidState ("unknown task " +:+ id)) found);
    let is_fresh := negb (match rec_session_id task with Some _ => true | None => false end)
                    && phase_in [Queued; Preparing] (rec_phase task)
                    && negb (rec_stop_requested task) in
    if negb is_fresh then mret (inr task)
    else
      changed ← update_tasks
        (λ r, (row_id r ≟ id) && negb (match session_id r with Some _ => true | None => false end)
              && phase_in [Queued; Preparing] (phase r) && negb (stop_requested r))
        (λ r, set_stop_requested true (set_phase Cancelling r));
      if negb (Nat.eqb changed 1) then
        current ← query_task id;
        current ← tx_lift (ok_or (InvalidState ("task " +:+ id +:+ " disappeared")) current);
        mret (inr current)
      else
        _ ← settle_terminal_commands id "STOP_REQUESTED";
        _ ← insert_ledger now id (rec_owner_epoch task) (Some (rec_phase task)) Cancelling None
              (Some "STOP_REQUESTED");
        mret (inl (rec_phase task, rec_owner_epoch task))).

Definition coalesce_null {A} (a b : option A) : option A :=
  match a with Some _ => a | None => b end.

Definition running_row (now : Z) (runtime : string) (identity : option StoredProcessIdentity)
    (session : option string) (turn : option TurnState) (r : TaskRow) : TaskRow :=
  set_turn_state (default (turn_state r) turn)
    (set_session_id (coalesce_null session (session_id r))
      (set_last_heartbeat_at (Some now)
        (set_process (process_columns identity)
          (set_runtime_agent_id (Some runtime) (set_phase Running r))))).

Definition mark_session_running (now : Z) (id : string) (epoch : Z) (runtime : string)
    (identity : option StoredProcessIdentity) (session : option string) (turn : option TurnState)
    : Db → StoreResult bool * Db :=
  immediate (
    e ← tx_lift (u64_to_i64 epoch);
    changed ← update_tasks
      (λ r, (row_id r ≟ id) && Z.eqb (owner_epoch r) e && bool_decide (phase r = Preparing))
      (running_row now runtime identity session turn);
    if Nat.eqb changed 1 then
      _ ← insert_ledger now id epoch (Some Preparing) Running None (Some "RUNTIME_STARTED");
      mret true
    else mret false).

(** ** Terminal transitions ([lifecycle.rs]) *)

Definition effective_outcome (close stop : bool) (o : TaskOutcome) : TaskOutcome :=
  if (stop || close) && negb (bool_decide (o = Cancelled)) then Cancelled else o.

Definition failing (o : TaskOutcome) : bool :=
  match o with
  | Failed | RuntimeLost | ResultInvalid => true
  | Completed | Cancelled | TimedOut => false
  end.

Definition terminal_row (now : Z) (o : TaskOutcome) (code message : option string) (r : TaskRow)
    : TaskRow :=
  set_closed_at (if close_requested r then coalesce (closed_at r) now else closed_at r)
    (set_turn_state (if failing o then TurnFailed else TurnIdle)
      (set_row_failure_message message
        (set_failure_code code
          (set_completed_at (coalesce (completed_at r) now)
            (set_task_outcome (Some o) (set_phase Terminal r)))))).

Definition apply_terminal (now : Z) (id : string) (epoch : Z) (from : TaskPhase)
    (close stop : bool) (terminal : TerminalUpdate) : Tx TaskOutcome :=
  if bool_decide (from = Terminal) then tx_fail (Conflict "task is already terminal")
  else
    let o := effective_outcome close stop (tu_outcome terminal) in
    let message := if failing o then tu_failure_message terminal else None in
    e ← tx_lift (u64_to_i64 epoch);
    changed ← update_tasks
      (λ r, (row_id r ≟ id) && Z.eqb (owner_epoch r) e && negb (bool_decide (phase r = Terminal)))
      (terminal_row now o (tu_failure_code terminal) message);
    if negb (Nat.eqb changed 1) then tx_fail 
      (Conflict ("terminal transition lost for " +:+ id +:+ " epoch " +:+ pretty epoch))
    else
      _ ← settle_terminal_commands id (default "TASK_TERMINATED" (tu_failure_code terminal));
      _ ← insert_ledger now id epoch (Some from) Terminal (Some o) (tu_failure_code terminal);
      mret o.

Definition transition_terminal (now : Z) (id : string) (epoch : Z) (terminal : TerminalUpdate)
    (db : Db) : StoreResult TaskOutcome * Db :=
  after_commit (ok_or (InvalidState "terminal task is missing its outcome"))
    (immediate (
      g ← query_guard id;
      if bool_decide (g_phase g = Terminal) then mret (g_outcome g)
      else if negb (Z.eqb (g_epoch g) epoch)
      then tx_fail (Conflict ("owner epoch changed for " +:+ id))
      else o ← apply_terminal now id epoch (g_phase g) (g_close g) (g_stop g) terminal;
           mret (Some o)) db).

Definition fail_claim (now : Z) (id : string) (epoch : Z) (code message : string)
    : Db → StoreResult TaskOutcome * Db :=
  transition_terminal now id epoch (mk_terminal RuntimeLost (Some code) (Some message)).

(** ** Lifecycle records ([lifecycle.rs]) *)

Definition insert_event (e : EventRow) : Tx unit := λ db,
  if existsb (λ x, (ev_agent x ≟ ev_agent e) && (ev_runtime x ≟ ev_runtime e)
                   && (Z.eqb (ev_seq x) (ev_seq e) || Z.eqb (ev_source_seq x) (ev_source_seq e)))
       (events db)
  then Err (Sqlite UniqueConstraint)
  else Ok (tt, with_events (λ l, l ++ [e]) db).

Definition recorded_event (write : LifecycleWrite) (source : Z) (l : list EventRow)
    : option EventRow :=
  List.find (λ x, (ev_agent x ≟ w_agent write) && (ev_runtime x ≟ w_runtime write)
                  && Z.eqb (ev_source_seq x) source) l.

Definition event_row (seq now : Z) (turn : option TurnState) (r : TaskRow) : TaskRow :=
  set_turn_state (default (turn_state r) turn)
    (set_last_heartbeat_at (Some now) (set_last_event_seq seq r)).

Definition append_lifecycle (now : Z) (write : LifecycleWrite) (db : Db) : StoreResult Z * Db :=
  after_commit i64_to_u64 (immediate (
    source ← tx_lift (u64_to_i64 (w_source_sequence write));
    existing ← tx_get (λ db, recorded_event write source (events db));
    match existing with
    | Some x => mret (ev_seq x)
    | None =>
        g ← query_guard (w_agent write);
        if bool_decide (g_phase g = Terminal) || negb (Z.eqb (g_epoch g) (w_owner_epoch write))
        then tx_fail (Conflict ("late lifecycle record rejected for " +:+ w_agent write +:+ " epoch "
                             +:+ pretty (w_owner_epoch write)))
        else
          found ← tx_get (λ db, find_task (w_agent write) (tasks db));
          row ← tx_lift (ok_or (Sqlite QueryReturnedNoRows) found);
          let last_seq := last_event_seq row in
          if Z.leb i64_max last_seq then tx_fail (InvalidState "event sequence overflow")
          else
            let sequence := (last_seq + 1)%Z in
            _ ← insert_event (mk_event (w_agent write) (w_runtime write) sequence source now
                  (w_event_type write) (w_turn_id write) (w_payload write) (w_redaction write));
            _ ← update_tasks (λ r, row_id r ≟ w_agent write)
                  (event_row sequence now (w_turn_state write));
            match w_terminal write with
            | Some terminal =>
                _ ← apply_terminal now (w_agent write) (w_owner_epoch write) (g_phase g)
                      (g_close g) (g_stop g) terminal;
                mret sequence
            | None => mret sequence
            end
    end) db).

(** ** Stop and close ([lifecycle.rs]) *)

Definition stop_row (now : Z) (next : TaskPhase) (close intent : bool) (r : TaskRow) : TaskRow :=
  set_closed_at (if close then coalesce (closed_at r) now else closed_at r)
    (set_stop_requested (if intent then true else stop_requested r)
      (set_close_requested (if close then true else close_requested r) (set_phase next r))).

Definition request_stop_internal (now : Z) (id : string) (close intent : bool)
    : Db → StoreResult ControlDecision * Db :=
  immediate (
    g ← query_guard id;
    let next := if bool_decide (g_phase g = Terminal) then g_phase g else Cancelling in
    _ ← update_tasks (λ r, row_id r ≟ id) (stop_row now next close intent);
    _ ← (if negb (bool_decide (g_phase g = Terminal)) then
           _ ← settle_terminal_commands id "STOP_REQUESTED";
           if negb (bool_decide (g_phase g = next)) then
             insert_ledger now id (g_epoch g) (Some (g_phase g)) next None
               (Some (if close then "CLOSE_REQUESTED" else "STOP_REQUESTED"))
           else mret tt
         else mret tt);
    mret (mk_control next (g_outcome g) (g_epoch g) (active_phase (g_phase g))
            (g_close g || g_stop g))).

Definition request_close (now : Z) (id : string) := request_stop_internal now id true true.
Definition request_stop (now : Z) (id : string) := request_stop_internal now id false true.
Definition request_runtime_stop (now : Z) (id : string) := request_stop_internal now id false false.

(** ** Resume, reap, restore ([lifecycle.rs]) *)

Definition valid_mode (mode : string) : bool := one_of mode ["queue"; "steer"].

Definition is_some {A} (o : option A) : bool := match o with Some _ => true | None => false end.

Definition requeued_row (r : TaskRow) : TaskRow :=
  set_runtime_agent_id None (set_process no_process (set_turn_state TurnIdle
    (set_last_event_seq 0 (set_completed_at None (set_reaped_at None (set_closed_at None
      (set_row_failure_message None (set_failure_code None (set_stop_requested false
        (set_close_requested false (set_lease_expires_at None (set_owner_id None
          (set_task_outcome None (set_phase Queued r)))))))))))))).

(** The durable reasons to refuse a resume without an error. *)
Definition resume_refused (r : TaskRow) : bool :=
  bool_decide (task_outcome r = Some Cancelled) || stop_requested r || close_requested r
  || is_some (closed_at r)
  || (is_some (pid (process r)) && negb (is_some (reaped_at r))).

Definition queued_message (now : Z) (mid id mode content : string) : MessageRow :=
  mk_message mid id mode content MQueued now None None None None.

(** [INSERT INTO messages]: the primary key is checked. *)
Definition insert_message_row (m : MessageRow) : Tx unit := λ db,
  if is_some (find_message (message_id m) (messages db)) then Err (Sqlite UniqueConstraint)
  else Ok (tt, with_messages (λ l, l ++ [m]) db).

(** The requeue itself, once the resume is admitted. *)
Definition requeue (now : Z) (id mid mode content : string) (epoch : Z) : Tx bool :=
  _ ← tx_put (with_results (List.filter (λ x, negb (r_agent x ≟ id))));
  changed ← update_tasks (λ x, (row_id x ≟ id) && bool_decide (phase x = Terminal)) requeued_row;
  if negb (Nat.eqb changed 1) then tx_fail (Conflict ("task " +:+ id +:+ " changed before resume"))
  else
    epoch ← tx_lift (i64_to_u64 epoch);
    _ ← insert_ledger now id epoch (Some Terminal) Queued None (Some "RESUME_REQUESTED");
    _ ← insert_message_row (queued_message now mid id mode content);
    mret true.

Definition requeue_task_for_resume_with_message (now : Z) (id mid mode content : string) (db : Db)
    : StoreResult bool * Db :=
  if negb (valid_mode mode) then (Err (InvalidState "message mode must be queue or steer"), db)
  else immediate (
    found ← tx_get (λ db, find_task id (tasks db));
    r ← tx_lift (ok_or (Sqlite QueryReturnedNoRows) found);
    if negb (bool_decide (phase r = Terminal))
    then tx_fail (Conflict ("task " +:+ id +:+ " is not terminal"))
    else if negb (is_some (session_id r))
    then tx_fail (InvalidState "task has no persisted session id to resume")
    else if resume_refused r then mret false
    else
      occupant ← tx_get (λ db, workspace_occupant (λ x, negb (row_id x ≟ id)) (row_workspace r)
                                 (tasks db));
      match occupant with
      | Some x => tx_fail (Conflict ("WORKSPACE_BUSY active_agent_id=" +:+ row_id x))
      | None =>
          existing ← tx_get (λ db, find_message mid (messages db));
          if is_some existing
          then tx_fail (Conflict ("message " +:+ mid +:+ " already exists"))
          else requeue now id mid mode content (owner_epoch r)
      end) db.

Definition reaped_row (now : Z) (r : TaskRow) : TaskRow :=
  set_reaped_at (coalesce (reaped_at r) now) (set_lease_expires_at None (set_owner_id None r)).

Definition reap_task (now : Z) (id : string) (db : Db) : StoreResult TaskOutcome * Db :=
  after_commit (ok_or (InvalidState "terminal task has no outcome"))
    (immediate (
      g ← query_guard id;
      if negb (bool_decide (g_phase g = Terminal))
      then tx_fail (InvalidState ("cannot reap nonterminal task " +:+ id))
      else _ ← update_tasks (λ r, row_id r ≟ id) (reaped_row now);
           mret (g_outcome g)) db).

(** ** Messages ([messages.rs]) *)

Definition accepting (g : Guard) : bool :=
  phase_in [Running; WaitingInput] (g_phase g) && negb (g_close g) && negb (g_stop g).

Definition insert_message (now : Z) (mid id mode content : string) (db : Db)
    : StoreResult bool * Db :=
  if negb (valid_mode mode) then (Err (InvalidState "message mode must be queue or steer"), db)
  else immediate (
    g ← query_guard id;
    if bool_decide (g_phase g = Terminal) || g_close g || g_stop g
    then tx_fail (Conflict "terminal or stopping task cannot accept messages")
    else
      existing ← tx_get (λ db, find_message mid (messages db));
      match existing with
      | None => _ ← insert_message_row (queued_message now mid id mode content); mret true
      | Some m =>
          if negb (m_agent m ≟ id) || negb (m_mode m ≟ mode) || negb (m_content m ≟ content)
          then tx_fail (Conflict "message id is already bound to different content")
          else mret false
      end) db.

Definition set_message_state (s : MessageState) (m : MessageRow) : MessageRow :=
  mk_message (message_id m) (m_agent m) (m_mode m) (m_content m) s (m_created_at m)
    (m_delivered_at m) (m_target_turn m) (m_failure_code m) (m_failure_message m).

(** [CASE mode WHEN 'steer' THEN 0 ELSE 1 END]. *)
Definition mode_rank (m : MessageRow) : Z := if m_mode m ≟ "steer" then 0 else 1.

(** [ORDER BY rank, created_at, rowid]: two stable sorts, the major key last. *)
Definition message_order (l : list MessageRow) : list MessageRow :=
  order_by mode_rank (order_by m_created_at l).

Definition queued_for (id : string) (m : MessageRow) : bool :=
  (m_agent m ≟ id) && bool_decide (m_state m = MQueued).

Definition claim_next_message (id : string) : Db → StoreResult (option MessageRow) * Db :=
  immediate (
    g ← query_guard id;
    if negb (accepting g) then mret None
    else
      next ← tx_get (λ db, head (message_order (List.filter (queued_for id) (messages db))));
      match next with
      | None => mret None
      | Some m =>
          _ ← update_messages
                (λ x, (message_id x ≟ message_id m) && bool_decide (m_state x = MQueued))
                (set_message_state MSending);
          tx_get (λ db, find_message (message_id m) (messages db))
      end).

Definition complete_message (now : Z) (mid : string) (turn : option string)
    : Db → StoreResult bool * Db :=
  immediate (
    changed ← update_messages (λ m, (message_id m ≟ mid) && bool_decide (m_state m = MSending))
      (λ m, mk_message (message_id m) (m_agent m) (m_mode m) (m_content m) MDelivered
              (m_created_at m) (Some now) turn (m_failure_code m) (m_failure_message m));
    mret (Nat.eqb changed 1)).

Definition fail_message (mid code text : string) : Db → StoreResult bool * Db :=
  immediate (
    changed ← update_messages (λ m, (message_id m ≟ mid) && live_message m)
      (λ m, mk_message (message_id m) (m_agent m) (m_mode m) (m_content m) MFailed
              (m_created_at m) (m_delivered_at m) (m_target_turn m) (Some code) (Some text));
    mret (Nat.eqb changed 1)).

(** ** Pending requests ([pending.rs]) *)

Definition fresh_pending (now : Z) (rid id correlation kind payload : string) : PendingRow :=
  mk_pending rid id correlation kind payload PPending now None None None.

(** The rows [INSERT OR IGNORE] finds in the way: same key, or same agent and
    correlation id. *)
Definition pending_clash (rid id correlation : string) (p : PendingRow) : bool :=
  (request_id p ≟ rid) || ((p_agent p ≟ id) && (p_correlation p ≟ correlation)).

Definition insert_pending_request (now : Z) (rid id correlation kind payload : string)
    : Db → StoreResult bool * Db :=
  immediate (
    g ← query_guard id;
    if negb (accepting g)
    then tx_fail (Conflict "task cannot publish a pending request in its current phase")
    else
      clash ← tx_get (λ db, existsb (pending_clash rid id correlation) (pending_requests db));
      if (clash : bool) then
        found ← tx_get (λ db, find_pending rid (pending_requests db));
        p ← tx_lift (ok_or (InvalidState "pending request idempotency row disappeared") found);
        if negb (p_agent p ≟ id) || negb (p_correlation p ≟ correlation)
           || negb (p_type p ≟ kind) || negb (p_payload p ≟ payload)
        then tx_fail (Conflict "pending request identity has different content")
        else mret false
      else
        _ ← tx_put (with_pending (λ l, l ++ [fresh_pending now rid id correlation kind payload]));
        if bool_decide (g_phase g = Running) then
          _ ← update_tasks (λ r, (row_id r ≟ id) && bool_decide (phase r = Running))
                (set_phase WaitingInput);
          _ ← insert_ledger now id (g_epoch g) (Some Running) WaitingInput None
                (Some "INPUT_REQUESTED");
          mret true
        else mret true).

Definition pending_request (id rid : string) (db : Db) : option PendingRow :=
  match find_pending rid (pending_requests db) with
  | Some p => if p_agent p ≟ id then Some p else None
  | None => None
  end.

Definition live_for (id : string) (p : PendingRow) : bool := (p_agent p ≟ id) && live_pending p.

(** [LIMIT]: at most [limit] rows. *)
Definition sql_limit {A} (limit : Z) (rows : list A) : list A :=
  if Z.leb (Z.of_nat (length rows)) limit then rows else take (Z.to_nat limit) rows.

(** The ids in order, looked up again one by one. *)
Definition pending_requests_bounded (id : string) (limit : Z) (db : Db)
    : StoreResult (list PendingRow) :=
  limit ← usize_to_i64 limit;
  traverse (λ p, ok_or (InvalidState "pending request disappeared")
                   (find_pending (request_id p) (pending_requests db)))
    (sql_limit limit
       (order_by p_created_at (List.filter (live_for id) (pending_requests db)))).

Definition pending_requests_all (id : string) (db : Db) : StoreResult (list PendingRow) :=
  pending_requests_bounded id i64_max db.

Definition completion_blockers (id : string) (db : Db) : bool * bool :=
  (existsb (live_for id) (pending_requests db),
   existsb (λ m, (m_agent m ≟ id) && live_message m) (messages db)).

Definition set_pending (s : PendingRequestState) (responded : option Z)
    (decision content : option string) (p : PendingRow) : PendingRow :=
  mk_pending (request_id p) (p_agent p) (p_correlation p) (p_type p) (p_payload p) s
    (p_created_at p) responded decision content.

Definition claim_pending_response_if_accepting (id rid decision : string)
    (content : option string) : Db → StoreResult PendingResponseClaimDisposition * Db :=
  immediate (
    found ← tx_get (λ db, find_pending rid (pending_requests db));
    match found with
    | None => mret PendingNotFound
    | Some p =>
        if negb (p_agent p ≟ id) then mret PendingNotFound
        else if negb (bool_decide (p_state p = PPending)) then mret (NotPending (p_state p))
        else
          g ← query_guard id;
          if negb (accepting g) then mret TaskStopping
          else
            _ ← update_pending (λ x, (request_id x ≟ rid) && (p_agent x ≟ id)
                                     && bool_decide (p_state x = PPending))
                  (λ x, set_pending PSending (p_responded_at x) (Some decision) content x);
            mret Claimed
    end).

Definition complete_pending_response (now : Z) (id rid : string) : Db → StoreResult bool * Db :=
  immediate (
    changed ← update_pending (λ x, (request_id x ≟ rid) && (p_agent x ≟ id)
                                   && bool_decide (p_state x = PSending))
      (λ x, set_pending PResponded (Some now) (p_decision x) (p_content x) x);
    if Nat.eqb changed 1 then
      remaining ← tx_get (λ db, existsb (live_for id) (pending_requests db));
      g ← query_guard id;
      if negb remaining && bool_decide (g_phase g = WaitingInput) && negb (g_close g)
         && negb (g_stop g)
      then
        _ ← update_tasks (λ r, (row_id r ≟ id) && bool_decide (phase r = WaitingInput))
              (set_phase Running);
        _ ← insert_ledger now id (g_epoch g) (Some WaitingInput) Running None
              (Some "INPUT_RESOLVED");
        mret true
      else mret true
    else mret false).

Definition release_pending_response (id rid : string) : Db → StoreResult bool * Db :=
  immediate (
    changed ← update_pending (λ x, (request_id x ≟ rid) && (p_agent x ≟ id)
                                   && bool_decide (p_state x = PSending))
      (λ x, set_pending PPending (p_responded_at x) None None x);
    mret (Nat.eqb changed 1)).

(** ** Recovery ([recovery.rs]) *)

Definition fence_queued_cancellation : Db → StoreResult unit * Db :=
  immediate (
    _ ← update_tasks (λ r, bool_decide (phase r = Queued)) (set_stop_requested true);
    mret tt).

Definition nonterminal_task_ids (db : Db) : list string :=
  map row_id (order_by created_at
    (List.filter (λ r, negb (bool_decide (phase r = Terminal))) (tasks db))).

(** The selected ids, looked up again one by one. *)
Definition reload_tasks (message : string) (db : Db) (rows : list TaskRow)
    : StoreResult (list TaskRecord) :=
  traverse (λ r, o ← query_task_db db (row_id r); ok_or (InvalidState message) o) rows.

Definition needs_recovery (r : TaskRow) : bool :=
  active_phase (phase r)
  || (bool_decide (phase r = Queued) && stop_requested r)
  || (bool_decide (phase r = Terminal) && negb (is_some (reaped_at r))).

Definition startup_recovery_tasks (db : Db) : StoreResult (list TaskRecord) :=
  reload_tasks "startup recovery task disappeared" db
    (order_by created_at (List.filter needs_recovery (tasks db))).

Definition terminal_unreaped_tasks (db : Db) : StoreResult (list TaskRecord) :=
  reload_tasks "terminal task disappeared" db
    (order_by created_at (List.filter
       (λ r, bool_decide (phase r = Terminal) && negb (is_some (reaped_at r))) (tasks db))).

Definition active_count (db : Db) : nat := count_rows (λ r, active_phase (phase r)) (tasks db).

Definition all_tasks_reaped (db : Db) : bool :=
  Nat.eqb (count_rows (λ r, negb (bool_decide (phase r = Terminal)) || negb (is_some (reaped_at r)))
             (tasks db)) 0.

(** ** Listing ([tasks.rs]) *)

Definition get_task (id : string) (db : Db) : StoreResult (option TaskRecord) :=
  query_task_db db id.

Definition null_or {A} (P : A → bool) (o : option A) : bool :=
  match o with None => true | Some a => P a end.

Definition scope_required : StoreError :=
  InvalidState "repository or group task scope is required".

Definition get_task_scoped (id : string) (repository : option string) (db : Db)
    : StoreResult (option TaskRecord) :=
  match repository with
  | None => Err scope_required
  | Some repository =>
      match List.find (λ r, (row_id r ≟ id) && (row_repository r ≟ repository)) (tasks db) with
      | None => Ok None
      | Some r => query_task_db db (row_id r)
      end
  end.

(** Rows with their rowids. *)
Definition numbered {A} (l : list A) : list (Z * A) := imap (λ i a, (Z.of_nat i + 1, a)%Z) l.

Section listing.
(** [json_extract(prepared_launch_json, '$.admission.agent')] guarded by
    [json_valid]: SQLite's JSON functions. *)
Context (admission_agent : string → option string).

Definition page_row (repository : string) (filter : TaskPageFilter) (cursor : option Z)
    (x : Z * TaskRow) : bool :=
  let '(rowid, r) := x in
  (row_repository r ≟ repository)
  && null_or (λ p, bool_decide (phase r = p)) (filter_phase filter)
  && null_or (λ o, bool_decide (task_outcome r = Some o)) (filter_outcome filter)
  && null_or (λ c, Z.ltb rowid c) cursor
  && null_or (λ a, bool_decide (admission_agent (prepared_launch_json (spec r)) = Some a))
       (filter_agent filter).

Definition list_task_page (repository : option string) (filter : TaskPageFilter)
    (cursor : option Z) (limit : Z) (db : Db) : StoreResult TaskPage :=
  match repository with
  | None => Err scope_required
  | Some repository =>
      if Z.eqb limit 0 then Err (InvalidState "task page limit must be positive")
      else
        cursor ← match cursor with
                 | None => Ok None
                 | Some c => c ← u64_to_i64 c; Ok (Some c)
                 end;
        fetch ← usize_to_i64 (Z.min u64_max (limit + 1));
        let rows := sql_limit fetch
          (rev (List.filter (page_row repository filter cursor) (numbered (tasks db)))) in
        let has_more := Z.ltb limit (Z.of_nat (length rows)) in
        let selected := sql_limit limit rows in
        next ← match (if has_more then last selected else None) with
               | None => Ok None
               | Some (rowid, _) => c ← i64_to_u64 rowid; Ok (Some c)
               end;
        records ← reload_tasks "listed task disappeared" db (map snd selected);
        Ok (mk_page records next)
  end.
End listing.

(** [ORDER BY created_at, agent_id]. *)
Fixpoint insert_by_id (x : TaskRow) (l : list TaskRow) : list TaskRow :=
  match l with
  | [] => [x]
  | y :: l' =>
      if String.leb (row_id x) (row_id y) then x :: y :: l' else y :: insert_by_id x l'
  end.

Definition window_row (query : TaskWindowQuery) (r : TaskRow) : bool :=
  null_or (λ a, row_id r ≟ a) (win_agent query)
  && null_or (λ w, row_workspace r ≟ w) (win_workspace query)
  && null_or (λ s, Z.leb s (created_at r)) (win_start query)
  && null_or (λ e, match completed_at r with Some c => Z.leb c e | None => false end)
       (win_end query).

Definition list_task_window (query : TaskWindowQuery) (db : Db) : StoreResult (list TaskRecord) :=
  if negb (is_some (win_agent query)) && negb (is_some (win_workspace query))
  then Err (InvalidState "agent_id or workspace_path query scope is required")
  else if match win_start query, win_end query with
          | Some s, Some e => Z.ltb e s
          | _, _ => false
          end
  then Err (InvalidState "query start_ms must be less than or equal to end_ms")
  else reload_tasks "task disappeared during query" db
         (order_by created_at (fold_right insert_by_id []
            (List.filter (window_row query) (tasks db)))).

(** ** Results ([results.rs]) *)

Definition validate_result (result : TaskResult) : StoreResult unit :=
  if trim_is_empty (final_text result) then Err (InvalidState "invalid task result")
  else if partial result && bool_decide (res_outcome result = Completed)
  then Err (InvalidState "partial result cannot be completed")
  else Ok tt.

Definition query_terminal_reason (id : string) (db : Db) : option string :=
  match last (List.filter (λ l, (l_agent l ≟ id) && bool_decide (l_to l = Terminal))
                (lifecycle_ledger db)) with
  | Some l => match l_reason l with
              | Some reason => if reason ≟ "task failed" then None else Some reason
              | None => None
              end
  | None => None
  end.

Definition terminal_reason_code (id : string) (db : Db) : option string :=
  query_terminal_reason id db.

Definition task_result (id : string) (db : Db) : option (TaskResult * string) :=
  match find_result id (task_results db) with
  | Some x => Some (r_result x, r_sha256 x)
  | None => None
  end.

Definition task_with_result (id : string) (db : Db)
    : StoreResult (option (TaskRecord * option (TaskResult * string) * option string)) :=
  task ← query_task_db db id;
  Ok (match task with
      | None => None
      | Some task => Some (task, task_result id db, query_terminal_reason id db)
      end).

Section results.
(** SHA-256 of the serde encoding of a result, in hexadecimal. *)
Context (task_result_digest : TaskResult → string).

(** [INSERT INTO task_results]: the primary key is checked. *)
Definition insert_result (now : Z) (id : string) (result : TaskResult) : Tx unit := λ db,
  if is_some (find_result id (task_results db)) then Err (Sqlite UniqueConstraint)
  else Ok (tt, with_results (λ l, l ++ [mk_result_row id result (task_result_digest result) now]) db).

(** The reason threaded to the terminal row. *)
Definition result_reason (reason : option string) (task : TaskRecord) (result : TaskResult)
    : option string :=
  match reason with
  | Some _ => reason
  | None =>
      match rec_failure_code task with
      | Some _ => rec_failure_code task
      | None => if bool_decide (res_outcome result = Completed) then None else Some "task failed"
      end
  end.

(** The checks before a result is inserted. *)
Definition check_result (id : string) (task : TaskRecord) (result : TaskResult) : Tx unit :=
  if bool_decide (rec_phase task = Terminal)
  then tx_fail (Conflict ("task " +:+ id +:+ " is terminal without this result"))
  else if negb (active_phase (rec_phase task))
  then tx_fail (Conflict ("task " +:+ id +:+ " cannot complete from Queued"))
  else
    blockers ← tx_get (completion_blockers id);
    if bool_decide (res_outcome result = Completed) && (fst blockers || snd blockers)
    then tx_fail (Conflict "task completion is blocked by pending input or queued messages")
    else if (rec_stop_requested task || rec_close_requested task)
            && negb (bool_decide (res_outcome result = Cancelled))
    then tx_fail (Conflict "cancellation or close intent wins over late result")
    else mret tt.

Definition store_task_result_with_reason (now : Z) (id : string) (result : TaskResult)
    (reason failure_message : option string) (db : Db) : StoreResult unit * Db :=
  match validate_result result with
  | Err e => (Err e, db)
  | Ok _ =>
      immediate (
        found ← query_task id;
        task ← tx_lift (ok_or (InvalidState ("unknown task " +:+ id)) found);
        existing ← tx_get (λ db, find_result id (task_results db));
        match existing with
        | Some x =>
            if r_sha256 x ≟ task_result_digest result then mret tt
            else tx_fail (Conflict ("task " +:+ id +:+ " already has a different immutable result"))
        | None =>
            _ ← check_result id task result;
            _ ← insert_result now id result;
            _ ← apply_terminal now id (rec_owner_epoch task) (rec_phase task)
                  (rec_close_requested task) (rec_stop_requested task)
                  (mk_terminal (res_outcome result) (result_reason reason task result)
                     failure_message);
            mret tt
        end) db
  end.

Definition store_task_result (now : Z) (id : string) (result : TaskResult)
    : Db → StoreResult unit * Db :=
  store_task_result_with_reason now id result None None.

(** ** Undoing a resume ([lifecycle.rs]) *)

Definition restored_row (original : TaskRecord) (last_seq : Z) (r : TaskRow) : TaskRow :=
  set_last_event_seq last_seq (set_reaped_at (rec_reaped_at original)
    (set_closed_at (rec_closed_at original)
      (set_process (process_columns (rec_process_identity original))
        (set_turn_state (rec_turn_state original) (set_session_id (rec_session_id original)
          (set_runtime_agent_id (rec_runtime_agent_id original)
            (set_row_failure_message (rec_failure_message original)
              (set_failure_code (rec_failure_code original)
                (set_stop_requested (rec_stop_requested original)
                  (set_close_requested (rec_close_requested original)
                    (set_lease_expires_at None (set_owner_id (rec_owner_id original)
                      (set_task_outcome (rec_outcome original)
                        (set_phase Terminal r)))))))))))))).

Definition restore_terminal_after_resume_failure (now : Z) (original : TaskRecord)
    (result : option TaskResult) : Db → StoreResult unit * Db :=
  immediate (
    let id := task_id (rec_spec original) in
    last_seq ← tx_lift (u64_to_i64 (rec_last_event_seq original));
    _ ← update_tasks (λ r, row_id r ≟ id) (restored_row original last_seq);
    match result with
    | None => mret tt
    | Some result =>
        _ ← tx_put (with_results (List.filter (λ x, negb (r_agent x ≟ id))));
        insert_result now id result
    end).

End results.
