(* ===== verification/StoreView.v ===== *)
(** * The per-task view of the store

    The slice of the database that belongs to one task, the abstract transition
    system [view_step] on such slices, and the proof that every mutating operation
    of the store acts on each task's slice as (a sequence of) such transitions:
    the refinement on which the invariants and temporal properties rest. *)

From stdpp Require Import relations.
From S2P Require Import Prelude RustStr StoreRecords StoreSql StoreOps.

(** ** Views *)

Record View := mk_view {
  v_row : option TaskRow;
  v_msgs : list MessageRow;
  v_pend : list PendingRow;
  v_res : list ResultRow;
  v_led : list LedgerRow }.

Definition view (db : Db) (id : string) : View :=
  mk_view (find_task id (tasks db))
    (List.filter (λ m, m_agent m ≟ id) (messages db))
    (List.filter (λ p, p_agent p ≟ id) (pending_requests db))
    (List.filter (λ x, r_agent x ≟ id) (task_results db))
    (List.filter (λ l, l_agent l ≟ id) (lifecycle_ledger db)).

(** ** Transaction inversion *)

Lemma tx_bind_ok {A B} (m : Tx A) (f : A → Tx B) db b db' :
  (m ≫= f) db = Ok (b, db') ↔ ∃ a db1, m db = Ok (a, db1) ∧ f a db1 = Ok (b, db').
Proof.
  unfold mbind, tx_bind. destruct (m db) as [[a db1]|e]; split; [eauto| |done|].
  - by intros (? & ? & [= <- <-] & ?).
  - by intros (? & ? & ? & ?).
Qed.

Lemma tx_get_ok {A} (f : Db → A) db a db' : tx_get f db = Ok (a, db') ↔ a = f db ∧ db' = db.
Proof. unfold tx_get. split; [by intros [= <- <-] | by intros [-> ->]]. Qed.

Lemma tx_put_ok f db u db' : tx_put f db = Ok (u, db') ↔ db' = f db.
Proof. unfold tx_put. destruct u. split; [by intros [= <-] | by intros ->]. Qed.

Lemma tx_ret_ok {A} (a : A) db b db' : (mret a : Tx A) db = Ok (b, db') ↔ b = a ∧ db' = db.
Proof. unfold mret, tx_ret. split; [by intros [= <- <-] | by intros [-> ->]]. Qed.

Lemma tx_lift_ok {A} (r : StoreResult A) db a db' :
  tx_lift r db = Ok (a, db') ↔ r = Ok a ∧ db' = db.
Proof. unfold tx_lift. destruct r; split; try done; [by intros [= <- <-] | by intros [[= ->] ->] | by intros []]. Qed.

Lemma tx_fail_ok {A} e db (a : A) db' : tx_fail e db = Ok (a, db') ↔ False.
Proof. done. Qed.

Lemma update_tasks_ok P f db n db' :
  update_tasks P f db = Ok (n, db') →
  n = count_rows P (tasks db) ∧ db' = with_tasks (update_rows P f) db
  ∧ forallb row_check (update_rows P f (tasks db)) = true.
Proof. unfold update_tasks. destruct (forallb _ _) eqn:E; [|done]. by intros [= <- <-]. Qed.

Lemma query_task_ok id db o db' :
  query_task id db = Ok (o, db') → query_task_db db id = Ok o ∧ db' = db.
Proof. unfold query_task. destruct (query_task_db db id); [|done]. by intros [= <- <-]. Qed.

Lemma u64_to_i64_ok v w : u64_to_i64 v = Ok w → w = v ∧ (v ≤ i64_max)%Z.
Proof. unfold u64_to_i64. destruct (Z.leb_spec v i64_max); [|done]. by intros [= <-]. Qed.

Lemma i64_to_u64_ok v w : i64_to_u64 v = Ok w → w = v ∧ (0 ≤ v)%Z.
Proof. unfold i64_to_u64. destruct (Z.leb_spec 0 v); [|done]. by intros [= <-]. Qed.

Lemma query_guard_ok id db g db' :
  query_guard id db = Ok (g, db') →
  db' = db ∧ ∃ r, find_task id (tasks db) = Some r
    ∧ g = mk_guard (phase r) (task_outcome r) (owner_epoch r) (close_requested r) (stop_requested r)
    ∧ (0 ≤ owner_epoch r)%Z.
Proof.
  unfold query_guard. destruct (find_task id (tasks db)) as [r|]; [|done].
  destruct (i64_to_u64 (owner_epoch r)) as [e|] eqn:E; [|done].
  apply i64_to_u64_ok in E as [-> ?]. intros [= <- <-]. eauto.
Qed.

Lemma query_task_db_some db id t :
  query_task_db db id = Ok (Some t) →
  ∃ r, find_task id (tasks db) = Some r ∧ rec_phase t = phase r ∧ rec_owner_epoch t = owner_epoch r
    ∧ rec_close_requested t = close_requested r ∧ rec_stop_requested t = stop_requested r
    ∧ rec_session_id t = session_id r ∧ rec_outcome t = task_outcome r ∧ rec_spec t = spec r
    ∧ rec_failure_code t = failure_code r ∧ (0 ≤ owner_epoch r)%Z.
Proof.
  unfold query_task_db. destruct (find_task id (tasks db)) as [r|]; [|done].
  intros (t' & (p & _ & (e & [-> ?]%i64_to_u64_ok & (s & _ & [= <-])%result_bind_ok)%result_bind_ok)
    %result_bind_ok & [= <-])%result_bind_ok. exists r. by split_and!.
Qed.

Lemma query_task_db_none db id :
  query_task_db db id = Ok None → find_task id (tasks db) = None.
Proof.
  unfold query_task_db. destruct (find_task id (tasks db)) as [r|]; [|done].
  by destruct (convert_task_row r).
Qed.

Lemma insert_ledger_ok now id epoch from to o reason db u db' :
  insert_ledger now id epoch from to o reason db = Ok (u, db') →
  db' = with_ledger (λ l, l ++ [mk_ledger id epoch from to o reason now]) db.
Proof. by intros (e & db1 & [[-> _]%u64_to_i64_ok ->]%tx_lift_ok & ->%tx_put_ok)%tx_bind_ok. Qed.

Definition settle_messages (id reason : string) : list MessageRow → list MessageRow :=
  update_rows (λ m, (m_agent m ≟ id) && live_message m) (fail_live_message reason).
Definition settle_pending (id : string) : list PendingRow → list PendingRow :=
  List.filter (λ p, negb ((p_agent p ≟ id) && live_pending p)).

Lemma settle_ok id reason db u db' :
  settle_terminal_commands id reason db = Ok (u, db') →
  db' = with_pending (settle_pending id) (with_messages (settle_messages id reason) db).
Proof. by intros (n & db1 & [= <- <-] & ->%tx_put_ok)%tx_bind_ok. Qed.

(** ** Views under statements *)

(** Lookup by key, for every table. *)
Section keyed.
Context {A : Type} (key : A → string).

Lemma find_key_update P (f : A → A) id l :
  (∀ x, key (f x) = key x) →
  List.find (λ x, key x ≟ id) (update_rows P f l)
  = (λ x, if P x then f x else x) <$> List.find (λ x, key x ≟ id) l.
Proof.
  intros Hf. induction l as [|r l IH]; simpl; [done|].
  assert (key (if P r then f r else r) = key r) as -> by (destruct (P r); done).
  destruct (key r ≟ id); [done | exact IH].
Qed.

Lemma find_key_some id l x :
  List.find (λ x, key x ≟ id) l = Some x → key x = id ∧ x ∈ l.
Proof.
  intros [H1 H2]%find_some. split; [by apply String.eqb_eq | by apply list_elem_of_In].
Qed.

Lemma find_key_in id l x :
  NoDup (key <$> l) → x ∈ l → key x = id → List.find (λ x, key x ≟ id) l = Some x.
Proof.
  intros Hnd Hin <-. induction l as [|y l IH]; [by apply elem_of_nil in Hin|].
  simpl in *. apply NoDup_cons in Hnd as [Hx Hnd].
  destruct (String.eqb_spec (key y) (key x)) as [E|Hne].
  - apply elem_of_cons in Hin as [->|Hin]; [done|]. exfalso. apply Hx. rewrite E.
    by apply list_elem_of_fmap_2.
  - apply elem_of_cons in Hin as [->|Hin]; [done | by apply IH].
Qed.
End keyed.

Lemma find_update_rows P f id l :
  (∀ r, row_id (f r) = row_id r) →
  find_task id (update_rows P f l) = (λ r, if P r then f r else r) <$> find_task id l.
Proof. apply find_key_update. Qed.

Lemma find_task_id id l r : find_task id l = Some r → row_id r = id ∧ r ∈ l.
Proof. apply find_key_some. Qed.

Lemma find_task_in id l r :
  NoDup (row_id <$> l) → r ∈ l → row_id r = id → find_task id l = Some r.
Proof. apply find_key_in. Qed.

Lemma count_rows_pos {A} (P : A → bool) l n :
  count_rows P l = S n → ∃ x, x ∈ l ∧ P x = true.
Proof.
  unfold count_rows. destruct (List.filter P l) as [|x l'] eqn:E; [done|]. intros _.
  exists x. assert (In x (List.filter P l)) as Hin by (rewrite E; by left).
  apply filter_In in Hin as [? ?]. split; [by apply list_elem_of_In | done].
Qed.

(** A statement that changed a row of task [id] changed the row [find] returns. *)
Lemma changed_task P id l n :
  NoDup (row_id <$> l) → (∀ r, P r = true → row_id r = id) → count_rows P l = S n →
  ∃ r, find_task id l = Some r ∧ P r = true.
Proof.
  intros Hnd HP (r & Hin & Hr)%count_rows_pos. exists r. split; [|done].
  apply find_task_in; auto.
Qed.

Lemma filter_update_rows {A} (Q P : A → bool) f l :
  (∀ x, Q (f x) = Q x) →
  List.filter Q (update_rows P f l) = update_rows P f (List.filter Q l).
Proof.
  intros HQ. induction l as [|x l IH]; simpl; [done|].
  assert (Q (if P x then f x else x) = Q x) as -> by (destruct (P x); auto).
  destruct (Q x); simpl; by rewrite IH.
Qed.

Lemma filter_filter_comm {A} (P Q : A → bool) l :
  List.filter P (List.filter Q l) = List.filter Q (List.filter P l).
Proof.
  induction l as [|x l IH]; simpl; [done|].
  destruct (Q x) eqn:EQ, (P x) eqn:EP; simpl; rewrite ?EQ, ?EP, IH; done.
Qed.

Lemma update_rows_id {A} (P : A → bool) f l :
  (∀ x, x ∈ l → P x = false) → update_rows P f l = l.
Proof.
  induction l as [|x l IH]; intros H; simpl; [done|].
  rewrite H by set_solver. rewrite IH; [done|]. intros y Hy. apply H. set_solver.
Qed.

Lemma filter_all {A} (P : A → bool) l : (∀ x, x ∈ l → P x = true) → List.filter P l = l.
Proof.
  induction l as [|x l IH]; intros H; simpl; [done|].
  rewrite H by set_solver. rewrite IH; [done|]. intros y Hy. apply H. set_solver.
Qed.

Lemma in_filter {A} (P : A → bool) l x : x ∈ List.filter P l ↔ x ∈ l ∧ P x = true.
Proof. rewrite !list_elem_of_In. apply filter_In. Qed.

Lemma eqb_ne_false a b : a ≠ b → (a ≟ b) = false.
Proof. by rewrite String.eqb_neq. Qed.

#[export] Hint Rewrite @tx_bind_ok @tx_get_ok tx_put_ok @tx_ret_ok @tx_lift_ok @tx_fail_ok : store.

(** ** The abstract task machine *)

Definition any_live_message (v : View) : bool := existsb live_message (v_msgs v).
Definition any_live_pending (v : View) : bool := existsb live_pending (v_pend v).

Definition put_row (r : TaskRow) (v : View) : View :=
  mk_view (Some r) (v_msgs v) (v_pend v) (v_res v) (v_led v).
Definition put_msgs (l : list MessageRow) (v : View) : View :=
  mk_view (v_row v) l (v_pend v) (v_res v) (v_led v).
Definition put_pend (l : list PendingRow) (v : View) : View :=
  mk_view (v_row v) (v_msgs v) l (v_res v) (v_led v).
Definition put_res (l : list ResultRow) (v : View) : View :=
  mk_view (v_row v) (v_msgs v) (v_pend v) l (v_led v).
Definition log (x : LedgerRow) (v : View) : View :=
  mk_view (v_row v) (v_msgs v) (v_pend v) (v_res v) (v_led v ++ [x]).

(** Stopping or ending a task fails its undelivered messages and drops its open
    requests. *)
Definition settle (reason : string) (v : View) : View :=
  mk_view (v_row v) (update_rows live_message (fail_live_message reason) (v_msgs v))
    (List.filter (λ p, negb (live_pending p)) (v_pend v)) (v_res v) (v_led v).

Definition flagged (r : TaskRow) : bool := stop_requested r || close_requested r.

Inductive view_step (id : string) : View → View → Prop :=
| vs_enqueue now task v :
    v_row v = None → task_id task = id →
    view_step id v (log (mk_ledger id 0 None Queued None None now) (put_row (new_row task now) v))
| vs_claim now owner r v :
    v_row v = Some r → phase r = Queued → flagged r = false →
    view_step id v (log (mk_ledger id (owner_epoch r + 1) (Some Queued) Preparing None
                           (Some "CLAIMED") now)
                      (put_row (claim_row owner now r) v))
| vs_run now runtime identity session turn r v :
    v_row v = Some r → phase r = Preparing →
    view_step id v (log (mk_ledger id (owner_epoch r) (Some Preparing) Running None
                           (Some "RUNTIME_STARTED") now)
                      (put_row (running_row now runtime identity session turn r) v))
| vs_stop_first now close intent reason r r' v :
    v_row v = Some r → phase r ≠ Terminal → phase r ≠ Cancelling →
    (r' = stop_row now Cancelling close intent r ∨ r' = set_stop_requested true (set_phase Cancelling r)) →
    view_step id v (log (mk_ledger id (owner_epoch r) (Some (phase r)) Cancelling None
                           (Some reason) now)
                      (settle "STOP_REQUESTED" (put_row r' v)))
| vs_stop_again now close intent r v :
    v_row v = Some r → phase r = Cancelling →
    view_step id v (settle "STOP_REQUESTED" (put_row (stop_row now Cancelling close intent r) v))
| vs_stop_terminal now close intent r v :
    v_row v = Some r → phase r = Terminal →
    view_step id v (put_row (stop_row now Terminal close intent r) v)
| vs_terminal now o code message res r v :
    v_row v = Some r → phase r ≠ Terminal →
    (flagged r = true → o = Cancelled) → (failing o = false → message = None) →
    (res = v_res v ∨ (v_res v = [] ∧ ∃ x, res = [x] ∧ res_outcome (r_result x) = o)) →
    view_step id v (log (mk_ledger id (owner_epoch r) (Some (phase r)) Terminal (Some o) code now)
                      (settle (default "TASK_TERMINATED" code)
                         (put_res res (put_row (terminal_row now o code message r) v))))
| vs_event now turn r v :
    v_row v = Some r → phase r ≠ Terminal →
    view_step id v (put_row (event_row (last_event_seq r + 1) now turn r) v)
| vs_resume now m r v :
    v_row v = Some r → phase r = Terminal → resume_refused r = false → session_id r ≠ None →
    m_agent m = id →
    view_step id v (put_msgs (v_msgs v ++ [m])
                      (log (mk_ledger id (owner_epoch r) (Some Terminal) Queued None
                              (Some "RESUME_REQUESTED") now)
                         (put_row (requeued_row r) (put_res [] v))))
| vs_reap now r v :
    v_row v = Some r → phase r = Terminal → view_step id v (put_row (reaped_row now r) v)
| vs_fence r v :
    v_row v = Some r → phase r = Queued → view_step id v (put_row (set_stop_requested true r) v)
| vs_send m r v :
    v_row v = Some r → phase r ≠ Terminal → flagged r = false → m_agent m = id →
    view_step id v (put_msgs (v_msgs v ++ [m]) v)
| vs_messages msgs v :
    (existsb live_message msgs = true → any_live_message v = true) →
    (v_msgs v = [] → msgs = []) →
    view_step id v (put_msgs msgs v)
| vs_ask_first now p r v :
    v_row v = Some r → phase r = Running → live_pending p = true →
    view_step id v (log (mk_ledger id (owner_epoch r) (Some Running) WaitingInput None
                           (Some "INPUT_REQUESTED") now)
                      (put_row (set_phase WaitingInput r) (put_pend (v_pend v ++ [p]) v)))
| vs_ask_more p r v :
    v_row v = Some r → phase r = WaitingInput →
    view_step id v (put_pend (v_pend v ++ [p]) v)
| vs_requests pend v :
    existsb live_pending pend = any_live_pending v → (v_pend v = [] → pend = []) →
    view_step id v (put_pend pend v)
| vs_answered now pend r v :
    v_row v = Some r → phase r = WaitingInput → existsb live_pending pend = false →
    view_step id v (log (mk_ledger id (owner_epoch r) (Some WaitingInput) Running None
                           (Some "INPUT_RESOLVED") now)
                      (put_row (set_phase Running r) (put_pend pend v))).

(** ** The invariant of a task *)

(** The ledger of a task is a chain: it starts without a phase, and every entry
    starts from the phase the previous one reached. *)
Fixpoint ledger_chain (cur : option TaskPhase) (l : list LedgerRow) : option (option TaskPhase) :=
  match l with
  | [] => Some cur
  | x :: l' => if bool_decide (l_from x = cur) then ledger_chain (Some (l_to x)) l' else None
  end.

Definition flag_ok (r : TaskRow) : Prop :=
  (stop_requested r = true → phase r = Queued ∨ phase r = Cancelling ∨ phase r = Terminal)
  ∧ (close_requested r = true → phase r = Cancelling ∨ phase r = Terminal).

Record row_inv (id : string) (r : TaskRow) (v : View) : Prop := {
  ri_id : row_id r = id;
  ri_check : row_check r = true;
  ri_epoch : (0 ≤ owner_epoch r)%Z;
  ri_seq : (0 ≤ last_event_seq r)%Z;
  ri_flags : flag_ok r;
  ri_queued : phase r = Queued → process r = no_process;
  ri_pending : any_live_pending v = bool_decide (phase r = WaitingInput);
  ri_messages : phase r = Terminal → any_live_message v = false;
  ri_result : v_res v = [] ∨ ∃ x, v_res v = [x] ∧ phase r = Terminal
                                ∧ task_outcome r = Some (res_outcome (r_result x));
  ri_ledger : ledger_chain None (v_led v) = Some (Some (phase r)) }.

Definition local_inv (id : string) (v : View) : Prop :=
  match v_row v with
  | None => v_msgs v = [] ∧ v_pend v = [] ∧ v_res v = [] ∧ v_led v = []
  | Some r => row_inv id r v
  end.

Lemma ledger_chain_app cur l x p :
  ledger_chain cur l = Some p → l_from x = p → ledger_chain cur (l ++ [x]) = Some (Some (l_to x)).
Proof.
  revert cur. induction l as [|y l IH]; intros cur; simpl.
  - intros [= ->] ->. by rewrite bool_decide_eq_true_2.
  - case_bool_decide; [apply IH | done].
Qed.

Lemma settled_messages_dead reason l :
  existsb live_message (update_rows live_message (fail_live_message reason) l) = false.
Proof.
  induction l as [|m l IH]; simpl; [done|]. rewrite IH, orb_false_r.
  by destruct (live_message m) eqn:E.
Qed.

Lemma settled_pending_dead l :
  existsb live_pending (List.filter (λ p, negb (live_pending p)) l) = false.
Proof.
  apply existsb_false_iff. intros p [_ Hp]%in_filter. by apply negb_true_iff.
Qed.

Lemma row_check_live r : row_check r = true → phase r ≠ Terminal → task_outcome r = None.
Proof.
  unfold row_check, is_terminal. intros Hc Hp. rewrite bool_decide_eq_false_2 in Hc by done.
  by destruct (task_outcome r).
Qed.

Lemma row_check_set r p : row_check r = true → phase r ≠ Terminal → p ≠ Terminal →
  row_check (set_phase p r) = true.
Proof.
  intros Hc Hp Hp'. unfold row_check, is_terminal. simpl.
  rewrite (row_check_live r Hc Hp), bool_decide_eq_false_2 by done. done.
Qed.

(** Before the end of a task there is no result. *)
Lemma no_result_live id r v :
  row_inv id r v → phase r ≠ Terminal → v_res v = [].
Proof. intros Hi Hp. destruct (ri_result _ _ _ Hi) as [|(x & _ & ? & _)]; done. Qed.

Lemma any_live_app l p : existsb live_pending (l ++ [p]) = existsb live_pending l || live_pending p.
Proof. by rewrite existsb_app, orb_comm; simpl; rewrite orb_false_r, orb_comm. Qed.

(** Phases and flags of a row that keeps its outcome empty. *)
Lemma row_check_open r r' :
  row_check r = true → phase r ≠ Terminal → task_outcome r' = task_outcome r → phase r' ≠ Terminal →
  row_check r' = true.
Proof.
  intros Hc Hp Ho Hp'. unfold row_check, is_terminal.
  rewrite Ho, (row_check_live r Hc Hp), bool_decide_eq_false_2 by done. done.
Qed.

Lemma row_check_same r r' :
  row_check r = true → task_outcome r' = task_outcome r → phase r' = phase r → row_check r' = true.
Proof. unfold row_check. by intros ? -> ->. Qed.

(** A row can move to another open phase if its flags and requests agree. *)
Lemma row_inv_move id r v r' v' x :
  row_inv id r v → phase r ≠ Terminal → phase r' ≠ Terminal → phase r' ≠ Queued →
  row_id r' = row_id r → task_outcome r' = task_outcome r →
  (owner_epoch r ≤ owner_epoch r')%Z → last_event_seq r' = last_event_seq r → flag_ok r' →
  any_live_pending v' = bool_decide (phase r' = WaitingInput) →
  v_res v' = v_res v → v_led v' = v_led v ++ [x] → l_from x = Some (phase r) → l_to x = phase r' →
  row_inv id r' v'.
Proof.
  intros Hi Hp Hp' Hq Hid Ho He Hs Hf Hpe Hre Hle Hfrom Hto.
  pose proof (no_result_live _ _ _ Hi Hp) as Hnr. destruct Hi. constructor; try done.
  - congruence.
  - by eapply row_check_open.
  - lia.
  - lia.
  - left. congruence.
  - rewrite Hle, <- Hto. by eapply ledger_chain_app.
Qed.

(** A row can change other columns in the same phase. *)
Lemma row_inv_keep id r v r' v' :
  row_inv id r v → phase r' = phase r → row_id r' = row_id r → task_outcome r' = task_outcome r →
  process r' = process r → owner_epoch r' = owner_epoch r → (last_event_seq r ≤ last_event_seq r')%Z → flag_ok r' →
  any_live_pending v' = any_live_pending v →
  (phase r = Terminal → any_live_message v' = true → any_live_message v = true) →
  v_res v' = v_res v → v_led v' = v_led v → row_inv id r' v'.
Proof.
  intros [] Hp Hid Ho Hpr He Hs Hf Hpe Hme Hre Hle. constructor; try done.
  - congruence.
  - by eapply row_check_same.
  - lia.
  - lia.
  - by rewrite Hpr, Hp.
  - rewrite Hpe, Hp. done.
  - rewrite Hp. intros HT. destruct (any_live_message v') eqn:E; [|done].
    specialize (Hme HT eq_refl). rewrite ri_messages0 in Hme; done.
  - rewrite Hre, Hp, Ho. done.
  - rewrite Hle, Hp. done.
Qed.

Lemma flag_ok_phase r :
  flag_ok r → phase_in [Preparing; Running; WaitingInput] (phase r) = true →
  stop_requested r = false ∧ close_requested r = false.
Proof.
  intros [Hs Hc] Hp.
  destruct (stop_requested r); [by destruct Hs as [E|[E|E]]; [done|..]; rewrite E in Hp|].
  destruct (close_requested r); [by destruct Hc as [E|E]; [done|..]; rewrite E in Hp|]. done.
Qed.

Lemma flag_ok_clear r : flagged r = false → flag_ok r.
Proof. unfold flagged, flag_ok. intros H. bool_hyp. split; congruence. Qed.

Lemma vs_inv_terminal id now o code message res r v :
  row_inv id r v → phase r ≠ Terminal →
  (res = v_res v ∨ (v_res v = [] ∧ ∃ x, res = [x] ∧ res_outcome (r_result x) = o)) →
  row_inv id (terminal_row now o code message r)
    (log (mk_ledger id (owner_epoch r) (Some (phase r)) Terminal (Some o) code now)
      (settle (default "TASK_TERMINATED" code)
        (put_res res (put_row (terminal_row now o code message r) v)))).
Proof.
  intros Hi Hp Hres. pose proof (no_result_live _ _ _ Hi Hp) as Hnr. destruct Hi.
  constructor; simpl; try done.
  - split; intros _; by right; try right.
  - apply settled_pending_dead.
  - intros _. apply settled_messages_dead.
  - destruct Hres as [->|(_ & x & -> & <-)]; [by left | right; by exists x].
  - by eapply ledger_chain_app.
Qed.

Lemma vs_inv_resume id now m r v :
  row_inv id r v → phase r = Terminal →
  row_inv id (requeued_row r) (put_msgs (v_msgs v ++ [m])
    (log (mk_ledger id (owner_epoch r) (Some Terminal) Queued None (Some "RESUME_REQUESTED") now)
      (put_row (requeued_row r) (put_res [] v)))).
Proof.
  intros [] Hp. constructor; simpl; try done.
  - rewrite Hp in ri_pending0. exact ri_pending0.
  - by left.
  - eapply ledger_chain_app; [done|]. simpl. congruence.
Qed.

Lemma flag_ok_stop now close intent r :
  flag_ok (stop_row now Cancelling close intent r).
Proof. split; intros _; simpl; auto. Qed.

Lemma flag_ok_stop_terminal now close intent r :
  flag_ok (stop_row now Terminal close intent r).
Proof. split; intros _; simpl; auto. Qed.

(** Every transition of the task machine preserves the task's invariant. *)
Lemma view_step_inv id v v' : view_step id v v' → local_inv id v → local_inv id v'.
Proof.
  intros Hs Hi. unfold local_inv in *.
  destruct Hs as [now task v Hn Hid|now owner r v Hr Hp Hf|now rt idt se tu r v Hr Hp
    |now close intent reason r r' v Hr Hp Hp' Hr'|now close intent r v Hr Hp
    |now close intent r v Hr Hp|now o code msg res r v Hr Hp Hf Hm Hres|now tu r v Hr Hp
    |now m r v Hr Hp Hf Hse Hm|now r v Hr Hp|r v Hr Hp|m r v Hr Hp Hf Hm|msgs v Hl He
    |now p r v Hr Hp Hl|p r v Hr Hp|pend v Hl He|now pend r v Hr Hp Hl]; simpl in *.
  - rewrite Hn in Hi. destruct Hi as (Hms & Hpe & Hre & Hle).
    constructor; simpl; try done; [unfold any_live_pending; simpl; by rewrite Hpe | by left |].
    by rewrite Hle.
  - rewrite Hr in Hi. eapply row_inv_move; eauto; simpl; try done; try congruence; [lia| |].
    + apply flag_ok_clear. done.
    + etrans; [exact (ri_pending _ _ _ Hi) | by rewrite Hp].
  - rewrite Hr in Hi. destruct (flag_ok_phase r (ri_flags _ _ _ Hi)) as [E1 E2]; [by rewrite Hp|].
    eapply row_inv_move; eauto; simpl; try done; try congruence.
    + apply flag_ok_clear. unfold flagged. simpl. by rewrite E1, E2.
    + etrans; [exact (ri_pending _ _ _ Hi) | by rewrite Hp].
  - rewrite Hr in Hi. destruct Hr' as [-> | ->];
      (eapply row_inv_move; eauto; simpl; try done; try congruence; [|apply settled_pending_dead]);
      split; intros _; simpl; auto.
  - rewrite Hr in Hi. destruct Hi. constructor; simpl; try done;
      [by eapply row_check_same | apply flag_ok_stop | apply settled_pending_dead | |].
    + left. destruct ri_result0 as [|(x & _ & E & _)]; [done|congruence].
    + by rewrite ri_ledger0, Hp.
  - rewrite Hr in Hi. eapply row_inv_keep; eauto; simpl; try done. apply flag_ok_stop_terminal.
  - rewrite Hr in Hi. by apply vs_inv_terminal.
  - rewrite Hr in Hi. eapply row_inv_keep; eauto; simpl; try done; [lia|]. apply (ri_flags _ _ _ Hi).
  - rewrite Hr in Hi. by apply vs_inv_resume.
  - rewrite Hr in Hi. eapply row_inv_keep; eauto; simpl; try done. apply (ri_flags _ _ _ Hi).
  - rewrite Hr in Hi. eapply row_inv_keep; eauto; simpl; try done.
    destruct (ri_flags _ _ _ Hi). split; simpl; auto.
  - rewrite Hr in *. eapply row_inv_keep; eauto; simpl; try done. apply (ri_flags _ _ _ Hi).
  - destruct (v_row v) as [r|]; [|by destruct Hi as (E & ? & ? & ?); rewrite He].
    eapply row_inv_keep; eauto; simpl; try done. apply (ri_flags _ _ _ Hi).
  - rewrite Hr in Hi. destruct (flag_ok_phase r (ri_flags _ _ _ Hi)) as [E1 E2]; [by rewrite Hp|].
    eapply row_inv_move; eauto; simpl; try done; try congruence.
    + apply flag_ok_clear. unfold flagged. simpl. by rewrite E1, E2.
    + unfold any_live_pending. simpl. by rewrite any_live_app, Hl, orb_true_r.
  - rewrite Hr in *. eapply row_inv_keep; eauto; simpl; try done; [apply (ri_flags _ _ _ Hi)|].
    pose proof (ri_pending _ _ _ Hi) as E. rewrite Hp in E. unfold any_live_pending in *. simpl.
    by rewrite any_live_app, E.
  - destruct (v_row v) as [r|]; [|by destruct Hi as (? & E & ? & ?); rewrite He].
    eapply row_inv_keep; eauto; simpl; try done. apply (ri_flags _ _ _ Hi).
  - rewrite Hr in Hi. destruct (flag_ok_phase r (ri_flags _ _ _ Hi)) as [E1 E2]; [by rewrite Hp|].
    eapply row_inv_move; eauto; simpl; try done; try congruence.
    apply flag_ok_clear. unfold flagged. simpl. by rewrite E1, E2.
Qed.
