(* ===== verification/StoreRefine.v ===== *)
(** * The store refines the task machine

    The global invariant of the database, the effect of each statement on the
    views, and for every mutating operation the proof that it preserves the
    invariant and moves each task's view along [view_step]. *)

From stdpp Require Import relations.
From S2P Require Import Prelude RustStr StoreRecords StoreSql StoreOps StoreView.

(** ** Global invariants *)

Definition workspace_exclusive (l : list TaskRow) : Prop :=
  ∀ r1 r2, r1 ∈ l → r2 ∈ l → row_workspace r1 = row_workspace r2 →
    phase r1 ≠ Terminal → phase r2 ≠ Terminal → row_id r1 = row_id r2.

Record glob (db : Db) : Prop := {
  gl_ids : NoDup (row_id <$> tasks db);
  gl_requests : NoDup (request_id <$> pending_requests db);
  gl_messages : NoDup (message_id <$> messages db);
  gl_workspaces : workspace_exclusive (tasks db) }.

Record db_inv (db : Db) : Prop := {
  di_glob : glob db;
  di_local : ∀ id, local_inv id (view db id) }.

Definition refines (db db' : Db) : Prop := ∀ id, rtc (view_step id) (view db id) (view db' id).

Lemma refines_inv db db' : db_inv db → refines db db' → glob db' → db_inv db'.
Proof.
  intros Hi Hr Hg. split; [done|]. intros id. generalize (di_local _ Hi id).
  induction (Hr id) as [|v1 v2 v3 Hs _ IH]; [done|]. intros Hl. apply IH. by eapply view_step_inv.
Qed.

(** ** Effects of statements *)

(** The change from [db] to [db'] touches task [id] only, whose view becomes [g]
    of what it was, and keeps the global invariant. *)
Record effect (id : string) (g : View → View) (db db' : Db) : Prop := {
  ef_other : ∀ id', id' ≠ id → view db' id' = view db id';
  ef_view : view db' id = g (view db id);
  ef_glob : glob db → glob db' }.

Lemma effect_comp id g h db db1 db2 :
  effect id g db db1 → effect id h db1 db2 → effect id (λ v, h (g v)) db db2.
Proof.
  intros [O1 V1 G1] [O2 V2 G2]. split; [|by rewrite V2, V1|by auto].
  intros id' Hne. by rewrite O2, O1.
Qed.

Lemma effect_refines id g db db' :
  effect id g db db' → glob db → rtc (view_step id) (view db id) (g (view db id)) →
  refines db db' ∧ glob db'.
Proof.
  intros [Ho Hv Hg] Hgl Hs. split; [|by apply Hg]. intros id'.
  destruct (decide (id' = id)) as [->|Hne]; [by rewrite Hv | by rewrite Ho].
Qed.

Definition map_row (h : TaskRow → TaskRow) (v : View) : View :=
  mk_view (h <$> v_row v) (v_msgs v) (v_pend v) (v_res v) (v_led v).

Lemma map_row_some h v r : v_row v = Some r → map_row h v = put_row (h r) v.
Proof. unfold map_row, put_row. by intros ->. Qed.

Lemma view_eq v w :
  v_row v = v_row w → v_msgs v = v_msgs w → v_pend v = v_pend w → v_res v = v_res w →
  v_led v = v_led w → v = w.
Proof. destruct v, w; simpl; congruence. Qed.

Lemma update_rows_fmap {A B} (k : A → B) (P : A → bool) f l :
  (∀ x, k (f x) = k x) → k <$> update_rows P f l = k <$> l.
Proof.
  intros Hk. induction l as [|x l IH]; [done|]. cbn. f_equal; [by destruct (P x) | exact IH].
Qed.

Lemma update_rows_in {A} (P : A → bool) f l (y : A) :
  y ∈ update_rows P f l → ∃ x, x ∈ l ∧ y = if P x then f x else x.
Proof. intros (x & -> & Hx)%list_elem_of_fmap. eauto. Qed.

Lemma row_id_spec r r' : spec r = spec r' → row_id r = row_id r'.
Proof. unfold row_id. by intros ->. Qed.

Lemma workspaces_update P f l :
  (∀ r, spec (f r) = spec r) →
  (∀ r, r ∈ l → P r = true → phase (f r) ≠ Terminal → phase r ≠ Terminal) →
  workspace_exclusive l → workspace_exclusive (update_rows P f l).
Proof.
  intros Hs Hp Hw r1 r2 (x1 & H1 & ->)%update_rows_in (x2 & H2 & ->)%update_rows_in Hws N1 N2.
  assert (Hx : ∀ x, spec (if P x then f x else x) = spec x) by (intros x; destruct (P x); auto).
  rewrite !(row_id_spec _ _ (Hx _)). apply Hw; [done|done| | |].
  - unfold row_workspace in *. by rewrite !Hx in Hws.
  - destruct (P x1) eqn:E; auto.
  - destruct (P x2) eqn:E; auto.
Qed.

Lemma eff_tasks_gen id P f db :
  (∀ r, P r = true → row_id r = id) → (∀ r, spec (f r) = spec r) →
  (glob db → workspace_exclusive (update_rows P f (tasks db))) →
  effect id (map_row (λ r, if P r then f r else r)) db (with_tasks (update_rows P f) db).
Proof.
  intros HP Hs Hw. assert (Hid : ∀ r, row_id (f r) = row_id r) by (intros; by apply row_id_spec).
  split.
  - intros id' Hne. apply view_eq; simpl; try done. rewrite find_update_rows by done.
    destruct (find_task id' (tasks db)) as [r|] eqn:E; [|done]. simpl.
    apply find_task_id in E as [E _]. destruct (P r) eqn:Hr; [|done].
    apply HP in Hr. congruence.
  - apply view_eq; simpl; try done. by apply find_update_rows.
  - intros Hg. split; simpl; [| | |by apply Hw]; destruct Hg; [by rewrite update_rows_fmap | done..].
Qed.

Lemma eff_tasks id P f db :
  (∀ r, P r = true → row_id r = id) → (∀ r, spec (f r) = spec r) →
  (∀ r, r ∈ tasks db → P r = true → phase (f r) ≠ Terminal → phase r ≠ Terminal) →
  effect id (map_row (λ r, if P r then f r else r)) db (with_tasks (update_rows P f) db).
Proof.
  intros HP Hs Hp. apply eff_tasks_gen; [done..|]. intros []. by apply workspaces_update.
Qed.

Lemma eff_ledger id x db :
  l_agent x = id → effect id (log x) db (with_ledger (λ l, l ++ [x]) db).
Proof.
  intros <-. split; [| |by intros []; split].
  - intros id' Hne. apply view_eq; simpl; try done.
    by rewrite List.filter_app; simpl; rewrite eqb_ne_false, app_nil_r by done.
  - apply view_eq; simpl; try done. by rewrite List.filter_app; simpl; rewrite String.eqb_refl.
Qed.

Lemma settle_pending_filter id l :
  List.filter (λ p, p_agent p ≟ id) (settle_pending id l)
  = List.filter (λ p, negb (live_pending p)) (List.filter (λ p, p_agent p ≟ id) l).
Proof.
  induction l as [|p l IH]; [done|]. simpl. destruct (p_agent p ≟ id) eqn:E; simpl.
  - destruct (live_pending p) eqn:El; simpl; rewrite ?E; simpl; by rewrite IH.
  - by rewrite E, IH.
Qed.

Lemma settle_messages_filter id reason l :
  List.filter (λ m, m_agent m ≟ id) (settle_messages id reason l)
  = update_rows live_message (fail_live_message reason) (List.filter (λ m, m_agent m ≟ id) l).
Proof.
  unfold settle_messages. rewrite filter_update_rows by done.
  apply map_ext_in. intros m [_ Hm]%filter_In. by rewrite Hm.
Qed.

Lemma sublist_filter {A} (P : A → bool) l : sublist (List.filter P l) l.
Proof. induction l as [|x l IH]; simpl; [constructor|]. destruct (P x); by constructor. Qed.

Lemma NoDup_filter_fmap {A B} (k : A → B) (P : A → bool) l :
  NoDup (k <$> l) → NoDup (k <$> List.filter P l).
Proof. intros Hnd. eapply sublist_NoDup; [exact Hnd | apply fmap_sublist, sublist_filter]. Qed.

Lemma eff_settle id reason db :
  effect id (settle reason) db
    (with_pending (settle_pending id) (with_messages (settle_messages id reason) db)).
Proof.
  split.
  - intros id' Hne. apply view_eq; simpl; try done.
    + unfold settle_messages. rewrite filter_update_rows by done. apply update_rows_id.
      intros m [_ ->%String.eqb_eq]%in_filter. by rewrite eqb_ne_false.
    + unfold settle_pending. rewrite filter_filter_comm. apply filter_all.
      intros p [_ ->%String.eqb_eq]%in_filter. by rewrite eqb_ne_false.
  - apply view_eq; simpl; try done; [apply settle_messages_filter | apply settle_pending_filter].
  - intros []. split; simpl; try done; [by apply NoDup_filter_fmap|].
    unfold settle_messages. by rewrite update_rows_fmap.
Qed.

Lemma eff_results_clear id db :
  effect id (put_res []) db (with_results (List.filter (λ x, negb (r_agent x ≟ id))) db).
Proof.
  split; [| |by intros []; split].
  - intros id' Hne. apply view_eq; simpl; try done. rewrite filter_filter_comm. apply filter_all.
    intros x [_ ->%String.eqb_eq]%in_filter. by rewrite eqb_ne_false.
  - apply view_eq; simpl; try done. induction (task_results db) as [|x l IH]; [done|]. simpl.
    destruct (r_agent x ≟ id) eqn:E; simpl; rewrite ?E; done.
Qed.

Lemma eff_result_add id x db :
  r_agent x = id → effect id (λ v, put_res (v_res v ++ [x]) v) db (with_results (λ l, l ++ [x]) db).
Proof.
  intros <-. split; [| |by intros []; split].
  - intros id' Hne. apply view_eq; simpl; try done.
    by rewrite List.filter_app; simpl; rewrite eqb_ne_false, app_nil_r by done.
  - apply view_eq; simpl; try done. by rewrite List.filter_app; simpl; rewrite String.eqb_refl.
Qed.

Lemma find_none_notin {A} (k : A → string) id l :
  List.find (λ x, k x ≟ id) l = None → id ∉ (k <$> l).
Proof.
  intros H (x & -> & Hx)%list_elem_of_fmap. eapply find_none in H; [|by apply list_elem_of_In].
  simpl in H. by rewrite String.eqb_refl in H.
Qed.

Lemma NoDup_snoc_fmap {A B} (k : A → B) l x :
  NoDup (k <$> l) → k x ∉ (k <$> l) → NoDup (k <$> l ++ [x]).
Proof.
  intros Hnd Hx. rewrite fmap_app. apply NoDup_app. split_and!; [done| |].
  - intros y Hy ->%list_elem_of_singleton. done.
  - apply NoDup_singleton.
Qed.

Lemma eff_message_add id m db :
  m_agent m = id → find_message (message_id m) (messages db) = None →
  effect id (λ v, put_msgs (v_msgs v ++ [m]) v) db (with_messages (λ l, l ++ [m]) db).
Proof.
  intros <- Hn. split.
  - intros id' Hne. apply view_eq; simpl; try done.
    by rewrite List.filter_app; simpl; rewrite eqb_ne_false, app_nil_r by done.
  - apply view_eq; simpl; try done. by rewrite List.filter_app; simpl; rewrite String.eqb_refl.
  - intros []. split; simpl; try done. apply NoDup_snoc_fmap; [done | by apply find_none_notin].
Qed.

Lemma eff_pending_add id p db :
  p_agent p = id → find_pending (request_id p) (pending_requests db) = None →
  effect id (λ v, put_pend (v_pend v ++ [p]) v) db (with_pending (λ l, l ++ [p]) db).
Proof.
  intros <- Hn. split.
  - intros id' Hne. apply view_eq; simpl; try done.
    by rewrite List.filter_app; simpl; rewrite eqb_ne_false, app_nil_r by done.
  - apply view_eq; simpl; try done. by rewrite List.filter_app; simpl; rewrite String.eqb_refl.
  - intros []. split; simpl; try done. apply NoDup_snoc_fmap; [done | by apply find_none_notin].
Qed.

Lemma eff_pending_update id P f db :
  (∀ p, P p = true → p_agent p = id) → (∀ p, p_agent (f p) = p_agent p) →
  (∀ p, request_id (f p) = request_id p) →
  effect id (λ v, put_pend (update_rows P f (v_pend v)) v) db (with_pending (update_rows P f) db).
Proof.
  intros HP Ha Hr. split.
  - intros id' Hne. apply view_eq; simpl; try done.
    rewrite filter_update_rows by (intros; by rewrite Ha). apply update_rows_id.
    intros p [_ <-%String.eqb_eq]%in_filter. destruct (P p) eqn:E; [|done].
    apply HP in E. congruence.
  - apply view_eq; simpl; try done. by apply filter_update_rows; intros; rewrite Ha.
  - intros []. split; simpl; try done. by rewrite update_rows_fmap.
Qed.

(** ** Operations *)

(** What is proved of each operation. *)
Definition sound_step (db db' : Db) : Prop := refines db db' ∧ glob db'.

Lemma sound_refl db : glob db → sound_step db db.
Proof. intros Hg. split; [|done]. intros id. apply rtc_refl. Qed.

Lemma immediate_sound {A} (t : Tx A) db :
  db_inv db → (∀ a db', t db = Ok (a, db') → sound_step db db') → sound_step db (snd (immediate t db)).
Proof.
  intros Hi Ht. unfold immediate. destruct (t db) as [[a db']|e] eqn:E; simpl; [by eapply Ht|].
  apply sound_refl, di_glob, Hi.
Qed.

Lemma effect_sound id g db db' :
  db_inv db → effect id g db db' → view_step id (view db id) (g (view db id)) →
  sound_step db db'.
Proof. intros Hi He Hs. eapply effect_refines; [done | apply Hi | by apply rtc_once]. Qed.

(** The row a guarded update of task [id] changed. *)
Lemma changed_view P id db n :
  db_inv db → (∀ r, P r = true → row_id r = id) → count_rows P (tasks db) = S n →
  ∃ r, v_row (view db id) = Some r ∧ P r = true.
Proof. intros Hi. apply changed_task, Hi. Qed.

(** [PREPARING], reached by both claim operations. *)
Lemma claim_candidate_sound now owner c db o db' :
  db_inv db → claim_candidate now owner c db = Ok (o, db') → sound_step db db'.
Proof.
  intros Hi. destruct c as [c|]; simpl; [|intros [-> ->]%tx_ret_ok; apply sound_refl, Hi].
  intros (n & db1 & (-> & -> & _)%update_tasks_ok & Ht)%tx_bind_ok.
  destruct (count_rows _ _) as [|[|k]] eqn:Hc; simpl in Ht; [done| |done].
  destruct (changed_view (unclaimed (row_id c)) (row_id c) db 0 Hi) as (r & Hr & HP); [|done|].
  { unfold unclaimed. intros x Hx. by bool_hyp. }
  apply tx_bind_ok in Ht as (f & db2 & [Hq ->]%query_task_ok & Ht).
  apply tx_bind_ok in Ht as (t & db3 & [->%ok_or_ok ->]%tx_lift_ok & Ht).
  apply tx_bind_ok in Ht as (u & db4 & ->%insert_ledger_ok & [-> ->]%tx_ret_ok).
  assert (rec_owner_epoch t = owner_epoch r + 1)%Z as ->.
  { destruct (query_task_db_some _ _ _ Hq) as (r' & Hr' & _ & -> & _). simpl in Hr'.
    rewrite find_update_rows in Hr' by done. simpl in Hr. rewrite Hr in Hr'. simpl in Hr'.
    rewrite HP in Hr'. by injection Hr' as <-. }
  assert (phase r = Queued ∧ flagged r = false) as [Hp Hf].
  { unfold unclaimed, flagged in *. bool_hyp. rewrite H0, H1. done. }
  eapply effect_sound; [done| |].
  - eapply effect_comp; [apply eff_tasks|apply eff_ledger]; simpl; try done.
    + unfold unclaimed. intros x Hx. by bool_hyp.
    + unfold unclaimed. intros x _ Hx _. bool_hyp. congruence.
  - simpl. rewrite (map_row_some _ _ r) by done. rewrite HP. by eapply vs_claim.
Qed.

Lemma insert_by_perm {A} (key : A → Z) x l : insert_by key x l ≡ₚ x :: l.
Proof.
  induction l as [|y l IH]; simpl; [done|]. destruct (Z.ltb _ _); [|done].
  rewrite IH. apply perm_swap.
Qed.

Lemma order_by_perm {A} (key : A → Z) l : order_by key l ≡ₚ l.
Proof. induction l as [|x l IH]; simpl; [done|]. by rewrite insert_by_perm, IH. Qed.

Lemma occupying_iff p : occupying_phase p = true ↔ p ≠ Terminal.
Proof. unfold occupying_phase, phase_in. rewrite bool_decide_eq_true. destruct p; set_solver. Qed.

Lemma workspace_free P path l :
  workspace_occupant P path l = None →
  ∀ r, r ∈ l → P r = true → row_workspace r = path → phase r = Terminal.
Proof.
  unfold workspace_occupant. intros H r Hr HP Hw.
  assert (Hnil : List.filter (λ r, (row_workspace r ≟ path) && P r && occupying_phase (phase r)) l = []).
  { apply Permutation_nil_r. rewrite <- (order_by_perm created_at).
    by destruct (order_by created_at _). }
  destruct (decide (phase r = Terminal)) as [|Hp]; [done|]. exfalso.
  assert (r ∈ List.filter (λ r, (row_workspace r ≟ path) && P r && occupying_phase (phase r)) l)
    as Hin; [|rewrite Hnil in Hin; by apply elem_of_nil in Hin].
  apply in_filter. split; [done|]. apply occupying_iff in Hp. by rewrite Hp, HP, Hw, String.eqb_refl.
Qed.

Lemma find_task_app id l x :
  find_task id (l ++ [x])
  = match find_task id l with Some r => Some r | None => if row_id x ≟ id then Some x else None end.
Proof. induction l as [|y l IH]; simpl; [done|]. by destruct (row_id y ≟ id). Qed.

Lemma eff_task_add task now db :
  find_task (task_id task) (tasks db) = None →
  workspace_occupant (λ _, true) (workspace_path task) (tasks db) = None →
  effect (task_id task) (λ v, put_row (new_row task now) v) db
    (with_tasks (λ l, l ++ [new_row task now]) db).
Proof.
  intros Hn Hw. split.
  - intros id' Hne. apply view_eq; simpl; try done. rewrite find_task_app.
    destruct (find_task id' (tasks db)); [done|]. simpl.
    change (row_id (new_row task now)) with (task_id task). by rewrite eqb_ne_false.
  - apply view_eq; simpl; try done. rewrite find_task_app, Hn.
    change (row_id (new_row task now)) with (task_id task). by rewrite String.eqb_refl.
  - intros []. split; simpl; try done.
    + apply NoDup_snoc_fmap; [done | by apply find_none_notin].
    + assert (Hnew : ∀ r, r ∈ tasks db → row_workspace r = workspace_path task → phase r = Terminal)
        by (intros; by eapply workspace_free).
      intros r1 r2 [H1|H1%list_elem_of_singleton]%elem_of_app
        [H2|H2%list_elem_of_singleton]%elem_of_app Hws N1 N2; subst;
        [by apply gl_workspaces0 | by apply Hnew in H1 | by apply Hnew in H2 | done].
Qed.

Lemma enqueue_sound now task db :
  db_inv db → sound_step db (snd (enqueue_task_authoritative now task db)).
Proof.
  intros Hi. unfold enqueue_task_authoritative.
  destruct (validate_task task) as [[]|]; [|apply sound_refl, Hi].
  apply immediate_sound; [done|]. intros a db'.
  intros (o & db1 & [Hq ->]%query_task_ok & Ht)%tx_bind_ok. destruct o; [done|].
  apply query_task_db_none in Hq.
  apply tx_bind_ok in Ht as (oc & db1 & [-> ->]%tx_get_ok & Ht).
  destruct (workspace_occupant _ _ _) eqn:Hw; [done|].
  apply tx_bind_ok in Ht as (u & db1 & ->%tx_put_ok & Ht).
  apply tx_bind_ok in Ht as (u' & db2 & ->%insert_ledger_ok & Ht).
  apply tx_bind_ok in Ht as (o & db3 & [_ ->]%query_task_ok & [_ ->]%tx_lift_ok).
  eapply effect_sound; [done| |].
  - eapply effect_comp; [by apply eff_task_add | by apply eff_ledger].
  - by apply vs_enqueue.
Qed.

Lemma claim_next_sound now owner gl pl db :
  db_inv db → sound_step db (snd (claim_next now owner gl pl db)).
Proof.
  intros Hi. unfold claim_next. destruct (Z.eqb pl 0); [apply sound_refl, Hi|].
  apply immediate_sound; [done|]. intros a db' (l & db1 & [_ ->]%tx_lift_ok
    & (c & db2 & [-> ->]%tx_get_ok & Hc)%tx_bind_ok)%tx_bind_ok.
  by eapply claim_candidate_sound.
Qed.

Lemma claim_specific_sound now id owner pl db :
  db_inv db → sound_step db (snd (claim_specific now id owner pl db)).
Proof.
  intros Hi. unfold claim_specific. destruct (Z.eqb pl 0); [apply sound_refl, Hi|].
  apply immediate_sound; [done|]. intros a db' (l & db1 & [_ ->]%tx_lift_ok
    & (c & db2 & [-> ->]%tx_get_ok & Hc)%tx_bind_ok)%tx_bind_ok.
  by eapply claim_candidate_sound.
Qed.

Lemma count_rows_unique {A} (k : A → string) (P : A → bool) id l :
  NoDup (k <$> l) → (∀ x, P x = true → k x = id) → count_rows P l ≤ 1.
Proof.
  intros Hnd HP. unfold count_rows.
  assert (Hf : Forall (λ i, i = id) (k <$> List.filter P l)).
  { apply Forall_fmap, Forall_forall. intros x [_ Hx]%in_filter. by apply HP. }
  pose proof (NoDup_filter_fmap k P l Hnd) as Hn.
  destruct (List.filter P l) as [|x [|y l']]; simpl; [lia..|].
  apply Forall_cons in Hf as [Hx [Hy _]%Forall_cons]. apply NoDup_cons in Hn as [Hn _].
  exfalso. apply Hn. simpl. rewrite Hx, Hy. set_solver.
Qed.

Lemma count_rows_zero {A} (P : A → bool) f l : count_rows P l = 0 → update_rows P f l = l.
Proof.
  unfold count_rows. intros H%nil_length_inv. apply update_rows_id. intros x Hx.
  destruct (P x) eqn:E; [|done]. assert (x ∈ List.filter P l) as Hin by by apply in_filter.
  rewrite H in Hin. by apply elem_of_nil in Hin.
Qed.

Lemma with_tasks_id f db : f (tasks db) = tasks db → with_tasks f db = db.
Proof. destruct db; unfold with_tasks; simpl. by intros ->. Qed.

Lemma with_pending_id f db : f (pending_requests db) = pending_requests db → with_pending f db = db.
Proof. destruct db; unfold with_pending; simpl. by intros ->. Qed.

(** An update of task [id] that did not change exactly one row changed none. *)
Lemma unchanged_tasks P f id db :
  glob db → (∀ r, P r = true → row_id r = id) → count_rows P (tasks db) ≠ 1 →
  with_tasks (update_rows P f) db = db.
Proof.
  intros Hg HP Hc. pose proof (count_rows_unique row_id P id _ (gl_ids _ Hg) HP).
  apply with_tasks_id, count_rows_zero. lia.
Qed.

Lemma mark_running_sound now id epoch rt idt se tu db :
  db_inv db → sound_step db (snd (mark_session_running now id epoch rt idt se tu db)).
Proof.
  intros Hi. apply immediate_sound; [done|].
  intros a db' (e & db1 & [[-> _]%u64_to_i64_ok ->]%tx_lift_ok & Ht)%tx_bind_ok.
  apply tx_bind_ok in Ht as (n & db1 & (-> & -> & _)%update_tasks_ok & Ht).
  set (P := λ r, (row_id r ≟ id) && Z.eqb (owner_epoch r) epoch && bool_decide (phase r = Preparing)) in *.
  assert (HP : ∀ r, P r = true → row_id r = id ∧ owner_epoch r = epoch ∧ phase r = Preparing)
    by (unfold P; intros r Hr; by bool_hyp).
  assert (Heff : effect id (map_row (λ r, if P r then running_row now rt idt se tu r else r)) db
    (with_tasks (update_rows P (running_row now rt idt se tu)) db)).
  { apply eff_tasks; [by intros r []%HP|done|]. intros r _ (_ & _ & ->)%HP. done. }
  destruct (Nat.eqb_spec (count_rows P (tasks db)) 1) as [Hc|Hc].
  - apply tx_bind_ok in Ht as (u & db1 & ->%insert_ledger_ok & [-> ->]%tx_ret_ok).
    destruct (changed_view P id db 0 Hi) as (r & Hr & Hr'); [by intros ? []%HP|done|].
    destruct (HP r Hr') as (_ & <- & Hp).
    eapply effect_sound; [done | eapply effect_comp; [exact Heff | by apply eff_ledger] |].
    simpl. rewrite (map_row_some _ _ r), Hr' by done. by apply vs_run.
  - apply tx_ret_ok in Ht as [-> ->].
    rewrite (unchanged_tasks P _ id) by (apply Hi || done || by intros ? []%HP).
    apply sound_refl, Hi.
Qed.

Lemma cancel_unstarted_sound now id db :
  db_inv db → sound_step db (snd (cancel_unstarted_if_still_fresh now id db)).
Proof.
  intros Hi. apply immediate_sound; [done|].
  intros a db' (o & db1 & [Hq ->]%query_task_ok & Ht)%tx_bind_ok.
  apply tx_bind_ok in Ht as (t & db1 & [->%ok_or_ok ->]%tx_lift_ok & Ht).
  destruct (query_task_db_some _ _ _ Hq) as (r & Hr & Hph & Hep & _).
  cbv zeta in Ht.
  destruct (negb (_ && _)); [apply tx_ret_ok in Ht as [-> ->]; apply sound_refl, Hi|].
  apply tx_bind_ok in Ht as (n & db1 & (-> & -> & _)%update_tasks_ok & Ht).
  set (P := λ r, _) in Ht. set (f := λ r, set_stop_requested true _) in Ht.
  assert (HP : ∀ r, P r = true → row_id r = id ∧ phase_in [Queued; Preparing] (phase r) = true)
    by (unfold P; intros x Hx; by bool_hyp).
  destruct (Nat.eqb_spec (count_rows P (tasks db)) 1) as [Hc|Hc]; simpl in Ht.
  - apply tx_bind_ok in Ht as (u & db1 & ->%settle_ok & Ht).
    apply tx_bind_ok in Ht as (u' & db1 & ->%insert_ledger_ok & [_ ->]%tx_ret_ok).
    destruct (changed_view P id db 0 Hi) as (r' & Hr' & HPr); [by intros ? []%HP|done|].
    simpl in Hr'. assert (r' = r) as -> by congruence. destruct (HP _ HPr) as [_ Hp].
    eapply effect_sound; [done| |].
    + eapply effect_comp; [eapply effect_comp; [apply eff_tasks | apply eff_settle]
        | by apply eff_ledger]; try done; [by intros ? []%HP|].
      intros x _ [_ Hx]%HP _ E. by rewrite E in Hx.
    + simpl. rewrite (map_row_some _ _ r), HPr, Hph, Hep by done.
      eapply vs_stop_first; try done; [intros E; by rewrite E in Hp..|]. by right.
  - apply tx_bind_ok in Ht as (o & db2 & [_ ->]%query_task_ok & Ht).
    apply tx_bind_ok in Ht as (o' & db2 & [_ ->]%tx_lift_ok & [_ ->]%tx_ret_ok).
    rewrite (unchanged_tasks P _ id) by (apply Hi || done || by intros ? []%HP).
    apply sound_refl, Hi.
  Unshelve. all: exact true.
Qed.

(** The effect of [apply_terminal] on the task it ends. *)
Lemma apply_terminal_effect now id epoch from close stop terminal db o db' :
  NoDup (row_id <$> tasks db) →
  apply_terminal now id epoch from close stop terminal db = Ok (o, db') →
  ∃ r message, find_task id (tasks db) = Some r ∧ phase r ≠ Terminal ∧ owner_epoch r = epoch
    ∧ o = effective_outcome close stop (tu_outcome terminal)
    ∧ (failing o = false → message = None)
    ∧ ∃ g, effect id g db db' ∧ ∀ v, v_row v = Some r →
        g v = log (mk_ledger id epoch (Some from) Terminal (Some o) (tu_failure_code terminal) now)
                (settle (default "TASK_TERMINATED" (tu_failure_code terminal))
                  (put_row (terminal_row now o (tu_failure_code terminal) message r) v)).
Proof.
  intros Hnd. unfold apply_terminal. destruct (bool_decide (from = Terminal)); [done|].
  intros (e & db1 & [[-> _]%u64_to_i64_ok ->]%tx_lift_ok & Ht)%tx_bind_ok.
  apply tx_bind_ok in Ht as (n & db1 & (-> & -> & _)%update_tasks_ok & Ht).
  set (P := λ r, _) in Ht.
  assert (HP : ∀ r, P r = true → row_id r = id ∧ owner_epoch r = epoch ∧ phase r ≠ Terminal)
    by (unfold P; intros x Hx; by bool_hyp).
  destruct (Nat.eqb_spec (count_rows P (tasks db)) 1) as [Hc|Hc]; simpl in Ht; [|done].
  apply tx_bind_ok in Ht as (u & db1 & ->%settle_ok & Ht).
  apply tx_bind_ok in Ht as (u' & db1 & ->%insert_ledger_ok & [-> ->]%tx_ret_ok).
  destruct (changed_task P id _ 0 Hnd) as (r & Hr & HPr); [by intros ? []%HP|done|].
  destruct (HP _ HPr) as (_ & He & Hp). exists r, (if failing (effective_outcome close stop (tu_outcome terminal))
    then tu_failure_message terminal else None). split_and!; [done..| |].
  { by intros ->. }
  eexists. split.
  - eapply effect_comp; [eapply effect_comp; [apply eff_tasks | apply eff_settle]
      | by apply eff_ledger]; try done. by intros ? []%HP.
  - intros v Hv. simpl. by rewrite (map_row_some _ _ r), HPr by done.
Qed.

Lemma effective_cancelled close stop o :
  stop || close = true → effective_outcome close stop o = Cancelled.
Proof. unfold effective_outcome. intros ->. simpl. by case_bool_decide. Qed.

(** Applying a terminal update with the flags of the row itself. *)
Lemma apply_terminal_sound now id epoch terminal db r o db' :
  db_inv db → find_task id (tasks db) = Some r →
  apply_terminal now id epoch (phase r) (close_requested r) (stop_requested r) terminal db
    = Ok (o, db') →
  sound_step db db'.
Proof.
  intros Hi Hr Ha. destruct (apply_terminal_effect _ _ _ _ _ _ _ _ _ _ (gl_ids _ (di_glob _ Hi)) Ha)
    as (r' & msg & Hr' & Hp & <- & -> & Hm & g & Hg & Hv).
  assert (r' = r) as -> by congruence.
  eapply effect_sound; [done|done|]. rewrite Hv by done.
  pose proof (vs_terminal id now _ (tu_failure_code terminal) msg (v_res (view db id)) r
    (view db id) Hr' Hp (effective_cancelled _ _ _) Hm (or_introl eq_refl)) as Hs.
  exact Hs.
Qed.

Lemma transition_terminal_sound now id epoch terminal db :
  db_inv db → sound_step db (snd (transition_terminal now id epoch terminal db)).
Proof.
  intros Hi. unfold transition_terminal, after_commit. simpl. apply immediate_sound; [done|].
  intros a db' (g & db1 & (-> & r & Hr & -> & _)%query_guard_ok & Ht)%tx_bind_ok. simpl in Ht.
  case_bool_decide; [apply tx_ret_ok in Ht as [_ ->]; apply sound_refl, Hi|].
  destruct (negb _); [done|].
  apply tx_bind_ok in Ht as (o & db1 & Ha & [_ ->]%tx_ret_ok). by eapply apply_terminal_sound.
Qed.

Lemma sound_trans db db1 db2 :
  db_inv db → sound_step db db1 → (db_inv db1 → sound_step db1 db2) → sound_step db db2.
Proof.
  intros Hi [Hr Hg] H2. destruct H2 as [Hr2 Hg2]; [by eapply refines_inv|].
  split; [|done]. intros id. etrans; [apply Hr | apply Hr2].
Qed.

Lemma eff_event id x db : effect id (λ v, v) db (with_events (λ l, l ++ [x]) db).
Proof. split; [done..|]. by intros []; split. Qed.

Lemma insert_event_ok x db u db' :
  insert_event x db = Ok (u, db') → db' = with_events (λ l, l ++ [x]) db.
Proof. unfold insert_event. destruct (existsb _ _); [done|]. by intros [= <- <-]. Qed.

Lemma append_lifecycle_sound now w db :
  db_inv db → sound_step db (snd (append_lifecycle now w db)).
Proof.
  intros Hi. unfold append_lifecycle, after_commit. simpl. apply immediate_sound; [done|].
  intros a db' (src & db1 & [_ ->]%tx_lift_ok & Ht)%tx_bind_ok.
  apply tx_bind_ok in Ht as (ex & db1 & [-> ->]%tx_get_ok & Ht).
  destruct (recorded_event _ _ _); [apply tx_ret_ok in Ht as [_ ->]; apply sound_refl, Hi|].
  apply tx_bind_ok in Ht as (g & db1 & (-> & r & Hr & -> & _)%query_guard_ok & Ht). simpl in Ht.
  destruct (bool_decide (phase r = Terminal)) eqn:Hp; [done|]. apply bool_decide_eq_false in Hp.
  destruct (negb _); [done|].
  apply tx_bind_ok in Ht as (fo & db1 & [-> ->]%tx_get_ok & Ht).
  apply tx_bind_ok in Ht as (row & db1 & [Hrow%ok_or_ok ->]%tx_lift_ok & Ht).
  rewrite Hr in Hrow. injection Hrow as <-. destruct (Z.leb _ _); [done|].
  apply tx_bind_ok in Ht as (u & db1 & ->%insert_event_ok & Ht).
  apply tx_bind_ok in Ht as (n & db1 & (-> & -> & _)%update_tasks_ok & Ht).
  set (ev := mk_event _ _ _ _ _ _ _ _ _) in Ht. set (f := event_row _ _ _) in Ht.
  set (db1 := with_tasks _ _) in Ht.
  assert (Hs : sound_step db db1).
  { eapply effect_sound; [done| |].
    - eapply effect_comp; [apply eff_event | apply eff_tasks]; [|done|done].
      intros x Hx. by bool_hyp.
    - simpl. rewrite (map_row_some _ _ r) by done.
      rewrite (proj1 (find_task_id _ _ _ Hr)), String.eqb_refl. by apply vs_event. }
  assert (Hr1 : find_task (w_agent w) (tasks db1) = Some (f r)).
  { simpl. rewrite find_update_rows, Hr by done. simpl.
    by rewrite (proj1 (find_task_id _ _ _ Hr)), String.eqb_refl. }
  destruct (w_terminal w) as [t|]; [|by apply tx_ret_ok in Ht as [_ ->]].
  apply tx_bind_ok in Ht as (o & db2 & Ha & [_ ->]%tx_ret_ok).
  eapply sound_trans; [done|done|]. intros Hi1. by eapply (apply_terminal_sound _ _ _ _ _ (f r)).
Qed.

Lemma request_stop_sound now id close intent db :
  db_inv db → sound_step db (snd (request_stop_internal now id close intent db)).
Proof.
  intros Hi. apply immediate_sound; [done|].
  intros a db' (g & db1 & (-> & r & Hr & -> & _)%query_guard_ok & Ht)%tx_bind_ok. simpl in Ht.
  apply tx_bind_ok in Ht as (n & db1 & (-> & -> & _)%update_tasks_ok & Ht).
  assert (Hself : (row_id r ≟ id) = true) by (apply find_task_id in Hr as [-> _]; apply String.eqb_refl).
  assert (Hone : ∀ x, x ∈ tasks db → (row_id x ≟ id) = true → x = r).
  { intros x Hx He. bool_hyp. pose proof (find_task_in id _ x (gl_ids _ (di_glob _ Hi)) Hx He).
    congruence. }
  set (next := if bool_decide (phase r = Terminal) then phase r else Cancelling) in Ht.
  assert (Heff : effect id (map_row (λ x, if row_id x ≟ id then stop_row now next close intent x else x))
    db (with_tasks (update_rows (λ x, row_id x ≟ id) (stop_row now next close intent)) db)).
  { apply eff_tasks; [intros x Hx; by bool_hyp | done |]. intros x Hx He. rewrite (Hone x Hx He).
    unfold next. simpl. by case_bool_decide. }
  apply tx_bind_ok in Ht as (u & db2 & Hset & [_ ->]%tx_ret_ok).
  assert (Hmap : map_row (λ x, if row_id x ≟ id then stop_row now next close intent x else x)
    (view db id) = put_row (stop_row now next close intent r) (view db id))
    by by rewrite (map_row_some _ _ r), Hself.
  destruct (bool_decide (phase r = Terminal)) eqn:Hp; simpl in Hset;
    [apply bool_decide_eq_true in Hp | apply bool_decide_eq_false in Hp].
  - apply tx_ret_ok in Hset as [_ ->]. eapply effect_sound; [done|done|]. rewrite Hmap.
    unfold next. rewrite Hp. by eapply vs_stop_terminal.
  - apply tx_bind_ok in Hset as (u' & db3 & ->%settle_ok & Hl).
    pose proof (effect_comp _ _ _ _ _ _ Heff (eff_settle id "STOP_REQUESTED" _)) as He2.
    destruct (bool_decide (phase r = next)) eqn:Hn; simpl in Hl.
    + apply bool_decide_eq_true in Hn. apply tx_ret_ok in Hl as [_ ->].
      eapply effect_sound; [done|exact He2|]. simpl. rewrite Hmap. by eapply vs_stop_again.
    + apply bool_decide_eq_false in Hn. apply insert_ledger_ok in Hl as ->.
      eapply effect_sound; [done | eapply effect_comp; [exact He2 | by apply eff_ledger] |].
      simpl. rewrite Hmap. eapply vs_stop_first; [done..|]. by left.
Qed.

Lemma insert_message_row_ok m db u db' :
  insert_message_row m db = Ok (u, db') →
  find_message (message_id m) (messages db) = None ∧ db' = with_messages (λ l, l ++ [m]) db.
Proof.
  unfold insert_message_row. destruct (find_message _ _); [done|]. by intros [= <- <-].
Qed.

Lemma glob_requeue id db :
  glob db →
  (∀ r, r ∈ tasks db → row_id r = id → ∀ x, x ∈ tasks db → row_id x ≠ id →
     row_workspace x = row_workspace r → phase x = Terminal) →
  workspace_exclusive
    (update_rows (λ x, (row_id x ≟ id) && bool_decide (phase x = Terminal)) requeued_row (tasks db)).
Proof.
  intros Hg Hfree r1 r2 (x1 & H1 & E1)%update_rows_in (x2 & H2 & E2)%update_rows_in Hws N1 N2.
  set (P := λ x, (row_id x ≟ id) && bool_decide (phase x = Terminal)) in *.
  assert (Hx : ∀ x, spec (if P x then requeued_row x else x) = spec x) by (intros x; by destruct (P x)).
  assert (W : ∀ r x, r = (if P x then requeued_row x else x) →
    row_workspace r = row_workspace x ∧ row_id r = row_id x)
    by (intros r x ->; unfold row_workspace, row_id; by rewrite Hx).
  destruct (W _ _ E1) as [W1 I1], (W _ _ E2) as [W2 I2]. rewrite I1, I2.
  assert (N : ∀ x r, r = (if P x then requeued_row x else x) → phase r ≠ Terminal →
    row_id x ≠ id → phase x ≠ Terminal).
  { intros x r -> Hr Hne. unfold P in Hr. by rewrite eqb_ne_false in Hr by done. }
  destruct (decide (row_id x1 = id)) as [Ha|Ha], (decide (row_id x2 = id)) as [Hb|Hb].
  - congruence.
  - destruct (N x2 r2 E2 N2 Hb). eapply (Hfree x1); try done. congruence.
  - destruct (N x1 r1 E1 N1 Ha). eapply (Hfree x2); try done. congruence.
  - apply (gl_workspaces _ Hg); eauto. congruence.
Qed.

Lemma requeue_sound now id mid mode content db r b db' :
  db_inv db → find_task id (tasks db) = Some r → phase r = Terminal → session_id r ≠ None →
  resume_refused r = false →
  workspace_occupant (λ x, negb (row_id x ≟ id)) (row_workspace r) (tasks db) = None →
  requeue now id mid mode content (owner_epoch r) db = Ok (b, db') → sound_step db db'.
Proof.
  intros Hi Hr Hp Hse Href Hws.
  intros (u & db1 & ->%tx_put_ok & Ht)%tx_bind_ok.
  apply tx_bind_ok in Ht as (n & db1 & (-> & -> & _)%update_tasks_ok & Ht).
  destruct (Nat.eqb _ 1); simpl in Ht; [|done].
  apply tx_bind_ok in Ht as (e & db1 & [[-> _]%i64_to_u64_ok ->]%tx_lift_ok & Ht).
  apply tx_bind_ok in Ht as (u' & db1 & ->%insert_ledger_ok & Ht).
  apply tx_bind_ok in Ht as (u2 & db1 & [Hm ->]%insert_message_row_ok & [_ ->]%tx_ret_ok).
  eapply (effect_sound id); [done| |].
  - eapply effect_comp; [|by eapply (eff_message_add id)].
    eapply effect_comp; [|by apply (eff_ledger id)].
    eapply effect_comp; [apply eff_results_clear | apply eff_tasks_gen].
    + intros x Hx. by bool_hyp.
    + done.
    + intros Hg. apply (glob_requeue id db); [apply Hi|]. intros r' Hr' Hid x Hx Hne Hw.
      eapply workspace_free; [exact Hws|done|by simpl; rewrite eqb_ne_false|].
      pose proof (find_task_in id _ r' (gl_ids _ (di_glob _ Hi)) Hr' Hid). congruence.
  - simpl. rewrite (map_row_some _ _ r) by done. rewrite (proj1 (find_task_id _ _ _ Hr)).
    rewrite String.eqb_refl, bool_decide_eq_true_2 by done. simpl.
    by apply (vs_resume id now (queued_message now mid id mode content) r (view db id)).
Qed.

Lemma resume_sound now id mid mode content db :
  db_inv db →
  sound_step db (snd (requeue_task_for_resume_with_message now id mid mode content db)).
Proof.
  intros Hi. unfold requeue_task_for_resume_with_message.
  destruct (negb (valid_mode mode)); [apply sound_refl, Hi|].
  apply immediate_sound; [done|]. intros a db' (f & db1 & [-> ->]%tx_get_ok & Ht)%tx_bind_ok.
  apply tx_bind_ok in Ht as (r & db1 & [Hr%ok_or_ok ->]%tx_lift_ok & Ht).
  case_bool_decide as Hp; simpl in Ht; [|done].
  destruct (session_id r) as [se|] eqn:Hse; simpl in Ht; [|done].
  destruct (resume_refused r) eqn:Href; [apply tx_ret_ok in Ht as [_ ->]; apply sound_refl, Hi|].
  apply tx_bind_ok in Ht as (oc & db1 & [-> ->]%tx_get_ok & Ht).
  destruct (workspace_occupant _ _ _) eqn:Hw; [done|].
  apply tx_bind_ok in Ht as (ex & db1 & [-> ->]%tx_get_ok & Ht).
  destruct (is_some _); [done|]. eapply requeue_sound; try done. by rewrite Hse.
Qed.

Lemma reap_sound now id db : db_inv db → sound_step db (snd (reap_task now id db)).
Proof.
  intros Hi. unfold reap_task, after_commit. simpl. apply immediate_sound; [done|].
  intros a db' (g & db1 & (-> & r & Hr & -> & _)%query_guard_ok & Ht)%tx_bind_ok. simpl in Ht.
  case_bool_decide as Hp; simpl in Ht; [|done].
  apply tx_bind_ok in Ht as (n & db1 & (-> & -> & _)%update_tasks_ok & [_ ->]%tx_ret_ok).
  eapply effect_sound; [done| |].
  - apply eff_tasks; [intros x Hx; by bool_hyp | done | done].
  - simpl. rewrite (map_row_some _ _ r) by done.
    rewrite (proj1 (find_task_id _ _ _ Hr)), String.eqb_refl. by apply vs_reap.
Qed.

(** ** Messages *)

(** An update of messages acts on every view. *)
Lemma view_messages_update P f db id :
  (∀ m, m_agent (f m) = m_agent m) →
  view (with_messages (update_rows P f) db) id
  = put_msgs (update_rows P f (v_msgs (view db id))) (view db id).
Proof. intros Hf. apply view_eq; simpl; try done. by apply filter_update_rows; intros; rewrite Hf. Qed.

Lemma messages_update_sound P f db :
  db_inv db → (∀ m, m_agent (f m) = m_agent m) → (∀ m, message_id (f m) = message_id m) →
  (∀ m, P m = true → live_message (f m) = true → live_message m = true) →
  sound_step db (with_messages (update_rows P f) db).
Proof.
  intros Hi Ha Hid Hl. split.
  - intros id. apply rtc_once. rewrite view_messages_update by done. apply vs_messages.
    + intros (y & (x & Hx & ->)%update_rows_in & Hy)%existsb_true_iff.
      apply existsb_true_iff. exists x. split; [done|]. destruct (P x) eqn:E; auto.
    + by intros ->.
  - destruct (di_glob _ Hi). split; simpl; try done. by rewrite update_rows_fmap.
Qed.

Lemma insert_message_sound now mid id mode content db :
  db_inv db → sound_step db (snd (insert_message now mid id mode content db)).
Proof.
  intros Hi. unfold insert_message. destruct (negb (valid_mode mode)); [apply sound_refl, Hi|].
  apply immediate_sound; [done|].
  intros a db' (g & db1 & (-> & r & Hr & -> & _)%query_guard_ok & Ht)%tx_bind_ok. simpl in Ht.
  destruct (bool_decide (phase r = Terminal) || _ || _) eqn:Hg; [done|].
  apply orb_false_iff in Hg as [[Hp Hc]%orb_false_iff Hst]. apply bool_decide_eq_false in Hp.
  apply tx_bind_ok in Ht as (ex & db1 & [-> ->]%tx_get_ok & Ht).
  destruct (find_message mid (messages db)) as [m|] eqn:Hm.
  - destruct (negb _ || _ || _); [done|]. apply tx_ret_ok in Ht as [_ ->]. apply sound_refl, Hi.
  - apply tx_bind_ok in Ht as (u & db1 & [_ ->]%insert_message_row_ok & [_ ->]%tx_ret_ok).
    eapply effect_sound; [done | by eapply (eff_message_add id) |].
    eapply vs_send; [done|done| |done]. unfold flagged. by rewrite Hc, Hst.
Qed.

Lemma claim_next_message_sound id db :
  db_inv db → sound_step db (snd (claim_next_message id db)).
Proof.
  intros Hi. apply immediate_sound; [done|].
  intros a db' (g & db1 & (-> & r & Hr & -> & _)%query_guard_ok & Ht)%tx_bind_ok.
  destruct (negb _); [apply tx_ret_ok in Ht as [_ ->]; apply sound_refl, Hi|].
  apply tx_bind_ok in Ht as (nx & db1 & [-> ->]%tx_get_ok & Ht).
  destruct (head _) as [m|]; [|apply tx_ret_ok in Ht as [_ ->]; apply sound_refl, Hi].
  apply tx_bind_ok in Ht as (n & db1 & [= <- <-] & [_ ->]%tx_get_ok).
  apply messages_update_sound; try done. intros x Hx _. bool_hyp. unfold live_message. by rewrite H0.
Qed.

Lemma complete_message_sound now mid turn db :
  db_inv db → sound_step db (snd (complete_message now mid turn db)).
Proof.
  intros Hi. apply immediate_sound; [done|].
  intros a db' (n & db1 & [= <- <-] & [_ ->]%tx_ret_ok)%tx_bind_ok.
  by apply messages_update_sound.
Qed.

Lemma fail_message_sound mid code text db :
  db_inv db → sound_step db (snd (fail_message mid code text db)).
Proof.
  intros Hi. apply immediate_sound; [done|].
  intros a db' (n & db1 & [= <- <-] & [_ ->]%tx_ret_ok)%tx_bind_ok.
  by apply messages_update_sound.
Qed.

(** ** Pending requests *)

Lemma accepting_spec r :
  accepting (mk_guard (phase r) (task_outcome r) (owner_epoch r) (close_requested r)
               (stop_requested r)) = true →
  (phase r = Running ∨ phase r = WaitingInput) ∧ flagged r = false.
Proof.
  unfold accepting, flagged, phase_in. simpl. intros H. bool_hyp. rewrite H0, H1.
  split; [|done]. revert H. rewrite !elem_of_cons. set_solver.
Qed.

Lemma no_clash_fresh rid id corr l :
  existsb (pending_clash rid id corr) l = false → find_pending rid l = None.
Proof.
  intros H. destruct (find_pending rid l) as [p|] eqn:E; [|done]. apply find_some in E as [Hin Hp].
  rewrite existsb_false_iff in H. specialize (H p). unfold pending_clash in H. rewrite Hp in H.
  simpl in H. discriminate H. by apply list_elem_of_In.
Qed.

Lemma insert_pending_sound now rid id corr kind payload db :
  db_inv db → sound_step db (snd (insert_pending_request now rid id corr kind payload db)).
Proof.
  intros Hi. apply immediate_sound; [done|].
  intros a db' (g & db1 & (-> & r & Hr & -> & _)%query_guard_ok & Ht)%tx_bind_ok.
  destruct (accepting _) eqn:Hacc; [|done]. apply accepting_spec in Hacc as [Hp Hf]. cbn [negb] in Ht.
  apply tx_bind_ok in Ht as (cl & db1 & [-> ->]%tx_get_ok & Ht).
  destruct (existsb _ _) eqn:Hcl.
  { apply tx_bind_ok in Ht as (fo & db1 & [-> ->]%tx_get_ok & Ht).
    apply tx_bind_ok in Ht as (p & db1 & [_ ->]%tx_lift_ok & Ht).
    destruct (_ || _); [done|]. apply tx_ret_ok in Ht as [_ ->]. apply sound_refl, Hi. }
  apply tx_bind_ok in Ht as (u & db1 & ->%tx_put_ok & Ht). cbn [g_phase g_epoch] in Ht.
  pose proof (eff_pending_add id (fresh_pending now rid id corr kind payload) db eq_refl
    (no_clash_fresh _ _ _ _ Hcl)) as He.
  case_bool_decide as Hrun.
  - apply tx_bind_ok in Ht as (n & db1 & (-> & -> & _)%update_tasks_ok & Ht).
    apply tx_bind_ok in Ht as (u' & db1 & ->%insert_ledger_ok & [_ ->]%tx_ret_ok).
    eapply (effect_sound id); [done| |].
    + eapply effect_comp; [|by apply (eff_ledger id)]. eapply effect_comp; [exact He|].
      apply eff_tasks; [intros x Hx; by bool_hyp | done |].
      intros x _ Hx _. bool_hyp. congruence.
    + simpl. rewrite (map_row_some _ _ r) by done.
      rewrite (proj1 (find_task_id _ _ _ Hr)), String.eqb_refl, bool_decide_eq_true_2 by done.
      by apply (vs_ask_first id now (fresh_pending now rid id corr kind payload) r (view db id)).
  - apply tx_ret_ok in Ht as [_ ->]. eapply effect_sound; [done|exact He|].
    destruct Hp; [done|]. by eapply vs_ask_more.
Qed.

(** Updates that keep the requests of a task open or closed as they are. *)
Lemma pending_update_sound id P f db :
  db_inv db → (∀ p, P p = true → p_agent p = id) → (∀ p, p_agent (f p) = p_agent p) →
  (∀ p, request_id (f p) = request_id p) →
  (∀ p, P p = true → live_pending (f p) = live_pending p) →
  sound_step db (with_pending (update_rows P f) db).
Proof.
  intros Hi HP Ha Hr Hl. eapply (effect_sound id); [done | by apply eff_pending_update|].
  apply vs_requests; [|by intros ->]. unfold any_live_pending.
  induction (v_pend (view db id)) as [|p l IH]; [done|]. simpl. rewrite IH. f_equal.
  destruct (P p) eqn:E; auto.
Qed.

Lemma claim_pending_sound id rid decision content db :
  db_inv db → sound_step db (snd (claim_pending_response_if_accepting id rid decision content db)).
Proof.
  intros Hi. apply immediate_sound; [done|]. intros a db' (f & db1 & [-> ->]%tx_get_ok & Ht)%tx_bind_ok.
  destruct (find_pending rid _) as [p|]; [|apply tx_ret_ok in Ht as [_ ->]; apply sound_refl, Hi].
  destruct (negb _); [apply tx_ret_ok in Ht as [_ ->]; apply sound_refl, Hi|].
  destruct (negb _); [apply tx_ret_ok in Ht as [_ ->]; apply sound_refl, Hi|].
  apply tx_bind_ok in Ht as (g & db1 & (-> & _)%query_guard_ok & Ht).
  destruct (negb _); [apply tx_ret_ok in Ht as [_ ->]; apply sound_refl, Hi|].
  apply tx_bind_ok in Ht as (n & db1 & [= <- <-] & [_ ->]%tx_ret_ok).
  apply (pending_update_sound id); try done; intros x Hx; bool_hyp; [done|].
  unfold live_pending. by rewrite H0.
Qed.

Lemma release_pending_sound id rid db :
  db_inv db → sound_step db (snd (release_pending_response id rid db)).
Proof.
  intros Hi. apply immediate_sound; [done|].
  intros a db' (n & db1 & [= <- <-] & [_ ->]%tx_ret_ok)%tx_bind_ok.
  apply (pending_update_sound id); try done; intros x Hx; bool_hyp; [done|].
  unfold live_pending. by rewrite H0.
Qed.

Lemma live_for_view id db :
  existsb (live_for id) (pending_requests db) = any_live_pending (view db id).
Proof.
  unfold any_live_pending, live_for. simpl. induction (pending_requests db) as [|p l IH]; [done|].
  simpl. destruct (p_agent p ≟ id); simpl; by rewrite IH.
Qed.

Lemma complete_pending_sound now id rid db :
  db_inv db → sound_step db (snd (complete_pending_response now id rid db)).
Proof.
  intros Hi. apply immediate_sound; [done|].
  intros a db' (n & db1 & [= <- <-] & Ht)%tx_bind_ok.
  set (P := λ x, (request_id x ≟ rid) && (p_agent x ≟ id) && bool_decide (p_state x = PSending)) in Ht.
  set (f := λ x, set_pending _ _ _ _ x) in Ht. set (db1 := with_pending _ db) in Ht.
  assert (HP : ∀ x, P x = true → request_id x = rid ∧ p_agent x = id ∧ p_state x = PSending)
    by (unfold P; intros x Hx; by bool_hyp).
  assert (He : effect id (λ v, put_pend (update_rows P f (v_pend v)) v) db db1)
    by (apply eff_pending_update; [by intros ? (? & ? & ?)%HP | done | done]).
  destruct (Nat.eqb_spec (count_rows P (pending_requests db)) 1) as [Hc|Hc].
  - apply count_rows_pos in Hc as (p & Hp & (_ & Hpa & Hps)%HP).
    apply tx_bind_ok in Ht as (rem & db2 & [-> ->]%tx_get_ok & Ht).
    apply tx_bind_ok in Ht as (g & db2 & (-> & r & Hr & -> & _)%query_guard_ok & Ht). simpl in Hr.
    assert (Hlive : any_live_pending (view db id) = true).
    { rewrite <- live_for_view. apply existsb_true_iff. exists p. split; [done|].
      unfold live_for, live_pending. by rewrite Hpa, Hps, String.eqb_refl. }
    pose proof (di_local _ Hi id) as Hl. unfold local_inv in Hl. simpl in Hl. rewrite Hr in Hl.
    rewrite (ri_pending _ _ _ Hl) in Hlive. apply bool_decide_eq_true in Hlive as Hw.
    destruct (flag_ok_phase r (ri_flags _ _ _ Hl)) as [F1 F2]; [by rewrite Hw|].
    rewrite live_for_view, (ef_view _ _ _ _ He) in Ht. simpl in Ht.
    rewrite F1, F2, (bool_decide_eq_true_2 (phase r = WaitingInput)) in Ht by done.
    destruct (any_live_pending (put_pend _ _)) eqn:Hrem; simpl in Ht.
    + apply tx_ret_ok in Ht as [_ ->]. eapply (effect_sound id); [done|exact He|].
      apply vs_requests; [|by intros ->]. rewrite (ri_pending _ _ _ Hl), Hlive. exact Hrem.
    + apply tx_bind_ok in Ht as (n & db2 & (-> & -> & _)%update_tasks_ok & Ht).
      apply tx_bind_ok in Ht as (u' & db2 & ->%insert_ledger_ok & [_ ->]%tx_ret_ok).
      eapply (effect_sound id); [done| |].
      * eapply effect_comp; [|by apply (eff_ledger id)]. eapply effect_comp; [exact He|].
        apply eff_tasks; [intros x Hx; by bool_hyp | done |]. intros x _ Hx _. bool_hyp. congruence.
      * simpl. rewrite (map_row_some _ _ r) by done.
        rewrite (proj1 (find_task_id _ _ _ Hr)), String.eqb_refl, bool_decide_eq_true_2 by done.
        by apply (vs_answered id now (update_rows P f (v_pend (view db id))) r (view db id)).
  - apply tx_ret_ok in Ht as [_ ->]. unfold db1.
    rewrite with_pending_id; [apply sound_refl, Hi|]. apply count_rows_zero.
    pose proof (count_rows_unique request_id P rid _ (gl_requests _ (di_glob _ Hi))
      (λ x Hx, proj1 (HP x Hx))). lia.
Qed.

(** ** The rest *)

Lemma fence_sound db : db_inv db → sound_step db (snd (fence_queued_cancellation db)).
Proof.
  intros Hi. apply immediate_sound; [done|].
  intros a db' (n & db1 & (-> & -> & _)%update_tasks_ok & [_ ->]%tx_ret_ok)%tx_bind_ok. split.
  - intros id. destruct (find_task id (tasks db)) as [r|] eqn:Hr.
    + destruct (decide (phase r = Queued)) as [Hp|Hp].
      * apply rtc_once. replace (view (with_tasks _ db) id)
          with (put_row (set_stop_requested true r) (view db id)); [by apply vs_fence|].
        apply view_eq; simpl; try done. rewrite find_update_rows, Hr by done. simpl.
        by rewrite bool_decide_eq_true_2.
      * replace (view (with_tasks _ db) id) with (view db id); [done|].
        apply view_eq; simpl; try done. rewrite find_update_rows, Hr by done. simpl.
        by rewrite bool_decide_eq_false_2.
    + replace (view (with_tasks _ db) id) with (view db id); [done|].
      apply view_eq; simpl; try done. by rewrite find_update_rows, Hr.
  - destruct (di_glob _ Hi). split; simpl; try done; [by rewrite update_rows_fmap|].
    by apply workspaces_update.
Qed.

Lemma reserve_sound db : db_inv db → sound_step db (snd (reserve_task_id db)).
Proof.
  intros Hi. apply immediate_sound; [done|]. intros a db' (nx & db1 & [-> ->]%tx_get_ok & Ht)%tx_bind_ok.
  destruct (negb _); [done|]. apply tx_bind_ok in Ht as (u & db1 & ->%tx_put_ok & [_ ->]%tx_ret_ok).
  split; [by intros id|]. destruct (di_glob _ Hi). by split.
Qed.

Lemma find_result_view id db :
  find_result id (task_results db) = None → v_res (view db id) = [].
Proof.
  intros H. simpl. destruct (List.filter _ _) as [|x l] eqn:E; [done|]. exfalso.
  assert (In x (List.filter (λ x, r_agent x ≟ id) (task_results db))) as Hin by (rewrite E; by left).
  apply filter_In in Hin as [H1 H2]. eapply find_none in H; [|exact H1]. simpl in H. congruence.
Qed.

Lemma check_result_ok id task result db u db' :
  check_result id task result db = Ok (u, db') →
  db' = db ∧ active_phase (rec_phase task) = true
  ∧ (res_outcome result = Completed → completion_blockers id db = (false, false))
  ∧ (rec_stop_requested task || rec_close_requested task = true → res_outcome result = Cancelled).
Proof.
  unfold check_result. case_bool_decide; [done|].
  destruct (active_phase (rec_phase task)); [|done]. simpl.
  intros (bl & db1 & [-> ->]%tx_get_ok & Ht)%tx_bind_ok.
  destruct (bool_decide (res_outcome result = Completed) && _) eqn:Hb; [done|].
  destruct (rec_stop_requested task || rec_close_requested task) eqn:Hf; simpl in Ht.
  - case_bool_decide as Hc; simpl in Ht; [|done]. apply tx_ret_ok in Ht as [_ ->].
    split_and!; try done. intros E. congruence.
  - apply tx_ret_ok in Ht as [_ ->]. split_and!; try done. intros E.
    rewrite bool_decide_eq_true_2 in Hb by done. simpl in Hb.
    apply orb_false_iff in Hb as [E1 E2]. unfold completion_blockers. by rewrite E1, E2.
Qed.

Lemma store_result_sound digest now id result reason fm db :
  db_inv db →
  sound_step db (snd (store_task_result_with_reason digest now id result reason fm db)).
Proof.
  intros Hi. unfold store_task_result_with_reason.
  destruct (validate_result result) as [[]|]; [|apply sound_refl, Hi].
  apply immediate_sound; [done|]. intros a db' (o & db1 & [Hq ->]%query_task_ok & Ht)%tx_bind_ok.
  apply tx_bind_ok in Ht as (t & db1 & [->%ok_or_ok ->]%tx_lift_ok & Ht).
  apply tx_bind_ok in Ht as (ex & db1 & [-> ->]%tx_get_ok & Ht).
  destruct (find_result id _) as [x|] eqn:Hx.
  { destruct (r_sha256 x ≟ _); [|done]. apply tx_ret_ok in Ht as [_ ->]. apply sound_refl, Hi. }
  apply tx_bind_ok in Ht as (u & db1 & Hadm & Ht).
  destruct (query_task_db_some _ _ _ Hq) as (r & Hr & Hph & Hep & Hcl & Hst & _).
  rewrite Hph, Hep, Hcl, Hst in *.
  destruct (check_result_ok _ _ _ _ _ _ Hadm) as (-> & _ & _ & Hfl). rewrite Hst, Hcl in Hfl.
  apply tx_bind_ok in Ht as (u' & db1 & Hins & Ht).
  unfold insert_result in Hins. rewrite Hx in Hins. simpl in Hins. injection Hins as _ <-.
  apply tx_bind_ok in Ht as (o & db1 & Ha & [_ ->]%tx_ret_ok).
  set (x := mk_result_row _ _ _ _) in Ha.
  pose proof (eff_result_add id x db eq_refl) as He.
  apply apply_terminal_effect in Ha as (r' & msg & Hr' & Hp & _ & -> & Hm & g & Hg & Hv);
    [|apply Hi].
  simpl in Hr'. assert (r' = r) as -> by congruence.
  assert (Ho : effective_outcome (close_requested r) (stop_requested r) (res_outcome result)
    = res_outcome result).
  { unfold effective_outcome. destruct (_ || _); [|done]. rewrite Hfl by done. done. }
  simpl in *. rewrite Ho in *.
  eapply (effect_sound id); [done | eapply effect_comp; [exact He | exact Hg] |].
  simpl. rewrite Hv by done.
  pose proof (vs_terminal id now (res_outcome result) (result_reason reason t result) msg
    (v_res (view db id) ++ [x]) r (view db id) Hr Hp Hfl Hm) as Hs. apply Hs. right.
  pose proof (find_result_view id db Hx) as Hnil. rewrite Hnil. split; [done|]. by exists x.
Qed.
