(* ===== verification/StoreProps.v ===== *)
(** * What the task store guarantees

    The store as a transition system over all its mutating operations, the
    invariants of every reachable database, the properties that hold across any
    sequence of operations, and the functional behaviour of single operations. *)

From stdpp Require Import relations sorting.
From S2P Require Import Prelude RustStr StoreRecords StoreSql StoreOps StoreView StoreRefine.

Section props.
Context (digest : TaskResult → string).

(** One call of a mutating operation, whatever its arguments and its result.
    [restore_terminal_after_resume_failure] is not among them: no caller in the
    program uses it. *)
Inductive store_step : Db → Db → Prop :=
| do_reserve db : store_step db (snd (reserve_task_id db))
| do_enqueue now task db : store_step db (snd (enqueue_task_authoritative now task db))
| do_claim_next now owner gl pl db : store_step db (snd (claim_next now owner gl pl db))
| do_claim_specific now id owner pl db : store_step db (snd (claim_specific now id owner pl db))
| do_cancel_unstarted now id db : store_step db (snd (cancel_unstarted_if_still_fresh now id db))
| do_mark_running now id epoch rt idt se tu db :
    store_step db (snd (mark_session_running now id epoch rt idt se tu db))
| do_append now w db : store_step db (snd (append_lifecycle now w db))
| do_terminal now id epoch t db : store_step db (snd (transition_terminal now id epoch t db))
| do_fail_claim now id epoch code message db :
    store_step db (snd (fail_claim now id epoch code message db))
| do_close now id db : store_step db (snd (request_close now id db))
| do_stop now id db : store_step db (snd (request_stop now id db))
| do_runtime_stop now id db : store_step db (snd (request_runtime_stop now id db))
| do_resume now id mid mode content db :
    store_step db (snd (requeue_task_for_resume_with_message now id mid mode content db))
| do_reap now id db : store_step db (snd (reap_task now id db))
| do_insert_message now mid id mode content db :
    store_step db (snd (insert_message now mid id mode content db))
| do_claim_message id db : store_step db (snd (claim_next_message id db))
| do_complete_message now mid turn db : store_step db (snd (complete_message now mid turn db))
| do_fail_message mid code text db : store_step db (snd (fail_message mid code text db))
| do_insert_pending now rid id corr kind payload db :
    store_step db (snd (insert_pending_request now rid id corr kind payload db))
| do_claim_pending id rid decision content db :
    store_step db (snd (claim_pending_response_if_accepting id rid decision content db))
| do_complete_pending now id rid db : store_step db (snd (complete_pending_response now id rid db))
| do_release_pending id rid db : store_step db (snd (release_pending_response id rid db))
| do_result now id result reason fm db :
    store_step db (snd (store_task_result_with_reason digest now id result reason fm db))
| do_fence db : store_step db (snd (fence_queued_cancellation db)).

Lemma store_step_sound db db' : db_inv db → store_step db db' → sound_step db db'.
Proof.
  intros Hi Hs. destruct Hs;
    eauto using reserve_sound, enqueue_sound, claim_next_sound, claim_specific_sound,
      cancel_unstarted_sound, mark_running_sound, append_lifecycle_sound,
      transition_terminal_sound, request_stop_sound, resume_sound, reap_sound,
      insert_message_sound, claim_next_message_sound, complete_message_sound,
      fail_message_sound, insert_pending_sound, claim_pending_sound, complete_pending_sound,
      release_pending_sound, store_result_sound, fence_sound.
Qed.

Lemma empty_inv : db_inv empty_db.
Proof.
  split; [split; [constructor..|]|by intros id].
  by intros r1 r2 ?%elem_of_nil.
Qed.

Lemma steps_inv db db' : db_inv db → rtc store_step db db' → db_inv db'.
Proof.
  intros Hi Hs. induction Hs as [|db db1 db2 Hs _ IH]; [done|]. apply IH.
  destruct (store_step_sound _ _ Hi Hs). by eapply refines_inv.
Qed.

Definition reachable (db : Db) : Prop := rtc store_step empty_db db.

Lemma reachable_inv db : reachable db → db_inv db.
Proof. apply steps_inv, empty_inv. Qed.

Lemma steps_refine db db' : db_inv db → rtc store_step db db' → refines db db'.
Proof.
  intros Hi Hs. induction Hs as [|db db1 db2 Hs _ IH]; [by intros id|].
  destruct (store_step_sound _ _ Hi Hs) as [Hr Hg]. intros id.
  etrans; [apply Hr | apply IH; by eapply refines_inv].
Qed.

Lemma reachable_row db r :
  db_inv db → r ∈ tasks db → row_inv (row_id r) r (view db (row_id r)).
Proof.
  intros Hi Hr. pose proof (di_local _ Hi (row_id r)) as Hl. unfold local_inv in Hl. simpl in Hl.
  by rewrite (find_task_in (row_id r) _ r (gl_ids _ (di_glob _ Hi)) Hr eq_refl) in Hl.
Qed.

Lemma row_check_iff r : row_check r = true → (phase r = Terminal ↔ task_outcome r ≠ None).
Proof.
  unfold row_check, is_terminal. destruct (decide (phase r = Terminal)) as [E|E].
  - rewrite bool_decide_eq_true_2 by done. by destruct (task_outcome r).
  - rewrite bool_decide_eq_false_2 by done. destruct (task_outcome r); [done|]. intros _. by split.
Qed.

(** C4. The store implements the task machine: from every reachable database,
    whatever sequence of store operations runs, with whatever arguments and
    whether they succeed or fail, what is stored for each task (its row, its
    messages, its requests, its result and its ledger) moves only by the rules
    of the abstract machine, each with its guards. *)
Theorem store_refines_task_machine db db' id :
  reachable db → rtc store_step db db' → rtc (view_step id) (view db id) (view db' id).
Proof. intros Hr Hs. exact (steps_refine _ _ (reachable_inv _ Hr) Hs id). Qed.

(** ** Invariants of every reachable database *)

(** C17. At most one unfinished task owns a workspace: in every database reached
    by any sequence of store operations, two tasks on the same workspace path
    that are not terminal are the same task. *)
Theorem one_active_task_per_workspace db r1 r2 :
  reachable db → r1 ∈ tasks db → r2 ∈ tasks db → row_workspace r1 = row_workspace r2 →
  phase r1 ≠ Terminal → phase r2 ≠ Terminal → r1 = r2.
Proof.
  intros Hr H1 H2 Hw N1 N2. pose proof (reachable_inv _ Hr) as Hi. destruct (di_glob _ Hi).
  assert (row_id r1 = row_id r2) as E by by apply gl_workspaces.
  pose proof (find_task_in _ _ r1 gl_ids H1 eq_refl). 
  pose proof (find_task_in _ _ r2 gl_ids H2 eq_refl). congruence.
Qed.

(** The phase of a task tells what else is stored for it.  In every reachable
    database: a task has an outcome exactly when it is terminal, an open request
    exactly when it waits for input, no undelivered message once terminal, and a
    stored result only when terminal and with that result's outcome. *)
Theorem phase_determines_open_work db r :
  reachable db → r ∈ tasks db →
  (phase r = Terminal ↔ task_outcome r ≠ None)
  ∧ (phase r = WaitingInput ↔ ∃ p, p ∈ pending_requests db ∧ p_agent p = row_id r
                                    ∧ live_pending p = true)
  ∧ (phase r = Terminal → ∀ m, m ∈ messages db → m_agent m = row_id r → live_message m = false)
  ∧ (∀ x, x ∈ task_results db → r_agent x = row_id r →
       phase r = Terminal ∧ task_outcome r = Some (res_outcome (r_result x))).
Proof.
  intros Hr Hin. pose proof (reachable_row _ _ (reachable_inv _ Hr) Hin) as [_ Hck _ _ _ _ Hpe Hme Hre _].
  split_and!.
  - by apply row_check_iff.
  - unfold any_live_pending in Hpe. rewrite <- (bool_decide_eq_true (phase r = _)), <- Hpe.
    rewrite existsb_true_iff. simpl.
    setoid_rewrite in_filter. setoid_rewrite String.eqb_eq. naive_solver.
  - intros Hp m Hm Ha. specialize (Hme Hp). unfold any_live_message in Hme.
    rewrite existsb_false_iff in Hme. apply Hme. simpl. apply in_filter. by rewrite Ha, String.eqb_refl.
  - intros x Hx Ha. assert (x ∈ v_res (view db (row_id r))) as Hv.
    { simpl. apply in_filter. by rewrite Ha, String.eqb_refl. }
    destruct Hre as [E|(y & E & ? & ?)]; rewrite E in Hv; [by apply elem_of_nil in Hv|].
    by apply list_elem_of_singleton in Hv as ->.
Qed.

(** The lifecycle ledger is a faithful history: for every task of a reachable
    database the entries chain from nothing to the task's current phase, each one
    starting from the phase the previous one reached. *)
Theorem ledger_records_history db r :
  reachable db → r ∈ tasks db →
  ledger_chain None (List.filter (λ l, l_agent l ≟ row_id r) (lifecycle_ledger db))
  = Some (Some (phase r)).
Proof.
  intros Hr Hin. apply (ri_ledger _ _ _ (reachable_row _ _ (reachable_inv _ Hr) Hin)).
Qed.

(** ** Properties of every sequence of operations *)

(** A relation between a task's rows that every transition of the task machine
    maintains holds between the rows before and after any operations. *)
Lemma steps_preserve (R : TaskRow → TaskRow → Prop) db db' id r :
  (∀ x, R x x) → (∀ x y z, R x y → R y z → R x z) →
  (∀ v v' x, view_step id v v' → v_row v = Some x → ∃ y, v_row v' = Some y ∧ R x y) →
  db_inv db → rtc store_step db db' → find_task id (tasks db) = Some r →
  ∃ r', find_task id (tasks db') = Some r' ∧ R r r'.
Proof.
  intros Hrefl Htrans Hstep Hi Hs Hr.
  assert (v_row (view db id) = Some r) as Hv by done.
  change (find_task id (tasks db')) with (v_row (view db' id)). clear Hr. revert r Hv.
  induction (steps_refine _ _ Hi Hs id) as [|v1 v2 v3 H12 _ IH]; intros r Hv; [by eauto|].
  destruct (Hstep _ _ _ H12 Hv) as (y & Hy & Rxy). destruct (IH y Hy) as (z & Hz & Ryz). eauto.
Qed.

Definition cancel_bound (r : TaskRow) : Prop :=
  flagged r = true ∧ (phase r = Terminal → task_outcome r = Some Cancelled).

Lemma resume_not_flagged r : resume_refused r = false → flagged r = false.
Proof. unfold resume_refused, flagged. intros H. bool_hyp. by rewrite H3, H2. Qed.

Lemma flagged_stop now p close intent r :
  flagged r = true → flagged (stop_row now p close intent r) = true.
Proof.
  unfold flagged. simpl. by destruct close, intent, (stop_requested r), (close_requested r).
Qed.

Lemma view_step_cancel id v v' x :
  view_step id v v' → v_row v = Some x → ∃ y, v_row v' = Some y ∧ (cancel_bound x → cancel_bound y).
Proof.
  intros Hs Hx. destruct Hs; simpl; simplify_eq; (eexists; split; [done|]); unfold cancel_bound;
    intros [Hf Ht]; try (unfold flagged in *; simpl in *; congruence).
  all: try by (split; [unfold flagged in *; simpl in *; done | simpl; try done; auto]).
  - destruct H2 as [-> | ->]; (split; [|done]); [by apply flagged_stop|].
    unfold flagged. simpl. done.
  - split; [by apply flagged_stop | done].
  - split; [by apply flagged_stop | auto].
  - split; [done|]. intros _. simpl. f_equal. auto.
  - apply resume_not_flagged in H1. congruence.
Qed.

(** C18. Cancellation wins for good.  Once a stop or close of an unfinished task
    has been recorded, then after any further operations, results and resumes of
    that task included, the request is still recorded and the task is either
    still unfinished or terminal with the outcome [Cancelled]. *)
Theorem cancellation_is_final db db' id r :
  reachable db → find_task id (tasks db) = Some r → phase r ≠ Terminal → flagged r = true →
  rtc store_step db db' →
  ∃ r', find_task id (tasks db') = Some r' ∧ flagged r' = true
        ∧ (phase r' = Terminal → task_outcome r' = Some Cancelled).
Proof.
  intros Hr Hf Hp Hfl Hs.
  destruct (steps_preserve (λ x y, cancel_bound x → cancel_bound y) db db' id r)
    as (r' & Hr' & Hc); eauto using reachable_inv, view_step_cancel.
  exists r'. split; [done|]. by apply Hc.
Qed.

Definition final_row (r : TaskRow) : Prop :=
  phase r = Terminal ∧ (task_outcome r = Some Cancelled ∨ flagged r = true ∨ closed_at r ≠ None).

Lemma resume_not_final r : resume_refused r = false → ¬ final_row r.
Proof.
  intros Hr. pose proof (resume_not_flagged _ Hr) as Hf. intros [_ [Hc|[Hc|Hc]]];
    unfold resume_refused in Hr; bool_hyp; [done|congruence|].
  by destruct (closed_at r).
Qed.

Lemma view_step_final id v v' x :
  view_step id v v' → v_row v = Some x →
  ∃ y, v_row v' = Some y
       ∧ (final_row x → final_row y ∧ task_outcome y = task_outcome x ∧ spec y = spec x).
Proof.
  intros Hs Hx. destruct Hs; simpl; simplify_eq; (eexists; split; [done|]); intros Hfin;
    try (destruct Hfin as [Hp _]; congruence); try done.
  - destruct Hfin as [_ Hfin]. split_and!; try done. split; [done|]. simpl.
    destruct Hfin as [Hc|[Hc|Hc]]; [by left|right; left; by apply flagged_stop|right; right].
    simpl. destruct close; [done|done].
  - by destruct (resume_not_final r).
Qed.

(** A cancelled, stopped or closed task that has ended stays ended: no later
    operation, resume included, changes its phase or outcome. *)
Theorem closed_task_stays_closed db db' id r :
  reachable db → find_task id (tasks db) = Some r → final_row r → rtc store_step db db' →
  ∃ r', find_task id (tasks db') = Some r' ∧ phase r' = Terminal
        ∧ task_outcome r' = task_outcome r ∧ spec r' = spec r.
Proof.
  intros Hr Hf Hfin Hs.
  destruct (steps_preserve (λ x y, final_row x →
      final_row y ∧ task_outcome y = task_outcome x ∧ spec y = spec x) db db' id r)
    as (r' & Hr' & Hc); eauto using reachable_inv, view_step_final.
  - intros x y z Hxy Hyz Hx. destruct (Hxy Hx) as (Hy & Ey & Sy).
    destruct (Hyz Hy) as (Hz & Ez & Sz). split_and!; [done | congruence..].
  - destruct (Hc Hfin) as ([Hp _] & ? & ?). by exists r'.
Qed.

Lemma view_step_identity id v v' x :
  view_step id v v' → v_row v = Some x →
  ∃ y, v_row v' = Some y
       ∧ (spec y = spec x ∧ created_at y = created_at x ∧ (owner_epoch x ≤ owner_epoch y)%Z).
Proof.
  intros Hs Hx. destruct Hs; simpl; simplify_eq; (eexists; split; [done|]);
    try (split_and!; simpl; done || lia).
  destruct H2 as [-> | ->]; split_and!; simpl; done || lia.
Qed.

(** Tasks are never lost or rewritten: after any operations a task still
    exists with the same submission and creation time, and its owner epoch has
    not decreased, so a claim's epoch fences out every earlier owner. *)
Theorem task_identity_and_epoch db db' id r :
  reachable db → find_task id (tasks db) = Some r → rtc store_step db db' →
  ∃ r', find_task id (tasks db') = Some r' ∧ spec r' = spec r ∧ created_at r' = created_at r
        ∧ (owner_epoch r ≤ owner_epoch r')%Z.
Proof.
  intros Hr Hf Hs.
  apply (steps_preserve (λ x y, spec y = spec x ∧ created_at y = created_at x
    ∧ (owner_epoch x ≤ owner_epoch y)%Z) db db' id r); eauto using reachable_inv, view_step_identity.
  - by intros x.
  - intros x y z (? & ? & ?) (? & ? & ?). split_and!; [congruence..|lia].
Qed.

(** ** Claims *)

(** [x] is the first row with the smallest key. *)
Definition first_min {A} (key : A → Z) (x : A) (l : list A) : Prop :=
  ∃ l1 l2, l = l1 ++ x :: l2 ∧ (∀ y, y ∈ l1 → (key x < key y)%Z)
           ∧ (∀ y, y ∈ l2 → (key x ≤ key y)%Z).

Lemma first_min_in {A} (key : A → Z) x l :
  first_min key x l → x ∈ l ∧ ∀ y, y ∈ l → (key x ≤ key y)%Z.
Proof.
  intros (l1 & l2 & -> & H1 & H2). split; [set_solver|].
  intros y [Hy|[->|Hy]%elem_of_cons]%elem_of_app; [|lia|auto].
  specialize (H1 y Hy). lia.
Qed.

Lemma order_by_nil {A} (key : A → Z) l : order_by key l = [] → l = [].
Proof. intros H. apply Permutation_nil_r. by rewrite <- (order_by_perm key), H. Qed.

Lemma head_order_by {A} (key : A → Z) l x : head (order_by key l) = Some x → first_min key x l.
Proof.
  revert x. induction l as [|a l IH]; intros x; [done|]. simpl.
  destruct (order_by key l) as [|y s] eqn:E; simpl.
  - apply order_by_nil in E as ->. intros [= <-]. exists [], []. split_and!; [done|set_solver..].
  - destruct (IH y eq_refl) as (l1 & l2 & -> & H1 & H2). simpl.
    destruct (Z.ltb_spec (key y) (key a)); intros [= <-].
    + exists (a :: l1), l2. split_and!; [done| |done].
      intros z [->|Hz]%elem_of_cons; auto.
    + exists [], (l1 ++ y :: l2). split_and!; [done|by intros ? ?%elem_of_nil|].
      intros z [Hz|[->|Hz]%elem_of_cons]%elem_of_app; [|done|].
      * specialize (H1 z Hz). lia.
      * specialize (H2 z Hz). lia.
Qed.

Lemma head_order_by_none {A} (key : A → Z) l : head (order_by key l) = None → l = [].
Proof. intros H. apply (order_by_nil key). by destruct (order_by key l). Qed.

Lemma claimable_unclaimed limit l r : claimable limit l r = true → unclaimed (row_id r) r = true.
Proof.
  unfold claimable, unclaimed. intros H. bool_hyp. subst.
  rewrite H, H1, H2, String.eqb_refl, bool_decide_eq_true_2 by done. done.
Qed.

Lemma row_check_claim l P owner now :
  (∀ r, r ∈ l → row_check r = true) → (∀ r, P r = true → phase r = Queued) →
  forallb row_check (update_rows P (claim_row owner now) l) = true.
Proof.
  intros Hl HP. apply forallb_true_iff. intros y (x & Hx & ->)%update_rows_in.
  specialize (Hl x Hx). destruct (P x) eqn:E; [|done]. apply HP in E.
  eapply (row_check_open x); try done; congruence.
Qed.

(** The claim of a row that satisfies the query succeeds. *)
Lemma claim_candidate_ok now owner limit db r :
  db_inv db → r ∈ tasks db → claimable limit (tasks db) r = true → (owner_epoch r < i64_max)%Z →
  ∃ t db', claim_candidate now owner (Some r) db = Ok (Some (mk_claim t (owner_epoch r + 1)%Z), db')
    ∧ rec_spec t = spec r ∧ rec_phase t = Preparing ∧ rec_owner_epoch t = (owner_epoch r + 1)%Z
    ∧ find_task (row_id r) (tasks db') = Some (claim_row owner now r).
Proof.
  intros Hi Hin Hc Hmax. pose proof (reachable_row _ _ Hi Hin) as Hri.
  pose proof (find_task_in _ _ r (gl_ids _ (di_glob _ Hi)) Hin eq_refl) as Hf.
  pose proof (claimable_unclaimed _ _ _ Hc) as Hu.
  assert (HP : ∀ x, unclaimed (row_id r) x = true → row_id x = row_id r ∧ phase x = Queued)
    by (unfold unclaimed; intros x Hx; by bool_hyp).
  assert (Hq : phase r = Queued) by by apply HP.
  unfold claim_candidate, mbind, tx_bind, update_tasks at 1.
  rewrite row_check_claim; [|intros x Hx; apply (ri_check _ _ _ (reachable_row _ _ Hi Hx))|by intros ? []%HP].
  assert (count_rows (unclaimed (row_id r)) (tasks db) = 1) as ->.
  { pose proof (count_rows_unique row_id _ _ _ (gl_ids _ (di_glob _ Hi)) (λ x Hx, proj1 (HP x Hx))).
    assert (count_rows (unclaimed (row_id r)) (tasks db) ≠ 0); [|lia]. intros E%nil_length_inv.
    assert (r ∈ List.filter (unclaimed (row_id r)) (tasks db)) as Hr by by apply in_filter.
    rewrite E in Hr. by apply elem_of_nil in Hr. }
  set (db1 := with_tasks _ db).
  assert (Hf1 : find_task (row_id r) (tasks db1) = Some (claim_row owner now r))
    by (simpl; by rewrite find_update_rows, Hf; simpl; rewrite ?Hu).
  simpl. unfold query_task, query_task_db. rewrite Hf1. unfold convert_task_row. simpl.
  rewrite (ri_queued _ _ _ Hri Hq). simpl. unfold i64_to_u64.
  pose proof (ri_epoch _ _ _ Hri). pose proof (ri_seq _ _ _ Hri).
  rewrite (proj2 (Z.leb_le 0 (owner_epoch r + 1))), (proj2 (Z.leb_le 0 (last_event_seq r))) by lia.
  simpl. unfold insert_ledger, mbind, tx_bind, u64_to_i64, tx_lift. simpl.
  rewrite (proj2 (Z.leb_le (owner_epoch r + 1) i64_max)) by lia. simpl.
  eexists _, _. split; [reflexivity|]. simpl. by split_and!.
Qed.

(** Claiming is total, fair and bounded: with a positive limit, [claim_next]
    on a reachable database either finds no queued, unflagged task whose
    repository has fewer active tasks than the limit and changes nothing, or
    claims the one created first (lowest rowid among equals), moves it to
    [Preparing] and hands out the next owner epoch. *)
Theorem claim_next_first_in_first_out now owner global limit db :
  reachable db → (0 < limit ≤ i64_max)%Z → (∀ r, r ∈ tasks db → (owner_epoch r < i64_max)%Z) →
  (List.filter (claimable limit (tasks db)) (tasks db) = []
   ∧ claim_next now owner global limit db = (Ok None, db))
  ∨ ∃ r t db', first_min created_at r (List.filter (claimable limit (tasks db)) (tasks db))
      ∧ claim_next now owner global limit db
        = (Ok (Some (mk_claim t (owner_epoch r + 1)%Z)), db')
      ∧ rec_spec t = spec r ∧ rec_phase t = Preparing
      ∧ find_task (row_id r) (tasks db') = Some (claim_row owner now r).
Proof.
  intros Hr Hl Hmax. pose proof (reachable_inv _ Hr) as Hi. unfold claim_next.
  destruct (Z.eqb_spec limit 0); [lia|]. unfold immediate, mbind, tx_bind, tx_lift, tx_get.
  unfold usize_to_i64. rewrite (proj2 (Z.leb_le limit i64_max)) by lia.
  destruct (head (order_by _ _)) as [r|] eqn:Hh.
  - right. apply head_order_by in Hh. pose proof Hh as [Hin _]%first_min_in.
    apply in_filter in Hin as [Hin Hc].
    destruct (claim_candidate_ok now owner limit db r Hi Hin Hc (Hmax r Hin))
      as (t & db' & -> & ? & ? & _ & ?). exists r, t, db'. by split_and!.
  - left. split; [by eapply head_order_by_none | done].
Qed.

(** ** Messages *)

Definition message_before (x y : MessageRow) : Prop :=
  (mode_rank x < mode_rank y ∨ (mode_rank x = mode_rank y ∧ m_created_at x ≤ m_created_at y))%Z.

Lemma insert_by_sorted {A} (key : A → Z) (R : A → A → Prop) x l :
  (∀ y, y ∈ l → (key x ≤ key y)%Z → R x y) → (∀ y, y ∈ l → (key y < key x)%Z → R y x) →
  StronglySorted R l → StronglySorted (λ a b, (key a ≤ key b)%Z) l →
  StronglySorted R (insert_by key x l).
Proof.
  intros Hle Hlt HR Hk. induction l as [|y l IH]; simpl; [by repeat constructor|].
  apply StronglySorted_inv in HR as [HR HRy]. apply StronglySorted_inv in Hk as [Hk Hky].
  destruct (Z.ltb_spec (key y) (key x)).
  - constructor.
    + apply IH; auto; intros z Hz; [apply Hle | apply Hlt]; set_solver.
    + rewrite insert_by_perm. constructor; [apply Hlt; [set_solver|done] | done].
  - constructor; [by constructor|]. constructor; [apply Hle; [set_solver|done]|].
    apply Forall_forall. intros z Hz. apply Hle; [set_solver|].
    rewrite Forall_forall in Hky. specialize (Hky z Hz). lia.
Qed.

Lemma order_by_sorted {A} (key : A → Z) l : StronglySorted (λ a b, (key a ≤ key b)%Z) (order_by key l).
Proof.
  induction l as [|x l IH]; [constructor|]. simpl. apply insert_by_sorted; auto. intros; lia.
Qed.

(** Sorting by the major key keeps the order of the minor one. *)
Lemma order_by_stable {A} (k1 k2 : A → Z) l :
  StronglySorted (λ a b, (k2 a ≤ k2 b)%Z) l →
  StronglySorted (λ a b, (k1 a < k1 b ∨ (k1 a = k1 b ∧ k2 a ≤ k2 b))%Z) (order_by k1 l).
Proof.
  induction 1 as [|x l Hs IH Hx]; [constructor|]. simpl.
  rewrite Forall_forall in Hx.
  apply insert_by_sorted; [| |done|apply order_by_sorted].
  - intros y Hy Hk. rewrite (order_by_perm k1) in Hy. specialize (Hx y Hy). lia.
  - intros y Hy Hk. lia.
Qed.

Lemma message_order_head l m :
  head (message_order l) = Some m → m ∈ l ∧ ∀ x, x ∈ l → x = m ∨ message_before m x.
Proof.
  unfold message_order. intros Hh.
  pose proof (order_by_stable mode_rank m_created_at _ (order_by_sorted m_created_at l)) as Hs.
  assert (Hp : order_by mode_rank (order_by m_created_at l) ≡ₚ l) by by rewrite !order_by_perm.
  destruct (order_by mode_rank _) as [|y s]; [done|]. injection Hh as ->.
  apply StronglySorted_inv in Hs as [_ Hs]. rewrite Forall_forall in Hs. split.
  - rewrite <- Hp. set_solver.
  - intros x Hx. rewrite <- Hp in Hx. apply elem_of_cons in Hx as [->|Hx]; [by left|].
    right. by apply Hs.
Qed.

(** Message delivery order: the message claimed for a task is one of its
    queued messages, none of its other queued messages comes before it (steering
    messages first, then by creation time), and it is now marked as being sent. *)
Theorem claim_next_message_order id db m db' :
  reachable db → claim_next_message id db = (Ok (Some m), db') →
  ∃ q, q ∈ messages db ∧ queued_for id q = true ∧ m = set_message_state MSending q
    ∧ (∀ x, x ∈ messages db → queued_for id x = true → x = q ∨ message_before q x)
    ∧ find_message (message_id q) (messages db') = Some m.
Proof.
  intros Hr. pose proof (reachable_inv _ Hr) as Hi. unfold claim_next_message, immediate.
  destruct (_ ≫= _) as [[o db1]|] eqn:Ht; [|done]. intros [= -> ->].
  apply tx_bind_ok in Ht as (g & db1 & (-> & _)%query_guard_ok & Ht).
  destruct (negb (accepting g)); [by apply tx_ret_ok in Ht as [? _]|].
  apply tx_bind_ok in Ht as (nx & db1 & [-> ->]%tx_get_ok & Ht).
  destruct (head _) as [q|] eqn:Hh; [|by apply tx_ret_ok in Ht as [? _]].
  apply message_order_head in Hh as [Hq Hmin]. apply in_filter in Hq as [Hq Hqf].
  apply tx_bind_ok in Ht as (n & db1 & [= <- <-] & [Hm ->]%tx_get_ok).
  exists q. assert (Hm' : m = set_message_state MSending q).
  { simpl in Hm. unfold find_message in Hm. rewrite find_key_update in Hm by done.
    rewrite (find_key_in message_id _ _ q (gl_messages _ (di_glob _ Hi)) Hq eq_refl) in Hm.
    simpl in Hm. rewrite String.eqb_refl in Hm. unfold queued_for in Hqf. bool_hyp.
    rewrite bool_decide_eq_true_2 in Hm by done. by injection Hm. }
  split_and!; [done..| |by symmetry].
  intros x Hx Hxq. apply Hmin. by apply in_filter.
Qed.

Lemma find_app_none {A} (P : A → bool) l x :
  List.find P l = None → P x = true → List.find P (l ++ [x]) = Some x.
Proof.
  intros Hn Hx. induction l as [|y l IH]; simpl in *; [by rewrite Hx|].
  destruct (P y); [done | by apply IH].
Qed.

Lemma immediate_ok {A} (t : Tx A) db a db' : immediate t db = (Ok a, db') → t db = Ok (a, db').
Proof. unfold immediate. destruct (t db) as [[]|]; [by intros [= -> ->] | done]. Qed.

Lemma immediate_eq {A} (t : Tx A) db a db' : t db = Ok (a, db') → immediate t db = (Ok a, db').
Proof. unfold immediate. by intros ->. Qed.

(** Sending a message is idempotent: when [insert_message] succeeds, sending
    the same message again, at any later time, reports that nothing was added and
    leaves the database as it is. *)
Theorem insert_message_idempotent now now' mid id mode content db b db' :
  insert_message now mid id mode content db = (Ok b, db') →
  insert_message now' mid id mode content db' = (Ok false, db').
Proof.
  unfold insert_message. destruct (negb (valid_mode mode)); [done|]. intros Ht%immediate_ok.
  apply immediate_eq. unfold mbind, tx_bind in *.
  destruct (query_guard id db) as [[g db1]|] eqn:Hg; [|done].
  pose proof (query_guard_ok _ _ _ _ Hg) as [-> _].
  assert (Hg' : ∀ f, query_guard id (with_messages f db) = Ok (g, with_messages f db)).
  { intros f. unfold query_guard in *. simpl. destruct (find_task id (tasks db)); [|done].
    destruct (i64_to_u64 _); [|done]. by injection Hg as <-. }
  destruct (bool_decide _ || _ || _) eqn:Hcond; [done|]. simpl in Ht.
  destruct (find_message mid (messages db)) as [m|] eqn:Hm.
  - destruct (negb (m_agent m ≟ id) || _ || _) eqn:Hsame; [done|]. injection Ht as <- <-.
    rewrite Hg, Hcond. simpl. rewrite Hm, Hsame. done.
  - unfold insert_message_row in Ht. simpl in Ht. rewrite Hm in Ht. simpl in Ht.
    injection Ht as <- <-. rewrite Hg', Hcond. simpl. unfold find_message in *.
    rewrite (find_app_none (λ m, message_id m ≟ mid) (messages db)
      (queued_message now mid id mode content) Hm) by apply String.eqb_refl. simpl.
    by rewrite !String.eqb_refl.
Qed.

(** ** Lifecycle records *)

Lemma settle_events id reason db u db' :
  settle_terminal_commands id reason db = Ok (u, db') → events db' = events db.
Proof. by intros ->%settle_ok. Qed.

Lemma apply_terminal_events now id epoch from close stop t db o db' :
  apply_terminal now id epoch from close stop t db = Ok (o, db') → events db' = events db.
Proof.
  unfold apply_terminal. case_bool_decide; [done|].
  intros (e & db1 & [_ ->]%tx_lift_ok & Ht)%tx_bind_ok.
  apply tx_bind_ok in Ht as (n & db1 & (_ & -> & _)%update_tasks_ok & Ht).
  destruct (negb _); [done|]. apply tx_bind_ok in Ht as (u & db2 & ->%settle_ok & Ht).
  by apply tx_bind_ok in Ht as (u' & db3 & ->%insert_ledger_ok & [_ ->]%tx_ret_ok).
Qed.

(** The committed part of [append_lifecycle] records the event it returns. *)
Lemma append_records now w db n db' :
  append_lifecycle now w db = (Ok n, db') →
  ∃ source x, u64_to_i64 (w_source_sequence w) = Ok source
    ∧ recorded_event w source (events db') = Some x ∧ ev_seq x = n ∧ (0 ≤ n)%Z
    ∧ (db' = db ∨ ∃ r, find_task (w_agent w) (tasks db) = Some r ∧ phase r ≠ Terminal
                       ∧ owner_epoch r = w_owner_epoch w ∧ n = (last_event_seq r + 1)%Z).
Proof.
  unfold append_lifecycle, after_commit. intros H. injection H as Hn Hdb.
  destruct (immediate _ db) as [[m|] db1] eqn:E; [|done]. simpl in Hn, Hdb. subst db1.
  apply i64_to_u64_ok in Hn as [-> Hpos]. apply immediate_ok in E.
  apply tx_bind_ok in E as (src & db1 & [Hsrc ->]%tx_lift_ok & Ht).
  apply tx_bind_ok in Ht as (ex & db1 & [-> ->]%tx_get_ok & Ht). exists src.
  destruct (recorded_event w src (events db)) as [x|] eqn:Hx.
  { apply tx_ret_ok in Ht as [-> ->]. exists x. split_and!; auto. }
  apply tx_bind_ok in Ht as (g & db1 & (-> & r & Hr & -> & _)%query_guard_ok & Ht). simpl in Ht.
  destruct (bool_decide (phase r = Terminal)) eqn:Hp; [done|]. apply bool_decide_eq_false in Hp.
  destruct (Z.eqb_spec (owner_epoch r) (w_owner_epoch w)) as [He|]; [|done]. simpl in Ht.
  apply tx_bind_ok in Ht as (fo & db1 & [-> ->]%tx_get_ok & Ht).
  apply tx_bind_ok in Ht as (row & db1 & [Hrow%ok_or_ok ->]%tx_lift_ok & Ht).
  rewrite Hr in Hrow. injection Hrow as <-. destruct (Z.leb _ _); [done|].
  apply tx_bind_ok in Ht as (u & db1 & ->%insert_event_ok & Ht).
  apply tx_bind_ok in Ht as (k & db1 & (-> & -> & _)%update_tasks_ok & Ht).
  set (ev := mk_event _ _ _ _ _ _ _ _ _) in Ht. exists ev.
  assert (Hfin : events db' = events db ++ [ev] ∧ m = (last_event_seq r + 1)%Z).
  { destruct (w_terminal w) as [t|]; [|by apply tx_ret_ok in Ht as [-> ->]].
    by apply tx_bind_ok in Ht as (o & db2 & Ha%apply_terminal_events & [-> ->]%tx_ret_ok). }
  destruct Hfin as [-> ->]. split_and!; [done| |done|done|right; eauto].
  apply find_app_none; [done|]. simpl. by rewrite !String.eqb_refl, Z.eqb_refl.
Qed.

(** Lifecycle records are appended exactly once and in sequence: a successful
    [append_lifecycle] either found the record already stored, or added it under
    the next sequence number of a live task owned with that epoch; repeating the
    call, at any time, returns the same number and changes nothing. *)
Theorem append_lifecycle_exactly_once now now' w db n db' :
  append_lifecycle now w db = (Ok n, db') →
  append_lifecycle now' w db' = (Ok n, db')
  ∧ (db' = db ∨ ∃ r, find_task (w_agent w) (tasks db) = Some r ∧ phase r ≠ Terminal
                     ∧ owner_epoch r = w_owner_epoch w ∧ n = (last_event_seq r + 1)%Z).
Proof.
  intros Ha. destruct (append_records _ _ _ _ _ Ha) as (src & x & Hsrc & Hx & Hseq & Hpos & Hcase).
  split; [|done]. unfold append_lifecycle, after_commit, immediate, mbind, tx_bind, tx_lift.
  rewrite Hsrc. simpl. rewrite Hx. simpl. rewrite Hseq. unfold i64_to_u64.
  by rewrite (proj2 (Z.leb_le 0 n)).
Qed.

(** Stale owners are fenced: on a reachable database, an owner that holds an
    old epoch of an unfinished task can neither end it, nor append a new record,
    nor mark it running; each attempt is refused and nothing changes. *)
Theorem stale_owner_is_fenced now db id r epoch :
  reachable db → find_task id (tasks db) = Some r → phase r ≠ Terminal → owner_epoch r ≠ epoch →
  (∀ t, ∃ e, transition_terminal now id epoch t db = (Err e, db))
  ∧ (∀ w source, w_agent w = id → w_owner_epoch w = epoch →
       u64_to_i64 (w_source_sequence w) = Ok source →
       recorded_event w source (events db) = None →
       ∃ e, append_lifecycle now w db = (Err e, db))
  ∧ (∀ rt idt se tu, (epoch ≤ i64_max)%Z →
       mark_session_running now id epoch rt idt se tu db = (Ok false, db)).
Proof.
  intros Hr Hf Hp He. pose proof (reachable_inv _ Hr) as Hi.
  pose proof (di_local _ Hi id) as Hl. unfold local_inv in Hl. simpl in Hl. rewrite Hf in Hl.
  assert (Hg : query_guard id db = Ok (mk_guard (phase r) (task_outcome r) (owner_epoch r)
    (close_requested r) (stop_requested r), db)).
  { unfold query_guard, i64_to_u64. rewrite Hf, (proj2 (Z.leb_le _ _) (ri_epoch _ _ _ Hl)). done. }
  assert (Hne : Z.eqb (owner_epoch r) epoch = false) by by apply Z.eqb_neq.
  split_and!.
  - intros t. unfold transition_terminal, after_commit, immediate, mbind, tx_bind. rewrite Hg. simpl.
    rewrite bool_decide_eq_false_2, Hne by done. simpl. by eexists.
  - intros w src Hw Hwe Hsrc Hx.
    unfold append_lifecycle, after_commit, immediate, mbind, tx_bind, tx_lift. rewrite Hsrc. simpl.
    rewrite Hx, Hw, Hg. simpl. rewrite bool_decide_eq_false_2, Hwe, Hne by done. simpl. by eexists.
  - intros rt idt se tu Hmax. unfold mark_session_running, immediate, mbind, tx_bind, tx_lift, u64_to_i64.
    rewrite (proj2 (Z.leb_le _ _) Hmax). unfold update_tasks.
    set (P := λ r, (row_id r ≟ id) && Z.eqb (owner_epoch r) epoch && bool_decide (phase r = Preparing)).
    assert (Hc : count_rows P (tasks db) = 0).
    { destruct (count_rows P (tasks db)) as [|k] eqn:E; [done|].
      destruct (changed_view P id db k Hi) as (x & Hx & HP); [unfold P; intros; by bool_hyp|done|].
      simpl in Hx. unfold P in HP. bool_hyp. congruence. }
    assert (Hsame : update_rows P (running_row now rt idt se tu) (tasks db) = tasks db)
      by by apply count_rows_zero.
    rewrite Hsame. assert (forallb row_check (tasks db) = true) as ->.
    { apply forallb_true_iff. intros x Hx. apply (ri_check _ _ _ (reachable_row _ _ Hi Hx)). }
    rewrite Hc. simpl. by rewrite with_tasks_id.
Qed.

(** ** Results *)

Lemma apply_terminal_results now id epoch from close stop t db o db' :
  apply_terminal now id epoch from close stop t db = Ok (o, db') →
  task_results db' = task_results db.
Proof.
  unfold apply_terminal. case_bool_decide; [done|].
  intros (e & db1 & [_ ->]%tx_lift_ok & Ht)%tx_bind_ok.
  apply tx_bind_ok in Ht as (n & db1 & (_ & -> & _)%update_tasks_ok & Ht).
  destruct (negb _); [done|]. apply tx_bind_ok in Ht as (u & db2 & ->%settle_ok & Ht).
  by apply tx_bind_ok in Ht as (u' & db3 & ->%insert_ledger_ok & [_ ->]%tx_ret_ok).
Qed.

Lemma convert_row_same r r' :
  process r' = process r → owner_epoch r' = owner_epoch r → last_event_seq r' = last_event_seq r →
  (∃ t, convert_task_row r = Ok t) → ∃ t, convert_task_row r' = Ok t.
Proof.
  unfold convert_task_row. intros -> -> ->.
  destruct (convert_process (process r)); simpl; [|by intros []].
  destruct (i64_to_u64 (owner_epoch r)); simpl; [|by intros []].
  destruct (i64_to_u64 (last_event_seq r)); simpl; [eauto | by intros []].
Qed.

Lemma query_task_row db id r :
  find_task id (tasks db) = Some r →
  (∃ t, query_task_db db id = Ok (Some t)) ↔ ∃ t, convert_task_row r = Ok t.
Proof.
  intros Hr. unfold query_task_db. rewrite Hr.
  destruct (convert_task_row r); simpl; split; intros [x Hx]; try done; eauto.
Qed.

Lemma store_result_stored now id result reason fm db db' :
  db_inv db →
  store_task_result_with_reason digest now id result reason fm db = (Ok tt, db') →
  (∃ t, query_task_db db' id = Ok (Some t))
  ∧ ∃ x, find_result id (task_results db') = Some x ∧ r_sha256 x = digest result
    ∧ (db' = db ∨ r_result x = result
                  ∧ (res_outcome result = Completed → completion_blockers id db = (false, false))).
Proof.
  intros Hi. unfold store_task_result_with_reason.
  destruct (validate_result result) as [[]|] eqn:Hv; [|done]. intros Ht%immediate_ok.
  apply tx_bind_ok in Ht as (o & db1 & [Hq ->]%query_task_ok & Ht).
  apply tx_bind_ok in Ht as (t & db1 & [->%ok_or_ok ->]%tx_lift_ok & Ht).
  apply tx_bind_ok in Ht as (ex & db1 & [-> ->]%tx_get_ok & Ht).
  destruct (find_result id (task_results db)) as [x|] eqn:Hx.
  { destruct (String.eqb_spec (r_sha256 x) (digest result)); [|done].
    apply tx_ret_ok in Ht as [_ ->]. split; [eauto|]. exists x. auto. }
  apply tx_bind_ok in Ht as (u & db1 & (-> & _ & Hbl & _)%check_result_ok & Ht).
  apply tx_bind_ok in Ht as (u' & db1 & Hins & Ht).
  unfold insert_result in Hins. rewrite Hx in Hins. simpl in Hins. injection Hins as _ <-.
  apply tx_bind_ok in Ht as (o & db1 & Ha & [_ ->]%tx_ret_ok).
  pose proof (apply_terminal_results _ _ _ _ _ _ _ _ _ _ Ha) as Hres.
  apply apply_terminal_effect in Ha as (r & msg & Hr & _ & _ & _ & _ & g & Hg & Hgv); [|apply Hi].
  simpl in Hr. split.
  - pose proof (f_equal v_row (ef_view _ _ _ _ Hg)) as Hrow. rewrite Hgv in Hrow by done. simpl in Hrow.
    apply (query_task_row _ _ _ Hrow). eapply (convert_row_same r); try done.
    apply (query_task_row db id r Hr). eauto.
  - rewrite Hres. simpl. unfold find_result in *. rewrite (find_app_none _ _ _ Hx) by apply String.eqb_refl.
    eexists. split_and!; [done|done|]. right. auto.
Qed.

(** A task's result is written once: when storing a result succeeds the
    stored digest is the result's, and every later attempt, with whatever result,
    reason and message, leaves the database unchanged; it succeeds exactly when
    the digests agree. *)
Theorem task_result_immutable now id result reason fm db db' now' result' reason' fm' :
  reachable db →
  store_task_result_with_reason digest now id result reason fm db = (Ok tt, db') →
  validate_result result' = Ok tt →
  (∃ stored, task_result id db' = Some (stored, digest result))
  ∧ store_task_result_with_reason digest now' id result' reason' fm' db'
    = (if digest result ≟ digest result' then Ok tt
       else Err (Conflict ("task " +:+ id +:+ " already has a different immutable result")), db').
Proof.
  intros Hr Hs Hv. destruct (store_result_stored _ _ _ _ _ _ _ (reachable_inv _ Hr) Hs)
    as ([t Ht] & x & Hx & Hsha & _). split.
  - unfold task_result. rewrite Hx, Hsha. eauto.
  - unfold store_task_result_with_reason. rewrite Hv.
    unfold immediate, mbind, tx_bind, query_task, tx_lift, tx_get. rewrite Ht. simpl. rewrite Hx, Hsha.
    by destruct (digest result ≟ digest result').
Qed.

(** Completion waits for input: a result that reports completion is accepted
    only when the task has no open request and no undelivered message. *)
Theorem completion_requires_no_blockers now id result reason fm db db' :
  reachable db → res_outcome result = Completed →
  store_task_result_with_reason digest now id result reason fm db = (Ok tt, db') →
  db' = db ∨ completion_blockers id db = (false, false).
Proof.
  intros Hr Ho Hs. destruct (store_result_stored _ _ _ _ _ _ _ (reachable_inv _ Hr) Hs)
    as (_ & x & _ & _ & [->|[_ Hb]]); [by left | right; auto].
Qed.

(** ** Resume *)

Lemma requeue_result now id mid mode content epoch db r b db' :
  find_task id (tasks db) = Some r → phase r = Terminal →
  requeue now id mid mode content epoch db = Ok (b, db') →
  b = true ∧ find_task id (tasks db') = Some (requeued_row r)
  ∧ find_result id (task_results db') = None
  ∧ messages db' = messages db ++ [queued_message now mid id mode content].
Proof.
  intros Hr Hp (u & db1 & ->%tx_put_ok & Ht)%tx_bind_ok.
  apply tx_bind_ok in Ht as (n & db1 & (-> & -> & _)%update_tasks_ok & Ht).
  destruct (Nat.eqb _ 1); simpl in Ht; [|done].
  apply tx_bind_ok in Ht as (e & db1 & [_ ->]%tx_lift_ok & Ht).
  apply tx_bind_ok in Ht as (u' & db1 & ->%insert_ledger_ok & Ht).
  apply tx_bind_ok in Ht as (u2 & db1 & [Hm ->]%insert_message_row_ok & [-> ->]%tx_ret_ok).
  simpl. split_and!; try done.
  - rewrite find_update_rows, Hr by done. simpl.
    by rewrite (proj1 (find_task_id _ _ _ Hr)), String.eqb_refl, bool_decide_eq_true_2.
  - unfold find_result. induction (task_results db) as [|x l IH]; [done|]. simpl.
    destruct (r_agent x ≟ id) eqn:E; simpl; rewrite ?E; done.
Qed.

(** Resuming an ended task is all or nothing: when it is granted, the task
    was terminal with a session, not cancelled, stopped, closed or left with an
    unreaped process; it is queued again with its columns reset, its old result
    is gone, and the new message is its only open work.  When it is refused
    without an error, the database is unchanged. *)
Theorem resume_all_or_nothing now id mid mode content db granted db' :
  reachable db →
  requeue_task_for_resume_with_message now id mid mode content db = (Ok granted, db') →
  ∃ r, find_task id (tasks db) = Some r ∧ phase r = Terminal ∧ session_id r ≠ None
    ∧ resume_refused r = negb granted
    ∧ if granted then
        find_task id (tasks db') = Some (requeued_row r) ∧ task_result id db' = None
        ∧ find_message mid (messages db') = Some (queued_message now mid id mode content)
        ∧ (∀ m, m ∈ messages db' → m_agent m = id → live_message m = true →
             m = queued_message now mid id mode content)
      else db' = db.
Proof.
  intros Hreach. pose proof (reachable_inv _ Hreach) as Hi.
  unfold requeue_task_for_resume_with_message. destruct (negb (valid_mode mode)); [done|].
  intros Ht%immediate_ok. apply tx_bind_ok in Ht as (f & db1 & [-> ->]%tx_get_ok & Ht).
  apply tx_bind_ok in Ht as (r & db1 & [Hr%ok_or_ok ->]%tx_lift_ok & Ht).
  case_bool_decide as Hp; simpl in Ht; [|done].
  destruct (session_id r) as [se|] eqn:Hse; simpl in Ht; [|done]. exists r.
  assert (session_id r ≠ None) by congruence.
  destruct (resume_refused r) eqn:Href.
  { apply tx_ret_ok in Ht as [-> ->]. by split_and!. }
  apply tx_bind_ok in Ht as (oc & db1 & [-> ->]%tx_get_ok & Ht).
  destruct (workspace_occupant _ _ _) eqn:Hw; [done|].
  apply tx_bind_ok in Ht as (ex & db1 & [-> ->]%tx_get_ok & Ht).
  destruct (find_message mid _) eqn:Hm; [done|]. simpl in Ht.
  apply (requeue_result _ _ _ _ _ _ _ r) in Ht as (-> & Hrow & Hres & Hmsgs); [|done..].
  assert (Hnew : find_message mid (messages db') = Some (queued_message now mid id mode content)).
  { rewrite Hmsgs. unfold find_message in *. by rewrite (find_app_none _ _ _ Hm) by apply String.eqb_refl. }
  split_and!; try done.
  - unfold task_result. by rewrite Hres.
  - intros m Hin Ha Hlive. rewrite Hmsgs in Hin.
    apply elem_of_app in Hin as [Hin|Hin%list_elem_of_singleton]; [|done]. exfalso.
    pose proof (di_local _ Hi id) as Hl. unfold local_inv in Hl. simpl in Hl. rewrite Hr in Hl.
    pose proof (ri_messages _ _ _ Hl Hp) as Hdead. unfold any_live_message in Hdead.
    rewrite existsb_false_iff in Hdead. rewrite Hdead in Hlive; [done|]. simpl.
    apply in_filter. by rewrite Ha, String.eqb_refl.
Qed.

End props.

(** The text encodings of phases, outcomes and turn states are lossless:
    parsing accepts exactly the strings that are written, and gives back what was
    written. *)
Theorem stored_enumerations_round_trip s :
  (∀ p, phase_parse s = Ok p ↔ s = phase_as_str p)
  ∧ (∀ o, outcome_parse s = Ok o ↔ s = outcome_as_str o)
  ∧ (∀ t, turn_parse s = Ok t ↔ s = turn_as_str t).
Proof.
  split_and!.
  - intros p. split; [|intros ->; by destruct p]. unfold phase_parse.
    repeat (match goal with |- context [s ≟ ?x] => destruct (String.eqb_spec s x) as [->|_] end;
      [by intros [= <-]|]). done.
  - intros o. split; [|intros ->; by destruct o]. unfold outcome_parse.
    repeat (match goal with |- context [s ≟ ?x] => destruct (String.eqb_spec s x) as [->|_] end;
      [by intros [= <-]|]). done.
  - intros t. split; [|intros ->; by destruct t]. unfold turn_parse.
    repeat (match goal with |- context [s ≟ ?x] => destruct (String.eqb_spec s x) as [->|_] end;
      [by intros [= <-]|]). done.
Qed.

(** ** Witnesses on a concrete history *)

Module History.

Definition digest (r : TaskResult) : string := outcome_as_str (res_outcome r) +:+ final_text r.

Definition task : NewTask := mk_new_task "10000000" "/repo" "/repo" None "{}" "fix it".
Definition write : LifecycleWrite :=
  mk_write "10000000" "rt" 1 7 "started" None "{}" "none" None (Some TurnActive).
Definition done_result : TaskResult := mk_result Completed "all done" false.

Definition queued : Db := snd (enqueue_task_authoritative 100 task empty_db).
Definition claimed : Db := snd (claim_next 101 "daemon" 1 1 queued).
Definition running : Db :=
  snd (mark_session_running 102 "10000000" 1 "rt" None (Some "session") (Some TurnActive) claimed).
Definition asked : Db := snd (insert_message 103 "m1" "10000000" "queue" "later" running).
Definition steered : Db := snd (insert_message 104 "m2" "10000000" "steer" "now" asked).
Definition stopped : Db := snd (request_stop 105 "10000000" running).
Definition cancelled : Db :=
  snd (transition_terminal 106 "10000000" 1 (mk_terminal Completed None None) stopped).
Definition finished : Db :=
  snd (store_task_result_with_reason digest 107 "10000000" done_result None None running).

Lemma queued_reachable : reachable digest queued.
Proof. apply rtc_once, do_enqueue. Qed.
Lemma claimed_reachable : reachable digest claimed.
Proof. eapply rtc_r; [apply queued_reachable | apply do_claim_next]. Qed.
Lemma running_reachable : reachable digest running.
Proof. eapply rtc_r; [apply claimed_reachable | apply do_mark_running]. Qed.
Lemma steered_reachable : reachable digest steered.
Proof.
  eapply rtc_r; [eapply rtc_r; [apply running_reachable | apply do_insert_message]|].
  apply do_insert_message.
Qed.
Lemma stopped_reachable : reachable digest stopped.
Proof. eapply rtc_r; [apply running_reachable | apply do_stop]. Qed.
Lemma cancelled_reachable : reachable digest cancelled.
Proof. eapply rtc_r; [apply stopped_reachable | apply do_terminal]. Qed.
Lemma finished_reachable : reachable digest finished.
Proof. eapply rtc_r; [apply running_reachable | apply do_result]. Qed.

(** The row of the task in each of these states. *)
Definition row_of (db : Db) : TaskRow := default (new_row task 0) (find_task "10000000" (tasks db)).

Lemma row_in db : find_task "10000000" (tasks db) = Some (row_of db) → row_of db ∈ tasks db.
Proof. intros H. by apply find_task_id in H as [_ ?]. Qed.

End History.
Import History.

Lemma store_refines_task_machine_witness :
  rtc (view_step "10000000") (view stopped "10000000") (view cancelled "10000000")
  ∧ v_row (view stopped "10000000") ≠ v_row (view cancelled "10000000").
Proof.
  split; [|by vm_compute].
  apply (store_refines_task_machine digest stopped cancelled "10000000");
    [apply stopped_reachable | apply rtc_once, do_terminal].
Defined.

Lemma one_active_task_per_workspace_witness :
  (row_of running ∈ tasks running ∧ phase (row_of running) = Running)
  ∧ row_of running = row_of running.
Proof.
  split; [split; [apply row_in; by vm_compute | by vm_compute]|].
  apply (one_active_task_per_workspace digest running); [apply running_reachable|..];
    try (apply row_in; by vm_compute); by vm_compute.
Defined.

Lemma phase_determines_open_work_witness :
  phase (row_of finished) = Terminal ∧ task_outcome (row_of finished) ≠ None.
Proof.
  destruct (phase_determines_open_work digest finished (row_of finished)) as [Hiff _];
    [apply finished_reachable | apply row_in; by vm_compute|].
  assert (phase (row_of finished) = Terminal) as Hp by by vm_compute. split; [done | by apply Hiff].
Defined.

Lemma ledger_records_history_witness :
  ledger_chain None (List.filter (λ l, l_agent l ≟ "10000000") (lifecycle_ledger cancelled))
  = Some (Some Terminal).
Proof.
  apply (ledger_records_history digest cancelled (row_of cancelled));
    [apply cancelled_reachable | apply row_in; by vm_compute].
Defined.

Lemma cancellation_is_final_witness :
  ∃ r', find_task "10000000" (tasks cancelled) = Some r' ∧ flagged r' = true
        ∧ (phase r' = Terminal → task_outcome r' = Some Cancelled).
Proof.
  apply (cancellation_is_final digest stopped cancelled "10000000" (row_of stopped));
    [apply stopped_reachable | by vm_compute | by vm_compute | by vm_compute |].
  apply rtc_once, do_terminal.
Defined.

Lemma closed_task_stays_closed_witness :
  ∃ r', find_task "10000000"
          (tasks (snd (requeue_task_for_resume_with_message 108 "10000000" "m9" "queue" "again"
                         cancelled))) = Some r'
        ∧ phase r' = Terminal ∧ task_outcome r' = Some Cancelled ∧ spec r' = task.
Proof.
  apply (closed_task_stays_closed digest cancelled _ "10000000" (row_of cancelled));
    [apply cancelled_reachable | by vm_compute | |apply rtc_once, do_resume].
  split; [by vm_compute | left; by vm_compute].
Defined.

Lemma task_identity_and_epoch_witness :
  ∃ r', find_task "10000000" (tasks claimed) = Some r' ∧ spec r' = task ∧ created_at r' = 100%Z
        ∧ (0 ≤ owner_epoch r')%Z.
Proof.
  apply (task_identity_and_epoch digest queued claimed "10000000" (row_of queued));
    [apply queued_reachable | by vm_compute | apply rtc_once, do_claim_next].
Defined.

Lemma claim_next_first_in_first_out_witness :
  ∃ r t db', claim_next 101 "daemon" 1 1 queued = (Ok (Some (mk_claim t (owner_epoch r + 1)%Z)), db')
             ∧ rec_phase t = Preparing.
Proof.
  destruct (claim_next_first_in_first_out digest 101 "daemon" 1 1 queued)
    as [[Hn _]|(r & t & db' & _ & Hc & _ & Hp & _)].
  - apply queued_reachable.
  - unfold i64_max. lia.
  - intros r [->|?%elem_of_nil]%elem_of_cons; [by vm_compute | done].
  - by vm_compute in Hn.
  - by exists r, t, db'.
Defined.

Lemma claim_next_message_order_witness :
  ∃ q, q ∈ messages steered ∧ m_mode q = "steer".
Proof.
  destruct (claim_next_message "10000000" steered) as [[[m|]|] db'] eqn:E;
    [|by vm_compute in E..].
  destruct (claim_next_message_order digest "10000000" steered m db' steered_reachable E)
    as (q & Hq & _ & Hm & _).
  exists q. split; [done|]. assert (m_mode m = "steer") as Hs.
  { vm_compute in E. injection E as E _. by rewrite <- E. }
  by rewrite Hm in Hs.
Defined.

Lemma insert_message_idempotent_witness :
  insert_message 200 "m1" "10000000" "queue" "later" asked = (Ok false, asked).
Proof.
  apply (insert_message_idempotent 103 200 "m1" "10000000" "queue" "later" running true).
  by vm_compute.
Defined.

Lemma append_lifecycle_exactly_once_witness :
  ∃ db', append_lifecycle 104 write running = (Ok 1%Z, db')
         ∧ append_lifecycle 300 write db' = (Ok 1%Z, db').
Proof.
  exists (snd (append_lifecycle 104 write running)). split; [by vm_compute|].
  apply (append_lifecycle_exactly_once 104 300 write running). by vm_compute.
Defined.

Lemma stale_owner_is_fenced_witness :
  ∃ e, transition_terminal 105 "10000000" 0 (mk_terminal Failed None None) running = (Err e, running).
Proof.
  apply (stale_owner_is_fenced digest 105 running "10000000" (row_of running) 0);
    [apply running_reachable | by vm_compute..].
Defined.

Lemma task_result_immutable_witness :
  store_task_result_with_reason digest 110 "10000000" (mk_result Failed "oops" false) None None finished
  = (Err (Conflict "task 10000000 already has a different immutable result"), finished).
Proof.
  apply (task_result_immutable digest 107 "10000000" done_result None None running finished 110
    (mk_result Failed "oops" false) None None); [apply running_reachable | by vm_compute..].
Defined.

Lemma completion_requires_no_blockers_witness :
  finished = running ∨ completion_blockers "10000000" running = (false, false).
Proof.
  apply (completion_requires_no_blockers digest 107 "10000000" done_result None None);
    [apply running_reachable | by vm_compute..].
Defined.

Lemma resume_all_or_nothing_witness :
  ∃ r, find_task "10000000" (tasks finished) = Some r ∧ resume_refused r = false.
Proof.
  destruct (resume_all_or_nothing digest 120 "10000000" "m5" "queue" "more" finished true
    (snd (requeue_task_for_resume_with_message 120 "10000000" "m5" "queue" "more" finished))
    finished_reachable) as (r & Hr & _ & _ & Href & _).
  - by vm_compute.
  - by exists r.
Defined.
