(* ===== verification/StoreKeeps.v ===== *)
(** * What every store operation keeps

    Predicates on databases that survive transactions, by the shape of the
    transaction: a message that left its queue never returns to it, and a drained
    store stays drained under every operation but a submission and a resume. *)

From stdpp Require Import relations.
From S2P Require Import Prelude RustStr StoreRecords StoreSql StoreOps StoreView StoreRefine StoreProps.

(** ** Transactions that keep a predicate *)

Definition keeps (Q : Db → Prop) {A} (t : Tx A) : Prop :=
  ∀ db a db', Q db → t db = Ok (a, db') → Q db'.

Section keeps.
Context (Q : Db → Prop).

Lemma keeps_bind {A B} (m : Tx A) (f : A → Tx B) :
  keeps Q m → (∀ a, keeps Q (f a)) → keeps Q (m ≫= f).
Proof. intros Hm Hf db b db' Hq (a & db1 & H1 & H2)%tx_bind_ok. exact (Hf _ _ _ _ (Hm _ _ _ Hq H1) H2). Qed.

Lemma keeps_get {A} (f : Db → A) : keeps Q (tx_get f).
Proof. by intros db a db' Hq [_ ->]%tx_get_ok. Qed.
Lemma keeps_ret {A} (a : A) : keeps Q (mret a).
Proof. by intros db b db' Hq [_ ->]%tx_ret_ok. Qed.
Lemma keeps_lift {A} (r : StoreResult A) : keeps Q (tx_lift r).
Proof. by intros db a db' Hq [_ ->]%tx_lift_ok. Qed.
Lemma keeps_fail {A} e : keeps Q (tx_fail e : Tx A).
Proof. done. Qed.
Lemma keeps_query id : keeps Q (query_task id).
Proof. by intros db o db' Hq [_ ->]%query_task_ok. Qed.
Lemma keeps_guard id : keeps Q (query_guard id).
Proof. by intros db g db' Hq (-> & _)%query_guard_ok. Qed.
Lemma keeps_put f : (∀ db, Q db → Q (f db)) → keeps Q (tx_put f).
Proof. by intros H db u db' Hq ->%tx_put_ok; apply H. Qed.

Lemma immediate_keeps {A} (t : Tx A) db : keeps Q t → Q db → Q (immediate t db).2.
Proof. intros H Hq. unfold immediate. destruct (t db) as [[a db']|] eqn:E; [by eapply H | done]. Qed.

Lemma after_commit_keeps {A B} (f : A → StoreResult B) (r : StoreResult A * Db) :
  Q r.2 → Q (after_commit f r).2.
Proof. done. Qed.
End keeps.

(** Walk through a transaction; [leaf] closes its statements. *)
Ltac keeps_walk leaf :=
  repeat first
    [ apply keeps_get | apply keeps_ret | apply keeps_lift | apply keeps_fail | apply keeps_query
    | apply keeps_guard | leaf
    | apply keeps_bind; [|intros ?]
    | match goal with
      | |- keeps _ (let _ := _ in _) => cbv zeta
      | |- keeps _ (if ?b then _ else _) => destruct b eqn:?
      | |- keeps _ (match ?x with _ => _ end) => destruct x eqn:?
      end ].

(** From an operation that keeps [Q] to its transaction. *)
Ltac keeps_op Q Hq walk :=
  unfold reserve_task_id, enqueue_task_authoritative, claim_next, claim_specific,
    cancel_unstarted_if_still_fresh, mark_session_running, append_lifecycle, fail_claim,
    transition_terminal, request_close, request_stop, request_runtime_stop, request_stop_internal,
    requeue_task_for_resume_with_message, reap_task, insert_message, claim_next_message,
    complete_message, fail_message, insert_pending_request, claim_pending_response_if_accepting,
    complete_pending_response, release_pending_response, store_task_result_with_reason,
    fence_queued_cancellation;
  try apply (after_commit_keeps Q);
  first [apply (immediate_keeps Q) | case_match; try exact Hq; apply (immediate_keeps Q)];
  [walk | exact Hq].

(** ** Messages leave their queue for good and never change their text *)

Definition message_moves (m m' : MessageRow) : Prop :=
  message_id m' = message_id m ∧ m_agent m' = m_agent m ∧ m_mode m' = m_mode m
  ∧ m_content m' = m_content m ∧ m_state m' ≠ MQueued.

(** The stored message [mid] satisfies [P]. *)
Definition holds (mid : string) (P : MessageRow → Prop) (db : Db) : Prop :=
  ∃ m, find_message mid (messages db) = Some m ∧ P m.

Section holds.
Context (mid : string) (P : MessageRow → Prop).
Hypothesis stable : ∀ m m', message_moves m m' → P m → P m'.

Lemma holds_same db db' : messages db' = messages db → holds mid P db → holds mid P db'.
Proof. unfold holds. by intros ->. Qed.

Lemma holds_update Q f db db' :
  messages db' = update_rows Q f (messages db) → (∀ m, message_moves m (f m)) →
  holds mid P db → holds mid P db'.
Proof.
  intros E Hf (m & Hm & HP). unfold holds, find_message in *. rewrite E.
  rewrite (find_key_update message_id) by apply Hf. rewrite Hm. simpl.
  destruct (Q m); eexists; split; [done | by eapply stable | done | done].
Qed.

Lemma holds_snoc m db db' : messages db' = messages db ++ [m] → holds mid P db → holds mid P db'.
Proof.
  intros E (x & Hx & Hs). exists x. split; [|done]. rewrite E. unfold find_message in *.
  revert Hx. generalize (messages db). intros l. induction l as [|y l IH]; [done|].
  cbn [app List.find]. by destruct (message_id y ≟ mid).
Qed.

Lemma keeps_holds_tasks Q f : keeps (holds mid P) (update_tasks Q f).
Proof. intros db n db' Hq (_ & -> & _)%update_tasks_ok. by apply (holds_same db). Qed.
Lemma keeps_holds_pending Q f : keeps (holds mid P) (update_pending Q f).
Proof. intros db n db' Hq [= <- <-]. by apply (holds_same db). Qed.
Lemma keeps_holds_ledger now i epoch from to o reason :
  keeps (holds mid P) (insert_ledger now i epoch from to o reason).
Proof. intros db u db' Hq ->%insert_ledger_ok. by apply (holds_same db). Qed.
Lemma keeps_holds_event e : keeps (holds mid P) (insert_event e).
Proof. intros db u db' Hq ->%insert_event_ok. by apply (holds_same db). Qed.
Lemma keeps_holds_messages Q f :
  (∀ m, message_moves m (f m)) → keeps (holds mid P) (update_messages Q f).
Proof. intros Hf db n db' Hq [= <- <-]. by apply (holds_update Q f db). Qed.
Lemma keeps_holds_commands i reason : keeps (holds mid P) (settle_terminal_commands i reason).
Proof. intros db u db' Hq ->%settle_ok. eapply holds_update; [done | | exact Hq]. done. Qed.
Lemma keeps_holds_row m : keeps (holds mid P) (insert_message_row m).
Proof. intros db u db' Hq [_ ->]%insert_message_row_ok. by eapply holds_snoc. Qed.
Lemma keeps_holds_put f : (∀ db, messages (f db) = messages db) → keeps (holds mid P) (tx_put f).
Proof. intros H. apply keeps_put. intros db. by apply holds_same. Qed.
Lemma keeps_holds_result digest now id result : keeps (holds mid P) (insert_result digest now id result).
Proof.
  intros db u db' Hq. unfold insert_result. destruct (is_some _); [done|]. intros [= <- <-].
  by apply (holds_same db).
Qed.
Lemma keeps_holds_check id task result : keeps (holds mid P) (check_result id task result).
Proof. by intros db u db' Hq (-> & _)%check_result_ok. Qed.

#[local] Ltac holds_leaf :=
  first
    [ apply keeps_holds_tasks | apply keeps_holds_pending | apply keeps_holds_ledger
    | apply keeps_holds_event | apply keeps_holds_commands | apply keeps_holds_row
    | apply keeps_holds_result | apply keeps_holds_check
    | apply keeps_holds_put; intros ?; reflexivity
    | apply keeps_holds_messages; intros ?; done ].

Lemma keeps_holds_terminal now id epoch from close stop t :
  keeps (holds mid P) (apply_terminal now id epoch from close stop t).
Proof. unfold apply_terminal. keeps_walk ltac:(holds_leaf). Qed.

Lemma keeps_holds_candidate now owner c : keeps (holds mid P) (claim_candidate now owner c).
Proof. unfold claim_candidate. keeps_walk ltac:(holds_leaf). Qed.

Lemma keeps_holds_requeue now id m mode content epoch :
  keeps (holds mid P) (requeue now id m mode content epoch).
Proof. unfold requeue. keeps_walk ltac:(holds_leaf). Qed.

#[local] Ltac holds_walk :=
  keeps_walk ltac:(first [holds_leaf | apply keeps_holds_terminal | apply keeps_holds_candidate
                         | apply keeps_holds_requeue]).

Lemma store_step_holds digest db db' : store_step digest db db' → holds mid P db → holds mid P db'.
Proof. intros Hs Hq. destruct Hs; keeps_op (holds mid P) Hq ltac:(holds_walk). Qed.

Lemma history_holds digest db db' : rtc (store_step digest) db db' → holds mid P db → holds mid P db'.
Proof. intros H. induction H; eauto using store_step_holds. Qed.
End holds.

(** A message that left its queue. *)
Definition settled (mid : string) : Db → Prop := holds mid (λ m, m_state m ≠ MQueued).

(** No operation puts a message back into its queue. *)
Lemma history_settled digest mid db db' : rtc (store_step digest) db db' → settled mid db → settled mid db'.
Proof. apply history_holds. by intros m m' (_ & _ & _ & _ & ?) _. Qed.

(** A message with this address and text. *)
Definition recorded (mid id mode content : string) : Db → Prop :=
  holds mid (λ m, m_agent m = id ∧ m_mode m = mode ∧ m_content m = content).

Lemma history_recorded digest mid id mode content db db' :
  rtc (store_step digest) db db' → recorded mid id mode content db → recorded mid id mode content db'.
Proof. apply history_holds. by intros m m' (_ & -> & -> & -> & _). Qed.

(** ** A drained store *)

(** Every task is terminal and reaped. *)
Definition quiet_row (r : TaskRow) : Prop := phase r = Terminal ∧ is_Some (reaped_at r).
Definition quiet (db : Db) : Prop := ∀ r, r ∈ tasks db → quiet_row r.

Lemma quiet_all_reaped db : quiet db ↔ all_tasks_reaped db = true.
Proof.
  unfold quiet, all_tasks_reaped, quiet_row. rewrite Nat.eqb_eq. unfold count_rows. split.
  - intros H. apply length_zero_iff_nil. destruct (List.filter _ (tasks db)) as [|r l] eqn:E; [done|].
    assert (r ∈ List.filter (λ r, negb (bool_decide (phase r = Terminal)) || negb (is_some (reaped_at r))) (tasks db))
      as Hr by (rewrite E; apply list_elem_of_here).
    apply in_filter in Hr as [Hin Hc]. destruct (H r Hin) as [Hp [t Ht]].
    rewrite bool_decide_eq_true_2, Ht in Hc by done. done.
  - intros H r Hin. apply length_zero_iff_nil in H.
    destruct (negb (bool_decide (phase r = Terminal)) || negb (is_some (reaped_at r))) eqn:Hc.
    { assert (r ∈ @nil TaskRow) as Hn; [|by apply not_elem_of_nil in Hn].
      rewrite <- H. by apply in_filter. }
    apply orb_false_iff in Hc as [Hp Hre]. apply negb_false_iff in Hp, Hre.
    apply bool_decide_eq_true in Hp. split; [done|]. by destruct (reaped_at r).
Qed.

Lemma quiet_same db db' : tasks db' = tasks db → quiet db → quiet db'.
Proof. unfold quiet. by intros ->. Qed.

Lemma keeps_quiet_tasks P f :
  (∀ r, quiet_row r → P r = true → quiet_row (f r)) → keeps quiet (update_tasks P f).
Proof.
  intros H db n db' Hq (_ & -> & _)%update_tasks_ok r Hr. simpl in Hr.
  apply update_rows_in in Hr as (x & Hx & ->). specialize (Hq x Hx). destruct (P x) eqn:E; [by apply H | done].
Qed.

(** A statement that only touches rows that are not terminal. *)
Lemma keeps_quiet_live P f :
  (∀ r, phase r = Terminal → P r = false) → keeps quiet (update_tasks P f).
Proof. intros H. apply keeps_quiet_tasks. intros r [Hp _] HP. by rewrite H in HP. Qed.

Lemma keeps_quiet_put f : (∀ db, tasks (f db) = tasks db) → keeps quiet (tx_put f).
Proof. intros H. apply keeps_put. intros db. by apply quiet_same. Qed.
Lemma keeps_quiet_pending P f : keeps quiet (update_pending P f).
Proof. by intros db n db' Hq [= <- <-]. Qed.
Lemma keeps_quiet_messages P f : keeps quiet (update_messages P f).
Proof. by intros db n db' Hq [= <- <-]. Qed.
Lemma keeps_quiet_ledger now i epoch from to o reason :
  keeps quiet (insert_ledger now i epoch from to o reason).
Proof. by intros db u db' Hq ->%insert_ledger_ok. Qed.
Lemma keeps_quiet_event e : keeps quiet (insert_event e).
Proof. by intros db u db' Hq ->%insert_event_ok. Qed.
Lemma keeps_quiet_commands i reason : keeps quiet (settle_terminal_commands i reason).
Proof. by intros db u db' Hq ->%settle_ok. Qed.
Lemma keeps_quiet_row m : keeps quiet (insert_message_row m).
Proof. by intros db u db' Hq [_ ->]%insert_message_row_ok. Qed.
Lemma keeps_quiet_result digest now id result : keeps quiet (insert_result digest now id result).
Proof.
  intros db u db' Hq. unfold insert_result. destruct (is_some _); [done|]. by intros [= <- <-].
Qed.
Lemma keeps_quiet_check id task result : keeps quiet (check_result id task result).
Proof. by intros db u db' Hq (-> & _)%check_result_ok. Qed.

(** In a drained store a guard finds a terminal phase. *)
Lemma keeps_quiet_guard {B} id (f : Guard → Tx B) :
  (∀ g, g_phase g = Terminal → keeps quiet (f g)) → keeps quiet (query_guard id ≫= f).
Proof.
  intros H db b db' Hq (g & db1 & (-> & r & Hr & Eg & _)%query_guard_ok & Hf)%tx_bind_ok.
  apply find_task_id in Hr as [_ Hin]. destruct (Hq r Hin) as [Hp _]. refine (H g _ db b db' Hq Hf). by rewrite Eg.
Qed.

Ltac not_terminal := intros r Hp; cbn; unfold unclaimed; rewrite Hp; cbn; rewrite ?andb_false_r; done.

Ltac quiet_leaf :=
  first
    [ apply keeps_quiet_live; not_terminal
    | apply keeps_quiet_tasks; intros ? [? ?] ?; split; done
    | apply keeps_quiet_pending | apply keeps_quiet_messages | apply keeps_quiet_ledger
    | apply keeps_quiet_event | apply keeps_quiet_commands | apply keeps_quiet_row
    | apply keeps_quiet_result | apply keeps_quiet_check
    | apply keeps_quiet_put; intros ?; reflexivity ].

Lemma keeps_quiet_terminal now id epoch from close stop t :
  keeps quiet (apply_terminal now id epoch from close stop t).
Proof. unfold apply_terminal. keeps_walk ltac:(quiet_leaf). Qed.

Lemma keeps_quiet_candidate now owner c : keeps quiet (claim_candidate now owner c).
Proof. unfold claim_candidate. keeps_walk ltac:(quiet_leaf). Qed.

Ltac quiet_walk :=
  keeps_walk ltac:(first [quiet_leaf | apply keeps_quiet_terminal | apply keeps_quiet_candidate]).

Lemma quiet_stop now id close intent db :
  quiet db → quiet (request_stop_internal now id close intent db).2.
Proof.
  intros Hq. apply (immediate_keeps quiet); [|exact Hq]. apply keeps_quiet_guard. intros g Hg.
  rewrite Hg. cbn. quiet_walk.
Qed.

Lemma quiet_reap now id db : quiet db → quiet (reap_task now id db).2.
Proof. intros Hq. keeps_op quiet Hq ltac:(quiet_walk). Qed.

Lemma quiet_fence db : quiet db → quiet (fence_queued_cancellation db).2.
Proof. intros Hq. keeps_op quiet Hq ltac:(quiet_walk). Qed.

(** An operation that submits or resumes a task. *)
Definition admits (db db' : Db) : Prop :=
  (∃ now task, db' = (enqueue_task_authoritative now task db).2)
  ∨ (∃ now id mid mode content, db' = (requeue_task_for_resume_with_message now id mid mode content db).2).

Lemma store_step_quiet digest db db' :
  store_step digest db db' → quiet db → quiet db' ∨ admits db db'.
Proof.
  intros Hs Hq. destruct Hs; first
    [ left; apply quiet_stop, Hq | right; left; by eauto
    | right; right; by eauto 10 | left; keeps_op quiet Hq ltac:(quiet_walk) ].
Qed.
