(* ===== verification/Contract.v ===== *)
(** * The wire contract with the agent runtime

    [crates/external-contract/src/lib.rs]: the strict envelopes of a protocol line,
    their derived codecs and [parse_line].  Text-to-JSON decoding
    ([serde_json::from_str]) and the wording of serde's errors are parameters. *)

From S2P Require Import Prelude RustStr Json Tokenizer.

(** ** Envelopes *)

Definition SESSION_EVENT : string := "session/event".

Inductive WireId := Integer (n : Z) | StringId (s : string).

Record RequestEnvelope := mk_request { req_id : WireId; req_method : string; req_params : Value }.
Record ResponseEnvelope := mk_response {
  resp_id : WireId; resp_result : option Value; resp_error : option Value }.
Record EventEnvelope := mk_event_envelope { event_method : string; event_params : Value }.

Inductive WireMessage :=
| Request (r : RequestEnvelope)
| Response (r : ResponseEnvelope)
| Event (e : EventEnvelope)
| UnknownEvent (method : string) (raw : Value).

Inductive ParseError :=
| InvalidJson (message : string)
| NotObject
| MissingKind
| InvalidEnvelope (message : string)
| ContradictoryResponse.

Definition success (id : WireId) (result : Value) : ResponseEnvelope :=
  mk_response id (Some result) None.
Definition failure (id : WireId) (error : Value) : ResponseEnvelope :=
  mk_response id None (Some error).

(** ** serde's derived codecs *)

Definition i64_min : Z := -9223372036854775808.

(** An untagged [i64] or [String]. *)
Definition decode_wire_id (v : Value) : option WireId :=
  match v with
  | VNumber (PosInt n) => if Z.leb n i64_max then Some (Integer n) else None
  | VNumber (NegInt n) => Some (Integer n)
  | VString s => Some (StringId s)
  | _ => None
  end.

Definition encode_wire_id (id : WireId) : Value :=
  match id with
  | Integer n => VNumber (if Z.leb 0 n then PosInt n else NegInt n)
  | StringId s => VString s
  end.

(** [deny_unknown_fields]. *)
Definition only_fields (allowed : list string) (fields : Fields) : bool :=
  forallb (λ '(k, _), one_of k allowed) fields.

Definition guard_some (b : bool) : option unit := if b then Some tt else None.

Definition decode_request (v : Value) : option RequestEnvelope :=
  fields ← as_object v;
  _ ← guard_some (only_fields ["id"; "method"; "params"] fields);
  id ← field_lookup "id" fields ≫= decode_wire_id;
  method ← field_lookup "method" fields ≫= as_str;
  Some (mk_request id method (default VNull (field_lookup "params" fields))).

(** [Option<Value>] reads [null] as [None]. *)
Definition decode_optional (o : option Value) : option Value :=
  match o with Some VNull => None | _ => o end.

Definition decode_response (v : Value) : option ResponseEnvelope :=
  fields ← as_object v;
  _ ← guard_some (only_fields ["id"; "result"; "error"] fields);
  id ← field_lookup "id" fields ≫= decode_wire_id;
  Some (mk_response id (decode_optional (field_lookup "result" fields))
          (decode_optional (field_lookup "error" fields))).

Definition decode_event (v : Value) : option EventEnvelope :=
  fields ← as_object v;
  _ ← guard_some (only_fields ["method"; "params"] fields);
  method ← field_lookup "method" fields ≫= as_str;
  Some (mk_event_envelope method (default VNull (field_lookup "params" fields))).

Definition encode_request (r : RequestEnvelope) : Value :=
  VObject [("id", encode_wire_id (req_id r)); ("method", VString (req_method r));
           ("params", req_params r)].

(** [skip_serializing_if = "Option::is_none"]. *)
Definition optional_field (key : string) (o : option Value) : Fields :=
  match o with Some v => [(key, v)] | None => [] end.

Definition encode_response (r : ResponseEnvelope) : Value :=
  VObject (optional_field "error" (resp_error r) ++ ("id", encode_wire_id (resp_id r))
           :: optional_field "result" (resp_result r)).

(** ** The parser *)

Section parser.
(** [serde_json::from_str] and the text of the errors of [serde_json::from_value]. *)
Context (from_str : string → result string Value) (serde_message : Value → string).

Definition envelope {A} (v : Value) (wrap : A → WireMessage) (o : option A)
    : result ParseError WireMessage :=
  match o with
  | Some a => Ok (wrap a)
  | None => Err (InvalidEnvelope (serde_message v))
  end.

Definition lifecycle_kind (kind : string) : bool :=
  one_of kind ["turn.started"; "turn.completed"; "turn.failed"].

Definition known_event (method : string) (fields : Fields) : bool :=
  (method ≟ SESSION_EVENT)
  && match (field_lookup "params" fields ≫= λ p, get p "type") ≫= as_str with
     | Some kind => lifecycle_kind kind
     | None => false
     end.

Definition parse_value (value : Value) : result ParseError WireMessage :=
  match as_object value with
  | None => Err NotObject
  | Some obj =>
      if contains_key obj "jsonrpc"
      then Err (InvalidEnvelope "jsonrpc is not part of the strict ZCode envelope")
      else if contains_key obj "id" && (contains_key obj "result" || contains_key obj "error") then
        if contains_key obj "result" && contains_key obj "error" then Err ContradictoryResponse
        else
          let body := match field_lookup "result" obj with
                      | Some v => Some v
                      | None => field_lookup "error" obj
                      end in
          if match body with Some v => is_null v | None => true end
          then Err (InvalidEnvelope "response requires exactly one non-null result or error")
          else envelope value Response (decode_response value)
      else
        match field_lookup "method" obj ≫= as_str with
        | None => Err MissingKind
        | Some method =>
            if contains_key obj "id" then
              let value := VObject (field_remove "trace" obj) in
              envelope value Request (decode_request value)
            else if known_event method obj then envelope value Event (decode_event value)
            else Ok (UnknownEvent method value)
        end
  end.

Definition parse_line (line : string) : result ParseError WireMessage :=
  match from_str line with
  | Err message => Err (InvalidJson message)
  | Ok value => parse_value value
  end.

(** A protocol identifier that fits the wire type. *)
Definition wire_id_ok (id : WireId) : Prop :=
  match id with Integer n => (i64_min ≤ n ≤ i64_max)%Z | StringId _ => True end.

Lemma wire_id_round_trip id : wire_id_ok id → decode_wire_id (encode_wire_id id) = Some id.
Proof.
  destruct id as [n|s]; simpl; [|done]. intros [_ Hn].
  destruct (Z.leb_spec 0 n); simpl; [|done]. by rewrite (proj2 (Z.leb_le n i64_max)).
Qed.

(** Trace metadata that a resumed session attaches to a request. *)
Definition with_trace (trace : option Value) (v : Value) : Value :=
  match trace, v with
  | Some t, VObject fields => VObject (fields ++ [("trace", t)])
  | _, _ => v
  end.

(** Requests survive the wire, traced or not: a line that decodes to an
    encoded request, with any trace metadata attached to it, parses back to
    exactly that request. *)
Theorem request_round_trip line r trace :
  wire_id_ok (req_id r) → from_str line = Ok (with_trace trace (encode_request r)) →
  parse_line line = Ok (Request r).
Proof.
  intros Hid Hl. unfold parse_line. rewrite Hl. destruct r as [id method params]. simpl in *.
  destruct trace as [t|]; unfold parse_value, envelope, decode_request; simpl;
    by rewrite wire_id_round_trip by done.
Qed.

(** Successful and failed responses survive the wire, unless their body is
    [null], which the protocol does not allow. *)
Theorem response_round_trip line id body ok :
  wire_id_ok id → is_null body = false →
  let r := if (ok : bool) then success id body else failure id body in
  from_str line = Ok (encode_response r) → parse_line line = Ok (Response r).
Proof.
  intros Hid Hb r Hl. unfold parse_line. rewrite Hl. subst r.
  destruct ok; unfold parse_value, envelope, decode_response; simpl; rewrite Hb; simpl;
    rewrite wire_id_round_trip by done; by destruct body.
Qed.

(** What a parsed response must look like on the wire. *)
Definition response_shape (v : Value) (r : ResponseEnvelope) : Prop :=
  ∃ fields, v = VObject fields ∧ only_fields ["id"; "result"; "error"] fields = true
    ∧ (∃ idv, field_lookup "id" fields = Some idv ∧ decode_wire_id idv = Some (resp_id r))
    ∧ ∃ body, is_null body = false
        ∧ ((field_lookup "result" fields = Some body ∧ field_lookup "error" fields = None
            ∧ resp_result r = Some body ∧ resp_error r = None)
           ∨ (field_lookup "error" fields = Some body ∧ field_lookup "result" fields = None
              ∧ resp_error r = Some body ∧ resp_result r = None)).

Lemma contains_key_some fields key :
  contains_key fields key = match field_lookup key fields with Some _ => true | None => false end.
Proof.
  destruct (contains_key fields key) eqn:E.
  - apply contains_key_lookup in E as [v ->]. done.
  - destruct (field_lookup key fields) eqn:F; [|done].
    assert (contains_key fields key = true) by (apply contains_key_lookup; eauto). congruence.
Qed.

Lemma decode_response_shape fields r :
  decode_response (VObject fields) = Some r →
  only_fields ["id"; "result"; "error"] fields = true
  ∧ (∃ idv, field_lookup "id" fields = Some idv ∧ decode_wire_id idv = Some (resp_id r))
  ∧ resp_result r = decode_optional (field_lookup "result" fields)
  ∧ resp_error r = decode_optional (field_lookup "error" fields).
Proof.
  unfold decode_response. simpl. destruct (only_fields _ fields); [|done]. simpl.
  destruct (field_lookup "id" fields) as [idv|]; simpl; [|done].
  destruct (decode_wire_id idv) as [id|] eqn:E; simpl; [|done]. intros [= <-]. split_and!; eauto.
Qed.

(** Fail-closed responses: whatever JSON arrives, a line is accepted as a
    response only when it is an object with a valid id, no unknown field, and
    exactly one of [result] and [error], not [null], which is what is returned. *)
Theorem response_is_strict v r :
  parse_value v = Ok (Response r) → response_shape v r.
Proof.
  unfold parse_value. destruct v as [| | | | |fields]; try done. simpl.
  destruct (contains_key fields "jsonrpc"); [done|].
  destruct (contains_key fields "id" && _) eqn:Hk.
  - apply andb_true_iff in Hk as [_ Hk].
    rewrite !contains_key_some in Hk |- *.
    unfold envelope. destruct (decode_response _) as [r'|] eqn:Hd; [|by repeat case_match].
    apply decode_response_shape in Hd as (Hof & Hid & Hres & Herr).
    destruct (field_lookup "result" fields) as [b|] eqn:Er, (field_lookup "error" fields) as [e|] eqn:Ee;
      simpl; try done.
    + destruct (is_null b) eqn:Hn; [done|]. intros [= <-]. exists fields. split_and!; try done.
      exists b. split; [done|]. left. split_and!; try done. by rewrite Hres; destruct b.
    + destruct (is_null e) eqn:Hn; [done|]. intros [= <-]. exists fields. split_and!; try done.
      exists e. split; [done|]. right. split_and!; try done. by rewrite Herr; destruct e.
  - destruct (field_lookup "method" fields ≫= as_str) as [m|]; [|done].
    destruct (contains_key fields "id"); [|destruct (known_event m fields)];
      unfold envelope; [destruct (decode_request _)|destruct (decode_event _)|]; done.
Qed.

End parser.

(** A decoder that knows one line, for the witnesses. *)
Definition one_line (line : string) (v : Value) (s : string) : result string Value :=
  if s ≟ line then Ok v else Err "expected value".

Definition sample_request : RequestEnvelope :=
  mk_request (Integer (-7)) "session/requestRuntimePreferences" (VObject []).

Definition sample_response : Value :=
  VObject [("error", VObject [("code", VNumber (PosInt 3))]); ("id", VString "r-1")].

Lemma request_round_trip_witness :
  parse_line (one_line "x" (with_trace (Some (VString "t")) (encode_request sample_request)))
    (λ _, "") "x" = Ok (Request sample_request).
Proof.
  apply (request_round_trip _ _ "x" sample_request (Some (VString "t"))).
  - vm_compute. split; discriminate.
  - reflexivity.
Defined.

Lemma response_round_trip_witness :
  parse_line (one_line "x" (encode_response (success (StringId "r") (VBool true)))) (λ _, "") "x"
  = Ok (Response (success (StringId "r") (VBool true))).
Proof.
  apply (response_round_trip _ _ "x" (StringId "r") (VBool true) true); reflexivity.
Defined.

Lemma response_is_strict_witness :
  ∃ r, parse_value (λ _, "") sample_response = Ok (Response r) ∧ response_shape sample_response r.
Proof.
  eexists. split; [reflexivity|]. apply (response_is_strict (λ _, "")). reflexivity.
Defined.
