(* ===== verification/Projection.v ===== *)
(** * Projections of runtime results

    The rest of [crates/external-contract/src/lib.rs]: the fail-closed readers of
    [session/create], [session/setModel] and [workspace/readState] results, model
    references and their comparison, the answer offered for a permission request,
    and the order of lifecycle events. *)

From stdpp Require Import sorting.
From S2P Require Import Prelude RustStr Json Tokenizer Contract.

Inductive ProjectionError :=
| Missing (path : string)
| Invalid (path : string)
| UnobservedAlternate (path : string)
| ModelConflict.

Definition slash : ascii := "/"%char.
Definition nul : ascii := byte_of 0.

(** ** Model references *)

(** [value.is_empty() || value.len() > max || value.contains('\0')], negated. *)
Definition bounded (max_len : Z) (value : string) : bool :=
  negb (str_is_empty value || Z.ltb max_len (str_len value) || contains_char value nul).

Definition is_provider_segment (provider : string) : bool :=
  negb (str_is_empty provider)
  && str_all (λ c, is_ascii_alphanumeric c || Ascii.eqb c "."%char || Ascii.eqb c "_"%char
                   || Ascii.eqb c "-"%char) provider.

Definition normalized_model_reference (value : string) : option (string * string) :=
  if negb (bounded 128 value) then None
  else
    let '(provider, model) :=
      match split_once slash value with
      | Some (provider, model) => (provider, model)
      | None => ("zai", value)
      end in
    if str_is_empty provider || str_is_empty model || contains_char model slash then None
    else if negb (is_provider_segment provider) then None
    else Some (provider, to_ascii_lowercase model).

Definition normalized_zai_model (value : string) : option string :=
  '(_, model) ← normalized_model_reference value; Some model.

Definition normalized_scoped_model (value : string) : option (string * string) :=
  if contains_char value slash then normalized_model_reference value else None.

Definition provider_model_matches (requested provider_id model_id : string) : bool :=
  match normalized_scoped_model requested with
  | None => false
  | Some (requested_provider, requested_model) =>
      if negb (is_provider_segment provider_id) then false
      else if negb (bounded 128 model_id) || contains_char model_id slash then false
      else (requested_provider ≟ provider_id) && (requested_model ≟ to_ascii_lowercase model_id)
  end.

(** ** Strict field readers *)

Definition optional_bounded_string (value : option Value) (path : string) (max_len : Z)
    : result ProjectionError (option string) :=
  match value with
  | None => Ok None
  | Some value =>
      value ← ok_or (Invalid path) (as_str value);
      if negb (bounded max_len value) then Err (Invalid path) else Ok (Some value)
  end.

Definition required_bounded_string (value : option Value) (path : string) (max_len : Z)
    : result ProjectionError string :=
  value ← ok_or (Missing path) value;
  value ← ok_or (Invalid path) (as_str value);
  if negb (bounded max_len value) then Err (Invalid path) else Ok value.

Definition reject_alternate (object : Fields) (key path : string) : result ProjectionError unit :=
  if contains_key object key then Err (UnobservedAlternate path) else Ok tt.

Definition optional_object (object : Fields) (key path : string)
    : result ProjectionError (option Fields) :=
  match field_lookup key object with
  | None => Ok None
  | Some value => fields ← ok_or (Invalid path) (as_object value); Ok (Some fields)
  end.

(** [let Some(x) = o? else { return Ok(d) }]. *)
Definition or_return {E A B} (d : B) (o : result E (option A)) (k : A → result E B) : result E B :=
  x ← o;
  match x with Some a => k a | None => Ok d end.

Definition settings_current_model (root : Fields) : result ProjectionError (option string) :=
  or_return None (optional_object root "settings" "result.settings") (λ settings,
  or_return None (optional_object settings "model" "result.settings.model") (λ model,
  _ ← reject_alternate model "value" "result.settings.model.value";
  or_return None (optional_object model "current" "result.settings.model.current") (λ current,
  _ ← reject_alternate current "id" "result.settings.model.current.id";
  match field_lookup "modelId" current with
  | None => Ok None
  | Some value =>
      value ← required_bounded_string (Some value) "result.settings.model.current.modelId" 128;
      match normalized_zai_model value with
      | None => Err (Invalid "result.settings.model.current.modelId")
      | Some _ => Ok (Some value)
      end
  end))).

Definition settings_thought_level (root : Fields) : result ProjectionError (option string) :=
  or_return None (optional_object root "settings" "result.settings") (λ settings,
  _ ← reject_alternate settings "thought" "result.settings.thought";
  or_return None (optional_object settings "thoughtLevel" "result.settings.thoughtLevel")
    (λ thought_level,
  match field_lookup "current" thought_level with
  | None => Ok None
  | Some value =>
      value ← required_bounded_string (Some value) "result.settings.thoughtLevel.current" 128;
      Ok (Some value)
  end)).

Definition session_consistency_model (session : Fields) : result ProjectionError (option string) :=
  or_return None (optional_object session "model" "result.session.model") (λ model,
  match field_lookup "modelId" model with
  | None => Ok None
  | Some value =>
      value ← required_bounded_string (Some value) "result.session.model.modelId" 128;
      match normalized_zai_model value with
      | None => Err (Invalid "result.session.model.modelId")
      | Some _ => Ok (Some value)
      end
  end).

Definition settings_current_reference (root : Fields)
    : result ProjectionError (option string * option string) :=
  or_return (None, None) (optional_object root "settings" "result.settings") (λ settings,
  or_return (None, None) (optional_object settings "model" "result.settings.model") (λ model,
  _ ← reject_alternate model "value" "result.settings.model.value";
  or_return (None, None) (optional_object model "current" "result.settings.model.current")
    (λ current,
  _ ← reject_alternate current "id" "result.settings.model.current.id";
  provider_id ← optional_bounded_string (field_lookup "providerId" current)
                  "result.settings.model.current.providerId" 128;
  model_id ← optional_bounded_string (field_lookup "modelId" current)
               "result.settings.model.current.modelId" 128;
  Ok (provider_id, model_id)))).

(** ** The catalog of [session/create] *)

Record CatalogModelEntry := mk_catalog_entry {
  provider_id : option string;
  model_id : option string;
  reasoning_levels : list string;
  default_level : option string }.

Definition catalog_reference (item : Fields)
    : result ProjectionError (option string * option string) :=
  match field_lookup "ref" item with
  | None => Ok (None, None)
  | Some reference =>
      reference ← ok_or (Invalid "result.settings.model.available[].ref") (as_object reference);
      provider_id ← optional_bounded_string (field_lookup "providerId" reference)
                      "result.settings.model.available[].ref.providerId" 128;
      model_id ← optional_bounded_string (field_lookup "modelId" reference)
                   "result.settings.model.available[].ref.modelId" 128;
      Ok (provider_id, model_id)
  end.

(** The loop over [reasoning.levels]: a level without a value is skipped. *)
Fixpoint catalog_levels (level_list : list Value) : result ProjectionError (list string) :=
  match level_list with
  | [] => Ok []
  | level :: rest =>
      level ← ok_or (Invalid "result.settings.model.available[].reasoning.levels[]")
                (as_object level);
      value ← optional_bounded_string (field_lookup "value" level)
                "result.settings.model.available[].reasoning.levels[].value" 128;
      levels ← catalog_levels rest;
      Ok (match value with Some v => v :: levels | None => levels end)
  end.

Definition catalog_reasoning (item : Fields)
    : result ProjectionError (list string * option string) :=
  match field_lookup "reasoning" item with
  | None => Ok ([], None)
  | Some reasoning =>
      reasoning ← ok_or (Invalid "result.settings.model.available[].reasoning")
                    (as_object reasoning);
      levels ← match field_lookup "levels" reasoning with
               | None => Ok []
               | Some level_list =>
                   level_list ← ok_or (Invalid "result.settings.model.available[].reasoning.levels")
                                  (as_array level_list);
                   catalog_levels level_list
               end;
      default_level ← optional_bounded_string (field_lookup "defaultLevel" reasoning)
                        "result.settings.model.available[].reasoning.defaultLevel" 128;
      Ok (levels, default_level)
  end.

Definition catalog_entry (item : Value) : result ProjectionError CatalogModelEntry :=
  item ← ok_or (Invalid "result.settings.model.available[]") (as_object item);
  '(provider_id, model_id) ← catalog_reference item;
  '(levels, default_level) ← catalog_reasoning item;
  Ok (mk_catalog_entry provider_id model_id levels default_level).

Definition settings_available_models (root : Fields)
    : result ProjectionError (list CatalogModelEntry) :=
  or_return [] (optional_object root "settings" "result.settings") (λ settings,
  or_return [] (optional_object settings "model" "result.settings.model") (λ model,
  match field_lookup "available" model with
  | None => Ok []
  | Some available =>
      available ← ok_or (Invalid "result.settings.model.available") (as_array available);
      traverse catalog_entry available
  end)).

(** ** The projections *)

Record SessionCreateProjection := mk_session_create {
  session_id : string;
  requested_model : option string;
  configured_thought_level : option string;
  available_models : list CatalogModelEntry }.

Definition models_agree (requested_model consistency_model : option string)
    : result ProjectionError unit :=
  match requested_model, consistency_model with
  | Some requested, Some observed =>
      if bool_decide (normalized_zai_model requested = normalized_zai_model observed)
      then Ok tt else Err ModelConflict
  | None, Some _ => Err (Missing "result.settings.model.current.modelId")
  | _, _ => Ok tt
  end.

Definition session_create_from_result (v : Value)
    : result ProjectionError SessionCreateProjection :=
  root ← ok_or (Invalid "result") (as_object v);
  _ ← reject_alternate root "sessionId" "result.sessionId";
  _ ← reject_alternate root "session_id" "result.session_id";
  _ ← reject_alternate root "modelId" "result.modelId";
  _ ← reject_alternate root "model" "result.model";
  session ← ok_or (Missing "result.session.sessionId") (field_lookup "session" root);
  session ← ok_or (Invalid "result.session") (as_object session);
  _ ← reject_alternate session "id" "result.session.id";
  _ ← reject_alternate session "session_id" "result.session.session_id";
  _ ← reject_alternate session "modelId" "result.session.modelId";
  _ ← reject_alternate session "settings" "result.session.settings";
  session_id ← required_bounded_string (field_lookup "sessionId" session)
                 "result.session.sessionId" 512;
  requested_model ← settings_current_model root;
  consistency_model ← session_consistency_model session;
  _ ← models_agree requested_model consistency_model;
  thought_level ← settings_thought_level root;
  available_models ← settings_available_models root;
  Ok (mk_session_create session_id requested_model thought_level available_models).

Record SetModelProjection := mk_set_model {
  echoed_provider_id : option string;
  echoed_model_id : option string;
  echoed_thought_level : option string }.

Definition set_model_projection_from_result (v : Value)
    : result ProjectionError SetModelProjection :=
  root ← ok_or (Invalid "result") (as_object v);
  '(provider_id, model_id) ← settings_current_reference root;
  thought_level ← settings_thought_level root;
  Ok (mk_set_model provider_id model_id thought_level).

Definition configured_thought_level_from_result (v : Value)
    : result ProjectionError (option string) :=
  root ← ok_or (Invalid "result") (as_object v);
  settings_thought_level root.

Record WorkspaceDiagnosticProjection := mk_workspace_diagnostic {
  current_model : option string;
  workspace_models : list string }.

(** [Vec<String>::sort]: equal strings are indistinguishable, so any sort is the
    stable one. *)
Fixpoint insert_sorted (x : string) (l : list string) : list string :=
  match l with
  | [] => [x]
  | y :: l' => if String.leb x y then x :: l else y :: insert_sorted x l'
  end.

Definition sort (l : list string) : list string := foldr insert_sorted [] l.

(** [Vec::dedup]: drops an element equal to its predecessor. *)
Fixpoint dedup_from (previous : string) (l : list string) : list string :=
  match l with
  | [] => []
  | x :: l' => if x ≟ previous then dedup_from previous l' else x :: dedup_from x l'
  end.

Definition dedup (l : list string) : list string :=
  match l with [] => [] | x :: l' => x :: dedup_from x l' end.

Definition workspace_model (item : Value) : result ProjectionError string :=
  item ← ok_or (Invalid "result.modelCatalog.available[]") (as_object item);
  reference ← ok_or (Invalid "result.modelCatalog.available[].ref")
                (field_lookup "ref" item ≫= as_object);
  required_bounded_string (field_lookup "modelId" reference)
    "result.modelCatalog.available[].ref.modelId" 128.

Definition workspace_diagnostic_from_result (v : Value)
    : result ProjectionError WorkspaceDiagnosticProjection :=
  root ← ok_or (Invalid "result") (as_object v);
  current_model ← settings_current_model root;
  catalog ← optional_object root "modelCatalog" "result.modelCatalog";
  models ← match catalog ≫= field_lookup "available" with
           | None => Ok []
           | Some available =>
               available ← ok_or (Invalid "result.modelCatalog.available") (as_array available);
               traverse workspace_model available
           end;
  Ok (mk_workspace_diagnostic current_model (dedup (sort models))).

(** ** Permission answers and lifecycle order *)

Definition kind_is (kind : string) (option : Value) : bool :=
  match get_str option "kind" with Some k => k ≟ kind | None => false end.

Definition expected_kind (decision : string) : option string :=
  if decision ≟ "allow" then Some "allow_once"
  else if decision ≟ "deny" then Some "deny"
  else None.

Definition offered_permission_response (params : Value) (decision : string) : option Value :=
  kind ← expected_kind decision;
  options ← get params "options" ≫= as_array;
  match List.filter (kind_is kind) options with
  | [option] =>
      response ← get option "response" ≫= as_object;
      if match field_lookup "decision" response ≫= as_str with
         | Some d => d ≟ decision
         | None => false
         end
      then Some (VObject response) else None
  | _ => None
  end.

Definition turn_id_from_result (v : Value) : option string := get_str v "turnId".

Definition event_type (event : EventEnvelope) : option string :=
  if event_method event ≟ SESSION_EVENT then get_str (event_params event) "type" else None.

Inductive LifecycleOrder :=
| NotLifecycle
| InOrder
| OutOfOrder (expected : string).

Definition classify_lifecycle (method : string) (turn_active : bool) : LifecycleOrder :=
  if method ≟ "turn.started" then
    if turn_active then OutOfOrder "turn.completed or turn.failed" else InOrder
  else if one_of method ["turn.completed"; "turn.failed"] then
    if turn_active then InOrder else OutOfOrder "turn.started"
  else NotLifecycle.

(** ** Model references: characterisation *)

Lemma bounded_nonempty n s : bounded n s = true → str_is_empty s = false.
Proof. unfold bounded. by destruct (str_is_empty s). Qed.

Lemma provider_segment_nonempty p : is_provider_segment p = true → str_is_empty p = false.
Proof. unfold is_provider_segment. by destruct (str_is_empty p). Qed.

Lemma provider_segment_no_slash p : is_provider_segment p = true → contains_char p slash = false.
Proof.
  unfold is_provider_segment. intros [_ H]%andb_true_iff.
  induction p as [|a p IH]; [done|]. rewrite contains_char_cons. simpl in H.
  apply andb_true_iff in H as [Ha Hp]. rewrite IH by done. rewrite orb_false_r.
  destruct (Ascii.eqb_spec slash a) as [<-|]; [discriminate Ha|done].
Qed.

(** A model name proper: not empty and without a slash. *)
Definition model_name (m : string) : bool := negb (str_is_empty m) && negb (contains_char m slash).

(** The references [provider/model], and bare names read as [zai/name]. *)
Inductive model_reference : string → string → string → Prop :=
| scoped_reference provider model :
    is_provider_segment provider = true → model_name model = true →
    model_reference (provider +:+ String slash model) provider model
| bare_reference model :
    model_name model = true → model_reference model "zai" model.

Lemma model_name_true m :
  model_name m = true ↔ str_is_empty m = false ∧ contains_char m slash = false.
Proof. unfold model_name. by rewrite andb_true_iff, !negb_true_iff. Qed.

Lemma normalized_model_reference_spec value p m :
  normalized_model_reference value = Some (p, m)
  ↔ bounded 128 value = true
    ∧ ∃ model, model_reference value p model ∧ m = to_ascii_lowercase model.
Proof.
  unfold normalized_model_reference. destruct (bounded 128 value) eqn:Hb; simpl; [|naive_solver].
  split.
  - intros H. split; [done|]. destruct (split_once slash value) as [[x y]|] eqn:Hs.
    + case_in H. bool_hyp. injection H as <- <-. apply split_once_some in Hs as ->.
      exists y. split; [|done]. constructor; [done|]. by apply model_name_true.
    + apply split_once_none in Hs. case_in H. injection H as <- <-.
      exists value. split; [|done]. constructor. apply model_name_true. split; [|done].
      by eapply bounded_nonempty.
  - intros (_ & model & Hr & ->). destruct Hr as [p model Hp Hm|model Hm].
    + rewrite split_once_app by by apply provider_segment_no_slash.
      apply model_name_true in Hm as [-> ->].
      rewrite provider_segment_nonempty by done. simpl. by rewrite Hp.
    + apply model_name_true in Hm as [He Hc]. rewrite (proj2 (split_once_none _ _) Hc), He, Hc. done.
Qed.

(** Models are compared with their provider: a requested token matches an
    observed pair exactly when it is within bounds and spelled
    [provider/model] with the observed provider letter for letter and the
    observed model up to ASCII case.  In particular a bare token, which the
    legacy path reads as [zai/token], matches nothing. *)
Theorem provider_model_matches_exact requested provider_id model_id :
  provider_model_matches requested provider_id model_id = true
  ↔ is_provider_segment provider_id = true ∧ bounded 128 requested = true
    ∧ bounded 128 model_id = true ∧ model_name model_id = true
    ∧ ∃ model, model_name model = true
        ∧ requested = provider_id +:+ String slash model
        ∧ to_ascii_lowercase model = to_ascii_lowercase model_id.
Proof.
  unfold provider_model_matches, normalized_scoped_model. split.
  - intros H. destruct (contains_char requested slash) eqn:Hc; [|done].
    destruct (normalized_model_reference requested) as [[p m]|] eqn:Hn; [|done].
    apply normalized_model_reference_spec in Hn as (Hb & model & Hr & ->).
    case_in H. bool_hyp. subst p. split_and!; try done.
    { apply model_name_true. split; [by eapply bounded_nonempty|done]. }
    inversion Hr as [? ? Hp Hm|? Hm]; simplify_eq; [by exists model|].
    apply model_name_true in Hm as [_ Hm]. congruence.
  - intros (Hp & Hb & Hbm & Hm & model & Hmodel & -> & Hl).
    rewrite contains_char_app, contains_char_cons, orb_true_r. simpl.
    rewrite (proj2 (normalized_model_reference_spec _ provider_id (to_ascii_lowercase model))).
    + apply model_name_true in Hm as [_ Hc]. rewrite Hp, Hbm, Hc, Hl, !String.eqb_refl. done.
    + split; [done|]. exists model. split; [by constructor|done].
Qed.

(** ** Answers offered to a permission request *)

(** Exactly one element of [l] satisfies [P], and it is [x]. *)
Definition unique_in {A} (P : A → bool) (l : list A) (x : A) : Prop :=
  ∃ before after, l = before ++ x :: after ∧ P x = true
    ∧ Forall (λ y, P y = false) before ∧ Forall (λ y, P y = false) after.

Lemma filter_nil_iff {A} (P : A → bool) l : List.filter P l = [] ↔ Forall (λ y, P y = false) l.
Proof.
  induction l as [|a l IH]; simpl; [done|]. rewrite Forall_cons, <- IH.
  by destruct (P a); split; [|intros []| |intros []].
Qed.

Lemma filter_unique {A} (P : A → bool) l x : List.filter P l = [x] ↔ unique_in P l x.
Proof.
  split.
  - induction l as [|a l IH]; simpl; [done|]. destruct (P a) eqn:Ha.
    + intros [= -> Hl]. exists [], l. split_and!; try done. by apply filter_nil_iff.
    + intros (b & c & -> & Hx & Hb & Hc)%IH. exists (a :: b), c. split_and!; try done.
      by constructor.
  - intros (b & c & -> & Hx & Hb%filter_nil_iff & Hc%filter_nil_iff).
    rewrite List.filter_app. simpl. by rewrite Hb, Hx, Hc.
Qed.

(** The daemon answers a permission request only with an answer the runtime
    offered: the response sent is the verbatim [response] object of the one
    option of the kind the decision calls for ([allow_once] for allow, never a
    standing grant), and that object carries the same decision.  With no such
    option, several of them, or a mismatched decision, there is no answer. *)
Theorem offered_permission_response_exact params decision answer :
  offered_permission_response params decision = Some answer
  ↔ ∃ kind options option response,
      ((decision = "allow" ∧ kind = "allow_once") ∨ (decision = "deny" ∧ kind = "deny"))
      ∧ get params "options" = Some (VArray options)
      ∧ unique_in (kind_is kind) options option
      ∧ get option "response" = Some (VObject response)
      ∧ field_lookup "decision" response = Some (VString decision)
      ∧ answer = VObject response.
Proof.
  unfold offered_permission_response. split.
  - intros H. destruct (expected_kind decision) as [kind|] eqn:Hk; simpl in H; [|done].
    destruct (get params "options") as [[]|] eqn:Ho; try done. simpl in H.
    destruct (List.filter _ _) as [|option [|]] eqn:Hf; try done.
    destruct (get option "response") as [[]|] eqn:Hr; try done. simpl in H.
    destruct (field_lookup "decision" fields) as [[]|] eqn:Hd; simpl in H; try done.
    case_in H. bool_hyp. subst. injection H as <-.
    exists kind, items, option, fields. split_and!; try done; [|by apply filter_unique].
    unfold expected_kind in Hk. case_in Hk; bool_hyp; naive_solver.
  - intros (kind & options & option & response & Hk & Ho & Hu & Hr & Hd & ->).
    assert (expected_kind decision = Some kind) as -> by by destruct Hk as [[-> ->]|[-> ->]].
    rewrite Ho. simpl. rewrite (proj2 (filter_unique _ _ _) Hu), Hr. simpl. rewrite Hd. simpl.
    by rewrite String.eqb_refl.
Qed.

(** ** The projections, path by path *)

(** The value at a path of object keys. *)
Definition at_path (path : list string) (v : Value) : option Value :=
  foldl (λ o key, x ← o; get x key) (Some v) path.

Lemma or_return_ok {E A B} (d : B) (o : result E (option A)) k b :
  or_return d o k = Ok b ↔ (o = Ok None ∧ b = d) ∨ ∃ a, o = Ok (Some a) ∧ k a = Ok b.
Proof. unfold or_return. destruct o as [[a|]|]; simpl; naive_solver. Qed.

Lemma optional_object_ok object key path o :
  optional_object object key path = Ok o ↔ field_lookup key object = VObject <$> o.
Proof.
  unfold optional_object. destruct (field_lookup key object) as [v|];
    [destruct v|]; destruct o; simpl; split; congruence.
Qed.

Lemma reject_alternate_ok object key path u :
  reject_alternate object key path = Ok u ↔ field_lookup key object = None.
Proof.
  unfold reject_alternate. rewrite contains_key_some. destruct u, (field_lookup key object); done.
Qed.

Lemma required_bounded_string_ok o path n s :
  required_bounded_string o path n = Ok s ↔ o = Some (VString s) ∧ bounded n s = true.
Proof.
  unfold required_bounded_string. destruct o as [v|]; [destruct v|]; simpl;
    try (split; [discriminate | intros [? _]; discriminate]).
  destruct (bounded n s0) eqn:E; simpl; split; [intros [= ->]|intros [[= ->] _]| |intros [[= ->] ?]];
    congruence || done.
Qed.

#[local] Hint Rewrite @or_return_ok optional_object_ok reject_alternate_ok
  required_bounded_string_ok : projection_rw.

(** Opens a successful projection into the lookups it made. *)
Ltac open_projection H :=
  repeat first
    [ progress autorewrite with agent_rw projection_rw in H
    | match type of H with
      | _ ∧ _ => let H1 := fresh "L" in destruct H as [H1 H]; open_projection H1
      | ∃ _, _ => let a := fresh "a" in destruct H as [a H]
      | _ ∨ _ => destruct H as [H|H]
      end ].

Ltac at_lookup :=
  unfold at_path; simpl in *; simplify_eq/=;
  repeat (match goal with H : field_lookup _ _ = _ |- _ => rewrite H end; simpl); try done.

Lemma settings_current_model_ok root o :
  settings_current_model root = Ok o →
  o = at_path ["settings"; "model"; "current"; "modelId"] (VObject root) ≫= as_str
  ∧ at_path ["settings"; "model"; "value"] (VObject root) = None
  ∧ at_path ["settings"; "model"; "current"; "id"] (VObject root) = None
  ∧ ∀ m, o = Some m → bounded 128 m = true ∧ is_Some (normalized_zai_model m).
Proof.
  unfold settings_current_model. intros H. open_projection H; try by at_lookup.
  destruct (field_lookup "modelId" _) as [v|] eqn:Hv; [|at_lookup].
  open_projection H. destruct (normalized_zai_model _) eqn:Hn; [|done]. at_lookup.
  split_and!; try done. intros m [= <-]. eauto.
Qed.

Lemma settings_thought_level_ok root o :
  settings_thought_level root = Ok o →
  o = at_path ["settings"; "thoughtLevel"; "current"] (VObject root) ≫= as_str
  ∧ at_path ["settings"; "thought"] (VObject root) = None
  ∧ ∀ m, o = Some m → bounded 128 m = true.
Proof.
  unfold settings_thought_level. intros H. open_projection H; try by at_lookup.
  destruct (field_lookup "current" _) as [v|] eqn:Hv; [|at_lookup].
  open_projection H. at_lookup. split_and!; try done. by intros m [= <-].
Qed.

Lemma session_consistency_model_ok root session o :
  field_lookup "session" root = Some (VObject session) →
  session_consistency_model session = Ok o →
  VString <$> o = at_path ["session"; "model"; "modelId"] (VObject root).
Proof.
  unfold session_consistency_model. intros Hs H. open_projection H; try by at_lookup.
  destruct (field_lookup "modelId" _) as [v|] eqn:Hv; [|at_lookup].
  open_projection H. destruct (normalized_zai_model _) eqn:Hn; [|done]. by at_lookup.
Qed.

Lemma models_agree_ok requested observed u :
  models_agree requested observed = Ok u →
  ∀ o, observed = Some o →
    ∃ m, requested = Some m ∧ normalized_zai_model m = normalized_zai_model o.
Proof.
  unfold models_agree. intros H o ->. destruct requested as [m|]; [|done].
  case_bool_decide; [eauto|done].
Qed.

(** The locations where other runtimes put the session id, the model or the
    thought level, none of which may be present. *)
Definition alternate_paths : list (list string) :=
  [["sessionId"]; ["session_id"]; ["modelId"]; ["model"];
   ["session"; "id"]; ["session"; "session_id"]; ["session"; "modelId"]; ["session"; "settings"];
   ["settings"; "model"; "value"]; ["settings"; "model"; "current"; "id"]; ["settings"; "thought"]].

(** A created session is described from the authoritative fields alone.  When
    the projection of a [session/create] result succeeds, the session id is the
    bounded string at [session.sessionId], the model and the thought level are
    what stands at [settings.model.current.modelId] and
    [settings.thoughtLevel.current] (and nothing when nothing stands there), no
    alternate location is present, and a model repeated inside the session is
    the same model up to normalisation. *)
Theorem session_create_projection_authoritative v p :
  session_create_from_result v = Ok p →
  (at_path ["session"; "sessionId"] v = Some (VString (session_id p))
   ∧ bounded 512 (session_id p) = true)
  ∧ requested_model p = at_path ["settings"; "model"; "current"; "modelId"] v ≫= as_str
  ∧ configured_thought_level p = at_path ["settings"; "thoughtLevel"; "current"] v ≫= as_str
  ∧ Forall (λ path, at_path path v = None) alternate_paths
  ∧ (∀ o, at_path ["session"; "model"; "modelId"] v = Some o →
      ∃ s m, o = VString s ∧ requested_model p = Some m
             ∧ is_Some (normalized_zai_model m)
             ∧ normalized_zai_model m = normalized_zai_model s).
Proof.
  unfold session_create_from_result. intros H. open_projection H. simplify_eq/=.
  destruct v as [| | | | |root]; try done. injection L as <-.
  destruct a4 as [| | | | |session]; try done. injection L5 as <-.
  apply settings_current_model_ok in L12 as (Hm & Hm1 & Hm2 & Hm3).
  apply settings_thought_level_ok in L15 as (Ht & Ht1 & _).
  apply (session_consistency_model_ok root) in L13; [|done].
  split_and!; try done.
  - by at_lookup.
  - unfold alternate_paths. rewrite !Forall_cons. split_and!; by at_lookup.
  - intros o Ho. rewrite Ho in L13. destruct a12 as [s|]; [|done]. injection L13 as <-.
    destruct (models_agree_ok _ _ _ L14 s eq_refl) as (m & -> & Hn).
    exists s, m. split_and!; try done. by apply Hm3.
Qed.

Definition sample_session : Value :=
  VObject [("session", VObject [("sessionId", VString "s-1");
                                ("model", VObject [("modelId", VString "zai/GLM-5")])]);
           ("settings", VObject [("model", VObject [("current",
                VObject [("modelId", VString "glm-5")])])])].

Lemma session_create_projection_authoritative_witness :
  ∃ p, session_create_from_result sample_session = Ok p
       ∧ at_path ["session"; "sessionId"] sample_session = Some (VString (session_id p)).
Proof.
  eexists. split; [vm_compute; reflexivity|].
  eapply (session_create_projection_authoritative sample_session). vm_compute. reflexivity.
Defined.

(** ** The catalog of a workspace *)

Lemma insert_sorted_elem x l y : y ∈ insert_sorted x l ↔ y = x ∨ y ∈ l.
Proof.
  induction l as [|z l IH]; simpl; [set_solver|].
  destruct (String.leb x z); set_solver.
Qed.

Lemma sort_elem l y : y ∈ sort l ↔ y ∈ l.
Proof.
  induction l as [|x l IH]; [done|]. change (sort (x :: l)) with (insert_sorted x (sort l)).
  rewrite insert_sorted_elem, IH. set_solver.
Qed.

Lemma dedup_elem l y : y ∈ dedup l ↔ y ∈ l.
Proof.
  destruct l as [|x l]; [done|]. simpl. revert x.
  induction l as [|z l IH]; intros x; simpl; [done|].
  destruct (String.eqb_spec z x) as [->|Hne].
  - specialize (IH x). set_solver.
  - specialize (IH z). set_solver.
Qed.

(** Byte order without equality. *)
Definition string_before (a b : string) : Prop := String.le a b ∧ a ≠ b.

Lemma insert_sorted_sorted x l :
  StronglySorted String.le l → StronglySorted String.le (insert_sorted x l).
Proof.
  induction 1 as [|y l Hl IH Hy]; simpl; [by repeat constructor|].
  destruct (String.leb x y) eqn:Hxy.
  - apply Is_true_true in Hxy. constructor; [by constructor|]. constructor; [done|].
    eapply Forall_impl; [done|]. intros z Hz. by transitivity y.
  - constructor; [done|]. apply Forall_forall. intros z [->|Hz]%insert_sorted_elem.
    + destruct (String.leb_total x y) as [?|?]; [congruence|]. by apply Is_true_true.
    + by eapply Forall_forall in Hy.
Qed.

Lemma sort_sorted l : StronglySorted String.le (sort l).
Proof. induction l as [|x l IH]; [constructor | by apply insert_sorted_sorted]. Qed.

Lemma dedup_sorted l : StronglySorted String.le l → StronglySorted string_before (dedup l).
Proof.
  destruct l as [|x l]; [constructor|]. simpl. revert x.
  induction l as [|y l IH]; intros x H; simpl; [by repeat constructor|].
  apply StronglySorted_inv in H as [H Hx]. apply Forall_cons in Hx as [Hxy Hx].
  destruct (String.eqb_spec y x) as [->|Hne].
  - by apply IH.
  - specialize (IH y H). constructor; [done|].
    assert (Forall (String.le y) l) as Hyl by exact (proj2 (StronglySorted_inv H)).
    apply Forall_forall. intros z Hz. apply (dedup_elem (y :: l)) in Hz.
    apply elem_of_cons in Hz as [->|Hz]; [by split|].
    assert (String.le y z) by by eapply Forall_forall in Hyl.
    split; [by transitivity y|]. intros ->. apply Hne. by apply (anti_symm String.le).
Qed.

Lemma workspace_model_ok item m :
  workspace_model item = Ok m →
  at_path ["ref"; "modelId"] item = Some (VString m) ∧ bounded 128 m = true.
Proof.
  unfold workspace_model. intros H. open_projection H.
  destruct item; try done. injection L as <-.
  destruct (field_lookup "ref" fields) as [[]|] eqn:Hr; try done. injection L0 as <-.
  split; [|done]. by at_lookup.
Qed.

(** The models of a workspace form a canonical list: strictly increasing in
    byte order, hence without duplicates, and holding exactly the bounded model
    ids the catalog offers. *)
Theorem workspace_models_canonical v p :
  workspace_diagnostic_from_result v = Ok p →
  StronglySorted string_before (workspace_models p)
  ∧ ∀ m, m ∈ workspace_models p ↔
      ∃ items item, at_path ["modelCatalog"; "available"] v = Some (VArray items)
        ∧ item ∈ items ∧ at_path ["ref"; "modelId"] item = Some (VString m)
        ∧ bounded 128 m = true.
Proof.
  unfold workspace_diagnostic_from_result. intros H. open_projection H.
  destruct v as [| | | | |root]; try done. injection L as <-. simplify_eq/=.
  split; [apply dedup_sorted, sort_sorted|]. intros m. rewrite dedup_elem, sort_elem.
  assert (at_path ["modelCatalog"; "available"] (VObject root) = a1 ≫= field_lookup "available") as ->.
  { at_lookup. by destruct a1. }
  destruct (a1 ≫= field_lookup "available") as [available|] eqn:Ha; simpl in L2.
  - open_projection L2. destruct available; try done. injection L as <-.
    apply traverse_ok in L2. split.
    + intros (i & Hi)%list_elem_of_lookup. destruct (Forall2_lookup_r _ _ _ _ _ L2 Hi) as (item & Hit & Hm).
      apply workspace_model_ok in Hm as [? ?]. exists items, item.
      split_and!; try done. by eapply list_elem_of_lookup_2.
    + intros (items' & item & [= <-] & (i & Hi)%list_elem_of_lookup & Hm & _).
      destruct (Forall2_lookup_l _ _ _ _ _ L2 Hi) as (m' & Hi' & Hm').
      apply workspace_model_ok in Hm' as [Hm' _]. rewrite Hm' in Hm. injection Hm as ->.
      by eapply list_elem_of_lookup_2.
  - injection L2 as <-. split; [by intros ?%elem_of_nil|]. by intros (? & ? & ? & _).
Qed.

Definition sample_workspace : Value :=
  VObject [("modelCatalog", VObject [("available",
    VArray (map (λ m, VObject [("ref", VObject [("modelId", VString m)])]) ["b"; "a"; "b"]))])].

Lemma workspace_models_canonical_witness :
  ∃ p, workspace_diagnostic_from_result sample_workspace = Ok p
       ∧ workspace_models p = ["a"; "b"] ∧ StronglySorted string_before (workspace_models p).
Proof.
  eexists. split; [vm_compute; reflexivity|]. split; [reflexivity|].
  apply (workspace_models_canonical sample_workspace). vm_compute. reflexivity.
Defined.
