(* ===== verification/Observation.v ===== *)
(** * Observation of an agent's calls and reasoning

    [crates/external-daemon/src/observation.rs]: what the daemon records of the tool
    calls and the public reasoning of one runtime, with replay guards, bounds and
    an account of what it dropped.

    Hash maps and sets are finite maps and sets.  Where the source iterates over a
    hash set the order is an argument; where it sorts what it collected from a map
    the order does not matter.  [serde_json::to_string] is a parameter.  [Map]
    equality is equality of the sorted entries. *)

From stdpp Require Import gmap sorting pretty.
From S2P Require Import Prelude RustStr Utf8 Json.

Definition VERIFIED_RUNTIME_VERSION : string := "3.11.2".
Definition VERIFIED_EVENT_TYPE : string := "model.streaming".
Definition VERIFIED_DELTA_POINTER : string := "/params/payload/delta".
Definition MAX_IDENTITIES : Z := 65536.
Definition MAX_TOOL_TYPES : nat := 64.
Definition MAX_RECENT_CALLS : nat := 5.
Definition MAX_REASONING_CHARS : nat := 200.
Definition MAX_REASONING_BYTES : nat := 64 * 1024.
Definition MAX_ID_BYTES : nat := 512.
Definition MAX_ARGUMENT_BYTES : nat := 4 * 1024.
Definition MAX_ARGUMENT_PREVIEW_BYTES : nat := 2000.

(** ** Data *)

Record ObservedCall := mk_observed_call {
  seq : Z; observed_call_id : string; arguments : Fields;
  arguments_truncated : bool; redacted_fields : Z }.

Record ObservedTool := mk_observed_tool {
  tool_name : string; tool_call_count : Z; tool_recent_calls : list ObservedCall }.

Record ReasoningSource := mk_reasoning_source {
  status : string; runtime_version : string; source_event_type : string;
  delta_pointer : string }.

#[global] Instance ReasoningSource_eq_dec : EqDecision ReasoningSource.
Proof. solve_decision. Defined.

Definition verified_source : ReasoningSource :=
  mk_reasoning_source "VERIFIED_RUNTIME_PUBLIC" VERIFIED_RUNTIME_VERSION VERIFIED_EVENT_TYPE
    VERIFIED_DELTA_POINTER.

Definition dsh_source : ReasoningSource :=
  mk_reasoning_source "VERIFIED_PROTOCOL_PUBLIC" "acp/1" "agent_thought_chunk"
    "/params/update/content/text".

Definition is_verified_public (r : ReasoningSource) : bool :=
  bool_decide (r = verified_source) || bool_decide (r = dsh_source).

Record ObservedReasoning := mk_observed_reasoning {
  text : string; text_truncated : bool; source : ReasoningSource }.

Record ObservationCoverage := mk_coverage {
  history_complete : bool; thoughts_complete : bool; dropped : Z }.

Record ObservationSnapshot := mk_observation_snapshot {
  snapshot_number : Z; snapshot_tools : list ObservedTool;
  snapshot_reasoning : ObservedReasoning; snapshot_coverage : ObservationCoverage }.

Definition unavailable : ObservationSnapshot :=
  mk_observation_snapshot 0 [] (mk_observed_reasoning "" false verified_source)
    (mk_coverage false false 0).

Record ToolDescriptor := mk_descriptor {
  descriptor_turn_id : string; descriptor_call_id : string; descriptor_tool_name : string;
  source_identity : string; input : option Value; detail : option string }.

Record ToolGroup := mk_group {
  call_count : Z; latest_seq : Z; recent_calls : list ObservedCall }.

Definition default_group : ToolGroup := mk_group 0 0 [].

Record ObservationState := mk_observation {
  launch_scope : Z;
  collect_reasoning : bool;
  reasoning_source : ReasoningSource;
  snapshot_seq : Z;
  next_call_seq : Z;
  seen_source_events : gset string;
  seen_descriptor_frames : gset string;
  seen_calls : gmap string (string * Z);
  tools : gmap string ToolGroup;
  reasoning_raw : string;
  reasoning_text : string;
  reasoning_truncated : bool;
  tool_history_complete : bool;
  reasoning_complete : bool;
  dropped_events : Z }.

(** Field updates. *)
Definition set_launch_scope (v : Z) (s : ObservationState) : ObservationState :=
  mk_observation v (collect_reasoning s) (reasoning_source s) (snapshot_seq s)
    (next_call_seq s) (seen_source_events s) (seen_descriptor_frames s) (seen_calls s)
    (tools s) (reasoning_raw s) (reasoning_text s) (reasoning_truncated s)
    (tool_history_complete s) (reasoning_complete s) (dropped_events s).
Definition set_snapshot_seq (v : Z) (s : ObservationState) : ObservationState :=
  mk_observation (launch_scope s) (collect_reasoning s) (reasoning_source s) v
    (next_call_seq s) (seen_source_events s) (seen_descriptor_frames s) (seen_calls s)
    (tools s) (reasoning_raw s) (reasoning_text s) (reasoning_truncated s)
    (tool_history_complete s) (reasoning_complete s) (dropped_events s).
Definition set_calls (n : Z) (m : gmap string (string * Z)) (s : ObservationState) : ObservationState :=
  mk_observation (launch_scope s) (collect_reasoning s) (reasoning_source s)
    (snapshot_seq s) n (seen_source_events s) (seen_descriptor_frames s) m (tools s)
    (reasoning_raw s) (reasoning_text s) (reasoning_truncated s) (tool_history_complete s)
    (reasoning_complete s) (dropped_events s).
Definition set_source_events (m : gset string) (s : ObservationState) : ObservationState :=
  mk_observation (launch_scope s) (collect_reasoning s) (reasoning_source s)
    (snapshot_seq s) (next_call_seq s) m (seen_descriptor_frames s) (seen_calls s) (tools s)
    (reasoning_raw s) (reasoning_text s) (reasoning_truncated s) (tool_history_complete s)
    (reasoning_complete s) (dropped_events s).
Definition set_descriptor_frames (m : gset string) (s : ObservationState) : ObservationState :=
  mk_observation (launch_scope s) (collect_reasoning s) (reasoning_source s)
    (snapshot_seq s) (next_call_seq s) (seen_source_events s) m (seen_calls s) (tools s)
    (reasoning_raw s) (reasoning_text s) (reasoning_truncated s) (tool_history_complete s)
    (reasoning_complete s) (dropped_events s).
Definition set_tools (m : gmap string ToolGroup) (s : ObservationState) : ObservationState :=
  mk_observation (launch_scope s) (collect_reasoning s) (reasoning_source s)
    (snapshot_seq s) (next_call_seq s) (seen_source_events s) (seen_descriptor_frames s)
    (seen_calls s) m (reasoning_raw s) (reasoning_text s) (reasoning_truncated s)
    (tool_history_complete s) (reasoning_complete s) (dropped_events s).
Definition set_reasoning (raw text : string) (cut : bool) (s : ObservationState) : ObservationState :=
  mk_observation (launch_scope s) (collect_reasoning s) (reasoning_source s)
    (snapshot_seq s) (next_call_seq s) (seen_source_events s) (seen_descriptor_frames s)
    (seen_calls s) (tools s) raw text cut (tool_history_complete s) (reasoning_complete s)
    (dropped_events s).
Definition set_coverage (t r : bool) (n : Z) (s : ObservationState) : ObservationState :=
  mk_observation (launch_scope s) (collect_reasoning s) (reasoning_source s)
    (snapshot_seq s) (next_call_seq s) (seen_source_events s) (seen_descriptor_frames s)
    (seen_calls s) (tools s) (reasoning_raw s) (reasoning_text s) (reasoning_truncated s) t
    r n.

Definition default_state : ObservationState :=
  mk_observation 0 true verified_source 0 0 ∅ ∅ ∅ ∅ "" "" false true true 0.

Definition for_launch (adapter : string) (scope : Z) : ObservationState :=
  let public := one_of adapter ["zcode"; "dsh"] in
  mk_observation scope public (if adapter ≟ "dsh" then dsh_source else verified_source)
    0 0 ∅ ∅ ∅ ∅ "" "" false (adapter ≟ "zcode") public 0.

Definition for_adapter (adapter : string) : ObservationState := for_launch adapter 0.

(** ** Small helpers *)

Definition launch_key (scope : Z) (source_id : string) : string :=
  pretty scope +:+ nul_str +:+ source_id.

Definition valid_text (value : string) : bool :=
  negb (str_is_empty value) && Nat.leb (String.length value) MAX_ID_BYTES
  && negb (contains_char value (byte_of 0)).

(** [Option::filter]. *)
Definition keep_if {A} (P : A → bool) (o : option A) : option A :=
  match o with Some a => if P a then Some a else None | None => None end.

Definition valid_id (value : option Value) : option string :=
  keep_if valid_text (value ≫= as_str).

Definition reasoning_tail (value : string) : string :=
  String.concat "" (reverse (take MAX_REASONING_CHARS (reverse (chars value)))).

Definition bump_snapshot (s : ObservationState) : ObservationState :=
  set_snapshot_seq (saturating_add (snapshot_seq s) 1) s.

Definition drop_event (tool : bool) (s : ObservationState) : ObservationState :=
  bump_snapshot
    (set_coverage (if tool then false else tool_history_complete s)
       (if tool then reasoning_complete s else false)
       (saturating_add (dropped_events s) 1) s).

Definition observe_loss (s : ObservationState) : ObservationState :=
  bump_snapshot (set_coverage false false (saturating_add (dropped_events s) 1) s).

Definition is_object (v : Value) : bool :=
  match v with VObject _ => true | _ => false end.

Definition is_nil {A} (l : list A) : bool := match l with [] => true | _ => false end.

(** [len() >= MAX_IDENTITIES]. *)
Definition full {C} `{Size C} (m : C) : bool := Z.leb MAX_IDENTITIES (Z.of_nat (size m)).

(** [exclude_protocol_fields]: the value without its [encrypted_content] entries at
    any depth, and the running number of entries left out. *)
Fixpoint exclude_protocol_fields (v : Value) (excluded : Z) : Value * Z :=
  match v with
  | VObject fields =>
      let '(kept, n) :=
        (fix go (l : Fields) (n : Z) : Fields * Z :=
           match l with
           | [] => ([], n)
           | (key, value) :: rest =>
               if key ≟ "encrypted_content" then go rest (saturating_add n 1)
               else let '(value', n1) := exclude_protocol_fields value n in
                    let '(rest', n2) := go rest n1 in ((key, value') :: rest', n2)
           end) fields excluded in
      (VObject kept, n)
  | VArray items =>
      let '(kept, n) :=
        (fix go (l : list Value) (n : Z) : list Value * Z :=
           match l with
           | [] => ([], n)
           | value :: rest =>
               let '(value', n1) := exclude_protocol_fields value n in
               let '(rest', n2) := go rest n1 in (value' :: rest', n2)
           end) items excluded in
      (VArray kept, n)
  | other => (other, excluded)
  end.

(** ** Recording a call *)

(** [iter_mut().find(|call| call.seq == seq)] and the assignment of its fields. *)
Fixpoint update_call (sq : Z) (args : Fields) (cut : bool) (redacted : Z)
    (l : list ObservedCall) : list ObservedCall :=
  match l with
  | [] => []
  | c :: rest =>
      if Z.eqb (seq c) sq then mk_observed_call (seq c) (observed_call_id c) args cut redacted :: rest
      else c :: update_call sq args cut redacted rest
  end.

Definition find_call (sq : Z) (l : list ObservedCall) : option ObservedCall :=
  List.find (λ c, Z.eqb (seq c) sq) l.

Definition call_identity (turn_id call_id : string) : string :=
  turn_id +:+ nul_str +:+ call_id.

(** An update without known arguments never erases known ones. *)
Definition refines_call (c : ObservedCall) (args : Fields) (cut : bool) (redacted : Z) : bool :=
  let unknown_downgrade := is_nil args && cut && negb (is_nil (arguments c)) in
  negb unknown_downgrade
  && (bool_decide (arguments c ≠ args) || negb (Bool.eqb (arguments_truncated c) cut)
      || negb (Z.eqb (redacted_fields c) redacted)).

Definition push_call (c : ObservedCall) (g : ToolGroup) : ToolGroup :=
  mk_group (saturating_add (call_count g) 1) (seq c) (take MAX_RECENT_CALLS (c :: recent_calls g)).

Definition record_tool_call (turn_id call_id name : string) (args : Fields) (cut : bool)
    (redacted : Z) (s : ObservationState) : ObservationState :=
  let identity := call_identity turn_id call_id in
  match seen_calls s !! identity with
  | Some (original_name, sq) =>
      match tools s !! original_name with
      | Some g =>
          match find_call sq (recent_calls g) with
          | Some c =>
              if refines_call c args cut redacted
              then bump_snapshot
                     (set_tools (<[original_name := mk_group (call_count g) (latest_seq g)
                                    (update_call sq args cut redacted (recent_calls g))]> (tools s)) s)
              else s
          | None => s
          end
      | None => s
      end
  | None =>
      if full (seen_calls s) then drop_event true s
      else if bool_decide (tools s !! name = None) && Nat.leb MAX_TOOL_TYPES (size (tools s))
      then drop_event true s
      else
        let sq := saturating_add (next_call_seq s) 1 in
        let g := default default_group (tools s !! name) in
        bump_snapshot
          (set_tools (<[name := push_call (mk_observed_call sq call_id args cut redacted) g]> (tools s))
             (set_calls sq (<[identity := (name, sq)]> (seen_calls s)) s))
  end.

(** ** Reasoning *)

Definition observe_reasoning (delta : string) (s : ObservationState) : ObservationState :=
  if str_is_empty delta then s
  else
    let combined := reasoning_raw s +:+ delta in
    let rolled := Nat.ltb MAX_REASONING_BYTES (String.length combined) in
    let raw := roll MAX_REASONING_BYTES combined in
    let cut := reasoning_truncated s || rolled in
    let s := if rolled
             then set_coverage (tool_history_complete s) false (saturating_add (dropped_events s) 1) s
             else s in
    set_reasoning raw (reasoning_tail raw)
      (cut || Nat.ltb MAX_REASONING_CHARS (length (chars raw))) s.

Section project.
(** [serde_json::to_string]. *)
Context (to_string : Value → string).

Definition project_arguments (value : option Value) : Fields * bool * Z :=
  let '(args, excluded) :=
    match value ≫= as_object with
    | Some fields =>
        let '(kept, n) := exclude_protocol_fields (VObject fields) 0 in
        (default [] (as_object kept), n)
    | None => ([], 0%Z)
    end in
  let serialized := to_string (VObject args) in
  if Nat.leb (String.length serialized) MAX_ARGUMENT_BYTES then (args, false, excluded)
  else
    let preview_end :=
      prev_boundary serialized (String.length serialized `min` MAX_ARGUMENT_PREVIEW_BYTES) in
    let projected := [("_truncated_preview", VString (str_take preview_end serialized))] in
    let projected :=
      if Nat.ltb MAX_ARGUMENT_BYTES (String.length (to_string (VObject projected)))
      then [] else projected in
    (projected, true, excluded).

Definition observe_tool (params payload : Value) (s : ObservationState) : ObservationState :=
  match valid_id (get payload "toolCallId"), valid_id (get payload "toolName") with
  | Some call_id, Some name =>
      let turn_id := default "" (valid_id (get params "turnId")) in
      let '(args, cut, redacted) := project_arguments (get payload "input") in
      let known := match get payload "input" with Some v => is_object v | None => false end in
      let cut := if bool_decide (reasoning_source s = dsh_source) && negb known then true else cut in
      record_tool_call turn_id call_id name args cut redacted s
  | _, _ => drop_event true s
  end.

Definition observe_message (method : string) (params : Value) (s : ObservationState)
    : ObservationState :=
  if negb (method ≟ "session/event")
     || negb (bool_decide (get_str params "type" = Some VERIFIED_EVENT_TYPE)) then s
  else
    let payload := get_or_null params "payload" in
    match get_str payload "kind" with
    | None => s
    | Some kind =>
        let tool := kind ≟ "tool_call" in
        if negb (tool || (kind ≟ "reasoning_delta")) then s
        else if (kind ≟ "reasoning_delta") && negb (collect_reasoning s) then s
        else
          match valid_id (get params "eventId") with
          | None => drop_event tool s
          | Some event_id =>
              let key := launch_key (launch_scope s) event_id in
              if bool_decide (key ∈ seen_source_events s) then s
              else if full (seen_source_events s) then drop_event tool s
              else
                let s := set_source_events ({[key]} ∪ seen_source_events s) s in
                if tool then observe_tool params payload s
                else
                  match get_str payload "delta" with
                  | None =>
                      bump_snapshot (set_coverage (tool_history_complete s) false
                                       (saturating_add (dropped_events s) 1) s)
                  | Some delta => bump_snapshot (observe_reasoning delta s)
                  end
          end
    end.

(** The arguments a descriptor stands for. *)
Definition descriptor_arguments (d : ToolDescriptor) : Fields * bool * Z :=
  match input d with
  | Some v =>
      let '(args, cut, redacted) := project_arguments (Some v) in
      (args, if is_object v then cut else true, redacted)
  | None => project_arguments (Some (VObject [("detail", VString (default "" (detail d)))]))
  end.

Definition observe_descriptor (d : ToolDescriptor) (s : ObservationState) : ObservationState :=
  if negb (valid_text (descriptor_call_id d)) || negb (valid_text (descriptor_tool_name d))
     || str_is_empty (source_identity d) || contains_char (source_identity d) (byte_of 0)
  then drop_event true s
  else
    let key := launch_key (launch_scope s) (source_identity d) in
    if bool_decide (key ∈ seen_descriptor_frames s) then s
    else if full (seen_descriptor_frames s) then drop_event true s
    else
      let s := set_descriptor_frames ({[key]} ∪ seen_descriptor_frames s) s in
      let '(args, cut, redacted) := descriptor_arguments d in
      record_tool_call (descriptor_turn_id d) (descriptor_call_id d) (descriptor_tool_name d)
        args cut redacted s.

End project.

(** ** Replacement of a tracker *)

Definition call_row : Type := Z * string * string.

Definition received_before (a b : call_row) : Prop := (a.1.1 ≤ b.1.1)%Z.
#[global] Instance received_before_dec : RelDecision received_before.
Proof. intros a b. unfold received_before. apply _. Defined.

(** The calls of a tracker in receipt order. *)
Definition calls_in_order (s : ObservationState) : list call_row :=
  merge_sort received_before
    ((λ '(identity, (name, sq)), (sq, identity, name)) <$> map_to_list (seen_calls s)).

Definition split_identity (identity : string) : string * string :=
  default ("", identity) (split_once (byte_of 0) identity).

Definition call_detail (newer : ObservationState) (name : string) (sq : Z) : Fields * bool * Z :=
  match tools newer !! name ≫= λ g, find_call sq (recent_calls g) with
  | Some c => (arguments c, arguments_truncated c, redacted_fields c)
  | None => ([], true, 0%Z)
  end.

Definition merge_call (newer s : ObservationState) (row : call_row) : ObservationState :=
  let '(sq, identity, name) := row in
  if bool_decide (is_Some (seen_calls s !! identity)) then s
  else
    let '(turn_id, call_id) := split_identity identity in
    let '(args, cut, redacted) := call_detail newer name sq in
    record_tool_call turn_id call_id name args cut redacted s.

(** The guard sets are copied in the order the hash set yields, up to the cap. *)
Fixpoint merge_guards (lens : ObservationState → gset string)
    (put : gset string → ObservationState → ObservationState) (order : list string)
    (s : ObservationState) : ObservationState :=
  match order with
  | [] => s
  | key :: rest =>
      if full (lens s) then set_coverage false false (saturating_add (dropped_events s) 1) s
      else merge_guards lens put rest (put ({[key]} ∪ lens s) s)
  end.

(** Its first statements: the launch scope, the reasoning stream, the coverage. *)
Definition merge_streams (newer s : ObservationState) : ObservationState :=
  let s := set_launch_scope (launch_scope newer) s in
  let s := if str_is_empty (reasoning_raw newer) then s
           else observe_reasoning (reasoning_raw newer) s in
  let s := set_reasoning (reasoning_raw s) (reasoning_text s)
             (reasoning_truncated s || reasoning_truncated newer) s in
  set_coverage (tool_history_complete s && tool_history_complete newer)
    (reasoning_complete s && reasoning_complete newer)
    (saturating_add (dropped_events s) (dropped_events newer)) s.

(** [self.merge_newer(newer)], with the iteration orders of the two guard sets. *)
Definition merge_newer (events frames : list string) (newer s : ObservationState)
    : ObservationState :=
  let s := merge_streams newer s in
  let s := fold_left (merge_call newer) (calls_in_order newer) s in
  let s := merge_guards seen_source_events set_source_events events s in
  let s := merge_guards seen_descriptor_frames set_descriptor_frames frames s in
  set_snapshot_seq (saturating_add (snapshot_seq s) (snapshot_seq newer)) s.

(** ** The published snapshot *)

(** The order of [sort_by]: more calls first, then the latest call, then the name. *)
Definition ranks_before (a b : string * ToolGroup) : bool :=
  match Z.compare (call_count b.2) (call_count a.2) with
  | Lt => true | Gt => false
  | Eq => match Z.compare (latest_seq b.2) (latest_seq a.2) with
          | Lt => true | Gt => false
          | Eq => String.leb a.1 b.1
          end
  end.

Definition ranked (a b : string * ToolGroup) : Prop := ranks_before a b = true.
#[global] Instance ranked_dec : RelDecision ranked.
Proof. intros a b. unfold ranked. apply _. Defined.

Definition snapshot (s : ObservationState) : ObservationSnapshot :=
  let order := merge_sort ranked (map_to_list (tools s)) in
  mk_observation_snapshot (snapshot_seq s)
    ((λ '(name, g), mk_observed_tool name (call_count g) (recent_calls g)) <$> take 3 order)
    (mk_observed_reasoning (reasoning_text s) (reasoning_truncated s) (reasoning_source s))
    (mk_coverage (tool_history_complete s) (reasoning_complete s) (dropped_events s)).

(** [runtime_source_verified] hashes a file: a parameter. *)
Definition adapter_runtime_source_verified (file_verified : option string → bool)
    (adapter : string) (runtime_source : option string) : bool :=
  if adapter ≟ "zcode" then file_verified runtime_source
  else if adapter ≟ "dsh" then true else false.
