(* ===== verification/ObservationProps.v ===== *)
(** * Theorems on observations

    Bounds and accounting of every reachable observation state, replay guards,
    redaction of arguments, and what the merge at a tracker replacement keeps. *)

From stdpp Require Import gmap sorting pretty.
From S2P Require Import Prelude RustStr Utf8 Json Observation.

(** ** Redaction *)

(** No [encrypted_content] entry at any depth. *)
Fixpoint redacted (v : Value) : bool :=
  match v with
  | VObject fields =>
      forallb (λ '(k, x), negb (k ≟ "encrypted_content") && redacted x) fields
  | VArray items => forallb redacted items
  | _ => true
  end.

Lemma exclude_redacted v n : redacted (exclude_protocol_fields v n).1 = true.
Proof.
  revert v n. fix IH 1. intros v n. destruct v as [|b|m|s|items|fields]; [reflexivity.. | |]; simpl.
  - match goal with |- context [?f items n] => set (go := f) end.
    assert (H : ∀ n, forallb redacted (go items n).1 = true).
    { induction items as [|x items IHl]; intros k; [reflexivity|]. cbn [go].
      pose proof (IH x k) as Hx. destruct (exclude_protocol_fields x k) as [x' k1].
      pose proof (IHl k1) as Hl. fold go. destruct (go items k1) as [l' k2].
      simpl in *. rewrite Hx, Hl. reflexivity. }
    clear IH. specialize (H n). by destruct (go items n).
  - match goal with |- context [?f fields n] => set (go := f) end.
    assert (H : ∀ n, redacted (VObject (go fields n).1) = true).
    { induction fields as [|[key x] fields IHl]; intros k; [reflexivity|]. cbn [go].
      destruct (key ≟ "encrypted_content") eqn:Ek; [apply IHl|].
      pose proof (IH x k) as Hx. destruct (exclude_protocol_fields x k) as [x' k1].
      pose proof (IHl k1) as Hl. fold go. destruct (go fields k1) as [l' k2].
      simpl in *. rewrite Ek, Hx, Hl. reflexivity. }
    clear IH. specialize (H n). by destruct (go fields n).
Qed.

(** ** Characters of a tail *)

Lemma chars_from_cons owed s c l :
  chars_from owed s = c :: l → ∃ t, s = c +:+ t ∧ l = chars t.
Proof.
  revert owed c l; induction s as [|a s IH]; intros owed c l; [done|]. cbn [chars_from].
  assert (Hmore : ∀ k, match chars_from k s with
      | [] => [String a EmptyString] | x :: l => String a x :: l end = c :: l →
      ∃ t, String a s = c +:+ t ∧ l = chars t).
  { intros k. destruct (chars_from k s) as [|x r] eqn:E; intros [= <- <-].
    - exists s. split; [done|]. destruct s as [|b s]; [done|].
      cbn [chars_from] in E. repeat case_match; done.
    - destruct (IH k x r E) as (t & -> & ->). by exists t. }
  destruct owed as [|[|k]].
  - destruct (utf8_extra a) as [|k]; [intros [= <- <-]; by exists s | apply Hmore].
  - intros [= <- <-]. by exists s.
  - apply Hmore.
Qed.

Lemma chars_drop n s : ∃ t, drop n (chars s) = chars t ∧ ∃ p, s = p +:+ t.
Proof.
  revert s; induction n as [|n IH]; intros s; [exists s; split; [done | by exists EmptyString]|].
  destruct (chars s) as [|c l] eqn:E.
  - exists EmptyString. split; [done|]. exists s. by rewrite string_app_nil_r.
  - destruct (chars_from_cons 0 s c l E) as (t & -> & ->).
    destruct (IH t) as (u & Hu & p & ->). exists u. split; [done|]. exists (c +:+ p).
    by rewrite string_app_assoc.
Qed.

Lemma concat_fold l acc : fold_left String.append l acc = acc +:+ String.concat "" l.
Proof.
  revert acc; induction l as [|x l IH]; intros acc; simpl; [by rewrite string_app_nil_r|].
  rewrite IH. destruct l; simpl; [by rewrite string_app_nil_r|]. by rewrite string_app_assoc.
Qed.

Lemma chars_concat_id s : String.concat "" (chars s) = s.
Proof. pose proof (concat_fold (chars s) "") as H. by rewrite chars_concat in H. Qed.

(** The published tail is a suffix of at most [MAX_REASONING_CHARS] characters. *)
Lemma reasoning_tail_spec s :
  length (chars (reasoning_tail s)) ≤ MAX_REASONING_CHARS ∧ ∃ p, s = p +:+ reasoning_tail s.
Proof.
  unfold reasoning_tail. rewrite take_reverse, reverse_involutive.
  destruct (chars_drop (length (chars s) - MAX_REASONING_CHARS) s) as (t & Ht & p & Hp).
  rewrite Ht, chars_concat_id. split; [|by exists p].
  rewrite <- Ht, length_drop. lia.
Qed.

(** ** The invariant *)

(** Calls recorded under one tool name. *)
Definition count_of (name : string) (seen : gmap string (string * Z)) : nat :=
  size (filter (λ kv : string * (string * Z), kv.2.1 = name) seen).

Lemma count_of_insert t id name q seen :
  seen !! id = None →
  count_of t (<[id := (name, q)]> seen) =
  if decide (name = t) then S (count_of t seen) else count_of t seen.
Proof.
  intros Hid. unfold count_of. rewrite map_filter_insert. simpl.
  destruct (decide (name = t)) as [->|Hne].
  - rewrite map_size_insert_None; [done|]. apply map_lookup_filter_None. by left.
  - by rewrite delete_id.
Qed.

Lemma count_of_empty t : count_of t ∅ = 0.
Proof. unfold count_of. by rewrite map_filter_empty, map_size_empty. Qed.

Lemma count_of_zero t seen :
  (∀ id q, seen !! id ≠ Some (t, q)) → count_of t seen = 0.
Proof.
  intros H. unfold count_of. apply map_size_empty_iff, map_empty. intros id.
  apply map_lookup_filter_None. right. intros [t' q] Hl. simpl. intros ->. by apply (H id q).
Qed.

Lemma count_of_le t seen : count_of t seen ≤ size seen.
Proof. apply map_size_filter. Qed.

Lemma size_add_le (key : string) (X : gset string) : size ({[key]} ∪ X) ≤ S (size X).
Proof.
  rewrite size_union_alt, size_singleton.
  pose proof (subseteq_size (X ∖ {[key]}) X ltac:(set_solver)). lia.
Qed.

Lemma full_false {C} `{Size C} (m : C) : full m = false ↔ (Z.of_nat (size m) < MAX_IDENTITIES)%Z.
Proof. unfold full. apply Z.leb_gt. Qed.

Lemma StronglySorted_take {A} (R : A → A → Prop) n l : StronglySorted R l → StronglySorted R (take n l).
Proof. intros H. rewrite <- (take_drop n l) in H. by apply StronglySorted_app_1_l in H. Qed.

Section props.
Context (to_string : Value → string).

(** What a recorded call may show. *)
Definition call_ok (c : ObservedCall) : Prop :=
  redacted (VObject (arguments c)) = true
  ∧ String.length (to_string (VObject (arguments c))) ≤ MAX_ARGUMENT_BYTES.

Record group_ok (seen : gmap string (string * Z)) (next : Z) (t : string) (g : ToolGroup) : Prop := {
  go_count : call_count g = Z.of_nat (count_of t seen);
  go_recent : length (recent_calls g) = MAX_RECENT_CALLS `min` count_of t seen;
  go_order : StronglySorted (λ a b : Z, (b < a)%Z) (seq <$> recent_calls g);
  go_latest : head (seq <$> recent_calls g) = Some (latest_seq g);
  go_bound : (latest_seq g ≤ next)%Z;
  go_known : Forall (λ c, ∃ turn, seen !! call_identity turn (observed_call_id c) = Some (t, seq c))
               (recent_calls g);
  go_calls : Forall call_ok (recent_calls g) }.

Record state_ok (s : ObservationState) : Prop := {
  so_events : (Z.of_nat (size (seen_source_events s)) ≤ MAX_IDENTITIES)%Z;
  so_frames : (Z.of_nat (size (seen_descriptor_frames s)) ≤ MAX_IDENTITIES)%Z;
  so_calls : (Z.of_nat (size (seen_calls s)) ≤ MAX_IDENTITIES)%Z;
  so_tools : size (tools s) ≤ MAX_TOOL_TYPES;
  so_next : next_call_seq s = Z.of_nat (size (seen_calls s));
  so_groups : map_Forall (group_ok (seen_calls s) (next_call_seq s)) (tools s);
  so_named : map_Forall (λ id v, is_Some (tools s !! v.1) ∧ (0 < v.2 ≤ next_call_seq s)%Z
               ∧ ∃ turn call, id = call_identity turn call) (seen_calls s);
  so_raw : String.length (reasoning_raw s) ≤ MAX_REASONING_BYTES;
  so_text : reasoning_text s = reasoning_tail (reasoning_raw s) }.

(** The parts of the state the invariant reads. *)
Definition same_calls (s s' : ObservationState) : Prop :=
  seen_calls s' = seen_calls s ∧ tools s' = tools s ∧ next_call_seq s' = next_call_seq s.
Definition same_guards (s s' : ObservationState) : Prop :=
  seen_source_events s' = seen_source_events s
  ∧ seen_descriptor_frames s' = seen_descriptor_frames s.
Definition same_reasoning (s s' : ObservationState) : Prop :=
  reasoning_raw s' = reasoning_raw s ∧ reasoning_text s' = reasoning_text s.

Lemma state_ok_same s s' :
  same_calls s s' → same_guards s s' → same_reasoning s s' → state_ok s → state_ok s'.
Proof.
  intros (E1 & E2 & E3) (E4 & E5) (E6 & E7) [].
  constructor; rewrite ?E1, ?E2, ?E3, ?E4, ?E5, ?E6, ?E7; done.
Qed.

Lemma drop_event_ok tool s : state_ok s → state_ok (drop_event tool s).
Proof. by apply state_ok_same. Qed.

Lemma bump_ok s : state_ok s → state_ok (bump_snapshot s).
Proof. by apply state_ok_same. Qed.

Lemma coverage_ok a b n s : state_ok s → state_ok (set_coverage a b n s).
Proof. by apply state_ok_same. Qed.

Lemma update_call_seqs sq a cut r l : seq <$> update_call sq a cut r l = seq <$> l.
Proof.
  induction l as [|c l IH]; simpl; [done|].
  destruct (Z.eqb (seq c) sq); csimpl; [done | by rewrite IH].
Qed.

Lemma update_call_forall (P : ObservedCall → Prop) sq a cut r l :
  (∀ c, P c → P (mk_observed_call (seq c) (observed_call_id c) a cut r)) →
  Forall P l → Forall P (update_call sq a cut r l).
Proof.
  intros HP. induction 1 as [|c l Hc Hl IH]; simpl; [constructor|].
  destruct (Z.eqb (seq c) sq); constructor; auto.
Qed.

Lemma update_group_ok seen next t g sq a cut r :
  redacted (VObject a) = true → String.length (to_string (VObject a)) ≤ MAX_ARGUMENT_BYTES →
  group_ok seen next t g →
  group_ok seen next t
    (mk_group (call_count g) (latest_seq g) (update_call sq a cut r (recent_calls g))).
Proof.
  intros Ha Hl []. constructor; simpl; rewrite ?update_call_seqs; try done.
  - by rewrite <- (length_fmap seq), update_call_seqs, length_fmap.
  - apply update_call_forall; done.
  - apply update_call_forall; done.
Qed.

(** A group after one more call, of it or of another tool. *)
Lemma group_ok_insert seen next t g id name q :
  seen !! id = None → name ≠ t → (next ≤ q)%Z → group_ok seen next t g →
  group_ok (<[id := (name, q)]> seen) q t g.
Proof.
  intros Hid Hne Hq []. constructor; rewrite ?count_of_insert, ?decide_False by done; try done; [lia|].
  apply (Forall_impl _ _ _ go_known0). intros c (turn & Hc). exists turn. rewrite lookup_insert_ne; [done|].
  intros E. congruence.
Qed.

Lemma push_call_ok seen next t g turn call a cut r :
  seen !! call_identity turn call = None → (0 ≤ next < u64_max)%Z →
  (Z.of_nat (count_of t seen) ≤ next)%Z →
  redacted (VObject a) = true → String.length (to_string (VObject a)) ≤ MAX_ARGUMENT_BYTES →
  g = default_group ∧ count_of t seen = 0 ∨ group_ok seen next t g →
  group_ok (<[call_identity turn call := (t, (next + 1)%Z)]> seen) (next + 1) t
    (push_call (mk_observed_call (next + 1) call a cut r) g).
Proof.
  intros Hid Hn Hc Ha Hl Hg.
  assert (Hcount : call_count g = Z.of_nat (count_of t seen))
    by (destruct Hg as [[-> ->]|[]]; done).
  assert (Hlen : length (recent_calls g) = MAX_RECENT_CALLS `min` count_of t seen)
    by (destruct Hg as [[-> ->]|[]]; done).
  assert (Hord : StronglySorted (λ a b : Z, (b < a)%Z) (seq <$> recent_calls g))
    by (destruct Hg as [[-> _]|[]]; [constructor | done]).
  assert (Hbound : Forall (λ q, q ≤ next)%Z (seq <$> recent_calls g)).
  { destruct Hg as [[-> _]|[]]; [constructor|].
    destruct (seq <$> recent_calls g) as [|q qs]; [constructor|]. simplify_eq/=.
    apply StronglySorted_inv in go_order0 as [_ Hq]. constructor; [done|].
    eapply Forall_impl; [done|]. simpl. lia. }
  assert (Hcalls : Forall call_ok (recent_calls g)) by (destruct Hg as [[-> _]|[]]; [constructor | done]).
  constructor; unfold push_call; cbn [call_count latest_seq recent_calls seq];
    rewrite ?count_of_insert, ?decide_True by done.
  - unfold saturating_add. lia.
  - rewrite length_take. simpl length. lia.
  - rewrite fmap_take, fmap_cons. apply StronglySorted_take. constructor; [done|].
    apply (Forall_impl _ _ _ Hbound). simpl. lia.
  - done.
  - lia.
  - apply Forall_take. constructor; [exists turn; by rewrite lookup_insert_eq|].
    destruct Hg as [[-> _]|[]]; [constructor|]. apply (Forall_impl _ _ _ go_known0).
    intros c (tn & Hk). exists tn. rewrite lookup_insert_ne; [done|]. intros E. congruence.
  - apply Forall_take. by constructor.
Qed.

(** Every operation that records a call keeps the invariant. *)
Lemma record_tool_call_ok turn call name a cut r s :
  redacted (VObject a) = true → String.length (to_string (VObject a)) ≤ MAX_ARGUMENT_BYTES →
  state_ok s → state_ok (record_tool_call turn call name a cut r s).
Proof.
  intros Ha Hl Hs. unfold record_tool_call.
  destruct (seen_calls s !! call_identity turn call) as [[original sq]|] eqn:Hid.
  { destruct (tools s !! original) as [g|] eqn:Hg; [|done].
    destruct (find_call sq (recent_calls g)) as [c|]; [|done].
    destruct (refines_call c a cut r); [|done]. apply bump_ok. destruct Hs.
    constructor; simpl; try done.
    - rewrite map_size_insert_Some by eauto. done.
    - apply map_Forall_insert_2; [|done]. by apply update_group_ok, (so_groups0 original).
    - intros id [t q] Hv. destruct (so_named0 id _ Hv) as (Ht & Hq & Hi). split_and!; try done; simpl in *;
        try lia. apply lookup_insert_is_Some'. by right. }
  destruct (full (seen_calls s)) eqn:Hfull; [by apply drop_event_ok|].
  destruct (bool_decide (tools s !! name = None) && _) eqn:Hroom; [by apply drop_event_ok|].
  apply full_false in Hfull. apply bump_ok. pose proof Hs as [].
  assert (Hsat : saturating_add (next_call_seq s) 1 = (next_call_seq s + 1)%Z).
  { unfold saturating_add, u64_max, MAX_IDENTITIES in *. lia. }
  assert (Hcount : count_of name (seen_calls s) ≤ size (seen_calls s)) by apply count_of_le.
  rewrite Hsat. constructor; simpl; try done.
  - rewrite map_size_insert_None by done. lia.
  - destruct (tools s !! name) as [g|] eqn:Hg; [by rewrite map_size_insert_Some by eauto|].
    rewrite bool_decide_eq_true_2, andb_true_l in Hroom by done.
    rewrite map_size_insert_None by done. bool_hyp. lia.
  - rewrite map_size_insert_None by done. lia.
  - intros t g'. destruct (decide (name = t)) as [->|Hne].
    + rewrite lookup_insert_eq. intros [= <-].
      apply push_call_ok; try done; [unfold u64_max, MAX_IDENTITIES in *; lia | lia |].
      destruct (tools s !! t) as [g|] eqn:Hg; simpl; [right; by apply so_groups0|].
      left. split; [done|]. apply count_of_zero. intros id q Hq.
      destruct (so_named0 id _ Hq) as [[? ?] _]. simpl in *. congruence.
    + rewrite lookup_insert_ne by done. intros Hg. apply (group_ok_insert _ (next_call_seq s)); try done;
        [lia | by apply so_groups0].
  - apply map_Forall_insert_2.
    + split_and!; simpl; [by rewrite lookup_insert_eq | lia | lia | by exists turn, call].
    + intros id [t q] Hv. destruct (so_named0 id _ Hv) as (Ht & Hq & Hi). simpl in *.
      split_and!; simpl; try done; try lia. apply lookup_insert_is_Some'. by right.
Qed.

(** [serde_json] writes the empty object in a few bytes. *)
Context (to_string_empty : String.length (to_string (VObject [])) ≤ MAX_ARGUMENT_BYTES).

Lemma project_arguments_ok v a cut r :
  project_arguments to_string v = (a, cut, r) →
  redacted (VObject a) = true ∧ String.length (to_string (VObject a)) ≤ MAX_ARGUMENT_BYTES.
Proof.
  unfold project_arguments.
  destruct (match v ≫= as_object with Some _ => _ | None => _ end) as [args n] eqn:E.
  assert (Hr : redacted (VObject args) = true).
  { destruct (v ≫= as_object) as [fields|]; [|by simplify_eq].
    pose proof (exclude_redacted (VObject fields) 0) as H.
    destruct (exclude_protocol_fields (VObject fields) 0) as [kept k]. simplify_eq.
    destruct kept; done. }
  destruct (Nat.leb_spec (String.length (to_string (VObject args))) MAX_ARGUMENT_BYTES);
    intros [= <- <- <-]; [done|].
  match goal with |- context [Nat.ltb ?x ?y] => destruct (Nat.ltb_spec x y) end; done.
Qed.

Lemma observe_tool_ok params payload s :
  state_ok s → state_ok (observe_tool to_string params payload s).
Proof.
  intros Hs. unfold observe_tool.
  destruct (valid_id (get payload "toolCallId")), (valid_id (get payload "toolName"));
    try by apply drop_event_ok.
  destruct (project_arguments to_string (get payload "input")) as [[a cut] r] eqn:E.
  apply project_arguments_ok in E as [? ?]. by apply record_tool_call_ok.
Qed.

Lemma observe_reasoning_ok delta s : state_ok s → state_ok (observe_reasoning delta s).
Proof.
  intros Hs. unfold observe_reasoning. destruct (str_is_empty delta); [done|].
  pose proof (roll_length MAX_REASONING_BYTES (reasoning_raw s +:+ delta)).
  destruct (Nat.ltb _ _), Hs; by constructor.
Qed.

Lemma source_events_ok key s :
  full (seen_source_events s) = false → state_ok s →
  state_ok (set_source_events ({[key]} ∪ seen_source_events s) s).
Proof.
  intros Hf%full_false []. constructor; try done. simpl.
  pose proof (size_add_le key (seen_source_events s)). lia.
Qed.

Lemma descriptor_frames_ok key s :
  full (seen_descriptor_frames s) = false → state_ok s →
  state_ok (set_descriptor_frames ({[key]} ∪ seen_descriptor_frames s) s).
Proof.
  intros Hf%full_false []. constructor; try done. simpl.
  pose proof (size_add_le key (seen_descriptor_frames s)). lia.
Qed.

Lemma observe_message_ok method params s :
  state_ok s → state_ok (observe_message to_string method params s).
Proof.
  intros Hs. unfold observe_message. destruct (_ || _); [done|].
  destruct (get_str (get_or_null params "payload") "kind") as [kind|]; [|done].
  destruct (negb _); [done|]. destruct (_ && _); [done|].
  destruct (valid_id _) as [id|]; [|by apply drop_event_ok].
  destruct (bool_decide _); [done|].
  destruct (full _) eqn:Hf; [by apply drop_event_ok|].
  eapply source_events_ok in Hs; [|done].
  destruct (kind ≟ "tool_call"); [by apply observe_tool_ok|].
  destruct (get_str _ "delta") as [delta|]; apply bump_ok;
    [by apply observe_reasoning_ok | by apply coverage_ok].
Qed.

Lemma observe_descriptor_ok d s : state_ok s → state_ok (observe_descriptor to_string d s).
Proof.
  intros Hs. unfold observe_descriptor. destruct (_ || _); [by apply drop_event_ok|].
  destruct (bool_decide _); [done|]. destruct (full _) eqn:Hf; [by apply drop_event_ok|].
  eapply descriptor_frames_ok in Hs; [|done].
  destruct (descriptor_arguments to_string d) as [[a cut] r] eqn:E.
  assert (redacted (VObject a) = true ∧ String.length (to_string (VObject a)) ≤ MAX_ARGUMENT_BYTES)
    as [? ?]; [|by apply record_tool_call_ok].
  unfold descriptor_arguments in E. destruct (input d) as [v|]; [|by apply project_arguments_ok in E].
  destruct (project_arguments to_string (Some v)) as [[a' cut'] r'] eqn:E'. simplify_eq.
  by apply project_arguments_ok in E'.
Qed.

Lemma find_call_in sq l c : find_call sq l = Some c → c ∈ l.
Proof. intros H. apply find_some in H as [H _]. by apply list_elem_of_In. Qed.

Lemma call_detail_ok newer name sq a cut r :
  state_ok newer → call_detail newer name sq = (a, cut, r) →
  redacted (VObject a) = true ∧ String.length (to_string (VObject a)) ≤ MAX_ARGUMENT_BYTES.
Proof.
  intros Hs. unfold call_detail. destruct (tools newer !! name) as [g|] eqn:Hg; simpl;
    [|by intros [= <- <- <-]].
  destruct (find_call sq (recent_calls g)) as [c|] eqn:Hc; intros [= <- <- <-]; [|done].
  destruct (so_groups newer Hs name g Hg). apply find_call_in in Hc.
  rewrite Forall_forall in go_calls0. by apply go_calls0.
Qed.

Lemma merge_call_ok newer s row : state_ok newer → state_ok s → state_ok (merge_call newer s row).
Proof.
  intros Hn Hs. destruct row as [[sq identity] name]. unfold merge_call.
  destruct (bool_decide _); [done|]. destruct (split_identity identity) as [turn call].
  destruct (call_detail newer name sq) as [[a cut] r] eqn:E.
  apply call_detail_ok in E as [? ?]; [|done]. by apply record_tool_call_ok.
Qed.

Lemma merge_calls_ok newer rows s :
  state_ok newer → state_ok s → state_ok (fold_left (merge_call newer) rows s).
Proof. intros Hn. revert s; induction rows as [|row rows IH]; simpl; auto using merge_call_ok. Qed.

Lemma merge_guards_ok lens put order s :
  (∀ key s, full (lens s) = false → state_ok s → state_ok (put ({[key]} ∪ lens s) s)) →
  state_ok s → state_ok (merge_guards lens put order s).
Proof.
  intros Hput. revert s; induction order as [|key order IH]; intros s Hs; simpl; [done|].
  destruct (full (lens s)) eqn:Hf; auto using coverage_ok.
Qed.

Lemma merge_streams_ok newer s : state_ok s → state_ok (merge_streams newer s).
Proof.
  intros Hs. unfold merge_streams. apply coverage_ok.
  set (base := set_launch_scope (launch_scope newer) s).
  assert (Hb : state_ok base) by by apply (state_ok_same s).
  destruct (str_is_empty (reasoning_raw newer)).
  - by apply (state_ok_same base).
  - by apply (state_ok_same (observe_reasoning (reasoning_raw newer) base)), observe_reasoning_ok.
Qed.

Lemma snapshot_seq_ok n s : state_ok s → state_ok (set_snapshot_seq n s).
Proof. by apply state_ok_same. Qed.

Lemma merge_newer_ok events frames newer s :
  state_ok newer → state_ok s → state_ok (merge_newer events frames newer s).
Proof.
  intros Hn Hs. unfold merge_newer. apply snapshot_seq_ok.
  apply merge_guards_ok; [apply descriptor_frames_ok|].
  apply merge_guards_ok; [apply source_events_ok|].
  by apply merge_calls_ok, merge_streams_ok.
Qed.

(** ** What an operation keeps *)

(** The launch stays, calls and guards only grow, and an incomplete history never turns complete. *)
Record extends (s s' : ObservationState) : Prop := {
  ex_scope : launch_scope s' = launch_scope s;
  ex_collect : collect_reasoning s' = collect_reasoning s;
  ex_calls : seen_calls s ⊆ seen_calls s';
  ex_events : seen_source_events s ⊆ seen_source_events s';
  ex_frames : seen_descriptor_frames s ⊆ seen_descriptor_frames s';
  ex_history : tool_history_complete s' = true → tool_history_complete s = true;
  ex_thoughts : reasoning_complete s' = true → reasoning_complete s = true }.

#[global] Instance extends_preorder : PreOrder extends.
Proof.
  split; [by constructor|]. intros a b c [] []. constructor; [by etrans..| |]; auto.
Qed.

Lemma drop_event_extends tool s : extends s (drop_event tool s).
Proof. destruct tool; constructor; simpl; try done; by intros. Qed.

Lemma coverage_extends a b n s :
  (a = true → tool_history_complete s = true) → (b = true → reasoning_complete s = true) →
  extends s (set_coverage a b n s).
Proof. by constructor. Qed.

Lemma bump_extends s : extends s (bump_snapshot s).
Proof. by constructor. Qed.

Lemma record_tool_call_extends turn call name a cut r s :
  extends s (record_tool_call turn call name a cut r s).
Proof.
  unfold record_tool_call. destruct (seen_calls s !! _) as [[o sq]|] eqn:Hid.
  - repeat case_match; by constructor.
  - destruct (full _); [apply drop_event_extends|].
    destruct (_ && _); [apply drop_event_extends|].
    constructor; try done. by apply insert_subseteq.
Qed.

Lemma observe_reasoning_extends delta s : extends s (observe_reasoning delta s).
Proof.
  unfold observe_reasoning. destruct (str_is_empty delta); [done|].
  destruct (Nat.ltb _ _); by constructor.
Qed.

(** A call is recorded or the history says it is incomplete; nothing else is recorded. *)
Lemma record_tool_call_seen turn call name a cut r s :
  let s' := record_tool_call turn call name a cut r s in
  dom (seen_calls s') ⊆ {[call_identity turn call]} ∪ dom (seen_calls s)
  ∧ (tool_history_complete s' = true →
     ∃ n q, seen_calls s' !! call_identity turn call = Some (n, q)
       ∧ (seen_calls s !! call_identity turn call = None → n = name)).
Proof.
  unfold record_tool_call. destruct (seen_calls s !! _) as [[o sq]|] eqn:Hid; simpl.
  - split; [repeat case_match; apply union_subseteq_r|]. intros _. exists o, sq.
    split; [by repeat case_match | done].
  - destruct (full _); [split; [apply union_subseteq_r | done]|].
    destruct (_ && _); [split; [apply union_subseteq_r | done]|]. simpl. split; [by rewrite dom_insert|].
    intros _. eexists _, _. by rewrite lookup_insert_eq.
Qed.

(** ** The two guard sets behind one interface *)

Class GuardSet (lens : ObservationState → gset string)
    (put : gset string → ObservationState → ObservationState) : Prop := {
  guard_get m s : lens (put m s) = m;
  guard_calls m s : seen_calls (put m s) = seen_calls s;
  guard_history m s : tool_history_complete (put m s) = tool_history_complete s;
  guard_coverage a b n s : lens (set_coverage a b n s) = lens s }.

#[global] Instance source_events_guard : GuardSet seen_source_events set_source_events.
Proof. by split. Qed.
#[global] Instance descriptor_frames_guard : GuardSet seen_descriptor_frames set_descriptor_frames.
Proof. by split. Qed.

Lemma merge_guards_keep `{GuardSet lens put} order s :
  let s' := merge_guards lens put order s in
  seen_calls s' = seen_calls s
  ∧ (tool_history_complete s' = true →
     tool_history_complete s = true ∧ lens s' = list_to_set order ∪ lens s).
Proof.
  revert s; induction order as [|key order IH]; intros s; simpl; [by rewrite (left_id_L ∅ (∪))|].
  destruct (full (lens s)); [done|].
  destruct (IH (put ({[key]} ∪ lens s) s)) as [Hc Hh].
  rewrite guard_calls in Hc. rewrite guard_history, guard_get in Hh. split; [done|].
  intros [Ht Hl]%Hh. split; [done|]. rewrite Hl.
  by rewrite (assoc_L (∪)), (comm_L (∪) (list_to_set order)).
Qed.

(** Merging one guard set leaves the other alone. *)
Lemma merge_events_frames order s :
  seen_descriptor_frames (merge_guards seen_source_events set_source_events order s)
  = seen_descriptor_frames s.
Proof.
  revert s; induction order as [|key order IH]; intros s; simpl; [done|].
  destruct (full _); [done | by rewrite IH].
Qed.

Lemma merge_frames_events order s :
  seen_source_events (merge_guards seen_descriptor_frames set_descriptor_frames order s)
  = seen_source_events s.
Proof.
  revert s; induction order as [|key order IH]; intros s; simpl; [done|].
  destruct (full _); [done | by rewrite IH].
Qed.

(** ** Merging the calls *)

Lemma split_identity_call turn call :
  let '(t, c) := split_identity (call_identity turn call) in
  call_identity t c = call_identity turn call.
Proof.
  unfold split_identity. destruct (split_once (byte_of 0) _) as [[t c]|] eqn:E.
  - apply split_once_some in E. simpl. rewrite E. done.
  - apply split_once_none in E. unfold call_identity, nul_str in E.
    rewrite contains_char_app, contains_char_app, orb_false_iff in E.
    destruct E as [_ E%orb_false_iff]. by destruct E.
Qed.

Lemma merge_call_keep newer s sq identity name :
  (∃ turn call, identity = call_identity turn call) →
  let s' := merge_call newer s (sq, identity, name) in
  extends s s' ∧ dom (seen_calls s') ⊆ {[identity]} ∪ dom (seen_calls s)
  ∧ (tool_history_complete s' = true →
     ∃ n q, seen_calls s' !! identity = Some (n, q)
       ∧ (seen_calls s !! identity = None → n = name)).
Proof.
  intros (turn & call & ->). unfold merge_call. case_bool_decide as Hs.
  { split_and!; [done | apply union_subseteq_r|]. intros _. destruct Hs as [[n q] Hs].
    exists n, q. split; [done|]. by rewrite Hs. }
  pose proof (split_identity_call turn call) as Hid.
  destruct (split_identity _) as [t c]. destruct (call_detail newer name sq) as [[a cut] r].
  split; [apply record_tool_call_extends|]. rewrite <- Hid.
  apply (record_tool_call_seen t c).
Qed.

(** ** Histories *)

Inductive obs_op :=
| OpMessage (method : string) (params : Value)
| OpDescriptor (d : ToolDescriptor)
| OpLoss.

Definition apply_op (s : ObservationState) (op : obs_op) : ObservationState :=
  match op with
  | OpMessage method params => observe_message to_string method params s
  | OpDescriptor d => observe_descriptor to_string d s
  | OpLoss => observe_loss s
  end.

(** States the daemon can hold: a launch, its events, and replacements. *)
Inductive observed : ObservationState → Prop :=
| observed_launch adapter scope : observed (for_launch adapter scope)
| observed_op s op : observed s → observed (apply_op s op)
| observed_merge newer s events frames :
    observed newer → observed s →
    events ≡ₚ elements (seen_source_events newer) →
    frames ≡ₚ elements (seen_descriptor_frames newer) →
    observed (merge_newer events frames newer s).

Lemma for_launch_ok adapter scope : state_ok (for_launch adapter scope).
Proof.
  constructor; simpl; rewrite ?size_empty, ?map_size_empty; try done; unfold MAX_IDENTITIES; try lia;
    try apply map_Forall_empty; unfold MAX_TOOL_TYPES, MAX_REASONING_BYTES; lia.
Qed.

Lemma apply_op_ok s op : state_ok s → state_ok (apply_op s op).
Proof.
  destruct op; simpl; auto using observe_message_ok, observe_descriptor_ok.
  by apply state_ok_same.
Qed.

Lemma observed_ok s : observed s → state_ok s.
Proof.
  induction 1; [apply for_launch_ok | by apply apply_op_ok | by apply merge_newer_ok].
Qed.

(** Whatever a runtime sends and however often its tracker is replaced, the
    record stays bounded and accounts exactly: at most 65536 identities of each
    kind, 64 tools, 64 KiB of reasoning; each tool's count is the number of
    distinct calls recorded for it, its recent calls are the newest five in order,
    each known by its identity, redacted and within 4 KiB. *)
Theorem observation_invariant s : observed s → state_ok s.
Proof. apply observed_ok. Qed.

(** *** Merging *)

Lemma calls_in_order_elem s sq identity name :
  (sq, identity, name) ∈ calls_in_order s ↔ seen_calls s !! identity = Some (name, sq).
Proof.
  unfold calls_in_order. rewrite merge_sort_Permutation, list_elem_of_fmap. split.
  - intros ([id [n q]] & [= -> -> ->] & H). by apply elem_of_map_to_list in H.
  - intros H. exists (identity, (name, sq)). split; [done|]. by apply elem_of_map_to_list.
Qed.

Definition row_identity (row : call_row) : string := row.1.2.

Lemma merge_calls_keep newer rows s :
  Forall (λ row, ∃ turn call, row_identity row = call_identity turn call) rows →
  let s' := fold_left (merge_call newer) rows s in
  extends s s' ∧ dom (seen_calls s') ⊆ list_to_set (row_identity <$> rows) ∪ dom (seen_calls s)
  ∧ (tool_history_complete s' = true → ∀ sq identity name, (sq, identity, name) ∈ rows →
     ∃ n q, seen_calls s' !! identity = Some (n, q)
       ∧ (seen_calls s !! identity = None →
          (∀ sq' name', (sq', identity, name') ∈ rows → name' = name) → n = name)).
Proof.
  revert s; induction rows as [|[[sq id] name] rows IH]; intros s Hrows; simpl.
  { split_and!; [done | apply union_subseteq_r|]. intros _ ??? Hin. by apply elem_of_nil in Hin. }
  apply Forall_cons in Hrows as [Hrow Hrows].
  destruct (merge_call_keep newer s sq id name Hrow) as (Hext & Hdom & Hrec).
  set (s1 := merge_call newer s (sq, id, name)) in *.
  destruct (IH s1 Hrows) as (Hext' & Hdom' & Hrec').
  split; [by etrans|]. split; [clear - Hdom Hdom'; set_solver|].
  intros Hh q0 id0 n0 Hin. apply elem_of_cons in Hin as [[= -> -> ->]|Hin].
  - destruct (Hrec (ex_history _ _ Hext' Hh)) as (n & q & Hl & Hn). exists n, q.
    split; [by apply (lookup_weaken _ _ _ _ Hl), ex_calls | by intros ?%Hn].
  - destruct (Hrec' Hh q0 id0 n0 Hin) as (n & q & Hl & Hn). exists n, q. split; [done|].
    intros Hnone Huniq. destruct (decide (id0 = id)) as [->|Hne].
    + destruct (Hrec (ex_history _ _ Hext' Hh)) as (n1 & q1 & Hl1 & Hn1).
      pose proof (lookup_weaken _ _ _ _ Hl1 (ex_calls _ _ Hext')) as E.
      rewrite Hl in E. injection E as -> ->. rewrite (Hn1 Hnone). apply (Huniq sq). by left.
    + apply Hn; [|intros ?? ?; eapply Huniq; by right].
      apply not_elem_of_dom. apply not_elem_of_dom in Hnone. clear - Hdom Hnone Hne. set_solver.
Qed.

Lemma record_tool_call_guards turn call name a cut r s :
  same_guards s (record_tool_call turn call name a cut r s).
Proof. unfold record_tool_call. repeat case_match; done. Qed.

Lemma merge_calls_guards newer rows s : same_guards s (fold_left (merge_call newer) rows s).
Proof.
  revert s; induction rows as [|[[sq id] name] rows IH]; intros s; cbn [fold_left]; [done|].
  unfold same_guards. destruct (IH (merge_call newer s (sq, id, name))) as [-> ->]. unfold merge_call.
  destruct (bool_decide _); [done|]. destruct (split_identity id) as [t c].
  destruct (call_detail newer name sq) as [[a cut] r]. apply record_tool_call_guards.
Qed.

Lemma merge_streams_keep newer s :
  let s1 := merge_streams newer s in
  seen_calls s1 = seen_calls s ∧ same_guards s s1
  ∧ (tool_history_complete s1 = true →
     tool_history_complete s = true ∧ tool_history_complete newer = true).
Proof.
  unfold merge_streams. destruct (str_is_empty (reasoning_raw newer)) eqn:Ee;
    [|unfold observe_reasoning; rewrite Ee; destruct (Nat.ltb _ _)];
    simpl; split_and!; try done; apply andb_true_iff.
Qed.

(** A replacement loses nothing silently: when the merged record calls its
    tool history complete, so were both histories, every call of either is
    recorded (the older record of a call wins, a new one keeps its tool), nothing
    else is, and every replay guard of both launches is still in force. *)
Theorem merge_loses_nothing events frames newer s :
  observed newer → observed s →
  events ≡ₚ elements (seen_source_events newer) →
  frames ≡ₚ elements (seen_descriptor_frames newer) →
  let m := merge_newer events frames newer s in
  tool_history_complete m = true →
  tool_history_complete s = true ∧ tool_history_complete newer = true
  ∧ seen_calls s ⊆ seen_calls m
  ∧ dom (seen_calls m) = dom (seen_calls newer) ∪ dom (seen_calls s)
  ∧ (∀ identity name q, seen_calls newer !! identity = Some (name, q) →
     seen_calls s !! identity = None → ∃ q', seen_calls m !! identity = Some (name, q'))
  ∧ seen_source_events m = seen_source_events newer ∪ seen_source_events s
  ∧ seen_descriptor_frames m = seen_descriptor_frames newer ∪ seen_descriptor_frames s.
Proof.
  intros Hn%observed_ok Hs He Hf m. unfold m, merge_newer. simpl.
  destruct (merge_streams_keep newer s) as (Hc1 & [He1 Hf1] & Hh1).
  set (s1 := merge_streams newer s) in *.
  destruct (merge_calls_keep newer (calls_in_order newer) s1) as (Hext & Hdom & Hrec).
  { apply Forall_forall. intros [[sq id] name] H%calls_in_order_elem.
    by apply (so_named newer Hn) in H as (_ & _ & ?). }
  destruct (merge_calls_guards newer (calls_in_order newer) s1) as [He2 Hf2].
  set (s2 := fold_left (merge_call newer) (calls_in_order newer) s1) in *.
  destruct (merge_guards_keep (lens := seen_source_events) events s2) as [Hc3 Hh3].
  pose proof (merge_events_frames events s2) as Hf3.
  set (s3 := merge_guards seen_source_events set_source_events events s2) in *.
  destruct (merge_guards_keep (lens := seen_descriptor_frames) frames s3) as [Hc4 Hh4].
  pose proof (merge_frames_events frames s3) as He4.
  set (s4 := merge_guards seen_descriptor_frames set_descriptor_frames frames s3) in *.
  intros [H3 Hf4]%Hh4. destruct (Hh3 H3) as [H2 He3]. destruct (Hh1 (ex_history _ _ Hext H2)) as [H1 H0].
  rewrite Hc4, Hc3. rewrite Hc1 in *. split_and!; try done.
  - rewrite <- Hc1. apply ex_calls, Hext.
  - apply set_eq. intros id. split.
    + intros Hid%Hdom. apply elem_of_union in Hid as [Hid|Hid]; [|set_solver].
      apply elem_of_list_to_set, list_elem_of_fmap in Hid as ([[q i] n] & -> & Hr).
      apply calls_in_order_elem in Hr. apply elem_of_union_l, elem_of_dom. eauto.
    + intros [Hid|Hid]%elem_of_union.
      * apply elem_of_dom in Hid as [[n q] Hid]. apply calls_in_order_elem in Hid.
        destruct (Hrec H2 _ _ _ Hid) as (n' & q' & Hl & _). apply elem_of_dom. eauto.
      * apply elem_of_dom in Hid as [v Hid]. rewrite <- Hc1 in Hid. apply elem_of_dom.
        eexists. by apply (lookup_weaken _ _ _ _ Hid), ex_calls.
  - intros id name q Hid Hnone. apply calls_in_order_elem in Hid.
    destruct (Hrec H2 _ _ _ Hid) as (n' & q' & Hl & Hn'). exists q'.
    rewrite Hl, Hn'; [done | done |]. intros q2 n2 H%calls_in_order_elem.
    apply calls_in_order_elem in Hid. congruence.
  - by rewrite He4, He3, He, list_to_set_elements_L, He2, He1.
  - by rewrite Hf4, Hf, list_to_set_elements_L, Hf3, Hf2, Hf1.
Qed.

(** *** Replays *)

Lemma source_events_extends key s :
  extends s (set_source_events ({[key]} ∪ seen_source_events s) s).
Proof. constructor; simpl; try done. apply union_subseteq_r. Qed.

Lemma descriptor_frames_extends key s :
  extends s (set_descriptor_frames ({[key]} ∪ seen_descriptor_frames s) s).
Proof. constructor; simpl; try done. apply union_subseteq_r. Qed.

Lemma observe_tool_extends params payload s :
  extends s (observe_tool to_string params payload s).
Proof.
  unfold observe_tool.
  destruct (valid_id (get payload "toolCallId")), (valid_id (get payload "toolName"));
    try apply drop_event_extends.
  destruct (project_arguments _ _) as [[a cut] r]. apply record_tool_call_extends.
Qed.

(** An event with a usable identity is admitted when there is room for it. *)
Lemma observe_message_admits method params s id :
  valid_id (get params "eventId") = Some id → full (seen_source_events s) = false →
  (∀ s', collect_reasoning s' = collect_reasoning s → observe_message to_string method params s' = s')
  ∨ launch_key (launch_scope s) id ∈ seen_source_events (observe_message to_string method params s).
Proof.
  intros Hid Hf. unfold observe_message. destruct (_ || _); [by left|].
  destruct (get_str (get_or_null params "payload") "kind") as [kind|]; [|by left].
  destruct (negb _); [by left|].
  destruct ((kind ≟ "reasoning_delta") && negb (collect_reasoning s)) eqn:Hc.
  { left. intros s' ->. by rewrite Hc. }
  right. rewrite Hid. case_bool_decide as Hk; [done|]. rewrite Hf.
  assert (Hin : ∀ s', extends (set_source_events ({[launch_key (launch_scope s) id]}
      ∪ seen_source_events s) s) s' → launch_key (launch_scope s) id ∈ seen_source_events s').
  { intros s' Hs'. apply (ex_events _ _ Hs'), elem_of_union_l, elem_of_singleton. done. }
  apply Hin. destruct (kind ≟ "tool_call"); [apply observe_tool_extends|].
  destruct (get_str _ "delta"); (etrans; [|apply bump_extends]);
    [apply observe_reasoning_extends | by apply coverage_extends].
Qed.

Lemma observe_message_extends method params s :
  extends s (observe_message to_string method params s).
Proof.
  unfold observe_message. destruct (_ || _); [done|].
  destruct (get_str (get_or_null params "payload") "kind") as [kind|]; [|done].
  destruct (negb _); [done|]. destruct (_ && _); [done|].
  destruct (valid_id _) as [id|]; [|apply drop_event_extends].
  destruct (bool_decide _); [done|]. destruct (full _); [apply drop_event_extends|].
  etrans; [apply source_events_extends|].
  destruct (kind ≟ "tool_call"); [apply observe_tool_extends|].
  destruct (get_str _ "delta"); (etrans; [|apply bump_extends]);
    [apply observe_reasoning_extends | by apply coverage_extends].
Qed.

Lemma observe_descriptor_extends d s : extends s (observe_descriptor to_string d s).
Proof.
  unfold observe_descriptor. destruct (_ || _); [apply drop_event_extends|].
  destruct (bool_decide _); [done|]. destruct (full _); [apply drop_event_extends|].
  etrans; [apply descriptor_frames_extends|].
  destruct (descriptor_arguments _ d) as [[a cut] r]. apply record_tool_call_extends.
Qed.

Lemma apply_ops_extends ops s : extends s (fold_left apply_op ops s).
Proof.
  revert s; induction ops as [|op ops IH]; intros s; simpl; [done|]. etrans; [|apply IH].
  destruct op; simpl; [apply observe_message_extends | apply observe_descriptor_extends|].
  etrans; [|apply bump_extends]. by apply coverage_extends.
Qed.

Lemma observe_message_known method params s id :
  valid_id (get params "eventId") = Some id →
  launch_key (launch_scope s) id ∈ seen_source_events s →
  observe_message to_string method params s = s.
Proof.
  intros Hid Hk. unfold observe_message. rewrite Hid, (bool_decide_eq_true_2 _ Hk).
  by repeat case_match.
Qed.

(** Events are counted once per launch: after an event with a usable identity
    was observed with room left, delivering it again, at once or after any further
    messages, descriptors and losses, changes nothing at all. *)
Theorem replayed_event_ignored method params s id ops :
  valid_id (get params "eventId") = Some id → full (seen_source_events s) = false →
  let later := fold_left apply_op ops (observe_message to_string method params s) in
  observe_message to_string method params later = later.
Proof.
  intros Hid Hf later. assert (Hext : extends (observe_message to_string method params s) later)
    by apply apply_ops_extends.
  assert (Hs : extends s later) by (etrans; [apply observe_message_extends | exact Hext]).
  destruct (observe_message_admits method params s id Hid Hf) as [Hno|Hk].
  - apply Hno, ex_collect, Hs.
  - apply (observe_message_known _ _ _ id Hid). rewrite (ex_scope _ _ Hs). by apply (ex_events _ _ Hext).
Qed.

End props.

(** ** Launch scopes *)

Lemma pretty_N_go_no_nul x s :
  contains_char (pretty_N_go x s) (byte_of 0) = contains_char s (byte_of 0).
Proof.
  revert s. induction (N.lt_wf_0 x) as [x _ IH]; intros s.
  destruct (decide (0 < x)%N) as [Hx|Hx].
  - rewrite pretty_N_go_step by done. rewrite IH by (by apply N.div_lt).
    rewrite contains_char_cons. by destruct (x `mod` 10)%N as [|[[[|[]|]|[|[]|]|]|[[|[]|]|[[]|[]|]|]|]].
  - assert (x = 0)%N as -> by lia. done.
Qed.

Lemma pretty_Z_no_nul (z : Z) : contains_char (pretty z) (byte_of 0) = false.
Proof.
  assert (Hp : ∀ p : positive, contains_char (pretty p) (byte_of 0) = false)
    by (intros p; apply (pretty_N_go_no_nul (Npos p) "")).
  destruct z; [done | apply Hp|]. change (contains_char ("-" +:+ pretty p) (byte_of 0) = false).
  rewrite contains_char_app. by rewrite Hp.
Qed.

(** Replay guards of different launches never collide: equal keys come from
    the same launch and the same source id, whatever bytes the ids hold. *)
Theorem launch_key_injective scope scope' id id' :
  launch_key scope id = launch_key scope' id' ↔ scope = scope' ∧ id = id'.
Proof.
  split; [|by intros [-> ->]]. unfold launch_key, nul_str. intros H.
  apply (f_equal (split_once (byte_of 0))) in H. simpl in H.
  rewrite !split_once_app in H by apply pretty_Z_no_nul. injection H as Hs ->.
  split; [by apply (inj pretty) | done].
Qed.

(** ** The published ranking *)

#[global] Instance ranked_total : Total ranked.
Proof.
  intros a b. unfold ranked, ranks_before.
  rewrite (Z.compare_antisym (call_count a.2)), (Z.compare_antisym (latest_seq a.2)).
  destruct (Z.compare (call_count a.2) (call_count b.2)); simpl; auto.
  destruct (Z.compare (latest_seq a.2) (latest_seq b.2)); simpl; auto. apply String.leb_total.
Qed.

#[global] Instance ranked_trans : Transitive ranked.
Proof.
  intros a b c. unfold ranked, ranks_before.
  destruct (Z.compare_spec (call_count b.2) (call_count a.2)),
    (Z.compare_spec (call_count c.2) (call_count b.2)),
    (Z.compare_spec (call_count c.2) (call_count a.2)); try done; try lia.
  destruct (Z.compare_spec (latest_seq b.2) (latest_seq a.2)),
    (Z.compare_spec (latest_seq c.2) (latest_seq b.2)),
    (Z.compare_spec (latest_seq c.2) (latest_seq a.2)); try done; try lia.
  rewrite <- !Is_true_true. apply (transitivity (R := String.le)).
Qed.

(** A snapshot shows the three most used tools, ties broken by the latest call
    and then by name: in that order, each with its recorded count and recent
    calls, and every tool left out ranks after all that are shown. *)
Theorem snapshot_shows_top_tools s :
  let shown := snapshot_tools (snapshot s) in
  length shown = 3 `min` size (tools s)
  ∧ (∃ rows, shown = (λ '(name, g), mk_observed_tool name (call_count g) (recent_calls g)) <$> rows
      ∧ StronglySorted ranked rows
      ∧ (∀ name g, (name, g) ∈ rows → tools s !! name = Some g)
      ∧ (∀ name g, tools s !! name = Some g → (name, g) ∈ rows ∨ Forall (λ row, ranked row (name, g)) rows)).
Proof.
  unfold snapshot. simpl. set (order := merge_sort ranked (map_to_list (tools s))).
  assert (Hp : order ≡ₚ map_to_list (tools s)) by apply merge_sort_Permutation.
  assert (Ho : StronglySorted ranked order) by (apply (Sorted_StronglySorted _), (Sorted_merge_sort _)).
  split; [by rewrite length_fmap, length_take, Hp, length_map_to_list|].
  exists (take 3 order). split_and!; [done | by apply StronglySorted_take | |].
  - intros name g Hin. apply elem_of_map_to_list. rewrite <- Hp.
    apply list_elem_of_lookup in Hin as [i Hi]. apply lookup_take_Some in Hi as [Hi _].
    by eapply list_elem_of_lookup_2.
  - intros name g Hg. apply elem_of_map_to_list in Hg. rewrite <- Hp in Hg.
    rewrite <- (take_drop 3 order) in Hg, Ho. apply elem_of_app in Hg as [?|Hg]; [by left|]. right.
    apply Forall_forall. intros row Hr. by apply (StronglySorted_app_1_elem_of _ _ _ _ _ Ho).
Qed.

(** ** Witnesses *)

(** A serializer that knows only the empty object, enough for the samples. *)
Definition sample_to_string (_ : Value) : string := "{}".

Definition sample_call (event call name : string) : Value :=
  VObject [("type", VString "model.streaming"); ("eventId", VString event); ("turnId", VString "turn");
           ("payload", VObject [("kind", VString "tool_call"); ("toolCallId", VString call);
              ("toolName", VString name);
              ("input", VObject [("encrypted_content", VNull); ("path", VString "a")])])].

Definition sample_base : ObservationState :=
  fold_left (apply_op sample_to_string)
    [OpMessage "session/event" (sample_call "e1" "c1" "Read");
     OpMessage "session/event" (sample_call "e2" "c2" "Bash")] (for_launch "zcode" 1).

Definition sample_newer : ObservationState :=
  fold_left (apply_op sample_to_string)
    [OpMessage "session/event" (sample_call "e1" "c3" "Read")] (for_launch "zcode" 2).

Lemma sample_base_observed : observed sample_to_string sample_base.
Proof. repeat apply observed_op. apply observed_launch. Qed.
Lemma sample_newer_observed : observed sample_to_string sample_newer.
Proof. repeat apply observed_op. apply observed_launch. Qed.

Lemma observation_invariant_witness :
  state_ok sample_to_string sample_base ∧ count_of "Read" (seen_calls sample_base) = 1.
Proof.
  split; [|reflexivity]. apply (observation_invariant sample_to_string);
    [vm_compute; lia | apply sample_base_observed].
Defined.

Definition sample_merge : ObservationState :=
  merge_newer (elements (seen_source_events sample_newer))
    (elements (seen_descriptor_frames sample_newer)) sample_newer sample_base.

Lemma merge_loses_nothing_witness :
  dom (seen_calls sample_merge) = dom (seen_calls sample_newer) ∪ dom (seen_calls sample_base)
  ∧ size (seen_calls sample_merge) = 3.
Proof.
  split; [|reflexivity].
  apply (merge_loses_nothing sample_to_string ltac:(vm_compute; lia)
           (elements (seen_source_events sample_newer))
           (elements (seen_descriptor_frames sample_newer)) sample_newer sample_base
           sample_newer_observed sample_base_observed); reflexivity.
Defined.

Lemma replayed_event_ignored_witness :
  observe_message sample_to_string "session/event" (sample_call "e1" "c1" "Read") sample_base
  = sample_base.
Proof.
  apply (replayed_event_ignored sample_to_string "session/event" (sample_call "e1" "c1" "Read")
           (for_launch "zcode" 1) "e1" [OpMessage "session/event" (sample_call "e2" "c2" "Bash")]);
    reflexivity.
Defined.
