(* ===== verification/RuntimeEvents.v ===== *)
(** * Events of a managed runtime

    The vocabulary the driver ([crates/external-runtime/src/lib.rs]) hands to the
    daemon ([crates/external-daemon/src/lib.rs]): exits, inbound frames, losses,
    terminals and the runtime events made of them. *)

From S2P Require Import Prelude RustStr Json Contract Projection.

(** ** The driver's side *)

Inductive ChildExit := Exited (status : option Z) | Signaled (signal : Z) | ExitUnknown.

#[global] Instance ChildExit_eq_dec : EqDecision ChildExit.
Proof. solve_decision. Defined.

Inductive StopOutcome := AlreadyExited (exit : ChildExit) | Terminated (exit : ChildExit).

#[global] Instance StopOutcome_eq_dec : EqDecision StopOutcome.
Proof. solve_decision. Defined.

Inductive Inbound :=
| Message (message : WireMessage)
| Lifecycle (sequence : Z) (method : string) (order : LifecycleOrder)
| Malformed (error : string)
| OversizedLine (bytes : Z)
| ChildExited (exit : ChildExit)
| UnmatchedResponse (id : WireId) (outcome : string).

(** ** The daemon's side *)

Inductive RuntimeLoss :=
| InvalidIdentity | UnsupportedIdentity | MissingLeader | IdentityMismatch | UnknownMembership
| SessionLost | StopFailed (error : string) | EventStreamLost | PostureViolation (setting : string).

#[global] Instance RuntimeLoss_eq_dec : EqDecision RuntimeLoss.
Proof. solve_decision. Defined.

Inductive RuntimeTerminal :=
| TStopped (outcome : StopOutcome)
| TCompleted (outcome : StopOutcome)
| TFailedTurn (outcome : StopOutcome)
| TExited (exit : ChildExit)
| TFailedRuntimeLost (loss : RuntimeLoss)
| TOrphaned (loss : RuntimeLoss).

#[global] Instance RuntimeTerminal_eq_dec : EqDecision RuntimeTerminal.
Proof. solve_decision. Defined.

Definition terminal_proves_process_group_reaped (t : RuntimeTerminal) : bool :=
  match t with
  | TStopped _ | TCompleted _ | TFailedTurn _ | TExited _ => true
  | _ => false
  end.

Inductive RuntimeEvent := Driver (inbound : Inbound) | EventTerminal (terminal : RuntimeTerminal).

Record LifecycleRecord := mk_record { sequence : Z; event : RuntimeEvent }.

Inductive TurnBoundary := BoundaryCompleted | BoundaryFailed.

Record TurnSnapshot := mk_turn_snapshot {
  turn_generation : Z; turn_active : bool; turn_boundary : option TurnBoundary }.
