(* ===== verification/Activity.v ===== *)
(** * Tool-activity events

    The event constructors of [crates/external-contract/src/activity.rs] and the
    daemon's parser of the same vocabulary, [crates/external-daemon/src/
    activity_parser.rs]: one frame to the activity it stands for, under the
    emission mode of its adapter. *)

From S2P Require Import Prelude RustStr Utf8 Json Tokenizer Contract Projection Observation RuntimeEvents.

(** ** Constructors ([activity.rs]) *)

Definition MAX_TOOL_COUNT : Z := 1024.

Definition optional_str (key : string) (o : option string) : Fields :=
  match o with Some s => [(key, VString s)] | None => [] end.

Definition tool_event (event_id turn_id : string) (payload : Fields) : Value :=
  VObject [("type", VString "tool.updated"); ("eventId", VString event_id);
           ("turnId", VString turn_id); ("payload", VObject payload)].

Definition tool_count_event (event_id turn_id : string) (count : Z) (tool detail : option string)
    : Value :=
  tool_event event_id turn_id
    ([("kind", VString "count"); ("count", VNumber (PosInt count))]
     ++ optional_str "tool" tool ++ optional_str "detail" detail).

Definition tool_started_event (event_id turn_id tool_call_id : string) (name : option string)
    : Value :=
  tool_event event_id turn_id
    ([("kind", VString "started"); ("toolCallId", VString tool_call_id)]
     ++ optional_str "toolName" name).

Definition tool_result_event (event_id turn_id tool_call_id : string) : Value :=
  tool_event event_id turn_id [("kind", VString "result"); ("toolCallId", VString tool_call_id)].

(** ** Parsed activity ([activity_parser.rs]) *)

Definition MAX_ACTIVITY_ID_BYTES : nat := 512.

Inductive PassiveToolKind := ToolRead | ToolBash | ToolOther.
Inductive ToolActivityMode := Detailed | CountOnly | Mixed.
Inductive ActivitySource := FromSession | FromTelemetry | FromRuntime.

Inductive ActivitySampleKind :=
| ReasoningDelta
| TextDelta
| SampleToolStarted (kind : PassiveToolKind) (count : Z)
| SampleToolCompleted
| SampleToolFailed.

Inductive ActivityTransition :=
| ModelStarted | ModelCompleted | ToolScheduled | ToolStarted | ToolCompleted | ToolFailed
| PermissionRequested | PermissionResolved | TurnStarted | TurnCompleted | TurnFailed.

#[global] Instance PassiveToolKind_eq_dec : EqDecision PassiveToolKind.
Proof. solve_decision. Defined.
#[global] Instance ToolActivityMode_eq_dec : EqDecision ToolActivityMode.
Proof. solve_decision. Defined.
#[global] Instance ActivitySource_eq_dec : EqDecision ActivitySource.
Proof. solve_decision. Defined.
#[global] Instance ActivitySampleKind_eq_dec : EqDecision ActivitySampleKind.
Proof. solve_decision. Defined.
#[global] Instance ActivityTransition_eq_dec : EqDecision ActivityTransition.
Proof. solve_decision. Defined.

Record ParsedActivity := mk_parsed {
  parsed_source : ActivitySource;
  identity : option string;
  parsed_stream_key : option string;
  sample : option ActivitySampleKind;
  text_delta : option string;
  transition : option ActivityTransition;
  request_id : option string;
  tool_call_id : option string;
  tool_kind : PassiveToolKind;
  telemetry_known : bool;
  assistant_message_id : option string;
  message_finished : bool;
  terminal_response : option string;
  tool_descriptor : option ToolDescriptor }.

(** [ParsedActivity::runtime()] with the source set. *)
Definition parsed_from (source : ActivitySource) : ParsedActivity :=
  mk_parsed source None None None None None None None ToolOther true None false None None.

(** Field updates. *)
Definition set_known (k : bool) (s : ParsedActivity) : ParsedActivity :=
  mk_parsed (parsed_source s) (identity s) (parsed_stream_key s) (sample s) (text_delta s)
    (transition s) (request_id s) (tool_call_id s) (tool_kind s) k (assistant_message_id s)
    (message_finished s) (terminal_response s) (tool_descriptor s).
Definition set_identity (i : option string) (s : ParsedActivity) : ParsedActivity :=
  mk_parsed (parsed_source s) i (parsed_stream_key s) (sample s) (text_delta s)
    (transition s) (request_id s) (tool_call_id s) (tool_kind s) (telemetry_known s)
    (assistant_message_id s) (message_finished s) (terminal_response s) (tool_descriptor s).
Definition set_stream (k i : option string) (x : ActivitySampleKind) (s : ParsedActivity) : ParsedActivity :=
  mk_parsed (parsed_source s) i k (Some x) (text_delta s) (transition s) (request_id s)
    (tool_call_id s) (tool_kind s) (telemetry_known s) (assistant_message_id s)
    (message_finished s) (terminal_response s) (tool_descriptor s).
Definition set_text (d m : option string) (s : ParsedActivity) : ParsedActivity :=
  mk_parsed (parsed_source s) (identity s) (parsed_stream_key s) (sample s) d (transition s)
    (request_id s) (tool_call_id s) (tool_kind s) (telemetry_known s) m (message_finished s)
    (terminal_response s) (tool_descriptor s).
Definition set_finished (m : option string) (s : ParsedActivity) : ParsedActivity :=
  mk_parsed (parsed_source s) (identity s) (parsed_stream_key s) (sample s) (text_delta s)
    (transition s) (request_id s) (tool_call_id s) (tool_kind s) (telemetry_known s) m true
    (terminal_response s) (tool_descriptor s).
Definition set_transition (i : option string) (t : ActivityTransition) (s : ParsedActivity) : ParsedActivity :=
  mk_parsed (parsed_source s) i (parsed_stream_key s) (sample s) (text_delta s) (Some t)
    (request_id s) (tool_call_id s) (tool_kind s) (telemetry_known s)
    (assistant_message_id s) (message_finished s) (terminal_response s) (tool_descriptor s).
Definition set_request (r : option string) (s : ParsedActivity) : ParsedActivity :=
  mk_parsed (parsed_source s) (identity s) (parsed_stream_key s) (sample s) (text_delta s)
    (transition s) r (tool_call_id s) (tool_kind s) (telemetry_known s)
    (assistant_message_id s) (message_finished s) (terminal_response s) (tool_descriptor s).
Definition set_tool (c : option string) (k : PassiveToolKind) (s : ParsedActivity) : ParsedActivity :=
  mk_parsed (parsed_source s) (identity s) (parsed_stream_key s) (sample s) (text_delta s)
    (transition s) (request_id s) c k (telemetry_known s) (assistant_message_id s)
    (message_finished s) (terminal_response s) (tool_descriptor s).
Definition set_phase (t : option ActivityTransition) (s : ParsedActivity) : ParsedActivity :=
  mk_parsed (parsed_source s) (identity s) (parsed_stream_key s) (sample s) (text_delta s) t
    (request_id s) (tool_call_id s) (tool_kind s) (telemetry_known s)
    (assistant_message_id s) (message_finished s) (terminal_response s) (tool_descriptor s).
Definition set_sample (x : option ActivitySampleKind) (s : ParsedActivity) : ParsedActivity :=
  mk_parsed (parsed_source s) (identity s) (parsed_stream_key s) x (text_delta s)
    (transition s) (request_id s) (tool_call_id s) (tool_kind s) (telemetry_known s)
    (assistant_message_id s) (message_finished s) (terminal_response s) (tool_descriptor s).
Definition set_response (r : option string) (s : ParsedActivity) : ParsedActivity :=
  mk_parsed (parsed_source s) (identity s) (parsed_stream_key s) (sample s) (text_delta s)
    (transition s) (request_id s) (tool_call_id s) (tool_kind s) (telemetry_known s)
    (assistant_message_id s) (message_finished s) r (tool_descriptor s).
Definition set_descriptor (d : ToolDescriptor) (s : ParsedActivity) : ParsedActivity :=
  mk_parsed (parsed_source s) (identity s) (parsed_stream_key s) (sample s) (text_delta s)
    (transition s) (request_id s) (tool_call_id s) (tool_kind s) (telemetry_known s)
    (assistant_message_id s) (message_finished s) (terminal_response s) (Some d).

Definition activity_id (value : option Value) : option string :=
  keep_if (λ s, negb (str_is_empty s) && Nat.leb (String.length s) MAX_ACTIVITY_ID_BYTES
                && negb (contains_char s (byte_of 0))) (value ≫= as_str).

Definition classify_passive_tool (value : option Value) : PassiveToolKind :=
  match value ≫= as_str with
  | Some s => if one_of s ["Read"; "read"] then ToolRead
              else if one_of s ["Bash"; "bash"] then ToolBash else ToolOther
  | None => ToolOther
  end.

Definition stream_key (params payload : Value) (channel : string) : option string :=
  match activity_id (get params "turnId"), activity_id (get payload "assistantMessageId") with
  | Some turn_id, Some message_id => Some (turn_id +:+ ":" +:+ message_id +:+ ":" +:+ channel)
  | None, Some message_id => Some (message_id +:+ ":" +:+ channel)
  | _, _ => None
  end.

Definition parse_model_activity (p : ParsedActivity) (payload : Value) (started : bool)
    : ParsedActivity :=
  let request := activity_id (get payload "requestId") in
  let phase := if started then "started" else "completed" in
  set_transition (option_map (λ id, "model:" +:+ id +:+ ":" +:+ phase) request)
    (if started then ModelStarted else ModelCompleted) (set_request request p).

Definition parse_permission_activity (p : ParsedActivity) (payload : Value) (requested : bool)
    : ParsedActivity :=
  let request := activity_id (get payload "requestId") in
  let phase := if requested then "requested" else "resolved" in
  set_transition (option_map (λ id, "permission:" +:+ id +:+ ":" +:+ phase) request)
    (if requested then PermissionRequested else PermissionResolved)
    (set_tool (activity_id (get payload "toolCallId")) (classify_passive_tool (get payload "toolName"))
       (set_request request p)).

Definition tool_phase (phase : string) : option ActivityTransition :=
  if phase ≟ "scheduled" then Some ToolScheduled
  else if phase ≟ "started" then Some ToolStarted
  else if one_of phase ["result"; "tool_result"; "completed"] then Some ToolCompleted
  else if one_of phase ["error"; "tool_error"; "failed"] then Some ToolFailed
  else None.

Definition phase_name (t : ActivityTransition) : option string :=
  match t with
  | ToolScheduled => Some "scheduled"
  | ToolStarted => Some "started"
  | ToolCompleted => Some "completed"
  | ToolFailed => Some "failed"
  | _ => None
  end.

Definition phase_sample (t : ActivityTransition) (kind : PassiveToolKind)
    : option ActivitySampleKind :=
  match t with
  | ToolStarted => Some (SampleToolStarted kind 1)
  | ToolCompleted => Some SampleToolCompleted
  | ToolFailed => Some SampleToolFailed
  | _ => None
  end.

Definition parse_tool_activity (p : ParsedActivity) (payload : Value) (source : ActivitySource)
    : ParsedActivity :=
  let raw := get_str payload (if decide (source = FromTelemetry) then "phase" else "kind") in
  let phase := raw ≫= tool_phase in
  let unknown := match raw with
                 | Some s => negb (s ≟ "batch") && bool_decide (tool_phase s = None)
                 | None => false
                 end in
  let p := if unknown && bool_decide (source = FromTelemetry) then set_known false p else p in
  let call := activity_id (get payload "toolCallId") in
  let kind := classify_passive_tool (get payload "toolName") in
  let p := set_phase phase (set_tool call kind p) in
  match call, phase with
  | Some id, Some t =>
      match phase_name t with
      | Some name =>
          set_sample (phase_sample t kind) (set_identity (Some ("tool:" +:+ id +:+ ":" +:+ name)) p)
      | None => p
      end
  | _, _ => p
  end.

Definition count_call_id (event_id : string) : string :=
  let id := "count:" +:+ event_id in
  if Nat.leb (String.length id) MAX_ACTIVITY_ID_BYTES then id else event_id.

Definition parse_tool_count_activity (p : ParsedActivity) (payload : Value)
    (event_id turn_id : option string) : ParsedActivity :=
  match get payload "count" ≫= as_u64 with
  | None => p
  | Some count =>
      if negb (Z.leb 1 count && Z.leb count MAX_TOOL_COUNT) then p
      else
        match event_id with
        | None => p
        | Some id =>
            let ident := "tool:" +:+ id +:+ ":count" in
            let turn := default "" turn_id in
            let p := set_identity (Some ident) p in
            let p := match get_str payload "tool" with
                     | Some tool =>
                         set_descriptor
                           (mk_descriptor turn (count_call_id id) tool (turn +:+ ":" +:+ ident) None
                              (Some (default "" (get_str payload "detail")))) p
                     | None => p
                     end in
            set_sample (Some (SampleToolStarted ToolOther count)) p
        end
  end.

(** [bounded_tool_call]: 64 characters of the name, 512 bytes of the argument. *)
Definition bounded_tool_call (tool arg : string) : string * string :=
  (String.concat "" (take 64 (chars tool)),
   str_take (prev_boundary arg (String.length arg `min` 512)) arg).

Definition parse_detailed_descriptor (p : ParsedActivity) (params payload : Value)
    : ParsedActivity :=
  match activity_id (get payload "toolCallId"), get_str payload "toolName", get payload "input",
        identity p with
  | Some call_id, Some tool, Some input, Some source_identity =>
      set_descriptor
        (mk_descriptor (default "" (activity_id (get params "turnId"))) call_id tool
           source_identity (Some input) None) p
  | _, _, _, _ => p
  end.

(** [o == Some(s)] and [matches!(o, Some(a | b | ...))]. *)
Definition is_str (o : option string) (s : string) : bool := bool_decide (o = Some s).
Definition among (o : option string) (l : list string) : bool :=
  match o with Some s => one_of s l | None => false end.

(** [event_id.or(turn_id).map(|id| format!("turn:{id}:{phase}"))]. *)
Definition turn_identity (event_id turn_id : option string) (phase : string) : option string :=
  option_map (λ id, "turn:" +:+ id +:+ ":" +:+ phase)
    (match event_id with Some id => Some id | None => turn_id end).

(** The [session/event] arm. *)
Definition parse_session_event (params : Value) (source : ActivitySource) (mode : ToolActivityMode)
    (p : ParsedActivity) : ParsedActivity :=
  let kind := get_str params "type" in
  let payload := get_or_null params "payload" in
  let payload_kind := get_str payload "kind" in
  let payload_type := get_str payload "type" in
  let event_id := activity_id (get params "eventId") in
  let turn_id := activity_id (get params "turnId") in
  let message_id := activity_id (get payload "assistantMessageId") in
  let stream_identity := option_map (λ id, "stream:" +:+ id) event_id in
  if is_str kind "model.streaming" && is_str payload_kind "reasoning_delta" then
    set_stream (stream_key params payload "reasoning") stream_identity ReasoningDelta p
  else if is_str kind "model.streaming" && is_str payload_kind "text_delta" then
    set_text (get_str payload "delta") message_id
      (set_stream (stream_key params payload "text") stream_identity TextDelta p)
  else if is_str kind "model.streaming"
          && among payload_kind ["message_finished"; "message_done"; "text_done"] then
    set_finished message_id p
  else if among kind ["message.completed"; "message.finished"; "message.done"; "text.done"] then
    set_finished message_id p
  else if among kind ["tool.updated"; "streamRecovery.updated"] then
    if is_str payload_kind "count" then
      if decide (mode = Detailed) then p else parse_tool_count_activity p payload event_id turn_id
    else if decide (mode = CountOnly) then p
    else
      let p := parse_tool_activity p payload source in
      if is_str payload_kind "started" then parse_detailed_descriptor p params payload else p
  else if is_str kind "session.updated" && is_str payload_type "model_request_started" then
    parse_model_activity p payload true
  else if is_str kind "session.updated" && is_str payload_type "model_request_completed" then
    parse_model_activity p payload false
  else if is_str kind "permission.requested" then parse_permission_activity p payload true
  else if is_str kind "permission.resolved" then parse_permission_activity p payload false
  else if is_str kind "turn.started" then
    set_transition (turn_identity event_id turn_id "started") TurnStarted p
  else if is_str kind "turn.completed" then
    set_response (get_str payload "response")
      (set_transition (turn_identity event_id turn_id "completed") TurnCompleted p)
  else if is_str kind "turn.failed" then
    set_transition (turn_identity event_id turn_id "failed") TurnFailed p
  else p.

(** The [v4/telemetry/event] arm. *)
Definition parse_telemetry_event (params : Value) (source : ActivitySource) (mode : ToolActivityMode)
    (p : ParsedActivity) : ParsedActivity :=
  let p := set_known true p in
  let kind := get_str params "kind" in
  if is_str kind "stream.chunk" then
    let channel := get_str params "channel" in
    let event := option_map (λ id, "stream:" +:+ id) (activity_id (get params "eventId")) in
    if is_str channel "thought" then
      set_stream (stream_key params params "reasoning") event ReasoningDelta p
    else if is_str channel "text" then
      set_stream (stream_key params params "text") event TextDelta p
    else set_known false p
  else if is_str kind "tool.lifecycle" then
    if decide (mode = CountOnly) then p else parse_tool_activity p params source
  else if is_str kind "model.request.status" then
    let started := is_str (get_str params "status") "model_request_started" in
    let completed := is_str (get_str params "status") "model_request_completed" in
    if started || completed then parse_model_activity p params started else set_known false p
  else if is_str kind "permission.lifecycle" then
    let phase := get_str params "phase" in
    if is_str phase "requested" then parse_permission_activity p params true
    else if is_str phase "resolved" then parse_permission_activity p params false
    else set_known false p
  else if is_str kind "turn.started" then set_phase (Some TurnStarted) p
  else if is_str kind "turn.completed" then set_phase (Some TurnCompleted) p
  else if is_str kind "turn.failed" then set_phase (Some TurnFailed) p
  else if is_str kind "usage.delta" then p
  else set_known false p.

Definition TELEMETRY_EVENT : string := "v4/telemetry/event".

Definition parse_activity_message (method : string) (params : Value) (source : ActivitySource)
    (mode : ToolActivityMode) : ParsedActivity :=
  let p := set_known (bool_decide (source ≠ FromTelemetry)) (parsed_from source) in
  if method ≟ SESSION_EVENT then parse_session_event params source mode p
  else if method ≟ TELEMETRY_EVENT then parse_telemetry_event params source mode p
  else p.

Definition INTERACTION_REQUEST_PERMISSION : string := "interaction/requestPermission".
Definition INTERACTION_REQUEST_USER_INPUT : string := "interaction/requestUserInput".
Definition INTERACTION_REQUEST_UNSUPPORTED_INPUT : string := "interaction/unsupportedInput".

Definition parse_passive_activity (event : RuntimeEvent) (mode : ToolActivityMode)
    : ParsedActivity :=
  match event with
  | Driver (Message (Event e)) =>
      parse_activity_message (event_method e) (event_params e) FromSession mode
  | Driver (Message (UnknownEvent method raw)) =>
      let source := if method ≟ TELEMETRY_EVENT then FromTelemetry
                    else if method ≟ SESSION_EVENT then FromSession else FromRuntime in
      parse_activity_message method (get_or_null raw "params") source mode
  | Driver (Message (Request r)) =>
      if one_of (req_method r) [INTERACTION_REQUEST_PERMISSION; INTERACTION_REQUEST_USER_INPUT;
                                INTERACTION_REQUEST_UNSUPPORTED_INPUT]
      then
        let request := activity_id (get (req_params r) "requestId") in
        set_transition (option_map (λ id, "permission:" +:+ id +:+ ":requested") request)
          PermissionRequested
          (set_tool (activity_id (get (req_params r) "toolCallId"))
             (classify_passive_tool (get (req_params r) "toolName"))
             (set_request request (parsed_from FromRuntime)))
      else parsed_from FromRuntime
  | _ => parsed_from FromRuntime
  end.

(** ** What a parsed frame may claim *)

Definition bounded_id (s : string) : Prop :=
  s ≠ "" ∧ String.length s ≤ MAX_ACTIVITY_ID_BYTES ∧ contains_char s (byte_of 0) = false.

(** An identity is a bounded id between two fixed words of at most 11 bytes. *)
Definition bounded_identity (s : string) : Prop :=
  String.length s ≤ MAX_ACTIVITY_ID_BYTES + 22 ∧ contains_char s (byte_of 0) = false.

Definition tool_transition (t : ActivityTransition) : bool :=
  match t with ToolScheduled | ToolStarted | ToolCompleted | ToolFailed => true | _ => false end.

Record parsed_ok (mode : ToolActivityMode) (p : ParsedActivity) : Prop := {
  po_identity : ∀ i, identity p = Some i → bounded_identity i;
  po_request : ∀ i, request_id p = Some i → bounded_id i;
  po_call : ∀ i, tool_call_id p = Some i → bounded_id i;
  po_weight : ∀ k n, sample p = Some (SampleToolStarted k n) → (1 ≤ n ≤ MAX_TOOL_COUNT)%Z;
  po_detailed : mode = Detailed → ∀ k n, sample p = Some (SampleToolStarted k n) →
    n = 1%Z ∧ transition p = Some ToolStarted ∧ k = tool_kind p ∧ is_Some (tool_call_id p);
  po_count_only : mode = CountOnly →
    (∀ t, transition p = Some t → tool_transition t = false)
    ∧ sample p ≠ Some SampleToolCompleted ∧ sample p ≠ Some SampleToolFailed
    ∧ (∀ k n, sample p = Some (SampleToolStarted k n) →
       k = ToolOther ∧ ∃ id, bounded_id id ∧ identity p = Some ("tool:" +:+ id +:+ ":count")) }.

Lemma activity_id_spec v s :
  activity_id v = Some s ↔ v = Some (VString s) ∧ bounded_id s.
Proof.
  unfold activity_id, keep_if, bounded_id. split.
  - destruct (v ≫= as_str) as [x|] eqn:E; [|done].
    destruct (_ && _) eqn:Hb; [|done]. intros [= ->]. destruct v as [[]|]; simplify_eq/=. bool_hyp.
    split_and!; try done. by destruct s.
  - intros (-> & Hne & Hl & Hn). simpl. rewrite Hn.
    destruct (Nat.leb_spec (String.length s) MAX_ACTIVITY_ID_BYTES); [|lia]. by destruct s.
Qed.

Lemma activity_id_bounded v s : activity_id v = Some s → bounded_id s.
Proof. intros H. by apply activity_id_spec in H as [_ ?]. Qed.

Lemma framed_identity pre suf id :
  String.length pre ≤ 11 → String.length suf ≤ 11 →
  contains_char pre (byte_of 0) = false → contains_char suf (byte_of 0) = false →
  bounded_id id → bounded_identity (pre +:+ id +:+ suf).
Proof.
  intros Hp Hs Hpn Hsn (_ & Hl & Hn). split; [rewrite !string_app_length; lia|].
  by rewrite !contains_char_app, Hpn, Hsn, Hn.
Qed.

(** Identities of the shape [pre id suf] of an optional id. *)
Lemma framed_option pre suf o i :
  String.length pre ≤ 11 → String.length suf ≤ 11 →
  contains_char pre (byte_of 0) = false → contains_char suf (byte_of 0) = false →
  (∀ id, o = Some id → bounded_id id) →
  option_map (λ id, pre +:+ id +:+ suf) o = Some i → bounded_identity i.
Proof. destruct o as [id|]; [|done]. intros ???? Ho [= <-]. apply framed_identity; auto. Qed.

Lemma stream_option o i :
  (∀ id, o = Some id → bounded_id id) →
  option_map (λ id, "stream:" +:+ id) o = Some i → bounded_identity i.
Proof.
  destruct o as [id|]; [|done]. intros Ho [= <-].
  rewrite <- (string_app_nil_r id). apply (framed_identity "stream:" ""); simpl; auto; lia.
Qed.

#[local] Hint Resolve activity_id_bounded : agent.

(** Frames without an effect of their own. *)
Lemma plain_ok mode p :
  identity p = None → request_id p = None → tool_call_id p = None → sample p = None →
  transition p = None → parsed_ok mode p.
Proof. intros E1 E2 E3 E4 E5. constructor; rewrite ?E1, ?E2, ?E3, ?E4, ?E5; done. Qed.

(** Stream samples carry no tool. *)
Lemma stream_ok mode p key o x :
  x = ReasoningDelta ∨ x = TextDelta → (∀ id, o = Some id → bounded_id id) →
  request_id p = None → tool_call_id p = None → transition p = None →
  parsed_ok mode (set_stream key (option_map (λ id, "stream:" +:+ id) o) x p).
Proof.
  intros Hx Ho E2 E3 E5. constructor; simpl; rewrite ?E2, ?E3, ?E5; try done.
  - intros i. by apply stream_option.
  - by destruct Hx as [-> | ->].
  - by destruct Hx as [-> | ->].
  - by destruct Hx as [-> | ->].
Qed.

(** Transitions that are not tool phases, with the ids they name. *)
Lemma transition_ok mode p pre suf o t :
  String.length pre ≤ 11 → String.length suf ≤ 11 →
  contains_char pre (byte_of 0) = false → contains_char suf (byte_of 0) = false →
  (∀ id, o = Some id → bounded_id id) →
  tool_transition t = false → sample p = None →
  (∀ i, request_id p = Some i → bounded_id i) → (∀ i, tool_call_id p = Some i → bounded_id i) →
  parsed_ok mode (set_transition (option_map (λ id, pre +:+ id +:+ suf) o) t p).
Proof.
  intros ????? Ht E4 Hr Hc. constructor; simpl; rewrite ?E4; try done.
  - intros i. by apply framed_option.
  - intros _. split_and!; try done. by intros ? [= <-].
Qed.

(** The parsers of one vocabulary, on a frame that claims nothing yet. *)
Definition fresh (p : ParsedActivity) : Prop :=
  identity p = None ∧ request_id p = None ∧ tool_call_id p = None ∧ sample p = None
  ∧ transition p = None.

Lemma parse_model_ok mode p payload started :
  fresh p → parsed_ok mode (parse_model_activity p payload started).
Proof.
  intros (E1 & E2 & E3 & E4 & E5). unfold parse_model_activity.
  destruct started; apply (transition_ok _ _ "model:"); simpl; eauto with agent; try lia;
    rewrite E3; done.
Qed.

Lemma parse_permission_ok mode p payload requested :
  fresh p → parsed_ok mode (parse_permission_activity p payload requested).
Proof.
  intros (E1 & E2 & E3 & E4 & E5). unfold parse_permission_activity.
  destruct requested; apply (transition_ok _ _ "permission:"); simpl; eauto with agent; lia.
Qed.

Lemma parse_turn_ok mode p event_id turn_id phase t :
  fresh p → (∀ id, event_id = Some id → bounded_id id) → (∀ id, turn_id = Some id → bounded_id id) →
  one_of phase ["started"; "completed"; "failed"] = true → tool_transition t = false →
  parsed_ok mode (set_transition (turn_identity event_id turn_id phase) t p).
Proof.
  intros (E1 & E2 & E3 & E4 & E5) He Hturn Hp Ht. unfold turn_identity.
  apply (transition_ok _ _ "turn:" (":" +:+ phase)); try done; simpl; try lia;
    try (apply one_of_true in Hp; set_unfold; by destruct Hp as [->|[->|[->|[]]]]; simpl; try lia).
  - intros id. destruct event_id; auto.
  - by rewrite E2.
  - by rewrite E3.
Qed.

Lemma phase_name_frame t name :
  phase_name t = Some name →
  String.length (":" +:+ name) ≤ 11 ∧ contains_char (":" +:+ name) (byte_of 0) = false.
Proof. destruct t; intros [= <-]; simpl; split; done || lia. Qed.

Lemma parse_tool_ok mode p payload source :
  mode ≠ CountOnly → fresh p → parsed_ok mode (parse_tool_activity p payload source).
Proof.
  intros Hmode (E1 & E2 & E3 & E4 & E5). unfold parse_tool_activity.
  set (raw := get_str payload _).
  set (p0 := if _ && bool_decide _ then set_known false p else p).
  assert (F : identity p0 = None ∧ request_id p0 = None ∧ sample p0 = None)
    by (unfold p0; by destruct (_ && _)).
  destruct F as (F1 & F2 & F4). clearbody p0.
  set (call := activity_id (get payload "toolCallId")).
  assert (Hc : ∀ i, call = Some i → bounded_id i) by (intros i; apply activity_id_bounded).
  clearbody call. destruct call as [id|], (raw ≫= tool_phase) as [t|]; [destruct (phase_name t) as [name|] eqn:Hn|..].
  1: { constructor; simpl; rewrite ?F2; try done.
       - intros i [= <-]. destruct (phase_name_frame t name Hn).
         apply (framed_identity "tool:" (":" +:+ name)); simpl in *; auto; lia.
       - destruct t; simpl; intros k n [= <- <-]; unfold MAX_TOOL_COUNT; lia.
       - intros _ k n. destruct t; simpl; intros [= <- <-]; split_and!; eauto. }
  all: constructor; simpl; rewrite ?F1, ?F2, ?F4; try done.
Qed.

Lemma parse_count_ok mode p payload event_id turn_id :
  mode ≠ Detailed → fresh p → (∀ id, event_id = Some id → bounded_id id) →
  parsed_ok mode (parse_tool_count_activity p payload event_id turn_id).
Proof.
  intros Hmode Hf He. pose proof Hf as (E1 & E2 & E3 & E4 & E5). unfold parse_tool_count_activity.
  destruct (get payload "count" ≫= as_u64) as [n|]; [|by apply plain_ok].
  destruct (negb _) eqn:Hb; [by apply plain_ok|]. apply negb_false_iff in Hb.
  destruct event_id as [id|]; [|by apply plain_ok].
  assert (Hi : bounded_identity ("tool:" +:+ id +:+ ":count")).
  { apply (framed_identity "tool:" ":count"); simpl; auto; lia. }
  assert (Hn : (1 ≤ n ≤ MAX_TOOL_COUNT)%Z) by (bool_hyp; lia).
  assert (Hid : bounded_id id) by auto.
  constructor; destruct (get_str payload "tool"); cbn -[String.append]; rewrite ?E2, ?E3, ?E5; try done;
    try (by intros i [= <-]); try (by intros k m [= <- <-]);
    intros _; split_and!; try done; intros k m [= <- <-]; eauto.
Qed.

Lemma descriptor_ok mode p params payload :
  parsed_ok mode p → parsed_ok mode (parse_detailed_descriptor p params payload).
Proof.
  intros Hp. unfold parse_detailed_descriptor.
  destruct (activity_id (get payload "toolCallId")), (get_str payload "toolName"), (get payload "input");
    try exact Hp.
  destruct (identity p) eqn:E; [|exact Hp]. destruct Hp; by constructor.
Qed.

Lemma parse_session_ok params source mode p :
  fresh p → parsed_ok mode (parse_session_event params source mode p).
Proof.
  intros Hf. pose proof Hf as (E1 & E2 & E3 & E4 & E5). unfold parse_session_event.
  assert (Hid : ∀ v id, activity_id v = Some id → bounded_id id) by apply activity_id_bounded.
  assert (Hplain : parsed_ok mode p) by by apply plain_ok.
  assert (Hfin : ∀ m, parsed_ok mode (set_finished m p)) by (intros m; by apply plain_ok).
  destruct (_ && _). { apply stream_ok; eauto. }
  destruct (_ && _).
  { assert (Hs : parsed_ok mode (set_stream (stream_key params (get_or_null params "payload") "text")
      (option_map (λ id, "stream:" +:+ id) (activity_id (get params "eventId"))) TextDelta p))
      by (apply stream_ok; eauto).
    destruct Hs; by constructor. }
  destruct (_ && _); [done|]. destruct (among _ _); [done|]. destruct (among _ _).
  { destruct (is_str _ "count").
    - destruct (decide (mode = Detailed)); [done|]. apply parse_count_ok; eauto.
    - destruct (decide (mode = CountOnly)); [done|].
      destruct (is_str _ "started"); [apply descriptor_ok|]; by apply parse_tool_ok. }
  destruct (_ && _); [by apply parse_model_ok|]. destruct (_ && _); [by apply parse_model_ok|].
  destruct (is_str _ _); [by apply parse_permission_ok|].
  destruct (is_str _ _); [by apply parse_permission_ok|].
  destruct (is_str _ _); [apply parse_turn_ok; eauto|].
  destruct (is_str _ _).
  { assert (Ht : parsed_ok mode (set_transition (turn_identity (activity_id (get params "eventId"))
      (activity_id (get params "turnId")) "completed") TurnCompleted p)) by (apply parse_turn_ok; eauto).
    destruct Ht; by constructor. }
  destruct (is_str _ _); [apply parse_turn_ok; eauto | done].
Qed.

Lemma phase_ok mode p t :
  fresh p → tool_transition t = false → parsed_ok mode (set_phase (Some t) p).
Proof.
  intros (E1 & E2 & E3 & E4 & E5) Ht. constructor; simpl; rewrite ?E1, ?E2, ?E3, ?E4; try done.
  intros _. split_and!; try done. by intros ? [= <-].
Qed.

Lemma parse_telemetry_ok params source mode p :
  fresh p → parsed_ok mode (parse_telemetry_event params source mode p).
Proof.
  intros Hf. unfold parse_telemetry_event.
  assert (Hk : ∀ b, fresh (set_known b p)) by done.
  assert (Hplain : ∀ b, parsed_ok mode (set_known b p)).
  { intros b. destruct (Hk b) as (? & ? & ? & ? & ?). by apply plain_ok. }
  assert (Hplain' : ∀ a b, parsed_ok mode (set_known a (set_known b p))) by (intros; apply Hplain).
  assert (Hid : ∀ v id, activity_id v = Some id → bounded_id id) by apply activity_id_bounded.
  destruct Hf as (E1 & E2 & E3 & E4 & E5). specialize (Hk true).
  destruct (is_str _ "stream.chunk").
  { destruct (is_str _ _); [apply stream_ok; eauto|]. destruct (is_str _ _); [apply stream_ok; eauto | done]. }
  destruct (is_str _ _). { destruct (decide _); [done | by apply parse_tool_ok]. }
  destruct (is_str _ _). { destruct (_ || _); [by apply parse_model_ok | done]. }
  destruct (is_str _ _).
  { destruct (is_str _ _); [by apply parse_permission_ok|].
    destruct (is_str _ _); [by apply parse_permission_ok | done]. }
  repeat (destruct (is_str _ _); [by try apply phase_ok|]). done.
Qed.

Lemma parsed_activity_ok event mode : parsed_ok mode (parse_passive_activity event mode).
Proof.
  assert (Hplain : parsed_ok mode (parsed_from FromRuntime)) by by apply plain_ok.
  assert (Hmsg : ∀ method params source, parsed_ok mode (parse_activity_message method params source mode)).
  { intros method params source. unfold parse_activity_message.
    destruct (method ≟ SESSION_EVENT); [by apply parse_session_ok|].
    destruct (method ≟ TELEMETRY_EVENT); [by apply parse_telemetry_ok | by apply plain_ok]. }
  destruct event as [[[r| |e|method raw]| | | | |]|]; simpl; auto.
  destruct (one_of _ _); [|done].
  apply (transition_ok _ _ "permission:" ":requested"); simpl; eauto using activity_id_bounded; lia.
Qed.

(** C40. Nothing a frame claims exceeds its vocabulary: every identity it yields is
    NUL-free and bounded, every tool start weighs between 1 and 1024, a detailed
    adapter only starts single named calls, and a count-only adapter never drives
    a tool phase and counts only under an event identity. *)
Theorem parsed_activity_in_vocabulary event mode : parsed_ok mode (parse_passive_activity event mode).
Proof. apply parsed_activity_ok. Qed.

(** ** Constructors against the parser *)

Definition session_activity (v : Value) (mode : ToolActivityMode) : ParsedActivity :=
  parse_activity_message SESSION_EVENT v FromSession mode.

(** What the daemon documents as a legal count event for the mode. *)
Definition count_accepted (mode : ToolActivityMode) (event_id : string) (count : Z) : bool :=
  bool_decide (mode ≠ Detailed) && (Z.leb 1 count && Z.leb count MAX_TOOL_COUNT)
  && bool_decide (activity_id (Some (VString event_id)) = Some event_id).

Lemma session_tool_event event_id turn_id payload mode :
  session_activity (tool_event event_id turn_id payload) mode =
  let p := set_known true (parsed_from FromSession) in
  if is_str (get_str (VObject payload) "kind") "count" then
    if decide (mode = Detailed) then p
    else parse_tool_count_activity p (VObject payload) (activity_id (Some (VString event_id)))
           (activity_id (Some (VString turn_id)))
  else if decide (mode = CountOnly) then p
  else
    let p := parse_tool_activity p (VObject payload) FromSession in
    if is_str (get_str (VObject payload) "kind") "started"
    then parse_detailed_descriptor p (tool_event event_id turn_id payload) (VObject payload) else p.
Proof. reflexivity. Qed.

Lemma activity_id_cases s :
  activity_id (Some (VString s)) = Some s ∨ activity_id (Some (VString s)) = None.
Proof. unfold activity_id, keep_if. simpl. destruct (_ && _); auto. Qed.

(** Count events mean what their producer said: a count event built by the
    contract is read back with exactly its weight, its event identity and its
    descriptor when the adapter may count, the count is in 1..1024 and the event
    id is bounded; any other one invents nothing. *)
Theorem count_event_round_trip event_id turn_id count tool detail mode :
  let p := session_activity (tool_count_event event_id turn_id count tool detail) mode in
  if count_accepted mode event_id count then
    identity p = Some ("tool:" +:+ event_id +:+ ":count")
    ∧ sample p = Some (SampleToolStarted ToolOther count)
    ∧ transition p = None ∧ tool_call_id p = None
    ∧ tool_descriptor p =
        option_map (λ name,
          let turn := default "" (activity_id (Some (VString turn_id))) in
          mk_descriptor turn (count_call_id event_id) name
            (turn +:+ ":" +:+ ("tool:" +:+ event_id +:+ ":count")) None (Some (default "" detail))) tool
  else p = parsed_from FromSession.
Proof.
  intros p. unfold p, tool_count_event, count_accepted. rewrite session_tool_event.
  change (is_str _ "count") with true. cbv iota zeta.
  destruct (decide (mode = Detailed)) as [->|Hm]; [done|].
  rewrite (bool_decide_eq_true_2 (mode ≠ Detailed)) by done. unfold parse_tool_count_activity.
  change (get (VObject _) "count" ≫= as_u64) with (Some count). cbv iota. rewrite andb_true_l.
  destruct (Z.leb 1 count && Z.leb count MAX_TOOL_COUNT); [|done].
  destruct (activity_id_cases event_id) as [-> | ->]; [|done].
  rewrite bool_decide_eq_true_2 by done. by destruct tool, detail.
Qed.

(** Started and result events of one call, under a mode that accepts details:
    the start weighs one and is classified by its name, both name the call, and
    their identities differ; a count-only adapter's are ignored. *)
Theorem detailed_events_round_trip event_id turn_id call name mode :
  let started := session_activity (tool_started_event event_id turn_id call name) mode in
  let result := session_activity (tool_result_event event_id turn_id call) mode in
  bounded_id call →
  if decide (mode = CountOnly) then started = parsed_from FromSession ∧ result = parsed_from FromSession
  else
    (tool_call_id started = Some call ∧ transition started = Some ToolStarted
     ∧ identity started = Some ("tool:" +:+ call +:+ ":started")
     ∧ sample started = Some (SampleToolStarted (classify_passive_tool (VString <$> name)) 1)
     ∧ tool_descriptor started = None)
    ∧ (tool_call_id result = Some call ∧ transition result = Some ToolCompleted
       ∧ identity result = Some ("tool:" +:+ call +:+ ":completed")
       ∧ sample result = Some SampleToolCompleted)
    ∧ identity started ≠ identity result.
Proof.
  intros started result Hc. unfold started, result, tool_started_event, tool_result_event.
  rewrite !session_tool_event. destruct (decide (mode = CountOnly)) as [->|Hm]; [done|].
  assert (Hid : activity_id (Some (VString call)) = Some call) by by apply activity_id_spec.
  unfold parse_detailed_descriptor, parse_tool_activity.
  assert (Hne : Some ("tool:" +:+ call +:+ ":started") ≠ Some ("tool:" +:+ call +:+ ":completed")).
  { intros [= H]. apply (f_equal (str_drop (String.length call))) in H.
    by rewrite !str_drop_app_length in H. }
  destruct name as [name|];
    cbv [is_str bool_decide decide]; simpl; rewrite !Hid; cbn -[String.append]; split_and!; done.
Qed.

Lemma detailed_events_round_trip_witness :
  let started := session_activity (tool_started_event "e" "t" "call" (Some "bash")) Detailed in
  sample started = Some (SampleToolStarted ToolBash 1).
Proof.
  apply (detailed_events_round_trip "e" "t" "call" (Some "bash") Detailed).
  split_and!; [done | vm_compute; lia | reflexivity].
Defined.
