(* ===== verification/ActivityTracker.v ===== *)
(** * The activity tracker

    [crates/external-daemon/src/activity_tracker.rs]: the state a task's tracker
    keeps under its lock, and every operation on it.  An operation runs under the
    lock as a whole, so a history is a sequence of operations.

    Instants and durations are nanoseconds since an arbitrary origin.  Text that
    does not cut a string on a character boundary panics, as slicing does. *)

From stdpp Require Import gmap.
From S2P Require Import Prelude RustStr Utf8 Json Contract Projection Observation RuntimeEvents Activity.

Definition PASSIVE_ACTIVITY_WINDOW : Z := 60 * 1000000000.
Definition MAX_ACTIVITY_IDENTITIES : Z := 65536.
Definition MAX_LATEST_TEXT_BYTES : nat := 8 * 1024.

(** ** State *)

Record ActivitySample := mk_sample {
  sample_source : ActivitySource; observed_at : Z; sample_kind : ActivitySampleKind }.

Record PassiveActivityState := mk_activity {
  revision : Z;
  last_runtime_event_at : option (Z * Z);
  active_model_requests : gmap string Z;
  last_model_delta_at : option Z;
  latest_text_tail : string;
  latest_text_updated_at : option Z;
  latest_text_truncated : bool;
  appended_bytes : Z;
  delivered_bytes : Z;
  terminal_text : string;
  terminal_text_settled : bool;
  active_tools : gmap string (PassiveToolKind * Z);
  samples : gmap string ActivitySample;
  sample_order : list string;
  telemetry_degraded : bool;
  observation : ObservationState }.

Record PassiveActivityTracker := mk_tracker {
  state : PassiveActivityState; mode : ToolActivityMode; runtime_source_verified : bool }.

(** Field updates. *)
Definition set_received (n : Z) (at_ : Z * Z) (s : PassiveActivityState) : PassiveActivityState :=
  mk_activity n (Some at_) (active_model_requests s) (last_model_delta_at s)
    (latest_text_tail s) (latest_text_updated_at s) (latest_text_truncated s)
    (appended_bytes s) (delivered_bytes s) (terminal_text s) (terminal_text_settled s)
    (active_tools s) (samples s) (sample_order s) (telemetry_degraded s) (observation s).
Definition set_degraded (b : bool) (s : PassiveActivityState) : PassiveActivityState :=
  mk_activity (revision s) (last_runtime_event_at s) (active_model_requests s)
    (last_model_delta_at s) (latest_text_tail s) (latest_text_updated_at s)
    (latest_text_truncated s) (appended_bytes s) (delivered_bytes s) (terminal_text s)
    (terminal_text_settled s) (active_tools s) (samples s) (sample_order s) b
    (observation s).
Definition set_observation (o : ObservationState) (s : PassiveActivityState) : PassiveActivityState :=
  mk_activity (revision s) (last_runtime_event_at s) (active_model_requests s)
    (last_model_delta_at s) (latest_text_tail s) (latest_text_updated_at s)
    (latest_text_truncated s) (appended_bytes s) (delivered_bytes s) (terminal_text s)
    (terminal_text_settled s) (active_tools s) (samples s) (sample_order s)
    (telemetry_degraded s) o.
Definition set_samples (m : gmap string ActivitySample) (order : list string) (s : PassiveActivityState) : PassiveActivityState :=
  mk_activity (revision s) (last_runtime_event_at s) (active_model_requests s)
    (last_model_delta_at s) (latest_text_tail s) (latest_text_updated_at s)
    (latest_text_truncated s) (appended_bytes s) (delivered_bytes s) (terminal_text s)
    (terminal_text_settled s) (active_tools s) m order (telemetry_degraded s)
    (observation s).
Definition set_model (m : gmap string Z) (d : option Z) (s : PassiveActivityState) : PassiveActivityState :=
  mk_activity (revision s) (last_runtime_event_at s) m d (latest_text_tail s)
    (latest_text_updated_at s) (latest_text_truncated s) (appended_bytes s)
    (delivered_bytes s) (terminal_text s) (terminal_text_settled s) (active_tools s)
    (samples s) (sample_order s) (telemetry_degraded s) (observation s).
Definition set_active_tools (m : gmap string (PassiveToolKind * Z)) (s : PassiveActivityState) : PassiveActivityState :=
  mk_activity (revision s) (last_runtime_event_at s) (active_model_requests s)
    (last_model_delta_at s) (latest_text_tail s) (latest_text_updated_at s)
    (latest_text_truncated s) (appended_bytes s) (delivered_bytes s) (terminal_text s)
    (terminal_text_settled s) m (samples s) (sample_order s) (telemetry_degraded s)
    (observation s).
Definition set_terminal (t : string) (settled : bool) (s : PassiveActivityState) : PassiveActivityState :=
  mk_activity (revision s) (last_runtime_event_at s) (active_model_requests s)
    (last_model_delta_at s) (latest_text_tail s) (latest_text_updated_at s)
    (latest_text_truncated s) (appended_bytes s) (delivered_bytes s) t settled
    (active_tools s) (samples s) (sample_order s) (telemetry_degraded s) (observation s).
Definition set_tail (t : string) (at_ : option Z) (cut : bool) (appended : Z) (s : PassiveActivityState) : PassiveActivityState :=
  mk_activity (revision s) (last_runtime_event_at s) (active_model_requests s)
    (last_model_delta_at s) t at_ cut appended (delivered_bytes s) (terminal_text s)
    (terminal_text_settled s) (active_tools s) (samples s) (sample_order s)
    (telemetry_degraded s) (observation s).
Definition set_delivered (n : Z) (s : PassiveActivityState) : PassiveActivityState :=
  mk_activity (revision s) (last_runtime_event_at s) (active_model_requests s)
    (last_model_delta_at s) (latest_text_tail s) (latest_text_updated_at s)
    (latest_text_truncated s) (appended_bytes s) n (terminal_text s)
    (terminal_text_settled s) (active_tools s) (samples s) (sample_order s)
    (telemetry_degraded s) (observation s).

Definition default_activity : PassiveActivityState :=
  mk_activity 0 None ∅ None "" None false 0 0 "" false ∅ ∅ [] false default_state.

Definition tracker_new (verified : bool) : PassiveActivityTracker :=
  mk_tracker default_activity Mixed verified.

Definition adapter_mode (adapter : string) : ToolActivityMode :=
  if adapter ≟ "codex" then CountOnly
  else if one_of adapter ["zcode"; "dsh"; "agy"] then Detailed else Mixed.

Definition tracker_for_launch (adapter : string) (verified : bool) (scope : Z)
    : PassiveActivityTracker :=
  mk_tracker (set_observation (for_launch adapter scope) default_activity) (adapter_mode adapter) verified.

Definition tracker_for_adapter (adapter : string) (verified : bool) : PassiveActivityTracker :=
  tracker_for_launch adapter verified 0.

(** ** Observing an event *)

Definition append_latest_text (delta : string) (wall_now : Z) (s : PassiveActivityState)
    : PassiveActivityState :=
  let s := if terminal_text_settled s then s
           else set_terminal (terminal_text s +:+ delta) false s in
  let appended := saturating_add (appended_bytes s) (Z.of_nat (String.length delta)) in
  let combined := latest_text_tail s +:+ delta in
  let over := Nat.ltb MAX_LATEST_TEXT_BYTES (String.length combined) in
  set_tail (roll MAX_LATEST_TEXT_BYTES combined) (Some wall_now)
    (latest_text_truncated s || over) appended s.

(** Whether a sample with this identity is taken, and the samples after it. *)
Definition admit_sample (p : ParsedActivity) (now : Z) (s : PassiveActivityState)
    : bool * PassiveActivityState :=
  match identity p, sample p with
  | Some id, Some kind =>
      let replace := match samples s !! id with
                     | Some existing =>
                         bool_decide (sample_source existing = FromTelemetry)
                         && bool_decide (parsed_source p = FromSession)
                     | None => true
                     end in
      if replace then
        let order := if decide (samples s !! id = None) then sample_order s ++ [id] else sample_order s in
        (true, set_samples (<[id := mk_sample (parsed_source p) now kind]> (samples s)) order s)
      else (false, s)
  | _, _ => (true, s)
  end.

(** [while sample_order.len() > MAX { pop_front; remove }]. *)
Fixpoint evict (order : list string) (m : gmap string ActivitySample)
    : list string * gmap string ActivitySample :=
  match order with
  | [] => ([], m)
  | id :: rest =>
      if Z.ltb MAX_ACTIVITY_IDENTITIES (Z.of_nat (length order)) then evict rest (delete id m)
      else (order, m)
  end.

Definition evict_samples (s : PassiveActivityState) : PassiveActivityState :=
  let '(order, m) := evict (sample_order s) (samples s) in set_samples m order s.

(** The text and stream effects of an admitted frame. *)
Definition admit_text (p : ParsedActivity) (now wall_now : Z) (s : PassiveActivityState)
    : PassiveActivityState :=
  let s := match sample p with
           | Some (ReasoningDelta | TextDelta) => set_model (active_model_requests s) (Some now) s
           | _ => s
           end in
  let s := match text_delta p with Some delta => append_latest_text delta wall_now s | None => s end in
  match terminal_response p with Some response => set_terminal response true s | None => s end.

Definition apply_transition (p : ParsedActivity) (now : Z) (s : PassiveActivityState)
    : PassiveActivityState :=
  match transition p with
  | Some ModelStarted =>
      let id := default "model-request" (request_id p) in
      match active_model_requests s !! id with
      | Some _ => s
      | None => set_model (<[id := now]> (active_model_requests s)) (Some now) s
      end
  | Some ModelCompleted =>
      set_model (match request_id p with
                 | Some id => delete id (active_model_requests s)
                 | None => ∅
                 end) (last_model_delta_at s) s
  | Some (ToolScheduled | ToolStarted) =>
      match tool_call_id p with
      | Some id =>
          match active_tools s !! id with
          | Some _ => s
          | None => set_active_tools (<[id := (tool_kind p, now)]> (active_tools s)) s
          end
      | None => s
      end
  | Some (ToolCompleted | ToolFailed | PermissionResolved) =>
      match tool_call_id p with
      | Some id => set_active_tools (delete id (active_tools s)) s
      | None => s
      end
  | Some (TurnCompleted | TurnFailed) =>
      set_active_tools ∅ (set_model ∅ (last_model_delta_at s) s)
  | Some TurnStarted => set_terminal "" false s
  | Some PermissionRequested | None => s
  end.

Section observe.
Context (to_string : Value → string).

Definition observe_inbound (event : RuntimeEvent) (o : ObservationState) : ObservationState :=
  match event with
  | Driver (Message (Event e)) => observe_message to_string (event_method e) (event_params e) o
  | Driver (Message (UnknownEvent method raw)) =>
      observe_message to_string method (get_or_null raw "params") o
  | Driver (Malformed _ | OversizedLine _) => observe_loss o
  | _ => o
  end.

(** The arrival of a frame: its observation, the revision, unknown telemetry. *)
Definition receive (event : RuntimeEvent) (p : ParsedActivity) (now wall_now : Z)
    (s : PassiveActivityState) : PassiveActivityState :=
  let s := set_observation (observe_inbound event (observation s)) s in
  let s := set_received (saturating_add (revision s) 1) (now, wall_now) s in
  if bool_decide (parsed_source p = FromTelemetry) && negb (telemetry_known p)
  then set_degraded true s else s.

Definition ingest_descriptor (p : ParsedActivity) (s : PassiveActivityState)
    : PassiveActivityState :=
  match tool_descriptor p with
  | Some d => set_observation (observe_descriptor to_string d (observation s)) s
  | None => s
  end.

Definition observe_at (event : RuntimeEvent) (now wall_now : Z) (t : PassiveActivityTracker)
    : PassiveActivityTracker :=
  let p := parse_passive_activity event (mode t) in
  let s := receive event p now wall_now (state t) in
  let '(admitted, s) := admit_sample p now s in
  let s := evict_samples s in
  let s := if admitted then admit_text p now wall_now s else s in
  let s := ingest_descriptor p s in
  mk_tracker (apply_transition p now s) (mode t) (runtime_source_verified t).

End observe.

(** ** Snapshots *)

Record PassiveActivityWindow := mk_window {
  reasoning_delta_events : Z; text_delta_events : Z; tool_calls_started : Z;
  tool_calls_completed : Z; tool_calls_failed : Z;
  read_calls : Z; bash_calls : Z; other_tool_calls : Z }.

Definition empty_window : PassiveActivityWindow := mk_window 0 0 0 0 0 0 0 0.

(** [Instant::saturating_duration_since] and [duration_millis]. *)
Definition saturating_duration_since (now at_ : Z) : Z := Z.max 0 (now - at_).
Definition duration_millis (d : Z) : Z := Z.min u64_max (d / 1000000).
Definition age_millis (now at_ : Z) : Z := duration_millis (saturating_duration_since now at_).

Definition in_window (now : Z) (x : ActivitySample) : bool :=
  Z.leb (saturating_duration_since now (observed_at x)) PASSIVE_ACTIVITY_WINDOW.

Definition count_sample (now : Z) (w : PassiveActivityWindow) (x : ActivitySample)
    : PassiveActivityWindow :=
  let '(mk_window r t s c f rd b o) := w in
  if negb (in_window now x) then w
  else
    match sample_kind x with
    | ReasoningDelta => mk_window (saturating_add r 1) t s c f rd b o
    | TextDelta => mk_window r (saturating_add t 1) s c f rd b o
    | SampleToolStarted kind n =>
        let s := saturating_add s n in
        match kind with
        | ToolRead => mk_window r t s c f (saturating_add rd n) b o
        | ToolBash => mk_window r t s c f rd (saturating_add b n) o
        | ToolOther => mk_window r t s c f rd b (saturating_add o n)
        end
    | SampleToolCompleted => mk_window r t s (saturating_add c 1) f rd b o
    | SampleToolFailed => mk_window r t s c (saturating_add f 1) rd b o
    end.

(** The loop over the values of the map, in the map's order. *)
Definition window_60s (now : Z) (s : PassiveActivityState) : PassiveActivityWindow :=
  fold_left (count_sample now) (map_to_list (samples s)).*2 empty_window.

Record PassiveActivitySnapshot := mk_activity_snapshot {
  snap_revision : Z;
  snap_last_event_at : option Z;
  snap_last_activity_age_ms : option Z;
  snap_model_request_active : bool;
  snap_model_request_age_ms : option Z;
  snap_model_last_delta_age_ms : option Z;
  snap_text_tail : string;
  snap_text_updated_at : option Z;
  snap_text_truncated : bool;
  snap_active_tools : list (string * PassiveToolKind);
  snap_oldest_active_tool_age_ms : option Z;
  snap_window : PassiveActivityWindow;
  snap_degraded : bool }.

(** [Iterator::min] and [Iterator::max]. *)
Definition list_min (l : list Z) : option Z :=
  match l with [] => None | x :: rest => Some (fold_left Z.min rest x) end.
Definition list_max (l : list Z) : option Z :=
  match l with [] => None | x :: rest => Some (fold_left Z.max rest x) end.

(** The active tools sorted by call id. *)
Definition sorted_active_tools (s : PassiveActivityState) : list (string * PassiveToolKind) :=
  omap (λ id, (λ v : PassiveToolKind * Z, (id, v.1)) <$> active_tools s !! id)
    (sort (map_to_list (active_tools s)).*1).

Definition snapshot_at (now : Z) (t : PassiveActivityTracker) : PassiveActivitySnapshot :=
  let s := state t in
  let requests := (map_to_list (active_model_requests s)).*2 in
  mk_activity_snapshot (revision s) (snd <$> last_runtime_event_at s)
    ((λ x : Z * Z, age_millis now x.1) <$> last_runtime_event_at s)
    (negb (is_nil requests))
    (age_millis now <$> list_min requests)
    (age_millis now <$> last_model_delta_at s)
    (latest_text_tail s) (latest_text_updated_at s) (latest_text_truncated s)
    (sorted_active_tools s)
    (list_max ((λ v : PassiveToolKind * Z, age_millis now v.2) <$> (map_to_list (active_tools s)).*2))
    (window_60s now s) (telemetry_degraded s).

(** ** Terminal text *)

Inductive TerminalText := Visible (text : string) | Missing.

Definition take_terminal_text (t : PassiveActivityTracker) : TerminalText * PassiveActivityTracker :=
  let s := state t in
  let cleared := mk_tracker (set_terminal "" (terminal_text_settled s) s) (mode t)
                   (runtime_source_verified t) in
  (if trim_is_empty (terminal_text s) then Missing else Visible (terminal_text s), cleared).

(** ** The wait text *)

Record WaitTail := mk_wait_tail { wait_text : string; wait_truncated : bool }.

(** [wait_tail_locked]; the slice panics off a character boundary. *)
Definition wait_tail_locked (s : PassiveActivityState) : outcome WaitTail :=
  let window_start :=
    saturating_sub (appended_bytes s) (Z.of_nat (String.length (latest_text_tail s))) in
  if Z.ltb (delivered_bytes s) window_start then Returns (mk_wait_tail (latest_text_tail s) true)
  else
    text ← slice_tail (Z.to_nat (delivered_bytes s - window_start)) (latest_text_tail s);
    Returns (mk_wait_tail text false).

Definition peek_wait_tail (t : PassiveActivityTracker) : outcome WaitTail :=
  wait_tail_locked (state t).

Definition take_wait_tail (t : PassiveActivityTracker) : outcome (WaitTail * PassiveActivityTracker) :=
  tail ← wait_tail_locked (state t);
  Returns (tail, mk_tracker (set_delivered (appended_bytes (state t)) (state t)) (mode t)
                   (runtime_source_verified t)).

(** [new.inherit_wait_text(old)], with the iteration orders of [merge_newer]. *)
Definition inherit_wait_text (events frames : list string) (old t : PassiveActivityTracker)
    : PassiveActivityTracker :=
  let o := state old in
  let s := state t in
  let updated := match latest_text_updated_at o, latest_text_updated_at s with
                 | Some a, Some b => Some (Z.max a b)
                 | Some a, None => Some a
                 | None, b => b
                 end in
  let s' := set_tail (roll MAX_LATEST_TEXT_BYTES (latest_text_tail o +:+ latest_text_tail s)) updated
              (latest_text_truncated s) (saturating_add (appended_bytes o) (appended_bytes s)) s in
  let s' := set_delivered (delivered_bytes o) s' in
  mk_tracker (set_observation (merge_newer events frames (observation s) (observation o)) s')
    (mode t) (runtime_source_verified t).

Definition observation_snapshot (t : PassiveActivityTracker) : ObservationSnapshot :=
  snapshot (observation (state t)).

Definition confirm_runtime_source (still_verified : bool) (t : PassiveActivityTracker)
    : PassiveActivityTracker :=
  if still_verified then t else mk_tracker (state t) (mode t) false.
