(* ===== verification/TrackerProps.v ===== *)
(** * Theorems on the activity tracker

    The wait text as a byte stream with one reader, the sample window, and what
    re-delivered frames may change. *)

From stdpp Require Import gmap.
From S2P Require Import Prelude RustStr Utf8 Json Contract Projection Observation RuntimeEvents Activity ActivityTracker.

(** ** The abstract wait text: everything written, and how much of it was read *)

Record text_stream := mk_stream { written : string; read : nat }.

Definition unread (a : text_stream) : string := str_drop (read a) (written a).
Definition stream_append (x : string) (a : text_stream) : text_stream :=
  mk_stream (written a +:+ x) (read a).
Definition stream_drain (a : text_stream) : text_stream :=
  mk_stream (written a) (String.length (written a)).
(** The stream of a successor continues the stream of its predecessor. *)
Definition stream_join (a b : text_stream) : text_stream :=
  mk_stream (written a +:+ written b) (read a).

(** How the concrete window and cursors represent the stream.  [tk_match]: while
    the cursor is inside the window, the two agree on everything unread. *)
Record tail_ok (a : text_stream) (s : PassiveActivityState) : Prop := {
  tk_appended : appended_bytes s = Z.of_nat (String.length (written a));
  tk_delivered : delivered_bytes s = Z.of_nat (read a);
  tk_read : read a ≤ String.length (written a);
  tk_cap : String.length (latest_text_tail s) ≤ MAX_LATEST_TEXT_BYTES;
  tk_fits : String.length (latest_text_tail s) ≤ String.length (written a);
  tk_rolled : String.length (latest_text_tail s) < String.length (written a) →
    MAX_LATEST_TEXT_BYTES < String.length (written a);
  tk_start : starts_char (latest_text_tail s) = true;
  tk_whole : starts_char (written a) = true;
  tk_unread : starts_char (unread a) = true;
  tk_match : String.length (written a) - read a ≤ String.length (latest_text_tail s) →
    str_drop (read a - (String.length (written a) - String.length (latest_text_tail s)))
      (latest_text_tail s) = unread a }.

(** Rolling a window that still represents the stream. *)
Lemma roll_match (w tail : string) (r : nat) :
  r ≤ String.length w → String.length tail ≤ String.length w →
  (String.length w - r ≤ String.length tail →
   str_drop (r - (String.length w - String.length tail)) tail = str_drop r w) →
  let tail' := roll MAX_LATEST_TEXT_BYTES tail in
  String.length w - r ≤ String.length tail' →
  str_drop (r - (String.length w - String.length tail')) tail' = str_drop r w.
Proof.
  intros Hr Hl Hm tail' Hin. unfold tail' in *.
  destruct (roll_drop MAX_LATEST_TEXT_BYTES tail) as (n & E & Hn%boundary_le).
  rewrite E in *. rewrite str_drop_length in Hin |- *. rewrite <- Hm by lia. rewrite str_drop_drop. f_equal. lia.
Qed.

(** Appending [x] to the stream and to the window, before the window rolls. *)
Lemma append_match (w tail x : string) (r : nat) :
  r ≤ String.length w → String.length tail ≤ String.length w →
  (String.length w - r ≤ String.length tail →
   str_drop (r - (String.length w - String.length tail)) tail = str_drop r w) →
  String.length (w +:+ x) - r ≤ String.length (tail +:+ x) →
  str_drop (r - (String.length (w +:+ x) - String.length (tail +:+ x))) (tail +:+ x)
  = str_drop r (w +:+ x).
Proof.
  intros Hr Hl Hm Hin. rewrite !string_app_length in *.
  replace (String.length w + String.length x - (String.length tail + String.length x))
    with (String.length w - String.length tail) by lia.
  rewrite !str_drop_app_le by lia. by rewrite Hm by lia.
Qed.

Lemma append_tail_ok a x wall s :
  tail_ok a s → starts_char x = true →
  (Z.of_nat (String.length (written a) + String.length x) ≤ u64_max)%Z →
  tail_ok (stream_append x a) (append_latest_text x wall s).
Proof.
  intros [] Hx Hmax. set (s' := append_latest_text x wall s).
  assert (Ht : latest_text_tail s' = roll MAX_LATEST_TEXT_BYTES (latest_text_tail s +:+ x))
    by (unfold s', append_latest_text; by destruct (terminal_text_settled s)).
  assert (Hd : delivered_bytes s' = delivered_bytes s)
    by (unfold s', append_latest_text; by destruct (terminal_text_settled s)).
  assert (Ha : appended_bytes s'
               = saturating_add (appended_bytes s) (Z.of_nat (String.length x)))
    by (unfold s', append_latest_text; by destruct (terminal_text_settled s)).
  pose proof (roll_length MAX_LATEST_TEXT_BYTES (latest_text_tail s +:+ x)) as Hcap.
  pose proof (string_app_length (written a) x) as Hw.
  pose proof (string_app_length (latest_text_tail s) x) as Hl.
  destruct (roll_drop MAX_LATEST_TEXT_BYTES (latest_text_tail s +:+ x)) as (n & Hn & Hb%boundary_le).
  assert (Hrl : String.length (roll MAX_LATEST_TEXT_BYTES (latest_text_tail s +:+ x))
                ≤ String.length (latest_text_tail s +:+ x)) by (rewrite Hn, str_drop_length; lia).
  constructor; rewrite ?Ht, ?Hd, ?Ha; unfold stream_append, unread in *; simpl; try done; try lia.
  - rewrite tk_appended0. unfold saturating_add. lia.
  - intros Hlt. destruct (Nat.le_gt_cases (String.length (latest_text_tail s +:+ x)) MAX_LATEST_TEXT_BYTES)
      as [Hle|]; [|lia]. rewrite roll_id in Hlt by done. lia.
  - by apply roll_starts_char, starts_char_app.
  - by apply starts_char_app.
  - rewrite str_drop_app_le by done. by apply starts_char_app.
  - apply roll_match; [lia | lia |]. intros Hin. by apply append_match.
Qed.

(** Operations that leave the wait text alone. *)
Definition same_text (s s' : PassiveActivityState) : Prop :=
  latest_text_tail s' = latest_text_tail s ∧ appended_bytes s' = appended_bytes s
  ∧ delivered_bytes s' = delivered_bytes s.

Lemma tail_ok_same a s s' : same_text s s' → tail_ok a s → tail_ok a s'.
Proof. intros (E1 & E2 & E3) []. constructor; rewrite ?E1, ?E2, ?E3; done. Qed.

#[global] Instance same_text_preorder : PreOrder same_text.
Proof. split; [by split|]. intros a b c (? & ? & ?) (? & ? & ?). unfold same_text. split_and!; congruence. Qed.

(** Reading the window never panics, and yields the unread bytes or a flagged window. *)
Lemma wait_tail_spec a s :
  tail_ok a s →
  ∃ tail, wait_tail_locked s = Returns tail
    ∧ wait_truncated tail
      = bool_decide (String.length (latest_text_tail s) < String.length (unread a))
    ∧ wait_text tail = (if wait_truncated tail then latest_text_tail s else unread a).
Proof.
  intros []. unfold wait_tail_locked, saturating_sub. rewrite tk_appended0, tk_delivered0.
  assert (Hu : String.length (unread a) = String.length (written a) - read a) by apply str_drop_length.
  destruct (Z.ltb_spec (Z.of_nat (read a)) (Z.max 0 (Z.of_nat (String.length (written a))
    - Z.of_nat (String.length (latest_text_tail s))))) as [Hlt|Hge].
  - eexists. split; [done|]. simpl. split; [|done]. symmetry. apply bool_decide_eq_true. lia.
  - replace (Z.to_nat _) with (read a - (String.length (written a) - String.length (latest_text_tail s)))
      by lia.
    specialize (tk_match0 ltac:(lia)). unfold slice_tail.
    rewrite boundary_of_drop; [|lia | by rewrite tk_match0]. simpl. eexists. split; [done|].
    simpl. rewrite tk_match0. split; [|done]. symmetry. apply bool_decide_eq_false. lia.
Qed.

Lemma drain_tail_ok a s : tail_ok a s → tail_ok (stream_drain a) (set_delivered (appended_bytes s) s).
Proof.
  intros []. constructor; unfold unread in *; simpl; try done.
  - by rewrite str_drop_all.
  - intros _. rewrite !str_drop_all; [done | done | lia].
Qed.

Lemma join_tail_ok a b events frames old t :
  tail_ok a (state old) → tail_ok b (state t) → read b = 0 →
  (Z.of_nat (String.length (written a) + String.length (written b)) ≤ u64_max)%Z →
  tail_ok (stream_join a b) (state (inherit_wait_text events frames old t)).
Proof.
  intros [] [] Hb Hmax. set (to := latest_text_tail (state old)) in *.
  set (tn := latest_text_tail (state t)) in *.
  pose proof (string_app_length (written a) (written b)) as Hw.
  pose proof (string_app_length to tn) as Hl.
  pose proof (roll_length MAX_LATEST_TEXT_BYTES (to +:+ tn)) as Hcap.
  destruct (roll_drop MAX_LATEST_TEXT_BYTES (to +:+ tn)) as (n & Hn & Hbl%boundary_le).
  assert (Hrl : String.length (roll MAX_LATEST_TEXT_BYTES (to +:+ tn)) ≤ String.length (to +:+ tn))
    by (rewrite Hn, str_drop_length; lia).
  constructor; unfold inherit_wait_text, stream_join, unread in *; simpl; fold to tn; try done; try lia.
  - unfold saturating_add. rewrite tk_appended0, tk_appended1. lia.
  - intros Hlt. destruct (Nat.le_gt_cases (String.length (to +:+ tn)) MAX_LATEST_TEXT_BYTES)
      as [Hle|]; [|lia]. rewrite roll_id in Hlt by done. lia.
  - by apply roll_starts_char, starts_char_app.
  - by apply starts_char_app.
  - rewrite str_drop_app_le by done. by apply starts_char_app.
  - intros Hin. destruct (Nat.le_gt_cases (String.length (written b)) (String.length tn)) as [Hfull|];
      [|lia]. (* a successor that rolled its window is past every old cursor *)
    rewrite Hb in tk_match1. specialize (tk_match1 ltac:(lia)). simpl in tk_match1.
    rewrite tk_match1 in *. revert Hin. apply roll_match; [lia | lia |].
    intros Hin. apply append_match; done.
Qed.

(** ** Histories of a tracker *)

(** The text an event adds to the stream: its delta, if its sample is admitted. *)
Definition shown_text (event : RuntimeEvent) (t : PassiveActivityTracker) : string :=
  let p := parse_passive_activity event (mode t) in
  if (admit_sample p 0 (state t)).1 then default "" (text_delta p) else "".

Section histories.
Context (to_string : Value → string).

(** Trackers the daemon can hold, each with the stream of text it stands for.  A
    delta is a Rust [str], so it starts on a character; a successor has delivered
    nothing before it inherits. *)
Inductive tracked : PassiveActivityTracker → text_stream → Prop :=
| tracked_launch adapter verified scope :
    tracked (tracker_for_launch adapter verified scope) (mk_stream "" 0)
| tracked_observe t a event now wall :
    tracked t a → starts_char (shown_text event t) = true →
    (Z.of_nat (String.length (written a) + String.length (shown_text event t)) ≤ u64_max)%Z →
    tracked (observe_at to_string event now wall t) (stream_append (shown_text event t) a)
| tracked_take t a tail t' :
    tracked t a → take_wait_tail t = Returns (tail, t') → tracked t' (stream_drain a)
| tracked_terminal t a : tracked t a → tracked (take_terminal_text t).2 a
| tracked_confirm t a b : tracked t a → tracked (confirm_runtime_source b t) a
| tracked_inherit old a t b events frames :
    tracked old a → tracked t b → read b = 0 →
    (Z.of_nat (String.length (written a) + String.length (written b)) ≤ u64_max)%Z →
    tracked (inherit_wait_text events frames old t) (stream_join a b).

Lemma admit_same_text p now s : same_text s (admit_sample p now s).2.
Proof. unfold admit_sample. by repeat case_match. Qed.

Lemma evict_same_text s : same_text s (evict_samples s).
Proof. unfold evict_samples. by destruct (evict _ _). Qed.

Lemma transition_same_text p now s : same_text s (apply_transition p now s).
Proof. unfold apply_transition. by repeat case_match. Qed.

(** The decision to admit reads nothing but the samples. *)
Lemma admit_decision p now now' s s' :
  samples s = samples s' → (admit_sample p now s).1 = (admit_sample p now' s').1.
Proof.
  intros E. unfold admit_sample. rewrite E. destruct (identity p), (sample p); try done.
  by destruct (match samples s' !! _ with Some _ => _ | None => _ end).
Qed.

Lemma admit_text_ok a p now wall s :
  tail_ok a s → starts_char (default "" (text_delta p)) = true →
  (Z.of_nat (String.length (written a) + String.length (default "" (text_delta p))) ≤ u64_max)%Z →
  tail_ok (stream_append (default "" (text_delta p)) a) (admit_text p now wall s).
Proof.
  intros Hs Hx Hmax. unfold admit_text.
  set (s1 := match sample p with Some (ReasoningDelta | TextDelta) => _ | _ => s end).
  assert (H1 : tail_ok a s1) by (apply (tail_ok_same a s); [|done]; unfold s1; by repeat case_match).
  set (s2 := match text_delta p with Some _ => _ | None => s1 end).
  apply (tail_ok_same _ s2); [by destruct (terminal_response p)|]. unfold s2.
  destruct (text_delta p) as [x|]; simpl in *; [by apply append_tail_ok|].
  destruct a as [w r]. unfold stream_append. simpl. by rewrite string_app_nil_r.
Qed.

Lemma stream_append_nil a : stream_append "" a = a.
Proof. destruct a. unfold stream_append. simpl. by rewrite string_app_nil_r. Qed.

Lemma receive_same event p now wall s :
  same_text s (receive to_string event p now wall s)
  ∧ samples (receive to_string event p now wall s) = samples s
  ∧ sample_order (receive to_string event p now wall s) = sample_order s.
Proof. unfold receive. by destruct (_ && _). Qed.

Lemma ingest_same p s :
  same_text s (ingest_descriptor to_string p s)
  ∧ samples (ingest_descriptor to_string p s) = samples s
  ∧ sample_order (ingest_descriptor to_string p s) = sample_order s.
Proof. unfold ingest_descriptor. by destruct (tool_descriptor p). Qed.

Lemma observe_tail_ok t a event now wall :
  tail_ok a (state t) → starts_char (shown_text event t) = true →
  (Z.of_nat (String.length (written a) + String.length (shown_text event t)) ≤ u64_max)%Z →
  tail_ok (stream_append (shown_text event t) a) (state (observe_at to_string event now wall t)).
Proof.
  intros Hs Hx Hmax. unfold observe_at. cbv zeta. unfold shown_text in *.
  set (p := parse_passive_activity event (mode t)) in *.
  destruct (receive_same event p now wall (state t)) as (H0 & Es & _).
  rewrite (admit_decision p 0 now (state t) (receive to_string event p now wall (state t))) in * by done.
  pose proof (admit_same_text p now (receive to_string event p now wall (state t))) as H1.
  destruct (admit_sample p now _) as [admitted s1]. simpl in *.
  eapply tail_ok_same; [apply transition_same_text|]. eapply tail_ok_same; [apply ingest_same|].
  assert (He : tail_ok a (evict_samples s1)).
  { apply (tail_ok_same a (state t)); [|done].
    etrans; [exact H0|]. etrans; [exact H1 | apply evict_same_text]. }
  destruct admitted; [by apply admit_text_ok | by rewrite stream_append_nil].
Qed.

Lemma tracked_tail_ok t a : tracked t a → tail_ok a (state t).
Proof.
  induction 1 as [adapter verified scope|t a event now wall _ IH Hx Hmax|t a tail t' _ IH Htake|t a _ IH
    |t a b _ IH|old a t b events frames _ IHa _ IHb Hb Hmax].
  - constructor; simpl; try done; unfold MAX_LATEST_TEXT_BYTES; lia.
  - by apply observe_tail_ok.
  - unfold take_wait_tail in Htake. destruct (wait_tail_locked (state t)); [|done].
    injection Htake as _ <-. by apply drain_tail_ok.
  - by apply (tail_ok_same a (state t)).
  - by destruct b.
  - by apply join_tail_ok.
Qed.

(** C25. The wait text is delivered exactly once: whatever happened before, taking
    it never panics; it returns precisely the bytes written since the last take,
    unless more are unread than the 8 KiB window still holds, and then the whole
    window, flagged as truncated; and the next take starts after it. *)
Theorem wait_text_delivered_once t a :
  tracked t a →
  ∃ tail t', take_wait_tail t = Returns (tail, t') ∧ tracked t' (stream_drain a)
    ∧ peek_wait_tail t = Returns tail
    ∧ String.length (wait_text tail) ≤ MAX_LATEST_TEXT_BYTES
    ∧ if wait_truncated tail
      then wait_text tail = latest_text_tail (state t)
           ∧ String.length (wait_text tail) < String.length (unread a)
      else wait_text tail = unread a.
Proof.
  intros Ht. pose proof (tracked_tail_ok t a Ht) as Hok.
  destruct (wait_tail_spec a (state t) Hok) as (tail & Hr & Hc & Hx).
  assert (Htake : take_wait_tail t = Returns (tail, mk_tracker
      (set_delivered (appended_bytes (state t)) (state t)) (mode t) (runtime_source_verified t)))
    by (unfold take_wait_tail; by rewrite Hr).
  eexists tail, _. split_and!; [exact Htake | by eapply tracked_take | done | |].
  - rewrite Hx. destruct Hok. destruct (wait_truncated tail); [done|].
    symmetry in Hc. apply bool_decide_eq_false in Hc. lia.
  - rewrite Hx. destruct (wait_truncated tail); [|done]. split; [done|].
    symmetry in Hc. by apply bool_decide_eq_true in Hc.
Qed.

End histories.

(** ** The samples *)

Definition weight_ok (x : ActivitySample) : Prop :=
  ∀ k n, sample_kind x = SampleToolStarted k n → (1 ≤ n ≤ MAX_TOOL_COUNT)%Z.

Record samples_inv (order : list string) (m : gmap string ActivitySample) : Prop := {
  si_nodup : NoDup order;
  si_dom : ∀ id, id ∈ order ↔ is_Some (m !! id);
  si_weight : map_Forall (λ _, weight_ok) m }.

Definition samples_ok (s : PassiveActivityState) : Prop :=
  samples_inv (sample_order s) (samples s)
  ∧ (Z.of_nat (length (sample_order s)) ≤ MAX_ACTIVITY_IDENTITIES)%Z.

Lemma evict_inv order m :
  samples_inv order m →
  let '(order', m') := evict order m in
  samples_inv order' m' ∧ (Z.of_nat (length order') ≤ MAX_ACTIVITY_IDENTITIES)%Z.
Proof.
  revert m; induction order as [|id order IH]; intros m Hinv; simpl.
  { split; [done|]. unfold MAX_ACTIVITY_IDENTITIES. simpl. lia. }
  match goal with |- context [Z.ltb ?a ?b] => destruct (Z.ltb_spec a b) end; [|by split].
  apply IH. destruct Hinv as [Hn Hd Hw]. apply NoDup_cons in Hn as [Hid Hn].
  constructor; [done| |by apply map_Forall_delete].
  intros x. destruct (decide (x = id)) as [->|Hne].
  - rewrite lookup_delete_eq. split; [done | by intros []].
  - rewrite lookup_delete_ne by done. rewrite <- Hd, elem_of_cons. naive_solver.
Qed.

(** Nothing is evicted while the order fits. *)
Lemma evict_fits order m :
  (Z.of_nat (length order) ≤ MAX_ACTIVITY_IDENTITIES)%Z → evict order m = (order, m).
Proof.
  intros H. destruct order as [|id order]; [done|]. cbn [evict].
  match goal with |- context [Z.ltb ?a ?b] => destruct (Z.ltb_spec a b) end; [lia | done].
Qed.

Lemma admit_inv p now s :
  (∀ k n, sample p = Some (SampleToolStarted k n) → (1 ≤ n ≤ MAX_TOOL_COUNT)%Z) →
  samples_inv (sample_order s) (samples s) →
  samples_inv (sample_order (admit_sample p now s).2) (samples (admit_sample p now s).2).
Proof.
  intros Hp Hs. unfold admit_sample.
  destruct (identity p) as [id|]; [|done]. destruct (sample p) as [kind|]; [|done].
  set (replace := match samples s !! id with Some _ => _ | None => true end).
  destruct replace; [|done]. simpl. destruct Hs as [Hn Hd Hw]. constructor.
  - destruct (decide (samples s !! id = None)) as [E|]; [|done].
    apply NoDup_app. split_and!; [done | | apply NoDup_singleton].
    intros x Hx ->%list_elem_of_singleton. apply Hd in Hx as [? ?]. congruence.
  - intros x. rewrite lookup_insert_is_Some'.
    destruct (decide (samples s !! id = None)) as [E|E].
    + rewrite elem_of_app, list_elem_of_singleton, Hd. naive_solver.
    + rewrite Hd. split; [by right|]. intros [<-|?]; [|done]. by destruct (samples s !! id).
  - apply map_Forall_insert_2; [|done]. intros k n [= ->]. by apply (Hp k n).
Qed.

Lemma samples_same s s' :
  samples s' = samples s → sample_order s' = sample_order s → samples_ok s → samples_ok s'.
Proof. unfold samples_ok. by intros -> ->. Qed.

Lemma transition_samples p now s :
  samples (apply_transition p now s) = samples s
  ∧ sample_order (apply_transition p now s) = sample_order s.
Proof. unfold apply_transition. by repeat case_match. Qed.

Lemma admit_text_samples p now wall s :
  samples (admit_text p now wall s) = samples s
  ∧ sample_order (admit_text p now wall s) = sample_order s.
Proof.
  unfold admit_text, append_latest_text.
  destruct (sample p) as [[]|], (text_delta p), (terminal_response p); simpl;
    repeat case_match; done.
Qed.

(** Admission reads and writes nothing but the samples and their order. *)
Lemma admit_samples_cong p now s s' :
  samples s' = samples s → sample_order s' = sample_order s →
  samples (admit_sample p now s').2 = samples (admit_sample p now s).2
  ∧ sample_order (admit_sample p now s').2 = sample_order (admit_sample p now s).2.
Proof.
  intros Em Eo. unfold admit_sample. rewrite Em, Eo.
  destruct (identity p) as [id|]; [|done]. destruct (sample p) as [kind|]; [|done].
  by destruct (match samples s !! id with Some _ => _ | None => true end).
Qed.

(** The samples after an event: admission, then eviction. *)
Lemma observe_samples to_string event now wall t :
  let p := parse_passive_activity event (mode t) in
  let s' := state (observe_at to_string event now wall t) in
  let admitted := (admit_sample p now (state t)).2 in
  (sample_order s', samples s') = evict (sample_order admitted) (samples admitted).
Proof.
  intros p s' admitted. unfold s', observe_at. cbv zeta. fold p.
  destruct (receive_same to_string event p now wall (state t)) as (_ & Es & Eo).
  destruct (admit_samples_cong p now _ _ Es Eo) as [E1 E2]. fold admitted in E1, E2.
  clearbody admitted. destruct (admit_sample p now _) as [ok s1]. cbn [fst snd state] in *.
  set (s2 := if ok then admit_text p now wall (evict_samples s1) else evict_samples s1).
  assert (Ht : samples s2 = samples (evict_samples s1)
    ∧ sample_order s2 = sample_order (evict_samples s1))
    by (unfold s2; destruct ok; [apply admit_text_samples | done]).
  destruct (transition_samples p now (ingest_descriptor to_string p s2)) as [-> ->].
  destruct (ingest_same to_string p s2) as (_ & -> & ->), Ht as [-> ->].
  unfold evict_samples. rewrite E1, E2. by destruct (evict _ _).
Qed.

Lemma observe_samples_ok to_string event now wall t :
  samples_ok (state t) → samples_ok (state (observe_at to_string event now wall t)).
Proof.
  intros [Hs _]. pose proof (observe_samples to_string event now wall t) as E. simpl in E.
  apply (admit_inv (parse_passive_activity event (mode t)) now) in Hs;
    [|apply po_weight with (mode := mode t), parsed_activity_ok].
  apply evict_inv in Hs. destruct (evict _ _) as [order m]. injection E as Eo Em.
  unfold samples_ok. by rewrite Eo, Em.
Qed.

Lemma tracked_samples_ok to_string t a : tracked to_string t a → samples_ok (state t).
Proof.
  induction 1 as [adapter verified scope|t a event now wall _ IH Hx Hmax|t a tail t' _ IH Htake|t a _ IH
    |t a b _ IH|old a t b events frames _ IHa _ IHb Hb Hmax].
  - split; [|unfold MAX_ACTIVITY_IDENTITIES; simpl; lia]. constructor; simpl.
    + constructor.
    + intros id. rewrite lookup_empty. split; [by intros ?%elem_of_nil | by intros []].
    + apply map_Forall_empty.
  - by apply observe_samples_ok.
  - unfold take_wait_tail in Htake. destruct (wait_tail_locked (state t)); [|done].
    by injection Htake as _ <-.
  - done.
  - by destruct b.
  - done.
Qed.

(** Re-delivery is idempotent in the window: a frame whose identity already has
    a sample, other than a session frame replacing a telemetry one, changes no
    sample, no count of any later 60-second window, and not a byte of the wait
    text. *)
Theorem redelivered_frame_ignored to_string event now wall t a id x kind :
  let p := parse_passive_activity event (mode t) in
  tracked to_string t a → identity p = Some id → sample p = Some kind →
  samples (state t) !! id = Some x →
  ¬ (sample_source x = FromTelemetry ∧ parsed_source p = FromSession) →
  let t' := observe_at to_string event now wall t in
  samples (state t') = samples (state t) ∧ sample_order (state t') = sample_order (state t)
  ∧ (∀ later, window_60s later (state t') = window_60s later (state t))
  ∧ tail_ok a (state t') ∧ latest_text_tail (state t') = latest_text_tail (state t).
Proof.
  intros p Ht Hid Hk Hx Hno t'. destruct (tracked_samples_ok _ _ _ Ht) as [_ Hfit].
  assert (Hdec : ∀ now s, samples s = samples (state t) → admit_sample p now s = (false, s)).
  { intros n s E. unfold admit_sample. rewrite Hid, Hk, E, Hx.
    destruct (bool_decide_reflect (sample_source x = FromTelemetry)),
      (bool_decide_reflect (parsed_source p = FromSession)); try done. tauto. }
  pose proof (observe_samples to_string event now wall t) as E. simpl in E. fold p in E.
  rewrite (Hdec now (state t)) in E by done. simpl in E. rewrite evict_fits in E by done.
  injection E as Eo Em. fold t' in Eo, Em.
  assert (Htext : same_text (state t) (state t')).
  { unfold t', observe_at. cbv zeta. fold p.
    destruct (receive_same to_string event p now wall (state t)) as (H0 & Es & _).
    rewrite (Hdec now _ Es). cbn [state]. etrans; [exact H0|]. etrans; [apply evict_same_text|].
    etrans; [apply ingest_same | apply transition_same_text]. }
  split_and!; try done; [intros later; unfold window_60s; by rewrite Em | | apply Htext].
  apply (tail_ok_same a (state t)); [done | by apply (tracked_tail_ok to_string)].
Qed.

(** ** The 60-second window *)

Section window.
Context (now : Z).

(** What one sample adds to each counter. *)
Definition live (n : Z) (x : ActivitySample) : Z := if in_window now x then n else 0%Z.
Definition reasoning_weight (x : ActivitySample) : Z :=
  match sample_kind x with ReasoningDelta => live 1 x | _ => 0%Z end.
Definition text_weight (x : ActivitySample) : Z :=
  match sample_kind x with TextDelta => live 1 x | _ => 0%Z end.
Definition completed_weight (x : ActivitySample) : Z :=
  match sample_kind x with SampleToolCompleted => live 1 x | _ => 0%Z end.
Definition failed_weight (x : ActivitySample) : Z :=
  match sample_kind x with SampleToolFailed => live 1 x | _ => 0%Z end.
Definition started_weight (P : PassiveToolKind → bool) (x : ActivitySample) : Z :=
  match sample_kind x with SampleToolStarted k n => if P k then live n x else 0%Z | _ => 0%Z end.

Definition total (weight : ActivitySample → Z) (l : list ActivitySample) : Z :=
  foldr (λ x acc, (weight x + acc)%Z) 0%Z l.

Lemma fold_counter (get : PassiveActivityWindow → Z) (weight : ActivitySample → Z) l w :
  (∀ w x, weight_ok x → (0 ≤ get w ≤ u64_max)%Z →
     get (count_sample now w x) = saturating_add (get w) (weight x) ∧ (0 ≤ weight x ≤ MAX_TOOL_COUNT)%Z) →
  Forall weight_ok l → (0 ≤ get w)%Z →
  (get w + MAX_TOOL_COUNT * Z.of_nat (length l) ≤ u64_max)%Z →
  get (fold_left (count_sample now) l w) = (get w + total weight l)%Z.
Proof.
  intros Hstep. revert w; induction l as [|x l IH]; intros w Hl H0 Hmax; simpl; [lia|].
  apply Forall_cons in Hl as [Hx Hl].
  assert (Hm : (0 ≤ MAX_TOOL_COUNT)%Z) by done.
  cbn [length] in Hmax.
  destruct (Hstep w x Hx) as [E Hw]; [nia|]. unfold saturating_add in E.
  rewrite Z.min_r in E by nia. rewrite IH; rewrite ?E; try done; [lia | lia | nia].
Qed.

Ltac counter_step :=
  let w := fresh "w" in let x := fresh "x" in let Hx := fresh "Hx" in
  intros w x Hx Hw; destruct w; cbn in Hw; unfold count_sample, live in *;
  unfold reasoning_weight, text_weight, completed_weight, failed_weight, started_weight, live;
  destruct (in_window now x); destruct (sample_kind x) as [| |[] n| |] eqn:Ek; cbn;
  rewrite ?bool_decide_eq_true_2, ?bool_decide_eq_false_2 by done;
  try (pose proof (Hx _ _ Ek)); unfold saturating_add, MAX_TOOL_COUNT in *; split; lia.

Lemma total_kinds l :
  total (started_weight (λ _, true)) l
  = (total (started_weight (λ k, bool_decide (k = ToolRead))) l
     + total (started_weight (λ k, bool_decide (k = ToolBash))) l
     + total (started_weight (λ k, bool_decide (k = ToolOther))) l)%Z.
Proof.
  induction l as [|x l IH]; simpl; [done|]. rewrite IH. unfold started_weight.
  destruct (sample_kind x) as [| |[] n| |]; simpl; lia.
Qed.

Lemma samples_size s : samples_inv (sample_order s) (samples s) → size (samples s) = length (sample_order s).
Proof.
  intros [Hn Hd _]. rewrite <- (size_list_to_set (C := gset string) (sample_order s)) by done.
  rewrite <- size_dom. f_equal. apply set_eq. intros id.
  by rewrite elem_of_dom, elem_of_list_to_set, Hd.
Qed.

(** The window counts are exact: in every tracker the daemon can hold, each
    counter is the true total of the samples received in the last 60 seconds, no
    addition saturates, and every started call is counted as a read, a shell
    command or another tool. *)
Theorem window_counts_exact to_string t a :
  tracked to_string t a →
  let w := window_60s now (state t) in
  let l := (map_to_list (samples (state t))).*2 in
  reasoning_delta_events w = total reasoning_weight l
  ∧ text_delta_events w = total text_weight l
  ∧ tool_calls_completed w = total completed_weight l
  ∧ tool_calls_failed w = total failed_weight l
  ∧ tool_calls_started w = total (started_weight (λ _, true)) l
  ∧ read_calls w = total (started_weight (λ k, bool_decide (k = ToolRead))) l
  ∧ bash_calls w = total (started_weight (λ k, bool_decide (k = ToolBash))) l
  ∧ tool_calls_started w = (read_calls w + bash_calls w + other_tool_calls w)%Z.
Proof.
  intros Ht w l. destruct (tracked_samples_ok _ _ _ Ht) as [Hinv Hfit].
  assert (Hlen : length l = length (sample_order (state t)))
    by (unfold l; rewrite length_fmap, length_map_to_list; by apply samples_size).
  assert (Hl : Forall weight_ok l).
  { apply Forall_fmap, Forall_forall. intros [id x] Hin. simpl.
    apply elem_of_map_to_list in Hin. by apply (si_weight _ _ Hinv) in Hin. }
  assert (Hsum : ∀ get weight, get empty_window = 0%Z →
    (∀ w x, weight_ok x → (0 ≤ get w ≤ u64_max)%Z →
       get (count_sample now w x) = saturating_add (get w) (weight x)
       ∧ (0 ≤ weight x ≤ MAX_TOOL_COUNT)%Z) → get w = total weight l).
  { intros get weight E0 Hstep. unfold w, window_60s. fold l.
    rewrite (fold_counter get weight l empty_window Hstep Hl); rewrite E0; [lia | lia |].
    rewrite Hlen. unfold MAX_ACTIVITY_IDENTITIES, MAX_TOOL_COUNT, u64_max in *. lia. }
  assert (Hall : tool_calls_started w = total (started_weight (λ _, true)) l)
    by (apply Hsum; [done | counter_step]).
  assert (Hr : read_calls w = total (started_weight (λ k, bool_decide (k = ToolRead))) l)
    by (apply Hsum; [done | counter_step]).
  assert (Hb : bash_calls w = total (started_weight (λ k, bool_decide (k = ToolBash))) l)
    by (apply Hsum; [done | counter_step]).
  assert (Ho : other_tool_calls w = total (started_weight (λ k, bool_decide (k = ToolOther))) l)
    by (apply Hsum; [done | counter_step]).
  split_and!; try done; try (apply Hsum; [done | counter_step]).
  rewrite Hall, Hr, Hb, Ho. apply total_kinds.
Qed.

End window.

(** ** Terminal text *)

(** Only a completed turn carries a final response, and it is not a sample. *)
Lemma response_only_at_completion event m r :
  terminal_response (parse_passive_activity event m) = Some r →
  sample (parse_passive_activity event m) = None
  ∧ transition (parse_passive_activity event m) = Some TurnCompleted.
Proof.
  assert (Htool : ∀ p v src, terminal_response (parse_tool_activity p v src) = terminal_response p).
  { intros p v src. unfold parse_tool_activity.
    destruct (activity_id _), (get_str v _ ≫= tool_phase) as [x|]; try destruct (phase_name x);
      by destruct (_ && bool_decide (src = FromTelemetry)). }
  assert (Hcount : ∀ p v a b,
      terminal_response (parse_tool_count_activity p v a b) = terminal_response p).
  { intros p v a b. unfold parse_tool_count_activity. destruct (_ ≫= as_u64); [|done].
    destruct (negb _); [done|]. destruct a; [|done]. by destruct (get_str v "tool"). }
  assert (Hdet : ∀ p v w, terminal_response (parse_detailed_descriptor p v w) = terminal_response p).
  { intros p v w. unfold parse_detailed_descriptor. by repeat case_match. }
  assert (Hmsg : ∀ method params src, terminal_response (parse_activity_message method params src m) = Some r →
    sample (parse_activity_message method params src m) = None
    ∧ transition (parse_activity_message method params src m) = Some TurnCompleted).
  { intros method params src. unfold parse_activity_message, parse_session_event, parse_telemetry_event.
    destruct (method ≟ SESSION_EVENT).
    - repeat match goal with |- context [if ?c then _ else _] => destruct c end;
        rewrite ?Hdet, ?Htool, ?Hcount; try done.
    - destruct (method ≟ TELEMETRY_EVENT); [|done].
      repeat match goal with |- context [if ?c then _ else _] => destruct c end;
        rewrite ?Htool; try done. }
  destruct event as [[[q| |e|method raw]| | | | |]|]; simpl; try done; auto.
  by destruct (one_of _ _).
Qed.

Lemma append_settled x wall s :
  terminal_text_settled s = true →
  terminal_text (append_latest_text x wall s) = terminal_text s
  ∧ terminal_text_settled (append_latest_text x wall s) = true.
Proof. intros E. unfold append_latest_text. by rewrite E. Qed.

Definition same_terminal (s s' : PassiveActivityState) : Prop :=
  terminal_text s' = terminal_text s ∧ terminal_text_settled s' = terminal_text_settled s.

Lemma admit_same_terminal p now s : same_terminal s (admit_sample p now s).2.
Proof. unfold admit_sample. by repeat case_match. Qed.

Lemma stages_same_terminal to_string event p now wall s :
  same_terminal s (receive to_string event p now wall s)
  ∧ same_terminal s (evict_samples s) ∧ same_terminal s (ingest_descriptor to_string p s).
Proof.
  unfold receive, evict_samples, ingest_descriptor.
  split_and!; [by destruct (_ && _) | by destruct (evict _ _) | by destruct (tool_descriptor p)].
Qed.

Lemma transition_same_terminal p now s :
  transition p ≠ Some TurnStarted → same_terminal s (apply_transition p now s).
Proof. intros H. unfold apply_transition. by repeat case_match. Qed.

(** The terminal text after an event, stage by stage. *)
Lemma observe_terminal to_string event now wall t :
  let p := parse_passive_activity event (mode t) in
  transition p ≠ Some TurnStarted →
  ∃ s, same_terminal (state t) s
    ∧ same_terminal (if (admit_sample p now (receive to_string event p now wall (state t))).1
                     then admit_text p now wall s else s)
        (state (observe_at to_string event now wall t)).
Proof.
  intros p Hp. unfold observe_at. cbv zeta. fold p.
  pose proof (admit_same_terminal p now (receive to_string event p now wall (state t))) as [A1 A2].
  destruct (stages_same_terminal to_string event p now wall (state t)) as ([B1 B2] & _ & _).
  destruct (admit_sample p now _) as [ok s1]. simpl in *. exists (evict_samples s1).
  destruct (stages_same_terminal to_string event p now wall s1) as (_ & [C1 C2] & _).
  split; [split; congruence|].
  set (s2 := if ok then _ else _).
  destruct (stages_same_terminal to_string event p now wall s2) as (_ & _ & [D1 D2]).
  destruct (transition_same_terminal p now (ingest_descriptor to_string p s2) Hp) as [E1 E2].
  split; congruence.
Qed.

Lemma observe_mode to_string event now wall t :
  mode (observe_at to_string event now wall t) = mode t.
Proof. unfold observe_at. cbv zeta. by destruct (admit_sample _ _ _). Qed.

Definition keeps_terminal (m : ToolActivityMode) (event : RuntimeEvent) : Prop :=
  transition (parse_passive_activity event m) ≠ Some TurnStarted
  ∧ terminal_response (parse_passive_activity event m) = None.

Definition observe_all to_string (events : list (RuntimeEvent * Z * Z)) (t : PassiveActivityTracker)
    : PassiveActivityTracker :=
  fold_left (λ t '(event, now, wall), observe_at to_string event now wall t) events t.

Lemma settled_step to_string event now wall t :
  keeps_terminal (mode t) event → terminal_text_settled (state t) = true →
  same_terminal (state t) (state (observe_at to_string event now wall t)).
Proof.
  intros [Hp Hr] Hs. destruct (observe_terminal to_string event now wall t Hp) as (s & [A1 A2] & [B1 B2]).
  destruct (admit_sample _ _ _).1; [|split; congruence].
  unfold admit_text in B1, B2. rewrite Hr in B1, B2.
  set (s1 := match sample _ with Some (ReasoningDelta | TextDelta) => _ | _ => s end) in *.
  assert (C : terminal_text s1 = terminal_text s ∧ terminal_text_settled s1 = terminal_text_settled s)
    by (unfold s1; by repeat case_match).
  destruct C as [C1 C2], (text_delta _) as [x|]; [|split; congruence].
  destruct (append_settled x wall s1) as [D1 D2]; [congruence|]. split; congruence.
Qed.

Lemma settled_all to_string events t :
  Forall (λ e, keeps_terminal (mode t) e.1.1) events → terminal_text_settled (state t) = true →
  terminal_text (state (observe_all to_string events t)) = terminal_text (state t).
Proof.
  revert t; induction events as [|[[e now] wall] events IH]; intros t Hf Hs; simpl; [done|].
  apply Forall_cons in Hf as [He Hf]. destruct (settled_step to_string e now wall t He Hs) as [E1 E2].
  rewrite <- E1. apply IH; [by rewrite observe_mode | congruence].
Qed.

(** A settled result stays settled: once a turn completes with its final
    response, the terminal text the daemon takes is that response, whatever
    streaming echoes and other frames arrive before a new turn starts. *)
Theorem settled_response_is_taken to_string event r now wall t later :
  terminal_response (parse_passive_activity event (mode t)) = Some r →
  Forall (λ e, keeps_terminal (mode t) e.1.1) later →
  (take_terminal_text (observe_all to_string later (observe_at to_string event now wall t))).1
  = if trim_is_empty r then Missing else Visible r.
Proof.
  intros Hr Hf. destruct (response_only_at_completion _ _ _ Hr) as [Hs Ht].
  set (p := parse_passive_activity event (mode t)) in *.
  assert (Hp : transition p ≠ Some TurnStarted) by (rewrite Ht; done).
  destruct (observe_terminal to_string event now wall t Hp) as (s & [A1 A2] & [B1 B2]).
  fold p in B1, B2.
  assert (Hadm : ∀ s, (admit_sample p now s).1 = true)
    by (intros s'; unfold admit_sample; rewrite Hs; by destruct (identity p)).
  rewrite Hadm in B1, B2. unfold admit_text in B1, B2. rewrite Hr in B1, B2. simpl in B1, B2.
  unfold take_terminal_text. cbn [fst]. rewrite settled_all; [by rewrite B1 | by rewrite observe_mode | done].
Qed.

(** ** Witnesses *)

Definition sample_string (_ : Value) : string := "{}".

Definition session_frame (params : Fields) : RuntimeEvent :=
  Driver (Message (Event (mk_event_envelope SESSION_EVENT (VObject params)))).

Definition text_frame (id delta : string) : RuntimeEvent :=
  session_frame [("type", VString "model.streaming"); ("eventId", VString id);
    ("payload", VObject [("kind", VString "text_delta"); ("delta", VString delta)])].

Definition completed_frame (response : string) : RuntimeEvent :=
  session_frame [("type", VString "turn.completed"); ("turnId", VString "t");
    ("payload", VObject [("response", VString response)])].

Definition sample_tracker : PassiveActivityTracker :=
  observe_at sample_string (text_frame "e1" "hello ") 5 1 (tracker_for_launch "zcode" true 1).

Lemma sample_tracked :
  tracked sample_string sample_tracker (stream_append "hello " (mk_stream "" 0)).
Proof.
  exact (tracked_observe sample_string (tracker_for_launch "zcode" true 1) (mk_stream "" 0)
           (text_frame "e1" "hello ") 5 1 (tracked_launch _ _ _ _) eq_refl ltac:(vm_compute; discriminate)).
Qed.

Lemma wait_text_delivered_once_witness :
  ∃ tail t', take_wait_tail sample_tracker = Returns (tail, t')
    ∧ wait_text tail = "hello " ∧ peek_wait_tail t' = Returns (mk_wait_tail "" false).
Proof.
  destruct (wait_text_delivered_once sample_string _ _ sample_tracked)
    as (tail & t' & Htake & _). exists tail, t'. split; [exact Htake|].
  vm_compute in Htake. injection Htake as <- <-. split; reflexivity.
Defined.

Lemma redelivered_frame_ignored_witness :
  samples (state (observe_at sample_string (text_frame "e1" "hello ") 9 2 sample_tracker))
  = samples (state sample_tracker).
Proof.
  apply (redelivered_frame_ignored sample_string (text_frame "e1" "hello ") 9 2 sample_tracker _
           "stream:e1" (mk_sample FromSession 5 TextDelta) TextDelta sample_tracked);
    try reflexivity. intros [H _]. discriminate H.
Defined.

Lemma window_counts_exact_witness :
  text_delta_events (window_60s 6 (state sample_tracker)) = 1%Z.
Proof.
  destruct (window_counts_exact 6 sample_string _ _ sample_tracked) as (_ & E & _).
  rewrite E. reflexivity.
Defined.

Lemma settled_response_is_taken_witness :
  (take_terminal_text
     (observe_all sample_string [(text_frame "e2" "echo", 8%Z, 3%Z)]
        (observe_at sample_string (completed_frame "done") 7 2 sample_tracker))).1 = Visible "done".
Proof.
  apply (settled_response_is_taken sample_string (completed_frame "done") "done" 7 2 sample_tracker
           [(text_frame "e2" "echo", 8%Z, 3%Z)]); [reflexivity|].
  constructor; [split; [discriminate | reflexivity] | constructor].
Defined.
