(* ===== verification/RuntimeOwner.v ===== *)
(** * The owner of a runtime

    [crates/external-daemon/src/lib.rs]: the publisher of a runtime's lifecycle,
    the turn tracker, the cache of offered permission answers, the event pump and
    the operations of the owner that end a process or answer a request.

    Each operation runs under the lock of the state it changes, so a history is a
    sequence of operations.  The driver, the process group and the clock are
    arguments: what they reported when the operation asked.  A wait on a condition
    variable is the list of its wake-ups: the state found, and whether the wait
    had timed out; the end of the list is a deadline found passed. *)

From stdpp Require Import gmap.
From S2P Require Import Prelude RustStr Utf8 Json Tokenizer Denial Launcher Contract Projection RuntimeEvents Activity.

(** ** The publisher *)

Inductive OwnerState := OwnerRunning | OwnerStopping | OwnerTerminal (terminal : RuntimeTerminal).

(** The latched state, and the records handed to the sink so far. *)
Record Publisher := mk_publisher {
  next_sequence : Z; owner : OwnerState; exit_boundary_delivered : bool;
  sink : list LifecycleRecord }.

Definition publisher_new : Publisher := mk_publisher 1 OwnerRunning false [].

Definition published_terminal (s : Publisher) : option RuntimeTerminal :=
  match owner s with OwnerTerminal t => Some t | _ => None end.

Definition emit_locked (e : RuntimeEvent) (s : Publisher) : Publisher :=
  mk_publisher (saturating_add (next_sequence s) 1) (owner s) (exit_boundary_delivered s)
    (sink s ++ [mk_record (next_sequence s) e]).

Definition publish_terminal_locked (t : RuntimeTerminal) (s : Publisher) : Publisher :=
  emit_locked (EventTerminal t)
    (mk_publisher (next_sequence s) (OwnerTerminal t) (exit_boundary_delivered s) (sink s)).

Definition is_exit_boundary (e : Inbound) : bool :=
  match e with ChildExited _ => true | _ => false end.

Definition emit_driver (e : Inbound) (exit_terminal : option RuntimeTerminal) (s : Publisher)
    : Publisher :=
  match owner s with
  | OwnerTerminal _ => s
  | running =>
      let s := emit_locked (Driver e) s in
      let s := if is_exit_boundary e
               then mk_publisher (next_sequence s) (owner s) true (sink s) else s in
      match exit_terminal, running with
      | Some t, OwnerRunning => publish_terminal_locked t s
      | _, _ => s
      end
  end.

Definition begin_stopping (s : Publisher) : option RuntimeTerminal * Publisher :=
  match owner s with
  | OwnerTerminal t => (Some t, s)
  | OwnerRunning =>
      (None, mk_publisher (next_sequence s) OwnerStopping (exit_boundary_delivered s) (sink s))
  | OwnerStopping => (None, s)
  end.

Definition publish_terminal (t : RuntimeTerminal) (s : Publisher) : RuntimeTerminal * Publisher :=
  match owner s with
  | OwnerTerminal existing => (existing, s)
  | _ => (t, publish_terminal_locked t s)
  end.

Definition publish_cleanup_terminal (t : RuntimeTerminal) (s : Publisher)
    : RuntimeTerminal * Publisher :=
  (t, publish_terminal_locked t s).

Definition stream_lost : RuntimeTerminal := TFailedRuntimeLost EventStreamLost.

Fixpoint wait_for_exit_boundary (wakeups : list (Publisher * bool)) (s : Publisher)
    : option RuntimeTerminal :=
  if exit_boundary_delivered s then None
  else
    match owner s with
    | OwnerTerminal t => Some t
    | _ =>
        match wakeups with
        | [] => Some stream_lost
        | (next, timed_out) :: rest =>
            if timed_out && negb (exit_boundary_delivered next) then Some stream_lost
            else wait_for_exit_boundary rest next
        end
    end.

Fixpoint wait_terminal (wakeups : list (Publisher * bool)) (s : Publisher) : option RuntimeTerminal :=
  match owner s with
  | OwnerTerminal t => Some t
  | _ =>
      match wakeups with
      | [] => None
      | (next, timed_out) :: rest =>
          if timed_out && bool_decide (published_terminal next = None) then None
          else wait_terminal rest next
      end
  end.

(** ** The turn tracker *)

Record TurnTracker := mk_turns {
  generation : Z; active : bool; boundary : option TurnBoundary;
  model_request_started_at : option Z; last_stream_activity_at : option Z }.

Definition turns_new : TurnTracker := mk_turns 0 false None None None.

Definition turn_kind (inbound : Inbound) : option string :=
  match inbound with Message (Event e) => event_type e | _ => None end.

Definition turns_observe (now : Z) (inbound : Inbound) (s : TurnTracker) : TurnTracker :=
  let s := if active s
           then mk_turns (generation s) true (boundary s) (model_request_started_at s) (Some now)
           else s in
  match turn_kind inbound with
  | Some kind =>
      if kind ≟ "turn.started" then
        mk_turns (saturating_add (generation s) 1) true None (Some now) (Some now)
      else if (kind ≟ "turn.completed") && active s then
        mk_turns (generation s) false (Some BoundaryCompleted) None None
      else if (kind ≟ "turn.failed") && active s then
        mk_turns (generation s) false (Some BoundaryFailed) None None
      else s
  | None => s
  end.

Definition turns_snapshot (s : TurnTracker) : TurnSnapshot :=
  mk_turn_snapshot (generation s) (active s) (boundary s).

(** [Instant::checked_duration_since]. *)
Definition checked_duration_since (now at_ : Z) : option Z :=
  if Z.leb at_ now then Some (now - at_)%Z else None.

Record RuntimeActivitySnapshot := mk_runtime_activity {
  activity_turn : TurnSnapshot; model_request_elapsed : option Z; transport_idle_elapsed : option Z }.

Definition turns_activity_snapshot (now : Z) (s : TurnTracker) : RuntimeActivitySnapshot :=
  mk_runtime_activity (turns_snapshot s)
    (model_request_started_at s ≫= checked_duration_since now)
    (last_stream_activity_at s ≫= checked_duration_since now).

(** ** Errors of a runtime command *)

Inductive RuntimeCommandError :=
| Unsupported
| CommandTimeout
| Transport (message : string)
| Remote (error : Value)
| ModelRejected (message : string)
| InvalidSession (message : string).

Inductive RequestError :=
| RequestTimeout | RequestCancelled | RequestChildExited (exit : ChildExit) | StreamClosed
| WriteFailed (message : string) | RequestRemote (error : Value).

Definition command_error_display (e : RuntimeCommandError) : string :=
  match e with
  | Unsupported => "runtime command plane is unsupported"
  | CommandTimeout => "runtime command deadline elapsed"
  | Transport _ => "runtime command transport failed"
  | Remote _ => "runtime command was rejected"
  | ModelRejected message => "model selection was rejected: " +:+ message
  | InvalidSession message => "invalid session response: " +:+ message
  end.

(** [From<RequestError>], with the text of the other errors given. *)
Definition from_request_error (display : RequestError → string) (e : RequestError)
    : RuntimeCommandError :=
  match e with
  | RequestTimeout => CommandTimeout
  | RequestRemote v => Remote v
  | other => Transport (display other)
  end.

(** [wait_until] and its two uses. *)
Fixpoint wait_until (predicate : TurnTracker → bool) (wakeups : list (TurnTracker * bool))
    (s : TurnTracker) : result RuntimeCommandError TurnSnapshot :=
  if predicate s then Ok (turns_snapshot s)
  else
    match wakeups with
    | [] => Err CommandTimeout
    | (next, timed_out) :: rest =>
        if timed_out && negb (predicate next) then Err CommandTimeout
        else wait_until predicate rest next
    end.

Definition wait_started_after (previous : Z) :=
  wait_until (λ s, Z.ltb previous (generation s)).
Definition wait_boundary_after (g : Z) :=
  wait_until (λ s, Z.leb g (generation s) && negb (active s)
                   && match boundary s with Some _ => true | None => false end).

(** ** Offered permission answers *)

Definition MAX_PENDING_PERMISSION_RESPONSES : nat := 128.

Record PermissionResponses := mk_responses { allow : Value; deny : Value; offer_params : Value }.

Record OfferedPermissionCache := mk_cache {
  requests : gmap string PermissionResponses; denied_fingerprints : gset string }.

Definition cache_empty : OfferedPermissionCache := mk_cache ∅ ∅.

Definition offered_responses (params : Value) : option PermissionResponses :=
  a ← offered_permission_response params "allow";
  d ← offered_permission_response params "deny";
  Some (mk_responses a d params).

Definition cache_observe (key : string) (params : Value) (c : OfferedPermissionCache)
    : OfferedPermissionCache :=
  let reused := bool_decide (is_Some (requests c !! key)) in
  let kept := delete key (requests c) in
  if negb reused && Nat.ltb (size kept) MAX_PENDING_PERMISSION_RESPONSES then
    match offered_responses params with
    | Some offered => mk_cache (<[key := offered]> kept) (denied_fingerprints c)
    | None => mk_cache kept (denied_fingerprints c)
    end
  else mk_cache kept (denied_fingerprints c).

(** [Map::insert] on the sorted map. *)
Fixpoint field_insert (key : string) (v : Value) (fields : Fields) : Fields :=
  match fields with
  | [] => [(key, v)]
  | (k, w) :: rest =>
      if k ≟ key then (key, v) :: rest
      else if String.leb key k then (key, v) :: fields
      else (k, w) :: field_insert key v rest
  end.

(** The denial the scheduler validated, or the one the policy gives the request. *)
Definition denial_for (validated : option PermissionDenialSemantics) (params : Value)
    : option PermissionDenialSemantics :=
  match validated with Some d => Some d | None => external_zcode_denial params end.

Definition denial_reason (d : PermissionDenialSemantics) (repeated : bool) : string :=
  if repeated then
    feedback d true
    +:+ " Stop this evidence path; use Read, prepared inputs, or record a coverage gap."
  else feedback d false.

Definition cache_response (key decision : string) (validated : option PermissionDenialSemantics)
    (c : OfferedPermissionCache) : option Value :=
  offered ← requests c !! key;
  if decision ≟ "allow" then Some (allow offered)
  else if decision ≟ "deny" then
    d ← denial_for validated (offer_params offered);
    let repeated := bool_decide (fingerprint d ∈ denied_fingerprints c) in
    fields ← as_object (deny offered);
    Some (VObject (field_insert "reason" (VString (denial_reason d repeated)) fields))
  else None.

Definition cache_complete (key : string) (c : OfferedPermissionCache) : OfferedPermissionCache :=
  mk_cache (delete key (requests c)) (denied_fingerprints c).

Definition cache_record_denial (key : string) (validated : option PermissionDenialSemantics)
    (c : OfferedPermissionCache) : OfferedPermissionCache :=
  match requests c !! key ≫= λ r, denial_for validated (offer_params r) with
  | Some d =>
      if Nat.ltb (size (denied_fingerprints c)) MAX_PENDING_PERMISSION_RESPONSES
      then mk_cache (requests c) ({[fingerprint d]} ∪ denied_fingerprints c) else c
  | None => c
  end.

(** ** The owner *)

Record RuntimeOwner := mk_owner {
  publisher : Publisher; turn_tracker : TurnTracker; permission_responses : OfferedPermissionCache }.

Definition owner_new : RuntimeOwner := mk_owner publisher_new turns_new cache_empty.

Definition SESSION_REQUEST_RUNTIME_PREFERENCES : string := "session/requestRuntimePreferences".

(** What the pump publishes when the child has exited.  [group_empty] is [Some]
    of whether the process group was found empty, [None] when it could not be
    observed. *)
Definition exit_terminal (group_empty : option bool) (turn : TurnSnapshot) (exit : ChildExit)
    : RuntimeTerminal :=
  match group_empty with
  | Some true =>
      match exit with
      | Exited (Some 0%Z) =>
          if negb (turn_active turn)
             && match turn_boundary turn with Some BoundaryCompleted => true | _ => false end
          then TCompleted (AlreadyExited exit) else stream_lost
      | _ => TExited exit
      end
  | _ => TOrphaned UnknownMembership
  end.

Section pump.
(** [serde_json::to_string] of a request id. *)
Context (id_key : WireId → string).

(** One received event.  [responded] says whether the driver could answer a
    preferences request.  The result also says whether the pump goes on. *)
Definition pump_event (now : Z) (responded : bool) (group_empty : option bool) (event : Inbound)
    (o : RuntimeOwner) : RuntimeOwner * bool :=
  let preferences :=
    match event with
    | Message (Request r) => req_method r ≟ SESSION_REQUEST_RUNTIME_PREFERENCES
    | _ => false
    end in
  if preferences && negb responded then
    (mk_owner (publish_terminal stream_lost (publisher o)).2 (turn_tracker o)
       (permission_responses o), false)
  else
    let cache :=
      match event with
      | Message (Request r) =>
          if negb preferences && (req_method r ≟ INTERACTION_REQUEST_PERMISSION)
          then cache_observe (id_key (req_id r)) (req_params r) (permission_responses o)
          else permission_responses o
      | _ => permission_responses o
      end in
    let turns := turns_observe now event (turn_tracker o) in
    let terminal :=
      match event with
      | ChildExited exit => Some (exit_terminal group_empty (turns_snapshot turns) exit)
      | _ => None
      end in
    let pub := emit_driver event terminal (publisher o) in
    if is_exit_boundary event then (mk_owner pub turns cache_empty, false)
    else (mk_owner pub turns cache, true).

(** The event channel was found disconnected. *)
Definition pump_disconnected (o : RuntimeOwner) : RuntimeOwner :=
  mk_owner (publish_terminal stream_lost (publisher o)).2 (turn_tracker o) cache_empty.

(** [finish_process], from the reap's outcome and what [wait_for_exit_boundary]
    returned.  The pump runs during both, so the operation is two steps. *)
Definition finish_terminal (bound : option TurnBoundary) (reap : result string StopOutcome)
    (exit_wait : option RuntimeTerminal) : RuntimeTerminal :=
  match reap with
  | Ok outcome =>
      match exit_wait with
      | Some t => t
      | None =>
          match bound with
          | Some BoundaryCompleted => TCompleted outcome
          | Some BoundaryFailed => TFailedTurn outcome
          | None => TStopped outcome
          end
      end
  | Err message => TFailedRuntimeLost (StopFailed message)
  end.

(** Its two halves around the reap: begin, and publish. *)
Definition finish_begin (o : RuntimeOwner) : option RuntimeTerminal * RuntimeOwner :=
  let '(t, pub) := begin_stopping (publisher o) in
  (t, mk_owner pub (turn_tracker o) (permission_responses o)).

Definition finish_publish (bound : option TurnBoundary) (reap : result string StopOutcome)
    (exit_wait : option RuntimeTerminal) (o : RuntimeOwner) : RuntimeTerminal * RuntimeOwner :=
  let t := finish_terminal bound reap exit_wait in
  let '(t', pub) := publish_terminal t (publisher o) in
  (t', mk_owner pub (turn_tracker o) cache_empty).

(** [cleanup_owned_group] and [cleanup_for_forced_failure]. *)
Definition cleanup_owned_group (reap : result string StopOutcome) (persisted : result string unit)
    : RuntimeTerminal :=
  match reap with
  | Ok outcome => TStopped outcome
  | Err error =>
      match persisted with
      | Ok _ => TStopped (AlreadyExited ExitUnknown)
      | Err reap_error =>
          TFailedRuntimeLost (StopFailed ("owned cleanup failed (" +:+ error
            +:+ "); persisted group reap failed (" +:+ reap_error +:+ ")"))
      end
  end.

Definition cleanup_for_forced_failure (reap : result string StopOutcome)
    (persisted : result string unit) (o : RuntimeOwner) : RuntimeTerminal * RuntimeOwner :=
  let t := cleanup_owned_group reap persisted in
  (t, mk_owner (publish_cleanup_terminal t (publisher o)).2 (turn_tracker o) cache_empty).

(** [respond_request]: [sent] is the driver's outcome for the value it is given,
    and the value is part of the result. *)
Definition respond_request (parse_id : string → option WireId) (display : RequestError → string)
    (correlation_id decision : string) (content : option string)
    (validated : option PermissionDenialSemantics) (sent : WireId → Value → result RequestError unit)
    (o : RuntimeOwner) : result RuntimeCommandError (WireId * Value) * RuntimeOwner :=
  match parse_id correlation_id with
  | None => (Err (InvalidSession "stored request correlation is invalid"), o)
  | Some id =>
      if decision ≟ "answer" then
        match content with
        | Some answer =>
            if trim_is_empty answer then (Err Unsupported, o)
            else match sent id (VString answer) with
                 | Ok _ => (Ok (id, VString answer), o)
                 | Err e => (Err (from_request_error display e), o)
                 end
        | None => (Err Unsupported, o)
        end
      else if negb (one_of decision ["allow"; "deny"]) then (Err Unsupported, o)
      else
        let key := id_key id in
        match cache_response key decision validated (permission_responses o) with
        | None => (Err (InvalidSession "runtime offered no matching permission response"), o)
        | Some response =>
            match sent id response with
            | Err e => (Err (from_request_error display e), o)
            | Ok _ =>
                let c := permission_responses o in
                let c := if decision ≟ "deny" then cache_record_denial key validated c else c in
                (Ok (id, response), mk_owner (publisher o) (turn_tracker o) (cache_complete key c))
            end
        end
  end.

End pump.

(** ** Restart *)

Record ProcessIdentity := mk_identity { pid : Z; pgid : Z; uid : Z; start_token : string }.

#[global] Instance ProcessIdentity_eq_dec : EqDecision ProcessIdentity.
Proof. solve_decision. Defined.

(** [pid as i32]. *)
Definition as_i32 (n : Z) : Z := if Z.leb n 2147483647 then n else (n - 4294967296)%Z.

(** A process observation: the process, not found, or another error. *)
Inductive Observation := Observed (i : ProcessIdentity) | NotFound | ObserveFailed.

(** [first] and [second] are the two observations of the leader, [members] that of
    the group; [macos] is the compiled platform. *)
Definition classify_restart (macos : bool) (first second : Observation)
    (members : option (list ProcessIdentity)) (identity : ProcessIdentity) : RuntimeTerminal :=
  if Z.leb (pid identity) 1 || Z.leb (pgid identity) 1
     || negb (Z.eqb (as_i32 (pid identity)) (pgid identity)) || str_is_empty (start_token identity)
  then TOrphaned InvalidIdentity
  else if negb macos then TOrphaned UnsupportedIdentity
  else
    match first with
    | NotFound => TOrphaned MissingLeader
    | ObserveFailed => TOrphaned UnsupportedIdentity
    | Observed found =>
        if bool_decide (found ≠ identity) then TOrphaned IdentityMismatch
        else
          match members with
          | None => TOrphaned UnknownMembership
          | Some l =>
              if negb (existsb (λ m, bool_decide (m = identity)) l)
                 || existsb (λ m, negb (Z.eqb (pgid m) (pgid identity))
                                  || negb (Z.eqb (uid m) (uid identity))
                                  || str_is_empty (start_token m)) l
              then TOrphaned UnknownMembership
              else
                match second with
                | Observed again => if bool_decide (again = found) then TFailedRuntimeLost SessionLost
                                    else TOrphaned IdentityMismatch
                | NotFound => TOrphaned MissingLeader
                | ObserveFailed => TOrphaned UnsupportedIdentity
                end
          end
    end.

(** ** Model and effort of a session *)

(** The ellipsis in UTF-8. *)
Definition ellipsis : string := bytes3 226 128 166.

(** [scheduler::diagnostics::bounded_prefix]: the last character index within the
    budget that leaves room for the marker. *)
Definition bounded_prefix (message : string) (max_bytes : nat) : string :=
  if Nat.leb (String.length message) max_bytes then message
  else str_take (prev_boundary message (max_bytes - String.length ellipsis)) message +:+ ellipsis.

Definition bounded_error (message : string) : string := bounded_prefix message 4096.

Definition validate_requested_model (requested observed : option string) : result string unit :=
  match requested with
  | None => Ok tt
  | Some r =>
      match normalized_zai_model r with
      | None => Err "MODEL_REQUEST_INVALID"
      | Some r =>
          match observed ≫= normalized_zai_model with
          | None => Err "MODEL_NOT_OBSERVED"
          | Some o => if r ≟ o then Ok tt else Err "MODEL_MISMATCH"
          end
      end
  end.

(** A missing echo is logged and accepted. *)
Definition validate_requested_effort (requested observed : option string) : result string unit :=
  match requested, observed with
  | Some r, Some o => if r ≟ o then Ok tt else Err "EFFORT_MISMATCH"
  | _, _ => Ok tt
  end.

Definition model_not_offered_message (requested : string) (available : list CatalogModelEntry)
    : string :=
  let tokens := omap (λ e, match provider_id e, model_id e with
                           | Some provider, Some model => Some (provider +:+ "/" +:+ model)
                           | _, _ => None
                           end) available in
  "MODEL_NOT_OFFERED: " +:+ bounded_prefix requested 128 +:+ "; available: ["
  +:+ bounded_prefix (join_with ", " (dedup (sort tokens))) 512 +:+ "]".

Definition error_data_code (error : Value) : option string :=
  get error "data" ≫= λ data, get_str data "code".

Definition model_rejection_message (error : Value) : string :=
  match error_data_code error with
  | Some code => "MODEL_REJECTED: " +:+ bounded_prefix code 128
  | None => "MODEL_REJECTED"
  end.

Definition remote_set_model_error (error : Value) : RuntimeCommandError :=
  match error_data_code error with
  | Some code =>
      if one_of code ["invalid_model_request"; "model_not_found"]
      then ModelRejected (model_rejection_message error)
      else InvalidSession ("session/setModel was rejected: " +:+ bounded_prefix code 128)
  | None => InvalidSession "session/setModel was rejected: unknown"
  end.

(** [permission_mode_from_task], from the decoded launch. *)
Definition permission_mode_from_launch (launch : option Value) : option string :=
  match (launch ≫= λ v, get_str v "permission_mode") with
  | Some s => if s ≟ "plan" then Some "plan"
              else if one_of s ["build"; "edit"] then Some "build"
              else if s ≟ "yolo" then Some "yolo" else None
  | None => None
  end.
