(* ===== verification/OwnerProps.v ===== *)
(** * Theorems on the owner of a runtime

    The log of a publisher, what a terminal proves, the turns, the permission
    answers, and the waits. *)

From stdpp Require Import gmap.
From S2P Require Import Prelude RustStr Utf8 Json Tokenizer Denial Launcher Contract Projection RuntimeEvents Activity RuntimeOwner.

(** ** The lifecycle log *)

(** What the owner's operations do to its publisher. *)
Inductive publisher_step : Publisher → Publisher → Prop :=
| step_emit e t s : publisher_step s (emit_driver e t s)
| step_stop s : publisher_step s (begin_stopping s).2
| step_publish t s : publisher_step s (publish_terminal t s).2
| step_cleanup t s : publisher_step s (publish_cleanup_terminal t s).2.

Definition published : Publisher → Prop := rtc publisher_step publisher_new.

Definition is_terminal_event (e : RuntimeEvent) : bool :=
  match e with EventTerminal _ => true | Driver _ => false end.

(** The records are numbered from one without a gap, driver events come before
    every terminal, and the last terminal is the owner's. *)
Record log_ok (s : Publisher) : Prop := {
  lo_next : next_sequence s = Z.min u64_max (Z.of_nat (length (sink s)) + 1);
  lo_numbers : ∀ i r, sink s !! i = Some r → sequence r = Z.min u64_max (Z.of_nat i + 1);
  lo_split : ∃ events terminals, sink s = events ++ terminals
    ∧ Forall (λ r, is_terminal_event (event r) = false) events
    ∧ Forall (λ r, is_terminal_event (event r) = true) terminals
    ∧ (event <$> last terminals) = EventTerminal <$> published_terminal s }.

Lemma emit_numbers e s :
  next_sequence s = Z.min u64_max (Z.of_nat (length (sink s)) + 1) →
  (∀ i r, sink s !! i = Some r → sequence r = Z.min u64_max (Z.of_nat i + 1)) →
  next_sequence (emit_locked e s) = Z.min u64_max (Z.of_nat (length (sink (emit_locked e s))) + 1)
  ∧ ∀ i r, sink (emit_locked e s) !! i = Some r → sequence r = Z.min u64_max (Z.of_nat i + 1).
Proof.
  intros Hn Hs. unfold emit_locked, saturating_add; simpl. rewrite length_app. simpl. split; [lia|].
  intros i r Hi. apply lookup_app_Some in Hi as [Hi|[Hl Hi]]; [by apply Hs|].
  apply list_lookup_singleton_Some in Hi as [Hi <-]. simpl. rewrite Hn. lia.
Qed.

Lemma emit_driver_locked_ok e s :
  published_terminal s = None → log_ok s → log_ok (emit_locked (Driver e) s).
Proof.
  intros Hp [Hn Hs (ev & te & Hl & He & Ht & Hlast)].
  destruct (emit_numbers (Driver e) s Hn Hs) as [Hn' Hs']. constructor; [done..|].
  rewrite Hp in Hlast. destruct (last te) eqn:Et; [done|]. apply last_None in Et as ->.
  exists (ev ++ [mk_record (next_sequence s) (Driver e)]), []. simpl. rewrite Hl, !app_nil_r.
  split_and!; [done | by apply Forall_app; split; [|repeat constructor] | constructor|].
  unfold published_terminal in *. simpl. by rewrite Hp.
Qed.

Lemma publish_locked_ok t s : log_ok s → log_ok (publish_terminal_locked t s).
Proof.
  intros [Hn Hs (ev & te & Hl & He & Ht & _)]. unfold publish_terminal_locked.
  destruct (emit_numbers (EventTerminal t)
    (mk_publisher (next_sequence s) (OwnerTerminal t) (exit_boundary_delivered s) (sink s)) Hn Hs)
    as [Hn' Hs']. constructor; [done..|]. simpl.
  exists ev, (te ++ [mk_record (next_sequence s) (EventTerminal t)]). rewrite Hl, <- app_assoc.
  split_and!; [done | done | by apply Forall_app; split; [|repeat constructor] | by rewrite last_snoc].
Qed.

Lemma publisher_step_ok s s' : publisher_step s s' → log_ok s → log_ok s'.
Proof.
  intros Hstep Hs. destruct Hstep as [e t s|s|t s|t s].
  - unfold emit_driver. destruct (owner s) eqn:Ho; try done;
      assert (Hp : published_terminal s = None) by (unfold published_terminal; by rewrite Ho);
      pose proof (emit_driver_locked_ok e s Hp Hs) as H1.
    + assert (H2 : log_ok (if is_exit_boundary e then mk_publisher (next_sequence (emit_locked (Driver e) s))
        (owner (emit_locked (Driver e) s)) true (sink (emit_locked (Driver e) s))
        else emit_locked (Driver e) s)) by (destruct (is_exit_boundary e), H1; by constructor).
      destruct t; [by apply publish_locked_ok | done].
    + destruct t, (is_exit_boundary e), H1; by constructor.
  - unfold begin_stopping. destruct (owner s) eqn:Ho; try done. destruct Hs as [Hn Hl Hsp].
    constructor; [done..|]. unfold published_terminal in *. simpl in *. by rewrite Ho in Hsp.
  - unfold publish_terminal. destruct (owner s); simpl; try done; by apply publish_locked_ok.
  - by apply publish_locked_ok.
Qed.

Lemma published_ok s : published s → log_ok s.
Proof.
  assert (Hsteps : ∀ a b, rtc publisher_step a b → log_ok a → log_ok b).
  { induction 1 as [|a b c Hab _ IH]; [done|]. intros Ha. by eapply IH, publisher_step_ok. }
  intros H. apply (Hsteps _ _ H). constructor; simpl; [done | by intros ? ? ? | by exists [], []].
Qed.

(** The lifecycle log is sound: records are numbered 1, 2, 3, ... as emitted,
    no driver event follows a terminal, and the terminal every caller sees is the
    one last published. *)
Theorem lifecycle_log_sound s : published s → log_ok s.
Proof. apply published_ok. Qed.

(** Steps other than a forced cleanup. *)
Inductive ordinary_step : Publisher → Publisher → Prop :=
| ordinary_emit e t s : ordinary_step s (emit_driver e t s)
| ordinary_stop s : ordinary_step s (begin_stopping s).2
| ordinary_publish t s : ordinary_step s (publish_terminal t s).2.

(** The first terminal wins: once one is published, no event, stop request or
    later terminal changes the state or adds a record; only the cleanup that
    really reaped the group may replace it. *)
Theorem first_terminal_wins s s' t :
  published_terminal s = Some t → rtc ordinary_step s s' →
  s' = s ∧ (begin_stopping s').1 = Some t ∧ ∀ t', (publish_terminal t' s').1 = t.
Proof.
  intros Ht Hsteps. assert (s' = s) as ->.
  { induction Hsteps as [|x y z Hxy Hyz IH]; [done|]. assert (y = x) as ->; [|by apply IH].
    unfold published_terminal in Ht. destruct (owner x) eqn:Ho; try done.
    destruct Hxy; unfold emit_driver, begin_stopping, publish_terminal; by rewrite Ho. }
  unfold published_terminal in Ht. destruct (owner s) eqn:Ho; try done. injection Ht as ->.
  unfold begin_stopping, publish_terminal. by rewrite Ho.
Qed.

Lemma first_terminal_wins_witness :
  let s := publish_terminal_locked stream_lost publisher_new in
  (publish_terminal (TExited ExitUnknown) (emit_driver (OversizedLine 9) None s)).1 = stream_lost.
Proof.
  intros s. eapply (first_terminal_wins s _ stream_lost); [reflexivity|].
  eapply rtc_l; [apply (ordinary_emit (OversizedLine 9) None)|]. apply rtc_refl.
Defined.

Lemma lifecycle_log_sound_witness :
  log_ok (publish_terminal (TExited (Exited (Some 3%Z)))
            (emit_driver (ChildExited (Exited (Some 3%Z))) None publisher_new)).2.
Proof.
  apply lifecycle_log_sound.
  eapply rtc_l; [apply (step_emit (ChildExited (Exited (Some 3%Z))) None)|].
  eapply rtc_l; [apply step_publish|]. apply rtc_refl.
Defined.

(** ** What the pump's terminals prove *)

Lemma emit_driver_terminal e t s :
  published_terminal s = None →
  published_terminal (emit_driver e t s) = None ∨ published_terminal (emit_driver e t s) = t.
Proof.
  intros Hp. unfold emit_driver, published_terminal in *.
  destruct (owner s) eqn:Ho; try done.
  - destruct t; [by right|]. left. destruct (is_exit_boundary e); simpl; by rewrite Ho.
  - left. destruct t, (is_exit_boundary e); simpl; by rewrite Ho.
Qed.

(** Honest exits: a terminal the event pump publishes claims that the process
    group is gone only when the child exited and its group was seen empty, and
    claims completion only for a zero exit after the turn's completed boundary. *)
Theorem pump_terminal_honest id_key now responded group e o t :
  let o' := (pump_event id_key now responded group e o).1 in
  published_terminal (publisher o) = None → published_terminal (publisher o') = Some t →
  (terminal_proves_process_group_reaped t = true →
     group = Some true ∧ ∃ exit, e = ChildExited exit)
  ∧ (∀ outcome, t = TCompleted outcome →
     e = ChildExited (Exited (Some 0%Z))
     ∧ active (turn_tracker o') = false ∧ boundary (turn_tracker o') = Some BoundaryCompleted).
Proof.
  intros o' Hnone. unfold o', pump_event.
  set (pref := match e with Message (Request r) => _ | _ => false end).
  destruct (pref && negb responded).
  { simpl. unfold publish_terminal, published_terminal in *. destruct (owner (publisher o)); try done;
      simpl; by intros [= <-]. }
  set (turns := turns_observe now e (turn_tracker o)).
  set (terminal := match e with ChildExited exit => _ | _ => None end).
  intros H. assert (Ht : terminal = Some t).
  { destruct (emit_driver_terminal e terminal (publisher o) Hnone) as [E|E];
      destruct (is_exit_boundary e); simpl in H; congruence. }
  unfold terminal in Ht. destruct e as [| | | |exit|]; try done. injection Ht as <-. simpl.
  unfold exit_terminal. destruct group as [[]|]; try done.
  destruct exit as [[[| |]|]| |]; simpl; try (split; [eauto | done]).
  destruct (negb (active turns) && _) eqn:Hb; [|done].
  apply andb_true_iff in Hb as [Ha Hb]. apply negb_true_iff in Ha. split; [eauto|].
  intros _ _. split_and!; [done | done |]. by destruct (boundary turns) as [[]|].
Qed.

(** ** Turns *)

Definition run_turns (events : list (Z * Inbound)) : TurnTracker :=
  fold_left (λ s '(now, e), turns_observe now e s) events turns_new.

Definition is_start (e : Z * Inbound) : bool := is_str (turn_kind e.2) "turn.started".
Definition is_end (b : TurnBoundary) (e : Z * Inbound) : bool :=
  is_str (turn_kind e.2)
    (match b with BoundaryCompleted => "turn.completed" | BoundaryFailed => "turn.failed" end).
Definition quiet (e : Z * Inbound) : bool :=
  negb (is_start e) && negb (is_end BoundaryCompleted e) && negb (is_end BoundaryFailed e).

Definition starts (events : list (Z * Inbound)) : nat := length (List.filter is_start events).

(** Which frames the tracker's state remembers: the last start, and the first end
    after it. *)
Definition turn_history (events : list (Z * Inbound)) (s : TurnTracker) : Prop :=
  if active s then
    boundary s = None ∧ ∃ p b m, events = p ++ b :: m ∧ is_start b = true ∧ forallb quiet m = true
  else
    match boundary s with
    | Some k => ∃ p b m e q, events = p ++ b :: m ++ e :: q
        ∧ is_start b = true ∧ forallb quiet m = true ∧ is_end k e = true
        ∧ forallb (λ x, negb (is_start x)) q = true
    | None => forallb (λ x, negb (is_start x)) events = true
    end.

Lemma quiet_step now e s :
  quiet (now, e) = true → generation (turns_observe now e s) = generation s
  ∧ active (turns_observe now e s) = active s ∧ boundary (turns_observe now e s) = boundary s.
Proof.
  unfold quiet, is_start, is_end, is_str, turns_observe. simpl. intros H.
  apply andb_true_iff in H as [H H3%negb_true_iff]. apply andb_true_iff in H as [H1%negb_true_iff H2%negb_true_iff].
  apply bool_decide_eq_false in H1, H2, H3.
  destruct (turn_kind e) as [kind|]; [|by destruct (active s) eqn:E; simpl; rewrite ?E].
  destruct (String.eqb_spec kind "turn.started"); [congruence|].
  destruct (String.eqb_spec kind "turn.completed"); [congruence|].
  destruct (String.eqb_spec kind "turn.failed"); [congruence|]. simpl.
  by destruct (active s) eqn:E; simpl; rewrite ?E.
Qed.

Lemma forallb_snoc {A} (P : A → bool) l x : forallb P (l ++ [x]) = forallb P l && P x.
Proof. rewrite forallb_app. simpl. by rewrite andb_true_r. Qed.

(** How one frame moves the tracker. *)
Lemma turns_step now e s :
  let s' := turns_observe now e s in
  (is_start (now, e) = true ∧ active s' = true ∧ boundary s' = None
     ∧ generation s' = saturating_add (generation s) 1)
  ∨ (generation s' = generation s ∧ is_start (now, e) = false
     ∧ ((∃ k, is_end k (now, e) = true ∧ active s = true ∧ active s' = false ∧ boundary s' = Some k)
        ∨ (active s' = active s ∧ boundary s' = boundary s
           ∧ (active s = true → quiet (now, e) = true)))).
Proof.
  simpl. unfold quiet, is_start, is_end, is_str, turns_observe. simpl.
  destruct (turn_kind e) as [kind|].
  2: { right. destruct (active s) eqn:E; simpl; rewrite ?E; split_and!; auto. }
  destruct (String.eqb_spec kind "turn.started") as [->|N1].
  { left. destruct (active s); auto. }
  right. rewrite (bool_decide_eq_false_2 (Some kind = Some "turn.started")) by congruence.
  destruct (String.eqb_spec kind "turn.completed") as [->|N2].
  { destruct (active s) eqn:E; simpl; rewrite ?E; split_and!; auto;
      first [left; by exists BoundaryCompleted | right; by split_and!]. }
  destruct (String.eqb_spec kind "turn.failed") as [->|N3].
  { destruct (active s) eqn:E; simpl; rewrite ?E; split_and!; auto;
      first [left; by exists BoundaryFailed | right; by split_and!]. }
  rewrite !bool_decide_eq_false_2 by congruence.
  destruct (active s) eqn:E; simpl; rewrite ?E; split_and!; auto.
Qed.

Lemma turn_history_step events now e s :
  turn_history events s → turn_history (events ++ [(now, e)]) (turns_observe now e s).
Proof.
  intros Hh. destruct (turns_step now e s) as [(Hs & Ha & Hb & _)|(_ & Hs & [(k & Hk & Ha & Ha' & Hb)|(Ha & Hb & Hq)])];
    unfold turn_history in *.
  - rewrite Ha. split; [done|]. by exists events, (now, e), [].
  - rewrite Ha', Hb. rewrite Ha in Hh. destruct Hh as (_ & p & b & m & -> & Hst & Hm).
    exists p, b, m, (now, e), []. split_and!; try done. by rewrite <- app_assoc.
  - rewrite Ha, Hb. destruct (active s).
    + destruct Hh as (Hn & p & b & m & -> & Hst & Hm). split; [done|].
      exists p, b, (m ++ [(now, e)]). split_and!; [by rewrite <- app_assoc | done|].
      rewrite forallb_snoc, Hm. by apply Hq.
    + destruct (boundary s) as [k|]; [|by rewrite forallb_snoc, Hh, Hs].
      destruct Hh as (p & b & m & x & q & -> & H1 & H2 & H3 & H4).
      exists p, b, m, x, (q ++ [(now, e)]). split_and!; try done; [|by rewrite forallb_snoc, H4, Hs].
      by rewrite <- app_assoc; simpl; rewrite <- app_assoc.
Qed.

Lemma run_turns_snoc events now e :
  run_turns (events ++ [(now, e)]) = turns_observe now e (run_turns events).
Proof. unfold run_turns. by rewrite fold_left_app. Qed.

(** Turn boundaries are real: after any frames, the generation is the number of
    started turns; a boundary is reported only while no turn is active, and then
    it is the first end of the turn started last; an active turn has a start and
    no end after it. *)
Theorem turn_tracker_sound events :
  generation (run_turns events) = Z.min u64_max (Z.of_nat (starts events))
  ∧ turn_history events (run_turns events).
Proof.
  induction events as [|[now e] events [IHg IHh]] using rev_ind; [by split|].
  rewrite run_turns_snoc. split; [|by apply turn_history_step].
  unfold starts. rewrite List.filter_app, length_app. simpl.
  destruct (turns_step now e (run_turns events)) as [(-> & _ & _ & ->)|(-> & -> & _)]; simpl.
  - rewrite IHg. unfold saturating_add, starts. lia.
  - rewrite IHg. unfold starts. by rewrite Nat.add_0_r.
Qed.

(** ** Waiting for a boundary *)

Section waits.
Context (predicate : TurnTracker → bool).

Lemma wait_until_sound wakeups s snap :
  wait_until predicate wakeups s = Ok snap →
  ∃ s', s' ∈ s :: wakeups.*1 ∧ predicate s' = true ∧ snap = turns_snapshot s'.
Proof.
  revert s; induction wakeups as [|[next out] rest IH]; intros s; simpl;
    destruct (predicate s) eqn:Hp; try (intros [= <-]; exists s; split_and!; by try left); try done.
  destruct (out && _); [done|]. intros (s' & Hin & ? & ?)%IH. exists s'. split_and!; try done. by right.
Qed.

Lemma wait_until_live pre next out post s :
  Forall (λ w : TurnTracker * bool, w.2 = false) pre → predicate next = true →
  ∃ snap, wait_until predicate (pre ++ (next, out) :: post) s = Ok snap.
Proof.
  intros Hpre Hn. revert s; induction Hpre as [|[x o] pre Ho _ IH]; intros s; simpl;
    (destruct (predicate s); [eauto|]).
  - rewrite Hn, andb_false_r. destruct post; simpl; rewrite Hn; eauto.
  - simpl in Ho. subst o. apply IH.
Qed.
End waits.

(** Waiting for a turn to end is neither early nor deaf: what it returns is the
    snapshot of a state that had an ended turn of at least the requested
    generation, and it returns one whenever such a state is found at a wake-up
    that no timeout preceded. *)
Theorem wait_boundary_exact g wakeups s :
  let ended x := (g ≤ generation x)%Z ∧ active x = false ∧ is_Some (boundary x) in
  (∀ snap, wait_boundary_after g wakeups s = Ok snap →
     ∃ x, x ∈ s :: wakeups.*1 ∧ ended x ∧ snap = turns_snapshot x)
  ∧ (∀ pre next out post, wakeups = pre ++ (next, out) :: post →
     Forall (λ w : TurnTracker * bool, w.2 = false) pre → ended next →
     ∃ snap, wait_boundary_after g wakeups s = Ok snap).
Proof.
  intros ended. unfold wait_boundary_after. split.
  - intros snap (x & Hin & Hp & ->)%wait_until_sound. exists x. split_and!; try done.
    apply andb_true_iff in Hp as [Hp Hb]. apply andb_true_iff in Hp as [Hg Ha]. bool_hyp.
    split_and!; [done | done|]. destruct (boundary x); [eauto | done].
  - intros pre next out post -> Hpre (Hg & Ha & [b Hb]). apply wait_until_live; [done|].
    apply Z.leb_le in Hg. by rewrite Hg, Ha, Hb.
Qed.

(** ** Permission answers *)

Lemma field_insert_lookup key v fields : field_lookup key (field_insert key v fields) = Some v.
Proof.
  induction fields as [|[k w] rest IH]; simpl; [by rewrite String.eqb_refl|].
  destruct (k ≟ key) eqn:E; simpl; [by rewrite String.eqb_refl|].
  destruct (String.leb key k); simpl; [by rewrite String.eqb_refl | by rewrite E].
Qed.

Lemma field_insert_other key key' v fields :
  key ≠ key' → field_lookup key' (field_insert key v fields) = field_lookup key' fields.
Proof.
  intros Hne. assert (Hk : (key ≟ key') = false) by by apply String.eqb_neq.
  induction fields as [|[k w] rest IH]; simpl; [by rewrite Hk|].
  destruct (k ≟ key) eqn:E; simpl.
  - apply String.eqb_eq in E as ->. by rewrite Hk.
  - destruct (String.leb key k); simpl; [by rewrite Hk | by rewrite IH].
Qed.

Inductive cache_step : OfferedPermissionCache → OfferedPermissionCache → Prop :=
| cache_step_observe key params c : cache_step c (cache_observe key params c)
| cache_step_complete key c : cache_step c (cache_complete key c)
| cache_step_denial key v c : cache_step c (cache_record_denial key v c)
| cache_step_clear c : cache_step c cache_empty.

Record cache_ok (c : OfferedPermissionCache) : Prop := {
  co_requests : size (requests c) ≤ MAX_PENDING_PERMISSION_RESPONSES;
  co_denied : size (denied_fingerprints c) ≤ MAX_PENDING_PERMISSION_RESPONSES;
  co_offered : map_Forall (λ _ r, offered_responses (offer_params r) = Some r) (requests c) }.

Lemma delete_requests_ok key c : cache_ok c → cache_ok (mk_cache (delete key (requests c)) (denied_fingerprints c)).
Proof.
  intros [Hr Hd Ho]. constructor; simpl; [|done | by apply map_Forall_delete].
  etrans; [|exact Hr]. apply map_subseteq_size, delete_subseteq.
Qed.

Lemma offered_responses_params params r : offered_responses params = Some r → offer_params r = params.
Proof.
  unfold offered_responses. destruct (offered_permission_response params "allow"); simpl; [|done].
  destruct (offered_permission_response params "deny"); simpl; [|done]. by intros [= <-].
Qed.

Lemma cache_empty_ok : cache_ok cache_empty.
Proof.
  constructor; unfold cache_empty; cbn [requests denied_fingerprints].
  - rewrite map_size_empty. apply Nat.le_0_l.
  - rewrite size_empty. apply Nat.le_0_l.
  - apply map_Forall_empty.
Qed.

Lemma cache_step_ok c c' : cache_step c c' → cache_ok c → cache_ok c'.
Proof.
  intros [key params c0|key c0|key v c0|c0] Hc.
  - unfold cache_observe. destruct (_ && _) eqn:Hb; [|by apply delete_requests_ok].
    destruct (offered_responses params) as [r|] eqn:Hr; [|by apply delete_requests_ok].
    apply andb_true_iff in Hb as [_ Hb%Nat.ltb_lt]. destruct (delete_requests_ok key c0 Hc) as [H1 H2 H3].
    simpl in *. constructor; simpl; [|done|].
    + rewrite map_size_insert_None by apply lookup_delete_eq. lia.
    + apply map_Forall_insert_2; [|done]. by rewrite (offered_responses_params params r).
  - by apply delete_requests_ok.
  - unfold cache_record_denial. destruct (_ ≫= _); [|done].
    destruct (Nat.ltb_spec (size (denied_fingerprints c0)) MAX_PENDING_PERMISSION_RESPONSES); [|done].
    destruct Hc as [H1 H2 H3]. constructor; simpl; [done | | done].
    rewrite size_union_alt, size_singleton.
    assert (size (denied_fingerprints c0 ∖ {[fingerprint p]}) ≤ size (denied_fingerprints c0))
      by (apply subseteq_size, subseteq_difference_l; done). lia.
  - apply cache_empty_ok.
Qed.

Definition cached : OfferedPermissionCache → Prop := rtc cache_step cache_empty.

Lemma cached_ok c : cached c → cache_ok c.
Proof.
  assert (Hsteps : ∀ a b, rtc cache_step a b → cache_ok a → cache_ok b).
  { induction 1 as [|a b c' Hab _ IH]; [done|]. intros Ha. by eapply IH, cache_step_ok. }
  intros H. apply (Hsteps _ _ H). apply cache_empty_ok.
Qed.

(** An offered response says the decision it was offered for. *)
Lemma offered_decision params decision answer :
  offered_permission_response params decision = Some answer →
  ∃ fields, answer = VObject fields ∧ get_str answer "decision" = Some decision.
Proof.
  unfold offered_permission_response. destruct (expected_kind decision) as [kind|]; simpl; [|done].
  destruct (get params "options" ≫= as_array) as [options|]; simpl; [|done].
  destruct (List.filter (kind_is kind) options) as [|option [|]]; try done.
  destruct (get option "response" ≫= as_object) as [fields|]; simpl; [|done].
  destruct (field_lookup "decision" fields ≫= as_str) as [d|] eqn:Hd; [|done].
  destruct (String.eqb_spec d decision) as [->|]; [|done]. intros [= <-]. eauto.
Qed.

(** Only offered answers are sent: in every cache the owner can hold, an answer
    to a request is the response the runtime itself offered for that decision;
    a denial is that response with the policy's reason added and nothing else
    changed, and says so with the wording for repeats when the same denial was
    recorded before. *)
Theorem permission_answer_is_offered c key decision validated answer :
  cached c → cache_response key decision validated c = Some answer →
  ∃ r, requests c !! key = Some r ∧ get_str answer "decision" = Some decision
    ∧ ((decision = "allow" ∧ offered_permission_response (offer_params r) "allow" = Some answer)
       ∨ (decision = "deny" ∧ ∃ d base,
            denial_for validated (offer_params r) = Some d
            ∧ offered_permission_response (offer_params r) "deny" = Some (VObject base)
            ∧ get_str answer "reason" =
                Some (denial_reason d (bool_decide (fingerprint d ∈ denied_fingerprints c)))
            ∧ ∀ k, k ≠ "reason" → get answer k = field_lookup k base)).
Proof.
  intros Hc%cached_ok. unfold cache_response.
  destruct (requests c !! key) as [r|] eqn:Hr; simpl; [|done].
  pose proof (co_offered c Hc key r Hr) as Ho. simpl in Ho.
  assert (Hboth : offered_permission_response (offer_params r) "allow" = Some (allow r)
    ∧ offered_permission_response (offer_params r) "deny" = Some (deny r)).
  { unfold offered_responses in Ho. destruct (offered_permission_response _ "allow"); simpl in Ho; [|done].
    destruct (offered_permission_response _ "deny"); simpl in Ho; [|done]. by injection Ho as <-. }
  destruct Hboth as [Hallow Hdeny].
  destruct (String.eqb_spec decision "allow") as [->|Hna].
  { intros [= <-]. destruct (offered_decision _ _ _ Hallow) as (f & _ & Hd). exists r. auto. }
  destruct (String.eqb_spec decision "deny") as [->|]; [|done].
  destruct (denial_for validated (offer_params r)) as [d|] eqn:Hden; simpl; [|done].
  destruct (offered_decision _ _ _ Hdeny) as (base & Hbase & Hd). rewrite Hbase in *. simpl.
  intros [= <-]. exists r. split; [done|]. unfold get_str, get in *.
  rewrite field_insert_lookup, field_insert_other by done. split; [done|]. right. split; [done|].
  exists d, base. split_and!; try done. intros k Hk. by rewrite field_insert_other.
Qed.

(** ** Answering once *)

Lemma cache_response_gone key decision v c :
  requests c !! key = None → cache_response key decision v c = None.
Proof. unfold cache_response. by intros ->. Qed.

Lemma record_denial_requests key v c : requests (cache_record_denial key v c) = requests c.
Proof. unfold cache_record_denial. by repeat case_match. Qed.

(** A permission is answered at most once: after a decision reached the
    runtime, another decision for the same request is refused and nothing is
    sent; and when the runtime reuses the id of a request still open, both
    requests lose their answers. *)
Theorem permission_answered_once id_key parse_id display cid decision content v sent o id answer o' :
  parse_id cid = Some id → one_of decision ["allow"; "deny"] = true →
  respond_request id_key parse_id display cid decision content v sent o = (Ok (id, answer), o') →
  (∀ decision' content' v' sent', one_of decision' ["allow"; "deny"] = true →
     respond_request id_key parse_id display cid decision' content' v' sent' o'
     = (Err (InvalidSession "runtime offered no matching permission response"), o'))
  ∧ (∀ params, cache_response (id_key id) decision v
       (cache_observe (id_key id) params (permission_responses o)) = None).
Proof.
  intros Hid Hd. unfold respond_request. rewrite Hid.
  assert (Hna : ∀ x, one_of x ["allow"; "deny"] = true → (x ≟ "answer") = false).
  { intros x. rewrite one_of_true. set_unfold. intros [-> |[-> |[]]]; done. }
  rewrite (Hna decision Hd), Hd. simpl.
  destruct (cache_response (id_key id) decision v (permission_responses o)) as [response|] eqn:Hr; [|done].
  destruct (sent id response); [|done]. intros [= <- <-]. split.
  - intros decision' content' v' sent' Hd'. rewrite (Hna decision' Hd'), Hd'. simpl.
    rewrite cache_response_gone; [done|]. simpl. by rewrite lookup_delete_eq.
  - intros params. apply cache_response_gone. unfold cache_observe.
    assert (Hs : is_Some (requests (permission_responses o) !! id_key id)).
    { unfold cache_response in Hr. destruct (requests _ !! _); [eauto | done]. }
    rewrite bool_decide_eq_true_2 by done. simpl. by rewrite lookup_delete_eq.
Qed.

(** ** Restart classification *)

(** A restart never claims a reap: recovery of a stored identity reports either
    an orphan or a lost session, and a lost session only for an identity that was
    observed unchanged twice, around a group that holds it and no foreign member. *)
Theorem restart_never_claims_reap macos first second members i :
  let t := classify_restart macos first second members i in
  terminal_proves_process_group_reaped t = false
  ∧ (t = TFailedRuntimeLost SessionLost ↔
     macos = true ∧ (1 < pid i ∧ 1 < pgid i ∧ as_i32 (pid i) = pgid i)%Z ∧ start_token i ≠ ""
     ∧ first = Observed i ∧ second = Observed i
     ∧ ∃ l, members = Some l ∧ i ∈ l
         ∧ ∀ m, m ∈ l → pgid m = pgid i ∧ uid m = uid i ∧ start_token m ≠ "").
Proof.
  intros t. unfold t, classify_restart.
  destruct (Z.leb (pid i) 1 || Z.leb (pgid i) 1 || negb (Z.eqb (as_i32 (pid i)) (pgid i))
    || str_is_empty (start_token i)) eqn:Hv.
  { split; [done|]. split; [done|]. intros (_ & (H1 & H2 & H3) & H4 & _).
    assert (str_is_empty (start_token i) = false) as E by by destruct (start_token i).
    rewrite H3, E, Z.eqb_refl in Hv. simpl in Hv. rewrite !orb_false_r in Hv.
    apply orb_true_iff in Hv as [Hv|Hv]; bool_hyp; lia. }
  bool_hyp. assert (start_token i ≠ "") by by destruct (start_token i).
  destruct macos; simpl; [|split; [done|]; split; [done | by intros (? & _)]].
  destruct first as [found| |]; simpl; try (split; [done|]; split; [done | by intros (_ & _ & _ & ? & _)]).
  case_bool_decide as Hf; [split; [done|]; split; [done|]; intros (_ & _ & _ & [= ->] & _); done|].
  subst found.
  destruct members as [l|]; [|split; [done|]; split; [done|]; by intros (_ & _ & _ & _ & _ & ? & ? & _)].
  assert (Hmem : existsb (λ m, bool_decide (m = i)) l = true ↔ i ∈ l).
  { rewrite existsb_true_iff. split; [|intros ?; exists i; by rewrite bool_decide_eq_true].
    by intros (x & Hx & ->%bool_decide_eq_true). }
  assert (Hforeign : existsb (λ m, negb (Z.eqb (pgid m) (pgid i)) || negb (Z.eqb (uid m) (uid i))
      || str_is_empty (start_token m)) l = false
    ↔ ∀ m, m ∈ l → pgid m = pgid i ∧ uid m = uid i ∧ start_token m ≠ "").
  { rewrite existsb_false_iff. split; intros H' m Hm; specialize (H' m Hm).
    - bool_hyp. split_and!; try done. by destruct (start_token m).
    - destruct H' as (-> & -> & ?). rewrite !Z.eqb_refl. by destruct (start_token m). }
  destruct (existsb (λ m, bool_decide (m = i)) l); simpl;
    [|split; [done|]; split; [done|]; intros (_ & _ & _ & _ & _ & ? & [= <-] & Hi & _);
      by apply Hmem in Hi].
  destruct (existsb _ l); simpl.
  { split; [done|]. split; [done|]. intros (_ & _ & _ & _ & _ & ? & [= <-] & _ & Hm).
    by apply Hforeign in Hm. }
  destruct second as [again| |]; simpl; try (split; [done|]; split; [done|]; by intros (_ & _ & _ & _ & ? & _)).
  case_bool_decide as Ha; [subst again|split; [done|]; split; [done|]; by intros (_ & _ & _ & _ & [= ->] & _)].
  split; [done|]. split; [|done]. intros _. split_and!; try done; try lia.
  exists l. split_and!; [done | by apply Hmem | by apply Hforeign].
Qed.

(** ** Messages and model checks *)

(** A bounded message fits its budget and keeps a prefix of the original. *)
Lemma bounded_prefix_spec message n :
  3 ≤ n → String.length (bounded_prefix message n) ≤ n
  ∧ (bounded_prefix message n = message
     ∨ ∃ kept rest, message = kept +:+ rest ∧ bounded_prefix message n = kept +:+ ellipsis).
Proof.
  intros Hn. unfold bounded_prefix.
  destruct (Nat.leb_spec (String.length message) n); [by split; [|left]|].
  destruct (prev_boundary_spec message (n - String.length ellipsis)) as [_ Hl].
  change (String.length ellipsis) with 3 in *. split.
  - rewrite string_app_length, str_take_length. change (String.length ellipsis) with 3. lia.
  - right. eexists _, _. split; [symmetry; apply str_take_drop | done].
Qed.

(** A rejected model costs a bounded message: whatever the caller asked for and
    the runtime offers, the message for an unavailable model stays below 700 bytes
    and the error for a refused one below 220. *)
Theorem model_messages_bounded requested available error :
  String.length (model_not_offered_message requested available) ≤ 700
  ∧ String.length (command_error_display (remote_set_model_error error)) ≤ 220.
Proof.
  destruct (bounded_prefix_spec requested 128 ltac:(lia)) as [H1 _].
  unfold model_not_offered_message. split.
  - match goal with |- context [bounded_prefix (join_with ?a ?b) 512] =>
      destruct (bounded_prefix_spec (join_with a b) 512 ltac:(lia)) as [H2 _] end.
    rewrite !string_app_length. cbn [String.length]. lia.
  - unfold remote_set_model_error, model_rejection_message.
    destruct (error_data_code error) as [code|]; [|simpl; lia].
    destruct (bounded_prefix_spec code 128 ltac:(lia)) as [H3 _].
    destruct (one_of code _); cbn [command_error_display]; rewrite !string_app_length;
      cbn [String.length]; lia.
Qed.

(** A session keeps the model it was admitted with: the check passes exactly
    when no model was requested or the observed one is the same after
    normalization; and only the two documented codes blame the model. *)
Theorem requested_model_checked requested observed error :
  (validate_requested_model requested observed = Ok tt ↔
   requested = None
   ∨ ∃ r o m, requested = Some r ∧ observed = Some o
       ∧ normalized_zai_model r = Some m ∧ normalized_zai_model o = Some m)
  ∧ ((∃ message, remote_set_model_error error = ModelRejected message) ↔
     error_data_code error = Some "invalid_model_request" ∨ error_data_code error = Some "model_not_found").
Proof.
  split.
  - unfold validate_requested_model. destruct requested as [r|]; [|by split; [left|]].
    destruct (normalized_zai_model r) as [m|] eqn:Hm.
    2: { split; [done|]. intros [?|(r' & o & m & [= <-] & _ & ? & _)]; congruence. }
    destruct observed as [o|]; simpl.
    2: { split; [done|]. by intros [?|(? & ? & ? & _ & ? & _)]. }
    destruct (normalized_zai_model o) as [m'|] eqn:Ho.
    2: { split; [done|]. intros [?|(? & ? & ? & [= <-] & [= <-] & _ & ?)]; congruence. }
    destruct (String.eqb_spec m m') as [->|Hne]; split; try done.
    + intros _. right. eauto 10.
    + intros [?|(? & ? & ? & [= <-] & [= <-] & ? & ?)]; congruence.
  - unfold remote_set_model_error. destruct (error_data_code error) as [code|].
    2: { split; [by intros [? ?] | by intros [?|?]]. }
    destruct (one_of code _) eqn:E.
    + apply one_of_true in E. set_unfold. split; [|eauto].
      intros _. destruct E as [-> |[-> |[]]]; auto.
    + apply one_of_false in E. set_unfold. split; [by intros [? ?]|].
      intros [[= ->]|[= ->]]; exfalso; apply E; auto.
Qed.

(** ** Witnesses *)

Definition turn_frame (kind : string) : Inbound :=
  Message (Event (mk_event_envelope SESSION_EVENT (VObject [("type", VString kind)]))).

Definition finished_owner : RuntimeOwner :=
  mk_owner publisher_new (run_turns [(1%Z, turn_frame "turn.started"); (2%Z, turn_frame "turn.completed")])
    cache_empty.

Lemma pump_terminal_honest_witness :
  let o := (pump_event (λ _, "") 3 true (Some true) (ChildExited (Exited (Some 0%Z))) finished_owner).1 in
  published_terminal (publisher o) = Some (TCompleted (AlreadyExited (Exited (Some 0%Z))))
  ∧ boundary (turn_tracker o) = Some BoundaryCompleted.
Proof.
  intros o. split; [reflexivity|].
  apply (pump_terminal_honest (λ _, "") 3 true (Some true) (ChildExited (Exited (Some 0%Z)))
           finished_owner (TCompleted (AlreadyExited (Exited (Some 0%Z)))) eq_refl eq_refl)
    with (outcome := AlreadyExited (Exited (Some 0%Z))); reflexivity.
Defined.

Definition sample_offer : Value :=
  VObject [("options", VArray
    [VObject [("kind", VString "allow_once"); ("response", VObject [("decision", VString "allow")])];
     VObject [("kind", VString "deny"); ("response", VObject [("decision", VString "deny")])]]);
    ("toolName", VString "Bash")].

Definition sample_denial : PermissionDenialSemantics :=
  mk_semantics "git" "network" "blocked" "none" "stop" "use_read".

Definition sample_cache : OfferedPermissionCache := cache_observe "k" sample_offer cache_empty.

Lemma permission_answer_is_offered_witness :
  ∃ answer r, cache_response "k" "deny" (Some sample_denial) sample_cache = Some answer
    ∧ requests sample_cache !! "k" = Some r ∧ get_str answer "decision" = Some "deny".
Proof.
  eexists. destruct (permission_answer_is_offered sample_cache "k" "deny" (Some sample_denial)
    (VObject [("decision", VString "deny");
       ("reason", VString (denial_reason sample_denial false))])) as (r & Hr & Hd & _).
  - eapply rtc_l; [apply (cache_step_observe "k" sample_offer)|]. apply rtc_refl.
  - reflexivity.
  - exists r. split; [reflexivity|]. split; [exact Hr | exact Hd].
Defined.

Lemma permission_answered_once_witness :
  let o := mk_owner publisher_new turns_new sample_cache in
  let respond := respond_request (λ _, "k") (λ _, Some (Integer 1)) (λ _, "") "1" "allow" None None
                   (λ _ _, Ok tt) in
  (respond (respond o).2).1
  = Err (InvalidSession "runtime offered no matching permission response").
Proof.
  intros o respond.
  destruct (permission_answered_once (λ _, "k") (λ _, Some (Integer 1)) (λ _, "") "1" "allow" None None
    (λ _ _, Ok tt) o (Integer 1) (VObject [("decision", VString "allow")]) (respond o).2) as [H _];
    [reflexivity.. |]. exact (f_equal fst (H "allow" None None (λ _ _, Ok tt) eq_refl)).
Defined.
