(* ===== verification/Codex.v ===== *)
(** * The Codex adapter

    [crates/subagents/codex/src/session.rs] and [update.rs]: posture, parameters and
    validation of thread results, and the folding of one notification.

    Diagnostic lines on stderr are left out.  Values compare as sorted maps. *)

From stdpp Require Import gmap pretty.
From S2P Require Import Prelude RustStr RustPath Utf8 Json Contract Projection Observation RuntimeEvents Activity RuntimeOwner.

(** ** Threads ([session.rs]) *)

Inductive CodexPermissionMode := CodexPlan | CodexWorkspaceWrite | CodexYolo.

Record CodexPosture := mk_posture { posture_sandbox : string; posture_label : string }.

Definition codex_posture (mode : CodexPermissionMode) : CodexPosture :=
  match mode with
  | CodexPlan => mk_posture "read-only" "read-only object"
  | CodexYolo => mk_posture "danger-full-access" "danger-full-access posture"
  | CodexWorkspaceWrite => mk_posture "workspace-write" "workspace-write object"
  end.

Definition thread_start_params (model workspace_path : string) (posture : CodexPosture)
    (developer_instructions : option string) : Value :=
  VObject
    ([("approvalPolicy", VString "never"); ("cwd", VString workspace_path)]
     ++ match developer_instructions with
        | Some text => if str_is_empty text then [] else [("developerInstructions", VString text)]
        | None => []
        end
     ++ [("ephemeral", VBool false); ("model", VString model);
         ("sandbox", VString (posture_sandbox posture))]).

Definition thread_resume_params (thread_id : string) (posture : CodexPosture) : Value :=
  VObject [("excludeTurns", VBool true); ("sandbox", VString (posture_sandbox posture));
           ("threadId", VString thread_id)].

Definition turn_start_params (thread_id model : string) (effort : option string) (text : string)
    : Value :=
  VObject [("effort", VString (default "low" effort));
           ("input", VArray [VObject [("text", VString text); ("type", VString "text")]]);
           ("model", VString model); ("threadId", VString thread_id)].

Definition as_bool (v : Value) : option bool := match v with VBool b => Some b | _ => None end.

(** [Value::pointer] with two names. *)
Definition pointer2 (v : Value) (a b : string) : option Value := get v a ≫= λ x, get x b.

Definition thread_result_field (v : Value) (key : string) : option Value :=
  match pointer2 v "thread" key with Some x => Some x | None => get v key end.

Definition sandbox_confirmed (sandbox : Value) (mode : CodexPermissionMode) : bool :=
  match mode with
  | CodexPlan =>
      is_str (get_str sandbox "type") "readOnly"
      && bool_decide (get sandbox "networkAccess" ≫= as_bool = Some false)
  | CodexYolo => bool_decide (sandbox = VObject [("type", VString "dangerFullAccess")])
  | CodexWorkspaceWrite =>
      bool_decide (sandbox =
        VObject [("excludeSlashTmp", VBool false); ("excludeTmpdirEnvVar", VBool false);
                 ("networkAccess", VBool false); ("type", VString "workspaceWrite");
                 ("writableRoots", VArray [])])
  end.

(** [CodexError::InvalidSession]; the other variants come from the driver. *)
Notation invalid m := (Err (InvalidSession m)).

(** [Result] guard: [if !ok { return Err(..) }]. *)
Definition ensure (ok : bool) (message : string) : result RuntimeCommandError unit :=
  if ok then Ok tt else invalid message.

Definition validate_thread_model (requested : string) (observed : option Value)
    : result RuntimeCommandError unit :=
  match observed ≫= as_str with
  | None => invalid "MODEL_NOT_OBSERVED: thread model is missing"
  | Some o => ensure (o ≟ requested) "MODEL_MISMATCH: thread model differs from the admitted request"
  end.

Definition bounded_512 (s : string) : bool :=
  negb (str_is_empty s) && Nat.leb (String.length s) 512.

Definition cwd_matches (v : Value) (workspace_path : string) : bool :=
  match thread_result_field v "cwd" ≫= as_str with
  | Some cwd => path_eq cwd workspace_path
  | None => false
  end.

Definition sandbox_field_confirmed (v : Value) (mode : CodexPermissionMode) : bool :=
  match thread_result_field v "sandbox" with Some s => sandbox_confirmed s mode | None => false end.

Definition start_result_thread_id (v : Value) (model workspace_path : string)
    (mode : CodexPermissionMode) : result RuntimeCommandError string :=
  match keep_if bounded_512 (pointer2 v "thread" "id" ≫= as_str) with
  | None => invalid "thread/start result is missing a bounded thread id"
  | Some thread_id =>
      _ ← ensure (bool_decide (pointer2 v "thread" "ephemeral" ≫= as_bool = Some false))
            "codex thread is not persistent (ephemeral must be false)";
      _ ← validate_thread_model model (get v "model");
      _ ← ensure (is_str (thread_result_field v "approvalPolicy" ≫= as_str) "never")
            "start approvalPolicy was not confirmed as never";
      _ ← ensure (sandbox_field_confirmed v mode)
            ("start sandbox was not confirmed as the " +:+ posture_label (codex_posture mode));
      _ ← ensure (cwd_matches v workspace_path) "start cwd does not match the task workspace";
      Ok thread_id
  end.

Definition confirm_resumed_thread_effort (requested : option string) (v : Value)
    : result RuntimeCommandError unit :=
  match requested, thread_result_field v "reasoningEffort" with
  | Some effort, Some echo =>
      ensure (is_str (as_str echo) effort)
        ("resume reasoningEffort was not confirmed as the admitted " +:+ effort)
  | _, _ => Ok tt
  end.

Definition validate_resume_result (v : Value) (thread_id model workspace_path : string)
    (mode : CodexPermissionMode) (effort : option string) : result RuntimeCommandError unit :=
  _ ← ensure (is_str (pointer2 v "thread" "id" ≫= as_str) thread_id)
        "thread/resume returned a different thread id";
  _ ← ensure (bool_decide (pointer2 v "thread" "ephemeral" ≫= as_bool = Some false))
        "resumed codex thread is not persistent";
  _ ← validate_thread_model model (get v "model");
  _ ← ensure (sandbox_field_confirmed v mode)
        ("resume sandbox was not confirmed as the " +:+ posture_label (codex_posture mode));
  _ ← ensure (is_str (thread_result_field v "approvalPolicy" ≫= as_str) "never")
        "resume approvalPolicy was not confirmed as never";
  _ ← ensure (cwd_matches v workspace_path) "resume cwd does not match the task workspace";
  confirm_resumed_thread_effort effort v.

Definition turn_start_response_turn_id (v : option Value) : result RuntimeCommandError string :=
  ok_or (InvalidSession "turn/start response is missing a bounded turn id")
    (keep_if bounded_512 (v ≫= λ v, pointer2 v "turn" "id" ≫= as_str)).

(** ** Notifications ([update.rs]) *)

Definition MAX_ITEM_TEXT_BYTES : nat := 512 * 1024.
Definition MAX_TRACKED_ITEMS : nat := 128.
Definition MAX_TURN_FAILURE_DETAIL_BYTES : nat := 512.
Definition MAX_MCP_DIAGNOSTIC_BYTES : nat := 2 * 1024.
Definition MAX_RETIRED_TURNS : nat := 64.
Definition MAX_TOOL_ITEM_ID_BYTES : nat := 512.
Definition MAX_TRACKED_TOOL_ITEMS : nat := 4096.

Definition TOOL_ITEM_TYPES : list string :=
  ["commandExecution"; "fileChange"; "mcpToolCall"; "dynamicToolCall"; "webSearch";
   "collabAgentToolCall"; "imageGeneration"; "imageView"; "sleep"].

Definition is_tool_item (item_type : string) : bool := one_of item_type TOOL_ITEM_TYPES.

Definition tool_item_id (params : Value) : option string :=
  let item := get_or_null params "item" in
  match get_str item "type" with
  | Some t =>
      if is_tool_item t then
        keep_if (λ id, negb (str_is_empty id) && Nat.leb (String.length id) MAX_TOOL_ITEM_ID_BYTES
                       && negb (contains_char id (byte_of 0))) (get_str item "id")
      else None
  | None => None
  end.

(** A bounded ring of identities: [remove(0)] when full, then [push]. *)
Definition ring_push (cap : nat) (l : list string) (id : string) : list string :=
  (if Nat.leb cap (length l) then drop 1 l else l) ++ [id].

Definition observe_tool_item (seen : list string) (id : string) : bool * list string :=
  if one_of id seen then (false, seen) else (true, ring_push MAX_TRACKED_TOOL_ITEMS seen id).

Definition is_turn_scoped (method : string) : bool :=
  one_of method ["turn/started"; "item/started"; "item/agentMessage/delta"; "item/completed";
                 "turn/completed"; "error"].

Definition started_turn_id (params : Value) : option string :=
  keep_if (λ id, negb (str_is_empty id)) (pointer2 params "turn" "id" ≫= as_str).

Definition agent_message_delta (params : Value) : option (string * string) :=
  delta ← get_str params "delta"; item_id ← get_str params "itemId"; Some (delta, item_id).

Definition completed_agent_message (params : Value) : option (string * option string) :=
  let item := get_or_null params "item" in
  if is_str (get_str item "type") "agentMessage" then
    item_id ← get_str item "id"; Some (item_id, get_str item "text")
  else None.

Definition final_text (turn : Value) (tracked : option string) : option string :=
  match tracked with
  | Some t => Some t
  | None =>
      l ← get turn "items" ≫= as_array;
      item ← List.find (λ item, is_str (get_str item "type") "agentMessage") l;
      get_str item "text"
  end.

Definition take_chars (n : nat) (s : string) : string := String.concat "" (take n (chars s)).

Definition turn_failure_reason (turn : Value) (status : string) (recorded : option string) : string :=
  match recorded with
  | Some r => r
  | None =>
      take_chars 256
        (default ("codex turn ended with status " +:+ status)
           (pointer2 turn "error" "message" ≫= as_str))
  end.

Definition turn_error_detail (params : Value) : string :=
  let error := get_or_null params "error" in
  default "codex_error" (get_str error "codexErrorInfo") +:+ ": "
  +:+ default "codex reported a turn error" (get_str error "message").

Definition mcp_startup_failure (params : Value) : option (string * string) :=
  if is_str (get_str params "status") "failed"
  then Some (default "unknown" (get_str params "name"), default "startup failed" (get_str params "error"))
  else None.

Definition codex_event_id (n : Z) : string := "codex-event-" +:+ pretty n.

Definition canonical_event (params : Value) : Inbound :=
  Message (Event (mk_event_envelope SESSION_EVENT params)).

Definition lifecycle_event (n : Z) (method : string) : Inbound :=
  Lifecycle n method (classify_lifecycle method false).

Definition turn_payload (kind event_id turn_id : string) (payload : option Fields) : Value :=
  VObject ([("eventId", VString event_id)]
           ++ match payload with Some p => [("payload", VObject p)] | None => [] end
           ++ [("turnId", VString turn_id); ("type", VString kind)]).

Definition turn_started_payload (event_id turn_id : string) : Value :=
  turn_payload "turn.started" event_id turn_id None.

Definition model_streaming_payload (event_id turn_id delta item_id : string) : Value :=
  turn_payload "model.streaming" event_id turn_id
    (Some [("assistantMessageId", VString item_id); ("delta", VString delta);
           ("kind", VString "text_delta")]).

Definition message_finished_payload (event_id turn_id item_id : string) : Value :=
  turn_payload "message.finished" event_id turn_id (Some [("assistantMessageId", VString item_id)]).

Definition turn_completed_payload (event_id turn_id : string) (text : option string) : Value :=
  turn_payload "turn.completed" event_id turn_id
    (Some (match text with Some t => [("response", VString t)] | None => [] end)).

Definition turn_failed_payload (event_id turn_id reason : string) : Value :=
  turn_payload "turn.failed" event_id turn_id (Some [("reason_code", VString reason)]).

Definition observe_item_text (m : gmap string string) (item_id text : string) : gmap string string :=
  if bool_decide (m !! item_id = None) && Nat.leb MAX_TRACKED_ITEMS (size m) then m
  else
    let entry := default "" (m !! item_id) in
    if Nat.leb (String.length text + String.length entry) MAX_ITEM_TEXT_BYTES
    then <[item_id := entry +:+ text]> m
    else
      let remaining := MAX_ITEM_TEXT_BYTES - String.length entry in
      <[item_id := entry +:+ str_take (prev_boundary text remaining) text]> m.

Definition record_completed_item (m : gmap string string) (item_id text : string)
    : gmap string string :=
  if bool_decide (is_Some (m !! item_id)) || Nat.ltb (size m) MAX_TRACKED_ITEMS
  then <[item_id := text]> m else m.

Definition bounded_turn_failure_detail (detail : string) : string :=
  take_chars MAX_TURN_FAILURE_DETAIL_BYTES detail.

Definition newline : string := String (byte_of 10) EmptyString.

Definition record_mcp_failure (tail name error : string) : string :=
  roll MAX_MCP_DIAGNOSTIC_BYTES (tail +:+ "mcp " +:+ name +:+ " failed: " +:+ error +:+ newline).

Definition retire_ring (retired : list string) (turn_id : string) : list string :=
  if one_of turn_id retired then retired else ring_push MAX_RETIRED_TURNS retired turn_id.
