(* ===== verification/CodexRuntime.v ===== *)
(** * A Codex runtime in the daemon

    [crates/external-daemon/src/codex/]: the state a runtime shares between its
    pump and its owner ([events.rs]), the projection of a notification, the frame
    loop ([transport.rs]) and the control plane ([session.rs], [owner.rs]).

    The pump projects one frame at a time; the owner's stores are steps between
    frames.  The driver's answers, the clock and the process group are arguments.
    Lines on stderr are left out. *)

From stdpp Require Import gmap pretty.
From S2P Require Import Prelude RustStr RustPath Utf8 Json General Contract Projection Observation RuntimeEvents Activity RuntimeOwner Codex.

(** ** Shared state *)

Record CodexShared := mk_codex {
  cx_publisher : Publisher; cx_turns : TurnTracker;
  session_id : option string; admitted_model : option string; admitted_effort : option string;
  admitted_posture : option CodexPermissionMode; diagnostic_session_id : option string;
  current_turn : option string; retired_turns : list string; start_in_flight : bool;
  last_message_item : option string; items : gmap string string; seen_tool_items : list string;
  turn_failure : option string; mcp_tail : string; cx_sequence : Z; stop_boundaries : Z }.

(** The state [spawn_with_model] builds. *)
Definition codex_new : CodexShared :=
  mk_codex publisher_new turns_new None None None None None None [] false None ∅ [] None "" 0 0.

(** A 64-bit counter. *)
Definition wrap64 (n : Z) : Z := (n mod 2 ^ 64)%Z.

Definition set_publisher (p : Publisher) (s : CodexShared) : CodexShared :=
  mk_codex p (cx_turns s) (session_id s) (admitted_model s) (admitted_effort s)
    (admitted_posture s) (diagnostic_session_id s) (current_turn s) (retired_turns s)
    (start_in_flight s) (last_message_item s) (items s) (seen_tool_items s) (turn_failure s)
    (mcp_tail s) (cx_sequence s) (stop_boundaries s).

Definition set_turns (t : TurnTracker) (s : CodexShared) : CodexShared :=
  mk_codex (cx_publisher s) t (session_id s) (admitted_model s) (admitted_effort s)
    (admitted_posture s) (diagnostic_session_id s) (current_turn s) (retired_turns s)
    (start_in_flight s) (last_message_item s) (items s) (seen_tool_items s) (turn_failure s)
    (mcp_tail s) (cx_sequence s) (stop_boundaries s).

Definition set_posture (m : CodexPermissionMode) (s : CodexShared) : CodexShared :=
  mk_codex (cx_publisher s) (cx_turns s) (session_id s) (admitted_model s)
    (admitted_effort s) (Some m) (diagnostic_session_id s) (current_turn s)
    (retired_turns s) (start_in_flight s) (last_message_item s) (items s)
    (seen_tool_items s) (turn_failure s) (mcp_tail s) (cx_sequence s) (stop_boundaries s).

Definition set_session (id model : string) (effort : option string) (s : CodexShared) : CodexShared :=
  mk_codex (cx_publisher s) (cx_turns s) (Some id) (Some model) effort (admitted_posture s)
    (diagnostic_session_id s) (current_turn s) (retired_turns s) (start_in_flight s)
    (last_message_item s) (items s) (seen_tool_items s) (turn_failure s) (mcp_tail s)
    (cx_sequence s) (stop_boundaries s).

Definition set_diagnostic (id : string) (s : CodexShared) : CodexShared :=
  mk_codex (cx_publisher s) (cx_turns s) (session_id s) (admitted_model s)
    (admitted_effort s) (admitted_posture s) (Some id) (current_turn s) (retired_turns s)
    (start_in_flight s) (last_message_item s) (items s) (seen_tool_items s) (turn_failure s)
    (mcp_tail s) (cx_sequence s) (stop_boundaries s).

Definition open_turn (id : string) (s : CodexShared) : CodexShared :=
  mk_codex (cx_publisher s) (cx_turns s) (session_id s) (admitted_model s)
    (admitted_effort s) (admitted_posture s) (diagnostic_session_id s) (Some id)
    (retired_turns s) (start_in_flight s) None (items s) [] None (mcp_tail s)
    (cx_sequence s) (stop_boundaries s).

Definition retire_turn (id : string) (s : CodexShared) : CodexShared :=
  mk_codex (cx_publisher s) (cx_turns s) (session_id s) (admitted_model s)
    (admitted_effort s) (admitted_posture s) (diagnostic_session_id s) None
    (retire_ring (retired_turns s) id) (start_in_flight s) (last_message_item s) (items s)
    [] (turn_failure s) (mcp_tail s) (cx_sequence s) (stop_boundaries s).

Definition set_in_flight (b : bool) (s : CodexShared) : CodexShared :=
  mk_codex (cx_publisher s) (cx_turns s) (session_id s) (admitted_model s)
    (admitted_effort s) (admitted_posture s) (diagnostic_session_id s) (current_turn s)
    (retired_turns s) b (last_message_item s) (items s) (seen_tool_items s) (turn_failure s)
    (mcp_tail s) (cx_sequence s) (stop_boundaries s).

Definition set_last_item (id : string) (s : CodexShared) : CodexShared :=
  mk_codex (cx_publisher s) (cx_turns s) (session_id s) (admitted_model s)
    (admitted_effort s) (admitted_posture s) (diagnostic_session_id s) (current_turn s)
    (retired_turns s) (start_in_flight s) (Some id) (items s) (seen_tool_items s)
    (turn_failure s) (mcp_tail s) (cx_sequence s) (stop_boundaries s).

Definition set_items (m : gmap string string) (s : CodexShared) : CodexShared :=
  mk_codex (cx_publisher s) (cx_turns s) (session_id s) (admitted_model s)
    (admitted_effort s) (admitted_posture s) (diagnostic_session_id s) (current_turn s)
    (retired_turns s) (start_in_flight s) (last_message_item s) m (seen_tool_items s)
    (turn_failure s) (mcp_tail s) (cx_sequence s) (stop_boundaries s).

Definition set_seen (l : list string) (s : CodexShared) : CodexShared :=
  mk_codex (cx_publisher s) (cx_turns s) (session_id s) (admitted_model s)
    (admitted_effort s) (admitted_posture s) (diagnostic_session_id s) (current_turn s)
    (retired_turns s) (start_in_flight s) (last_message_item s) (items s) l (turn_failure s)
    (mcp_tail s) (cx_sequence s) (stop_boundaries s).

Definition record_turn_failure (detail : string) (s : CodexShared) : CodexShared :=
  mk_codex (cx_publisher s) (cx_turns s) (session_id s) (admitted_model s)
    (admitted_effort s) (admitted_posture s) (diagnostic_session_id s) (current_turn s)
    (retired_turns s) (start_in_flight s) (last_message_item s) (items s)
    (seen_tool_items s) (Some (bounded_turn_failure_detail detail)) (mcp_tail s)
    (cx_sequence s) (stop_boundaries s).

Definition set_mcp_tail (tail : string) (s : CodexShared) : CodexShared :=
  mk_codex (cx_publisher s) (cx_turns s) (session_id s) (admitted_model s)
    (admitted_effort s) (admitted_posture s) (diagnostic_session_id s) (current_turn s)
    (retired_turns s) (start_in_flight s) (last_message_item s) (items s)
    (seen_tool_items s) (turn_failure s) tail (cx_sequence s) (stop_boundaries s).

Definition bump (s : CodexShared) : CodexShared :=
  mk_codex (cx_publisher s) (cx_turns s) (session_id s) (admitted_model s)
    (admitted_effort s) (admitted_posture s) (diagnostic_session_id s) (current_turn s)
    (retired_turns s) (start_in_flight s) (last_message_item s) (items s)
    (seen_tool_items s) (turn_failure s) (mcp_tail s) (wrap64 (cx_sequence s + 1))
    (stop_boundaries s).

Definition count_stop (s : CodexShared) : CodexShared :=
  mk_codex (cx_publisher s) (cx_turns s) (session_id s) (admitted_model s)
    (admitted_effort s) (admitted_posture s) (diagnostic_session_id s) (current_turn s)
    (retired_turns s) (start_in_flight s) (last_message_item s) (items s)
    (seen_tool_items s) (turn_failure s) (mcp_tail s) (cx_sequence s)
    (wrap64 (stop_boundaries s + 1)).

(** ** Projection ([events.rs]) *)

Definition emit_inbound (e : Inbound) (s : CodexShared) : CodexShared :=
  set_publisher (emit_driver e None (cx_publisher s)) s.

Definition emit_canonical (params : Value) : CodexShared → CodexShared :=
  emit_inbound (canonical_event params).

Definition emit_lifecycle (method : string) (s : CodexShared) : CodexShared :=
  let s := bump s in emit_inbound (lifecycle_event (cx_sequence s) method) s.

(** The sink sees the event, then the tracker. *)
Definition emit_boundary (now : Z) (params : Value) (s : CodexShared) : CodexShared :=
  let s := emit_canonical params s in
  set_turns (turns_observe now (canonical_event params) (cx_turns s)) s.

Definition attributable_turn (frame_turn_id : option string) (s : CodexShared) : option string :=
  match current_turn s, frame_turn_id with
  | Some current, Some arrived => if current ≟ arrived then Some current else None
  | _, _ => None
  end.

Definition tool_item_detail (tool item_id : string) (item : Value) : option string :=
  if tool ≟ "commandExecution" then get_str item "command"
  else if tool ≟ "fileChange" then
    option_map (λ changes, join_with ", " (omap (λ c, get_str c "path") changes))
      (get item "changes" ≫= as_array)
  else Some item_id.

(** The Boolean says that the frame is re-emitted. *)
Definition project_tool_item (params : Value) (event_id : string) (s : CodexShared)
    : bool * CodexShared :=
  match tool_item_id params with
  | None => (true, s)
  | Some item_id =>
      match attributable_turn (get_str params "turnId") s with
      | None => (true, s)
      | Some turn_id =>
          let '(first, seen) := observe_tool_item (seen_tool_items s) item_id in
          if negb first then (true, set_seen seen s)
          else
            let item := get_or_null params "item" in
            let tool := default "" (get_str item "type") in
            let detail := tool_item_detail tool item_id item in
            let bounded := bounded_tool_call tool (default "" detail) in
            (false, emit_canonical
               (tool_count_event event_id turn_id 1 (Some bounded.1)
                  (option_map (λ _, bounded.2) detail)) (set_seen seen s))
      end
  end.

Definition project_turn_started (now : Z) (params : Value) (event_id : string) (s : CodexShared)
    : bool * CodexShared :=
  match started_turn_id params with
  | None => (true, s)
  | Some turn_id =>
      if active (cx_turns s) then (true, s)
      else if one_of turn_id (retired_turns s) then (true, s)
      else if negb (start_in_flight s) then (true, s)
      else
        let s := open_turn turn_id s in
        let s := emit_boundary now (turn_started_payload event_id turn_id) s in
        (false, emit_lifecycle "turn.started" s)
  end.

Definition project_delta (params : Value) (event_id : string) (s : CodexShared)
    : bool * CodexShared :=
  match agent_message_delta params with
  | None => (true, s)
  | Some (delta, item_id) =>
      match attributable_turn (get_str params "turnId") s with
      | None => (true, s)
      | Some turn_id =>
          let s := set_items (observe_item_text (items s) item_id delta) s in
          (false, emit_canonical (model_streaming_payload event_id turn_id delta item_id) s)
      end
  end.

Definition project_item_completed (params : Value) (event_id : string) (s : CodexShared)
    : bool * CodexShared :=
  match completed_agent_message params with
  | None => project_tool_item params event_id s
  | Some (item_id, text) =>
      match attributable_turn (get_str params "turnId") s with
      | None => (true, s)
      | Some turn_id =>
          let s := match text with
                   | Some text => set_items (record_completed_item (items s) item_id text) s
                   | None => s
                   end in
          let s := set_last_item item_id s in
          (false, emit_canonical (message_finished_payload event_id turn_id item_id) s)
      end
  end.

(** The text recorded for the last completed message. *)
Definition tracked_text (s : CodexShared) : option string :=
  last_message_item s ≫= λ id, items s !! id.

Definition close_turn (now : Z) (params : Value) (current lifecycle : string) (s : CodexShared)
    : CodexShared :=
  emit_lifecycle lifecycle (retire_turn current (emit_boundary now params s)).

Definition project_turn_completed (now : Z) (params : Value) (event_id : string) (s : CodexShared)
    : bool * CodexShared :=
  let turn := get_or_null params "turn" in
  let status := get_str turn "status" in
  match attributable_turn (get_str turn "id") s with
  | None => (true, s)
  | Some current =>
      match status with
      | None => (true, s)
      | Some status =>
          if status ≟ "completed" then
            let text := final_text turn (tracked_text s) in
            (false, close_turn now (turn_completed_payload event_id current text) current
                      "turn.completed" s)
          else if one_of status ["failed"; "interrupted"] then
            let reason := turn_failure_reason turn status (turn_failure s) in
            (false, close_turn now (turn_failed_payload event_id current reason) current
                      "turn.failed" (record_turn_failure reason s))
          else (true, s)
      end
  end.

Definition project_settings (params : Value) (s : CodexShared) : bool * CodexShared :=
  match admitted_posture s, session_id s with
  | Some mode, Some expected =>
      if negb (is_str (get_str params "threadId") expected) then (true, s)
      else
        match pointer2 params "threadSettings" "sandboxPolicy" with
        | None => (true, s)
        | Some sandbox =>
            if sandbox_confirmed sandbox mode then (true, s)
            else
              let observed := default "unknown" (get_str sandbox "type") in
              (false, set_publisher
                 (publish_terminal (TFailedRuntimeLost (PostureViolation observed))
                    (cx_publisher s)).2 s)
        end
  | _, _ => (true, s)
  end.

(** Whether a frame's thread admits it. *)
Definition thread_admits (method : string) (params : Value) (s : CodexShared) : bool :=
  let thread_id := get_str params "threadId" in
  if is_turn_scoped method then
    match session_id s with Some expected => is_str thread_id expected | None => false end
  else
    match session_id s, thread_id with
    | Some expected, Some actual => expected ≟ actual
    | _, _ => true
    end.

Definition project_notification (now : Z) (method : string) (raw : Value) (s : CodexShared)
    : bool * CodexShared :=
  let params := get_or_null raw "params" in
  if negb (thread_admits method params s) then (true, s)
  else
    let s := bump s in
    let event_id := codex_event_id (cx_sequence s) in
    if method ≟ "turn/started" then project_turn_started now params event_id s
    else if method ≟ "item/started" then project_tool_item params event_id s
    else if method ≟ "item/agentMessage/delta" then project_delta params event_id s
    else if method ≟ "item/completed" then project_item_completed params event_id s
    else if method ≟ "turn/completed" then project_turn_completed now params event_id s
    else if method ≟ "error" then
      match attributable_turn (get_str params "turnId") s with
      | None => (true, s)
      | Some _ => (true, record_turn_failure (turn_error_detail params) s)
      end
    else if method ≟ "mcpServer/startupStatus/updated" then
      match mcp_startup_failure params with
      | Some (name, error) => (true, set_mcp_tail (record_mcp_failure (mcp_tail s) name error) s)
      | None => (true, s)
      end
    else if method ≟ "thread/settings/updated" then project_settings params s
    else (true, s).

(** ** The frame loop ([transport.rs]) *)

(** [classify_child_exit] is the owner's [exit_terminal].  The result says whether
    the loop goes on. *)
Definition classify_child_exit (group_empty : option bool) (s : CodexShared) (exit : ChildExit)
    : RuntimeTerminal :=
  exit_terminal group_empty (turns_snapshot (cx_turns s)) exit.

Definition unsupported_request (r : RequestEnvelope) : RequestEnvelope :=
  mk_request (req_id r) INTERACTION_REQUEST_UNSUPPORTED_INPUT
    (VObject [("method", VString (req_method r)); ("origin", VString "codex_app_server")]).

Definition codex_pump (now : Z) (group_empty : option bool) (event : Inbound) (s : CodexShared)
    : CodexShared * bool :=
  match event with
  | Message (UnknownEvent method raw) =>
      let '(again, s) := project_notification now method raw s in
      (if again then emit_inbound event s else s, true)
  | Message (Request r) => (emit_inbound (Message (Request (unsupported_request r))) s, true)
  | ChildExited exit =>
      (set_publisher
         (emit_driver event (Some (classify_child_exit group_empty s exit)) (cx_publisher s)) s,
       false)
  | _ => (emit_inbound event s, true)
  end.

Definition codex_disconnected (s : CodexShared) : CodexShared :=
  set_publisher (publish_terminal stream_lost (cx_publisher s)).2 s.

(** ** The control plane ([session.rs], [owner.rs]) *)

Record AdmittedThread := mk_admitted {
  th_model : string; th_effort : option string; th_instructions : option string;
  th_mode : CodexPermissionMode }.

Definition codex_mode (mode : PermissionMode) : CodexPermissionMode :=
  match mode with
  | Plan => CodexPlan
  | Build | EditMode => CodexWorkspaceWrite
  | Yolo => CodexYolo
  end.

(** [admitted_thread], from the task's decoded route. *)
Definition admitted_thread (route : result string PreparedGeneralTask)
    : result RuntimeCommandError AdmittedThread :=
  match route with
  | Err message => invalid message
  | Ok prepared =>
      match admission prepared with
      | None => invalid "codex task is missing its admission identity"
      | Some a =>
          if negb (agent a ≟ "codex") then invalid "runtime is not the admitted codex agent"
          else
            match model a with
            | None => invalid "codex task is missing its admitted model"
            | Some m => Ok (mk_admitted m (effort a) (developer_instructions a)
                              (codex_mode (prep_permission_mode prepared)))
            end
      end
  end.

Definition initialize_result (response : option Value) : result RuntimeCommandError unit :=
  match response ≫= λ v, get_str v "codexHome" with
  | None => invalid "initialize result is missing codexHome"
  | Some home =>
      if str_is_empty home || Nat.ltb 4096 (String.length home)
      then invalid "initialize returned an invalid codexHome" else Ok tt
  end.

(** The results of [thread/start] and [thread/resume]. *)
Definition start_thread (response : option Value) (model workspace_path : string)
    (mode : CodexPermissionMode) : result RuntimeCommandError string :=
  match response with
  | None => invalid "thread/start returned an error"
  | Some v => start_result_thread_id v model workspace_path mode
  end.

Definition resume_thread (response : option Value) (thread_id model workspace_path : string)
    (mode : CodexPermissionMode) (effort : option string) : result RuntimeCommandError unit :=
  match response with
  | None => invalid "thread/resume returned an error"
  | Some v => validate_resume_result v thread_id model workspace_path mode effort
  end.

(** [drive_start_turn]: the response, the wait for a newer generation, then the
    turn the pump opened. *)
Definition drive_start_turn (response : option Value)
    (waited : result RuntimeCommandError TurnSnapshot) (started : option string)
    : result RuntimeCommandError (option string) :=
  turn_id ← turn_start_response_turn_id response;
  _ ← waited;
  if is_str started turn_id then Ok (Some turn_id)
  else invalid "turn/start response turn id does not match the started turn".

Definition inject_active_turn (response : option Value) (current : string)
    : result RuntimeCommandError (option string) :=
  echoed ← turn_start_response_turn_id response;
  if echoed ≟ current then Ok None
  else invalid "inject turn/start response does not match current turn".

Definition validate_session (id : string) (s : CodexShared) : result RuntimeCommandError unit :=
  ensure (is_str (session_id s) id) "session id does not belong to this runtime".

(** The parameters [send_turn] and [inject_turn] put on the wire. *)
Definition send_turn (id content : string) (s : CodexShared) : result RuntimeCommandError Value :=
  _ ← validate_session id s;
  if active (cx_turns s) then invalid "a turn is already in flight for this codex thread"
  else
    match admitted_model s with
    | None => invalid "codex thread has no admitted model for a follow-up turn"
    | Some m => Ok (turn_start_params id m (admitted_effort s) content)
    end.

Definition inject_turn (id content : string) (s : CodexShared)
    : result RuntimeCommandError (string * Value) :=
  _ ← validate_session id s;
  match current_turn s with
  | None => invalid "codex has no active turn to inject"
  | Some current =>
      match admitted_model s with
      | None => invalid "codex thread has no admitted model"
      | Some m => Ok (current, turn_start_params id m (admitted_effort s) content)
      end
  end.

(** [stop_turn] up to its request: a snapshot when no turn is active, else the
    parameters of [turn/interrupt]. *)
Definition stop_turn (id : string) (s : CodexShared)
    : result RuntimeCommandError (TurnSnapshot + Value) :=
  _ ← validate_session id s;
  let current := turns_snapshot (cx_turns s) in
  if negb (turn_active current) then Ok (inl current)
  else Ok (inr (VObject [("threadId", VString id);
                         ("turnId", VString (default "" (current_turn s)))])).

(** ** Histories *)

(** A step: a frame, a lost channel, one of the owner's stores, or what a stop, a
    finish or a forced cleanup does to the publisher. *)
Inductive CodexStep :=
| Frame (now : Z) (group_empty : option bool) (event : Inbound)
| Disconnected
| PinPosture (mode : CodexPermissionMode)
| BindSession (id model : string) (effort : option string)
| BindDiagnostic (id : string)
| InFlight (b : bool)
| StopBegins
| StopPublishes (t : RuntimeTerminal)
| ForcedCleanup (t : RuntimeTerminal)
| StopCounted.

Definition codex_step (s : CodexShared) (step : CodexStep) : CodexShared :=
  match step with
  | Frame now group_empty event => (codex_pump now group_empty event s).1
  | Disconnected => codex_disconnected s
  | PinPosture mode => set_posture mode s
  | BindSession id model effort => set_session id model effort s
  | BindDiagnostic id => set_diagnostic id s
  | InFlight b => set_in_flight b s
  | StopBegins => set_publisher (begin_stopping (cx_publisher s)).2 s
  | StopPublishes t => set_publisher (publish_terminal t (cx_publisher s)).2 s
  | ForcedCleanup t => set_publisher (publish_cleanup_terminal t (cx_publisher s)).2 s
  | StopCounted => count_stop s
  end.

Definition codex_run : list CodexStep → CodexShared → CodexShared :=
  λ steps s, fold_left codex_step steps s.
