(* ===== verification/CodexProps.v ===== *)
(** * Properties of a Codex runtime

    The turns of a thread refine a two-state machine, a foreign frame changes
    nothing, each tool item is counted once, only a contradicting sandbox ends the
    runtime, a thread is adopted only when every echo confirms it, and what the
    table of message texts loses when it is full. *)

From stdpp Require Import gmap pretty.
From S2P Require Import Prelude RustStr RustPath Utf8 Json General Contract Projection Observation RuntimeEvents Activity RuntimeOwner Codex CodexRuntime.

(** ** Rings *)

Definition ring_ok (cap : nat) (l : list string) : Prop := NoDup l ∧ length l ≤ cap.

Lemma one_of_elem id l : one_of id l = true ↔ id ∈ l.
Proof.
  unfold one_of. rewrite existsb_exists. split.
  - intros (x & Hx & ->%String.eqb_eq). by apply list_elem_of_In.
  - intros H. exists id. split; [by apply list_elem_of_In | apply String.eqb_refl].
Qed.

Lemma one_of_not_elem id l : one_of id l = false ↔ id ∉ l.
Proof. rewrite <- not_true_iff_false. by rewrite one_of_elem. Qed.

Lemma ring_push_ok cap l id :
  0 < cap → ring_ok cap l → id ∉ l → ring_ok cap (ring_push cap l id).
Proof.
  intros Hc [Hn Hl] Hid. unfold ring_push, ring_ok.
  rewrite length_app. cbn [length]. destruct (Nat.leb_spec cap (length l)) as [E|E].
  - destruct l as [|y l]; cbn [length] in *; [lia|]. change (drop 1 (y :: l)) with l.
    apply NoDup_cons in Hn as [_ Hn]. split; [|lia]. apply NoDup_app. split_and!;
      [done | |apply NoDup_singleton].
    intros x Hx ->%list_elem_of_singleton. by apply Hid, list_elem_of_further.
  - split; [|lia]. apply NoDup_app. split_and!; [done | |apply NoDup_singleton].
    intros x Hx ->%list_elem_of_singleton. done.
Qed.

Lemma ring_push_last cap l id : id ∈ ring_push cap l id.
Proof. unfold ring_push. apply elem_of_app. right. by apply list_elem_of_singleton. Qed.

Lemma retire_ring_ok l id : ring_ok MAX_RETIRED_TURNS l → ring_ok MAX_RETIRED_TURNS (retire_ring l id).
Proof.
  intros H. unfold retire_ring. destruct (one_of id l) eqn:E; [done|].
  apply ring_push_ok; [unfold MAX_RETIRED_TURNS; lia | done | by apply one_of_not_elem].
Qed.

Lemma retire_ring_elem l id : id ∈ retire_ring l id.
Proof.
  unfold retire_ring. destruct (one_of id l) eqn:E; [by apply one_of_elem | apply ring_push_last].
Qed.

(** ** The turn machine *)

(** What the rest of the daemon sees of a thread's turns. *)
Record TurnView := mk_view {
  v_current : option string; v_tracker : TurnSnapshot; v_retired : list string }.

Definition turn_view (s : CodexShared) : TurnView :=
  mk_view (current_turn s) (turns_snapshot (cx_turns s)) (retired_turns s).

(** The specification: an idle thread opens a turn that is not retired, under a
    new generation; a running turn closes once and is retired with its outcome. *)
Inductive turn_machine : TurnView → TurnView → Prop :=
| machine_open id g b retired :
    id ∉ retired →
    turn_machine (mk_view None (mk_turn_snapshot g false b) retired)
      (mk_view (Some id) (mk_turn_snapshot (saturating_add g 1) true None) retired)
| machine_close id g b outcome retired :
    turn_machine (mk_view (Some id) (mk_turn_snapshot g true b) retired)
      (mk_view None (mk_turn_snapshot g false (Some outcome)) (retire_ring retired id)).

Record codex_ok (s : CodexShared) : Prop := {
  ok_active : active (cx_turns s) = bool_decide (is_Some (current_turn s));
  ok_current : ∀ id, current_turn s = Some id → id ∉ retired_turns s;
  ok_retired : ring_ok MAX_RETIRED_TURNS (retired_turns s);
  ok_seen : ring_ok MAX_TRACKED_TOOL_ITEMS (seen_tool_items s);
  ok_idle : current_turn s = None → seen_tool_items s = [];
  ok_items : size (items s) ≤ MAX_TRACKED_ITEMS;
  ok_mcp : String.length (mcp_tail s) ≤ MAX_MCP_DIAGNOSTIC_BYTES }.

Lemma turn_kind_payload kind event_id turn_id payload :
  turn_kind (canonical_event (turn_payload kind event_id turn_id payload)) = Some kind.
Proof. by destruct payload. Qed.

Lemma observe_started now event_id turn_id t :
  turns_snapshot (turns_observe now (canonical_event (turn_started_payload event_id turn_id)) t)
  = mk_turn_snapshot (saturating_add (generation t) 1) true None.
Proof. unfold turns_observe, turn_started_payload. rewrite turn_kind_payload. by destruct (active t). Qed.

Lemma observe_closed now kind event_id turn_id payload t :
  active t = true → kind = "turn.completed" ∨ kind = "turn.failed" →
  turns_snapshot (turns_observe now (canonical_event (turn_payload kind event_id turn_id payload)) t)
  = mk_turn_snapshot (generation t) false
      (Some (if kind ≟ "turn.completed" then BoundaryCompleted else BoundaryFailed)).
Proof.
  intros Ha Hk. unfold turns_observe. rewrite turn_kind_payload, Ha. by destruct Hk as [-> | ->].
Qed.

Lemma attributable_current id s t : attributable_turn id s = Some t → current_turn s = Some t ∧ id = Some t.
Proof.
  unfold attributable_turn. destruct (current_turn s) as [c|], id as [a|]; try done.
  destruct (c ≟ a) eqn:E; [|done]. apply String.eqb_eq in E. naive_solver.
Qed.

(** A state change that keeps the invariant and moves the machine at most once. *)
Definition good_step (s s' : CodexShared) : Prop :=
  codex_ok s' ∧ (turn_view s' = turn_view s ∨ turn_machine (turn_view s) (turn_view s')).

Lemma good_refl s : codex_ok s → good_step s s.
Proof. intros H. split; auto. Qed.

(** Fields that neither part mentions. *)
Ltac inert H :=
  let Hm := fresh in
  destruct H as [H Hm]; split; [destruct H; constructor; assumption | exact Hm].

Lemma good_publisher s s' p : good_step s s' → good_step s (set_publisher p s').
Proof. intros H. inert H. Qed.

Lemma good_emit e s s' : good_step s s' → good_step s (emit_inbound e s').
Proof. apply good_publisher. Qed.

Lemma good_lifecycle m s s' : good_step s s' → good_step s (emit_lifecycle m s').
Proof. intros H. unfold emit_lifecycle. apply good_emit. inert H. Qed.

Lemma good_bump s s' : good_step (bump s) s' → good_step s s'.
Proof. intros H. exact H. Qed.

Lemma good_failure d s s' : good_step s s' → good_step s (record_turn_failure d s').
Proof. intros H. inert H. Qed.

Lemma observe_item_size m id text :
  size m ≤ MAX_TRACKED_ITEMS → size (observe_item_text m id text) ≤ MAX_TRACKED_ITEMS.
Proof.
  intros H. unfold observe_item_text. case_match eqn:E; [done|].
  assert (∀ x, size (<[id := x]> m) ≤ MAX_TRACKED_ITEMS); [|by repeat case_match].
  intros x. destruct (m !! id) eqn:L; [by rewrite map_size_insert_Some by eauto|].
  rewrite map_size_insert_None by done. rewrite bool_decide_eq_true_2 in E by done.
  cbn [andb] in E. apply Nat.leb_gt in E. lia.
Qed.

Lemma record_item_size m id text :
  size m ≤ MAX_TRACKED_ITEMS → size (record_completed_item m id text) ≤ MAX_TRACKED_ITEMS.
Proof.
  intros H. unfold record_completed_item. case_match eqn:E; [|done].
  destruct (m !! id) eqn:L; [by rewrite map_size_insert_Some by eauto|].
  rewrite map_size_insert_None by done. rewrite bool_decide_eq_false_2 in E by (by intros []).
  cbn [orb] in E. apply Nat.ltb_lt in E. lia.
Qed.

Lemma good_items m s : codex_ok s → size m ≤ MAX_TRACKED_ITEMS → good_step s (set_items m s).
Proof. intros [] Hm. split; [by constructor | by left]. Qed.

Lemma observe_seen_ok l id first l' :
  ring_ok MAX_TRACKED_TOOL_ITEMS l → observe_tool_item l id = (first, l') →
  ring_ok MAX_TRACKED_TOOL_ITEMS l'.
Proof.
  unfold observe_tool_item. intros H. destruct (one_of id l) eqn:E; intros [= <- <-]; [done|].
  apply ring_push_ok; [unfold MAX_TRACKED_TOOL_ITEMS; lia | done | by apply one_of_not_elem].
Qed.

Lemma good_tool_item params event_id s :
  codex_ok s → good_step s (project_tool_item params event_id s).2.
Proof.
  intros H. unfold project_tool_item. destruct (tool_item_id params) as [id|]; [|by apply good_refl].
  destruct (attributable_turn _ s) as [t|] eqn:A; [|by apply good_refl].
  apply attributable_current in A as [A _].
  destruct (observe_tool_item _ id) as [first l] eqn:O.
  assert (good_step s (set_seen l s)) as G.
  { destruct H. split; [|by left]. constructor; try done; [by eapply observe_seen_ok|].
    intros E. change (current_turn s = None) in E. congruence. }
  destruct first; cbn [negb snd]; [by apply good_emit | done].
Qed.

Lemma ring_nil cap : ring_ok cap [].
Proof. split; [apply NoDup_nil_2 | cbn; lia]. Qed.

Lemma good_open now event_id id s :
  codex_ok s → active (cx_turns s) = false → id ∉ retired_turns s →
  good_step s (emit_boundary now (turn_started_payload event_id id) (open_turn id s)).
Proof.
  intros [Ha Hc Hr Hs Hi Ht Hm] Hf Hid.
  pose proof (observe_started now event_id id (cx_turns s)) as E.
  rewrite Hf in Ha. symmetry in Ha. apply bool_decide_eq_false in Ha.
  assert (current_turn s = None) as Hn by (destruct (current_turn s); [by destruct Ha | done]).
  split.
  - constructor; [exact (f_equal turn_active E) | | exact Hr | exact (ring_nil _) | done | done | done].
    intros x [= <-]. exact Hid.
  - right. unfold turn_view. rewrite Hn. cbn [cx_turns emit_boundary set_turns emit_canonical
      emit_inbound set_publisher open_turn current_turn retired_turns]. rewrite E.
    unfold turns_snapshot. rewrite Hf. by constructor.
Qed.

Lemma good_close now kind event_id id payload s :
  codex_ok s → current_turn s = Some id → kind = "turn.completed" ∨ kind = "turn.failed" →
  good_step s (retire_turn id (emit_boundary now (turn_payload kind event_id id payload) s)).
Proof.
  intros [Ha Hc Hr Hs Hi Ht Hm] Hid Hk.
  assert (active (cx_turns s) = true) as Hact.
  { rewrite Ha, Hid. by apply bool_decide_eq_true_2. }
  pose proof (observe_closed now kind event_id id payload (cx_turns s) Hact Hk) as E.
  split.
  - by constructor; [exact (f_equal turn_active E) | | apply retire_ring_ok | exact (ring_nil _) | | |].
  - right. unfold turn_view. cbn [cx_turns emit_boundary set_turns emit_canonical
      emit_inbound set_publisher retire_turn current_turn retired_turns]. rewrite E, Hid.
    unfold turns_snapshot. rewrite Hact. by constructor.
Qed.

Lemma good_mcp name error s :
  codex_ok s → good_step s (set_mcp_tail (record_mcp_failure (mcp_tail s) name error) s).
Proof. intros []. split; [constructor; try done; apply roll_length | by left]. Qed.

Lemma good_started now params event_id s :
  codex_ok s → good_step s (project_turn_started now params event_id s).2.
Proof.
  intros H. unfold project_turn_started.
  destruct (started_turn_id params) as [id|]; [|by apply good_refl].
  destruct (active (cx_turns s)) eqn:Ha; [by apply good_refl|].
  destruct (one_of id (retired_turns s)) eqn:Hr; [by apply good_refl|].
  destruct (start_in_flight s); [|by apply good_refl].
  apply good_lifecycle, good_open; [done | done | by apply one_of_not_elem].
Qed.

Lemma good_delta params event_id s :
  codex_ok s → good_step s (project_delta params event_id s).2.
Proof.
  intros H. unfold project_delta.
  destruct (agent_message_delta params) as [[delta id]|]; [|by apply good_refl].
  destruct (attributable_turn _ s); [|by apply good_refl].
  apply good_emit, good_items; [done | apply observe_item_size, H].
Qed.

Lemma good_item_completed params event_id s :
  codex_ok s → good_step s (project_item_completed params event_id s).2.
Proof.
  intros H. unfold project_item_completed.
  destruct (completed_agent_message params) as [[id text]|]; [|by apply good_tool_item].
  destruct (attributable_turn _ s); [|by apply good_refl].
  apply good_emit. destruct text as [text|].
  - pose proof (good_items (record_completed_item (items s) id text) s H
      (record_item_size _ _ _ (ok_items s H))) as G. inert G.
  - pose proof (good_refl s H) as G. inert G.
Qed.

Lemma good_turn_completed now params event_id s :
  codex_ok s → good_step s (project_turn_completed now params event_id s).2.
Proof.
  intros H. unfold project_turn_completed.
  destruct (attributable_turn _ s) as [id|] eqn:A; [|by apply good_refl].
  apply attributable_current in A as [A _].
  destruct (get_str _ "status") as [status|]; [|by apply good_refl].
  destruct (status ≟ "completed"); [apply good_lifecycle, good_close; auto|].
  destruct (one_of status _); [|by apply good_refl].
  apply good_lifecycle.
  apply (good_close now "turn.failed" event_id id _ (record_turn_failure _ s)); auto.
  by destruct H.
Qed.

Lemma good_settings params s : codex_ok s → good_step s (project_settings params s).2.
Proof.
  intros H. unfold project_settings. repeat case_match; try by apply good_refl.
  by apply good_publisher, good_refl.
Qed.

Lemma good_notification now method raw s :
  codex_ok s → good_step s (project_notification now method raw s).2.
Proof.
  intros H. unfold project_notification. destruct (thread_admits _ _ s); [|by apply good_refl].
  cbn [negb]. apply good_bump. assert (codex_ok (bump s)) as Hb by (by destruct H).
  repeat case_match; try by apply good_refl.
  - by apply good_started.
  - by apply good_tool_item.
  - by apply good_delta.
  - by apply good_item_completed.
  - by apply good_turn_completed.
  - by apply good_failure, good_refl.
  - by apply good_mcp.
  - by apply good_settings.
Qed.

Lemma good_pump now group_empty event s :
  codex_ok s → good_step s (codex_pump now group_empty event s).1.
Proof.
  intros H. unfold codex_pump.
  destruct event as [[| | |method raw]| | | | |]; try by apply good_emit, good_refl.
  all: try by apply good_publisher, good_refl.
  pose proof (good_notification now method raw s H) as G.
  destruct (project_notification now method raw s) as [[] s']; cbn [fst snd] in *;
    [by apply good_emit | done].
Qed.

Lemma good_codex_step s step : codex_ok s → good_step s (codex_step s step).
Proof.
  intros H. destruct step; cbn [codex_step].
  all: try by apply good_publisher, good_refl.
  - by apply good_pump.
  - pose proof (good_refl s H) as G. inert G.
  - pose proof (good_refl s H) as G. inert G.
  - pose proof (good_refl s H) as G. inert G.
  - pose proof (good_refl s H) as G. inert G.
  - pose proof (good_refl s H) as G. inert G.
Qed.

Lemma codex_new_ok : codex_ok codex_new.
Proof. by constructor; try apply ring_nil; vm_compute; try lia. Qed.

Lemma codex_run_ok steps s : codex_ok s → codex_ok (codex_run steps s).
Proof.
  revert s. induction steps as [|step steps IH]; intros s H; [done|].
  apply IH, good_codex_step, H.
Qed.

(** C19. A Codex runtime keeps its bounds in every history of frames and owner
    steps: the tracker is active exactly while a turn is current, a current turn is
    not retired, the rings of retired turns and of counted tool items hold distinct
    identities and at most 64 and 4096 of them, no item is remembered between
    turns, at most 128 message texts and 2048 bytes of start-up failures are kept;
    and every further step leaves its turns alone or makes one move of the turn
    machine: an idle thread opens a turn that is not retired under the next
    generation, or the current turn closes with an outcome and is retired. *)
Theorem codex_turns_refine_machine steps step :
  let s := codex_run steps codex_new in
  let s' := codex_step s step in
  codex_ok s ∧ (turn_view s' = turn_view s ∨ turn_machine (turn_view s) (turn_view s')).
Proof.
  intros s s'. assert (codex_ok s) as H by apply codex_run_ok, codex_new_ok.
  split; [done | apply good_codex_step, H].
Qed.

(** ** Foreign frames *)

(** Whether a turn-scoped frame names the runtime's thread and current turn; for
    [turn/started], that it opens a turn. *)
Definition frame_attributable (method : string) (params : Value) (s : CodexShared) : bool :=
  match session_id s with
  | None => false
  | Some thread =>
      is_str (get_str params "threadId") thread
      && if method ≟ "turn/started" then
           negb (active (cx_turns s)) && start_in_flight s
           && match started_turn_id params with
              | Some id => negb (one_of id (retired_turns s)) | None => false
              end
         else
           let frame_turn := if method ≟ "turn/completed"
                             then get_str (get_or_null params "turn") "id"
                             else get_str params "turnId" in
           match current_turn s with Some id => is_str frame_turn id | None => false end
  end.

Lemma attributable_false id s :
  match current_turn s with Some t => is_str id t | None => false end = false →
  attributable_turn id s = None.
Proof.
  unfold attributable_turn, is_str. destruct (current_turn s) as [t|], id as [a|]; try done.
  destruct (t ≟ a) eqn:E; [|done]. apply String.eqb_eq in E as ->.
  rewrite bool_decide_eq_true_2 by done. done.
Qed.

Lemma tool_item_foreign params event_id s :
  attributable_turn (get_str params "turnId") s = None → project_tool_item params event_id s = (true, s).
Proof. intros H. unfold project_tool_item. rewrite H. by destruct (tool_item_id params). Qed.

(** A frame of the turn protocol that does not name the runtime's thread and
    its current turn, or a [turn/started] that no request awaits, that repeats a
    retired turn or that arrives during a turn, is handed on unprojected: the
    state is as it was, but for the event counter. *)
Theorem foreign_frame_is_inert now method raw s :
  is_turn_scoped method = true →
  frame_attributable method (get_or_null raw "params") s = false →
  let projected := project_notification now method raw s in
  projected.1 = true ∧ (projected.2 = s ∨ projected.2 = bump s).
Proof.
  intros Hs Hf. cbv zeta. unfold project_notification, thread_admits. set (params := get_or_null raw "params") in *.
  rewrite Hs. unfold frame_attributable in Hf. destruct (session_id s) as [thread|]; [|by split; auto].
  destruct (is_str (get_str params "threadId") thread); [|by split; auto]. cbn [negb andb] in *.
  destruct (method ≟ "turn/started") eqn:M1.
  { unfold project_turn_started. destruct (started_turn_id params); [|by split; auto].
    change (active (cx_turns (bump s))) with (active (cx_turns s)).
    change (retired_turns (bump s)) with (retired_turns s).
    change (start_in_flight (bump s)) with (start_in_flight s).
    destruct (active (cx_turns s)), (start_in_flight s), (one_of _ _); try done; split; auto. }
  apply attributable_false in Hf. change (attributable_turn ?x s) with (attributable_turn x (bump s)) in Hf.
  destruct (method ≟ "item/started") eqn:M2.
  { apply String.eqb_eq in M2 as ->. rewrite tool_item_foreign by exact Hf. split; auto. }
  destruct (method ≟ "item/agentMessage/delta") eqn:M3.
  { apply String.eqb_eq in M3 as ->. unfold project_delta. destruct (agent_message_delta params) as [[]|]; [|by split; auto].
    replace (attributable_turn _ (bump s)) with (@None string) by (symmetry; exact Hf). split; auto. }
  destruct (method ≟ "item/completed") eqn:M4.
  { apply String.eqb_eq in M4 as ->. unfold project_item_completed.
    destruct (completed_agent_message params) as [[]|]; [|rewrite tool_item_foreign by exact Hf; by split; auto].
    replace (attributable_turn _ (bump s)) with (@None string) by (symmetry; exact Hf). split; auto. }
  destruct (method ≟ "turn/completed") eqn:M5.
  { unfold project_turn_completed. rewrite Hf. split; auto. }
  rewrite Hf. destruct (method ≟ "error") eqn:M6; [by split; auto|].
  unfold is_turn_scoped, one_of in Hs. cbn [existsb] in Hs.
  by rewrite M1, M2, M3, M4, M5, M6 in Hs.
Qed.

(** A runtime bound to a thread, with one turn open. *)
Definition demo_frame (method : string) (params : Fields) : CodexStep :=
  Frame 0 (Some false) (Message (UnknownEvent method (VObject [("params", VObject params)]))).

Definition demo_thread : list CodexStep :=
  [PinPosture CodexPlan; BindSession "thread" "gpt" None; InFlight true;
   demo_frame "turn/started"
     [("threadId", VString "thread"); ("turn", VObject [("id", VString "t1")])];
   InFlight false].

Lemma foreign_frame_is_inert_witness :
  let s := codex_run demo_thread codex_new in
  let raw := VObject [("params", VObject [("delta", VString "late"); ("itemId", VString "m");
                                          ("threadId", VString "thread"); ("turnId", VString "t0")])] in
  let projected := project_notification 1 "item/agentMessage/delta" raw s in
  current_turn s = Some "t1" ∧ projected.1 = true ∧ (projected.2 = s ∨ projected.2 = bump s).
Proof.
  intros s raw. split; [by vm_compute|].
  by apply (foreign_frame_is_inert 1 "item/agentMessage/delta" raw s); vm_compute.
Defined.

(** ** Tool items *)

(** The tool item a frame projects as a count. *)
Definition counted_item (step : CodexStep) (s : CodexShared) : option string :=
  match step with
  | Frame now _ (Message (UnknownEvent method raw)) =>
      let params := get_or_null raw "params" in
      if negb (project_notification now method raw s).1
         && one_of method ["item/started"; "item/completed"]
      then tool_item_id params else None
  | _ => None
  end.

(** The items counted along a history that stays within one turn. *)
Inductive one_turn (t : string) : list CodexStep → list string → CodexShared → Prop :=
| one_turn_nil s : current_turn s = Some t → one_turn t [] [] s
| one_turn_step step steps l s :
    current_turn s = Some t → one_turn t steps l (codex_step s step) →
    one_turn t (step :: steps) (option_list (counted_item step s) ++ l) s.

Lemma one_turn_intro t step steps counted l s :
  current_turn s = Some t → counted_item step s = counted → one_turn t steps l (codex_step s step) →
  one_turn t (step :: steps) (option_list counted ++ l) s.
Proof. intros Hc <- H. by constructor. Qed.

Lemma project_tool_item_seen params event_id s t :
  current_turn s = Some t →
  let r := project_tool_item params event_id s in
  seen_tool_items r.2 = seen_tool_items s ∧ r.1 = true
  ∨ ∃ id, tool_item_id params = Some id ∧ id ∉ seen_tool_items s ∧ r.1 = false
          ∧ seen_tool_items r.2 = ring_push MAX_TRACKED_TOOL_ITEMS (seen_tool_items s) id.
Proof.
  intros Hc. cbv zeta. unfold project_tool_item. destruct (tool_item_id params) as [id|]; [|by left].
  destruct (attributable_turn _ s); [|by left]. unfold observe_tool_item.
  destruct (one_of id (seen_tool_items s)) eqn:E; [by left|]. cbn [negb]. right. exists id.
  split_and!; [done | by apply one_of_not_elem | done | done].
Qed.

Lemma agent_message_not_tool params x : completed_agent_message params = Some x → tool_item_id params = None.
Proof.
  unfold completed_agent_message, tool_item_id, is_str. case_bool_decide as E; [|done].
  rewrite E. reflexivity.
Qed.

(** What one step within a turn does to the ring of counted items. *)
Definition ring_step (l l' : list string) (counted : option string) : Prop :=
  l' = l ∧ counted = None
  ∨ ∃ id, counted = Some id ∧ id ∉ l ∧ l' = ring_push MAX_TRACKED_TOOL_ITEMS l id.

Lemma tool_item_ring params event_id s t :
  current_turn s = Some t →
  let r := project_tool_item params event_id s in
  ring_step (seen_tool_items s) (seen_tool_items r.2)
    (if negb r.1 then tool_item_id params else None).
Proof.
  intros Hc. cbv zeta.
  destruct (project_tool_item_seen params event_id s t Hc) as [[H1 H2]|(id & H1 & H2 & H3 & H4)].
  - left. by rewrite H2.
  - right. exists id. by rewrite H3.
Qed.

Lemma notification_ring now method raw s t :
  codex_ok s → current_turn s = Some t →
  let r := project_notification now method raw s in
  current_turn r.2 = Some t →
  ring_step (seen_tool_items s) (seen_tool_items r.2)
    (if negb r.1 && one_of method ["item/started"; "item/completed"]
     then tool_item_id (get_or_null raw "params") else None).
Proof.
  intros Hok Hc. cbv zeta. unfold project_notification. set (params := get_or_null raw "params").
  destruct (thread_admits _ _ s); [|by left]. cbn [negb].
  set (event_id := codex_event_id _).
  destruct (method ≟ "turn/started") eqn:M1.
  { unfold project_turn_started. destruct (started_turn_id params); [|by left].
    change (active (cx_turns (bump s))) with (active (cx_turns s)).
    rewrite (ok_active s Hok), Hc, bool_decide_eq_true_2 by done. by left. }
  destruct (method ≟ "item/started") eqn:M2.
  { intros _. apply String.eqb_eq in M2 as ->. rewrite andb_true_r. by apply (tool_item_ring params event_id (bump s) t). }
  destruct (method ≟ "item/agentMessage/delta") eqn:M3.
  { apply String.eqb_eq in M3 as ->. unfold project_delta. rewrite andb_false_r.
    destruct (agent_message_delta params) as [[]|]; [|by left]. destruct (attributable_turn _ _); by left. }
  destruct (method ≟ "item/completed") eqn:M4.
  { intros _. apply String.eqb_eq in M4 as ->. rewrite andb_true_r. unfold project_item_completed.
    destruct (completed_agent_message params) as [[id text]|] eqn:E.
    - rewrite (agent_message_not_tool _ _ E).
      destruct (attributable_turn _ _); [destruct text|]; left; by destruct (negb _).
    - by apply (tool_item_ring params event_id (bump s) t). }
  replace (one_of method _) with false
    by (unfold one_of; cbn [existsb]; by rewrite M2, M4).
  rewrite andb_false_r. intros Hc'. left. split; [|done]. revert Hc'.
  destruct (method ≟ "turn/completed").
  { unfold project_turn_completed. destruct (attributable_turn _ _); [|done].
    destruct (get_str _ "status") as [st|]; [|done]. destruct (st ≟ "completed"); [done|].
    by destruct (one_of st _). }
  repeat case_match; try done. unfold project_settings. by repeat case_match.
Qed.

Lemma step_ring s step t :
  codex_ok s → current_turn s = Some t → current_turn (codex_step s step) = Some t →
  ring_step (seen_tool_items s) (seen_tool_items (codex_step s step)) (counted_item step s).
Proof.
  intros Hok Hc. destruct step as [now g event| | | | | | | | |]; try by left.
  destruct event as [[| | |method raw]| | | | |]; try by left.
  cbn [codex_step codex_pump counted_item].
  pose proof (notification_ring now method raw s t Hok Hc) as H.
  destruct (project_notification now method raw s) as [[] s']; exact H.
Qed.

Lemma one_turn_ring t steps l s :
  one_turn t steps l s → codex_ok s → length (seen_tool_items s) + length l ≤ MAX_TRACKED_TOOL_ITEMS →
  NoDup (seen_tool_items s) → NoDup (seen_tool_items s ++ l).
Proof.
  induction 1 as [s Hc|step steps l s Hc Hs IH]; intros Hok Hl Hn; [by rewrite app_nil_r|].
  assert (current_turn (codex_step s step) = Some t) as Hc' by (by inversion Hs).
  assert (codex_ok (codex_step s step)) as Hok' by apply good_codex_step, Hok.
  revert Hl. destruct (step_ring s step t Hok Hc Hc') as [[E ->]|(id & -> & Hid & E)];
    simpl; intros Hl.
  - rewrite E in IH. auto.
  - unfold ring_push in E.
    rewrite (proj2 (Nat.leb_gt _ _)) in E by lia. rewrite E in IH.
    rewrite <- app_assoc in IH. apply IH; [done | rewrite length_app; cbn; lia |].
    apply NoDup_app. split_and!; [done | by intros x Hx ->%list_elem_of_singleton | apply NoDup_singleton].
Qed.

(** Within one turn, and as long as no more than 4096 tool items are counted,
    every tool item is counted at most once, however often its start and its
    completion are repeated. *)
Theorem tool_items_counted_once before t steps l :
  let s := codex_run before codex_new in
  one_turn t steps l s → seen_tool_items s = [] → length l ≤ MAX_TRACKED_TOOL_ITEMS → NoDup l.
Proof.
  intros s H Hs Hl.
  pose proof (one_turn_ring t steps l s H (codex_run_ok _ _ codex_new_ok)) as G.
  rewrite Hs in G. apply G; [exact Hl | apply NoDup_nil_2].
Qed.

Definition demo_tool (method id : string) : CodexStep :=
  demo_frame method
    [("item", VObject [("command", VString "ls"); ("id", VString id);
                       ("type", VString "commandExecution")]);
     ("threadId", VString "thread"); ("turnId", VString "t1")].

Lemma tool_items_counted_once_witness :
  one_turn "t1"
    [demo_tool "item/started" "a"; demo_tool "item/completed" "a"; demo_tool "item/completed" "b"]
    ["a"; "b"] (codex_run demo_thread codex_new)
  ∧ NoDup ["a"; "b"].
Proof.
  assert (one_turn "t1"
    [demo_tool "item/started" "a"; demo_tool "item/completed" "a"; demo_tool "item/completed" "b"]
    ["a"; "b"] (codex_run demo_thread codex_new)) as H.
  { apply (one_turn_intro _ _ _ (Some "a") ["b"]); [by vm_compute.. |].
    apply (one_turn_intro _ _ _ None ["b"]); [by vm_compute.. |].
    apply (one_turn_intro _ _ _ (Some "b") []); [by vm_compute.. |].
    apply one_turn_nil. by vm_compute. }
  split; [exact H|].
  apply (tool_items_counted_once demo_thread "t1" _ _ H); [by vm_compute | vm_compute; lia].
Defined.

(** ** Posture *)

Definition contradicts_posture (method : string) (params : Value) (s : CodexShared) : option string :=
  match admitted_posture s, session_id s, pointer2 params "threadSettings" "sandboxPolicy" with
  | Some mode, Some thread, Some sandbox =>
      if (method ≟ "thread/settings/updated") && is_str (get_str params "threadId") thread
         && negb (sandbox_confirmed sandbox mode)
      then Some (default "unknown" (get_str sandbox "type")) else None
  | _, _, _ => None
  end.

Lemma owner_emit e s : owner (cx_publisher (emit_inbound e s)) = owner (cx_publisher s).
Proof.
  cbn. unfold emit_driver. destruct (owner (cx_publisher s)) eqn:E; destruct (is_exit_boundary e); by cbn.
Qed.

Lemma owner_lifecycle m s : owner (cx_publisher (emit_lifecycle m s)) = owner (cx_publisher s).
Proof. unfold emit_lifecycle. by rewrite owner_emit. Qed.

Lemma owner_tool_item params event_id s :
  owner (cx_publisher (project_tool_item params event_id s).2) = owner (cx_publisher s).
Proof.
  unfold project_tool_item. repeat case_match; try done. apply (owner_emit _ (set_seen _ s)).
Qed.

Lemma contradicts_other method params s :
  (method ≟ "thread/settings/updated") = false → contradicts_posture method params s = None.
Proof. intros H. unfold contradicts_posture. rewrite H. by repeat case_match. Qed.

Lemma owner_other now method raw s :
  (method ≟ "thread/settings/updated") = false →
  owner (cx_publisher (project_notification now method raw s).2) = owner (cx_publisher s).
Proof.
  intros M. unfold project_notification. destruct (thread_admits _ _ s); [|done]. cbn [negb].
  change (cx_publisher s) with (cx_publisher (bump s)). generalize (bump s). clear s. intros s.
  rewrite M. case_match.
  { unfold project_turn_started. repeat case_match; try done. cbn [snd].
    rewrite owner_lifecycle. apply (owner_emit _ (open_turn _ s)). }
  case_match; [apply owner_tool_item|].
  case_match.
  { unfold project_delta. repeat case_match; try done. apply (owner_emit _ (set_items _ s)). }
  case_match.
  { unfold project_item_completed. repeat case_match; try done; try apply owner_tool_item.
    - apply (owner_emit _ (set_last_item _ (set_items _ s))).
    - apply (owner_emit _ (set_last_item _ s)). }
  case_match.
  { unfold project_turn_completed, close_turn. repeat case_match; try done; cbn [snd].
    - rewrite owner_lifecycle. apply (owner_emit _ s).
    - rewrite owner_lifecycle. apply (owner_emit _ (record_turn_failure _ s)). }
  by repeat case_match.
Qed.

Lemma posture_frame now raw s :
  let method := "thread/settings/updated" in
  let '(again, s') := project_notification now method raw s in
  match contradicts_posture method (get_or_null raw "params") s with
  | Some observed =>
      again = false
      ∧ owner (cx_publisher s') =
          match owner (cx_publisher s) with
          | OwnerTerminal t => OwnerTerminal t
          | _ => OwnerTerminal (TFailedRuntimeLost (PostureViolation observed))
          end
  | None => owner (cx_publisher s') = owner (cx_publisher s)
  end.
Proof.
  cbv zeta. set (params := get_or_null raw "params").
  change (project_notification _ _ _ _)
    with (if negb (thread_admits "thread/settings/updated" params s) then (true, s)
          else project_settings params (bump s)).
  unfold contradicts_posture, thread_admits, project_settings.
  change (is_turn_scoped _) with false. cbv iota.
  change (admitted_posture (bump s)) with (admitted_posture s).
  change (session_id (bump s)) with (session_id s). change ((?a ≟ ?a) && ?b) with b.
  destruct (admitted_posture s) as [mode|], (session_id s) as [thread|];
    [|done|destruct (get_str params "threadId") as [a|]; [by destruct (thread ≟ a)|done]|done].
  destruct (get_str params "threadId") as [actual|] eqn:T; [|by destruct (pointer2 _ _ _)].
  unfold is_str. destruct (thread ≟ actual) eqn:E.
  - apply String.eqb_eq in E as ->. rewrite bool_decide_eq_true_2 by done.
    destruct (pointer2 _ _ _) as [sandbox|]; [|done].
    destruct (sandbox_confirmed sandbox mode); [done|]. cbn.
    unfold publish_terminal. by destruct (owner (cx_publisher s)) eqn:O; cbn; rewrite ?O.
  - apply String.eqb_neq in E. rewrite bool_decide_eq_false_2 by congruence.
    by destruct (pointer2 _ _ _).
Qed.

(** A notification ends the runtime exactly when it is a settings frame of
    the runtime's own thread whose sandbox does not confirm the admitted posture;
    it then publishes a posture violation, unless a terminal stands already, and
    is consumed.  No other notification moves the owner's state. *)
Theorem only_posture_violation_ends now method raw s :
  let params := get_or_null raw "params" in
  let '(again, s') := project_notification now method raw s in
  match contradicts_posture method params s with
  | Some observed =>
      again = false
      ∧ owner (cx_publisher s') =
          match owner (cx_publisher s) with
          | OwnerTerminal t => OwnerTerminal t
          | _ => OwnerTerminal (TFailedRuntimeLost (PostureViolation observed))
          end
  | None => owner (cx_publisher s') = owner (cx_publisher s)
  end.
Proof.
  cbv zeta. set (params := get_or_null raw "params").
  destruct (method ≟ "thread/settings/updated") eqn:M.
  - apply String.eqb_eq in M as ->. apply posture_frame.
  - rewrite contradicts_other by done.
    pose proof (owner_other now method raw s M) as H.
    by destruct (project_notification now method raw s).
Qed.

(** ** Adoption of a thread *)

(** What a result must echo. *)
Definition echoes (v : Value) (model workspace_path : string) (mode : CodexPermissionMode) : Prop :=
  pointer2 v "thread" "ephemeral" = Some (VBool false)
  ∧ get_str v "model" = Some model
  ∧ thread_result_field v "approvalPolicy" = Some (VString "never")
  ∧ (∃ sandbox, thread_result_field v "sandbox" = Some sandbox ∧ sandbox_confirmed sandbox mode = true)
  ∧ (∃ cwd, thread_result_field v "cwd" = Some (VString cwd) ∧ path_eq cwd workspace_path = true).

Lemma as_bool_some o b : o ≫= as_bool = Some b ↔ o = Some (VBool b).
Proof. destruct o as [[]|]; naive_solver. Qed.

Lemma as_str_some o s : o ≫= as_str = Some s ↔ o = Some (VString s).
Proof. destruct o as [[]|]; naive_solver. Qed.

Lemma ensure_ok b m : ensure b m = Ok tt ↔ b = true.
Proof. by destruct b. Qed.

(** A guard followed by the rest. *)
Lemma bind_unit_ok {B} (r : result RuntimeCommandError unit) (k : result RuntimeCommandError B) b :
  (_ ← r; k) = Ok b ↔ r = Ok tt ∧ k = Ok b.
Proof. destruct r as [[]|]; cbn; naive_solver. Qed.

Lemma is_str_true o s : is_str o s = true ↔ o = Some s.
Proof. unfold is_str. apply bool_decide_eq_true. Qed.

Lemma model_ok requested observed :
  validate_thread_model requested observed = Ok tt ↔ observed ≫= as_str = Some requested.
Proof.
  unfold validate_thread_model. destruct (observed ≫= as_str) as [o|]; [|done].
  rewrite ensure_ok, String.eqb_eq. naive_solver.
Qed.

Lemma sandbox_field_ok v mode :
  sandbox_field_confirmed v mode = true
  ↔ ∃ sandbox, thread_result_field v "sandbox" = Some sandbox ∧ sandbox_confirmed sandbox mode = true.
Proof. unfold sandbox_field_confirmed. destruct (thread_result_field v "sandbox"); naive_solver. Qed.

Lemma cwd_ok v w :
  cwd_matches v w = true
  ↔ ∃ cwd, thread_result_field v "cwd" = Some (VString cwd) ∧ path_eq cwd w = true.
Proof. unfold cwd_matches. destruct (thread_result_field v "cwd") as [[]|]; naive_solver. Qed.

Lemma keep_if_some {A} (P : A → bool) o x : keep_if P o = Some x ↔ o = Some x ∧ P x = true.
Proof.
  unfold keep_if. destruct o as [a|]; [cbn|by split; [|intros []]].
  destruct (P a) eqn:E; split; [by intros [= <-] | by intros [[= <-] _] | done |].
  intros [[= <-] ?]. congruence.
Qed.

Lemma ex_some {A} (r : A) (P : A → Prop) : (∃ r', Some r = Some r' ∧ P r') ↔ P r.
Proof. split; [by intros (? & [= <-] & ?) | eauto]. Qed.

Lemma and_regroup (P Q R : Prop) : P ∧ Q ∧ R ↔ (P ∧ Q) ∧ R.
Proof. tauto. Qed.

Lemma effort_ok requested v :
  confirm_resumed_thread_effort requested v = Ok tt
  ↔ ∀ effort echo, requested = Some effort → thread_result_field v "reasoningEffort" = Some echo →
      echo = VString effort.
Proof.
  unfold confirm_resumed_thread_effort.
  destruct requested as [effort|], (thread_result_field v "reasoningEffort") as [echo|]; try naive_solver.
  rewrite ensure_ok, is_str_true. destruct echo; naive_solver.
Qed.

(** A started thread is adopted, under the identity the result names, exactly
    when that identity is bounded and every echo confirms the request: persistent,
    the admitted model, no approvals, the posture's sandbox and the task's
    directory; a resumed thread exactly when it is the stored one, with the same
    echoes and no other effort than the admitted one.  Anything else is refused. *)
Theorem adopted_threads_exact v model workspace_path mode :
  (∀ id, start_thread v model workspace_path mode = Ok id ↔
     ∃ r, v = Some r ∧ pointer2 r "thread" "id" = Some (VString id) ∧ bounded_512 id = true
          ∧ echoes r model workspace_path mode)
  ∧ (∀ id effort, resume_thread v id model workspace_path mode effort = Ok tt ↔
     ∃ r, v = Some r ∧ pointer2 r "thread" "id" = Some (VString id) ∧ echoes r model workspace_path mode
          ∧ ∀ e echo, effort = Some e → thread_result_field r "reasoningEffort" = Some echo →
              echo = VString e).
Proof.
  split.
  - intros id. unfold start_thread. destruct v as [r|]; [|by split; [|intros (? & ? & _)]].
    rewrite ex_some, and_regroup.
    rewrite <- as_str_some, <- keep_if_some.
    unfold start_result_thread_id, echoes. destruct (keep_if _ _) as [t|]; [|by split; [|intros []]].
    rewrite !bind_unit_ok, !ensure_ok, model_ok, is_str_true, bool_decide_eq_true, as_bool_some,
      sandbox_field_ok, cwd_ok. unfold get_str. rewrite !as_str_some. split.
    + intros (? & ? & ? & ? & ? & [= ->]). by split_and!.
    + intros ([= ->] & ? & ? & ? & ? & ?). by split_and!.
  - intros id e. unfold resume_thread. destruct v as [r|]; [|by split; [|intros (? & ? & _)]].
    rewrite ex_some. unfold validate_resume_result, echoes.
    rewrite !bind_unit_ok, !ensure_ok, model_ok, !is_str_true, bool_decide_eq_true, as_bool_some,
      sandbox_field_ok, cwd_ok, effort_ok. unfold get_str. rewrite !as_str_some. tauto.
Qed.

(** ** The table of message texts *)

(** A full table that lacks a message. *)
Definition full_without (id : string) (m : gmap string string) : Prop :=
  MAX_TRACKED_ITEMS ≤ size m ∧ m !! id = None.

Definition items_step (m m' : gmap string string) : Prop :=
  m' = m ∨ ∃ k text, m' = observe_item_text m k text ∨ m' = record_completed_item m k text.

Lemma full_insert id m k x : is_Some (m !! k) → full_without id m → full_without id (<[k := x]> m).
Proof.
  intros [y Hk] [Hs Hn]. split.
  - by rewrite map_size_insert_Some by eauto.
  - rewrite lookup_insert_ne; [done | congruence].
Qed.

Lemma full_step id m m' : items_step m m' → full_without id m → full_without id m'.
Proof.
  intros [-> | (k & text & [-> | ->])] H; [done | |].
  - unfold observe_item_text. destruct (m !! k) as [y|] eqn:K.
    + rewrite bool_decide_eq_false_2 by done. cbn [andb].
      case_match; apply full_insert; eauto.
    + rewrite bool_decide_eq_true_2, (proj2 (Nat.leb_le _ _) (proj1 H)) by done. done.
  - unfold record_completed_item. destruct (m !! k) as [y|] eqn:K.
    + rewrite bool_decide_eq_true_2 by done. apply full_insert; eauto.
    + rewrite bool_decide_eq_false_2 by (by intros []).
      rewrite (proj2 (Nat.ltb_ge _ _) (proj1 H)). done.
Qed.

Lemma items_tool_item params event_id s : items (project_tool_item params event_id s).2 = items s.
Proof. unfold project_tool_item. by repeat case_match. Qed.

Lemma items_notification now method raw s :
  items_step (items s) (items (project_notification now method raw s).2).
Proof.
  unfold project_notification. destruct (thread_admits _ _ s); [|by left]. cbn [negb].
  change (items s) with (items (bump s)). generalize (bump s). clear s. intros s.
  case_match; [left; unfold project_turn_started; by repeat case_match|].
  case_match; [left; apply items_tool_item|].
  case_match.
  { unfold project_delta. repeat case_match; try by left. right. eauto. }
  case_match.
  { unfold project_item_completed.
    destruct (completed_agent_message _) as [[id [text|]]|]; [| |left; apply items_tool_item];
      (destruct (attributable_turn _ s); [|by left]); [right; eauto | by left]. }
  case_match; [left; unfold project_turn_completed; by repeat case_match|].
  left. repeat case_match; try done. unfold project_settings. by repeat case_match.
Qed.

Lemma items_codex_step s step : items_step (items s) (items (codex_step s step)).
Proof.
  destruct step as [now g event| | | | | | | | |]; try by left.
  destruct event as [[| | |method raw]| | | | |]; try by left. cbn [codex_step codex_pump].
  pose proof (items_notification now method raw s) as H.
  by destruct (project_notification now method raw s) as [[] s'].
Qed.

(** The table of message texts is never emptied: once 128 messages of a
    thread are in it, the text of a message that is not among them is never kept,
    in that turn or a later one, and a turn that ends with such a message reports
    the first agent message its completion frame carries, or nothing. *)
Theorem full_table_loses_response steps s id turn :
  MAX_TRACKED_ITEMS ≤ size (items s) → items s !! id = None →
  let s' := codex_run steps s in
  last_message_item s' = Some id → final_text turn (tracked_text s') = final_text turn None.
Proof.
  intros Hs Hn s' Hl. unfold tracked_text. rewrite Hl. cbn [mbind option_bind].
  assert (full_without id (items s')) as [_ ->]; [|done].
  subst s'. clear Hl. assert (full_without id (items s)) as H by done. clear Hs Hn. revert s H.
  induction steps as [|step steps IH]; intros s H; [done|].
  apply IH. eapply full_step; [apply items_codex_step | done].
Qed.

Definition demo_message (id text : string) : CodexStep :=
  demo_frame "item/completed"
    [("item", VObject [("id", VString id); ("text", VString text); ("type", VString "agentMessage")]);
     ("threadId", VString "thread"); ("turnId", VString "t1")].

Definition demo_full : list CodexStep :=
  demo_thread ++ map (λ n, demo_message (pretty n) "working") (List.seq 0 128).

Lemma full_table_loses_response_witness :
  let s := codex_run demo_full codex_new in
  let s' := codex_run [demo_message "final" "the answer"] s in
  let turn := VObject [("items", VArray [VObject [("text", VString "first"); ("type", VString "agentMessage")]])] in
  last_message_item s' = Some "final" ∧ final_text turn (tracked_text s') = final_text turn None
  ∧ final_text turn None = Some "first".
Proof.
  intros s s' turn. assert (last_message_item s' = Some "final") as H by (by vm_compute).
  split; [exact H | split; [|by vm_compute]].
  apply (full_table_loses_response [demo_message "final" "the answer"] s "final" turn);
    [vm_compute; lia | by vm_compute | exact H].
Defined.
