(* ===== verification/RuntimeLifecycle.v ===== *)
(** * The admission latch of a runtime and its projected records

    [crates/external-daemon/src/scheduler/state.rs]: the phases of a runtime's
    control, which decide whether its events and messages are still admitted; and
    [crates/external-daemon/src/projection.rs]: what of a runtime event is written
    to the store.

    Each operation holds the latch, so a history is a sequence of operations.  The
    time of a stop request is an argument. *)

From S2P Require Import Prelude RustStr Json Contract Projection RuntimeEvents.

(** ** The latch *)

Inductive RuntimeLifecyclePhase :=
| LRunning | StopRequested | StopAcknowledged | ForceTerminating | LTerminal.

#[global] Instance RuntimeLifecyclePhase_eq_dec : EqDecision RuntimeLifecyclePhase.
Proof. solve_decision. Defined.

Record RuntimeLifecycle := mk_lifecycle {
  lc_phase : RuntimeLifecyclePhase; runtime_generation : Z; lc_turn_generation : Z;
  stop_requested_at : option Z; observed_boundary : option TurnBoundary;
  force_termination_count : Z; late_event_count : Z; read_error_reported : bool }.

Definition MAX_BOUNDED_LATE_EVENT_DIAGNOSTICS : Z := 64.

Definition lifecycle_new (generation : Z) : RuntimeLifecycle :=
  mk_lifecycle LRunning generation 0 None None 0 0 false.

Definition set_lc_phase (p : RuntimeLifecyclePhase) (s : RuntimeLifecycle) : RuntimeLifecycle :=
  mk_lifecycle p (runtime_generation s) (lc_turn_generation s) (stop_requested_at s)
    (observed_boundary s) (force_termination_count s) (late_event_count s) (read_error_reported s).

Definition note_decision_read_error (s : RuntimeLifecycle) : bool * RuntimeLifecycle :=
  (negb (read_error_reported s),
   mk_lifecycle (lc_phase s) (runtime_generation s) (lc_turn_generation s) (stop_requested_at s)
     (observed_boundary s) (force_termination_count s) (late_event_count s) true).

Definition request_stop_latch (now : Z) (turn : TurnSnapshot) (s : RuntimeLifecycle)
    : RuntimeLifecycle :=
  if decide (lc_phase s = LRunning) then
    mk_lifecycle StopRequested (runtime_generation s) (turn_generation turn) (Some now)
      (observed_boundary s) (force_termination_count s) (late_event_count s) (read_error_reported s)
  else s.

Definition acknowledge_boundary (turn : TurnSnapshot) (s : RuntimeLifecycle)
    : bool * RuntimeLifecycle :=
  if bool_decide (lc_phase s = StopRequested ∨ lc_phase s = StopAcknowledged)
     && Z.eqb (turn_generation turn) (lc_turn_generation s) && negb (turn_active turn)
     && bool_decide (is_Some (turn_boundary turn))
  then (true, mk_lifecycle StopAcknowledged (runtime_generation s) (lc_turn_generation s)
                (stop_requested_at s) (turn_boundary turn) (force_termination_count s)
                (late_event_count s) (read_error_reported s))
  else (false, s).

Definition force_terminating (s : RuntimeLifecycle) : RuntimeLifecycle :=
  if bool_decide (lc_phase s = ForceTerminating ∨ lc_phase s = LTerminal) then s
  else mk_lifecycle ForceTerminating (runtime_generation s) (lc_turn_generation s)
         (stop_requested_at s) (observed_boundary s) (saturating_add (force_termination_count s) 1)
         (late_event_count s) (read_error_reported s).

Definition terminalize : RuntimeLifecycle → RuntimeLifecycle := set_lc_phase LTerminal.

(** The release build's; [debug_assert!] checks a positive generation. *)
Definition ingress_reason (s : RuntimeLifecycle) : option string :=
  match lc_phase s with
  | LRunning => None
  | StopRequested | StopAcknowledged | ForceTerminating => Some "TASK_STOPPING"
  | LTerminal => Some "LATE_AFTER_STOP"
  end.

Definition is_admitting (s : RuntimeLifecycle) : bool := bool_decide (lc_phase s = LRunning).

Definition admit_event (s : RuntimeLifecycle) : bool * RuntimeLifecycle :=
  if is_admitting s then (true, s)
  else (false, mk_lifecycle (lc_phase s) (runtime_generation s) (lc_turn_generation s)
                 (stop_requested_at s) (observed_boundary s) (force_termination_count s)
                 (Z.min (saturating_add (late_event_count s) 1) MAX_BOUNDED_LATE_EVENT_DIAGNOSTICS)
                 (read_error_reported s)).

(** [Scheduler::request_cooperative_stop]: [current] is the turn it finds and
    [stopped] what the runtime's [stop_turn] returns, an error as its text. *)
Definition request_cooperative_stop (now : Z) (current : TurnSnapshot)
    (stopped : result string TurnSnapshot) (s : RuntimeLifecycle) : option string * RuntimeLifecycle :=
  let s := request_stop_latch now current s in
  let '(acknowledged, s) := acknowledge_boundary current s in
  if acknowledged then (None, s)
  else if turn_active current then
    match stopped with
    | Ok boundary =>
        let '(acknowledged, s) := acknowledge_boundary boundary s in
        if acknowledged then (None, s)
        else (Some "session/stop returned without a matching turn boundary", force_terminating s)
    | Err error => (Some error, force_terminating s)
    end
  else (Some "active turn had no matching stop boundary", force_terminating s).

(** ** Records ([projection.rs]) *)

Record LifecycleProjection := mk_lifecycle_projection {
  proj_event_type : string; proj_payload : Value; proj_redaction : string }.

Definition lifecycle_order_name (o : LifecycleOrder) : string :=
  match o with
  | NotLifecycle => "not_lifecycle" | InOrder => "in_order" | OutOfOrder _ => "out_of_order"
  end.

Definition child_exit_name (e : ChildExit) : string :=
  match e with
  | Exited (Some 0%Z) => "exited_success"
  | Exited (Some _) => "exited_failure"
  | Exited None => "exited_unknown"
  | Signaled _ => "signaled"
  | ExitUnknown => "unknown"
  end.

Definition stop_outcome_name (o : StopOutcome) : string :=
  match o with AlreadyExited _ => "already_exited" | Terminated _ => "terminated" end.

Definition runtime_loss_name (l : RuntimeLoss) : string :=
  match l with
  | InvalidIdentity => "invalid_identity"
  | UnsupportedIdentity => "unsupported_identity"
  | MissingLeader => "missing_leader"
  | IdentityMismatch => "identity_mismatch"
  | UnknownMembership => "unknown_membership"
  | SessionLost => "session_lost"
  | StopFailed _ => "stop_failed"
  | EventStreamLost => "event_stream_lost"
  | PostureViolation _ => "posture_violation"
  end.

Definition runtime_loss_redaction (l : RuntimeLoss) : string :=
  match l with StopFailed _ => "redacted" | _ => "allowlisted" end.

Definition json_opt_str (o : option string) : Value :=
  match o with Some s => VString s | None => VNull end.

Definition outcome_payload (kind outcome : string) : Value :=
  VObject [("kind", VString kind); ("outcome", VString outcome)].

Definition lifecycle_projection (e : RuntimeEvent) (pending_request_id : option string)
    : LifecycleProjection :=
  match e with
  | Driver (Message (Request r)) =>
      mk_lifecycle_projection "driver.message"
        (VObject [("kind", VString "request"); ("method", VString (req_method r));
                  ("request_id", json_opt_str pending_request_id)]) "redacted"
  | Driver (Message (Response r)) =>
      mk_lifecycle_projection "driver.message"
        (outcome_payload "response" (match resp_error r with Some _ => "error" | None => "result" end))
        "redacted"
  | Driver (Message (Event m)) =>
      mk_lifecycle_projection "driver.message"
        (VObject [("kind", VString "event"); ("method", VString (event_method m));
                  ("type", json_opt_str (event_type m))]) "redacted"
  | Driver (Message (UnknownEvent _ _)) =>
      mk_lifecycle_projection "raw.unknown"
        (VObject [("kind", VString "unknown_event"); ("raw", VString "[REDACTED]")]) "redacted"
  | Driver (Lifecycle sequence method order) =>
      mk_lifecycle_projection "driver.lifecycle"
        (VObject [("kind", VString "lifecycle"); ("method", VString method);
                  ("order", VString (lifecycle_order_name order));
                  ("sequence", VNumber (PosInt sequence))]) "allowlisted"
  | Driver (Malformed _) =>
      mk_lifecycle_projection "driver.malformed"
        (VObject [("detail", VString "[REDACTED]"); ("kind", VString "malformed")]) "redacted"
  | Driver (OversizedLine bytes) =>
      mk_lifecycle_projection "driver.oversized_line"
        (VObject [("bytes", VNumber (PosInt bytes)); ("kind", VString "oversized_line")]) "allowlisted"
  | Driver (ChildExited exit) =>
      mk_lifecycle_projection "driver.child_exited"
        (outcome_payload "child_exited" (child_exit_name exit)) "allowlisted"
  | Driver (UnmatchedResponse _ outcome) =>
      mk_lifecycle_projection "driver.unmatched_response"
        (outcome_payload "unmatched_response" outcome) "redacted"
  | EventTerminal (TStopped o) =>
      mk_lifecycle_projection "runtime.stopped"
        (outcome_payload "stopped" (stop_outcome_name o)) "allowlisted"
  | EventTerminal (TCompleted o) =>
      mk_lifecycle_projection "runtime.completed"
        (outcome_payload "completed" (stop_outcome_name o)) "allowlisted"
  | EventTerminal (TFailedTurn o) =>
      mk_lifecycle_projection "runtime.turn_failed"
        (outcome_payload "turn_failed" (stop_outcome_name o)) "allowlisted"
  | EventTerminal (TExited exit) =>
      mk_lifecycle_projection "runtime.exited"
        (outcome_payload "exited" (child_exit_name exit)) "allowlisted"
  | EventTerminal (TFailedRuntimeLost l) =>
      mk_lifecycle_projection "runtime.failed_runtime_lost"
        (VObject [("kind", VString "failed_runtime_lost"); ("reason", VString (runtime_loss_name l))])
        (runtime_loss_redaction l)
  | EventTerminal (TOrphaned l) =>
      mk_lifecycle_projection "runtime.orphaned"
        (VObject [("kind", VString "orphaned"); ("reason", VString (runtime_loss_name l))])
        (runtime_loss_redaction l)
  end.

(** ** Properties *)

(** The operations that move the latch. *)
Inductive LatchOp :=
| OpRequestStop (now : Z) (turn : TurnSnapshot)
| OpAcknowledge (turn : TurnSnapshot)
| OpForce
| OpTerminalize
| OpAdmit
| OpNoteReadError.

Definition latch_step (s : RuntimeLifecycle) (op : LatchOp) : RuntimeLifecycle :=
  match op with
  | OpRequestStop now turn => request_stop_latch now turn s
  | OpAcknowledge turn => (acknowledge_boundary turn s).2
  | OpForce => force_terminating s
  | OpTerminalize => terminalize s
  | OpAdmit => (admit_event s).2
  | OpNoteReadError => (note_decision_read_error s).2
  end.

Definition latch_run (ops : list LatchOp) (s : RuntimeLifecycle) : RuntimeLifecycle :=
  fold_left latch_step ops s.

Definition phase_rank (p : RuntimeLifecyclePhase) : nat :=
  match p with
  | LRunning => 0 | StopRequested => 1 | StopAcknowledged => 2 | ForceTerminating => 3 | LTerminal => 4
  end.

Record latch_ok (s : RuntimeLifecycle) : Prop := {
  latch_late : (0 ≤ late_event_count s ≤ MAX_BOUNDED_LATE_EVENT_DIAGNOSTICS)%Z;
  latch_force : (0 ≤ force_termination_count s ≤ 1)%Z;
  latch_unforced : phase_rank (lc_phase s) < 3 → force_termination_count s = 0%Z;
  latch_boundary : lc_phase s = StopAcknowledged → is_Some (observed_boundary s);
  latch_time : 1 ≤ phase_rank (lc_phase s) ≤ 2 → is_Some (stop_requested_at s) }.

Lemma latch_new_ok g : latch_ok (lifecycle_new g).
Proof. split; cbn; unfold MAX_BOUNDED_LATE_EVENT_DIAGNOSTICS; try lia; done. Qed.

Lemma latch_step_ok s op :
  latch_ok s → latch_ok (latch_step s op) ∧ phase_rank (lc_phase s) ≤ phase_rank (lc_phase (latch_step s op)).
Proof.
  intros [Hl Hf Hu Hb Ht].
  destruct op; cbn [latch_step].
  - unfold request_stop_latch. destruct (decide _) as [E|]; [|split; [by split | done]].
    rewrite E in Hu. split; [split; cbn; [done | done | intros; apply Hu; cbn; lia | done | eauto]|].
    rewrite E. cbn. lia.
  - unfold acknowledge_boundary. destruct (_ && _) eqn:E; [|split; [by split | done]]. cbn [snd].
    apply andb_true_iff in E as [E Eb]. apply bool_decide_eq_true in Eb.
    apply andb_true_iff in E as [E _]. apply andb_true_iff in E as [E _]. apply bool_decide_eq_true in E.
    assert (1 ≤ phase_rank (lc_phase s) ≤ 2) as Hr by (destruct E as [-> | ->]; cbn; lia).
    split; [split; cbn; [done | done | intros; apply Hu; lia | done | auto]|]. cbn. lia.
  - unfold force_terminating. case_bool_decide as E; [split; [by split | done]|].
    assert (phase_rank (lc_phase s) < 3) as Hr by (destruct (lc_phase s); cbn; try lia; tauto).
    split; [|cbn; lia].
    split; cbn; [done | rewrite (Hu Hr); vm_compute; intuition congruence | lia | done | lia].
  - split; [split; cbn; [done | done | lia | done | lia] | cbn]. destruct (lc_phase s); cbn; lia.
  - unfold admit_event. destruct (is_admitting s); [split; [by split | done]|]. cbn [snd]. split; [|done].
    split; cbn; [|done..]. unfold saturating_add, MAX_BOUNDED_LATE_EVENT_DIAGNOSTICS, u64_max in *. lia.
  - split; [by split | done].
Qed.

Lemma latch_run_ok ops s :
  latch_ok s → latch_ok (latch_run ops s) ∧ phase_rank (lc_phase s) ≤ phase_rank (lc_phase (latch_run ops s)).
Proof.
  revert s. induction ops as [|op ops IH]; intros s H; [done|]. cbn [latch_run fold_left].
  destruct (latch_step_ok s op H) as [H' Hr]. destruct (IH _ H') as [? ?].
  split; [done|]. unfold latch_run in *. lia.
Qed.

(** The latch of a runtime only moves forward: from running through the stop
    phases to terminal.  An acknowledged stop has the boundary it saw, a runtime is
    forced at most once, at most 64 late events are counted, and once ingress has
    closed no sequence of operations opens it again. *)
Theorem latch_moves_forward generation before after :
  let s := latch_run before (lifecycle_new generation) in
  let s' := latch_run after s in
  latch_ok s ∧ phase_rank (lc_phase s) ≤ phase_rank (lc_phase s')
  ∧ (ingress_reason s' = None → ingress_reason s = None).
Proof.
  intros s s'. destruct (latch_run_ok before _ (latch_new_ok generation)) as [Hs _]. fold s in Hs.
  destruct (latch_run_ok after s Hs) as [_ Hr]. fold s' in Hr. split_and!; [done | done |].
  unfold ingress_reason. destruct (lc_phase s'), (lc_phase s); cbn in Hr; try lia; done.
Qed.

(** A cooperative stop always leaves the latch closed, and without an error only
    when a boundary of the stopped turn was seen. *)
Theorem cooperative_stop_closes_ingress now current stopped s :
  let r := request_cooperative_stop now current stopped s in
  is_admitting r.2 = false
  ∧ (r.1 = None → lc_phase r.2 = StopAcknowledged
       ∧ ∃ turn, (turn = current ∨ stopped = Ok turn) ∧ turn_active turn = false
                 ∧ turn_generation turn = lc_turn_generation r.2
                 ∧ observed_boundary r.2 = turn_boundary turn ∧ is_Some (turn_boundary turn)).
Proof.
  cbv zeta. unfold request_cooperative_stop.
  assert (∀ turn s', acknowledge_boundary turn s' = (false, s')
     ∨ (acknowledge_boundary turn s').1 = true
       ∧ lc_phase (acknowledge_boundary turn s').2 = StopAcknowledged
       ∧ turn_active turn = false
       ∧ turn_generation turn = lc_turn_generation (acknowledge_boundary turn s').2
       ∧ observed_boundary (acknowledge_boundary turn s').2 = turn_boundary turn
       ∧ is_Some (turn_boundary turn)) as Hack.
  { intros turn s'. unfold acknowledge_boundary. destruct (_ && _) eqn:E; [right|by left].
    apply andb_true_iff in E as [E Eb]. apply bool_decide_eq_true in Eb.
    apply andb_true_iff in E as [E Ea]. apply andb_true_iff in E as [_ Eg].
    apply Z.eqb_eq in Eg. apply negb_true_iff in Ea. done. }
  assert (∀ s', is_admitting (force_terminating s') = false) as Hforce.
  { intros s'. unfold force_terminating. case_bool_decide as E; [|done].
    unfold is_admitting. apply bool_decide_eq_false_2. destruct E as [-> | ->]; done. }
  set (s1 := request_stop_latch now current s).
  destruct (Hack current s1) as [-> | (H1 & H2 & H3)].
  - destruct (turn_active current); [|split; [apply Hforce | done]].
    destruct stopped as [boundary|]; [|split; [apply Hforce | done]].
    destruct (Hack boundary s1) as [-> | (H1 & H2 & H3)]; [split; [apply Hforce | done]|].
    destruct (acknowledge_boundary boundary s1) as [b s2]. cbn in H1, H2, H3. rewrite H1. cbn [fst snd].
    unfold is_admitting. rewrite H2, bool_decide_eq_false_2 by done. eauto 10.
  - destruct (acknowledge_boundary current s1) as [b s2]. cbn in H1, H2, H3. rewrite H1. cbn [fst snd].
    unfold is_admitting. rewrite H2, bool_decide_eq_false_2 by done. eauto 10.
Qed.

(** What a record may depend on: the rest of an event, erased. *)
Definition erase_loss (l : RuntimeLoss) : RuntimeLoss :=
  match l with StopFailed _ => StopFailed "" | PostureViolation _ => PostureViolation "" | l => l end.

Definition erase (e : RuntimeEvent) : RuntimeEvent :=
  match e with
  | Driver (Message (Request r)) => Driver (Message (Request (mk_request (Integer 0) (req_method r) VNull)))
  | Driver (Message (Response r)) =>
      Driver (Message (Response (mk_response (Integer 0) None (option_map (λ _, VNull) (resp_error r)))))
  | Driver (Message (Event m)) =>
      Driver (Message (Event (mk_event_envelope (event_method m)
        (VObject (match event_type m with Some t => [("type", VString t)] | None => [] end)))))
  | Driver (Message (UnknownEvent _ _)) => Driver (Message (UnknownEvent "" VNull))
  | Driver (Malformed _) => Driver (Malformed "")
  | Driver (UnmatchedResponse _ outcome) => Driver (UnmatchedResponse (Integer 0) outcome)
  | EventTerminal (TFailedRuntimeLost l) => EventTerminal (TFailedRuntimeLost (erase_loss l))
  | EventTerminal (TOrphaned l) => EventTerminal (TOrphaned (erase_loss l))
  | e => e
  end.

Lemma event_type_erased m :
  event_type (mk_event_envelope (event_method m)
    (VObject (match event_type m with Some t => [("type", VString t)] | None => [] end))) = event_type m.
Proof.
  unfold event_type. cbn [event_method event_params].
  destruct (event_method m ≟ SESSION_EVENT); [|done]. by destruct (get_str (event_params m) "type").
Qed.

(** What the daemon records of an event does not depend on request parameters
    and identities, results and errors of responses, event payloads, raw or
    malformed frames, the text of a failed stop or an observed sandbox: two events
    that differ in nothing else are recorded alike. *)
Theorem records_are_redacted e e' pending :
  erase e = erase e' → lifecycle_projection e pending = lifecycle_projection e' pending.
Proof.
  assert (∀ e, lifecycle_projection (erase e) pending = lifecycle_projection e pending) as H.
  { clear. intros [[[]| | | | |]|[]]; cbn [erase lifecycle_projection]; try done.
    - by destruct (resp_error r).
    - cbn [event_method]. by rewrite event_type_erased.
    - by destruct loss.
    - by destruct loss. }
  intros E. by rewrite <- (H e), <- (H e'), E.
Qed.

Lemma records_are_redacted_witness :
  let request secret := Driver (Message (Request (mk_request (Integer 7) "session/send" (VString secret)))) in
  lifecycle_projection (request "token") (Some "r1") = lifecycle_projection (request "other") (Some "r1").
Proof. intros request. by apply (records_are_redacted (request "token") (request "other") (Some "r1")). Defined.
