(* ===== verification/Sink.v ===== *)
(** * The lifecycle sink of a runtime

    [crates/external-daemon/src/lifecycle_sink.rs]: the sink writes each record of
    a runtime to the store, publishes its requests, and stores the result of a
    finished task under the precedence of a cancellation.

    A sink works on its own write state, the admission latch, the activity tracker
    and the database.  Where it gives up the latch (while a request waits for the
    running commit) the other threads act on latch and database: what they did is
    an argument, a function of the two; the end of the list is the retry window
    found passed.  Clock readings, [serde_json::to_string] and the texts of SQLite
    errors are parameters. *)

From stdpp Require Import gmap pretty.
From S2P Require Import Prelude RustStr Utf8 Json Contract Projection Observation RuntimeEvents Activity ActivityTracker General StoreRecords StoreSql StoreOps RuntimeLifecycle.

Record TransportFrameLimit := mk_frame_limit {
  fl_reason : string; fl_bytes : Z; fl_cap : Z; fl_last_event_seq : Z }.

Definition MAX_NDJSON_LINE_BYTES : Z := 16 * 1024 * 1024.
Definition TRANSPORT_FRAME_LIMIT_REASON : string := "RUNTIME_TRANSPORT_FRAME_LIMIT".

Record SinkWriteState := mk_write_state {
  first_error : option string; last_source_sequence : Z; pending_terminal_sequence : option Z;
  terminal_written : bool; transport_failure : option TransportFrameLimit }.

Definition write_state_default : SinkWriteState := mk_write_state None 0 None false None.

Record StoreLifecycleSink := mk_sink {
  sink_agent : string; sink_runtime : string; sink_epoch : Z;
  write_state : SinkWriteState; activity : PassiveActivityTracker }.

Definition sink_new (agent runtime : string) (epoch : Z) (activity : PassiveActivityTracker)
    : StoreLifecycleSink :=
  mk_sink agent runtime epoch write_state_default activity.

(** What a sink shares with the rest of the daemon. *)
Definition Shared : Type := RuntimeLifecycle * Db.

Inductive NaturalCompletionAdmission :=
| Ready | Deferred (pending queued : bool) | Bypass.

Definition set_write (w : SinkWriteState) (s : StoreLifecycleSink) : StoreLifecycleSink :=
  mk_sink (sink_agent s) (sink_runtime s) (sink_epoch s) w (activity s).

Definition latch_error (e : string) (w : SinkWriteState) : SinkWriteState :=
  mk_write_state (Some e) (last_source_sequence w) (pending_terminal_sequence w)
    (terminal_written w) (transport_failure w).

(** The sequence number of a record, then the first oversized frame. *)
Definition note_record (r : LifecycleRecord) (w : SinkWriteState) : SinkWriteState :=
  let last := Z.max (last_source_sequence w) (sequence r) in
  mk_write_state (first_error w) last (pending_terminal_sequence w) (terminal_written w)
    (match event r, transport_failure w with
     | Driver (OversizedLine bytes), None =>
         Some (mk_frame_limit TRANSPORT_FRAME_LIMIT_REASON bytes MAX_NDJSON_LINE_BYTES last)
     | _, found => found
     end).

Definition note_terminal (seq : Z) (w : SinkWriteState) : SinkWriteState :=
  mk_write_state (first_error w) (last_source_sequence w) (Some seq) (terminal_written w)
    (transport_failure w).

Definition note_written (w : SinkWriteState) : SinkWriteState :=
  mk_write_state (first_error w) (last_source_sequence w) (pending_terminal_sequence w) true
    (transport_failure w).

(** The kind of a published request; [None] for a request that is only recorded. *)
Definition request_kind (e : RuntimeEvent) : option (RequestEnvelope * string) :=
  match e with
  | Driver (Message (Request r)) =>
      if req_method r ≟ INTERACTION_REQUEST_PERMISSION then Some (r, "permission")
      else if req_method r ≟ INTERACTION_REQUEST_USER_INPUT then Some (r, "user_input")
      else if req_method r ≟ INTERACTION_REQUEST_UNSUPPORTED_INPUT then Some (r, "unsupported_input")
      else None
  | _ => None
  end.

Definition write_turn_state (e : RuntimeEvent) : option TurnState :=
  match e with
  | Driver (Lifecycle _ method _) =>
      if method ≟ "turn.started" then Some StoreRecords.TurnActive
      else if method ≟ "turn.completed" then Some StoreRecords.TurnIdle
      else if method ≟ "turn.failed" then Some StoreRecords.TurnFailed
      else None
  | _ => None
  end.

Definition begin_natural_completion (s : StoreLifecycleSink) (w : Shared)
    : NaturalCompletionAdmission * Shared :=
  if is_admitting w.1 then
    let '(pending, queued) := completion_blockers (sink_agent s) w.2 in
    if pending || queued then (Deferred pending queued, w)
    else (Ready, (terminalize w.1, w.2))
  else (Bypass, w).

Section sink.
Context (to_string : Value → string) (id_key : WireId → string) (sqlite_text : SqliteError → string).

Definition store_error_text (e : StoreError) : string :=
  match e with
  | Sqlite error => "SQLite store error: " +:+ sqlite_text error
  | LegacySchemaUnsupported =>
      "STORE_SCHEMA_VERSION_UNSUPPORTED: existing Store must be backed up and recreated"
  | InvalidState message => "invalid store state: " +:+ message
  | Conflict message => "store conflict: " +:+ message
  end.

(** [emit]'s write of the record itself. *)
Definition record_write (s : StoreLifecycleSink) (seq : Z) (e : RuntimeEvent)
    (pending_request_id : option string) (turn : option TurnState) : LifecycleWrite :=
  let p := lifecycle_projection e pending_request_id in
  mk_write (sink_agent s) (sink_runtime s) (sink_epoch s) seq (proj_event_type p) None
    (to_string (proj_payload p)) (proj_redaction p) None turn.

Definition append_record (now : Z) (r : LifecycleRecord) (pending_request_id : option string)
    (s : StoreLifecycleSink) (w : Shared) : StoreLifecycleSink * Shared :=
  match append_lifecycle now (record_write s (sequence r) (event r) pending_request_id
                                (write_turn_state (event r))) w.2 with
  | (Ok _, db) => (s, (w.1, db))
  | (Err e, db) => (set_write (latch_error (store_error_text e) (write_state s)) s, (w.1, db))
  end.

(** The loop that waits for the running commit. *)
Inductive Insertion := Inserted (w : Shared) | Dropped (w : Shared) | InsertFailed (error : string) (w : Shared).

Fixpoint insert_loop (now : Z) (rid agent correlation kind payload : string)
    (others : list (Shared → Shared)) (w : Shared) : Insertion :=
  match insert_pending_request now rid agent correlation kind payload w.2 with
  | (Ok _, db) => Inserted (w.1, db)
  | (Err (Conflict m), db) =>
      if negb (is_admitting w.1) then Dropped (w.1, db)
      else match others with
           | [] => InsertFailed (store_error_text (Conflict m)) (w.1, db)
           | f :: others => insert_loop now rid agent correlation kind payload others (f (w.1, db))
           end
  | (Err e, db) => InsertFailed (store_error_text e) (w.1, db)
  end.

Definition request_key (agent : string) (seq : Z) : string := agent +:+ ":request:" +:+ pretty seq.

(** [emit]: [now] is the store's clock, [at_] and [wall] the tracker's, [others]
    what happens during the waits and [resumed] before the second admission. *)
Definition emit (now at_ wall : Z) (others : list (Shared → Shared)) (resumed : Shared → Shared)
    (r : LifecycleRecord) (s : StoreLifecycleSink) (w : Shared) : StoreLifecycleSink * Shared :=
  let '(admitted, latch) := admit_event w.1 in
  let w := (latch, w.2) in
  if negb admitted then (s, w)
  else
    let s := mk_sink (sink_agent s) (sink_runtime s) (sink_epoch s) (write_state s)
               (observe_at to_string (event r) at_ wall (activity s)) in
    match first_error (write_state s) with
    | Some _ => (s, w)
    | None =>
        let s := set_write (note_record r (write_state s)) s in
        match event r with
        | EventTerminal _ => (set_write (note_terminal (sequence r) (write_state s)) s, w)
        | e =>
            match request_kind e with
            | None => append_record now r None s w
            | Some (request, kind) =>
                let rid := request_key (sink_agent s) (sequence r) in
                match insert_loop now rid (sink_agent s) (id_key (req_id request)) kind
                        (to_string (req_params request)) others w with
                | InsertFailed error w => (set_write (latch_error error (write_state s)) s, w)
                | Dropped w => (s, w)
                | Inserted w =>
                    let w := resumed w in
                    let '(again, latch) := admit_event w.1 in
                    let w := (latch, w.2) in
                    if negb again then (s, w) else append_record now r (Some rid) s w
                end
            end
        end
    end.

(** ** Results *)

Definition task_outcome (o : CompletionOutcome) : TaskOutcome :=
  match o with
  | CCompleted => Completed
  | CFailed => Failed
  | CCancelled => Cancelled
  | CTimedOut => TimedOut
  | CRuntimeLost => RuntimeLost
  | CResultInvalid => ResultInvalid
  end.

(** [{:?}]. *)
Definition outcome_debug (o : CompletionOutcome) : string :=
  match o with
  | CCompleted => "Completed"
  | CFailed => "Failed"
  | CCancelled => "Cancelled"
  | CTimedOut => "TimedOut"
  | CRuntimeLost => "RuntimeLost"
  | CResultInvalid => "ResultInvalid"
  end.

Definition completion_result (c : GeneralCompletion) : TaskResult :=
  mk_result (task_outcome (outcome_ c))
    (if trim_is_empty (summary c)
     then default ("general task ended with " +:+ outcome_debug (outcome_ c)) (completion_reason c)
     else summary c)
    (negb (bool_decide (outcome_ c = CCompleted))).

Definition minimal_task_result (o : CompletionOutcome) (summary reason_code : string) : TaskResult :=
  mk_result (task_outcome o) (if trim_is_empty summary then reason_code else summary)
    (negb (bool_decide (o = CCompleted))).

Definition bounded_cancelled_task_result : TaskResult := mk_result Cancelled "task cancelled" true.
Definition bounded_result_invalid_task_result : TaskResult :=
  mk_result ResultInvalid "result unavailable" true.

Definition text_or_reason (message reason_code : string) : string :=
  if trim_is_empty message then reason_code else message.

Definition finalized_general (o : CompletionOutcome) (reason_code message : string)
    (failure : option string) : GeneralCompletion :=
  let c := finalize o in
  mk_completion (outcome_ c)
    (match completion_reason c with
     | Some r => Some r
     | None => if bool_decide (o = CCompleted) then None else Some reason_code
     end)
    (if trim_is_empty (summary c) then text_or_reason message reason_code else summary c)
    (residual_gaps c) (cleaned c) failure.

Definition unreaped_general (o : CompletionOutcome) (reason_code message : string)
    (failure : option string) : GeneralCompletion :=
  mk_completion o (if bool_decide (o = CCompleted) then None else Some reason_code)
    (text_or_reason message reason_code) [] false failure.

Context (task_result_digest : TaskResult → string).

Definition store_result_with_cancel_precedence (now : Z) (agent : string) (result : TaskResult)
    (reason failure : option string) (db : Db) : StoreResult unit * Db :=
  match store_task_result_with_reason task_result_digest now agent result reason failure db with
  | (Err (Conflict m), db) =>
      match get_task agent db with
      | Err e => (Err e, db)
      | Ok None => (Err (InvalidState "terminal result task disappeared"), db)
      | Ok (Some task) =>
          if (rec_stop_requested task || rec_close_requested task)
             && negb (bool_decide (res_outcome result = Cancelled))
             && negb (bool_decide (is_Some (task_result agent db)))
          then store_task_result_with_reason task_result_digest now agent
                 bounded_cancelled_task_result None None db
          else (Err (Conflict m), db)
      end
  | r => r
  end.

Definition persist_general_result (now : Z) (agent : string) (c : GeneralCompletion) (db : Db)
    : StoreResult unit * Db :=
  store_result_with_cancel_precedence now agent (completion_result c) (completion_reason c)
    (failure_message c) db.

Definition phase_of_task (agent : string) (db : Db) : StoreResult TaskPhase :=
  match get_task agent db with
  | Err e => Err e
  | Ok None => Err (InvalidState "terminal task disappeared")
  | Ok (Some task) => Ok (rec_phase task)
  end.

Definition terminal_sequence (w : SinkWriteState) : Z :=
  default (saturating_add (last_source_sequence w) 1) (pending_terminal_sequence w).

(** [finish_general]: the record of the terminal, the result, the reap. *)
Definition finish_general (now : Z) (terminal : RuntimeTerminal) (c : GeneralCompletion)
    (s : StoreLifecycleSink) (db : Db) : StoreResult TaskPhase * StoreLifecycleSink * Db :=
  match first_error (write_state s) with
  | Some e => (Err (InvalidState e), s, db)
  | None =>
      if terminal_written (write_state s) then (phase_of_task (sink_agent s) db, s, db)
      else
        match append_lifecycle now (record_write s (terminal_sequence (write_state s))
                                      (EventTerminal terminal) None None) db with
        | (Err e, db) => (Err e, s, db)
        | (Ok _, db) =>
            match persist_general_result now (sink_agent s) c db with
            | (Err e, db) => (Err e, s, db)
            | (Ok _, db) =>
                let reap := cleaned c && terminal_proves_process_group_reaped terminal in
                let '(reaped, db) :=
                  if reap then reap_task now (sink_agent s) db else (Ok Completed, db) in
                match reaped with
                | Err e => (Err e, s, db)
                | Ok _ =>
                    let s := set_write (note_written (write_state s)) s in
                    (phase_of_task (sink_agent s) db, s, db)
                end
            end
        end
  end.
End sink.
