(* ===== verification/SinkProps.v ===== *)
(** * Properties of the lifecycle sink

    A closed latch stops every write, every write is a history of store operations,
    a stored result always arrives, as a cancellation when one was requested, and a
    task is marked reaped only when its process group is proven gone. *)

From stdpp Require Import gmap pretty relations.
From S2P Require Import Prelude RustStr Utf8 Json Contract Projection Observation RuntimeEvents Activity ActivityTracker General StoreRecords StoreSql StoreOps StoreView StoreRefine StoreProps RuntimeLifecycle Sink.

(** ** Success of a terminal transition *)

Lemma terminal_row_check now o code message r : row_check (terminal_row now o code message r) = true.
Proof. done. Qed.

(** The row an ended task has. *)
Definition ended (now : Z) (o : TaskOutcome) (code message : option string) (r : TaskRow) : TaskRow :=
  terminal_row now o code (if failing o then message else None) r.

Lemma apply_terminal_rows now id terminal db r :
  NoDup (row_id <$> tasks db) → (∀ x, x ∈ tasks db → row_check x = true) →
  find_task id (tasks db) = Some r → phase r ≠ Terminal → (owner_epoch r ≤ i64_max)%Z →
  let o := effective_outcome (close_requested r) (stop_requested r) (tu_outcome terminal) in
  ∃ db', apply_terminal now id (owner_epoch r) (phase r) (close_requested r) (stop_requested r)
           terminal db = Ok (o, db')
    ∧ find_task id (tasks db') = Some (ended now o (tu_failure_code terminal) (tu_failure_message terminal) r)
    ∧ task_results db' = task_results db.
Proof.
  intros Hnd Hck Hf Hp He o. destruct (find_task_id _ _ _ Hf) as [Hid Hin].
  unfold apply_terminal. rewrite bool_decide_eq_false_2 by done. fold o.
  unfold mbind, tx_bind, tx_lift, u64_to_i64.
  rewrite (proj2 (Z.leb_le _ _)) by done. cbv iota beta.
  set (P := λ x, (row_id x ≟ id) && Z.eqb (owner_epoch x) (owner_epoch r)
                 && negb (bool_decide (phase x = Terminal))).
  assert (P r = true) as HP.
  { unfold P. by rewrite Hid, String.eqb_refl, Z.eqb_refl, bool_decide_eq_false_2. }
  assert (∀ x, P x = true → row_id x = id) as HPid by (unfold P; intros x Hx; by bool_hyp).
  unfold update_tasks at 1.
  assert (forallb row_check (update_rows P (terminal_row now o (tu_failure_code terminal)
    (if failing o then tu_failure_message terminal else None)) (tasks db)) = true) as ->.
  { apply forallb_true_iff. intros y (x & Hx & ->)%update_rows_in. destruct (P x); auto. }
  assert (count_rows P (tasks db) = 1) as ->.
  { pose proof (count_rows_unique row_id P id _ Hnd HPid).
    assert (count_rows P (tasks db) ≠ 0); [|lia]. intros E%nil_length_inv.
    assert (r ∈ List.filter P (tasks db)) as Hr by by apply in_filter.
    rewrite E in Hr. by apply elem_of_nil in Hr. }
  cbn [Nat.eqb negb]. unfold insert_ledger, settle_terminal_commands, mbind, tx_bind, tx_lift, u64_to_i64.
  rewrite (proj2 (Z.leb_le (owner_epoch r) i64_max)) by done. simpl.
  eexists. split; [reflexivity|]. simpl. split; [|done].
  rewrite find_update_rows, Hf by done. simpl. by rewrite HP.
Qed.

Lemma active_not_terminal p : active_phase p = true → p ≠ Terminal ∧ p ≠ Queued.
Proof. by destruct p. Qed.

(** A live task has no result. *)
Lemma live_no_result db id r :
  db_inv db → find_task id (tasks db) = Some r → phase r ≠ Terminal →
  find_result id (task_results db) = None.
Proof.
  intros Hi Hf Hp. destruct (find_task_id _ _ _ Hf) as [<- Hin].
  pose proof (reachable_row _ _ Hi Hin) as Hr.
  destruct (ri_result _ _ _ Hr) as [Hv | (x & _ & ? & _)]; [|done].
  destruct (find_result _ _) as [x|] eqn:E; [|done].
  apply find_some in E as [E1 E2].
  assert (In x (v_res (view db (row_id r)))) as Hx by (simpl; by apply filter_In).
  rewrite Hv in Hx. destruct Hx.
Qed.

Section results.
Context (digest : TaskResult → string).

(** What is stored for a task whose result was accepted. *)
Definition result_stored (now : Z) (id : string) (result : TaskResult) (code message : option string)
    (r : TaskRow) (db' : Db) : Prop :=
  find_task id (tasks db') = Some (ended now (res_outcome result) code message r)
  ∧ task_result id db' = Some (result, digest result).

Lemma check_result_passes id t r result db :
  rec_phase t = phase r → rec_stop_requested t = stop_requested r →
  rec_close_requested t = close_requested r → active_phase (phase r) = true →
  (res_outcome result = Completed → completion_blockers id db = (false, false)) →
  (flagged r = true → res_outcome result = Cancelled) →
  check_result id t result db = Ok (tt, db).
Proof.
  intros E1 E2 E3 Ha Hb Hf. unfold check_result. rewrite E1, E2, E3, Ha.
  rewrite bool_decide_eq_false_2 by (by apply active_not_terminal). cbn [negb].
  unfold mbind, tx_bind, tx_get. unfold flagged in Hf.
  case_bool_decide as Ec.
  - rewrite (Hb Ec). simpl. destruct (stop_requested r || close_requested r); [|done].
    by rewrite bool_decide_eq_true_2 by auto.
  - simpl. destruct (stop_requested r || close_requested r); [|done].
    by rewrite bool_decide_eq_true_2 by auto.
Qed.

Lemma store_result_succeeds now id result reason fm db r t :
  db_inv db → find_task id (tasks db) = Some r → get_task id db = Ok (Some t) →
  (owner_epoch r ≤ i64_max)%Z → active_phase (phase r) = true → validate_result result = Ok tt →
  (res_outcome result = Completed → completion_blockers id db = (false, false)) →
  (flagged r = true → res_outcome result = Cancelled) →
  ∃ db', store_task_result_with_reason digest now id result reason fm db = (Ok tt, db')
    ∧ result_stored now id result (result_reason reason t result) fm r db'.
Proof.
  intros Hi Hf Hq He Ha Hv Hb Hfl. unfold get_task in Hq.
  destruct (query_task_db_some _ _ _ Hq) as (r' & Hf' & E1 & E2 & E3 & E4 & _).
  assert (r' = r) as -> by congruence.
  pose proof (active_not_terminal _ Ha) as [Hp _].
  pose proof (live_no_result _ _ _ Hi Hf Hp) as Hn.
  unfold store_task_result_with_reason. rewrite Hv. unfold immediate.
  unfold mbind at 1, tx_bind at 1, query_task. rewrite Hq.
  unfold mbind at 1, tx_bind at 1, tx_lift. cbn [ok_or].
  unfold mbind at 1, tx_bind at 1, tx_get. rewrite Hn.
  unfold mbind at 1, tx_bind at 1.
  rewrite (check_result_passes id t r result db) by done.
  unfold mbind at 1, tx_bind at 1, insert_result. rewrite Hn. cbn [is_some].
  set (db1 := with_results _ db). unfold mbind at 1, tx_bind at 1. rewrite E1, E2, E3, E4.
  (* inserting the result keeps the rows *)
  set (terminal := mk_terminal _ _ _).
  assert (effective_outcome (close_requested r) (stop_requested r) (res_outcome result)
          = res_outcome result) as Ho.
  { unfold effective_outcome. unfold flagged in Hfl. destruct (_ || _); [|done].
    by rewrite Hfl by done. }
  destruct (apply_terminal_rows now id terminal db1 r) as (db' & Hdb & Hrow & Hres);
    [exact (gl_ids _ (di_glob _ Hi)) | | exact Hf | done | done |].
  { intros x Hx. apply (ri_check _ _ _ (reachable_row _ _ Hi Hx)). }
  rewrite Hdb. cbn in Hrow. rewrite Ho in Hrow. eexists. split; [reflexivity|]. split; [exact Hrow|].
  unfold task_result. rewrite Hres. unfold find_result in *. simpl.
  by rewrite (find_app_none _ _ _ Hn) by apply String.eqb_refl.
Qed.

(** Storing a result that the cancellation refuses. *)
Lemma cancellation_refuses now id result reason fm db r t :
  db_inv db → find_task id (tasks db) = Some r → get_task id db = Ok (Some t) →
  active_phase (phase r) = true → validate_result result = Ok tt →
  flagged r = true → res_outcome result ≠ Cancelled →
  ∃ m, store_task_result_with_reason digest now id result reason fm db = (Err (Conflict m), db).
Proof.
  intros Hi Hf Hq Ha Hv Hfl Ho. unfold get_task in Hq.
  destruct (query_task_db_some _ _ _ Hq) as (r' & Hf' & E1 & E2 & E3 & E4 & _).
  assert (r' = r) as -> by congruence.
  pose proof (active_not_terminal _ Ha) as [Hp _].
  pose proof (live_no_result _ _ _ Hi Hf Hp) as Hn.
  unfold store_task_result_with_reason. rewrite Hv. unfold immediate.
  unfold mbind at 1, tx_bind at 1, query_task. rewrite Hq.
  unfold mbind at 1, tx_bind at 1, tx_lift. cbn [ok_or].
  unfold mbind at 1, tx_bind at 1, tx_get. rewrite Hn.
  unfold mbind at 1, tx_bind at 1, check_result. rewrite E1, E3, E4, Ha.
  rewrite bool_decide_eq_false_2 by done. cbn [negb]. unfold mbind, tx_bind, tx_get.
  destruct (_ && (_ || _)); [by eexists|]. unfold flagged in Hfl. rewrite Hfl.
  rewrite bool_decide_eq_false_2 by done. by eexists.
Qed.

(** Storing the result of an active task, as far as the task goes on. *)
Lemma precedence_stores now id result reason fm db r t :
  db_inv db → find_task id (tasks db) = Some r → get_task id db = Ok (Some t) →
  (owner_epoch r ≤ i64_max)%Z → active_phase (phase r) = true → validate_result result = Ok tt →
  (res_outcome result = Completed → completion_blockers id db = (false, false)) →
  ∃ db' stored code message,
    store_result_with_cancel_precedence digest now id result reason fm db = (Ok tt, db')
    ∧ result_stored now id stored code message r db'
    ∧ (if flagged r then res_outcome stored = Cancelled
       else stored = result ∧ code = result_reason reason t result ∧ message = fm).
Proof.
  intros Hi Hf Hq He Ha Hv Hb. unfold store_result_with_cancel_precedence.
  destruct (decide (flagged r = true ∧ res_outcome result ≠ Cancelled)) as [[Hfl Ho]|Hno].
  - destruct (cancellation_refuses now id result reason fm db r t) as [m ->]; try done.
    rewrite Hq. unfold get_task in Hq.
    destruct (query_task_db_some _ _ _ Hq) as (r' & Hf' & _ & _ & E3 & E4 & _).
    assert (r' = r) as -> by congruence. rewrite E3, E4.
    unfold flagged in Hfl. rewrite Hfl, bool_decide_eq_false_2 by done.
    unfold task_result.
    rewrite (live_no_result _ _ _ Hi Hf (proj1 (active_not_terminal _ Ha))).
    rewrite bool_decide_eq_false_2 by (by intros []). cbn [negb andb].
    destruct (store_result_succeeds now id bounded_cancelled_task_result None None db r t)
      as (db' & -> & Hs); try done.
    exists db', bounded_cancelled_task_result. eexists _, _. split_and!; [done | exact Hs |].
    unfold flagged. by rewrite Hfl.
  - destruct (store_result_succeeds now id result reason fm db r t) as (db' & -> & Hs); try done.
    { intros Hfl. destruct (decide (res_outcome result = Cancelled)); [done|]. tauto. }
    exists db', result. eexists _, _. split_and!; [done | exact Hs |].
    destruct (flagged r) eqn:Hfl; [|done].
    destruct (decide (res_outcome result = Cancelled)); [done|]. tauto.
Qed.

(** Whatever result a finished runtime reports for an active task, storing it
    under the precedence of cancellations succeeds and ends the task: as cancelled,
    with a cancelled result, when a stop or a close was requested, and otherwise
    with exactly the reported result, reason and failure message.  A completion
    needs that no request is open and no message waits. *)
Theorem reported_result_or_cancelled now id result reason fm db r t :
  reachable digest db → find_task id (tasks db) = Some r → get_task id db = Ok (Some t) →
  (owner_epoch r ≤ i64_max)%Z → active_phase (phase r) = true → validate_result result = Ok tt →
  (res_outcome result = Completed → completion_blockers id db = (false, false)) →
  ∃ db' stored r',
    store_result_with_cancel_precedence digest now id result reason fm db = (Ok tt, db')
    ∧ task_result id db' = Some (stored, digest stored)
    ∧ find_task id (tasks db') = Some r' ∧ phase r' = Terminal
    ∧ StoreRecords.task_outcome r' = Some (res_outcome stored)
    ∧ (if flagged r then res_outcome stored = Cancelled ∧ row_failure_message r' = None
       else stored = result ∧ failure_code r' = result_reason reason t result
            ∧ (failing (res_outcome result) = true → row_failure_message r' = fm)).
Proof.
  intros Hr Hf Hq He Ha Hv Hb.
  destruct (precedence_stores now id result reason fm db r t (reachable_inv _ _ Hr) Hf Hq He Ha Hv Hb)
    as (db' & stored & code & message & Hs & [Hrow Hres] & Hc).
  exists db', stored. eexists. split_and!; [done | done | exact Hrow | done | done |].
  destruct (flagged r).
  - rewrite Hc. done.
  - destruct Hc as (-> & -> & ->). split_and!; [done | done |]. unfold ended. by intros ->.
Qed.
End results.

(** ** What the operations of a finish do to the task's row *)

Lemma immediate_err {A} (t : Tx A) db e db' : immediate t db = (Err e, db') → db' = db.
Proof. unfold immediate. destruct (t db) as [[]|]; [done|]. by intros [= _ <-]. Qed.

Lemma append_row now w db n db' :
  append_lifecycle now w db = (Ok n, db') → w_terminal w = None →
  db' = db ∨ ∃ r seq, find_task (w_agent w) (tasks db) = Some r
    ∧ find_task (w_agent w) (tasks db') = Some (event_row seq now (w_turn_state w) r).
Proof.
  unfold append_lifecycle, after_commit. intros H Hnt. injection H as Hn Hdb.
  destruct (immediate _ db) as [[m|] db1] eqn:E; [|done]. simpl in Hn, Hdb. subst db1.
  apply immediate_ok in E.
  apply tx_bind_ok in E as (src & db1 & [Hsrc ->]%tx_lift_ok & Ht).
  apply tx_bind_ok in Ht as (ex & db1 & [-> ->]%tx_get_ok & Ht).
  destruct (recorded_event w src (events db)) as [x|]; [apply tx_ret_ok in Ht as [_ ->]; by left|].
  apply tx_bind_ok in Ht as (g & db1 & (-> & r & Hr & -> & _)%query_guard_ok & Ht). simpl in Ht.
  destruct (_ || _); [done|].
  apply tx_bind_ok in Ht as (fo & db1 & [-> ->]%tx_get_ok & Ht).
  apply tx_bind_ok in Ht as (row & db1 & [Hrow%ok_or_ok ->]%tx_lift_ok & Ht).
  destruct (Z.leb _ _); [done|].
  apply tx_bind_ok in Ht as (u & db1 & ->%insert_event_ok & Ht).
  apply tx_bind_ok in Ht as (k & db1 & (-> & -> & _)%update_tasks_ok & Ht).
  rewrite Hnt in Ht. apply tx_ret_ok in Ht as [_ ->]. right. exists r. eexists. split; [done|].
  simpl. rewrite find_update_rows, Hr by done. simpl.
  by rewrite (proj1 (find_task_id _ _ _ Hr)), String.eqb_refl.
Qed.

Lemma reap_row now id db o db' :
  reap_task now id db = (Ok o, db') →
  ∃ r, find_task id (tasks db) = Some r ∧ phase r = Terminal
       ∧ find_task id (tasks db') = Some (reaped_row now r).
Proof.
  unfold reap_task, after_commit. intros H. injection H as Hn Hdb.
  destruct (immediate _ db) as [[m|] db1] eqn:E; [|done]. simpl in Hdb. subst db1.
  apply immediate_ok in E.
  apply tx_bind_ok in E as (g & db1 & (-> & r & Hr & -> & _)%query_guard_ok & Ht). simpl in Ht.
  case_bool_decide as Hp; simpl in Ht; [|done].
  apply tx_bind_ok in Ht as (k & db1 & (-> & -> & _)%update_tasks_ok & [_ ->]%tx_ret_ok).
  exists r. split_and!; [done | done |]. simpl. rewrite find_update_rows, Hr by done. simpl.
  by rewrite (proj1 (find_task_id _ _ _ Hr)), String.eqb_refl.
Qed.

Section finish.
Context (digest : TaskResult → string).

(** A result that was stored before, or now. *)
Lemma result_row now id result reason fm db db' :
  db_inv db → store_task_result_with_reason digest now id result reason fm db = (Ok tt, db') →
  ∃ r, find_task id (tasks db) = Some r
    ∧ (db' = db ∧ phase r = Terminal
       ∨ phase r ≠ Terminal
         ∧ ∃ code message, find_task id (tasks db') = Some (terminal_row now (res_outcome result) code message r)
            ∧ (flagged r = true → res_outcome result = Cancelled)).
Proof.
  intros Hi. unfold store_task_result_with_reason.
  destruct (validate_result result) as [[]|]; [|done]. intros Ht%immediate_ok.
  apply tx_bind_ok in Ht as (o & db1 & [Hq ->]%query_task_ok & Ht).
  apply tx_bind_ok in Ht as (t & db1 & [->%ok_or_ok ->]%tx_lift_ok & Ht).
  apply tx_bind_ok in Ht as (ex & db1 & [-> ->]%tx_get_ok & Ht).
  destruct (query_task_db_some _ _ _ Hq) as (r & Hr & Hph & Hep & Hcl & Hst & _). exists r. split; [done|].
  destruct (find_result id (task_results db)) as [x|] eqn:Hx.
  { left. destruct (r_sha256 x ≟ _); [|done]. apply tx_ret_ok in Ht as [_ ->]. split; [done|].
    destruct (decide (phase r = Terminal)); [done|].
    by rewrite (live_no_result _ _ _ Hi Hr) in Hx. }
  right. apply tx_bind_ok in Ht as (u & db1 & (-> & Hact & _ & Hfl)%check_result_ok & Ht).
  rewrite Hph in Hact. rewrite Hst, Hcl in Hfl.
  apply tx_bind_ok in Ht as (u' & db1 & Hins & Ht).
  unfold insert_result in Hins. rewrite Hx in Hins. simpl in Hins. injection Hins as _ <-.
  apply tx_bind_ok in Ht as (o & db1 & Ha & [_ ->]%tx_ret_ok).
  apply apply_terminal_effect in Ha as (r' & msg & Hr' & Hp & _ & -> & _ & g & Hg & Hgv); [|apply Hi].
  simpl in Hr'. assert (r' = r) as -> by congruence. split; [done|].
  pose proof (f_equal v_row (ef_view _ _ _ _ Hg)) as Hrow. rewrite Hgv in Hrow by done. simpl in Hrow.
  assert (effective_outcome (rec_close_requested t) (rec_stop_requested t) (res_outcome result)
          = res_outcome result) as Ho.
  { unfold effective_outcome. rewrite Hst, Hcl. destruct (_ || _); [|done]. by rewrite Hfl. }
  rewrite Ho in Hrow. eexists _, msg. split; [exact Hrow|]. unfold flagged. exact Hfl.
Qed.

Lemma precedence_row now id result reason fm db db' :
  db_inv db → store_result_with_cancel_precedence digest now id result reason fm db = (Ok tt, db') →
  ∃ r, find_task id (tasks db) = Some r
    ∧ (db' = db ∧ phase r = Terminal
       ∨ phase r ≠ Terminal
         ∧ ∃ o code message, find_task id (tasks db') = Some (terminal_row now o code message r)
            ∧ (flagged r = true → o = Cancelled)).
Proof.
  intros Hi. unfold store_result_with_cancel_precedence.
  destruct (store_task_result_with_reason digest now id result reason fm db) as [[[]|e] db1] eqn:E.
  - intros [= <-]. destruct (result_row _ _ _ _ _ _ _ Hi E) as (r & Hr & [H|(Hp & c & m & H)]);
      exists r; split; eauto 8.
  - destruct e as [| | |m]; try done.
    assert (db1 = db) as ->.
    { revert E. unfold store_task_result_with_reason. destruct (validate_result result); [|by intros [= _ <-]].
      apply immediate_err. }
    destruct (get_task id db) as [[t|]|]; try done. destruct (_ && _ && _); [|done].
    intros H. destruct (result_row _ _ _ _ _ _ _ Hi H) as (r & Hr & [H'|(Hp & c & m' & H')]);
      exists r; split; eauto 8.
Qed.

Context (to_string : Value → string).

(** Finishing a task ends it: when [finish_general] succeeds on a sink that
    has written no terminal, the task is terminal, as cancelled if it was live and a
    stop or close had been requested, the sink accepts no second result, and the
    task is newly marked as reaped only if its completion was clean and the terminal
    proves that the process group is gone. *)
Theorem finish_ends_and_reaps_honestly now terminal c s db p s' db' r :
  reachable digest db → find_task (sink_agent s) (tasks db) = Some r →
  terminal_written (write_state s) = false →
  finish_general to_string digest now terminal c s db = (Ok p, s', db') →
  p = Terminal ∧ terminal_written (write_state s') = true
  ∧ ∃ r', find_task (sink_agent s) (tasks db') = Some r' ∧ phase r' = Terminal
     ∧ (phase r ≠ Terminal → flagged r = true → StoreRecords.task_outcome r' = Some Cancelled)
     ∧ (reaped_at r' ≠ reaped_at r →
          cleaned c = true ∧ terminal_proves_process_group_reaped terminal = true).
Proof.
  intros Hreach Hr Hw. unfold finish_general. destruct (first_error _); [done|]. rewrite Hw.
  destruct (append_lifecycle _ _ db) as [[n|] db1] eqn:Ha; [|done].
  pose proof (reachable_inv _ _ Hreach) as Hi.
  assert (db_inv db1) as Hi1.
  { eapply (steps_inv digest); [exact Hi|]. apply rtc_once.
    replace db1 with (snd (append_lifecycle now (record_write to_string s
      (terminal_sequence (write_state s)) (EventTerminal terminal) None None) db))
      by (by rewrite Ha). constructor. }
  assert (∃ r1, find_task (sink_agent s) (tasks db1) = Some r1 ∧ phase r1 = phase r
    ∧ flagged r1 = flagged r ∧ reaped_at r1 = reaped_at r) as (r1 & Hr1 & Ep & Ef & Er).
  { destruct (append_row _ _ _ _ _ Ha eq_refl) as [-> | (r0 & seq & H0 & H1)]; [by exists r|].
    simpl in H0, H1. rewrite Hr in H0. injection H0 as <-. by eexists. }
  destruct (persist_general_result _ _ _ c db1) as [[[]|] db2] eqn:Hp; [|done].
  destruct (precedence_row _ _ _ _ _ _ _ Hi1 Hp) as (r1' & Hr1' & Hc).
  assert (r1' = r1) as -> by congruence.
  assert (∃ r2, find_task (sink_agent s) (tasks db2) = Some r2 ∧ phase r2 = Terminal
    ∧ reaped_at r2 = reaped_at r
    ∧ (phase r ≠ Terminal → flagged r = true → StoreRecords.task_outcome r2 = Some Cancelled))
    as (r2 & Hr2 & Hp2 & Er2 & Hf2).
  { destruct Hc as [[-> Ht] | (Hnt & o & code & m & H & Hfl)].
    - exists r1. split_and!; [done..|]. congruence.
    - eexists. split_and!; [exact H | done | by rewrite <- Er |].
      intros _ Hflag. rewrite <- Ef in Hflag. by rewrite Hfl. }
  assert (∀ db3, phase_of_task (sink_agent s) db3 = Ok p →
    ∃ r3, find_task (sink_agent s) (tasks db3) = Some r3 ∧ phase r3 = p) as Hphase.
  { intros db3. unfold phase_of_task, get_task.
    destruct (query_task_db db3 (sink_agent s)) as [[t|]|] eqn:Hq; try done. intros [= <-].
    destruct (query_task_db_some _ _ _ Hq) as (r3 & ? & ? & _). eauto. }
  destruct (cleaned c && terminal_proves_process_group_reaped terminal) eqn:Hreap.
  - destruct (reap_task now (sink_agent s) db2) as [[o|] db3] eqn:Hre; [|done]. intros [= Hph <- <-].
    destruct (reap_row _ _ _ _ _ Hre) as (r2' & Hr2' & _ & Hr3).
    assert (r2' = r2) as -> by congruence. apply Hphase in Hph as (r3 & Hr3' & <-).
    assert (r3 = reaped_row now r2) as -> by congruence.
    split_and!; [done | done |]. exists (reaped_row now r2). split_and!; [done..|].
    intros _. by apply andb_true_iff.
  - intros [= Hph <- <-]. apply Hphase in Hph as (r3 & Hr3' & <-).
    assert (r3 = r2) as -> by congruence.
    split_and!; [done | done |]. exists r2. by split_and!.
Qed.
End finish.

(** ** Emission *)

Section emission.
Context (digest : TaskResult → string).
Context (to_string : Value → string) (id_key : WireId → string) (sqlite_text : SqliteError → string).

Notation history := (rtc (store_step digest)).

(** What the other threads do between two steps of the sink: a history of the
    store, and any move of the latch. *)
Definition acts (f : Shared → Shared) : Prop := ∀ w, history w.2 (f w).2.

Lemma snd_step {A} (op : Db → StoreResult A * Db) db x db' :
  store_step digest db (snd (op db)) → op db = (x, db') → history db db'.
Proof. intros H E. rewrite E in H. by apply rtc_once. Qed.

Lemma append_history now r pending s w :
  history w.2 (append_record to_string sqlite_text now r pending s w).2.2.
Proof.
  unfold append_record. destruct (append_lifecycle _ _ _) as [[] db'] eqn:E; simpl;
    (eapply (snd_step (append_lifecycle _ _)); [constructor | exact E]).
Qed.

Lemma insert_history now rid agent corr kind payload others w :
  Forall acts others →
  history w.2 (match insert_loop sqlite_text now rid agent corr kind payload others w with
               | Inserted w' | Dropped w' | InsertFailed _ w' => w'
               end).2.
Proof.
  intros H. revert w. induction H as [|f others Hf _ IH]; intros w; cbn [insert_loop];
    destruct (insert_pending_request now rid agent corr kind payload w.2) as [res db'] eqn:E;
    (assert (history w.2 db') as Hs
      by (eapply (snd_step (insert_pending_request _ _ _ _ _ _)); [constructor | exact E]));
    destruct res as [b|[| | |m]]; try exact Hs.
  - by destruct (negb _).
  - destruct (negb _); [exact Hs|]. etrans; [exact Hs|]. etrans; [apply (Hf (w.1, db')) | apply IH].
Qed.

(** The sink writes through the store alone: whatever record it is given and
    however the other threads act meanwhile, the database after [emit] is a history
    of store operations after the database before, so every property of reachable
    databases survives it. *)
Theorem emit_is_store_history now at_ wall others resumed r s w :
  Forall acts others → acts resumed →
  history w.2 (emit to_string id_key sqlite_text now at_ wall others resumed r s w).2.2.
Proof.
  intros Ho Hres. unfold emit. destruct (admit_event w.1) as [admitted latch].
  destruct admitted; [|done]. cbn [negb]. case_match; [done|].
  set (s1 := set_write _ _).
  destruct (event r) as [e|t] eqn:Er; [|done].
  destruct (request_kind (Driver e)) as [[request kind]|]; [|apply (append_history now r None s1 (latch, w.2))].
  pose proof (insert_history now (request_key (sink_agent s1) (sequence r)) (sink_agent s1)
    (id_key (req_id request)) kind (to_string (req_params request)) others (latch, w.2) Ho) as Hi.
  destruct (insert_loop _ _ _ _ _ _ _ _ _) as [w'|w'|err w']; [|exact Hi|exact Hi].
  destruct (admit_event (resumed w').1) as [again latch'].
  assert (history w.2 (resumed w').2) as Hw by (etrans; [exact Hi | apply Hres]).
  destruct again; [|exact Hw]. etrans; [exact Hw|].
  apply (append_history now r _ s1 (latch', (resumed w').2)).
Qed.

(** A closed latch stops the sink. *)
Lemma emit_closed now at_ wall others resumed r s w :
  is_admitting w.1 = false →
  let out := emit to_string id_key sqlite_text now at_ wall others resumed r s w in
  out.1 = s ∧ out.2.2 = w.2 ∧ is_admitting out.2.1 = false.
Proof.
  intros H. cbv zeta. unfold emit, admit_event. rewrite H. cbn. split_and!; [done | done |].
  unfold is_admitting in *. exact H.
Qed.

(** One call of [emit] with its circumstances. *)
Record Emission := mk_emission {
  em_now : Z; em_at : Z; em_wall : Z; em_others : list (Shared → Shared);
  em_resumed : Shared → Shared; em_record : LifecycleRecord }.

Definition emit_all (l : list Emission) (s : StoreLifecycleSink) (w : Shared)
    : StoreLifecycleSink * Shared :=
  fold_left (λ x e, emit to_string id_key sqlite_text (em_now e) (em_at e) (em_wall e)
                      (em_others e) (em_resumed e) (em_record e) x.1 x.2) l (s, w).

(** A natural completion is admitted only while the runtime runs and neither
    an open request nor a waiting message blocks it, and admitting it seals the
    runtime: no record that arrives later, a request included, changes the sink or
    the database.  Otherwise nothing changes. *)
Theorem natural_completion_seals s w records :
  let '(admission, w') := begin_natural_completion s w in
  match admission with
  | Ready => is_admitting w.1 = true ∧ completion_blockers (sink_agent s) w.2 = (false, false)
             ∧ w'.2 = w.2
             ∧ (emit_all records s w').1 = s ∧ (emit_all records s w').2.2 = w.2
  | Deferred pending queued =>
      w' = w ∧ completion_blockers (sink_agent s) w.2 = (pending, queued) ∧ pending || queued = true
  | Bypass => w' = w ∧ is_admitting w.1 = false
  end.
Proof.
  unfold begin_natural_completion. destruct (is_admitting w.1) eqn:Ha; [|done].
  destruct (completion_blockers (sink_agent s) w.2) as [pending queued] eqn:Hb.
  destruct (pending || queued) eqn:Hq; [done|]. apply orb_false_iff in Hq as [-> ->].
  assert (∀ l w1, is_admitting w1.1 = false → w1.2 = w.2 →
    (emit_all l s w1).1 = s ∧ (emit_all l s w1).2.2 = w.2) as H.
  { induction l as [|r l IH]; intros w1 Hc Hd; [done|]. unfold emit_all. cbn [fold_left].
    destruct (emit_closed (em_now r) (em_at r) (em_wall r) (em_others r) (em_resumed r)
      (em_record r) s w1 Hc) as (E1 & E2 & E3). cbn [fst snd].
    destruct (emit to_string id_key sqlite_text _ _ _ _ _ _ s w1) as [s' w'].
    cbn [fst snd] in E1, E2, E3. subst s'. apply (IH w'); congruence. }
  split_and!; [done | done | done |..]; by apply H.
Qed.
End emission.

(** ** Witnesses *)

Module SinkDemo.
Definition to_string (_ : Value) : string := "{}".
Definition id_key (_ : WireId) : string := "7".
Definition sqlite_text (_ : SqliteError) : string := "error".
Definition sink : StoreLifecycleSink := sink_new "10000000" "rt" 1 (tracker_new true).
Definition completion : GeneralCompletion := mk_completion CCompleted None "all done" [] true None.
Definition record_of (db : Db) : option TaskRecord :=
  match get_task "10000000" db with Ok o => o | Err _ => None end.
Definition fallback : TaskRecord :=
  default (mk_task_record History.task Queued None None 0 false false 0 None None None None
             StoreRecords.TurnIdle None None None 0) (record_of History.stopped).
End SinkDemo.

Lemma reported_result_or_cancelled_witness :
  ∃ db' stored r',
    store_result_with_cancel_precedence History.digest 110 "10000000" History.done_result None None
      History.stopped = (Ok tt, db')
    ∧ task_result "10000000" db' = Some (stored, History.digest stored)
    ∧ find_task "10000000" (tasks db') = Some r' ∧ phase r' = Terminal
    ∧ StoreRecords.task_outcome r' = Some (res_outcome stored)
    ∧ (res_outcome stored = Cancelled ∧ row_failure_message r' = None).
Proof.
  apply (reported_result_or_cancelled History.digest 110 "10000000" History.done_result None None
    History.stopped (History.row_of History.stopped) SinkDemo.fallback);
    [apply History.stopped_reachable | by vm_compute..].
Defined.

Lemma finish_ends_and_reaps_honestly_witness :
  let out := finish_general SinkDemo.to_string History.digest 110 (TStopped (Terminated (Exited (Some 0%Z))))
               SinkDemo.completion SinkDemo.sink History.stopped in
  ∃ r', find_task "10000000" (tasks out.2) = Some r' ∧ phase r' = Terminal.
Proof.
  intros out. assert (out = (Ok Terminal, out.1.2, out.2)) as E by (by vm_compute).
  destruct (finish_ends_and_reaps_honestly History.digest SinkDemo.to_string 110
    (TStopped (Terminated (Exited (Some 0%Z)))) SinkDemo.completion SinkDemo.sink History.stopped
    Terminal out.1.2 out.2 (History.row_of History.stopped) History.stopped_reachable)
    as (_ & _ & r' & H1 & H2 & _); [by vm_compute | done | exact E |].
  exists r'. by split.
Defined.

Lemma emit_is_store_history_witness :
  let record := mk_record 3 (Driver (Message (Request
    (mk_request (Integer 7) INTERACTION_REQUEST_PERMISSION VNull)))) in
  let stops (w : Shared) : Shared := (w.1, snd (request_stop 104 "10000000" w.2)) in
  let w := (lifecycle_new 1, History.claimed) in
  rtc (store_step History.digest) w.2
    (emit SinkDemo.to_string SinkDemo.id_key SinkDemo.sqlite_text 103 0 0 [stops] id record
       SinkDemo.sink w).2.2.
Proof.
  intros record stops w.
  apply (emit_is_store_history History.digest SinkDemo.to_string SinkDemo.id_key SinkDemo.sqlite_text
    103 0 0 [stops] id record SinkDemo.sink w).
  - apply Forall_singleton. intros w'. apply rtc_once, do_stop.
  - intros w'. apply rtc_refl.
Defined.
