(* ===== verification/Diagnostics.v ===== *)
(** * Failure records

    [crates/external-daemon/src/scheduler/diagnostics.rs]: the records of a runtime
    failure, for the log and for the store, and the search for the longest tail of
    the standard error that fits the stored record.

    [serde_json::to_string] and [serde_json::from_str] are parameters.  What the
    size bounds rely on is that the encoder is compact ([CompactJson]): an object
    is its entries with one byte between them, and a byte of a string takes at most
    six bytes. *)

From stdpp Require Import sorting.
From S2P Require Import Prelude RustStr Utf8 Json Contract RuntimeOwner OwnerProps.

Definition PERSISTABLE_RECORD_BYTES : nat := 16 * 1024.
Definition PERSISTABLE_TAIL_BYTES : nat := 12 * 1024.
Definition PERSISTABLE_ID_BYTES : nat := 256.
Definition PERSISTABLE_CODE_BYTES : nat := 128.
Definition PERSISTABLE_MESSAGE_BYTES : nat := 512.
Definition PERSISTABLE_EVIDENCE_BYTES : nat := 192.
Definition PERSISTABLE_MIN_BUDGET : nat := 8.

Record PersistableBudgets := mk_budgets {
  b_id : nat; b_code : nat; b_message : nat; b_evidence : nat }.

Definition PERSISTABLE_BUDGETS : PersistableBudgets :=
  mk_budgets PERSISTABLE_ID_BYTES PERSISTABLE_CODE_BYTES PERSISTABLE_MESSAGE_BYTES
    PERSISTABLE_EVIDENCE_BYTES.

Definition shrunk (b : PersistableBudgets) : PersistableBudgets :=
  let half n := Nat.max (n / 2) PERSISTABLE_MIN_BUDGET in
  mk_budgets (half (b_id b)) (half (b_code b)) (half (b_message b)) (half (b_evidence b)).

Definition at_floor (b : PersistableBudgets) : bool :=
  Nat.leb (b_id b) PERSISTABLE_MIN_BUDGET && Nat.leb (b_code b) PERSISTABLE_MIN_BUDGET
  && Nat.leb (b_message b) PERSISTABLE_MIN_BUDGET && Nat.leb (b_evidence b) PERSISTABLE_MIN_BUDGET.

Record PersistableFields := mk_persistable {
  pf_agent_id : string; pf_session_id : option string; pf_stage : string; pf_error_code : string;
  pf_message : string; pf_detail : option Value; pf_stderr_tail : string; pf_tail_truncated : bool }.

(** [Value::as_i64]. *)
Definition as_i64 (v : Value) : option Z :=
  match v with
  | VNumber (PosInt n) => if Z.leb n i64_max then Some n else None
  | VNumber (NegInt n) => Some n
  | _ => None
  end.

Definition i64_value (n : Z) : Value := VNumber (if Z.leb 0 n then PosInt n else NegInt n).

(** [record[field] = value] when the detail has one. *)
Definition put_evidence (field : string) (v : option Value) (record : Fields) : Fields :=
  match v with Some v => field_insert field v record | None => record end.

Definition TEXT_EVIDENCE : list string := ["operation"; "remote_message"; "cleanup_result"].
Definition COUNT_EVIDENCE : list string := ["bytes"; "cap"; "last_event_seq"].

(** The evidence both records copy from the detail. *)
Definition copy_evidence (detail : Value) (budget : nat) (record : Fields) : Fields :=
  let record := fold_left (λ r f, put_evidence f
    (option_map (λ s, VString (bounded_prefix s budget)) (get_str detail f)) r) TEXT_EVIDENCE record in
  let record := fold_left (λ r f, put_evidence f
    (option_map (λ n, VNumber (PosInt n)) (get detail f ≫= as_u64)) r) COUNT_EVIDENCE record in
  put_evidence "remote_code" (option_map i64_value (get detail "remote_code" ≫= as_i64)) record.

Definition opt_str (o : option string) : Value :=
  match o with Some s => VString s | None => VNull end.

Definition detail_message (detail : option Value) (message : string) : string :=
  default message (detail ≫= λ v, get_str v "message").

(** ** Rendering *)

Definition render_fields (f : PersistableFields) (b : PersistableBudgets) : Fields :=
  let record :=
    [("agent_id", VString (bounded_prefix (pf_agent_id f) (b_id b)));
     ("error_code", VString (bounded_prefix (pf_error_code f) (b_code b)));
     ("message", VString (bounded_prefix (detail_message (pf_detail f) (pf_message f)) (b_message b)));
     ("session_id", opt_str (option_map (λ s, bounded_prefix s (b_id b)) (pf_session_id f)));
     ("stage", VString (bounded_prefix (pf_stage f) (b_code b)));
     ("stderr_tail", VString (pf_stderr_tail f));
     ("tail_truncated", VBool (pf_tail_truncated f))] in
  match pf_detail f with Some detail => copy_evidence detail (b_evidence b) record | None => record end.

(** The character boundaries of a string, its end included. *)
Definition boundaries (s : string) : list nat :=
  List.filter (is_char_boundary s) (seq 0 (String.length s)) ++ [String.length s].

(** [while hi - lo > 1]: the smallest feasible index above [lo]. *)
Fixpoint bisect (fuel : nat) (feasible : nat → bool) (lo hi : nat) : nat :=
  match fuel with
  | 0 => hi
  | S fuel =>
      if Nat.ltb 1 (hi - lo) then
        let mid := lo + (hi - lo) / 2 in
        if feasible mid then bisect fuel feasible lo mid else bisect fuel feasible mid hi
      else hi
  end.

Section render.
Context (to_string : Value → string) (from_str : string → result string Value).

Definition parse_detail (message : string) : option Value :=
  match from_str message with Ok v => Some v | Err _ => None end.

Definition render_persistable (f : PersistableFields) (b : PersistableBudgets) : string :=
  to_string (VObject (render_fields f b)).

Definition persistable_record_with_tail (agent_id : string) (session_id : option string)
    (stage error_code message stderr_tail : string) (tail_truncated : bool) : string :=
  render_persistable
    (mk_persistable agent_id session_id stage error_code message (parse_detail message) stderr_tail
       tail_truncated) PERSISTABLE_BUDGETS.

(** The first boundary that leaves at most [cap] bytes of tail. *)
Definition window_start (cap : nat) (tail : string) : nat :=
  next_boundary (String.length tail) tail (String.length tail - cap).

Definition persistable_failure_record (agent_id : string) (session_id : option string)
    (stage error_code message stderr_tail : string) : string :=
  let start := window_start PERSISTABLE_TAIL_BYTES stderr_tail in
  let window := str_drop start stderr_tail in
  let cuts := boundaries window in
  let record cut :=
    persistable_record_with_tail agent_id session_id stage error_code message (str_drop cut window)
      (Nat.ltb 0 start || Nat.ltb 0 cut) in
  let cut index := nth index cuts 0 in
  let feasible index := Nat.leb (String.length (record (cut index))) PERSISTABLE_RECORD_BYTES in
  let chosen := if feasible 0 then 0
                else bisect (length cuts) feasible 0 (length cuts - 1) in
  record (cut chosen).

(** [shrink_persistable_record]; budgets reach their floor after six halvings. *)
Fixpoint shrink_budgets (fuel : nat) (fits : PersistableBudgets → bool) (b : PersistableBudgets)
    : PersistableBudgets :=
  match fuel with
  | 0 => b
  | S fuel => if fits b || at_floor b then b else shrink_budgets fuel fits (shrunk b)
  end.

Definition record_materials (v : Value) (tail : string) (truncated : bool) : PersistableFields :=
  mk_persistable (default "" (get_str v "agent_id")) (get_str v "session_id")
    (default "" (get_str v "stage")) (default "" (get_str v "error_code"))
    (default "" (get_str v "message")) (Some v) tail truncated.

Definition get_bool (v : Value) (key : string) : option bool :=
  match get v key with Some (VBool b) => Some b | _ => None end.

Definition shrink_persistable_record (record : string) (max_bytes : nat) : option string :=
  match parse_detail record with
  | Some (VObject fields) =>
      let v := VObject fields in
      let original_tail := default "" (get_str v "stderr_tail") in
      let original_truncated := default false (get_bool v "tail_truncated") in
      let fits b := Nat.leb (String.length (render_persistable (record_materials v "" false) b)) max_bytes in
      let budgets := shrink_budgets 7 fits PERSISTABLE_BUDGETS in
      let cuts := boundaries original_tail in
      let rendered cut :=
        render_persistable
          (record_materials v (str_drop cut original_tail) (original_truncated || Nat.ltb 0 cut)) budgets in
      let cut index := nth index cuts 0 in
      let feasible index := Nat.leb (String.length (rendered (cut index))) max_bytes in
      let last := length cuts - 1 in
      let chosen := if feasible 0 then 0
                    else if negb (feasible last) then last
                    else bisect (length cuts) feasible 0 last in
      Some (rendered (cut chosen))
  | _ => None
  end.

(** The record for the log. *)
Definition runtime_failure_record (agent_id : string) (session_id : option string)
    (stage error_code message stderr_tail : string) : string :=
  let start := window_start (16 * 1024) stderr_tail in
  let detail := parse_detail message in
  let record :=
    [("agent_id", VString (bounded_error agent_id));
     ("error_code", VString (bounded_prefix error_code 128));
     ("message", VString (bounded_error (detail_message detail message)));
     ("session_id", opt_str (option_map bounded_error session_id));
     ("stage", VString (bounded_prefix stage 128));
     ("stderr_tail", VString (str_drop start stderr_tail))] in
  to_string (VObject (match detail with Some d => copy_evidence d 1024 record | None => record end)).
End render.

(** ** Bounds of failure records

    The bisection ends and finds the longest tail that fits; a stored record never
    exceeds 16 KiB. *)

(** ** Bisection *)

Lemma bisect_spec fuel feasible lo hi :
  lo < hi → hi - lo ≤ fuel → feasible lo = false → feasible hi = true →
  let r := bisect fuel feasible lo hi in
  lo < r ≤ hi ∧ feasible r = true ∧ feasible (r - 1) = false.
Proof.
  cbv zeta. revert lo hi. induction fuel as [|fuel IH]; intros lo hi Hlt Hf Hl Hh; [lia|]. cbn [bisect].
  destruct (Nat.ltb_spec 1 (hi - lo)) as [H|H].
  - assert (0 < (hi - lo) / 2 < hi - lo) as Hm.
    { split; [apply Nat.div_str_pos; lia | apply Nat.div_lt; lia]. }
    destruct (feasible (lo + (hi - lo) / 2)) eqn:E.
    + destruct (IH lo (lo + (hi - lo) / 2)) as (H1 & H2 & H3); try done; try lia. split_and!; [lia | lia | done | done].
    + destruct (IH (lo + (hi - lo) / 2) hi) as (H1 & H2 & H3); try done; try lia. split_and!; [lia | lia | done | done].
  - assert (hi - 1 = lo) as -> by lia. split_and!; [lia | lia | done | done].
Qed.

(** With a feasible end, the index the search settles on, and its predecessor. *)
Lemma search_spec feasible n :
  feasible (n - 1) = true →
  let r := if feasible 0 then 0 else bisect n feasible 0 (n - 1) in
  r ≤ n - 1 ∧ feasible r = true ∧ (0 < r → feasible (r - 1) = false).
Proof.
  intros Hlast. cbv zeta. destruct (feasible 0) eqn:E; [split_and!; [lia | done | lia]|].
  assert (n - 1 ≠ 0) by (intros H; rewrite H in Hlast; congruence).
  destruct (bisect_spec n feasible 0 (n - 1)) as (H1 & H2 & H3); [lia | lia | done | done |].
  split_and!; [lia | done | done].
Qed.

(** ** Boundaries *)

Lemma boundaries_last s : nth (length (boundaries s) - 1) (boundaries s) 0 = String.length s.
Proof.
  unfold boundaries. rewrite length_app, app_nth2; cbn [length]; [|lia].
  by replace (_ - _) with 0 by lia.
Qed.

Lemma boundaries_nth s i :
  i < length (boundaries s) → is_char_boundary s (nth i (boundaries s) 0) = true.
Proof.
  intros H. assert (In (nth i (boundaries s) 0) (boundaries s)) as Hin by by apply nth_In.
  apply in_app_iff in Hin as [[_ Hb]%filter_In | [<- | []]]; [done | apply boundary_end].
Qed.

Lemma filter_sorted (P : nat → bool) a n :
  StronglySorted lt (List.filter P (seq a n)) ∧ Forall (λ x, a ≤ x < a + n) (List.filter P (seq a n)).
Proof.
  revert a. induction n as [|n IH]; intros a; [by split; constructor|]. cbn [seq List.filter].
  destruct (IH (S a)) as [Hs Hb].
  assert (Forall (λ x, a ≤ x < a + S n) (List.filter P (seq (S a) n))) as Hb'.
  { eapply Forall_impl; [exact Hb|]. cbn. lia. }
  destruct (P a); [|done]. split; [|constructor; [lia | done]].
  constructor; [done|]. eapply Forall_impl; [exact Hb|]. cbn. lia.
Qed.

Lemma boundaries_sorted s : StronglySorted lt (boundaries s).
Proof.
  unfold boundaries. destruct (filter_sorted (is_char_boundary s) 0 (String.length s)) as [Hs Hb].
  revert Hs Hb. generalize (List.filter (is_char_boundary s) (seq 0 (String.length s))). intros l.
  induction l as [|x l IH]; intros Hs Hb; cbn [app]; [by repeat constructor|].
  apply StronglySorted_inv in Hs as [Hs Hx]. apply Forall_cons in Hb as [Hx' Hb].
  constructor; [by apply IH|]. apply Forall_app. split; [done|]. by constructor; [lia|].
Qed.

Lemma sorted_nth l i j : StronglySorted lt l → i < j < length l → nth i l 0 < nth j l 0.
Proof.
  intros Hs. revert i j. induction Hs as [|x l _ IH Hx]; intros i j Hij; cbn [length] in *; [lia|].
  destruct j as [|j]; [lia|]. destruct i as [|i]; cbn [nth].
  - rewrite Forall_forall in Hx. apply Hx, list_elem_of_In, nth_In. lia.
  - apply IH. lia.
Qed.

(** ** Size of an encoded object *)

(** The numbers a value can hold. *)
Definition number_ok (n : Number) : Prop :=
  match n with
  | PosInt n => (0 ≤ n ≤ u64_max)%Z
  | NegInt n => (- i64_max - 1 ≤ n < 0)%Z
  | Float _ => True
  end.

Section size.
Context (to_string : Value → string).

Definition json_size (v : Value) : nat := String.length (to_string v).

(** One entry of an object, with the comma or brace that follows it. *)
Definition entry_size (e : string * Value) : nat := json_size (VString e.1) + json_size e.2 + 2.

(** A compact encoder. *)
Class CompactJson : Prop := {
  compact_null : json_size VNull = 4;
  compact_bool b : json_size (VBool b) = if b : bool then 4 else 5;
  compact_integer n : number_ok (PosInt n) → json_size (VNumber (PosInt n)) ≤ 20;
  compact_negative n : number_ok (NegInt n) → json_size (VNumber (NegInt n)) ≤ 20;
  compact_string s : json_size (VString s) ≤ 6 * String.length s + 2;
  compact_suffix s n : is_char_boundary s n = true → json_size (VString (str_drop n s)) ≤ json_size (VString s);
  compact_object e fields : json_size (VObject (e :: fields)) = 1 + list_sum (map entry_size (e :: fields)) }.

Context `{CompactJson}.

Notation weight fields := (list_sum (map entry_size fields)).

Lemma weight_insert k v fields : weight (field_insert k v fields) ≤ weight fields + entry_size (k, v).
Proof.
  induction fields as [|[k' w] fields IH]; cbn [field_insert]; [simpl; lia|].
  destruct (k' ≟ k); [simpl; lia|]. destruct (String.leb k k'); simpl in *; lia.
Qed.

Lemma field_insert_cons k v fields : ∃ e rest, field_insert k v fields = e :: rest.
Proof. destruct fields as [|[k' w] fields]; cbn [field_insert]; [eauto|]. repeat case_match; eauto. Qed.

(** Records with the same keys and smaller values. *)
Definition smaller : Fields → Fields → Prop :=
  Forall2 (λ e e', e.1 = e'.1 ∧ json_size e.2 ≤ json_size e'.2).

Lemma smaller_weight l l' : smaller l l' → weight l ≤ weight l'.
Proof.
  induction 1 as [|[k v] [k' v'] l l' [Hk Hv] _ IH]; [done|]. simpl in Hk, Hv. subst k'.
  change (entry_size (k, v) + weight l ≤ entry_size (k, v') + weight l').
  unfold entry_size at 1 3. simpl. lia.
Qed.

Lemma smaller_insert k v l l' : smaller l l' → smaller (field_insert k v l) (field_insert k v l').
Proof.
  induction 1 as [|[k1 v1] [k2 v2] l l' [Hk Hv] Hl IH]; cbn [field_insert]; [by repeat constructor|].
  cbn in Hk. subst k2. destruct (k1 ≟ k); [by constructor|].
  destruct (String.leb k k1); constructor; try done. by constructor.
Qed.

Lemma smaller_evidence k v l l' : smaller l l' → smaller (put_evidence k v l) (put_evidence k v l').
Proof. destruct v; [apply smaller_insert | done]. Qed.

Lemma smaller_copy detail b l l' :
  smaller l l' → smaller (copy_evidence detail b l) (copy_evidence detail b l').
Proof. intros Hl. unfold copy_evidence, TEXT_EVIDENCE, COUNT_EVIDENCE. cbn [fold_left]. by repeat apply smaller_evidence. Qed.

Lemma smaller_object l l' : l ≠ [] → smaller l l' → json_size (VObject l) ≤ json_size (VObject l').
Proof.
  intros Hl Hs. destruct Hs as [|e e' l l' He Hs]; [done|].
  rewrite !compact_object. apply le_n_S. by apply (smaller_weight (e :: l) (e' :: l')); constructor.
Qed.

Lemma bounded_size s n : 3 ≤ n → json_size (VString (bounded_prefix s n)) ≤ 6 * n + 2.
Proof.
  intros Hn. destruct (bounded_prefix_spec s n Hn) as [Hl _].
  pose proof (compact_string (bounded_prefix s n)). lia.
Qed.

(** ** The record without a tail *)

Lemma weight_evidence k v l n :
  (∀ w, v = Some w → json_size w ≤ n) →
  weight (put_evidence k v l) ≤ weight l + (6 * String.length k + 4 + n).
Proof.
  intros Hv. destruct v as [w|]; cbn [put_evidence]; [|lia].
  pose proof (weight_insert k w l) as Hw. pose proof (compact_string k) as Hk.
  pose proof (Hv w eq_refl) as Hn. change (entry_size (k, w)) with (json_size (VString k) + json_size w + 2) in Hw. lia.
Qed.

(** Every number of the detail is one a value can hold. *)
Definition detail_numbers (detail : Value) : Prop :=
  ∀ k n, get detail k = Some (VNumber n) → number_ok n.

Lemma count_size detail f w :
  detail_numbers detail → option_map (λ n, VNumber (PosInt n)) (get detail f ≫= as_u64) = Some w →
  json_size w ≤ 20.
Proof.
  intros Hd. destruct (get detail f) as [[| |[n| |]| | |]|] eqn:E; try done.
  intros [= <-]. apply compact_integer, (Hd f _ E).
Qed.

Lemma code_size detail f w :
  detail_numbers detail → option_map i64_value (get detail f ≫= as_i64) = Some w → json_size w ≤ 20.
Proof.
  intros Hd. destruct (get detail f) as [[| |[n|n|]| | |]|] eqn:E; try done; cbn.
  - pose proof (Hd f _ E) as Hn. destruct (Z.leb n i64_max); [|done]. intros [= <-].
    unfold i64_value. destruct (Z.leb_spec 0 n); [by apply compact_integer|].
    destruct Hn as [Hn _]. lia.
  - pose proof (Hd f _ E) as Hn. intros [= <-]. unfold i64_value.
    destruct (Z.leb_spec 0 n); [destruct Hn; lia | by apply compact_negative].
Qed.

Lemma text_size detail f b w :
  3 ≤ b → option_map (λ s, VString (bounded_prefix s b)) (get_str detail f) = Some w →
  json_size w ≤ 6 * b + 2.
Proof. intros Hb. destruct (get_str detail f) as [s|]; [|done]. intros [= <-]. by apply bounded_size. Qed.

Lemma weight_copy detail b l :
  3 ≤ b → detail_numbers detail → weight (copy_evidence detail b l) ≤ weight l + (18 * b + 534).
Proof.
  intros Hb Hd. unfold copy_evidence, TEXT_EVIDENCE, COUNT_EVIDENCE. cbn [fold_left].
  set (l1 := put_evidence "operation" _ l). set (l2 := put_evidence "remote_message" _ l1).
  set (l3 := put_evidence "cleanup_result" _ l2). set (l4 := put_evidence "bytes" _ l3).
  set (l5 := put_evidence "cap" _ l4). set (l6 := put_evidence "last_event_seq" _ l5).
  pose proof (weight_evidence "operation" _ l _ (λ w, text_size detail "operation" b w Hb)) as H1.
  pose proof (weight_evidence "remote_message" _ l1 _ (λ w, text_size detail "remote_message" b w Hb)) as H2.
  pose proof (weight_evidence "cleanup_result" _ l2 _ (λ w, text_size detail "cleanup_result" b w Hb)) as H3.
  pose proof (weight_evidence "bytes" _ l3 _ (λ w, count_size detail "bytes" w Hd)) as H4.
  pose proof (weight_evidence "cap" _ l4 _ (λ w, count_size detail "cap" w Hd)) as H5.
  pose proof (weight_evidence "last_event_seq" _ l5 _ (λ w, count_size detail "last_event_seq" w Hd)) as H6.
  pose proof (weight_evidence "remote_code" _ l6 _ (λ w, code_size detail "remote_code" w Hd)) as H7.
  cbn [String.length] in *.
  fold l1 in H1. fold l2 in H2. fold l3 in H3. fold l4 in H4. fold l5 in H5. fold l6 in H6. lia.
Qed.

Lemma put_nonempty k v l : l ≠ [] → put_evidence k v l ≠ [].
Proof. destruct v as [w|]; [|done]. cbn. by destruct (field_insert_cons k w l) as (e & rest & ->). Qed.

Lemma copy_nonempty d b l : l ≠ [] → copy_evidence d b l ≠ [].
Proof.
  intros Hl. unfold copy_evidence, TEXT_EVIDENCE, COUNT_EVIDENCE. cbn [fold_left].
  by repeat apply put_nonempty.
Qed.

Lemma object_weight l : l ≠ [] → json_size (VObject l) = 1 + weight l.
Proof. destruct l; [done|]. intros _. apply compact_object. Qed.

(** The base record: seven entries, their keys and bounded texts. *)
Lemma opt_size o n : 3 ≤ n → json_size (opt_str (option_map (λ s, bounded_prefix s n) o)) ≤ 6 * n + 4.
Proof.
  intros Hn. destruct o as [s|]; cbn; [|rewrite compact_null; lia].
  pose proof (bounded_size s n Hn). lia.
Qed.

Definition budgets_ok (b : PersistableBudgets) : Prop :=
  3 ≤ b_id b ∧ 3 ≤ b_code b ∧ 3 ≤ b_message b ∧ 3 ≤ b_evidence b.

Lemma empty_record_size f b :
  budgets_ok b → (∀ d, pf_detail f = Some d → detail_numbers d) → pf_stderr_tail f = "" →
  json_size (VObject (render_fields f b))
  ≤ 12 * b_id b + 12 * b_code b + 6 * b_message b + 18 * b_evidence b + 980.
Proof.
  intros (H1 & H2 & H3 & H4) Hd Ht. unfold render_fields. rewrite Ht.
  set (base := [_; _; _; _; _; _; _]).
  assert (weight base ≤ 12 * b_id b + 12 * b_code b + 6 * b_message b + 445) as Hb.
  { subst base. simpl. unfold entry_size. simpl.
    pose proof (compact_string "agent_id"). pose proof (compact_string "error_code").
    pose proof (compact_string "message"). pose proof (compact_string "session_id").
    pose proof (compact_string "stage"). pose proof (compact_string "stderr_tail").
    pose proof (compact_string "tail_truncated"). pose proof (compact_string "").
    pose proof (bounded_size (pf_agent_id f) (b_id b) H1).
    pose proof (bounded_size (pf_error_code f) (b_code b) H2).
    pose proof (bounded_size (detail_message (pf_detail f) (pf_message f)) (b_message b) H3).
    pose proof (opt_size (pf_session_id f) (b_id b) H1).
    pose proof (bounded_size (pf_stage f) (b_code b) H2).
    pose proof (compact_bool (pf_tail_truncated f)).
    cbn [String.length] in *. destruct (pf_tail_truncated f); lia. }
  assert (base ≠ []) as Hne by done. clearbody base. destruct (pf_detail f) as [d|].
  - pose proof (weight_copy d (b_evidence b) base H4 (Hd d eq_refl)) as Hc.
    rewrite object_weight by (by apply copy_nonempty). lia.
  - rewrite object_weight by done. lia.
Qed.
End size.

Lemma boundary_index s n :
  is_char_boundary s n = true → ∃ i, i < length (boundaries s) ∧ nth i (boundaries s) 0 = n.
Proof.
  intros Hb. pose proof (boundary_le _ _ Hb) as Hl.
  assert (In n (boundaries s)) as Hin.
  { unfold boundaries. apply in_app_iff. destruct (decide (n = String.length s)) as [->|Hne]; [right; by left|].
    left. apply filter_In. split; [|done]. apply in_seq. lia. }
  destruct (In_nth _ _ 0 Hin) as (i & Hi & Hn). eauto.
Qed.

Lemma boundary_between s a b :
  is_char_boundary s b = true → a < b → is_char_boundary (str_drop a s) (b - a) = true.
Proof.
  intros Hb Hab. pose proof (boundary_le _ _ Hb). apply boundary_of_drop; [rewrite str_drop_length; lia|].
  rewrite str_drop_drop. replace (a + (b - a)) with b by lia.
  destruct b as [|b]; [lia|]. unfold is_char_boundary in Hb. by bool_hyp.
Qed.

Section record.
Context (to_string : Value → string) (from_str : string → result string Value).
Context `{!CompactJson to_string}.
Context (numbers : ∀ message v, from_str message = Ok v → detail_numbers v).
Context (agent_id : string) (session_id : option string) (stage error_code message : string).

Notation record tail truncated :=
  (persistable_record_with_tail to_string from_str agent_id session_id stage error_code message
     tail truncated).

Lemma shorter_tail_smaller tail n t t' :
  is_char_boundary tail n = true → (t' = true → t = true) →
  String.length (record (str_drop n tail) t) ≤ String.length (record tail t').
Proof.
  intros Hb Ht. unfold persistable_record_with_tail, render_persistable.
  change (String.length (to_string ?v)) with (json_size to_string v).
  set (base := λ tail t, [("agent_id", VString (bounded_prefix agent_id (b_id PERSISTABLE_BUDGETS)));
     ("error_code", VString (bounded_prefix error_code (b_code PERSISTABLE_BUDGETS)));
     ("message", VString (bounded_prefix (detail_message (parse_detail from_str message) message)
                            (b_message PERSISTABLE_BUDGETS)));
     ("session_id", opt_str (option_map (λ s, bounded_prefix s (b_id PERSISTABLE_BUDGETS)) session_id));
     ("stage", VString (bounded_prefix stage (b_code PERSISTABLE_BUDGETS)));
     ("stderr_tail", VString tail); ("tail_truncated", VBool t)]).
  assert (smaller to_string (base (str_drop n tail) t) (base tail t')) as Hs.
  { unfold base. do 5 (constructor; [split; [done | apply Nat.le_refl]|]).
    constructor; [split; [done | by apply (compact_suffix to_string)]|].
    constructor; [split; [done|] | constructor]. simpl. rewrite !(compact_bool to_string).
    destruct t, t'; lia. }
  change (render_fields (mk_persistable agent_id session_id stage error_code message ?o ?tl ?tr) ?b)
    with (match o with Some d => copy_evidence d (b_evidence b) (base tl tr) | None => base tl tr end).
  destruct (parse_detail from_str message) as [d|].
  - apply smaller_object; [done | by apply copy_nonempty | by apply smaller_copy].
  - by apply smaller_object.
Qed.

Lemma empty_tail_fits truncated : String.length (record "" truncated) ≤ PERSISTABLE_RECORD_BYTES.
Proof.
  unfold persistable_record_with_tail, render_persistable.
  change (String.length (to_string ?v)) with (json_size to_string v).
  etrans; [apply empty_record_size; [done | | | done]|].
  - unfold budgets_ok. cbn. unfold PERSISTABLE_ID_BYTES, PERSISTABLE_CODE_BYTES, PERSISTABLE_MESSAGE_BYTES,
      PERSISTABLE_EVIDENCE_BYTES. lia.
  - intros d Hd. cbn in Hd. unfold parse_detail in Hd. destruct (from_str message) eqn:E; [|done].
    injection Hd as <-. by eapply numbers.
  - cbn [b_id b_code b_message b_evidence PERSISTABLE_BUDGETS].
    unfold PERSISTABLE_RECORD_BYTES, PERSISTABLE_ID_BYTES, PERSISTABLE_CODE_BYTES,
      PERSISTABLE_MESSAGE_BYTES, PERSISTABLE_EVIDENCE_BYTES. lia.
Qed.

(** A failure record that is stored has at most 16 KiB, whatever the failure
    and the error output, and keeps the longest tail of the output that fits: the
    tail starts at a character boundary of the last 12 KiB, and every record with
    a longer tail of these exceeds 16 KiB.  The search that finds it ends. *)
Theorem persistable_record_bounded_and_maximal stderr_tail :
  let start := window_start PERSISTABLE_TAIL_BYTES stderr_tail in
  let window := str_drop start stderr_tail in
  let stored := persistable_failure_record to_string from_str agent_id session_id stage error_code
                  message stderr_tail in
  let with_tail cut := record (str_drop cut window) (Nat.ltb 0 start || Nat.ltb 0 cut) in
  is_char_boundary stderr_tail start = true ∧ String.length window ≤ PERSISTABLE_TAIL_BYTES
  ∧ String.length stored ≤ PERSISTABLE_RECORD_BYTES
  ∧ ∃ cut, is_char_boundary window cut = true ∧ stored = with_tail cut
     ∧ ∀ cut', is_char_boundary window cut' = true → cut' < cut →
         PERSISTABLE_RECORD_BYTES < String.length (with_tail cut').
Proof.
  intros start window stored with_tail.
  destruct (next_boundary_spec (String.length stderr_tail) stderr_tail
    (String.length stderr_tail - PERSISTABLE_TAIL_BYTES)) as [Hb Hl]; [lia | lia |].
  fold (window_start PERSISTABLE_TAIL_BYTES stderr_tail) in Hb, Hl. fold start in Hb, Hl.
  set (cuts := boundaries window).
  set (feasible := λ i, Nat.leb (String.length (with_tail (nth i cuts 0))) PERSISTABLE_RECORD_BYTES).
  assert (feasible (length cuts - 1) = true) as Hlast.
  { unfold feasible, cuts. rewrite boundaries_last. apply Nat.leb_le. unfold with_tail.
    rewrite str_drop_all by lia. apply empty_tail_fits. }
  destruct (search_spec feasible (length cuts) Hlast) as (Hr & Hf & Hprev).
  set (chosen := if feasible 0 then 0 else bisect (length cuts) feasible 0 (length cuts - 1)) in *.
  assert (stored = with_tail (nth chosen cuts 0)) as Hst by reflexivity.
  assert (length cuts ≠ 0) as Hn0 by (unfold cuts, boundaries; rewrite length_app; cbn; lia).
  split_and!; [done | unfold window; rewrite str_drop_length; lia | rewrite Hst; by apply Nat.leb_le |].
  exists (nth chosen cuts 0). split_and!; [apply boundaries_nth; fold cuts; lia | done |].
  intros cut' Hcut' Hlt. destruct (boundary_index _ _ Hcut') as (i & Hi & Hnth). fold cuts in Hi, Hnth.
  assert (i < chosen) as Hic.
  { destruct (decide (i < chosen)) as [|Hge]; [done|]. exfalso.
    destruct (decide (i = chosen)) as [->|]; [lia|].
    pose proof (sorted_nth cuts chosen i (boundaries_sorted window)). lia. }
  assert (feasible (chosen - 1) = false) as Hp by (apply Hprev; lia). apply Nat.leb_gt in Hp.
  eapply Nat.lt_le_trans; [exact Hp|].
  destruct (decide (i = chosen - 1)) as [->|Hne]; [by rewrite Hnth|].
  assert (cut' < nth (chosen - 1) cuts 0) as Hlt'.
  { rewrite <- Hnth. apply sorted_nth; [apply boundaries_sorted | lia]. }
  unfold with_tail. set (c := nth (chosen - 1) cuts 0) in *.
  replace (str_drop c window) with (str_drop (c - cut') (str_drop cut' window))
    by (rewrite str_drop_drop; f_equal; lia).
  apply shorter_tail_smaller.
  - apply boundary_between; [|done]. apply boundaries_nth. fold cuts. lia.
  - intros _. apply orb_true_iff. right. apply Nat.ltb_lt. lia.
Qed.
End record.

(** The loop over the budgets ends: seven rounds reach a budget that fits or the
    floor. *)
Theorem shrink_budgets_settles fits :
  let b := shrink_budgets 7 fits PERSISTABLE_BUDGETS in fits b || at_floor b = true.
Proof.
  cbv zeta.
  assert (∀ fuel b, at_floor (Nat.iter fuel shrunk b) = true →
    fits (shrink_budgets (S fuel) fits b) || at_floor (shrink_budgets (S fuel) fits b) = true) as H.
  { induction fuel as [|fuel IH]; intros b Hf; cbn [shrink_budgets].
    - destruct (fits b || at_floor b) eqn:E; [done|]. cbn in Hf. by rewrite Hf, orb_true_r in E.
    - destruct (fits b || at_floor b) eqn:E; [done|]. apply IH. by rewrite <- Nat.iter_succ_r. }
  apply H. by vm_compute.
Qed.

(** ** A compact encoder *)

Module PlainJson.
Definition quote : string := String (byte_of 34) EmptyString.
Definition quoted (s : string) : string := quote +:+ s +:+ quote.

Definition entries (encode : Value → string) : Fields → string :=
  fix go (l : Fields) : string :=
    match l with
    | [] => ""
    | (k, w) :: l => quoted k +:+ ":" +:+ encode w +:+ "," +:+ go l
    end.

Fixpoint encode (v : Value) : string :=
  match v with
  | VNull => "null"
  | VBool b => if b then "true" else "false"
  | VNumber _ => "0"
  | VString s => quoted s
  | VArray _ => "[]"
  | VObject fields =>
      "{" +:+ entries encode fields
  end.

Lemma entries_length l :
  String.length (entries encode l) = list_sum (map (entry_size encode) l).
Proof.
  induction l as [|[k w] l IH]; [done|].
  change (entries encode ((k, w) :: l))
    with (quoted k +:+ ":" +:+ encode w +:+ "," +:+ entries encode l).
  change (list_sum (map (entry_size encode) ((k, w) :: l)))
    with (String.length (quoted k) + String.length (encode w) + 2
          + list_sum (map (entry_size encode) l)).
  rewrite !(string_app_length (quoted k)), !(string_app_length ":"), !(string_app_length (encode w)),
    !(string_app_length ","), IH. cbn [String.length]. lia.
Qed.

Lemma encode_compact : CompactJson encode.
Proof.
  split; unfold json_size; try done.
  - by intros [].
  - intros. cbn. lia.
  - intros. cbn. lia.
  - intros s. cbn. rewrite !string_app_length. cbn. lia.
  - intros s n _. cbn. rewrite !string_app_length, str_drop_length. cbn. lia.
  - intros e fields. cbn [encode]. rewrite string_app_length, entries_length. done.
Qed.

Definition no_json (_ : string) : result string Value := Err "not JSON".
End PlainJson.

Lemma persistable_record_bounded_and_maximal_witness :
  String.length (persistable_failure_record PlainJson.encode PlainJson.no_json "10000000" (Some "s")
    "runtime" "CODE" "lost" "boom") ≤ PERSISTABLE_RECORD_BYTES.
Proof.
  pose proof PlainJson.encode_compact.
  destruct (persistable_record_bounded_and_maximal PlainJson.encode PlainJson.no_json
    (λ m v (H : Err "not JSON" = Ok v), False_ind _ (eq_ind (Err "not JSON")
       (λ r : result string Value, match r with Ok _ => False | Err _ => True end) I (Ok v) H))
    "10000000" (Some "s") "runtime" "CODE" "lost" "boom") as (_ & _ & Hl & _). exact Hl.
Defined.
