(* ===== verification/Recovery.v ===== *)
(** * Recovery and unstarted tasks

    [crates/external-daemon/src/scheduler/recovery.rs], and the completion of
    tasks without a runtime ([lifecycle.rs], [control.rs]), as sequences of store
    operations.

    A step of the scheduler is a state-and-error computation on the database.  What
    stopping a stored process group returned and what observing one showed are
    arguments, as are the JSON text functions and the decoder serde derives for a
    prepared task.  An operation uses one clock reading; the in-memory map of the
    latest failures and the log lines are left out. *)

From S2P Require Import Prelude RustStr Utf8 Json Contract General StoreRecords StoreSql StoreOps RuntimeOwner Diagnostics RuntimeLifecycle Sink.

(** ** Errors ([types.rs]) *)

Inductive SchedulerError :=
| SStore (e : StoreError)
| InvalidConfig (message : string)
| RuntimeSpawn (agent_id message : string)
| LifecycleSinkError (agent_id message : string)
| RuntimeCommand (agent_id message : string)
| StartTimeout (agent_id message : string)
| Interrupted (agent_id : string)
| StartFailed (agent_id reason message : string).

(** A scheduler operation on the database. *)
Definition Sched (A : Type) : Type := Db → result SchedulerError A * Db.

#[global] Instance sched_ret : MRet Sched := λ A a db, (Ok a, db).
#[global] Instance sched_bind : MBind Sched := λ A B f m db,
  match m db with (Ok a, db') => f a db' | (Err e, db') => (Err e, db') end.

Definition sched_fail {A} (e : SchedulerError) : Sched A := λ db, (Err e, db).

(** [?] on a store operation, and on a store query. *)
Definition store_op {A} (op : Db → StoreResult A * Db) : Sched A := λ db,
  match op db with (Ok a, db') => (Ok a, db') | (Err e, db') => (Err (SStore e), db') end.
Definition store_query {A} (q : Db → StoreResult A) : Sched A := λ db,
  match q db with Ok a => (Ok a, db) | Err e => (Err (SStore e), db) end.
Definition store_read {A} (q : Db → A) : Sched A := λ db, (Ok (q db), db).

(** [get_task(..)?.ok_or_else(..)]. *)
Definition required_task (id message : string) : Sched TaskRecord :=
  found ← store_query (get_task id);
  match found with Some t => mret t | None => sched_fail (SStore (InvalidState message)) end.

Record UnstartedTerminal := mk_unstarted {
  un_outcome : CompletionOutcome; un_reason : string; un_message : string; un_failure : option string }.

Definition cancelled_before_launch : UnstartedTerminal :=
  mk_unstarted CCancelled "CANCELLED" "task cancelled before runtime launch" None.

Section scheduler.
Context (to_string : Value → string) (from_str : string → result string Value)
  (decode_prepared : Value → option PreparedGeneralTask)
  (sqlite_text : SqliteError → string) (task_result_digest : TaskResult → string).

(** ** Routes ([lib.rs]) *)

Definition task_route (task : TaskRecord) : result string PreparedGeneralTask :=
  match from_str (prepared_launch_json (rec_spec task)) with
  | Err _ => Err "stored prepared launch is invalid"
  | Ok value =>
      match get_str value "schema" with
      | Some schema =>
          if schema ≟ GENERAL_TASK_SCHEMA then
            match decode_prepared value with
            | None => Err "stored general preparation is invalid"
            | Some prepared =>
                if negb (workspace_path (rec_spec task) ≟ ws_path (workspace prepared))
                then Err "stored task does not match its general preparation"
                else Ok prepared
            end
          else Err "stored prepared launch uses an unknown task schema"
      | None => Err "stored prepared launch omitted task schema"
      end
  end.

Definition task_agent (task : TaskRecord) : string :=
  match task_route task with
  | Ok prepared => match admission prepared with Some a => agent a | None => "zcode" end
  | Err _ => "zcode"
  end.

(** ** Completion without a runtime ([lifecycle.rs]) *)

Definition persist_general_completion (now : Z) (id : string) (c : GeneralCompletion) (reap : bool)
    : Sched TaskPhase := λ db,
  match persist_general_result task_result_digest now id c db with
  | (persisted, db) =>
      (_ ← match persisted with
           | Ok _ => mret tt
           | Err e =>
               existing ← store_read (task_result id);
               match existing with
               | Some _ => mret tt
               | None =>
                   let message := persistable_failure_record to_string from_str id None "result_persist"
                                    "RESULT_PERSIST_FAILED" (store_error_text sqlite_text e) "" in
                   store_op (store_result_with_cancel_precedence task_result_digest now id
                               bounded_result_invalid_task_result None (Some message))
               end
           end;
       _ ← (if reap then _ ← store_op (reap_task now id); mret tt else mret tt : Sched unit);
       task ← required_task id "terminal general task disappeared";
       mret (rec_phase task)) db
  end.

Definition finish_unstarted_route (now : Z) (id : string) (t : UnstartedTerminal)
    (resources_reaped : bool) : Sched TaskPhase :=
  let c := if resources_reaped
           then finalized_general (un_outcome t) (un_reason t) (un_message t) (un_failure t)
           else unreaped_general (un_outcome t) (un_reason t) (un_message t) (un_failure t) in
  persist_general_completion now id c (resources_reaped && cleaned c).

(** ** Stop and close without an active runtime ([control.rs]) *)

Definition invalid_prepared_cancellation : TaskResult :=
  minimal_task_result CCancelled "task cancelled with invalid prepared metadata"
    "CANCELLED_PREPARED_INVALID".

(** A task that is being cancelled and has no runtime.  The last [get_task] cannot
    fail once the result is stored: [expect]. *)
Definition finish_inactive (now : Z) (id : string) : Sched TaskPhase :=
  job ← required_task id ("unknown task " +:+ id);
  match task_route job with
  | Ok _ => finish_unstarted_route now id cancelled_before_launch true
  | Err _ =>
      _ ← store_op (store_task_result task_result_digest now id invalid_prepared_cancellation);
      task ← required_task id "cancelled task must remain durable";
      mret (rec_phase task)
  end.

Definition stop_or_close_inactive (now : Z) (id : string) (close : bool) : Sched TaskPhase :=
  decision ← store_op (if close then request_close now id else request_stop now id);
  if cd_needs_runtime_stop decision then mret (cd_phase decision)
  else if bool_decide (cd_phase decision = Cancelling) then finish_inactive now id
  else mret (cd_phase decision).

(** ** Startup ([recovery.rs]) *)

Definition flagged_task (t : TaskRecord) : bool := rec_stop_requested t || rec_close_requested t.

Definition store_invalid_prepared_terminal (now : Z) (task : TaskRecord) (message : string)
    : Sched unit :=
  let id := task_id (rec_spec task) in
  let '(o, reason, text) :=
    if flagged_task task
    then (CCancelled, "CANCELLED_PREPARED_INVALID", "task cancelled with invalid prepared metadata")
    else (CResultInvalid, "PREPARED_LAUNCH_INVALID", message) in
  let failure :=
    if bool_decide (o = CResultInvalid)
    then Some (persistable_failure_record to_string from_str id (rec_session_id task) "recovery" reason text "")
    else None in
  store_op (store_task_result_with_reason task_result_digest now id (minimal_task_result o text reason)
              None failure).

Definition finish_never_claimed_cancellation (now : Z) (task : TaskRecord) : Sched unit :=
  match task_route task with
  | Ok _ => _ ← finish_unstarted_route now (task_id (rec_spec task)) cancelled_before_launch true; mret tt
  | Err message => store_invalid_prepared_terminal now task message
  end.

Definition reap_terminal_row (now : Z) (task : TaskRecord) : Sched unit :=
  let id := task_id (rec_spec task) in
  match task_route task with
  | Err _ => _ ← store_op (reap_task now id); mret tt
  | Ok _ =>
      result ← store_read (task_result id);
      match result with
      | None => sched_fail (RuntimeCommand id "terminal task has no immutable result")
      | Some _ =>
          if negb (cleaned (finalize CRuntimeLost))
          then sched_fail (RuntimeCommand id "terminal worktree recovery did not prove cleanup")
          else _ ← store_op (reap_task now id); mret tt
      end
  end.

(** Whether a row never had a runtime and only waits for its cancellation. *)
Definition unclaimed_cancellation (task : TaskRecord) : bool :=
  let never_claimed := bool_decide (rec_phase task = Cancelling) && Z.eqb (rec_owner_epoch task) 0
                       && negb (is_some (rec_session_id task)) in
  (bool_decide (rec_phase task = Queued) || never_claimed) && rec_stop_requested task
  && negb (is_some (rec_runtime_agent_id task)) && negb (is_some (rec_process_identity task)).

(** The identity of a runtime to reap: complete, absent where none can exist, or
    refused.  [reaped] is what stopping the stored group returned. *)
Definition recover_process (task : TaskRecord) (reaped : result string unit) : Sched unit :=
  let id := task_id (rec_spec task) in
  match rec_runtime_agent_id task, rec_process_identity task with
  | Some _, Some _ =>
      match reaped with
      | Ok _ => mret tt
      | Err e => sched_fail (RuntimeCommand id ("startup process-group recovery failed: " +:+ e))
      end
  | None, None =>
      if phase_in [Preparing; Terminal] (rec_phase task) then mret tt
      else sched_fail (RuntimeCommand id "startup runtime identity is incomplete; refusing unverified reap")
  | _, _ =>
      sched_fail (RuntimeCommand id "startup runtime identity is incomplete; refusing unverified reap")
  end.

Definition recovered_terminal (task : TaskRecord) : GeneralCompletion :=
  let '(o, reason, message) :=
    if flagged_task task
    then (CCancelled, "CANCELLED", "task cancellation was recovered after daemon restart")
    else (CRuntimeLost, "DAEMON_RESTART_RUNTIME_LOST", "daemon restarted while task runtime was active") in
  finalized_general o reason message
    (if bool_decide (o = CRuntimeLost)
     then Some (persistable_failure_record to_string from_str (task_id (rec_spec task))
                  (rec_session_id task) "recovery" reason message "")
     else None).

Definition recover_startup_task (now : Z) (task : TaskRecord) (reaped : result string unit)
    : Sched unit :=
  let id := task_id (rec_spec task) in
  if unclaimed_cancellation task then
    if bool_decide (rec_phase task = Queued)
    then _ ← stop_or_close_inactive now id false; mret tt
    else finish_never_claimed_cancellation now task
  else
    _ ← recover_process task reaped;
    if bool_decide (rec_phase task = Terminal) then reap_terminal_row now task
    else
      match task_route task with
      | Err message => store_invalid_prepared_terminal now task message
      | Ok _ =>
          let c := recovered_terminal task in
          if negb (cleaned c)
          then sched_fail (RuntimeCommand id "startup worktree recovery did not prove cleanup")
          else
            _ ← store_op (persist_general_result task_result_digest now id c);
            _ ← store_op (reap_task now id);
            mret tt
      end.

(** The loop of [reconcile_startup]; [reaped] gives the outcome for each task. *)
Fixpoint recover_all (now : Z) (reaped : TaskRecord → result string unit) (l : list TaskRecord)
    : Sched (list (string * TaskOutcome)) :=
  match l with
  | [] => mret []
  | task :: l =>
      let id := task_id (rec_spec task) in
      _ ← recover_startup_task now task (reaped task);
      terminal ← required_task id "startup recovery task disappeared";
      match rec_outcome terminal with
      | None => sched_fail (SStore (InvalidState "startup recovery did not terminalize the task"))
      | Some o => rest ← recover_all now reaped l; mret ((id, o) :: rest)
      end
  end.

Definition reconcile_startup (now : Z) (active : bool) (reaped : TaskRecord → result string unit)
    : Sched (list (string * TaskOutcome)) :=
  if active then sched_fail (InvalidConfig "startup reconciliation requires an empty active set")
  else
    tasks ← store_query startup_recovery_tasks;
    recover_all now reaped tasks.

(** [reap_terminal_stragglers]: [group_empty] is what observing a group showed. *)
Definition straggler_reapable (group_empty : StoredProcessIdentity → option bool) (task : TaskRecord)
    : bool :=
  match rec_runtime_agent_id task, rec_process_identity task with
  | None, None => true
  | Some _, Some identity => match group_empty identity with Some true => true | _ => false end
  | _, _ => false
  end.

Definition reap_terminal_stragglers (now : Z) (group_empty : StoredProcessIdentity → option bool)
    (db : Db) : Db :=
  match terminal_unreaped_tasks db with
  | Err _ => db
  | Ok tasks =>
      fold_left (λ db task, if straggler_reapable group_empty task
                            then (reap_terminal_row now task db).2 else db) tasks db
  end.
End scheduler.
