(* ===== verification/RecoveryProps.v ===== *)
(** * Properties of recovery

    Startup recovery is a history of store operations that leaves every task
    terminal or unstarted and unflagged and honours cancellations. *)

From stdpp Require Import relations sorting.
From S2P Require Import Prelude RustStr Utf8 Json Contract General StoreRecords StoreSql StoreOps StoreView StoreRefine StoreProps RuntimeOwner Diagnostics RuntimeLifecycle Sink SinkProps Recovery.

(** ** Operations that touch one task *)

Definition only (id : string) (db db' : Db) : Prop :=
  row_id <$> tasks db' = row_id <$> tasks db
  ∧ ∀ id', id' ≠ id → find_task id' (tasks db') = find_task id' (tasks db).

Lemma only_refl id db : only id db db.
Proof. done. Qed.

Lemma only_trans id db1 db2 db3 : only id db1 db2 → only id db2 db3 → only id db1 db3.
Proof. intros [E1 F1] [E2 F2]. split; [congruence|]. intros id' H. by rewrite F2, F1. Qed.

Definition tx_only (id : string) {A} (t : Tx A) : Prop :=
  ∀ db a db', t db = Ok (a, db') → only id db db'.

Lemma tx_only_bind id {A B} (m : Tx A) (f : A → Tx B) :
  tx_only id m → (∀ a, tx_only id (f a)) → tx_only id (m ≫= f).
Proof.
  intros Hm Hf db b db' (a & db1 & H1 & H2)%tx_bind_ok.
  eapply only_trans; [by eapply Hm | by eapply Hf].
Qed.

Lemma tx_only_get id {A} (f : Db → A) : tx_only id (tx_get f).
Proof. by intros db a db' [_ ->]%tx_get_ok. Qed.
Lemma tx_only_ret id {A} (a : A) : tx_only id (mret a).
Proof. by intros db b db' [_ ->]%tx_ret_ok. Qed.
Lemma tx_only_lift id {A} (r : StoreResult A) : tx_only id (tx_lift r).
Proof. by intros db a db' [_ ->]%tx_lift_ok. Qed.
Lemma tx_only_fail id {A} e : tx_only id (tx_fail e : Tx A).
Proof. done. Qed.
Lemma tx_only_put id f : (∀ db, tasks (f db) = tasks db) → tx_only id (tx_put f).
Proof. intros H db u db' ->%tx_put_ok. split; [by rewrite H|]. intros. by rewrite H. Qed.
Lemma tx_only_query id i : tx_only id (query_task i).
Proof. by intros db o db' [_ ->]%query_task_ok. Qed.
Lemma tx_only_guard id i : tx_only id (query_guard i).
Proof. by intros db g db' (-> & _)%query_guard_ok. Qed.

Lemma tx_only_update id P f :
  (∀ r, P r = true → row_id r = id) → (∀ r, row_id (f r) = row_id r) → tx_only id (update_tasks P f).
Proof.
  intros HP Hf db n db' (_ & -> & _)%update_tasks_ok. split.
  - simpl. by apply update_rows_fmap.
  - intros id' Hne. simpl. rewrite find_update_rows by done.
    destruct (find_task id' (tasks db)) as [r|] eqn:E; [|done]. simpl.
    destruct (P r) eqn:EP; [|done]. apply find_task_id in E as [E _]. apply HP in EP. congruence.
Qed.

Lemma tx_only_ledger id now i epoch from to o reason : tx_only id (insert_ledger now i epoch from to o reason).
Proof. by intros db u db' ->%insert_ledger_ok. Qed.

Lemma tx_only_settle id i reason : tx_only id (settle_terminal_commands i reason).
Proof. by intros db u db' ->%settle_ok. Qed.

#[local] Hint Resolve tx_only_bind tx_only_get tx_only_ret tx_only_lift tx_only_fail tx_only_query
  tx_only_guard tx_only_ledger tx_only_settle : tx_only.

Lemma tx_only_terminal now id epoch from close stop t : tx_only id (apply_terminal now id epoch from close stop t).
Proof.
  unfold apply_terminal. case_bool_decide; [auto with tx_only|]. cbv zeta.
  apply tx_only_bind; [auto with tx_only|]. intros e. apply tx_only_bind.
  - apply tx_only_update; [|done]. intros r Hr. by bool_hyp.
  - intros n. destruct (negb _); auto with tx_only.
Qed.

Lemma immediate_only id {A} (t : Tx A) db : tx_only id t → only id db (immediate t db).2.
Proof. intros H. unfold immediate. destruct (t db) as [[a db']|] eqn:E; [by eapply H | done]. Qed.

Section ops.
Context (digest : TaskResult → string).

Lemma result_only now id result reason fm db :
  only id db (store_task_result_with_reason digest now id result reason fm db).2.
Proof.
  unfold store_task_result_with_reason. destruct (validate_result result); [|done].
  apply immediate_only. apply tx_only_bind; [auto with tx_only|]. intros found.
  apply tx_only_bind; [auto with tx_only|]. intros task. apply tx_only_bind; [auto with tx_only|].
  intros [x|]; [destruct (_ ≟ _); auto with tx_only|].
  apply tx_only_bind; [|intros _; apply tx_only_bind; [|intros _; apply tx_only_bind;
    [apply tx_only_terminal | auto with tx_only]]].
  - intros db1 u db2 (-> & _)%check_result_ok. done.
  - intros db1 u db2. unfold insert_result. destruct (is_some _); [done|]. by intros [= _ <-].
Qed.

Lemma reap_only now id db : only id db (reap_task now id db).2.
Proof.
  unfold reap_task, after_commit. simpl. apply immediate_only. apply tx_only_bind; [auto with tx_only|].
  intros g. destruct (negb _); [auto with tx_only|]. apply tx_only_bind; [|auto with tx_only].
  apply tx_only_update; [|done]. intros r Hr. by bool_hyp.
Qed.

Lemma stop_only now id close intent db : only id db (request_stop_internal now id close intent db).2.
Proof.
  unfold request_stop_internal. apply immediate_only. apply tx_only_bind; [auto with tx_only|]. intros g.
  apply tx_only_bind; [apply tx_only_update; [intros r Hr; by bool_hyp | done]|]. intros _.
  apply tx_only_bind; [|auto with tx_only]. destruct (negb _); [|auto with tx_only].
  apply tx_only_bind; [auto with tx_only|]. intros _. destruct (negb _); auto with tx_only.
Qed.

(** ** Scheduler operations as histories of one task *)

Definition framed (id : string) {A} (m : Sched A) : Prop :=
  ∀ db, rtc (store_step digest) db (m db).2 ∧ only id db (m db).2.

Lemma framed_ret id {A} (a : A) : framed id (mret a).
Proof. intros db. split; [apply rtc_refl | done]. Qed.
Lemma framed_fail id {A} e : framed id (sched_fail e : Sched A).
Proof. intros db. split; [apply rtc_refl | done]. Qed.
Lemma framed_query id {A} (q : Db → StoreResult A) : framed id (store_query q).
Proof. intros db. unfold store_query. destruct (q db); (split; [apply rtc_refl | done]). Qed.
Lemma framed_read id {A} (q : Db → A) : framed id (store_read q).
Proof. intros db. split; [apply rtc_refl | done]. Qed.

Lemma framed_bind id {A B} (m : Sched A) (f : A → Sched B) :
  framed id m → (∀ a, framed id (f a)) → framed id (m ≫= f).
Proof.
  intros Hm Hf db. unfold mbind, sched_bind. destruct (Hm db) as [H1 O1].
  destruct (m db) as [[a|e] db1]; [|done]. cbn [snd] in *. destruct (Hf a db1) as [H2 O2].
  split; [by etrans | by eapply only_trans].
Qed.

Lemma framed_op id {A} (op : Db → StoreResult A * Db) :
  (∀ db, rtc (store_step digest) db (op db).2) → (∀ db, only id db (op db).2) → framed id (store_op op).
Proof.
  intros H1 H2 db. unfold store_op. specialize (H1 db). specialize (H2 db).
  by destruct (op db) as [[] db'].
Qed.

Lemma framed_reap id now : framed id (store_op (reap_task now id)).
Proof. apply framed_op; intros db; [apply rtc_once, do_reap | apply reap_only]. Qed.

Lemma framed_stop id now close :
  framed id (store_op (if close : bool then request_close now id else request_stop now id)).
Proof.
  apply framed_op; intros db; destruct close; try apply stop_only; apply rtc_once; [apply do_close | apply do_stop].
Qed.

Lemma framed_result id now result reason fm :
  framed id (store_op (store_task_result_with_reason digest now id result reason fm)).
Proof. apply framed_op; intros db; [apply rtc_once, do_result | apply result_only]. Qed.

Lemma precedence_framed now id result reason fm db :
  rtc (store_step digest) db (store_result_with_cancel_precedence digest now id result reason fm db).2
  ∧ only id db (store_result_with_cancel_precedence digest now id result reason fm db).2.
Proof.
  unfold store_result_with_cancel_precedence.
  pose proof (do_result digest now id result reason fm db) as Hs.
  pose proof (result_only now id result reason fm db) as Ho.
  destruct (store_task_result_with_reason digest now id result reason fm db) as [[[]|e] db1]; cbn [snd] in *.
  { split; [by apply rtc_once | done]. }
  destruct e as [| | |m]; try (split; [by apply rtc_once | done]).
  destruct (get_task id db1) as [[t|]|]; try (split; [by apply rtc_once | done]).
  destruct (_ && _ && _); [|split; [by apply rtc_once | done]].
  split; [|eapply only_trans; [exact Ho | apply result_only]].
  etrans; [by apply rtc_once | apply rtc_once, do_result].
Qed.

Lemma framed_precedence id now result reason fm :
  framed id (store_op (store_result_with_cancel_precedence digest now id result reason fm)).
Proof. apply framed_op; intros db; apply precedence_framed. Qed.

Lemma framed_required id i m : framed id (required_task i m).
Proof.
  apply framed_bind; [apply framed_query|]. intros [t|]; [apply framed_ret | apply framed_fail].
Qed.
End ops.

#[local] Hint Resolve framed_ret framed_fail framed_query framed_read framed_bind framed_reap
  framed_stop framed_result framed_precedence framed_required : framed.

Section recovery.
Context (digest : TaskResult → string).
Context (to_string : Value → string) (from_str : string → result string Value)
  (decode_prepared : Value → option PreparedGeneralTask) (sqlite_text : SqliteError → string).

Notation history := (rtc (store_step digest)).
Notation route := (task_route from_str decode_prepared).
Notation completion := (persist_general_completion to_string from_str sqlite_text digest).
Notation unstarted := (finish_unstarted_route to_string from_str sqlite_text digest).
Notation inactive := (stop_or_close_inactive to_string from_str decode_prepared sqlite_text digest).
Notation invalid_prepared := (store_invalid_prepared_terminal to_string from_str digest).
Notation never_claimed :=
  (finish_never_claimed_cancellation to_string from_str decode_prepared sqlite_text digest).
Notation recover :=
  (recover_startup_task to_string from_str decode_prepared sqlite_text digest).
Notation recover_list := (recover_all to_string from_str decode_prepared sqlite_text digest).
Notation reconcile := (reconcile_startup to_string from_str decode_prepared sqlite_text digest).

Lemma framed_completion now id c reap : framed digest id (completion now id c reap).
Proof.
  intros db. unfold persist_general_completion, persist_general_result.
  destruct (precedence_framed digest now id (completion_result c) (completion_reason c)
    (failure_message c) db) as [H1 O1].
  destruct (store_result_with_cancel_precedence digest now id _ _ _ db) as [persisted db1].
  cbn [snd] in H1, O1.
  match goal with |- rtc _ _ (?m db1).2 ∧ _ => assert (framed digest id m) as Hm end.
  { apply framed_bind; [|intros _; apply framed_bind; [|auto with framed]].
    - destruct persisted; [auto with framed|]. apply framed_bind; [auto with framed|].
      intros [x|]; auto with framed.
    - destruct reap; auto with framed. }
  destruct (Hm db1) as [H2 O2]. split; [by etrans | by eapply only_trans].
Qed.

Lemma framed_unstarted now id t reaped : framed digest id (unstarted now id t reaped).
Proof. apply framed_completion. Qed.

#[local] Hint Resolve framed_unstarted : framed.

Lemma framed_finish_inactive now id :
  framed digest id (finish_inactive to_string from_str decode_prepared sqlite_text digest now id).
Proof.
  apply framed_bind; [auto with framed|]. intros job.
  destruct (route job); [auto with framed|].
  apply framed_bind; [apply framed_result | auto with framed].
Qed.
#[local] Hint Resolve framed_finish_inactive : framed.

Lemma framed_inactive now id close : framed digest id (inactive now id close).
Proof.
  apply framed_bind; [apply framed_stop|]. intros d. destruct (cd_needs_runtime_stop d); [auto with framed|].
  case_bool_decide; auto with framed.
Qed.

Lemma framed_invalid now task message : framed digest (task_id (rec_spec task)) (invalid_prepared now task message).
Proof. unfold store_invalid_prepared_terminal. destruct (flagged_task task); apply framed_result. Qed.

Lemma framed_never now task : framed digest (task_id (rec_spec task)) (never_claimed now task).
Proof. unfold finish_never_claimed_cancellation. destruct (route task); [auto with framed | apply framed_invalid]. Qed.

Lemma framed_reap_row now task :
  framed digest (task_id (rec_spec task)) (reap_terminal_row from_str decode_prepared now task).
Proof.
  unfold reap_terminal_row. destruct (route task); [|auto with framed].
  apply framed_bind; [auto with framed|]. intros [x|]; [|auto with framed].
  destruct (negb _); auto with framed.
Qed.

Lemma framed_recover now task reaped : framed digest (task_id (rec_spec task)) (recover now task reaped).
Proof.
  unfold recover_startup_task. destruct (unclaimed_cancellation task).
  { case_bool_decide; [|apply framed_never]. apply framed_bind; [apply framed_inactive | auto with framed]. }
  apply framed_bind.
  { unfold recover_process. destruct (rec_runtime_agent_id task), (rec_process_identity task);
      [destruct reaped| | |destruct (phase_in _ _)]; auto with framed. }
  intros _. case_bool_decide; [apply framed_reap_row|].
  destruct (route task); [|apply framed_invalid].
  destruct (negb _); [auto with framed|].
  apply framed_bind; [apply framed_precedence | auto with framed].
Qed.

(** ** Every recovered task ends *)

Definition ends (id : string) (db : Db) : Prop :=
  ∃ r, find_task id (tasks db) = Some r ∧ phase r = Terminal.

Lemma sched_bind_ok {A B} (m : Sched A) (f : A → Sched B) db b db' :
  (m ≫= f) db = (Ok b, db') → ∃ a db1, m db = (Ok a, db1) ∧ f a db1 = (Ok b, db').
Proof. unfold mbind, sched_bind. destruct (m db) as [[a|] db1]; [eauto | done]. Qed.

Lemma sched_ret_ok {A} (a : A) db b db' : (mret a : Sched A) db = (Ok b, db') → b = a ∧ db' = db.
Proof. by intros [= <- <-]. Qed.

Lemma store_op_ok {A} (op : Db → StoreResult A * Db) db a db' :
  store_op op db = (Ok a, db') → op db = (Ok a, db').
Proof. unfold store_op. by destruct (op db) as [[] db1]; intros [= <- <-]. Qed.

Lemma required_ok id m db t db' : required_task id m db = (Ok t, db') → db' = db ∧ get_task id db = Ok (Some t).
Proof.
  intros (o & db1 & H1 & H2)%sched_bind_ok. unfold store_query in H1.
  destruct (get_task id db) as [o'|] eqn:E; [|done]. injection H1 as <- <-.
  destruct o' as [t'|]; [|done]. by injection H2 as <- <-.
Qed.

Lemma result_ends now id result reason fm db db' :
  db_inv db → store_task_result_with_reason digest now id result reason fm db = (Ok tt, db') → ends id db'.
Proof.
  intros Hi H. destruct (result_row digest _ _ _ _ _ _ _ Hi H) as (r & Hr & [[-> Hp] | (_ & c & m & H' & _)]);
    [by exists r | eexists; by split].
Qed.

Lemma precedence_ends now id result reason fm db db' :
  db_inv db → store_result_with_cancel_precedence digest now id result reason fm db = (Ok tt, db') →
  ends id db'.
Proof.
  intros Hi H. destruct (precedence_row digest _ _ _ _ _ _ _ Hi H) as (r & Hr & [[-> Hp] | (_ & o & c & m & H' & _)]);
    [by exists r | eexists; by split].
Qed.

Lemma reap_ends now id db o db' : reap_task now id db = (Ok o, db') → ends id db'.
Proof. intros H. destruct (reap_row _ _ _ _ _ H) as (r & _ & Hp & Hr). eexists. by split. Qed.

Lemma stored_result_ends id db x : db_inv db → task_result id db = Some x → ends id db.
Proof.
  intros Hi H. unfold task_result in H. destruct (find_result id (task_results db)) as [y|] eqn:E; [|done].
  pose proof (di_local _ Hi id) as Hl. unfold local_inv in Hl. simpl in Hl.
  assert (In y (v_res (view db id))) as Hy.
  { apply find_some in E as [E1 E2]. simpl. by apply filter_In. }
  destruct (find_task id (tasks db)) as [r|] eqn:Hr.
  - destruct (ri_result _ _ _ Hl) as [Hn | (z & _ & Hp & _)]; [by rewrite Hn in Hy | by exists r].
  - destruct Hl as (_ & _ & Hn & _). simpl in Hy. by rewrite Hn in Hy.
Qed.

Lemma completion_ends now id c reap db p db' :
  db_inv db → completion now id c reap db = (Ok p, db') → ends id db'.
Proof.
  intros Hi. unfold persist_general_completion, persist_general_result.
  destruct (precedence_framed digest now id (completion_result c) (completion_reason c)
    (failure_message c) db) as [H1 _].
  destruct (store_result_with_cancel_precedence digest now id _ _ _ db) as [persisted db1] eqn:E.
  cbn [snd] in H1. pose proof (steps_inv digest _ _ Hi H1) as Hi1.
  intros (u & db2 & Hst & H)%sched_bind_ok.
  assert (ends id db2) as He.
  { destruct persisted as [[]|e].
    - apply sched_ret_ok in Hst as [_ ->]. exact (precedence_ends _ _ _ _ _ _ _ Hi E).
    - apply sched_bind_ok in Hst as (x & db3 & [= <- <-] & Hst). destruct (task_result id db1) as [y|] eqn:Ey.
      + apply sched_ret_ok in Hst as [_ ->]. by eapply stored_result_ends.
      + destruct u. apply store_op_ok in Hst. exact (precedence_ends _ _ _ _ _ _ _ Hi1 Hst). }
  apply sched_bind_ok in H as (u' & db3 & Hre & H).
  apply sched_bind_ok in H as (t & db4 & [-> _]%required_ok & [_ ->]%sched_ret_ok).
  destruct reap; [|by apply sched_ret_ok in Hre as [_ ->]].
  apply sched_bind_ok in Hre as (o & db5 & Hre%store_op_ok & [_ ->]%sched_ret_ok). by eapply reap_ends.
Qed.

Lemma stop_decision now id close db d db' :
  request_stop_internal now id close true db = (Ok d, db') →
  ∃ r, find_task id (tasks db) = Some r ∧ cd_needs_runtime_stop d = active_phase (phase r)
    ∧ cd_phase d = if bool_decide (phase r = Terminal) then phase r else Cancelling.
Proof.
  intros Ht%immediate_ok. apply tx_bind_ok in Ht as (g & db1 & (-> & r & Hr & -> & _)%query_guard_ok & Ht).
  exists r. apply tx_bind_ok in Ht as (n & db2 & _ & Ht). apply tx_bind_ok in Ht as (u & db3 & _ & Ht).
  apply tx_ret_ok in Ht as [-> _]. by simpl.
Qed.

Lemma inactive_ends now id db p db' r :
  db_inv db → find_task id (tasks db) = Some r → phase r = Queued →
  inactive now id false db = (Ok p, db') → ends id db'.
Proof.
  intros Hi Hr Hq H. unfold stop_or_close_inactive in H.
  apply sched_bind_ok in H as (d & db1 & H1%store_op_ok & H).
  assert (db_inv db1) as Hi1.
  { apply (steps_inv digest db); [done|]. apply rtc_once.
    pose proof (do_stop digest now id db) as Hs. by rewrite H1 in Hs. }
  destruct (stop_decision _ _ _ _ _ _ H1) as (r' & Hr' & Hn & Hp). assert (r' = r) as -> by congruence.
  rewrite Hn, Hp, Hq in H. simpl in H.
  apply sched_bind_ok in H as (job & db2 & [-> _]%required_ok & H).
  destruct (route job).
  - exact (completion_ends _ _ _ _ _ _ _ Hi1 H).
  - apply sched_bind_ok in H as ([] & db3 & H3%store_op_ok & H).
    apply sched_bind_ok in H as (t & db4 & [-> _]%required_ok & [_ ->]%sched_ret_ok).
    exact (result_ends _ _ _ _ _ _ _ Hi1 H3).
Qed.

Lemma invalid_ends now task message db u db' :
  db_inv db → invalid_prepared now task message db = (Ok u, db') → ends (task_id (rec_spec task)) db'.
Proof.
  intros Hi. unfold store_invalid_prepared_terminal. destruct u.
  destruct (flagged_task task); intros H%store_op_ok; exact (result_ends _ _ _ _ _ _ _ Hi H).
Qed.

Lemma reap_row_ends now task db u db' :
  reap_terminal_row from_str decode_prepared now task db = (Ok u, db') →
  ends (task_id (rec_spec task)) db'.
Proof.
  unfold reap_terminal_row. destruct (route task).
  - intros (x & db1 & [= <- <-] & H)%sched_bind_ok. destruct (task_result _ db); [|done].
    simpl in H. apply sched_bind_ok in H as (o & db2 & H%store_op_ok & [_ ->]%sched_ret_ok).
    exact (reap_ends _ _ _ _ _ H).
  - intros (o & db2 & H%store_op_ok & [_ ->]%sched_ret_ok)%sched_bind_ok. exact (reap_ends _ _ _ _ _ H).
Qed.

Lemma recover_process_ok task reaped db u db' : recover_process task reaped db = (Ok u, db') → db' = db.
Proof.
  unfold recover_process. destruct (rec_runtime_agent_id task), (rec_process_identity task);
    [destruct reaped| | |destruct (phase_in _ _)]; try done; by intros [_ ->]%sched_ret_ok.
Qed.

Lemma recover_ends now task reaped db u db' :
  db_inv db → get_task (task_id (rec_spec task)) db = Ok (Some task) →
  recover now task reaped db = (Ok u, db') → ends (task_id (rec_spec task)) db'.
Proof.
  intros Hi Hg. destruct (query_task_db_some _ _ _ Hg) as (r & Hr & Hph & _).
  unfold recover_startup_task. destruct (unclaimed_cancellation task).
  { case_bool_decide as Hq.
    - intros (p & db1 & H & [_ ->]%sched_ret_ok)%sched_bind_ok.
      apply (inactive_ends now _ db p db1 r); congruence.
    - unfold finish_never_claimed_cancellation. destruct (route task).
      + intros (p & db1 & H & [_ ->]%sched_ret_ok)%sched_bind_ok.
        exact (completion_ends _ _ _ _ _ _ _ Hi H).
      + by apply invalid_ends. }
  intros (u1 & db1 & ->%recover_process_ok & H)%sched_bind_ok. revert H.
  destruct (bool_decide (rec_phase task = Terminal)); [apply reap_row_ends|].
  destruct (route task); [|by apply invalid_ends].
  destruct (negb _); [done|].
  intros (u2 & db2 & _ & H)%sched_bind_ok.
  apply sched_bind_ok in H as (o & db3 & H%store_op_ok & [_ ->]%sched_ret_ok).
  exact (reap_ends _ _ _ _ _ H).
Qed.

(** ** The loop *)

Definition record_id (t : TaskRecord) : string := task_id (rec_spec t).

Lemma task_id_record id db t : get_task id db = Ok (Some t) → task_id (rec_spec t) = id.
Proof.
  intros Hg. destruct (query_task_db_some _ _ _ Hg) as (r & Hr & _ & _ & _ & _ & _ & _ & Hs & _).
  rewrite Hs. by apply find_task_id in Hr as [<- _].
Qed.

Lemma get_task_other id id' db db' : only id db db' → id' ≠ id → get_task id' db' = get_task id' db.
Proof. intros [_ H] Hne. unfold get_task, query_task_db. by rewrite H. Qed.

Lemma recover_all_ends now reaped l db out db' :
  db_inv db → NoDup (record_id <$> l) →
  Forall (λ t, get_task (task_id (rec_spec t)) db = Ok (Some t)) l →
  recover_list now reaped l db = (Ok out, db') →
  history db db' ∧ row_id <$> tasks db' = row_id <$> tasks db
  ∧ out.*1 = record_id <$> l
  ∧ Forall (λ t, ends (task_id (rec_spec t)) db') l
  ∧ (∀ id, id ∉ record_id <$> l → find_task id (tasks db') = find_task id (tasks db)).
Proof.
  revert db out. induction l as [|t l IH]; intros db out Hi Hnd Hg H; cbn [recover_all] in H.
  { apply sched_ret_ok in H as [-> ->]. by split_and!. }
  apply NoDup_cons in Hnd as [Ht Hnd]. apply Forall_cons in Hg as [Hgt Hg].
  apply sched_bind_ok in H as (u & db1 & H1 & H).
  destruct (framed_recover now t (reaped t) db) as [Hh Ho]. rewrite H1 in Hh, Ho. cbn [snd] in Hh, Ho.
  pose proof (recover_ends _ _ _ _ _ _ Hi Hgt H1) as He.
  apply sched_bind_ok in H as (rec & db2 & [-> _]%required_ok & H).
  destruct (rec_outcome rec) as [o|]; [|done].
  apply sched_bind_ok in H as (rest & db3 & H2 & [-> ->]%sched_ret_ok).
  pose proof (steps_inv digest _ _ Hi Hh) as Hi1.
  destruct (IH db1 rest Hi1 Hnd) as (Hh2 & Hids & Hout & Hends & Hoth); [|exact H2|].
  { apply Forall_forall. intros x Hx. rewrite (get_task_other (task_id (rec_spec t)) _ db); [|done|].
    - rewrite Forall_forall in Hg. auto.
    - intros E. apply Ht. change (record_id t ∈ record_id <$> l).
      replace (record_id t) with (record_id x) by exact E. by apply list_elem_of_fmap_2. }
  split_and!.
  - by etrans.
  - destruct Ho as [Ho _]. congruence.
  - rewrite !fmap_cons, Hout. done.
  - constructor; [|done]. unfold ends. by rewrite Hoth.
  - intros id [Hne Hnin]%not_elem_of_cons. destruct Ho as [_ Ho]. by rewrite Hoth, Ho.
Qed.

Lemma recovery_tasks_ok db l :
  db_inv db → startup_recovery_tasks db = Ok l →
  record_id <$> l = row_id <$> order_by created_at (List.filter needs_recovery (tasks db))
  ∧ Forall (λ t, get_task (task_id (rec_spec t)) db = Ok (Some t)) l
  ∧ NoDup (record_id <$> l).
Proof.
  intros Hi H. unfold startup_recovery_tasks, reload_tasks in H. apply traverse_ok in H.
  set (rows := order_by created_at _) in *.
  assert (Forall2 (λ r t, get_task (row_id r) db = Ok (Some t)) rows l) as Hf.
  { eapply Forall2_impl; [exact H|]. intros r t (o & Ho & Hok)%result_bind_ok.
    apply ok_or_ok in Hok as ->. exact Ho. }
  assert (record_id <$> l = row_id <$> rows) as E.
  { clear H. induction Hf as [|r t rows' l' Hrt _ IH]; [done|].
    rewrite !fmap_cons, IH. f_equal. exact (task_id_record _ _ _ Hrt). }
  split_and!; [done | |].
  - clear H E. induction Hf as [|r t rows' l' Hrt _ IH]; constructor; [|done].
    by rewrite (task_id_record _ _ _ Hrt).
  - rewrite E. unfold rows. rewrite order_by_perm. apply NoDup_filter_fmap, (gl_ids _ (di_glob _ Hi)).
Qed.

(** A row that needs no recovery is not in the list, since ids are distinct. *)
Lemma unlisted_row (rows : list TaskRow) r :
  NoDup (row_id <$> rows) → r ∈ rows → needs_recovery r = false →
  row_id r ∉ row_id <$> order_by created_at (List.filter needs_recovery rows).
Proof.
  intros Hnd Hin Hn. rewrite order_by_perm. intros (r' & He & Hr')%list_elem_of_fmap.
  apply in_filter in Hr' as [Hr' Hn'].
  pose proof (find_task_in _ _ r Hnd Hin eq_refl) as H1.
  pose proof (find_task_in _ _ r' Hnd Hr' eq_refl) as H2. rewrite He in H1. congruence.
Qed.

(** C7. Startup recovery converges: when it succeeds on a reachable database, it
    has only run store operations, it reports exactly the tasks that needed
    recovery, every one of them is terminal, a task with a recorded stop or close is
    cancelled, and all that is left besides terminal tasks are queued tasks nobody
    asked to stop.  Every queued task nobody asked to stop, and every other row that
    needs no recovery, is still there as it was; no row is added or lost. *)
Theorem startup_recovery_converges now reaped db out db' :
  reachable digest db → reconcile now false reaped db = (Ok out, db') →
  reachable digest db'
  ∧ out.*1 = row_id <$> order_by created_at (List.filter needs_recovery (tasks db))
  ∧ (∀ r', r' ∈ tasks db' →
       phase r' = Terminal
       ∨ (phase r' = Queued ∧ stop_requested r' = false ∧ r' ∈ tasks db))
  ∧ (∀ r, r ∈ tasks db → flagged r = true → phase r ≠ Terminal →
       ∃ r', find_task (row_id r) (tasks db') = Some r'
             ∧ StoreRecords.task_outcome r' = Some Cancelled)
  ∧ row_id <$> tasks db' = row_id <$> tasks db
  ∧ (∀ r, r ∈ tasks db → phase r = Queued → stop_requested r = false →
       find_task (row_id r) (tasks db') = Some r)
  ∧ (∀ r, r ∈ tasks db → needs_recovery r = false → find_task (row_id r) (tasks db') = Some r).
Proof.
  intros Hr H. pose proof (reachable_inv _ _ Hr) as Hi. unfold reconcile_startup in H.
  apply sched_bind_ok in H as (l & db1 & Hq & H). unfold store_query in Hq.
  destruct (startup_recovery_tasks db) as [l'|] eqn:El; [|done]. injection Hq as -> <-.
  destruct (recovery_tasks_ok _ _ Hi El) as (Eids & Hg & Hnd).
  destruct (recover_all_ends _ _ _ _ _ _ Hi Hnd Hg H) as (Hh & Hids & Hout & Hends & Hoth).
  assert (reachable digest db') as Hr' by (exact (rtc_trans _ _ _ Hr Hh)). pose proof (reachable_inv _ _ Hr') as Hi'.
  assert (∀ id, id ∈ record_id <$> l → ends id db') as Hend.
  { intros id (t & -> & Ht)%list_elem_of_fmap. rewrite Forall_forall in Hends. exact (Hends t Ht). }
  assert (∀ r, r ∈ tasks db → needs_recovery r = true → row_id r ∈ record_id <$> l) as Hneed.
  { intros r Hin Hn. rewrite Eids. apply list_elem_of_fmap_2. rewrite order_by_perm. by apply in_filter. }
  assert (∀ r, r ∈ tasks db → needs_recovery r = false →
            find_task (row_id r) (tasks db') = Some r) as Hkeep.
  { intros r Hin Hn. rewrite Hoth; [by eapply find_task_in; [apply (gl_ids _ (di_glob _ Hi))|..]|].
    rewrite Eids. by apply unlisted_row; [apply (gl_ids _ (di_glob _ Hi))|..]. }
  split_and!; [done | by rewrite Hout | | | done | | done].
  3: { intros r Hin Hp Hs. apply Hkeep; [done|]. unfold needs_recovery. by rewrite Hp, Hs. }
  - intros r' Hin'.
    pose proof (find_task_in _ _ r' (gl_ids _ (di_glob _ Hi')) Hin' eq_refl) as Hf'.
    destruct (decide (row_id r' ∈ record_id <$> l)) as [Hl|Hl].
    { destruct (Hend _ Hl) as (r2 & H2 & Hp). left. congruence. }
    rewrite Hoth in Hf' by done. apply find_task_id in Hf' as [_ Hin].
    assert (needs_recovery r' = false) as Hn by (apply not_true_iff_false; intros Hn; by apply Hl, Hneed).
    unfold needs_recovery in Hn. apply orb_false_iff in Hn as [Hn _].
    apply orb_false_iff in Hn as [Hn1 Hn2].
    destruct (phase r') eqn:Hp; try done; [|by left]. right. split_and!; [done | | done].
    by destruct (stop_requested r').
  - intros r Hin Hfl Hp.
    pose proof (find_task_in _ _ r (gl_ids _ (di_glob _ Hi)) Hin eq_refl) as Hf.
    destruct (steps_preserve digest (λ x y, cancel_bound x → cancel_bound y) db db' (row_id r) r)
      as (r' & Hr2 & Hc); eauto using view_step_cancel.
    exists r'. split; [done|]. apply Hc; [by split|].
    assert (row_id r ∈ record_id <$> l) as Hl.
    { apply Hneed; [done|]. unfold needs_recovery.
      pose proof (ri_flags _ _ _ (reachable_row _ _ Hi Hin)) as [Hfs Hfc]. unfold flagged in Hfl.
      destruct (phase r) eqn:Ep; try done. simpl.
      destruct (stop_requested r) eqn:Es; [done|]. simpl in Hfl. destruct (Hfc Hfl); done. }
    destruct (Hend _ Hl) as (r2 & H2 & Hp2). congruence.
Qed.
End recovery.

(** ** Witness *)

Module RecoveryDemo.
Definition from_str (_ : string) : result string Value := Err "not JSON".
Definition decode_prepared (_ : Value) : option PreparedGeneralTask := None.
Definition reaped (_ : TaskRecord) : result string unit := Ok tt.
End RecoveryDemo.

Lemma startup_recovery_converges_witness :
  let w := reconcile_startup SinkDemo.to_string RecoveryDemo.from_str RecoveryDemo.decode_prepared
             SinkDemo.sqlite_text History.digest 200 false RecoveryDemo.reaped History.claimed in
  w.1 = Ok [("10000000", ResultInvalid)]
  ∧ ∀ r', r' ∈ tasks w.2 →
      phase r' = Terminal ∨ (phase r' = Queued ∧ stop_requested r' = false ∧ r' ∈ tasks History.claimed).
Proof.
  intros w. assert (w.1 = Ok [("10000000", ResultInvalid)]) as E by (by vm_compute).
  split; [exact E|]. assert (w = (Ok [("10000000", ResultInvalid)], w.2)) as Ew.
  { rewrite <- E. apply surjective_pairing. }
  destruct (startup_recovery_converges History.digest SinkDemo.to_string RecoveryDemo.from_str
    RecoveryDemo.decode_prepared SinkDemo.sqlite_text 200 RecoveryDemo.reaped History.claimed
    [("10000000", ResultInvalid)] w.2 History.claimed_reachable Ew) as (_ & _ & H & _).
  exact H.
Defined.

(** A task cancelled while it was being prepared stops every startup: it is claimed
    but has no runtime identity, so recovery refuses it and reports an error. *)
Lemma cancelled_preparation_blocks_startup :
  let db := (request_stop 103 "10000000" History.claimed).2 in
  reconcile_startup SinkDemo.to_string RecoveryDemo.from_str RecoveryDemo.decode_prepared
    SinkDemo.sqlite_text History.digest 200 false RecoveryDemo.reaped db
  = (Err (RuntimeCommand "10000000"
            "startup runtime identity is incomplete; refusing unverified reap"), db).
Proof. by vm_compute. Qed.
