(* ===== verification/Control.v ===== *)
(** * Control of an active runtime

    [crates/external-daemon/src/runtime_owner.rs] (the trait a runtime implements),
    [scheduler/types.rs] (deadlines), [scheduler/control.rs] (stop and close) and the
    closing half of [scheduler/lifecycle.rs]: how a task with a runtime ends.

    A world is what these operations share about one task: the database, the entry
    of the active table, the latch and the sink the entry points to, and the
    runtime.  A call of the runtime takes time and lets other threads run, so it is
    a function on worlds; so is waiting for the operation lock.  Each reading of a
    clock is a function of the runtime's state.  The map of latest failures and the
    log are left out, and with them errors that are only recorded there.  The text
    [{:?}] derives for a terminal is a parameter. *)

From S2P Require Import Prelude RustStr Utf8 Json Contract RuntimeEvents ActivityTracker General StoreRecords StoreSql StoreOps RuntimeOwner RuntimeLifecycle Sink Diagnostics Recovery.

(** ** Deadlines ([types.rs]), in nanoseconds *)

Record ControlDeadline := mk_deadline { expires_at : Z }.

Definition duration_max : Z := u64_max * 1000000000 + 999999999.

Definition deadline_new (now budget : Z) : ControlDeadline := mk_deadline (now + budget).

Definition remaining (now : Z) (d : ControlDeadline) : option Z :=
  if Z.ltb now (expires_at d) then Some (expires_at d - now)%Z else None.

Definition checked_triple (grace : Z) : option Z :=
  if Z.leb (3 * grace) duration_max then Some (3 * grace)%Z else None.

Definition runtime_phase_deadline (stop_grace now : Z) (d : ControlDeadline) : option Z :=
  match remaining now d with
  | None => None
  | Some rest =>
      let cleanup := Z.min (default rest (checked_triple stop_grace)) (rest / 2) in
      let deadline := (expires_at d - cleanup)%Z in
      if Z.ltb now deadline then Some deadline else None
  end.

Definition runtime_phase (stop_grace now : Z) (d : ControlDeadline) : option Z :=
  match runtime_phase_deadline stop_grace now d with
  | Some deadline => if Z.ltb now deadline then Some (deadline - now)%Z else None
  | None => None
  end.

Definition cleanup_grace (configured now : Z) (d : ControlDeadline) : Z :=
  match remaining now d with Some rest => Z.min configured (rest / 3) | None => 0 end.

Record SchedulerConfig := mk_config {
  per_workspace_max_agents : Z; stop_grace : Z; bootstrap_timeout : Z; control_timeout : Z;
  runtime_source : option string }.

(** ** Worlds and runtimes *)

(** The calls made to a runtime, with the message or request they serve. *)
Inductive RuntimeCall :=
| CallSend (message content : string)
| CallInject (message content : string)
| CallStopTurn
| CallRespond (request decision : string) (content : option string)
| CallClose
| CallStop
| CallSpawn
| CallBootstrap
| CallResume
| CallCleanup
| CallFinishTurn.

(** [StartingHandle]: a claim whose runtime is not registered yet. *)
Record StartingHandle := mk_handle { h_epoch : Z; h_identity : option StoredProcessIdentity }.

(** [w_owner] is the epoch of the task's entry in the active table, [w_starting] its
    entry in the table of starting claims. *)
Record World (R : Type) := mk_world {
  w_db : Db; w_owner : option Z; w_session : string; w_latch : RuntimeLifecycle;
  w_sink : StoreLifecycleSink; w_check : bool; w_runtime : R; w_calls : list RuntimeCall;
  w_starting : option StartingHandle }.
Arguments mk_world {R} _ _ _ _ _ _ _ _ _.
Arguments w_db {R} _. Arguments w_owner {R} _. Arguments w_session {R} _. Arguments w_latch {R} _.
Arguments w_sink {R} _. Arguments w_check {R} _. Arguments w_runtime {R} _. Arguments w_calls {R} _.
Arguments w_starting {R} _.

(** What a started or resumed session reports. *)
Record SessionReady := mk_session {
  ready_session : string; ready_initial_turn : option string; ready_model : option string }.

(** [ManagedRuntime], with the two clocks its calls move. *)
Class ManagedRuntime (R : Type) := {
  clock : R → Z;
  wall : R → Z;
  rt_identity : R → option ProcessIdentity;
  turn_snapshot : R → TurnSnapshot;
  diagnostic_tail : R → string;
  diagnostic_session_id : R → option string;
  rt_stop : Z → World R → RuntimeTerminal * World R;
  rt_send_turn : string → string → Z → World R → result RuntimeCommandError (option string) * World R;
  rt_inject_turn : string → string → Z → World R → result RuntimeCommandError (option string) * World R;
  rt_stop_turn : string → Z → World R → result RuntimeCommandError TurnSnapshot * World R;
  rt_respond_request : string → string → option string → Z → World R
    → result RuntimeCommandError unit * World R;
  rt_close_session : string → Z → World R → result RuntimeCommandError unit * World R;
  rt_bootstrap_session : TaskRecord → Z → World R → result RuntimeCommandError SessionReady * World R;
  rt_resume_session : TaskRecord → Z → World R → result RuntimeCommandError SessionReady * World R;
  rt_wait_terminal : Z → World R → option RuntimeTerminal * World R;
  rt_cleanup_forced : Z → World R → RuntimeTerminal * World R;
  rt_finish_turn : TurnBoundary → Z → World R → RuntimeTerminal * World R }.

(** [RuntimeFactory]: a runtime for the task, in the place of the one the world had. *)
Class RuntimeFactory (R : Type) := {
  rt_spawn : TaskRecord → World R → result string unit * World R }.

Section world.
Context {R : Type}.
Implicit Types w : World R.

Definition put_db (db : Db) w : World R :=
  mk_world db (w_owner w) (w_session w) (w_latch w) (w_sink w) (w_check w) (w_runtime w) (w_calls w)
    (w_starting w).
Definition put_owner (o : option Z) w : World R :=
  mk_world (w_db w) o (w_session w) (w_latch w) (w_sink w) (w_check w) (w_runtime w) (w_calls w)
    (w_starting w).
Definition put_latch (l : RuntimeLifecycle) w : World R :=
  mk_world (w_db w) (w_owner w) (w_session w) l (w_sink w) (w_check w) (w_runtime w) (w_calls w)
    (w_starting w).
Definition put_sink (s : StoreLifecycleSink) w : World R :=
  mk_world (w_db w) (w_owner w) (w_session w) (w_latch w) s (w_check w) (w_runtime w) (w_calls w)
    (w_starting w).
Definition cancel_check w : World R :=
  mk_world (w_db w) (w_owner w) (w_session w) (w_latch w) (w_sink w) true (w_runtime w) (w_calls w)
    (w_starting w).
Definition log_call (c : RuntimeCall) w : World R :=
  mk_world (w_db w) (w_owner w) (w_session w) (w_latch w) (w_sink w) (w_check w) (w_runtime w)
    (w_calls w ++ [c]) (w_starting w).
Definition put_starting (h : option StartingHandle) w : World R :=
  mk_world (w_db w) (w_owner w) (w_session w) (w_latch w) (w_sink w) (w_check w) (w_runtime w) (w_calls w) h.
End world.

(** An operation on a world that can fail. *)
Definition Act (R A : Type) : Type := World R → result SchedulerError A * World R.

#[global] Instance act_ret {R} : MRet (Act R) := λ A a w, (Ok a, w).
#[global] Instance act_bind {R} : MBind (Act R) := λ A B f m w,
  match m w with (Ok a, w') => f a w' | (Err e, w') => (Err e, w') end.

Section acts.
Context {R : Type}.

Definition act_fail {A} (e : SchedulerError) : Act R A := λ w, (Err e, w).
Definition act_get {A} (f : World R → A) : Act R A := λ w, (Ok (f w), w).
Definition act_put (f : World R → World R) : Act R unit := λ w, (Ok tt, f w).
(** A call whose result is a value. *)
Definition act_call {A} (f : World R → A * World R) : Act R A := λ w, let '(a, w') := f w in (Ok a, w').
Definition on_store {A} (m : Sched A) : Act R A := λ w,
  let '(r, db) := m (w_db w) in (r, put_db db w).
End acts.

(** ** Errors ([types.rs], [control.rs]) *)

Definition late_ingress_error (id reason : string) : SchedulerError := RuntimeCommand id reason.
Definition control_timeout_error (id : string) : SchedulerError :=
  RuntimeCommand id "control operation deadline elapsed".

Definition control_failure_code (e : RuntimeCommandError) : string :=
  match e with CommandTimeout => "CONTROL_DEADLINE_EXCEEDED" | _ => "CONTROL_RUNTIME_FAILED" end.

(** How a terminal ends a task no one forced ([finish_routed_terminal]). *)
Definition terminal_outcome (natural : bool) (t : RuntimeTerminal) : CompletionOutcome :=
  match t with
  | TCompleted _ => if natural then CCompleted else CFailed
  | TStopped _ => CCancelled
  | TFailedRuntimeLost _ | TOrphaned _ => CRuntimeLost
  | TFailedTurn _ => CFailed
  | TExited _ => CRuntimeLost
  end.

Definition TRANSPORT_DIAGNOSTIC_STAGE : string := "transport".

Section control.
Context (to_string : Value → string) (from_str : string → result string Value)
  (decode_prepared : Value → option PreparedGeneralTask)
  (sqlite_text : SqliteError → string) (task_result_digest : TaskResult → string)
  (debug_terminal : RuntimeTerminal → string).
Context (config : SchedulerConfig).
Context {R : Type} `{!ManagedRuntime R}.

(** Waiting for the operation lock: whether it was taken in time. *)
Context (await_operation : ControlDeadline → World R → bool * World R).
(** [start_ready] for the tasks the queue holds next. *)
Context (start_ready : World R → World R).

Definition scheduler_error_text (e : SchedulerError) : string :=
  match e with
  | SStore e => store_error_text sqlite_text e
  | InvalidConfig m => "invalid scheduler config: " +:+ m
  | RuntimeSpawn id m => "runtime spawn failed for " +:+ id +:+ ": " +:+ m
  | LifecycleSinkError id m => "lifecycle sink failed for " +:+ id +:+ ": " +:+ m
  | RuntimeCommand id m => "runtime command failed for " +:+ id +:+ ": " +:+ m
  | StartTimeout id m => "start timeout for " +:+ id +:+ ": " +:+ m
  | Interrupted id => "start interrupted for " +:+ id
  | StartFailed id reason m => "start failed for " +:+ id +:+ " (" +:+ reason +:+ "): " +:+ m
  end.

(** A store operation at the time of the world. *)
Definition at_wall {A} (m : Z → Sched A) : Act R A := λ w, on_store (m (wall (w_runtime w))) w.
Definition now_clock (w : World R) : Z := clock (w_runtime w).
Definition turn_of (w : World R) : TurnSnapshot := turn_snapshot (w_runtime w).

Definition control_deadline (w : World R) : ControlDeadline :=
  deadline_new (now_clock w) (control_timeout config).

Definition require_runtime_ingress (id : string) : Act R unit := λ w,
  match ingress_reason (w_latch w) with
  | Some reason => (Err (late_ingress_error id reason), w)
  | None => (Ok tt, w)
  end.

Definition require_time (id : string) (d : ControlDeadline) : Act R unit := λ w,
  match remaining (now_clock w) d with
  | Some _ => (Ok tt, w)
  | None => (Err (control_timeout_error id), w)
  end.

Definition runtime_phase_timeout (d : ControlDeadline) (w : World R) : option Z :=
  runtime_phase (stop_grace config) (now_clock w) d.

Definition lock_operation (id : string) (d : ControlDeadline) : Act R unit :=
  taken ← act_call (await_operation d);
  if taken : bool then mret tt else act_fail (control_timeout_error id).

(** [release_active]. *)
Definition release_active (epoch : Z) (w : World R) : World R :=
  if bool_decide (w_owner w = Some epoch) then put_owner None (put_latch (terminalize (w_latch w)) w)
  else w.

(** The entry is released whatever [m] returned. *)
Definition then_release {A} (epoch : Z) (m : Act R A) : Act R A := λ w,
  let '(r, w) := m w in (r, release_active epoch w).

(** Ingress is closed before a forced stop. *)
Definition force_stop_latch (w : World R) : World R :=
  put_latch (force_terminating (request_stop_latch (now_clock w) (turn_of w) (w_latch w))) w.

Definition call_stop (grace : Z) (w : World R) : RuntimeTerminal * World R :=
  rt_stop grace (log_call CallStop w).

(** [persistable_failure_record_for] of a runtime that is still owned. *)
Definition failure_record (id : string) (session : option string) (stage code message : string)
    (w : World R) : string :=
  persistable_failure_record to_string from_str id
    (match diagnostic_session_id (w_runtime w) with Some s => Some s | None => session end)
    stage code message (diagnostic_tail (w_runtime w)).

(** The detail of a failure with what its cleanup returned. *)
Definition cleanup_detail (cause : option string) (terminal : RuntimeTerminal) : string :=
  match cause with
  | None => debug_terminal terminal
  | Some cause =>
      let fields := match from_str cause with
                    | Ok (VObject fields) => fields
                    | _ => [("message", VString (bounded_error cause))]
                    end in
      to_string (VObject (field_insert "cleanup_result" (VString (debug_terminal terminal)) fields))
  end.

(** The completion of a terminal, before the failure record is attached; taking
    the terminal text changes the tracker. *)
Definition missing_text (c : GeneralCompletion) : GeneralCompletion :=
  mk_completion (outcome_ c)
    (match completion_reason c with None => Some "FINAL_TEXT_MISSING" | r => r end)
    "runtime completed without visible final text"
    (match completion_reason c with
     | None => residual_gaps c
     | Some _ => residual_gaps c ++ ["FINAL_TEXT_MISSING"]
     end) (cleaned c) (failure_message c).

Definition with_summary (text : string) (c : GeneralCompletion) : GeneralCompletion :=
  mk_completion (outcome_ c) (completion_reason c) text (residual_gaps c) (cleaned c) (failure_message c).

Definition natural_completed (natural : bool) (t : RuntimeTerminal) : bool :=
  natural && match t with TCompleted _ => true | _ => false end.

Definition take_text (s : StoreLifecycleSink) : TerminalText * StoreLifecycleSink :=
  let '(text, activity) := take_terminal_text (activity s) in
  (text, mk_sink (sink_agent s) (sink_runtime s) (sink_epoch s) (write_state s) activity).

Definition draft_completion (natural : bool) (terminal : RuntimeTerminal) (o : CompletionOutcome)
    (reason : string) (s : StoreLifecycleSink) : GeneralCompletion * StoreLifecycleSink :=
  if natural_completed natural terminal then
    let '(text, s) := take_text s in
    (finish_cleanup
       match text with
       | Visible text => with_summary text (finalize CCompleted)
       | Missing => missing_text (finalize CResultInvalid)
       end, s)
  else if terminal_proves_process_group_reaped terminal then (finalize o, s)
  else (unreaped_general o reason reason None, s).

(** Summary and reason filled in. *)
Definition fill_completion (reason : string) (c : GeneralCompletion) : GeneralCompletion :=
  mk_completion (outcome_ c)
    (match completion_reason c with
     | None => if bool_decide (outcome_ c = CCompleted) then None else Some reason
     | r => r
     end)
    (if trim_is_empty (summary c) then reason else summary c)
    (residual_gaps c) (cleaned c) (failure_message c).

Definition with_failure (failure : option string) (c : GeneralCompletion) : GeneralCompletion :=
  mk_completion (outcome_ c) (completion_reason c) (summary c) (residual_gaps c) (cleaned c) failure.

Definition routed_failure (id : string) (o : CompletionOutcome) (reason : string)
    (cause : option string) (terminal : RuntimeTerminal) (w : World R) : option string :=
  if bool_decide (o = CCompleted) || bool_decide (o = CCancelled) then None
  else
    Some (failure_record id (match w_owner w with Some _ => Some (w_session w) | None => None end)
            (if reason ≟ TRANSPORT_FRAME_LIMIT_REASON then TRANSPORT_DIAGNOSTIC_STAGE else "runtime_terminal")
            reason (cleanup_detail cause terminal) w).

Definition routed_completion (id : string) (terminal : RuntimeTerminal) (natural : bool)
    (forced : option (CompletionOutcome * string)) (cause : option string) (w : World R)
    : GeneralCompletion * World R :=
  let '(o, reason) := default (terminal_outcome natural terminal, "RUNTIME_TERMINAL") forced in
  let routed := routed_failure id o reason cause terminal w in
  let '(c, s) := draft_completion natural terminal o reason (w_sink w) in
  let c := fill_completion reason c in
  let w := put_sink s w in
  (with_failure
     (if bool_decide (outcome_ c = CResultInvalid)
      then Some (failure_record id None "runtime_terminal"
                   (default "FINAL_TEXT_MISSING" (completion_reason c)) (summary c) w)
      else match routed with Some f => Some f | None => failure_message c end) c, w).

Definition finish_routed_terminal (id : string) (terminal : RuntimeTerminal) (natural : bool)
    (forced : option (CompletionOutcome * string)) (cause : option string) : Act R TaskPhase := λ w,
  let w := put_latch (terminalize (w_latch w)) w in
  let '(c, w) := routed_completion id terminal natural forced cause w in
  let reap := cleaned c && terminal_proves_process_group_reaped terminal in
  match finish_general to_string task_result_digest (wall (w_runtime w)) terminal c (w_sink w) (w_db w) with
  | (Ok phase, s, db) => (Ok phase, put_sink s (put_db db w))
  | (Err _, s, db) =>
      at_wall (λ now, persist_general_completion to_string from_str sqlite_text task_result_digest now id c
                        reap) (put_sink s (put_db db w))
  end.

(** ** Closing a registered runtime ([lifecycle.rs]) *)

Definition unstarted_failure (id : string) (cancellation_wins : bool) (failure : option (string * string))
    (w : World R) : UnstartedTerminal :=
  let record := match failure with
                | Some (code, message) => Some (failure_record id None "runtime_start" code message w)
                | None => None
                end in
  let '(code, message) :=
    default ("GENERAL_START_CANCELLED", "general task stopped before entering its runtime phase") failure in
  if cancellation_wins then mk_unstarted CCancelled "CANCELLED" message record
  else mk_unstarted CFailed code message record.

Definition forced_close (cancellation_wins : bool) (failure : option (string * string))
    : CompletionOutcome * string :=
  if cancellation_wins then (CCancelled, "CANCELLED")
  else match failure with Some (code, _) => (CFailed, code) | None => (CCancelled, "CANCELLED") end.

(** What follows the stop, before the entry is released. *)
Definition close_stopped (id : string) (cancellation_wins : bool) (failure : option (string * string))
    (terminal : RuntimeTerminal) (current : option TaskRecord) : Act R TaskPhase := λ w,
  if match current with
     | Some job => phase_in [Running; Cancelling; Terminal] (rec_phase job)
     | None => false
     end
  then finish_routed_terminal id terminal false (Some (forced_close cancellation_wins failure))
         (option_map snd failure) w
  else at_wall (λ now, finish_unstarted_route to_string from_str sqlite_text task_result_digest now id
                         (unstarted_failure id cancellation_wins failure w)
                         (terminal_proves_process_group_reaped terminal)) w.

(** [cleanup_registered_runtime_with_grace]. *)
Definition cleanup_registered_runtime (id : string) (epoch : Z) (failure : option (string * string))
    (grace : Z) : Act R TaskPhase :=
  decision ← at_wall (λ now, store_op (request_runtime_stop now id));
  let cancellation_wins := cd_prior_stop_or_close decision || negb (is_some failure) in
  owner ← act_get w_owner;
  if negb (bool_decide (owner = Some epoch))
  then act_fail (InvalidConfig "active generic route disappeared during cleanup")
  else
    _ ← act_put cancel_check;
    _ ← act_put force_stop_latch;
    terminal ← act_call (call_stop grace);
    current ← on_store (store_query (get_task id));
    then_release epoch (close_stopped id cancellation_wins failure terminal current).

Definition fail_closed_control (id : string) (epoch : Z) (d : ControlDeadline)
    (code message : string) : Act R unit :=
  owner ← act_get w_owner;
  if negb (bool_decide (owner = Some epoch))
  then act_fail (RuntimeCommand id "active runtime disappeared during fail-closed control cleanup")
  else
    grace ← act_get (λ w, cleanup_grace (stop_grace config) (now_clock w) d);
    _ ← cleanup_registered_runtime id epoch (Some (code, message)) grace;
    act_put start_ready.

(** ** Stop and close ([control.rs]) *)

(** [request_cooperative_stop], with the runtime's part of it. *)
Definition cooperative_stop (timeout : Z) (w : World R) : World R :=
  let current := turn_of w in
  let stopped := request_stop_latch (now_clock w) current (w_latch w) in
  let '(acknowledged, stopped) := acknowledge_boundary current stopped in
  let w := put_latch stopped w in
  if acknowledged then w
  else if turn_active current then
    let '(r, w) := rt_stop_turn (w_session w) timeout (log_call CallStopTurn w) in
    match r with
    | Ok boundary =>
        let '(acknowledged, latch) := acknowledge_boundary boundary (w_latch w) in
        if acknowledged then put_latch latch w else put_latch (force_terminating latch) w
    | Err _ => put_latch (force_terminating (w_latch w)) w
    end
  else put_latch (force_terminating (w_latch w)) w.

Definition stop_turn_phase (d : ControlDeadline) (w : World R) : World R :=
  match runtime_phase_timeout d w with
  | Some timeout => cooperative_stop timeout w
  | None => put_latch (force_terminating (w_latch w)) w
  end.

Definition close_session_phase (close : bool) (d : ControlDeadline) (w : World R) : World R :=
  if close then
    match runtime_phase_timeout d w with
    | Some timeout => snd (rt_close_session (w_session w) timeout (log_call CallClose w))
    | None => w
    end
  else w.

(** The active part of [request_stop_or_close], under the operation lock. *)
Definition stop_active (id : string) (close : bool) (epoch : Z) (decided : TaskPhase)
    (d : ControlDeadline) : Act R TaskPhase :=
  owner ← act_get w_owner;
  match owner with
  | None =>
      current ← on_store (store_query (get_task id));
      mret (match current with Some job => rec_phase job | None => decided end)
  | Some _ =>
      _ ← act_put (stop_turn_phase d);
      _ ← act_put (close_session_phase close d);
      grace ← act_get (λ w, cleanup_grace (stop_grace config) (now_clock w) d);
      terminal ← act_call (call_stop grace);
      then_release epoch
        (finish_routed_terminal id terminal false (Some (CCancelled, "CANCELLED")) None)
  end.

Definition stop_locked (id : string) (close : bool) (epoch : Z) (decided : TaskPhase)
    (d : ControlDeadline) : Act R TaskPhase :=
  taken ← act_call (await_operation d);
  if taken : bool then stop_active id close epoch decided d
  else
    let error := control_timeout_error id in
    _ ← fail_closed_control id epoch d "CONTROL_DEADLINE_EXCEEDED" (scheduler_error_text error);
    act_fail error.

Definition request_stop_or_close (id : string) (close : bool) (d : ControlDeadline) : Act R TaskPhase :=
  active ← act_get w_owner;
  _ ← require_time id d;
  decision ← at_wall (λ now, store_op (if close then request_close now id else request_stop now id));
  _ ← act_put (λ w, match w_owner w with Some _ => cancel_check w | None => w end);
  _ ← act_put (λ w, match active with
                    | Some _ => put_latch (request_stop_latch (now_clock w) (turn_of w) (w_latch w)) w
                    | None => w
                    end);
  if negb (cd_needs_runtime_stop decision) then
    if bool_decide (cd_phase decision = Cancelling) && negb (is_some active)
    then at_wall (λ now, finish_inactive to_string from_str decode_prepared sqlite_text task_result_digest
                           now id)
    else mret (cd_phase decision)
  else
    match active with
    | None => mret (cd_phase decision)
    | Some epoch =>
        if negb (Z.eqb epoch (cd_owner_epoch decision)) then mret (cd_phase decision)
        else stop_locked id close epoch (cd_phase decision) d
    end.

Definition cancel_task (id : string) : Act R TaskPhase := λ w,
  request_stop_or_close id false (control_deadline w) w.
Definition close_task (id : string) : Act R TaskPhase := λ w,
  request_stop_or_close id true (control_deadline w) w.
End control.
