(* ===== verification/Messages.v ===== *)
(** * Messages and answers

    [crates/external-daemon/src/scheduler/messages.rs]: the delivery of stored
    messages to a runtime, sending a message to a task, resuming a finished task
    with one, and answering a pending request.

    The operations act on worlds; see [Control].  Sending holds the admission lock,
    delivery and answers the operation lock: what other threads do meanwhile is
    part of the runtime's calls and of the wait for the operation lock.  The loop
    that delivers what is queued ahead of a message has a bound; [MessageProps]
    shows that it is never reached. *)

From S2P Require Import Prelude RustStr Utf8 Json RuntimeEvents General StoreRecords StoreSql StoreOps RuntimeOwner RuntimeLifecycle Diagnostics Recovery Control.

Inductive MessageDisposition := MsgQueued | MsgDelivered | MsgAlreadyDelivered | MsgFailed.

Inductive ResponseDisposition := Responded | AlreadyResponded | InFlight.

Record ResponseOutcome := mk_response_outcome {
  ro_disposition : ResponseDisposition; requested_decision : string; effective_decision : string;
  policy_overrode : bool; policy_reason_code : option string }.

(** What a stored message answers a repeated send. *)
Definition stored_disposition (s : MessageState) : MessageDisposition :=
  match s with
  | MDelivered => MsgAlreadyDelivered
  | MFailed => MsgFailed
  | MQueued | MSending => MsgQueued
  end.

Definition terminal_resume_excluded (agent : string) : bool := agent ≟ "dsh".

Definition resume_eligible (agent : string) (t : TaskRecord) : bool :=
  negb (terminal_resume_excluded agent)
  && match rec_session_id t with
     | Some s => negb (str_is_empty s) && Nat.leb (String.length s) 512
     | None => false
     end
  && negb (bool_decide (rec_outcome t = Some Cancelled))
  && negb (rec_stop_requested t) && negb (rec_close_requested t) && negb (is_some (rec_closed_at t)).

(** Whether a decision can answer a request of this type. *)
Definition decision_matches (kind decision : string) (content : option string) : bool :=
  if kind ≟ "permission" then (decision ≟ "allow") || (decision ≟ "deny")
  else if kind ≟ "user_input"
  then (decision ≟ "answer") && match content with Some c => negb (trim_is_empty c) | None => false end
  else false.

(** Whether a task still takes answers of this epoch. *)
Definition answerable (epoch : Z) (current : option TaskRecord) : bool :=
  match current with
  | None => false
  | Some job =>
      Z.eqb (rec_owner_epoch job) epoch && phase_in [Running; WaitingInput] (rec_phase job)
      && negb (rec_stop_requested job) && negb (rec_close_requested job)
  end.

Section messages.
Context (to_string : Value → string) (from_str : string → result string Value)
  (decode_prepared : Value → option PreparedGeneralTask)
  (sqlite_text : SqliteError → string) (task_result_digest : TaskResult → string)
  (debug_terminal : RuntimeTerminal → string).
Context (config : SchedulerConfig).
Context {R : Type} `{!ManagedRuntime R}.
Context (await_operation : ControlDeadline → World R → bool * World R).
Context (start_ready : World R → World R).

(** [RuntimeCommandError::diagnostic]. *)
Definition command_diagnostic (operation : string) (e : RuntimeCommandError) : string :=
  let detail := [("message", VString (bounded_error (command_error_display e)));
                 ("operation", VString operation)] in
  to_string (VObject
    match e with
    | Remote v =>
        field_insert "remote_message"
          (match get_str v "message" with Some m => VString (bounded_prefix m 1024) | None => VNull end)
          (field_insert "remote_code"
             (match get v "code" ≫= as_i64 with Some n => i64_value n | None => VNull end) detail)
    | _ => detail
    end).

(** ** Delivery *)

Record Delivery := mk_delivery {
  d_result : result RuntimeCommandError (option string); d_operation : string; d_code : string }.

(** The send of a message; [active] is the turn found before a stop. *)
Definition deliver_send (m : MessageRow) (active : bool) (session : string) (d : ControlDeadline)
    (w : World R) : Delivery * World R :=
  match runtime_phase_timeout config d w with
  | None => (mk_delivery (Err CommandTimeout) "session/send" "SESSION_SEND_FAILED", w)
  | Some timeout =>
      let '(r, w) :=
        if (m_mode m ≟ "queue") && active
        then rt_inject_turn session (m_content m) timeout (log_call (CallInject (message_id m) (m_content m)) w)
        else rt_send_turn session (m_content m) timeout (log_call (CallSend (message_id m) (m_content m)) w) in
      (mk_delivery r "session/send" "SESSION_SEND_FAILED", w)
  end.

Definition deliver_claimed (m : MessageRow) (session : string) (d : ControlDeadline) (w : World R)
    : Delivery * World R :=
  let active := turn_active (turn_of w) in
  if (m_mode m ≟ "steer") && active then
    match runtime_phase_timeout config d w with
    | None => (mk_delivery (Err CommandTimeout) "session/stop" "SESSION_STOP_FAILED", w)
    | Some timeout =>
        let '(r, w) := rt_stop_turn session timeout (log_call CallStopTurn w) in
        match r with
        | Err e => (mk_delivery (Err e) "session/stop" "SESSION_STOP_FAILED", w)
        | Ok _ => deliver_send m active session d w
        end
    end
  else deliver_send m active session d w.

(** The settlement of a claimed message. *)
Definition settle_delivery (id : string) (m : MessageRow) (r : Delivery) : Act R (option MessageRow) :=
  match d_result r with
  | Ok turn =>
      done ← at_wall (λ now, store_op (complete_message now (message_id m) turn));
      if negb done
      then act_fail (SStore (Conflict ("message " +:+ message_id m +:+ " lost its delivery claim")))
      else on_store (store_read (λ db, find_message (message_id m) (messages db)))
  | Err e =>
      let detail := command_diagnostic (d_operation r) e in
      _ ← on_store (store_op (fail_message (message_id m) (d_code r) detail));
      act_fail (RuntimeCommand id detail)
  end.

Definition deliver_next_message (id session : string) (d : ControlDeadline) : Act R (option MessageRow) :=
  _ ← require_runtime_ingress id;
  claimed ← on_store (store_op (claim_next_message id));
  match claimed with
  | None => mret None
  | Some m =>
      reason ← act_get (λ w, ingress_reason (w_latch w));
      match reason with
      | Some reason =>
          _ ← on_store (store_op (fail_message (message_id m) "LATE_AFTER_STOP"
                                    "runtime_lifecycle stopped before message delivery"));
          act_fail (late_ingress_error id reason)
      | None =>
          r ← act_call (deliver_claimed m session d);
          settle_delivery id m r
      end
  end.

(** ** Sending *)

Definition message_state (mid : string) (w : World R) : option MessageState :=
  option_map m_state (find_message mid (messages (w_db w))).

(** The loop over the messages queued ahead of [mid]. *)
Fixpoint deliver_queued (fuel : nat) (native_queue : bool) (id mid mode session : string)
    (d : ControlDeadline) : Act R unit :=
  match fuel with
  | 0 => mret tt
  | S fuel =>
      state ← act_get (message_state mid);
      if negb (bool_decide (state = Some MQueued)) then mret tt
      else
        active ← act_get (λ w, turn_active (turn_of w));
        if negb native_queue && (mode ≟ "queue") && active then mret tt
        else
          delivered ← deliver_next_message id session d;
          match delivered with
          | None => mret tt
          | Some _ => deliver_queued fuel native_queue id mid mode session d
          end
  end.

Definition resume_terminal_with_message (id mid mode content : string) : Act R MessageDisposition :=
  task ← on_store (required_task id ("unknown task " +:+ id));
  let unsupported := RuntimeCommand id "TERMINAL_SEND_UNSUPPORTED" in
  if negb (resume_eligible (task_agent from_str decode_prepared task) task) then act_fail unsupported
  else
    requeued ← at_wall (λ now, store_op (requeue_task_for_resume_with_message now id mid mode content));
    if negb requeued then act_fail unsupported else mret MsgQueued.

(** After the insertion, with a runtime that takes the message now. *)
Definition send_now (native_queue : bool) (id mid mode session : string) (d : ControlDeadline)
    : Act R MessageDisposition :=
  active ← act_get (λ w, turn_active (turn_of w));
  if (mode ≟ "steer") || native_queue || negb active then
    bound ← act_get (λ w, S (length (messages (w_db w))));
    _ ← deliver_queued bound native_queue id mid mode session d;
    state ← act_get (message_state mid);
    mret (if bool_decide (state = Some MDelivered) then MsgDelivered else MsgQueued)
  else mret MsgQueued.

(** Whether a task without a runtime refuses messages. *)
Definition refuses_messages (current : option TaskRecord) : bool :=
  match current with
  | None => false
  | Some job => negb (bool_decide (rec_phase job = Running)) || rec_stop_requested job
                || rec_close_requested job
  end.

Definition send_live (agent id mid mode content : string) (d : ControlDeadline) : Act R MessageDisposition :=
  active ← act_get (λ w, match w_owner w with Some _ => Some (w_session w) | None => None end);
  _ ← match active with
      | Some _ => _ ← lock_operation await_operation id d; require_runtime_ingress id
      | None =>
          current ← on_store (store_query (get_task id));
          if refuses_messages current then act_fail (late_ingress_error id "LATE_AFTER_STOP") else mret tt
      end;
  _ ← require_time id d;
  created ← at_wall (λ now, store_op (insert_message now mid id mode content));
  if negb created then
    state ← act_get (message_state mid);
    mret (stored_disposition (default MQueued state))
  else
    match active with
    | Some session => send_now ((agent ≟ "codex") || (agent ≟ "agy")) id mid mode session d
    | None => mret MsgQueued
    end.

Definition send_message_by (d : ControlDeadline) (draining : bool) (id mid mode content : string)
    : Act R MessageDisposition :=
  if negb ((mode ≟ "queue") || (mode ≟ "steer"))
  then act_fail (InvalidConfig "mode must be queue or steer")
  else
    existing ← act_get (λ w, find_message mid (messages (w_db w)));
    match existing with
    | Some m =>
        if (m_agent m ≟ id) && (m_mode m ≟ mode) && (m_content m ≟ content)
        then mret (stored_disposition (m_state m))
        else act_fail (SStore (Conflict "MESSAGE_ID_CONFLICT"))
    | None =>
        if draining then act_fail (RuntimeCommand id "daemon_draining")
        else
          task ← on_store (required_task id ("unknown task " +:+ id));
          let agent := task_agent from_str decode_prepared task in
          if (mode ≟ "steer") && ((agent ≟ "dsh") || (agent ≟ "agy"))
          then act_fail (RuntimeCommand id "steer_unsupported")
          else
            current ← on_store (store_query (get_task id));
            if match current with Some t => bool_decide (rec_phase t = Terminal) | None => false end
            then resume_terminal_with_message id mid mode content
            else send_live agent id mid mode content d
    end.

Definition send_message (draining : bool) (id mid mode content : string) : Act R MessageDisposition := λ w,
  send_message_by (control_deadline config w) draining id mid mode content w.

(** ** Answers *)

Definition plain_outcome (disposition : ResponseDisposition) (decision : string) : ResponseOutcome :=
  mk_response_outcome disposition decision decision false None.

(** The answer to a request that is no longer pending. *)
Definition settled_outcome (p : PendingRow) (decision : string) : result SchedulerError ResponseOutcome :=
  match p_decision p with
  | None => Err (InvalidConfig "persisted response outcome is incomplete")
  | Some effective =>
      let overrode := negb (effective ≟ decision) in
      Ok (mk_response_outcome
            (if bool_decide (p_state p = PResponded) then AlreadyResponded else InFlight)
            decision effective overrode (if overrode then p_content p else None))
  end.

Definition release_claim (id rid : string) (e : SchedulerError) {A} : Act R A :=
  _ ← on_store (store_op (release_pending_response id rid));
  act_fail e.

(** The answer of a claimed request: delivered and completed, or released and the
    runtime closed. *)
Definition respond_claimed (epoch : Z) (id : string) (p : PendingRow) (decision : string)
    (content : option string) (d : ControlDeadline) : Act R ResponseOutcome :=
  let rid := request_id p in
  let fail_closed := fail_closed_control to_string from_str sqlite_text task_result_digest debug_terminal
                       config start_ready id epoch d in
  reason ← act_get (λ w, ingress_reason (w_latch w));
  match reason with
  | Some reason => release_claim id rid (late_ingress_error id reason)
  | None =>
      current ← on_store (store_query (get_task id));
      if negb (answerable epoch current) then release_claim id rid (late_ingress_error id "TASK_STOPPING")
      else
        deadline ← act_get (λ w, runtime_phase_deadline (stop_grace config) (now_clock w) d);
        match deadline with
        | None => release_claim id rid (control_timeout_error id)
        | Some deadline =>
            sent ← act_call (λ w, rt_respond_request (p_correlation p) decision content deadline
                                    (log_call (CallRespond rid decision content) w));
            match sent with
            | Err e =>
                _ ← on_store (store_op (release_pending_response id rid));
                _ ← fail_closed (control_failure_code e) (command_error_display e);
                act_fail (RuntimeCommand id (command_error_display e))
            | Ok _ =>
                rest ← act_get (λ w, remaining (now_clock w) d);
                match rest with
                | None =>
                    let error := control_timeout_error id in
                    _ ← on_store (store_op (release_pending_response id rid));
                    _ ← fail_closed "CONTROL_DEADLINE_EXCEEDED" (scheduler_error_text sqlite_text error);
                    act_fail error
                | Some _ =>
                    done ← at_wall (λ now, store_op (complete_pending_response now id rid));
                    if negb done
                    then act_fail (SStore (Conflict ("request " +:+ rid +:+ " lost its response claim")))
                    else mret (plain_outcome Responded decision)
                end
            end
        end
  end.

(** A pending request, answered through the active runtime. *)
Definition respond_pending (epoch : Z) (id : string) (p : PendingRow) (decision : string)
    (content : option string) (d : ControlDeadline) : Act R ResponseOutcome :=
  let rid := request_id p in
  _ ← lock_operation await_operation id d;
  _ ← require_runtime_ingress id;
  current ← on_store (store_query (get_task id));
  if negb (answerable epoch current) then act_fail (late_ingress_error id "TASK_STOPPING")
  else
    _ ← require_time id d;
    claim ← on_store (store_op (claim_pending_response_if_accepting id rid decision content));
    match claim with
    | Claimed => respond_claimed epoch id p decision content d
    | TaskStopping => act_fail (late_ingress_error id "TASK_STOPPING")
    | PendingNotFound => act_fail (SStore (InvalidState ("unknown request " +:+ rid)))
    | NotPending PSending => mret (plain_outcome InFlight decision)
    | NotPending PResponded => mret (plain_outcome AlreadyResponded decision)
    | NotPending PPending =>
        act_fail (SStore (Conflict ("request " +:+ rid +:+ " claim did not change pending state")))
    end.

Definition respond_request_by (d : ControlDeadline) (id rid decision : string) (content : option string)
    : Act R ResponseOutcome :=
  found ← act_get (λ w, pending_request id rid (w_db w));
  match found with
  | None => act_fail (SStore (InvalidState ("unknown request " +:+ rid)))
  | Some p =>
      if negb (decision_matches (p_type p) decision content)
      then act_fail (InvalidConfig "response decision does not match the pending request type")
      else if negb (bool_decide (p_state p = PPending)) then λ w, (settled_outcome p decision, w)
      else
        owner ← act_get w_owner;
        match owner with
        | Some epoch => respond_pending epoch id p decision content d
        | None =>
            current ← on_store (store_query (get_task id));
            act_fail (RuntimeCommand id
              (if match current with
                  | Some job => negb (phase_in [Running; WaitingInput] (rec_phase job))
                                || rec_stop_requested job || rec_close_requested job
                  | None => false
                  end
               then "LATE_AFTER_STOP" else "runtime is not active"))
        end
  end.

Definition respond_request (id rid decision : string) (content : option string) : Act R ResponseOutcome := λ w,
  respond_request_by (control_deadline config w) id rid decision content w.
End messages.
