(* ===== verification/Starting.v ===== *)
(** * Starting claimed tasks

    The opening half of [crates/external-daemon/src/scheduler/lifecycle.rs]
    ([start_claim], [start_ready]), the starter of a submission ([admission.rs]) and
    the routes it checks ([lib.rs]).

    Starting a claim is an operation on the world of its task.  Before the factory
    has spawned a runtime, the world's runtime is only where the clocks are read.
    The file system is a parameter, and so are the directory a resumed task gets
    back, the check of the runtime's file, the tracker the task had before, the
    order in which its hash sets are iterated, and what the other threads did until
    the operation lock was free. *)

From stdpp Require Import pretty.
From S2P Require Import Prelude RustStr RustPath Utf8 Json FileSystem PolicyPaths Launcher General Observation RuntimeEvents ActivityTracker StoreRecords StoreSql StoreOps RuntimeOwner RuntimeLifecycle Sink Diagnostics Recovery Control Messages.

(** ** Worlds of claims *)

Section worlds.
Context {R : Type}.
Implicit Types w : World R.

(** [handle.owner_epoch == claim.owner_epoch] before the handle is removed. *)
Definition drop_starting (epoch : Z) w : World R :=
  match w_starting w with
  | Some h => if Z.eqb (h_epoch h) epoch then put_starting None w else w
  | None => w
  end.

(** The latch and the sink of a new runtime. *)
Definition attach (latch : RuntimeLifecycle) (sink : StoreLifecycleSink) w : World R :=
  mk_world (w_db w) (w_owner w) (w_session w) latch sink false (w_runtime w) (w_calls w) (w_starting w).

(** The entry of the active table, with the tracker it shares with its sink. *)
Definition register (epoch : Z) (session : string) (inherit : PassiveActivityTracker → PassiveActivityTracker)
    w : World R :=
  let s := w_sink w in
  mk_world (w_db w) (Some epoch) session (w_latch w)
    (mk_sink (sink_agent s) (sink_runtime s) (sink_epoch s) (write_state s) (inherit (activity s)))
    (w_check w) (w_runtime w) (w_calls w) None.

Definition put_activity (f : PassiveActivityTracker → PassiveActivityTracker) w : World R :=
  let s := w_sink w in
  put_sink (mk_sink (sink_agent s) (sink_runtime s) (sink_epoch s) (write_state s) (f (activity s))) w.

(** An operation whose error is only recorded, or taken up by the caller. *)
Definition attempt {A} (m : Act R A) : Act R (result SchedulerError A) := λ w,
  let '(r, w) := m w in (Ok r, w).
End worlds.

Definition stored_identity (i : ProcessIdentity) : StoredProcessIdentity :=
  StoreRecords.mk_identity (pid i) (pgid i) (uid i) (start_token i).

Definition runtime_agent_id (id : string) (epoch : Z) : string := id +:+ ":" +:+ pretty epoch.

(** Whether a claim was cancelled while its runtime was spawned. *)
Definition cancelled_claim (epoch : Z) (recheck : option TaskRecord) : bool :=
  match recheck with
  | Some t => Z.eqb (rec_owner_epoch t) epoch
              && (bool_decide (rec_phase t = Cancelling) || rec_stop_requested t || rec_close_requested t)
  | None => true
  end.

Definition ready_turn_state (t : TurnSnapshot) : TurnState :=
  if turn_active t then StoreRecords.TurnActive
  else match turn_boundary t with
       | Some BoundaryFailed => StoreRecords.TurnFailed
       | _ => StoreRecords.TurnIdle
       end.

(** A row that was not marked as running because it is being cancelled or ended. *)
Definition ending_row (current : option TaskRecord) : bool :=
  match current with
  | Some job => rec_stop_requested job || rec_close_requested job
                || bool_decide (rec_phase job = Cancelling) || bool_decide (rec_phase job = Terminal)
  | None => false
  end.

(** A row that is no longer the running task just marked. *)
Definition overtaken_row (current : option TaskRecord) : bool :=
  match current with
  | Some job => rec_stop_requested job || rec_close_requested job
                || negb (bool_decide (rec_phase job = Running))
  | None => false
  end.

Definition start_failure_code (e : RuntimeCommandError) : string :=
  match e with ModelRejected _ => "MODEL_REJECTED" | _ => "SESSION_START_FAILED" end.

Definition validate_task_route (task : option TaskRecord) : result string unit :=
  match task with Some _ => Ok tt | None => Err "prepared task metadata is missing" end.

Section starting.
Context (to_string : Value → string) (from_str : string → result string Value)
  (decode_prepared : Value → option PreparedGeneralTask)
  (sqlite_text : SqliteError → string) (task_result_digest : TaskResult → string)
  (debug_terminal : RuntimeTerminal → string).
Context (config : SchedulerConfig) (owner_id : string).
Context {R : Type} `{!ManagedRuntime R} `{!RuntimeFactory R}.
(** The file system, and the one [create_dir_all] leaves or its error. *)
Context (fs : FileSystem) (create_dir_all : Path → PreparationResult FileSystem).
Context (preparation_text : PreparationError → string).
Context (file_verified : option string → bool).
Context (wait_operation : World R → World R).

Definition admitted_model_from_task (task : TaskRecord) : option string :=
  match task_route from_str decode_prepared task with
  | Ok prepared => admission prepared ≫= model
  | Err _ => None
  end.

Definition route_policy (prepared : PreparedGeneralTask) (resumed : bool) : PreparationResult PolicyLauncher :=
  let interactive l := set_interactive_bash l (bool_decide (prep_permission_mode prepared = EditMode)) in
  if resumed then
    after ← create_dir_all (ws_scratch_root (workspace prepared));
    l ← @launcher after prepared; Ok (interactive l)
  else l ← @launcher fs prepared; Ok (interactive l).

(** A claim that cannot be routed. *)
Definition refuse_claim (claim : TaskClaim) (task : option TaskRecord) (code message : string) (now : Z)
    : Sched unit :=
  let id := task_id (rec_spec (claim_task claim)) in
  match task with
  | Some _ =>
      store_op (store_task_result_with_reason task_result_digest now id
                  (minimal_task_result CResultInvalid message code) None
                  (Some (persistable_failure_record to_string from_str id (rec_session_id (claim_task claim))
                           "preparation" code message "")))
  | None => _ ← store_op (fail_claim now id (claim_epoch claim) code message); mret tt
  end.

Definition finish_unstarted (id : string) (t : UnstartedTerminal) (reaped : bool) : Act R TaskPhase :=
  at_wall (λ now, finish_unstarted_route to_string from_str sqlite_text task_result_digest now id t reaped).

(** The end of a start that has spawned its runtime but not registered it: the
    handle goes, the runtime is stopped, the task is finished. *)
Definition abort_start (id : string) (epoch : Z) (session : option string) (stage : string)
    (o : CompletionOutcome) (code message : string) : Act R unit :=
  _ ← act_put (drop_starting epoch);
  terminal ← act_call (call_stop (stop_grace config));
  record ← act_get (failure_record to_string from_str id session stage code message);
  _ ← attempt (finish_unstarted id (mk_unstarted o code message (Some record))
                 (terminal_proves_process_group_reaped terminal));
  mret tt.

Definition cleanup_started (id : string) (epoch : Z) (failure : option (string * string)) : Act R TaskPhase :=
  cleanup_registered_runtime to_string from_str sqlite_text task_result_digest debug_terminal id epoch failure
    (stop_grace config).

(** A store error after the registration. *)
Definition start_store_failed {A} (id : string) (epoch : Z) (code : string) (e : SchedulerError) : Act R A :=
  _ ← attempt (cleanup_started id epoch (Some (code, scheduler_error_text sqlite_text e)));
  act_fail e.

(** The message a resumed task was requeued with. *)
Definition deliver_resumed (id : string) (epoch : Z) (session : string) : Act R unit :=
  _ ← act_put wait_operation;
  d ← act_get (control_deadline config);
  delivered ← attempt (deliver_next_message to_string config id session d);
  match delivered with
  | Ok _ => mret tt
  | Err e =>
      let message := match e with RuntimeCommand _ message => message | e => scheduler_error_text sqlite_text e end in
      _ ← cleanup_started id epoch (Some ("SESSION_SEND_FAILED", message));
      act_fail e
  end.

(** After the registration: the running mark, its recheck, the first message. *)
Definition start_registered (id : string) (epoch : Z) (identity : option StoredProcessIdentity)
    (session : string) (turn : TurnState) (resumed : bool) : Act R bool :=
  marked ← attempt (at_wall (λ now, store_op (mark_session_running now id epoch (runtime_agent_id id epoch)
                                                identity (Some session) (Some turn))));
  match marked with
  | Err e => start_store_failed id epoch "STORE_START_FAILED" e
  | Ok marked =>
      current ← attempt (on_store (store_query (get_task id)));
      match current with
      | Err e => start_store_failed id epoch "POST_REGISTRATION_READ_FAILED" e
      | Ok current =>
          if negb marked then
            _ ← cleanup_started id epoch
                  (if ending_row current then None
                   else Some ("RUNTIME_START_RACE", "running transition was not applied"));
            mret false
          else if overtaken_row current then
            _ ← cleanup_started id epoch None;
            mret false
          else
            _ ← (if resumed : bool then deliver_resumed id epoch session else mret tt);
            mret true
      end
  end.

Definition model_mismatch : string := "runtime model did not match the prepared request".

(** From the spawned runtime to its registration.  [previous] is the tracker of the
    task in the table of activities, with the orders its hash sets are merged in. *)
Definition start_spawned (claim : TaskClaim) (previous : option (PassiveActivityTracker * list string * list string))
    : Act R bool :=
  let task := claim_task claim in
  let id := task_id (rec_spec task) in
  let epoch := claim_epoch claim in
  let resumed := is_some (rec_session_id task) in
  identity ← act_get (λ w, option_map stored_identity (rt_identity (w_runtime w)));
  _ ← act_put (put_starting (Some (mk_handle epoch identity)));
  recheck ← on_store (store_query (get_task id));
  if cancelled_claim epoch recheck then
    _ ← abort_start id epoch (rec_session_id task) "cancelled" CCancelled "CANCELLED"
          "task was cancelled before bootstrap";
    mret false
  else
    _ ← act_put (put_activity (confirm_runtime_source
                   (adapter_runtime_source_verified file_verified (task_agent from_str decode_prepared task)
                      (runtime_source config))));
    session ← act_call (λ w, if resumed then rt_resume_session task (bootstrap_timeout config) (log_call CallResume w)
                             else rt_bootstrap_session task (bootstrap_timeout config) (log_call CallBootstrap w));
    match session with
    | Err e =>
        let message := command_error_display e in
        _ ← abort_start id epoch (rec_session_id task) "session_start" CFailed (start_failure_code e) message;
        act_fail (RuntimeCommand id message)
    | Ok session =>
        match (if resumed then Ok tt
               else validate_requested_model (admitted_model_from_task task) (ready_model session)) with
        | Err code =>
            _ ← abort_start id epoch (Some (ready_session session)) "session_start" CFailed code model_mismatch;
            act_fail (RuntimeCommand id model_mismatch)
        | Ok _ =>
            turn ← act_get (λ w, ready_turn_state (turn_of w));
            _ ← act_put (register epoch (ready_session session)
                           (λ t, match previous with
                                 | Some (p, events, frames) => inherit_wait_text events frames p t
                                 | None => t
                                 end));
            start_registered id epoch identity (ready_session session) turn resumed
        end
    end.

Definition start_claim (claim : TaskClaim)
    (previous : option (PassiveActivityTracker * list string * list string)) : Act R bool :=
  let task := claim_task claim in
  let id := task_id (rec_spec task) in
  let epoch := claim_epoch claim in
  stored ← on_store (store_query (get_task id));
  match task_route from_str decode_prepared task with
  | Err message =>
      _ ← at_wall (refuse_claim claim stored "PREPARED_LAUNCH_INVALID" message);
      act_fail (InvalidConfig message)
  | Ok prepared =>
      match validate_task_route stored with
      | Err message =>
          _ ← at_wall (refuse_claim claim stored "TASK_ROUTE_INVALID" message);
          act_fail (InvalidConfig message)
      | Ok _ =>
          match route_policy prepared (is_some (rec_session_id task)) with
          | Err e =>
              let message := preparation_text e in
              let record := persistable_failure_record to_string from_str id (rec_session_id task) "preparation"
                              "PREPARED_CONTENT_INVALID" message "" in
              _ ← finish_unstarted id (mk_unstarted CResultInvalid "PREPARED_CONTENT_INVALID" message (Some record)) true;
              act_fail (InvalidConfig message)
          | Ok _ =>
              let adapter := task_agent from_str decode_prepared task in
              let verified := adapter_runtime_source_verified file_verified adapter (runtime_source config) in
              _ ← act_put (attach (lifecycle_new epoch)
                             (sink_new id (runtime_agent_id id epoch) epoch
                                (tracker_for_launch adapter verified epoch)));
              spawned ← act_call (λ w, rt_spawn task (log_call CallSpawn w));
              match spawned with
              | Err message =>
                  let record := persistable_failure_record to_string from_str id (rec_session_id task) "spawn"
                                  "RUNTIME_SPAWN_FAILED" message "" in
                  _ ← attempt (finish_unstarted id (mk_unstarted CFailed "RUNTIME_SPAWN_FAILED" message (Some record)) true);
                  act_fail (RuntimeSpawn id message)
              | Ok _ => start_spawned claim previous
              end
          end
      end
  end.

(** The world of a claim before anything happened to it. *)
Definition claim_world (claim : TaskClaim) (db : Db) (r : R) : World R :=
  let id := task_id (rec_spec (claim_task claim)) in
  let epoch := claim_epoch claim in
  mk_world db None "" (lifecycle_new epoch)
    (sink_new id (runtime_agent_id id epoch) epoch (tracker_for_launch (task_agent from_str decode_prepared (claim_task claim)) false epoch))
    false r [] None.

(** The trackers in the table of activities, by task. *)
Context (activities : string → option (PassiveActivityTracker * list string * list string)).

Definition start_in_world (claim : TaskClaim) (db : Db) (r : R) : result SchedulerError bool * World R :=
  start_claim claim (activities (task_id (rec_spec (claim_task claim)))) (claim_world claim db r).

(** [start_ready], up to [rounds] claims: other threads may fill the queue while it
    works.  The result is [None] when it is not done by then; the worlds are those of
    the claims it started. *)
Fixpoint start_ready (rounds : nat) (db : Db) (r : R)
    : option (result SchedulerError (list string)) * list (World R) * Db :=
  match rounds with
  | 0 => (None, [], db)
  | S rounds =>
      match claim_next (wall r) owner_id u64_max (per_workspace_max_agents config) db with
      | (Err e, db) => (Some (Err (SStore e)), [], db)
      | (Ok None, db) => (Some (Ok []), [], db)
      | (Ok (Some claim), db) =>
          match start_in_world claim db r with
          | (Err e, w) => (Some (Err e), [], w_db w)
          | (Ok started, w) =>
              let '(result, worlds, db) := start_ready rounds (w_db w) (w_runtime w) in
              if started : bool
              then (option_map (fmap (cons (task_id (rec_spec (claim_task claim))))) result, w :: worlds, db)
              else (result, worlds, db)
          end
      end
  end.

(** The starter thread of a submission ([submit_and_start_general]). *)
Definition start_submitted (id : string) (db : Db) (r : R) : option (World R) * Db :=
  match claim_specific (wall r) id owner_id (per_workspace_max_agents config) db with
  | (Ok (Some claim), db) => let '(_, w) := start_in_world claim db r in (Some w, w_db w)
  | (_, db) => (None, db)
  end.

(** [start_ready] as another task's operation sees it. *)
Definition ready_step (rounds : nat) (w : World R) : World R :=
  let '(_, _, db) := start_ready rounds (w_db w) (w_runtime w) in put_db db w.
End starting.
