(* ===== verification/Monitor.v ===== *)
(** * The monitor of a runtime

    [crates/external-daemon/src/scheduler/monitor.rs], with the reads and the release
    it uses of [state.rs]: one thread per started task waits for the end of the
    runtime or of a turn, delivers queued messages between turns, and finishes the
    task.

    A round of the loop is a function on the world of the task that says whether the
    thread goes on, and from which turn generation.  The wait for a terminal, the
    operation lock and the pauses let other threads run.  Errors that are only
    recorded, and the log, are left out. *)

From stdpp Require Import pretty.
From S2P Require Import Prelude RustStr Utf8 Json RuntimeEvents General StoreRecords StoreSql StoreOps RuntimeOwner RuntimeLifecycle Sink Diagnostics Recovery Control Messages Starting.

Inductive FaultDisposition := Handled | Suppressed | Abandoned.

(** What the thread does after a round; [MPanics] is [unreachable!]. *)
Inductive MonitorNext := MReturn | MContinue (handled : Z) | MPanics.

#[global] Instance TurnBoundary_eq_dec : EqDecision TurnBoundary.
Proof. solve_decision. Defined.

Section monitor.
Context (to_string : Value → string) (from_str : string → result string Value)
  (sqlite_text : SqliteError → string) (task_result_digest : TaskResult → string)
  (debug_terminal : RuntimeTerminal → string).
Context (config : SchedulerConfig).
Context {R : Type} `{!ManagedRuntime R}.
Context (wait_operation pause start_ready : World R → World R).

Definition transport_failure_message (f : TransportFrameLimit) (terminal : RuntimeTerminal) : string :=
  to_string (VObject
    [("bytes", VNumber (PosInt (fl_bytes f))); ("cap", VNumber (PosInt (fl_cap f)));
     ("cleanup_result", VString (debug_terminal terminal));
     ("last_event_seq", VNumber (PosInt (fl_last_event_seq f)));
     ("message", VString (fl_reason f +:+ ": oversized NDJSON frame rejected (bytes=" +:+ pretty (fl_bytes f)
        +:+ " cap=" +:+ pretty (fl_cap f) +:+ " last_event_seq=" +:+ pretty (fl_last_event_seq f) +:+ ")"))]).

(** What the monitor makes of a terminal once it has read the row. *)
Definition monitor_decision (current : TaskRecord) (terminal : RuntimeTerminal) (natural : bool)
    (forced : option (CompletionOutcome * string)) (w : World R)
    : RuntimeTerminal * bool * option (CompletionOutcome * string) * World R :=
  if flagged_task current then
    let '(terminal, w) := call_stop (stop_grace config) (force_stop_latch w) in
    (terminal, false, Some (CCancelled, "CANCELLED"), w)
  else if negb (is_some forced) && is_some (first_error (write_state (w_sink w)))
  then (terminal, false, Some (CRuntimeLost, "LIFECYCLE_SINK_FAILED"), w)
  else (terminal, natural, forced, w).

Definition finish_locked_monitor_terminal (id : string) (epoch : Z) (terminal : RuntimeTerminal) (natural : bool)
    (forced : option (CompletionOutcome * string)) (cause : option string) : Act R TaskPhase :=
  current ← on_store (required_task id "active monitor task disappeared");
  if bool_decide (rec_phase current = Terminal) || negb (Z.eqb (rec_owner_epoch current) epoch)
  then mret (rec_phase current)
  else
    d ← act_call (λ w, let '(t, n, f, w) := monitor_decision current terminal natural forced w in ((t, n, f), w));
    finish_routed_terminal to_string from_str sqlite_text task_result_digest debug_terminal id d.1.1 d.1.2 d.2 cause.

(** The finish of a round: the outcome is stored as far as the store takes it, the
    entry is released, and the queue advances. *)
Definition finish_monitor (id : string) (epoch : Z) (terminal : RuntimeTerminal) (natural : bool)
    (forced : option (CompletionOutcome * string)) (cause : option string) (w : World R) : World R :=
  (finish_locked_monitor_terminal id epoch terminal natural forced cause w).2.

Definition release_and_advance (epoch : Z) (w : World R) : World R := start_ready (release_active epoch w).

(** ** Transport faults *)

Definition faulted (w : World R) : bool := is_some (transport_failure (write_state (w_sink w))).

Definition commit_fault (id : string) (epoch : Z) (reason : string) (detail : RuntimeTerminal → string)
    (w : World R) : World R :=
  let '(terminal, w) := rt_cleanup_forced (stop_grace config) (log_call CallCleanup (cancel_check w)) in
  let w := wait_operation w in
  let w := finish_monitor id epoch terminal false (Some (CFailed, reason)) (Some (detail terminal)) w in
  release_and_advance epoch w.

(** The row a fault may still close. *)
Definition fault_owner (epoch : Z) (task : option TaskRecord) (w : World R) : bool :=
  match task with
  | Some t => negb (bool_decide (rec_phase t = Terminal)) && Z.eqb (rec_owner_epoch t) epoch
              && bool_decide (w_owner w = Some epoch)
  | None => false
  end.

Definition handle_transport_failure (id : string) (epoch : Z) (w : World R) : FaultDisposition * World R :=
  match transport_failure (write_state (w_sink w)) with
  | None => (Suppressed, w)
  | Some failure =>
      let w := wait_operation w in
      match get_task id (w_db w) with
      | Err _ => (Suppressed, put_latch (note_decision_read_error (w_latch w)).2 w)
      | Ok task =>
          if fault_owner epoch task w then
            (Handled, commit_fault id epoch TRANSPORT_FRAME_LIMIT_REASON (transport_failure_message failure)
                        (force_stop_latch w))
          else (Abandoned, release_and_advance epoch w)
      end
  end.

(** A fault first; [retry] after one that could not be decided. *)
Definition fault_first (id : string) (epoch : Z) (retry next : World R → MonitorNext * World R) (w : World R)
    : MonitorNext * World R :=
  if faulted w then
    match handle_transport_failure id epoch w with
    | (Suppressed, w) => retry (pause w)
    | (_, w) => (MReturn, w)
    end
  else next w.

(** ** The end of the runtime *)

Definition natural_admission (w : World R) : NaturalCompletionAdmission * World R :=
  let '(a, shared) := begin_natural_completion (w_sink w) (w_latch w, w_db w) in
  (a, put_latch shared.1 (put_db shared.2 w)).

Definition close_terminal (id : string) (epoch : Z) (terminal : RuntimeTerminal) (natural : bool) (w : World R)
    : MonitorNext * World R :=
  let w := if natural then w else cancel_check w in
  let w := finish_monitor id epoch terminal natural None None w in
  (MReturn, release_and_advance epoch (cancel_check w)).

Definition is_completed (t : RuntimeTerminal) : bool := match t with TCompleted _ => true | _ => false end.

(** A terminal, under the operation lock. *)
Definition terminal_round (id : string) (epoch : Z) (session : string) (handled : Z) (terminal : RuntimeTerminal)
    (w : World R) : MonitorNext * World R :=
  let w := wait_operation w in
  if negb (is_completed terminal) && bool_decide (ingress_reason (w_latch w) = Some "LATE_AFTER_STOP")
  then (MReturn, w)
  else if is_completed terminal then
    match natural_admission w with
    | (Deferred true _, w) => (MContinue handled, pause w)
    | (Deferred false true, w) =>
        (MContinue handled, (deliver_next_message to_string config id session (control_deadline config w) w).2)
    | (Deferred false false, w) => (MPanics, w)
    | (_, w) => close_terminal id epoch terminal true w
    end
  else close_terminal id epoch terminal false w.

(** ** A failed sink *)

Definition sink_error_round (id : string) (epoch : Z) (handled : Z) (w : World R) : MonitorNext * World R :=
  let w := wait_operation (cancel_check w) in
  match first_error (write_state (w_sink w)) with
  | None => (MContinue handled, w)
  | Some _ =>
      let '(terminal, w) := call_stop (stop_grace config) (force_stop_latch w) in
      let w := finish_monitor id epoch terminal false (Some (CRuntimeLost, "LIFECYCLE_SINK_FAILED")) None w in
      (MReturn, release_active epoch w)
  end.

(** ** The end of a turn *)

Definition call_finish_turn (b : TurnBoundary) (d : ControlDeadline) (w : World R) : RuntimeTerminal * World R :=
  rt_finish_turn b (cleanup_grace (stop_grace config) (now_clock w) d) (log_call CallFinishTurn w).

(** No message is left: the turn ends the task. *)
Definition close_turn (id : string) (epoch : Z) (b : TurnBoundary) (d : ControlDeadline) (w : World R)
    : MonitorNext * World R :=
  let completed := bool_decide (b = BoundaryCompleted) in
  let w := if completed then w else cancel_check w in
  let '(terminal, w) := call_finish_turn b d w in
  let w := finish_monitor id epoch terminal completed None None w in
  (MReturn, release_and_advance epoch (cancel_check w)).

(** A message that could not be delivered ends the task. *)
Definition fail_delivery (id : string) (epoch : Z) (d : ControlDeadline) (e : SchedulerError) (w : World R)
    : MonitorNext * World R :=
  let cause := match e with RuntimeCommand _ message => message | e => scheduler_error_text sqlite_text e end in
  let '(terminal, w) := call_finish_turn BoundaryFailed d (cancel_check w) in
  let w := finish_monitor id epoch terminal false (Some (CFailed, "MESSAGE_DELIVERY_FAILED"))
             (Some (cleanup_detail to_string from_str debug_terminal (Some cause) terminal)) w in
  (MReturn, release_and_advance epoch w).

Definition after_delivery (id : string) (epoch : Z) (handled : Z) (b : TurnBoundary) (d : ControlDeadline)
    (r : result SchedulerError (option MessageRow)) (w : World R) : MonitorNext * World R :=
  match r with
  | Ok (Some _) => (MContinue handled, w)
  | Ok None => close_turn id epoch b d w
  | Err e => fail_delivery id epoch d e w
  end.

Definition same_turn (t u : TurnSnapshot) : bool :=
  negb (turn_active u) && Z.eqb (turn_generation u) (turn_generation t)
  && bool_decide (turn_boundary u = turn_boundary t).

(** An ended turn, under the operation lock. *)
Definition turn_round (id : string) (epoch : Z) (session : string) (handled : Z) (turn : TurnSnapshot)
    (b : TurnBoundary) (w : World R) : MonitorNext * World R :=
  let w := wait_operation w in
  if negb (bool_decide (b = BoundaryCompleted)) && is_some (ingress_reason (w_latch w)) then (MReturn, w)
  else if negb (same_turn turn (turn_of w)) then (MContinue handled, w)
  else
    let handled := turn_generation turn in
    let d := control_deadline config w in
    let deliver w := let '(r, w) := deliver_next_message to_string config id session d w in
                     after_delivery id epoch handled b d r w in
    if bool_decide (b = BoundaryCompleted) then
      match natural_admission w with
      | (Deferred false true, w) => deliver w
      | (Deferred _ _, w) => (MContinue (saturating_sub handled 1), w)
      | (_, w) => close_turn id epoch b d w
      end
    else deliver w.

(** ** A round, and the loop *)

Definition monitor_round (id : string) (epoch : Z) (session : string) (handled : Z) (w : World R)
    : MonitorNext * World R :=
  let retry w := (MContinue handled, w) in
  let rest w :=
    match rt_wait_terminal 50000000 w with
    | (Some terminal, w) => fault_first id epoch retry (terminal_round id epoch session handled terminal) w
    | (None, w) =>
        if is_some (first_error (write_state (w_sink w))) then sink_error_round id epoch handled w
        else
          let turn := turn_of w in
          if negb (turn_active turn) && Z.ltb handled (turn_generation turn) then
            match turn_boundary turn with
            | None => retry w
            | Some b => fault_first id epoch retry (turn_round id epoch session handled turn b) w
            end
          else retry w
    end in
  fault_first id epoch rest rest w.

Fixpoint monitor (rounds : nat) (id : string) (epoch : Z) (session : string) (handled : Z) (w : World R)
    : MonitorNext * World R :=
  match rounds with
  | 0 => (MContinue handled, w)
  | S rounds =>
      match monitor_round id epoch session handled w with
      | (MContinue handled, w) => monitor rounds id epoch session handled w
      | r => r
      end
  end.
End monitor.
