(* ===== verification/Admission.v ===== *)
(** * Admission and drain

    [crates/external-daemon/src/scheduler/admission.rs]: the submission of a task,
    and the drain after which an update may take the daemon's place.

    Submission and the drain flag are serialised by the admission lock, so each
    operation is one step on the drain state and the database.  The text serde
    derives for a prepared task, the texts of preparation errors and what observing
    a process group shows are parameters.  The thread that cancels tasks during a
    drain is the ids it is given and the end of its work. *)

From S2P Require Import Prelude RustStr RustPath Json FileSystem PolicyPaths General StoreRecords StoreSql StoreOps RuntimeOwner Recovery.

(** ** Drain *)

Record DrainState := mk_drain {
  draining : bool; drain_cancel_running : bool; updater_fired : bool;
  activation_claim : option string }.

Definition drain_new : DrainState := mk_drain false false false None.

Definition set_draining (b : bool) (d : DrainState) : DrainState :=
  mk_drain b (drain_cancel_running d) (updater_fired d) (activation_claim d).
Definition set_cancel_running (b : bool) (d : DrainState) : DrainState :=
  mk_drain (draining d) b (updater_fired d) (activation_claim d).

Section drain.
Context (from_str : string → result string Value) (decode_prepared : Value → option PreparedGeneralTask).

(** The flag first, then the terminal rows whose groups are gone. *)
Definition begin_drain (now : Z) (group_empty : StoredProcessIdentity → option bool) (d : DrainState)
    (db : Db) : DrainState * Db :=
  (set_draining true d, reap_terminal_stragglers from_str decode_prepared now group_empty db).
End drain.

Definition abort_drain (d : DrainState) : result SchedulerError unit * DrainState :=
  if negb (draining d) then (Err (InvalidConfig "drain_not_active"), d)
  else if drain_cancel_running d then (Err (InvalidConfig "drain_cancel_in_progress"), d)
  else (Ok tt, set_draining false d).

(** [cancel_draining_tasks]: the fence, then the single worker and its ids. *)
Definition cancel_draining_tasks (d : DrainState) (db : Db)
    : result SchedulerError (option (list string)) * DrainState * Db :=
  match fence_queued_cancellation db with
  | (Err e, db) => (Err (SStore e), d, db)
  | (Ok _, db) =>
      if drain_cancel_running d then (Ok None, d, db)
      else (Ok (Some (nonterminal_task_ids db)), set_cancel_running true d, db)
  end.

Definition drain_cancel_done : DrainState → DrainState := set_cancel_running false.

(** [active] is the number of entries of the active table. *)
Definition resources_reaped (active : nat) (db : Db) : bool := Nat.eqb active 0 && all_tasks_reaped db.

Definition ready_for_activation (active : nat) (d : DrainState) (db : Db) : bool :=
  draining d && negb (drain_cancel_running d) && Nat.eqb active 0 && all_tasks_reaped db.

Definition claim_activation (owner_id : string) (active : nat) (d : DrainState) (db : Db)
    : option string * DrainState :=
  if negb (ready_for_activation active d db) then (None, d)
  else
    match activation_claim d with
    | Some token => (Some token, d)
    | None =>
        let token := owner_id +:+ "-activation" in
        (Some token, mk_drain (draining d) (drain_cancel_running d) true (Some token))
    end.

Definition fire_updater_once (owner_id : string) (active : nat) (d : DrainState) (db : Db)
    : bool * DrainState :=
  let '(claimed, d) := claim_activation owner_id active d db in (is_some claimed, d).

(** ** Submission *)

Section submission.
Context `{FileSystem}.
Context (create_scratch : Path → string → nat → CreateDir).
Context (encode_prepared : PreparedGeneralTask → string) (preparation_text : PreparationError → string).

Definition sched_lift {A} (r : PreparationResult A) : Sched A :=
  match r with Ok a => mret a | Err e => sched_fail (InvalidConfig (preparation_text e)) end.

Definition named (id : string) (m : GeneralTaskManifest) : GeneralTaskManifest :=
  mk_manifest (schema m) id (repository m) (permission_mode m) (prompt m) (write_manifest m).

Definition submitted (p : PreparedGeneralTask) (initial : string) : NewTask :=
  mk_new_task (prep_agent_id p) (prep_repository p) (ws_path (workspace p)) None (encode_prepared p)
    initial.

Definition enqueue_general_with_admission (now : Z) (d : DrainState) (manifest : GeneralTaskManifest)
    (admission : option AdmissionIdentity) : Sched TaskRecord :=
  if draining d then sched_fail (InvalidConfig "daemon_draining")
  else
    id ← store_op reserve_task_id;
    let manifest := named id manifest in
    prepared ← sched_lift (prepare_direct_submission create_scratch manifest);
    prepared ← match admission with
               | Some identity => sched_lift (with_admission prepared identity)
               | None => mret prepared
               end;
    store_op (enqueue_task_authoritative now (submitted prepared (prompt manifest))).

Definition enqueue_general (now : Z) (d : DrainState) (manifest : GeneralTaskManifest) : Sched TaskRecord :=
  enqueue_general_with_admission now d manifest None.
End submission.
