(* ===== verification/MessageProps.v ===== *)
(** * Properties of messages and control

    Whatever a runtime and the other threads do in between, the operations of the
    scheduler on a task are histories of store operations, and a message is handed
    to the runtime at most once.  A repeated send changes nothing, and a draining
    daemon takes no new message. *)

From stdpp Require Import relations.
From S2P Require Import Prelude RustStr Utf8 Json RuntimeEvents General StoreRecords StoreSql StoreOps StoreView StoreRefine StoreProps StoreKeeps RuntimeOwner RuntimeLifecycle Sink SinkProps Diagnostics Recovery RecoveryProps Control Messages.

(** The messages a list of calls hands over. *)
Definition handed (c : RuntimeCall) : option string :=
  match c with CallSend m _ | CallInject m _ => Some m | _ => None end.
Definition sent (l : list RuntimeCall) : list string := omap handed l.

Lemma sent_app l k : sent (l ++ k) = sent l ++ sent k.
Proof. apply omap_app. Qed.

Section advances.
Context (digest : TaskResult → string) {R : Type}.
Implicit Types w : World R.

(** What a thread may do to a world, but for the message [own]: run store
    operations, and hand over messages it takes out of their queue. *)
Definition advances_but (own : string → Prop) w w' : Prop :=
  rtc (store_step digest) (w_db w) (w_db w')
  ∧ ∃ l, w_calls w' = w_calls w ++ l ∧ NoDup (sent l)
    ∧ ∀ mid, mid ∈ sent l → settled mid (w_db w') ∧ (own mid ∨ ¬ settled mid (w_db w)).

Definition advances : World R → World R → Prop := advances_but (λ _, False).

Lemma advances_history own w w' : advances_but own w w' → rtc (store_step digest) (w_db w) (w_db w').
Proof. by intros [H _]. Qed.

Lemma advances_store w w' :
  rtc (store_step digest) (w_db w) (w_db w') → w_calls w' = w_calls w → advances w w'.
Proof.
  intros H E. split; [done|]. exists []. rewrite app_nil_r. split_and!; [done | apply NoDup_nil_2 |].
  intros mid Hm. by apply not_elem_of_nil in Hm.
Qed.

Lemma advances_refl w : advances w w.
Proof. by apply advances_store. Qed.

Lemma advances_but_trans own w1 w2 w3 :
  (∀ mid, own mid → settled mid (w_db w1)) →
  advances_but own w1 w2 → advances w2 w3 → advances_but own w1 w3.
Proof.
  intros Hown (H1 & l1 & E1 & N1 & S1) (H2 & l2 & E2 & N2 & S2).
  split; [by etrans|]. exists (l1 ++ l2). rewrite sent_app. split_and!.
  - by rewrite E2, E1, app_assoc.
  - apply NoDup_app. split_and!; [done | | done]. intros mid Hm Hm2.
    destruct (S1 mid Hm) as [Hs _]. by destruct (S2 mid Hm2) as [_ [[]|[]]].
  - intros mid [Hm|Hm]%elem_of_app.
    + destruct (S1 mid Hm) as [Hs Ho]. split; [by eapply history_settled|done].
    + destruct (S2 mid Hm) as [Hs [[]|Hn]]. split; [done|]. right. intros Hs1. apply Hn.
      by eapply history_settled.
Qed.

Lemma advances_trans w1 w2 w3 : advances w1 w2 → advances w2 w3 → advances w1 w3.
Proof. by apply advances_but_trans. Qed.

Lemma advances_weaken own w w' : advances w w' → advances_but own w w'.
Proof.
  intros (H & l & E & N & S). split; [done|]. exists l. split_and!; [done | done |].
  intros mid Hm. destruct (S mid Hm) as [? [[]|?]]. eauto.
Qed.

(** One hand-over of a settled message between two stretches of other work. *)
Lemma advances_hand mid w1 w2 w3 c :
  handed c = Some mid → settled mid (w_db w1) →
  advances w1 w2 → advances (log_call c w2) w3 → advances_but (eq mid) w1 w3.
Proof.
  intros Hc Hs (H1 & l1 & E1 & N1 & S1) H3.
  apply (advances_but_trans (eq mid) w1 (log_call c w2) w3); [by intros ? <- | | done].
  split; [done|]. exists (l1 ++ [c]). rewrite sent_app. cbn. rewrite Hc. split_and!.
  - by rewrite E1, app_assoc.
  - apply NoDup_app. split_and!; [done | | apply NoDup_singleton].
    intros x Hx ->%list_elem_of_singleton. by destruct (S1 _ Hx) as [_ [[]|[]]].
  - intros x [Hx| ->%list_elem_of_singleton]%elem_of_app.
    + destruct (S1 x Hx) as [? [[]|?]]. eauto.
    + split; [by eapply history_settled | by left].
Qed.

(** The claim that precedes it. *)
Lemma advances_claimed mid w w1 w2 :
  rtc (store_step digest) (w_db w) (w_db w1) → w_calls w1 = w_calls w →
  ¬ settled mid (w_db w) → advances_but (eq mid) w1 w2 → advances w w2.
Proof.
  intros H E Hn (H1 & l & E1 & N1 & S1). split; [by etrans|]. exists l.
  split_and!; [by rewrite E1, E | done |]. intros x Hx. destruct (S1 x Hx) as [Hs [<-|Hn']].
  - split; [done | by right].
  - split; [done|]. right. intros Hs'. apply Hn'. by eapply history_settled.
Qed.

(** ** Operations *)

Definition reach w : Prop := reachable digest (w_db w).

Lemma reach_advances own w w' : reach w → advances_but own w w' → reach w'.
Proof. intros H [Ha _]. exact (rtc_trans _ _ _ H Ha). Qed.

(** A function, or an operation, that only advances the world. *)
Definition moves {A} (f : World R → A * World R) : Prop := ∀ w, reach w → advances w (f w).2.
Definition steps (f : World R → World R) : Prop := ∀ w, reach w → advances w (f w).
Definition safe {A} (m : Act R A) : Prop := moves m.

Lemma safe_ret {A} (a : A) : safe (mret a).
Proof. intros w _. apply advances_refl. Qed.
Lemma safe_fail {A} e : safe (act_fail e : Act R A).
Proof. intros w _. apply advances_refl. Qed.
Lemma safe_get {A} (f : World R → A) : safe (act_get f).
Proof. intros w _. apply advances_refl. Qed.
Lemma safe_put f : steps f → safe (act_put f).
Proof. intros H w Hr. by apply H. Qed.
Lemma safe_call {A} (f : World R → A * World R) : moves f → safe (act_call f).
Proof. intros H w Hr. unfold act_call. specialize (H w Hr). by destruct (f w). Qed.

Lemma safe_bind {A B} (m : Act R A) (f : A → Act R B) : safe m → (∀ a, safe (f a)) → safe (m ≫= f).
Proof.
  intros Hm Hf w Hr. unfold mbind, act_bind. specialize (Hm w Hr).
  destruct (m w) as [[a|e] w1]; [|done]. cbn [snd] in *.
  eapply advances_trans; [done|]. apply Hf. by eapply reach_advances.
Qed.

Definition historic {A} (m : Sched A) : Prop := ∀ db, rtc (store_step digest) db (m db).2.

Lemma safe_store {A} (m : Sched A) : historic m → safe (on_store m).
Proof.
  intros H w Hr. unfold on_store. specialize (H (w_db w)). destruct (m (w_db w)) as [r db].
  by apply advances_store.
Qed.

Lemma historic_framed id {A} (m : Sched A) : framed digest id m → historic m.
Proof. intros H db. by destruct (H db). Qed.

Lemma historic_op {A} (op : Db → StoreResult A * Db) :
  (∀ db, store_step digest db (op db).2) → historic (store_op op).
Proof. intros H db. unfold store_op. specialize (H db). destruct (op db) as [[] db']; by apply rtc_once. Qed.

Lemma historic_query {A} (q : Db → StoreResult A) : historic (store_query q).
Proof. intros db. unfold store_query. by destruct (q db). Qed.
Lemma historic_read {A} (q : Db → A) : historic (store_read q).
Proof. intros db. done. Qed.
Lemma historic_required id m : historic (required_task id m).
Proof. apply (historic_framed id), framed_required. Qed.

(** Changes outside the database and the calls. *)
Lemma steps_quiet f : (∀ w, w_db (f w) = w_db w) → (∀ w, w_calls (f w) = w_calls w) → steps f.
Proof. intros H1 H2 w _. apply advances_store; [by rewrite H1 | done]. Qed.

Lemma steps_log f c : handed c = None → steps f → steps (λ w, f (log_call c w)).
Proof.
  intros Hc Hf w Hr. destruct (Hf (log_call c w) Hr) as (H & l & E & N & S).
  split; [done|]. exists (c :: l). cbn [w_calls log_call] in E. split_and!.
  - rewrite E. by rewrite <- app_assoc.
  - cbn. by rewrite Hc.
  - intros mid Hm. cbn in Hm. rewrite Hc in Hm. exact (S mid Hm).
Qed.

Lemma moves_log {A} (f : World R → A * World R) c : handed c = None → moves f → moves (λ w, f (log_call c w)).
Proof. intros Hc Hf w. by apply (steps_log (λ w, (f w).2)). Qed.
End advances.

(** ** What a runtime may do *)

(** A call of a runtime, and the threads that run meanwhile, only advance the
    world: the database moves by store operations, and messages are handed over by
    whoever took them out of their queue. *)
Class RuntimeLaws (digest : TaskResult → string) (R : Type) `{!ManagedRuntime R} : Prop := {
  rt_stop_moves grace : moves digest (rt_stop grace);
  rt_send_moves session content t : moves digest (rt_send_turn session content t);
  rt_inject_moves session content t : moves digest (rt_inject_turn session content t);
  rt_stop_turn_moves session t : moves digest (rt_stop_turn session t);
  rt_respond_moves c decision content t : moves digest (rt_respond_request c decision content t);
  rt_close_moves session t : moves digest (rt_close_session session t);
  rt_bootstrap_moves task t : moves digest (rt_bootstrap_session task t);
  rt_resume_moves task t : moves digest (rt_resume_session task t);
  rt_wait_moves t : moves digest (rt_wait_terminal t);
  rt_cleanup_moves grace : moves digest (rt_cleanup_forced grace);
  rt_finish_moves b grace : moves digest (rt_finish_turn b grace) }.

Lemma framed_history digest id {A} (m : Sched A) db : framed digest id m → rtc (store_step digest) db (m db).2.
Proof. intros H. by destruct (H db). Qed.

(** [finish_general] is a history. *)
Lemma finish_general_history digest to_string now terminal c s db :
  rtc (store_step digest) db (finish_general to_string digest now terminal c s db).2.
Proof.
  unfold finish_general. destruct (first_error (write_state s)); [done|].
  destruct (terminal_written (write_state s)); [done|].
  destruct (append_lifecycle _ _ db) as [[u|e] db1] eqn:E1; cbn [snd];
    assert (rtc (store_step digest) db db1) as H1
      by (eapply (snd_step digest (append_lifecycle _ _)); [constructor | exact E1]); [|done].
  destruct (persist_general_result digest now (sink_agent s) c db1) as [[v|e] db2] eqn:E2; cbn [snd];
    assert (rtc (store_step digest) db1 db2) as H2
      by (unfold persist_general_result in E2;
          destruct (precedence_framed digest now (sink_agent s) (completion_result c) (completion_reason c)
            (failure_message c) db1) as [H _]; by rewrite E2 in H); [|by etrans].
  destruct (if _ && _ then reap_task now (sink_agent s) db2 else _) as [reaped db3] eqn:E3.
  assert (rtc (store_step digest) db2 db3) as H3.
  { destruct (_ && _); [|by injection E3 as _ <-].
    eapply (snd_step digest (reap_task _ _)); [constructor | exact E3]. }
  destruct reaped; cbn [snd]; by do 2 (etrans; [done|]).
Qed.

Create HintDb safe discriminated.

(** Walk through an operation. *)
Ltac safe_walk :=
  repeat first
    [ solve [auto with safe]
    | apply safe_bind; [|intros ?]
    | match goal with
      | |- safe _ (let _ := _ in _) => cbv zeta
      | |- safe _ (if ?b then _ else _) => destruct b
      | |- safe _ (match ?x with _ => _ end) => destruct x
      end ].

Section laws.
Context (to_string : Value → string) (from_str : string → result string Value)
  (decode_prepared : Value → option PreparedGeneralTask)
  (sqlite_text : SqliteError → string) (digest : TaskResult → string)
  (debug_terminal : RuntimeTerminal → string).
Context (config : SchedulerConfig).
Context {R : Type} `{!ManagedRuntime R} `{!RuntimeLaws digest R}.
Context (await_operation : ControlDeadline → World R → bool * World R).
Context (start_ready : World R → World R).
Hypothesis await_moves : ∀ d, moves digest (await_operation d).
Hypothesis ready_steps : steps digest start_ready.

Notation safe := (@safe digest R _).

Lemma safe_wall {A} (m : Z → Sched A) : (∀ now, historic digest (m now)) → safe (at_wall m).
Proof. intros H w Hr. unfold at_wall. by apply safe_store. Qed.

Lemma safe_ingress id : safe (require_runtime_ingress id).
Proof. intros w _. unfold require_runtime_ingress. destruct (ingress_reason _); apply advances_refl. Qed.
Lemma safe_time id d : safe (require_time id d).
Proof. intros w _. unfold require_time. destruct (remaining _ _); apply advances_refl. Qed.
Lemma safe_lock id d : safe (lock_operation await_operation id d).
Proof. apply safe_bind; [by apply safe_call|]. intros []; [apply safe_ret | apply safe_fail]. Qed.

Lemma safe_release {A} epoch (m : Act R A) : safe m → safe (then_release epoch m).
Proof.
  intros H w Hr. unfold then_release. specialize (H w Hr). destruct (m w) as [r w1]. cbn [snd] in *.
  eapply advances_trans; [done|]. unfold release_active. case_bool_decide; by apply advances_store.
Qed.

#[local] Hint Resolve safe_ret safe_fail safe_get safe_store safe_wall safe_ingress safe_time safe_lock
  historic_op historic_query historic_read historic_required : safe.
#[local] Hint Constructors store_step : safe.

Lemma safe_completion id c reap :
  safe (at_wall (λ now, persist_general_completion to_string from_str sqlite_text digest now id c reap)).
Proof. apply safe_wall. intros now. apply (historic_framed digest id), framed_completion. Qed.

Lemma safe_routed id terminal natural forced cause :
  safe (finish_routed_terminal to_string from_str sqlite_text digest debug_terminal id terminal natural
          forced cause).
Proof.
  intros w Hr. unfold finish_routed_terminal. set (w1 := put_latch _ w).
  destruct (routed_completion to_string from_str debug_terminal id terminal natural forced cause w1)
    as [c w2] eqn:E.
  assert (w_db w2 = w_db w ∧ w_calls w2 = w_calls w) as [Hdb Hc].
  { unfold routed_completion in E. destruct (default _ forced) as [o reason].
    destruct (draft_completion _ _ _ _ _) as [c' s']. by injection E as <- <-. }
  pose proof (finish_general_history digest to_string (wall (w_runtime w2)) terminal c (w_sink w2) (w_db w2)) as Hh.
  destruct (finish_general _ _ _ _ _ _ _) as [[[p|e] s] db]; cbn [snd] in Hh; rewrite Hdb in Hh.
  - by apply advances_store.
  - eapply advances_trans; [by apply (advances_store digest w (put_sink s (put_db db w2)))|].
    apply safe_completion. exact (rtc_trans _ _ _ Hr Hh).
Qed.

Lemma safe_unstarted id t reaped :
  safe (at_wall (λ now, finish_unstarted_route to_string from_str sqlite_text digest now id t reaped)).
Proof. apply safe_wall. intros now. apply (historic_framed digest id), framed_unstarted. Qed.

Lemma steps_latch (f : World R → RuntimeLifecycle) : steps digest (λ w, put_latch (f w) w).
Proof. by apply steps_quiet. Qed.

Lemma moves_stop grace : moves digest (call_stop grace).
Proof. apply moves_log; [done | apply rt_stop_moves]. Qed.

Lemma safe_cleanup id epoch failure grace :
  safe (cleanup_registered_runtime to_string from_str sqlite_text digest debug_terminal id epoch failure grace).
Proof.
  unfold cleanup_registered_runtime. safe_walk.
  - apply safe_put. by apply steps_quiet.
  - apply safe_put, steps_latch.
  - apply safe_call, moves_stop.
  - apply safe_release. intros w Hr. unfold close_stopped. destruct (match _ with Some _ => _ | None => _ end).
    + by apply safe_routed.
    + by apply safe_unstarted.
Qed.

#[local] Hint Resolve safe_completion safe_routed safe_unstarted safe_cleanup safe_put safe_call
  moves_stop steps_latch : safe.

Lemma safe_fail_closed id epoch d code message :
  safe (fail_closed_control to_string from_str sqlite_text digest debug_terminal config start_ready id epoch d
          code message).
Proof.
  unfold fail_closed_control. safe_walk.
Qed.
#[local] Hint Resolve safe_fail_closed : safe.

(** ** Stop and close *)

Lemma steps_turn_phase d : steps digest (stop_turn_phase config d).
Proof.
  intros w Hr. unfold stop_turn_phase. destruct (runtime_phase_timeout config d w) as [t|]; [|by apply advances_store].
  unfold cooperative_stop. destruct (acknowledge_boundary _ _) as [[] latch]; [by apply advances_store|].
  destruct (turn_active _); [|by apply advances_store].
  pose proof (moves_log digest _ CallStopTurn eq_refl (rt_stop_turn_moves (w_session (put_latch latch w)) t)
    (put_latch latch w) Hr) as Hm. cbn beta in Hm.
  destruct (rt_stop_turn _ _ _) as [[b|e] w1]; cbn [snd] in Hm.
  - destruct (acknowledge_boundary b (w_latch w1)) as [[] l1]; (eapply advances_trans;
      [by apply (advances_store digest w (put_latch latch w))|]; eapply advances_trans;
      [exact Hm | by apply advances_store]).
  - eapply advances_trans; [by apply (advances_store digest w (put_latch latch w))|].
    eapply advances_trans; [exact Hm | by apply advances_store].
Qed.

Lemma steps_close_phase close d : steps digest (close_session_phase config close d).
Proof.
  intros w Hr. unfold close_session_phase. destruct close; [|apply advances_refl].
  destruct (runtime_phase_timeout config d w) as [t|]; [|apply advances_refl].
  by apply (moves_log digest _ CallClose eq_refl (rt_close_moves (w_session w) t) w).
Qed.

#[local] Hint Resolve steps_turn_phase steps_close_phase safe_release : safe.

Lemma safe_stop_active id close epoch decided d :
  safe (stop_active to_string from_str sqlite_text digest debug_terminal config id close epoch decided d).
Proof. unfold stop_active. safe_walk. Qed.
#[local] Hint Resolve safe_stop_active : safe.

Lemma safe_stop_locked id close epoch decided d :
  safe (stop_locked to_string from_str sqlite_text digest debug_terminal config await_operation start_ready
          id close epoch decided d).
Proof. unfold stop_locked. safe_walk. Qed.
#[local] Hint Resolve safe_stop_locked : safe.

Lemma safe_inactive id :
  safe (at_wall (λ now, finish_inactive to_string from_str decode_prepared sqlite_text digest now id)).
Proof.
  apply safe_wall. intros now. apply (historic_framed digest id), framed_finish_inactive.
Qed.
#[local] Hint Resolve safe_inactive : safe.

Lemma safe_stop_or_close id close d :
  safe (request_stop_or_close to_string from_str decode_prepared sqlite_text digest debug_terminal config
          await_operation start_ready id close d).
Proof.
  unfold request_stop_or_close. safe_walk.
  - apply safe_wall. intros now. apply historic_op. intros db. destruct close; constructor.
  - apply safe_put. apply steps_quiet; intros w; by destruct (w_owner w).
  - apply safe_put. destruct a; by apply steps_quiet.
Qed.

(** ** Delivery *)

Lemma claim_takes id db m db' :
  reachable digest db → claim_next_message id db = (Ok (Some m), db') →
  ¬ settled (message_id m) db ∧ settled (message_id m) db'.
Proof.
  intros Hr H. destruct (claim_next_message_order _ _ _ _ _ Hr H) as (q & Hin & Hq & -> & _ & Hf). cbn.
  split; [|by eexists]. intros (y & Hy & Hs). unfold queued_for in Hq. bool_hyp.
  unfold find_message in Hy.
  rewrite (find_key_in message_id _ _ q (gl_messages _ (di_glob _ (reachable_inv _ _ Hr))) Hin eq_refl) in Hy.
  congruence.
Qed.

Lemma deliver_send_serves m active session d w1 w2 :
  reach digest w2 → settled (message_id m) (w_db w1) → advances digest w1 w2 →
  advances_but digest (eq (message_id m)) w1 (deliver_send config m active session d w2).2.
Proof.
  intros Hr Hs Ha. unfold deliver_send. destruct (runtime_phase_timeout config d w2) as [t|].
  - destruct ((m_mode m ≟ "queue") && active).
    + pose proof (rt_inject_moves (digest:=digest) session (m_content m) t
        (log_call (CallInject (message_id m) (m_content m)) w2) Hr) as Hm.
      destruct (rt_inject_turn _ _ _ _). exact (advances_hand digest _ _ _ _ (CallInject _ _) eq_refl Hs Ha Hm).
    + pose proof (rt_send_moves (digest:=digest) session (m_content m) t
        (log_call (CallSend (message_id m) (m_content m)) w2) Hr) as Hm.
      destruct (rt_send_turn _ _ _ _). exact (advances_hand digest _ _ _ _ (CallSend _ _) eq_refl Hs Ha Hm).
  - by apply advances_weaken.
Qed.

Lemma deliver_claimed_serves m session d w :
  reach digest w → settled (message_id m) (w_db w) →
  advances_but digest (eq (message_id m)) w (deliver_claimed config m session d w).2.
Proof.
  intros Hr Hs. unfold deliver_claimed. destruct (_ && _); [|apply deliver_send_serves; [done | done | apply advances_refl]].
  destruct (runtime_phase_timeout config d w) as [t|]; [|apply advances_weaken, advances_refl].
  pose proof (moves_log digest _ CallStopTurn eq_refl (rt_stop_turn_moves session t) w Hr) as Hm.
  cbn beta in Hm. destruct (rt_stop_turn _ _ _) as [[b|e] w1]; cbn [snd] in Hm; [|by apply advances_weaken].
  apply deliver_send_serves; [by eapply reach_advances | done | done].
Qed.

Lemma safe_settle id m r : safe (settle_delivery to_string id m r).
Proof.
  unfold settle_delivery. safe_walk; apply safe_wall; intros; apply historic_op; constructor.
Qed.

Lemma safe_deliver id session d : safe (deliver_next_message to_string config id session d).
Proof.
  apply safe_bind; [apply safe_ingress|]. intros _ w Hr. unfold mbind at 1, act_bind at 1.
  unfold on_store at 1, store_op at 1.
  pose proof (do_claim_message digest id (w_db w)) as Hstep.
  destruct (claim_next_message id (w_db w)) as [[o|e] db1] eqn:E; cbn [snd] in *;
    [|apply advances_store; [by apply rtc_once | done]].
  destruct o as [m|]; [|apply advances_store; [by apply rtc_once | done]].
  destruct (claim_takes _ _ _ _ Hr E) as [Hn Hs].
  assert (reach digest (put_db db1 w)) as Hr1 by (exact (rtc_r _ _ _ Hr Hstep)).
  unfold mbind at 1, act_bind at 1, act_get at 1. destruct (ingress_reason _).
  { eapply advances_trans; [apply (advances_store digest w (put_db db1 w)); [by apply rtc_once | done]|].
    revert Hr1. generalize (put_db db1 w). apply safe_bind; [|intros; apply safe_fail].
    apply safe_store, historic_op. constructor. }
  unfold mbind at 1, act_bind at 1, act_call at 1.
  pose proof (deliver_claimed_serves m session d (put_db db1 w) Hr1 Hs) as Hd.
  destruct (deliver_claimed config m session d (put_db db1 w)) as [r w1]. cbn [snd] in Hd.
  assert (advances digest w w1) as Hw by (by eapply (advances_claimed _ _ w (put_db db1 w)); [apply rtc_once|..]).
  eapply advances_trans; [exact Hw|]. apply safe_settle. by eapply reach_advances.
Qed.
#[local] Hint Resolve safe_deliver : safe.

Lemma safe_queued fuel native id mid mode session d :
  safe (deliver_queued to_string config fuel native id mid mode session d).
Proof.
  induction fuel as [|fuel IH]; [apply safe_ret|]. cbn [deliver_queued]. safe_walk.
Qed.
#[local] Hint Resolve safe_queued : safe.

Lemma safe_resume id mid mode content :
  safe (resume_terminal_with_message from_str decode_prepared id mid mode content).
Proof.
  unfold resume_terminal_with_message. safe_walk.
Qed.

Lemma safe_send_now native id mid mode session d :
  safe (send_now to_string config native id mid mode session d).
Proof. unfold send_now. safe_walk. Qed.
#[local] Hint Resolve safe_resume safe_send_now : safe.

Lemma safe_send_live agent id mid mode content d :
  safe (send_live to_string config await_operation agent id mid mode content d).
Proof.
  unfold send_live. safe_walk.
Qed.
#[local] Hint Resolve safe_send_live : safe.

Lemma safe_send_by d draining id mid mode content :
  safe (send_message_by to_string from_str decode_prepared config await_operation d draining id mid mode
          content).
Proof. unfold send_message_by. safe_walk. Qed.

Lemma safe_send draining id mid mode content :
  safe (send_message to_string from_str decode_prepared config await_operation draining id mid mode content).
Proof.
  intros w. apply safe_send_by.
Qed.

(** ** Answers *)

Lemma safe_release_claim {A} id rid e : safe (release_claim id rid e (A:=A)).
Proof. unfold release_claim. safe_walk. Qed.
#[local] Hint Resolve safe_release_claim : safe.

Lemma safe_respond_claimed epoch id p decision content d :
  safe (respond_claimed to_string from_str sqlite_text digest debug_terminal config start_ready epoch id p
          decision content d).
Proof.
  unfold respond_claimed. safe_walk. apply safe_call, moves_log; [done | apply rt_respond_moves].
Qed.
#[local] Hint Resolve safe_respond_claimed : safe.

Lemma safe_respond_pending epoch id p decision content d :
  safe (respond_pending to_string from_str sqlite_text digest debug_terminal config await_operation
          start_ready epoch id p decision content d).
Proof.
  unfold respond_pending. safe_walk.
Qed.
#[local] Hint Resolve safe_respond_pending : safe.

Lemma safe_settled_outcome p decision : safe (λ w, (settled_outcome p decision, w)).
Proof. intros w _. apply advances_refl. Qed.
#[local] Hint Resolve safe_settled_outcome : safe.

Lemma safe_respond_by d id rid decision content :
  safe (respond_request_by to_string from_str sqlite_text digest debug_terminal config await_operation
          start_ready d id rid decision content).
Proof. unfold respond_request_by. safe_walk. Qed.

Lemma safe_respond id rid decision content :
  safe (respond_request to_string from_str sqlite_text digest debug_terminal config await_operation
          start_ready id rid decision content).
Proof.
  intros w. apply safe_respond_by.
Qed.

(** ** At most once *)

Inductive WorldOp :=
| OpSend (draining : bool) (id mid mode content : string)
| OpDeliver (id session : string) (d : ControlDeadline)
| OpRespond (id rid decision : string) (content : option string)
| OpStop (id : string) (close : bool) (d : ControlDeadline).

Definition run_op (w : World R) (op : WorldOp) : World R :=
  match op with
  | OpSend draining id mid mode content =>
      (send_message to_string from_str decode_prepared config await_operation draining id mid mode content w).2
  | OpDeliver id session d => (deliver_next_message to_string config id session d w).2
  | OpRespond id rid decision content =>
      (respond_request to_string from_str sqlite_text digest debug_terminal config await_operation
         start_ready id rid decision content w).2
  | OpStop id close d =>
      (request_stop_or_close to_string from_str decode_prepared sqlite_text digest debug_terminal config
         await_operation start_ready id close d w).2
  end.

Lemma run_op_advances w op : reach digest w → advances digest w (run_op w op).
Proof.
  intros Hr. destruct op; cbn [run_op];
    [by apply safe_send | by apply safe_deliver | by apply safe_respond | by apply safe_stop_or_close].
Qed.

Lemma run_advances ops w : reach digest w → advances digest w (fold_left run_op ops w).
Proof.
  revert w. induction ops as [|op ops IH]; intros w Hr; [apply advances_refl|].
  pose proof (run_op_advances w op Hr) as Ha. eapply advances_trans; [exact Ha|].
  apply IH. by eapply reach_advances.
Qed.

(** C5. A message is handed to the runtime at most once: whatever sends, deliveries,
    answers and stops the daemon runs, and whatever the runtime and other threads do
    during their calls and waits, no message id occurs twice among the messages
    handed over, each of them has left its queue for good, and the database is one
    the store can reach. *)
Theorem messages_handed_over_once ops w :
  reachable digest (w_db w) → w_calls w = [] →
  let w' := fold_left run_op ops w in
  reachable digest (w_db w') ∧ NoDup (sent (w_calls w'))
  ∧ ∀ mid, mid ∈ sent (w_calls w') → settled mid (w_db w').
Proof.
  intros Hr Hc w'. pose proof (run_advances ops w Hr) as Ha. fold w' in Ha.
  split; [by eapply reach_advances|]. destruct Ha as (_ & l & E & N & S).
  rewrite Hc in E. cbn in E. rewrite E. split; [done|]. intros mid Hm. by apply S.
Qed.

(** ** Idempotent sends *)

Lemma act_bind_ok {A B} (m : Act R A) (f : A → Act R B) w b w' :
  (m ≫= f) w = (Ok b, w') → ∃ a w1, m w = (Ok a, w1) ∧ f a w1 = (Ok b, w').
Proof. unfold mbind, act_bind. destruct (m w) as [[a|] w1]; [eauto | done]. Qed.

Lemma on_store_ok {A} (op : Db → StoreResult A * Db) (w : World R) a w' :
  on_store (store_op op) w = (Ok a, w') → op (w_db w) = (Ok a, w_db w').
Proof.
  unfold on_store, store_op. destruct (op (w_db w)) as [[a'|e] db]; [|done]. by intros [= -> <-].
Qed.

Lemma insert_recorded now mid id mode content db b db' :
  insert_message now mid id mode content db = (Ok b, db') → recorded mid id mode content db'.
Proof.
  unfold insert_message. destruct (negb (valid_mode mode)); [done|]. intros Ht%immediate_ok.
  apply tx_bind_ok in Ht as (g & db1 & (-> & _)%query_guard_ok & Ht). destruct (_ || _); [done|].
  apply tx_bind_ok in Ht as (o & db1 & [Eo ->]%tx_get_ok & Ht). symmetry in Eo. destruct o as [m|].
  - destruct (_ || _) eqn:E; [done|]. apply tx_ret_ok in Ht as [_ ->]. exists m. split; [done|].
    apply orb_false_iff in E as [E E3]. apply orb_false_iff in E as [E1 E2].
    split_and!; by apply String.eqb_eq, negb_false_iff.
  - apply tx_bind_ok in Ht as (u & db1 & [_ ->]%insert_message_row_ok & [_ ->]%tx_ret_ok).
    exists (queued_message now mid id mode content). split; [|done]. unfold find_message in *.
    apply find_app_none; [done | apply String.eqb_refl].
Qed.

Lemma requeue_recorded now id mid mode content db db' :
  requeue_task_for_resume_with_message now id mid mode content db = (Ok true, db') →
  recorded mid id mode content db'.
Proof.
  unfold requeue_task_for_resume_with_message. destruct (negb (valid_mode mode)); [done|]. intros Ht%immediate_ok.
  apply tx_bind_ok in Ht as (o & db1 & [_ ->]%tx_get_ok & Ht).
  apply tx_bind_ok in Ht as (r & db1 & [_ ->]%tx_lift_ok & Ht).
  destruct (negb _); [done|]. destruct (negb _); [done|]. destruct (resume_refused r); [by apply tx_ret_ok in Ht as [? _]|].
  apply tx_bind_ok in Ht as (occ & db1 & [_ ->]%tx_get_ok & Ht). destruct occ; [done|].
  apply tx_bind_ok in Ht as (e & db1 & [_ ->]%tx_get_ok & Ht). destruct (is_some e); [done|].
  unfold requeue in Ht. apply tx_bind_ok in Ht as (u & db1 & _ & Ht).
  apply tx_bind_ok in Ht as (n & db2 & _ & Ht). destruct (negb _); [done|].
  apply tx_bind_ok in Ht as (ep & db3 & _ & Ht). apply tx_bind_ok in Ht as (v & db4 & _ & Ht).
  apply tx_bind_ok in Ht as (x & db5 & [Hn ->]%insert_message_row_ok & [_ ->]%tx_ret_ok).
  exists (queued_message now mid id mode content). split; [|done].
  unfold find_message in *. apply find_app_none; [done | apply String.eqb_refl].
Qed.

Lemma send_now_history native id mid mode session d w x w' :
  reach digest w → send_now to_string config native id mid mode session d w = (Ok x, w') →
  rtc (store_step digest) (w_db w) (w_db w').
Proof.
  intros Hr H. pose proof (safe_send_now native id mid mode session d w Hr) as Ha. rewrite H in Ha.
  by apply (advances_history digest (λ _, False)).
Qed.

Lemma send_now_recorded native id mid mode session d w x w' content :
  reach digest w → recorded mid id mode content (w_db w) →
  send_now to_string config native id mid mode session d w = (Ok x, w') →
  recorded mid id mode content (w_db w').
Proof. intros Hr Hm H. eapply history_recorded; [by eapply send_now_history | done]. Qed.

Lemma send_live_recorded agent id mid mode content d w x w' :
  reach digest w → send_live to_string config await_operation agent id mid mode content d w = (Ok x, w') →
  recorded mid id mode content (w_db w').
Proof.
  intros Hr H. apply act_bind_ok in H as (active & w1 & [= <- <-] & H).
  apply act_bind_ok in H as (u & w2 & H2 & H).
  assert (reach digest w2) as Hr2.
  { eapply reach_advances; [exact Hr|]. match type of H2 with ?m w = _ => assert (safe m) as Hs end.
    { safe_walk. }
    specialize (Hs w Hr). rewrite H2 in Hs. exact Hs. }
  apply act_bind_ok in H as (v & w3 & H3 & H).
  assert (w3 = w2) as ->.
  { unfold require_time in H3. destruct (remaining _ _); [|done]. by injection H3. }
  apply act_bind_ok in H as (created & w4 & H4 & H). apply on_store_ok in H4.
  assert (reach digest w4) as Hr4.
  { pose proof (do_insert_message digest (wall (w_runtime w2)) mid id mode content (w_db w2)) as Hs.
    rewrite H4 in Hs. exact (rtc_r _ _ _ Hr2 Hs). }
  apply insert_recorded in H4. destruct created; cbn [negb] in H.
  - destruct (w_owner w); [by eapply send_now_recorded | by injection H as _ <-].
  - apply act_bind_ok in H as (st & w5 & [= _ <-] & H). by injection H as _ <-.
Qed.

Lemma resume_recorded id mid mode content w x w' :
  resume_terminal_with_message from_str decode_prepared id mid mode content w = (Ok x, w') →
  recorded mid id mode content (w_db w').
Proof.
  intros H. apply act_bind_ok in H as (task & w1 & H1 & H). destruct (negb _); [done|].
  apply act_bind_ok in H as ([] & w2 & H2 & H); [|done]. injection H as _ <-.
  apply on_store_ok in H2. by eapply requeue_recorded.
Qed.

Lemma known_message d draining id mid mode content w m :
  (mode ≟ "queue") || (mode ≟ "steer") = true → find_message mid (messages (w_db w)) = Some m →
  send_message_by to_string from_str decode_prepared config await_operation d draining id mid mode content w
  = (if (m_agent m ≟ id) && (m_mode m ≟ mode) && (m_content m ≟ content)
     then Ok (stored_disposition (m_state m)) else Err (SStore (Conflict "MESSAGE_ID_CONFLICT")), w).
Proof.
  intros Hm Hf. unfold send_message_by. rewrite Hm. cbn [negb]. unfold mbind, act_bind, act_get. rewrite Hf.
  by destruct (_ && _).
Qed.

Lemma send_recorded d draining id mid mode content w x w' :
  reach digest w →
  send_message_by to_string from_str decode_prepared config await_operation d draining id mid mode content w
    = (Ok x, w') →
  (mode ≟ "queue") || (mode ≟ "steer") = true ∧ recorded mid id mode content (w_db w').
Proof.
  intros Hr H. destruct ((mode ≟ "queue") || (mode ≟ "steer")) eqn:Em;
    [split; [done|]|by unfold send_message_by in H; rewrite Em in H].
  destruct (find_message mid (messages (w_db w))) as [m|] eqn:Ef.
  { rewrite (known_message _ _ _ _ _ _ _ _ Em Ef) in H. destruct (_ && _) eqn:E; [|done]. injection H as _ <-.
    bool_hyp. exists m. done. }
  unfold send_message_by in H. rewrite Em in H. cbn [negb] in H.
  apply act_bind_ok in H as (o & w1 & [= <- <-] & H). rewrite Ef in H. destruct draining; [done|].
  apply act_bind_ok in H as (task & w1 & H1 & H).
  assert (reach digest w1) as Hr1.
  { pose proof (safe_store digest (required_task id ("unknown task " +:+ id)) (historic_required digest _ _) w Hr) as Hs.
    rewrite H1 in Hs. by eapply reach_advances. }
  destruct (_ && _); [done|]. apply act_bind_ok in H as (cur & w2 & H2 & H).
  assert (reach digest w2) as Hr2.
  { pose proof (safe_store digest (store_query (get_task id)) (historic_query digest _) w1 Hr1) as Hs.
    rewrite H2 in Hs. by eapply reach_advances. }
  destruct (match cur with Some _ => _ | None => _ end);
    [by eapply resume_recorded | by eapply send_live_recorded].
Qed.

(** Sending is idempotent and fenced by a drain.  Once a send of a message id
    has succeeded, and however the world advances afterwards, the same send again
    changes nothing and reports the state of the stored message; another message
    under the same id is a conflict that changes nothing; and a draining daemon
    changes nothing for any message. *)
Theorem repeated_send_changes_nothing d1 d2 drain1 drain2 id mid mode content x w w1 w2 :
  let send d draining := send_message_by to_string from_str decode_prepared config await_operation d draining in
  reachable digest (w_db w) → send d1 drain1 id mid mode content w = (Ok x, w1) → advances digest w1 w2 →
  (∃ m, find_message mid (messages (w_db w2)) = Some m
        ∧ send d2 drain2 id mid mode content w2 = (Ok (stored_disposition (m_state m)), w2))
  ∧ (∀ id' mode' content', (id', mode', content') ≠ (id, mode, content) →
       ∃ e, send d2 drain2 id' mid mode' content' w2 = (Err e, w2))
  ∧ (∀ id' mid' mode' content', (send d2 true id' mid' mode' content' w2).2 = w2).
Proof.
  intros send Hr H Ha. destruct (send_recorded _ _ _ _ _ _ _ _ _ Hr H) as [Em Hrec].
  pose proof (history_recorded _ _ _ _ _ _ _ (advances_history _ _ _ _ Ha) Hrec) as (m & Hf & Ei & Eo & Ec).
  split_and!.
  - exists m. split; [done|]. unfold send. rewrite (known_message _ _ _ _ _ _ _ _ Em Hf).
    by rewrite Ei, Eo, Ec, !String.eqb_refl.
  - intros id' mode' content' Hne. unfold send. destruct ((mode' ≟ "queue") || (mode' ≟ "steer")) eqn:Em';
      [|unfold send_message_by; rewrite Em'; by eexists].
    rewrite (known_message _ _ _ _ _ _ _ _ Em' Hf), Ei, Eo, Ec. destruct (_ && _) eqn:E; [|by eexists].
    bool_hyp. congruence.
  - intros id' mid' mode' content'. unfold send, send_message_by. destruct (negb _); [done|].
    unfold mbind, act_bind, act_get. destruct (find_message mid' _); [by destruct (_ && _) | done].
Qed.
End laws.

#[export] Hint Resolve safe_ret safe_fail safe_get safe_store safe_wall safe_ingress safe_time safe_put
  safe_call safe_completion safe_routed safe_unstarted safe_cleanup safe_release safe_deliver
  historic_op historic_query historic_read historic_required moves_stop steps_latch : safe.
#[export] Hint Constructors store_step : safe.

(** ** Witnesses *)

Module MessageDemo.
(** A runtime that takes every message at once and is never busy. *)
#[global] Instance ready_runtime : ManagedRuntime unit := {|
  clock _ := 0%Z; wall _ := 200%Z;
  rt_identity _ := Some (RuntimeOwner.mk_identity 70 70 501 "token");
  turn_snapshot _ := mk_turn_snapshot 1 false (Some BoundaryCompleted);
  diagnostic_tail _ := ""; diagnostic_session_id _ := None;
  rt_stop _ w := (TStopped (Terminated (Exited (Some 0%Z))), w);
  rt_send_turn _ _ _ w := (Ok (Some "turn"), w);
  rt_inject_turn _ _ _ w := (Ok None, w);
  rt_stop_turn _ _ w := (Ok (mk_turn_snapshot 1 false (Some BoundaryCompleted)), w);
  rt_respond_request _ _ _ _ w := (Ok tt, w);
  rt_close_session _ _ w := (Ok tt, w);
  rt_bootstrap_session _ _ w := (Ok (mk_session "session" None None), w);
  rt_resume_session _ _ w := (Ok (mk_session "session" None None), w);
  rt_wait_terminal _ w := (None, w);
  rt_cleanup_forced _ w := (TStopped (Terminated (Exited (Some 0%Z))), w);
  rt_finish_turn _ _ w := (TCompleted (Terminated (Exited (Some 0%Z))), w) |}.

#[global] Instance ready_laws : RuntimeLaws History.digest unit.
Proof. split; intros; intros w Hr; apply advances_refl. Qed.

Definition from_str (_ : string) : result string Value := Err "not JSON".
Definition decode_prepared (_ : Value) : option PreparedGeneralTask := None.
Definition debug (_ : RuntimeTerminal) : string := "terminal".
Definition config : SchedulerConfig := mk_config 1 1000 2000 2000 None.
Definition lock_free (_ : ControlDeadline) (w : World unit) : bool * World unit := (true, w).
Definition world (db : Db) : World unit :=
  mk_world db (Some 1%Z) "session" (lifecycle_new 1) SinkDemo.sink false tt [] None.
Definition ops : list WorldOp :=
  [OpSend false "10000000" "m1" "queue" "hello"; OpSend false "10000000" "m1" "queue" "hello";
   OpDeliver "10000000" "session" (mk_deadline 2000); OpStop "10000000" false (mk_deadline 2000)].
End MessageDemo.
Import MessageDemo.

Lemma messages_handed_over_once_witness :
  let w' := fold_left (run_op SinkDemo.to_string MessageDemo.from_str MessageDemo.decode_prepared
              SinkDemo.sqlite_text History.digest debug config lock_free id)
              MessageDemo.ops (world History.running) in
  sent (w_calls w') = ["m1"] ∧ NoDup (sent (w_calls w')).
Proof.
  intros w'. split; [by vm_compute|].
  apply (messages_handed_over_once SinkDemo.to_string MessageDemo.from_str MessageDemo.decode_prepared
    SinkDemo.sqlite_text History.digest debug config lock_free id) with (w := world History.running).
  - intros d w Hr. apply advances_refl.
  - intros w Hr. apply advances_refl.
  - apply History.running_reachable.
  - reflexivity.
Defined.

Lemma repeated_send_changes_nothing_witness :
  let send := send_message_by SinkDemo.to_string MessageDemo.from_str MessageDemo.decode_prepared config lock_free
                (mk_deadline 2000) in
  let r := send false "10000000" "m1" "queue" "hello" (world History.running) in
  r.1 = Ok MsgDelivered
  ∧ ∃ m, find_message "m1" (messages (w_db r.2)) = Some m
         ∧ send true "10000000" "m1" "queue" "hello" r.2 = (Ok (stored_disposition (m_state m)), r.2).
Proof.
  intros send r. assert (r.1 = Ok MsgDelivered) as E by (by vm_compute). split; [exact E|].
  assert (r = (Ok MsgDelivered, r.2)) as Er by (rewrite <- E; apply surjective_pairing).
  destruct (repeated_send_changes_nothing SinkDemo.to_string MessageDemo.from_str MessageDemo.decode_prepared
    History.digest config lock_free (λ d w Hr, advances_refl History.digest w)
    (mk_deadline 2000) (mk_deadline 2000) false true "10000000" "m1" "queue" "hello" MsgDelivered
    (world History.running) r.2 r.2 History.running_reachable Er (advances_refl History.digest r.2))
    as [H _].
  exact H.
Defined.
