(* ===== verification/StartWait.v ===== *)
(** * Waiting for a submitted task to start

    [submit_and_start_general] of [crates/external-daemon/src/scheduler/admission.rs]
    after the task is queued and its starter thread runs: the poll of the row, and
    what happens when the wait expires.

    What the thread sees each time it looks is a list of observations: whether the
    caller gave up, the database, and whether the deadline had passed.  The budgets
    ([state.rs]) only decide that. *)

From stdpp Require Import relations.
From S2P Require Import Prelude RustStr Json General StoreRecords StoreSql StoreOps StoreView StoreRefine StoreProps RuntimeLifecycle Sink SinkProps Diagnostics Recovery RecoveryProps Control MessageProps.

Definition spawn_wait_budget (c : SchedulerConfig) : Z :=
  (bootstrap_timeout c + control_timeout c + 10 * 1000000000)%Z.
Definition convergence_budget (c : SchedulerConfig) : Z :=
  (control_timeout c + stop_grace c + 2 * 1000000000)%Z.

Record Poll := mk_poll { p_interrupted : bool; p_db : Db; p_late : bool }.

(** [Expired]: break out of the poll; [Unsettled]: the observations end before it. *)
Inductive StartWait := Settled (r : result SchedulerError TaskRecord) | Expired | Unsettled.

Definition established (t : TaskRecord) : bool := negb (phase_in [Queued; Preparing] (rec_phase t)).

Definition driven_by_resume (id : string) : SchedulerError :=
  StartTimeout id ("session established for " +:+ id +:+ ", being driven by resume, uncancelled").

Definition start_failed (id : string) (t : TaskRecord) : SchedulerError :=
  StartFailed id (default "START_FAILED" (rec_failure_code t))
    (default "task terminated before establishment" (rec_failure_message t)).

Definition start_cancelled (id : string) : SchedulerError :=
  StartTimeout id "spawn timed out waiting for session establishment (cancelled)".
Definition start_cancelled_pending (id : string) : SchedulerError :=
  StartTimeout id "spawn timed out waiting for session establishment (cancelled, process termination pending)".

Fixpoint wait_started (id : string) (polls : list Poll) : StartWait :=
  match polls with
  | [] => Unsettled
  | p :: polls =>
      if p_interrupted p then Settled (Err (Interrupted id))
      else
        match get_task id (p_db p) with
        | Err e => Settled (Err (SStore e))
        | Ok None => Settled (Err (SStore (InvalidState ("task " +:+ id +:+ " disappeared from store"))))
        | Ok (Some t) =>
            if is_some (rec_session_id t) then
              if established t then Settled (Ok t)
              else if p_late p then Settled (Err (driven_by_resume id))
              else wait_started id polls
            else if bool_decide (rec_phase t = Terminal) then Settled (Err (start_failed id t))
            else if p_late p then Expired
            else wait_started id polls
        end
  end.

(** The process a timed-out start is killed by. *)
Inductive Kill := KillGroup (pgid : Z) | KillProcess (pid : Z).

Definition kill_target (epoch : Z) (handle : option StartingHandle) : option Kill :=
  match handle with
  | Some h =>
      if Z.eqb (h_epoch h) epoch then
        match h_identity h with
        | Some i => if Z.ltb 0 (id_group i) then Some (KillGroup (id_group i))
                    else if Z.ltb 0 (id_pid i) then Some (KillProcess (id_pid i)) else None
        | None => None
        end
      else None
  | None => None
  end.

Definition over (id : string) (db : Db) : bool :=
  match get_task id db with Ok (Some t) => bool_decide (rec_phase t = Terminal) | _ => false end.

(** The polls within the convergence budget: whether the task was seen over. *)
Fixpoint converged (id : string) (polls : list Poll) : bool :=
  match polls with
  | [] => false
  | p :: polls => if over id (p_db p) then true else if p_interrupted p then false else converged id polls
  end.

(** The polls up to the deadline of a task another thread resumed. *)
Fixpoint resumed_start (id : string) (polls : list Poll) : result SchedulerError TaskRecord :=
  match polls with
  | [] => Err (driven_by_resume id)
  | p :: polls =>
      if p_interrupted p then Err (Interrupted id)
      else
        match get_task id (p_db p) with
        | Ok (Some t) => if established t then Ok t else resumed_start id polls
        | _ => resumed_start id polls
        end
  end.

Section expire.
Context (to_string : Value → string) (from_str : string → result string Value)
  (decode_prepared : Value → option PreparedGeneralTask)
  (sqlite_text : SqliteError → string) (task_result_digest : TaskResult → string).

(** After the deadline: the conditional cancellation, and what it is answered by.
    The kill, if any, precedes the polls. *)
Definition expire_start (now : Z) (id : string) (enqueued : TaskRecord) (handle : option StartingHandle)
    (polls : list Poll) (db : Db) : result SchedulerError TaskRecord * option Kill * Db :=
  match cancel_unstarted_if_still_fresh now id db with
  | (Err e, db) => (Err (SStore e), None, db)
  | (Ok (inl (prior, epoch)), db) =>
      if bool_decide (prior = Queued) then
        match task_route from_str decode_prepared enqueued with
        | Err message => (Err (InvalidConfig message), None, db)
        | Ok _ =>
            let '(_, db) := finish_unstarted_route to_string from_str sqlite_text task_result_digest now id
                              (mk_unstarted CCancelled "CANCELLED" "spawn timed out before claim" None) true db in
            (Err (start_cancelled id), None, db)
        end
      else
        (Err (if converged id polls then start_cancelled id else start_cancelled_pending id),
         kill_target epoch handle, db)
  | (Ok (inr current), db) =>
      (if is_some (rec_session_id current) then
         if established current then Ok current else resumed_start id polls
       else if bool_decide (rec_phase current = Terminal) then Err (start_failed id current)
       else Err (start_cancelled id), None, db)
  end.

(** [submit_and_start_general] once the starter runs: the first polls, then, if they
    expire, the cancellation on the database [db] and the second polls. *)
Definition submit_and_start (now : Z) (id : string) (enqueued : TaskRecord) (polls after : list Poll)
    (handle : option StartingHandle) (db : Db) : option (result SchedulerError TaskRecord * option Kill * Db) :=
  match wait_started id polls with
  | Settled r => Some (r, None, db)
  | Expired => Some (expire_start now id enqueued handle after db)
  | Unsettled => None
  end.
End expire.

(** ** What the wait reports *)

Definition stopped_row (r : TaskRow) : TaskRow := set_stop_requested true (set_phase Cancelling r).

(** A fresh row: nobody stopped it and no session was established. *)
Definition fresh_row (r : TaskRow) : Prop :=
  session_id r = None ∧ stop_requested r = false ∧ (phase r = Queued ∨ phase r = Preparing).

Lemma cancel_fresh now id db prior epoch db' :
  db_inv db → cancel_unstarted_if_still_fresh now id db = (Ok (inl (prior, epoch)), db') →
  ∃ r, find_task id (tasks db) = Some r ∧ fresh_row r ∧ phase r = prior ∧ owner_epoch r = epoch
       ∧ find_task id (tasks db') = Some (stopped_row r).
Proof.
  intros Hi (o & db1 & [Hq ->]%query_task_ok & Ht)%immediate_ok%tx_bind_ok.
  apply tx_bind_ok in Ht as (t & db1 & [->%ok_or_ok ->]%tx_lift_ok & Ht).
  destruct (query_task_db_some _ _ _ Hq) as (r & Hr & Hph & Hep & _). cbv zeta in Ht.
  destruct (negb (_ && _)); [by apply tx_ret_ok in Ht as [? _]|].
  apply tx_bind_ok in Ht as (n & db1 & (-> & -> & _)%update_tasks_ok & Ht). set (P := λ r, _) in Ht.
  destruct (Nat.eqb_spec (count_rows P (tasks db)) 1) as [Hc|Hc]; cbn [negb] in Ht.
  2:{ apply tx_bind_ok in Ht as (o & db2 & [_ ->]%query_task_ok & Ht).
      by apply tx_bind_ok in Ht as (o' & db2 & [_ ->]%tx_lift_ok & [? _]%tx_ret_ok). }
  apply tx_bind_ok in Ht as (u & db1 & ->%settle_ok & Ht).
  apply tx_bind_ok in Ht as (u' & db1 & ->%insert_ledger_ok & [[= -> ->] ->]%tx_ret_ok).
  destruct (changed_view P id db 0 Hi) as (r' & Hr' & HPr); [unfold P; intros x Hx; by bool_hyp | done |].
  assert (r' = r) as -> by (cbn in Hr'; congruence). pose proof HPr as HP. unfold P in HPr. bool_hyp.
  exists r. split_and!; [done | | done | done |].
  - split_and!; [by destruct (session_id r) | done |].
    assert (phase_in [Queued; Preparing] (phase r) = true) as Hp by done. destruct (phase r); auto; by vm_compute in Hp.
  - simpl. rewrite find_update_rows, Hr by done. simpl. by rewrite HP.
Qed.

Lemma cancel_stale now id db t db' :
  db_inv db → cancel_unstarted_if_still_fresh now id db = (Ok (inr t), db') →
  db' = db ∧ get_task id db = Ok (Some t).
Proof.
  intros Hi (o & db1 & [Hq ->]%query_task_ok & Ht)%immediate_ok%tx_bind_ok.
  apply tx_bind_ok in Ht as (t0 & db1 & [->%ok_or_ok ->]%tx_lift_ok & Ht). cbv zeta in Ht.
  destruct (negb (_ && _)); [apply tx_ret_ok in Ht as [[= ->] ->]; by split|].
  apply tx_bind_ok in Ht as (n & db1 & (-> & -> & _)%update_tasks_ok & Ht). set (P := λ r, _) in Ht.
  destruct (Nat.eqb_spec (count_rows P (tasks db)) 1) as [Hc|Hc]; cbn [negb] in Ht.
  { apply tx_bind_ok in Ht as (u & db1 & _ & Ht). by apply tx_bind_ok in Ht as (u' & db2 & _ & [? _]%tx_ret_ok). }
  rewrite (unchanged_tasks P _ id) in Ht by (apply Hi || done || (unfold P; intros x Hx; by bool_hyp)).
  apply tx_bind_ok in Ht as (o & db2 & [Hq2 ->]%query_task_ok & Ht).
  apply tx_bind_ok in Ht as (o' & db2 & [->%ok_or_ok ->]%tx_lift_ok & [[= ->] ->]%tx_ret_ok). by split.
Qed.

Lemma wait_started_ok id polls t :
  wait_started id polls = Settled (Ok t) → is_some (rec_session_id t) = true ∧ established t = true.
Proof.
  induction polls as [|p polls IH]; [done|]. cbn. destruct (p_interrupted p); [done|].
  destruct (get_task id (p_db p)) as [[t'|]|e]; [|done|done].
  destruct (is_some (rec_session_id t')) eqn:Es.
  - destruct (established t') eqn:Ee; [by intros [= <-]|]. by destruct (p_late p).
  - case_bool_decide; [done|]. by destruct (p_late p).
Qed.

Lemma resumed_start_ok id polls t : resumed_start id polls = Ok t → established t = true.
Proof.
  induction polls as [|p polls IH]; [done|]. cbn. destruct (p_interrupted p); [done|].
  destruct (get_task id (p_db p)) as [[t'|]|e]; [|done|done].
  destruct (established t') eqn:Ee; [by intros [= <-] | done].
Qed.

Section truthful.
Context (to_string : Value → string) (from_str : string → result string Value)
  (decode_prepared : Value → option PreparedGeneralTask)
  (sqlite_text : SqliteError → string) (digest : TaskResult → string).

(** The wait of a submission tells the truth.  A task it returns has a session and
    is past its preparation, and nothing was changed; it kills a process only when it
    has just recorded the cancellation of a fresh claim of the epoch whose handle names
    that process; and whenever it changes the database, the task carries a stop for
    good, can end only as cancelled, and the caller is told so, or that the task cannot
    be routed. *)
Theorem start_wait_truthful now id enqueued polls after handle db r kill db' :
  reachable digest db →
  submit_and_start to_string from_str decode_prepared sqlite_text digest now id enqueued polls after handle db
    = Some (r, kill, db') →
  (∀ t, r = Ok t → established t = true ∧ db' = db
     ∧ (is_some (rec_session_id t) = true
        ∨ ∃ t0, get_task id db = Ok (Some t0) ∧ is_some (rec_session_id t0) = true))
  ∧ (∀ k, kill = Some k → ∃ row h, find_task id (tasks db) = Some row ∧ fresh_row row ∧ phase row = Preparing
       ∧ handle = Some h ∧ h_epoch h = owner_epoch row ∧ find_task id (tasks db') = Some (stopped_row row))
  ∧ (db' = db ∨ ∃ row', find_task id (tasks db') = Some row' ∧ cancel_bound row'
       ∧ (r = Err (start_cancelled id) ∨ r = Err (start_cancelled_pending id) ∨ ∃ m, r = Err (InvalidConfig m))).
Proof.
  intros Hr. pose proof (reachable_inv _ _ Hr) as Hi. unfold submit_and_start.
  destruct (wait_started id polls) as [r0| |] eqn:Ew; [| |done].
  { intros [= <- <- <-]. split_and!; [|done|by left]. intros t ->. apply wait_started_ok in Ew as [? ?]. auto. }
  unfold expire_start. intros [= H].
  destruct (cancel_unstarted_if_still_fresh now id db) as [[[[prior epoch]|t]|e] db1] eqn:E.
  - destruct (cancel_fresh _ _ _ _ _ _ Hi E) as (row & Hrow & Hfresh & <- & <- & Hrow1).
    assert (cancel_bound (stopped_row row)) as Hcb by done.
    assert (reachable digest db1) as Hr1.
    { eapply rtc_r; [exact Hr|]. replace db1 with (cancel_unstarted_if_still_fresh now id db).2 by (by rewrite E).
      apply do_cancel_unstarted. }
    case_bool_decide as Hq.
    + destruct (task_route from_str decode_prepared enqueued) as [p|m].
      * assert (framed digest id (finish_unstarted_route to_string from_str sqlite_text digest now id
          (mk_unstarted CCancelled "CANCELLED" "spawn timed out before claim" None) true)) as Hfr by apply framed_unstarted.
        destruct (Hfr db1) as [Hh _].
        destruct (finish_unstarted_route _ _ _ _ _ _ _ _ db1) as [x db2]. cbn [snd] in Hh. injection H as <- <- <-.
        split_and!; [done.. |]. right.
        destruct (steps_preserve digest (λ x y, cancel_bound x → cancel_bound y) db1 db2 id (stopped_row row))
          as (row' & Hrow' & Hc); eauto using reachable_inv, view_step_cancel. exists row'. auto.
      * injection H as <- <- <-. split_and!; [done.. |]. right. exists (stopped_row row). eauto 6.
    + injection H as <- <- <-. split_and!; [done | | right; exists (stopped_row row); destruct (converged _ _); auto].
      intros k Hk. unfold kill_target in Hk. destruct handle as [h|]; [|done].
      destruct (Z.eqb_spec (h_epoch h) (owner_epoch row)) as [He|]; [|done].
      exists row, h. split_and!; try done. by destruct Hfresh as (_ & _ & [?|?]).
  - destruct (cancel_stale _ _ _ _ _ Hi E) as [-> Ht]. injection H as <- <- <-. split_and!; [|done|by left].
    intros t' Hok. destruct (is_some (rec_session_id t)) eqn:Es; [|by destruct (bool_decide _)].
    split_and!; [|done|eauto].
    destruct (established t) eqn:Ee; [by injection Hok as <- | by apply resumed_start_ok in Hok].
  - injection H as <- <- <-. split_and!; [done | done |]. left. by apply immediate_err in E.
Qed.
End truthful.

(** ** Witness *)

Lemma start_wait_truthful_witness :
  let handle := mk_handle 1 (Some (StoreRecords.mk_identity 70 70 501 "token")) in
  let out := submit_and_start SinkDemo.to_string RecoveryDemo.from_str RecoveryDemo.decode_prepared
               SinkDemo.sqlite_text History.digest 300 "10000000" SinkDemo.fallback
               [mk_poll false History.queued false; mk_poll false History.claimed true] []
               (Some handle) History.claimed in
  ∃ r db', out = Some (r, Some (KillGroup 70), db')
    ∧ ∃ row, find_task "10000000" (tasks History.claimed) = Some row ∧ fresh_row row
             ∧ h_epoch handle = owner_epoch row.
Proof.
  intros handle out.
  assert (∃ r db', out = Some (r, Some (KillGroup 70), db')) as (r & db' & E) by (by vm_compute; eexists _, _).
  exists r, db'. split; [exact E|].
  destruct (start_wait_truthful SinkDemo.to_string RecoveryDemo.from_str RecoveryDemo.decode_prepared
    SinkDemo.sqlite_text History.digest 300 "10000000" SinkDemo.fallback
    [mk_poll false History.queued false; mk_poll false History.claimed true] [] (Some handle) History.claimed
    r (Some (KillGroup 70)) db' History.claimed_reachable E) as (_ & H & _).
  destruct (H (KillGroup 70) eq_refl) as (row & h & H1 & H2 & _ & H3 & H4 & _).
  exists row. injection H3 as <-. split; [exact H1|]. split; [exact H2 | exact H4].
Defined.
