(* ===== verification/StartingProps.v ===== *)
(** * Properties of starting

    A claim that is not started leaves no runtime behind and no task in between: the
    task is over or back in its queue, and a runtime that was spawned was stopped.  A
    started one is registered and running under the epoch of its claim. *)

From stdpp Require Import relations pretty.
From S2P Require Import Prelude RustStr RustPath Utf8 Json FileSystem PolicyPaths Launcher General Observation RuntimeEvents ActivityTracker StoreRecords StoreSql StoreOps StoreView StoreRefine StoreProps StoreKeeps RuntimeOwner RuntimeLifecycle Sink SinkProps Diagnostics Recovery RecoveryProps Control Messages MessageProps Starting.

(** ** Rows that need nobody *)

(** Over, or in the queue. *)
Definition idle (id : string) (db : Db) : Prop :=
  ∃ r, find_task id (tasks db) = Some r ∧ (phase r = Terminal ∨ phase r = Queued).

(** A row with a column the store cannot convert. *)
Definition odd (id : string) (db : Db) : Prop :=
  (∃ e, get_task id db = Err e) ∨ ∃ r, find_task id (tasks db) = Some r ∧ (i64_max < owner_epoch r)%Z.

Lemma ends_idle id db : ends id db → idle id db.
Proof. intros (r & Hr & Hp). exists r. auto. Qed.

Lemma idle_or_active id db r :
  find_task id (tasks db) = Some r → idle id db ∨ active_phase (phase r) = true.
Proof. intros Hr. unfold idle. destruct (phase r) eqn:E; auto; left; exists r; rewrite E; auto. Qed.

Lemma readable id db r :
  find_task id (tasks db) = Some r → ¬ odd id db →
  (∃ t, get_task id db = Ok (Some t)) ∧ (owner_epoch r ≤ i64_max)%Z.
Proof.
  intros Hr Ho. split.
  - unfold odd, get_task, query_task_db in *. rewrite Hr in *.
    destruct (convert_task_row r) as [t|e] eqn:E; [by exists t|]. destruct Ho. left. by exists e.
  - destruct (decide (i64_max < owner_epoch r)%Z); [|lia]. destruct Ho. right. eauto.
Qed.

#[global] Instance odd_dec id db : Decision (odd id db).
Proof.
  unfold odd. destruct (get_task id db) as [t|e]; [|left; left; by exists e].
  destruct (find_task id (tasks db)) as [r|].
  - destruct (decide (i64_max < owner_epoch r)%Z); [left; right; by exists r|].
    right. intros [[e ?]|(r' & [= <-] & ?)]; done.
  - right. intros [[e ?]|(r' & ? & ?)]; done.
Defined.

Section settle.
Context (to_string : Value → string) (from_str : string → result string Value)
  (sqlite_text : SqliteError → string) (digest : TaskResult → string).

Lemma result_err now id result reason fm db e db' :
  store_task_result_with_reason digest now id result reason fm db = (Err e, db') → db' = db.
Proof.
  unfold store_task_result_with_reason. destruct (validate_result result); [apply immediate_err | by intros [= _ ->]].
Qed.

Lemma precedence_err now id result reason fm db e db' :
  store_result_with_cancel_precedence digest now id result reason fm db = (Err e, db') → db' = db.
Proof.
  unfold store_result_with_cancel_precedence.
  destruct (store_task_result_with_reason _ _ _ _ _ _ db) as [[u|e1] db1] eqn:E; [done|].
  apply result_err in E as ->. destruct e1; try (by intros [= _ ->]).
  destruct (get_task id db) as [[t|]|e2]; try (by intros [= _ ->]).
  destruct (_ && _); [apply result_err | by intros [= _ ->]].
Qed.

Lemma precedence_idle now id result reason fm db :
  db_inv db → idle id db → idle id (store_result_with_cancel_precedence digest now id result reason fm db).2.
Proof.
  intros Hi Hd. destruct (store_result_with_cancel_precedence _ _ _ _ _ _ db) as [[[]|e] db'] eqn:E.
  - by eapply ends_idle, precedence_ends.
  - by apply precedence_err in E as ->.
Qed.

Lemma reap_idle now id db : idle id db → idle id (reap_task now id db).2.
Proof.
  intros Hd. unfold reap_task, after_commit. cbn [snd].
  destruct (immediate _ db) as [[o|e] db'] eqn:E; cbn [snd]; [|by apply immediate_err in E as ->].
  apply immediate_ok in E.
  apply tx_bind_ok in E as (g & db1 & (-> & r & Hr & -> & _)%query_guard_ok & Ht). simpl in Ht.
  case_bool_decide as Hp; simpl in Ht; [|done].
  apply tx_bind_ok in Ht as (k & db1 & (-> & -> & _)%update_tasks_ok & [_ ->]%tx_ret_ok).
  exists (reaped_row now r). split; [|by left]. simpl. rewrite find_update_rows, Hr by done. simpl.
  by rewrite (proj1 (find_task_id _ _ _ Hr)), String.eqb_refl.
Qed.

(** A failed task can always be stored. *)
Lemma fallback_idle now id fm db :
  db_inv db → (∃ r, find_task id (tasks db) = Some r) → ¬ odd id db →
  idle id (store_result_with_cancel_precedence digest now id bounded_result_invalid_task_result None fm db).2.
Proof.
  intros Hi [r Hr] Ho. destruct (readable _ _ _ Hr Ho) as [[t Ht] He].
  destruct (idle_or_active _ _ _ Hr) as [Hd|Ha]; [by apply precedence_idle|].
  destruct (precedence_stores digest now id bounded_result_invalid_task_result None fm db r t)
    as (db' & stored & code & message & -> & [Hrow _] & _); try done.
  exists (ended now (res_outcome stored) code message r). by split; [|left].
Qed.

(** The completion of a task leaves it over, or in its queue. *)
Lemma completion_idle now id c reap db :
  db_inv db → (∃ r, find_task id (tasks db) = Some r) → ¬ odd id db →
  idle id (persist_general_completion to_string from_str sqlite_text digest now id c reap db).2.
Proof.
  intros Hi Hr Ho. unfold persist_general_completion, persist_general_result.
  destruct (store_result_with_cancel_precedence digest now id _ _ _ db) as [persisted db1] eqn:E.
  set (rest := λ _ : unit, _ ≫= _).
  assert (∀ u db, idle id db → idle id (rest u db).2) as Hrest.
  { intros u db2 H2. unfold rest, mbind, sched_bind. destruct reap.
    - pose proof (reap_idle now id db2 H2) as H3. unfold store_op.
      destruct (reap_task now id db2) as [[o|e] db3]; cbn in *; [|done].
      unfold required_task, mbind, sched_bind, store_query.
      by destruct (get_task id db3) as [[t|]|].
    - cbn. unfold required_task, mbind, sched_bind, store_query.
      by destruct (get_task id db2) as [[t|]|]. }
  unfold mbind at 1, sched_bind at 1. destruct persisted as [[]|e].
  - apply Hrest. by eapply ends_idle, precedence_ends.
  - apply precedence_err in E as ->. unfold mbind at 1, sched_bind at 1, store_read.
    destruct (task_result id db) as [x|] eqn:Ex.
    + apply Hrest. by eapply ends_idle, stored_result_ends.
    + unfold store_op.
      pose proof (fallback_idle now id (Some (persistable_failure_record to_string from_str id None "result_persist"
                                    "RESULT_PERSIST_FAILED" (store_error_text sqlite_text e) "")) db Hi Hr Ho) as Hf.
      destruct (store_result_with_cancel_precedence _ _ _ _ _ _ db) as [[u|e'] db2]; cbn [snd] in *; auto.
Qed.
End settle.

(** Recording a stop succeeds for a row that can be read. *)
Lemma stop_total now id close intent db r :
  db_inv db → find_task id (tasks db) = Some r → (owner_epoch r ≤ i64_max)%Z →
  ∃ d, (request_stop_internal now id close intent db).1 = Ok d.
Proof.
  intros Hi Hr He. destruct (find_task_id _ _ _ Hr) as [Hid Hin].
  pose proof (reachable_row _ _ Hi Hin) as Hrow.
  unfold request_stop_internal, immediate, mbind, tx_bind, query_guard. rewrite Hr.
  unfold i64_to_u64. rewrite (proj2 (Z.leb_le 0 (owner_epoch r))) by apply (ri_epoch _ _ _ Hrow). cbn [g_phase].
  set (next := if bool_decide (phase r = Terminal) then phase r else Cancelling).
  unfold update_tasks. set (rows := update_rows _ _ _).
  assert (forallb row_check rows = true) as ->.
  { apply forallb_true_iff. intros y (x & Hx & ->)%update_rows_in.
    destruct (row_id x ≟ id) eqn:E; [|apply (ri_check _ _ _ (reachable_row _ _ Hi Hx))].
    apply String.eqb_eq in E.
    assert (x = r) as ->.
    { pose proof (find_task_in id _ x (gl_ids _ (di_glob _ Hi)) Hx E). congruence. }
    pose proof (ri_check _ _ _ Hrow) as Hc. unfold row_check, next in *. cbn.
    case_bool_decide as Ht; [by rewrite Ht in *|]. destruct (phase r); cbn in *; try done; by destruct (task_outcome r). }
  unfold settle_terminal_commands, insert_ledger, tx_put, tx_lift, u64_to_i64, mbind, tx_bind. cbn [g_epoch].
  rewrite (proj2 (Z.leb_le _ _) He).
  destruct (negb (bool_decide (phase r = Terminal))); [|by eexists].
  destruct (negb (bool_decide (phase r = next))); by eexists.
Qed.

(** A row that was marked as running. *)
Lemma mark_row now id epoch rt identity session turn db db' :
  db_inv db → mark_session_running now id epoch rt identity session turn db = (Ok true, db') →
  ∃ r, find_task id (tasks db) = Some r ∧ phase r = Preparing ∧ owner_epoch r = epoch
       ∧ find_task id (tasks db') = Some (running_row now rt identity session turn r).
Proof.
  intros Hi (e & db1 & [[-> _]%u64_to_i64_ok ->]%tx_lift_ok & Ht)%immediate_ok%tx_bind_ok.
  apply tx_bind_ok in Ht as (n & db1 & (-> & -> & _)%update_tasks_ok & Ht).
  set (P := λ r, (row_id r ≟ id) && Z.eqb (owner_epoch r) epoch && bool_decide (phase r = Preparing)) in *.
  destruct (Nat.eqb_spec (count_rows P (tasks db)) 1) as [Hc|_]; [|by apply tx_ret_ok in Ht as [? _]].
  apply tx_bind_ok in Ht as (u & db1 & ->%insert_ledger_ok & [_ ->]%tx_ret_ok).
  destruct (changed_view P id db 0 Hi) as (r & Hr & HP); [|done|].
  { unfold P. intros x Hx. by bool_hyp. }
  exists r. pose proof HP as HP'. unfold P in HP'. bool_hyp. split_and!; [exact Hr | done | done |]. simpl.
  rewrite find_update_rows by done. change (find_task id (tasks db) = Some r) in Hr. rewrite Hr. simpl. by rewrite HP.
Qed.

(** ** Worlds *)

Section start.
Context (to_string : Value → string) (from_str : string → result string Value)
  (decode_prepared : Value → option PreparedGeneralTask)
  (sqlite_text : SqliteError → string) (digest : TaskResult → string)
  (debug_terminal : RuntimeTerminal → string).
Context (config : SchedulerConfig).
Context {R : Type} `{!ManagedRuntime R} `{!RuntimeLaws digest R} `{!RuntimeFactory R}.
Context (fs : FileSystem) (create_dir_all : Path → PreparationResult FileSystem).
Context (preparation_text : PreparationError → string).
Context (file_verified : option string → bool).
Context (wait_operation : World R → World R).
Hypothesis spawn_moves : ∀ task, moves digest (rt_spawn task).
Hypothesis wait_steps : steps digest wait_operation.
Implicit Types w : World R.

Definition has_row (id : string) w : Prop := ∃ r, find_task id (tasks (w_db w)) = Some r.

(** At some point between two worlds the row could not be read. *)
Definition odd_between (id : string) w w' : Prop :=
  ∃ db, rtc (store_step digest) (w_db w) db ∧ rtc (store_step digest) db (w_db w') ∧ odd id db.

Lemma has_row_advances id w w' : reach digest w → has_row id w → advances digest w w' → has_row id w'.
Proof.
  intros Hr [r Hrow] [Hh _].
  destruct (steps_preserve digest (λ _ _, True) (w_db w) (w_db w') id r) as (r' & Hr' & _); try done.
  - intros v v' x Hv Hx. destruct (view_step_cancel id v v' x Hv Hx) as (y & Hy & _). by exists y.
  - by eapply reachable_inv.
  - by exists r'.
Qed.

Lemma odd_here id w w' : advances digest w w' → odd id (w_db w) → odd_between id w w'.
Proof. intros [H _] Ho. exists (w_db w). by split_and!. Qed.

Lemma odd_later id w1 w2 w3 : advances digest w1 w2 → odd_between id w2 w3 → odd_between id w1 w3.
Proof. intros [H _] (db & H1 & H2 & Ho). exists db. split_and!; [by etrans | done | done]. Qed.

Lemma odd_earlier id w1 w2 w3 : odd_between id w1 w2 → advances digest w2 w3 → odd_between id w1 w3.
Proof. intros (db & H1 & H2 & Ho) [H _]. exists db. split_and!; [done | by etrans | done]. Qed.

Lemma call_stays c w w' : advances digest w w' → c ∈ w_calls w → c ∈ w_calls w'.
Proof. intros (_ & l & -> & _) H. apply elem_of_app. by left. Qed.

(** ** Every part of a start is a history *)

Lemma safe_attempt {A} (m : Act R A) : safe digest m → safe digest (attempt m).
Proof. intros H w Hr. unfold attempt. specialize (H w Hr). by destruct (m w). Qed.

Lemma safe_quiet f : (∀ w, w_db (f w) = w_db w) → (∀ w, w_calls (f w) = w_calls w) → safe digest (act_put f).
Proof. intros. by apply safe_put, steps_quiet. Qed.

Lemma safe_drop epoch : safe (R := R) digest (act_put (drop_starting epoch)).
Proof. apply safe_quiet; intros w; unfold drop_starting; destruct (w_starting w) as [h|]; try done; by destruct (Z.eqb _ _). Qed.

#[local] Hint Resolve safe_attempt safe_drop : safe.

Notation unstarted := (finish_unstarted to_string from_str sqlite_text digest).
Notation abort := (abort_start to_string from_str sqlite_text digest config).
Notation cleanup := (cleanup_started to_string from_str sqlite_text digest debug_terminal config).
Notation registered := (start_registered to_string from_str sqlite_text digest debug_terminal config wait_operation).
Notation spawned := (start_spawned to_string from_str decode_prepared sqlite_text digest debug_terminal config
                       file_verified wait_operation).
Notation start := (start_claim to_string from_str decode_prepared sqlite_text digest debug_terminal config
                     fs create_dir_all preparation_text file_verified wait_operation).

Lemma safe_finish id t reaped : safe (R := R) digest (unstarted id t reaped).
Proof. apply safe_unstarted. Qed.
Lemma safe_cleanup_started id epoch failure : safe (R := R) digest (cleanup id epoch failure).
Proof. by apply safe_cleanup. Qed.
#[local] Hint Resolve safe_finish safe_cleanup_started : safe.

Lemma safe_abort id epoch session stage o code message : safe (R := R) digest (abort id epoch session stage o code message).
Proof. unfold abort_start. safe_walk. Qed.
#[local] Hint Resolve safe_abort : safe.

Lemma safe_deliver_resumed id epoch session :
  safe digest (deliver_resumed to_string from_str sqlite_text digest debug_terminal config wait_operation
                 id epoch session).
Proof. unfold deliver_resumed. safe_walk. Qed.
#[local] Hint Resolve safe_deliver_resumed : safe.

Lemma safe_registered id epoch identity session turn resumed :
  safe digest (registered id epoch identity session turn resumed).
Proof. unfold start_registered, start_store_failed. safe_walk. Qed.
#[local] Hint Resolve safe_registered : safe.

Lemma moves_open task resumed t :
  moves digest (λ w : World R, if (resumed : bool) then rt_resume_session task t (log_call CallResume w)
                   else rt_bootstrap_session task t (log_call CallBootstrap w)).
Proof.
  intros w Hr. destruct resumed.
  - by apply (moves_log digest _ CallResume eq_refl (rt_resume_moves task t)).
  - by apply (moves_log digest _ CallBootstrap eq_refl (rt_bootstrap_moves task t)).
Qed.
#[local] Hint Resolve moves_open : safe.

Lemma safe_spawned claim previous : safe digest (spawned claim previous).
Proof.
  unfold start_spawned. safe_walk; try by apply safe_quiet.
Qed.
#[local] Hint Resolve safe_spawned : safe.

Lemma historic_refuse claim task code message now :
  historic digest (refuse_claim to_string from_str digest claim task code message now).
Proof.
  unfold refuse_claim. destruct task.
  - apply historic_op. intros db. constructor.
  - intros db. unfold mbind, sched_bind.
    pose proof (historic_op digest (fail_claim now (task_id (rec_spec (claim_task claim))) (claim_epoch claim)
      code message)) as H. specialize (H ltac:(intros; constructor) db).
    by destruct (store_op _ db) as [[] db1].
Qed.
#[local] Hint Resolve historic_refuse : safe.

Lemma safe_start claim previous : safe digest (start claim previous).
Proof.
  unfold start_claim. safe_walk; try by apply safe_quiet.
  apply safe_call, moves_log; [done | apply spawn_moves].
Qed.

(** ** What a start leaves behind *)

(** A task whose row could be read is over or queued after this. *)
Definition settles {A} (id : string) (m : Act R A) : Prop :=
  ∀ w, reach digest w → has_row id w → odd_between id w (m w).2 ∨ idle id (w_db (m w).2).

Lemma settles_unstarted id t reaped : settles id (unstarted id t reaped).
Proof.
  intros w Hr Hrow. pose proof (safe_finish id t reaped w Hr) as Ha.
  destruct (decide (odd id (w_db w))) as [Ho|Ho]; [left; by apply odd_here|]. right.
  unfold finish_unstarted, at_wall, on_store, finish_unstarted_route.
  set (c := if reaped then _ else _). set (now := wall _).
  pose proof (completion_idle to_string from_str sqlite_text digest now id c (reaped && cleaned c) (w_db w)
    (reachable_inv _ _ Hr) Hrow Ho) as H.
  by destruct (persist_general_completion _ _ _ _ _ _ _ _ (w_db w)).
Qed.

Lemma settles_after {A B} id (m : Act R A) (f : A → Act R B) w a w1 :
  safe digest m → reach digest w → has_row id w → m w = (Ok a, w1) → settles id (f a) →
  odd_between id w ((m ≫= f) w).2 ∨ idle id (w_db ((m ≫= f) w).2).
Proof.
  intros Hm Hr Hrow E Hf. specialize (Hm w Hr). rewrite E in Hm.
  unfold mbind, act_bind. rewrite E. destruct (Hf w1) as [Ho|Hd]; [by eapply reach_advances | by eapply has_row_advances | |].
  - left. by eapply odd_later.
  - by right.
Qed.

(** A start that is given up after the spawn has stopped its runtime. *)
Lemma abort_outcome id epoch session stage o code message w :
  reach digest w → has_row id w →
  let w' := (abort id epoch session stage o code message w).2 in
  (odd_between id w w' ∨ idle id (w_db w')) ∧ CallStop ∈ w_calls w'.
Proof.
  intros Hr Hrow w'. subst w'. unfold abort_start.
  set (w1 := drop_starting epoch w). assert (advances digest w w1) as H1 by apply (safe_drop epoch w Hr).
  pose proof (moves_stop digest (stop_grace config) w1 (reach_advances _ _ _ _ Hr H1)) as H2.
  destruct (call_stop (stop_grace config) w1) as [terminal w2] eqn:E2. cbn [snd] in H2.
  assert (CallStop ∈ w_calls w2) as Hc.
  { pose proof (rt_stop_moves (stop_grace config) (log_call CallStop w1) (reach_advances _ _ _ _ Hr H1)) as H.
    unfold call_stop in E2. rewrite E2 in H. eapply call_stays; [exact H|]. cbn. apply elem_of_app. right. by left. }
  assert (advances digest w w2) as H by (by eapply advances_trans).
  unfold mbind, act_bind, act_put, act_call, act_get. fold w1. rewrite E2. unfold attempt.
  set (t := mk_unstarted _ _ _ _). set (b := terminal_proves_process_group_reaped terminal).
  pose proof (settles_unstarted id t b w2 (reach_advances _ _ _ _ Hr H) (has_row_advances _ _ _ Hr Hrow H)) as Hs.
  pose proof (safe_finish id t b w2 (reach_advances _ _ _ _ Hr H)) as H3.
  destruct (unstarted id t b w2) as [r w3]. cbn [snd] in *. split; [|by eapply call_stays].
  destruct Hs as [Ho|Hd]; [left; by eapply odd_later | by right].
Qed.

(** The cleanup of a registered runtime stops it and gives its entry up. *)
Lemma cleanup_outcome id epoch failure w :
  reach digest w → has_row id w →
  let w' := (cleanup id epoch failure w).2 in
  odd_between id w w'
  ∨ (w_owner w' ≠ Some epoch ∧ (w_owner w = Some epoch → CallStop ∈ w_calls w')).
Proof.
  intros Hr [r Hrow] w'. pose proof (safe_cleanup_started id epoch failure w Hr) as Ha. fold w' in Ha.
  destruct (decide (odd id (w_db w))) as [Ho|Ho]; [left; by apply odd_here|].
  destruct (readable _ _ _ Hrow Ho) as [_ He].
  destruct (stop_total (wall (w_runtime w)) id false false (w_db w) r (reachable_inv _ _ Hr) Hrow He) as [d Hd].
  subst w'. unfold cleanup_started, cleanup_registered_runtime, at_wall, on_store, store_op in *.
  unfold mbind, act_bind in *. fold (request_runtime_stop (wall (w_runtime w)) id) in *.
  destruct (request_runtime_stop _ id (w_db w)) as [x db1] eqn:E1. cbn [fst] in Hd. subst x.
  unfold act_get in *. cbn [w_owner put_db] in *.
  destruct (bool_decide (w_owner w = Some epoch)) eqn:Eo; cbn [negb] in *.
  2:{ right. apply bool_decide_eq_false in Eo. cbn. split; [done|]. done. }
  set (w3 := force_stop_latch (cancel_check (put_db db1 w))) in *.
  assert (advances digest w w3) as H3.
  { apply advances_store; [|done]. cbn. change db1 with ((Ok d : StoreResult ControlDecision, db1).2).
    rewrite <- E1. apply rtc_once, do_runtime_stop. }
  pose proof (reach_advances _ _ _ _ Hr H3) as Hr3.
  unfold act_put, act_call in *. fold w3 in Ha |- *.
  pose proof (rt_stop_moves (stop_grace config) (log_call CallStop w3) Hr3) as H4.
  pose proof (moves_stop digest (stop_grace config) w3 Hr3) as H34.
  unfold call_stop in *. destruct (rt_stop (stop_grace config) (log_call CallStop w3)) as [terminal w4] eqn:E4.
  cbn [snd] in *.
  assert (CallStop ∈ w_calls w4) as Hc.
  { eapply call_stays; [exact H4|]. cbn. apply elem_of_app. right. by left. }
  pose proof (advances_trans _ _ _ _ H3 H34) as Hw4. pose proof (reach_advances _ _ _ _ Hr Hw4) as Hr4.
  unfold store_query in *. destruct (get_task id (w_db w4)) as [current|e] eqn:Et.
  - right. unfold then_release in *. set (m := close_stopped _ _ _ _ _ _ _ _ _ _) in *.
    assert (safe digest m) as Hm.
    { subst m. intros w5 H5. unfold close_stopped. destruct (match current with Some _ => _ | None => _ end).
      - by apply safe_routed.
      - by apply safe_unstarted. }
    specialize (Hm (put_db (w_db w4) w4) Hr4). destruct (m (put_db (w_db w4) w4)) as [res w5]. cbn [snd] in *.
    assert (CallStop ∈ w_calls w5) as Hc5 by (by eapply call_stays; [exact Hm|]).
    unfold release_active. destruct (bool_decide (w_owner w5 = Some epoch)) eqn:E5; [by split|].
    apply bool_decide_eq_false in E5. by split.
  - left. exists (w_db w4). cbn in Ha |- *. split_and!; [apply Hw4 | done |]. left. by exists e.
Qed.

(** A task that runs under its claim. *)
Definition runs (id : string) (epoch : Z) (session : string) w : Prop :=
  w_owner w = Some epoch ∧ w_session w = session ∧ w_starting w = None
  ∧ ∃ row, find_task id (tasks (w_db w)) = Some row ∧ phase row = Running ∧ owner_epoch row = epoch
      ∧ session_id row = Some session ∧ StoreRecords.runtime_agent_id row = Some (runtime_agent_id id epoch)
      ∧ flagged row = false.

(** The registered entry of a resumed task was given up by another thread while the
    task's first message was being delivered: the task ran under its claim in [w1];
    when the operation lock was free and the delivery had failed, in [w2], the entry
    of the epoch was no longer there, and all the start did then was its cleanup. *)
Definition taken_over (id : string) (epoch : Z) (resumed : bool) w w' : Prop :=
  resumed = true ∧ ∃ session w1 e w2 failure,
    advances digest w w1 ∧ runs id epoch session w1
    ∧ deliver_next_message to_string config id session (control_deadline config (wait_operation w1))
        (wait_operation w1) = (Err e, w2)
    ∧ w_owner w2 ≠ Some epoch ∧ w' = (cleanup id epoch failure w2).2.

(** A registered runtime nobody will look after: its entry is gone, and it was
    stopped or another thread had taken it over. *)
Definition given_up (id : string) (epoch : Z) (resumed : bool) w w' : Prop :=
  w_owner w' ≠ Some epoch ∧ (CallStop ∈ w_calls w' ∨ taken_over id epoch resumed w w').

Lemma taken_over_later id epoch resumed w1 w2 w3 :
  advances digest w1 w2 → taken_over id epoch resumed w2 w3 → taken_over id epoch resumed w1 w3.
Proof.
  intros H (Hr & session & w & e & w' & failure & Hw & Hx). split; [done|].
  exists session, w, e, w', failure. split; [by eapply advances_trans | done].
Qed.

Lemma given_up_later id epoch resumed w1 w2 w3 :
  advances digest w1 w2 → given_up id epoch resumed w2 w3 → given_up id epoch resumed w1 w3.
Proof. intros H [Ho [Hc|Ht]]; split; eauto using taken_over_later. Qed.

Lemma cleanup_given_up id epoch resumed failure w :
  reach digest w → has_row id w → w_owner w = Some epoch →
  let w' := (cleanup id epoch failure w).2 in odd_between id w w' ∨ given_up id epoch resumed w w'.
Proof.
  intros Hr Hrow Ho w'. destruct (cleanup_outcome id epoch failure w Hr Hrow) as [H|[H1 H2]]; [by left|].
  right. split; [done | left; by apply H2].
Qed.

Lemma deliver_outcome id epoch session w r w' :
  reach digest w → has_row id w → runs id epoch session w →
  deliver_resumed to_string from_str sqlite_text digest debug_terminal config wait_operation id epoch session w
    = (r, w') → r ≠ Ok tt → odd_between id w w' ∨ given_up id epoch true w w'.
Proof.
  intros Hr Hrow Hruns H Hne. unfold deliver_resumed in H. unfold mbind, act_bind, act_put, act_get, attempt in H.
  pose proof (wait_steps w Hr) as H1. set (w1 := wait_operation w) in *.
  pose proof (reach_advances _ _ _ _ Hr H1) as Hr1.
  pose proof (safe_deliver to_string digest config id session (control_deadline config w1) w1 Hr1) as H2.
  destruct (deliver_next_message _ _ _ _ _ w1) as [[m|e] w2] eqn:Ed; cbn [snd] in H2; [by injection H as <- _|].
  pose proof (advances_trans _ _ _ _ H1 H2) as H12.
  set (failure := Some _) in H.
  assert (w' = (cleanup id epoch failure w2).2) as ->
    by (destruct (cleanup id epoch failure w2) as [[p|e'] w3]; by injection H as _ <-).
  destruct (cleanup_outcome id epoch failure w2 (reach_advances _ _ _ _ Hr H12) (has_row_advances _ _ _ Hr Hrow H12))
    as [Ho|[Ho Hc]]; [left; by eapply odd_later | right; split; [done|]].
  destruct (decide (w_owner w2 = Some epoch)) as [E|E]; [left; by apply Hc | right].
  split; [done|]. exists session, w, e, w2, failure. split_and!; [apply advances_refl | done..].
Qed.

(** A task that was marked and is not overtaken runs under its claim. *)
Lemma marked_runs id epoch identity session turn now w db1 current :
  reach digest w → w_owner w = Some epoch → w_session w = session → w_starting w = None →
  mark_session_running now id epoch (runtime_agent_id id epoch) identity (Some session) turn (w_db w)
    = (Ok true, db1) →
  get_task id db1 = Ok current → overtaken_row current = false → runs id epoch session (put_db db1 w).
Proof.
  intros Hr Ho Hse Hst Em Et Eo.
  destruct (mark_row _ _ _ _ _ _ _ _ _ (reachable_inv _ _ Hr) Em) as (r0 & Hr0 & Hp0 & He0 & Hrow).
  split_and!; [done | done | done |]. eexists. split_and!; [exact Hrow | done | exact He0 | done | done |].
  unfold get_task in Et. destruct current as [t|].
  - destruct (query_task_db_some _ _ _ Et) as (r' & Hr' & _ & _ & E3 & E4 & _). rewrite Hrow in Hr'.
    injection Hr' as <-. cbn [overtaken_row] in Eo. rewrite E3, E4 in Eo. unfold flagged.
    apply orb_false_iff in Eo as [Eo _]. exact Eo.
  - unfold query_task_db in Et. rewrite Hrow in Et. by destruct (convert_task_row _).
Qed.

Lemma registered_outcome id epoch identity session turn resumed w r w' :
  reach digest w → has_row id w → w_owner w = Some epoch → w_session w = session → w_starting w = None →
  registered id epoch identity session turn resumed w = (r, w') → r ≠ Ok true →
  odd_between id w w' ∨ given_up id epoch resumed w w'.
Proof.
  intros Hr Hrow Ho Hse Hst H Hne. unfold start_registered in H.
  unfold mbind, act_bind, attempt, at_wall, on_store, store_op in H.
  destruct (mark_session_running _ _ _ _ _ _ _ (w_db w)) as [marked db1] eqn:Em.
  set (w1 := put_db db1 w) in H.
  assert (advances digest w w1) as Hm.
  { apply advances_store; [|done]. change (w_db w1) with ((marked, db1).2). rewrite <- Em.
    apply rtc_once, do_mark_running. }
  pose proof (reach_advances _ _ _ _ Hr Hm) as Hr1. pose proof (has_row_advances _ _ _ Hr Hrow Hm) as Hrow1.
  assert (w_owner w1 = Some epoch) as Ho1 by exact Ho.
  assert (∀ (w2 : World R), odd_between id w1 w2 ∨ given_up id epoch resumed w1 w2 →
    odd_between id w w2 ∨ given_up id epoch resumed w w2) as Hback.
  { intros w2 [Hx|Hx]; [left; by eapply odd_later | right; by eapply given_up_later]. }
  pose proof (λ failure, cleanup_given_up id epoch resumed failure w1 Hr1 Hrow1 Ho1) as Hc.
  destruct marked as [marked|e].
  2:{ unfold start_store_failed, mbind, act_bind, attempt in H. set (failure := Some _) in H.
      fold w1 in H. specialize (Hc failure). destruct (cleanup id epoch failure w1) as [x w2].
      injection H as _ <-. auto. }
  unfold store_query in H. fold w1 in H.
  destruct (get_task id (w_db w1)) as [current|e] eqn:Et; change (put_db (w_db w1) w1) with w1 in H.
  2:{ unfold start_store_failed, mbind, act_bind, attempt in H. set (failure := Some _) in H.
      specialize (Hc failure). destruct (cleanup id epoch failure w1) as [x w2]. injection H as _ <-. auto. }
  assert (∀ failure, (let '(x, w2) := cleanup id epoch failure w1 in
    match x with Ok _ => (Ok false, w2) | Err e => (Err e, w2) end) = (r, w') →
    odd_between id w w' ∨ given_up id epoch resumed w w') as Hclean.
  { intros failure Hx. specialize (Hc failure).
    destruct (cleanup id epoch failure w1) as [[] w2]; injection Hx as _ <-; auto. }
  destruct marked; cbn [negb] in H; [|by eapply Hclean].
  destruct (overtaken_row current) eqn:Eo; [by eapply Hclean|].
  pose proof (marked_runs _ _ _ _ _ _ _ _ _ Hr Ho Hse Hst Em Et Eo) as Hruns. fold w1 in Hruns.
  destruct resumed; [|by injection H as <- _].
  destruct (deliver_resumed _ _ _ _ _ _ _ id epoch session w1) as [[[]|e] w2] eqn:Ed; [by injection H as <- _|].
  injection H as _ <-. apply Hback. by eapply deliver_outcome.
Qed.

(** No runtime was spawned. *)
Definition without_runtime (r : result SchedulerError bool) w' : Prop :=
  CallSpawn ∉ w_calls w' ∨ ∃ id m, r = Err (RuntimeSpawn id m).

(** What a start that did not succeed may leave behind. *)
Definition settled_start (id : string) (epoch : Z) (resumed : bool) w (r : result SchedulerError bool) w' : Prop :=
  odd_between id w w'
  ∨ (idle id (w_db w') ∧ (CallStop ∈ w_calls w' ∨ without_runtime r w'))
  ∨ given_up id epoch resumed w w'.

Lemma settled_later id epoch resumed w1 w2 r w3 :
  advances digest w1 w2 → settled_start id epoch resumed w2 r w3 → settled_start id epoch resumed w1 r w3.
Proof.
  intros H [Ho|[Ho|Ho]]; [left; by eapply odd_later | by right; left | right; right; by eapply given_up_later].
Qed.

Lemma settled_abort id epoch resumed session stage o code message w r :
  reach digest w → has_row id w →
  settled_start id epoch resumed w r (abort id epoch session stage o code message w).2.
Proof.
  intros Hr Hrow. destruct (abort_outcome id epoch session stage o code message w Hr Hrow) as [[Ho|Hd] Hc];
    [by left | right; left; auto].
Qed.

Lemma settled_spawned claim previous w r w' :
  reach digest w → has_row (task_id (rec_spec (claim_task claim))) w →
  spawned claim previous w = (r, w') → r ≠ Ok true →
  settled_start (task_id (rec_spec (claim_task claim))) (claim_epoch claim)
    (is_some (rec_session_id (claim_task claim))) w r w'.
Proof.
  intros Hr Hrow H Hne. unfold start_spawned in H. cbv zeta in H.
  set (id := task_id _) in *. set (epoch := claim_epoch claim) in *. set (resumed := is_some _) in *.
  unfold mbind, act_bind in H. cbn [act_get] in H. unfold act_put at 1, on_store, store_query in H.
  set (identity := option_map _ _) in H. set (w1 := put_starting _ w) in H.
  assert (advances digest w w1) as H1 by by apply advances_store.
  change (w_db w1) with (w_db w) in H. destruct (get_task id (w_db w)) as [recheck|e] eqn:Et.
  2:{ injection H as <- <-. left. apply odd_here; [by apply advances_store|]. left. by exists e. }
  set (w2 := put_db (w_db w) w1) in H. assert (advances digest w w2) as H2 by by apply advances_store.
  pose proof (reach_advances _ _ _ _ Hr H2) as Hr2. pose proof (has_row_advances _ _ _ Hr Hrow H2) as Hrow2.
  destruct (cancelled_claim epoch recheck).
  { pose proof (λ r, settled_abort id epoch resumed (rec_session_id (claim_task claim)) "cancelled" CCancelled "CANCELLED"
      "task was cancelled before bootstrap" w2 r Hr2 Hrow2) as Ha.
    destruct (abort id epoch _ _ _ _ _ w2) as [[] w3]; injection H as <- <-; eapply settled_later; eauto. }
  unfold act_put, act_call in H. set (w3 := put_activity _ w2) in H.
  assert (advances digest w w3) as H3 by by apply advances_store.
  pose proof (moves_open (claim_task claim) resumed (bootstrap_timeout config) w3 (reach_advances _ _ _ _ Hr H3)) as H4.
  cbv beta in H, H4.
  destruct (if resumed then _ else _) as [session w4]. cbn [snd] in H4.
  pose proof (advances_trans _ _ _ _ H3 H4) as H34. pose proof (reach_advances _ _ _ _ Hr H34) as Hr4.
  pose proof (has_row_advances _ _ _ Hr Hrow H34) as Hrow4.
  destruct session as [session|e].
  2:{ pose proof (λ r, settled_abort id epoch resumed (rec_session_id (claim_task claim)) "session_start" CFailed
        (start_failure_code e) (command_error_display e) w4 r Hr4 Hrow4) as Ha.
      destruct (abort id epoch _ _ _ _ _ w4) as [[] w5]; injection H as <- <-; eapply settled_later; eauto. }
  destruct (if resumed then Ok tt else _) as [u|code].
  2:{ pose proof (λ r, settled_abort id epoch resumed (Some (ready_session session)) "session_start" CFailed
        code model_mismatch w4 r Hr4 Hrow4) as Ha.
      destruct (abort id epoch _ _ _ _ _ w4) as [[] w5]; injection H as <- <-; eapply settled_later; eauto. }
  set (w5 := register _ _ _ w4) in H. assert (advances digest w w5) as H5.
  { eapply advances_trans; [exact H34 | by apply advances_store]. }
  eapply settled_later; [exact H5|].
  destruct (registered_outcome id epoch identity (ready_session session) _ resumed w5 r w'
    (reach_advances _ _ _ _ Hr H5) (has_row_advances _ _ _ Hr Hrow H5) eq_refl eq_refl eq_refl H Hne) as [Ho|Ho];
    [by left | by right; right].
Qed.

Lemma route_error_valid task m code :
  task_route from_str decode_prepared task = Err m →
  validate_result (minimal_task_result CResultInvalid m code) = Ok tt.
Proof.
  unfold task_route. intros H. repeat case_match; simplify_eq; by vm_compute.
Qed.

(** The refusal of a claim that cannot be routed. *)
Lemma refuse_idle claim task m code w r :
  reach digest w → find_task (task_id (rec_spec (claim_task claim))) (tasks (w_db w)) = Some r →
  ¬ odd (task_id (rec_spec (claim_task claim))) (w_db w) → flagged r = false →
  validate_result (minimal_task_result CResultInvalid m code) = Ok tt →
  idle (task_id (rec_spec (claim_task claim)))
    (w_db (at_wall (refuse_claim to_string from_str digest claim (Some task) code m) w).2).
Proof.
  intros Hr Hrow Ho Hf Hv. unfold at_wall, on_store, refuse_claim, store_op.
  set (id := task_id _) in *. set (fm := Some (persistable_failure_record _ _ _ _ _ _ _ _)).
  destruct (readable _ _ _ Hrow Ho) as [[t Ht] He].
  destruct (idle_or_active _ _ _ Hrow) as [Hd|Ha].
  - destruct (store_task_result_with_reason _ _ _ _ _ _ _) as [[[]|e] db] eqn:E; cbn.
    + by eapply ends_idle, result_ends; [eapply reachable_inv|].
    + by apply result_err in E as ->.
  - destruct (store_result_succeeds digest (wall (w_runtime w)) id (minimal_task_result CResultInvalid m code) None fm
      (w_db w) r t (reachable_inv _ _ Hr) Hrow Ht He Ha Hv) as (db & -> & [Hs _]); [done | by rewrite Hf |].
    cbn. eexists. by split; [exact Hs | left].
Qed.

(** C10. A claim that is not started is settled.  Unless a column of its row was out of
    range meanwhile, or the task was cancelled and cannot be routed at all, the task
    is over or queued and its runtime was never spawned or has been stopped; or the
    runtime was registered, its entry is gone and it has been stopped.  The one case
    without a stop is a resumed task that was running under its claim when another
    thread gave up the entry, while the task's first message was being delivered. *)
Theorem unstarted_claim_settled claim previous w r w' row :
  let id := task_id (rec_spec (claim_task claim)) in
  reachable digest (w_db w) → find_task id (tasks (w_db w)) = Some row → w_calls w = [] →
  start claim previous w = (r, w') → r ≠ Ok true →
  settled_start id (claim_epoch claim) (is_some (rec_session_id (claim_task claim))) w r w'
  ∨ (flagged row = true ∧ CallSpawn ∉ w_calls w' ∧ ∃ m, task_route from_str decode_prepared (claim_task claim) = Err m).
Proof.
  intros id Hr Hrow Hc H Hne. assert (has_row id w) as Hrow' by by exists row.
  pose proof (safe_start claim previous w Hr) as Hs. rewrite H in Hs. cbn [snd] in Hs.
  unfold start_claim in H. cbv zeta in H. fold id in H.
  unfold mbind, act_bind in H. unfold on_store, store_query in H.
  destruct (decide (odd id (w_db w))) as [Ho|Ho]; [left; left; by apply odd_here|].
  destruct (get_task id (w_db w)) as [stored|e] eqn:Et; [|destruct Ho; left; by exists e].
  set (w0 := put_db (w_db w) w) in H.
  assert (stored ≠ None) as Hst.
  { intros ->. unfold get_task, query_task_db in Et. rewrite Hrow in Et. by destruct (convert_task_row row). }
  destruct stored as [stored|]; [|done].
  destruct (task_route from_str decode_prepared (claim_task claim)) as [prepared|m] eqn:Er.
  2:{ destruct (flagged row) eqn:Hf.
      - right. split; [done|]. split; [|by exists m]. unfold at_wall, on_store in H.
        destruct (refuse_claim _ _ _ _ _ _ _ _ _) as [[] db]; injection H as _ <-; cbn; rewrite Hc; apply not_elem_of_nil.
      - left. right. left.
        pose proof (refuse_idle claim stored m "PREPARED_LAUNCH_INVALID" w0 row Hr Hrow Ho Hf
          (route_error_valid _ _ _ Er)) as Hd.
        unfold at_wall, on_store in *. fold id in Hd. destruct (refuse_claim _ _ _ _ _ _ _ _ _) as [[] db];
          injection H as _ <-; (split; [exact Hd|]; right; left; cbn; rewrite Hc; apply not_elem_of_nil). }
  cbn [validate_task_route] in H.
  destruct (route_policy _ _ _ _ ) as [policy|e] eqn:Ep.
  2:{ set (t := mk_unstarted _ _ _ _) in H.
      pose proof (settles_unstarted id t true w0 Hr Hrow') as Hd.
      assert (w_calls (unstarted id t true w0).2 = []) as Hn.
      { unfold finish_unstarted, at_wall, on_store. destruct (finish_unstarted_route _ _ _ _ _ _ _ _ _); exact Hc. }
      destruct (unstarted id t true w0) as [[] w1]; injection H as <- <-; cbn [snd] in *; left;
        (destruct Hd as [Hd|Hd]; [by left|]; right; left; split; [done|]; right; left; rewrite Hn; apply not_elem_of_nil). }
  unfold act_put at 1, act_call in H. set (w1 := attach _ _ w0) in H.
  assert (advances digest w w1) as H1 by by apply advances_store.
  pose proof (moves_log digest _ CallSpawn eq_refl (spawn_moves (claim_task claim)) w1 (reach_advances _ _ _ _ Hr H1)) as H2.
  cbv beta in H, H2. destruct (rt_spawn (claim_task claim) (log_call CallSpawn w1)) as [spawned w2]. cbn [snd] in H2.
  pose proof (advances_trans _ _ _ _ H1 H2) as H12. pose proof (reach_advances _ _ _ _ Hr H12) as Hr2.
  pose proof (has_row_advances _ _ _ Hr Hrow' H12) as Hrow2.
  left. eapply settled_later; [exact H12|]. destruct spawned as [u|m]; [by eapply settled_spawned|].
  unfold attempt in H. set (t := mk_unstarted _ _ _ _) in H.
  pose proof (settles_unstarted id t true w2 Hr2 Hrow2) as Hd.
  destruct (unstarted id t true w2) as [x w3]. injection H as <- <-. cbn [snd] in Hd.
  destruct Hd as [Hd|Hd]; [by left|]. right. left. split; [done|]. right. right. eauto.
Qed.

Lemma registered_runs id epoch identity session turn resumed w w' :
  reach digest w → w_owner w = Some epoch → w_session w = session → w_starting w = None →
  registered id epoch identity session turn resumed w = (Ok true, w') →
  ∃ w1, advances digest w w1 ∧ runs id epoch session w1 ∧ advances digest w1 w' ∧ (resumed = false → w' = w1).
Proof.
  intros Hr Ho Hse Hst H. unfold start_registered in H.
  unfold mbind, act_bind, attempt, at_wall, on_store, store_op in H.
  destruct (mark_session_running _ _ _ _ _ _ _ (w_db w)) as [[marked|e] db1] eqn:Em.
  2:{ unfold start_store_failed, mbind, act_bind, attempt in H. by destruct (cleanup _ _ _ _). }
  set (w1 := put_db db1 w) in H.
  assert (advances digest w w1) as H1.
  { apply advances_store; [|done]. change (w_db w1) with ((Ok marked : StoreResult bool, db1).2). rewrite <- Em.
    apply rtc_once, do_mark_running. }
  pose proof (reach_advances _ _ _ _ Hr H1) as Hr1.
  unfold store_query in H. destruct (get_task id (w_db w1)) as [current|e] eqn:Et.
  2:{ unfold start_store_failed, mbind, act_bind, attempt in H. by destruct (cleanup _ _ _ _). }
  destruct marked; cbn [negb] in H; [|by destruct (cleanup _ _ _ _) as [[] ?]].
  destruct (overtaken_row current) eqn:Eo; [by destruct (cleanup _ _ _ _) as [[] ?]|].
  pose proof (marked_runs _ _ _ _ _ _ _ _ _ Hr Ho Hse Hst Em Et Eo) as Hruns.
  exists w1. split_and!; [done | done | |].
  - destruct resumed; [|injection H as <-; apply advances_refl].
    pose proof (safe_deliver_resumed id epoch session (put_db (w_db w1) w1) Hr1) as Hd.
    destruct (deliver_resumed _ _ _ _ _ _ _ _ _ _ _) as [[[]|e] w2]; [|done]. injection H as <-. exact Hd.
  - intros ->. by injection H as <-.
Qed.

(** A claim that is reported as started runs: its runtime was registered under the
    claim's epoch with the session it reported, the row was marked as running under
    that epoch, with that session, and nobody had asked to stop it when it was read
    again; a fresh session carries the model that was admitted; nothing but the
    delivery of a resumed task's message follows. *)
Theorem started_claim_runs claim previous w w' :
  let id := task_id (rec_spec (claim_task claim)) in
  reachable digest (w_db w) → start claim previous w = (Ok true, w') →
  ∃ w1 session, advances digest w w1 ∧ runs id (claim_epoch claim) (ready_session session) w1
    ∧ advances digest w1 w'
    ∧ (rec_session_id (claim_task claim) = None →
         w' = w1 ∧ validate_requested_model (admitted_model_from_task from_str decode_prepared (claim_task claim))
                     (ready_model session) = Ok tt).
Proof.
  intros id Hr H. unfold start_claim in H. cbv zeta in H. fold id in H.
  unfold mbind, act_bind in H. unfold on_store, store_query in H.
  destruct (get_task id (w_db w)) as [stored|e]; [|done].
  destruct (task_route from_str decode_prepared (claim_task claim)) as [prepared|m];
    [|by destruct (at_wall _ _) as [[] ?]].
  destruct (validate_task_route stored); [|by destruct (at_wall _ _) as [[] ?]].
  destruct (route_policy _ _ _ _ ); [|by destruct (unstarted _ _ _ _) as [[] ?]].
  unfold act_put at 1, act_call in H. set (w1 := attach _ _ _) in H.
  assert (advances digest w w1) as H1 by by apply advances_store.
  pose proof (moves_log digest _ CallSpawn eq_refl (spawn_moves (claim_task claim)) w1 (reach_advances _ _ _ _ Hr H1)) as H2.
  cbv beta in H, H2. destruct (rt_spawn (claim_task claim) (log_call CallSpawn w1)) as [[u|m] w2]; cbn [snd] in H2;
    [|unfold attempt in H; by destruct (unstarted _ _ _ _)].
  pose proof (advances_trans _ _ _ _ H1 H2) as H12. pose proof (reach_advances _ _ _ _ Hr H12) as Hr2. clear H1 H2.
  unfold start_spawned in H. cbv zeta in H. fold id in H. unfold mbind, act_bind in H. cbn [act_get] in H.
  unfold act_put at 1, on_store, store_query in H.
  set (w3 := put_starting _ w2) in H. change (w_db w3) with (w_db w2) in H.
  destruct (get_task id (w_db w2)) as [recheck|e]; [|done].
  destruct (cancelled_claim _ recheck); [by destruct (abort _ _ _ _ _ _ _ _) as [[] ?]|].
  unfold act_put, act_call in H. set (w4 := put_activity _ _) in H.
  assert (advances digest w2 w4) as H4 by by apply advances_store.
  set (resumed := is_some _) in H.
  pose proof (moves_open (claim_task claim) resumed (bootstrap_timeout config) w4 (reach_advances _ _ _ _ Hr2 H4)) as H5.
  cbv beta in H, H5.
  destruct (if resumed then _ else _) as [session w5]. cbn [snd] in H5.
  destruct session as [session|e]; [|by destruct (abort _ _ _ _ _ _ _ _) as [[] ?]].
  destruct (if resumed then Ok tt else _) as [[]|code] eqn:Ev; [|by destruct (abort _ _ _ _ _ _ _ _) as [[] ?]].
  set (w6 := register _ _ _ w5) in H. assert (advances digest w w6) as H6.
  { eapply advances_trans; [exact H12|]. eapply advances_trans; [exact H4|]. eapply advances_trans; [exact H5|].
    by apply advances_store. }
  destruct (registered_runs _ _ _ _ _ _ w6 w' (reach_advances _ _ _ _ Hr H6) eq_refl eq_refl eq_refl H)
    as (w7 & H7 & Hruns & H8 & Heq).
  exists w7, session. split_and!; [by eapply advances_trans | done | done |].
  intros Hn. unfold resumed in *. rewrite Hn in *. split; [by apply Heq | exact Ev].
Qed.

(** ** The queue *)

Context (owner_id : string) (activities : string → option (PassiveActivityTracker * list string * list string)).
Notation ready := (start_ready to_string from_str decode_prepared sqlite_text digest debug_terminal config owner_id
                     fs create_dir_all preparation_text file_verified wait_operation activities).

Lemma ready_history rounds db r : reachable digest db → rtc (store_step digest) db (ready rounds db r).2.
Proof.
  revert db r. induction rounds as [|rounds IH]; intros db r Hr; [done|]. cbn [start_ready].
  destruct (claim_next _ _ _ _ db) as [[[claim|]|e] db1] eqn:Ec; cbn [snd];
    assert (rtc (store_step digest) db db1) as H1
      by (change db1 with ((db, db1).2); eapply (snd_step digest (claim_next _ _ _ _)); [apply do_claim_next | exact Ec]);
    try done.
  assert (reachable digest db1) as Hr1 by exact (rtc_trans _ _ _ Hr H1).
  unfold start_in_world. set (w0 := claim_world _ _ _ _ _). set (previous := activities _).
  pose proof (safe_start claim previous w0 Hr1) as [H2 _].
  destruct (start claim previous w0) as [[started|e] w1]; cbn [snd] in *; [|by etrans].
  assert (reachable digest (w_db w1)) as Hr2 by exact (rtc_trans _ _ _ Hr1 H2).
  specialize (IH (w_db w1) (w_runtime w1) Hr2).
  destruct (ready rounds (w_db w1) (w_runtime w1)) as [[res worlds] db2]. cbn [snd] in IH.
  destruct started; cbn [snd]; (etrans; [exact H1|]; etrans; [exact H2 | exact IH]).
Qed.

(** What the other operations assume of [start_ready]. *)
Lemma ready_steps rounds :
  steps digest (ready_step to_string from_str decode_prepared sqlite_text digest debug_terminal config owner_id
                  fs create_dir_all preparation_text file_verified wait_operation activities rounds).
Proof.
  intros w Hr. unfold ready_step. pose proof (ready_history rounds (w_db w) (w_runtime w) Hr) as H.
  destruct (ready rounds _ _) as [[res worlds] db]. by apply advances_store.
Qed.
End start.

(** ** Witnesses *)

Module StartDemo.
#[global] Instance factory : RuntimeFactory unit := {| rt_spawn _ w := (Ok tt, w) |}.
Definition from_str (_ : string) : result string Value :=
  Ok (VObject [("schema", VString GENERAL_TASK_SCHEMA)]).
Definition decode_prepared (_ : Value) : option PreparedGeneralTask := Some (Submission.task Build ["src"]).
Definition create_dir_all (_ : Path) : PreparationResult FileSystem := Ok (Tree.fs Tree.sample).
Definition text (_ : PreparationError) : string := "preparation failed".
Definition record (db : Db) : TaskRecord :=
  match get_task "10000000" db with Ok (Some t) => t | _ => SinkDemo.fallback end.
Definition claim : TaskClaim := mk_claim (record History.claimed) 1.
Notation world db := (claim_world from_str decode_prepared claim db tt).
Definition stopped : Db := (request_stop 103 "10000000" History.claimed).2.
Notation start :=
  (start_claim SinkDemo.to_string from_str decode_prepared SinkDemo.sqlite_text History.digest MessageDemo.debug
     MessageDemo.config (Tree.fs Tree.sample) create_dir_all text (λ _, true) Datatypes.id claim None).
Lemma world_reachable db : reachable History.digest db → reachable History.digest (w_db (world db)).
Proof. done. Qed.
Lemma spawn_moves task : moves History.digest (rt_spawn (R := unit) task).
Proof. intros w _. apply advances_refl. Qed.
Lemma wait_steps : steps History.digest (Datatypes.id : World unit → World unit).
Proof. intros w _. apply advances_refl. Qed.
End StartDemo.
Import StartDemo.

Lemma started_claim_runs_witness :
  let w := StartDemo.world History.claimed in
  let r := StartDemo.start w in
  let id := task_id (rec_spec (claim_task claim)) in
  id = "10000000" ∧ r.1 = Ok true
  ∧ ∃ w1 session, advances History.digest w w1 ∧ runs id (claim_epoch claim) (ready_session session) w1 ∧ r.2 = w1.
Proof.
  intros w r id. split; [by vm_compute|]. assert (r.1 = Ok true) as E by (by vm_compute). split; [exact E|].
  assert (r = (Ok true, r.2)) as Er by (rewrite <- E; apply surjective_pairing).
  assert (reachable History.digest (w_db w)) as Hr by exact (StartDemo.world_reachable _ History.claimed_reachable).
  assert (rec_session_id (claim_task claim) = None) as Hn by (by vm_compute).
  destruct (started_claim_runs SinkDemo.to_string StartDemo.from_str StartDemo.decode_prepared SinkDemo.sqlite_text
    History.digest MessageDemo.debug MessageDemo.config (Tree.fs Tree.sample) create_dir_all text (λ _, true) Datatypes.id
    StartDemo.spawn_moves StartDemo.wait_steps claim None w r.2 Hr Er) as (w1 & session & H0 & H1 & _ & H2).
  exists w1, session. split; [exact H0|]. split; [exact H1 | exact (proj1 (H2 Hn))].
Defined.

Lemma unstarted_claim_settled_witness :
  let w := StartDemo.world StartDemo.stopped in
  let r := StartDemo.start w in
  let id := task_id (rec_spec (claim_task claim)) in
  r.1 = Ok false ∧ CallStop ∈ w_calls r.2
  ∧ (settled_start SinkDemo.to_string StartDemo.from_str SinkDemo.sqlite_text History.digest MessageDemo.debug
       MessageDemo.config Datatypes.id id (claim_epoch claim) (is_some (rec_session_id (claim_task claim))) w (Ok false) r.2
     ∨ ∃ m, task_route StartDemo.from_str StartDemo.decode_prepared (claim_task claim) = Err m).
Proof.
  intros w r id. assert (r.1 = Ok false) as E by (by vm_compute). split; [exact E|].
  split; [by vm_compute; repeat (left || right)|].
  assert (r = (Ok false, r.2)) as Er by (rewrite <- E; apply surjective_pairing).
  assert (reachable History.digest (w_db w)) as Hr.
  { apply StartDemo.world_reachable. eapply rtc_r; [apply History.claimed_reachable | apply do_stop]. }
  assert (find_task id (tasks (w_db w)) = Some (History.row_of StartDemo.stopped)) as Hf by (by vm_compute).
  destruct (unstarted_claim_settled SinkDemo.to_string StartDemo.from_str StartDemo.decode_prepared SinkDemo.sqlite_text
    History.digest MessageDemo.debug MessageDemo.config (Tree.fs Tree.sample) create_dir_all text (λ _, true) Datatypes.id
    StartDemo.spawn_moves StartDemo.wait_steps claim None w (Ok false) r.2
    (History.row_of StartDemo.stopped) Hr Hf eq_refl Er ltac:(done)) as [H|(_ & _ & H)].
  - left. exact H.
  - right. exact H.
Defined.
