(* ===== verification/AdmissionProps.v ===== *)
(** * Properties of admission, drain and delivery

    The delivery loop of a send ends before its bound; an activation is handed out
    once and only when every task is reaped, and stays valid until the drain is
    aborted; a submitted task can be routed back to what was prepared for it. *)

From stdpp Require Import relations countable strings.
From S2P Require Import Prelude RustStr RustPath Utf8 Json FileSystem PolicyPaths General RuntimeEvents StoreRecords StoreSql StoreOps StoreView StoreRefine StoreProps StoreKeeps RuntimeOwner RuntimeLifecycle Sink SinkProps Diagnostics Recovery RecoveryProps Control Messages MessageProps Admission.

(** ** The delivery loop *)

Definition queued_count (id : string) (db : Db) : nat := length (List.filter (queued_for id) (messages db)).

Lemma filter_update_le {A} (q P : A → bool) f l :
  (∀ x, P x = true → q (f x) = false) →
  length (List.filter q (update_rows P f l)) ≤ length (List.filter q l).
Proof.
  intros Hf. induction l as [|x l IH]; [done|].
  change (update_rows P f (x :: l)) with ((if P x then f x else x) :: update_rows P f l).
  cbn [List.filter]. destruct (P x) eqn:E.
  - rewrite (Hf x E). destruct (q x); cbn [length]; lia.
  - destruct (q x); cbn [length]; lia.
Qed.

Lemma filter_update_lt {A} (q P : A → bool) f l x :
  (∀ x, P x = true → q (f x) = false) → x ∈ l → P x = true → q x = true →
  length (List.filter q (update_rows P f l)) < length (List.filter q l).
Proof.
  intros Hf Hin HP Hq. induction Hin as [x l|x y l Hin IH].
  - change (update_rows P f (x :: l)) with ((if P x then f x else x) :: update_rows P f l).
    cbn [List.filter]. rewrite HP, (Hf x HP), Hq. cbn [length].
    pose proof (filter_update_le q P f l Hf). lia.
  - change (update_rows P f (y :: l)) with ((if P y then f y else y) :: update_rows P f l).
    cbn [List.filter]. specialize (IH HP Hq). destruct (P y) eqn:E.
    + rewrite (Hf y E). destruct (q y); cbn [length]; lia.
    + destruct (q y); cbn [length]; lia.
Qed.

Lemma complete_count now mid turn id db :
  queued_count id (complete_message now mid turn db).2 ≤ queued_count id db.
Proof.
  unfold queued_count. cbn -[update_rows]. apply filter_update_le. intros x _. unfold queued_for. cbn.
  apply andb_false_r.
Qed.

Lemma fail_count mid code text id db : queued_count id (fail_message mid code text db).2 ≤ queued_count id db.
Proof.
  unfold queued_count. cbn -[update_rows]. apply filter_update_le. intros x _. unfold queued_for. cbn.
  apply andb_false_r.
Qed.

Lemma claim_count digest id db m db' :
  reachable digest db → claim_next_message id db = (Ok (Some m), db') →
  queued_count id db' < queued_count id db.
Proof.
  intros Hr Ht. destruct (claim_next_message_order _ _ _ _ _ Hr Ht) as (q & Hin & Hq & _).
  apply immediate_ok in Ht. apply tx_bind_ok in Ht as (g & db1 & (-> & _)%query_guard_ok & Ht).
  destruct (negb (accepting g)); [by apply tx_ret_ok in Ht as [? _]|].
  apply tx_bind_ok in Ht as (nx & db1 & [-> ->]%tx_get_ok & Ht).
  destruct (head _) as [x|] eqn:Hh; [|by apply tx_ret_ok in Ht as [? _]].
  apply message_order_head in Hh as [Hx _]. apply in_filter in Hx as [Hx Hxq].
  apply tx_bind_ok in Ht as (n & db1 & [= <- <-] & [_ ->]%tx_get_ok).
  unfold queued_count. apply (filter_update_lt _ _ _ _ x); [|done| |done].
  - intros y _. unfold queued_for. cbn. apply andb_false_r.
  - rewrite String.eqb_refl. unfold queued_for in Hxq. bool_hyp. by rewrite bool_decide_eq_true_2.
Qed.

Section loop.
Context (to_string : Value → string) (digest : TaskResult → string) (config : SchedulerConfig).
Context {R : Type} `{!ManagedRuntime R} `{!RuntimeLaws digest R}.

(** While the admission lock is held, nobody queues a message for the task. *)
Definition calm (id : string) {A} (f : World R → A * World R) : Prop :=
  ∀ w, queued_count id (w_db (f w).2) ≤ queued_count id (w_db w).

Record calm_runtime (id : string) : Prop := {
  calm_send session content t : calm id (rt_send_turn session content t);
  calm_inject session content t : calm id (rt_inject_turn session content t);
  calm_stop session t : calm id (rt_stop_turn session t) }.

Lemma deliver_send_calm id m active session d :
  calm_runtime id → calm id (deliver_send config m active session d).
Proof.
  intros Hc w. unfold deliver_send. destruct (runtime_phase_timeout config d w) as [t|]; [|done].
  destruct (_ && _).
  - pose proof (calm_inject id Hc session (m_content m) t (log_call (CallInject (message_id m) (m_content m)) w)).
    by destruct (rt_inject_turn _ _ _ _).
  - pose proof (calm_send id Hc session (m_content m) t (log_call (CallSend (message_id m) (m_content m)) w)).
    by destruct (rt_send_turn _ _ _ _).
Qed.

Lemma deliver_claimed_calm id m session d :
  calm_runtime id → calm id (deliver_claimed config m session d).
Proof.
  intros Hc w. unfold deliver_claimed. destruct (_ && _); [|by apply deliver_send_calm].
  destruct (runtime_phase_timeout config d w) as [t|]; [|done].
  pose proof (calm_stop id Hc session t (log_call CallStopTurn w)) as Hs. cbn [log_call w_db] in Hs.
  destruct (rt_stop_turn _ _ _) as [[b|e] w1]; [|done]. cbn [snd] in Hs.
  etrans; [by apply deliver_send_calm | done].
Qed.

Lemma settle_calm id agent m r (w : World R) :
  queued_count id (w_db (settle_delivery to_string agent m r w).2) ≤ queued_count id (w_db w).
Proof.
  unfold settle_delivery. destruct (d_result r) as [turn|e].
  - unfold mbind, act_bind, at_wall, on_store, store_op.
    pose proof (complete_count (wall (w_runtime w)) (message_id m) turn id (w_db w)) as Hc.
    destruct (complete_message _ _ _ _) as [[[]|] db]; done.
  - unfold mbind, act_bind, on_store, store_op.
    pose proof (fail_count (message_id m) (d_code r) (command_diagnostic to_string (d_operation r) e) id (w_db w)) as Hc.
    by destruct (fail_message _ _ _ _) as [[] db].
Qed.

Lemma deliver_count id session d w m w' :
  calm_runtime id → reach digest w →
  deliver_next_message to_string config id session d w = (Ok (Some m), w') →
  queued_count id (w_db w') < queued_count id (w_db w).
Proof.
  intros Hc Hr H. apply act_bind_ok in H as (u & w1 & H1 & H).
  assert (w1 = w) as ->.
  { unfold require_runtime_ingress in H1. destruct (ingress_reason _); [done|]. by injection H1. }
  clear H1. apply act_bind_ok in H as (o & w1 & H1 & H). apply on_store_ok in H1. destruct o as [x|]; [|done].
  pose proof (claim_count digest id _ _ _ Hr H1) as Hlt.
  apply act_bind_ok in H as (reason & w2 & [= <- <-] & H).
  destruct (ingress_reason _); [by apply act_bind_ok in H as (? & ? & _ & H)|].
  apply act_bind_ok in H as (r & w2 & H2 & H). unfold act_call in H2.
  pose proof (deliver_claimed_calm id x session d Hc w1) as Hd.
  destruct (deliver_claimed config x session d w1) as [r' w2']. injection H2 as -> ->. cbn [snd] in Hd.
  pose proof (settle_calm id id x r w2) as Hs. rewrite H in Hs. cbn [snd] in Hs. lia.
Qed.

Lemma loop_enough id mid mode session d native k n w :
  calm_runtime id → reach digest w → queued_count id (w_db w) < n →
  deliver_queued to_string config (n + k) native id mid mode session d w
  = deliver_queued to_string config n native id mid mode session d w.
Proof.
  intros Hc. revert w. induction n as [|n IH]; intros w Hr Hn; [lia|].
  cbn [Nat.add deliver_queued]. unfold mbind, act_bind, act_get.
  destruct (negb (bool_decide _)); [done|]. destruct (_ && _); [done|].
  pose proof (safe_deliver to_string digest config id session d w Hr) as Ha.
  destruct (deliver_next_message to_string config id session d w) as [[[m|]|e] w1] eqn:E; [|done|done].
  apply IH; [by eapply reach_advances|]. pose proof (deliver_count _ _ _ _ _ _ Hc Hr E). lia.
Qed.

(** The loop that delivers what is queued ahead of a message ends: each
    iteration takes one message of the task out of its queue for good, nobody
    queues another while the admission lock is held, so more iterations than there
    are stored messages change nothing. *)
Theorem delivery_loop_terminates id mid mode session d native k w :
  reachable digest (w_db w) → calm_runtime id →
  let bound := S (length (messages (w_db w))) in
  deliver_queued to_string config (bound + k) native id mid mode session d w
  = deliver_queued to_string config bound native id mid mode session d w.
Proof.
  intros Hr Hc bound. apply loop_enough; [done | done |]. unfold bound, queued_count.
  pose proof (filter_length_le (queued_for id) (messages (w_db w))). lia.
Qed.
End loop.

Lemma delivery_loop_terminates_witness :
  let run n := deliver_queued SinkDemo.to_string MessageDemo.config n true "10000000" "m1" "queue" "session"
                 (mk_deadline 2000) (MessageDemo.world History.steered) in
  run (3 + 5) = run 3 ∧ sent (w_calls (run 3).2) = ["m2"; "m1"].
Proof.
  intros run. split; [|by vm_compute].
  apply (delivery_loop_terminates SinkDemo.to_string History.digest MessageDemo.config "10000000" "m1" "queue"
    "session" (mk_deadline 2000) true 5 (MessageDemo.world History.steered));
    [apply History.steered_reachable | split; intros; intros w; apply le_n].
Defined.

(** ** The handoff of a drained daemon *)

Section handoff.
Context `{FileSystem} (create_scratch : Path → string → nat → CreateDir).
Context (to_string : Value → string) (from_str : string → result string Value)
  (decode_prepared : Value → option PreparedGeneralTask)
  (encode_prepared : PreparedGeneralTask → string) (preparation_text : PreparationError → string)
  (digest : TaskResult → string).
Context (config : SchedulerConfig) {R : Type} `{!ManagedRuntime R}.
Context (await_operation : ControlDeadline → World R → bool * World R).

(** What the daemon does while its drain is not aborted: submissions and sends,
    which may find it draining, the drain's own operations, and every other
    operation of the store. *)
Inductive daemon_step : DrainState * Db → DrainState * Db → Prop :=
| ds_submit now manifest admission d db :
    daemon_step (d, db) (d, (enqueue_general_with_admission create_scratch encode_prepared preparation_text
                               now d manifest admission db).2)
| ds_send id mid mode content d (w : World R) :
    daemon_step (d, w_db w)
      (d, w_db (send_message to_string from_str decode_prepared config await_operation (draining d)
                  id mid mode content w).2)
| ds_begin now group_empty d db : daemon_step (d, db) (begin_drain from_str decode_prepared now group_empty d db)
| ds_cancel d db :
    daemon_step (d, db) ((cancel_draining_tasks d db).1.2, (cancel_draining_tasks d db).2)
| ds_cancelled d db : daemon_step (d, db) (drain_cancel_done d, db)
| ds_claim owner active d db : daemon_step (d, db) ((claim_activation owner active d db).2, db)
| ds_other d db db' : store_step digest db db' → ¬ admits db db' → daemon_step (d, db) (d, db').

Definition handed_off (token : string) (s : DrainState * Db) : Prop :=
  draining s.1 = true ∧ activation_claim s.1 = Some token ∧ quiet s.2.

Lemma reap_row_quiet now task db :
  quiet db → quiet (reap_terminal_row from_str decode_prepared now task db).2.
Proof.
  assert (∀ db, quiet db → quiet (((_ ← store_op (reap_task now (task_id (rec_spec task))); mret tt) : Sched unit) db).2)
    as Hreap.
  { intros db' Hq. unfold mbind, sched_bind, store_op.
    pose proof (quiet_reap now (task_id (rec_spec task)) db' Hq) as Hr. by destruct (reap_task _ _ _) as [[] ?]. }
  intros Hq. unfold reap_terminal_row. destruct (task_route from_str decode_prepared task); [|by apply Hreap].
  unfold mbind at 1, sched_bind at 1, store_read. destruct (task_result _ _); [by apply Hreap | done].
Qed.

Lemma stragglers_quiet now group_empty db :
  quiet db → quiet (reap_terminal_stragglers from_str decode_prepared now group_empty db).
Proof.
  intros Hq. unfold reap_terminal_stragglers. destruct (terminal_unreaped_tasks db) as [l|]; [|done].
  revert db Hq. induction l as [|t l IH]; intros db Hq; [done|]. cbn [fold_left]. apply IH.
  destruct (straggler_reapable group_empty t); [by apply reap_row_quiet | done].
Qed.

Lemma send_drained d w id mid mode content :
  draining d = true →
  (send_message to_string from_str decode_prepared config await_operation (draining d) id mid mode content w).2 = w.
Proof.
  intros ->. unfold send_message, send_message_by. destruct (negb _); [done|].
  unfold mbind, act_bind, act_get. destruct (find_message mid _); [by destruct (_ && _) | done].
Qed.

Lemma claim_handed owner active d db token :
  handed_off token (d, db) → handed_off token ((claim_activation owner active d db).2, db).
Proof.
  intros (Hd & Hc & Hq). cbn in *. unfold claim_activation. destruct (negb _); [done|]. by rewrite Hc.
Qed.

Lemma step_handed token s s' : daemon_step s s' → handed_off token s → handed_off token s'.
Proof.
  intros Hs (Hd & Hc & Hq). destruct Hs; cbn [fst snd] in *.
  - unfold enqueue_general_with_admission. rewrite Hd. done.
  - by rewrite send_drained.
  - split_and!; [done | done | by apply stragglers_quiet].
  - pose proof (quiet_fence db Hq) as Hf. unfold cancel_draining_tasks.
    destruct (fence_queued_cancellation db) as [[u|e] db1]; [|done].
    by destruct (drain_cancel_running d).
  - done.
  - by apply claim_handed.
  - split_and!; [done | done |]. by destruct (store_step_quiet _ _ _ H0 Hq).
Qed.

(** C8. The activation of an update is handed out once, to a daemon with nothing
    left: it needs a drain, no runtime in the active table and every task terminal
    and reaped.  From then on, until the drain is aborted, every task stays terminal
    and reaped whatever is submitted, sent, resumed or stopped, the drain stays in
    force, and every later claim returns the same token or nothing. *)
Theorem activation_is_final owner active d db token d' s :
  claim_activation owner active d db = (Some token, d') → rtc daemon_step (d', db) s →
  active = 0 ∧ draining s.1 = true
  ∧ (∀ r, r ∈ tasks s.2 → phase r = Terminal ∧ is_Some (reaped_at r))
  ∧ ∀ owner' active', (claim_activation owner' active' s.1 s.2).1 = None
                      ∨ (claim_activation owner' active' s.1 s.2).1 = Some token.
Proof.
  intros Hcl Hs. unfold claim_activation in Hcl.
  destruct (ready_for_activation active d db) eqn:Er; [|done]. cbn [negb] in Hcl.
  unfold ready_for_activation in Er. apply andb_true_iff in Er as [Er Hall%quiet_all_reaped].
  apply andb_true_iff in Er as [Er Ha%Nat.eqb_eq]. apply andb_true_iff in Er as [Hd _].
  assert (handed_off token (d', db)) as Hh.
  { destruct (activation_claim d) eqn:Ec; injection Hcl as <- <-; done. }
  assert (handed_off token s) as (Hd2 & Hc2 & Hq2).
  { clear -Hh Hs. induction Hs; eauto using step_handed. }
  split_and!; [done | done | exact Hq2 |]. intros owner' active'. unfold claim_activation.
  destruct (negb _); [by left|]. rewrite Hc2. by right.
Qed.
End handoff.

(** ** Submitted tasks *)

Section submission.
Context `{FileSystem} (create_scratch : Path → string → nat → CreateDir).
Context (from_str : string → result string Value) (decode_prepared : Value → option PreparedGeneralTask)
  (encode_prepared : PreparedGeneralTask → string) (preparation_text : PreparationError → string).

(** The text serde writes for a prepared task is one it reads back. *)
Hypothesis prepared_codec : ∀ p, ∃ v,
  from_str (encode_prepared p) = Ok v ∧ get_str v "schema" = Some (prep_schema p) ∧ decode_prepared v = Some p.

Lemma enqueued_record now task db t db' :
  enqueue_task_authoritative now task db = (Ok t, db') →
  rec_spec t = task ∧ rec_phase t = Queued ∧ get_task (task_id task) db' = Ok (Some t).
Proof.
  unfold enqueue_task_authoritative. destruct (validate_task task); [|done]. intros Ht%immediate_ok.
  apply tx_bind_ok in Ht as (o & db1 & [Hq ->]%query_task_ok & Ht). destruct o; [done|].
  apply query_task_db_none in Hq.
  apply tx_bind_ok in Ht as (oc & db1 & [_ ->]%tx_get_ok & Ht). destruct oc; [done|].
  apply tx_bind_ok in Ht as (u & db1 & ->%tx_put_ok & Ht).
  apply tx_bind_ok in Ht as (u' & db2 & ->%insert_ledger_ok & Ht).
  apply tx_bind_ok in Ht as (o & db3 & [Hs ->]%query_task_ok & [Ho ->]%tx_lift_ok).
  destruct o as [t'|]; [|done]. injection Ho as ->. split_and!; [| | exact Hs].
  all: destruct (query_task_db_some _ _ _ Hs) as (r & Hr & Hp & _ & _ & _ & _ & _ & Hsp & _);
    simpl in Hr; unfold find_task in Hr, Hq;
    rewrite (find_app_none _ _ (new_row task now) Hq (String.eqb_refl _)) in Hr; injection Hr as <-; done.
Qed.

Lemma prepared_schema m p :
  prepare_direct_submission create_scratch m = Ok p → prep_schema p = GENERAL_TASK_SCHEMA ∧ admission p = None.
Proof.
  unfold prepare_direct_submission, validate_manifest. intros H0.
  destruct (schema m ≟ GENERAL_TASK_SCHEMA) eqn:E; [|done]. cbn [negb] in H0.
  destruct (invalid_identity m); [done|]. destruct (has_duplicates _ _); [done|].
  apply result_bind_ok in H0 as (u & _ & H0). apply result_bind_ok in H0 as (rep & _ & H0).
  apply result_bind_ok in H0 as (i & _ & H0). cbv zeta in H0.
  apply result_bind_ok in H0 as (roots & _ & H0). apply result_bind_ok in H0 as (v & _ & H0).
  injection H0 as <-. split; [by apply String.eqb_eq | done].
Qed.

(** A submitted task is queued under a fresh id with the caller's prompt
    verbatim, and its stored row routes back to what was prepared for it, with the
    agent it was admitted for; a draining daemon submits nothing. *)
Theorem submitted_task_routes_back now d manifest identity db t db' :
  enqueue_general_with_admission create_scratch encode_prepared preparation_text now d manifest identity db
    = (Ok t, db') →
  draining d = false
  ∧ ∃ p, task_route from_str decode_prepared t = Ok p ∧ admission p = identity
      ∧ task_agent from_str decode_prepared t = default "zcode" (agent <$> identity)
      ∧ initial_prompt (rec_spec t) = prompt manifest ∧ rec_phase t = Queued
      ∧ get_task (prep_agent_id p) db' = Ok (Some t).
Proof.
  unfold enqueue_general_with_admission. intros H0. destruct (draining d); [done|]. split; [done|].
  apply sched_bind_ok in H0 as (id & db1 & _ & H0).
  apply sched_bind_ok in H0 as (p0 & db2 & Hp & H0).
  assert (prepare_direct_submission create_scratch (named id manifest) = Ok p0) as Ep.
  { unfold sched_lift in Hp. destruct (prepare_direct_submission _ _) as [p'|]; [|done]. by injection Hp as ->. }
  destruct (prepared_schema _ _ Ep) as [Hschema Hnone].
  apply sched_bind_ok in H0 as (p & db3 & Hp' & H0%store_op_ok).
  assert (prep_schema p = GENERAL_TASK_SCHEMA ∧ admission p = identity) as [Hs Ha].
  { destruct identity as [i|]; cbn in Hp'; injection Hp' as <- _; done. }
  destruct (enqueued_record _ _ _ _ _ H0) as (Hsp & Hph & Hg).
  assert (task_route from_str decode_prepared t = Ok p) as Hroute.
  { destruct (prepared_codec p) as (v & Ev & Esch & Edec). unfold task_route. rewrite Hsp. cbn [submitted
      prepared_launch_json workspace_path]. rewrite Ev, Esch, Hs, String.eqb_refl, Edec.
    by rewrite String.eqb_refl. }
  exists p. split_and!; [done | done | | by rewrite Hsp | done | exact Hg].
  unfold task_agent. rewrite Hroute, Ha. by destruct identity.
Qed.
End submission.

(** ** Witnesses *)

(** A codec for prepared tasks: the bits of a number that determines the task. *)
Module AdmissionDemo.

#[global] Instance PermissionMode_countable : Countable PermissionMode.
Proof.
  refine (inj_countable' (λ m, match m with Build => 0 | EditMode => 1 | Plan => 2 | Yolo => 3 end)
            (λ n, match n with 0 => Build | 1 => EditMode | 2 => Plan | _ => Yolo end) _).
  by intros [].
Defined.

#[global] Instance AdmissionIdentity_eq_dec : EqDecision AdmissionIdentity.
Proof. solve_decision. Defined.
#[global] Instance PreparedWorkspace_eq_dec : EqDecision PreparedWorkspace.
Proof. solve_decision. Defined.
#[global] Instance PreparedGeneralTask_eq_dec : EqDecision PreparedGeneralTask.
Proof. solve_decision. Defined.

#[global] Instance AdmissionIdentity_countable : Countable AdmissionIdentity.
Proof.
  refine (inj_countable
    (λ i, [encode (agent i); encode (config_revision i); encode (adapter_version i); encode (model i);
           encode (model_source i); encode (effort i); encode (developer_instructions i)])
    (λ l, match l with
          | [a; b; c; d; e; f; g] =>
              a ← decode a; b ← decode b; c ← decode c; d ← decode d; e ← decode e; f ← decode f; g ← decode g;
              Some (mk_admission a b c d e f g)
          | _ => None
          end) _).
  intros []. by rewrite !decode_encode.
Defined.

#[global] Instance PreparedGeneralTask_countable : Countable PreparedGeneralTask.
Proof.
  refine (inj_countable
    (λ p, [encode (admission p); encode (prep_schema p); encode (prep_agent_id p); encode (prep_repository p);
           encode (ws_path (workspace p)); encode (ws_scratch_root (workspace p));
           encode (prep_permission_mode p); encode (prep_write_manifest p)])
    (λ l, match l with
          | [a; b; c; d; e; f; g; h] =>
              a ← decode a; b ← decode b; c ← decode c; d ← decode d; e ← decode e; f ← decode f; g ← decode g;
              h ← decode h; Some (mk_prepared a b c d (mk_workspace e f) g h)
          | _ => None
          end) _).
  intros [? ? ? ? [] ? ?]. by rewrite !decode_encode.
Defined.

Fixpoint bits (p : positive) : string :=
  match p with xH => "" | xO p => String "0" (bits p) | xI p => String "1" (bits p) end.
Fixpoint unbits (s : string) : positive :=
  match s with
  | EmptyString => xH
  | String c s => if Ascii.eqb c "0" then xO (unbits s) else xI (unbits s)
  end.
Lemma unbits_bits p : unbits (bits p) = p.
Proof. induction p as [p IH|p IH|]; simpl; by rewrite ?IH. Qed.

Definition encode_prepared (p : PreparedGeneralTask) : string := bits (encode p).
Definition decode_text (s : string) : option PreparedGeneralTask := decode (unbits s).
Definition from_str (s : string) : result string Value :=
  match decode_text s with
  | Some p => Ok (VObject [("schema", VString (prep_schema p)); ("task", VString s)])
  | None => Err "not a task"
  end.
Definition decode_prepared (v : Value) : option PreparedGeneralTask := get_str v "task" ≫= decode_text.

Lemma codec p : ∃ v,
  from_str (encode_prepared p) = Ok v ∧ get_str v "schema" = Some (prep_schema p) ∧ decode_prepared v = Some p.
Proof.
  assert (decode_text (encode_prepared p) = Some p) as E.
  { unfold decode_text, encode_prepared. by rewrite unbits_bits, decode_encode. }
  exists (VObject [("schema", VString (prep_schema p)); ("task", VString (encode_prepared p))]).
  unfold from_str. rewrite E. split_and!; [done | done | exact E].
Qed.

Definition text (_ : PreparationError) : string := "invalid".
Definition submit (d : DrainState) (db : Db) : result SchedulerError TaskRecord * Db :=
  @enqueue_general_with_admission (Tree.fs Tree.sample) Submission.create_scratch encode_prepared text 300 d
    (Submission.manifest Build ["in"]) (Some (mk_admission "codex" 1 "1.0" None "default" None None)) db.
Definition reaped : Db := (reap_task 120 "10000000" History.cancelled).2.
Definition drained : DrainState := mk_drain true false false None.
End AdmissionDemo.

Lemma submitted_task_routes_back_witness :
  let r := @enqueue_general_with_admission (Tree.fs Tree.sample) Submission.create_scratch
             AdmissionDemo.encode_prepared AdmissionDemo.text 300 drain_new (Submission.manifest Build ["in"])
             (Some (mk_admission "codex" 1 "1.0" None "default" None None)) empty_db in
  ∃ t, r.1 = Ok t ∧ task_agent AdmissionDemo.from_str AdmissionDemo.decode_prepared t = "codex".
Proof.
  intros r. destruct r.1 as [t|] eqn:E; [|by vm_compute in E]. exists t. split; [done|].
  assert (r = (Ok t, r.2)) as Er by (rewrite <- E; apply surjective_pairing).
  destruct (@submitted_task_routes_back (Tree.fs Tree.sample) Submission.create_scratch AdmissionDemo.from_str
    AdmissionDemo.decode_prepared AdmissionDemo.encode_prepared AdmissionDemo.text AdmissionDemo.codec 300
    drain_new (Submission.manifest Build ["in"])
    (Some (mk_admission "codex" 1 "1.0" None "default" None None)) empty_db t r.2 Er)
    as (_ & p & _ & _ & H & _).
  exact H.
Defined.

Lemma activation_is_final_witness :
  let c := claim_activation "owner" 0 AdmissionDemo.drained AdmissionDemo.reaped in
  let s := (c.2, (AdmissionDemo.submit c.2 AdmissionDemo.reaped).2) in
  c.1 = Some "owner-activation" ∧ ∀ r, r ∈ tasks s.2 → phase r = Terminal ∧ is_Some (reaped_at r).
Proof.
  intros c s. split; [by vm_compute|].
  assert (c = (Some "owner-activation", c.2)) as Ec by (by vm_compute).
  apply (@activation_is_final (Tree.fs Tree.sample) Submission.create_scratch SinkDemo.to_string
    AdmissionDemo.from_str AdmissionDemo.decode_prepared AdmissionDemo.encode_prepared AdmissionDemo.text
    History.digest MessageDemo.config unit _ MessageDemo.lock_free "owner" 0 AdmissionDemo.drained
    AdmissionDemo.reaped "owner-activation" c.2 s Ec).
  apply rtc_once. apply (ds_submit Submission.create_scratch SinkDemo.to_string AdmissionDemo.from_str
    AdmissionDemo.decode_prepared AdmissionDemo.encode_prepared AdmissionDemo.text History.digest
    MessageDemo.config MessageDemo.lock_free 300 (Submission.manifest Build ["in"])
    (Some (mk_admission "codex" 1 "1.0" None "default" None None)) c.2 AdmissionDemo.reaped).
Defined.
