(* ===== verification/ControlProps.v ===== *)
(** * Properties of control

    Deadlines leave a cleanup its share; a task that is closed through its runtime
    ends, as completed only after a natural completion with visible text, as
    cancelled if anyone asked for that, and reaped only on proof; an answer that
    lost a race is reported with the decision that was asked for. *)

From stdpp Require Import relations.
From S2P Require Import Prelude RustStr Utf8 Json RuntimeEvents ActivityTracker General StoreRecords StoreSql StoreOps StoreView StoreRefine StoreProps StoreKeeps RuntimeOwner RuntimeLifecycle Sink SinkProps Diagnostics Recovery RecoveryProps Control Messages MessageProps.

(** ** Deadlines *)

(** The phases of a control operation fit into its deadline.  A runtime phase
    gets a positive timeout; when it ends within it, the cleanup that follows still
    has a grace of at least a sixth of what was left at the start, or the configured
    grace if that is less; and a cleanup that takes up to three graces ends by the
    deadline. *)
Theorem control_phases_fit grace now d timeout later :
  (0 ≤ grace ≤ duration_max)%Z → runtime_phase grace now d = Some timeout →
  (now ≤ later ≤ now + timeout)%Z →
  let cleanup := cleanup_grace grace later d in
  (0 < timeout ∧ now + timeout ≤ expires_at d
   ∧ Z.min grace ((expires_at d - now) / 6) ≤ cleanup ≤ grace
   ∧ later + 3 * cleanup ≤ expires_at d)%Z.
Proof.
  intros Hg Ht Hl cleanup. unfold runtime_phase, runtime_phase_deadline, remaining in Ht.
  destruct (Z.ltb_spec now (expires_at d)) as [Hnow|]; [|done].
  set (rest := (expires_at d - now)%Z) in *.
  set (reserve := Z.min (default rest (checked_triple grace)) (rest / 2)) in *.
  destruct (Z.ltb now (expires_at d - reserve)) eqn:Hd; [|done]. rewrite Hd in Ht.
  apply Z.ltb_lt in Hd. injection Ht as <-.
  assert (0 < rest)%Z as Hrest by (unfold rest; lia).
  assert (0 ≤ reserve ≤ rest / 2)%Z as Hres.
  { unfold reserve, checked_triple. pose proof (Z.div_pos rest 2). destruct (Z.leb _ _); cbn; lia. }
  assert (Z.min (3 * grace) (rest / 2) ≤ reserve)%Z as Hmin.
  { unfold reserve, checked_triple. destruct (Z.leb _ _); cbn; [lia|].
    pose proof (Z.div_le_upper_bound rest 2 rest). lia. }
  unfold cleanup, cleanup_grace, remaining.
  pose proof (Z.div_mod rest 2 ltac:(lia)) as M2. pose proof (Z.mod_pos_bound rest 2 ltac:(lia)) as B2.
  pose proof (Z.div_mod rest 6 ltac:(lia)) as M6. pose proof (Z.mod_pos_bound rest 6 ltac:(lia)) as B6.
  destruct (Z.ltb_spec later (expires_at d)) as [Hlater|Hlate].
  - set (left' := (expires_at d - later)%Z) in *.
    pose proof (Z.div_mod left' 3 ltac:(lia)) as M3. pose proof (Z.mod_pos_bound left' 3 ltac:(lia)) as B3.
    assert (reserve ≤ left')%Z by lia. split_and!; lia.
  - assert (reserve = 0)%Z by lia. split_and!; lia.
Qed.

Lemma control_phases_fit_witness :
  (0 < 1400 ∧ 0 + 1400 ≤ 2000
   ∧ Z.min 200 (2000 / 6) ≤ cleanup_grace 200 1400 (mk_deadline 2000) ≤ 200
   ∧ 1400 + 3 * cleanup_grace 200 1400 (mk_deadline 2000) ≤ 2000)%Z.
Proof.
  apply (control_phases_fit 200 0 (mk_deadline 2000) 1400 1400);
    [by vm_compute | by vm_compute | lia].
Defined.

(** ** How a task ends *)

Definition rows (id : string) (P : TaskRow → Prop) (db : Db) : Prop :=
  ∀ r, r ∈ tasks db → row_id r = id → P r.

(** Predicates on the row of a task that recording events and storing a result with
    an outcome in [allowed] keep. *)
Section rows.
Context (id : string) (P : TaskRow → Prop) (allowed : TaskOutcome → Prop).
Hypothesis keeps_event : ∀ seq now turn r, P r → P (event_row seq now turn r).
Hypothesis keeps_terminal : ∀ now o code m r, allowed o → P r → P (terminal_row now o code m r).
Hypothesis cancelled_allowed : allowed Cancelled.
Context (digest : TaskResult → string).

Lemma keeps_rows_tasks Q f :
  (∀ r, row_id (f r) = row_id r) → (∀ r, P r → P (f r)) → keeps (rows id P) (update_tasks Q f).
Proof.
  intros Hid Hf db n db' Hq (_ & -> & _)%update_tasks_ok r Hr E. simpl in Hr.
  apply update_rows_in in Hr as (x & Hx & ->). destruct (Q x); [|by apply Hq].
  apply Hf, Hq; [done|]. by rewrite <- E, Hid.
Qed.

Lemma keeps_rows_same {A} (t : Tx A) :
  (∀ db a db', t db = Ok (a, db') → tasks db' = tasks db) → keeps (rows id P) t.
Proof. intros H db a db' Hq Ht r. rewrite (H _ _ _ Ht). apply Hq. Qed.

Lemma effective_allowed close stop o : allowed o → allowed (effective_outcome close stop o).
Proof. unfold effective_outcome. by destruct (_ && _). Qed.

Ltac rows_leaf :=
  first
    [ apply keeps_rows_tasks; [done | intros r Hr; auto using effective_allowed]
    | apply keeps_rows_same; intros ? ? ? H; first
        [ by apply insert_ledger_ok in H as -> | by apply insert_event_ok in H as ->
        | by apply settle_ok in H as -> | by apply check_result_ok in H as (-> & _)
        | revert H; unfold insert_result; destruct (is_some _); [done | by intros [= <- <-]] ] ].

Lemma keeps_rows_apply now i epoch from close stop t :
  allowed (tu_outcome t) → keeps (rows id P) (apply_terminal now i epoch from close stop t).
Proof. intros Ho. unfold apply_terminal. keeps_walk ltac:(rows_leaf). Qed.

Lemma append_rows now w db :
  w_terminal w = None → rows id P db → rows id P (append_lifecycle now w db).2.
Proof.
  intros Hw Hq. apply (after_commit_keeps (rows id P)), (immediate_keeps (rows id P)); [|exact Hq].
  rewrite Hw. keeps_walk ltac:(rows_leaf).
Qed.

Lemma result_rows now i result reason fm db :
  allowed (res_outcome result) → rows id P db →
  rows id P (store_task_result_with_reason digest now i result reason fm db).2.
Proof.
  intros Ho Hq. unfold store_task_result_with_reason. destruct (validate_result result); [|done].
  apply (immediate_keeps (rows id P)); [|exact Hq].
  keeps_walk ltac:(first [rows_leaf | apply keeps_rows_apply, Ho]).
Qed.

Lemma precedence_rows now i result reason fm db :
  allowed (res_outcome result) → rows id P db →
  rows id P (store_result_with_cancel_precedence digest now i result reason fm db).2.
Proof.
  intros Ho Hq. unfold store_result_with_cancel_precedence.
  pose proof (result_rows now i result reason fm db Ho Hq) as H1.
  destruct (store_task_result_with_reason _ _ _ _ _ _ db) as [[u|e] db1]; [done|]. cbn [snd] in H1.
  destruct e; try done. destruct (get_task i db1) as [[t|]|]; try done.
  destruct (_ && _ && _); [|done]. by apply result_rows.
Qed.

Context (to_string : Value → string) (from_str : string → result string Value)
  (sqlite_text : SqliteError → string).

Definition reap_keeps (b : bool) : Prop := b = true → ∀ now r, P r → P (reaped_row now r).

Lemma reap_rows now i db : reap_keeps true → rows id P db → rows id P (reap_task now i db).2.
Proof.
  intros Hp Hq. apply (after_commit_keeps (rows id P)), (immediate_keeps (rows id P)); [|exact Hq].
  keeps_walk ltac:(first [rows_leaf | apply keeps_rows_tasks; [done | intros r Hr; by apply Hp]]).
Qed.

Lemma finish_general_rows now terminal c s db :
  allowed (task_outcome (outcome_ c)) →
  reap_keeps (cleaned c && terminal_proves_process_group_reaped terminal) →
  rows id P db → rows id P (finish_general to_string digest now terminal c s db).2.
Proof.
  intros Ho Hp Hq. unfold finish_general. destruct (first_error (write_state s)); [done|].
  destruct (terminal_written (write_state s)); [done|].
  pose proof (append_rows now (record_write to_string s (terminal_sequence (write_state s))
    (EventTerminal terminal) None None) db eq_refl Hq) as H1.
  destruct (append_lifecycle _ _ db) as [[u|e] db1]; [|done]. cbn [snd] in H1. unfold persist_general_result.
  pose proof (precedence_rows now (sink_agent s) (completion_result c) (completion_reason c) (failure_message c)
    db1 Ho H1) as H2.
  destruct (store_result_with_cancel_precedence _ _ _ _ _ _ db1) as [[v|e] db2]; [|done]. cbn [snd] in H2.
  destruct (cleaned c && terminal_proves_process_group_reaped terminal); [|done].
  pose proof (reap_rows now (sink_agent s) db2 Hp H2) as H3.
  by destruct (reap_task now (sink_agent s) db2) as [[o|e] db3].
Qed.

Lemma completion_rows now i c reap db :
  allowed (task_outcome (outcome_ c)) → allowed ResultInvalid → reap_keeps reap → rows id P db →
  rows id P (persist_general_completion to_string from_str sqlite_text digest now i c reap db).2.
Proof.
  intros Ho Hinv Hp Hq. unfold persist_general_completion, persist_general_result.
  pose proof (precedence_rows now i (completion_result c) (completion_reason c) (failure_message c) db Ho Hq) as H1.
  destruct (store_result_with_cancel_precedence _ _ _ _ _ _ db) as [persisted db1]. cbn [snd] in H1.
  set (step := match persisted with Ok _ => _ | Err e => _ end).
  assert (rows id P (step db1).2) as H2.
  { unfold step. destruct persisted as [u|e]; [done|].
    unfold mbind at 1, sched_bind at 1, store_read. destruct (task_result i db1); [done|]. unfold store_op.
    match goal with |- context [store_result_with_cancel_precedence _ _ _ ?res ?reason ?m db1] =>
      pose proof (precedence_rows now i res reason m db1 Hinv H1) as H3 end.
    by destruct (store_result_with_cancel_precedence _ _ _ _ _ _ db1) as [[] ?]. }
  unfold mbind at 1, sched_bind at 1. destruct (step db1) as [[u|e] db2]; [|done]. cbn [snd] in H2.
  set (reaping := (if reap then _ else _) : Sched unit).
  assert (rows id P (reaping db2).2) as H3.
  { unfold reaping. destruct reap; [|done]. unfold mbind, sched_bind, store_op.
    pose proof (reap_rows now i db2 Hp H2) as H3. by destruct (reap_task now i db2) as [[] ?]. }
  unfold mbind at 1, sched_bind at 1. destruct (reaping db2) as [[v|e] db3]; [|done]. cbn [snd] in H3.
  unfold mbind, sched_bind, required_task, mbind, sched_bind, store_query.
  by destruct (get_task i db3) as [[t|]|].
Qed.
End rows.

Lemma only_row (P : TaskRow → Prop) id db r :
  db_inv db → find_task id (tasks db) = Some r → P r → rows id P db.
Proof.
  intros Hi Hr HP x Hx E. pose proof (find_task_in _ _ _ (gl_ids _ (di_glob _ Hi)) Hx E). congruence.
Qed.

Lemma rows_find (P : TaskRow → Prop) id db r : rows id P db → find_task id (tasks db) = Some r → P r.
Proof. intros H Hr. apply find_task_id in Hr as [E Hin]. by apply H. Qed.

Section ending.
Context (to_string : Value → string) (from_str : string → result string Value)
  (sqlite_text : SqliteError → string) (digest : TaskResult → string)
  (debug_terminal : RuntimeTerminal → string).
Context {R : Type} `{!ManagedRuntime R}.

Notation routed := (finish_routed_terminal to_string from_str sqlite_text digest debug_terminal).

(** What a routed completion can be. *)
Lemma routed_completed id terminal natural forced cause w c (w' : World R) :
  (∀ o reason, forced = Some (o, reason) → o ≠ CCompleted) →
  routed_completion to_string from_str debug_terminal id terminal natural forced cause w = (c, w') →
  w_db w' = w_db w ∧ w_latch w' = w_latch w ∧ write_state (w_sink w') = write_state (w_sink w)
  ∧ sink_agent (w_sink w') = sink_agent (w_sink w)
  ∧ (outcome_ c = CCompleted →
       natural = true ∧ (∃ o, terminal = TCompleted o)
       ∧ ∃ text, (take_terminal_text (activity (w_sink w))).1 = Visible text).
Proof.
  intros Hf H. unfold routed_completion in H.
  destruct (default _ forced) as [o reason] eqn:Eo.
  unfold draft_completion in H. destruct (natural_completed natural terminal) eqn:En.
  - unfold take_text in H. destruct (take_terminal_text _) as [text act] eqn:Et. injection H as <- <-.
    split_and!; [done.. |]. intros Hc. unfold natural_completed in En. apply andb_true_iff in En as [-> En].
    destruct terminal; try done. split_and!; [done | eauto|]. destruct text; [eauto | done].
  - assert (o ≠ CCompleted) as Ho.
    { destruct forced as [[o' reason']|]; cbn in Eo; injection Eo as <- <-; [by eapply Hf|].
      unfold natural_completed in En. by destruct terminal, natural. }
    destruct (terminal_proves_process_group_reaped terminal); injection H as <- <-;
      (split_and!; [done.. | by intros Hc]).
Qed.

(** The row predicates a routed terminal keeps. *)
Lemma routed_rows id (P : TaskRow → Prop) (allowed : TaskOutcome → Prop) terminal natural forced cause w c w1 :
  (∀ seq now turn r, P r → P (event_row seq now turn r)) →
  (∀ now o code m r, allowed o → P r → P (terminal_row now o code m r)) →
  allowed Cancelled → allowed ResultInvalid →
  routed_completion to_string from_str debug_terminal id terminal natural forced cause
    (put_latch (terminalize (w_latch w)) w) = (c, w1) →
  w_db w1 = w_db w → allowed (task_outcome (outcome_ c)) →
  reap_keeps P (cleaned c && terminal_proves_process_group_reaped terminal) →
  rows id P (w_db w) → rows id P (w_db (routed id terminal natural forced cause w).2).
Proof.
  intros H1 H2 H3 H4 Hc Hdb Ho Hp Hq. unfold finish_routed_terminal. rewrite Hc.
  pose proof (finish_general_rows id P allowed H1 H2 H3 digest to_string (wall (w_runtime w1)) terminal c
    (w_sink w1) (w_db w1) Ho Hp) as Hfin. rewrite Hdb in Hfin |- *. specialize (Hfin Hq).
  destruct (finish_general _ _ _ _ _ _ (w_db w)) as [[[q|e] s] db]; cbn [snd] in Hfin; [done|].
  unfold at_wall, on_store. cbn [w_db put_sink put_db w_runtime].
  pose proof (completion_rows id P allowed H2 H3 digest to_string from_str sqlite_text (wall (w_runtime w1)) id c
    (cleaned c && terminal_proves_process_group_reaped terminal) db Ho H4 Hp Hfin) as Hend.
  by destruct (persist_general_completion _ _ _ _ _ _ _ _ db).
Qed.

Lemma routed_ends_task id terminal natural forced cause w p w' r :
  reachable digest (w_db w) → find_task id (tasks (w_db w)) = Some r →
  sink_agent (w_sink w) = id → terminal_written (write_state (w_sink w)) = false →
  (∀ o reason, forced = Some (o, reason) → o ≠ CCompleted) →
  routed id terminal natural forced cause w = (Ok p, w') →
  ends id (w_db w') ∧ lc_phase (w_latch w') = LTerminal.
Proof.
  intros Hr Ht Hs Hw Hf H. unfold finish_routed_terminal in H. set (w0 := put_latch _ w) in H.
  destruct (routed_completion _ _ _ id terminal natural forced cause w0) as [c w1] eqn:Ec.
  destruct (routed_completed _ _ _ _ _ _ _ _ Hf Ec) as (Hdb & Hl & Hws & Hag & _).
  assert (lc_phase (w_latch w1) = LTerminal) as Hterm by (by rewrite Hl).
  change (w_db w0) with (w_db w) in Hdb. change (w_sink w0) with (w_sink w) in Hws, Hag.
  pose proof (finish_general_history digest to_string (wall (w_runtime w1)) terminal c (w_sink w1) (w_db w1)) as Hh.
  destruct (finish_general _ _ _ _ _ _ _) as [[[q|e] s] db] eqn:E; cbn [snd] in Hh; rewrite Hdb in *.
  - injection H as <- <-. split; [|done]. rewrite <- Hs, <- Hag in *. rewrite <- Hws in Hw.
    destruct (finish_ends_and_reaps_honestly digest to_string _ _ _ _ _ _ _ _ _ Hr Ht Hw E)
      as (_ & _ & r' & Hr' & Hp' & _). by exists r'.
  - unfold at_wall, on_store in H. cbn [w_db put_sink put_db w_runtime] in H.
    destruct (persist_general_completion _ _ _ _ _ _ _ _ db) as [res db2] eqn:E2. injection H as -> <-.
    split; [|done]. eapply completion_ends; [|exact E2]. by eapply reachable_inv, rtc_trans.
Qed.

(** A task is completed by a routed terminal only naturally, and with text. *)
Lemma routed_completes id terminal natural forced cause w r r' :
  reachable digest (w_db w) → find_task id (tasks (w_db w)) = Some r → phase r ≠ Terminal →
  (∀ o reason, forced = Some (o, reason) → o ≠ CCompleted) →
  find_task id (tasks (w_db (routed id terminal natural forced cause w).2)) = Some r' →
  StoreRecords.task_outcome r' = Some Completed →
  natural = true ∧ (∃ o, terminal = TCompleted o)
  ∧ ∃ text, (take_terminal_text (activity (w_sink w))).1 = Visible text.
Proof.
  intros Hr Ht Hlive Hf Hr' Hcomp. pose proof (reachable_inv _ _ Hr) as Hi.
  destruct (routed_completion to_string from_str debug_terminal id terminal natural forced cause
    (put_latch (terminalize (w_latch w)) w)) as [c w1] eqn:Ec.
  destruct (routed_completed _ _ _ _ _ _ _ _ Hf Ec) as (Hdb & _ & _ & _ & Hc).
  destruct (decide (outcome_ c = CCompleted)) as [E|Hne]; [exact (Hc E)|]. exfalso.
  assert (rows id (λ x, StoreRecords.task_outcome x ≠ Some Completed)
    (w_db (routed id terminal natural forced cause w).2)) as Hrows.
  { eapply (routed_rows id (λ x, StoreRecords.task_outcome x ≠ Some Completed) (λ o, o ≠ Completed)); try exact Ec;
      try done.
    - intros now o code m x Ho _. cbn. congruence.
    - by destruct (outcome_ c).
    - by intros _ now x Hx.
    - apply (only_row _ _ _ r Hi Ht). destruct (find_task_id _ _ _ Ht) as [_ Hin].
      by rewrite (row_check_live _ (ri_check _ _ _ (reachable_row _ _ Hi Hin)) Hlive). }
  exact (rows_find _ _ _ _ Hrows Hr' Hcomp).
Qed.

(** C6. A task closed through its runtime ends: its row is terminal and its latch
    closed for good.  It is completed only by a natural completion that left visible
    text; it is cancelled if a stop or close had been asked for; and it is newly
    marked as reaped only if the terminal proves that the process group is gone. *)
Theorem routed_terminal_ends id terminal natural forced cause w p w' r :
  reachable digest (w_db w) → find_task id (tasks (w_db w)) = Some r → phase r ≠ Terminal →
  sink_agent (w_sink w) = id → terminal_written (write_state (w_sink w)) = false →
  (∀ o reason, forced = Some (o, reason) → o ≠ CCompleted) →
  routed id terminal natural forced cause w = (Ok p, w') →
  ∃ r', find_task id (tasks (w_db w')) = Some r' ∧ phase r' = Terminal
    ∧ lc_phase (w_latch w') = LTerminal
    ∧ (flagged r = true → StoreRecords.task_outcome r' = Some Cancelled)
    ∧ (StoreRecords.task_outcome r' = Some Completed →
         natural = true ∧ (∃ o, terminal = TCompleted o)
         ∧ ∃ text, (take_terminal_text (activity (w_sink w))).1 = Visible text)
    ∧ (reaped_at r' ≠ reaped_at r → terminal_proves_process_group_reaped terminal = true).
Proof.
  intros Hr Ht Hlive Hs Hw Hf H. pose proof (reachable_inv _ _ Hr) as Hi.
  destruct (routed_ends_task _ _ _ _ _ _ _ _ _ Hr Ht Hs Hw Hf H) as [(r' & Hr' & Hp') Hl].
  exists r'. split_and!; [done | done | done | | |].
  - intros Hfl. pose proof (safe_routed to_string from_str sqlite_text digest debug_terminal id terminal natural
      forced cause w Hr) as Ha. rewrite H in Ha.
    destruct (steps_preserve digest (λ x y, cancel_bound x → cancel_bound y) (w_db w) (w_db w') id r)
      as (r2 & Hr2 & Hc); eauto using view_step_cancel, advances_history.
    assert (r2 = r') as -> by congruence. apply Hc; [by split | done].
  - intros Hcomp. by apply (routed_completes id terminal natural forced cause w r r'); rewrite ?H.
  - intros Hre. destruct (terminal_proves_process_group_reaped terminal) eqn:Ep; [done|]. exfalso. apply Hre.
    destruct (routed_completion to_string from_str debug_terminal id terminal natural forced cause
      (put_latch (terminalize (w_latch w)) w)) as [c w1] eqn:Ec.
    destruct (routed_completed _ _ _ _ _ _ _ _ Hf Ec) as (Hdb & _).
    assert (rows id (λ x, reaped_at x = reaped_at r) (w_db w')) as Hrows.
    { replace w' with (routed id terminal natural forced cause w).2 by (by rewrite H).
      eapply (routed_rows id (λ x, reaped_at x = reaped_at r) (λ _, True)); try exact Ec; try done.
      - rewrite Ep, andb_false_r. by intros ?.
      - by apply (only_row _ _ _ r Hi Ht). }
    exact (rows_find _ _ _ _ Hrows Hr').
Qed.
End ending.

Lemma routed_terminal_ends_witness :
  let out := finish_routed_terminal SinkDemo.to_string MessageDemo.from_str SinkDemo.sqlite_text History.digest
               MessageDemo.debug "10000000" (TStopped (Terminated (Exited (Some 0%Z)))) false
               (Some (CCancelled, "CANCELLED")) None (MessageDemo.world History.stopped) in
  out.1 = Ok Terminal
  ∧ ∃ r', find_task "10000000" (tasks (w_db out.2)) = Some r'
          ∧ StoreRecords.task_outcome r' = Some Cancelled.
Proof.
  intros out. assert (out.1 = Ok Terminal) as E by (by vm_compute). split; [exact E|].
  assert (out = (Ok Terminal, out.2)) as Eo by (rewrite <- E; apply surjective_pairing).
  destruct (routed_terminal_ends SinkDemo.to_string MessageDemo.from_str SinkDemo.sqlite_text History.digest
    MessageDemo.debug "10000000" (TStopped (Terminated (Exited (Some 0%Z)))) false
    (Some (CCancelled, "CANCELLED")) None (MessageDemo.world History.stopped) Terminal out.2
    (History.row_of History.stopped) History.stopped_reachable) as (r' & H1 & _ & _ & H2 & _);
    [by vm_compute | by vm_compute | done | done | by intros o reason [= <- _] | exact Eo |].
  exists r'. split; [exact H1|]. apply H2. by vm_compute.
Defined.

(** ** Answers that lose a race *)

Lemma act_bind_step {R A B} (m : Act R A) (f : A → Act R B) w a w1 :
  m w = (Ok a, w1) → (m ≫= f) w = f a w1.
Proof. unfold mbind, act_bind. by intros ->. Qed.

Section race.
Context (to_string : Value → string) (from_str : string → result string Value)
  (sqlite_text : SqliteError → string) (digest : TaskResult → string)
  (debug_terminal : RuntimeTerminal → string) (config : SchedulerConfig).
Context {R : Type} `{!ManagedRuntime R}.
Context (await_operation : ControlDeadline → World R → bool * World R).
Context (start_ready : World R → World R).

(** An answer that waited for the operation lock while another answer went
    through is reported with its own decision as the effective one, and as not
    overridden; the stored answer, which a repeated call reports, is the other. *)
Theorem raced_answer_misreported epoch id p decision content d w w1 q other job rest :
  await_operation d w = (true, w1) → ingress_reason (w_latch w1) = None →
  get_task id (w_db w1) = Ok (Some job) → answerable epoch (Some job) = true →
  remaining (now_clock w1) d = Some rest →
  pending_request id (request_id p) (w_db w1) = Some q → p_state q = PResponded →
  p_decision q = Some other → other ≠ decision →
  let '(raced, w') := respond_pending to_string from_str sqlite_text digest debug_terminal config
                        await_operation start_ready epoch id p decision content d w in
  (∃ out, raced = Ok out ∧ ro_disposition out = AlreadyResponded
          ∧ effective_decision out = decision ∧ policy_overrode out = false)
  ∧ w' = w1
  ∧ ∃ again, settled_outcome q decision = Ok again ∧ ro_disposition again = AlreadyResponded
             ∧ effective_decision again = other ∧ policy_overrode again = true.
Proof.
  intros Hlock Hin Hget Hans Htime Hq Hst Hdec Hne.
  assert (claim_pending_response_if_accepting id (request_id p) decision content (w_db w1)
          = (Ok (NotPending PResponded), w_db w1)) as Hclaim.
  { unfold pending_request in Hq. destruct (find_pending (request_id p) (pending_requests (w_db w1))) as [x|] eqn:Ef;
      [|done]. destruct (p_agent x ≟ id) eqn:Ea; [|done]. injection Hq as ->.
    unfold claim_pending_response_if_accepting, immediate, mbind, tx_bind, tx_get. rewrite Ef, Ea, Hst. done. }
  assert (put_db (w_db w1) w1 = w1) as Hput by (by destruct w1).
  unfold respond_pending.
  rewrite (act_bind_step _ _ _ tt w1) by (by unfold lock_operation, mbind, act_bind, act_call; rewrite Hlock).
  rewrite (act_bind_step _ _ _ tt w1) by (by unfold require_runtime_ingress; rewrite Hin).
  rewrite (act_bind_step _ _ _ (Some job) w1) by (by unfold on_store, store_query; rewrite Hget, Hput).
  rewrite Hans. cbn [negb].
  rewrite (act_bind_step _ _ _ tt w1) by (by unfold require_time; rewrite Htime).
  rewrite (act_bind_step _ _ _ (NotPending PResponded) w1)
    by (by unfold on_store, store_op; rewrite Hclaim, Hput).
  cbn [mret act_ret].
  split_and!.
  - by eexists.
  - done.
  - unfold settled_outcome. rewrite Hdec, Hst. eexists. split_and!; [done | done | done |]. cbn.
    destruct (String.eqb_spec other decision); done.
Qed.
End race.

Module RaceDemo.
Definition asked : Db :=
  (insert_pending_request 103 "q1" "10000000" "c1" "permission" "{}" History.running).2.
Definition denied (w : World unit) : World unit :=
  put_db (complete_pending_response 105 "10000000" "q1"
            (claim_pending_response_if_accepting "10000000" "q1" "deny" None (w_db w)).2).2 w.
Definition await (_ : ControlDeadline) (w : World unit) : bool * World unit := (true, denied w).
Definition request : PendingRow :=
  default (fresh_pending 0 "" "" "" "" "") (pending_request "10000000" "q1" (w_db (MessageDemo.world asked))).
Definition settled_request : PendingRow :=
  default request (pending_request "10000000" "q1" (w_db (denied (MessageDemo.world asked)))).
Definition job : TaskRecord :=
  default SinkDemo.fallback (SinkDemo.record_of (w_db (denied (MessageDemo.world asked)))).
End RaceDemo.

Lemma raced_answer_misreported_witness :
  let r := respond_pending SinkDemo.to_string MessageDemo.from_str SinkDemo.sqlite_text History.digest
             MessageDemo.debug MessageDemo.config RaceDemo.await id 1 "10000000" RaceDemo.request "allow" None
             (mk_deadline 2000) (MessageDemo.world RaceDemo.asked) in
  ∃ out, r.1 = Ok out ∧ effective_decision out = "allow".
Proof.
  intros r.
  pose proof (raced_answer_misreported SinkDemo.to_string MessageDemo.from_str SinkDemo.sqlite_text History.digest
    MessageDemo.debug MessageDemo.config RaceDemo.await id 1 "10000000" RaceDemo.request "allow" None
    (mk_deadline 2000) (MessageDemo.world RaceDemo.asked) (RaceDemo.denied (MessageDemo.world RaceDemo.asked))
    RaceDemo.settled_request "deny" RaceDemo.job 2000) as H.
  fold r in H. destruct r as [raced w'].
  destruct H as [(out & H1 & _ & H2 & _) _]; [by vm_compute.. |]. by exists out.
Defined.
