(* ===== verification/MonitorProps.v ===== *)
(** * Properties of the monitor

    The monitor never reaches its unreachable branch and stops watching only a task
    whose entry is gone or whose ingress is closed; what it stores is honest; and a
    latched transport fault comes before everything else. *)

From stdpp Require Import relations.
From S2P Require Import Prelude RustStr Utf8 Json RuntimeEvents ActivityTracker General StoreRecords StoreSql StoreOps StoreView StoreRefine StoreProps StoreKeeps RuntimeOwner RuntimeLifecycle Sink SinkProps Diagnostics Recovery RecoveryProps Control Messages MessageProps Starting Monitor ControlProps.

Section monitor.
Context (to_string : Value → string) (from_str : string → result string Value)
  (sqlite_text : SqliteError → string) (digest : TaskResult → string)
  (debug_terminal : RuntimeTerminal → string).
Context (config : SchedulerConfig).
Context {R : Type} `{!ManagedRuntime R}.
Context (wait_operation pause start_ready : World R → World R).
Implicit Types w : World R.

Notation finish_locked := (finish_locked_monitor_terminal to_string from_str sqlite_text digest debug_terminal config).
Notation round := (monitor_round to_string from_str sqlite_text digest debug_terminal config
                     wait_operation pause start_ready).
Notation loop := (monitor to_string from_str sqlite_text digest debug_terminal config
                    wait_operation pause start_ready).

(** ** Leaving the loop *)

(** Nobody needs this monitor any more. *)
Definition let_go (epoch : Z) w : Prop := w_owner w ≠ Some epoch ∨ ingress_reason (w_latch w) ≠ None.

(** A round that may end the thread. *)
Definition careful (epoch : Z) (r : MonitorNext * World R) : Prop :=
  r.1 ≠ MPanics ∧ (r.1 = MReturn → let_go epoch r.2).

Lemma released epoch w : w_owner (release_active epoch w) ≠ Some epoch.
Proof. unfold release_active. case_bool_decide; cbn; congruence. Qed.

Section loop.
(** Starting queued tasks does not bring the entry back. *)
Hypothesis ready_entry : ∀ epoch w, w_owner (start_ready w) = Some epoch → w_owner w = Some epoch.

Lemma careful_released epoch w : careful epoch (MReturn, release_and_advance start_ready epoch w).
Proof. split; [done|]. intros _. left. intros H%ready_entry. by apply released in H. Qed.

Lemma careful_continue epoch handled w : careful epoch (MContinue handled, w).
Proof. done. Qed.

Lemma careful_fault id epoch retry next w :
  (∀ w, careful epoch (retry w)) → (∀ w, careful epoch (next w)) →
  careful epoch (fault_first to_string from_str sqlite_text digest debug_terminal config wait_operation pause
                   start_ready id epoch retry next w).
Proof.
  intros Hr Hn. unfold fault_first, handle_transport_failure, faulted.
  destruct (transport_failure _) as [f|]; [|apply Hn]. cbn [is_some].
  destruct (get_task id _) as [task|e]; [|apply Hr].
  destruct (fault_owner _ _ _); [|apply careful_released].
  unfold commit_fault. destruct (rt_cleanup_forced _ _) as [t w1]. apply careful_released.
Qed.

(** A completion that is put off has a blocker. *)
Lemma admission_blocked w pending queued w' :
  natural_admission w = (Deferred pending queued, w') → pending || queued = true.
Proof.
  unfold natural_admission, begin_natural_completion. cbn [fst snd]. destruct (is_admitting _); [|done].
  destruct (completion_blockers _ _) as [p q]. destruct (p || q) eqn:E; [|done]. by intros [= <- <- _].
Qed.

Lemma careful_close_terminal id epoch t natural w :
  careful epoch (close_terminal to_string from_str sqlite_text digest debug_terminal config start_ready
                   id epoch t natural w).
Proof. apply careful_released. Qed.

Lemma careful_terminal id epoch session handled t w :
  careful epoch (terminal_round to_string from_str sqlite_text digest debug_terminal config wait_operation pause
                   start_ready id epoch session handled t w).
Proof.
  unfold terminal_round. destruct (negb _ && _) eqn:E.
  { bool_hyp. split; [done|]. intros _. right. cbn. congruence. }
  destruct (is_completed t); [|apply careful_close_terminal].
  destruct (natural_admission _) as [[|pending queued|] w1] eqn:Ea; [apply careful_close_terminal | |apply careful_close_terminal].
  apply admission_blocked in Ea. destruct pending, queued; try apply careful_continue; done.
Qed.

Lemma careful_close_turn id epoch b d w :
  careful epoch (close_turn to_string from_str sqlite_text digest debug_terminal config start_ready id epoch b d w).
Proof. unfold close_turn. destruct (call_finish_turn _ _ _ _) as [t w1]. apply careful_released. Qed.

Lemma careful_delivery id epoch handled b d r w :
  careful epoch (after_delivery to_string from_str sqlite_text digest debug_terminal config start_ready
                   id epoch handled b d r w).
Proof.
  destruct r as [[m|]|e]; [done | apply careful_close_turn |]. cbn [after_delivery]. unfold fail_delivery.
  destruct (call_finish_turn _ _ _ _) as [t w1]. apply careful_released.
Qed.

Lemma careful_turn id epoch session handled turn b w :
  careful epoch (turn_round to_string from_str sqlite_text digest debug_terminal config wait_operation start_ready
                   id epoch session handled turn b w).
Proof.
  unfold turn_round. destruct (negb _ && _) eqn:E.
  { bool_hyp. split; [done|]. intros _. right. cbn. by destruct (ingress_reason _). }
  destruct (negb (same_turn _ _)); [apply careful_continue|]. cbv zeta.
  assert (∀ d w, careful epoch (let '(r, w) := deliver_next_message to_string config id session d w in
    after_delivery to_string from_str sqlite_text digest debug_terminal config start_ready id epoch
      (turn_generation turn) b d r w)) as Hd.
  { intros d w1. destruct (deliver_next_message _ _ _ _ _ _) as [r w2]. apply careful_delivery. }
  destruct (bool_decide _); [|apply Hd].
  destruct (natural_admission _) as [[|pending queued|] w1]; [apply careful_close_turn | |apply careful_close_turn].
  destruct pending, queued; try apply careful_continue. apply Hd.
Qed.

Lemma careful_sink id epoch handled w :
  careful epoch (sink_error_round to_string from_str sqlite_text digest debug_terminal config wait_operation
                   id epoch handled w).
Proof.
  unfold sink_error_round. destruct (first_error _); [|done].
  destruct (call_stop _ _) as [t w1]. split; [done|]. intros _. left. apply released.
Qed.

Lemma careful_round id epoch session handled w : careful epoch (round id epoch session handled w).
Proof.
  unfold monitor_round. apply careful_fault; intros w0;
    (destruct (rt_wait_terminal _ w0) as [[t|] w1];
     [apply careful_fault; intros; [apply careful_continue | apply careful_terminal]|];
     destruct (is_some _); [apply careful_sink|];
     destruct (_ && _); [|done]; destruct (turn_boundary _) as [b|]; [|done];
     apply careful_fault; intros; [apply careful_continue | apply careful_turn]).
Qed.

(** Whatever the runtime, the other threads and the store do, the monitor of a
    runtime never reaches its unreachable branch, and it stops watching only when the
    entry of its epoch is gone from the active table or somebody has closed the
    ingress of the runtime and so taken the task over. *)
Theorem monitor_returns_only_when_released rounds id epoch session handled w :
  let '(next, w') := loop rounds id epoch session handled w in
  next ≠ MPanics ∧ (next = MReturn → w_owner w' ≠ Some epoch ∨ ingress_reason (w_latch w') ≠ None).
Proof.
  revert handled w. induction rounds as [|rounds IH]; intros handled w; [done|]. cbn [monitor].
  pose proof (careful_round id epoch session handled w) as [H1 H2].
  destruct (round id epoch session handled w) as [[|h|] w1]; cbn in *; [auto | apply IH | done].
Qed.
End loop.

(** ** What the monitor stores *)

Context `{!RuntimeLaws digest R}.

Lemma required_found id m db t :
  get_task id db = Ok (Some t) → required_task id m db = (Ok t, db).
Proof. intros H. unfold required_task, mbind, sched_bind, store_query. by rewrite H. Qed.

Lemma put_db_same w : put_db (w_db w) w = w.
Proof. by destruct w. Qed.

(** The finish of a row that was read and still belongs to the monitor. *)
Lemma finish_owned id epoch terminal natural forced cause w t :
  get_task id (w_db w) = Ok (Some t) → rec_phase t ≠ Terminal → rec_owner_epoch t = epoch →
  finish_locked id epoch terminal natural forced cause w
  = let '(t', n, f, w1) := monitor_decision config t terminal natural forced w in
    finish_routed_terminal to_string from_str sqlite_text digest debug_terminal id t' n f cause w1.
Proof.
  intros Ht Hp He. unfold finish_locked_monitor_terminal, mbind, act_bind, on_store.
  rewrite (required_found _ _ _ _ Ht), put_db_same, bool_decide_eq_false_2 by done. rewrite He, Z.eqb_refl.
  cbn [orb negb]. unfold act_call. by destruct (monitor_decision _ _ _ _ _ w) as [[[t' n] f] w1].
Qed.

Lemma safe_finish_locked id epoch terminal natural forced cause :
  safe digest (finish_locked id epoch terminal natural forced cause).
Proof.
  unfold finish_locked_monitor_terminal. safe_walk. apply safe_call. intros w Hr. unfold monitor_decision.
  destruct (flagged_task _).
  - assert (advances digest w (force_stop_latch w)) as H1 by (unfold force_stop_latch; by apply advances_store).
    pose proof (moves_stop digest (stop_grace config) (force_stop_latch w) (reach_advances _ _ _ _ Hr H1)) as H2.
    destruct (call_stop _ _) as [t w1]. exact (advances_trans _ _ _ _ H1 H2).
  - destruct (_ && _); apply advances_refl.
Qed.

(** A row with an outcome is over. *)
Lemma outcome_over id db row o :
  reachable digest db → find_task id (tasks db) = Some row → StoreRecords.task_outcome row = Some o →
  phase row = Terminal.
Proof.
  intros Hr Hrow Ho. destruct (find_task_id _ _ _ Hrow) as [_ Hin].
  pose proof (ri_check _ _ _ (reachable_row _ _ (reachable_inv _ _ Hr) Hin)) as Hck.
  destruct (decide (phase row = Terminal)) as [|Hn]; [done|]. by rewrite (row_check_live _ Hck Hn) in Ho.
Qed.

(** The finish of a row that ended or belongs to a newer claim. *)
Lemma finish_gone id epoch terminal natural forced cause w t :
  get_task id (w_db w) = Ok (Some t) → rec_phase t = Terminal ∨ rec_owner_epoch t ≠ epoch →
  finish_locked id epoch terminal natural forced cause w = (Ok (rec_phase t), w).
Proof.
  intros Ht Hg. unfold finish_locked_monitor_terminal, mbind, act_bind, on_store.
  rewrite (required_found _ _ _ _ Ht), put_db_same.
  destruct (bool_decide (rec_phase t = Terminal) || negb (Z.eqb (rec_owner_epoch t) epoch)) eqn:E; [done|].
  apply orb_false_iff in E as [E1 E2]. bool_hyp. by destruct Hg.
Qed.

(** A finish completes a task only naturally. *)
Lemma finish_completes id epoch terminal natural forced cause w row t row' :
  reachable digest (w_db w) → find_task id (tasks (w_db w)) = Some row → get_task id (w_db w) = Ok (Some t) →
  (∀ o reason, forced = Some (o, reason) → o ≠ CCompleted ∧ natural = false) →
  find_task id (tasks (w_db (finish_locked id epoch terminal natural forced cause w).2)) = Some row' →
  phase row ≠ Terminal → StoreRecords.task_outcome row' = Some Completed →
  owner_epoch row = epoch ∧ natural = true ∧ (∃ o, terminal = TCompleted o)
  ∧ first_error (write_state (w_sink w)) = None
  ∧ ∃ text, (take_terminal_text (activity (w_sink w))).1 = Visible text.
Proof.
  intros Hr Hrow Ht Hf Hrow' Hp Hc. pose proof (reachable_inv _ _ Hr) as Hi.
  pose proof (safe_finish_locked id epoch terminal natural forced cause w Hr) as Ha.
  destruct (query_task_db_some _ _ _ Ht) as (row0 & Hrow0 & Ep & Ee & Ec & Es & _).
  assert (row0 = row) as -> by congruence. clear Hrow0.
  destruct (decide (owner_epoch row = epoch)) as [He|He].
  2:{ rewrite (finish_gone _ _ _ _ _ _ _ _ Ht) in Hrow' by (right; congruence). cbn in Hrow'.
      assert (row' = row) as -> by congruence. by apply (outcome_over id (w_db w)) in Hc. }
  destruct (flagged row) eqn:Hfl.
  { destruct (steps_preserve digest (λ x y, cancel_bound x → cancel_bound y) (w_db w)
      (w_db (finish_locked id epoch terminal natural forced cause w).2) id row)
      as (row1 & Hrow1 & Hcb); eauto using view_step_cancel, advances_history.
    assert (row1 = row') as -> by congruence.
    pose proof (outcome_over _ _ _ _ (reach_advances _ _ _ _ Hr Ha) Hrow' Hc) as Hp'.
    destruct Hcb as [_ Hx]; [by split|]. by rewrite Hx in Hc. }
  rewrite (finish_owned _ _ _ _ _ _ _ _ Ht) in Hrow' by congruence.
  unfold monitor_decision, flagged_task in Hrow'. rewrite Ec, Es in Hrow'. fold (flagged row) in Hrow'. rewrite Hfl in Hrow'.
  destruct (negb (is_some forced) && is_some (first_error (write_state (w_sink w)))) eqn:Eb.
  - destruct (routed_completes to_string from_str sqlite_text digest debug_terminal id terminal false
      (Some (CRuntimeLost, "LIFECYCLE_SINK_FAILED")) cause w row row') as [? _]; try done.
    by intros o reason [= <- _].
  - destruct (routed_completes to_string from_str sqlite_text digest debug_terminal id terminal natural forced cause
      w row row') as (Hn & Ht' & Htext); try done.
    { intros o reason Ho. by apply (Hf o reason). }
    split_and!; try done. apply andb_false_iff in Eb as [Eb|Eb].
    + destruct forced as [[o reason]|]; [|done]. destruct (Hf o reason eq_refl) as [_ Hx]. congruence.
    + by destruct (first_error _).
Qed.

(** A row that cannot be read is left alone. *)
Lemma finish_unread id epoch terminal natural forced cause w :
  (∀ t, get_task id (w_db w) ≠ Ok (Some t)) →
  w_db (finish_locked id epoch terminal natural forced cause w).2 = w_db w.
Proof.
  intros H. unfold finish_locked_monitor_terminal, mbind, act_bind, on_store, required_task, mbind, sched_bind, store_query.
  destruct (get_task id (w_db w)) as [[t|]|e] eqn:E; [by destruct (H t) | done | done].
Qed.

(** C11. What a monitor stores at the end of its runtime is honest.  A row that ended
    meanwhile or belongs to a newer claim is left as it is; if a stop or a close was
    recorded the runtime is stopped and the task can only end as cancelled; and it
    ends as completed only for a natural completion with visible text,
    of a runtime whose records were all written. *)
Theorem monitor_finish_honest id epoch terminal natural forced cause w row t r w' :
  reachable digest (w_db w) → find_task id (tasks (w_db w)) = Some row → get_task id (w_db w) = Ok (Some t) →
  (∀ o reason, forced = Some (o, reason) → o ≠ CCompleted ∧ natural = false) →
  finish_locked id epoch terminal natural forced cause w = (r, w') →
  ∃ row', find_task id (tasks (w_db w')) = Some row'
    ∧ (phase row = Terminal ∨ owner_epoch row ≠ epoch → w' = w ∧ r = Ok (phase row))
    ∧ (phase row ≠ Terminal → flagged row = true →
         (owner_epoch row = epoch → CallStop ∈ w_calls w')
         ∧ (phase row' = Terminal → StoreRecords.task_outcome row' = Some Cancelled))
    ∧ (phase row ≠ Terminal → StoreRecords.task_outcome row' = Some Completed →
         owner_epoch row = epoch ∧ natural = true ∧ (∃ o, terminal = TCompleted o)
         ∧ first_error (write_state (w_sink w)) = None
         ∧ ∃ text, (take_terminal_text (activity (w_sink w))).1 = Visible text).
Proof.
  intros Hr Hrow Ht Hf H. pose proof (reachable_inv _ _ Hr) as Hi.
  pose proof (safe_finish_locked id epoch terminal natural forced cause w Hr) as Ha. rewrite H in Ha. cbn [snd] in Ha.
  destruct (steps_preserve digest (λ x y, cancel_bound x → cancel_bound y) (w_db w) (w_db w') id row)
    as (row' & Hrow' & Hcb); eauto using view_step_cancel, advances_history.
  destruct (query_task_db_some _ _ _ Ht) as (row0 & Hrow0 & Ep & Ee & Ec & Es & _).
  assert (row0 = row) as -> by congruence. clear Hrow0.
  exists row'. split; [done|].
  destruct (decide (phase row = Terminal ∨ owner_epoch row ≠ epoch)) as [Hgone|Hown].
  { rewrite (finish_gone _ _ _ _ _ _ _ _ Ht) in H by (by rewrite Ep, Ee). injection H as <- <-. rewrite Ep.
    assert (row' = row) as -> by congruence. split_and!; [done | |].
    - intros Hp Hfl. split; [by destruct Hgone | by intros].
    - intros Hp Hc. by apply (outcome_over id (w_db w) row) in Hc. }
  assert (phase row ≠ Terminal ∧ owner_epoch row = epoch) as [Hp He].
  { split; [by intros ?; apply Hown; left|]. destruct (decide (owner_epoch row = epoch)); [done|].
    destruct Hown. by right. }
  pose proof H as H0. rewrite (finish_owned id epoch terminal natural forced cause w t Ht) in H by congruence.
  unfold monitor_decision in H. unfold flagged_task in H. rewrite Ec, Es in H. fold (flagged row) in H.
  split_and!; [by intros []| |].
  - intros _ Hfl. rewrite Hfl in H. split.
    + intros _. pose proof (rt_stop_moves (stop_grace config) (log_call CallStop (force_stop_latch w)) Hr) as Hm.
      unfold call_stop in H. destruct (rt_stop _ _) as [t1 w1]. cbn [snd] in Hm.
      pose proof (safe_routed to_string from_str sqlite_text digest debug_terminal id t1 false
        (Some (CCancelled, "CANCELLED")) cause w1
        (reach_advances _ _ (log_call CallStop (force_stop_latch w)) _ Hr Hm)) as Hs. rewrite H in Hs. cbn [snd] in Hs.
      destruct Hs as (_ & l & -> & _). apply elem_of_app. left. destruct Hm as (_ & l' & -> & _).
      apply elem_of_app. left. cbn. apply elem_of_app. right. by left.
    + intros Hp'. by apply Hcb; [split|].
  - intros _ Hc. destruct (finish_completes id epoch terminal natural forced cause w row t row') as (? & ? & ? & ? & ?);
      try done. by rewrite H0.
Qed.

(** ** Transport faults *)

Hypothesis wait_steps : steps digest wait_operation.

(** A latched transport fault comes before everything else a monitor looks at: as
    long as the row and the entry belong to it, the round closes ingress, cleans the
    runtime up for real, forces the task to fail, releases the entry and returns; a
    task that was still open when it came to that is not completed, whatever terminal
    or turn the runtime has published. *)
Theorem latched_fault_outranks id epoch session handled w f t :
  let w1 := wait_operation w in
  reachable digest (w_db w) → transport_failure (write_state (w_sink w)) = Some f →
  get_task id (w_db w1) = Ok (Some t) → rec_phase t ≠ Terminal → rec_owner_epoch t = epoch →
  w_owner w1 = Some epoch →
  ∃ terminal w2,
    let w3 := (finish_locked id epoch terminal false (Some (CFailed, TRANSPORT_FRAME_LIMIT_REASON))
                 (Some (transport_failure_message to_string debug_terminal f terminal)) w2).2 in
    round id epoch session handled w = (MReturn, release_and_advance start_ready epoch w3)
    ∧ CallCleanup ∈ w_calls w2 ∧ rtc (store_step digest) (w_db w) (w_db w2)
    ∧ ∀ row2 row3, find_task id (tasks (w_db w2)) = Some row2 → phase row2 ≠ Terminal →
        find_task id (tasks (w_db w3)) = Some row3 → StoreRecords.task_outcome row3 ≠ Some Completed.
Proof.
  intros w1 Hr Hf Ht Hp He Ho. pose proof (wait_steps w Hr) as H1. fold w1 in H1.
  pose proof (reach_advances _ _ _ _ Hr H1) as Hr1.
  set (w1' := log_call CallCleanup (cancel_check (force_stop_latch w1))).
  pose proof (rt_cleanup_moves (stop_grace config) w1' Hr1) as H2.
  destruct (rt_cleanup_forced (stop_grace config) w1') as [terminal wc] eqn:Ec. cbn [snd] in H2.
  pose proof (reach_advances digest _ w1' wc Hr1 H2) as Hrc. pose proof (wait_steps wc Hrc) as H3.
  exists terminal, (wait_operation wc). cbv zeta. split_and!.
  - unfold monitor_round, fault_first, faulted. rewrite Hf. cbn [is_some]. unfold handle_transport_failure. rewrite Hf.
    fold w1. rewrite Ht. unfold fault_owner. rewrite bool_decide_eq_false_2 by done.
    rewrite He, Z.eqb_refl, bool_decide_eq_true_2 by done. cbn [negb andb].
    unfold commit_fault. fold w1'. rewrite Ec. done.
  - destruct H3 as (_ & l & -> & _). apply elem_of_app. left. destruct H2 as (_ & l' & -> & _).
    apply elem_of_app. left. cbn. apply elem_of_app. right. by left.
  - etrans; [apply H1|]. etrans; [apply (advances_history _ _ _ _ H2) | apply H3].
  - intros row2 row3 Hrow2 Hp2 Hrow3 Hc. set (w2 := wait_operation wc) in *.
    assert (reachable digest (w_db w2)) as Hr2 by by eapply reach_advances.
    set (m := finish_locked _ _ _ _ _ _) in Hrow3.
    assert (∀ t, get_task id (w_db w2) ≠ Ok (Some t)) as Hno.
    { intros t2 Et2. destruct (finish_completes id epoch terminal false (Some (CFailed, TRANSPORT_FRAME_LIMIT_REASON))
        (Some (transport_failure_message to_string debug_terminal f terminal)) w2 row2 t2 row3) as (_ & ? & _); try done.
      by intros o reason [= <- _]. }
    unfold m in Hrow3. rewrite (finish_unread _ _ _ _ _ _ _ Hno) in Hrow3.
    assert (row3 = row2) as -> by congruence. by apply (outcome_over id (w_db w2)) in Hc.
Qed.
End monitor.

(** ** Witnesses *)

Module MonitorDemo.
Definition faulty : StoreLifecycleSink :=
  set_write (mk_write_state None 4 None false (Some (mk_frame_limit TRANSPORT_FRAME_LIMIT_REASON 17 16 4))) SinkDemo.sink.
Definition record (db : Db) : TaskRecord :=
  match get_task "10000000" db with Ok (Some t) => t | _ => SinkDemo.fallback end.
Notation world db := (MessageDemo.world db).
Lemma monitored_reachable db : reachable History.digest db → reachable History.digest (w_db (world db)).
Proof. done. Qed.
Lemma faulty_reachable db : reachable History.digest db → reachable History.digest (w_db (put_sink faulty (world db))).
Proof. done. Qed.
Lemma id_steps : steps History.digest (id : World unit → World unit).
Proof. intros w _. apply advances_refl. Qed.
End MonitorDemo.
Import MonitorDemo.

Lemma monitor_returns_only_when_released_witness :
  let out := monitor SinkDemo.to_string MessageDemo.from_str SinkDemo.sqlite_text History.digest MessageDemo.debug
               MessageDemo.config id id id 2 "10000000" 1 "session" 0 (MonitorDemo.world History.running) in
  out.1 = MReturn ∧ (w_owner out.2 ≠ Some 1%Z ∨ ingress_reason (w_latch out.2) ≠ None).
Proof.
  intros out. assert (out.1 = MReturn) as E by (by vm_compute). split; [exact E|].
  pose proof (monitor_returns_only_when_released SinkDemo.to_string MessageDemo.from_str SinkDemo.sqlite_text
    History.digest MessageDemo.debug MessageDemo.config id id id (λ _ _ H, H) 2 "10000000" 1 "session" 0
    (MonitorDemo.world History.running)) as H.
  fold out in H. destruct out as [next w']. destruct H as [_ H]. exact (H E).
Defined.

Lemma monitor_finish_honest_witness :
  let w := MonitorDemo.world History.stopped in
  let out := finish_locked_monitor_terminal SinkDemo.to_string MessageDemo.from_str SinkDemo.sqlite_text
               History.digest MessageDemo.debug MessageDemo.config "10000000" 1
               (TCompleted (Terminated (Exited (Some 0%Z)))) true None None w in
  out.1 = Ok Terminal ∧ ∃ row', find_task "10000000" (tasks (w_db out.2)) = Some row'
    ∧ (phase row' = Terminal → StoreRecords.task_outcome row' = Some Cancelled) ∧ CallStop ∈ w_calls out.2.
Proof.
  intros w out. assert (out.1 = Ok Terminal) as E by (by vm_compute). split; [exact E|].
  assert (out = (Ok Terminal, out.2)) as Eo by (rewrite <- E; apply surjective_pairing).
  assert (reachable History.digest (w_db w)) as Hr by exact (MonitorDemo.monitored_reachable _ History.stopped_reachable).
  assert (find_task "10000000" (tasks (w_db w)) = Some (History.row_of History.stopped)) as Hf by (by vm_compute).
  assert (get_task "10000000" (w_db w) = Ok (Some (MonitorDemo.record History.stopped))) as Ht by (by vm_compute).
  assert (phase (History.row_of History.stopped) ≠ Terminal) as Hp by (by vm_compute).
  assert (flagged (History.row_of History.stopped) = true) as Hfl by (by vm_compute).
  assert (owner_epoch (History.row_of History.stopped) = 1%Z) as He by (by vm_compute).
  destruct (monitor_finish_honest SinkDemo.to_string MessageDemo.from_str SinkDemo.sqlite_text History.digest
    MessageDemo.debug MessageDemo.config "10000000" 1 (TCompleted (Terminated (Exited (Some 0%Z)))) true None None w
    (History.row_of History.stopped) (MonitorDemo.record History.stopped) (Ok Terminal) out.2 Hr Hf Ht
    (λ o reason (H : None = Some (o, reason)), match H with end) Eo) as (row' & H1 & _ & H2 & _).
  exists row'. destruct (H2 Hp Hfl) as [H3 H4]. split; [exact H1|]. split; [exact H4 | exact (H3 He)].
Defined.

Lemma latched_fault_outranks_witness :
  let w := put_sink faulty (MonitorDemo.world History.running) in
  ∃ w', monitor_round SinkDemo.to_string MessageDemo.from_str SinkDemo.sqlite_text History.digest MessageDemo.debug
          MessageDemo.config id id id "10000000" 1 "session" 0 w = (MReturn, w').
Proof.
  intros w.
  assert (reachable History.digest (w_db w)) as Hr by exact (MonitorDemo.faulty_reachable _ History.running_reachable).
  assert (get_task "10000000" (w_db (id w)) = Ok (Some (MonitorDemo.record History.running))) as Ht by (by vm_compute).
  assert (rec_phase (MonitorDemo.record History.running) ≠ Terminal) as Hp by (by vm_compute).
  assert (rec_owner_epoch (MonitorDemo.record History.running) = 1%Z) as He by (by vm_compute).
  destruct (latched_fault_outranks SinkDemo.to_string MessageDemo.from_str SinkDemo.sqlite_text History.digest
    MessageDemo.debug MessageDemo.config id id id MonitorDemo.id_steps "10000000" 1 "session" 0 w
    (mk_frame_limit TRANSPORT_FRAME_LIMIT_REASON 17 16 4) (MonitorDemo.record History.running)
    Hr eq_refl Ht Hp He eq_refl) as (terminal & w2 & H & _).
  eexists. exact H.
Defined.
