(* ===== verification/RpcErrors.v ===== *)
(** * Errors of the RPC

    [crates/external-daemon/src/rpc/errors.rs]: the codes a client sees, the bound on
    a message, and what every error of the scheduler and of the store becomes. *)

From S2P Require Import Prelude RustStr Utf8 StoreRecords Recovery.

Inductive RpcErrorCode :=
| RMalformed | ROversized | RUnknownMethod | RValidation | RAgentRequired | RAgentUnknown | RAgentDisabled
| RAgentUnsupported | RModelSelectionUnsupported | RSteerUnsupported | RNotFound | RConflict | RPersistence
| RTimeout | RRuntimeLost | RResultInvalid | RUnavailable | RInternal.

#[global] Instance RpcErrorCode_eq_dec : EqDecision RpcErrorCode.
Proof. solve_decision. Defined.

Record RpcError := mk_rpc_error {
  re_code : RpcErrorCode; re_message : string; re_active_agent : option string }.

#[global] Instance RpcError_eq_dec : EqDecision RpcError.
Proof. solve_decision. Defined.

(** [truncate_utf8] and [truncate_at_char_boundary]: at most [max] bytes, cut before a
    character that does not fit. *)
Definition truncate_utf8 (s : string) (max_bytes : nat) : string :=
  if Nat.ltb max_bytes (String.length s) then str_take (prev_boundary s max_bytes) s else s.

Definition rpc_error (code : RpcErrorCode) (message : string) : RpcError :=
  mk_rpc_error code (truncate_utf8 message 512) None.

Definition with_agent (id : option string) (e : RpcError) : RpcError :=
  mk_rpc_error (re_code e) (re_message e) id.

Definition message_id_conflict (message : string) : bool :=
  (message ≟ "message id is already bound to different content")
  || (message ≟ "MESSAGE_ID_CONFLICT")
  || (starts_with message "message " && ends_with message " already exists").

Definition map_store (e : StoreError) : RpcError :=
  match e with
  | LegacySchemaUnsupported => rpc_error RPersistence "STORE_SCHEMA_VERSION_UNSUPPORTED"
  | Sqlite _ => rpc_error RPersistence "durable store operation failed"
  | Conflict message =>
      if starts_with message "WORKSPACE_BUSY"
      then with_agent (strip_prefix "WORKSPACE_BUSY active_agent_id=" message) (rpc_error RConflict "WORKSPACE_BUSY")
      else if message_id_conflict message then rpc_error RConflict "MESSAGE_ID_CONFLICT"
      else rpc_error RConflict "durable state conflict"
  | InvalidState _ => rpc_error RValidation "durable state rejected the operation"
  end.

(** The code and the text of a start that failed for [reason]. *)
Definition start_failure (reason message : string) : RpcErrorCode * string :=
  if reason ≟ "MODEL_REJECTED" then (RValidation, "MODEL_REJECTED: " +:+ message)
  else if starts_with reason "PREPARED_" || starts_with reason "TASK_ROUTE_"
  then (RResultInvalid, reason +:+ ": " +:+ message)
  else if (reason ≟ "DRAIN_CANCELLED") || (reason ≟ "CANCELLED")
  then (RUnavailable, "task cancelled: " +:+ message)
  else (RRuntimeLost, reason +:+ ": " +:+ message).

Definition map_scheduler (e : SchedulerError) : RpcError :=
  match e with
  | SStore e => map_store e
  | InvalidConfig message =>
      if message ≟ "daemon_draining" then rpc_error RUnavailable "daemon_draining"
      else if (message ≟ "drain_not_active") || (message ≟ "drain_cancel_in_progress")
      then rpc_error RUnavailable message
      else rpc_error RValidation ("scheduler rejected the operation: " +:+ message)
  | RuntimeSpawn id _ => with_agent (Some id) (rpc_error RRuntimeLost "runtime operation failed")
  | LifecycleSinkError _ _ => rpc_error RRuntimeLost "runtime operation failed"
  | RuntimeCommand _ message =>
      if message ≟ "steer_unsupported" then rpc_error RSteerUnsupported message
      else if message ≟ "TERMINAL_SEND_UNSUPPORTED" then rpc_error RValidation message
      else if message ≟ "daemon_draining" then rpc_error RUnavailable message
      else rpc_error RUnavailable "RUNTIME_COMMAND_FAILED"
  | StartTimeout id message => with_agent (Some id) (rpc_error RTimeout message)
  | Interrupted id =>
      with_agent (Some id)
        (rpc_error RTimeout ("spawn interrupted while session establishment continues for " +:+ id))
  | StartFailed id reason message =>
      let '(code, text) := start_failure reason message in with_agent (Some id) (rpc_error code text)
  end.

(** ** Lemmas *)

Lemma str_take_app a b : str_take (String.length a) (a +:+ b) = a.
Proof. induction a as [|c a IH]; simpl; [by destruct b|]. by rewrite IH. Qed.

Lemma truncate_utf8_length s n : String.length (truncate_utf8 s n) ≤ n.
Proof.
  unfold truncate_utf8. destruct (Nat.ltb_spec n (String.length s)); [|done].
  rewrite str_take_length. pose proof (prev_boundary_spec s n) as [_ ?]. lia.
Qed.

Lemma truncate_utf8_prefix s n : ∃ t, s = truncate_utf8 s n +:+ t.
Proof.
  unfold truncate_utf8. destruct (Nat.ltb n (String.length s)).
  - eexists. symmetry. apply str_take_drop.
  - exists "". by rewrite string_app_nil_r.
Qed.

Lemma truncate_utf8_id s n : String.length s ≤ n → truncate_utf8 s n = s.
Proof. unfold truncate_utf8. intros. by destruct (Nat.ltb_spec n (String.length s)); [lia|]. Qed.
