(* ===== verification/RpcViews.v ===== *)
(** * Views of the RPC

    [crates/external-daemon/src/rpc/views.rs] and the response types of
    [rpc/types.rs]: what of a task, its activity, its requests and its result a
    client sees, and the pages of a result.

    Byte offsets are [nat]; every text is shorter than a [usize] can count.  The
    decoding of JSON text and serde's reader of an admission are parameters. *)

From stdpp Require Import pretty.
From S2P Require Import Prelude RustStr Utf8 RustPath Json General StoreRecords StoreSql StoreOps ActivityTracker Messages RpcErrors.

(** ** Tasks *)

Record TaskHeaderView := mk_header { header_agent : string; header_status : string }.

Record InputIdentityView := mk_identity_view {
  iv_subagent : option string; iv_config_revision : option Z; iv_adapter_version : option string;
  iv_model : option string; iv_model_source : option string; iv_effort : option string;
  iv_workspace_path : option string; iv_permission_mode : option string }.

Record TaskView := mk_task_view {
  tv_agent : string; tv_status : string; tv_session : option string; tv_identity : InputIdentityView }.

Definition outcome_status (o : option TaskOutcome) : string :=
  match o with
  | Some Completed => "completed"
  | Some Failed => "failed"
  | Some Cancelled => "cancelled"
  | Some TimedOut => "timed_out"
  | Some RuntimeLost => "runtime_lost"
  | Some ResultInvalid => "result_invalid"
  | None => "terminal"
  end.

Definition task_status (t : TaskRecord) : string :=
  if is_some (rec_closed_at t) then "closed"
  else match rec_phase t with
       | Queued => "queued"
       | Preparing => "preparing"
       | Running => "running"
       | WaitingInput => "waiting_input"
       | Cancelling => "cancelling"
       | Terminal => outcome_status (rec_outcome t)
       end.

Definition task_header_view (t : TaskRecord) : TaskHeaderView :=
  mk_header (task_id (rec_spec t)) (task_status t).

Section task_view.
Context (from_str : string → result string Value) (decode_admission : Value → option AdmissionIdentity).

Definition parse_json (text : string) : option Value :=
  match from_str text with Ok v => Some v | Err _ => None end.

Definition task_view (t : TaskRecord) : TaskView :=
  let prepared := parse_json (prepared_launch_json (rec_spec t)) in
  let identity := prepared ≫= λ v, get v "admission" ≫= decode_admission in
  mk_task_view (task_id (rec_spec t)) (task_status t) (rec_session_id t)
    (mk_identity_view (agent <$> identity) (config_revision <$> identity) (adapter_version <$> identity)
       (identity ≫= model) (model_source <$> identity) (identity ≫= effort)
       (Some (workspace_path (rec_spec t))) (prepared ≫= λ v, get_str v "permission_mode")).
End task_view.

(** ** Activity *)

Inductive TelemetryStatusView := TelemetryHealthy | TelemetryDegraded | TelemetryUnavailable.

Record TaskActivityView := mk_activity_view {
  av_text_tail : string; av_text_truncated : bool; av_tool_calls_last_60s : Z; av_in_flight : Z;
  av_oldest_in_flight_ms : option Z; av_last_activity_ms : option Z; av_model_active : bool;
  av_telemetry : TelemetryStatusView }.

Definition task_activity_view (snapshot : option PassiveActivitySnapshot) : TaskActivityView :=
  match snapshot with
  | None => mk_activity_view "" false 0 0 None None false TelemetryUnavailable
  | Some s =>
      mk_activity_view (snap_text_tail s) (snap_text_truncated s) (tool_calls_started (snap_window s))
        (Z.of_nat (length (snap_active_tools s))) (snap_oldest_active_tool_age_ms s)
        (snap_last_activity_age_ms s) (snap_model_request_active s)
        (if snap_degraded s then TelemetryDegraded else TelemetryHealthy)
  end.

Definition with_tail (tail : WaitTail) (v : TaskActivityView) : TaskActivityView :=
  mk_activity_view (wait_text tail) (wait_truncated tail) (av_tool_calls_last_60s v) (av_in_flight v)
    (av_oldest_in_flight_ms v) (av_last_activity_ms v) (av_model_active v) (av_telemetry v).

Definition set_text_tail (text : string) (v : TaskActivityView) : TaskActivityView :=
  with_tail (mk_wait_tail text (av_text_truncated v)) v.

(** ** Messages and answers *)

Record MessageReceiptView := mk_receipt {
  receipt_message : string; receipt_state : string; receipt_failure : option string }.

(** [format!("{:?}", state).to_lowercase()]. *)
Definition message_state_name (s : MessageState) : string :=
  match s with
  | MQueued => "queued" | MSending => "sending" | MDelivered => "delivered" | MFailed => "failed"
  end.

Inductive MessageDispositionView := ViewQueued | ViewDelivered | ViewAlreadyDelivered | ViewFailed.

Definition message_disposition_view (d : MessageDisposition) : MessageDispositionView :=
  match d with
  | MsgQueued => ViewQueued
  | MsgDelivered => ViewDelivered
  | MsgAlreadyDelivered => ViewAlreadyDelivered
  | MsgFailed => ViewFailed
  end.

Inductive ResponseDispositionView := ViewResponded | ViewAlreadyResponded | ViewInFlight.

Definition response_disposition_view (d : ResponseDisposition) : ResponseDispositionView :=
  match d with
  | Responded => ViewResponded
  | AlreadyResponded => ViewAlreadyResponded
  | InFlight => ViewInFlight
  end.

Record ResponseOutcomeView := mk_outcome_view {
  ov_disposition : ResponseDispositionView; ov_requested : string; ov_effective : string;
  ov_overrode : bool; ov_reason : option string }.

Definition response_outcome_view (o : ResponseOutcome) : ResponseOutcomeView :=
  mk_outcome_view (response_disposition_view (ro_disposition o)) (requested_decision o) (effective_decision o)
    (policy_overrode o) (policy_reason_code o).

(** ** Requests *)

Record QuestionView := mk_question { q_text : string; q_truncated : bool }.

Record PendingRequestView := mk_request_view {
  pv_request : string; pv_kind : string; pv_tool : option string; pv_operation : string;
  pv_summary : option string; pv_question : option QuestionView }.

Definition MAX_QUESTION_SUMMARY_BYTES : nat := 2048.
Definition MAX_QUESTION_EMBED_BYTES : nat := 16 * 1024.

(** [value.chars().take(n).collect()]. *)
Definition take_chars (n : nat) (s : string) : string := String.concat "" (take n (chars s)).

Definition operation_category (tool : string) : string :=
  let name := to_ascii_lowercase tool in
  if one_of name ["read"; "grep"; "glob"] then "read"
  else if one_of name ["write"; "edit"; "delete"; "move"] then "write"
  else if one_of name ["bash"; "execute"; "terminal"] then "command"
  else if name ≟ "network" then "network"
  else if name ≟ "git_ref_mutation" then "git_ref_mutation"
  else "unknown".

(** The last name of a path argument, as much as is shown of it. *)
Definition summary_leaf (input : Value) (name : string) : option string :=
  take_chars 96 <$> (get_str input name ≫= file_name).

Definition sanitized_permission_summary (params : Value) : string :=
  let input := get_or_null params "input" in
  match summary_leaf input "program" with
  | Some program =>
      let count := match get input "args" ≫= as_array with Some l => length l | None => 0 end in
      "command " +:+ program +:+ " with " +:+ pretty count +:+ " arguments"
  | None =>
      match (match summary_leaf input "path" with
             | Some p => Some p
             | None => match summary_leaf input "destination" with
                       | Some p => Some p
                       | None => summary_leaf input "source"
                       end
             end) with
      | Some path => "target " +:+ path
      | None =>
          if match get_str params "toolName" with
             | Some name => to_ascii_lowercase name ≟ "git_ref_mutation"
             | None => false
             end
          then "Git reference mutation" else "permission request"
      end
  end.

Section requests.
Context (from_str : string → result string Value).

Definition user_input_question_page (payload : string) : option QuestionView :=
  question ← parse_json from_str payload ≫= λ v, get_str v "question";
  let text := truncate_utf8 question MAX_QUESTION_EMBED_BYTES in
  Some (mk_question text (Nat.ltb (String.length text) (String.length question))).

Definition pending_request_view (p : PendingRow) : PendingRequestView :=
  if p_type p ≟ "user_input" then
    mk_request_view (request_id p) "user_input" None "user_input" None (user_input_question_page (p_payload p))
  else
    let params := parse_json from_str (p_payload p) in
    let tool := take_chars 64 <$> (params ≫= λ v, get_str v "toolName") in
    mk_request_view (request_id p) "permission" tool
      (match tool with Some t => operation_category t | None => "unknown" end)
      (Some (match params with
             | Some v => sanitized_permission_summary v
             | None => "unrecognized permission request"
             end)) None.
End requests.

(** ** Pages of a result *)

Record TaskResultView := mk_result_view {
  rv_outcome : TaskOutcome; rv_text : string; rv_partial : bool; rv_offset : nat; rv_total : nat;
  rv_next : option nat; rv_reason : option string; rv_failure : option string }.

Definition MAX_RESULT_CHUNK_BYTES : nat := 256 * 1024.
#[global] Opaque MAX_RESULT_CHUNK_BYTES.

(** [while end > low && !text.is_char_boundary(end) { end -= 1 }]. *)
Fixpoint floor_boundary (low : nat) (text : string) (e : nat) : nat :=
  if Nat.ltb low e && negb (is_char_boundary text e)
  then match e with 0 => 0 | S e' => floor_boundary low text e' end
  else e.

(** [(next < total).then_some(next)]. *)
Definition next_page (total next : nat) : option nat := if Nat.ltb next total then Some next else None.

Definition paged_text_bounds (text : string) (offset limit : nat) (field : string)
    : result RpcError (nat * option nat) :=
  let total := String.length text in
  if Nat.ltb total offset || negb (is_char_boundary text offset)
  then Err (rpc_error RValidation (field +:+ " offset is outside the " +:+ field))
  else
    let e := floor_boundary offset text (Nat.min (offset + limit) total) in
    if Nat.eqb e offset && Nat.ltb offset total
    then Err (rpc_error RValidation (field +:+ " limit does not include a complete UTF-8 character"))
    else Ok (e, next_page total e).

Definition result_page_bounds (text : string) (offset limit : nat) : result RpcError (nat * option nat) :=
  paged_text_bounds text offset limit "result".

Definition task_result_view (r : TaskResult) (offset limit : nat) (reason failure : option string)
    : result RpcError TaskResultView :=
  '(e, next) ← result_page_bounds (final_text r) offset limit;
  Ok (mk_result_view (res_outcome r) (str_take (e - offset) (str_drop offset (final_text r))) (partial r)
        offset (String.length (final_text r)) next reason failure).

Definition is_failure_outcome (o : TaskOutcome) : bool :=
  match o with Failed | RuntimeLost | ResultInvalid => true | _ => false end.

Definition failure_message_projection (t : TaskRecord) (r : TaskResult) : option string :=
  if is_failure_outcome (res_outcome r) && bool_decide (rec_outcome t = Some (res_outcome r))
  then rec_failure_message t else None.

(** ** Roll-up of component states *)

Inductive ComponentStateView := Ready | Degraded | Unavailable | Unknown.

#[global] Instance ComponentStateView_eq_dec : EqDecision ComponentStateView.
Proof. solve_decision. Defined.

(** A state marks its slot once. *)
Definition mark_state (seen : list ComponentStateView) (s : ComponentStateView) : list ComponentStateView :=
  if bool_decide (s ∈ seen) then seen else s :: seen.

Definition aggregate_component_state (states : list ComponentStateView) : ComponentStateView :=
  match fold_left mark_state states [] with [] => Unknown | [s] => s | _ => Degraded end.

(** ** Pages and projections

    The pages of a result cover its text; the projection of a failure never mixes
    two rounds; the roll-up of component states. *)

(** ** Pages *)

Lemma floor_boundary_spec low s e :
  low ≤ e → is_char_boundary s low = true →
  let f := floor_boundary low s e in
  is_char_boundary s f = true ∧ low ≤ f ≤ e ∧ ∀ j, low ≤ j ≤ e → is_char_boundary s j = true → j ≤ f.
Proof.
  intros Hle Hlow. induction e as [|e IH]; cbn zeta; cbn [floor_boundary].
  - assert (low = 0) as -> by lia. cbn. split; [done|]. split; [lia | intros; lia].
  - destruct (Nat.ltb_spec low (S e)) as [Hlt|Hge].
    + destruct (is_char_boundary s (S e)) eqn:E; cbn [andb negb].
      * split; [done|]. split; [lia | intros; lia].
      * destruct IH as (Hb & Hr & Hm); [lia|]. split; [done|]. split; [lia|].
        intros j Hj Hbj. destruct (decide (j = S e)) as [->|]; [congruence | apply Hm; [lia | done]].
    + cbn [andb]. assert (low = S e) as -> by lia. split; [done|]. split; [lia | intros; lia].
Qed.

(** A page ends at the last boundary within its limit. *)
Lemma page_bounds text offset limit :
  is_char_boundary text offset = true →
  let e := floor_boundary offset text (Nat.min (offset + limit) (String.length text)) in
  is_char_boundary text e = true ∧ offset ≤ e ≤ String.length text ∧ e ≤ offset + limit
  ∧ ∀ j, offset ≤ j ≤ String.length text → j ≤ offset + limit → is_char_boundary text j = true → j ≤ e.
Proof.
  intros Hb. pose proof (boundary_le _ _ Hb).
  destruct (floor_boundary_spec offset text (Nat.min (offset + limit) (String.length text)))
    as (He & Hr & Hm); [lia | done |].
  split; [done|]. split; [lia|]. split; [lia|]. intros j Hj Hl Hbj. apply Hm; [lia | done].
Qed.

(** Every character ends within four bytes of its start. *)
Definition four_byte_chars (s : string) : Prop :=
  ∀ i, is_char_boundary s i = true → i < String.length s →
    ∃ j, i < j ≤ i + 4 ∧ is_char_boundary s j = true.

(** A client that follows the cursor of each page; [None] when it has not come to the
    last page within [rounds]. *)
Fixpoint read_pages (rounds : nat) (r : TaskResult) (limit offset : nat)
    : option (result RpcError (list TaskResultView)) :=
  match rounds with
  | 0 => None
  | S rounds =>
      match task_result_view r offset limit None None with
      | Err e => Some (Err e)
      | Ok page =>
          match rv_next page with
          | None => Some (Ok [page])
          | Some next => option_map (fmap (M:=result RpcError) (cons page)) (read_pages rounds r limit next)
          end
      end
  end.

Definition page_ok (r : TaskResult) (limit : nat) (p : TaskResultView) : Prop :=
  String.length (rv_text p) ≤ limit ∧ rv_total p = String.length (final_text r)
  ∧ is_char_boundary (final_text r) (rv_offset p) = true
  ∧ is_char_boundary (final_text r) (rv_offset p + String.length (rv_text p)) = true
  ∧ (rv_next p = None ↔ rv_offset p + String.length (rv_text p) = String.length (final_text r)).

Section pages.
Context (r : TaskResult) (limit : nat).
Let text := final_text r.
Hypotheses (Hlimit : 4 ≤ limit) (Hchars : four_byte_chars text).

Lemma page_exists offset :
  is_char_boundary text offset = true →
  ∃ p, task_result_view r offset limit None None = Ok p ∧ page_ok r limit p
    ∧ (rv_next p = None → rv_text p = str_drop offset text)
    ∧ ∀ next, rv_next p = Some next →
        next = offset + String.length (rv_text p) ∧ offset < next
        ∧ is_char_boundary text next = true ∧ rv_text p +:+ str_drop next text = str_drop offset text.
Proof.
  intros Hb. pose proof (boundary_le _ _ Hb) as Hlen.
  pose proof (page_bounds text offset limit Hb) as (He & Hr & Hl & Hm).
  unfold task_result_view, result_page_bounds, paged_text_bounds. fold text.
  set (e := floor_boundary _ _ _) in *.
  destruct (Nat.ltb_spec (String.length text) offset); [lia|]. rewrite Hb. simpl.
  assert (Hstep : offset < String.length text → offset < e).
  { intros Hlt. destruct (Hchars offset Hb Hlt) as (j & Hj & Hbj).
    pose proof (boundary_le _ _ Hbj). pose proof (Hm j ltac:(lia) ltac:(lia) Hbj). lia. }
  assert (Hcut : String.length (str_take (e - offset) (str_drop offset text)) = e - offset).
  { rewrite str_take_length, str_drop_length. lia. }
  replace (Nat.eqb e offset && Nat.ltb offset (String.length text)) with false
    by (symmetry; destruct (Nat.eqb_spec e offset), (Nat.ltb_spec offset (String.length text)); try done; lia).
  assert (Hjoin : str_take (e - offset) (str_drop offset text) +:+ str_drop e text = str_drop offset text).
  { rewrite <- (str_take_drop (e - offset) (str_drop offset text)) at 2. rewrite str_drop_drop.
    by replace (offset + (e - offset)) with e by lia. }
  eexists. split; [done|]. unfold page_ok, next_page. cbn [rv_text rv_total rv_offset rv_next].
  change (final_text r) with text. rewrite Hcut. replace (offset + (e - offset)) with e by lia.
  destruct (Nat.ltb_spec e (String.length text)).
  - split; [by repeat split; try done; lia|]. split; [done|]. intros next [= <-].
    repeat split; [apply Hstep; lia | done | done].
  - assert (e = String.length text) as Ee by lia. split; [by repeat split; try done; lia|]. split; [|done].
    intros _. rewrite <- Hjoin at 2. rewrite (str_drop_all e) by lia. by rewrite string_app_nil_r.
Qed.

Lemma read_pages_ok rounds offset :
  is_char_boundary text offset = true → String.length text - offset < rounds →
  ∃ pages, read_pages rounds r limit offset = Some (Ok pages) ∧ Forall (page_ok r limit) pages
    ∧ String.concat "" (rv_text <$> pages) = str_drop offset text.
Proof.
  revert offset. induction rounds as [|rounds IH]; intros offset Hb Hf; [lia|]. simpl.
  destruct (page_exists offset Hb) as (p & -> & Hok & Hlast & Hnext).
  pose proof (boundary_le _ _ Hb).
  destruct (rv_next p) as [next|] eqn:En.
  - destruct (Hnext next eq_refl) as (Hn & Hlt & Hbn & Hjoin). pose proof (boundary_le _ _ Hbn).
    destruct (IH next Hbn ltac:(lia)) as (pages & -> & Hpages & Hcat).
    exists (p :: pages). split; [done|]. split; [by constructor|]. rewrite <- Hjoin, <- Hcat.
    destruct pages; [simpl; by rewrite string_app_nil_r | done].
  - exists [p]. split; [done|]. split; [by apply Forall_singleton|]. simpl. by rewrite Hlast.
Qed.
End pages.

(** A client that asks for the first page of a result and follows the cursors
    gets, after finitely many pages and without an error, exactly the stored text.
    Every page is cut on character boundaries, keeps its limit and names the total;
    only the page that reaches the end has no cursor.  Four bytes are enough as a
    limit. *)
Theorem pages_reassemble r limit :
  4 ≤ limit → four_byte_chars (final_text r) →
  ∃ pages, read_pages (S (String.length (final_text r))) r limit 0 = Some (Ok pages)
    ∧ Forall (page_ok r limit) pages ∧ String.concat "" (rv_text <$> pages) = final_text r.
Proof. intros Hl Hc. apply (read_pages_ok r limit Hl Hc); [done | lia]. Qed.

Lemma pages_reassemble_witness :
  let r := mk_result Completed (bytes3 226 130 172 +:+ "uro") false in
  ∃ pages, read_pages 7 r 4 0 = Some (Ok pages)
    ∧ Forall (page_ok r 4) pages ∧ String.concat "" (rv_text <$> pages) = final_text r.
Proof.
  apply (pages_reassemble (mk_result Completed (bytes3 226 130 172 +:+ "uro") false) 4); [lia|].
  intros i Hb Hi. simpl in Hi.
  destruct i as [|[|[|i]]]; try (vm_compute in Hb; discriminate); [by exists 3; split; [lia|]|].
  exists (S (S (S (S i)))). split; [lia|]. do 3 (destruct i as [|i]; [done|]). lia.
Defined.

(** A mix of states is degraded; one state survives; no evidence is unknown. *)
Lemma aggregate_states states :
  aggregate_component_state states =
    match states with
    | [] => Unknown
    | s :: rest => if forallb (λ x, bool_decide (x = s)) rest then s else Degraded
    end.
Proof.
  unfold aggregate_component_state. destruct states as [|s rest]; [done|]. simpl.
  assert (Hmany : ∀ l a b seen, ∃ x y z, fold_left mark_state l (a :: b :: seen) = x :: y :: z).
  { induction l as [|x l IH]; intros a b seen; [eauto|]. simpl. unfold mark_state at 2.
    destruct (bool_decide (x ∈ a :: b :: seen)); apply IH. }
  unfold mark_state at 2. rewrite bool_decide_false by (apply not_elem_of_nil).
  induction rest as [|x rest IH]; [done|]. simpl. unfold mark_state at 2.
  destruct (decide (x = s)) as [->|Hne].
  - rewrite bool_decide_true by (by apply list_elem_of_singleton). rewrite bool_decide_true by done. apply IH.
  - rewrite bool_decide_false by (by rewrite list_elem_of_singleton). rewrite (bool_decide_false (x = s)) by done.
    simpl. by destruct (Hmany rest x s []) as (a & b & c & ->).
Qed.
