(* ===== verification/RpcBound.v ===== *)
(** * Fitting a wait response into its frame

    [crates/external-daemon/src/rpc/wait.rs], from [dedup_terminal_tail] on, with the
    response bodies of [rpc/types.rs].  A wait must always be answered, so a response
    that is too large is degraded in stages: the failure detail is shrunk, questions
    fall back to a prefix, and last the result page is shortened.  A response to a list
    of agents shares one frame between its bodies.

    The size of a response is that of its JSON text.  [serde_json::to_string] is a
    parameter; writing these types to memory cannot fail.  Lengths and offsets are
    [nat], the frame's cap is a [Z]. *)

From stdpp Require Import gmap.
From S2P Require Import Prelude RustStr Utf8 Json StoreRecords StoreOps RuntimeOwner Diagnostics RpcErrors RpcViews.

(** ** Bodies *)

Record TaskWaitBody := mk_body {
  wb_task : TaskHeaderView; wb_pending : list PendingRequestView; wb_activity : TaskActivityView;
  wb_result : option TaskResultView; wb_timed_out : bool; wb_receipt : option MessageReceiptView }.

Record TaskWaitManyBody := mk_many { wm_bodies : list (string * TaskWaitBody); wm_error : gmap string string }.

Definition set_pending_views (l : list PendingRequestView) (b : TaskWaitBody) : TaskWaitBody :=
  mk_body (wb_task b) l (wb_activity b) (wb_result b) (wb_timed_out b) (wb_receipt b).
Definition set_activity (a : TaskActivityView) (b : TaskWaitBody) : TaskWaitBody :=
  mk_body (wb_task b) (wb_pending b) a (wb_result b) (wb_timed_out b) (wb_receipt b).
Definition set_result (r : option TaskResultView) (b : TaskWaitBody) : TaskWaitBody :=
  mk_body (wb_task b) (wb_pending b) (wb_activity b) r (wb_timed_out b) (wb_receipt b).
Definition set_timed_out (t : bool) (b : TaskWaitBody) : TaskWaitBody :=
  mk_body (wb_task b) (wb_pending b) (wb_activity b) (wb_result b) t (wb_receipt b).

(** [if let Some(view) = body.result.as_mut()]. *)
Definition on_result (f : TaskResultView → TaskResultView) (b : TaskWaitBody) : TaskWaitBody :=
  set_result (f <$> wb_result b) b.

Definition set_failure (m : string) (v : TaskResultView) : TaskResultView :=
  mk_result_view (rv_outcome v) (rv_text v) (rv_partial v) (rv_offset v) (rv_total v) (rv_next v)
    (rv_reason v) (Some m).

(** The page cut at [e], with the cursor of the text it was taken from. *)
Definition cut_page (e : nat) (v : TaskResultView) : TaskResultView :=
  mk_result_view (rv_outcome v) (str_take e (rv_text v)) (rv_partial v) (rv_offset v) (rv_total v)
    (next_page (rv_total v) (rv_offset v + e)) (rv_reason v) (rv_failure v).

(** ** The tail of a terminal response *)

(** The text already embedded as the result page is not sent a second time. *)
Definition dedup_terminal_tail (tail final : string) : string :=
  if str_is_empty tail || str_is_empty final then tail
  else if ends_with tail final then str_take (String.length tail - String.length final) tail
  else if ends_with final tail then ""
  else tail.

(** ** The encoded response *)

Definition MAX_RESPONSE_FRAME_BYTES : Z := 2 * 1024 * 1024.
Definition MAX_REQUEST_ID_BYTES : nat := 128.

Definition opt_value {A} (f : A → Value) (o : option A) : Value := match o with Some a => f a | None => VNull end.
Definition count_value (n : nat) : Value := VNumber (PosInt (Z.of_nat n)).

Definition outcome_value (o : TaskOutcome) : Value :=
  VString (match o with
           | Completed => "COMPLETED" | Failed => "FAILED" | Cancelled => "CANCELLED" | TimedOut => "TIMED_OUT"
           | RuntimeLost => "RUNTIME_LOST" | ResultInvalid => "RESULT_INVALID"
           end).

Definition question_value (q : QuestionView) : Value :=
  VObject [("text", VString (q_text q)); ("truncated", VBool (q_truncated q))].

Definition request_value (p : PendingRequestView) : Value :=
  VObject [("request_id", VString (pv_request p)); ("kind", VString (pv_kind p));
           ("tool_name", opt_value VString (pv_tool p)); ("operation", VString (pv_operation p));
           ("summary", opt_value VString (pv_summary p)); ("question", opt_value question_value (pv_question p))].

Definition telemetry_value (t : TelemetryStatusView) : Value :=
  VString (match t with
           | TelemetryHealthy => "healthy" | TelemetryDegraded => "degraded" | TelemetryUnavailable => "unavailable"
           end).

Definition activity_value (a : TaskActivityView) : Value :=
  let number n := VNumber (PosInt n) in
  VObject [("latest_text_tail", VString (av_text_tail a)); ("latest_text_truncated", VBool (av_text_truncated a));
           ("tool_calls_last_60s", number (av_tool_calls_last_60s a)); ("in_flight_tool_count", number (av_in_flight a));
           ("oldest_in_flight_tool_age_ms", opt_value number (av_oldest_in_flight_ms a));
           ("last_activity_age_ms", opt_value number (av_last_activity_ms a));
           ("model_request_active", VBool (av_model_active a)); ("telemetry_status", telemetry_value (av_telemetry a))].

Definition result_value (v : TaskResultView) : Value :=
  VObject [("outcome", outcome_value (rv_outcome v)); ("final_text", VString (rv_text v));
           ("partial", VBool (rv_partial v)); ("offset", count_value (rv_offset v));
           ("total_bytes", count_value (rv_total v)); ("next_offset", opt_value count_value (rv_next v));
           ("reason_code", opt_value VString (rv_reason v)); ("failure_message", opt_value VString (rv_failure v))].

Definition receipt_value (m : MessageReceiptView) : Value :=
  VObject [("message_id", VString (receipt_message m)); ("state", VString (receipt_state m));
           ("failure_code", opt_value VString (receipt_failure m))].

Definition body_fields (b : TaskWaitBody) : Fields :=
  [("task", VObject [("agent_id", VString (header_agent (wb_task b))); ("status", VString (header_status (wb_task b)))]);
   ("pending_requests", VArray (request_value <$> wb_pending b)); ("activity", activity_value (wb_activity b));
   ("result", opt_value result_value (wb_result b)); ("timed_out", VBool (wb_timed_out b));
   ("message_receipt", opt_value receipt_value (wb_receipt b))].

(** The flat object of a list response ([wait_many::serialize]). *)
Definition many_fields (m : TaskWaitManyBody) : Fields :=
  let bodies := fold_left (λ map '(id, b), field_insert id (VObject (body_fields b)) map) (wm_bodies m) [] in
  if bool_decide (wm_error m = ∅) then bodies
  else field_insert "error"
         (VObject (fold_left (λ map '(id, marker), field_insert id (VString marker) map) (map_to_list (wm_error m)) []))
         bodies.

(** [RpcResponse::success] with the largest request id. *)
Definition wait_envelope (kind : string) (fields : Fields) : Value :=
  VObject [("request_id", VString (String.string_of_list_ascii (repeat (byte_of 1) MAX_REQUEST_ID_BYTES)));
           ("outcome", VString "success"); ("result", VObject (("kind", VString kind) :: fields))].

Section bound.
Context (to_string : Value → string) (from_str : string → result string Value).

Definition wait_envelope_fits (kind : string) (fields : Fields) : bool :=
  Z.leb (Z.of_nat (String.length (to_string (wait_envelope kind fields))) + 1) MAX_RESPONSE_FRAME_BYTES.

Definition body_fits (b : TaskWaitBody) : bool := wait_envelope_fits "task_wait" (body_fields b).
Definition many_fits (m : TaskWaitManyBody) : bool := wait_envelope_fits "task_wait_many" (many_fields m).

Definition oversized : RpcError := rpc_error ROversized "response frame exceeds cap".

Section fits.
(** What a body must fit into. *)
Context (fits : TaskWaitBody → bool).

(** ** Stage 1: the failure detail *)

Definition message_body_fits (base : TaskWaitBody) (message : string) : bool :=
  fits (on_result (set_failure message) base).

(** The search over budgets; every round drops at least one of them. *)
Fixpoint fit_loop (fuel : nat) (base : TaskWaitBody) (original : string) (lo hi : nat) (best : option string)
    : option string :=
  match fuel with
  | 0 => best
  | S fuel =>
      if Nat.leb lo hi then
        let mid := lo + (hi - lo) / 2 in
        match shrink_persistable_record to_string from_str original mid with
        | Some candidate =>
            if message_body_fits base candidate
            then if Nat.eqb mid hi then Some candidate
                 else fit_loop fuel base original (mid + 1) hi (Some candidate)
            else if Nat.eqb mid 0 then best else fit_loop fuel base original lo (mid - 1) best
        | None => if Nat.eqb mid 0 then best else fit_loop fuel base original lo (mid - 1) best
        end
      else best
  end.

Definition fit_failure_message (base : TaskWaitBody) (original : string) : string :=
  match fit_loop (S (String.length original)) base original 0 (String.length original) None with
  | Some m => m
  | None => default original (shrink_persistable_record to_string from_str original 0)
  end.

Definition shrink_failure (b : TaskWaitBody) : TaskWaitBody :=
  match wb_result b ≫= rv_failure with
  | Some original => on_result (set_failure (fit_failure_message b original)) b
  | None => b
  end.

(** ** Stage 2: the questions *)

Definition shrink_question (q : QuestionView) : QuestionView :=
  let text := truncate_utf8 (q_text q) MAX_QUESTION_SUMMARY_BYTES in
  mk_question text (q_truncated q || Nat.ltb (String.length text) (String.length (q_text q))).

Definition shrink_request (p : PendingRequestView) : PendingRequestView :=
  mk_request_view (pv_request p) (pv_kind p) (pv_tool p) (pv_operation p) (pv_summary p)
    (shrink_question <$> pv_question p).

Definition shrink_questions (b : TaskWaitBody) : TaskWaitBody :=
  set_pending_views (shrink_request <$> wb_pending b) b.

(** ** Stage 3: the page *)

(** The ends of a page that leave at least one character. *)
Definition page_ends (page : string) : list nat :=
  List.filter (is_char_boundary page) (seq 1 (String.length page - 1)).

(** [while lo < hi]: the largest index that fits. *)
Fixpoint bisect_last (fuel : nat) (ok : nat → bool) (lo hi : nat) : nat :=
  match fuel with
  | 0 => lo
  | S fuel =>
      if Nat.ltb lo hi then
        let mid := lo + (hi - lo + 1) / 2 in
        if ok mid then bisect_last fuel ok mid hi else bisect_last fuel ok lo (mid - 1)
      else lo
  end.

Definition shrunk_result_page (base : TaskWaitBody) : option nat :=
  match wb_result base with
  | None => None
  | Some view =>
      let ends := page_ends (rv_text view) in
      let fits_end index := fits (on_result (cut_page (nth index ends 0)) base) in
      if Nat.eqb (length ends) 0 then None
      else if fits_end 0 then Some (nth (bisect_last (length ends) fits_end 0 (length ends - 1)) ends 0)
      else None
  end.

Definition shrink_page (b : TaskWaitBody) : TaskWaitBody :=
  match shrunk_result_page b with Some e => on_result (cut_page e) b | None => b end.

Definition bound_wait_body (b : TaskWaitBody) : result RpcError TaskWaitBody :=
  if fits b then Ok b
  else
    let b1 := shrink_failure b in
    if fits b1 then Ok b1
    else
      let b2 := shrink_questions b1 in
      if fits b2 then Ok b2
      else let b3 := shrink_page b2 in if fits b3 then Ok b3 else Err oversized.
End fits.

Definition bound_wait_result (b : TaskWaitBody) : result RpcError TaskWaitBody := bound_wait_body body_fits b.

(** ** A list of bodies in one frame *)

Section many.
Context (fits_all : list (string * TaskWaitBody) → bool).

(** [probe_with]. *)
Definition replace_body (i : nat) (b : TaskWaitBody) (bodies : list (string * TaskWaitBody))
    : list (string * TaskWaitBody) := alter (λ '(id, _), (id, b)) i bodies.

(** The structured stages of one body, against the whole frame. *)
Definition shrink_structured (bodies : list (string * TaskWaitBody)) (i : nat) : list (string * TaskWaitBody) :=
  match bodies !! i with
  | None => bodies
  | Some (_, b) =>
      let fits c := fits_all (replace_body i c bodies) in
      if fits b then bodies
      else
        let c := shrink_failure fits b in
        replace_body i (if fits c then c else shrink_questions c) bodies
  end.

(** An equal share of the frame for every page, six bytes for each of its bytes. *)
Definition page_budget (count : nat) : nat := Z.to_nat (MAX_RESPONSE_FRAME_BYTES / 6) / Nat.max count 1.

Definition coarse_page (budget : nat) (v : TaskResultView) : TaskResultView :=
  if Nat.ltb budget (String.length (rv_text v))
  then cut_page (String.length (truncate_utf8 (rv_text v) budget)) v else v.

Definition page_length (b : TaskWaitBody) : nat :=
  match wb_result b with Some v => String.length (rv_text v) | None => 0 end.

(** The first of the longest pages. *)
Fixpoint longest_page (i target_len : nat) (target : option nat) (bodies : list (string * TaskWaitBody))
    : option nat :=
  match bodies with
  | [] => target
  | (_, b) :: rest =>
      if Nat.ltb target_len (page_length b) then longest_page (S i) (page_length b) (Some i) rest
      else longest_page (S i) target_len target rest
  end.

Definition halve_page (v : TaskResultView) : TaskResultView :=
  let current := String.length (rv_text v) in
  cut_page (prev_boundary (rv_text v) (Nat.min (Nat.max (current / 2) 1) (current - 1))) v.

(** Every round shortens a page. *)
Fixpoint halve_pages (fuel : nat) (bodies : list (string * TaskWaitBody)) : list (string * TaskWaitBody) :=
  match fuel with
  | 0 => bodies
  | S fuel =>
      if fits_all bodies then bodies
      else
        match longest_page 0 0 None bodies with
        | None => bodies
        | Some i =>
            match bodies !! i with
            | Some (_, b) =>
                if Nat.leb (page_length b) 1 then bodies
                else halve_pages fuel (replace_body i (on_result halve_page b) bodies)
            | None => bodies
            end
        end
  end.

Definition total_length (bodies : list (string * TaskWaitBody)) : nat := sum_list (page_length ∘ snd <$> bodies).

Definition bound_bodies (bodies : list (string * TaskWaitBody)) : result RpcError (list (string * TaskWaitBody)) :=
  if fits_all bodies then Ok bodies
  else
    let bodies := fold_left shrink_structured (seq 0 (length bodies)) bodies in
    if fits_all bodies then Ok bodies
    else
      let budget := page_budget (length bodies) in
      let bodies := prod_map id (on_result (coarse_page budget)) <$> bodies in
      if fits_all bodies then Ok bodies
      else
        let bodies := halve_pages (S (total_length bodies)) bodies in
        if fits_all bodies then Ok bodies else Err oversized.
End many.

Definition bound_wait_many_result (m : TaskWaitManyBody) : result RpcError TaskWaitManyBody :=
  bodies ← bound_bodies (λ bodies, many_fits (mk_many bodies (wm_error m))) (wm_bodies m);
  Ok (mk_many bodies (wm_error m)).
End bound.
