(* ===== verification/RpcWait.v ===== *)
(** * Waiting for agents

    [crates/external-daemon/src/rpc/wait.rs], the loops, with the access checks of
    [rpc/handlers.rs] they go through.  A wait polls the store until the task is
    terminal, somebody asks the caller something, or the deadline is over; a wait on a
    list polls all agents and answers in one frame.

    The store and the trackers belong to all threads: the reads of a round are
    arguments of the loop, one value per read.  A list of polls bounds what is
    observed of a loop; [None] says that it is still waiting.  Taking the text of a
    tracker may panic ([outcome]); [RpcWaitProps] shows that it does not. *)

From stdpp Require Import gmap.
From S2P Require Import Prelude RustStr Utf8 Json General StoreRecords StoreSql StoreOps Observation ActivityTracker RpcErrors RpcViews RpcBound.

(** ** Results that may also panic *)

Definition Rpc (A : Type) : Type := outcome (result RpcError A).

#[global] Instance rpc_ret : MRet Rpc := λ A a, Returns (Ok a).
#[global] Instance rpc_bind : MBind Rpc := λ A B f m,
  match m with Returns (Ok a) => f a | Returns (Err e) => Returns (Err e) | Panics => Panics end.

Definition rpc_lift {A} (r : result RpcError A) : Rpc A := Returns r.
Definition rpc_run {A} (m : outcome A) : Rpc A :=
  match m with Returns a => Returns (Ok a) | Panics => Panics end.

(** [Result::map_err]. *)
Definition map_err {E F A} (f : E → F) (r : result E A) : result F A :=
  match r with Ok a => Ok a | Err e => Err (f e) end.

(** ** Access to a task ([handlers.rs]) *)

Definition validate_text (value field : string) (max_bytes : nat) : result RpcError unit :=
  if str_is_empty value || Nat.ltb max_bytes (String.length value) || contains_char value (byte_of 0)
  then Err (rpc_error RValidation (field +:+ " is invalid")) else Ok tt.

Definition validate_id (value field : string) : result RpcError unit := validate_text value field 256.

Definition task_not_found : RpcError := rpc_error RNotFound "task was not found".

(** What one round reads of an agent: the row with its result and reason, the pending
    requests, the activity, and the tracker whose text is taken or looked at. *)
Record Reads := mk_reads {
  rd_db : Db; rd_pending_db : Db; rd_activity : option PassiveActivitySnapshot;
  rd_tracker : option PassiveActivityTracker }.

Record WaitPoll := mk_wait_poll {
  wp_interrupted : bool; wp_reads : Reads; wp_message_db : Db; wp_late : bool }.

Definition wait_interrupted : RpcError := rpc_error RUnavailable "wait interrupted".

Definition MAX_PENDING_REQUESTS : nat := 100.
Definition MAX_WAIT_AGENTS : nat := 16.

(** A request the caller can act on. *)
Definition wake_pending_request (p : PendingRow) : bool :=
  bool_decide (p_state p = PPending) && one_of (p_type p) ["permission"; "user_input"].

Section wait.
Context (to_string : Value → string) (from_str : string → result string Value)
  (decode_prepared : Value → option PreparedGeneralTask).

Definition validate_task_record (t : TaskRecord) : result RpcError TaskRecord :=
  match parse_json from_str (prepared_launch_json (rec_spec t)) ≫= decode_prepared with
  | Some prepared => if prep_repository prepared ≟ task_repository (rec_spec t) then Ok t else Err task_not_found
  | None => Err task_not_found
  end.

Definition require_task (id : string) (db : Db) : result RpcError TaskRecord :=
  _ ← validate_id id "agent_id";
  task ← map_err map_store (get_task id db);
  task ← ok_or task_not_found task;
  validate_task_record task.

Definition require_task_with_result (id : string) (db : Db)
    : result RpcError (TaskRecord * option (TaskResult * string) * option string) :=
  _ ← validate_id id "agent_id";
  found ← map_err map_store (task_with_result id db);
  '(task, stored, reason) ← ok_or task_not_found found;
  task ← validate_task_record task;
  Ok (task, stored, reason).

(** ** One agent *)

Definition message_receipt (id : string) (message : option string) (db : Db) : option MessageReceiptView :=
  m ← message ≫= λ mid, find_message mid (messages db);
  if m_agent m ≟ id then Some (mk_receipt (message_id m) (message_state_name (m_state m)) (m_failure_code m))
  else None.

Definition actionable_requests (id : string) (db : Db) : result RpcError (list PendingRow) :=
  l ← map_err map_store (pending_requests_all id db); Ok (List.filter wake_pending_request l).

Definition shown_requests (actionable : list PendingRow) : list PendingRequestView :=
  pending_request_view from_str <$> take MAX_PENDING_REQUESTS actionable.

Definition is_terminal (t : TaskRecord) : bool := bool_decide (rec_phase t = Terminal).

(** The first page of the result of a terminal task. *)
Definition result_page (t : TaskRecord) (stored : option (TaskResult * string)) (reason : option string)
    : result RpcError (option TaskResultView) :=
  match stored with
  | Some (r, _) =>
      if is_terminal t then
        v ← task_result_view r 0 MAX_RESULT_CHUNK_BYTES reason (failure_message_projection t r); Ok (Some v)
      else Ok None
  | None => Ok None
  end.

(** The answer of a round, before its text is taken; [None] while there is none. *)
Definition round_body (id : string) (message : option string) (p : WaitPoll)
    : result RpcError (option TaskWaitBody) :=
  let rd := wp_reads p in
  '(task, stored, reason) ← require_task_with_result id (rd_db rd);
  let receipt := message_receipt id message (wp_message_db p) in
  actionable ← actionable_requests (task_id (rec_spec task)) (rd_pending_db rd);
  let wake := negb (is_nil actionable) in
  let terminal := is_terminal task in
  if wake || terminal || wp_late p then
    page ← result_page task stored reason;
    Ok (Some (mk_body (task_header_view task) (shown_requests actionable) (task_activity_view (rd_activity rd)) page
                (negb wake && negb terminal && wp_late p) receipt))
  else Ok None.

(** The text is taken at the one point where a response is built. *)
Definition deliver_tail (tracker : option PassiveActivityTracker) (b : TaskWaitBody)
    : outcome (TaskWaitBody * option PassiveActivityTracker) :=
  '(b, tracker) ←
    match tracker with
    | None => Returns (b, None)
    | Some t =>
        '(tail, t) ← take_wait_tail t;
        Returns (set_activity (with_tail tail (wb_activity b)) b, Some t)
    end;
  Returns (match wb_result b with
           | Some page =>
               let a := wb_activity b in
               set_activity (set_text_tail (dedup_terminal_tail (av_text_tail a) (rv_text page)) a) b
           | None => b
           end, tracker).

(** [None]: another round.  The tracker is the one after the round. *)
Definition wait_round (id : string) (message : option string) (p : WaitPoll)
    : outcome (option (result RpcError TaskWaitBody * option PassiveActivityTracker)) :=
  let tracker := rd_tracker (wp_reads p) in
  if wp_interrupted p then Returns (Some (Err wait_interrupted, tracker))
  else
    match round_body id message p with
    | Err e => Returns (Some (Err e, tracker))
    | Ok None => Returns None
    | Ok (Some b) =>
        '(b, tracker) ← deliver_tail tracker b;
        Returns (Some (bound_wait_result to_string from_str b, tracker))
    end.

Fixpoint task_wait_one (id : string) (message : option string) (polls : list WaitPoll)
    : outcome (option (result RpcError TaskWaitBody * option PassiveActivityTracker)) :=
  match polls with
  | [] => Returns None
  | p :: polls =>
      answer ← wait_round id message p;
      match answer with Some a => Returns (Some a) | None => task_wait_one id message polls end
  end.

(** ** A list of agents *)

(** A snapshot of one agent: its body, whether somebody waits for the caller, whether
    it is terminal, and the epoch it was taken under. *)
Definition wait_body (id : string) (force : bool) (rd : Reads)
    : Rpc (option (TaskWaitBody * bool * bool * Z)) :=
  '(task, stored, reason) ← rpc_lift (require_task_with_result id (rd_db rd));
  actionable ← rpc_lift (actionable_requests (task_id (rec_spec task)) (rd_pending_db rd));
  let wake := negb (is_nil actionable) in
  let terminal := is_terminal task in
  if negb terminal && negb wake && negb force then mret None
  else
    page ← rpc_lift (result_page task stored reason);
    let activity := task_activity_view (rd_activity rd) in
    activity ← match rd_tracker rd with
               | Some t => rpc_run (tail ← peek_wait_tail t; Returns (with_tail tail activity))
               | None => mret activity
               end;
    mret (Some (mk_body (task_header_view task) (shown_requests actionable) activity page false None,
                wake, terminal, rec_owner_epoch task)).

(** What is known of an agent between rounds: a snapshot, whether it was terminal, and
    its epoch. *)
Definition Slot : Type := option (TaskWaitBody * bool * Z).

(** A round looks at an agent once: [None] when it is unknown, else its slot, whether
    it wakes the caller, and whether it is settled. *)
Definition scan_slot (id : string) (slot : Slot) (rd : Reads) : Rpc (option (Slot * bool * bool)) :=
  match slot with
  | Some (_, true, epoch) =>
      task ← rpc_lift (map_err map_store (get_task id (rd_db rd)));
      match task with
      | Some t => if is_terminal t && Z.eqb (rec_owner_epoch t) epoch
                  then mret (Some (slot, false, true)) else mret (Some (None, false, false))
      | None => mret None
      end
  | Some (_, false, _) => mret (Some (slot, false, false))
  | None =>
      match wait_body id false rd with
      | Returns (Err e) => if bool_decide (re_code e = RNotFound) then mret None else rpc_lift (Err e)
      | Returns (Ok None) => mret (Some (None, false, false))
      | Returns (Ok (Some (body, actionable, terminal, epoch))) =>
          mret (Some (Some (body, terminal, epoch), actionable, terminal))
      | Panics => Panics
      end
  end.

(** The scan of all agents: their slots, the unknown ones, whether somebody wakes the
    caller, whether all are settled. *)
Fixpoint scan_slots (reads : string → Reads) (unknown : gset string) (slots : list (string * Slot))
    : Rpc (list (string * Slot) * gset string * bool * bool) :=
  match slots with
  | [] => mret ([], unknown, false, true)
  | (id, slot) :: rest =>
      if bool_decide (id ∈ unknown) then
        '(rest, unknown, wake, settled) ← scan_slots reads unknown rest;
        mret ((id, slot) :: rest, unknown, wake, settled)
      else
        seen ← scan_slot id slot (reads id);
        match seen with
        | None =>
            '(rest, unknown, wake, settled) ← scan_slots reads ({[id]} ∪ unknown) rest;
            mret ((id, slot) :: rest, unknown, wake, settled)
        | Some (slot, actionable, done) =>
            '(rest, unknown, wake, settled) ← scan_slots reads unknown rest;
            mret ((id, slot) :: rest, unknown, actionable || wake, done && settled)
        end
  end.

(** The body an agent is shown with, and whether it counts as terminal; an agent
    without a snapshot is read again. *)
Definition project_slot (again : string → Reads) (x : string * Slot) : Rpc (string * (TaskWaitBody * bool)) :=
  match x.2 with
  | Some (body, terminal, _) => mret (x.1, (body, terminal))
  | None =>
      forced ← wait_body x.1 true (again x.1);
      match forced with
      | Some (body, _, _, _) => mret (x.1, (body, false))
      | None => Panics
      end
  end.

Fixpoint rpc_traverse {A B} (f : A → Rpc B) (l : list A) : Rpc (list B) :=
  match l with
  | [] => mret []
  | a :: l => b ← f a; bs ← rpc_traverse f l; mret (b :: bs)
  end.

(** The distinct ids in the caller's order, and the repeated ones. *)
Definition distinct_ids (ids : list string) : list string * gset string :=
  fold_left (λ '(distinct, duplicated) id,
    if bool_decide (id ∈ distinct) then (distinct, {[id]} ∪ duplicated) else (distinct ++ [id], duplicated))
    ids ([], ∅).

Definition error_map (duplicated unknown : gset string) : gmap string string :=
  gset_to_gmap "unknown_agent" unknown ∪ gset_to_gmap "duplicated" duplicated.

Record ManyPoll := mk_many_poll {
  mp_interrupted : bool; mp_late : bool; mp_reads : string → Reads; mp_again : string → Reads;
  mp_tracker : string → option PassiveActivityTracker }.

(** The response of a round, before any text is taken. *)
Definition many_response (duplicated unknown : gset string) (expired : bool) (again : string → Reads)
    (slots : list (string * Slot)) : Rpc TaskWaitManyBody :=
  projected ← rpc_traverse (project_slot again) (List.filter (λ x, negb (bool_decide (x.1 ∈ unknown))) slots);
  let bodies := (λ '(id, (body, terminal)),
    (id, if expired && negb (terminal : bool) then set_timed_out true body else body)) <$> projected in
  rpc_lift (bound_wait_many_result to_string from_str (mk_many bodies (error_map duplicated unknown))).

(** The cursors are moved once the response is certain. *)
Definition deliver_tails (tracker : string → option PassiveActivityTracker) (m : TaskWaitManyBody)
    : Rpc (TaskWaitManyBody * list (string * option PassiveActivityTracker)) :=
  delivered ← rpc_traverse (λ '(id, body), '(b, t) ← rpc_run (deliver_tail (tracker id) body); mret ((id, b), (id, t)))
                (wm_bodies m);
  mret (mk_many delivered.*1 (wm_error m), delivered.*2).

Definition many_answer (duplicated unknown : gset string) (expired : bool) (p : ManyPoll)
    (slots : list (string * Slot)) : Rpc (TaskWaitManyBody * list (string * option PassiveActivityTracker)) :=
  m ← many_response duplicated unknown expired (mp_again p) slots;
  deliver_tails (mp_tracker p) m.

(** [None]: not answered yet.  With an answer, the trackers whose cursor it moved. *)
Fixpoint many_loop (duplicated unknown : gset string) (slots : list (string * Slot)) (polls : list ManyPoll)
    : Rpc (option (TaskWaitManyBody * list (string * option PassiveActivityTracker))) :=
  match polls with
  | [] => mret None
  | p :: polls =>
      if mp_interrupted p then rpc_lift (Err wait_interrupted)
      else
        '(slots, unknown, wake, settled) ← scan_slots (mp_reads p) unknown slots;
        if settled || wake || mp_late p then
          answer ← many_answer duplicated unknown (negb settled && negb wake && mp_late p) p slots;
          mret (Some answer)
        else many_loop duplicated unknown slots polls
  end.

Definition task_wait_many (ids : list string) (polls : list ManyPoll)
    : Rpc (option (TaskWaitManyBody * list (string * option PassiveActivityTracker))) :=
  let '(distinct, duplicated) := distinct_ids ids in
  many_loop duplicated ∅ ((λ id, (id, None)) <$> distinct) polls.
End wait.
