(* ===== verification/RpcWaitProps.v ===== *)
(** * Bounded responses and truthful waits

    A response is fitted into its frame by stages that only shorten it, and is left alone
    when it fits.  A wait on one agent answers at the first poll that shows something, and what it
    answers is what that poll showed, fitted into the frame.  A wait on a list accounts
    for every agent it was asked for. *)

From Stdlib Require Import RelationClasses.
From stdpp Require Import gmap.
From S2P Require Import Prelude RustStr Utf8 Json General StoreRecords StoreSql StoreOps StoreProps Observation ActivityTracker TrackerProps StoreRefine RpcErrors RpcViews RpcBound RpcWait RuntimeOwner Diagnostics.

(** ** Degraded responses are bounded and honest

    What the stages of [RpcBound] may change of a body is the preorder [degrades]:
    a shortened page keeps the cursor of the text it comes from, a shortened question
    is marked, a failure detail is rendered again from the same record with smaller
    budgets and a later start of its tail, and nothing else moves. *)

(** ** What a stage may change *)

Section degrade.
Context (to_string : Value → string) (from_str : string → result string Value).

(** A failure record rendered again from the same materials: the fields cut to budgets
    no larger than the original ones, the tail from a later character on and then
    marked as truncated. *)
Definition rerendered (m m' : string) : Prop :=
  ∃ fields cut b, from_str m = Ok (VObject fields)
    ∧ (let tail := default "" (get_str (VObject fields) "stderr_tail") in
       is_char_boundary tail cut = true
       ∧ m' = render_persistable to_string
                (record_materials (VObject fields) (str_drop cut tail)
                   (default false (get_bool (VObject fields) "tail_truncated") || Nat.ltb 0 cut)) b)
    ∧ b_id b ≤ PERSISTABLE_ID_BYTES ∧ b_code b ≤ PERSISTABLE_CODE_BYTES
    ∧ b_message b ≤ PERSISTABLE_MESSAGE_BYTES ∧ b_evidence b ≤ PERSISTABLE_EVIDENCE_BYTES.

Definition shorter_failure : relation string := rtc rerendered.

(** The cursor says whether the page reaches the end of its text. *)
Definition honest_view (v : TaskResultView) : Prop :=
  rv_next v = next_page (rv_total v) (rv_offset v + String.length (rv_text v)).

Record shorter_view (v v' : TaskResultView) : Prop := {
  sv_outcome : rv_outcome v' = rv_outcome v;
  sv_partial : rv_partial v' = rv_partial v;
  sv_offset : rv_offset v' = rv_offset v;
  sv_total : rv_total v' = rv_total v;
  sv_reason : rv_reason v' = rv_reason v;
  sv_prefix : ∃ rest, rv_text v = rv_text v' +:+ rest;
  sv_boundary : is_char_boundary (rv_text v) (String.length (rv_text v')) = true;
  sv_honest : honest_view v → honest_view v';
  sv_failure : option_Forall2 shorter_failure (rv_failure v) (rv_failure v') }.

Record shorter_question (q q' : QuestionView) : Prop := {
  sq_prefix : ∃ rest, q_text q = q_text q' +:+ rest;
  sq_marked : q_truncated q' = false → q_truncated q = false ∧ q_text q' = q_text q }.

Record shorter_request (p p' : PendingRequestView) : Prop := {
  sr_request : pv_request p' = pv_request p;
  sr_kind : pv_kind p' = pv_kind p;
  sr_tool : pv_tool p' = pv_tool p;
  sr_operation : pv_operation p' = pv_operation p;
  sr_summary : pv_summary p' = pv_summary p;
  sr_question : option_Forall2 shorter_question (pv_question p) (pv_question p') }.

Record degrades (b b' : TaskWaitBody) : Prop := {
  dg_task : wb_task b' = wb_task b;
  dg_activity : wb_activity b' = wb_activity b;
  dg_timed_out : wb_timed_out b' = wb_timed_out b;
  dg_receipt : wb_receipt b' = wb_receipt b;
  dg_pending : Forall2 shorter_request (wb_pending b) (wb_pending b');
  dg_result : option_Forall2 shorter_view (wb_result b) (wb_result b') }.

Lemma boundary_prefix a b i :
  is_char_boundary (a +:+ b) (String.length a) = true → is_char_boundary a i = true →
  is_char_boundary (a +:+ b) i = true.
Proof.
  intros Ha Hi. pose proof (boundary_le _ _ Hi) as Hle.
  destruct (decide (i = String.length a)) as [->|Hne]; [done|].
  destruct i as [|i]; [done|]. unfold is_char_boundary in *. bool_hyp.
  rewrite string_app_length, str_drop_app_le by lia.
  apply andb_true_iff. split; [apply Nat.leb_le; lia|].
  pose proof (str_drop_length (S i) a). destruct (str_drop (S i) a); simpl in *; [lia | done].
Qed.

#[global] Instance shorter_view_preorder : PreOrder shorter_view.
Proof.
  split.
  - intros v. split; try done; [by exists ""; rewrite string_app_nil_r | apply boundary_end].
  - intros u v w H1 H2. destruct H1 as [??????? Hh1 Hf1], H2 as [??????? Hh2 Hf2].
    destruct sv_prefix0 as [r1 E1], sv_prefix1 as [r2 E2].
    split; try congruence; [| |by auto | by etrans].
    + exists (r2 +:+ r1). by rewrite <- string_app_assoc, <- E2.
    + rewrite E1 in *. by apply boundary_prefix.
Qed.

#[global] Instance shorter_question_preorder : PreOrder shorter_question.
Proof.
  split.
  - intros q. split; [by exists ""; rewrite string_app_nil_r | done].
  - intros q r s [[r1 E1] M1] [[r2 E2] M2]. split.
    + exists (r2 +:+ r1). by rewrite <- string_app_assoc, <- E2.
    + intros Hs. destruct (M2 Hs) as [Hr Et]. destruct (M1 Hr) as [? ?]. split; congruence.
Qed.

#[global] Instance shorter_request_preorder : PreOrder shorter_request.
Proof.
  split.
  - intros p. by split.
  - intros p q r H1 H2. destruct H1, H2. split; try congruence. by etrans.
Qed.

#[global] Instance degrades_preorder : PreOrder degrades.
Proof.
  split.
  - intros b. by split.
  - intros a b c H1 H2. destruct H1, H2. split; try congruence; by etrans.
Qed.

(** ** The stages *)

Lemma degrades_result f b :
  (∀ v, wb_result b = Some v → shorter_view v (f v)) → degrades b (on_result f b).
Proof.
  intros Hf. split; try done. unfold on_result. simpl. destruct (wb_result b); constructor. by apply Hf.
Qed.

Lemma set_failure_shorter m m' v :
  rv_failure v = Some m → shorter_failure m m' → shorter_view v (set_failure m' v).
Proof.
  intros Hv Hm. split; try done; [by exists ""; rewrite string_app_nil_r | apply boundary_end |].
  cbn [rv_failure set_failure]. rewrite Hv. by constructor.
Qed.

Lemma cut_page_shorter e v : is_char_boundary (rv_text v) e = true → shorter_view v (cut_page e v).
Proof.
  intros Hb. pose proof (boundary_le _ _ Hb).
  assert (String.length (str_take e (rv_text v)) = e) as Hl by (rewrite str_take_length; lia).
  split; try done; cbn [cut_page rv_text].
  - eexists. symmetry. apply str_take_drop.
  - by rewrite Hl.
  - intros _. unfold honest_view, cut_page. simpl. by rewrite Hl.
Qed.

Lemma shrink_questions_degrades b : degrades b (shrink_questions b).
Proof.
  split; try done. simpl. apply Forall2_fmap_r, Forall_Forall2_diag, Forall_true. intros p.
  split; try done. simpl. destruct (pv_question p) as [q|]; constructor.
  unfold shrink_question. split; cbn [q_text q_truncated]; [apply truncate_utf8_prefix|].
  intros Hm. bool_hyp. split; [done|]. destruct (truncate_utf8_prefix (q_text q) MAX_QUESTION_SUMMARY_BYTES) as [t E].
  assert (t = "") as ->; [|by rewrite E at 2; rewrite string_app_nil_r].
  apply (f_equal String.length) in E. rewrite string_app_length in E. destruct t; [done | simpl in *; lia].
Qed.

(** The budgets only go down. *)
Lemma shrink_budgets_le fuel fits b :
  let b' := shrink_budgets fuel fits b in
  PERSISTABLE_MIN_BUDGET ≤ b_id b → PERSISTABLE_MIN_BUDGET ≤ b_code b →
  PERSISTABLE_MIN_BUDGET ≤ b_message b → PERSISTABLE_MIN_BUDGET ≤ b_evidence b →
  b_id b' ≤ b_id b ∧ b_code b' ≤ b_code b ∧ b_message b' ≤ b_message b ∧ b_evidence b' ≤ b_evidence b.
Proof.
  cbv zeta. revert b. induction fuel as [|fuel IH]; intros b H1 H2 H3 H4; cbn [shrink_budgets]; [done|].
  destruct (fits b || at_floor b); [done|].
  assert (∀ n, PERSISTABLE_MIN_BUDGET ≤ n → PERSISTABLE_MIN_BUDGET ≤ Nat.max (n / 2) PERSISTABLE_MIN_BUDGET ≤ n) as Hh.
  { intros n Hn. pose proof (Nat.div_le_upper_bound n 2 n ltac:(lia) ltac:(lia)). lia. }
  unfold shrunk. set (b1 := mk_budgets _ _ _ _).
  destruct (IH b1) as (? & ? & ? & ?); unfold b1; cbn [b_id b_code b_message b_evidence]; try apply Hh; try done.
  unfold b1 in *; cbn [b_id b_code b_message b_evidence] in *.
  pose proof (Hh _ H1). pose proof (Hh _ H2). pose proof (Hh _ H3). pose proof (Hh _ H4). lia.
Qed.

Lemma boundaries_spec t i : is_char_boundary t (nth i (boundaries t) 0) = true.
Proof.
  destruct (decide (i < length (boundaries t))) as [Hi|Hi]; [|by rewrite nth_overflow by lia].
  pose proof (nth_In (boundaries t) 0 Hi) as H. unfold boundaries in H at 2.
  apply in_app_iff in H as [[_ H]%List.filter_In|[<-|[]]]; [done | apply boundary_end].
Qed.

Lemma shrink_record_rerenders m max m' :
  shrink_persistable_record to_string from_str m max = Some m' → rerendered m m'.
Proof.
  unfold shrink_persistable_record, parse_detail. destruct (from_str m) as [[| | | | |fields]|] eqn:E; try done.
  cbv zeta. set (fits := λ b : PersistableBudgets, _). set (budgets := shrink_budgets 7 fits PERSISTABLE_BUDGETS).
  intros [= <-]. eexists fields, _, budgets. split; [done|].
  split; [split; [|reflexivity]; apply boundaries_spec|].
  apply (shrink_budgets_le 7 fits PERSISTABLE_BUDGETS); by apply Nat.leb_le; vm_compute.
Qed.

Section stages.

(** The least failure detail: the record at the smallest budgets, without its tail. *)
Definition floor_failure (b : TaskWaitBody) : TaskWaitBody :=
  match wb_result b ≫= rv_failure with
  | Some m => on_result (set_failure (default m (shrink_persistable_record to_string from_str m 0))) b
  | None => b
  end.

Lemma fit_loop_spec fits fuel base original lo hi best m :
  (∀ m, best = Some m → message_body_fits fits base m = true ∧ rerendered original m) →
  fit_loop to_string from_str fits fuel base original lo hi best = Some m →
  message_body_fits fits base m = true ∧ rerendered original m.
Proof.
  revert lo hi best. induction fuel as [|fuel IH]; intros lo hi best Hb; cbn [fit_loop]; [by apply Hb|].
  destruct (Nat.leb lo hi); [|by apply Hb]. cbv zeta. set (mid := lo + (hi - lo) / 2).
  assert (Hdown : (if Nat.eqb mid 0 then best else fit_loop to_string from_str fits fuel base original lo (mid - 1) best) = Some m →
    message_body_fits fits base m = true ∧ rerendered original m).
  { destruct (Nat.eqb mid 0); [by apply Hb | by apply IH]. }
  destruct (shrink_persistable_record _ _ _ _) as [c|] eqn:Ec; [|exact Hdown].
  destruct (message_body_fits fits base c) eqn:Ef; [|exact Hdown]. apply shrink_record_rerenders in Ec.
  destruct (Nat.eqb mid hi); [intros [= <-]; done|]. apply IH. by intros ? [= <-].
Qed.

Lemma fit_failure_shorter fits base original :
  shorter_failure original (fit_failure_message to_string from_str fits base original).
Proof.
  unfold fit_failure_message. destruct (fit_loop _ _ _ _ _ _ _ _ _) as [m|] eqn:E.
  - apply fit_loop_spec in E as [_ H]; [|done]. by apply rtc_once.
  - destruct (shrink_persistable_record _ _ _ _) as [m|] eqn:Es; cbn; [|apply rtc_refl].
    by eapply rtc_once, shrink_record_rerenders.
Qed.

Lemma shrink_failure_degrades fits b : degrades b (shrink_failure to_string from_str fits b).
Proof.
  unfold shrink_failure. destruct (wb_result b ≫= rv_failure) as [m|] eqn:E; [|done].
  apply degrades_result. intros v Hv. rewrite Hv in E. simpl in E.
  eapply set_failure_shorter; [done | apply fit_failure_shorter].
Qed.

(** When no budget fits, the failure detail is at its floor. *)
Lemma shrink_failure_floor fits b :
  fits (shrink_failure to_string from_str fits b) = false →
  shrink_failure to_string from_str fits b = floor_failure b.
Proof.
  unfold shrink_failure, floor_failure. destruct (wb_result b ≫= rv_failure) as [m|]; [|done].
  unfold fit_failure_message. destruct (fit_loop _ _ _ _ _ _ _ _ _) as [c|] eqn:E; [|done].
  apply fit_loop_spec in E as [H _]; [|done]. unfold message_body_fits in H. congruence.
Qed.

(** The search over pages: the result fits, and the next larger end does not. *)
Lemma bisect_last_spec fuel ok lo hi :
  lo ≤ hi → hi - lo ≤ fuel → ok lo = true →
  let r := bisect_last fuel ok lo hi in lo ≤ r ≤ hi ∧ ok r = true ∧ (r < hi → ok (S r) = false).
Proof.
  cbv zeta. revert lo hi. induction fuel as [|fuel IH]; intros lo hi Hle Hf Hlo; cbn [bisect_last].
  - split; [lia|]. split; [done | lia].
  - destruct (Nat.ltb_spec lo hi) as [Hlt|]; [|split; [lia|]; split; [done | lia]].
    set (mid := lo + (hi - lo + 1) / 2).
    assert (lo < mid ≤ hi) as Hmid.
    { unfold mid. pose proof (Nat.div_mod (hi - lo + 1) 2). pose proof (Nat.mod_upper_bound (hi - lo + 1) 2). lia. }
    destruct (ok mid) eqn:Em.
    + destruct (IH mid hi) as (? & ? & ?); [lia | lia | done|]. split; [lia | done].
    + destruct (IH lo (mid - 1)) as (Hr & Ho & Hn); [lia | lia | done|]. split; [lia|]. split; [done|]. intros _.
      destruct (decide (bisect_last fuel ok lo (mid - 1) = mid - 1)) as [E|E]; [|apply Hn; lia].
      rewrite E. by replace (S (mid - 1)) with mid by lia.
Qed.

Lemma page_ends_boundary page i :
  i < length (page_ends page) → is_char_boundary page (nth i (page_ends page) 0) = true.
Proof.
  intros Hi. pose proof (nth_In (page_ends page) 0 Hi) as H. by apply List.filter_In in H as [_ H].
Qed.

(** A page that was shortened fits, and is cut on a boundary inside it. *)
Lemma shrunk_page_spec fits b e :
  shrunk_result_page fits b = Some e →
  fits (on_result (cut_page e) b) = true
  ∧ ∃ v, wb_result b = Some v ∧ is_char_boundary (rv_text v) e = true.
Proof.
  unfold shrunk_result_page. destruct (wb_result b) as [v|] eqn:Ev; [|done].
  set (ends := page_ends (rv_text v)). set (ok := λ index, fits (on_result (cut_page (nth index ends 0)) b)).
  destruct (Nat.eqb_spec (length ends) 0); [done|].
  destruct (fits (on_result (cut_page (nth 0 ends 0)) b)) eqn:E0; [|done]. intros [= <-].
  destruct (bisect_last_spec (length ends) ok 0 (length ends - 1)) as (Hr & Ho & _); [lia | lia | done|].
  split; [exact Ho|]. exists v. split; [done|]. apply page_ends_boundary. fold ends. lia.
Qed.

Lemma shrink_page_degrades fits b : degrades b (shrink_page fits b).
Proof.
  unfold shrink_page. destruct (shrunk_result_page fits b) as [e|] eqn:E; [|done].
  destruct (shrunk_page_spec _ _ _ E) as (_ & v & Hv & Hb). apply degrades_result. intros v' Hv'.
  rewrite Hv in Hv'. injection Hv' as <-. by apply cut_page_shorter.
Qed.

(** The smallest body the last stage can reach. *)
Definition least_page (b : TaskWaitBody) : TaskWaitBody :=
  match wb_result b with
  | Some v => match page_ends (rv_text v) with e :: _ => on_result (cut_page e) b | [] => b end
  | None => b
  end.

Lemma shrink_page_refused fits b :
  fits b = false → fits (shrink_page fits b) = false → fits (least_page b) = false.
Proof.
  unfold shrink_page, least_page. destruct (shrunk_result_page fits b) as [e|] eqn:E.
  { intros _ Hf. apply shrunk_page_spec in E as [Hok _]. congruence. }
  intros Hb _. unfold shrunk_result_page in E. destruct (wb_result b) as [v|]; [|done].
  destruct (page_ends (rv_text v)) as [|e es]; [done|]. cbn in E.
  by destruct (fits (on_result (cut_page e) b)).
Qed.

(** The smallest body the stages can make of a body: the failure detail at its floor,
    the questions cut to their prefix, a page of one character. *)
Definition least_body (b : TaskWaitBody) : TaskWaitBody := least_page (shrink_questions (floor_failure b)).

Lemma bound_body_spec fits b :
  match bound_wait_body to_string from_str fits b with
  | Ok b' => fits b' = true ∧ degrades b b' ∧ (fits b = true → b' = b)
  | Err e => e = oversized ∧ fits b = false ∧ fits (least_body b) = false
  end.
Proof.
  unfold bound_wait_body. destruct (fits b) eqn:E0; [done|].
  pose proof (shrink_failure_degrades fits b) as D1. pose proof (shrink_failure_floor fits b) as F.
  set (b1 := shrink_failure _ _ _ _) in *.
  destruct (fits b1) eqn:E1; [done|]. rewrite (F eq_refl) in *. clear F b1.
  pose proof (shrink_questions_degrades (floor_failure b)) as D2. set (b2 := shrink_questions _) in *.
  destruct (fits b2) eqn:E2; [by split; [|split; [etrans|]]|].
  pose proof (shrink_page_degrades fits b2) as D3.
  destruct (fits (shrink_page fits b2)) eqn:E3; [by split; [|split; [do 2 (etrans; [done|])|]]|].
  split_and!; [done | done |]. by apply shrink_page_refused.
Qed.
End stages.

(** ** Lists of bodies *)

Definition degrades_pair (x y : string * TaskWaitBody) : Prop := y.1 = x.1 ∧ degrades x.2 y.2.
Definition degrades_all : relation (list (string * TaskWaitBody)) := Forall2 degrades_pair.

#[global] Instance degrades_pair_preorder : PreOrder degrades_pair.
Proof.
  split; [by intros x|]. intros x y z [E1 D1] [E2 D2]. split; [congruence | by etrans].
Qed.

#[global] Instance degrades_all_preorder : PreOrder degrades_all.
Proof. unfold degrades_all. split; apply _. Qed.

Lemma degrades_fmap f (bodies : list (string * TaskWaitBody)) :
  (∀ b, degrades b (f b)) → degrades_all bodies (prod_map id f <$> bodies).
Proof. intros Hf. apply Forall2_fmap_r, Forall_Forall2_diag, Forall_true. intros [i b]. by split. Qed.

Lemma replace_degrades i k b b' bodies :
  bodies !! i = Some (k, b) → degrades b b' → degrades_all bodies (replace_body i b' bodies).
Proof.
  intros Hi Hd. unfold replace_body. revert i Hi. induction bodies as [|[k' c] bodies IH]; intros [|i] Hi; try done; simpl in *.
  - injection Hi as -> ->. constructor; [done | reflexivity].
  - constructor; [done | by apply IH].
Qed.

Lemma coarse_page_shorter budget v : shorter_view v (coarse_page budget v).
Proof.
  unfold coarse_page. destruct (Nat.ltb_spec budget (String.length (rv_text v))) as [Hlt|]; [|done].
  apply cut_page_shorter. unfold truncate_utf8. rewrite (proj2 (Nat.ltb_lt _ _) Hlt), str_take_length.
  destruct (prev_boundary_spec (rv_text v) budget) as [Hb Hl]. by rewrite Nat.min_l by lia.
Qed.

Lemma halve_page_spec v :
  1 < String.length (rv_text v) →
  shorter_view v (halve_page v) ∧ String.length (rv_text (halve_page v)) < String.length (rv_text v).
Proof.
  intros Hv. unfold halve_page.
  destruct (prev_boundary_spec (rv_text v)
              (Nat.min (Nat.max (String.length (rv_text v) / 2) 1) (String.length (rv_text v) - 1))) as [Hb Hl].
  split; [by apply cut_page_shorter|]. cbn [rv_text cut_page]. rewrite str_take_length. lia.
Qed.

(** The page that is halved is one of the longest. *)
Lemma longest_page_spec bodies i len target :
  (longest_page i len target bodies = target ∧ Forall (λ x, page_length x.2 ≤ len) bodies)
  ∨ ∃ j k b, longest_page i len target bodies = Some (i + j) ∧ bodies !! j = Some (k, b)
      ∧ len < page_length b ∧ Forall (λ x, page_length x.2 ≤ page_length b) bodies.
Proof.
  revert i len target. induction bodies as [|[k b] bodies IH]; intros i len target; [by left|]. cbn [longest_page].
  destruct (Nat.ltb_spec len (page_length b)) as [Hlt|Hge].
  - destruct (IH (S i) (page_length b) (Some i)) as [[E H]|(j & k' & b' & E & Hj & Hlt' & H)]; right.
    + exists 0, k, b. rewrite E, Nat.add_0_r. repeat split; [done|]. by constructor.
    + exists (S j), k', b'. rewrite E. repeat split; [f_equal; lia | done | lia |]. constructor; [simpl; lia | done].
  - destruct (IH (S i) len target) as [[E H]|(j & k' & b' & E & Hj & Hlt' & H)]; [left | right].
    + split; [done|]. by constructor.
    + exists (S j), k', b'. rewrite E. repeat split; [f_equal; lia | done | lia |]. constructor; [simpl; lia | done].
Qed.

Lemma total_replace i k b b' bodies :
  bodies !! i = Some (k, b) → page_length b' < page_length b →
  total_length (replace_body i b' bodies) < total_length bodies.
Proof.
  unfold total_length, replace_body. revert i.
  induction bodies as [|[k' c] bodies IH]; intros [|i] Hi Hl; try done; cbn in Hi |- *.
  - injection Hi as -> ->. simpl. lia.
  - pose proof (IH i Hi Hl). simpl in *. lia.
Qed.

Lemma str_take_take n k t : str_take n (str_take k t) = str_take (Nat.min n k) t.
Proof. revert k t. induction n as [|n IH]; intros [|k] [|c t]; cbn; try done. by rewrite IH. Qed.

(** A body whose page was cut, once or several times, and nothing else. *)
Definition recut (v v' : TaskResultView) : Prop :=
  v' = v ∨ ∃ e, e ≤ String.length (rv_text v) ∧ v' = cut_page e v.

Record recut_body (b c : TaskWaitBody) : Prop := {
  rc_rest : c = set_result (wb_result c) b;
  rc_page : option_Forall2 recut (wb_result b) (wb_result c) }.

#[local] Instance recut_preorder : PreOrder recut.
Proof.
  split; [by left|]. intros u v w [->|(e & He & ->)] [->|(e' & He' & ->)]; try (by left); [by right; eauto.. |].
  right. exists e'. cbn [rv_text cut_page] in He'. rewrite str_take_length in He'. split; [lia|].
  unfold cut_page. cbn. by rewrite str_take_take, Nat.min_l by lia.
Qed.

#[local] Instance recut_body_preorder : PreOrder recut_body.
Proof.
  split; [intros b; split; [by destruct b | reflexivity]|].
  intros a b c [E1 P1] [E2 P2]. split; [|by etrans]. rewrite E2, E1. done.
Qed.

Lemma recut_result f b : (∀ v, wb_result b = Some v → recut v (f v)) → recut_body b (on_result f b).
Proof.
  intros Hf. split; [done|]. unfold on_result. cbn. destruct (wb_result b); constructor. by apply Hf.
Qed.

Definition recut_all : relation (list (string * TaskWaitBody)) :=
  Forall2 (λ x y, y.1 = x.1 ∧ recut_body x.2 y.2).

#[local] Instance recut_all_preorder : PreOrder recut_all.
Proof.
  split.
  - intros l. apply Forall_Forall2_diag, Forall_true. by intros x.
  - intros a b c H1 H2. eapply Forall2_trans; [|exact H1 | exact H2].
    intros x y z [E1 R1] [E2 R2]. split; [congruence | by etrans].
Qed.

Lemma replace_recut i k b b' bodies :
  bodies !! i = Some (k, b) → recut_body b b' → recut_all bodies (replace_body i b' bodies).
Proof.
  intros Hi Hd. unfold replace_body. revert i Hi. induction bodies as [|[k' c] bodies IH]; intros [|i] Hi; try done; simpl in *.
  - injection Hi as -> ->. constructor; [done | reflexivity].
  - constructor; [done | by apply IH].
Qed.

Lemma coarse_recut budget v : recut v (coarse_page budget v).
Proof.
  unfold coarse_page. destruct (Nat.ltb_spec budget (String.length (rv_text v))); [|by left].
  right. eexists. split; [|done]. destruct (truncate_utf8_prefix (rv_text v) budget) as [t E].
  apply (f_equal String.length) in E. rewrite string_app_length in E. lia.
Qed.

Lemma halve_recut v : recut v (halve_page v).
Proof.
  right. unfold halve_page. eexists. split; [|done].
  match goal with |- prev_boundary ?t ?n ≤ _ => destruct (prev_boundary_spec t n) as [_ Hl] end. lia.
Qed.

Section many.
Context (fits_all : list (string * TaskWaitBody) → bool).

(** The structured stages of a body when nothing fits. *)
Definition floor_pair (x : string * TaskWaitBody) : string * TaskWaitBody :=
  (x.1, shrink_questions (floor_failure x.2)).

Lemma replace_middle pre k b c l :
  replace_body (length pre) c (pre ++ (k, b) :: l) = pre ++ (k, c) :: l.
Proof. unfold replace_body. by induction pre as [|x pre IH]; cbn; [|f_equal]. Qed.

Lemma replace_same i k b bodies : bodies !! i = Some (k, b) → replace_body i b bodies = bodies.
Proof.
  unfold replace_body. revert i. induction bodies as [|[k' c] bodies IH]; intros [|i] Hi; try done; cbn in *.
  - by injection Hi as -> ->.
  - f_equal. by apply IH.
Qed.

Lemma structured_kept indices bodies :
  fits_all bodies = true →
  fold_left (shrink_structured to_string from_str fits_all) indices bodies = bodies.
Proof.
  intros Hf. induction indices as [|i indices IH]; [done|]. cbn [fold_left].
  assert (shrink_structured to_string from_str fits_all bodies i = bodies) as E; [|by rewrite E].
  unfold shrink_structured. destruct (bodies !! i) as [[k b]|] eqn:Hi; [|done].
  by rewrite (replace_same _ _ _ _ Hi), Hf.
Qed.

(** A list that is too large after the structured stages went through all of them. *)
Lemma structured_floor pre l :
  let r := fold_left (shrink_structured to_string from_str fits_all) (List.seq (length pre) (length l)) (pre ++ l) in
  fits_all r = false → r = pre ++ (floor_pair <$> l).
Proof.
  cbv zeta. revert pre. induction l as [|[k b] l IH]; intros pre; [done|]. cbn [length List.seq fold_left].
  unfold shrink_structured at 2 4. rewrite lookup_app_r, Nat.sub_diag by lia. cbn [lookup list_lookup].
  rewrite replace_middle. destruct (fits_all (pre ++ (k, b) :: l)) eqn:E0.
  { rewrite structured_kept by done. congruence. }
  set (fits := λ c, fits_all (replace_body (length pre) c (pre ++ (k, b) :: l))).
  pose proof (shrink_failure_floor fits b) as F. set (c := shrink_failure _ _ fits b) in *.
  assert (fits c = fits_all (pre ++ (k, c) :: l)) as Ec by (unfold fits; by rewrite replace_middle).
  rewrite replace_middle. change (fits_all (replace_body _ c _)) with (fits c). destruct (fits c) eqn:E1.
  { rewrite structured_kept by congruence. congruence. }
  rewrite (F eq_refl). specialize (IH (pre ++ [floor_pair (k, b)])).
  rewrite length_app, Nat.add_1_r, <- !app_assoc in IH. exact IH.
Qed.

Lemma structured_degrades bodies i : degrades_all bodies (shrink_structured to_string from_str fits_all bodies i).
Proof.
  unfold shrink_structured. destruct (bodies !! i) as [[k b]|] eqn:E; [|reflexivity].
  destruct (fits_all _); [reflexivity|]. apply (replace_degrades i k b); [done|].
  set (fits := λ c, _). pose proof (shrink_failure_degrades fits b) as D.
  case_match; [done|].
  etrans; [done | apply shrink_questions_degrades].
Qed.

Lemma structured_all indices bodies :
  degrades_all bodies (fold_left (shrink_structured to_string from_str fits_all) indices bodies).
Proof.
  revert bodies. induction indices as [|i indices IH]; intros bodies; [reflexivity|]. simpl.
  etrans; [apply (structured_degrades bodies i) | apply IH].
Qed.

Lemma halve_pages_spec fuel bodies :
  total_length bodies < fuel →
  let r := halve_pages fits_all fuel bodies in
  degrades_all bodies r ∧ recut_all bodies r
  ∧ (fits_all r = true ∨ Forall (λ x, page_length x.2 ≤ 1) r).
Proof.
  cbv zeta. revert bodies. induction fuel as [|fuel IH]; intros bodies Hf; [lia|]. cbn [halve_pages].
  destruct (fits_all bodies) eqn:Ef; [split_and!; [reflexivity.. | by left]|].
  destruct (longest_page_spec bodies 0 0 None) as [[-> H]|(j & k & b & -> & Hj & Hlt & H)].
  - split_and!; [reflexivity..|]. right. eapply Forall_impl; [done|]. simpl. lia.
  - simpl. rewrite Hj. destruct (Nat.leb_spec (page_length b) 1) as [Hle|Hgt].
    + split_and!; [reflexivity..|]. right. eapply Forall_impl; [done|]. simpl. lia.
    + unfold page_length in Hgt. destruct (wb_result b) as [v|] eqn:Ev; [|lia].
      destruct (halve_page_spec v Hgt) as [Hs Hl].
      destruct (IH (replace_body j (on_result halve_page b) bodies)) as (D & C & R).
      { assert (total_length (replace_body j (on_result halve_page b) bodies) < total_length bodies); [|lia].
        apply (total_replace j k b); [done|]. unfold page_length. simpl. by rewrite Ev. }
      split_and!; [| |done].
      * etrans; [|exact D]. apply (replace_degrades j k b); [done|].
        apply degrades_result. intros v' Hv'. rewrite Ev in Hv'. by injection Hv' as <-.
      * etrans; [|exact C]. apply (replace_recut j k b); [done|]. apply recut_result. intros. apply halve_recut.
Qed.

(** The smallest bodies the stages can make of a list: failure details at their floor,
    questions cut to their prefix, and pages of at most one byte. *)
Definition least_bodies (bodies least : list (string * TaskWaitBody)) : Prop :=
  Forall2 (λ x y, y.1 = x.1 ∧ recut_body (shrink_questions (floor_failure x.2)) y.2 ∧ page_length y.2 ≤ 1)
    bodies least.

Lemma bound_bodies_spec bodies :
  match bound_bodies to_string from_str fits_all bodies with
  | Ok bodies' => fits_all bodies' = true ∧ degrades_all bodies bodies' ∧ (fits_all bodies = true → bodies' = bodies)
  | Err e => e = oversized ∧ fits_all bodies = false
               ∧ ∃ least, least_bodies bodies least ∧ fits_all least = false
  end.
Proof.
  unfold bound_bodies. destruct (fits_all bodies) eqn:E0; [by split; [|split; [reflexivity|]]|].
  pose proof (structured_all (List.seq 0 (length bodies)) bodies) as D1.
  pose proof (structured_floor [] bodies) as F. cbn [app length] in F. cbv zeta in F.
  set (b1 := fold_left _ _ _) in *.
  destruct (fits_all b1) eqn:E1; [done|]. specialize (F eq_refl). set (f := on_result _).
  assert (D2 : degrades_all b1 (prod_map id f <$> b1)).
  { apply degrades_fmap. intros b. apply degrades_result. intros v _. apply coarse_page_shorter. }
  assert (C2 : recut_all b1 (prod_map id f <$> b1)).
  { apply Forall2_fmap_r, Forall_Forall2_diag, Forall_true. intros [i b]. split; [done|].
    apply recut_result. intros v _. apply coarse_recut. }
  set (b2 := prod_map id f <$> b1) in *. destruct (fits_all b2) eqn:E2; [by split; [|split; [etrans|]]|].
  destruct (halve_pages_spec (S (total_length b2)) b2) as (D3 & C3 & H); [lia|]. set (b3 := halve_pages _ _ _) in *.
  assert (D : degrades_all bodies b3) by (etrans; [exact D1|]; by etrans).
  destruct (fits_all b3) eqn:E3; [done|]. split_and!; [done | done |]. exists b3. split; [|done].
  destruct H as [H|H]; [done|]. assert (C : recut_all b1 b3) by by etrans.
  rewrite F in C. apply Forall2_fmap_l in C. unfold least_bodies. clear -C H.
  induction C as [|x y xs ys [E R] C IH]; [constructor|]. apply Forall_cons in H as [Hy H].
  constructor; [done | by apply IH].
Qed.
End many.

(** ** The responses *)

(** C37. The response to a wait on one agent is bounded and honest.  What is sent fits
    the frame under the largest request id and differs from the response only as
    [degrades] allows: a prefix of the page with its cursor, marked prefixes of the
    questions, the failure record rendered again with smaller budgets.  A response that
    fits is sent as it is.  It is refused only as oversized, and only if the smallest
    body the stages can make of it, with the failure record at its floor, every
    question cut to its prefix and a page of a single character, does not fit. *)
Theorem wait_response_bounded b :
  match bound_wait_result to_string from_str b with
  | Ok b' => body_fits to_string b' = true ∧ degrades b b' ∧ (body_fits to_string b = true → b' = b)
  | Err e => e = oversized ∧ body_fits to_string b = false ∧ body_fits to_string (least_body b) = false
  end.
Proof. apply bound_body_spec. Qed.

End degrade.

(** A page that begins with a character of several bytes is halved down to nothing,
    although the comment on the loop says that it keeps one character. *)
Example multibyte_page_emptied :
  let v := mk_result_view Completed "é" false 0 2 None None None in
  rv_text (halve_page v) = "" ∧ rv_next (halve_page v) = Some 0.
Proof. by vm_compute. Qed.

(** ** The waits *)

(** ** The tail next to a result *)

Lemma ends_with_app s p : ends_with s p = true → ∃ a, s = a +:+ p.
Proof.
  induction s as [|c s IH]; cbn [ends_with]; intros H; apply orb_true_iff in H as [H|H]; bool_hyp; subst.
  - by exists "".
  - done.
  - by exists "".
  - destruct (IH H) as [a ->]. by exists (String c a).
Qed.

(** What is stripped from the tail is in the page. *)
Lemma dedup_spec tail final :
  ∃ cut, tail = dedup_terminal_tail tail final +:+ cut ∧ (cut = "" ∨ ∃ pre, final = pre +:+ cut).
Proof.
  unfold dedup_terminal_tail. destruct (str_is_empty tail || str_is_empty final).
  { exists "". rewrite string_app_nil_r. by split; [|left]. }
  destruct (ends_with tail final) eqn:E1.
  { apply ends_with_app in E1 as [a ->]. exists final. rewrite string_app_length.
    replace (String.length a + String.length final - String.length final) with (String.length a) by lia.
    rewrite str_take_app. split; [done|]. right. by exists "". }
  destruct (ends_with final tail) eqn:E2.
  { exists tail. split; [done|]. right. by apply ends_with_app. }
  exists "". rewrite string_app_nil_r. by split; [|left].
Qed.

Section one.
Context (to_string : Value → string) (from_str : string → result string Value)
  (decode_prepared : Value → option PreparedGeneralTask) (id : string) (message : option string).

Notation require := (require_task_with_result from_str decode_prepared).

(** A poll that gives no reason to answer. *)
Definition quiet (p : WaitPoll) : Prop :=
  wp_interrupted p = false ∧ wp_late p = false
  ∧ ∃ task stored reason, require id (rd_db (wp_reads p)) = Ok (task, stored, reason)
      ∧ is_terminal task = false
      ∧ actionable_requests (task_id (rec_spec task)) (rd_pending_db (wp_reads p)) = Ok [].

(** The page shown of a stored result: its start, and an honest cursor. *)
Definition truthful_result (task : TaskRecord) (stored : option (TaskResult * string)) (reason : option string)
    (shown : option TaskResultView) : Prop :=
  match shown with
  | None => is_terminal task = false ∨ stored = None
  | Some v =>
      is_terminal task = true
      ∧ ∃ r sha rest, stored = Some (r, sha) ∧ final_text r = rv_text v +:+ rest
          ∧ rv_offset v = 0 ∧ rv_total v = String.length (final_text r)
          ∧ rv_outcome v = res_outcome r ∧ rv_reason v = reason
          ∧ (rv_next v = if Nat.ltb (String.length (rv_text v)) (String.length (final_text r))
                         then Some (String.length (rv_text v)) else None)
  end.

(** Every byte of the text that was taken is sent, or is part of the stored result. *)
Definition truthful_text (stored : option (TaskResult * string)) (tracker tracker' : option PassiveActivityTracker)
    (a : TaskActivityView) : Prop :=
  match tracker with
  | None => tracker' = None
  | Some t =>
      ∃ tail t' cut, take_wait_tail t = Returns (tail, t') ∧ tracker' = Some t'
        ∧ av_text_truncated a = wait_truncated tail ∧ wait_text tail = av_text_tail a +:+ cut
        ∧ (cut = "" ∨ ∃ r sha pre rest, stored = Some (r, sha) ∧ final_text r = pre +:+ cut +:+ rest)
  end.

Record truthful (p : WaitPoll) (b : TaskWaitBody) (tracker' : option PassiveActivityTracker) : Prop := {
  tr_seen : ∃ task stored reason actionable,
    require id (rd_db (wp_reads p)) = Ok (task, stored, reason)
    ∧ actionable_requests (task_id (rec_spec task)) (rd_pending_db (wp_reads p)) = Ok actionable
    ∧ (actionable ≠ [] ∨ is_terminal task = true ∨ wp_late p = true)
    ∧ wb_task b = task_header_view task
    ∧ Forall2 shorter_request (shown_requests from_str actionable) (wb_pending b)
    ∧ (wb_timed_out b = true ↔ actionable = [] ∧ is_terminal task = false)
    ∧ truthful_result task stored reason (wb_result b)
    ∧ truthful_text stored (rd_tracker (wp_reads p)) tracker' (wb_activity b);
  tr_receipt : wb_receipt b = message_receipt id message (wp_message_db p);
  tr_fits : body_fits to_string b = true }.

(** ** A round *)

Lemma is_nil_spec {A} (l : list A) : is_nil l = true ↔ l = [].
Proof. by destruct l. Qed.

Lemma first_page_truthful task stored reason shown :
  result_page task stored reason = Ok shown →
  truthful_result task stored reason shown ∧ ∀ v, shown = Some v → honest_view v.
Proof.
  unfold result_page. destruct stored as [[r sha]|]; [|intros [= <-]; by split; [right|]].
  destruct (is_terminal task) eqn:Et; [|intros [= <-]; by split; [left|]].
  unfold task_result_view, result_page_bounds, paged_text_bounds.
  destruct (_ || _); [done|]. set (e := floor_boundary _ _ _).
  destruct (Nat.eqb e 0 && _); [done|]. intros [= <-].
  pose proof (page_bounds (final_text r) 0 MAX_RESULT_CHUNK_BYTES eq_refl) as (_ & He & _). fold e in He.
  rewrite Nat.sub_0_r. cbn [str_drop].
  assert (Hl : String.length (str_take e (final_text r)) = e) by (rewrite str_take_length; lia).
  split; [split; [done|]; exists r, sha, (str_drop e (final_text r)) | intros v [= <-]; unfold honest_view];
    cbn [rv_text rv_offset rv_total rv_outcome rv_reason rv_next]; rewrite Hl; [|done].
  rewrite str_take_drop. by repeat split.
Qed.

(** A page stays truthful when it is shortened. *)
Lemma truthful_shorter task stored reason shown shown' :
  truthful_result task stored reason shown → (∀ v, shown = Some v → honest_view v) →
  option_Forall2 (shorter_view to_string from_str) shown shown' → truthful_result task stored reason shown'.
Proof.
  intros Ht Hh Hs. destruct Hs as [v v' Hs|]; [|done]. specialize (Hh v eq_refl).
  destruct Ht as [Hterm (r & sha & rest & -> & Hf & Ho & Htot & Hout & Hr & Hn)].
  destruct Hs as [Eout _ Eoff Etot Ereas [rest' Ep] _ Hon _].
  split; [done|]. exists r, sha, (rest' +:+ rest). split; [done|].
  split; [by rewrite Hf, Ep, string_app_assoc|]. repeat split; try congruence.
  rewrite (Hon Hh). unfold next_page. by rewrite Eoff, Ho, Etot, Htot.
Qed.

Lemma round_body_some p b :
  round_body from_str decode_prepared id message p = Ok (Some b) →
  ∃ task stored reason actionable,
    require id (rd_db (wp_reads p)) = Ok (task, stored, reason)
    ∧ actionable_requests (task_id (rec_spec task)) (rd_pending_db (wp_reads p)) = Ok actionable
    ∧ (actionable ≠ [] ∨ is_terminal task = true ∨ wp_late p = true)
    ∧ wb_task b = task_header_view task
    ∧ wb_pending b = shown_requests from_str actionable
    ∧ (wb_timed_out b = true ↔ actionable = [] ∧ is_terminal task = false)
    ∧ result_page task stored reason = Ok (wb_result b)
    ∧ wb_receipt b = message_receipt id message (wp_message_db p).
Proof.
  unfold round_body. intros H. apply result_bind_ok in H as ([[task stored] reason] & Er & H).
  apply result_bind_ok in H as (actionable & Ea & H). cbv zeta in H.
  match type of H with (if ?c then _ else _) = _ => destruct c eqn:Ew; [|done] end.
  apply result_bind_ok in H as (page & Ep & [= <-]).
  exists task, stored, reason, actionable. cbn [wb_task wb_pending wb_timed_out wb_result wb_receipt].
  do 2 (split; [done|]). split; [|do 2 (split; [done|]); split; [|done]].
  - apply orb_true_iff in Ew as [Ew|Ew]; [|by right; right].
    apply orb_true_iff in Ew as [Ew|Ew]; [left | by right; left]. by destruct actionable.
  - split; [intros Ht; bool_hyp; by split; [apply is_nil_spec|]|]. intros [-> Ht]. by rewrite Ht in *.
Qed.

Lemma round_body_none p :
  wp_interrupted p = false →
  round_body from_str decode_prepared id message p = Ok None ↔ quiet p.
Proof.
  intros Hi. unfold round_body, quiet. split.
  - intros H. apply result_bind_ok in H as ([[task stored] reason] & Er & H).
    apply result_bind_ok in H as (actionable & Ea & H). cbv zeta in H.
    match type of H with (if ?c then _ else _) = _ => destruct c eqn:Ew end.
    { by apply result_bind_ok in H as (page & _ & H). }
    bool_hyp. split; [done|]. split; [done|]. exists task, stored, reason. split; [done|]. split; [done|].
    rewrite Ea. by destruct actionable.
  - intros (_ & Hl & task & stored & reason & Er & Ht & Ha). apply result_bind_ok.
    exists (task, stored, reason). split; [done|]. apply result_bind_ok. exists []. split; [done|].
    cbv zeta. cbn [is_nil negb orb]. by rewrite Ht, Hl.
Qed.

Lemma deliver_tail_ok tracker b stored :
  (∀ t, tracker = Some t → ∃ a, tracked to_string t a) →
  (∀ v, wb_result b = Some v → ∃ r sha rest, stored = Some (r, sha) ∧ final_text r = rv_text v +:+ rest) →
  ∃ a' tracker', deliver_tail tracker b = Returns (set_activity a' b, tracker')
    ∧ truthful_text stored tracker tracker' a'.
Proof.
  intros Ht Hv. unfold deliver_tail. destruct tracker as [t|].
  - destruct (Ht t eq_refl) as [a Ha]. destruct (wait_tail_spec a (state t)) as (tail & Hr & _); [by eapply tracked_tail_ok|].
    unfold take_wait_tail at 1. rewrite Hr. cbn [mbind outcome_bind].
    set (t' := mk_tracker _ _ _). assert (Htake : take_wait_tail t = Returns (tail, t')) by (unfold take_wait_tail; by rewrite Hr).
    cbn [wb_result set_activity wb_activity]. destruct (wb_result b) as [v|] eqn:Ev.
    + destruct (Hv v eq_refl) as (r & sha & rest & -> & Hf).
      destruct (dedup_spec (wait_text tail) (rv_text v)) as (cut & Hc & Hcut).
      do 2 eexists. split; [done|]. exists tail, t', cut. do 4 (split; [done|]).
      destruct Hcut as [|[pre Hpre]]; [by left | right]. exists r, sha, pre, rest.
      split; [done|]. by rewrite Hf, Hpre, string_app_assoc.
    + do 2 eexists. split; [done|]. exists tail, t', "". do 3 (split; [done|]).
      split; [by rewrite string_app_nil_r | by left].
  - cbn [mbind outcome_bind]. destruct b as [bt bp ba br bto brc]. cbn in *. destruct br as [v|].
    + by do 2 eexists.
    + by exists ba, None.
Qed.

(** ** The loop *)

(** What an error says: nothing was taken of the text unless the answer was built and
    is too large for the frame. *)
Definition refused (p : WaitPoll) (e : RpcError) (tracker' : option PassiveActivityTracker) : Prop :=
  (wp_interrupted p = true ∧ e = wait_interrupted ∧ tracker' = rd_tracker (wp_reads p))
  ∨ (round_body from_str decode_prepared id message p = Err e ∧ tracker' = rd_tracker (wp_reads p))
  ∨ e = oversized.

Lemma wait_round_spec p :
  (∀ t, rd_tracker (wp_reads p) = Some t → ∃ a, tracked to_string t a) →
  ∃ answer, wait_round to_string from_str decode_prepared id message p = Returns answer
    ∧ match answer with
      | None => quiet p
      | Some (Ok b, tracker') => ¬ quiet p ∧ truthful p b tracker'
      | Some (Err e, tracker') => ¬ quiet p ∧ refused p e tracker'
      end.
Proof.
  intros Ht. unfold wait_round. destruct (wp_interrupted p) eqn:Ei.
  { eexists. split; [done|]. split; [|by left]. intros (Hi & _). congruence. }
  pose proof (round_body_none p Ei) as Hq. destruct (round_body _ _ _ _ _) as [[b|]|e] eqn:Eb.
  - destruct (round_body_some p b Eb) as (task & stored & reason & actionable & Hr & Ha & Hw & Et & Ep & Eto & Epg & Erc).
    destruct (first_page_truthful _ _ _ _ Epg) as [Htr Hh].
    destruct (deliver_tail_ok (rd_tracker (wp_reads p)) b stored Ht) as (a' & tracker' & -> & Htext).
    { intros v Ev. rewrite Ev in Htr. destruct Htr as (_ & r & sha & rest & ? & ? & _). eauto. }
    cbn [mbind outcome_bind]. eexists. split; [done|].
    pose proof (bound_body_spec to_string from_str (body_fits to_string) (set_activity a' b)) as Hb.
    fold (bound_wait_result to_string from_str (set_activity a' b)) in Hb.
    assert (Hnq : ¬ quiet p) by (intros Q; apply Hq in Q; congruence).
    destruct (bound_wait_result _ _ _) as [b'|e]; [|by destruct Hb as [-> _]; split; [|right; right]].
    destruct Hb as (Hfit & [Dt Da Dto Drc Dp Dr] & _). cbn in Dt, Da, Dto, Drc, Dp, Dr.
    split; [done|]. split; [|by rewrite Drc | done]. exists task, stored, reason, actionable.
    rewrite Dt, Dto, Da, <- Ep. repeat split; try done; try (by apply Eto).
    by eapply truthful_shorter.
  - eexists. split; [done|]. by apply Hq.
  - eexists. split; [done|]. split; [intros Q; apply Hq in Q; congruence|]. right. left. by split.
Qed.

(** C27. A wait on one agent tells the truth and misses nothing.  It never panics, and as
    long as it has not answered, no poll showed a terminal task, a request the caller
    can act on, or the end of the deadline.  The answer comes from the first poll that
    did: it carries the status of the row, the requests the caller can act on (their
    questions possibly cut, and then marked), the start of the stored result with an
    honest cursor, and says that it timed out exactly when there was nothing else to
    say; every byte of the activity text it takes is in the answer or in the result.
    An error leaves the text where it was, unless the answer did not fit its frame. *)
Theorem wait_answers_truthfully polls :
  (∀ p t, p ∈ polls → rd_tracker (wp_reads p) = Some t → ∃ a, tracked to_string t a) →
  ∃ answer, task_wait_one to_string from_str decode_prepared id message polls = Returns answer
    ∧ match answer with
      | None => Forall quiet polls
      | Some (r, tracker') =>
          ∃ before p after, polls = before ++ p :: after ∧ Forall quiet before ∧ ¬ quiet p
            ∧ match r with Ok b => truthful p b tracker' | Err e => refused p e tracker' end
      end.
Proof.
  induction polls as [|p polls IH]; intros Ht; [by exists None|]. cbn [task_wait_one].
  destruct (wait_round_spec p) as (answer & -> & Ha); [intros t; apply Ht; left|].
  destruct answer as [[r tracker']|]; cbn [mbind outcome_bind].
  - eexists. split; [done|]. exists [], p, polls. by destruct r.
  - destruct IH as (answer & -> & Hrest); [intros q t Hq; apply Ht; by right|]. eexists. split; [done|].
    destruct answer as [[r tracker']|]; [|by constructor].
    destruct Hrest as (before & q & after & -> & Hb & Hq). exists (p :: before), q, after. by split; [|split; [constructor|]].
Qed.
End one.

(** ** Lists of agents *)

Lemma rpc_bind_ok {A B} (m : Rpc A) (f : A → Rpc B) b :
  (m ≫= f) = Returns (Ok b) ↔ ∃ a, m = Returns (Ok a) ∧ f a = Returns (Ok b).
Proof. destruct m as [[a|e]|]; simpl; naive_solver. Qed.

Lemma rpc_bind_panics {A B} (m : Rpc A) (f : A → Rpc B) :
  m ≠ Panics → (∀ a, m = Returns (Ok a) → f a ≠ Panics) → (m ≫= f) ≠ Panics.
Proof. destruct m as [[a|e]|]; simpl; naive_solver. Qed.

Lemma rpc_lift_ok {A} (r : result RpcError A) a : rpc_lift r = Returns (Ok a) → r = Ok a.
Proof. unfold rpc_lift. congruence. Qed.

Lemma rpc_lift_returns {A} (r : result RpcError A) : rpc_lift r ≠ Panics.
Proof. done. Qed.

Lemma rpc_traverse_ok {A B} (f : A → Rpc B) l bs :
  rpc_traverse f l = Returns (Ok bs) ↔ Forall2 (λ a b, f a = Returns (Ok b)) l bs.
Proof.
  revert bs. induction l as [|a l IH]; intros bs; cbn [rpc_traverse].
  - split; [intros [= <-]; constructor | by inversion 1].
  - rewrite rpc_bind_ok. split.
    + intros (b & Hb & H). apply rpc_bind_ok in H as (bs' & H & [= <-]). constructor; [done | by apply IH].
    + inversion 1 as [|? b ? bs' Hb Hbs]; subst. exists b. split; [done|]. apply rpc_bind_ok. exists bs'. by rewrite IH.
Qed.

Lemma rpc_traverse_panics {A B} (f : A → Rpc B) l :
  (∀ a, a ∈ l → f a ≠ Panics) → rpc_traverse f l ≠ Panics.
Proof.
  induction l as [|a l IH]; intros Hf; cbn [rpc_traverse]; [done|].
  apply rpc_bind_panics; [by apply Hf; left|]. intros b _.
  apply rpc_bind_panics; [apply IH; intros; apply Hf; by right | done].
Qed.

Lemma Forall2_known {A B} (P : A → Prop) (R Q : A → B → Prop) l k :
  Forall P l → Forall2 R l k → (∀ x y, P x → R x y → Q x y) → Forall2 Q l k.
Proof. intros HP HR H. induction HR; constructor; inversion HP; subst; auto. Qed.

(** The distinct ids, and those that occur again. *)
Lemma distinct_ids_spec ids :
  let '(distinct, duplicated) := distinct_ids ids in
  NoDup distinct ∧ (∀ id, id ∈ distinct ↔ id ∈ ids)
  ∧ ∀ id, id ∈ duplicated ↔ 2 ≤ length (filter (λ x, x = id) ids).
Proof.
  unfold distinct_ids. set (f := λ '(distinct, duplicated) (id : string), _).
  induction ids as [|x ids IH] using rev_ind; [by split; [constructor|]; split; [|set_solver by lia]|].
  rewrite fold_left_app. cbn [fold_left]. destruct (fold_left f ids ([], ∅)) as [distinct duplicated].
  destruct IH as (Hn & Hd & Hdup). unfold f.
  assert (Hlen : ∀ id, length (filter (λ y, y = id) (ids ++ [x]))
                       = length (filter (λ y, y = id) ids) + if decide (x = id) then 1 else 0).
  { intros id. rewrite filter_app, length_app, filter_cons, filter_nil. by destruct (decide (x = id)). }
  assert (Hpos : ∀ id, id ∈ ids ↔ 1 ≤ length (filter (λ y, y = id) ids)).
  { intros id. split.
    - intros Hin. assert (id ∈ filter (λ y, y = id) ids) as Hf by (by apply list_elem_of_filter).
      destruct (filter _ ids); [by apply not_elem_of_nil in Hf | simpl; lia].
    - intros Hl. destruct (filter (λ y, y = id) ids) as [|y l] eqn:E; [simpl in Hl; lia|].
      assert (y ∈ filter (λ y, y = id) ids) as Hy by (rewrite E; left).
      apply list_elem_of_filter in Hy as [-> Hy]. done. }
  destruct (bool_decide (x ∈ distinct)) eqn:Ex; bool_hyp.
  - split; [done|]. split; [intros id; rewrite elem_of_app, list_elem_of_singleton, Hd; naive_solver|].
    intros id. rewrite Hlen, elem_of_union, elem_of_singleton, Hdup. destruct (decide (x = id)) as [->|].
    + split; [intros _ | by left]. apply Hd, Hpos in Ex. lia.
    + split; [intros [?|?]; [congruence | lia] | right; lia].
  - split; [apply NoDup_app; repeat split; [done | set_solver | by apply NoDup_singleton]|].
    split; [set_solver|]. intros id. rewrite Hlen, Hdup. destruct (decide (x = id)) as [->|]; [|lia].
    assert (¬ 1 ≤ length (filter (λ y, y = id) ids)); [|lia]. rewrite <- Hpos, <- Hd. done.
Qed.

Section many.
Context (to_string : Value → string) (from_str : string → result string Value)
  (decode_prepared : Value → option PreparedGeneralTask).

Notation require := (require_task_with_result from_str decode_prepared).

(** A body is what one read of the agent showed, apart from the activity text. *)
Definition snapshot_of (id : string) (rd : Reads) (body : TaskWaitBody) (terminal : bool) (epoch : Z) : Prop :=
  ∃ task stored reason actionable,
    require id (rd_db rd) = Ok (task, stored, reason)
    ∧ actionable_requests (task_id (rec_spec task)) (rd_pending_db rd) = Ok actionable
    ∧ terminal = is_terminal task ∧ epoch = rec_owner_epoch task
    ∧ wb_task body = task_header_view task ∧ wb_pending body = shown_requests from_str actionable
    ∧ truthful_result task stored reason (wb_result body) ∧ (∀ v, wb_result body = Some v → honest_view v)
    ∧ wb_timed_out body = false.

Lemma wait_body_snapshot id force rd body wake terminal epoch :
  wait_body from_str decode_prepared id force rd = Returns (Ok (Some (body, wake, terminal, epoch))) →
  snapshot_of id rd body terminal epoch ∧ (wake = true → wb_pending body ≠ [])
  ∧ (wake = false → force = false → terminal = true).
Proof.
  unfold wait_body. intros H. apply rpc_bind_ok in H as ([[task stored] reason] & Hr & H). apply rpc_lift_ok in Hr.
  apply rpc_bind_ok in H as (actionable & Ha & H). apply rpc_lift_ok in Ha. cbv zeta in H.
  match type of H with (if ?c then _ else _) = _ => destruct c eqn:Ec; [done|] end.
  apply rpc_bind_ok in H as (page & Hp & H). apply rpc_lift_ok in Hp. apply rpc_bind_ok in H as (activity & _ & [= <- <- <- <-]).
  destruct (first_page_truthful _ _ _ _ Hp) as [Ht Hh].
  split_and!; [exists task, stored, reason, actionable; by repeat split | by destruct actionable |].
  intros Hw ->. destruct (is_terminal task); [done|]. by destruct actionable.
Qed.

Definition tracker_ok (t : option PassiveActivityTracker) : Prop :=
  ∀ t', t = Some t' → ∃ a, tracked to_string t' a.

Lemma wait_body_returns id force rd :
  tracker_ok (rd_tracker rd) →
  wait_body from_str decode_prepared id force rd ≠ Panics
  ∧ (force = true → wait_body from_str decode_prepared id force rd ≠ Returns (Ok None)).
Proof.
  intros Ht. unfold wait_body.
  assert (Htail : ∀ v, match rd_tracker rd with
                       | Some t => rpc_run (tail ← peek_wait_tail t; Returns (with_tail tail v))
                       | None => mret v
                       end ≠ Panics).
  { intros v. destruct (rd_tracker rd) as [t|]; [|done]. destruct (Ht t eq_refl) as [a Ha].
    destruct (wait_tail_spec a (state t)) as (tail & Hr & _); [by eapply tracked_tail_ok|].
    unfold peek_wait_tail. by rewrite Hr. }
  split.
  - apply rpc_bind_panics; [apply rpc_lift_returns|]. intros [[task stored] reason] _.
    apply rpc_bind_panics; [apply rpc_lift_returns|]. intros actionable _. cbv zeta.
    match goal with |- (if ?c then _ else _) ≠ _ => destruct c; [done|] end.
    apply rpc_bind_panics; [apply rpc_lift_returns|]. intros page _. by apply rpc_bind_panics.
  - intros -> H. apply rpc_bind_ok in H as ([[task stored] reason] & _ & H).
    apply rpc_bind_ok in H as (actionable & _ & H). cbv zeta in H. rewrite andb_false_r in H.
    apply rpc_bind_ok in H as (page & _ & H). by apply rpc_bind_ok in H as (activity & _ & H).
Qed.

(** The row of a read is terminal, in generation [epoch]. *)
Definition terminal_in (id : string) (rd : Reads) (epoch : Z) : Prop :=
  ∃ t, get_task id (rd_db rd) = Ok (Some t) ∧ is_terminal t = true ∧ rec_owner_epoch t = epoch.

(** What a slot may hold between two rounds: a snapshot of a terminal agent, taken in
    one of the reads in [seen]. *)
Definition slot_resting (seen : Reads → Prop) (id : string) (slot : Slot) : Prop :=
  match slot with
  | None => True
  | Some (body, terminal, epoch) => terminal = true ∧ ∃ rd, seen rd ∧ snapshot_of id rd body true epoch
  end.

(** What it may hold after the scan of [current]: a snapshot of that read, or one of
    [seen] of an agent that is terminal and still in the same generation in
    [current]. *)
Definition slot_ok (seen : Reads → Prop) (id : string) (slot : Slot) (current : Reads) : Prop :=
  match slot with
  | None => True
  | Some (body, terminal, epoch) =>
      (∃ rd, (rd = current ∨ (terminal = true ∧ seen rd)) ∧ snapshot_of id rd body terminal epoch)
      ∧ (terminal = true → terminal_in id current epoch)
  end.

Definition missing (id : string) (rd : Reads) : Prop :=
  get_task id (rd_db rd) = Ok None
  ∨ ∃ e, wait_body from_str decode_prepared id false rd = Returns (Err e) ∧ re_code e = RNotFound.

(** A required task is the row itself. *)
Lemma require_row id db task stored reason :
  require id db = Ok (task, stored, reason) → get_task id db = Ok (Some task).
Proof.
  unfold require_task_with_result. intros H. apply result_bind_ok in H as ([] & _ & H).
  apply result_bind_ok in H as (found & Hf & H). apply result_bind_ok in H as ([[t s] r] & Ho & H).
  apply result_bind_ok in H as (t' & Hv & [= <- <- <-]).
  assert (t' = t) as ->.
  { unfold validate_task_record in Hv. repeat case_match; by simplify_eq. }
  destruct found as [x|]; [|done]. injection Ho as ->. unfold task_with_result in Hf. unfold get_task.
  destruct (query_task_db db id) as [[x|]|]; [|done|done]. simpl in Hf. by injection Hf as ->.
Qed.

Lemma snapshot_row id rd body epoch : snapshot_of id rd body true epoch → terminal_in id rd epoch.
Proof.
  intros (task & stored & reason & actionable & Hr & _ & Ht & -> & _). exists task. by split; [eapply require_row|].
Qed.

Lemma scan_slot_spec seen id slot rd :
  slot_resting seen id slot →
  match scan_slot from_str decode_prepared id slot rd with
  | Returns (Ok (Some (slot', wake, settled))) =>
      slot_ok seen id slot' rd ∧ (settled = true → ∃ body epoch, slot' = Some (body, true, epoch))
      ∧ (wake = true → ∃ body terminal epoch, slot' = Some (body, terminal, epoch) ∧ wb_pending body ≠ [])
      ∧ (wake = false → ∀ body terminal epoch, slot' = Some (body, terminal, epoch) → terminal = true)
  | Returns (Ok None) => missing id rd
  | _ => True
  end.
Proof.
  intros Hs. unfold scan_slot. destruct slot as [[[body terminal] epoch]|].
  - destruct Hs as [-> (rd' & Hrd' & Hsnap)].
    destruct (map_err map_store (get_task id (rd_db rd))) as [task|e] eqn:Eg; [|done]. cbn [rpc_lift mbind rpc_bind].
    destruct (get_task id (rd_db rd)) as [task'|] eqn:Et; [|done]. injection Eg as ->.
    destruct task as [t|]; [|by left].
    destruct (is_terminal t && Z.eqb (rec_owner_epoch t) epoch) eqn:Ec; [|done]. apply andb_true_iff in Ec as [Hterm He].
    apply Z.eqb_eq in He. split_and!; [| by eauto | done | naive_solver].
    split; [exists rd'; auto|]. intros _. by exists t.
  - destruct (wait_body _ _ id false rd) as [[[[[[body wake] terminal] epoch]|]|e]|] eqn:Ew; try done.
    + apply wait_body_snapshot in Ew as (Hsnap & Hw & Hq).
      split_and!; [| by intros ->; eauto | intros ->; eauto 6 | by intros -> ? ? ? [= <- <- <-]; apply Hq].
      split; [exists rd; auto|]. intros ->. by eapply snapshot_row.
    + case_bool_decide; [|done]. right. by exists e.
Qed.

Definition slots_resting (seen : string → Reads → Prop) (unknown : gset string) (slots : list (string * Slot)) : Prop :=
  Forall (λ x, x.1 ∈ unknown ∨ slot_resting (seen x.1) x.1 x.2) slots.
Definition slots_ok (seen : string → Reads → Prop) (unknown : gset string) (current : string → Reads)
    (slots : list (string * Slot)) : Prop :=
  Forall (λ x, x.1 ∈ unknown ∨ slot_ok (seen x.1) x.1 x.2 (current x.1)) slots.

Lemma slots_resting_mono seen unknown unknown' slots :
  unknown ⊆ unknown' → slots_resting seen unknown slots → slots_resting seen unknown' slots.
Proof. intros Hsub H. eapply Forall_impl; [exact H|]. set_solver. Qed.

(** After a scan every slot holds for the reads of the scan, and the verdict is right. *)
Record scanned (seen : string → Reads → Prop) (reads : string → Reads) (unknown : gset string)
    (slots slots' : list (string * Slot)) (unknown' : gset string) (wake settled : bool) : Prop := {
  sc_ids : slots'.*1 = slots.*1;
  sc_sub : unknown ⊆ unknown';
  sc_ok : slots_ok seen unknown' reads slots';
  sc_missing : ∀ id, id ∈ unknown' → id ∈ unknown ∨ id ∈ slots.*1 ∧ missing id (reads id);
  sc_settled : settled = true → Forall (λ x, x.1 ∈ unknown' ∨ ∃ body epoch, x.2 = Some (body, true, epoch)) slots';
  sc_wake : wake = true → ∃ id body terminal epoch,
    (id, Some (body, terminal, epoch)) ∈ slots' ∧ id ∉ unknown' ∧ wb_pending body ≠ [];
  sc_quiet : wake = false → Forall (λ x, x.1 ∈ unknown'
    ∨ ∀ body terminal epoch, x.2 = Some (body, terminal, epoch) → terminal = true) slots' }.

Lemma scan_slots_spec seen reads unknown slots slots' unknown' wake settled :
  NoDup slots.*1 → slots_resting seen unknown slots →
  scan_slots from_str decode_prepared reads unknown slots = Returns (Ok (slots', unknown', wake, settled)) →
  scanned seen reads unknown slots slots' unknown' wake settled.
Proof.
  revert unknown slots' unknown' wake settled.
  induction slots as [|[id slot] rest IH]; intros unknown slots' unknown' wake settled Hnd Hok; cbn [scan_slots].
  { intros [= <- <- <- <-]. split; try done; first [by constructor | by left]. }
  apply Forall_cons_1 in Hok as [Hslot Hrest]. cbn [fst snd] in Hslot.
  cbn [fmap list_fmap fst] in Hnd. apply NoDup_cons in Hnd as [Hfresh Hnd]. case_bool_decide as Hu.
  - intros H. apply rpc_bind_ok in H as ([[[slots1 unknown1] wake1] settled1] & Hs & [= <- <- <- <-]).
    destruct (IH _ _ _ _ _ Hnd Hrest Hs) as [Hids Hsub Ho Hm Hse Hw Hq]. split; cbn.
    + by f_equal.
    + done.
    + constructor; [left; cbn; set_solver | done].
    + intros i Hi. destruct (Hm i Hi) as [|[? ?]]; [by left | right; split; [by right | done]].
    + intros ->. constructor; [left; cbn; set_solver | by apply Hse].
    + intros ->. destruct (Hw eq_refl) as (i & b & t & e & Hin & Hp). exists i, b, t, e. by split; [right|].
    + intros ->. constructor; [left; cbn; set_solver | by apply Hq].
  - destruct Hslot as [|Hslot]; [done|]. intros H. apply rpc_bind_ok in H as (verdict & Hv & H).
    pose proof (scan_slot_spec (seen id) id slot (reads id) Hslot) as Hstep. rewrite Hv in Hstep.
    destruct verdict as [[[slot1 actionable] done1]|].
    + apply rpc_bind_ok in H as ([[[slots1 unknown1] wake1] settled1] & Hs & [= <- <- <- <-]).
      destruct (IH _ _ _ _ _ Hnd Hrest Hs) as [Hids Hsub Ho Hm Hse Hw Hq].
      destruct Hstep as (Hslot1 & Hdone & Hwake & Hquiet). split; cbn.
      * by f_equal.
      * done.
      * constructor; [by right | done].
      * intros i Hi. destruct (Hm i Hi) as [|[? ?]]; [by left | right; split; [by right | done]].
      * intros Hb. apply andb_true_iff in Hb as [-> ->]. constructor; [right; by apply Hdone | by apply Hse].
      * intros Hb. apply orb_true_iff in Hb as [->| ->].
        -- destruct (Hwake eq_refl) as (b & t & e & -> & Hp). exists id, b, t, e. split; [left|]. split; [|done].
           intros Hin. by destruct (Hm id Hin) as [|[? _]].
        -- destruct (Hw eq_refl) as (i & b & t & e & Hin & Hp). exists i, b, t, e. by split; [right|].
      * intros Hb. apply orb_false_iff in Hb as [-> ->]. constructor; [right; cbn; by apply Hquiet | by apply Hq].
    + apply rpc_bind_ok in H as ([[[slots1 unknown1] wake1] settled1] & Hs & [= <- <- <- <-]).
      assert (Hrest' : slots_resting seen ({[id]} ∪ unknown) rest) by (eapply slots_resting_mono; [|done]; set_solver).
      destruct (IH _ _ _ _ _ Hnd Hrest' Hs) as [Hids Hsub Ho Hm Hse Hw Hq]. split; cbn.
      * by f_equal.
      * set_solver.
      * constructor; [left; cbn; set_solver | done].
      * intros i Hi. destruct (Hm i Hi) as [Hin|[Hin Hmiss]]; [|right; split; [by right | done]].
        apply elem_of_union in Hin as [Hin|Hin]; [|by left]. apply elem_of_singleton in Hin as ->. right. split; [left | done].
      * intros ->. constructor; [left; cbn; set_solver | by apply Hse].
      * intros ->. destruct (Hw eq_refl) as (i & b & t & e & Hin & Hp). exists i, b, t, e. by split; [right|].
      * intros ->. constructor; [left; cbn; set_solver | by apply Hq].
Qed.

(** ** The answer *)

(** A body of the answer at poll [p], after the polls [before]: shortened honestly from a
    snapshot of its agent.  The snapshot was read at [p], or read again for the answer,
    or in an earlier poll when the agent was terminal.  A terminal snapshot belongs to
    the generation that the row has in the read of [p] it was scanned or taken in. *)
Definition shows (before : list ManyPoll) (p : ManyPoll) (id : string) (body : TaskWaitBody) : Prop :=
  ∃ rd original terminal epoch,
    snapshot_of id rd original terminal epoch
    ∧ ((rd = mp_again p id)
       ∨ (rd = mp_reads p id ∧ (terminal = true → terminal_in id (mp_reads p id) epoch))
       ∨ (terminal = true ∧ (∃ q, q ∈ before ∧ rd = mp_reads q id) ∧ terminal_in id (mp_reads p id) epoch))
    ∧ wb_task body = wb_task original
    ∧ Forall2 shorter_request (wb_pending original) (wb_pending body)
    ∧ option_Forall2 (shorter_view to_string from_str) (wb_result original) (wb_result body)
    ∧ (wb_timed_out body = true → mp_late p = true).

Lemma deliver_tail_keeps tracker b b' tracker' :
  deliver_tail tracker b = Returns (b', tracker') → ∃ a, b' = set_activity a b.
Proof.
  unfold deliver_tail. destruct tracker as [t|].
  - destruct (take_wait_tail t) as [[tail t']|]; [|done]. cbn [mbind outcome_bind]. intros [= <- <-].
    cbn [wb_result set_activity]. destruct (wb_result b); by eexists.
  - cbn [mbind outcome_bind]. intros [= <- <-]. destruct b as [? ? a [v|] ? ?]; cbn; [by eexists | by exists a].
Qed.

(** What a slot is projected to, before the frame. *)
Lemma project_slot_shows before p x y :
  slot_ok (λ rd, ∃ q, q ∈ before ∧ rd = mp_reads q x.1) x.1 x.2 (mp_reads p x.1) →
  project_slot from_str decode_prepared (mp_again p) x = Returns (Ok y) →
  y.1 = x.1 ∧ wb_timed_out y.2.1 = false ∧ shows before p x.1 y.2.1.
Proof.
  intros Hok. destruct x as [id slot]. unfold project_slot. cbn [fst snd] in *.
  destruct slot as [[[body terminal] epoch]|].
  - intros [= <-]. cbn. destruct Hok as [(rd & Hrd & Hsnap) Hcur].
    assert (Hto : wb_timed_out body = false) by (destruct Hsnap as (? & ? & ? & ? & Hsnap); apply Hsnap).
    split_and!; [done | done |]. exists rd, body, terminal, epoch. split; [done|]. split.
    { right. destruct Hrd as [->|[-> Hq]]; [by left | right; auto]. }
    by split_and!; [..|congruence].
  - intros H. apply rpc_bind_ok in H as ([[[[body wake] terminal] epoch]|] & Hb & H); [|done]. injection H as <-. cbn.
    apply wait_body_snapshot in Hb as [Hsnap _].
    assert (Hto : wb_timed_out body = false) by (destruct Hsnap as (? & ? & ? & ? & Hsnap); apply Hsnap).
    split_and!; [done | done |]. exists (mp_again p id), body, terminal, epoch. split; [done|]. split; [by left|].
    by split_and!; [..|congruence].
Qed.

Lemma shows_degraded before p id b b' :
  shows before p id b → (wb_timed_out b' = true → mp_late p = true) →
  wb_task b' = wb_task b → Forall2 shorter_request (wb_pending b) (wb_pending b') →
  option_Forall2 (shorter_view to_string from_str) (wb_result b) (wb_result b') → shows before p id b'.
Proof.
  intros (rd & o & terminal & epoch & Hs & Hrd & Ht & Hp & Hr & _) Hto Ht' Hp' Hr'.
  exists rd, o, terminal, epoch. split_and!; [done | done | congruence | by etrans | by etrans | done].
Qed.

Lemma shows_late before p id b : shows before p id b → wb_timed_out b = true → mp_late p = true.
Proof. by intros (? & ? & ? & ? & _ & _ & _ & _ & _ & H). Qed.

(** How a slot ends up in the answer. *)
Definition carries (before : list ManyPoll) (p : ManyPoll) (x : string * Slot) (y : string * TaskWaitBody) : Prop :=
  y.1 = x.1 ∧ shows before p x.1 y.2
  ∧ ∀ b t e, x.2 = Some (b, t, e) → length (wb_pending y.2) = length (wb_pending b).

Lemma many_answer_shows before p duplicated unknown expired slots m trackers :
  (expired = true → mp_late p = true) →
  slots_ok (λ id rd, ∃ q, q ∈ before ∧ rd = mp_reads q id) unknown (mp_reads p) slots →
  many_answer to_string from_str decode_prepared duplicated unknown expired p slots = Returns (Ok (m, trackers)) →
  (wm_bodies m).*1 = (List.filter (λ x, negb (bool_decide (x.1 ∈ unknown))) slots).*1
  ∧ trackers.*1 = (wm_bodies m).*1 ∧ wm_error m = error_map duplicated unknown
  ∧ Forall (λ x, shows before p x.1 x.2) (wm_bodies m)
  ∧ ((∃ id b t e, (id, Some (b, t, e)) ∈ slots ∧ id ∉ unknown ∧ wb_pending b ≠ []) →
     ∃ x, x ∈ wm_bodies m ∧ wb_pending x.2 ≠ []).
Proof.
  intros Hexp Hok H. apply rpc_bind_ok in H as (m1 & Hm & Hd).
  apply rpc_bind_ok in Hm as (projected & Hproj & Hb). apply rpc_traverse_ok in Hproj. apply rpc_lift_ok in Hb.
  set (known := List.filter _ slots) in *.
  set (flag := λ '(id, (body, terminal)), (id, if expired && negb (terminal : bool) then set_timed_out true body else body)) in Hb.
  assert (Hknown : Forall (λ x, slot_ok (λ rd, ∃ q, q ∈ before ∧ rd = mp_reads q x.1) x.1 x.2 (mp_reads p x.1)) known).
  { apply Forall_forall. intros x Hx. unfold known in Hx. apply list_elem_of_In, List.filter_In in Hx as [Hx Hu].
    bool_hyp. unfold slots_ok in Hok. rewrite Forall_forall in Hok. by destruct (Hok x) as [|]; [apply list_elem_of_In | |]. }
  assert (R1 : Forall2 (carries before p) known (flag <$> projected)).
  { apply Forall2_fmap_r. eapply (Forall2_known _ _ _ _ _ Hknown Hproj). intros x [id [body terminal]] Hx Hy.
    destruct (project_slot_shows before p x _ Hx Hy) as (E & Hto & Hs). cbn in E, Hto, Hs.
    assert (Hl : ∀ b t e, x.2 = Some (b, t, e) → wb_pending body = wb_pending b).
    { intros b t e Ex. unfold project_slot in Hy. rewrite Ex in Hy. by injection Hy as _ <- _. }
    split; [done|]. cbn. destruct (expired && negb terminal) eqn:Ef; [|by split; [|intros ? ? ? Ex; rewrite (Hl _ _ _ Ex)]].
    bool_hyp. split; [|intros ? ? ? Ex; cbn; by rewrite (Hl _ _ _ Ex)].
    eapply shows_degraded; [exact Hs | by auto | done | done | done]. }
  unfold bound_wait_many_result in Hb. apply result_bind_ok in Hb as (bodies & Hbound & [= <-]).
  pose proof (bound_bodies_spec to_string from_str
    (λ bodies, many_fits to_string (mk_many bodies (error_map duplicated unknown))) (flag <$> projected)) as Hspec.
  cbn [wm_bodies wm_error] in Hbound. rewrite Hbound in Hspec. destruct Hspec as (_ & R2 & _).
  apply rpc_bind_ok in Hd as (delivered & Hdel & [= <- <-]). apply rpc_traverse_ok in Hdel. cbn [wm_bodies wm_error] in *.
  assert (R3 : Forall2 (carries before p) known bodies).
  { eapply Forall2_trans; [|exact R1 | exact R2]. intros x y z (E & Hs & Hl) [Ez [Dt _ Dto _ Dp Dr]].
    split; [congruence|]. split; [|intros b t e Ex; rewrite <- (Hl b t e Ex); symmetry; by eapply Forall2_length].
    eapply shows_degraded; [exact Hs | | done | done | done]. rewrite Dto. by eapply shows_late. }
  assert (R4 : Forall2 (λ x z, carries before p x z.1 ∧ z.2.1 = x.1) known delivered).
  { eapply Forall2_trans; [|exact R3 | exact Hdel]. intros x [id b] z (E & Hs & Hl) Hz. cbn in E, Hs, Hl, Hz. subst id.
    apply rpc_bind_ok in Hz as ([b' t'] & Hdt & [= <-]).
    destruct (deliver_tail (mp_tracker p x.1) b) as [[b'' t'']|] eqn:Ed; [|done]. injection Hdt as <- <-.
    apply deliver_tail_keeps in Ed as [a ->]. split; [|done]. split; [done|]. split; [|exact Hl].
    eapply shows_degraded; [exact Hs | | done | done | done]. by eapply shows_late. }
  assert (Hin : (∃ id b t e, (id, Some (b, t, e)) ∈ slots ∧ id ∉ unknown ∧ wb_pending b ≠ []) →
                ∃ id b t e, (id, Some (b, t, e)) ∈ known ∧ wb_pending b ≠ []).
  { intros (i & b & t & e & Hi & Hu & Hb). exists i, b, t, e. split; [|done].
    apply list_elem_of_In, List.filter_In. split; [by apply list_elem_of_In|]. cbn. by rewrite bool_decide_false. }
  clear -R4 Hin. enough (delivered.*1.*1 = known.*1 ∧ delivered.*2.*1 = delivered.*1.*1
    ∧ Forall (λ x, shows before p x.1 x.2) delivered.*1
    ∧ ((∃ id b t e, (id, Some (b, t, e)) ∈ known ∧ wb_pending b ≠ []) → ∃ x, x ∈ delivered.*1 ∧ wb_pending x.2 ≠ []))
    as (H1 & H2 & H3 & H4) by (repeat split; auto).
  clear Hin. induction R4 as [|x z known delivered [(E1 & Hs & Hl) E2] _ (IH1 & IH2 & IH3 & IH4)].
  { repeat split; [constructor|]. intros (? & ? & ? & ? & Hi & _). by apply not_elem_of_nil in Hi. }
  cbn. split; [by f_equal|]. split; [f_equal; congruence|]. split; [constructor; [by rewrite E1 | done]|].
  intros (i & b & t & e & Hi & Hb). apply elem_of_cons in Hi as [<-|Hi].
  - exists z.1. split; [left|]. intros Hz. apply Hb, nil_length_inv. rewrite <- (Hl b t e eq_refl). by rewrite Hz.
  - destruct IH4 as (y & Hy & Hp); [eauto 7|]. exists y. split; [by right | done].
Qed.

Lemma scan_slot_returns id slot rd :
  tracker_ok (rd_tracker rd) → scan_slot from_str decode_prepared id slot rd ≠ Panics.
Proof.
  intros Ht. destruct (wait_body_returns id false rd Ht) as [Hw _].
  unfold scan_slot. destruct slot as [[[body [|]] epoch]|]; [|done|].
  - apply rpc_bind_panics; [apply rpc_lift_returns|]. intros [t|] _; [|done]. by destruct (_ && _).
  - destruct (wait_body _ _ id false rd) as [[[[[[? ?] ?] ?]|]|e]|]; try done. by case_bool_decide.
Qed.

Lemma scan_slots_returns reads unknown slots :
  (∀ id, tracker_ok (rd_tracker (reads id))) → scan_slots from_str decode_prepared reads unknown slots ≠ Panics.
Proof.
  intros Ht. revert unknown. induction slots as [|[id slot] rest IH]; intros unknown; cbn [scan_slots]; [done|].
  case_bool_decide.
  - apply rpc_bind_panics; [apply IH|]. by intros [[[? ?] ?] ?] _.
  - apply rpc_bind_panics; [by apply scan_slot_returns|].
    intros [[[? ?] ?]|] _; (apply rpc_bind_panics; [apply IH|]); by intros [[[? ?] ?] ?] _.
Qed.

Lemma many_answer_returns duplicated unknown expired p slots :
  (∀ id, tracker_ok (rd_tracker (mp_again p id))) → (∀ id, tracker_ok (mp_tracker p id)) →
  many_answer to_string from_str decode_prepared duplicated unknown expired p slots ≠ Panics.
Proof.
  intros Ha Ht. apply rpc_bind_panics.
  - apply rpc_bind_panics; [|intros; apply rpc_lift_returns]. apply rpc_traverse_panics. intros [id slot] _.
    unfold project_slot. cbn [fst snd]. destruct slot as [[[? ?] ?]|]; [done|].
    destruct (wait_body_returns id true (mp_again p id) (Ha id)) as [Hp Hn].
    apply rpc_bind_panics; [done|]. intros [[[[? ?] ?] ?]|] Hf; [done|]. by destruct (Hn eq_refl).
  - intros m _. apply rpc_bind_panics; [|done]. apply rpc_traverse_panics. intros [id b] _.
    apply rpc_bind_panics; [|by intros [? ?] _]. unfold deliver_tail. destruct (mp_tracker p id) as [t|] eqn:Et; [|done].
    destruct (Ht id t Et) as [a Htr]. destruct (wait_tail_spec a (state t)) as (tail & Hr & _); [by eapply tracked_tail_ok|].
    unfold take_wait_tail. by rewrite Hr.
Qed.

(** Why a list was answered. *)
Definition reason_to_answer (p : ManyPoll) (m : TaskWaitManyBody) : Prop :=
  mp_late p = true ∨ (∃ x, x ∈ wm_bodies m ∧ wb_pending x.2 ≠ [])
  ∨ Forall (λ x, ∃ t, get_task x.1 (rd_db (mp_reads p x.1)) = Ok (Some t) ∧ is_terminal t = true) (wm_bodies m).

(** A poll at which the wait goes on. *)
Definition goes_on (p : ManyPoll) : Prop := mp_late p = false ∧ mp_interrupted p = false.

(** The answer of the loop, from the poll at which it is given; [before] are the polls
    before it. *)
Record answered (duplicated : gset string) (ids : list string) (before : list ManyPoll) (p : ManyPoll)
    (m : TaskWaitManyBody) (trackers : list (string * option PassiveActivityTracker)) (unknown : gset string) : Prop := {
  an_ids : ∀ id, id ∈ (wm_bodies m).*1 ↔ id ∈ ids ∧ id ∉ unknown;
  an_nodup : NoDup (wm_bodies m).*1;
  an_trackers : trackers.*1 = (wm_bodies m).*1;
  an_error : wm_error m = error_map duplicated unknown;
  an_unknown : ∀ id, id ∈ unknown → id ∈ ids ∧ ∃ q, q ∈ before ++ [p] ∧ missing id (mp_reads q id);
  an_shows : Forall (λ x, shows before p x.1 x.2) (wm_bodies m);
  an_reason : reason_to_answer p m }.

Lemma many_loop_spec before duplicated unknown slots polls r :
  NoDup slots.*1 →
  slots_resting (λ id rd, ∃ q, q ∈ before ∧ rd = mp_reads q id) unknown slots →
  (∀ id, id ∈ unknown → id ∈ slots.*1 ∧ ∃ q, q ∈ before ∧ missing id (mp_reads q id)) →
  many_loop to_string from_str decode_prepared duplicated unknown slots polls = Returns (Ok r) →
  match r with
  | None => Forall goes_on polls
  | Some (m, trackers) =>
      ∃ more p after unknown', polls = more ++ p :: after ∧ Forall goes_on more ∧ mp_interrupted p = false
        ∧ answered duplicated slots.*1 (before ++ more) p m trackers unknown'
  end.
Proof.
  revert before unknown slots. induction polls as [|p polls IH]; intros before unknown slots Hnd Hok Hunk;
    cbn [many_loop]; [by intros [= <-]|]. destruct (mp_interrupted p) eqn:Eint; [done|].
  intros H. apply rpc_bind_ok in H as ([[[slots1 unknown1] wake] settled] & Hscan & H).
  apply (scan_slots_spec (λ id rd, ∃ q, q ∈ before ∧ rd = mp_reads q id)) in Hscan
    as [Hids Hsub Hok1 Hmiss Hset Hwake Hquiet]; [|done|done].
  assert (Hunk1 : ∀ id, id ∈ unknown1 → id ∈ slots.*1 ∧ ∃ q, q ∈ before ++ [p] ∧ missing id (mp_reads q id)).
  { intros id Hi. destruct (Hmiss id Hi) as [Hi'|[Hi' Hm]].
    - destruct (Hunk _ Hi') as (? & q & Hq & ?). split; [done|]. exists q. split; [apply elem_of_app; by left | done].
    - split; [done|]. exists p. split; [apply elem_of_app; right; by left | done]. }
  destruct (settled || wake || mp_late p) eqn:Ew.
  - apply rpc_bind_ok in H as ([m trackers] & Ha & [= <-]). exists [], p, polls, unknown1.
    split_and!; [done | done | done|]. rewrite app_nil_r.
    apply (many_answer_shows before) in Ha as (Hb & Ht & He & Hshow & Hpend); [|by intros; bool_hyp|done].
    assert (Hmem : ∀ id, id ∈ (wm_bodies m).*1 ↔ id ∈ slots.*1 ∧ id ∉ unknown1).
    { intros id. rewrite Hb, <- Hids, !list_elem_of_fmap. split.
      - intros ([i sl] & -> & Hi). apply list_elem_of_In, List.filter_In in Hi as [Hi Hu]. bool_hyp.
        split; [|done]. exists (i, sl). split; [done | by apply list_elem_of_In].
      - intros [([i sl] & -> & Hi) Hu]. exists (i, sl). split; [done|].
        apply list_elem_of_In, List.filter_In. split; [by apply list_elem_of_In|]. cbn in *. by rewrite bool_decide_false. }
    split; try done; [rewrite Hb; apply NoDup_filter_fmap; by rewrite Hids|].
    apply orb_true_iff in Ew as [Ew|]; [|by left]. right. apply orb_true_iff in Ew as [->| ->]; [right | left; by auto].
    apply Forall_forall. intros [id body] Hx. specialize (Hset eq_refl).
    destruct (proj1 (Hmem id)) as [Hi Hu]; [by apply (list_elem_of_fmap_2 fst) in Hx|].
    rewrite <- Hids in Hi. apply list_elem_of_fmap in Hi as ([i sl] & -> & Hi). cbn in *.
    unfold slots_ok in Hok1. rewrite Forall_forall in Hok1, Hset.
    destruct (Hset _ Hi) as [|(b & e & Esl)]; [done|]. destruct (Hok1 _ Hi) as [|Hs]; [done|]. cbn in Esl, Hs. rewrite Esl in Hs.
    destruct Hs as [_ Hs]. destruct (Hs eq_refl) as (t & Hg & Hterm & _). by exists t.
  - apply orb_false_iff in Ew as [[Es ->]%orb_false_iff El].
    assert (Hrest : slots_resting (λ id rd, ∃ q, q ∈ before ++ [p] ∧ rd = mp_reads q id) unknown1 slots1).
    { specialize (Hquiet eq_refl). unfold slots_ok in Hok1. rewrite Forall_forall in Hok1, Hquiet.
      apply Forall_forall. intros [id sl] Hx. destruct (Hok1 _ Hx) as [|Hs]; [by left|].
      destruct (Hquiet _ Hx) as [|Hq]; [by left|]. right. cbn in *. destruct sl as [[[body terminal] epoch]|]; [|done].
      rewrite (Hq _ _ _ eq_refl) in *. destruct Hs as [(rd & Hrd & Hsnap) _]. split; [done|]. exists rd. split; [|done].
      destruct Hrd as [->|[_ (q & Hq' & ->)]]; [exists p | exists q];
        (split; [apply elem_of_app | done]); [right; by left | by left]. }
    apply (IH (before ++ [p])) in H; [|by rewrite Hids | done | by rewrite Hids].
    rewrite Hids in H. destruct r as [[m trackers]|]; [|constructor; [done | exact H]].
    destruct H as (more & p' & after & unknown' & -> & Hmore & Hint & Hans).
    exists (p :: more), p', after, unknown'. rewrite <- app_assoc in Hans.
    split_and!; [done | by constructor | done | exact Hans].
Qed.

Lemma many_loop_returns duplicated unknown slots polls :
  (∀ p, p ∈ polls → ∀ id, tracker_ok (rd_tracker (mp_reads p id)) ∧ tracker_ok (rd_tracker (mp_again p id))
                          ∧ tracker_ok (mp_tracker p id)) →
  many_loop to_string from_str decode_prepared duplicated unknown slots polls ≠ Panics.
Proof.
  revert unknown slots. induction polls as [|p polls IH]; intros unknown slots Ht; cbn [many_loop]; [done|].
  destruct (mp_interrupted p); [done|].
  assert (Hp : ∀ id, tracker_ok (rd_tracker (mp_reads p id)) ∧ tracker_ok (rd_tracker (mp_again p id))
                     ∧ tracker_ok (mp_tracker p id)) by (apply Ht; left).
  apply rpc_bind_panics; [apply scan_slots_returns; intros; apply Hp|]. intros [[[slots1 unknown1] wake] settled] _.
  destruct (settled || wake || mp_late p); [|apply IH; intros q Hq; apply Ht; by right].
  apply rpc_bind_panics; [apply many_answer_returns; intros; apply Hp | done].
Qed.

Lemma error_map_lookup duplicated unknown id :
  error_map duplicated unknown !! id
  = if decide (id ∈ unknown) then Some "unknown_agent" else if decide (id ∈ duplicated) then Some "duplicated" else None.
Proof.
  unfold error_map. rewrite lookup_union, !lookup_gset_to_gmap.
  destruct (decide (id ∈ unknown)), (decide (id ∈ duplicated));
    repeat first [rewrite option_guard_True by done | rewrite option_guard_False by done]; done.
Qed.

(** C28. A wait on a list accounts for every agent it was asked for.  It never panics,
    and it goes on only over polls that are neither late nor interrupted.  When it
    answers, it does so at one poll, and every id is either a key of the answer, once,
    or reported as unknown because that poll or an earlier one did not find it; a
    repeated id is reported as such and answered all the same.  The answer has a
    reason in that poll: the deadline, somebody with a request, or no agent left that
    is not terminal.  Every body is shortened honestly from a snapshot of its agent
    that was read at the answering poll or for the answer; only the snapshot of a
    terminal agent may be from an earlier poll, and then the answering poll still
    found the row terminal in the generation of the snapshot, so no result of an
    earlier run is reported. *)
Theorem list_wait_accounts ids polls :
  (∀ p, p ∈ polls → ∀ id, tracker_ok (rd_tracker (mp_reads p id)) ∧ tracker_ok (rd_tracker (mp_again p id))
                          ∧ tracker_ok (mp_tracker p id)) →
  let r := task_wait_many to_string from_str decode_prepared ids polls in
  r ≠ Panics
  ∧ (r = Returns (Ok None) → Forall goes_on polls)
  ∧ ∀ m trackers, r = Returns (Ok (Some (m, trackers))) →
      ∃ before p after (unknown : gset string),
        polls = before ++ p :: after ∧ Forall goes_on before ∧ mp_interrupted p = false
        ∧ NoDup (wm_bodies m).*1 ∧ (∀ id, id ∈ (wm_bodies m).*1 ↔ id ∈ ids ∧ id ∉ unknown)
        ∧ (∀ id, id ∈ unknown → id ∈ ids ∧ ∃ q, q ∈ before ++ [p] ∧ missing id (mp_reads q id))
        ∧ (∀ id, wm_error m !! id =
             if decide (id ∈ unknown) then Some "unknown_agent"
             else if decide (2 ≤ length (filter (λ x, x = id) ids)) then Some "duplicated" else None)
        ∧ trackers.*1 = (wm_bodies m).*1 ∧ reason_to_answer p m
        ∧ Forall (λ x, shows before p x.1 x.2) (wm_bodies m).
Proof.
  intros Ht r. unfold r, task_wait_many. clear r. pose proof (distinct_ids_spec ids) as Hd.
  destruct (distinct_ids ids) as [distinct duplicated]. destruct Hd as (Hn & Hin & Hdup).
  match goal with |- many_loop _ _ _ _ _ ?l _ ≠ _ ∧ _ => set (slots := l) end.
  assert (Hids : fmap (M:=list) (fst (A:=string) (B:=Slot)) slots = distinct) by (unfold slots; rewrite <- list_fmap_compose; apply list_fmap_id).
  assert (Hspec := λ r, many_loop_spec [] duplicated ∅ slots polls r ltac:(by rewrite Hids)
    ltac:(by apply Forall_fmap, Forall_true; right) ltac:(set_solver)).
  split_and!; [by apply many_loop_returns | apply (Hspec None)|]. intros m trackers H.
  destruct (Hspec _ H) as (before & p & after & unknown & -> & Hb & Hint & [Hmem Hnd Htr He Hunk Hshow Hreason]).
  rewrite Hids in Hmem, Hunk. exists before, p, after, unknown. split_and!; try done.
  - intros id. by rewrite Hmem, Hin.
  - intros id Hi. rewrite <- Hin. by apply Hunk.
  - intros id. rewrite He, error_map_lookup. repeat case_decide; by rewrite ?Hdup in *.
Qed.
End many.

(** ** Witnesses *)

Module WaitDemo.
Definition from_str (_ : string) : result string Value := Ok VNull.
Definition decode_prepared (_ : Value) : option PreparedGeneralTask := Some (Submission.task Build ["src"]).
Definition reads (db : Db) : Reads := mk_reads db db None (Some sample_tracker).
Notation poll db late := (mk_wait_poll false (reads db) db late).
Notation list_poll late first again :=
  (mk_many_poll false late (λ _, reads first) (λ _, reads again) (λ _, Some sample_tracker)).
Lemma sample_ok : tracker_ok sample_string (Some sample_tracker).
Proof. intros t [= <-]. eexists. apply sample_tracked. Qed.
End WaitDemo.
Import WaitDemo.

Lemma wait_answers_truthfully_witness :
  let polls := [poll History.running false; poll History.finished false] in
  let r := task_wait_one sample_string from_str decode_prepared "10000000" None polls in
  ∃ b tracker' p, r = Returns (Some (Ok b, tracker')) ∧ p ∈ polls
    ∧ truthful sample_string from_str decode_prepared "10000000" None p b tracker'
    ∧ header_status (wb_task b) = "completed" ∧ av_text_tail (wb_activity b) = "hello ".
Proof.
  intros polls r.
  destruct (wait_answers_truthfully sample_string from_str decode_prepared "10000000" None polls) as (answer & E & H).
  { intros p t Hp. assert (rd_tracker (wp_reads p) = Some sample_tracker) as ->; [|apply WaitDemo.sample_ok].
    unfold polls in Hp. apply elem_of_cons in Hp as [->|Hp]; [reflexivity|].
    apply list_elem_of_singleton in Hp as ->. reflexivity. }
  assert (Hv : match r with
               | Returns (Some (Ok b, _)) =>
                   (header_status (wb_task b) ≟ "completed") && (av_text_tail (wb_activity b) ≟ "hello ")
               | _ => false
               end = true) by (by vm_compute).
  fold r in E. rewrite E in Hv. destruct answer as [[[b|e] tracker']|]; [|done|done].
  destruct H as (before & p & after & Hpolls & _ & _ & Htrue). exists b, tracker', p. bool_hyp.
  split; [exact E|]. split; [|split; [exact Htrue | split; assumption]]. rewrite Hpolls. apply elem_of_app. right. left.
Defined.

Lemma list_wait_accounts_witness :
  let polls := [list_poll true History.finished History.finished] in
  let r := task_wait_many sample_string from_str decode_prepared ["10000000"; "10000000"] polls in
  ∃ m trackers, r = Returns (Ok (Some (m, trackers))) ∧ "10000000" ∈ (wm_bodies m).*1
    ∧ wm_error m !! "10000000" = Some "duplicated".
Proof.
  intros polls r.
  destruct (list_wait_accounts sample_string from_str decode_prepared ["10000000"; "10000000"] polls) as (_ & _ & H).
  { intros p Hp id. apply list_elem_of_singleton in Hp as ->. repeat split; apply WaitDemo.sample_ok. }
  assert (Hv : match r with
               | Returns (Ok (Some (m, _))) =>
                   bool_decide (wm_error m !! "10000000" = Some "duplicated")
               | _ => false
               end = true) by (by vm_compute).
  fold r in H. destruct r as [[[[m trackers]|]|e]|]; try done. exists m, trackers. bool_hyp. split; [done|]. split; [|done].
  destruct (H m trackers eq_refl) as (before & p & after & unknown & _ & _ & _ & _ & Hmem & Hunk & He & _). apply Hmem. split; [left|].
  intros Hu. specialize (He "10000000"). rewrite decide_True in He by done. congruence.
Defined.

(** An agent that becomes terminal between the last scan and the answer is reported with
    its result and as timed out, although a terminal agent is not to claim that. *)
Lemma terminal_reported_as_timed_out :
  let r := task_wait_many sample_string from_str decode_prepared ["10000000"]
             [list_poll true History.running History.finished] in
  match r with
  | Returns (Ok (Some (m, _))) =>
      forallb (λ x, wb_timed_out x.2 && is_some (wb_result x.2)) (wm_bodies m)
      && negb (is_nil (wm_bodies m))
  | _ => false
  end = true.
Proof. by vm_compute. Qed.
