(* ===== verification/RpcConfig.v ===== *)
(** * The agent configuration

    [crates/external-daemon/src/rpc/config.rs]: the persisted choice of agents, its
    migration from the first schema, and its validation.  The document is read as a
    [Value]; the text of the file and its decoding are arguments.  A [BTreeMap] is a
    [gmap] that is iterated in the order of its keys. *)

From stdpp Require Import gmap sorting.
From S2P Require Import Prelude RustStr Json RpcErrors.

Record AgentConfigEntry := mk_entry {
  ce_enabled : bool;
  ce_spawn_supported : bool;
  ce_default_model : option string;
  ce_runtime_path : option string;
  ce_home : option string;
  ce_profile : option string;
  ce_version : option string }.

Record AgentConfigSnapshot := mk_config {
  cf_schema_version : Z;
  cf_revision : Z;
  cf_default_subagent : option string;
  cf_runtime_process_model : option string;
  cf_subagents : gmap string AgentConfigEntry }.

#[global] Instance AgentConfigEntry_eq_dec : EqDecision AgentConfigEntry.
Proof. solve_decision. Defined.
#[global] Instance AgentConfigSnapshot_eq_dec : EqDecision AgentConfigSnapshot.
Proof. solve_decision. Defined.

(** ** Maps in the order of their keys *)

Definition key_le {A} (p q : string * A) : Prop := (p.1 ≤ q.1)%string.

#[global] Instance key_le_dec {A} : RelDecision (@key_le A).
Proof. intros p q. apply String.le_dec. Defined.

(** [BTreeMap::iter]. *)
Definition sorted_entries {A} (m : gmap string A) : list (string * A) := merge_sort key_le (map_to_list m).

(** ** Objects of JSON that are changed in place *)

(** [Map::insert]: the key keeps its place, a new one takes its place in the order. *)
Fixpoint insert_sorted (key : string) (v : Value) (fields : Fields) : Fields :=
  match fields with
  | [] => [(key, v)]
  | (k, w) :: rest => if String.ltb k key then (k, w) :: insert_sorted key v rest else (key, v) :: fields
  end.

Definition field_insert (key : string) (v : Value) (fields : Fields) : Fields :=
  insert_sorted key v (field_remove key fields).

(** [map.entry(key).or_insert(v)]. *)
Definition or_insert (key : string) (v : Value) (fields : Fields) : Fields :=
  if contains_key fields key then fields else field_insert key v fields.

(** The value of [from] moves to the key [to]. *)
Definition rename_field (from to : string) (fields : Fields) : Fields :=
  match field_lookup from fields with
  | Some v => field_insert to v (field_remove from fields)
  | None => fields
  end.

(** ** Defaults *)

Definition agent_names : list string := ["zcode"; "dsh"; "codex"; "agy"].

Definition closed_entry : AgentConfigEntry := mk_entry false false None None None None None.

Definition default_subagents : gmap string AgentConfigEntry :=
  list_to_map ((λ name, (name, closed_entry)) <$> agent_names).

Definition default_config : AgentConfigSnapshot := mk_config 2 0 None None default_subagents.

(** ** Migration *)

Definition config_error (message : string) : RpcError := rpc_error RValidation message.
Definition config_invalid : RpcError := config_error "agent config is invalid".

Definition ensure (ok : bool) (e : RpcError) : result RpcError unit := if ok then Ok tt else Err e.

Definition runtime_fields : list string := ["runtime_path"; "home"; "profile"; "version"].

(** Absent, null, or a string that is not empty. *)
Definition nonempty_or_null (v : option Value) : bool :=
  match v with
  | None | Some VNull => true
  | Some (VString s) => negb (str_is_empty s)
  | Some _ => false
  end.

Definition is_boolean (v : option Value) : bool := match v with Some (VBool _) => true | _ => false end.
Definition present_not_null (v : option Value) : bool :=
  match v with Some v => negb (is_null v) | None => false end.

Definition normalize_entry (name : string) (entry : Value) : result RpcError Value :=
  fields ← ok_or (config_error "agent config entry must be an object") (as_object entry);
  _ ← ensure (forallb (λ field, nonempty_or_null (field_lookup field fields)) runtime_fields)
        (config_error "agent config runtime fields must be non-empty strings or null");
  _ ← ensure (negb ((name ≟ "zcode") && present_not_null (field_lookup "runtime_path" fields)))
        (config_error "agent config runtime_path is unsupported for zcode");
  let fields := or_insert "default_model" VNull
                  (or_insert "spawn_supported" (VBool false) (or_insert "enabled" (VBool false) fields)) in
  _ ← ensure (is_boolean (field_lookup "enabled" fields) && is_boolean (field_lookup "spawn_supported" fields))
        (config_error "agent config flags must be booleans");
  _ ← ensure (nonempty_or_null (field_lookup "default_model" fields))
        (config_error "agent config model selection is invalid");
  _ ← ensure (negb ((name ≟ "zcode") && present_not_null (field_lookup "default_model" fields)))
        (rpc_error RModelSelectionUnsupported "agent config default_model is unsupported for zcode; spawn must carry an explicit provider/model");
  Ok (VObject fields).

Definition normalize_named (x : string * Value) : result RpcError (string * Value) :=
  v ← normalize_entry x.1 x.2; Ok (x.1, v).

Definition supported_schema (v : option Value) : bool :=
  match v with
  | None => true
  | Some v => bool_decide (as_u64 v = Some 1%Z) || bool_decide (as_u64 v = Some 2%Z)
  end.

Definition normalize_agent_config_value (value : Value) : result RpcError Value :=
  object ← ok_or config_invalid (as_object value);
  _ ← ensure (supported_schema (field_lookup "schema_version" object))
        (config_error "unsupported agent config schema version");
  let legacy := contains_key object "agents" || contains_key object "default_agent" in
  let canonical := contains_key object "subagents" || contains_key object "default_subagent" in
  let version := field_lookup "schema_version" object ≫= as_u64 in
  _ ← ensure (negb ((legacy && canonical) || (bool_decide (version = Some 1%Z) && canonical)
                   || (bool_decide (version = Some 2%Z) && legacy)))
        (config_error "agent config fields do not match schema version");
  let object := rename_field "default_agent" "default_subagent" (rename_field "agents" "subagents" object) in
  let object := field_insert "schema_version" (VNumber (PosInt 2)) object in
  match field_lookup "subagents" object with
  | None => Ok (VObject object)
  | Some agents =>
      agents ← ok_or (config_error "agent config subagents must be an object") (as_object agents);
      agents ← traverse normalize_named agents;
      Ok (VObject (field_insert "subagents" (VObject agents) object))
  end.

(** ** The derived codec *)

Definition known_fields (names : list string) (fields : Fields) : bool :=
  forallb (λ '(k, _), one_of k names) fields.

Definition decode_bool (v : option Value) : option bool :=
  match v with Some (VBool b) => Some b | _ => None end.

Definition decode_opt_string (v : option Value) : option (option string) :=
  match v with
  | None | Some VNull => Some None
  | Some (VString s) => Some (Some s)
  | Some _ => None
  end.

Definition decode_unsigned (max : Z) (v : option Value) : option Z :=
  match v with
  | None => Some 0%Z
  | Some v => n ← as_u64 v; if Z.leb n max then Some n else None
  end.

Definition entry_fields : list string :=
  ["enabled"; "spawn_supported"; "default_model"; "runtime_path"; "home"; "profile"; "version"].

Definition decode_entry (v : Value) : option AgentConfigEntry :=
  fields ← as_object v;
  if known_fields entry_fields fields then
    enabled ← decode_bool (field_lookup "enabled" fields);
    spawn ← decode_bool (field_lookup "spawn_supported" fields);
    model ← decode_opt_string (field_lookup "default_model" fields);
    path ← decode_opt_string (field_lookup "runtime_path" fields);
    home ← decode_opt_string (field_lookup "home" fields);
    profile ← decode_opt_string (field_lookup "profile" fields);
    version ← decode_opt_string (field_lookup "version" fields);
    Some (mk_entry enabled spawn model path home profile version)
  else None.

Definition decode_named (x : string * Value) : option (string * AgentConfigEntry) :=
  e ← decode_entry x.2; Some (x.1, e).

Definition decode_subagents (v : option Value) : option (gmap string AgentConfigEntry) :=
  match v with
  | None => Some ∅
  | Some v => fields ← as_object v; entries ← collect_option decode_named fields; Some (list_to_map entries)
  end.

Definition config_fields : list string :=
  ["schema_version"; "revision"; "default_subagent"; "runtime_process_model"; "subagents"].

Definition decode_config (v : Value) : option AgentConfigSnapshot :=
  fields ← as_object v;
  if known_fields config_fields fields then
    schema ← decode_unsigned u32_max (field_lookup "schema_version" fields);
    revision ← decode_unsigned u64_max (field_lookup "revision" fields);
    dflt ← decode_opt_string (field_lookup "default_subagent" fields);
    process ← decode_opt_string (field_lookup "runtime_process_model" fields);
    subagents ← decode_subagents (field_lookup "subagents" fields);
    Some (mk_config schema revision dflt process subagents)
  else None.

Definition opt_str (o : option string) : Value := match o with Some s => VString s | None => VNull end.

Definition encode_entry (e : AgentConfigEntry) : Value :=
  VObject [("enabled", VBool (ce_enabled e)); ("spawn_supported", VBool (ce_spawn_supported e));
           ("default_model", opt_str (ce_default_model e)); ("runtime_path", opt_str (ce_runtime_path e));
           ("home", opt_str (ce_home e)); ("profile", opt_str (ce_profile e)); ("version", opt_str (ce_version e))].

Definition encode_named (x : string * AgentConfigEntry) : string * Value := (x.1, encode_entry x.2).

Definition encode_config (c : AgentConfigSnapshot) : Value :=
  VObject [("schema_version", VNumber (PosInt (cf_schema_version c)));
           ("revision", VNumber (PosInt (cf_revision c)));
           ("default_subagent", opt_str (cf_default_subagent c));
           ("runtime_process_model", opt_str (cf_runtime_process_model c));
           ("subagents", VObject (encode_named <$> sorted_entries (cf_subagents c)))].

(** ** Validation *)

Definition process_models : list string := ["auto"; "detached"; "attached"].

Definition with_subagents (m : gmap string AgentConfigEntry) (c : AgentConfigSnapshot) : AgentConfigSnapshot :=
  mk_config (cf_schema_version c) (cf_revision c) (cf_default_subagent c) (cf_runtime_process_model c) m.

Definition on_default (P : string → bool) (c : AgentConfigSnapshot) : bool :=
  match cf_default_subagent c with Some agent => P agent | None => true end.

Definition entry_enabled (m : gmap string AgentConfigEntry) (agent : string) : bool :=
  match m !! agent with Some e => ce_enabled e | None => false end.

Definition parse_config_value (value : Value) : result RpcError AgentConfigSnapshot :=
  value ← normalize_agent_config_value value;
  c ← ok_or config_invalid (decode_config value);
  _ ← ensure (Z.eqb (cf_schema_version c) 2) (config_error "unsupported agent config schema version");
  _ ← ensure (match cf_runtime_process_model c with Some m => one_of m process_models | None => true end)
        (config_error "agent config runtime_process_model must be one of auto, detached, attached");
  _ ← ensure (forallb (λ x, one_of x.1 agent_names) (sorted_entries (cf_subagents c)))
        (config_error "agent config contains an unknown agent");
  let c := with_subagents (cf_subagents c ∪ default_subagents) c in
  _ ← ensure (on_default (λ agent, bool_decide (agent ∈ dom (cf_subagents c))) c)
        (rpc_error RAgentUnknown "default_subagent is unknown");
  _ ← ensure (on_default (entry_enabled (cf_subagents c)) c) (rpc_error RAgentDisabled "default_subagent is disabled");
  Ok c.

Section text.
Context (from_slice : string → option Value).

Definition parse_agent_config_snapshot (bytes : string) : result RpcError AgentConfigSnapshot :=
  value ← ok_or config_invalid (from_slice bytes); parse_config_value value.

Definition parse_subagent_config (bytes : string) : result RpcError Value :=
  c ← parse_agent_config_snapshot bytes; Ok (encode_config c).

(** What reading the configured file gave; [None] when no file is configured. *)
Inductive ConfigFile := FileMissing | FileUnreadable | FileBytes (bytes : string).

Definition read_agent_config_snapshot (file : option ConfigFile) : result RpcError AgentConfigSnapshot :=
  match file with
  | None | Some FileMissing => Ok default_config
  | Some FileUnreadable => Err (config_error "agent config is unreadable")
  | Some (FileBytes bytes) => parse_agent_config_snapshot bytes
  end.
End text.

(** The default enables nothing and is a configuration that parses to itself. *)
Example default_config_parses : parse_config_value (encode_config default_config) = Ok default_config.
Proof. vm_compute. reflexivity. Qed.
Example empty_config_parses : parse_config_value (VObject []) = Ok default_config.
Proof. vm_compute. reflexivity. Qed.
