(* ===== verification/RpcProfiles.v ===== *)
(** * Spawn profiles

    [crates/external-daemon/src/rpc/profiles.rs]: the profile files beside the
    configuration, their validation, the owner of each name, and the wording of a
    refusal within the budget of a response.  What the directory and its files hold is
    an argument, and so is the order in which the hash map of owners is iterated. *)

From stdpp Require Import gmap sorting pretty.
From S2P Require Import Prelude RustStr Utf8 RustPath Json General RpcErrors RpcBound RpcConfig.

Record Profile := mk_profile {
  pf_name : string;
  pf_subagent : option string;
  pf_permission_mode : option PermissionMode;
  pf_model : option string;
  pf_effort : option string;
  pf_developer_instructions : option string;
  pf_source_path : Path }.

Definition PROFILE_FIELDS : list string :=
  ["name"; "subagent"; "permission_mode"; "model"; "effort"; "developer_instructions"].

(** ** Where the profiles are *)

Definition PRODUCT_NAME : string := "external-subagent".

Definition xdg_data_home (xdg : option Path) (home : Path) : Path :=
  match xdg with
  | Some p => if is_absolute p then p else join (join home ".local") "share"
  | None => join (join home ".local") "share"
  end.

(** Beside the configuration file, or in the data directory of the user (on hosts
    other than macOS). *)
Definition profiles_directory (config xdg home : option Path) : option Path :=
  match config with
  | Some file => d ← parent file; Some (join d "profiles")
  | None => home ← home; Some (join (join (xdg_data_home xdg home) PRODUCT_NAME) "profiles")
  end.

(** ** Words *)

Fixpoint drop_while {A} (P : A → bool) (l : list A) : list A :=
  match l with [] => [] | a :: l' => if P a then drop_while P l' else l end.

(** [str::trim]. *)
Definition trim (s : string) : string :=
  String.concat "" (rev (drop_while is_whitespace (rev (drop_while is_whitespace (chars s))))).

(** [.map(|s| s.trim().to_string()).filter(|s| !s.is_empty())]. *)
Definition trimmed (o : option string) : option string :=
  match o with Some s => if str_is_empty (trim s) then None else Some (trim s) | None => None end.

(** [Path::extension]. *)
Definition extension (p : Path) : option string :=
  name ← file_name p;
  match split_char "."%char name with
  | [] | [_] => None
  | [""; _] => None
  | parts => last parts
  end.

(** ** The size of a string in JSON *)

Definition escaped_byte_len (c : ascii) : nat :=
  let n := code c in
  if (Nat.eqb n 34) || (Nat.eqb n 92) then 2
  else if existsb (Nat.eqb n) [8; 9; 10; 12; 13] then 2
  else if Nat.leb n 31 then 6
  else 1.

Fixpoint json_escaped_byte_len (s : string) : nat :=
  match s with
  | EmptyString => 0
  | String c rest => escaped_byte_len c + json_escaped_byte_len rest
  end.

(** The size of one character: only ASCII characters are escaped. *)
Definition escaped_char_len (ch : string) : nat :=
  match ch with String c EmptyString => escaped_byte_len c | _ => String.length ch end.

(** How many bytes of the characters fit after [current] bytes of JSON. *)
Fixpoint fitting_prefix (max current taken : nat) (l : list string) : option nat :=
  match l with
  | [] => None
  | ch :: l =>
      if Nat.ltb max (current + escaped_char_len ch) then Some taken
      else fitting_prefix max (current + escaped_char_len ch) (taken + String.length ch) l
  end.

Definition truncate_json_escaped (s : string) (max_json_bytes : nat) : string :=
  if Nat.leb (json_escaped_byte_len s) max_json_bytes then s
  else match fitting_prefix max_json_bytes 0 0 (chars s) with Some n => str_take n s | None => s end.

Definition PROFILE_ERROR_ENVELOPE_OVERHEAD : nat := 8192.
Definition MAX_ALLOWED_PROFILE_ERROR_JSON_BYTES : nat :=
  Z.to_nat MAX_RESPONSE_FRAME_BYTES - PROFILE_ERROR_ENVELOPE_OVERHEAD.

(** ** Refusals *)

Definition PROFILE_ERROR_PREFIXES : list string :=
  ["profile cannot be combined with"; "profile is invalid"; "profile file '"; "profile directory '";
   "profile field '"; "profile '"].

Record ProfileRejection := mk_rejection {
  pr_file_path : option Path; pr_field : option string; pr_diagnostic : string }.

Record ProfileFileDiagnostic := mk_file_diagnostic {
  pd_file_path : Path; pd_profile_name : option string; pd_diagnostic : string; pd_rejection : ProfileRejection }.

Record LoadedProfiles := mk_loaded {
  lp_profiles : gmap string Profile; lp_file_errors : list ProfileFileDiagnostic }.

Definition compose_diagnostic_text (r : ProfileRejection) : string :=
  let diag := pr_diagnostic r in
  if existsb (starts_with diag) PROFILE_ERROR_PREFIXES then diag
  else
    match pr_file_path r, pr_field r with
    | Some path, Some field =>
        if starts_with diag ("field '" +:+ field +:+ "'") then "profile file '" +:+ path +:+ "' is invalid: " +:+ diag
        else if starts_with diag "cannot " || starts_with diag "exceeds " || starts_with diag "must be "
        then "profile file '" +:+ path +:+ "' is invalid: field '" +:+ field +:+ "' " +:+ diag
        else "profile file '" +:+ path +:+ "' is invalid: field '" +:+ field +:+ "': " +:+ diag
    | Some path, None => "profile file '" +:+ path +:+ "' is invalid: " +:+ diag
    | None, Some field => "profile field '" +:+ field +:+ "' is invalid: " +:+ diag
    | None, None => "profile is invalid: " +:+ diag
    end.

Definition sort_names (names : list string) : list string := merge_sort String.le names.

Definition EMPTY_SUFFIX : string := "; available profiles: none".
Definition SUFFIX_RESERVE : nat := 32.

(** The names that fit: the text so far, its size, whether a name was added; the
    result is the text and the number of names left out. *)
Fixpoint append_names (message : string) (len : nat) (first : bool) (names : list string) : string * nat :=
  match names with
  | [] => (message, 0)
  | name :: rest =>
      let addition := (if first then "" else ", ") +:+ name in
      let size := json_escaped_byte_len addition in
      if Nat.ltb MAX_ALLOWED_PROFILE_ERROR_JSON_BYTES (len + size + SUFFIX_RESERVE) then (message, length names)
      else append_names (message +:+ addition) (len + size) false rest
  end.

Definition format_profile_rejection (r : ProfileRejection) (available : list string) : string :=
  let names := sort_names available in
  let diag := compose_diagnostic_text r in
  match names with
  | [] =>
      truncate_json_escaped diag (MAX_ALLOWED_PROFILE_ERROR_JSON_BYTES - json_escaped_byte_len EMPTY_SUFFIX)
      +:+ EMPTY_SUFFIX
  | _ =>
      let message := truncate_json_escaped diag (MAX_ALLOWED_PROFILE_ERROR_JSON_BYTES - 256)
                     +:+ "; available profiles: [" in
      let '(message, omitted) := append_names message (json_escaped_byte_len message) true names in
      if Nat.ltb 0 omitted then message +:+ ", ... +" +:+ pretty omitted +:+ " more]" else message +:+ "]"
  end.

(** [RpcError::new_profile_error]. *)
Definition profile_error (code : RpcErrorCode) (message : string) : RpcError :=
  mk_rpc_error code (truncate_json_escaped message MAX_ALLOWED_PROFILE_ERROR_JSON_BYTES) None.

Definition make_profile_rejection_error_with_code (code : RpcErrorCode) (r : ProfileRejection) (available : list string)
    : RpcError := profile_error code (format_profile_rejection r available).

Definition make_profile_rejection_error (r : ProfileRejection) (available : list string) : RpcError :=
  make_profile_rejection_error_with_code RValidation r available.

(** ** Parsing a file *)

Section parse.
Context (from_str : string → result string Value) (decode_failure : Value → string).

(** The name a document claims, whatever else is in it. *)
Definition loose_top_level_name (content : string) : option string :=
  match from_str content with
  | Err _ => None
  | Ok value =>
      raw ← get_str value "name";
      if str_is_empty (trim raw) || Nat.ltb 128 (String.length raw) || contains_char raw (byte_of 0)
      then None else Some (trim raw)
  end.

Definition is_string (v : Value) : bool := match v with VString _ => true | _ => false end.

Fixpoint mistyped_field (fields : Fields) : option string :=
  match fields with
  | [] => None
  | (field, v) :: rest =>
      if field ≟ "name" then if is_string v then mistyped_field rest else Some "name"
      else if one_of field PROFILE_FIELDS && negb (is_string v || is_null v) then Some field
      else mistyped_field rest
  end.

Definition attribute_profile_field_type_error (v : Value) (file : Path) : option ProfileRejection :=
  fields ← as_object v; field ← mistyped_field fields; Some (mk_rejection (Some file) (Some field) "must be a string").

(** [RawProfile] as serde derives it: an object without unknown fields, or the fields
    in order as an array. *)
Record RawProfile := mk_raw {
  raw_name : string; raw_subagent : option string; raw_permission_mode : option string;
  raw_model : option string; raw_effort : option string; raw_instructions : option string }.

Definition raw_fields (name : option Value) (rest : nat → option Value) : option RawProfile :=
  name ← name ≫= as_str;
  subagent ← decode_opt_string (rest 1); mode ← decode_opt_string (rest 2); model ← decode_opt_string (rest 3);
  effort ← decode_opt_string (rest 4); instructions ← decode_opt_string (rest 5);
  Some (mk_raw name subagent mode model effort instructions).

Definition decode_raw_profile (v : Value) : option RawProfile :=
  match v with
  | VObject fields =>
      if known_fields PROFILE_FIELDS fields
      then raw_fields (field_lookup "name" fields) (λ i, field ← PROFILE_FIELDS !! i; field_lookup field fields)
      else None
  | VArray items => if Nat.leb (length items) 6 then raw_fields (items !! 0) (λ i, items !! i) else None
  | _ => None
  end.

Definition parse_mode (file : Path) (o : option string) : result ProfileRejection (option PermissionMode) :=
  match o with
  | None => Ok None
  | Some mode =>
      let mode := trim mode in
      if str_is_empty mode then Ok None
      else if mode ≟ "build" then Ok (Some Build)
      else if mode ≟ "edit" then Ok (Some EditMode)
      else if mode ≟ "plan" then Ok (Some Plan)
      else if mode ≟ "yolo" then Ok (Some Yolo)
      else Err (mk_rejection (Some file) (Some "permission_mode")
                  ("must be build, edit, plan, yolo, or empty, got '" +:+ mode +:+ "'"))
  end.

Definition parse_profile_json_internal (content : string) (file : Path) : result ProfileRejection Profile :=
  match from_str content with
  | Err error => Err (mk_rejection (Some file) None error)
  | Ok value =>
      match attribute_profile_field_type_error value file with
      | Some rejection => Err rejection
      | None =>
          match decode_raw_profile value with
          | None => Err (mk_rejection (Some file) None (decode_failure value))
          | Some raw =>
              if str_is_empty (trim (raw_name raw)) then Err (mk_rejection (Some file) (Some "name") "cannot be empty")
              else if Nat.ltb 128 (String.length (raw_name raw))
              then Err (mk_rejection (Some file) (Some "name") "exceeds 128 bytes")
              else if contains_char (raw_name raw) (byte_of 0)
              then Err (mk_rejection (Some file) (Some "name") "cannot contain NUL byte")
              else
                mode ← parse_mode file (raw_permission_mode raw);
                Ok (mk_profile (trim (raw_name raw)) (trimmed (raw_subagent raw)) mode (trimmed (raw_model raw))
                      (trimmed (raw_effort raw))
                      (match raw_instructions raw with Some s => if trim_is_empty s then None else Some s | None => None end)
                      file)
          end
      end
  end.

(** ** Scanning the directory *)

(** An entry: its name, whether it is a file, and what reading it gives. *)
Record DirEntry := mk_dir_entry { de_name : string; de_is_file : bool; de_content : result string string }.
Inductive Directory := NotADirectory | DirectoryUnreadable (error : string) | Directory_of (entries : list DirEntry).

Definition name_le (a b : DirEntry) : Prop := (de_name a ≤ de_name b)%string.
#[global] Instance name_le_dec : RelDecision name_le.
Proof. intros a b. apply String.le_dec. Defined.

Definition profile_files (dir : Path) (entries : list DirEntry) : list (Path * result string string) :=
  (λ e, (join dir (de_name e), de_content e)) <$>
    merge_sort name_le (List.filter (λ e, de_is_file e && bool_decide (extension (join dir (de_name e)) = Some "json")) entries).

Definition diagnose (file : Path) (name : option string) (r : ProfileRejection) : ProfileFileDiagnostic :=
  mk_file_diagnostic file name (compose_diagnostic_text r) r.

Definition add_owner (name : string) (file : Path) (owners : gmap string (list Path)) : gmap string (list Path) :=
  <[name := default [] (owners !! name) ++ [file]]> owners.

(** The owners of each name, the profiles that parse, the files that do not. *)
Fixpoint read_files (files : list (Path * result string string)) (owners : gmap string (list Path))
    : gmap string (list Path) * list Profile * list ProfileFileDiagnostic :=
  match files with
  | [] => (owners, [], [])
  | (file, Err error) :: rest =>
      let '(owners, candidates, errors) := read_files rest owners in
      (owners, candidates,
       diagnose file None (mk_rejection (Some file) None ("profile file '" +:+ file +:+ "' is unreadable: " +:+ error)) :: errors)
  | (file, Ok content) :: rest =>
      let name := loose_top_level_name content in
      let owners := match name with Some name => add_owner name file owners | None => owners end in
      let '(owners, candidates, errors) := read_files rest owners in
      match parse_profile_json_internal content file with
      | Ok profile => (owners, profile :: candidates, errors)
      | Err rejection => (owners, candidates, diagnose file name rejection :: errors)
      end
  end.

Definition duplicate_rejection (file : Path) (name : string) (other : Path) : ProfileRejection :=
  mk_rejection (Some file) (Some "name")
    ("profile file '" +:+ file +:+ "' is invalid: duplicate profile name '" +:+ name +:+ "' already defined in '"
     +:+ other +:+ "'").

(** [owners.iter().find(|p| p != file).unwrap()]. *)
Definition other_owner (file : Path) (owners : list Path) : outcome Path :=
  match List.find (λ p, negb (path_eq p file)) owners with Some p => Returns p | None => Panics end.

Definition duplicate_diagnostic (file : Path) (name : string) (owners : list Path) : outcome ProfileFileDiagnostic :=
  other ← other_owner file owners; Returns (diagnose file (Some name) (duplicate_rejection file name other)).

Fixpoint admit_candidates (owners : gmap string (list Path)) (candidates : list Profile) (loaded : LoadedProfiles)
    : outcome LoadedProfiles :=
  match candidates with
  | [] => Returns loaded
  | profile :: rest =>
      let claimed := default [] (owners !! pf_name profile) in
      if Nat.ltb 1 (length claimed) then
        d ← duplicate_diagnostic (pf_source_path profile) (pf_name profile) claimed;
        admit_candidates owners rest (mk_loaded (lp_profiles loaded) (lp_file_errors loaded ++ [d]))
      else admit_candidates owners rest
             (mk_loaded (<[pf_name profile := profile]> (lp_profiles loaded)) (lp_file_errors loaded))
  end.

Definition reports_duplicate (file : Path) (name : string) (d : ProfileFileDiagnostic) : bool :=
  path_eq (pd_file_path d) file && bool_decide (pd_profile_name d = Some name)
  && str_contains (pd_diagnostic d) "duplicate profile name".

(** Every file of a name with several owners gets its report. *)
Fixpoint report_owners (name : string) (owners files : list Path) (errors : list ProfileFileDiagnostic)
    : outcome (list ProfileFileDiagnostic) :=
  match files with
  | [] => Returns errors
  | file :: rest =>
      if existsb (reports_duplicate file name) errors then report_owners name owners rest errors
      else
        d ← duplicate_diagnostic file name owners;
        report_owners name owners rest (errors ++ [d])
  end.

Fixpoint report_duplicates (named : list (string * list Path)) (errors : list ProfileFileDiagnostic)
    : outcome (list ProfileFileDiagnostic) :=
  match named with
  | [] => Returns errors
  | (name, owners) :: rest =>
      errors ← (if Nat.ltb 1 (length owners) then report_owners name owners owners errors else Returns errors);
      report_duplicates rest errors
  end.

Context (hash_order : gmap string (list Path) → list (string * list Path)).

Definition scan_profiles_dir (dir : Path) (d : Directory) : outcome LoadedProfiles :=
  match d with
  | NotADirectory => Returns (mk_loaded ∅ [])
  | DirectoryUnreadable error =>
      Returns (mk_loaded ∅ [diagnose dir None (mk_rejection (Some dir) None
        ("profile directory '" +:+ dir +:+ "' is unreadable: " +:+ error))])
  | Directory_of entries =>
      let '(owners, candidates, errors) := read_files (profile_files dir entries) ∅ in
      loaded ← admit_candidates owners candidates (mk_loaded ∅ errors);
      errors ← report_duplicates (hash_order owners) (lp_file_errors loaded);
      Returns (mk_loaded (lp_profiles loaded) errors)
  end.

(** ** Loading a profile *)

Definition available_names (loaded : LoadedProfiles) : list string := (sorted_entries (lp_profiles loaded)).*1.

Definition names_profile (name : string) (d : ProfileFileDiagnostic) : bool :=
  bool_decide (pd_profile_name d = Some name).

Definition unattributed (d : ProfileFileDiagnostic) : bool := bool_decide (pd_profile_name d = None).

(** Why a name is not available. *)
Definition profile_refusal (loaded : LoadedProfiles) (name : string) : ProfileRejection :=
  match List.find (names_profile name) (lp_file_errors loaded) with
  | Some d => pd_rejection d
  | None =>
      match List.filter unattributed (lp_file_errors loaded) with
      | [] => mk_rejection None None ("profile '" +:+ name +:+ "' not found")
      | details =>
          mk_rejection None None ("profile '" +:+ name +:+ "' not found ("
            +:+ join_with "; " (pd_diagnostic <$> details) +:+ ")")
      end
  end.

(** The directory, when there is one, and what it holds. *)
Definition load_profile (place : option (Path * Directory)) (name : string) : outcome (result RpcError Profile) :=
  loaded ← match place with Some (dir, d) => scan_profiles_dir dir d | None => Returns (mk_loaded ∅ []) end;
  Returns (match lp_profiles loaded !! name with
           | Some profile => Ok profile
           | None => Err (make_profile_rejection_error (profile_refusal loaded name) (available_names loaded))
           end).

Definition available_profile_names (place : option (Path * Directory)) : outcome (list string) :=
  match place with
  | Some (dir, d) => loaded ← scan_profiles_dir dir d; Returns (available_names loaded)
  | None => Returns []
  end.
End parse.
