(* ===== verification/RpcProfileProps.v ===== *)
(** * Theorems on spawn profiles and on the configuration

    The size of a refusal, who owns the name of a profile, and what an accepted
    configuration document says. *)

From stdpp Require Import gmap sorting pretty.
From S2P Require Import Prelude RustStr Utf8 RustPath Json General Observation RpcErrors RpcBound RpcConfig RpcProfiles.

(** ** The size of a string in JSON *)

Lemma json_len_app a b : json_escaped_byte_len (a +:+ b) = json_escaped_byte_len a + json_escaped_byte_len b.
Proof. induction a as [|c a IH]; simpl; [done|]. rewrite IH. lia. Qed.

(** Characters of several bytes have no ASCII byte, as in every Rust [str]. *)
Definition well_encoded (s : string) : Prop :=
  Forall (λ ch, String.length ch = 1 ∨ str_all (λ c, Nat.leb 128 (code c)) ch = true) (chars s).

Lemma high_byte_len c : Nat.leb 128 (code c) = true → escaped_byte_len c = 1.
Proof.
  intros H%Nat.leb_le. unfold escaped_byte_len.
  repeat match goal with |- context [Nat.eqb ?a ?b] => destruct (Nat.eqb_spec a b); [lia|] end. simpl.
  repeat match goal with |- context [Nat.eqb ?a ?b] => destruct (Nat.eqb_spec a b); [lia|] end. simpl.
  destruct (Nat.leb_spec (code c) 31); [lia|done].
Qed.

Lemma escaped_char_len_ok ch :
  String.length ch = 1 ∨ str_all (λ c, Nat.leb 128 (code c)) ch = true → escaped_char_len ch = json_escaped_byte_len ch.
Proof.
  destruct ch as [|c [|c' ch]]; simpl; [done|lia|]. intros [?|H]; [lia|]. bool_hyp.
  assert (Hl : ∀ s, str_all (λ c, Nat.leb 128 (code c)) s = true → json_escaped_byte_len s = String.length s).
  { induction s as [|x s IH]; simpl; [done|]. intros [Hx Hs]%andb_true_iff. rewrite high_byte_len, IH by done. done. }
  rewrite !high_byte_len, Hl by (done || by apply Nat.leb_le). done.
Qed.

Lemma concat_chars s : fold_left String.append (chars s) "" = s.
Proof. apply chars_concat. Qed.

Lemma fold_append l acc : fold_left String.append l acc = acc +:+ fold_left String.append l "".
Proof.
  revert acc. induction l as [|x l IH]; intros acc; simpl; [by rewrite string_app_nil_r|].
  rewrite IH, (IH x). by rewrite string_app_assoc.
Qed.

(** The cut keeps whole characters: as many as fit. *)
Lemma fitting_prefix_spec max l current taken :
  Forall (λ ch, escaped_char_len ch = json_escaped_byte_len ch) l →
  match fitting_prefix max current taken l with
  | Some n => ∃ kept ch rest, l = kept ++ ch :: rest
      ∧ n = taken + String.length (fold_left String.append kept "")
      ∧ (current ≤ max → current + json_escaped_byte_len (fold_left String.append kept "") ≤ max)
      ∧ max < current + json_escaped_byte_len (fold_left String.append (kept ++ [ch]) "")
  | None => current + json_escaped_byte_len (fold_left String.append l "") ≤ max ∨ l = []
  end.
Proof.
  intros H. revert current taken. induction H as [|ch l Hch _ IH]; intros current taken; simpl; [by right|].
  rewrite Hch. destruct (Nat.ltb_spec max (current + json_escaped_byte_len ch)).
  - exists [], ch, l. simpl. repeat split; lia.
  - specialize (IH (current + json_escaped_byte_len ch) (taken + String.length ch)).
    destruct (fitting_prefix _ _ _ l) as [n|].
    + destruct IH as (kept & c & rest & -> & -> & Hk & Hc). exists (ch :: kept), c, rest. simpl.
      rewrite !(fold_append _ ch), json_len_app, string_app_length. rewrite json_len_app. repeat split; lia.
    + left. rewrite fold_append, json_len_app. destruct IH as [IH| ->]; simpl; lia.
Qed.

Lemma truncate_json_spec s max :
  well_encoded s →
  json_escaped_byte_len (truncate_json_escaped s max) ≤ max
  ∧ (∃ rest, s = truncate_json_escaped s max +:+ rest)
  ∧ (json_escaped_byte_len s ≤ max → truncate_json_escaped s max = s).
Proof.
  intros Hw. unfold truncate_json_escaped. destruct (Nat.leb_spec (json_escaped_byte_len s) max) as [Hs|Hs].
  { split; [done|]. split; [|done]. exists "". by rewrite string_app_nil_r. }
  pose proof (fitting_prefix_spec max (chars s) 0 0) as H.
  destruct (fitting_prefix max 0 0 (chars s)) as [n|].
  - destruct H as (kept & ch & rest & Hc & -> & Hk & _).
    { eapply Forall_impl; [exact Hw|]. apply escaped_char_len_ok. }
    assert (Es : s = fold_left String.append kept "" +:+ fold_left String.append (ch :: rest) "").
    { rewrite <- fold_append, <- fold_left_app, <- Hc. by rewrite concat_chars. }
    assert (Et : str_take (0 + String.length (fold_left String.append kept "")) s = fold_left String.append kept "").
    { rewrite Es at 1. apply str_take_app. }
    rewrite Et. split; [apply Hk; lia|]. split; [by eexists|lia].
  - destruct H as [H|H]; [eapply Forall_impl; [exact Hw|]; apply escaped_char_len_ok| |].
    + rewrite concat_chars in H. lia.
    + pose proof (concat_chars s) as Hcs. rewrite H in Hcs. simpl in Hcs. subst s. simpl in Hs. lia.
Qed.

(** ** The text of a refusal *)

Lemma pretty_N_go_length k n s : (n < 10 ^ N.of_nat k)%N → String.length (pretty_N_go n s) ≤ k + String.length s.
Proof.
  revert n s. induction k as [|k IH]; intros n s H.
  - simpl in H. assert (n = 0%N) as -> by lia. by rewrite pretty_N_go_0.
  - destruct (decide (n = 0%N)) as [->|Hn]; [rewrite pretty_N_go_0; lia|].
    rewrite pretty_N_go_step by lia. etrans; [apply IH|simpl; lia].
    apply N.Div0.div_lt_upper_bound. by rewrite Nat2N.inj_succ, N.pow_succ_r' in H.
Qed.

Lemma pretty_nat_length k (n : nat) : (N.of_nat n < 10 ^ N.of_nat (S k))%N → String.length (pretty n) ≤ S k.
Proof.
  intros H. unfold pretty, pretty_nat, pretty, pretty_N. destruct (decide _); simpl; [lia|].
  pose proof (pretty_N_go_length (S k) (N.of_nat n) "" H) as Hl. simpl in Hl. lia.
Qed.

Lemma pretty_N_go_json n s : json_escaped_byte_len (pretty_N_go n s) + String.length s
  = String.length (pretty_N_go n s) + json_escaped_byte_len s.
Proof.
  revert s. induction (N.lt_wf_0 n) as [n _ IH]; intros s. destruct (decide (n = 0%N)) as [->|Hn].
  { rewrite pretty_N_go_0. lia. }
  rewrite pretty_N_go_step by lia. specialize (IH (n `div` 10)%N (N.div_lt n 10 ltac:(lia) eq_refl)
    (String (pretty_N_char (n `mod` 10)) s)). simpl in IH.
  assert (escaped_byte_len (pretty_N_char (n `mod` 10)) = 1) as E by (unfold pretty_N_char; by repeat case_match).
  rewrite E in IH. lia.
Qed.

Lemma pretty_nat_json (n : nat) : json_escaped_byte_len (pretty n) = String.length (pretty n).
Proof.
  unfold pretty, pretty_nat, pretty, pretty_N. destruct (decide _); [done|].
  pose proof (pretty_N_go_json (N.of_nat n) "") as H. simpl in H. lia.
Qed.

Lemma max_allowed_large : 512 ≤ MAX_ALLOWED_PROFILE_ERROR_JSON_BYTES.
Proof. apply Nat.leb_le. vm_compute. reflexivity. Qed.

#[local] Opaque MAX_ALLOWED_PROFILE_ERROR_JSON_BYTES.

(** The names that are shown are the first ones; the others are counted. *)
Lemma append_names_spec names message len first :
  len = json_escaped_byte_len message → len + SUFFIX_RESERVE ≤ MAX_ALLOWED_PROFILE_ERROR_JSON_BYTES →
  let '(text, omitted) := append_names message len first names in
  json_escaped_byte_len text + SUFFIX_RESERVE ≤ MAX_ALLOWED_PROFILE_ERROR_JSON_BYTES
  ∧ ∃ shown rest, names = shown ++ rest ∧ omitted = length rest
      ∧ (∀ x rest', rest = x :: rest' →
           MAX_ALLOWED_PROFILE_ERROR_JSON_BYTES
           < json_escaped_byte_len text + json_escaped_byte_len (", " +:+ x) + SUFFIX_RESERVE)
      ∧ text = message +:+ (if first || is_nil shown then "" else ", ") +:+ join_with ", " shown.
Proof.
  revert message len first. induction names as [|name names IH]; intros message len first Hl Hb; simpl.
  { split; [lia|]. exists [], []. simpl. rewrite orb_true_r. by rewrite string_app_nil_r. }
  destruct (Nat.ltb_spec MAX_ALLOWED_PROFILE_ERROR_JSON_BYTES
              (len + json_escaped_byte_len ((if first then "" else ", ") +:+ name) + SUFFIX_RESERVE)) as [Hlt|Hge].
  { split; [lia|]. exists [], (name :: names). split; [done|]. split; [done|]. split.
    - intros x rest' [= <- <-]. rewrite json_len_app in *. destruct first; simpl in *; lia.
    - simpl. rewrite orb_true_r. by rewrite string_app_nil_r. }
  specialize (IH (message +:+ (if first then "" else ", ") +:+ name)
                (len + json_escaped_byte_len ((if first then "" else ", ") +:+ name)) false).
  destruct (append_names _ _ false names) as [text omitted].
  destruct IH as (Hs & shown & rest & -> & -> & Hx & ->); [rewrite (json_len_app message); lia|lia|].
  assert (Et : (message +:+ (if first then "" else ", ") +:+ name) +:+ (if false || is_nil shown then "" else ", ")
                 +:+ join_with ", " shown
               = message +:+ (if first || is_nil (name :: shown) then "" else ", ") +:+ join_with ", " (name :: shown)).
  { simpl. rewrite orb_false_r, !string_app_assoc. do 3 f_equal. destruct shown as [|x shown]; simpl; [by rewrite string_app_nil_r|done]. }
  rewrite Et in *. split; [done|]. exists (name :: shown), rest. done.
Qed.

Definition names_tail (rest : list string) : string :=
  match rest with [] => "]" | _ => ", ... +" +:+ pretty (length rest) +:+ " more]" end.

(** A text that says why, cut if need be, and which names there are, in order, with
    the number of those left out. *)
Definition honest_refusal (why : string) (names : list string) (text : string) : Prop :=
  ∃ shown_why lost, why = shown_why +:+ lost
    ∧ (json_escaped_byte_len why ≤ MAX_ALLOWED_PROFILE_ERROR_JSON_BYTES - 256 → lost = "")
    ∧ match names with
      | [] => text = shown_why +:+ "; available profiles: none"
      | _ => ∃ shown rest, names = shown ++ rest
               ∧ (∀ x rest', rest = x :: rest' →
                    MAX_ALLOWED_PROFILE_ERROR_JSON_BYTES
                    < json_escaped_byte_len (shown_why +:+ "; available profiles: [" +:+ join_with ", " shown)
                      + json_escaped_byte_len (", " +:+ x) + SUFFIX_RESERVE)
               ∧ text = shown_why +:+ "; available profiles: [" +:+ join_with ", " shown +:+ names_tail rest
      end.

Lemma names_tail_fits rest :
  (N.of_nat (length rest) < 10 ^ 19)%N → json_escaped_byte_len (names_tail rest) ≤ SUFFIX_RESERVE.
Proof.
  intros H. unfold names_tail. destruct rest as [|x rest]; [simpl; unfold SUFFIX_RESERVE; lia|].
  rewrite !json_len_app, pretty_nat_json. apply (pretty_nat_length 18) in H.
  change (json_escaped_byte_len ", ... +") with 7. change (json_escaped_byte_len " more]") with 6. unfold SUFFIX_RESERVE. lia.
Qed.

Lemma nothing_lost (why shown lost : string) : why = shown +:+ lost → shown = why → lost = "".
Proof.
  intros H ->. apply (f_equal String.length) in H. rewrite string_app_length in H. destruct lost; [done|]. simpl in H. lia.
Qed.

Lemma format_rejection_spec r available :
  well_encoded (compose_diagnostic_text r) → (N.of_nat (length available) < 10 ^ 19)%N →
  json_escaped_byte_len (format_profile_rejection r available) ≤ MAX_ALLOWED_PROFILE_ERROR_JSON_BYTES
  ∧ honest_refusal (compose_diagnostic_text r) (sort_names available) (format_profile_rejection r available).
Proof.
  intros Hw Hn. unfold format_profile_rejection, honest_refusal. pose proof max_allowed_large as Hmax.
  assert (Hlen : length (sort_names available) = length available) by (apply Permutation_length, merge_sort_Permutation).
  destruct (sort_names available) as [|x names] eqn:En.
  - destruct (truncate_json_spec _ (MAX_ALLOWED_PROFILE_ERROR_JSON_BYTES - json_escaped_byte_len EMPTY_SUFFIX) Hw)
      as (Hl & [lost He] & Hid).
    change (json_escaped_byte_len EMPTY_SUFFIX) with 26 in *. rewrite json_len_app.
    change (json_escaped_byte_len EMPTY_SUFFIX) with 26. split; [lia|].
    eexists _, lost. split; [exact He|]. split; [|done]. intros Hs. apply (nothing_lost _ _ _ He), Hid. lia.
  - destruct (truncate_json_spec _ (MAX_ALLOWED_PROFILE_ERROR_JSON_BYTES - 256) Hw) as (Hl & [lost He] & Hid).
    set (why := truncate_json_escaped _ _) in *.
    pose proof (append_names_spec (x :: names) (why +:+ "; available profiles: [") _ true eq_refl) as Ha.
    destruct (append_names _ _ true (x :: names)) as [text omitted].
    destruct Ha as (Hs & shown & rest & Hsplit & -> & Hx & ->).
    { rewrite json_len_app. change (json_escaped_byte_len "; available profiles: [") with 23. unfold SUFFIX_RESERVE. lia. }
    set (text := (why +:+ "; available profiles: [") +:+ _) in *.
    assert (Hrest : (N.of_nat (length rest) < 10 ^ 19)%N).
    { apply (f_equal length) in Hsplit. rewrite length_app in Hsplit. lia. }
    assert (Et : (if Nat.ltb 0 (length rest) then text +:+ ", ... +" +:+ pretty (length rest) +:+ " more]" else text +:+ "]")
                 = text +:+ names_tail rest) by by destruct rest.
    rewrite Et. rewrite json_len_app. split; [pose proof (names_tail_fits rest Hrest); lia|].
    exists why, lost. split; [exact He|]. split; [intros Hs'; by apply (nothing_lost _ _ _ He), Hid|].
    exists shown, rest. split; [done|].
    assert (Htext : text = why +:+ "; available profiles: [" +:+ join_with ", " shown)
      by (unfold text; simpl; by rewrite !string_app_assoc).
    split; [by rewrite <- Htext|]. rewrite Htext. by rewrite !string_app_assoc.
Qed.

(** The refusal of a profile keeps the budget that a response leaves for it,
    counted as JSON with every escape: the reason, cut on a character boundary if it is
    too long, then the available names in order as far as they fit and the number of the
    others.  The error carries that text unchanged. *)
Theorem profile_refusal_fits code r available :
  well_encoded (compose_diagnostic_text r) → (N.of_nat (length available) < 10 ^ 19)%N →
  let e := make_profile_rejection_error_with_code code r available in
  re_code e = code
  ∧ json_escaped_byte_len (re_message e) ≤ MAX_ALLOWED_PROFILE_ERROR_JSON_BYTES
  ∧ honest_refusal (compose_diagnostic_text r) (sort_names available) (re_message e).
Proof.
  intros Hw Hn. destruct (format_rejection_spec r available Hw Hn) as [Hf Hh].
  unfold make_profile_rejection_error_with_code, profile_error. simpl.
  unfold truncate_json_escaped. apply Nat.leb_le in Hf as Hf'. by rewrite Hf'.
Qed.

Lemma profile_refusal_fits_witness :
  let r := mk_rejection None None "profile 'fast' not found" in
  let e := make_profile_rejection_error_with_code RValidation r ["slow"; "deep"] in
  re_code e = RValidation
  ∧ json_escaped_byte_len (re_message e) ≤ MAX_ALLOWED_PROFILE_ERROR_JSON_BYTES
  ∧ honest_refusal (compose_diagnostic_text r) (sort_names ["slow"; "deep"]) (re_message e).
Proof.
  apply (profile_refusal_fits RValidation (mk_rejection None None "profile 'fast' not found") ["slow"; "deep"]); [|done].
  unfold well_encoded. vm_compute. repeat (constructor; [left; reflexivity|]). constructor.
Defined.

(** ** Who owns the name of a profile

    Theorems on the scan of the profile directory. *)

Section scan.
Context (from_str : string → result string Value) (decode_failure : Value → string).

#[local] Abbreviation parse := (parse_profile_json_internal from_str decode_failure).
#[local] Abbreviation loose := (loose_top_level_name from_str).
#[local] Abbreviation File := (Path * result string string)%type (only parsing).

(** A document whose fields come in order instead of under their names. *)
Definition array_document (content : string) : Prop := ∃ items, from_str content = Ok (VArray items).

(** The file claims the name, valid or not. *)
Definition claims (name : string) (x : File) : Prop :=
  match x.2 with Ok content => loose content = Some name | Err _ => False end.

#[local] Instance claims_dec name x : Decision (claims name x).
Proof. unfold claims. destruct (x.2); apply _. Defined.

Lemma parse_source content file p : parse content file = Ok p → pf_source_path p = file.
Proof.
  unfold parse_profile_json_internal. intros H. destruct (from_str content) as [v|]; [|done].
  destruct (attribute_profile_field_type_error v file); [done|]. destruct (decode_raw_profile v); [|done].
  do 3 (case_step H). apply result_bind_ok in H as (m & _ & [= <-]). done.
Qed.

(** A profile has the name its document claims. *)
Lemma parse_name content file p : parse content file = Ok p → loose content = Some (pf_name p) ∨ array_document content.
Proof.
  unfold parse_profile_json_internal, loose_top_level_name, array_document. intros H.
  destruct (from_str content) as [v|]; [|done].
  destruct (attribute_profile_field_type_error v file); [done|]. destruct (decode_raw_profile v) as [raw|] eqn:Hd; [|done].
  destruct v as [| | | |items|fields]; try done; [right; by eexists|left].
  simpl in Hd. destruct (known_fields PROFILE_FIELDS fields); [|done].
  unfold raw_fields in Hd. apply bind_Some in Hd as (name & Hn & Hd).
  assert (raw_name raw = name) as Hr.
  { repeat (apply bind_Some in Hd as (? & _ & Hd)). by injection Hd as <-. }
  rewrite Hr in H. unfold get_str. simpl. rewrite Hn. simpl.
  destruct (str_is_empty (trim name)); [done|]. destruct (Nat.ltb 128 (String.length name)); [done|].
  destruct (contains_char name (byte_of 0)); [done|]. simpl.
  apply result_bind_ok in H as (m & _ & [= <-]). done.
Qed.

(** ** Reading the files *)

Definition claimed (name : string) (owners : gmap string (list Path)) : list Path := default [] (owners !! name).

Lemma claimed_add name name' file owners :
  claimed name (add_owner name' file owners) = claimed name owners ++ (if decide (name' = name) then [file] else []).
Proof.
  unfold claimed, add_owner. destruct (decide (name' = name)) as [->|Hne].
  - by rewrite lookup_insert_eq.
  - by rewrite lookup_insert_ne, app_nil_r.
Qed.

(** Everything that was read: owners, candidates and errors account for each file. *)
Record read_ok (files : list File) (owners owners' : gmap string (list Path)) (candidates : list Profile)
    (errors : list ProfileFileDiagnostic) : Prop := mk_read_ok {
  ro_owners : ∀ name, claimed name owners' = claimed name owners ++ (filter (claims name) files).*1;
  ro_candidates : ∀ p, p ∈ candidates → ∃ content, (pf_source_path p, Ok content) ∈ files
                                                   ∧ parse content (pf_source_path p) = Ok p;
  ro_all : ∀ x, x ∈ files → (∃ p, p ∈ candidates ∧ pf_source_path p = x.1) ∨ ∃ d, d ∈ errors ∧ pd_file_path d = x.1 }.

Lemma read_files_ok files owners :
  let '(owners', candidates, errors) := read_files from_str decode_failure files owners in
  read_ok files owners owners' candidates errors.
Proof.
  revert owners. induction files as [|[file [content|error]] files IH]; intros owners; cbn [read_files].
  { split; [intros name; by rewrite app_nil_r| |]; intros ? ?%elem_of_nil; done. }
  - set (owners1 := match loose content with Some n => add_owner n file owners | None => owners end).
    specialize (IH owners1). destruct (read_files _ _ files owners1) as [[owners' cands] errs]. destruct IH as [Ho Hc Ha].
    assert (Ho' : ∀ name, claimed name owners' = claimed name owners ++ (filter (claims name) ((file, Ok content) :: files)).*1).
    { intros name. rewrite Ho. unfold owners1. rewrite filter_cons.
      assert (Hcl : claims name (file, Ok content) ↔ loose content = Some name) by done. revert Hcl.
      destruct (decide (claims name (file, Ok content))) as [Hy|Hn]; intros Hcl.
      - apply Hcl in Hy. rewrite Hy, claimed_add, decide_True by done. by rewrite <- app_assoc.
      - destruct (loose content) as [n|]; [|done]. rewrite claimed_add, decide_False by naive_solver. by rewrite app_nil_r. }
    destruct (parse content file) as [p|rej] eqn:Hp; split; try done.
    + intros q [->|Hq]%elem_of_cons.
      * exists content. rewrite (parse_source _ _ _ Hp). split; [by left|done].
      * destruct (Hc q Hq) as (c & ? & ?). exists c. split; [by right|done].
    + intros x [->|Hx]%elem_of_cons; [left; exists p; split; [by left|by eapply parse_source]|].
      destruct (Ha x Hx) as [(q & ? & ?)|?]; [left; exists q; split; [by right|done]|by right].
    + intros q Hq. destruct (Hc q Hq) as (c & ? & ?). exists c. split; [by right|done].
    + intros x [->|Hx]%elem_of_cons; [right; eexists; split; [by left|done]|].
      destruct (Ha x Hx) as [?|(d & ? & ?)]; [by left|right; exists d; split; [by right|done]].
  - specialize (IH owners). destruct (read_files _ _ files owners) as [[owners' cands] errs]. destruct IH as [Ho Hc Ha]. split.
    + intros name. rewrite Ho, filter_cons. by rewrite decide_False by by intros [].
    + intros q Hq. destruct (Hc q Hq) as (c & ? & ?). exists c. split; [by right|done].
    + intros x [->|Hx]%elem_of_cons; [right; eexists; split; [by left|done]|].
      destruct (Ha x Hx) as [?|(d & ? & ?)]; [by left|right; exists d; split; [by right|done]].
Qed.
(** ** Distinct files *)

(** As in a directory: the entries have plain and distinct names. *)
Record directory_ok (dir : Path) (entries : list DirEntry) : Prop := mk_directory_ok {
  dir_nonempty : dir ≠ "";
  dir_plain : Forall (λ e, plain_name (de_name e)) entries;
  dir_distinct : NoDup (de_name <$> entries) }.

Lemma profile_files_distinct dir entries :
  directory_ok dir entries → NoDup (components <$> (profile_files dir entries).*1).
Proof.
  intros [Hd Hp Hn]. unfold profile_files.
  set (l := merge_sort name_le _).
  assert (Hl : l ⊆+ entries).
  { unfold l. rewrite merge_sort_Permutation. generalize entries as es. clear.
    induction es as [|e es IH]; simpl; [constructor|]. destruct (_ && _); [by constructor|by constructor]. }
  rewrite <- !list_fmap_compose.
  assert (Hpl : Forall (λ e, plain_name (de_name e)) l).
  { apply Forall_forall. intros e He. rewrite Forall_forall in Hp. apply Hp. eapply elem_of_submseteq; [exact He|exact Hl]. }
  assert (Hnl : NoDup (de_name <$> l)).
  { apply (fmap_submseteq de_name) in Hl. apply submseteq_Permutation in Hl as [k Hk].
    rewrite Hk in Hn. by apply NoDup_app in Hn as [? _]. }
  clear Hp Hn Hl. induction l as [|e l IH]; simpl; [constructor|]. apply Forall_cons in Hpl as [He0 Hpl].
  rewrite fmap_cons in Hnl. apply NoDup_cons in Hnl as [Hne Hnl].
  apply NoDup_cons. split; [|by apply IH]. intros (e' & He & Hin)%list_elem_of_fmap. simpl in He.
  rewrite !components_join_plain in He; try done.
  - apply app_inj_tail in He as [_ [= He]]. apply Hne, list_elem_of_fmap. eauto.
  - rewrite Forall_forall in Hpl. by apply Hpl.
Qed.

Lemma other_owner_exists file owners :
  NoDup (components <$> owners) → 1 < length owners → ∃ other, other_owner file owners = Returns other.
Proof.
  intros Hn Hl. unfold other_owner. destruct (List.find _ owners) as [p|] eqn:Hf; [by exists p|]. exfalso.
  destruct owners as [|a [|b owners]]; simpl in Hl; try lia. simpl in Hf.
  unfold path_eq in Hf. case_bool_decide as Ha; [|done]. case_bool_decide as Hb; [|done].
  simpl in Hn. apply NoDup_cons in Hn as [Hn _]. apply Hn. rewrite Ha, <- Hb. left.
Qed.

(** ** Admitting the candidates *)

Lemma duplicate_returns file name owners :
  NoDup (components <$> owners) → 1 < length owners →
  ∃ d, duplicate_diagnostic file name owners = Returns d ∧ pd_file_path d = file.
Proof.
  intros Hn Hl. unfold duplicate_diagnostic. destruct (other_owner_exists file owners Hn Hl) as [o ->]. simpl. eauto.
Qed.

Lemma admit_candidates_ok owners candidates loaded :
  (∀ name, NoDup (components <$> claimed name owners)) →
  ∃ loaded', admit_candidates owners candidates loaded = Returns loaded'
    ∧ lp_file_errors loaded ⊆ lp_file_errors loaded'
    ∧ (∀ name p, lp_profiles loaded' !! name = Some p →
         lp_profiles loaded !! name = Some p
         ∨ (p ∈ candidates ∧ pf_name p = name ∧ length (claimed name owners) ≤ 1))
    ∧ (∀ name p, lp_profiles loaded !! name = Some p → is_Some (lp_profiles loaded' !! name))
    ∧ (∀ p, p ∈ candidates → is_Some (lp_profiles loaded' !! pf_name p)
                             ∨ ∃ d, d ∈ lp_file_errors loaded' ∧ pd_file_path d = pf_source_path p).
Proof.
  intros Hn. revert loaded. induction candidates as [|p candidates IH]; intros loaded; simpl.
  { exists loaded. split; [done|]. split; [done|]. split; [by left|]. split; [by eexists|]. by intros p ?%elem_of_nil. }
  fold (claimed (pf_name p) owners). destruct (Nat.ltb_spec 1 (length (claimed (pf_name p) owners))) as [Hl|Hl].
  - destruct (duplicate_returns (pf_source_path p) (pf_name p) _ (Hn (pf_name p)) Hl) as (d & -> & Hd). simpl.
    destruct (IH (mk_loaded (lp_profiles loaded) (lp_file_errors loaded ++ [d]))) as (loaded' & -> & He & Hp & Hk & Hc).
    simpl in *. exists loaded'. split; [done|]. split; [set_solver|]. split; [|split; [done|]].
    + intros name q Hq. destruct (Hp name q Hq) as [?|(? & ? & ?)]; [by left|right]. split; [by right|done].
    + intros q [->|Hq]%elem_of_cons; [|by apply Hc]. right. exists d. split; [|done]. apply He. set_solver.
  - destruct (IH (mk_loaded (<[pf_name p := p]> (lp_profiles loaded)) (lp_file_errors loaded)))
      as (loaded' & -> & He & Hp & Hk & Hc).
    simpl in *. exists loaded'. split; [done|]. split; [done|]. split; [|split].
    + intros name q Hq. destruct (Hp name q Hq) as [Hi|(? & ? & ?)]; [|right; split; [by right|done]].
      apply lookup_insert_Some in Hi as [[<- <-]|[_ Hi]]; [|by left]. right. split; [by left|done].
    + intros name q Hq. destruct (decide (pf_name p = name)) as [<-|Hne].
      * eapply Hk. apply lookup_insert_eq.
      * eapply (Hk name q). by rewrite lookup_insert_ne.
    + intros q [->|Hq]%elem_of_cons; [|by apply Hc]. left. eapply Hk. apply lookup_insert_eq.
Qed.

Lemma report_owners_ok name owners files errors :
  NoDup (components <$> owners) → 1 < length owners →
  ∃ errors', report_owners name owners files errors = Returns errors' ∧ errors ⊆ errors'.
Proof.
  intros Hn Hl. revert errors. induction files as [|file files IH]; intros errors; simpl; [by exists errors|].
  destruct (existsb _ errors); [by apply IH|].
  destruct (duplicate_returns file name owners Hn Hl) as (d & -> & _). simpl.
  destruct (IH (errors ++ [d])) as (errors' & -> & He). exists errors'. split; [done|]. set_solver.
Qed.

Lemma report_duplicates_ok named errors :
  Forall (λ x, NoDup (components <$> x.2)) named →
  ∃ errors', report_duplicates named errors = Returns errors' ∧ errors ⊆ errors'.
Proof.
  intros H. revert errors. induction H as [|[name owners] named Hn _ IH]; intros errors; simpl; [by exists errors|].
  simpl in Hn. destruct (Nat.ltb_spec 1 (length owners)) as [Hl|_]; simpl; [|by apply IH].
  destruct (report_owners_ok name owners owners errors Hn Hl) as (e1 & -> & H1). simpl.
  destruct (IH e1) as (e2 & -> & H2). exists e2. split; [done|]. set_solver.
Qed.
(** ** The scan *)

Context (hash_order : gmap string (list Path) → list (string * list Path)).

(** The profile comes from a file, under its own name, and nobody else claims it. *)
Definition owned (files : list File) (name : string) (p : Profile) : Prop :=
  pf_name p = name
  ∧ ∃ content, (pf_source_path p, Ok content) ∈ files ∧ parse content (pf_source_path p) = Ok p
      ∧ ∀ x, x ∈ files → claims name x → x.1 = pf_source_path p ∨ array_document content.

Lemma claimant_in_claimed files name x : x ∈ files → claims name x → x.1 ∈ (filter (claims name) files).*1.
Proof. intros Hx Hc. apply list_elem_of_fmap. exists x. split; [done|]. by apply list_elem_of_filter. Qed.

Lemma short_list_unique {A} (l : list A) a b : length l ≤ 1 → a ∈ l → b ∈ l → a = b.
Proof. destruct l as [|x [|y l]]; simpl; intros ? Ha Hb; [by apply elem_of_nil in Ha| |lia]. set_solver. Qed.

Lemma claimed_distinct files name :
  NoDup (components <$> files.*1) → NoDup (components <$> (filter (claims name) files).*1).
Proof.
  intros H. rewrite <- !list_fmap_compose in *.
  assert (Hs : filter (claims name) files ⊆+ files) by apply sublist_submseteq, sublist_filter.
  apply (fmap_submseteq (components ∘ fst)) in Hs. apply submseteq_Permutation in Hs as [k Hk].
  rewrite Hk in H. by apply NoDup_app in H as [? _].
Qed.

(** The scan of the profile directory never fails, and a profile it loads is the only
    one of its name: it was read from a file under the name the file gives, and no other
    file claims that name, not even one that is otherwise invalid.  A file that holds a
    JSON array is the exception: it is decoded field by field and claims no name.  When
    there is no such file, every file is either loaded or reported. *)
Theorem profile_names_unambiguous dir entries :
  directory_ok dir entries → (∀ m, hash_order m ≡ₚ map_to_list m) →
  let files := profile_files dir entries in
  ∃ loaded, scan_profiles_dir from_str decode_failure hash_order dir (Directory_of entries) = Returns loaded
    ∧ (∀ name p, lp_profiles loaded !! name = Some p → owned files name p)
    ∧ ((∀ file content, (file, Ok content) ∈ files → ¬ array_document content) →
       ∀ x, x ∈ files →
         (∃ p, lp_profiles loaded !! pf_name p = Some p ∧ pf_source_path p = x.1)
         ∨ ∃ d, d ∈ lp_file_errors loaded ∧ pd_file_path d = x.1).
Proof.
  intros Hdir Hh files. cbn [scan_profiles_dir]. fold files.
  pose proof (read_files_ok files ∅) as Hr. destruct (read_files _ _ files ∅) as [[owners cands] errors].
  destruct Hr as [Ho Hc Ha].
  assert (Ho' : ∀ name, claimed name owners = (filter (claims name) files).*1).
  { intros name. rewrite Ho. unfold claimed. by rewrite lookup_empty. }
  assert (Hn : ∀ name, NoDup (components <$> claimed name owners)).
  { intros name. rewrite Ho'. by apply claimed_distinct, profile_files_distinct. }
  destruct (admit_candidates_ok owners cands (mk_loaded ∅ errors) Hn) as (loaded & -> & He & Hp & _ & Hall).
  cbn [mbind outcome_bind]. destruct (report_duplicates_ok (hash_order owners) (lp_file_errors loaded)) as (errors' & -> & He').
  { apply Forall_forall. intros [name l] Hl. rewrite Hh in Hl. apply elem_of_map_to_list in Hl.
    specialize (Hn name). unfold claimed in Hn. by rewrite Hl in Hn. }
  cbn [mbind outcome_bind]. eexists. split; [done|]. cbn [lp_profiles lp_file_errors] in *.
  assert (Hshort : ∀ name p, lp_profiles loaded !! name = Some p →
            p ∈ cands ∧ pf_name p = name ∧ length ((filter (claims name) files).*1) ≤ 1).
  { intros name p Hl. destruct (Hp name p Hl) as [Hl'|(? & ? & Hlen)]; [by rewrite lookup_empty in Hl'|]. by rewrite Ho' in Hlen. }
  split.
  - intros name p Hl. destruct (Hshort name p Hl) as (Hin & Hname & Hlen). split; [done|].
    destruct (Hc p Hin) as (content & Hf & Hparse). exists content. split; [done|]. split; [done|]. intros x Hx Hcl.
    destruct (parse_name _ _ _ Hparse) as [Hloose|?]; [left|by right]. subst name.
    eapply short_list_unique; [exact Hlen| |]; [by apply claimant_in_claimed|].
    by apply (claimant_in_claimed files _ (pf_source_path p, Ok content)).
  - intros Hno x Hx. destruct (Ha x Hx) as [(p & Hin & Hsrc)|(d & Hd & Hfile)]; [|right; exists d; split; [by apply He', He|done]].
    destruct (Hall p Hin) as [[q Hq]|(d & Hd & Hfile)]; [|right; exists d; split; [by apply He'|by rewrite Hfile]].
    left. destruct (Hshort _ q Hq) as (Hqin & Hqname & Hlen). exists q. rewrite Hqname. split; [done|]. rewrite <- Hsrc.
    destruct (Hc p Hin) as (cp & Hfp & Hpp), (Hc q Hqin) as (cq & Hfq & Hpq).
    destruct (parse_name _ _ _ Hpp) as [Lp|]; [|by destruct (Hno _ _ Hfp)].
    destruct (parse_name _ _ _ Hpq) as [Lq|]; [|by destruct (Hno _ _ Hfq)].
    assert (Lq' : loose cq = Some (pf_name p)) by (by rewrite Lq, Hqname).
    eapply short_list_unique; [exact Hlen| |].
    + apply (claimant_in_claimed files _ (pf_source_path q, Ok cq)); done.
    + by apply (claimant_in_claimed files _ (pf_source_path p, Ok cp)).
Qed.
End scan.

(** ** Concrete directories *)

(** The documents of the examples, by their text. *)
Definition sample_documents (content : string) : result string Value :=
  if content ≟ "object" then Ok (VObject [("name", VString "fast")])
  else if content ≟ "array" then Ok (VArray [VString "fast"])
  else Err "expected value".

Definition sample_entries (second : string) : list DirEntry :=
  [mk_dir_entry "a.json" true (Ok "object"); mk_dir_entry "b.json" true (Ok second)].

Definition sample_scan (second : string) : outcome LoadedProfiles :=
  scan_profiles_dir sample_documents (λ _, "invalid") map_to_list "/p" (Directory_of (sample_entries second)).

Definition sources (o : outcome LoadedProfiles) : option (list (string * Path) * list Path) :=
  match o with
  | Returns l => Some ((λ x, (x.1, pf_source_path x.2)) <$> sorted_entries (lp_profiles l), pd_file_path <$> lp_file_errors l)
  | Panics => None
  end.

(** Two files of one name: neither is loaded, both are reported. *)
Example duplicates_reported : sources (sample_scan "object") = Some ([], ["/p/a.json"; "/p/b.json"]).
Proof. vm_compute. reflexivity. Qed.

(** An array takes the name of another file, which is neither loaded nor reported. *)
Example array_profile_shadows : sources (sample_scan "array") = Some ([("fast", "/p/b.json")], []).
Proof. vm_compute. reflexivity. Qed.

Lemma sample_directory : directory_ok "/p" (sample_entries "syntax").
Proof.
  split; [done| |].
  - repeat constructor; vm_compute; reflexivity.
  - apply (bool_decide_unpack _). vm_compute. exact I.
Qed.

Lemma profile_names_unambiguous_witness :
  let files := profile_files "/p" (sample_entries "syntax") in
  ∃ loaded, sample_scan "syntax" = Returns loaded
    ∧ (∀ name p, lp_profiles loaded !! name = Some p → owned sample_documents (λ _, "invalid") files name p)
    ∧ ((∀ file content, (file, Ok content) ∈ files → ¬ array_document sample_documents content) →
       ∀ x, x ∈ files →
         (∃ p, lp_profiles loaded !! pf_name p = Some p ∧ pf_source_path p = x.1)
         ∨ ∃ d, d ∈ lp_file_errors loaded ∧ pd_file_path d = x.1).
Proof.
  exact (profile_names_unambiguous sample_documents (λ _, "invalid") map_to_list "/p" (sample_entries "syntax")
           sample_directory (λ m, Permutation_refl _)).
Defined.

(** ** Theorems on the agent configuration *)

(** ** Objects *)

Lemma field_lookup_insert key v fields k :
  field_lookup k (field_insert key v fields) = if key ≟ k then Some v else field_lookup k fields.
Proof.
  unfold field_insert. assert (Hi : ∀ f, field_lookup key f = None →
    field_lookup k (insert_sorted key v f) = if key ≟ k then Some v else field_lookup k f).
  { induction f as [|[k' w] f IH]; simpl; [done|]. intros H. destruct (k' ≟ key) eqn:E; [done|].
    destruct (String.ltb k' key); simpl; [|done]. rewrite IH by done.
    destruct (k' ≟ k) eqn:E1, (key ≟ k) eqn:E2; try done.
    apply String.eqb_eq in E1, E2. subst. by rewrite String.eqb_refl in E. }
  rewrite Hi by apply field_remove_lookup.
  destruct (String.eqb_spec key k); [done|]. by apply field_remove_other.
Qed.

Lemma field_lookup_or_insert key v fields k :
  field_lookup k (or_insert key v fields) =
    match field_lookup k fields with Some w => Some w | None => if key ≟ k then Some v else None end.
Proof.
  unfold or_insert. destruct (contains_key fields key) eqn:Hc.
  - apply contains_key_lookup in Hc as [w Hw]. destruct (field_lookup k fields) eqn:Hk; [done|].
    destruct (String.eqb_spec key k) as [->|]; [congruence|done].
  - rewrite field_lookup_insert. destruct (String.eqb_spec key k) as [->|]; [|by destruct (field_lookup k fields)].
    destruct (field_lookup k fields) eqn:Hk; [|done].
    assert (contains_key fields k = true) by (apply contains_key_lookup; by eexists). congruence.
Qed.

Lemma known_fields_insert names key v fields :
  one_of key names = true → known_fields names fields = true → known_fields names (field_insert key v fields) = true.
Proof.
  unfold field_insert, known_fields. intros Hk Hf. rewrite forallb_forall in Hf.
  assert (Hr : ∀ x, In x (field_remove key fields) → (λ '(k, _), one_of k names) x = true).
  { intros x [Hx _]%filter_In. by apply Hf. }
  revert Hr. generalize (field_remove key fields) as f. induction f as [|[k w] f IH]; simpl; intros Hr.
  { by rewrite Hk. }
  destruct (String.ltb k key); simpl.
  - rewrite (Hr (k, w)) by by left. apply IH. intros x Hx. apply Hr. by right.
  - rewrite Hk, (Hr (k, w)) by by left. apply forallb_forall. intros x Hx. apply Hr. by right.
Qed.

Lemma config_ensure_ok b e u : ensure b e = Ok u ↔ b = true.
Proof. destruct b, u; simpl; naive_solver. Qed.

Lemma decode_opt_string_nonempty v o :
  decode_opt_string v = Some o → nonempty_or_null v = true → o ≠ Some "".
Proof. destruct v as [[]|]; simpl; naive_solver. Qed.

Lemma decode_opt_string_absent v o :
  decode_opt_string v = Some o → present_not_null v = false → o = None.
Proof. destruct v as [[]|]; simpl; naive_solver. Qed.

(** ** Accepted configurations *)

Definition valid_entry (name : string) (e : AgentConfigEntry) : Prop :=
  Forall (λ o, o ≠ Some "") [ce_default_model e; ce_runtime_path e; ce_home e; ce_profile e; ce_version e]
  ∧ (name = "zcode" → ce_runtime_path e = None ∧ ce_default_model e = None).

(** A configuration as it is used: the current schema, exactly the four agents, the
    default one of them enabled. *)
Record accepted (c : AgentConfigSnapshot) : Prop := mk_accepted {
  acc_schema : cf_schema_version c = 2%Z;
  acc_revision : (cf_revision c ≤ u64_max)%Z;
  acc_process : ∀ m, cf_runtime_process_model c = Some m → m ∈ process_models;
  acc_agents : dom (cf_subagents c) = list_to_set agent_names;
  acc_entries : map_Forall valid_entry (cf_subagents c);
  acc_default : ∀ a, cf_default_subagent c = Some a → ∃ e, cf_subagents c !! a = Some e ∧ ce_enabled e = true }.

(** The document, under its current or its old key, says that [agent] is enabled. *)
Definition document_enables (v : Value) (agent : string) : Prop :=
  ∃ fields entry, (get v "subagents" = Some (VObject fields) ∨ get v "agents" = Some (VObject fields))
    ∧ field_lookup agent fields = Some entry ∧ get entry "enabled" = Some (VBool true).

Lemma normalize_entry_sound name v v' e :
  normalize_entry name v = Ok v' → decode_entry v' = Some e →
  valid_entry name e ∧ (ce_enabled e = true → get v "enabled" = Some (VBool true)).
Proof.
  unfold normalize_entry.
  intros (fields & Hv & H)%result_bind_ok Hd. apply ok_or_ok in Hv.
  apply result_bind_ok in H as (? & Hruntime & H). apply result_bind_ok in H as (? & Hz1 & H).
  apply result_bind_ok in H as (? & _ & H). apply result_bind_ok in H as (? & Hm & H).
  apply result_bind_ok in H as (? & Hz2 & [= <-]). apply config_ensure_ok in Hruntime, Hz1, Hm, Hz2.
  destruct v; try done. injection Hv as ->. unfold decode_entry in Hd. cbn [as_object mbind option_bind] in Hd.
  set (g := or_insert "default_model" VNull _) in *.
  assert (Hg : ∀ k, k ∈ runtime_fields → field_lookup k g = field_lookup k fields).
  { intros k Hk. unfold g. rewrite !field_lookup_or_insert.
    assert (Hk' : k = "runtime_path" ∨ k = "home" ∨ k = "profile" ∨ k = "version") by (unfold runtime_fields in Hk; set_solver).
    destruct (field_lookup k fields); [done|]. by destruct Hk' as [->|[->|[->| ->]]]. }
  assert (Hge : field_lookup "enabled" g = Some (VBool true) → field_lookup "enabled" fields = Some (VBool true)).
  { unfold g. rewrite !field_lookup_or_insert. destruct (field_lookup "enabled" fields); simpl; congruence. }
  destruct (known_fields entry_fields g); [|done].
  apply bind_Some in Hd as (en & Hen & Hd). apply bind_Some in Hd as (sp & _ & Hd).
  apply bind_Some in Hd as (mo & Hmo & Hd). apply bind_Some in Hd as (pa & Hpa & Hd).
  apply bind_Some in Hd as (ho & Hho & Hd). apply bind_Some in Hd as (pr & Hpr & Hd).
  apply bind_Some in Hd as (ve & Hve & [= <-]).
  rewrite Hg in Hpa, Hho, Hpr, Hve by (unfold runtime_fields; set_solver).
  cbn [runtime_fields forallb] in Hruntime. bool_hyp. split; [split|].
  - repeat constructor; simpl; by eapply decode_opt_string_nonempty.
  - intros ->. simpl in Hz1, Hz2. bool_hyp. simpl. split; by eapply decode_opt_string_absent.
  - simpl. intros ->. apply Hge. destruct (field_lookup "enabled" g) as [[]|]; try done. by injection Hen as ->.
Qed.

Lemma traverse_named agents agents' :
  traverse normalize_named agents = Ok agents' →
  ∀ entries, collect_option decode_named agents' = Some entries →
  Forall2 (λ a x, x.1 = a.1 ∧ ∃ v, normalize_entry a.1 a.2 = Ok v ∧ decode_entry v = Some x.2) agents entries.
Proof.
  intros H%traverse_ok. induction H as [|[k v] [k' v'] agents agents' Hn _ IH]; simpl; intros entries Hc.
  { injection Hc as <-. constructor. }
  apply bind_Some in Hc as (e & He & Hc). apply bind_Some in Hc as (es & Hes & [= <-]).
  apply bind_Some in He as (e' & He & [= <-]). unfold normalize_named in Hn. simpl in Hn.
  apply result_bind_ok in Hn as (w & Hw & [= <- <-]). constructor; [|by apply IH]. simpl. eauto.
Qed.

Lemma lookup_entries agents (entries : list (string * AgentConfigEntry)) (P : string → Value → AgentConfigEntry → Prop) :
  Forall2 (λ a x, x.1 = a.1 ∧ P a.1 a.2 x.2) agents entries →
  ∀ k e, (list_to_map entries : gmap string _) !! k = Some e → ∃ v, field_lookup k agents = Some v ∧ P k v e.
Proof.
  induction 1 as [|[k v] [k' e'] agents entries [Hk HP] _ IH]; intros k0 e0; simpl; [by rewrite lookup_empty|].
  simpl in Hk, HP. subst k'. destruct (String.eqb_spec k k0) as [->|Hne].
  - rewrite lookup_insert_eq. intros [= <-]. eauto.
  - rewrite lookup_insert_ne by done. apply IH.
Qed.

Lemma rename_lookup from to fields k v :
  field_lookup k (rename_field from to fields) = Some v →
  field_lookup k fields = Some v ∨ (k = to ∧ field_lookup from fields = Some v).
Proof.
  unfold rename_field. destruct (field_lookup from fields) eqn:Hf; [|by left].
  rewrite field_lookup_insert. destruct (String.eqb_spec to k) as [->|]; [intros [= ->]; by right|].
  destruct (decide (from = k)) as [->|Hne]; [by rewrite field_remove_lookup|].
  rewrite field_remove_other by done. by left.
Qed.

(** The entries that were decoded come from entries of the document. *)
Lemma normalize_config_sound v v' c :
  normalize_agent_config_value v = Ok v' → decode_config v' = Some c →
  (cf_revision c ≤ u64_max)%Z
  ∧ ∀ k e, cf_subagents c !! k = Some e → valid_entry k e ∧ (ce_enabled e = true → document_enables v k).
Proof.
  unfold normalize_agent_config_value. intros (object & Hv & H)%result_bind_ok Hd. apply ok_or_ok in Hv.
  destruct v as [| | | | |object']; try done. injection Hv as ->.
  apply result_bind_ok in H as (? & _ & H). apply result_bind_ok in H as (? & _ & H).
  set (o := rename_field "default_agent" _ _) in H.
  assert (Hsub : ∀ w, field_lookup "subagents" o = Some w →
            field_lookup "subagents" object = Some w ∨ field_lookup "agents" object = Some w).
  { intros w Hw. apply rename_lookup in Hw as [Hw|[? _]]; [|done]. apply rename_lookup in Hw as [Hw|[_ Hw]]; eauto. }
  rewrite field_lookup_insert in H. simpl in H.
  assert (Hdec : ∀ fields, v' = VObject fields →
    (cf_revision c ≤ u64_max)%Z ∧ decode_subagents (field_lookup "subagents" fields) = Some (cf_subagents c)).
  { intros fields ->. unfold decode_config in Hd. cbn [as_object mbind option_bind] in Hd. destruct (known_fields config_fields fields); [|done].
    apply bind_Some in Hd as (? & _ & Hd). apply bind_Some in Hd as (r & Hr & Hd).
    apply bind_Some in Hd as (? & _ & Hd). apply bind_Some in Hd as (? & _ & Hd).
    apply bind_Some in Hd as (m & Hm & [= <-]). simpl. split; [|done].
    unfold decode_unsigned in Hr. destruct (field_lookup "revision" fields) as [w|]; [|by injection Hr as <-].
    apply bind_Some in Hr as (n & _ & Hr). destruct (Z.leb_spec n u64_max); [|done]. by injection Hr as <-. }
  destruct (field_lookup "subagents" o) as [w|] eqn:Ho.
  - apply result_bind_ok in H as (agents & Ha & H). apply result_bind_ok in H as (agents' & Hn & [= <-]).
    apply ok_or_ok in Ha. destruct w; try done. injection Ha as ->.
    destruct (Hdec _ eq_refl) as [Hr Hm]. split; [done|]. rewrite field_lookup_insert in Hm. simpl in Hm.
    apply bind_Some in Hm as (entries & Hc & [= <-]). intros k e Hk.
    apply (lookup_entries agents) with (P := λ k a e, ∃ v, normalize_entry k a = Ok v ∧ decode_entry v = Some e) in Hk
      as (a & Hl & (a' & Hna & Hda)); [|by eapply traverse_named].
    destruct (normalize_entry_sound _ _ _ _ Hna Hda) as [? He]. split; [done|]. intros Hen.
    exists agents, a. split; [|split; [done|by apply He]]. destruct (Hsub _ eq_refl); auto.
  - injection H as <-. destruct (Hdec _ eq_refl) as [Hr Hm]. split; [done|].
    rewrite field_lookup_insert in Hm. simpl in Hm. rewrite Ho in Hm. injection Hm as <-. intros k e Hk. by rewrite lookup_empty in Hk.
Qed.

Lemma sorted_entries_perm {A} (m : gmap string A) : sorted_entries m ≡ₚ map_to_list m.
Proof. apply merge_sort_Permutation. Qed.

Lemma elem_of_sorted_entries {A} (m : gmap string A) k a : (k, a) ∈ sorted_entries m ↔ m !! k = Some a.
Proof. rewrite sorted_entries_perm. apply elem_of_map_to_list. Qed.

Lemma sorted_entries_to_map {A} (m : gmap string A) : list_to_map (sorted_entries m) = m.
Proof.
  rewrite <- (list_to_map_to_list m) at 2. apply list_to_map_proper.
  - rewrite sorted_entries_perm. apply NoDup_fst_map_to_list.
  - apply sorted_entries_perm.
Qed.

Lemma dom_default_subagents : dom default_subagents = list_to_set agent_names.
Proof. apply leibniz_equiv. unfold default_subagents. rewrite dom_list_to_map. done. Qed.

Lemma default_subagents_closed k e : default_subagents !! k = Some e → e = closed_entry.
Proof.
  unfold default_subagents. intros H%elem_of_list_to_map_2. apply list_elem_of_fmap in H as (? & [= _ ->] & _). done.
Qed.

Lemma parse_accepted v c : parse_config_value v = Ok c →
  accepted c ∧ ∀ a e, cf_subagents c !! a = Some e → ce_enabled e = true → document_enables v a.
Proof.
  unfold parse_config_value. intros (v' & Hn & H)%result_bind_ok.
  apply result_bind_ok in H as (c0 & Hd & H). apply ok_or_ok in Hd.
  apply result_bind_ok in H as (? & Hs & H). apply result_bind_ok in H as (? & Hp & H).
  apply result_bind_ok in H as (? & Hk & H). apply result_bind_ok in H as (? & _ & H).
  apply result_bind_ok in H as (? & Hdef & [= <-]). apply config_ensure_ok in Hs, Hp, Hk, Hdef. bool_hyp.
  destruct (normalize_config_sound _ _ _ Hn Hd) as [Hr He]. destruct c0 as [sv rev df pm sub].
  unfold on_default, with_subagents in *. cbn [cf_schema_version cf_revision cf_default_subagent
    cf_runtime_process_model cf_subagents] in *.
  assert (Hall : ∀ k e, (sub ∪ default_subagents) !! k = Some e → sub !! k = Some e ∨ e = closed_entry).
  { intros k e [Hl|[_ Hl]]%lookup_union_Some_raw; [by left|]. right. by eapply default_subagents_closed. }
  split; [split|]; cbn [cf_schema_version cf_revision cf_default_subagent cf_runtime_process_model cf_subagents]; try done.
  - intros m ->. by apply one_of_true.
  - rewrite dom_union_L, dom_default_subagents. apply subseteq_union_L. intros k [e Hl]%elem_of_dom.
    rewrite forallb_forall in Hk. apply elem_of_list_to_set, one_of_true.
    apply (Hk (k, e)). apply list_elem_of_In. by apply elem_of_sorted_entries.
  - intros k e [Hl | ->]%Hall; [by apply He|]. split; [repeat constructor|]; done.
  - intros a ->. unfold entry_enabled in Hdef. destruct (_ !! a) as [e|]; [|done]. eauto.
  - intros a e [Hl | ->]%Hall Hen; [by apply (He a e Hl)|done].
Qed.

(** ** An accepted configuration is kept *)

#[local] Arguments nonempty_or_null : simpl never.
#[local] Arguments present_not_null : simpl never.

Lemma nonempty_opt_str o : o ≠ Some "" → nonempty_or_null (Some (opt_str o)) = true.
Proof. destruct o as [[]|]; done. Qed.

Lemma decode_opt_str o : decode_opt_string (Some (opt_str o)) = Some o.
Proof. by destruct o. Qed.

Lemma decode_encode_entry e : decode_entry (encode_entry e) = Some e.
Proof. by destruct e as [en sp [mo|] [pa|] [ho|] [pr|] [ve|]]. Qed.

Lemma normalize_encode_entry name e : valid_entry name e → normalize_entry name (encode_entry e) = Ok (encode_entry e).
Proof.
  intros [Hne Hz]. unfold normalize_entry, encode_entry. simpl.
  rewrite !Forall_cons in Hne. destruct Hne as (Hm & Hp & Hh & Hr & Hv & _).
  rewrite !nonempty_opt_str by done. simpl.
  destruct (String.eqb_spec name "zcode") as [E|E]; simpl; [|done].
  destruct (Hz E) as [-> ->]. done.
Qed.

Lemma traverse_encode l :
  (∀ x, x ∈ l → valid_entry x.1 x.2) → traverse normalize_named (encode_named <$> l) = Ok (encode_named <$> l).
Proof.
  intros H. apply traverse_ok, Forall2_same_length_lookup. split; [done|]. intros i x y Hx Hy. simplify_eq.
  apply list_lookup_fmap_Some in Hx as ([k e] & -> & Hi). unfold normalize_named, encode_named. simpl.
  rewrite normalize_encode_entry; [done|]. apply (H (k, e)). by eapply list_elem_of_lookup_2.
Qed.

Lemma collect_encode l : collect_option decode_named (encode_named <$> l) = Some l.
Proof.
  assert (Hd : ∀ x, decode_named (encode_named x) = Some x).
  { intros [k e]. unfold decode_named, encode_named. cbn [fst snd]. by rewrite decode_encode_entry. }
  induction l as [|x l IH]; [done|]. rewrite fmap_cons. cbn [collect_option]. by rewrite Hd, IH.
Qed.

(** What normalisation and decoding do to the fields of a written configuration. *)
Lemma normalize_written rev dflt process agents agents' :
  traverse normalize_named agents = Ok agents' →
  normalize_agent_config_value (VObject
    [("schema_version", VNumber (PosInt 2)); ("revision", VNumber (PosInt rev)); ("default_subagent", dflt);
     ("runtime_process_model", process); ("subagents", VObject agents)])
  = Ok (VObject
    [("revision", VNumber (PosInt rev)); ("default_subagent", dflt); ("runtime_process_model", process);
     ("schema_version", VNumber (PosInt 2)); ("subagents", VObject agents')]).
Proof.
  intros H.
  transitivity (agents' ← traverse normalize_named agents; Ok (E:=RpcError) (VObject
    [("revision", VNumber (PosInt rev)); ("default_subagent", dflt); ("runtime_process_model", process);
     ("schema_version", VNumber (PosInt 2)); ("subagents", VObject agents')])); [reflexivity|]. by rewrite H.
Qed.

Lemma decode_written rev dflt process agents entries :
  (rev ≤ u64_max)%Z → collect_option decode_named agents = Some entries →
  decode_config (VObject
    [("revision", VNumber (PosInt rev)); ("default_subagent", opt_str dflt); ("runtime_process_model", opt_str process);
     ("schema_version", VNumber (PosInt 2)); ("subagents", VObject agents)])
  = Some (mk_config 2 rev dflt process (list_to_map entries)).
Proof.
  intros Hr%Z.leb_le H.
  unfold decode_config. cbn [as_object mbind option_bind].
  change (known_fields config_fields _) with true. cbn [mbind option_bind].
  change (decode_opt_string (field_lookup "default_subagent" _)) with (decode_opt_string (Some (opt_str dflt))).
  change (decode_opt_string (field_lookup "runtime_process_model" _)) with (decode_opt_string (Some (opt_str process))).
  rewrite !decode_opt_str. change (field_lookup "subagents" _) with (Some (VObject agents)).
  change (decode_unsigned u32_max _) with (Some 2%Z). change (field_lookup "revision" _) with (Some (VNumber (PosInt rev))).
  unfold decode_unsigned, decode_subagents. cbn [as_u64 as_object mbind option_bind]. by rewrite Hr, H.
Qed.

Lemma accepted_reparses c : accepted c → parse_config_value (encode_config c) = Ok c.
Proof.
  intros [Hs Hr Hp Ha He Hd]. unfold parse_config_value.
  assert (Hnd : ∃ v, normalize_agent_config_value (encode_config c) = Ok v ∧ decode_config v = Some c).
  { destruct c as [sv rev df pm sub]. simpl in Hs, Hr, He. subst sv. eexists. split.
    - apply normalize_written, traverse_encode. intros [k e] Hk. by apply He, elem_of_sorted_entries.
    - rewrite (decode_written rev df pm _ (sorted_entries sub)) by (done || apply collect_encode).
      by rewrite sorted_entries_to_map. }
  destruct Hnd as (v & -> & Hv). cbn [mbind result_bind]. rewrite Hv.
  cbn [ok_or mbind result_bind]. rewrite Hs. cbn [ensure Z.eqb Pos.eqb mbind result_bind].
  assert (Hpm : (match cf_runtime_process_model c with Some m => one_of m process_models | None => true end) = true).
  { destruct (cf_runtime_process_model c) as [m|] eqn:E; [|done]. apply one_of_true. by apply Hp. }
  rewrite Hpm. cbn [ensure mbind result_bind].
  assert (Hk : forallb (λ x, one_of x.1 agent_names) (sorted_entries (cf_subagents c)) = true).
  { apply forallb_forall. intros [k e] Hk%list_elem_of_In%elem_of_sorted_entries. apply one_of_true.
    apply elem_of_dom_2 in Hk. rewrite Ha in Hk. by apply elem_of_list_to_set in Hk. }
  rewrite Hk. cbn [ensure mbind result_bind].
  assert (Hu : cf_subagents c ∪ default_subagents = cf_subagents c).
  { apply map_eq. intros k. destruct (cf_subagents c !! k) as [e|] eqn:E.
    - by apply lookup_union_Some_l.
    - rewrite lookup_union_r by done. apply not_elem_of_dom in E. apply not_elem_of_dom.
      by rewrite dom_default_subagents, <- Ha. }
  rewrite Hu. destruct c as [sv rev df pm sub]. unfold with_subagents, on_default, entry_enabled. simpl in *.
  destruct df as [a|]; simpl; [|done]. destruct (Hd a eq_refl) as (e & Hl & Hen).
  rewrite bool_decide_true by by eapply elem_of_dom_2. simpl. rewrite Hl, Hen. done.
Qed.

(** C32. Parsing a configuration yields one that is fit for use and nothing more than the
    document says: the current schema, exactly the four agents with valid entries, an
    enabled default; an agent is enabled only if the document, under its current or its
    old key, enables it, so omitted agents and flags stay closed.  Written out, the
    configuration parses to itself, so a migrated document is stable. *)
Theorem config_parse_sound v c :
  parse_config_value v = Ok c →
  accepted c
  ∧ (∀ a e, cf_subagents c !! a = Some e → ce_enabled e = true → document_enables v a)
  ∧ parse_config_value (encode_config c) = Ok c.
Proof. intros H. destruct (parse_accepted v c H) as [Ha He]. split; [done|]. split; [done|]. by apply accepted_reparses. Qed.

(** A document of the first schema that enables one agent and makes it the default. *)
Definition legacy_document : Value :=
  VObject [("agents", VObject [("codex", VObject [("enabled", VBool true)])]); ("default_agent", VString "codex")].

Definition migrated_config : AgentConfigSnapshot :=
  mk_config 2 0 (Some "codex") None
    (<["codex" := mk_entry true false None None None None None]> default_subagents).

Lemma config_parse_sound_witness :
  parse_config_value legacy_document = Ok migrated_config
  ∧ accepted migrated_config
  ∧ (∀ a e, cf_subagents migrated_config !! a = Some e → ce_enabled e = true → document_enables legacy_document a)
  ∧ parse_config_value (encode_config migrated_config) = Ok migrated_config.
Proof.
  assert (H : parse_config_value legacy_document = Ok migrated_config) by (vm_compute; reflexivity).
  split; [exact H|]. exact (config_parse_sound legacy_document migrated_config H).
Defined.
