(* ===== verification/RpcAgents.v ===== *)
(** * Admission of an agent

    [crates/external-daemon/src/rpc/agents.rs]: which agent a submission runs on, with
    which model and effort, and why a submission is refused; with it the model tokens of
    [subagents/dsh/src/acp/model.rs].  The host's executable check, the presence of
    [CODEX_HOME], the version of the package and the encoding of a JSON value are
    arguments. *)

From stdpp Require Import gmap.
From S2P Require Import Prelude RustStr RustPath Json Projection General RpcErrors RpcWait RpcConfig RpcProfiles.

(** [GeneralSubmitInput]. *)
Record GeneralSubmitInput := mk_submit {
  si_profile : option string;
  si_agent : option string;
  si_model : option string;
  si_effort : option string;
  si_developer_instructions : option string;
  si_manifest : GeneralTaskManifest }.

Inductive AdmissionField := FieldModel | FieldEffort | FieldSubagent | FieldPermissionMode | FieldNone.

Definition field_str (f : AdmissionField) : option string :=
  match f with
  | FieldModel => Some "model" | FieldEffort => Some "effort" | FieldSubagent => Some "subagent"
  | FieldPermissionMode => Some "permission_mode" | FieldNone => None
  end.

Record AdmissionFailure := mk_failure {
  af_error : RpcError; af_field : AdmissionField; af_profile_provided : bool }.

(** ** Model tokens *)

Definition MAX_MODEL_TOKEN_BYTES : nat := 512.

(** Both sides of the first colon. *)
Definition parse_colon_token (token : string) : option (string * string) :=
  if str_is_empty token || Nat.ltb MAX_MODEL_TOKEN_BYTES (String.length token) || contains_char token (byte_of 0) then None
  else
    '(provider, model) ← split_once ":"%char token;
    if str_is_empty provider || str_is_empty model then None else Some (provider, model).

Definition with_cause (format cause : string) : string := format +:+ "; " +:+ cause.

Definition dsh_model_format_error (token : string) : string :=
  let format := "dsh model must be {provider}:{model}" in
  if str_is_empty token then with_cause format "the token is empty"
  else if Nat.ltb MAX_MODEL_TOKEN_BYTES (String.length token) then with_cause format "the token exceeds 512 bytes"
  else if contains_char token (byte_of 0) then with_cause format "the token contains a NUL byte"
  else if negb (contains_char token ":"%char) then with_cause format "the ':' separator is missing"
  else if starts_with token ":" then with_cause format "the provider side is empty"
  else if ends_with token ":" then with_cause format "the model side is empty"
  else format.

Definition normalized_zcode_model (token : string) : option string :=
  if negb (contains_char token slash) then None
  else match normalized_model_reference token with Some _ => Some token | None => None end.

Definition is_zcode_provider_segment (provider : string) : bool :=
  negb (str_is_empty provider)
  && str_all (λ c, is_ascii_alphanumeric c || Ascii.eqb c "." || Ascii.eqb c "_" || Ascii.eqb c "-") provider.

Definition zcode_model_format_error (token : string) : string :=
  let format := "zcode model must be {provider}/{model}" in
  if str_is_empty token then with_cause format "the token is empty"
  else if Nat.ltb 128 (String.length token) then with_cause format "the token exceeds 128 bytes"
  else if contains_char token (byte_of 0) then with_cause format "the token contains a NUL byte"
  else
    match split_once slash token with
    | None => with_cause format "the '/' separator is missing"
    | Some (provider, model) =>
        if str_is_empty provider then with_cause format "the provider side is empty"
        else if str_is_empty model then with_cause format "the model side is empty"
        else if contains_char model slash then with_cause format "the token contains more than one '/' separator"
        else if negb (is_zcode_provider_segment provider)
        then with_cause format "the provider side must be [A-Za-z0-9._-]+"
        else format
    end.

Definition has_whitespace (s : string) : bool := existsb is_whitespace (chars s).

Definition agy_model_is_valid (token : string) : bool :=
  negb (str_is_empty token) && Nat.leb (String.length token) 512 && negb (contains_char token (byte_of 0))
  && negb (contains_char token ":"%char) && negb (contains_char token slash) && negb (has_whitespace token).

Definition agy_model_format_error (token : string) : string :=
  let format := "agy model must be a bare slug without a ':' or '/' separator or whitespace" in
  if str_is_empty token then with_cause format "the token is empty"
  else if Nat.ltb 512 (String.length token) then with_cause format "the token exceeds 512 bytes"
  else if contains_char token (byte_of 0) then with_cause format "the token contains a NUL byte"
  else if contains_char token ":"%char || contains_char token slash
  then with_cause format "the token contains a ':' or '/' separator"
  else if has_whitespace token then with_cause format "the token contains whitespace"
  else format.

(** The bound of [codex]. *)
Definition codex_model_is_valid (token : string) : bool :=
  negb (str_is_empty token || Nat.ltb 128 (String.length token) || contains_char token (byte_of 0)
        || contains_char token slash).

(** ** Effort *)

Definition effort_byte (c : ascii) : bool := is_ascii_lowercase c || is_ascii_digit c || Ascii.eqb c "_".

Definition codex_efforts : list string := ["low"; "medium"; "high"; "xhigh"; "max"].
Definition agy_efforts : list string := ["low"; "medium"; "high"; "max"].

Definition refuse {A} (code : RpcErrorCode) (message : string) (field : AdmissionField) (from_profile : bool)
    : result AdmissionFailure A := Err (mk_failure (rpc_error code message) field from_profile).

Definition resolve_effort_selection (agent : string) (input : GeneralSubmitInput) (from_profile : bool)
    : result AdmissionFailure (option string) :=
  match trim <$> si_effort input with
  | None => Ok None
  | Some token =>
      if str_is_empty token || Nat.ltb 24 (String.length token) || contains_char token (byte_of 0)
         || negb (str_all effort_byte token)
      then refuse RValidation "effort token must be 1..24 bytes of lowercase [a-z0-9_] with no NUL" FieldEffort from_profile
      else if (agent ≟ "codex") && negb (one_of token codex_efforts)
      then refuse RValidation "codex effort must be one of low, medium, high, xhigh, max" FieldEffort from_profile
      else if (agent ≟ "agy") && negb (one_of token agy_efforts)
      then refuse RValidation "agy effort must be one of low, medium, high, max" FieldEffort from_profile
      else Ok (Some token)
  end.

(** ** The agent *)

(** [roster.map(|name| format!("\"{name}\"")).join(", ")]. *)
Definition quoted (name : string) : string := String dquote (name +:+ String dquote EmptyString).

Definition unknown_agent_error (roster : list string) : RpcError :=
  rpc_error RAgentUnknown ("subagent is unknown, available subagents are [" +:+ join_with ", " (quoted <$> roster) +:+ "]").

Definition unknown_subagent_error (config : AgentConfigSnapshot) : RpcError :=
  unknown_agent_error (List.filter (λ x, ce_enabled x.2) (sorted_entries (cf_subagents config))).*1.

Definition unknown_agent_name_error (config : AgentConfigSnapshot) : RpcError :=
  unknown_agent_error (sorted_entries (cf_subagents config)).*1.

Section host.
Context (is_executable_file : Path → bool) (codex_home : bool) (package_version : string) (to_string : Value → string).

Definition runnable (entry : AgentConfigEntry) : bool :=
  match ce_runtime_path entry with Some path => is_absolute path && is_executable_file path | None => false end.

Definition effective_spawn_supported (agent : string) (entry : AgentConfigEntry) : bool :=
  if agent ≟ "dsh" then
    ce_enabled entry && ce_spawn_supported entry && bool_decide (ce_profile entry = Some "acp") && runnable entry
  else if agent ≟ "codex" then ce_enabled entry && ce_spawn_supported entry && runnable entry
  else if agent ≟ "agy" then ce_enabled entry && ce_spawn_supported entry && runnable entry
  else ce_enabled entry && ce_spawn_supported entry.

(** ** The model *)

(** The token of the submission, or else the configured one, and which of them it is. *)
Definition selected_model (input : GeneralSubmitInput) (entry : AgentConfigEntry) : option string :=
  match si_model input with Some m => Some (trim m) | None => trim <$> ce_default_model entry end.

Definition selection_source (input : GeneralSubmitInput) : string :=
  match si_model input with Some _ => "spawn_catalog" | None => "configured_default" end.

Definition resolve_model (agent : string) (entry : AgentConfigEntry) (input : GeneralSubmitInput) (from_profile : bool)
    : result AdmissionFailure (option string * string) :=
  if agent ≟ "dsh" then
    match selected_model input entry with
    | Some token =>
        match parse_colon_token token with
        | None => refuse RValidation (dsh_model_format_error token) FieldModel from_profile
        | Some _ => Ok (Some token, selection_source input)
        end
    | None => Ok (None, "native")
    end
  else if agent ≟ "codex" then
    match selected_model input entry with
    | None => refuse RValidation "codex requires an explicit model or agents.codex.default_model" FieldModel false
    | Some token =>
        if codex_model_is_valid token then Ok (Some token, selection_source input)
        else refuse RValidation "model token is not a bounded non-empty string" FieldModel from_profile
    end
  else if agent ≟ "agy" then
    match selected_model input entry with
    | Some token =>
        if agy_model_is_valid token then Ok (Some token, selection_source input)
        else refuse RValidation (agy_model_format_error token) FieldModel from_profile
    | None => Ok (None, "native")
    end
  else if agent ≟ "zcode" then
    match trim <$> si_model input with
    | None => refuse RValidation "zcode model must be {provider}/{model}; an explicit model is required from the spawn request or a named profile" FieldModel false
    | Some token =>
        match normalized_zcode_model token with
        | None => refuse RValidation (zcode_model_format_error token) FieldModel from_profile
        | Some normalized => Ok (Some normalized, "spawn_catalog")
        end
    end
  else Ok (None, "native").

(** ** The manifest *)

Definition MAX_DSH_WRITE_MANIFEST_ENTRIES : nat := 256.
Definition MAX_DSH_WRITE_MANIFEST_BYTES : Z := 64 * 1024.

Definition manifest_bytes (m : GeneralTaskManifest) : Z :=
  Z.of_nat (String.length (to_string (VArray (VString <$> write_manifest m)))).

Definition check_manifest (agent : string) (entry : AgentConfigEntry) (m : GeneralTaskManifest) (mode_from_profile : bool)
    : result AdmissionFailure unit :=
  let mode := default Build (permission_mode m) in
  if agent ≟ "dsh" then
    if negb (bool_decide (mode = Build) || bool_decide (mode = Plan))
    then refuse RAgentUnsupported "dsh first-launch admission supports only the build and plan permission modes"
           FieldPermissionMode mode_from_profile
    else if Nat.ltb MAX_DSH_WRITE_MANIFEST_ENTRIES (length (write_manifest m))
            || Z.ltb MAX_DSH_WRITE_MANIFEST_BYTES (manifest_bytes m)
    then refuse RValidation "dsh write manifest exceeds the admission bounds (max 256 entries / 64 KiB)" FieldNone false
    else Ok tt
  else if agent ≟ "codex" then
    match write_manifest m with
    | _ :: _ => refuse RAgentUnsupported "CODEX_WRITE_MANIFEST_UNSUPPORTED" FieldNone false
    | [] => if bool_decide (ce_home entry = None) && negb codex_home
            then refuse RAgentUnsupported "codex home is unconfigured" FieldNone false else Ok tt
    end
  else if agent ≟ "agy" then
    if negb (bool_decide (mode = Build) || bool_decide (mode = Yolo))
    then refuse RAgentUnsupported "AGY_PERMISSION_MODE_UNSUPPORTED" FieldPermissionMode mode_from_profile
    else match write_manifest m with
         | _ :: _ => refuse RAgentUnsupported "AGY_WRITE_MANIFEST_UNSUPPORTED" FieldNone false
         | [] => Ok tt
         end
  else Ok tt.

(** ** Admission *)

(** The field was given, and a profile that sets it is in use. *)
Definition from_profile {A B} (field : option A) (profile : option Profile) (set : Profile → option B) : bool :=
  match field, profile with Some _, Some p => bool_decide (is_Some (set p)) | _, _ => false end.

Definition validate_field (name : string) (value : option string) (field : AdmissionField) (provided : bool)
    : result AdmissionFailure unit :=
  match value with
  | None => Ok tt
  | Some v =>
      match validate_text (trim v) name 4096 with
      | Ok _ => Ok tt
      | Err e => Err (mk_failure e field provided)
      end
  end.

Definition resolve_admission_with_instructions (input : GeneralSubmitInput) (config : AgentConfigSnapshot)
    (instructions : option string) (profile : option Profile) : result AdmissionFailure AdmissionIdentity :=
  let subagent_from := from_profile (si_agent input) profile pf_subagent in
  let model_from := from_profile (si_model input) profile pf_model in
  _ ← validate_field "agent" (si_agent input) FieldSubagent subagent_from;
  _ ← validate_field "model" (si_model input) FieldModel model_from;
  match (match si_agent input with Some a => Some a | None => cf_default_subagent config end) with
  | None => refuse RAgentRequired "agent is required when no default_subagent is configured" FieldSubagent false
  | Some agent =>
      match cf_subagents config !! agent with
      | None => Err (mk_failure (unknown_subagent_error config) FieldSubagent subagent_from)
      | Some configured =>
          if negb (ce_enabled configured) then refuse RAgentDisabled "agent is disabled" FieldSubagent subagent_from
          else if negb (effective_spawn_supported agent configured)
          then refuse RAgentUnsupported ("agent " +:+ agent +:+ " is unsupported") FieldSubagent subagent_from
          else
            effort ← resolve_effort_selection agent input (from_profile (si_effort input) profile pf_effort);
            '(model, source) ← resolve_model agent configured input model_from;
            _ ← check_manifest agent configured (si_manifest input)
                  (match profile with Some p => bool_decide (is_Some (pf_permission_mode p)) | None => false end);
            Ok (mk_admission agent (cf_revision config) package_version model source effort
                  (if agent ≟ "codex"
                   then match instructions with Some s => if trim_is_empty s then None else Some s | None => None end
                   else None))
      end
  end.

(** ** What the status promises *)

Definition permission_modes (agent : string) (entry : AgentConfigEntry) : list PermissionMode :=
  if negb (effective_spawn_supported agent entry) then []
  else if agent ≟ "dsh" then [Build; Plan]
  else if agent ≟ "agy" then [Build; Yolo]
  else [Build; EditMode; Plan; Yolo].
End host.
