(* ===== verification/RpcAgentProps.v ===== *)
(** * Theorems on the admission of an agent *)

From stdpp Require Import gmap.
From S2P Require Import Prelude RustStr RustPath Json Tokenizer Contract Projection General RpcErrors RpcWait RpcConfig RpcProfiles RpcAgents.

(** ** Tokens *)

Definition no_char (c : ascii) (s : string) : Prop := contains_char s c = false.

Definition bounded_token (max : nat) (s : string) : Prop :=
  s ≠ "" ∧ String.length s ≤ max ∧ no_char (byte_of 0) s.

(** The tokens of each agent that selects a model by a token. *)
Definition model_token (agent token : string) : Prop :=
  (agent = "dsh" ∧ bounded_token 512 token
   ∧ ∃ provider model, token = provider +:+ ":" +:+ model ∧ provider ≠ "" ∧ no_char ":" provider ∧ model ≠ "")
  ∨ (agent = "codex" ∧ bounded_token 128 token ∧ no_char slash token)
  ∨ (agent = "agy" ∧ bounded_token 512 token ∧ no_char ":" token ∧ no_char slash token ∧ has_whitespace token = false)
  ∨ (agent = "zcode" ∧ bounded_token 128 token
     ∧ ∃ provider model, token = provider +:+ "/" +:+ model ∧ is_zcode_provider_segment provider = true
                         ∧ model ≠ "" ∧ no_char slash model).

Lemma str_is_empty_true s : str_is_empty s = true ↔ s = "".
Proof. by destruct s. Qed.
Lemma str_is_empty_false s : str_is_empty s = false ↔ s ≠ "".
Proof. by destruct s. Qed.

Lemma bounded_token_test max s :
  str_is_empty s || Nat.ltb max (String.length s) || contains_char s (byte_of 0) = false ↔ bounded_token max s.
Proof. unfold bounded_token, no_char. rewrite !orb_false_iff, str_is_empty_false, Nat.ltb_ge. tauto. Qed.

Lemma split_once_iff c s x y : split_once c s = Some (x, y) ↔ s = x +:+ String c y ∧ no_char c x.
Proof.
  split; [|intros [-> H]; by apply split_once_app].
  intros H. split; [by apply split_once_some|]. revert x y H. unfold no_char.
  induction s as [|a s IH]; intros x y; unfold split_once; fold split_once; [done|].
  destruct (Ascii.eqb_spec a c) as [->|Hne]; [by intros [= <- <-]|].
  destruct (split_once c s) as [[x' y']|]; cbn [option_map]; [|done]. intros [= <- <-].
  rewrite contains_char_cons, (IH x' y' eq_refl), orb_false_r. by apply Ascii.eqb_neq.
Qed.

Lemma parse_colon_token_some token :
  is_Some (parse_colon_token token) ↔ model_token "dsh" token.
Proof.
  unfold parse_colon_token, model_token. pose proof (bounded_token_test 512 token) as Hb.
  destruct (str_is_empty token || _ || _) eqn:E.
  { split; [by intros []|]. intros H. assert (bounded_token 512 token) as H' by naive_solver. by apply Hb in H'. }
  assert (bounded_token 512 token) as Hbt by by apply Hb. clear Hb E. split.
  - intros [x H]. apply bind_Some in H as ([p m] & Hs & H). apply split_once_iff in Hs as [-> Hn].
    destruct (str_is_empty p) eqn:Ep, (str_is_empty m) eqn:Em; try done. apply str_is_empty_false in Ep, Em.
    left. split; [done|]. split; [done|]. by exists p, m.
  - intros [(_ & _ & p & m & -> & Hp & Hn & Hm)|H]; [|naive_solver].
    rewrite (proj2 (split_once_iff _ _ p m)) by done. cbn [mbind option_bind].
    apply str_is_empty_false in Hp as ->, Hm as ->. by eexists.
Qed.

Lemma codex_model_valid token : codex_model_is_valid token = true ↔ model_token "codex" token.
Proof.
  unfold codex_model_is_valid, model_token. rewrite negb_true_iff, orb_false_iff, bounded_token_test. unfold no_char. naive_solver.
Qed.

Lemma agy_model_valid token : agy_model_is_valid token = true ↔ model_token "agy" token.
Proof.
  unfold agy_model_is_valid, model_token, bounded_token, no_char.
  rewrite !andb_true_iff, !negb_true_iff, str_is_empty_false, Nat.leb_le. naive_solver.
Qed.

Lemma bounded_128 token : bounded 128 token = true ↔ bounded_token 128 token.
Proof.
  unfold bounded. rewrite negb_true_iff. rewrite <- bounded_token_test. unfold str_len.
  destruct (Z.ltb_spec 128 (Z.of_nat (String.length token))), (Nat.ltb_spec 128 (String.length token)); try lia; done.
Qed.

Lemma zcode_model_valid token x :
  normalized_zcode_model token = Some x ↔ x = token ∧ model_token "zcode" token.
Proof.
  unfold normalized_zcode_model.
  assert (Hiff : contains_char token slash = true ∧ is_Some (normalized_model_reference token) ↔ model_token "zcode" token).
  { split.
    - intros [Hc [[p m] H]]. apply normalized_model_reference_spec in H as (Hb & model & Hr & _).
      apply bounded_128 in Hb. right. right. right. split; [done|]. split; [done|].
      destruct Hr as [p model Hp Hm|model Hm]; apply model_name_true in Hm as [Hm Hs]; [|unfold RustPath.slash, Projection.slash in *; congruence].
      apply str_is_empty_false in Hm. by exists p, model.
    - intros H. assert (bounded_token 128 token ∧ ∃ p m, token = p +:+ "/" +:+ m ∧ is_zcode_provider_segment p = true
                           ∧ m ≠ "" ∧ no_char slash m) as (Hb & p & m & -> & Hp & Hm & Hs) by (unfold model_token in H; naive_solver).
      split; [rewrite contains_char_app; simpl; rewrite contains_char_cons; by rewrite orb_true_r|].
      exists (p, to_ascii_lowercase m). apply normalized_model_reference_spec. split; [by apply bounded_128|].
      exists m. split; [|done]. apply scoped_reference; [done|]. apply model_name_true. split; [by apply str_is_empty_false|done]. }
  rewrite <- Hiff. destruct (contains_char token slash); simpl; [|naive_solver].
  destruct (normalized_model_reference token) as [r|]; [|split; [done|]; by intros (_ & _ & [])].
  split; [intros [= <-]; eauto|]. by intros [-> _].
Qed.

(** ** Selections *)

(** A model and where it comes from: the submission, else the configuration, else the
    agent's own; [zcode] takes one from the submission only, [codex] needs one. *)
Inductive model_choice (agent : string) (entry : AgentConfigEntry) (input : GeneralSubmitInput)
  : option string → string → Prop :=
| spawn_model m :
    si_model input = Some m → model_token agent (trim m) → model_choice agent entry input (Some (trim m)) "spawn_catalog"
| configured_model m :
    si_model input = None → agent ≠ "zcode" → ce_default_model entry = Some m → model_token agent (trim m) →
    model_choice agent entry input (Some (trim m)) "configured_default"
| native_model :
    agent ∉ ["codex"; "zcode"] →
    (agent ∈ ["dsh"; "agy"] → si_model input = None ∧ ce_default_model entry = None) →
    model_choice agent entry input None "native".

Definition effort_choice (agent : string) (input : GeneralSubmitInput) (effort : option string) : Prop :=
  match si_effort input with
  | None => effort = None
  | Some e => effort = Some (trim e) ∧ bounded_token 24 (trim e) ∧ str_all effort_byte (trim e) = true
              ∧ (agent = "codex" → trim e ∈ codex_efforts) ∧ (agent = "agy" → trim e ∈ agy_efforts)
  end.

Lemma resolve_effort_ok agent input provided e :
  resolve_effort_selection agent input provided = Ok e ↔ effort_choice agent input e.
Proof.
  unfold resolve_effort_selection, effort_choice. destruct (si_effort input) as [t|]; simpl; [|naive_solver].
  pose proof (bounded_token_test 24 (trim t)) as Hb.
  destruct (str_is_empty (trim t) || _ || _); simpl; [naive_solver|].
  destruct (str_all effort_byte (trim t)); simpl; [|naive_solver].
  destruct (String.eqb_spec agent "codex") as [Hc|Hc]; simpl.
  - destruct (one_of (trim t) codex_efforts) eqn:Ho; simpl.
    + apply one_of_true in Ho. subst agent. simpl. naive_solver.
    + split; [done|]. intros (_ & _ & _ & H & _). apply H, one_of_true in Hc. congruence.
  - destruct (String.eqb_spec agent "agy") as [Ha|Ha]; simpl; [|naive_solver].
    destruct (one_of (trim t) agy_efforts) eqn:Ho; simpl.
    + apply one_of_true in Ho. naive_solver.
    + split; [done|]. intros (_ & _ & _ & _ & H). apply H, one_of_true in Ha. congruence.
Qed.

(** What a selected token gives, for the three agents with a configured default. *)
Lemma selected_choice agent entry input token :
  agent ≠ "zcode" → selected_model input entry = Some token →
  ∀ m source, model_token agent token →
    (Ok (E:=AdmissionFailure) (Some token, selection_source input) = Ok (m, source) ↔ model_choice agent entry input m source).
Proof.
  unfold selected_model, selection_source. intros Hz Hs m source Ht. split.
  - intros [= <- <-]. destruct (si_model input) as [x|] eqn:Hm.
    + injection Hs as <-. by eapply spawn_model.
    + apply fmap_Some in Hs as (x & Hd & ->). by eapply configured_model.
  - intros Hc. destruct Hc as [x Hm _|x Hm _ Hd _|Ha Hn].
    + rewrite Hm in *. by injection Hs as <-.
    + rewrite Hm in *. rewrite Hd in Hs. by injection Hs as <-.
    + exfalso. unfold model_token in Ht. destruct Hn as [Hm Hd]; [set_solver|]. by rewrite Hm, Hd in Hs.
Qed.

Lemma unselected_choice agent entry input m source :
  agent ∈ ["dsh"; "agy"] → selected_model input entry = None →
  Ok (E:=AdmissionFailure) (None, "native") = Ok (m, source) ↔ model_choice agent entry input m source.
Proof.
  unfold selected_model. intros Ha Hs. destruct (si_model input) as [x|] eqn:Hm; [done|].
  apply fmap_None in Hs. split.
  - intros [= <- <-]. apply native_model; [set_solver|done].
  - intros Hc. destruct Hc; congruence.
Qed.

(** A selected token that is refused is no choice. *)
Lemma refused_choice agent entry input token m source :
  agent ∈ ["dsh"; "codex"; "agy"] → selected_model input entry = Some token → ¬ model_token agent token →
  ¬ model_choice agent entry input m source.
Proof.
  unfold selected_model. intros Ha Hs Ht Hc. destruct Hc as [x Hm Hx|x Hm _ Hd Hx|Hn Hm].
  - rewrite Hm in Hs. by injection Hs as <-.
  - rewrite Hm, Hd in Hs. by injection Hs as <-.
  - destruct Hm as [Hm Hd]; [set_solver|]. by rewrite Hm, Hd in Hs.
Qed.

Lemma resolve_model_ok agent entry input provided m source :
  resolve_model agent entry input provided = Ok (m, source) ↔ model_choice agent entry input m source.
Proof.
  unfold resolve_model. destruct (String.eqb_spec agent "dsh") as [->|Hdsh].
  { destruct (selected_model input entry) as [t|] eqn:Hs; [|by apply unselected_choice; [set_solver|]].
    pose proof (parse_colon_token_some t) as Hp. destruct (parse_colon_token t) as [x|].
    - apply (selected_choice "dsh" entry input t); [done|done|]. apply Hp. by eexists.
    - split; [done|]. intros Hc. eapply refused_choice in Hc; [done|set_solver|exact Hs|]. intros H. by apply Hp in H as []. }
  destruct (String.eqb_spec agent "codex") as [->|Hcodex].
  { destruct (selected_model input entry) as [t|] eqn:Hs.
    - pose proof (codex_model_valid t) as Hp. destruct (codex_model_is_valid t).
      + apply (selected_choice "codex" entry input t); [done|done|]. by apply Hp.
      + split; [done|]. intros Hc. eapply refused_choice in Hc; [done|set_solver|exact Hs|]. intros H. by apply Hp in H.
    - split; [done|]. unfold selected_model in Hs. intros Hc. destruct Hc as [x Hm|x Hm _ Hd|Hn _]; [by rewrite Hm in Hs|by rewrite Hm, Hd in Hs|set_solver]. }
  destruct (String.eqb_spec agent "agy") as [->|Hagy].
  { destruct (selected_model input entry) as [t|] eqn:Hs; [|by apply unselected_choice; [set_solver|]].
    pose proof (agy_model_valid t) as Hp. destruct (agy_model_is_valid t).
    - apply (selected_choice "agy" entry input t); [done|done|]. by apply Hp.
    - split; [done|]. intros Hc. eapply refused_choice in Hc; [done|set_solver|exact Hs|]. intros H. by apply Hp in H. }
  destruct (String.eqb_spec agent "zcode") as [->|Hz].
  - destruct (si_model input) as [t|] eqn:Hm; simpl.
    + pose proof (zcode_model_valid (trim t)) as Hv. destruct (normalized_zcode_model (trim t)) as [x|].
      * destruct (proj1 (Hv x) eq_refl) as [-> Ht]. split; [intros [= <- <-]; by eapply spawn_model|].
        intros Hc. destruct Hc as [y Hy _|y Hy|Hn _]; [|congruence|set_solver]. rewrite Hm in Hy. by injection Hy as <-.
      * split; [done|]. intros Hc. destruct Hc as [y Hy Ht|y Hy|Hn _]; [|congruence|set_solver].
        rewrite Hm in Hy. injection Hy as <-. by specialize (proj2 (Hv (trim t)) (conj eq_refl Ht)).
    + split; [done|]. intros Hc. destruct Hc as [y Hy _|y Hy|Hn _]; [congruence|done|set_solver].
  - split; [intros [= <- <-]; apply native_model; set_solver|]. intros Hc.
    destruct Hc as [y _ Ht|y _ _ _ Ht|_ _]; [| |done]; unfold model_token in Ht; naive_solver.
Qed.

(** ** Admission *)

Section host.
Context (is_executable_file : Path → bool) (codex_home : bool) (package_version : string) (to_string : Value → string).

#[local] Abbreviation spawnable := (effective_spawn_supported is_executable_file).
#[local] Abbreviation resolve := (resolve_admission_with_instructions is_executable_file codex_home package_version to_string).

(** The write manifest an agent can enforce, and a home for [codex]. *)
Definition enforceable (agent : string) (entry : AgentConfigEntry) (m : GeneralTaskManifest) : Prop :=
  (agent = "dsh" → length (write_manifest m) ≤ MAX_DSH_WRITE_MANIFEST_ENTRIES
                   ∧ (manifest_bytes to_string m ≤ MAX_DSH_WRITE_MANIFEST_BYTES)%Z)
  ∧ (agent = "codex" ∨ agent = "agy" → write_manifest m = [])
  ∧ (agent = "codex" → is_Some (ce_home entry) ∨ codex_home = true).

Lemma check_manifest_ok agent entry m provided u :
  spawnable agent entry = true →
  check_manifest codex_home to_string agent entry m provided = Ok u ↔
    default Build (permission_mode m) ∈ permission_modes is_executable_file agent entry ∧ enforceable agent entry m.
Proof.
  intros Hs. unfold check_manifest, permission_modes, enforceable. rewrite Hs. cbn [negb]. destruct u.
  generalize (default Build (permission_mode m)) as mode. intros mode.
  destruct (String.eqb_spec agent "dsh") as [->|Hdsh].
  { destruct (Nat.ltb_spec MAX_DSH_WRITE_MANIFEST_ENTRIES (length (write_manifest m))),
      (Z.ltb_spec MAX_DSH_WRITE_MANIFEST_BYTES (manifest_bytes to_string m));
      destruct mode; simpl; (split; [try done; intros _|try done]); try (intros [? [H' _]]; specialize (H' eq_refl); lia);
      try (split; [set_solver|naive_solver]); try (intros [? _]; set_solver). }
  destruct (String.eqb_spec agent "codex") as [->|Hcodex].
  { simpl. assert (mode ∈ [Build; EditMode; Plan; Yolo]) as Hm by (destruct mode; set_solver).
    destruct (write_manifest m) as [|x l]; [|naive_solver].
    destruct (ce_home entry) as [h|]; simpl; [naive_solver|]. destruct codex_home; simpl; [naive_solver|].
    split; [done|]. intros (_ & _ & _ & [[]|]); done. }
  destruct (String.eqb_spec agent "agy") as [->|Hagy].
  { destruct (write_manifest m) as [|x l]; destruct mode; simpl; (split; [try done; intros _|try done]);
      try (split; [set_solver|naive_solver]); try (intros [? _]; set_solver); intros (_ & _ & H & _); by specialize (H (or_intror eq_refl)). }
  split; [intros _; split; [destruct mode; set_solver|naive_solver]|done].
Qed.

(** The field is absent, or its text is one the daemon takes. *)
Definition taken_text (o : option string) : Prop := ∀ s, o = Some s → bounded_token 4096 (trim s).

Lemma validate_field_ok name value field provided u :
  validate_field name value field provided = Ok u ↔ taken_text value.
Proof.
  unfold validate_field, taken_text, validate_text. destruct u, value as [s|]; [|naive_solver].
  pose proof (bounded_token_test 4096 (trim s)) as Hb. destruct (str_is_empty (trim s) || _ || _); naive_solver.
Qed.

(** What is admitted: an agent of the configuration that can be spawned, a model and
    an effort of its vocabulary, a permission mode it offers. *)
Definition admissible (input : GeneralSubmitInput) (config : AgentConfigSnapshot) (instructions : option string)
    (id : AdmissionIdentity) : Prop :=
  taken_text (si_agent input) ∧ taken_text (si_model input)
  ∧ Some (agent id) = (match si_agent input with Some a => Some a | None => cf_default_subagent config end)
  ∧ config_revision id = cf_revision config ∧ adapter_version id = package_version
  ∧ ∃ entry, cf_subagents config !! agent id = Some entry ∧ spawnable (agent id) entry = true
      ∧ model_choice (agent id) entry input (model id) (model_source id)
      ∧ effort_choice (agent id) input (effort id)
      ∧ default Build (permission_mode (si_manifest input)) ∈ permission_modes is_executable_file (agent id) entry
      ∧ enforceable (agent id) entry (si_manifest input)
      ∧ developer_instructions id =
          (if decide (agent id = "codex") then (s ← instructions; if trim_is_empty s then None else Some s) else None).

Lemma spawnable_enabled agent entry : spawnable agent entry = true → ce_enabled entry = true.
Proof. unfold effective_spawn_supported. by destruct (ce_enabled entry), (agent ≟ "dsh"), (agent ≟ "codex"), (agent ≟ "agy"). Qed.

(** C29. A submission is admitted exactly when it is admissible, and then as the identity
    its fields determine: the agent it names, or the default one, configured, enabled
    and with an open spawn gate; the model of the submission before the configured one
    before the agent's own, in the grammar of the agent; an effort of its vocabulary; a
    permission mode among those its status offers; a write manifest it can enforce. *)
Theorem admission_exact input config instructions profile id :
  resolve input config instructions profile = Ok id ↔ admissible input config instructions id.
Proof.
  unfold resolve_admission_with_instructions, admissible. split.
  - intros (? & Ha & H)%result_bind_ok. apply result_bind_ok in H as (? & Hm & H). apply validate_field_ok in Ha, Hm.
    destruct (match si_agent input with Some a => Some a | None => _ end) as [a|] eqn:Hag; [|done].
    destruct (cf_subagents config !! a) as [entry|] eqn:He; [|done].
    destruct (ce_enabled entry); [|done]. destruct (spawnable a entry) eqn:Hs; [|done]. cbn [negb] in H.
    apply result_bind_ok in H as (e & Heff & H). apply result_bind_ok in H as ([mo src] & Hmo & H).
    apply result_bind_ok in H as (? & Hc & [= <-]). simpl.
    apply resolve_effort_ok in Heff. apply resolve_model_ok in Hmo. apply check_manifest_ok in Hc as [Hpm Hen]; [|done].
    split; [done|]. split; [done|]. split; [done|]. split; [done|]. split; [done|]. exists entry.
    repeat (split; [done|]). destruct (String.eqb_spec a "codex"); [|by rewrite decide_False by done].
    rewrite decide_True by done. by destruct instructions.
  - intros (Ha & Hm & Hag & Hrev & Hver & entry & He & Hs & Hmo & Heff & Hpm & Hen & Hins).
    destruct id as [a rev ver mo src eff ins]. simpl in *. subst rev ver.
    rewrite (proj2 (validate_field_ok _ _ _ _ tt) Ha). cbn [mbind result_bind].
    rewrite (proj2 (validate_field_ok _ _ _ _ tt) Hm). cbn [mbind result_bind]. rewrite <- Hag, He.
    rewrite (spawnable_enabled _ _ Hs), Hs. cbn [negb].
    rewrite (proj2 (resolve_effort_ok a input _ eff) Heff). cbn [mbind result_bind].
    rewrite (proj2 (resolve_model_ok a entry input _ mo src) Hmo). cbn [mbind result_bind].
    rewrite (proj2 (check_manifest_ok a entry (si_manifest input) _ tt Hs) (conj Hpm Hen)). cbn [mbind result_bind].
    rewrite Hins. destruct (String.eqb_spec a "codex"); [|by rewrite decide_False by done].
    rewrite decide_True by done. by destruct instructions.
Qed.
End host.

(** ** Refused tokens *)

(** What each wording says of the token it refuses. *)
Inductive cause_holds (token : string) : string → Prop :=
| cause_empty : token = "" → cause_holds token "the token is empty"
| cause_long_512 : 512 < String.length token → cause_holds token "the token exceeds 512 bytes"
| cause_long_128 : 128 < String.length token → cause_holds token "the token exceeds 128 bytes"
| cause_nul : contains_char token (byte_of 0) = true → cause_holds token "the token contains a NUL byte"
| cause_no_colon : no_char ":" token → cause_holds token "the ':' separator is missing"
| cause_no_slash : no_char slash token → cause_holds token "the '/' separator is missing"
| cause_no_provider c model : c = ":"%char ∨ c = slash → token = String c model → cause_holds token "the provider side is empty"
| cause_no_model c provider : c = ":"%char ∨ c = slash → token = provider +:+ String c "" →
    cause_holds token "the model side is empty"
| cause_slashes a b c : token = a +:+ String slash (b +:+ String slash c) →
    cause_holds token "the token contains more than one '/' separator"
| cause_provider provider model : token = provider +:+ String slash model → is_zcode_provider_segment provider = false →
    cause_holds token "the provider side must be [A-Za-z0-9._-]+"
| cause_separator : contains_char token ":" = true ∨ contains_char token slash = true →
    cause_holds token "the token contains a ':' or '/' separator"
| cause_whitespace : has_whitespace token = true → cause_holds token "the token contains whitespace".

Definition explained (format token message : string) : Prop :=
  ∃ cause, message = with_cause format cause ∧ cause_holds token cause.

Lemma contains_char_split c s : contains_char s c = true → ∃ a b, s = a +:+ String c b.
Proof.
  intros H. destruct (split_once c s) as [[a b]|] eqn:E; [apply split_once_some in E; eauto|].
  apply split_once_none in E. congruence.
Qed.

Lemma dsh_explained token :
  parse_colon_token token = None → explained "dsh model must be {provider}:{model}" token (dsh_model_format_error token).
Proof.
  unfold parse_colon_token, dsh_model_format_error, explained. intros H.
  destruct (str_is_empty token) eqn:E1; [eexists; split; [done|]; apply cause_empty; by apply str_is_empty_true|].
  destruct (Nat.ltb_spec MAX_MODEL_TOKEN_BYTES (String.length token)) as [E2|E2]; [eexists; split; [done|]; by apply cause_long_512|].
  destruct (contains_char token (byte_of 0)) eqn:E3; [eexists; split; [done|]; by apply cause_nul|]. simpl in H.
  destruct (contains_char token ":") eqn:E4; [|eexists; split; [done|]; by apply cause_no_colon]. cbn [negb].
  destruct (split_once ":" token) as [[p m]|] eqn:Hs; [|apply split_once_none in Hs; congruence].
  apply split_once_some in Hs. cbn [mbind option_bind] in H. destruct (str_is_empty p) eqn:Ep.
  - apply str_is_empty_true in Ep as ->. simpl in Hs. subst token.
    assert (starts_with (String ":" m) ":" = true) as -> by (apply starts_with_true; by exists m).
    eexists. split; [done|]. by apply (cause_no_provider _ ":"%char m); [left|].
  - destruct (str_is_empty m) eqn:Em; [|done]. apply str_is_empty_true in Em as ->.
    destruct (starts_with token ":") eqn:Est.
    { apply starts_with_true in Est as [r Hr]. eexists. split; [done|]. by apply (cause_no_provider _ ":"%char r); [left|]. }
    assert (ends_with token ":" = true) as ->.
    { rewrite Hs. clear. induction p as [|a p IH]; [done|].
      change (ends_with (String a (p +:+ ":")) ":" = true). unfold ends_with; fold ends_with. rewrite IH. apply orb_true_r. }
    eexists. split; [done|]. by apply (cause_no_model _ ":"%char p); [left|].
Qed.

Lemma zcode_explained token :
  normalized_zcode_model token = None → explained "zcode model must be {provider}/{model}" token (zcode_model_format_error token).
Proof.
  unfold zcode_model_format_error, explained. intros H.
  assert (Hno : ¬ model_token "zcode" token).
  { intros Ht. pose proof (proj2 (zcode_model_valid token token) (conj eq_refl Ht)). congruence. }
  destruct (str_is_empty token) eqn:E1; [eexists; split; [done|]; apply cause_empty; by apply str_is_empty_true|].
  destruct (Nat.ltb_spec 128 (String.length token)) as [E2|E2]; [eexists; split; [done|]; by apply cause_long_128|].
  destruct (contains_char token (byte_of 0)) eqn:E3; [eexists; split; [done|]; by apply cause_nul|].
  destruct (split_once slash token) as [[p m]|] eqn:Hs.
  2: { apply split_once_none in Hs. eexists. split; [done|]. by apply cause_no_slash. }
  apply split_once_some in Hs. destruct (str_is_empty p) eqn:Ep.
  { apply str_is_empty_true in Ep as ->. eexists. split; [done|]. by apply (cause_no_provider _ slash m); [right|]. }
  destruct (str_is_empty m) eqn:Em.
  { apply str_is_empty_true in Em as ->. eexists. split; [done|]. by apply (cause_no_model _ slash p); [right|]. }
  destruct (contains_char m slash) eqn:Eslash.
  { apply contains_char_split in Eslash as (b & c & ->). eexists. split; [done|]. by apply (cause_slashes _ p b c). }
  destruct (is_zcode_provider_segment p) eqn:Epr; cbn [negb]; [|eexists; split; [done|]; by apply (cause_provider _ p m)].
  exfalso. apply Hno. right. right. right. split; [done|]. apply str_is_empty_false in E1, Em.
  split; [by split|]. by exists p, m.
Qed.

Lemma agy_explained token :
  agy_model_is_valid token = false →
  explained "agy model must be a bare slug without a ':' or '/' separator or whitespace" token (agy_model_format_error token).
Proof.
  unfold agy_model_is_valid, agy_model_format_error, explained. intros H.
  destruct (str_is_empty token) eqn:E1; [eexists; split; [done|]; apply cause_empty; by apply str_is_empty_true|].
  destruct (Nat.ltb_spec 512 (String.length token)) as [E2|E2]; [eexists; split; [done|]; by apply cause_long_512|].
  apply Nat.leb_le in E2. rewrite E2 in H. simpl in H.
  destruct (contains_char token (byte_of 0)) eqn:E3; [eexists; split; [done|]; by apply cause_nul|]. simpl in H.
  destruct (contains_char token ":") eqn:E4; [eexists; split; [done|]; apply cause_separator; by left|]. simpl in H.
  destruct (contains_char token slash) eqn:E5; [eexists; split; [done|]; apply cause_separator; by right|]. simpl in H.
  destruct (has_whitespace token) eqn:E6; [|done]. eexists. split; [done|]. by apply cause_whitespace.
Qed.

(** The refusal of a model token says what is wrong with it: for each of the three
    agents with a worded format, the message of a token that its validator refuses names
    a cause that holds of the token, never the bare format alone. *)
Theorem refused_token_explained token :
  (parse_colon_token token = None →
     explained "dsh model must be {provider}:{model}" token (dsh_model_format_error token))
  ∧ (normalized_zcode_model token = None →
     explained "zcode model must be {provider}/{model}" token (zcode_model_format_error token))
  ∧ (agy_model_is_valid token = false →
     explained "agy model must be a bare slug without a ':' or '/' separator or whitespace" token
       (agy_model_format_error token)).
Proof. split; [apply dsh_explained|]. split; [apply zcode_explained|apply agy_explained]. Qed.

(** ** Concrete submissions *)

Definition sample_manifest (mode : option PermissionMode) : GeneralTaskManifest :=
  mk_manifest GENERAL_TASK_SCHEMA "daemon-prepared" "/repository" mode "fix the build" [].

Definition sample_config : AgentConfigSnapshot :=
  mk_config 2 7 (Some "codex") None
    (<["codex" := mk_entry true true (Some "gpt-5") (Some "/bin/codex") (Some "/home/codex") None None]>
       (<["zcode" := mk_entry true true None None None None None]> default_subagents)).

Definition sample_resolve (input : GeneralSubmitInput) : result AdmissionFailure AdmissionIdentity :=
  resolve_admission_with_instructions (λ _, true) false "1.0.0" (λ _, "[]") input sample_config (Some "be brief") None.

(** The default agent with the configured model; a bare token is no model of [zcode]. *)
Example default_submission_admitted :
  sample_resolve (mk_submit None None None (Some " high ") None (sample_manifest (Some Plan)))
  = Ok (mk_admission "codex" 7 "1.0.0" (Some "gpt-5") "configured_default" (Some "high") (Some "be brief")).
Proof. vm_compute. reflexivity. Qed.

Example bare_zcode_model_refused :
  sample_resolve (mk_submit None (Some "zcode") (Some "glm-5") None None (sample_manifest None))
  = Err (mk_failure (rpc_error RValidation "zcode model must be {provider}/{model}; the '/' separator is missing") FieldModel false).
Proof. vm_compute. reflexivity. Qed.
