(* ===== verification/AgentStatus.v ===== *)
(** * What is known of an agent

    [crates/external-daemon/src/agent_status.rs]: the evidence that probes of an agent's
    runtime leave, the store that keeps the latest of it, the events of a read-only probe,
    and the catalogs of models.  What the processes of a probe answered, the clock and the
    environment are arguments. *)

From stdpp Require Import gmap sorting.
From S2P Require Import Prelude RustStr RustPath Json Contract Projection Activity RuntimeEvents RpcConfig RpcAgents General RpcErrors RpcViews RpcWait.

Inductive ProbeLayer := LayerLocal | LayerAuth | LayerHi.
#[global] Instance ProbeLayer_eq_dec : EqDecision ProbeLayer.
Proof. solve_decision. Defined.

Record ProbeScope := mk_scope {
  sc_workspace : option string; sc_home : option string; sc_profile : option string; sc_version : option string }.
#[global] Instance ProbeScope_eq_dec : EqDecision ProbeScope.
Proof. solve_decision. Defined.

Definition default_scope : ProbeScope := mk_scope None None None None.

Record AgentProbeInput := mk_probe_input { pi_agent : string; pi_through : ProbeLayer; pi_scope : ProbeScope }.

(** ** Versions *)

Definition PINNED_DSH_VERSION : string := "0.2.0-rc.2".
Definition VERSION_MISMATCH_INSTRUCTION : string := "version mismatch, it may not work as expected".

Definition expected_version (agent : string) (configured : option string) : option string :=
  if agent ≟ "dsh" then Some PINNED_DSH_VERSION else configured.

(** The expected and the observed version, when both are known and differ. *)
Definition version_mismatch (expected observed : option string) : option (string * string) :=
  match expected, observed with
  | Some e, Some o => if e ≟ o then None else Some (e, o)
  | _, _ => None
  end.

(** [version.split(['-', '+']).next()]. *)
Fixpoint version_core (s : string) : string :=
  match s with
  | EmptyString => EmptyString
  | String c rest => if Ascii.eqb c "-" || Ascii.eqb c "+" then EmptyString else String c (version_core rest)
  end.

Definition valid_version (version : string) : bool :=
  let parts := split_char "."%char (version_core version) in
  Nat.eqb (length parts) 3
  && forallb (λ part, negb (str_is_empty part) && str_all is_ascii_digit part) parts
  && Nat.leb (String.length version) 128.

(** ** Evidence *)

Inductive EvidenceState := EvReady | EvDegraded | EvUnavailable | EvUnknown.
#[global] Instance EvidenceState_eq_dec : EqDecision EvidenceState.
Proof. solve_decision. Defined.

Record ScopeEvidence := mk_evidence {
  ev_runtime_path : option string;
  ev_state : EvidenceState;
  ev_scope : ProbeScope;
  ev_version : option string;
  ev_checked_at : Z;
  ev_reason : option string }.
#[global] Instance ScopeEvidence_eq_dec : EqDecision ScopeEvidence.
Proof. solve_decision. Defined.

Definition unknown_evidence (scope : ProbeScope) (now : Z) (reason : string) : ScopeEvidence :=
  mk_evidence None EvUnknown scope None now (Some reason).

Record AgentProbeEvidence := mk_probe_evidence {
  pe_agent : string; pe_config_revision : Z; pe_local : ScopeEvidence; pe_auth : ScopeEvidence; pe_hi : ScopeEvidence }.

Record ModelCatalogEvidence := mk_catalog_evidence {
  mc_source : string; mc_version : option string; mc_scope : ProbeScope; mc_checked_at : Z }.

Record AgentModelsOutput := mk_models {
  mo_agent : string; mo_config_revision : Z; mo_supported : bool; mo_models : list string;
  mo_evidence : ModelCatalogEvidence; mo_reason : option string }.

Record AgentModelsInput := mk_models_input { mi_agent : string; mi_scope : ProbeScope }.

(** ** The store of the latest evidence *)

Record AgentEvidenceStore := mk_evidence_store {
  es_latest : gmap string AgentProbeEvidence; es_models : gmap string AgentModelsOutput }.

(** A layer that a probe did not look at keeps its evidence only under the same
    configuration and scope. *)
Definition preserved_or_stale (value : ScopeEvidence) (scope : ProbeScope) (previous current : Z) : ScopeEvidence :=
  if Z.eqb previous current && bool_decide (ev_scope value = scope) then value
  else if Z.eqb previous current
  then mk_evidence None EvUnknown scope None (ev_checked_at value) (Some "not_probed")
  else mk_evidence (ev_runtime_path value) EvUnknown (ev_scope value) (ev_version value) (ev_checked_at value)
         (Some "stale_config_revision").

(** What is recorded of a probe: [observed] is the backend's answer. *)
Definition recorded_evidence (previous : option AgentProbeEvidence) (input : AgentProbeInput)
    (observed : AgentProbeEvidence) (revision : Z) : AgentProbeEvidence :=
  match previous with
  | None => mk_probe_evidence (pe_agent observed) revision (pe_local observed) (pe_auth observed) (pe_hi observed)
  | Some p =>
      let keep v := preserved_or_stale v (pi_scope input) (pe_config_revision p) revision in
      mk_probe_evidence (pe_agent observed) revision (pe_local observed)
        (match pi_through input with LayerLocal => keep (pe_auth p) | _ => pe_auth observed end)
        (match pi_through input with LayerHi => pe_hi observed | _ => keep (pe_hi p) end)
  end.

Definition store_probe (input : AgentProbeInput) (observed : AgentProbeEvidence) (revision : Z)
    (s : AgentEvidenceStore) : AgentProbeEvidence * AgentEvidenceStore :=
  let e := recorded_evidence (es_latest s !! pi_agent input) input observed revision in
  (e, mk_evidence_store (<[pi_agent input := e]> (es_latest s)) (es_models s)).

Definition store_models (input : AgentModelsInput) (output : AgentModelsOutput) (revision : Z)
    (s : AgentEvidenceStore) : AgentModelsOutput * AgentEvidenceStore :=
  let o := mk_models (mo_agent output) revision (mo_supported output) (mo_models output) (mo_evidence output)
             (mo_reason output) in
  (o, mk_evidence_store (es_latest s) (<[mi_agent input := o]> (es_models s))).

(** The scope a refresh of the local layer reuses. *)
Definition recorded_scope (s : AgentEvidenceStore) (agent : string) : ProbeScope :=
  match es_latest s !! agent with Some p => ev_scope (pe_local p) | None => default_scope end.

Definition local_refresh (s : AgentEvidenceStore) (agent : string) : AgentProbeInput :=
  mk_probe_input agent LayerLocal (recorded_scope s agent).

Definition probe_local_version (agent : string) (observed : AgentProbeInput → AgentProbeEvidence) (revision : Z)
    (s : AgentEvidenceStore) : option string * AgentEvidenceStore :=
  let input := local_refresh s agent in
  let '(e, s) := store_probe input (observed input) revision s in (ev_version (pe_local e), s).

(** ** The probe of a process *)

(** The environment a probe reads, and the temporary workspace it may create. *)
Record ProbeHost := mk_probe_host { ph_env : string → option string; ph_workspace : option string }.

Definition home_variable (agent : string) : string :=
  if agent ≟ "dsh" then "DSH_HOME" else if agent ≟ "codex" then "CODEX_HOME"
  else if agent ≟ "agy" then "HOME" else "ZCODE_HOME".

Definition probe_home (host : ProbeHost) (agent : string) : option string :=
  let variable := home_variable agent in
  if variable ≟ "CODEX_HOME" then ph_env host variable
  else match ph_env host variable with Some h => Some h | None => ph_env host "HOME" end.

(** The scope with the home of the environment and a workspace of its own filled in. *)
Definition probe_scope (host : ProbeHost) (input : AgentProbeInput) : ProbeScope :=
  let s := pi_scope input in
  let home := match sc_home s with Some h => Some h | None => probe_home host (pi_agent input) end in
  let workspace :=
    if (pi_agent input ≟ "zcode") && bool_decide (pi_through input = LayerHi) && bool_decide (sc_workspace s = None)
    then ph_workspace host else sc_workspace s in
  mk_scope workspace home (sc_profile s) (sc_version s).

(** [path], whether it is a file, and what its version command answered. *)
Definition probe_local (path : option Path) (is_file : bool) (version : result string string) (scope : ProbeScope) (now : Z)
    : ScopeEvidence :=
  match path with
  | None => mk_evidence None EvUnavailable scope None now (Some "missing")
  | Some _ =>
      if negb is_file then mk_evidence path EvUnavailable scope None now (Some "missing")
      else match version with
           | Ok v => mk_evidence path EvReady scope (Some v) now None
           | Err reason => mk_evidence path EvDegraded scope None now (Some reason)
           end
  end.

Definition unavailable_evidence (scope : ProbeScope) (version : option string) (now : Z) (reason : string) : ScopeEvidence :=
  mk_evidence None (if reason ≟ "rate_limit" then EvDegraded else EvUnavailable) scope version now (Some reason).

Definition derived_failure (source : ScopeEvidence) (scope : ProbeScope) (now : Z) : ScopeEvidence :=
  mk_evidence (ev_runtime_path source) (ev_state source) scope (ev_version source) now (ev_reason source).

(** [zcode]: a turn in plan mode proves both the credentials and the answer. *)
Definition probe_zcode_hi (workspace_is_dir : bool) (turn : result string string) (scope : ProbeScope)
    (version : option string) (now : Z) : ScopeEvidence * ScopeEvidence :=
  match sc_workspace scope with
  | None => let e := unknown_evidence scope now "workspace_required" in (e, e)
  | Some workspace =>
      if negb (is_absolute workspace) || negb workspace_is_dir
      then let e := mk_evidence None EvUnavailable scope version now (Some "workspace_missing") in (e, e)
      else match turn with
           | Ok _ => let e := mk_evidence None EvReady scope version now None in (e, e)
           | Err reason => let e := unavailable_evidence scope version now reason in (e, e)
           end
  end.

(** [agy]: only the answer is probed. *)
Definition probe_agy_hi (path : option Path) (is_file workspace_is_dir : bool) (turn : result string unit) (scope : ProbeScope)
    (version : option string) (now : Z) : ScopeEvidence * ScopeEvidence :=
  let auth := unknown_evidence scope now "auth_not_probed" in
  let no reason := (auth, unavailable_evidence scope version now reason) in
  match path with
  | Some _ =>
      if negb is_file then no "missing"
      else
        match sc_workspace scope with
        | None => no "workspace_missing"
        | Some workspace =>
            if negb (is_absolute workspace) || negb workspace_is_dir then no "workspace_missing"
            else match turn with
                 | Ok _ => (auth, mk_evidence None EvReady scope version now None)
                 | Err reason => no reason
                 end
        end
  | None => no "missing"
  end.

(** [dsh]: the steps before the turn can fail with a reason of their own. *)
Definition probe_dsh_hi (prepared : result string unit) (turn : result string unit) (scope : ProbeScope)
    (version : option string) (now : Z) : ScopeEvidence * ScopeEvidence :=
  let auth := unknown_evidence scope now "auth_not_probed" in
  let no reason := (auth, mk_evidence None EvUnavailable scope version now (Some reason)) in
  match sc_workspace scope with
  | None => no "workspace_missing"
  | Some _ =>
      match prepared with
      | Err reason => no reason
      | Ok _ =>
          match turn with
          | Ok _ => (auth, mk_evidence None EvReady scope version now None)
          | Err reason => no reason
          end
      end
  end.

(** What the host shows to one probe. *)
Record Observed := mk_observed {
  ob_path : option Path; ob_is_file : bool; ob_version : result string string; ob_workspace_is_dir : bool;
  ob_prepared : result string unit; ob_turn : result string string }.

Definition ok_unit {E A} (r : result E A) : result E unit := match r with Ok _ => Ok tt | Err e => Err e end.

(** [ProcessProbeBackend::probe]. *)
Definition backend_probe (host : ProbeHost) (ob : Observed) (now : Z) (input : AgentProbeInput) : outcome AgentProbeEvidence :=
  let scope := probe_scope host input in
  let local := probe_local (ob_path ob) (ob_is_file ob) (ob_version ob) scope now in
  let auth := unknown_evidence scope now "auth_not_probed" in
  let hi := unknown_evidence scope now "hi_not_probed" in
  let evidence auth hi := mk_probe_evidence (pi_agent input) 0 local auth hi in
  let agent := pi_agent input in
  if (agent ≟ "dsh") && bool_decide (pi_through input = LayerHi) then
    let '(a, h) := probe_dsh_hi (ob_prepared ob) (ok_unit (ob_turn ob)) scope (ev_version local) now in
    Returns (evidence a h)
  else if (agent ≟ "agy") && bool_decide (pi_through input = LayerHi) then
    let '(a, h) := probe_agy_hi (ob_path ob) (ob_is_file ob) (ob_workspace_is_dir ob) (ok_unit (ob_turn ob)) scope
                     (ev_version local) now in
    Returns (evidence a h)
  else if (agent ≟ "zcode") && negb (bool_decide (pi_through input = LayerLocal)) then
    if negb (bool_decide (ev_state local = EvReady)) then
      Returns (evidence (derived_failure local scope now)
                 (if bool_decide (pi_through input = LayerHi) then derived_failure local scope now else hi))
    else if bool_decide (pi_through input = LayerAuth)
    then Returns (evidence (unknown_evidence scope now "auth_requires_hi") hi)
    else
      match ob_path ob with
      | None => Panics
      | Some _ =>
          let '(a, h) := probe_zcode_hi (ob_workspace_is_dir ob) (ob_turn ob) scope (ev_version local) now in
          Returns (evidence a h)
      end
  else Returns (evidence auth hi).

(** ** Failures *)

Section text.
Context (to_string : Value → string) (from_str : string → result string Value).

Definition contains_any (text : string) (words : list string) : bool := existsb (str_contains text) words.

Definition classify_provider_failure (value : Value) (diagnostic : string) : string :=
  let text := to_ascii_lowercase (to_string value) +:+ to_ascii_lowercase diagnostic in
  if contains_any text ["401"; "unauthorized"; "unauthenticated"] then "auth_401"
  else if contains_any text ["429"; "rate limit"; "rate_limit"] then "rate_limit"
  else if contains_any text ["network"; "dns"; "connect"; "timed out"; "timeout"] then "network"
  else "transport".

Definition contains_tool_signal (value : Value) : bool :=
  contains_any (to_ascii_lowercase (to_string value)) ["tool."; "tool_call"; "permission.requested"; "requestpermission"].

(** ** The events of a read-only probe *)

Inductive ProbeTerminal := ProbeCompleted | ProbeFailed (reason : string).

Record ProbeEventCache := mk_cache { pc_terminal : option ProbeTerminal; pc_diagnostic : option string }.

Definition empty_cache : ProbeEventCache := mk_cache None None.

Definition capture_diagnostic (value : Value) (diagnostic : string) (c : ProbeEventCache) : ProbeEventCache :=
  let reason := classify_provider_failure value diagnostic in
  if reason ≟ "transport" then c else mk_cache (pc_terminal c) (Some reason).

Definition complete (c : ProbeEventCache) : ProbeEventCache :=
  match pc_terminal c with None => mk_cache (Some ProbeCompleted) (pc_diagnostic c) | Some _ => c end.

(** The parameters announce a tool or a permission request. *)
Definition tool_kind (params : Value) : bool :=
  match get_str params "type" with Some kind => starts_with kind "tool." || (kind ≟ "permission.requested") | None => false end.

Definition cache_observe (inbound : Inbound) (diagnostic : string) (c : ProbeEventCache) : result string ProbeEventCache :=
  match inbound with
  | Message (Event event) =>
      if tool_kind (event_params event) then Err "policy_violation"
      else if event_method event ≟ SESSION_EVENT then
        Ok (match event_type event with
            | Some kind =>
                if kind ≟ "turn.completed" then complete c
                else if kind ≟ "turn.failed" then
                  let reason := classify_provider_failure (event_params event) diagnostic in
                  mk_cache (Some (ProbeFailed reason)) (Some reason)
                else capture_diagnostic (event_params event) diagnostic c
            | None => capture_diagnostic (event_params event) diagnostic c
            end)
      else Ok c
  | Message (UnknownEvent _ raw) =>
      if contains_tool_signal raw then Err "policy_violation" else Ok (capture_diagnostic raw diagnostic c)
  | Lifecycle _ method _ => Ok (if method ≟ "turn.completed" then complete c else c)
  | Malformed _ | OversizedLine _ | UnmatchedResponse _ _ => Err "transport"
  | ChildExited _ =>
      Ok (mk_cache (Some (ProbeFailed (match pc_diagnostic c with
                                       | Some reason => reason
                                       | None => classify_provider_failure VNull diagnostic
                                       end)))
            (pc_diagnostic c))
  | Message (Request _) | Message (Response _) => Ok c
  end.

Definition failure_reason_or (c : ProbeEventCache) (fallback : string) : string :=
  match pc_terminal c with
  | Some (ProbeFailed reason) => reason
  | _ => default fallback (pc_diagnostic c)
  end.

(** What the driver delivers next: an item with the diagnostic tail of that moment,
    nothing in time, the end of the stream, or the deadline. *)
Inductive Receipt := Item (inbound : Inbound) (diagnostic : string) | NothingYet | StreamEnd | DeadlineOver.

(** The wait for the end of the turn; [None] when the items are used up. *)
Fixpoint await_turn (items : list Receipt) (c : ProbeEventCache) : option (result string unit) :=
  match pc_terminal c with
  | Some ProbeCompleted => Some (Ok tt)
  | Some (ProbeFailed reason) => Some (Err reason)
  | None =>
      match items with
      | [] => None
      | DeadlineOver :: _ => Some (Err "network")
      | NothingYet :: items => await_turn items c
      | StreamEnd :: _ => Some (Err "transport")
      | Item (Message (Request r)) _ :: items =>
          if req_method r ≟ INTERACTION_REQUEST_PERMISSION then Some (Err "policy_violation") else await_turn items c
      | Item inbound diagnostic :: items =>
          match cache_observe inbound diagnostic c with
          | Err reason => Some (Err reason)
          | Ok c => await_turn items c
          end
      end
  end.

(** ** Catalogs *)

Definition DSH_MAX_MODELS : nat := 256.
Definition DSH_MAX_MODEL_TOKEN_BYTES : nat := 512.

Definition catalog_token (s : string) : bool :=
  negb (str_is_empty s) && Nat.leb (String.length s) DSH_MAX_MODEL_TOKEN_BYTES && negb (contains_char s (byte_of 0)).

(** A token is added once. *)
Definition add_token (v : option Value) (tokens : list string) : list string :=
  match v ≫= as_str with
  | Some t => if catalog_token t && negb (one_of t tokens) then tokens ++ [t] else tokens
  | None => tokens
  end.

Fixpoint value_depth (v : Value) : nat :=
  match v with
  | VArray items => S (foldr (λ x n, Nat.max (value_depth x) n) 0 items)
  | VObject fields => S (foldr (λ x n, Nat.max (value_depth x.2) n) 0 fields)
  | _ => 1
  end.

Definition sub_options (v : Value) : list Value := default [] (get v "options" ≫= as_array).

(** The nested options of an option; the fuel is the depth of the value. *)
Fixpoint walk_option (fuel : nat) (v : Value) (tokens : list string) : list string :=
  match fuel with
  | 0 => tokens
  | S fuel => fold_left (λ tokens nested, walk_option fuel nested tokens) (sub_options v) (add_token (get v "value") tokens)
  end.

Definition option_id (v : Value) : option string :=
  match get v "id" with Some id => as_str id | None => get_str v "configId" end.

Definition model_option_tokens (option : Value) (tokens : list string) : list string :=
  if bool_decide (option_id option = Some "model") then
    fold_left (λ tokens v, walk_option (value_depth v) v tokens) (sub_options option)
      (add_token (get option "currentValue") tokens)
  else tokens.

Fixpoint model_ids (models : list Value) (tokens : list string) : result string (list string) :=
  match models with
  | [] => Ok tokens
  | m :: models =>
      match get_str m "id" with
      | Some t =>
          if catalog_token t then model_ids models (if one_of t tokens then tokens else tokens ++ [t]) else Err "protocol"
      | None => Err "protocol"
      end
  end.

Definition parse_opaque_model_tokens (catalog : Value) : result string (list string) :=
  let models := default [] (get catalog "models" ≫= as_array) in
  let tokens := fold_left (λ tokens option, model_option_tokens option tokens)
                  (default [] (get catalog "configOptions" ≫= as_array)) [] in
  match tokens with
  | _ :: _ => Ok tokens
  | [] => if Nat.ltb DSH_MAX_MODELS (length models) then Err "oversized" else model_ids models []
  end.

(** A wire tuple is shown as [provider:model]. *)
Definition display_catalog_model_token (token : string) : string :=
  match from_str token with
  | Ok (VArray [VString provider; VString model]) =>
      if contains_char provider ":"%char then token else provider +:+ ":" +:+ model
  | _ => token
  end.

(** One page of the [codex] catalog: entries that are hidden or malformed are skipped. *)
Definition codex_entry (entry : Value) : option string :=
  fields ← as_object entry;
  if bool_decide (field_lookup "hidden" fields = Some (VBool true)) then None
  else
    id ← field_lookup "id" fields ≫= as_str;
    if catalog_token id then Some id else None.

(** What one request of a page gave: its result, or the reason of a failure. *)
Definition CodexPage : Type := result string (option Value).

Definition classify_codex_model_list_error (error : Value) : string :=
  let message := default "" (get_str error "message") in
  if str_contains message "sign-in" || str_contains message "sign in" then "auth_required" else "catalog_refused".

(** [None]: the next page is needed. *)
Fixpoint codex_catalog (pages : list CodexPage) (models : list string) : option (result string (list string)) :=
  match pages with
  | [] => None
  | Err reason :: _ => Some (Err reason)
  | Ok None :: _ => Some (Err "transport")
  | Ok (Some page) :: pages =>
      match get page "data" ≫= as_array with
      | None => Some (Err "transport")
      | Some data =>
          let models := models ++ omap codex_entry data in
          if Nat.ltb DSH_MAX_MODELS (length models) then Some (Err "oversized")
          else match get_str page "nextCursor" with
               | Some _ => codex_catalog pages models
               | None => Some (Ok (dedup (merge_sort String.le models)))
               end
      end
  end.

Definition degraded_models (input : AgentModelsInput) (evidence : ModelCatalogEvidence) (reason : option string) : AgentModelsOutput :=
  mk_models (mi_agent input) 0 false [] evidence reason.

Definition models_source (agent : string) : string :=
  if agent ≟ "zcode" then "zcode_native_model" else if agent ≟ "codex" then "codex_app_server_model_list"
  else if agent ≟ "agy" then "agy_models_list" else "dsh_acp_models_list".

Definition unsupported_models (input : AgentModelsInput) (now : Z) (reason : string) : AgentModelsOutput :=
  degraded_models input (mk_catalog_evidence (models_source (mi_agent input)) None (mi_scope input) now) (Some reason).

(** The selectable models of a created session. *)
Definition zcode_catalog (available : list (option string * option string)) : list string :=
  dedup (merge_sort String.le
    (omap (λ '(provider, model), match provider, model with
           | Some p, Some m => Some (p +:+ "/" +:+ m) | _, _ => None end) available)).

Definition probe_zcode_models (scope : ProbeScope) (local : ScopeEvidence) (workspace_is_dir : bool)
    (catalog : result string (list string)) (now : Z) (input : AgentModelsInput) : AgentModelsOutput :=
  let evidence := mk_catalog_evidence "zcode_session_create_settings" (ev_version local) scope now in
  let no reason := degraded_models input evidence (Some reason) in
  if negb (bool_decide (ev_state local = EvReady)) then no (default "missing" (ev_reason local))
  else
    match sc_workspace scope with
    | None => no "workspace_required"
    | Some workspace =>
        if negb (is_absolute workspace) || negb workspace_is_dir then no "workspace_missing"
        else match catalog with
             | Ok ((_ :: _) as models) => mk_models (mi_agent input) 0 true models evidence None
             | Ok [] => no "model_catalog_empty"
             | Err reason => no reason
             end
    end.

Definition probe_agy_models (scope : ProbeScope) (local : ScopeEvidence) (catalog : result string (list string)) (now : Z)
    (input : AgentModelsInput) : AgentModelsOutput :=
  let evidence := mk_catalog_evidence "agy_models_list" (ev_version local) scope now in
  if negb (bool_decide (ev_state local = EvReady)) then degraded_models input evidence (ev_reason local)
  else match catalog with
       | Ok models => mk_models (mi_agent input) 0 true models evidence None
       | Err reason => degraded_models input evidence (Some reason)
       end.

(** [probe_codex_models], after the home is resolved: [catalog] is the exchange. *)
Definition probe_codex_models (scope : ProbeScope) (local : ScopeEvidence) (catalog : result string (list string)) (now : Z)
    (input : AgentModelsInput) : AgentModelsOutput :=
  let evidence := mk_catalog_evidence "codex_app_server_model_list" (ev_version local) scope now in
  let no reason := degraded_models input evidence (Some reason) in
  if negb (bool_decide (ev_state local = EvReady)) then no (default "missing" (ev_reason local))
  else
    match sc_home scope with
    | None => no "home_required"
    | Some home =>
        if negb (is_absolute home) then no "home_invalid"
        else match catalog with
             | Ok ((_ :: _) as models) => mk_models (mi_agent input) 0 true models evidence None
             | Ok [] => no "model_catalog_empty"
             | Err reason => no reason
             end
    end.

Definition probe_dsh_models (scope : ProbeScope) (local : ScopeEvidence) (workspace_is_dir : bool)
    (catalog : result string (list string)) (now : Z) (input : AgentModelsInput) : AgentModelsOutput :=
  let evidence := mk_catalog_evidence "dsh_acp_models_list" (ev_version local) scope now in
  let no reason := degraded_models input evidence (Some reason) in
  if negb (bool_decide (ev_state local = EvReady)) then degraded_models input evidence (ev_reason local)
  else
    match sc_workspace scope with
    | None => no "workspace_required"
    | Some workspace =>
        if negb (is_absolute workspace) || negb workspace_is_dir then no "workspace_missing"
        else match catalog with
             | Ok ((_ :: _) as models) =>
                 mk_models (mi_agent input) 0 true (display_catalog_model_token <$> models) evidence None
             | Ok [] => no "model_catalog_empty"
             | Err reason => no reason
             end
    end.
End text.

(** ** The status of the agents and of the daemon

    [crates/external-daemon/src/rpc/agents.rs] and [rpc/handlers.rs]: what is shown of
    the configuration and of the recorded evidence, and how the parts of the daemon are
    rolled up.  Whether the journal mode of the store can be read is an argument. *)

Record AgentScopeStatusView := mk_scope_view {
  sv_state : ComponentStateView; sv_runtime_path : option string; sv_scope : ProbeScope; sv_version : option string;
  sv_checked_at : option Z; sv_reason : option string }.

(** The evidence comes from a probe of this layer. *)
Definition was_checked (v : ScopeEvidence) : bool :=
  match ev_reason v with Some reason => negb (str_contains reason "not_probed") | None => true end.

Definition checked_at (v : ScopeEvidence) : option Z := if was_checked v then Some (ev_checked_at v) else None.

Definition evidence_state (s : EvidenceState) : ComponentStateView :=
  match s with EvReady => Ready | EvDegraded => Degraded | EvUnavailable => Unavailable | EvUnknown => Unknown end.

Definition scope_status_view (v : ScopeEvidence) : AgentScopeStatusView :=
  mk_scope_view (evidence_state (ev_state v)) (ev_runtime_path v) (ev_scope v) (ev_version v) (checked_at v)
    (if was_checked v then ev_reason v else None).

Definition stale_scope (v : ScopeEvidence) : AgentScopeStatusView :=
  mk_scope_view Unknown (ev_runtime_path v) (ev_scope v) (ev_version v) (checked_at v) (Some "stale_config_revision").

Definition unprobed_scope : AgentScopeStatusView := mk_scope_view Unknown None default_scope None None None.

Definition current_scope (evidence : option AgentProbeEvidence) (revision : Z) (select : AgentProbeEvidence → ScopeEvidence)
    : AgentScopeStatusView :=
  match evidence with
  | Some e => if Z.eqb (pe_config_revision e) revision then scope_status_view (select e) else stale_scope (select e)
  | None => unprobed_scope
  end.

Record AgentModelsStatusView := mk_models_view {
  mv_supported : bool; mv_tokens : list string; mv_source : string; mv_version : option string;
  mv_checked_at : Z; mv_reason : option string }.

Definition models_status (recorded : option AgentModelsOutput) (revision : Z) : option AgentModelsStatusView :=
  r ← recorded;
  let e := mo_evidence r in
  if negb (Z.eqb (mo_config_revision r) revision)
  then Some (mk_models_view false [] (mc_source e) (mc_version e) (mc_checked_at e) (Some "stale_config_revision"))
  else Some (mk_models_view (mo_supported r) (mo_models r) (mc_source e) (mc_version e) (mc_checked_at e) (mo_reason r)).

Inductive AgentTransportView := ZcodeAppServer | CodexAppServer | AgyStreamJson | DshAcp.

Definition agent_transport (agent : string) : AgentTransportView :=
  if agent ≟ "zcode" then ZcodeAppServer else if agent ≟ "codex" then CodexAppServer
  else if agent ≟ "agy" then AgyStreamJson else DshAcp.

Definition required_version (agent : string) : option string :=
  if agent ≟ "dsh" then Some PINNED_DSH_VERSION else None.

Record AgentStatusView := mk_status {
  st_agent : string;
  st_required_version : option string;
  st_version_mismatch : option (string * string);
  st_config_revision : Z;
  st_configured : bool;
  st_enabled : bool;
  st_spawn_supported : bool;
  st_transport : AgentTransportView * bool;
  st_permission_modes : list PermissionMode;
  st_model_selection : bool;
  st_effort_selection : bool * bool;
  st_models : option AgentModelsStatusView;
  st_local : AgentScopeStatusView;
  st_auth : AgentScopeStatusView;
  st_hi : AgentScopeStatusView }.

Section host.
Context (is_executable_file : Path → bool).

#[local] Abbreviation spawnable := (effective_spawn_supported is_executable_file).

Definition model_selection (agent : string) (entry : AgentConfigEntry) : bool := one_of agent agent_names && spawnable agent entry.

(** Whether an effort can be chosen, and whether from a closed set. *)
Definition effort_selection (agent : string) (entry : AgentConfigEntry) : bool * bool :=
  (spawnable agent entry, (agent ≟ "codex") || (agent ≟ "agy")).

Definition agent_status (config : AgentConfigSnapshot) (evidence : AgentEvidenceStore) (agent : string) (entry : AgentConfigEntry)
    : AgentStatusView :=
  let observed := es_latest evidence !! agent in
  let observed_version := observed ≫= λ e, ev_version (pe_local e) in
  mk_status agent (required_version agent)
    (version_mismatch (expected_version agent (ce_version entry)) observed_version)
    (cf_revision config) true (ce_enabled entry) (spawnable agent entry)
    (agent_transport agent, spawnable agent entry) (permission_modes is_executable_file agent entry)
    (model_selection agent entry) (effort_selection agent entry)
    (models_status (es_models evidence !! agent) (cf_revision config))
    (current_scope observed (cf_revision config) pe_local) (current_scope observed (cf_revision config) pe_auth)
    (current_scope observed (cf_revision config) pe_hi).

(** [config.subagents[agent]]: panics on a missing agent. *)
Fixpoint statuses (config : AgentConfigSnapshot) (evidence : AgentEvidenceStore) (agents : list string)
    : outcome (list AgentStatusView) :=
  match agents with
  | [] => Returns []
  | agent :: rest =>
      match cf_subagents config !! agent with
      | None => Panics
      | Some entry => l ← statuses config evidence rest; Returns (agent_status config evidence agent entry :: l)
      end
  end.

Definition configured_agent_statuses (config : AgentConfigSnapshot) (evidence : AgentEvidenceStore)
    : outcome (list AgentStatusView) := statuses config evidence agent_names.

Definition unavailable_agent_statuses : list AgentStatusView :=
  (λ agent, mk_status agent (required_version agent) None 0 false false false
              (agent_transport agent, spawnable agent closed_entry) [] (model_selection agent closed_entry)
              (effort_selection agent closed_entry) None unprobed_scope unprobed_scope unprobed_scope) <$> agent_names.

(** ** The status of the daemon *)

(** What the store says of its journal. *)
Definition store_state (journal : result string string) : ComponentStateView :=
  match journal with
  | Ok mode => if to_ascii_lowercase mode ≟ "wal" then Ready else Degraded
  | Err _ => Unavailable
  end.

Definition component_states (agents : list AgentStatusView) (journal : result string string)
    : list (string * ComponentStateView) :=
  let enabled := List.filter st_enabled agents in
  [("facade", Unknown); ("daemon", Ready); ("store", store_state journal); ("scheduler", Ready);
   ("driver", aggregate_component_state ((λ a, sv_state (st_local a)) <$> List.filter (λ a, st_enabled a && st_spawn_supported a) agents));
   ("runtime", aggregate_component_state ((λ a, sv_state (st_local a)) <$> enabled));
   ("model_auth", aggregate_component_state ((λ a, sv_state (st_auth a)) <$> enabled))].

(** Every configured agent's local layer is refreshed before it is shown; [observed]
    is what the probes found.  The probes run side by side, each for its own agent. *)
Definition auto_probe_no_llm_layers (config : AgentConfigSnapshot) (observed : AgentProbeInput → AgentProbeEvidence)
    (s : AgentEvidenceStore) : AgentEvidenceStore :=
  fold_left (λ s name, let input := local_refresh s name in (store_probe input (observed input) (cf_revision config) s).2)
    (sorted_entries (cf_subagents config)).*1 s.

Definition system_status (config : result RpcError AgentConfigSnapshot) (observed : AgentProbeInput → AgentProbeEvidence)
    (journal : result string string) (s : AgentEvidenceStore)
    : outcome (list AgentStatusView * list (string * ComponentStateView) * AgentEvidenceStore) :=
  match config with
  | Ok config =>
      let s := auto_probe_no_llm_layers config observed s in
      agents ← configured_agent_statuses config s;
      Returns (agents, component_states agents journal, s)
  | Err _ => Returns (unavailable_agent_statuses, component_states unavailable_agent_statuses journal, s)
  end.

(** The advice with a failed result, and the evidence it records. *)
Definition version_mismatch_instruction (agent : string) (config : result RpcError AgentConfigSnapshot)
    (observed : AgentProbeInput → AgentProbeEvidence) (s : AgentEvidenceStore) : option string * AgentEvidenceStore :=
  match config with
  | Err _ => (None, s)
  | Ok config =>
      match cf_subagents config !! agent with
      | None => (None, s)
      | Some entry =>
          match expected_version agent (ce_version entry) with
          | None => (None, s)
          | Some expected =>
              let '(version, s) := probe_local_version agent observed (cf_revision config) s in
              (match version_mismatch (Some expected) version with
               | Some _ => Some VERSION_MISMATCH_INSTRUCTION | None => None end, s)
          end
      end
  end.
End host.

(** ** Requests *)

Definition validate_scope_field (name : string) (value : option string) : result RpcError unit :=
  match value with
  | None => Ok tt
  | Some v =>
      _ ← validate_text v name 4096;
      if is_absolute v then Ok tt else Err (rpc_error RValidation (name +:+ " must be absolute"))
  end.

Definition validate_agent_probe_input (input : AgentProbeInput) : result RpcError unit :=
  _ ← validate_scope_field "workspace" (sc_workspace (pi_scope input));
  validate_scope_field "home" (sc_home (pi_scope input)).

Definition validate_agent_models_input (input : AgentModelsInput) : result RpcError unit :=
  validate_agent_probe_input (mk_probe_input (mi_agent input) LayerLocal (mi_scope input)).
