(* ===== verification/AgentStatusProps.v ===== *)
(** * Theorems on the evidence of agents and the status it is shown as *)

From stdpp Require Import gmap sorting.
From S2P Require Import Prelude RustStr RustPath Json Contract Projection Activity RuntimeEvents General RpcErrors RpcViews RpcConfig RpcProfileProps RpcAgents AgentStatus.

(** ** Histories of probes *)

Definition layer (l : ProbeLayer) (e : AgentProbeEvidence) : ScopeEvidence :=
  match l with LayerLocal => pe_local e | LayerAuth => pe_auth e | LayerHi => pe_hi e end.

(** A probe up to [through] looks at layer [l]. *)
Definition reaches (through l : ProbeLayer) : bool :=
  match l, through with
  | LayerLocal, _ | LayerAuth, LayerAuth | LayerAuth, LayerHi | LayerHi, LayerHi => true
  | _, _ => false
  end.

Record ProbeEvent := mk_probe_event { ps_input : AgentProbeInput; ps_observed : AgentProbeEvidence; ps_revision : Z }.

Definition empty_store : AgentEvidenceStore := mk_evidence_store ∅ ∅.

Definition record_probe (s : AgentEvidenceStore) (p : ProbeEvent) : AgentEvidenceStore :=
  (store_probe (ps_input p) (ps_observed p) (ps_revision p) s).2.

Definition run_probes (h : list ProbeEvent) : AgentEvidenceStore := fold_left record_probe h empty_store.

(** The observation of [p] is what the backend found for its input. *)
Definition real_probe (p : ProbeEvent) : Prop :=
  ∃ host ob now, backend_probe host ob now (ps_input p) = Returns (ps_observed p).

(** The probe [p] is the last one of [agent] that looked at the layer; [after] are the
    probes that followed it, of any agent. *)
Definition last_look (h : list ProbeEvent) (agent : string) (l : ProbeLayer) (p : ProbeEvent) (after : list ProbeEvent) : Prop :=
  pi_agent (ps_input p) = agent ∧ reaches (pi_through (ps_input p)) l = true
  ∧ (∃ before, h = before ++ p :: after)
  ∧ Forall (λ q, pi_agent (ps_input q) = agent → reaches (pi_through (ps_input q)) l = false) after.

Lemma preserved_known v scope previous current :
  ev_state (preserved_or_stale v scope previous current) ≠ EvUnknown →
  preserved_or_stale v scope previous current = v ∧ previous = current ∧ ev_scope v = scope.
Proof.
  unfold preserved_or_stale. destruct (Z.eqb_spec previous current); simpl; [|done].
  by case_bool_decide.
Qed.

Lemma preserved_exact v scope previous current :
  previous = current → scope = ev_scope v → preserved_or_stale v scope previous current = v.
Proof. intros -> ->. unfold preserved_or_stale. rewrite Z.eqb_refl. by rewrite bool_decide_true. Qed.

Lemma recorded_layer previous input observed revision l :
  layer l (recorded_evidence previous input observed revision) =
    match previous with
    | Some p => if reaches (pi_through input) l then layer l observed
                else preserved_or_stale (layer l p) (pi_scope input) (pe_config_revision p) revision
    | None => layer l observed
    end.
Proof. unfold recorded_evidence. destruct previous as [p|]; [|by destruct l]. by destruct l, (pi_through input). Qed.

Lemma recorded_revision previous input observed revision :
  pe_config_revision (recorded_evidence previous input observed revision) = revision.
Proof. by destruct previous. Qed.

(** The backend leaves a layer it was not asked for unknown. *)
Lemma backend_probe_unreached host ob now input e l :
  backend_probe host ob now input = Returns e → reaches (pi_through input) l = false → ev_state (layer l e) = EvUnknown.
Proof.
  intros H Hr. destruct input as [agent through scope]. cbn in *. destruct through, l; try done;
    unfold backend_probe in H; cbn [pi_agent pi_through] in H; repeat case_bool_decide; try done;
    cbn [negb] in H; rewrite ?andb_false_r, ?andb_true_r in H;
    repeat match type of H with (if ?c then _ else _) = _ => destruct c end; by injection H as <-.
Qed.

Lemma run_probes_snoc h q : run_probes (h ++ [q]) = record_probe (run_probes h) q.
Proof. unfold run_probes. by rewrite fold_left_app. Qed.

Lemma last_look_snoc h agent l p after q :
  last_look h agent l p after → (pi_agent (ps_input q) = agent → reaches (pi_through (ps_input q)) l = false) →
  last_look (h ++ [q]) agent l p (after ++ [q]).
Proof.
  intros (Ha & Hr & [before ->] & Hall) Hq. split; [done|]. split; [done|]. split.
  - exists before. by rewrite <- app_assoc.
  - apply Forall_app. split; [done | by constructor].
Qed.

Lemma last_look_here h q l :
  reaches (pi_through (ps_input q)) l = true → last_look (h ++ [q]) (pi_agent (ps_input q)) l q [].
Proof. intros Hr. split; [done|]. split; [done|]. split; [by exists h | constructor]. Qed.

(** What is recorded of a layer and known is the finding of the last probe that looked. *)
Lemma run_probes_known h agent e l :
  Forall real_probe h → es_latest (run_probes h) !! agent = Some e → ev_state (layer l e) ≠ EvUnknown →
  ∃ p after, last_look h agent l p after ∧ layer l (ps_observed p) = layer l e
    ∧ Forall (λ q, pi_agent (ps_input q) = agent → ps_revision q = pe_config_revision e) (p :: after).
Proof.
  revert e. induction h as [|q h IH] using rev_ind; intros e Hreal; [done|].
  apply Forall_app in Hreal as [Hreal Hq]. apply Forall_singleton in Hq as (host & ob & now & Hq).
  rewrite run_probes_snoc. simpl. intros He Hk. apply lookup_insert_Some in He as [[<- <-]|[Hne He]].
  - rewrite recorded_revision. rewrite recorded_layer in *. set (agent := pi_agent (ps_input q)) in *.
    destruct (reaches (pi_through (ps_input q)) l) eqn:Hr.
    { exists q, []. split; [by apply last_look_here|]. by split; [destruct (es_latest _ !! agent) | repeat constructor]. }
    pose proof (backend_probe_unreached _ _ _ _ _ _ Hq Hr) as Hu.
    destruct (es_latest (run_probes h) !! agent) as [p|] eqn:Hp; [|done].
    apply preserved_known in Hk as Hk'. destruct Hk' as (Heq & Hrev & Hscope). rewrite Heq in *.
    destruct (IH p Hreal eq_refl Hk) as (w & after & Hw & Hl & Hall). exists w, (after ++ [q]). rewrite <- Hrev.
    split; [by apply last_look_snoc|]. split; [done|]. rewrite app_comm_cons. apply Forall_app. split; [done|]. by repeat constructor.
  - destruct (IH e Hreal He Hk) as (w & after & Hw & Hl & Hall). exists w, (after ++ [q]).
    split; [by apply last_look_snoc|]. split; [done|]. rewrite app_comm_cons. apply Forall_app. split; [done|]. by repeat constructor.
Qed.

(** What a probe found of a layer is kept by the later ones that do not look at it, under
    the same configuration and for the scope it was found under. *)
Lemma run_probes_kept h agent l p after :
  last_look h agent l p after →
  Forall (λ q, pi_agent (ps_input q) = agent →
            ps_revision q = ps_revision p ∧ pi_scope (ps_input q) = ev_scope (layer l (ps_observed p))) after →
  ∃ e, es_latest (run_probes h) !! agent = Some e
    ∧ pe_config_revision e = ps_revision p ∧ layer l e = layer l (ps_observed p).
Proof.
  intros (<- & Hr & [before ->] & Hall) Hkeep. induction after as [|q after IH] using rev_ind.
  { rewrite run_probes_snoc. eexists. split; [apply lookup_insert_eq|]. split; [apply recorded_revision|].
    rewrite recorded_layer, Hr. by destruct (es_latest _ !! _). }
  apply Forall_app in Hall as [Hall Hq]. apply Forall_cons_1 in Hq as [Hq _]. apply Forall_app in Hkeep as [Hkeep Hk].
  apply Forall_cons_1 in Hk as [Hk _]. destruct (IH Hall Hkeep) as (e & He & Hrev & Hl).
  rewrite app_comm_cons, app_assoc, run_probes_snoc. destruct (decide (pi_agent (ps_input q) = pi_agent (ps_input p))) as [Ea|Hne].
  - destruct (Hk Ea) as [Hrq Hsq]. specialize (Hq Ea). eexists. simpl. rewrite Ea. split; [apply lookup_insert_eq|].
    split; [by rewrite recorded_revision|]. rewrite recorded_layer, He, Hq, Hl. by apply preserved_exact; [congruence|].
  - exists e. simpl. by rewrite lookup_insert_ne.
Qed.

(** C33. The status of a layer is the word of the last probe that looked at it.  Whatever
    is shown as known was found by that probe and is shown as found, and that probe and
    every later one of the agent ran under the configuration that is shown, so a status
    never outlives a change of the configuration.  In the other direction a finding is
    not lost: it stays the status of the layer, unchanged, for as long as the later probes
    of the agent do not look at the layer, run under the same configuration, and ask for
    the scope under which the finding was made. *)
Theorem status_is_current h agent l :
  Forall real_probe h →
  let view revision := current_scope (es_latest (run_probes h) !! agent) revision (layer l) in
  (∀ revision, sv_state (view revision) ≠ Unknown →
     ∃ p after, last_look h agent l p after ∧ view revision = scope_status_view (layer l (ps_observed p))
       ∧ Forall (λ q, pi_agent (ps_input q) = agent → ps_revision q = revision) (p :: after))
  ∧ (∀ p after, last_look h agent l p after →
       Forall (λ q, pi_agent (ps_input q) = agent →
                 ps_revision q = ps_revision p ∧ pi_scope (ps_input q) = ev_scope (layer l (ps_observed p))) after →
       view (ps_revision p) = scope_status_view (layer l (ps_observed p))).
Proof.
  simpl. intros Hreal. unfold current_scope. split.
  - intros revision. destruct (es_latest (run_probes h) !! agent) as [e|] eqn:He; [|done].
    destruct (Z.eqb_spec (pe_config_revision e) revision) as [<-|]; [|done]. intros Hk.
    destruct (run_probes_known h agent e l Hreal He) as (p & after & Hp & Hl & Hr).
    { intros Hu. apply Hk. simpl. by rewrite Hu. }
    exists p, after. split; [done|]. by rewrite Hl.
  - intros p after Hp Hkeep. destruct (run_probes_kept h agent l p after Hp Hkeep) as (e & -> & -> & ->).
    by rewrite Z.eqb_refl.
Qed.

(** ** Probes of a process *)

Lemma probe_local_ready path is_file version scope now :
  ev_state (probe_local path is_file version scope now) = EvReady → is_Some path.
Proof. unfold probe_local. destruct path; [by eexists|done]. Qed.

Lemma unavailable_not_ready scope version now reason : ev_state (unavailable_evidence scope version now reason) ≠ EvReady.
Proof. unfold unavailable_evidence. simpl. by destruct (reason ≟ "rate_limit"). Qed.

(** The end of a branch of a probe: its evidence is given. *)
Ltac probe_case :=
  eexists; split; [reflexivity|]; split; [by intros []|];
  first [intros _; eexists; reflexivity | by intros ?%unavailable_not_ready | by intros ?].

(** A probe of a process returns, with the resolved scope in every layer, and finds an
    agent that answers only if its turn ended well. *)
Lemma backend_probe_ok host ob now input :
  ∃ e, backend_probe host ob now input = Returns e
    ∧ (∀ l, ev_scope (layer l e) = probe_scope host input)
    ∧ (ev_state (pe_hi e) = EvReady → ∃ answer, ob_turn ob = Ok answer).
Proof.
  unfold backend_probe. set (local := probe_local _ _ _ _ _).
  assert (Hscope : ev_scope local = probe_scope host input).
  { unfold local, probe_local. destruct (ob_path ob); [|done]. destruct (ob_is_file ob); [|done]. by destruct (ob_version ob). }
  destruct ((pi_agent input ≟ "dsh") && _).
  { unfold probe_dsh_hi. destruct (sc_workspace (probe_scope host input)); [|probe_case].
    destruct (ob_prepared ob); [|probe_case]. destruct (ob_turn ob); probe_case. }
  destruct ((pi_agent input ≟ "agy") && _).
  { unfold probe_agy_hi. destruct (ob_path ob); [|probe_case]. destruct (ob_is_file ob); [|probe_case].
    destruct (sc_workspace (probe_scope host input)) as [w|]; [|probe_case]. cbn [negb].
    destruct (negb (is_absolute w) || _); [probe_case|]. destruct (ob_turn ob); probe_case. }
  destruct ((pi_agent input ≟ "zcode") && _); [|probe_case]. case_bool_decide as Hr; cbn [negb].
  - case_bool_decide; [probe_case|]. destruct (probe_local_ready _ _ _ _ _ Hr) as [path Hp]. rewrite Hp.
    unfold probe_zcode_hi. destruct (sc_workspace (probe_scope host input)) as [w|]; [|probe_case].
    destruct (negb (is_absolute w) || _); [probe_case|]. destruct (ob_turn ob); probe_case.
  - case_bool_decide; probe_case.
Qed.

(** A probe with the same input erases what the one before it found: the recorded scope
    is the resolved one, the compared scope is the one of the request. *)
Definition erasing_host : ProbeHost := mk_probe_host (λ v, if v ≟ "HOME" then Some "/home/u" else None) (Some "/tmp/probe").
Definition ready_runtime : Observed := mk_observed (Some "/opt/zcode") true (Ok "1.2.3") true (Ok tt) (Ok "session").

Definition probed_in (scope : ProbeScope) (through : ProbeLayer) : list ProbeEvent :=
  let input := mk_probe_input "zcode" through scope in
  match backend_probe erasing_host ready_runtime 5 input with Returns e => [mk_probe_event input e 3] | Panics => [] end.
Definition probed : ProbeLayer → list ProbeEvent := probed_in default_scope.

Definition hi_state (h : list ProbeEvent) : ComponentStateView :=
  sv_state (current_scope (es_latest (run_probes h) !! "zcode") 3 pe_hi).

Example repeated_probe_erases_evidence :
  hi_state (probed LayerHi) = Ready ∧ hi_state (probed LayerHi ++ probed LayerLocal) = Unknown.
Proof. by vm_compute. Qed.

Lemma probed_real scope through : Forall real_probe (probed_in scope through).
Proof.
  unfold probed_in. destruct (backend_probe erasing_host ready_runtime 5 _) as [e|] eqn:E; [|constructor].
  repeat constructor. by exists erasing_host, ready_runtime, 5%Z.
Qed.

(** The scope that the first probe resolved its request to. *)
Definition resolved_scope : ProbeScope := probe_scope erasing_host (mk_probe_input "zcode" LayerHi default_scope).

Lemma status_is_current_witness :
  let h := probed LayerHi ++ probed_in resolved_scope LayerLocal in
  let view := current_scope (es_latest (run_probes h) !! "zcode") 3 (layer LayerHi) in
  sv_state view = Ready
  ∧ (∃ p after, last_look h "zcode" LayerHi p after ∧ after ≠ []
       ∧ view = scope_status_view (layer LayerHi (ps_observed p))).
Proof.
  destruct (status_is_current (probed LayerHi ++ probed_in resolved_scope LayerLocal) "zcode" LayerHi) as [_ Hkept].
  { apply Forall_app. split; apply probed_real. }
  split; [by vm_compute|].
  assert (Hp : ∃ p, probed LayerHi = [p] ∧ ps_revision p = 3%Z ∧ pi_agent (ps_input p) = "zcode"
                    ∧ pi_through (ps_input p) = LayerHi ∧ ev_scope (layer LayerHi (ps_observed p)) = resolved_scope)
    by (eexists; split; [vm_compute; reflexivity|]; by vm_compute).
  assert (Hq : ∃ q, probed_in resolved_scope LayerLocal = [q] ∧ ps_revision q = 3%Z
                    ∧ pi_through (ps_input q) = LayerLocal ∧ pi_scope (ps_input q) = resolved_scope)
    by (eexists; split; [vm_compute; reflexivity|]; by vm_compute).
  destruct Hp as (p & Ep & Hrp & Hap & Htp & Hsp). destruct Hq as (q & Eq & Hrq & Htq & Hsq). rewrite Ep, Eq in *.
  assert (Hlook : last_look ([p] ++ [q]) "zcode" LayerHi p [q]).
  { split; [done|]. split; [by rewrite Htp|]. split; [by exists []|]. repeat constructor. intros _. by rewrite Htq. }
  exists p, [q]. split; [exact Hlook|]. split; [done|]. rewrite <- Hrp. apply Hkept with (after := [q]); [exact Hlook|].
  repeat constructor. all: congruence.
Defined.

(** ** The turn of a read-only probe *)

Section turn.
Context (to_string : Value → string).

(** The item shows no tool, no permission request, no failure, and no broken stream. *)
Definition harmless (r : Receipt) : Prop :=
  match r with
  | NothingYet | Item (Lifecycle _ _ _) _ | Item (Message (Response _)) _ => True
  | Item (Message (Request q)) _ => req_method q ≠ INTERACTION_REQUEST_PERMISSION
  | Item (Message (Event e)) _ => tool_kind (event_params e) = false ∧ event_type e ≠ Some "turn.failed"
  | Item (Message (UnknownEvent _ raw)) _ => contains_tool_signal to_string raw = false
  | _ => False
  end.

Definition completes (r : Receipt) : Prop :=
  match r with
  | Item (Message (Event e)) _ => event_type e = Some "turn.completed"
  | Item (Lifecycle _ method _) _ => method = "turn.completed"
  | _ => False
  end.

Lemma capture_keeps_terminal v d c : pc_terminal (capture_diagnostic to_string v d c) = pc_terminal c.
Proof. unfold capture_diagnostic. by destruct (_ ≟ _). Qed.

Lemma event_type_session e kind : event_type e = Some kind → event_method e = SESSION_EVENT.
Proof. unfold event_type. by destruct (String.eqb_spec (event_method e) SESSION_EVENT). Qed.

(** What an item that is not a request does to a turn that is not over. *)
Lemma observe_open inbound d c :
  pc_terminal c = None → (∀ q, inbound ≠ Message (Request q)) →
  match cache_observe to_string inbound d c with
  | Err _ => ¬ harmless (Item inbound d)
  | Ok c' =>
      match pc_terminal c' with
      | None => harmless (Item inbound d) ∧ ¬ completes (Item inbound d)
      | Some ProbeCompleted => harmless (Item inbound d) ∧ completes (Item inbound d)
      | Some (ProbeFailed _) => ¬ harmless (Item inbound d)
      end
  end.
Proof.
  intros Hc Hq. destruct inbound as [m|n method o|e|b|x|i o]; cbn [cache_observe].
  2: { simpl. destruct (String.eqb_spec method "turn.completed") as [->|Hne]; [unfold complete; by rewrite Hc|rewrite Hc; tauto]. }
  2-5: simpl; tauto.
  destruct m as [q|r|e|method raw].
  - destruct (Hq q eq_refl).
  - simpl. rewrite Hc. tauto.
  - destruct (tool_kind (event_params e)) eqn:Ht; [intros [Hf _]; congruence|].
    destruct (String.eqb_spec (event_method e) SESSION_EVENT) as [Hm|Hm]; cycle 1.
    { rewrite Hc. assert (Hn : event_type e = None) by (unfold event_type; by apply String.eqb_neq in Hm as ->).
      simpl. rewrite Hn. split; [split; [done|congruence]|congruence]. }
    destruct (event_type e) as [kind|] eqn:He; cycle 1.
    { rewrite capture_keeps_terminal, Hc. simpl. rewrite He. split; [split; [done|congruence]|congruence]. }
    destruct (String.eqb_spec kind "turn.completed") as [->|Hk].
    { unfold complete. rewrite Hc. simpl. rewrite He. split; [split; [done|congruence]|congruence]. }
    destruct (String.eqb_spec kind "turn.failed") as [->|Hf].
    { simpl. rewrite He. by intros []. }
    rewrite capture_keeps_terminal, Hc. simpl. rewrite He. split; [split; [done|congruence]|congruence].
  - destruct (contains_tool_signal to_string raw) eqn:Ht; [intros Hf; cbn [harmless] in Hf; congruence|].
    rewrite capture_keeps_terminal, Hc. simpl. tauto.
Qed.

Lemma await_turn_ready c items :
  pc_terminal c = None →
  await_turn to_string items c = Some (Ok tt) ↔
    ∃ before last after, items = before ++ last :: after
      ∧ Forall (λ r, harmless r ∧ ¬ completes r) before ∧ harmless last ∧ completes last.
Proof.
  revert c. induction items as [|r items IH]; intros c Hc.
  { cbn [await_turn]. rewrite Hc. split; [done|]. by intros ([] & ? & ? & ? & _). }
  assert (Hskip : ∀ c', pc_terminal c' = None → harmless r → ¬ completes r →
            await_turn to_string items c' = Some (Ok tt) ↔
            ∃ before last after, r :: items = before ++ last :: after
              ∧ Forall (λ r, harmless r ∧ ¬ completes r) before ∧ harmless last ∧ completes last).
  { intros c' Hc' Hh Hn. rewrite (IH c' Hc'). split.
    - intros (b & x & a & -> & Hb & Hx & Hcx). exists (r :: b), x, a. split; [done|]. by split; [constructor|].
    - intros (b & x & a & Heq & Hb & Hx & Hcx). destruct b as [|y b]; injection Heq as -> Heq; [done|].
      exists b, x, a. split; [done|]. by inversion Hb. }
  assert (Hstop : ¬ harmless r → ¬ ∃ before last after, r :: items = before ++ last :: after
              ∧ Forall (λ r, harmless r ∧ ¬ completes r) before ∧ harmless last ∧ completes last).
  { intros Hh (b & x & a & Heq & Hb & Hx & _). destruct b as [|y b]; injection Heq as -> _; [done|].
    by inversion Hb; naive_solver. }
  cbn [await_turn]. rewrite Hc.
  destruct r as [inbound d| | |]; [|apply Hskip; simpl; tauto| |].
  2-3: split; [done|]; intros H; apply Hstop in H; simpl; tauto.
  assert (Hcase : (∃ q, inbound = Message (Request q)) ∨ ∀ q, inbound ≠ Message (Request q)).
  { destruct inbound as [[]| | | | |]; eauto. }
  destruct Hcase as [[q ->]|Hq].
  - destruct (String.eqb_spec (req_method q) INTERACTION_REQUEST_PERMISSION) as [Hp|Hp].
    + split; [done|]. intros H. apply Hstop in H; simpl; tauto.
    + apply Hskip; [done|done|]. simpl. tauto.
  - pose proof (observe_open inbound d c Hc Hq) as Ho.
    transitivity (match cache_observe to_string inbound d c with
                  | Ok c' => await_turn to_string items c' | Err reason => Some (Err reason) end = Some (Ok tt)).
    { destruct inbound as [[]| | | | |]; try done. destruct (Hq r eq_refl). }
    destruct (cache_observe to_string inbound d c) as [c'|e]; [|split; [done|]; intros H; by apply Hstop in H].
    destruct (pc_terminal c') as [[|reason]|] eqn:Hc'; [| |by apply Hskip; tauto].
    + split; [|destruct items; cbn [await_turn]; by rewrite Hc']. intros _. exists [], (Item inbound d), items.
      split; [done|]. by split; [constructor|].
    + split; [destruct items; cbn [await_turn]; by rewrite Hc'|]. intros H. by apply Hstop in H.
Qed.

(** A read-only probe finds that an agent answers exactly when its turn completed and
    nothing before that, and not the completing item either, showed a tool, a request for
    permission, a failed turn, an exit, or a broken stream. *)
Theorem probe_ready_iff_clean_turn items :
  await_turn to_string items empty_cache = Some (Ok tt) ↔
    ∃ before last after, items = before ++ last :: after
      ∧ Forall (λ r, harmless r ∧ ¬ completes r) before ∧ harmless last ∧ completes last.
Proof. by apply await_turn_ready. Qed.
End turn.

(** ** Catalogs *)

Definition good_tokens (tokens : list string) : Prop := NoDup tokens ∧ Forall (λ t, catalog_token t = true) tokens.

Lemma good_tokens_snoc tokens t :
  good_tokens tokens → catalog_token t = true → one_of t tokens = false → good_tokens (tokens ++ [t]).
Proof.
  intros [Hn Hf] Ht Ho. split.
  - apply NoDup_app. split; [done|]. split; [|by apply NoDup_singleton].
    intros x Hx ->%list_elem_of_singleton. apply one_of_true in Hx. congruence.
  - apply Forall_app. split; [done|]. by constructor.
Qed.

Lemma add_token_good v tokens : good_tokens tokens → good_tokens (add_token v tokens).
Proof.
  unfold add_token. intros H. destruct (v ≫= as_str) as [t|]; [|done].
  destruct (catalog_token t) eqn:Ht; [|done]. destruct (one_of t tokens) eqn:Ho; [done|]. by apply good_tokens_snoc.
Qed.

Lemma fold_good {A} (f : list string → A → list string) l tokens :
  (∀ a ts, good_tokens ts → good_tokens (f ts a)) → good_tokens tokens → good_tokens (fold_left f l tokens).
Proof. intros Hf. revert tokens. induction l as [|a l IH]; intros tokens H; simpl; [done|]. by apply IH, Hf. Qed.

Lemma walk_option_good fuel v tokens : good_tokens tokens → good_tokens (walk_option fuel v tokens).
Proof.
  revert v tokens. induction fuel as [|fuel IH]; intros v tokens H; simpl; [done|].
  apply fold_good; [intros a ts Hts; by apply IH|by apply add_token_good].
Qed.

Lemma sub_options_depth v x : x ∈ sub_options v → value_depth x < value_depth v.
Proof.
  unfold sub_options. destruct (get v "options") as [o|] eqn:Ho; simpl; [|by intros ?%elem_of_nil].
  destruct o as [| | | |items|]; simpl; try by intros ?%elem_of_nil. intros Hx.
  assert (Hi : value_depth x ≤ foldr (λ x n, Nat.max (value_depth x) n) 0 items).
  { clear Ho. induction items as [|y items IH]; [by apply elem_of_nil in Hx|]. simpl.
    apply elem_of_cons in Hx as [->|Hx]; [lia|]. specialize (IH Hx). lia. }
  destruct v as [| | | | |fields]; try done. simpl in Ho.
  assert (Hf : value_depth (VArray items) ≤ foldr (λ x n, Nat.max (value_depth x.2) n) 0 fields).
  { clear -Ho. induction fields as [|[k w] fields IH]; simpl in *; [done|].
    destruct (k ≟ "options"); [injection Ho as ->; simpl; lia|]. specialize (IH Ho). simpl in *. lia. }
  simpl in *. lia.
Qed.

(** More fuel than the depth of the value changes nothing. *)
Lemma walk_option_fuel fuel v tokens : value_depth v ≤ fuel → walk_option fuel v tokens = walk_option (value_depth v) v tokens.
Proof.
  revert v tokens. assert (Hfold : ∀ (f g : list string → Value → list string) l tokens, (∀ x ts, x ∈ l → f ts x = g ts x) →
    fold_left f l tokens = fold_left g l tokens).
  { intros f g l. induction l as [|a l IH]; intros tokens H; simpl; [done|].
    rewrite H by left. apply IH. intros x ts Hx. apply H. by right. }
  induction fuel as [fuel IH] using lt_wf_ind. intros v tokens Hd.
  destruct fuel as [|fuel]; [destruct v; simpl in Hd; lia|].
  destruct (value_depth v) as [|d] eqn:Ed; [destruct v; simpl in Ed; lia|]. simpl. apply Hfold.
  intros x ts Hx%sub_options_depth. rewrite (IH fuel) by lia. destruct (decide (d = fuel)) as [->|].
  - rewrite (IH fuel) by lia. done.
  - symmetry. rewrite (IH d) by lia. done.
Qed.

(** The tokens of a catalog are distinct, bounded and not empty strings. *)
Lemma parse_tokens_good catalog tokens : parse_opaque_model_tokens catalog = Ok tokens → good_tokens tokens.
Proof.
  unfold parse_opaque_model_tokens. set (l := fold_left _ _ []).
  assert (Hl : good_tokens l).
  { apply fold_good; [|by repeat constructor]. intros o ts Hts. unfold model_option_tokens. case_bool_decide; [|done].
    apply fold_good; [intros v ts' Hg; by apply walk_option_good|by apply add_token_good]. }
  destruct l as [|t l]; [|by intros [= <-]]. destruct (Nat.ltb _ _); [done|].
  assert (Hm : ∀ models ts, good_tokens ts → model_ids models ts = Ok tokens → good_tokens tokens).
  { induction models as [|m models IH]; intros ts Hts; simpl; [by intros [= <-]|].
    destruct (get_str m "id") as [t|]; [|done]. destruct (catalog_token t) eqn:Ht; [|done]. apply IH.
    destruct (one_of t ts) eqn:Ho; [done|]. by apply good_tokens_snoc. }
  by apply Hm.
Qed.

Lemma dedup_from_length x l : length (dedup_from x l) ≤ length l.
Proof. revert x. induction l as [|y l IH]; intros x; simpl; [done|]. destruct (y ≟ x); [specialize (IH x)|specialize (IH y)]; simpl; lia. Qed.

Lemma dedup_length l : length (dedup l) ≤ length l.
Proof. destruct l as [|x l]; [done|]. simpl. pose proof (dedup_from_length x l). lia. Qed.

Definition page_entries (p : CodexPage) : list Value :=
  match p with Ok (Some page) => default [] (get page "data" ≫= as_array) | _ => [] end.

(** The page names a next one. *)
Definition continues (p : CodexPage) : bool :=
  match p with Ok (Some page) => bool_decide (is_Some (get_str page "nextCursor")) | _ => false end.

#[local] Abbreviation page_tokens := (λ p, omap codex_entry (page_entries p)).

Lemma codex_catalog_spec pages models out :
  codex_catalog pages models = Some (Ok out) →
  ∃ read final rest, pages = read ++ final :: rest ∧ Forall (λ p, continues p = true) read ∧ continues final = false
    ∧ out = dedup (merge_sort String.le (models ++ ((read ++ [final]) ≫= page_tokens)))
    ∧ length (models ++ ((read ++ [final]) ≫= page_tokens)) ≤ DSH_MAX_MODELS.
Proof.
  revert models. induction pages as [|[[page|]|reason] pages IH]; intros models; simpl; try done.
  destruct (get page "data" ≫= as_array) as [data|] eqn:Hd; [|done].
  assert (Hp : page_entries (Ok (Some page)) = data) by (unfold page_entries; by rewrite Hd).
  destruct (Nat.ltb_spec DSH_MAX_MODELS (length (models ++ omap codex_entry data))) as [|Hl]; [done|].
  destruct (get_str page "nextCursor") eqn:Hn.
  - intros H. destruct (IH _ H) as (read & final & rest & -> & Hr & Hf & -> & Hlen). exists (Ok (Some page) :: read), final, rest.
    split; [done|]. split; [constructor; [simpl; by rewrite Hn|done]|]. split; [done|].
    cbn [app]. rewrite bind_cons, Hp. by rewrite app_assoc.
  - intros [= <-]. exists [], (Ok (Some page)), pages. split; [done|]. split; [constructor|]. split; [simpl; by rewrite Hn|].
    cbn [app]. rewrite bind_cons, Hp. cbn [mbind list_bind]. by rewrite app_nil_r.
Qed.

(** The catalog of [codex] is exact: the pages up to the first that names no next one
    are read, and the tokens are the visible and well-formed model ids of these pages, in
    increasing order, each once, at most 256 of them. *)
Theorem codex_catalog_exact pages out :
  codex_catalog pages [] = Some (Ok out) →
  ∃ read final rest, pages = read ++ final :: rest ∧ Forall (λ p, continues p = true) read ∧ continues final = false
    ∧ (∀ t, t ∈ out ↔ ∃ p entry, p ∈ read ++ [final] ∧ entry ∈ page_entries p ∧ codex_entry entry = Some t)
    ∧ StronglySorted string_before out ∧ length out ≤ DSH_MAX_MODELS.
Proof.
  intros H. destruct (codex_catalog_spec _ _ _ H) as (read & final & rest & -> & Hr & Hf & -> & Hlen).
  exists read, final, rest. do 3 (split; [done|]). cbn [app] in *. set (l := _ ≫= _) in *. split; [|split].
  - intros t. rewrite dedup_elem, merge_sort_Permutation. unfold l. rewrite list_elem_of_bind.
    setoid_rewrite list_elem_of_omap. naive_solver.
  - apply dedup_sorted, StronglySorted_merge_sort; apply _.
  - etrans; [apply dedup_length|]. by rewrite merge_sort_Permutation.
Qed.

Definition sample_page (next : option string) (ids : list string) : CodexPage :=
  Ok (Some (VObject (("data", VArray ((λ id, VObject [("id", VString id)]) <$> ids))
                       :: match next with Some c => [("nextCursor", VString c)] | None => [] end))).

Lemma codex_catalog_exact_witness :
  let pages := [sample_page (Some "2") ["b"; "a"]; sample_page None ["a"; "c"]] in
  let out := ["a"; "b"; "c"] in
  codex_catalog pages [] = Some (Ok out)
  ∧ ∃ read final rest, pages = read ++ final :: rest ∧ Forall (λ p, continues p = true) read ∧ continues final = false
    ∧ (∀ t, t ∈ out ↔ ∃ p entry, p ∈ read ++ [final] ∧ entry ∈ page_entries p ∧ codex_entry entry = Some t)
    ∧ StronglySorted string_before out ∧ length out ≤ DSH_MAX_MODELS.
Proof.
  assert (H : codex_catalog [sample_page (Some "2") ["b"; "a"]; sample_page None ["a"; "c"]] [] = Some (Ok ["a"; "b"; "c"]))
    by (vm_compute; reflexivity).
  split; [exact H|]. exact (codex_catalog_exact _ _ H).
Defined.

(** ** The status of a parsed configuration *)

Section status.
Context (is_executable_file : Path → bool).

(** The index into the configured agents never panics on a configuration that was
    parsed, and every agent is shown under its name. *)
Lemma configured_statuses_total config s :
  accepted config →
  ∃ l, configured_agent_statuses is_executable_file config s = Returns l ∧ st_agent <$> l = agent_names.
Proof.
  intros Ha. unfold configured_agent_statuses.
  assert (Hin : ∀ a, a ∈ agent_names → is_Some (cf_subagents config !! a)).
  { intros a H. apply elem_of_dom. rewrite (acc_agents _ Ha). by apply elem_of_list_to_set. }
  revert Hin. generalize agent_names as names. induction names as [|a names IH]; intros Hin; simpl; [by exists []|].
  destruct (Hin a) as [entry ->]; [by left|]. destruct IH as (l & -> & Hl); [intros b Hb; apply Hin; by right|].
  eexists. split; [done|]. rewrite fmap_cons. by rewrite Hl.
Qed.

Lemma system_status_total config observed journal s :
  match config with Ok c => accepted c | Err _ => True end →
  ∃ l components s', system_status is_executable_file config observed journal s = Returns (l, components, s')
    ∧ st_agent <$> l = agent_names.
Proof.
  destruct config as [c|e]; simpl; intros Ha; [|by do 3 eexists].
  destruct (configured_statuses_total c (auto_probe_no_llm_layers c observed s) Ha) as (l & -> & Hl).
  do 3 eexists. split; [done|done].
Qed.
End status.
