(* ===== verification/RpcHandlers.v ===== *)
(** * The dispatcher of the RPC

    [crates/external-daemon/src/rpc/handlers.rs] and the requests of [rpc/types.rs]: a
    frame is decoded, its method is run against the daemon, and the answer carries the
    id of the request.

    The dispatcher reaches the daemon through the class [Daemon]: the store it reads,
    the files and the environment, the recorded evidence, the probes, and the operations
    of the scheduler.  A handler is a function on the states of the daemon; an operation
    of the scheduler or of a probe moves the state, everything in between reads it.  The
    decoder serde derives for requests and the random part of a message id are
    parameters. *)

From stdpp Require Import gmap pretty.
From S2P Require Import Prelude RustStr RustPath Json FileSystem General StoreRecords StoreSql StoreOps Observation RuntimeOwner Recovery Messages RpcErrors RpcViews RpcBound RpcWait RpcConfig RpcProfiles RpcAgents AgentStatus.

(** ** Requests ([rpc/types.rs]) *)

Record TaskListQuery := mk_list_query {
  lq_agent : option string; lq_repository : option string; lq_phase : option TaskPhase;
  lq_outcome : option TaskOutcome; lq_cursor : option string; lq_limit : Z }.

Inductive WaitTarget := One (id : string) | Many (ids : list string).

Record TaskWaitQuery := mk_wait_query { wq_agent : WaitTarget; wq_time : Z; wq_message : option string }.

Record MessageInput := mk_message_input {
  ms_agent : string; ms_message : option string; ms_mode : string; ms_content : string }.

Inductive ResponseDecision := Allow | Deny | Answer.

Definition decision_str (d : ResponseDecision) : string :=
  match d with Allow => "allow" | Deny => "deny" | Answer => "answer" end.

Record RespondInput := mk_respond_input {
  rs_agent : string; rs_request : string; rs_decision : ResponseDecision; rs_content : option string }.

Inductive RpcMethod :=
| SystemStatus
| SystemStatusRefresh (probe : bool)
| DaemonBeginDrain (cancel_active : bool)
| DaemonDrainStatus
| DaemonAbortDrain
| DaemonActivateReady
| AgentProbe (input : AgentProbeInput)
| AgentModels (input : AgentModelsInput)
| SubmitGeneral (input : GeneralSubmitInput)
| TaskList (query : TaskListQuery)
| TaskWait (query : TaskWaitQuery)
| TaskMessage (input : MessageInput)
| TaskRespond (input : RespondInput)
| TaskCancel (agent_id : string)
| TaskResultPage (agent_id : string) (offset limit : nat)
| TaskClose (agent_id : string)
| TaskObserve (agent_id : string).

Definition method_names : list string :=
  ["system_status"; "system_status_refresh"; "daemon_begin_drain"; "daemon_drain_status"; "daemon_abort_drain";
   "daemon_activate_ready"; "agent_probe"; "agent_models"; "submit_general"; "task_list"; "task_wait";
   "task_message"; "task_respond"; "task_cancel"; "task_result"; "task_close"; "task_observe"].

Definition is_known (name : string) : bool := one_of name method_names.

Record RpcRequest := mk_request { rq_id : string; rq_method : RpcMethod }.

Definition MAX_REQUEST_FRAME_BYTES : nat := 512 * 1024.
Definition MAX_REQUEST_ID_BYTES : nat := 128.
Definition MAX_LIST_TASKS : Z := 100.
Definition MAX_WAIT : Z := 299.
Definition MAX_DEVELOPER_INSTRUCTIONS_BYTES : Z := 1024 * 1024.

(** ** Answers *)

Record DrainStatus := mk_drain_status {
  ds_draining : bool; ds_active : nat; ds_reaped : bool; ds_ready : bool; ds_fired : bool; ds_claim : option string }.

Record TaskObservationView := mk_observation_view {
  ov_schema : string; ov_agent : string; ov_count_scope : string; ov_tools : list ObservedTool;
  ov_reasoning : option ObservedReasoning; ov_coverage : ObservationCoverage }.

Inductive RpcSuccess :=
| RsSystemStatus (agents : list AgentStatusView) (components : list (string * ComponentStateView))
| RsDrainStatus (status : DrainStatus)
| RsAgentProbed (evidence : AgentProbeEvidence) (status : AgentStatusView)
| RsAgentModels (catalog : AgentModelsOutput)
| RsGeneralSubmitted (task : TaskView)
| RsTaskListed (tasks : list TaskView) (next : option string)
| RsTaskWait (body : TaskWaitBody)
| RsTaskWaitMany (waits : TaskWaitManyBody)
| RsTaskResult (task : TaskView) (page : option TaskResultView) (instruction : option string)
| RsMessage (message_id : string) (disposition : MessageDispositionView) (task : TaskView)
| RsRespond (response : ResponseOutcomeView) (task : TaskView)
| RsStopped (task : TaskView)
| RsClosed (task : TaskView)
| RsTaskObserved (observation : TaskObservationView).

Record RpcResponse := mk_response { rp_request : option string; rp_outcome : result RpcError RpcSuccess }.

(** ** Handlers *)

(** A handler runs against a state of the daemon; it can answer with an error, or panic. *)
Definition Handler (S A : Type) : Type := S → outcome (result RpcError A * S).

#[global] Instance handler_ret {S} : MRet (Handler S) := λ A a s, Returns (Ok a, s).
#[global] Instance handler_bind {S} : MBind (Handler S) := λ A B f m s,
  match m s with
  | Returns (Ok a, s') => f a s'
  | Returns (Err e, s') => Returns (Err e, s')
  | Panics => Panics
  end.

Section handlers.
Context {S : Type}.

Definition answer_error {A} (e : RpcError) : Handler S A := λ s, Returns (Err e, s).
Definition require {A} (r : result RpcError A) : Handler S A := λ s, Returns (r, s).
Definition reading {A} (f : S → A) : Handler S A := λ s, Returns (Ok (f s), s).
Definition running {A} (f : S → outcome A) : Handler S A := λ s, a ← f s; Returns (Ok a, s).
Definition scheduled {A} (m : S → result SchedulerError A * S) : Handler S A := λ s,
  let '(r, s') := m s in Returns (map_err map_scheduler r, s').
Definition changing (f : S → S) : Handler S unit := λ s, Returns (Ok tt, f s).
End handlers.

(** What the dispatcher uses of the daemon. *)
Class Daemon (S : Type) := {
  dm_db : S → Db;
  (** [read_agent_config_snapshot], and the directory of profiles. *)
  dm_config : S → result RpcError AgentConfigSnapshot;
  dm_profiles : S → option (Path * Directory);
  dm_journal : S → result string string;
  (** The recorded evidence, and what a probe or a catalog finds at this moment. *)
  dm_evidence : S → AgentEvidenceStore;
  dm_record : AgentEvidenceStore → S → S;
  dm_probe : S → AgentProbeInput → AgentProbeEvidence;
  dm_catalog : S → AgentModelsInput → AgentModelsOutput;
  (** The scheduler. *)
  dm_begin_drain : S → S;
  dm_cancel_draining : S → result SchedulerError unit * S;
  dm_abort_drain : S → result SchedulerError unit * S;
  dm_claim_activation : S → option string * S;
  dm_is_draining : S → bool;
  dm_active_count : S → nat;
  dm_resources_reaped : S → bool;
  dm_ready_for_activation : S → bool;
  dm_updater_fired : S → bool;
  dm_submit : GeneralTaskManifest → AdmissionIdentity → S → result SchedulerError TaskRecord * S;
  dm_send_message : string → string → string → string → S → result SchedulerError MessageDisposition * S;
  dm_respond : string → string → string → option string → S → result SchedulerError ResponseOutcome * S;
  dm_cancel : string → S → result SchedulerError TaskPhase * S;
  dm_close : string → S → result SchedulerError TaskPhase * S;
  dm_observation : string → S → ObservationSnapshot * bool;
  (** The waits of [RpcWait], which watch the daemon move. *)
  dm_wait_one : string → option string → Z → S → outcome (result RpcError TaskWaitBody * S);
  dm_wait_many : list string → Z → S → outcome (result RpcError TaskWaitManyBody * S);
  dm_uuid : S → string }.

(** ** Checks of a request *)

Definition valid_request_id (value : string) : bool :=
  negb (str_is_empty value) && Nat.leb (String.length value) MAX_REQUEST_ID_BYTES && negb (contains_char value (byte_of 0)).

Definition TASK_CURSOR_PREFIX : string := "task:".

Definition format_task_cursor (cursor : Z) : string := TASK_CURSOR_PREFIX +:+ pretty cursor.

Definition parse_task_cursor (cursor : string) : result RpcError Z :=
  ok_or (rpc_error RValidation "task cursor is invalid")
    (rest ← strip_prefix TASK_CURSOR_PREFIX cursor;
     value ← parse_unsigned u64_max rest;
     if Z.ltb 0 value then Some value else None).

(** The bounds of a wait, before it starts. *)
Definition check_wait (query : TaskWaitQuery) : result RpcError unit :=
  if Z.ltb MAX_WAIT (wq_time query) then Err (rpc_error RValidation "wait_time must be between 0 and 299 seconds")
  else
    match wq_agent query with
    | One _ => Ok tt
    | Many ids =>
        if is_nil ids then Err (rpc_error RValidation "agent_id list must contain at least one id")
        else if Nat.ltb MAX_WAIT_AGENTS (length ids)
        then Err (rpc_error RValidation "agent_id list supports at most 16 ids")
        else if is_some (wq_message query)
        then Err (rpc_error RValidation "message_id is only supported with a single agent_id")
        else Ok tt
    end.

(** ** Submissions *)

Definition PROFILE_EXCLUSIVE : string :=
  "profile cannot be combined with subagent, permission_mode, model, effort, or developer_instructions; specify these in the profile JSON or omit profile".

(** A profile is named beside a field that it sets. *)
Definition profile_conflict (input : GeneralSubmitInput) : bool :=
  is_some (si_profile input)
  && (is_some (si_agent input) || is_some (si_model input) || is_some (si_effort input)
      || is_some (si_developer_instructions input) || is_some (permission_mode (si_manifest input))).

Definition with_mode (mode : option PermissionMode) (m : GeneralTaskManifest) : GeneralTaskManifest :=
  mk_manifest (schema m) (agent_id m) (repository m) mode (prompt m) (write_manifest m).
Definition with_prompt (text : string) (m : GeneralTaskManifest) : GeneralTaskManifest :=
  mk_manifest (schema m) (agent_id m) (repository m) (permission_mode m) text (write_manifest m).

(** The fields of the submission, taken from the profile. *)
Definition apply_profile (p : Profile) (input : GeneralSubmitInput) : GeneralSubmitInput :=
  mk_submit (si_profile input) (pf_subagent p) (pf_model p) (pf_effort p) (si_developer_instructions input)
    (with_mode (pf_permission_mode p) (si_manifest input)).

Definition take_instructions (input : GeneralSubmitInput) : option string * GeneralSubmitInput :=
  (match si_developer_instructions input with
   | Some di => if trim_is_empty di then None else Some di
   | None => None
   end,
   mk_submit (si_profile input) (si_agent input) (si_model input) (si_effort input) None (si_manifest input)).

Definition line_feed : string := String (byte_of 10) EmptyString.

Definition splice_instructions (di text : string) : string :=
  "Developer Instructions: " +:+ di +:+ line_feed +:+ "----------" +:+ line_feed +:+ text.

Definition spliced (instructions : option string) (input : GeneralSubmitInput) : GeneralSubmitInput :=
  match instructions with
  | Some di =>
      if str_is_empty di then input
      else mk_submit (si_profile input) (si_agent input) (si_model input) (si_effort input)
             (si_developer_instructions input)
             (with_prompt (splice_instructions di (prompt (si_manifest input))) (si_manifest input))
  | None => input
  end.

Section dispatch.
Context (from_str : string → result string Value) (decode_failure : Value → string)
  (hash_order : gmap string (list Path) → list (string * list Path)).
Context (is_executable_file : Path → bool) (codex_home : bool) (package_version : string) (to_string : Value → string).
Context (decode_prepared : Value → option PreparedGeneralTask) (decode_admission : Value → option AdmissionIdentity)
  (admission_agent : string → option string).
Context {fs : FileSystem}.
Context {S : Type} `{!Daemon S}.

#[local] Abbreviation view_of := (task_view from_str decode_admission).

Definition found (id : string) : Handler S TaskRecord := λ s,
  Returns (require_task from_str decode_prepared id (dm_db s), s).
Definition config_read : Handler S AgentConfigSnapshot := λ s, Returns (dm_config s, s).

Definition available_profiles : Handler S (list string) :=
  running (λ s, available_profile_names from_str decode_failure hash_order (dm_profiles s)).

Definition profile_named (name : string) : Handler S Profile := λ s,
  r ← load_profile from_str decode_failure hash_order (dm_profiles s) name; Returns (r, s).

(** The profile, or the parameter, decides where the instructions come from. *)
Definition submission_source (input : GeneralSubmitInput)
    : Handler S (GeneralSubmitInput * option string * option Profile) :=
  match si_profile input with
  | Some name =>
      if trim_is_empty name || Nat.ltb 128 (String.length name) || contains_char name (byte_of 0) then
        available ← available_profiles;
        answer_error (make_profile_rejection_error (mk_rejection None (Some "profile") "profile is invalid") available)
      else
        p ← profile_named (trim name);
        mret (apply_profile p input, pf_developer_instructions p, Some p)
  | None => let '(di, input) := take_instructions input in mret (input, di, None)
  end.

Definition bounded_instructions (instructions : option string) : result RpcError unit :=
  match instructions with
  | Some di =>
      if Z.ltb MAX_DEVELOPER_INSTRUCTIONS_BYTES (Z.of_nat (String.length di))
      then Err (rpc_error RValidation ("developer_instructions exceeds " +:+ pretty MAX_DEVELOPER_INSTRUCTIONS_BYTES +:+ " bytes"))
      else Ok tt
  | None => Ok tt
  end.

#[local] Abbreviation resolve := (resolve_admission_with_instructions is_executable_file codex_home package_version to_string).

(** A field the profile set is refused in the name of the profile. *)
Definition refused_admission (profile : option Profile) (failure : AdmissionFailure)
    : Handler S (GeneralTaskManifest * AdmissionIdentity) :=
  match (if af_profile_provided failure then profile else None), field_str (af_field failure) with
  | Some p, Some field =>
      available ← available_profiles;
      answer_error (make_profile_rejection_error_with_code (re_code (af_error failure))
        (mk_rejection (Some (pf_source_path p)) (Some field) (re_message (af_error failure))) available)
  | _, _ => answer_error (af_error failure)
  end.

(** What is handed to the scheduler for a submission. *)
Definition prepare_submission (input : GeneralSubmitInput) : Handler S (GeneralTaskManifest * AdmissionIdentity) :=
  if profile_conflict input then answer_error (profile_error RValidation PROFILE_EXCLUSIVE)
  else
    '(input, instructions, profile) ← submission_source input;
    _ ← require (bounded_instructions instructions);
    config ← config_read;
    let effective := match si_agent input with Some a => Some a | None => cf_default_subagent config end in
    let native := bool_decide (effective = Some "codex") in
    let input := if native then input else spliced instructions input in
    match resolve input config (if native then instructions else None) profile with
    | Ok admission => mret (si_manifest input, admission)
    | Err failure => refused_admission profile failure
    end.

Definition submit_general (input : GeneralSubmitInput) : Handler S RpcSuccess :=
  '(manifest, admission) ← prepare_submission input;
  task ← scheduled (dm_submit manifest admission);
  mret (RsGeneralSubmitted (view_of task)).

(** ** Probes *)

Definition dsh_scope (config : AgentConfigSnapshot) (agent : string) (scope : ProbeScope) : ProbeScope :=
  if agent ≟ "dsh" then
    let entry := cf_subagents config !! "dsh" in
    mk_scope (sc_workspace scope) (sc_home scope)
      (match sc_profile scope with Some p => Some p | None => entry ≫= ce_profile end)
      (match sc_version scope with Some v => Some v | None => entry ≫= ce_version end)
  else scope.

Definition known_agent (config : AgentConfigSnapshot) (agent : string) : result RpcError unit :=
  match cf_subagents config !! agent with Some _ => Ok tt | None => Err (unknown_agent_name_error config) end.

Definition probed (input : AgentProbeInput) (revision : Z) : Handler S AgentProbeEvidence := λ s,
  let '(e, store) := store_probe input (dm_probe s input) revision (dm_evidence s) in
  Returns (Ok e, dm_record store s).

Definition agent_probe (input : AgentProbeInput) : Handler S RpcSuccess :=
  _ ← require (validate_agent_probe_input input);
  config ← config_read;
  _ ← require (known_agent config (pi_agent input));
  let input := mk_probe_input (pi_agent input) (pi_through input) (dsh_scope config (pi_agent input) (pi_scope input)) in
  evidence ← probed input (cf_revision config);
  statuses ← running (λ s, configured_agent_statuses is_executable_file config (dm_evidence s));
  status ← require (ok_or (rpc_error RAgentUnknown "agent is unknown")
                      (List.find (λ v, st_agent v ≟ pi_agent input) statuses));
  mret (RsAgentProbed evidence status).

Definition discover (input : AgentModelsInput) (revision : Z) : Handler S AgentModelsOutput := λ s,
  let '(o, store) := store_models input (dm_catalog s input) revision (dm_evidence s) in
  Returns (Ok o, dm_record store s).

Definition agent_models (input : AgentModelsInput) : Handler S RpcSuccess :=
  _ ← require (validate_agent_models_input input);
  config ← config_read;
  _ ← require (known_agent config (mi_agent input));
  let input := mk_models_input (mi_agent input) (dsh_scope config (mi_agent input) (mi_scope input)) in
  catalog ← discover input (cf_revision config);
  mret (RsAgentModels catalog).

(** The catalogs of all agents, side by side, each recorded under its own agent. *)
Definition models_sweep (config : AgentConfigSnapshot) (s : S) : S :=
  fold_left (λ s name,
      let input := mk_models_input name (dsh_scope config name default_scope) in
      dm_record (store_models input (dm_catalog s input) (cf_revision config) (dm_evidence s)).2 s)
    (sorted_entries (cf_subagents config)).*1 s.

Definition status_report : Handler S RpcSuccess := λ s,
  '(agents, components, store) ← system_status is_executable_file (dm_config s) (dm_probe s) (dm_journal s) (dm_evidence s);
  Returns (Ok (RsSystemStatus agents components), dm_record store s).

Definition status_refresh (probe : bool) : Handler S RpcSuccess :=
  _ ← (if probe then config ← config_read; changing (models_sweep config) else mret tt);
  status_report.

(** ** Drain *)

Definition drain_status (claim : option string) (s : S) : DrainStatus :=
  mk_drain_status (dm_is_draining s) (dm_active_count s) (dm_resources_reaped s) (dm_ready_for_activation s)
    (dm_updater_fired s) claim.

Definition daemon_begin_drain (cancel_active : bool) : Handler S RpcSuccess :=
  _ ← changing dm_begin_drain;
  _ ← (if cancel_active then scheduled dm_cancel_draining else mret tt);
  reading (λ s, RsDrainStatus (mk_drain_status true (dm_active_count s) (dm_resources_reaped s)
                                 (dm_ready_for_activation s) (dm_updater_fired s) None)).

Definition daemon_abort_drain : Handler S RpcSuccess :=
  _ ← scheduled dm_abort_drain; reading (λ s, RsDrainStatus (drain_status None s)).

Definition daemon_activate_ready : Handler S RpcSuccess :=
  claim ← (λ s, let '(claim, s') := dm_claim_activation s in Returns (Ok claim, s'));
  reading (λ s, RsDrainStatus (drain_status claim s)).

(** ** Tasks *)

Definition check_list_agent (query : TaskListQuery) : Handler S unit :=
  match lq_agent query with
  | Some agent =>
      if one_of agent ["zcode"; "dsh"; "codex"; "agy"] then mret tt
      else config ← config_read; answer_error (unknown_agent_name_error config)
  | None => mret tt
  end.

Definition canonical_scope (repository : string) : result RpcError string :=
  match canonical_general_repository repository with
  | Ok p => Ok p
  | Err _ => Err (rpc_error RValidation "repository scope is invalid")
  end.

Definition listed (query : TaskListQuery) (db : Db) : result RpcError RpcSuccess :=
  _ ← (if Z.eqb (lq_limit query) 0 || Z.ltb MAX_LIST_TASKS (lq_limit query)
       then Err (rpc_error RValidation "task list limit is outside the allowed range") else Ok tt);
  _ ← (match lq_repository query with Some r => validate_text r "repository" 4096 | None => Ok tt end);
  _ ← (match lq_cursor query with Some c => validate_text c "cursor" 64 | None => Ok tt end);
  repository ← ok_or (rpc_error RValidation "at least one task list scope is required") (lq_repository query);
  repository ← canonical_scope repository;
  cursor ← (match lq_cursor query with Some c => c ← parse_task_cursor c; Ok (Some c) | None => Ok None end);
  page ← map_err map_store
           (list_task_page admission_agent (Some repository)
              (mk_filter (lq_agent query) (lq_phase query) (lq_outcome query)) cursor (lq_limit query) db);
  Ok (RsTaskListed (view_of <$> page_tasks page) (format_task_cursor <$> next_cursor page)).

Definition task_list (query : TaskListQuery) : Handler S RpcSuccess :=
  _ ← check_list_agent query;
  db ← reading dm_db;
  require (listed query db).

Definition task_wait (query : TaskWaitQuery) : Handler S RpcSuccess :=
  _ ← require (check_wait query);
  match wq_agent query with
  | One id => body ← dm_wait_one id (wq_message query) (wq_time query); mret (RsTaskWait body)
  | Many ids => waits ← dm_wait_many ids (wq_time query); mret (RsTaskWaitMany waits)
  end.

Definition task_message (input : MessageInput) : Handler S RpcSuccess :=
  if negb (one_of (ms_mode input) ["queue"; "steer"]) then answer_error (rpc_error RValidation "mode must be queue or steer")
  else
    task ← found (ms_agent input);
    _ ← require (match ms_message input with Some m => validate_id m "message_id" | None => Ok tt end);
    _ ← require (validate_text (ms_content input) "content" (16 * 1024));
    fresh ← reading dm_uuid;
    let mid := default ("subagent-message-" +:+ fresh) (ms_message input) in
    disposition ← scheduled (dm_send_message (task_id (rec_spec task)) mid (ms_mode input) (ms_content input));
    task ← found (ms_agent input);
    mret (RsMessage mid (message_disposition_view disposition) (view_of task)).

Definition blank (content : option string) : bool :=
  match content with Some c => trim_is_empty c | None => true end.

Definition task_respond (input : RespondInput) : Handler S RpcSuccess :=
  task ← found (rs_agent input);
  _ ← require (validate_id (rs_request input) "request_id");
  _ ← require (match rs_content input with Some c => validate_text c "response content" (16 * 1024) | None => Ok tt end);
  if (match rs_decision input with Answer => blank (rs_content input) | _ => false end)
  then answer_error (rpc_error RValidation "answer requires non-empty content")
  else
    outcome ← scheduled (dm_respond (task_id (rec_spec task)) (rs_request input) (decision_str (rs_decision input)) (rs_content input));
    task ← found (rs_agent input);
    mret (RsRespond (response_outcome_view outcome) (view_of task)).

Definition task_cancel (id : string) : Handler S RpcSuccess :=
  task ← found id;
  _ ← scheduled (dm_cancel (task_id (rec_spec task)));
  task ← found id;
  mret (RsStopped (view_of task)).

Definition task_close (id : string) : Handler S RpcSuccess :=
  task ← found id;
  _ ← scheduled (dm_close (task_id (rec_spec task)));
  task ← found id;
  mret (RsClosed (view_of task)).

(** The advice that goes with a failed result. *)
Definition failure_advice (task : TaskRecord) (page : option TaskResultView) : Handler S (option string) :=
  if match page with Some v => is_failure_outcome (rv_outcome v) | None => false end then
    λ s, let '(advice, store) := version_mismatch_instruction (task_agent from_str decode_prepared task) (dm_config s)
                                   (dm_probe s) (dm_evidence s) in
         Returns (Ok advice, dm_record store s)
  else mret None.

Definition task_result (id : string) (offset limit : nat) : Handler S RpcSuccess :=
  db ← reading dm_db;
  '(task, stored, reason) ← require (require_task_with_result from_str decode_prepared id db);
  if Nat.eqb limit 0 || Nat.ltb MAX_RESULT_CHUNK_BYTES limit
  then answer_error (rpc_error RValidation ("result limit must be between 1 and " +:+ pretty MAX_RESULT_CHUNK_BYTES
                                              +:+ " bytes; received " +:+ pretty limit))
  else
    page ← require (match stored with
                    | Some (r, _) => v ← task_result_view r offset limit reason (failure_message_projection task r); Ok (Some v)
                    | None => Ok None
                    end);
    advice ← failure_advice task page;
    mret (RsTaskResult (view_of task) page advice).

Definition OBSERVATION_SCHEMA : string := "external-subagent-observation/1.1".

Definition task_observe (id : string) : Handler S RpcSuccess :=
  task ← found id;
  '(snapshot, verified) ← reading (dm_observation (task_id (rec_spec task)));
  let adapter := task_agent from_str decode_prepared task in
  if negb verified && negb (one_of adapter ["dsh"; "codex"; "agy"])
  then answer_error (rpc_error RUnavailable "observation runtime source is not verified")
  else
    mret (RsTaskObserved (mk_observation_view OBSERVATION_SCHEMA (task_id (rec_spec task)) "agent_lifetime"
            (snapshot_tools snapshot)
            (if one_of adapter ["codex"; "agy"] then None else Some (snapshot_reasoning snapshot))
            (snapshot_coverage snapshot))).

(** ** Dispatch *)

Definition dispatch (method : RpcMethod) : Handler S RpcSuccess :=
  match method with
  | SystemStatus => status_report
  | SystemStatusRefresh probe => status_refresh probe
  | DaemonBeginDrain cancel_active => daemon_begin_drain cancel_active
  | DaemonDrainStatus => reading (λ s, RsDrainStatus (drain_status None s))
  | DaemonAbortDrain => daemon_abort_drain
  | DaemonActivateReady => daemon_activate_ready
  | AgentProbe input => agent_probe input
  | AgentModels input => agent_models input
  | SubmitGeneral input => submit_general input
  | TaskList query => task_list query
  | TaskWait query => task_wait query
  | TaskMessage input => task_message input
  | TaskRespond input => task_respond input
  | TaskCancel id => task_cancel id
  | TaskResultPage id offset limit => task_result id offset limit
  | TaskClose id => task_close id
  | TaskObserve id => task_observe id
  end.

(** ** Frames *)

Context (from_slice : string → option Value) (decode_request : Value → option RpcRequest).

Definition request_fields : list string := ["request_id"; "method"; "params"].

Definition stray_fields (v : Value) : bool :=
  match as_object v with Some fields => negb (forallb (λ kv, one_of kv.1 request_fields) fields) | None => true end.

(** The id an answer can carry. *)
Definition echoed_id (v : Value) : option string :=
  id ← get_str v "request_id"; if valid_request_id id then Some id else None.

(** A drain request without parameters is a passive one. *)
Definition with_params (v : Value) : Value :=
  match v, get_str v "method", get v "params" with
  | VObject fields, Some method, None =>
      if method ≟ "daemon_begin_drain" then VObject (field_insert "params" (VObject []) fields) else v
  | _, _, _ => v
  end.

Definition refuse_frame (id : option string) (code : RpcErrorCode) (message : string) (s : S) : outcome (RpcResponse * S) :=
  Returns (mk_response id (Err (rpc_error code message)), s).

Definition handle_bytes (frame : string) (s : S) : outcome (RpcResponse * S) :=
  if Nat.ltb MAX_REQUEST_FRAME_BYTES (String.length frame + 1)
  then refuse_frame None ROversized "request frame exceeds the RPC cap" s
  else
    match from_slice frame with
    | None => refuse_frame None RMalformed "request is not valid JSON" s
    | Some v =>
        let id := echoed_id v in
        if stray_fields v then refuse_frame id RValidation "request fields are invalid" s
        else if match get_str v "method" with Some m => negb (is_known m) | None => false end
        then refuse_frame id RUnknownMethod "unknown RPC method" s
        else
          match decode_request (with_params v) with
          | None => refuse_frame id RValidation "request fields are invalid" s
          | Some request =>
              if negb (valid_request_id (rq_id request)) then refuse_frame None RValidation "request_id is invalid" s
              else '(r, s) ← dispatch (rq_method request) s; Returns (mk_response (Some (rq_id request)) r, s)
          end
    end.
End dispatch.
