(* ===== verification/RpcHandlerProps.v ===== *)
(** * Theorems on the dispatcher

    Cursors are read back as they were written, and following them lists every task of
    the scope once; a frame is answered under its own id and changes nothing unless it
    is a request; the instructions of a submission reach the agent by exactly one way. *)

From stdpp Require Import gmap pretty sorting.
From S2P Require Import Prelude RustStr RustPath Json FileSystem General StoreRecords StoreSql StoreOps Observation ObservationProps RuntimeOwner Recovery Messages RpcErrors RpcViews RpcBound RpcWait RpcConfig RpcProfiles RpcProfileProps RpcAgents RpcAgentProps AgentStatus RpcHandlers.

(** ** Cursors *)

Lemma digit_char (d : N) : (d < 10)%N → is_ascii_digit (pretty_N_char d) = true ∧ digit_value (pretty_N_char d) = Z.of_N d.
Proof.
  intros H. assert (d = 0 ∨ d = 1 ∨ d = 2 ∨ d = 3 ∨ d = 4 ∨ d = 5 ∨ d = 6 ∨ d = 7 ∨ d = 8 ∨ d = 9)%N as Hd by lia.
  by repeat destruct Hd as [->|Hd]; [..|subst d].
Qed.

Lemma parse_pretty_go max x s :
  (Z.of_N x ≤ max)%Z → parse_digits max 0 (pretty_N_go x s) = parse_digits max (Z.of_N x) s.
Proof.
  revert s. induction (N.lt_wf_0 x) as [x _ IH]. intros s Hx. destruct (decide (0 < x)%N) as [H0|H0].
  - rewrite pretty_N_go_step by done. rewrite IH; [|by apply N.div_lt|pose proof (N.div_le_upper_bound x 10 x); lia].
    destruct (digit_char (x `mod` 10)%N) as [Hd Hv]; [by apply N.mod_lt|]. simpl. rewrite Hd, Hv.
    assert (E : (Z.of_N (x / 10) * 10 + Z.of_N (x mod 10))%Z = Z.of_N x) by (pose proof (N.div_mod x 10); lia).
    rewrite E. by apply Z.leb_le in Hx as ->.
  - assert (x = 0)%N as -> by lia. done.
Qed.

Lemma parse_unsigned_pretty max z : (0 < z ≤ max)%Z → parse_unsigned max (pretty z) = Some z.
Proof.
  intros [H0 Hm]. destruct z as [|p|p]; [lia| |lia].
  assert (Hp : parse_digits max 0 (pretty (Zpos p)) = Some (Zpos p)) by exact (parse_pretty_go max (Npos p) "" Hm).
  revert Hp. unfold parse_unsigned. generalize (pretty (Zpos p)). intros [|c [|c' s]] Hp; [done| |].
  - destruct (decide (c = "+"%char)) as [->|Hne]; [done|]. rewrite <- Hp. by destruct c as [[] [] [] [] [] [] [] []].
  - destruct (decide (c = "+"%char)) as [->|Hne]; [done|]. rewrite <- Hp. by destruct c as [[] [] [] [] [] [] [] []].
Qed.

Lemma parse_format_cursor c : (0 < c ≤ u64_max)%Z → parse_task_cursor (format_task_cursor c) = Ok c.
Proof.
  intros Hc. unfold parse_task_cursor, format_task_cursor.
  rewrite (proj2 (strip_prefix_some _ _ _) eq_refl). simpl. rewrite parse_unsigned_pretty by done. simpl.
  by rewrite (proj2 (Z.ltb_lt 0 c)) by lia.
Qed.

Lemma cursor_text_valid c : (0 < c ≤ i64_max)%Z → validate_text (format_task_cursor c) "cursor" 64 = Ok tt.
Proof.
  intros Hc. destruct c as [|p|p]; [lia| |lia].
  assert (Hl : String.length (pretty (Zpos p)) ≤ 19 + String.length "").
  { apply (pretty_N_go_length 19 (Npos p) ""). unfold i64_max in Hc. lia. }
  unfold validate_text, format_task_cursor. rewrite string_app_length, contains_char_app, pretty_Z_no_nul.
  simpl in Hl. destruct (Nat.ltb_spec 64 (String.length TASK_CURSOR_PREFIX + String.length (pretty (Zpos p)))) as [H|H]; [simpl in H; lia|].
  done.
Qed.

(** ** Pages *)

(** Newest first: decreasing row numbers. *)
Definition descending {A} : list (Z * A) → Prop := StronglySorted (λ x y, (y.1 < x.1)%Z).

Lemma descending_app {A} (l k : list (Z * A)) :
  descending l → descending k → (∀ x y, x ∈ l → y ∈ k → (y.1 < x.1)%Z) → descending (l ++ k).
Proof.
  intros Hl Hk Hlk. induction Hl as [|a l Hl IH Ha]; [done|]. simpl. constructor.
  - apply IH. intros x y Hx. apply Hlk. by right.
  - apply Forall_app. split; [done|]. apply Forall_forall. intros y Hy. apply Hlk; [by left|done].
Qed.

Lemma numbered_rev_descending {A} (l : list A) :
  descending (rev (numbered l)) ∧ Forall (λ x, (0 < x.1 ≤ Z.of_nat (length l))%Z) (numbered l).
Proof.
  unfold numbered. induction l as [|a l [IH1 IH2]] using rev_ind; [by repeat constructor|].
  rewrite imap_app. simpl. rewrite rev_app_distr. simpl. rewrite length_app. simpl.
  assert (Hb : ∀ x, x ∈ imap (λ i a, (Z.of_nat i + 1, a)%Z) l → (0 < x.1 ≤ Z.of_nat (length l))%Z) by by apply Forall_forall.
  split.
  - constructor; [done|]. apply Forall_forall. intros x Hx. rewrite list_elem_of_In, <- in_rev, <- list_elem_of_In in Hx.
    apply Hb in Hx. simpl. lia.
  - apply Forall_app. split; [|by repeat constructor; simpl; lia]. eapply Forall_impl; [exact IH2|]. simpl. lia.
Qed.

Lemma descending_filter {A} (P : Z * A → bool) l : descending l → descending (List.filter P l).
Proof.
  induction 1 as [|a l Hl IH Ha]; [constructor|]. simpl. destruct (P a); [|done]. constructor; [done|].
  apply Forall_forall. intros x Hx. rewrite list_elem_of_In, filter_In, <- list_elem_of_In in Hx.
  rewrite Forall_forall in Ha. by apply Ha, Hx.
Qed.

(** What lies below the last row of a page is what follows the page. *)
Lemma below_last {A} (l : list (Z * A)) k x :
  descending l → last (take k l) = Some x → List.filter (λ y, Z.ltb y.1 x.1) l = drop k l.
Proof.
  intros Hl. revert k. induction Hl as [|a l Hl IH Ha]; intros k; [by destruct k|].
  assert (Hall : List.filter (λ y, Z.ltb y.1 a.1) l = l).
  { clear IH. induction Ha as [|b l Hb Hl' IHl]; [done|]. simpl. apply Z.ltb_lt in Hb as ->. f_equal. apply IHl. by inversion Hl. }
  destruct k as [|k]; [done|]. cbn [take drop]. rewrite last_cons. destruct (last (take k l)) as [y|] eqn:Hy.
  - intros [= ->]. cbn [List.filter]. assert (Hx : x ∈ l).
    { apply last_Some_elem_of in Hy. by eapply elem_of_take in Hy as (? & ? & ?); eapply list_elem_of_lookup_2. }
    rewrite Forall_forall in Ha. specialize (Ha x Hx). simpl in Ha. rewrite (proj2 (Z.ltb_ge a.1 x.1)) by lia. by apply IH.
  - intros [= <-]. cbn [List.filter]. rewrite Z.ltb_irrefl, Hall. apply last_None in Hy.
    destruct k; [done|]. by destruct l.
Qed.

Lemma filter_below {A} (n c : Z) (l : list (Z * A)) :
  (n ≤ c)%Z → List.filter (λ y, Z.ltb y.1 n) (List.filter (λ y, Z.ltb y.1 c) l) = List.filter (λ y, Z.ltb y.1 n) l.
Proof.
  intros H. induction l as [|y l IH]; [done|]. cbn [List.filter]. destruct (Z.ltb_spec y.1 c) as [Hc|Hc]; cbn [List.filter].
  - by rewrite IH.
  - rewrite IH. by rewrite (proj2 (Z.ltb_ge y.1 n)) by lia.
Qed.

Section pages.
Context (from_str : string → result string Value) (decode_admission : Value → option AdmissionIdentity)
  (admission_agent : string → option string).
Context {fs : FileSystem}.

#[local] Abbreviation listed := (listed from_str decode_admission admission_agent).

(** The tasks a query is about, newest first. *)
Definition in_scope (q : TaskListQuery) (repository : string) (r : TaskRow) : Prop :=
  row_repository r = repository
  ∧ from_option (λ p, phase r = p) True (lq_phase q)
  ∧ from_option (λ o, task_outcome r = Some o) True (lq_outcome q)
  ∧ from_option (λ a, admission_agent (prepared_launch_json (spec r)) = Some a) True (lq_agent q).

#[global] Instance in_scope_dec q repository r : Decision (in_scope q repository r).
Proof. unfold in_scope. destruct (lq_phase q), (lq_outcome q), (lq_agent q); simpl; apply _. Defined.

Definition scope_rows (q : TaskListQuery) (repository : string) (cursor : option Z) (db : Db) : list (Z * TaskRow) :=
  rev (List.filter (page_row admission_agent repository (mk_filter (lq_agent q) (lq_phase q) (lq_outcome q)) cursor)
         (numbered (tasks db))).

Lemma page_row_scope q repository x :
  page_row admission_agent repository (mk_filter (lq_agent q) (lq_phase q) (lq_outcome q)) None x = bool_decide (in_scope q repository x.2).
Proof.
  destruct x as [n r]. unfold page_row, in_scope. simpl. apply eq_bool_prop_intro. rewrite !Is_true_true, bool_decide_eq_true.
  rewrite !andb_true_iff, String.eqb_eq. destruct (lq_phase q), (lq_outcome q), (lq_agent q); simpl; rewrite ?bool_decide_eq_true; naive_solver.
Qed.

Lemma scope_rows_all q repository db : (scope_rows q repository None db).*2 = rev (filter (in_scope q repository) (tasks db)).
Proof.
  unfold scope_rows. change ((rev ?l).*2) with (map snd (rev l)). rewrite map_rev. f_equal. unfold numbered.
  generalize 0 as k. generalize (tasks db). intros l.
  assert (H : ∀ k, map snd (List.filter (page_row admission_agent repository (mk_filter (lq_agent q) (lq_phase q) (lq_outcome q)) None)
                              (imap (λ i a, (Z.of_nat (k + i) + 1, a)%Z) l)) = filter (in_scope q repository) l); [|by intros _; rewrite <- (H 0)].
  induction l as [|r l IH]; intros k; [done|]. rewrite imap_cons. cbn [List.filter]. rewrite page_row_scope, filter_cons. cbn [snd].
  rewrite <- (IH (S k)), (imap_ext _ (λ i a, (Z.of_nat (S k + i) + 1, a)%Z)) by (intros; unfold compose; f_equal; lia).
  by destruct (bool_decide_reflect (in_scope q repository r)); [rewrite decide_True by done|rewrite decide_False by done].
Qed.

Lemma scope_rows_descending q repository cursor db : descending (scope_rows q repository cursor db).
Proof.
  unfold scope_rows. rewrite <- filter_rev. apply descending_filter, numbered_rev_descending.
Qed.

Lemma scope_rows_cursor q repository c db :
  scope_rows q repository (Some c) db = List.filter (λ y, Z.ltb y.1 c) (scope_rows q repository None db).
Proof.
  unfold scope_rows. rewrite filter_rev. f_equal. induction (numbered (tasks db)) as [|[n r] l IH]; [done|].
  cbn [List.filter]. rewrite page_row_scope.
  assert (E : page_row admission_agent repository (mk_filter (lq_agent q) (lq_phase q) (lq_outcome q)) (Some c) (n, r)
              = Z.ltb n c && bool_decide (in_scope q repository r)).
  { change (in_scope q repository r) with (in_scope q repository (n, r).2). rewrite <- page_row_scope. unfold page_row. simpl.
    rewrite andb_true_r. destruct (Z.ltb n c); rewrite ?andb_true_r, ?andb_false_r; simpl; [done|].
    by rewrite ?andb_false_r. }
  rewrite E. cbn [snd]. destruct (bool_decide (in_scope q repository r)); rewrite ?andb_true_r, ?andb_false_r; cbn [List.filter fst].
  - destruct (Z.ltb n c); by rewrite IH.
  - exact IH.
Qed.

Lemma scope_rows_bound q repository cursor db x :
  x ∈ scope_rows q repository cursor db → (0 < x.1 ≤ Z.of_nat (length (tasks db)))%Z.
Proof.
  unfold scope_rows. rewrite list_elem_of_In, <- in_rev, filter_In, <- list_elem_of_In. intros [Hx _].
  destruct (numbered_rev_descending (tasks db)) as [_ Hf]. rewrite Forall_forall in Hf. by apply Hf.
Qed.

Lemma sql_limit_take {A} n (l : list A) : (0 ≤ n)%Z → sql_limit n l = take (Z.to_nat n) l.
Proof. intros Hn. unfold sql_limit. destruct (Z.leb_spec (Z.of_nat (length l)) n); [|done]. by rewrite take_ge by lia. Qed.

(** A page: its rows, and the row number of its last one if more follow. *)
Lemma list_task_page_spec q repository cursor db :
  (1 ≤ lq_limit q ≤ 100)%Z → from_option (λ c, c ≤ i64_max)%Z True cursor →
  let k := Z.to_nat (lq_limit q) in let l := scope_rows q repository cursor db in
  list_task_page admission_agent (Some repository) (mk_filter (lq_agent q) (lq_phase q) (lq_outcome q)) cursor (lq_limit q) db
  = (records ← reload_tasks "listed task disappeared" db (take k l).*2;
     Ok (mk_page records (if Nat.ltb k (length l) then fst <$> last (take k l) else None))).
Proof.
  intros Hl Hc k l. unfold list_task_page. rewrite (proj2 (Z.eqb_neq (lq_limit q) 0)) by lia.
  assert (Hcur : match cursor with None => Ok None | Some c => c ← u64_to_i64 c; Ok (Some c) end = Ok cursor).
  { destruct cursor as [c|]; [|done]. simpl in Hc. unfold u64_to_i64. by apply Z.leb_le in Hc as ->. }
  rewrite Hcur. cbn [mbind result_bind].
  assert (Hm : Z.min u64_max (lq_limit q + 1) = (lq_limit q + 1)%Z) by (unfold u64_max; lia). rewrite Hm.
  unfold usize_to_i64. rewrite (proj2 (Z.leb_le (lq_limit q + 1) i64_max)) by (unfold i64_max; lia). cbn [mbind result_bind].
  fold (scope_rows q repository cursor db). fold l. rewrite (sql_limit_take (lq_limit q + 1) l), sql_limit_take by lia.
  rewrite take_take. replace (Z.to_nat (lq_limit q + 1)) with (S k) by lia. fold k. rewrite (Nat.min_l k (S k)) by lia.
  rewrite length_take.
  assert (Hmore : Z.ltb (lq_limit q) (Z.of_nat (S k `min` length l)) = Nat.ltb k (length l)).
  { destruct (Nat.ltb_spec k (length l)); [apply Z.ltb_lt|apply Z.ltb_ge]; lia. }
  rewrite Hmore. destruct (Nat.ltb k (length l)); [|done].
  destruct (last (take k l)) as [[n r]|] eqn:Hx; [|done]. unfold i64_to_u64.
  assert (Hn : (n, r) ∈ l).
  { apply last_Some_elem_of in Hx. by apply elem_of_take in Hx as (? & ? & _); eapply list_elem_of_lookup_2. }
  apply scope_rows_bound in Hn. simpl in Hn. by rewrite (proj2 (Z.leb_le 0 n)) by lia.
Qed.

Definition at_cursor (cursor : option string) (q : TaskListQuery) : TaskListQuery :=
  mk_list_query (lq_agent q) (lq_repository q) (lq_phase q) (lq_outcome q) cursor (lq_limit q).

(** A client that asks for page after page on an unchanged store. *)
Fixpoint follow (fuel : nat) (q : TaskListQuery) (cursor : option string) (db : Db) : option (result RpcError (list TaskView)) :=
  match fuel with
  | 0 => None
  | S fuel =>
      match listed (at_cursor cursor q) db with
      | Err e => Some (Err e)
      | Ok (RsTaskListed views None) => Some (Ok views)
      | Ok (RsTaskListed views (Some next)) =>
          match follow fuel q (Some next) db with
          | Some (Ok more) => Some (Ok (views ++ more))
          | r => r
          end
      | Ok _ => None
      end
  end.

(** A query with a scope and a limit the service accepts. *)
Record scoped (q : TaskListQuery) (repository : string) : Prop := {
  sc_named : ∃ r, lq_repository q = Some r ∧ validate_text r "repository" 4096 = Ok tt ∧ canonical_scope r = Ok repository;
  sc_limited : (1 ≤ lq_limit q ≤ MAX_LIST_TASKS)%Z }.

Lemma listed_page q repository cursor db :
  scoped q repository → from_option (λ c, 0 < c ≤ i64_max)%Z True cursor →
  listed (at_cursor (format_task_cursor <$> cursor) q) db
  = (page ← map_err map_store (list_task_page admission_agent (Some repository)
              (mk_filter (lq_agent q) (lq_phase q) (lq_outcome q)) cursor (lq_limit q) db);
     Ok (RsTaskListed (task_view from_str decode_admission <$> page_tasks page) (format_task_cursor <$> next_cursor page))).
Proof.
  intros [(r & Hr & Hv & Hcan) Hl] Hc. unfold RpcHandlers.listed, at_cursor. cbn [lq_limit lq_repository lq_cursor lq_agent lq_phase lq_outcome].
  unfold MAX_LIST_TASKS in *.
  rewrite (proj2 (Z.eqb_neq (lq_limit q) 0)), (proj2 (Z.ltb_ge 100 (lq_limit q))) by lia. rewrite Hr. cbn [orb mbind result_bind].
  rewrite Hv. cbn [mbind result_bind].
  assert (H1 : match format_task_cursor <$> cursor with Some c => validate_text c "cursor" 64 | None => Ok tt end = Ok tt).
  { destruct cursor as [c|]; [|done]. cbn [fmap option_fmap option_map]. by apply cursor_text_valid. }
  rewrite H1. cbn [ok_or mbind result_bind]. rewrite Hcan. cbn [mbind result_bind].
  assert (H2 : match format_task_cursor <$> cursor with Some c => c ← parse_task_cursor c; Ok (Some c) | None => Ok None end
               = Ok cursor).
  { destruct cursor as [c|]; [|done]. cbn [fmap option_fmap option_map]. rewrite parse_format_cursor; [done|].
    simpl in Hc. unfold i64_max, u64_max in *. lia. }
  rewrite H2. done.
Qed.

Lemma reload_take db rows records k :
  Forall2 (λ r t, query_task_db db (row_id r) = Ok (Some t)) rows records →
  reload_tasks "listed task disappeared" db (take k rows) = Ok (take k records).
Proof.
  intros H. unfold reload_tasks. apply traverse_ok. apply Forall2_take with (n := k) in H.
  eapply Forall2_impl; [exact H|]. intros r t Hrt. simpl. by rewrite Hrt.
Qed.

(** Following the cursor of each page from any point on lists the rest. *)
Lemma follow_rest q repository db cursor records fuel :
  scoped q repository → (Z.of_nat (length (tasks db)) ≤ i64_max)%Z →
  from_option (λ c, 0 < c ≤ i64_max)%Z True cursor →
  Forall2 (λ r t, query_task_db db (row_id r) = Ok (Some t)) (scope_rows q repository cursor db).*2 records →
  length records < fuel →
  follow fuel q (format_task_cursor <$> cursor) db = Some (Ok (task_view from_str decode_admission <$> records)).
Proof.
  intros Hq Ht. revert cursor records. induction fuel as [|fuel IH]; intros cursor records Hc Hr Hf; [lia|].
  set (l := scope_rows q repository cursor db) in *. set (k := Z.to_nat (lq_limit q)).
  pose proof (sc_limited _ _ Hq) as Hlim. unfold MAX_LIST_TASKS in Hlim.
  assert (Hlen : length l = length records) by (apply Forall2_length in Hr; by rewrite length_fmap in Hr).
  cbn [follow]. rewrite (listed_page q repository) by done. rewrite list_task_page_spec; [|done|by destruct cursor; simpl in *; lia].
  fold l k. rewrite fmap_take, (reload_take _ _ _ _ Hr). cbn [mbind result_bind map_err page_tasks next_cursor].
  destruct (Nat.ltb_spec k (length l)) as [Hk|Hk]; cbn [fmap option_fmap option_map].
  2:{ by rewrite (take_ge records k) by lia. }
  destruct (last (take k l)) as [[n r]|] eqn:Hlast.
  2:{ apply last_None in Hlast. apply (f_equal length) in Hlast. rewrite length_take in Hlast. simpl in Hlast. lia. }
  assert (Hn : (n, r) ∈ l).
  { apply last_Some_elem_of in Hlast. by apply elem_of_take in Hlast as (? & ? & _); eapply list_elem_of_lookup_2. }
  pose proof Hn as Hin. apply scope_rows_bound in Hn. simpl in Hn.
  assert (Hnext : scope_rows q repository (Some n) db = drop k l).
  { rewrite <- (below_last l k (n, r)); [|apply scope_rows_descending|done]. unfold l.
    destruct cursor as [c|]; [|apply scope_rows_cursor]. rewrite !scope_rows_cursor.
    unfold l in Hin. rewrite scope_rows_cursor, list_elem_of_In, filter_In in Hin. destruct Hin as [_ Hin%Z.ltb_lt].
    symmetry. apply filter_below. simpl in *. lia. }
  change (format_task_cursor <$> (fst <$> Some (n, r))) with (Some (format_task_cursor n)). cbv iota beta. pose proof (IH (Some n) (drop k records)) as E. cbn [fmap option_fmap option_map from_option] in E. rewrite E.
  - rewrite <- fmap_app, take_drop. done.
  - simpl. lia.
  - rewrite Hnext, fmap_drop. by apply Forall2_drop.
  - rewrite length_drop. lia.
Qed.

(** C34. Following the cursors lists every task of the scope once: on a store that does
    not change, a client that starts without a cursor and hands back the cursor of each
    page, as text, gets all tasks of the repository that match its filters, newest first,
    none twice and none left out, whatever the limit, and the last page carries no
    cursor. *)
Theorem task_pages_enumerate q repository db records :
  scoped q repository → (Z.of_nat (length (tasks db)) ≤ i64_max)%Z →
  Forall2 (λ r t, query_task_db db (row_id r) = Ok (Some t)) (rev (filter (in_scope q repository) (tasks db))) records →
  follow (S (length (tasks db))) q None db = Some (Ok (task_view from_str decode_admission <$> records)).
Proof.
  intros Hq Ht Hr. apply (follow_rest q repository db None); [done..| |].
  - by rewrite scope_rows_all.
  - apply Forall2_length in Hr. rewrite length_rev in Hr. pose proof (length_filter (in_scope q repository) (tasks db)). lia.
Qed.
End pages.

Module ListDemo.
Definition add (n : string) (db : Db) : Db :=
  (enqueue_task_authoritative 100 (mk_new_task n (if n ≟ "10000002" then "/etc" else "/repo") ("/repo/" +:+ n) None "{}" "fix it") db).2.
(** Four tasks, the third in another repository. *)
Definition db : Db := add "10000003" (add "10000002" (add "10000001" (add "10000000" empty_db))).
Definition query : TaskListQuery := mk_list_query None (Some "/repo/.") None None None 2.
Definition records : list TaskRecord :=
  omap (λ id, match query_task_db db id with Ok o => o | Err _ => None end) ["10000003"; "10000001"; "10000000"].
Definition from_str (s : string) : result string Value := Err "no JSON".
Definition read (r : TaskRow) : result string TaskRecord :=
  match query_task_db db (row_id r) with Ok (Some t) => Ok t | _ => Err "unreadable" end.
End ListDemo.

Lemma task_pages_enumerate_witness :
  @scoped (Tree.fs Tree.sample) ListDemo.query "/repo"
  ∧ (rec_owner_epoch <$> ListDemo.records) = [0; 0; 0]%Z
  ∧ @follow ListDemo.from_str (λ _, None) (λ _, None) (Tree.fs Tree.sample) (S (length (tasks ListDemo.db))) ListDemo.query None ListDemo.db
    = Some (Ok (task_view ListDemo.from_str (λ _, None) <$> ListDemo.records)).
Proof.
  assert (H : @scoped (Tree.fs Tree.sample) ListDemo.query "/repo").
  { split; [|by vm_compute]. exists "/repo/.". split; [done|]. split; vm_compute; reflexivity. }
  split; [exact H|]. split; [vm_compute; reflexivity|].
  apply (@task_pages_enumerate ListDemo.from_str (λ _, None) (λ _, None) (Tree.fs Tree.sample) ListDemo.query "/repo"); [exact H|by vm_compute|].
  apply (Forall2_impl (λ r t, ListDemo.read r = Ok t)).
  - apply traverse_ok. vm_compute. reflexivity.
  - intros r t. unfold ListDemo.read. destruct (query_task_db ListDemo.db (row_id r)) as [[?|]|]; [by intros [= ->]|done..].
Defined.

(** ** Theorems on frames and submissions

    A frame is answered under its own id and changes nothing unless it is a request;
    the instructions of a submission reach the agent by exactly one way. *)

(** ** Handlers *)

Lemma handler_bind_ok {S A B} (m : Handler S A) (f : A → Handler S B) s b s' :
  (m ≫= f) s = Returns (Ok b, s') ↔ ∃ a s1, m s = Returns (Ok a, s1) ∧ f a s1 = Returns (Ok b, s').
Proof.
  unfold mbind, handler_bind. destruct (m s) as [[[a|e] s1]|]; [|split; [done|intros (? & ? & ? & ?)]; done|naive_solver].
  split; [by exists a, s1|]. by intros (? & ? & [= <- <-] & ?).
Qed.

Lemma require_ok {S A} (r : result RpcError A) (s : S) a s' : require r s = Returns (Ok a, s') ↔ r = Ok a ∧ s' = s.
Proof. unfold require. naive_solver. Qed.

(** ** Loaded profiles *)

Section profiles.
Context (from_str : string → result string Value) (decode_failure : Value → string)
  (hash_order : gmap string (list Path) → list (string * list Path)).

#[local] Abbreviation parse := (parse_profile_json_internal from_str decode_failure).

(** Instructions that say something. *)
Definition spoken (instructions : option string) : Prop :=
  from_option (λ di, trim_is_empty di = false) True instructions.

Lemma parsed_spoken content file p : parse content file = Ok p → spoken (pf_developer_instructions p).
Proof.
  unfold parse_profile_json_internal. by repeat case_match; try done; intros (mode & _ & [= <-])%result_bind_ok.
Qed.

Lemma read_files_parsed files owners :
  Forall (λ p, spoken (pf_developer_instructions p)) (read_files from_str decode_failure files owners).1.2.
Proof.
  revert owners. induction files as [|[file [content|error]] files IH]; intros owners; cbn [read_files]; [constructor| |].
  - set (o := match loose_top_level_name _ content with Some n => _ | None => _ end). specialize (IH o).
    destruct (read_files _ _ files o) as [[owners' cands] errs]. destruct (parse content file) eqn:Hp; [|done].
    constructor; [by eapply parsed_spoken|done].
  - specialize (IH owners). by destruct (read_files _ _ files owners) as [[owners' cands] errs].
Qed.

Lemma admit_candidates_all (P : Profile → Prop) owners cands loaded loaded' :
  Forall P cands → map_Forall (λ _, P) (lp_profiles loaded) →
  admit_candidates owners cands loaded = Returns loaded' → map_Forall (λ _, P) (lp_profiles loaded').
Proof.
  intros Hc. revert loaded. induction Hc as [|p cands Hp Hc IH]; intros loaded Hl; cbn [admit_candidates]; [by intros [= <-]|].
  destruct (Nat.ltb _ _).
  - destruct (duplicate_diagnostic _ _ _); cbn [mbind outcome_bind]; [|done]. by apply IH.
  - apply IH. by apply map_Forall_insert_2.
Qed.

Lemma scanned_spoken dir d loaded :
  scan_profiles_dir from_str decode_failure hash_order dir d = Returns loaded →
  map_Forall (λ _ p, spoken (pf_developer_instructions p)) (lp_profiles loaded).
Proof.
  unfold scan_profiles_dir. destruct d as [|error|entries]; [intros [= <-]; apply map_Forall_empty..|].
  pose proof (read_files_parsed (profile_files dir entries) ∅) as Hr.
  destruct (read_files _ _ _ _) as [[owners cands] errs]. simpl in Hr.
  destruct (admit_candidates _ _ _) as [l|] eqn:Ha; cbn [mbind outcome_bind]; [|done].
  destruct (report_duplicates _ _) as [errs'|]; cbn [mbind outcome_bind]; [|done]. intros [= <-]. simpl.
  eapply admit_candidates_all; [exact Hr| |exact Ha]. apply map_Forall_empty.
Qed.

Lemma loaded_spoken place name p :
  load_profile from_str decode_failure hash_order place name = Returns (Ok p) → spoken (pf_developer_instructions p).
Proof.
  unfold load_profile. destruct place as [[dir d]|]; [|done].
  destruct (scan_profiles_dir _ _ _ dir d) as [loaded|] eqn:Hs; cbn [mbind outcome_bind]; [|done].
  destruct (lp_profiles loaded !! name) as [p'|] eqn:Hl; [|done]. intros [= <-].
  by apply (scanned_spoken dir d loaded Hs) in Hl.
Qed.
End profiles.

(** ** Submissions *)

Section submissions.
Context (from_str : string → result string Value) (decode_failure : Value → string)
  (hash_order : gmap string (list Path) → list (string * list Path)).
Context (is_executable_file : Path → bool) (codex_home : bool) (package_version : string) (to_string : Value → string).
Context {S : Type} `{!Daemon S}.

#[local] Abbreviation prepare :=
  (prepare_submission from_str decode_failure hash_order is_executable_file codex_home package_version to_string).
#[local] Abbreviation resolve := (resolve_admission_with_instructions is_executable_file codex_home package_version to_string).

Lemma resolve_identity input config instructions profile id :
  resolve input config instructions profile = Ok id →
  (match si_agent input with Some a => Some a | None => cf_default_subagent config end) = Some (agent id)
  ∧ developer_instructions id =
      (if agent id ≟ "codex" then s ← instructions; if trim_is_empty s then None else Some s else None).
Proof.
  unfold resolve_admission_with_instructions. intros (? & _ & H)%result_bind_ok. apply result_bind_ok in H as (? & _ & H).
  destruct (match si_agent input with Some a => Some a | None => _ end) as [a|]; [|done].
  destruct (cf_subagents config !! a); [|done]. destruct (negb _); [done|]. destruct (negb _); [done|].
  apply result_bind_ok in H as (e & _ & H). apply result_bind_ok in H as ([mo src] & _ & H).
  apply result_bind_ok in H as (? & _ & [= <-]). done.
Qed.

(** Where the settings of a submission come from. *)
Definition sourced (input : GeneralSubmitInput) (s : S) (profile : option Profile) : Prop :=
  match si_profile input with
  | Some name => ∃ p, profile = Some p
      ∧ load_profile from_str decode_failure hash_order (dm_profiles s) (trim name) = Returns (Ok p)
  | None => profile = None
  end.

Definition instructions_of (input : GeneralSubmitInput) (profile : option Profile) : option string :=
  match profile with Some p => pf_developer_instructions p | None => (take_instructions input).1 end.

Definition mode_of (input : GeneralSubmitInput) (profile : option Profile) : option PermissionMode :=
  match profile with Some p => pf_permission_mode p | None => permission_mode (si_manifest input) end.

Definition agent_of (input : GeneralSubmitInput) (profile : option Profile) : option string :=
  match profile with Some p => pf_subagent p | None => si_agent input end.

(** The instructions reach the agent natively, or in front of the prompt. *)
Definition delivered (instructions : option string) (text : string) (m : GeneralTaskManifest) (id : AdmissionIdentity) : Prop :=
  match instructions with
  | None => prompt m = text ∧ developer_instructions id = None
  | Some di =>
      trim_is_empty di = false ∧ (Z.of_nat (String.length di) ≤ MAX_DEVELOPER_INSTRUCTIONS_BYTES)%Z
      ∧ if decide (agent id = "codex") then prompt m = text ∧ developer_instructions id = Some di
        else prompt m = splice_instructions di text ∧ developer_instructions id = None
  end.

Lemma submission_source_ok input s r s' :
  submission_source from_str decode_failure hash_order input s = Returns (Ok r, s') →
  s' = s ∧ ∃ profile, sourced input s profile ∧ r.1.2 = instructions_of input profile ∧ r.2 = profile
    ∧ si_agent r.1.1 = agent_of input profile
    ∧ si_manifest r.1.1 = with_mode (mode_of input profile) (si_manifest input) ∧ spoken r.1.2.
Proof.
  unfold submission_source, sourced. destruct (si_profile input) as [name|] eqn:Hn.
  - destruct (_ || _ || _).
    + intros (? & ? & _ & ?)%handler_bind_ok. done.
    + intros (p & s1 & Hp & [= <- <-])%handler_bind_ok. unfold profile_named in Hp.
      destruct (load_profile _ _ _ _ _) as [[p'|e]|] eqn:Hl; [|done..]. injection Hp as -> <-. split; [done|].
      exists (Some p). split; [by exists p|]. repeat (split; [done|]). by eapply loaded_spoken.
  - destruct (take_instructions input) as [di input'] eqn:Ht. intros [= <- <-]. split; [done|]. exists None.
    unfold take_instructions in Ht. injection Ht as <- <-. do 4 (split; [done|]). split; [simpl; by destruct (si_manifest input)|].
    simpl. destruct (si_developer_instructions input) as [d|]; [|done]. by destruct (trim_is_empty d) eqn:?.
Qed.

Lemma spliced_spoken di input :
  trim_is_empty di = false →
  si_manifest (spliced (Some di) input) = with_prompt (splice_instructions di (prompt (si_manifest input))) (si_manifest input)
  ∧ si_agent (spliced (Some di) input) = si_agent input.
Proof.
  intros H. unfold spliced. destruct (str_is_empty di) eqn:E; [|done].
  by destruct di.
Qed.

Lemma refused_not_ok profile failure s r s' :
  refused_admission from_str decode_failure hash_order profile failure s ≠ Returns (Ok r, s').
Proof.
  unfold refused_admission. repeat case_match; try done. intros (? & ? & _ & ?)%handler_bind_ok. done.
Qed.

Lemma conflict_free input :
  profile_conflict input = false → is_Some (si_profile input) →
  input = mk_submit (si_profile input) None None None None (with_mode None (si_manifest input)).
Proof.
  unfold profile_conflict. destruct input as [[p|] [?|] [?|] [?|] [?|] []]; simpl; try done; try by intros ? [].
  by destruct permission_mode.
Qed.

(** C15. The instructions of an accepted submission reach the agent exactly once: they come
    from the profile or from the parameter, never from both, say something and keep their
    bound, and are handed to the scheduler either as native instructions of a [codex] task
    with the prompt untouched, or in front of the prompt of any other agent with no native
    instructions; without instructions the prompt is untouched.  A submission that names a
    profile sets none of the fields of the profile itself; everything else of the manifest
    is kept, and preparing a submission changes nothing. *)
Theorem instructions_delivered_once input s m id s' :
  prepare input s = Returns (Ok (m, id), s') →
  s' = s ∧ ∃ profile, sourced input s profile
    ∧ (is_Some (si_profile input) → input = mk_submit (si_profile input) None None None None
                                              (with_mode None (si_manifest input)))
    ∧ (∃ config, dm_config s = Ok config
        ∧ Some (agent id) = match agent_of input profile with Some a => Some a | None => cf_default_subagent config end)
    ∧ delivered (instructions_of input profile) (prompt (si_manifest input)) m id
    ∧ m = with_prompt (prompt m) (with_mode (mode_of input profile) (si_manifest input)).
Proof.
  unfold prepare_submission. destruct (profile_conflict input) eqn:Hx; [done|].
  intros ([[input' di] profile] & s1 & Hsrc & H)%handler_bind_ok.
  apply submission_source_ok in Hsrc as (-> & profile' & Hsrc & Hdi & Hpr & Hag & Hm & Hsp). simpl in *. subst profile' di.
  apply handler_bind_ok in H as (? & s1 & [Hb ->]%require_ok & H).
  apply handler_bind_ok in H as (config & s1 & Hc & H). unfold config_read in Hc. injection Hc as Hc <-.
  set (native := bool_decide _) in H. set (input2 := if native then _ else _) in H.
  destruct (resolve input2 config _ profile) as [id'|failure] eqn:Hres.
  2:{ by apply refused_not_ok in H. }
  injection H as <- <- <-. apply resolve_identity in Hres as [Hagent Hins].
  assert (Ha2 : si_agent input2 = si_agent input').
  { unfold input2, spliced. by repeat case_match. }
  rewrite Ha2 in Hagent. unfold native in Hins. rewrite Hagent in Hins. rewrite Hag in Hagent.
  split; [done|]. exists profile. split; [done|]. split; [by apply conflict_free|]. split; [by exists config|].
  assert (Hnat : native = bool_decide (agent id' = "codex")).
  { unfold native. rewrite Hag, Hagent. apply bool_decide_ext. split; [by intros [= ->]|by intros ->]. }
  assert (Hmp : prompt (si_manifest input') = prompt (si_manifest input)) by by rewrite Hm.
  unfold delivered, input2. rewrite Hnat. clear Hnat. destruct (instructions_of input profile) as [di|] eqn:Hdi; simpl in Hsp.
  - destruct (spliced_spoken di input' Hsp) as [Hs _]. unfold bounded_instructions in Hb.
    destruct (Z.ltb_spec MAX_DEVELOPER_INSTRUCTIONS_BYTES (Z.of_nat (String.length di))) as [|Hlen]; [done|].
    destruct (decide (agent id' = "codex")) as [Hcx|Hcx].
    + rewrite !bool_decide_true in * by congruence. rewrite Hcx in Hins. simpl in Hins. rewrite Hsp in Hins.
      split; [done|]. by rewrite Hm.
    + rewrite (bool_decide_false (agent id' = "codex")) by done. rewrite Hs, Hm. simpl.
      apply String.eqb_neq in Hcx as E. by rewrite E in Hins.
  - assert (Hn : developer_instructions id' = None) by (rewrite Hins; by repeat case_match).
    simpl. by destruct (bool_decide (agent id' = "codex")); rewrite Hm.
Qed.
End submissions.

(** ** Frames *)

Section frames.
Context (from_str : string → result string Value) (decode_failure : Value → string)
  (hash_order : gmap string (list Path) → list (string * list Path)).
Context (is_executable_file : Path → bool) (codex_home : bool) (package_version : string) (to_string : Value → string).
Context (decode_prepared : Value → option PreparedGeneralTask) (decode_admission : Value → option AdmissionIdentity)
  (admission_agent : string → option string).
Context {fs : FileSystem} {S : Type} `{!Daemon S}.
Context (from_slice : string → option Value) (decode_request : Value → option RpcRequest).
(** serde reads the id of a request from the field of that name. *)
Context (decode_request_id : ∀ v r, decode_request v = Some r → get_str v "request_id" = Some (rq_id r)).

#[local] Abbreviation run :=
  (dispatch from_str decode_failure hash_order is_executable_file codex_home package_version to_string decode_prepared
     decode_admission admission_agent).
#[local] Abbreviation handle :=
  (handle_bytes from_str decode_failure hash_order is_executable_file codex_home package_version to_string decode_prepared
     decode_admission admission_agent from_slice decode_request).

(** The frame fits its cap and holds this JSON document. *)
Definition framed (frame : string) (v : Value) : Prop :=
  String.length frame < MAX_REQUEST_FRAME_BYTES ∧ from_slice frame = Some v.

(** The document is a request: an object of the three fields, of a known method if it
    names one, that decodes, under a valid id. *)
Record is_request (v : Value) (request : RpcRequest) : Prop := {
  ir_fields : ∃ fields, v = VObject fields ∧ ∀ k x, (k, x) ∈ fields → k ∈ request_fields;
  ir_method : ∀ m, get_str v "method" = Some m → is_known m = true;
  ir_decodes : decode_request (with_params v) = Some request;
  ir_id : valid_request_id (rq_id request) = true }.

Lemma with_params_id v : get_str (with_params v) "request_id" = get_str v "request_id".
Proof.
  unfold with_params. destruct v as [| | | | |fields]; try done. repeat case_match; try done.
  unfold get_str, get. simpl. by rewrite field_lookup_insert.
Qed.

Lemma stray_fields_false v :
  stray_fields v = false ↔ ∃ fields, v = VObject fields ∧ ∀ k x, (k, x) ∈ fields → k ∈ request_fields.
Proof.
  unfold stray_fields. destruct v as [| | | | |fields]; simpl; try (split; [done|by intros (? & ? & _)]).
  rewrite negb_false_iff, forallb_forall. setoid_rewrite <- list_elem_of_In. split.
  - intros H. exists fields. split; [done|]. intros k x Hk. apply H in Hk. by apply one_of_true in Hk.
  - intros (f & [= <-] & H) [k x] Hk. apply one_of_true. by eapply H.
Qed.

(** The refusal of a frame. *)
Ltac refused := split; [done|]; eexists; split; [done|]; cbn [re_code rpc_error]; set_solver.

(** C35. Every frame is answered under its own id, and only a request does anything: the
    answer carries the id of the frame when it has a valid one and no id otherwise; a
    frame that is a request is answered by its method, run once on the state; every other
    frame, too long, not JSON, with stray fields, of an unknown method, malformed, or
    without a valid id, is refused with an error and changes nothing. *)
Theorem frame_answered frame s response s' :
  handle frame s = Returns (response, s') →
  (∀ v, framed frame v → rp_request response = echoed_id v)
  ∧ ((∃ v request, framed frame v ∧ is_request v request
        ∧ rp_request response = Some (rq_id request) ∧ run (rq_method request) s = Returns (rp_outcome response, s'))
     ∨ ((∀ v request, framed frame v → ¬ is_request v request)
        ∧ s' = s ∧ ∃ e, rp_outcome response = Err e
            ∧ re_code e ∈ [ROversized; RMalformed; RValidation; RUnknownMethod])).
Proof.
  unfold handle_bytes. destruct (Nat.ltb_spec MAX_REQUEST_FRAME_BYTES (String.length frame + 1)) as [Hlong|Hshort].
  { intros [= <- <-]. split; [by intros v [? _]; lia|]. right. split; [by intros v ? [? _]; lia|]. by refused. }
  destruct (from_slice frame) as [v|] eqn:Hv.
  2:{ intros [= <- <-]. split; [by intros v [_ Hf]; congruence|]. right. split; [by intros v ? [_ Hf]; congruence|]. by refused. }
  assert (Hfr : framed frame v) by by split; [lia|].
  assert (Honly : ∀ v', framed frame v' → v' = v) by (intros v' [_ ?]; congruence).
  destruct (stray_fields v) eqn:Hst.
  { intros [= <- <-]. split; [by intros v' ->%Honly|]. right. split; [|by refused].
    intros v' r ->%Honly [Hf _ _ _]. apply stray_fields_false in Hf. congruence. }
  destruct (match get_str v "method" with Some m => negb (is_known m) | None => false end) eqn:Hmeth.
  { intros [= <- <-]. split; [by intros v' ->%Honly|]. right. split; [|by refused].
    intros v' r ->%Honly [_ Hk _ _]. destruct (get_str v "method") as [m|]; [|done]. by rewrite (Hk m eq_refl) in Hmeth. }
  destruct (decode_request (with_params v)) as [request|] eqn:Hd.
  2:{ intros [= <- <-]. split; [by intros v' ->%Honly|]. right. split; [|by refused].
      intros v' r ->%Honly [_ _ Hdec _]. congruence. }
  assert (Hid : echoed_id v = if valid_request_id (rq_id request) then Some (rq_id request) else None).
  { apply decode_request_id in Hd. rewrite with_params_id in Hd. unfold echoed_id. by rewrite Hd. }
  destruct (valid_request_id (rq_id request)) eqn:Hval; cbn [negb].
  - destruct (run (rq_method request) s) as [[r s1]|] eqn:Hr; cbn [mbind outcome_bind]; [|done]. intros [= <- <-].
    split; [by intros v' ->%Honly|]. left. exists v, request. split; [done|]. split; [|done]. split; [by apply stray_fields_false| |done|done].
    intros m Hm. rewrite Hm in Hmeth. by apply negb_false_iff in Hmeth.
  - intros [= <- <-]. split; [by intros v' ->%Honly|]. right. split; [|by refused].
    intros v' r ->%Honly [_ _ Hdec Hi]. congruence.
Qed.
End frames.
