(* ===== verification/RpcService.v ===== *)
(** * The service

    The dispatcher over the daemon: the operations of the store, the scheduler and the
    evidence store in the place of the interface of [RpcHandlers].

    The state is what one request works on: the world of the task it names, the drain
    state, the recorded evidence, and what the host shows while the request is served
    (configuration, profiles, probes, the number of active runtimes).  Waiting for a
    submitted task and the waits of [RpcWait] watch other threads, so they are given as
    functions on worlds. *)

From stdpp Require Import gmap pretty.
From S2P Require Import Prelude RustStr RustPath Json FileSystem PolicyPaths General StoreRecords StoreSql StoreOps Observation RuntimeEvents ActivityTracker RuntimeOwner Recovery Control Messages Admission RpcErrors RpcViews RpcBound RpcWait RpcConfig RpcProfiles RpcAgents AgentStatus RpcHandlers MessageProps RpcAgentProps RpcHandlerProps.

Record Host := mk_host {
  ho_config : result RpcError AgentConfigSnapshot;
  ho_profiles : option (Path * Directory);
  ho_journal : result string string;
  ho_probe : AgentProbeInput → AgentProbeEvidence;
  ho_catalog : AgentModelsInput → AgentModelsOutput;
  ho_group_empty : StoredProcessIdentity → option bool;
  ho_active : nat;
  ho_tracker : string → option PassiveActivityTracker;
  ho_uuid : string }.

Record Service (R : Type) := mk_service {
  sv_world : World R; sv_drain : DrainState; sv_evidence : AgentEvidenceStore; sv_host : Host }.
Arguments mk_service {R} _ _ _ _. Arguments sv_world {R} _. Arguments sv_drain {R} _.
Arguments sv_evidence {R} _. Arguments sv_host {R} _.

Section service.
Context (to_string : Value → string) (from_str : string → result string Value)
  (decode_prepared : Value → option PreparedGeneralTask)
  (sqlite_text : SqliteError → string) (task_result_digest : TaskResult → string)
  (debug_terminal : RuntimeTerminal → string).
Context (config : SchedulerConfig) (owner_id : string).
Context {R : Type} `{!ManagedRuntime R}.
Context (await_operation : ControlDeadline → World R → bool * World R) (start_ready : World R → World R).
Context (fs : FileSystem) (create_scratch : Path → string → nat → CreateDir).
Context (encode_prepared : PreparedGeneralTask → string) (preparation_text : PreparationError → string).
(** The wait of a submission for its task, and the waits for one and several tasks. *)
Context (await_start : TaskRecord → World R → result SchedulerError TaskRecord * World R)
  (wait_one : string → option string → Z → World R → outcome (result RpcError TaskWaitBody * World R))
  (wait_many : list string → Z → World R → outcome (result RpcError TaskWaitManyBody * World R)).

Definition in_world {A} (m : World R → A * World R) (s : Service R) : A * Service R :=
  let '(a, w) := m (sv_world s) in (a, mk_service w (sv_drain s) (sv_evidence s) (sv_host s)).

Definition watching {A} (m : World R → outcome (A * World R)) (s : Service R) : outcome (A * Service R) :=
  '(a, w) ← m (sv_world s); Returns (a, mk_service w (sv_drain s) (sv_evidence s) (sv_host s)).

Definition put_drain (d : DrainState) (s : Service R) : Service R :=
  mk_service (sv_world s) d (sv_evidence s) (sv_host s).

Definition service_db (s : Service R) : Db := w_db (sv_world s).

(** [Scheduler::submit_and_start_general]: the task is queued under the drain flag, then
    its start is awaited. *)
Definition submit_and_start_general (manifest : GeneralTaskManifest) (admission : AdmissionIdentity) (s : Service R)
    : result SchedulerError TaskRecord * Service R :=
  in_world (λ w,
    match on_store (enqueue_general_with_admission create_scratch encode_prepared preparation_text (wall (w_runtime w))
                      (sv_drain s) manifest (Some admission)) w with
    | (Err e, w) => (Err e, w)
    | (Ok task, w) => await_start task w
    end) s.

(** [Scheduler::observation_snapshot]. *)
Definition observed_task (id : string) (s : Service R) : ObservationSnapshot * bool :=
  match ho_tracker (sv_host s) id with
  | Some t => (observation_snapshot t, runtime_source_verified t)
  | None =>
      let agent := match get_task id (service_db s) with
                   | Ok (Some t) => Some (task_agent from_str decode_prepared t) | _ => None end in
      (if bool_decide (agent = Some "dsh")
       then mk_observation_snapshot (snapshot_number unavailable) (snapshot_tools unavailable)
              (mk_observed_reasoning (text (snapshot_reasoning unavailable)) (text_truncated (snapshot_reasoning unavailable))
                 dsh_source)
              (snapshot_coverage unavailable)
       else unavailable, false)
  end.

#[global] Instance service_daemon : Daemon (Service R) := {
  dm_db := service_db;
  dm_config s := ho_config (sv_host s);
  dm_profiles s := ho_profiles (sv_host s);
  dm_journal s := ho_journal (sv_host s);
  dm_evidence := sv_evidence;
  dm_record e s := mk_service (sv_world s) (sv_drain s) e (sv_host s);
  dm_probe s := ho_probe (sv_host s);
  dm_catalog s := ho_catalog (sv_host s);
  dm_begin_drain s :=
    let w := sv_world s in
    let '(d, db) := begin_drain from_str decode_prepared (wall (w_runtime w)) (ho_group_empty (sv_host s)) (sv_drain s) (w_db w) in
    mk_service (put_db db w) d (sv_evidence s) (sv_host s);
  dm_cancel_draining s :=
    let '(r, d, db) := cancel_draining_tasks (sv_drain s) (service_db s) in
    (_ ← r; Ok tt, mk_service (put_db db (sv_world s)) d (sv_evidence s) (sv_host s));
  dm_abort_drain s := let '(r, d) := abort_drain (sv_drain s) in (r, put_drain d s);
  dm_claim_activation s :=
    let '(c, d) := claim_activation owner_id (ho_active (sv_host s)) (sv_drain s) (service_db s) in (c, put_drain d s);
  dm_is_draining s := draining (sv_drain s);
  dm_active_count s := ho_active (sv_host s);
  dm_resources_reaped s := resources_reaped (ho_active (sv_host s)) (service_db s);
  dm_ready_for_activation s := ready_for_activation (ho_active (sv_host s)) (sv_drain s) (service_db s);
  dm_updater_fired s := updater_fired (sv_drain s);
  dm_submit := submit_and_start_general;
  dm_send_message id mid mode content s :=
    in_world (send_message to_string from_str decode_prepared config await_operation (draining (sv_drain s)) id mid mode content) s;
  dm_respond id rid decision content :=
    in_world (respond_request to_string from_str sqlite_text task_result_digest debug_terminal config await_operation start_ready
                id rid decision content);
  dm_cancel id :=
    in_world (cancel_task to_string from_str decode_prepared sqlite_text task_result_digest debug_terminal config
                await_operation start_ready id);
  dm_close id :=
    in_world (close_task to_string from_str decode_prepared sqlite_text task_result_digest debug_terminal config
                await_operation start_ready id);
  dm_observation := observed_task;
  dm_wait_one id message time := watching (wait_one id message time);
  dm_wait_many ids time := watching (wait_many ids time);
  dm_uuid s := ho_uuid (sv_host s) }.
End service.

(** ** Theorems on the service

    What a sequence of requests does to the drain flag, and with it to submissions: the
    dispatcher, admission and the drain state together. *)

(** ** Handlers that keep a property of the state *)

Section maintains.
Context {S : Type} (P : S → Prop).

Definition maintains {A} (h : Handler S A) : Prop := ∀ s r s', P s → h s = Returns (r, s') → P s'.

Lemma maintains_ret {A} (a : A) : maintains (mret a).
Proof. by intros s r s' Hs [= <- <-]. Qed.
Lemma maintains_error {A} e : maintains (answer_error (A := A) e).
Proof. by intros s r s' Hs [= <- <-]. Qed.
Lemma maintains_require {A} (x : result RpcError A) : maintains (require x).
Proof. by intros s r s' Hs [= <- <-]. Qed.
Lemma maintains_reading {A} (f : S → A) : maintains (reading f).
Proof. by intros s r s' Hs [= <- <-]. Qed.
(** A handler that hands the state back as it is. *)
Lemma maintains_reader {A} (f : S → result RpcError A) : maintains (λ s, Returns (f s, s)).
Proof. by intros s r s' Hs [= <- <-]. Qed.
Lemma maintains_running {A} (f : S → outcome A) : maintains (running f).
Proof. unfold running. intros s r s' Hs. destruct (f s); [|done]. by intros [= <- <-]. Qed.
Lemma maintains_bind {A B} (m : Handler S A) (f : A → Handler S B) : maintains m → (∀ a, maintains (f a)) → maintains (m ≫= f).
Proof.
  intros Hm Hf s r s' Hs. unfold mbind, handler_bind. destruct (m s) as [[[a|e] s1]|] eqn:E; [| |done].
  - apply Hf. by eapply Hm.
  - intros [= <- <-]. by eapply Hm.
Qed.
Lemma maintains_changing f : (∀ s, P s → P (f s)) → maintains (changing f).
Proof. intros Hf s r s' Hs [= <- <-]. by apply Hf. Qed.
Lemma maintains_scheduled {A} (m : S → result SchedulerError A * S) : (∀ s, P s → P (m s).2) → maintains (scheduled m).
Proof. unfold scheduled. intros Hm s r s' Hs. specialize (Hm s Hs). destruct (m s). by intros [= <- <-]. Qed.
End maintains.

Section service.
Context (to_string : Value → string) (from_str : string → result string Value) (decode_failure : Value → string)
  (hash_order : gmap string (list Path) → list (string * list Path)).
Context (is_executable_file : Path → bool) (codex_home : bool) (package_version : string).
Context (decode_prepared : Value → option PreparedGeneralTask) (decode_admission : Value → option AdmissionIdentity)
  (admission_agent : string → option string).
Context (sqlite_text : SqliteError → string) (task_result_digest : TaskResult → string)
  (debug_terminal : RuntimeTerminal → string).
Context (config : SchedulerConfig) (owner_id : string).
Context {R : Type} `{!ManagedRuntime R}.
Context (await_operation : ControlDeadline → World R → bool * World R) (start_ready : World R → World R).
Context (fs : FileSystem) (create_scratch : Path → string → nat → CreateDir).
Context (encode_prepared : PreparedGeneralTask → string) (preparation_text : PreparationError → string).
Context (await_start : TaskRecord → World R → result SchedulerError TaskRecord * World R)
  (wait_one : string → option string → Z → World R → outcome (result RpcError TaskWaitBody * World R))
  (wait_many : list string → Z → World R → outcome (result RpcError TaskWaitManyBody * World R)).

#[local] Instance daemon : Daemon (Service R) :=
  service_daemon to_string from_str decode_prepared sqlite_text task_result_digest debug_terminal config owner_id
    await_operation start_ready fs create_scratch encode_prepared preparation_text await_start wait_one wait_many.

#[local] Abbreviation serve_one :=
  (dispatch from_str decode_failure hash_order is_executable_file codex_home package_version to_string decode_prepared
     decode_admission admission_agent (fs := fs) (S := Service R)).

(** The service drains. *)
Definition drains (s : Service R) : Prop := draining (sv_drain s) = true.

Lemma in_world_drains {A} (m : World R → A * World R) s : drains s → drains (in_world m s).2.
Proof. unfold in_world, drains. by destruct (m (sv_world s)). Qed.

Lemma watching_drains {A} (m : World R → outcome (result RpcError A * World R)) : maintains drains (watching m).
Proof. unfold watching. intros s r s' Hs. destruct (m (sv_world s)) as [[a w]|]; cbn [mbind outcome_bind]; [|done]. by intros [= <- <-]. Qed.

Lemma record_drains e s : drains s → drains (dm_record e s).
Proof. done. Qed.

Lemma cancel_draining_drains s : drains s → drains (dm_cancel_draining s).2.
Proof.
  unfold drains. cbn. unfold cancel_draining_tasks. destruct (fence_queued_cancellation _) as [[?|?] db]; [|done].
  by destruct (drain_cancel_running _).
Qed.

Lemma claim_drains s : drains s → drains (dm_claim_activation s).2.
Proof. unfold drains. cbn. unfold claim_activation. destruct (negb _); [done|]. by destruct (activation_claim _). Qed.

Lemma models_sweep_drains c s : drains s → drains (models_sweep c s).
Proof. unfold models_sweep. revert s. induction (sorted_entries (cf_subagents c)).*1 as [|n l IH]; intros s Hs; [done|]. simpl. by apply IH. Qed.

Lemma status_report_drains : maintains drains (status_report is_executable_file).
Proof.
  intros s r s' Hs. unfold status_report. destruct (system_status _ _ _ _ _) as [[[a c] e]|]; cbn [mbind outcome_bind]; [|done].
  by intros [= <- <-].
Qed.

Lemma evidence_drains {A} (f : Service R → A * AgentEvidenceStore) :
  maintains drains (λ s, let '(a, store) := f s in Returns (Ok a, dm_record store s)).
Proof. intros s r s' Hs. destruct (f s). by intros [= <- <-]. Qed.

Lemma activate_drains : maintains drains (λ s, let '(claim, s') := dm_claim_activation s in Returns (Ok claim, s')).
Proof. intros s r s' Hs. pose proof (claim_drains s Hs) as H. destruct (dm_claim_activation s). by intros [= <- <-]. Qed.

Lemma profile_named_maintains (P : Service R → Prop) name : maintains P (profile_named from_str decode_failure hash_order name).
Proof. intros s r s' Hs. unfold profile_named. destruct (load_profile _ _ _ _ _); [|done]. by intros [= <- <-]. Qed.

(** Walks through a handler. *)
Ltac keep :=
  cbv zeta;
  lazymatch goal with
  | |- maintains _ (mbind _ _) => apply maintains_bind; [keep | intros ?; keep]
  | |- maintains _ (mret _) => apply maintains_ret
  | |- maintains _ (answer_error _) => apply maintains_error
  | |- maintains _ (require _) => apply maintains_require
  | |- maintains _ (reading _) => apply maintains_reading
  | |- maintains _ (running _) => apply maintains_running
  | |- maintains _ (changing _) => apply maintains_changing; first [apply models_sweep_drains | by intros]
  | |- maintains _ (scheduled _) => apply maintains_scheduled; intros ? ?; first [by apply in_world_drains | by apply cancel_draining_drains]
  | |- maintains _ (found _ _ _) => apply maintains_reader
  | |- maintains _ config_read => apply maintains_reader
  | |- maintains _ (probed _ _) => apply evidence_drains
  | |- maintains _ (discover _ _) => apply evidence_drains
  | |- maintains _ (status_report _) => apply status_report_drains
  | |- maintains _ (match ?x with _ => _ end) => destruct x; keep
  | |- maintains _ (dm_wait_one _ _ _) => apply watching_drains
  | |- maintains _ (dm_wait_many _ _) => apply watching_drains
  | |- maintains _ (profile_named _ _ _ _) => apply profile_named_maintains
  | |- maintains _ (λ _, _) => first [apply activate_drains | apply evidence_drains | apply maintains_reader]
  | |- maintains _ ?h => let f := head_of h in unfold f; keep
  end
with head_of h := lazymatch h with ?f _ => head_of f | ?f => f end.

(** No request but an abort ends a drain. *)
Lemma dispatch_drains m : m ≠ DaemonAbortDrain → maintains drains (serve_one m).
Proof.
  intros Hm. destruct m; try done; cbn [dispatch]; keep.
Qed.

Definition draining_error : RpcError := rpc_error RUnavailable "daemon_draining".

Lemma submit_refused m id s : drains s → dm_submit m id s = (Err (InvalidConfig "daemon_draining"), s).
Proof.
  unfold drains. cbn. unfold submit_and_start_general, in_world, on_store, enqueue_general_with_admission. intros ->.
  cbn. by destruct s as [[] ? ? ?].
Qed.

(** Preparing a submission only reads. *)
Lemma prepare_reads input s r s' :
  prepare_submission from_str decode_failure hash_order is_executable_file codex_home package_version to_string input s
    = Returns (r, s') → s' = s.
Proof.
  assert (H : maintains (λ x, x = s) (prepare_submission from_str decode_failure hash_order is_executable_file codex_home
                                    package_version to_string input)) by keep.
  by apply H.
Qed.

(** A submission while the service drains: refused, and nothing has changed. *)
Lemma drained_submission input s r s' :
  drains s → serve_one (SubmitGeneral input) s = Returns (r, s') → (∃ e, r = Err e) ∧ s' = s.
Proof.
  intros Hs. cbn [dispatch]. unfold submit_general, mbind, handler_bind.
  destruct (prepare_submission _ _ _ _ _ _ _ input s) as [[[[m id]|e] s1]|] eqn:Hp; [| |done]; apply prepare_reads in Hp as ->.
  - unfold scheduled. rewrite submit_refused by done. intros [= <- <-]. by split; [eexists|].
  - intros [= <- <-]. by split; [eexists|].
Qed.

(** A sequence of requests: each answer, with the state it leaves. *)
Fixpoint serve (methods : list RpcMethod) (s : Service R) : outcome (list (result RpcError RpcSuccess * Service R)) :=
  match methods with
  | [] => Returns []
  | m :: rest => '(r, s') ← serve_one m s; l ← serve rest s'; Returns ((r, s') :: l)
  end.

Lemma serve_drained methods s answers :
  DaemonAbortDrain ∉ methods → drains s → serve methods s = Returns answers →
  Forall (λ x, drains x.2) answers
  ∧ ∀ i input, methods !! i = Some (SubmitGeneral input) →
      ∃ e x, answers !! i = Some (Err e, x) ∧ (s :: answers.*2) !! i = Some x.
Proof.
  revert s answers. induction methods as [|m methods IH]; intros s answers Hm Hs; cbn [serve].
  - intros [= <-]. by split; [constructor|].
  - apply not_elem_of_cons in Hm as [Hm Hrest]. destruct (serve_one m s) as [[r s1]|] eqn:H1; cbn [mbind outcome_bind]; [|done].
    destruct (serve methods s1) as [l|] eqn:H2; cbn [mbind outcome_bind]; [|done]. intros [= <-].
    assert (Hs1 : drains s1) by (eapply (dispatch_drains m); [by intros ->|exact Hs|exact H1]).
    destruct (IH s1 l Hrest Hs1 H2) as [Hall Hsub]. split; [by constructor|].
    intros [|i] input; simpl; [|by apply Hsub]. intros [= ->].
    destruct (drained_submission input s r s1 Hs H1) as [[e ->] ->]. by exists e, s.
Qed.

(** C14. A drain closes the door: once a drain has begun, whatever requests follow, as long
    as none aborts the drain, the service keeps draining, and every submission among them
    is refused with an error and leaves the service exactly as it was: no task is queued,
    no id is reserved. *)
Theorem drain_refuses_submissions cancel methods s answers :
  DaemonAbortDrain ∉ methods → serve (DaemonBeginDrain cancel :: methods) s = Returns answers →
  ∃ begun later, answers = begun :: later
    ∧ Forall (λ x, drains x.2) answers
    ∧ ∀ i input, methods !! i = Some (SubmitGeneral input) →
        ∃ e x, later !! i = Some (Err e, x) ∧ answers.*2 !! i = Some x.
Proof.
  intros Hm. cbn [serve]. destruct (serve_one (DaemonBeginDrain cancel) s) as [[r s1]|] eqn:H1; cbn [mbind outcome_bind]; [|done].
  destruct (serve methods s1) as [l|] eqn:H2; cbn [mbind outcome_bind]; [|done]. intros [= <-].
  assert (Hs1 : drains s1).
  { cbn [dispatch] in H1. unfold daemon_begin_drain in H1. revert H1. unfold mbind at 1, handler_bind at 1. unfold changing.
    apply (maintains_bind drains); [|intros ?; keep|done]. destruct cancel; keep. }
  destruct (serve_drained methods s1 l Hm Hs1 H2) as [Hall Hsub]. exists (r, s1), l. split; [done|]. split; [by constructor|done].
Qed.
End service.

(** ** A concrete service *)

Module ServiceDemo.
Import MessageDemo.
Definition evidence (input : AgentProbeInput) : AgentProbeEvidence :=
  let e := unknown_evidence (pi_scope input) 0 "not_probed" in mk_probe_evidence (pi_agent input) 0 e e e.
Definition catalog (input : AgentModelsInput) : AgentModelsOutput :=
  mk_models (mi_agent input) 0 false [] (mk_catalog_evidence "none" None (mi_scope input) 0) None.
Definition host : Host :=
  mk_host (Ok sample_config) None (Ok "wal") evidence catalog (λ _, Some true) 0 (λ _, None) "0".
Definition service : Service unit := mk_service (world empty_db) drain_new (mk_evidence_store ∅ ∅) host.
Definition no_json (s : string) : result string Value := Err "no JSON".
Definition submission (agent : option string) : GeneralSubmitInput :=
  mk_submit None agent (_ ← agent; Some "p/m") None (Some "be brief") (sample_manifest None).
#[global] Instance daemon : Daemon (Service unit) :=
  service_daemon (λ _, "") no_json (λ _, None) (λ _, "") (λ _, "") (λ _, "") config "owner" (λ _ w, (true, w)) (λ w, w)
    (Tree.fs Tree.sample) Submission.create_scratch (λ _, "") (λ _, "") (λ t w, (Ok t, w))
    (λ _ _ _ w, Returns (Err wait_interrupted, w)) (λ _ _ w, Returns (Err wait_interrupted, w)).
Definition prepare : GeneralSubmitInput → Handler (Service unit) (GeneralTaskManifest * AdmissionIdentity) :=
  prepare_submission no_json (λ _, "") (λ m, map_to_list m) (λ _, true) false "1.0.0" (λ _, "[]").
Definition prepared (agent : option string) : outcome (result RpcError (string * option string)) :=
  '(r, _) ← prepare (submission agent) service;
  Returns (x ← r; Ok (prompt x.1, developer_instructions x.2)).
End ServiceDemo.

Example native_instructions : ServiceDemo.prepared None = Returns (Ok ("fix the build", Some "be brief")).
Proof. vm_compute. reflexivity. Qed.

Example spliced_instructions :
  ServiceDemo.prepared (Some "zcode") = Returns (Ok (splice_instructions "be brief" "fix the build", None)).
Proof. vm_compute. reflexivity. Qed.

Lemma instructions_delivered_once_witness :
  let input := ServiceDemo.submission None in
  ∃ m id, ServiceDemo.prepare input ServiceDemo.service = Returns (Ok (m, id), ServiceDemo.service)
    ∧ delivered (Some "be brief") "fix the build" m id.
Proof.
  intros input. destruct (ServiceDemo.prepare input ServiceDemo.service) as [[[[m id]|e] s']|] eqn:H;
    [|by vm_compute in H..].
  destruct (instructions_delivered_once ServiceDemo.no_json (λ _, "") (λ m, map_to_list m) (λ _, true) false "1.0.0" (λ _, "[]")
              input ServiceDemo.service m id s' H) as (-> & profile & Hp & _ & _ & Hd & _).
  exists m, id. split; [done|]. hnf in Hp. subst profile. exact Hd.
Defined.

Lemma drain_refuses_submissions_witness :
  let requests := [DaemonDrainStatus; SubmitGeneral (ServiceDemo.submission None)] in
  ∃ (answers : list (result RpcError RpcSuccess * Service unit)) begun later, answers = begun :: later ∧ length later = 2
    ∧ ∃ e x, later !! 1 = Some (Err e, x) ∧ answers.*2 !! 1 = Some x.
Proof.
  intros requests.
  destruct (serve (λ _, "") ServiceDemo.no_json (λ _, "") (λ m, map_to_list m) (λ _, true) false "1.0.0" (λ _, None) (λ _, None)
    (λ _, None) (λ _, "") (λ _, "") (λ _, "") MessageDemo.config "owner" (λ _ w, (true, w)) (λ w, w) (Tree.fs Tree.sample)
    Submission.create_scratch (λ _, "") (λ _, "") (λ t w, (Ok t, w)) (λ _ _ _ w, Returns (Err wait_interrupted, w))
    (λ _ _ w, Returns (Err wait_interrupted, w)) (DaemonBeginDrain true :: requests) ServiceDemo.service) as [answers|] eqn:H;
    [|by vm_compute in H].
  assert (Hlen : length answers = 3) by (apply (f_equal (λ o, match o with Returns l => length l | Panics => 0 end)) in H; by vm_compute in H).
  assert (Hno : DaemonAbortDrain ∉ requests) by (unfold requests; set_solver).
  destruct (drain_refuses_submissions _ _ _ _ _ _ _ _ _ _ _ _ _ _ _ _ _ _ _ _ _ _ _ _ _ _ _ _ Hno H)
    as (begun & later & -> & _ & Hsub).
  exists (begun :: later), begun, later. split; [done|]. split; [simpl in Hlen; lia|]. by eapply Hsub.
Defined.

(** A client that only ever asks for the drain status. *)
Module FrameDemo.
Definition document : Value := VObject [("method", VString "daemon_drain_status"); ("request_id", VString "7")].
Definition from_slice (frame : string) : option Value := if frame ≟ "status" then Some document else None.
Definition decode_request (v : Value) : option RpcRequest := id ← get_str v "request_id"; Some (mk_request id DaemonDrainStatus).
Lemma decode_id v r : decode_request v = Some r → get_str v "request_id" = Some (rq_id r).
Proof. unfold decode_request. destruct (get_str v "request_id"); [|done]. by intros [= <-]. Qed.
Definition handle : string → Service unit → outcome (RpcResponse * Service unit) :=
  handle_bytes ServiceDemo.no_json (λ _, "") (λ m, map_to_list m) (λ _, true) false "1.0.0" (λ _, "[]") (λ _, None) (λ _, None)
    (λ _, None) (fs := Tree.fs Tree.sample) from_slice decode_request.
End FrameDemo.

Lemma frame_answered_witness :
  ∃ response, FrameDemo.handle "status" ServiceDemo.service = Returns (response, ServiceDemo.service)
    ∧ rp_request response = Some "7".
Proof.
  destruct (FrameDemo.handle "status" ServiceDemo.service) as [[response s']|] eqn:H; [|by vm_compute in H].
  assert (s' = ServiceDemo.service) as -> by (vm_compute in H; by injection H as _ <-).
  destruct (frame_answered ServiceDemo.no_json (λ _, "") (λ m, map_to_list m) (λ _, true) false "1.0.0" (λ _, "[]") (λ _, None)
              (λ _, None) (λ _, None) (fs := Tree.fs Tree.sample) FrameDemo.from_slice FrameDemo.decode_request FrameDemo.decode_id
              "status" ServiceDemo.service response ServiceDemo.service H) as [Hid _].
  exists response. split; [done|]. rewrite (Hid FrameDemo.document); [vm_compute; reflexivity|].
  split; [by apply Nat.ltb_lt; vm_compute|vm_compute; reflexivity].
Defined.
