(* ===== verification/Reaper.v ===== *)
(** * Stopping and reaping a process group

    [crates/external-runtime/src/lib.rs]: the checks before a process group is signalled,
    the polls that wait for its death, the three ways a group is reaped (a child of the
    daemon, a detached runtime, a group known from the store), and the gate that lets one
    thread perform a stop while the others wait for its outcome.

    The operating system answers from what was asked so far: every call is recorded in a
    trace, and the answers are functions of it.  A poll is bounded by the number of rounds
    that fit before its deadline. *)

From S2P Require Import Prelude RustStr RuntimeEvents RuntimeOwner.

(** ** Errors and traces *)

Inductive IoErrorKind := KInvalidInput | KPermissionDenied | KNotFound | KWouldBlock | KTimedOut | KInvalidData | KOther.

#[global] Instance IoErrorKind_eq_dec : EqDecision IoErrorKind.
Proof. solve_decision. Defined.

Definition IoError : Type := IoErrorKind * string.
Definition io_other {A} (message : string) : result IoError A := Err (KOther, message).

Inductive OsEvent :=
| Looked (pid : Z) (answer : result IoError ProcessIdentity)
| Members (pgid : Z) (answer : result IoError (list ProcessIdentity))
| Signalled (target signal : Z)
| Polled (answer : result IoError (option ChildExit)).

Definition Trace : Type := list OsEvent.

(** A program over the operating system. *)
Definition Os (A : Type) : Type := Trace → result IoError A * Trace.

#[global] Instance os_ret : MRet Os := λ A a t, (Ok a, t).
#[global] Instance os_bind : MBind Os := λ A B f m t,
  match m t with (Ok a, t) => f a t | (Err e, t) => (Err e, t) end.

Definition os_lift {A} (r : result IoError A) : Os A := λ t, (r, t).
Definition os_fail {A} (e : IoError) : Os A := λ t, (Err e, t).
(** The outcome of a program, as a value. *)
Definition os_try {A} (m : Os A) : Os (result IoError A) := λ t, let '(r, t) := m t in (Ok r, t).

(** ** Checks *)

Definition TERM_SIGNAL : Z := 15.
Definition KILL_SIGNAL : Z := 9.
Definition MEMBER_OBSERVATION_RETRIES : nat := 4.
Definition i32_max : Z := 2147483647.
Definition i32_min : Z := -2147483648.

Definition validate_group_target (g : Z) : result IoError Z :=
  if Z.leb g 1 || Z.eqb g i32_min then Err (KInvalidInput, "process-group id is not signal-safe") else Ok (- g)%Z.

Definition validate_spawn_identity (child_pid : Z) (i : ProcessIdentity) : result IoError unit :=
  if negb (Z.eqb (pid i) child_pid) || Z.leb (pid i) 1 || Z.leb (pgid i) 1 || negb (Z.eqb (pgid i) (as_i32 child_pid))
     || str_is_empty (start_token i)
  then io_other "spawned child identity is incomplete or not group-isolated" else Ok tt.

Definition validate_same_identity (expected observed : ProcessIdentity) : result IoError unit :=
  if negb (bool_decide (expected = observed)) then io_other "process identity changed; refusing to signal"
  else _ ← validate_group_target (pgid expected); Ok tt.

Definition member_ok (leader m : ProcessIdentity) : bool :=
  negb (Z.leb (pid m) 1) && Z.eqb (pgid m) (pgid leader) && Z.eqb (uid m) (uid leader) && negb (str_is_empty (start_token m)).

Definition validate_live_group_after_term (leader : ProcessIdentity) (members : list ProcessIdentity) : result IoError unit :=
  _ ← validate_group_target (pgid leader);
  if forallb (member_ok leader) members then Ok tt
  else io_other "process-group membership is ambiguous; refusing to signal".

Definition validate_owned_group (leader : ProcessIdentity) (members : list ProcessIdentity) : result IoError unit :=
  if negb (existsb (λ m, bool_decide (m = leader)) members)
  then io_other "owned process-group membership does not contain the leader"
  else validate_live_group_after_term leader members.

(** What [kill] answers. *)
Inductive KillAnswer := KillDone | KillNoSuchProcess | KillFailed (e : IoError).

Section os.
Context (platform_process : Trace → Z → result IoError ProcessIdentity)
  (platform_group : Trace → Z → result IoError (list ProcessIdentity))
  (kill : Trace → Z → Z → KillAnswer) (try_wait : Trace → result IoError (option ChildExit)).

(** ** Observations *)

Definition observe_process (p : Z) : Os ProcessIdentity := λ t,
  if Z.leb p 1 || Z.ltb i32_max p then (Err (KInvalidInput, "process id is not signal-safe"), t)
  else let r := platform_process t p in (r, t ++ [Looked p r]).

Definition group_once (g : Z) : Os (list ProcessIdentity) := λ t,
  let r := platform_group t g in (r, t ++ [Members g r]).

Fixpoint observe_retry (rounds : nat) (last : option IoError) (g : Z) : Os (list ProcessIdentity) :=
  match rounds with
  | 0 => os_fail (default (KOther, "process-group observation failed") last)
  | S rounds =>
      r ← os_try (group_once g);
      match r with
      | Ok members => mret members
      | Err (KWouldBlock, m) => observe_retry rounds (Some (KWouldBlock, m)) g
      | Err e => os_fail e
      end
  end.

Definition observe_process_group (g : Z) : Os (list ProcessIdentity) :=
  _ ← os_lift (validate_group_target g);
  observe_retry MEMBER_OBSERVATION_RETRIES None g.

Definition child_try_wait : Os (option ChildExit) := λ t, let r := try_wait t in (r, t ++ [Polled r]).

Definition kill_call (target signal : Z) : Os unit := λ t,
  (match kill t target signal with KillDone | KillNoSuchProcess => Ok tt | KillFailed e => Err e end,
   t ++ [Signalled target signal]).

Definition signal_group (g signal : Z) : Os unit :=
  target ← os_lift (validate_group_target g); kill_call target signal.

(** [error.kind() == WouldBlock] passes over an observation. *)
Definition would_block (e : IoError) : bool := bool_decide (e.1 = KWouldBlock).

(** ** Polls *)

Fixpoint death_poll (rounds : nat) (exit : option ChildExit) (g : Z) : Os (option ChildExit) :=
  exit ← match exit with Some e => mret (Some e) | None => child_try_wait end;
  r ← os_try (observe_process_group g);
  let again := match rounds with 0 => mret None | S rounds => death_poll rounds exit g end in
  match r with
  | Ok members =>
      if bool_decide (members = []) then match exit with Some e => mret (Some e) | None => again end else again
  | Err e => if would_block e then again else os_fail e
  end.

Definition wait_for_group_death (rounds : nat) (g : Z) : Os (option ChildExit) := death_poll rounds None g.

Fixpoint wait_for_persisted_group_death (rounds : nat) (g : Z) : Os bool :=
  r ← os_try (observe_process_group g);
  let again := match rounds with 0 => mret false | S rounds => wait_for_persisted_group_death rounds g end in
  match r with
  | Ok members => if bool_decide (members = []) then mret true else again
  | Err e => if would_block e then again else os_fail e
  end.

Fixpoint ensure_group_empty (rounds : nat) (g : Z) : Os unit :=
  r ← os_try (observe_process_group g);
  match r with
  | Ok members =>
      if bool_decide (members = []) then mret tt
      else os_fail (KOther, "process leader exited while descendants remain; refusing unproven cleanup")
  | Err e =>
      match rounds with
      | S rounds => if would_block e then ensure_group_empty rounds g else os_fail e
      | 0 => os_fail e
      end
  end.

(** ** Reaping *)

(** The check before the first signal, and the escalation: the group is observed again
    before it is killed. *)
Definition check_owned (i : ProcessIdentity) : Os unit :=
  members ← observe_process_group (pgid i); os_lift (validate_owned_group i members).
Definition check_live (i : ProcessIdentity) : Os unit :=
  members ← observe_process_group (pgid i); os_lift (validate_live_group_after_term i members).

Definition already_exited (rounds : nat) (i : ProcessIdentity) (exit : ChildExit) : Os StopOutcome :=
  _ ← ensure_group_empty rounds (pgid i); mret (AlreadyExited exit).

Definition not_found {A} (r : result IoError A) : bool :=
  match r with Err (KNotFound, _) => true | _ => false end.

(** A leader that is gone before it could be observed. *)
Definition leader_missing (rounds : nat) (i : ProcessIdentity) (error : IoError) : Os StopOutcome :=
  status ← child_try_wait;
  match status with
  | Some exit => already_exited rounds i exit
  | None =>
      dead ← wait_for_group_death rounds (pgid i);
      match dead with Some exit => mret (AlreadyExited exit) | None => os_fail error end
  end.

Definition survived : IoError := (KTimedOut, "process group survived SIGKILL").

(** [perform_stop] of a child, given its pid; [None] when the handle is lost. *)
Definition stop_attached (rounds : nat) (child : option Z) (i : ProcessIdentity) : Os StopOutcome :=
  match child with
  | None => os_fail (KOther, "Driver lost its owned Child handle")
  | Some child_pid =>
      status ← child_try_wait;
      match status with
      | Some exit => already_exited rounds i exit
      | None =>
          _ ← os_lift (validate_spawn_identity child_pid i);
          observed ← os_try (observe_process child_pid);
          match observed with
          | Err error => if not_found observed then leader_missing rounds i error else os_fail error
          | Ok found =>
              _ ← os_lift (validate_same_identity i found);
              _ ← check_owned i;
              _ ← signal_group (pgid i) TERM_SIGNAL;
              dead ← wait_for_group_death rounds (pgid i);
              match dead with
              | Some exit => mret (Terminated exit)
              | None =>
                  _ ← check_live i;
                  _ ← signal_group (pgid i) KILL_SIGNAL;
                  dead ← wait_for_group_death rounds (pgid i);
                  match dead with Some exit => mret (Terminated exit) | None => os_fail survived end
              end
          end
      end
  end.

(** The signals of a group whose exit is not the caller's to wait for. *)
Definition escalate (rounds : nat) (i : ProcessIdentity) (error : IoError) : Os unit :=
  _ ← signal_group (pgid i) TERM_SIGNAL;
  dead ← wait_for_persisted_group_death rounds (pgid i);
  if dead : bool then mret tt
  else
    _ ← check_live i;
    _ ← signal_group (pgid i) KILL_SIGNAL;
    dead ← wait_for_persisted_group_death rounds (pgid i);
    if dead : bool then mret tt else os_fail error.

(** [perform_detached_stop]; [latched] is the exit the monitor published, in time. *)
Definition stop_detached (rounds : nat) (latched : option ChildExit) (i : ProcessIdentity) : Os StopOutcome :=
  let exit := default ExitUnknown latched in
  _ ← os_lift (validate_spawn_identity (pid i) i);
  observed ← os_try (observe_process (pid i));
  match observed with
  | Err error =>
      if not_found observed then _ ← ensure_group_empty rounds (pgid i); mret (AlreadyExited exit) else os_fail error
  | Ok found =>
      _ ← os_lift (validate_same_identity i found);
      _ ← check_owned i;
      _ ← escalate rounds i survived;
      mret (Terminated exit)
  end.

(** [stop_and_reap_persisted_process_group]. *)
Definition stop_persisted (rounds : nat) (i : ProcessIdentity) : Os unit :=
  _ ← os_lift (validate_spawn_identity (pid i) i);
  observed ← os_try (observe_process (pid i));
  let reap := escalate rounds i (KTimedOut, "persisted process group survived SIGKILL") in
  match observed with
  | Ok found =>
      _ ← os_lift (validate_same_identity i found);
      _ ← check_owned i;
      reap
  | Err error =>
      if not_found observed then
        members ← observe_process_group (pgid i);
        if bool_decide (members = []) then mret tt
        else _ ← os_lift (validate_live_group_after_term i members); reap
      else os_fail error
  end.
End os.

(** ** The gate of a stop *)

Inductive StopState :=
| StopRunning (generation : Z)
| StopStopping (generation waiters : Z)
| StopStopped (outcome : StopOutcome)
| StopFailure (generation : Z) (failure : IoError) (waiters : Z).

(** A caller of [stop_and_reap]: it performs the stop, waits for the one under way, waits
    for the waiters of a failed one to leave, or has its answer. *)
Inductive StopThread :=
| Performs (generation : Z)
| Awaits (generation : Z)
| Blocked
| Answered (answer : result IoError StopOutcome).

(** One round of [begin_stop]'s outer loop. *)
Definition begin_stop (st : StopState) : StopState * StopThread :=
  match st with
  | StopStopped o => (st, Answered (Ok o))
  | StopRunning g => (StopStopping (saturating_add g 1) 0, Performs (saturating_add g 1))
  | StopFailure g _ n =>
      if Z.eqb n 0 then (StopStopping (saturating_add g 1) 0, Performs (saturating_add g 1)) else (st, Blocked)
  | StopStopping g n => (StopStopping g (saturating_add n 1), Awaits g)
  end.

(** A wake-up of the inner loop; a state of another generation goes back to the outer
    one. *)
Definition wake_waiter (g : Z) (st : StopState) : StopState * StopThread :=
  match st with
  | StopStopped o => (st, Answered (Ok o))
  | StopFailure g' f n =>
      if Z.eqb g' g then (StopFailure g' f (saturating_sub n 1), Answered (Err f)) else begin_stop st
  | StopStopping g' _ => if Z.eqb g' g then (st, Awaits g) else begin_stop st
  | StopRunning _ => begin_stop st
  end.

Definition finish_stop (g : Z) (r : result IoError StopOutcome) (st : StopState) : StopState :=
  let waiters := match st with StopStopping g' n => if Z.eqb g' g then n else 0%Z | _ => 0%Z end in
  match r with Ok o => StopStopped o | Err f => StopFailure g f waiters end.

(** The gate with its callers, in the order they came, and the performances so far. *)
Record Gate := mk_gate {
  gt_state : StopState; gt_threads : list StopThread; gt_log : list (Z * result IoError StopOutcome) }.

Definition gate_new : Gate := mk_gate (StopRunning 0) [] [].

Definition gate_put (i : nat) (r : StopState * StopThread) (G : Gate) : Gate :=
  mk_gate r.1 (<[i := r.2]> (gt_threads G)) (gt_log G).

Inductive gate_step : Gate → Gate → Prop :=
| gate_arrives G :
    gate_step G (mk_gate (begin_stop (gt_state G)).1 (gt_threads G ++ [(begin_stop (gt_state G)).2]) (gt_log G))
| gate_unblocks G i :
    gt_threads G !! i = Some Blocked → gate_step G (gate_put i (begin_stop (gt_state G)) G)
| gate_wakes G i g :
    gt_threads G !! i = Some (Awaits g) → gate_step G (gate_put i (wake_waiter g (gt_state G)) G)
| gate_finishes G i g r :
    gt_threads G !! i = Some (Performs g) →
    gate_step G (mk_gate (finish_stop g r (gt_state G)) (<[i := Answered r]> (gt_threads G)) (gt_log G ++ [(g, r)])).
