(* ===== verification/Agy.v ===== *)
(** * The protocol of agy

    [crates/subagents/agy/src]: the events of its output stream ([event.rs]), the tool
    activity derived from them ([activity.rs]), the classifier of a turn ([session.rs])
    and the command line of a launch with its output parsers ([launch.rs]).

    The decoders serde derives for the payloads are written out: a struct is read from an
    object by name or from an array by place, unknown fields are ignored, a field with a
    default may be missing, an optional field of an object too.  A duration is a number
    that no code reads; it is decoded and kept.  [serde_json::from_str] is a parameter. *)

From stdpp Require Import pretty.
From S2P Require Import Prelude RustStr Utf8 Json Activity RpcProfiles.

(** ** Events ([event.rs]) *)

Inductive StepState := StepActive | StepDone | StepStateOther (raw : string).

Inductive StepType := UserInput | AgentResponse | ToolStep | SystemMessage | Checkpoint | StepTypeOther (raw : string).

Inductive ResultStatus :=
| Success | StatusError | Canceled | Interrupted | Invalid | Waiting | StatusRunning | StatusOther (raw : string).

#[global] Instance StepState_eq_dec : EqDecision StepState.
Proof. solve_decision. Defined.
#[global] Instance StepType_eq_dec : EqDecision StepType.
Proof. solve_decision. Defined.
#[global] Instance ResultStatus_eq_dec : EqDecision ResultStatus.
Proof. solve_decision. Defined.

Definition step_state (raw : string) : StepState :=
  if raw ≟ "ACTIVE" then StepActive else if raw ≟ "DONE" then StepDone else StepStateOther raw.

Definition step_type (raw : string) : StepType :=
  if raw ≟ "user_input" then UserInput else if raw ≟ "agent_response" then AgentResponse
  else if raw ≟ "tool" then ToolStep else if raw ≟ "system_message" then SystemMessage
  else if raw ≟ "checkpoint" then Checkpoint else StepTypeOther raw.

Definition step_type_str (t : StepType) : string :=
  match t with
  | UserInput => "user_input" | AgentResponse => "agent_response" | ToolStep => "tool"
  | SystemMessage => "system_message" | Checkpoint => "checkpoint" | StepTypeOther name => name
  end.

Definition result_status (raw : string) : ResultStatus :=
  if raw ≟ "SUCCESS" then Success else if raw ≟ "ERROR" then StatusError else if raw ≟ "CANCELED" then Canceled
  else if raw ≟ "INTERRUPTED" then Interrupted else if raw ≟ "INVALID" then Invalid
  else if raw ≟ "WAITING" then Waiting else if raw ≟ "RUNNING" then StatusRunning else StatusOther raw.

Definition status_str (s : ResultStatus) : string :=
  match s with
  | Success => "SUCCESS" | StatusError => "ERROR" | Canceled => "CANCELED" | Interrupted => "INTERRUPTED"
  | Invalid => "INVALID" | Waiting => "WAITING" | StatusRunning => "RUNNING" | StatusOther status => status
  end.

Record Usage := mk_usage {
  input_tokens : Z; output_tokens : Z; thinking_tokens : Z; cache_read_tokens : Z; total_tokens : Z }.

Record ToolInfo := mk_tool_info { ti_name : option string; ti_parameters : option Value; ti_output : option Value }.

Record DeniedAction := mk_denied { da_action : string; da_display_name : string }.

Record InitInfo := mk_init { in_cwd : option string; in_tools : list string; in_permission_mode : option string }.

Record StepUpdate := mk_step {
  su_conversation : string; su_index : Z; su_state : StepState; su_type : StepType; su_text_delta : option string;
  su_tool_name : option string; su_tool_info : option ToolInfo; su_duration : option Number; su_usage : option Usage }.

Record ResultPayload := mk_result_payload {
  rp_conversation : string; rp_status : ResultStatus; rp_response : string; rp_error : option string;
  rp_denied : list DeniedAction; rp_structured : option Value; rp_schema : option Value;
  rp_duration : option Number; rp_num_turns : Z; rp_usage : option Usage }.

Inductive AgyEvent :=
| EvInit (conversation : string) (init : InitInfo)
| EvStep (step : StepUpdate)
| EvResult (result : ResultPayload)
| EvUnknown (event : option string) (raw : Value).

(** [AgyEvent::conversation_id]. *)
Definition event_conversation (e : AgyEvent) : option string :=
  let named id := if str_is_empty id then None else Some id in
  match e with
  | EvInit id _ => named id
  | EvStep step => named (su_conversation step)
  | EvResult r => named (rp_conversation r)
  | EvUnknown _ _ => None
  end.

(** *** Derived decoders *)

Definition u64_value (v : Value) : option Z := as_u64 v.
Definition f64_value (v : Value) : option Number := match v with VNumber n => Some n | _ => None end.

Fixpoint decode_all {A} (f : Value → option A) (l : list Value) : option (list A) :=
  match l with
  | [] => Some []
  | v :: l => a ← f v; rest ← decode_all f l; Some (a :: rest)
  end.

Definition vec_value {A} (f : Value → option A) (v : Value) : option (list A) := as_array v ≫= decode_all f.

(** The document of a struct, and the ways a field is read from it. *)
Inductive Document := ByName (fields : Fields) | ByPlace (items : list Value).

Definition document (size : nat) (v : Value) : option Document :=
  match v with
  | VObject fields => Some (ByName fields)
  | VArray items => if Nat.leb (length items) size then Some (ByPlace items) else None
  | _ => None
  end.

Definition item (d : Document) (place : nat) (name : string) : option Value :=
  match d with ByName fields => field_lookup name fields | ByPlace items => items !! place end.

Definition required {A} (f : Value → option A) (d : Document) (place : nat) (name : string) : option A :=
  item d place name ≫= f.

Definition defaulted {A} (f : Value → option A) (a : A) (d : Document) (place : nat) (name : string) : option A :=
  match item d place name with Some v => f v | None => Some a end.

(** A missing optional field is [None] in an object, an error in an array. *)
Definition optional {A} (f : Value → option A) (d : Document) (place : nat) (name : string) : option (option A) :=
  match item d place name with
  | Some VNull => Some None
  | Some v => a ← f v; Some (Some a)
  | None => match d with ByName _ => Some None | ByPlace _ => None end
  end.

Definition decode_usage (v : Value) : option Usage :=
  d ← document 5 v;
  a ← defaulted u64_value 0%Z d 0 "input_tokens";
  b ← defaulted u64_value 0%Z d 1 "output_tokens";
  c ← defaulted u64_value 0%Z d 2 "thinking_tokens";
  e ← defaulted u64_value 0%Z d 3 "cache_read_tokens";
  f ← defaulted u64_value 0%Z d 4 "total_tokens";
  Some (mk_usage a b c e f).

Definition decode_tool_info (v : Value) : option ToolInfo :=
  d ← document 3 v;
  name ← optional as_str d 0 "name";
  parameters ← optional Some d 1 "parameters";
  output ← optional Some d 2 "output";
  Some (mk_tool_info name parameters output).

Definition decode_denied (v : Value) : option DeniedAction :=
  d ← document 2 v;
  action ← defaulted as_str "" d 0 "action";
  display ← defaulted as_str "" d 1 "display_name";
  Some (mk_denied action display).

Definition decode_init (v : Value) : option InitInfo :=
  d ← document 3 v;
  cwd ← optional as_str d 0 "cwd";
  tools ← defaulted (vec_value as_str) [] d 1 "tools";
  mode ← optional as_str d 2 "permission_mode";
  Some (mk_init cwd tools mode).

Definition decode_step (v : Value) : option StepUpdate :=
  d ← document 9 v;
  conversation ← defaulted as_str "" d 0 "conversation_id";
  index ← required u64_value d 1 "step_index";
  state ← required (λ v, s ← as_str v; Some (step_state s)) d 2 "state";
  kind ← required (λ v, s ← as_str v; Some (step_type s)) d 3 "step_type";
  delta ← optional as_str d 4 "text_delta";
  tool ← optional as_str d 5 "tool_name";
  info ← optional decode_tool_info d 6 "tool_info";
  duration ← optional f64_value d 7 "duration_seconds";
  usage ← optional decode_usage d 8 "usage";
  Some (mk_step conversation index state kind delta tool info duration usage).

Definition decode_result (v : Value) : option ResultPayload :=
  d ← document 10 v;
  conversation ← defaulted as_str "" d 0 "conversation_id";
  status ← required (λ v, s ← as_str v; Some (result_status s)) d 1 "status";
  response ← defaulted as_str "" d 2 "response";
  error ← optional as_str d 3 "error";
  denied ← defaulted (vec_value decode_denied) [] d 4 "denied_actions";
  structured ← optional Some d 5 "structured_output";
  schema ← optional Some d 6 "json_schema";
  duration ← optional f64_value d 7 "duration_seconds";
  turns ← defaulted u64_value 0%Z d 8 "num_turns";
  usage ← optional decode_usage d 9 "usage";
  Some (mk_result_payload conversation status response error denied structured schema duration turns usage).

(** *** The line parser *)

Definition fallback_conversation_id (conversation : string) (raw : Value) : string :=
  if str_is_empty conversation then default conversation (get_str raw "conversation_id") else conversation.

Definition name_step (id : string) (s : StepUpdate) : StepUpdate :=
  mk_step id (su_index s) (su_state s) (su_type s) (su_text_delta s) (su_tool_name s) (su_tool_info s) (su_duration s)
    (su_usage s).
Definition name_result (id : string) (r : ResultPayload) : ResultPayload :=
  mk_result_payload id (rp_status r) (rp_response r) (rp_error r) (rp_denied r) (rp_structured r) (rp_schema r)
    (rp_duration r) (rp_num_turns r) (rp_usage r).

(** The event of a JSON document; [None] for a malformed payload. *)
Definition parse_event (raw : Value) : option AgyEvent :=
  match get_str raw "event" with
  | None => Some (EvUnknown None raw)
  | Some event =>
      if event ≟ "init" then
        init ← decode_init (get_or_null raw "init");
        Some (EvInit (default "" (get_str raw "conversation_id")) init)
      else if event ≟ "step_update" then
        step ← decode_step (get_or_null raw "step_update");
        Some (EvStep (name_step (fallback_conversation_id (su_conversation step) raw) step))
      else if event ≟ "result" then
        r ← decode_result (get_or_null raw "result");
        Some (EvResult (name_result (fallback_conversation_id (rp_conversation r) raw) r))
      else Some (EvUnknown (Some event) raw)
  end.

Definition parse_line (from_str : string → result string Value) (line : string) : option AgyEvent :=
  match from_str line with Ok raw => parse_event raw | Err _ => None end.

(** ** Tool activity ([activity.rs]) *)

Inductive ToolPhase := PhaseStarted | PhaseResult.

Record ToolActivity := mk_tool_activity {
  ta_conversation : string; ta_index : Z; ta_tool : option string; ta_phase : ToolPhase }.

Definition tool_call_id (a : ToolActivity) : string := ta_conversation a +:+ ":" +:+ pretty (ta_index a).

Definition tool_canonical_event (event_id turn_id : string) (a : ToolActivity) : Value :=
  match ta_phase a with
  | PhaseStarted => tool_started_event event_id turn_id (tool_call_id a) (ta_tool a)
  | PhaseResult => tool_result_event event_id turn_id (tool_call_id a)
  end.

Definition tool_phase (s : StepState) : option ToolPhase :=
  match s with StepActive => Some PhaseStarted | StepDone => Some PhaseResult | StepStateOther _ => None end.

Definition tool_activity (e : AgyEvent) : option ToolActivity :=
  match e with
  | EvStep step =>
      if bool_decide (su_type step = ToolStep) then
        phase ← tool_phase (su_state step);
        let name := match su_tool_info step ≫= ti_name with Some n => Some n | None => su_tool_name step end in
        Some (mk_tool_activity (su_conversation step) (su_index step) name phase)
      else None
  | _ => None
  end.

Definition canonical_activity (e : AgyEvent) (event_id turn_id : string) : option Value :=
  tool_canonical_event event_id turn_id <$> tool_activity e.

(** ** The classifier of a turn ([session.rs]) *)

Definition INTERRUPTED_ERROR : string := "interrupted".

Inductive TurnOutcome :=
| TurnCompleted (text : string)
| TurnCancelled (text error : string)
| TurnFailed (error : string).

Record TurnSettlement := mk_settlement {
  ts_conversation : string; ts_status : ResultStatus; ts_num_turns : Z; ts_outcome : TurnOutcome;
  ts_denied : list DeniedAction }.

Record TurnClassifier := mk_classifier {
  tc_conversation : option string; tc_last_step : option Z; tc_continuous : bool; tc_num_turns : Z;
  tc_settled : option TurnSettlement }.

Definition classifier_new : TurnClassifier := mk_classifier None None true 0 None.

Definition ended_with (s : ResultStatus) : string := "agy result ended with status " +:+ status_str s.

Definition failure_text (error : option string) (s : ResultStatus) : string :=
  let e := default "" error in if str_is_empty e then ended_with s else e.

Definition settled_outcome (r : ResultPayload) : TurnOutcome :=
  match rp_status r with
  | Success => TurnCompleted (rp_response r)
  | Interrupted | Canceled =>
      TurnCancelled (rp_response r) (default (to_ascii_lowercase (status_str (rp_status r))) (rp_error r))
  | StatusError =>
      if default "" (rp_error r) ≟ INTERRUPTED_ERROR then TurnCancelled (rp_response r) INTERRUPTED_ERROR
      else TurnFailed (failure_text (rp_error r) (rp_status r))
  | _ => TurnFailed (failure_text (rp_error r) (rp_status r))
  end.

Definition settle (r : ResultPayload) : TurnSettlement :=
  mk_settlement (rp_conversation r) (rp_status r) (rp_num_turns r) (settled_outcome r) (rp_denied r).

Definition note_conversation_id (id : string) (c : TurnClassifier) : TurnClassifier :=
  if str_is_empty id then c
  else mk_classifier (Some id) (tc_last_step c) (tc_continuous c) (tc_num_turns c) (tc_settled c).

(** [last + 1] on 64 bits: the release profile wraps. *)
Definition next_index (last : Z) : Z := ((last + 1) mod 2 ^ 64)%Z.

Definition note_step_index (index : Z) (c : TurnClassifier) : TurnClassifier :=
  let put last continuous := mk_classifier (tc_conversation c) last continuous (tc_num_turns c) (tc_settled c) in
  match tc_last_step c with
  | None => put (Some index) (tc_continuous c)
  | Some last =>
      if Z.eqb index last then c
      else if Z.eqb index (next_index last) then put (Some index) (tc_continuous c)
      else if Z.ltb last index then put (Some index) false
      else put (Some last) false
  end.

(** [TurnClassifier::observe]. *)
Definition classify (e : AgyEvent) (c : TurnClassifier) : option TurnSettlement * TurnClassifier :=
  match e with
  | EvInit id _ => (None, note_conversation_id id c)
  | EvStep step => (None, note_step_index (su_index step) (note_conversation_id (su_conversation step) c))
  | EvResult r =>
      let c := note_conversation_id (rp_conversation r) c in
      let s := settle r in
      (Some s, mk_classifier (tc_conversation c) (tc_last_step c) (tc_continuous c)
                 (Z.max (tc_num_turns c) (rp_num_turns r)) (Some s))
  | EvUnknown _ _ => (None, c)
  end.

(** ** The launch ([launch.rs]) *)

Definition BASE_ARGS : list string := ["--input-format"; "stream-json"; "--output-format"; "stream-json"].

Definition MAX_MODELS : nat := 256.

Inductive AgyPermissionMode := AgyBuild | AgyYolo.

Definition mode_args (m : AgyPermissionMode) : list string :=
  match m with AgyBuild => ["--mode"; "accept-edits"] | AgyYolo => ["--dangerously-skip-permissions"] end.

Inductive AgyEffort := EffortLow | EffortMedium | EffortHigh | EffortMax.

Definition effort_str (e : AgyEffort) : string :=
  match e with EffortLow => "low" | EffortMedium => "medium" | EffortHigh => "high" | EffortMax => "max" end.

Definition effort_parse (token : string) : option AgyEffort :=
  if token ≟ "low" then Some EffortLow else if token ≟ "medium" then Some EffortMedium
  else if token ≟ "high" then Some EffortHigh else if token ≟ "max" then Some EffortMax else None.

Record AgyLaunchOptions := mk_launch {
  lo_model : option string; lo_effort : option AgyEffort; lo_permission : option AgyPermissionMode;
  lo_conversation : option string }.

Definition flag (name : string) (value : option string) : list string :=
  match value with Some v => [name; v] | None => [] end.

Definition launch_args (o : AgyLaunchOptions) : list string :=
  BASE_ARGS ++ flag "--model" (lo_model o) ++ flag "--effort" (effort_str <$> lo_effort o)
    ++ match lo_permission o with Some m => mode_args m | None => [] end
    ++ flag "--conversation" (lo_conversation o).

Definition tab : ascii := byte_of 9.

(** [str::lines]: every piece a line feed ends, without the carriage return before the
    line feed, and what follows the last line feed unless it is empty. *)
Definition line_content (l : string) : string :=
  if ends_with l (String (byte_of 13) EmptyString) then str_take (String.length l - 1) l else l.

Definition str_lines (s : string) : list string :=
  let pieces := split_char (byte_of 10) s in
  (line_content <$> removelast pieces)
    ++ match last pieces with Some (String c rest) => [String c rest] | _ => [] end.

(** The loop of [parse_models] over the lines of the output. *)
Fixpoint collect_models (lines : list string) (models : list string) : list string :=
  match lines with
  | [] => models
  | line :: rest =>
      match split_once tab line with
      | None => collect_models rest models
      | Some (slug, _) =>
          let slug := trim slug in
          if str_is_empty slug || one_of slug models then collect_models rest models
          else if Nat.leb MAX_MODELS (length models) then models
          else collect_models rest (models ++ [slug])
      end
  end.

Definition parse_models (output : string) : list string := collect_models (str_lines output) [].

Definition parse_version (output : string) : string := trim output.
