(* ===== verification/AgyRuntime.v ===== *)
(** * An agy runtime in the daemon

    [crates/external-daemon/src/agy/]: the state a runtime shares between its pump and
    its owner ([events.rs]), the projection of an event, the classification of an exit
    ([transport.rs]) and the control plane ([owner.rs]).

    The pump projects one event at a time; the owner's calls are steps between events,
    each under the turn's lock where the code takes it.  Writing to the child, the
    process group and the clock are arguments. *)

From stdpp Require Import pretty.
From S2P Require Import Prelude RustStr Utf8 Json General Contract StoreRecords Observation RuntimeEvents Activity RuntimeOwner Codex Recovery RpcProfiles Reaper Agy.

(** ** Shared state *)

Inductive AgyStartState := StartPending | StartReady | StartFailed (reason : string).

Record AgyShared := mk_agy {
  ag_publisher : Publisher; ag_turns : TurnTracker; ag_session : option string; ag_start : AgyStartState;
  ag_classifier : TurnClassifier; ag_open : bool; ag_pending : Z; ag_sequence : Z; ag_stop_boundaries : Z;
  ag_diagnostics : string }.

Definition agy_new : AgyShared :=
  mk_agy publisher_new turns_new None StartPending classifier_new false 0 0 0 "".

Definition put_publisher (p : Publisher) (s : AgyShared) : AgyShared :=
  mk_agy p (ag_turns s) (ag_session s) (ag_start s) (ag_classifier s) (ag_open s) (ag_pending s) (ag_sequence s)
    (ag_stop_boundaries s) (ag_diagnostics s).
Definition put_turns (t : TurnTracker) (s : AgyShared) : AgyShared :=
  mk_agy (ag_publisher s) t (ag_session s) (ag_start s) (ag_classifier s) (ag_open s) (ag_pending s) (ag_sequence s)
    (ag_stop_boundaries s) (ag_diagnostics s).
Definition put_session (id : option string) (s : AgyShared) : AgyShared :=
  mk_agy (ag_publisher s) (ag_turns s) id (ag_start s) (ag_classifier s) (ag_open s) (ag_pending s) (ag_sequence s)
    (ag_stop_boundaries s) (ag_diagnostics s).
Definition put_start (st : AgyStartState) (s : AgyShared) : AgyShared :=
  mk_agy (ag_publisher s) (ag_turns s) (ag_session s) st (ag_classifier s) (ag_open s) (ag_pending s) (ag_sequence s)
    (ag_stop_boundaries s) (ag_diagnostics s).
Definition put_turn (c : TurnClassifier) (open : bool) (s : AgyShared) : AgyShared :=
  mk_agy (ag_publisher s) (ag_turns s) (ag_session s) (ag_start s) c open (ag_pending s) (ag_sequence s)
    (ag_stop_boundaries s) (ag_diagnostics s).
Definition put_pending (n : Z) (s : AgyShared) : AgyShared :=
  mk_agy (ag_publisher s) (ag_turns s) (ag_session s) (ag_start s) (ag_classifier s) (ag_open s) n (ag_sequence s)
    (ag_stop_boundaries s) (ag_diagnostics s).
Definition put_sequence (n : Z) (s : AgyShared) : AgyShared :=
  mk_agy (ag_publisher s) (ag_turns s) (ag_session s) (ag_start s) (ag_classifier s) (ag_open s) (ag_pending s) n
    (ag_stop_boundaries s) (ag_diagnostics s).
Definition put_diagnostics (t : string) (s : AgyShared) : AgyShared :=
  mk_agy (ag_publisher s) (ag_turns s) (ag_session s) (ag_start s) (ag_classifier s) (ag_open s) (ag_pending s)
    (ag_sequence s) (ag_stop_boundaries s) t.
Definition count_boundary (s : AgyShared) : AgyShared :=
  mk_agy (ag_publisher s) (ag_turns s) (ag_session s) (ag_start s) (ag_classifier s) (ag_open s) (ag_pending s)
    (ag_sequence s) ((ag_stop_boundaries s + 1) mod 2 ^ 64)%Z (ag_diagnostics s).

(** ** Emission ([events.rs]) *)

(** [fetch_add] wraps; the addition after it does too in the release profile. *)
Definition agy_next_sequence (s : AgyShared) : Z := ((ag_sequence s + 1) mod 2 ^ 64)%Z.

Definition next_event_id (s : AgyShared) : string * AgyShared :=
  ("agy-event-" +:+ pretty (agy_next_sequence s), put_sequence (agy_next_sequence s) s).

Definition agy_emit (e : Inbound) (s : AgyShared) : AgyShared := put_publisher (emit_driver e None (ag_publisher s)) s.

Definition agy_lifecycle (method : string) (s : AgyShared) : AgyShared :=
  let n := agy_next_sequence s in agy_emit (lifecycle_event n method) (put_sequence n s).

Definition agy_observe (now : Z) (e : Inbound) (s : AgyShared) : AgyShared := put_turns (turns_observe now e (ag_turns s)) s.

(** The tracker first, then the sink. *)
Definition emit_and_observe (now : Z) (params : Value) (s : AgyShared) : AgyShared :=
  agy_emit (canonical_event params) (agy_observe now (canonical_event params) s).

(** The sink first, then the tracker. *)
Definition agy_boundary (now : Z) (params : Value) (lifecycle : string) (s : AgyShared) : AgyShared :=
  agy_lifecycle lifecycle (agy_observe now (canonical_event params) (agy_emit (canonical_event params) s)).

Definition note_session (id : string) (s : AgyShared) : AgyShared :=
  if str_is_empty id then s else put_session (Some id) s.

Definition effective_turn_id (s : AgyShared) : string :=
  match ag_session s with Some id => if str_is_empty id then "agy-session" else id | None => "agy-session" end.

Definition streaming_payload (delta : string) (s : AgyShared) : Value * AgyShared :=
  let '(id, s) := next_event_id s in
  (turn_payload "model.streaming" id (effective_turn_id s)
     (Some [("assistantMessageId", VNull); ("delta", VString delta); ("kind", VString "text_delta")]), s).

Definition started_params : Value := VObject [("type", VString "turn.started")].

Definition emit_started (now : Z) (s : AgyShared) : AgyShared := agy_boundary now started_params "turn.started" s.

Definition begin_turn (now : Z) (s : AgyShared) : AgyShared :=
  emit_started now (put_turn (ag_classifier s) true s).

(** [buffer_input]: the count stands while the line is written; a failed write takes it
    back. *)
Definition buffer_input (written : result RuntimeCommandError unit) (s : AgyShared)
    : result RuntimeCommandError unit * AgyShared :=
  match written with
  | Ok _ => (Ok tt, put_pending ((ag_pending s + 1) mod 2 ^ 64)%Z s)
  | Err e => (Err e, s)
  end.

(** A pending input counts as an active turn. *)
Definition agy_turn_snapshot (s : AgyShared) : TurnSnapshot :=
  let t := turns_snapshot (ag_turns s) in
  mk_turn_snapshot (turn_generation t) (turn_active t || Z.ltb 0 (ag_pending s)) (turn_boundary t).

Definition begin_pending_turn (now : Z) (s : AgyShared) : AgyShared :=
  let s := begin_turn now s in put_pending (ag_pending s - 1)%Z s.

Definition mark_start_ready (s : AgyShared) : AgyShared :=
  match ag_start s with StartPending => put_start StartReady s | _ => s end.

(** ** Diagnostics *)

Definition MAX_DIAGNOSTIC_BYTES : nat := 16 * 1024.

Definition render_denied (d : DeniedAction) : string :=
  if str_is_empty (da_display_name d) then da_action d else da_action d +:+ " (" +:+ da_display_name d +:+ ")".

Definition record_denied_actions (denied : list DeniedAction) (s : AgyShared) : AgyShared :=
  match denied with
  | [] => s
  | _ =>
      let line := "agy denied_actions: " +:+ join_with ", " (render_denied <$> denied) in
      let tail := if str_is_empty (ag_diagnostics s) then line
                  else ag_diagnostics s +:+ String (byte_of 10) line in
      put_diagnostics (roll MAX_DIAGNOSTIC_BYTES tail) s
  end.

(** ** Projection *)

Definition failed_boundary (now : Z) (turn_id error : string) (s : AgyShared) : AgyShared :=
  let '(id, s) := next_event_id s in
  agy_boundary now (turn_payload "turn.failed" id turn_id (Some [("reason_code", VString error)])) "turn.failed" s.

Definition apply_settlement (now : Z) (settlement : TurnSettlement) (s : AgyShared) : AgyShared :=
  let turn_id := effective_turn_id s in
  match ts_outcome settlement with
  | TurnCompleted text =>
      let '(id, s) := next_event_id s in
      agy_boundary now (turn_payload "turn.completed" id turn_id (Some [("response", VString text)])) "turn.completed" s
  | TurnFailed error => failed_boundary now turn_id error (record_denied_actions (ts_denied settlement) s)
  | TurnCancelled text error =>
      let s := record_denied_actions (ts_denied settlement) s in
      let s := if str_is_empty text then s
               else let '(params, s) := streaming_payload text s in emit_and_observe now params s in
      failed_boundary now turn_id error s
  end.

Definition start_failed_reason (r : ResultPayload) : string :=
  default ("agy session start failed with status " +:+ status_str (rp_status r)) (rp_error r).

(** The start gate: [None] when the result is a failed start. *)
Definition result_start (r : ResultPayload) (s : AgyShared) : option AgyShared :=
  match ag_start s with
  | StartPending =>
      if str_is_empty (rp_conversation r) then None
      else Some (put_start StartReady (note_session (rp_conversation r) s))
  | _ => Some s
  end.

Definition consumes (r : ResultPayload) (s : AgyShared) : bool :=
  negb (ag_open s) && Z.ltb 0 (ag_pending s) && Z.ltb (tc_num_turns (ag_classifier s)) (rp_num_turns r).

Definition settle_open (now : Z) (r : ResultPayload) (s : AgyShared) : AgyShared :=
  if ag_open s then
    let '(settlement, c) := classify (EvResult r) (ag_classifier s) in
    let s := put_turn c false s in
    match settlement with Some x => apply_settlement now x s | None => s end
  else s.

Definition project_result (now : Z) (r : ResultPayload) (s : AgyShared) : AgyShared :=
  match result_start r s with
  | None => put_start (StartFailed (start_failed_reason r)) s
  | Some s => settle_open now r (if consumes r s then begin_pending_turn now s else s)
  end.

(** The parameters of a started tool go with its activity. *)
Definition with_input (input : option Value) (activity : Value) : Value :=
  match activity, input with
  | VObject fields, Some v =>
      match field_lookup "payload" fields with
      | Some (VObject payload) =>
          if bool_decide (field_lookup "kind" payload = Some (VString "started"))
          then VObject (field_insert "payload" (VObject (field_insert "input" v payload)) fields)
          else activity
      | _ => activity
      end
  | _, _ => activity
  end.

Definition project_step (now : Z) (step : StepUpdate) (s : AgyShared) : AgyShared :=
  let s := note_session (su_conversation step) s in
  let s := if bool_decide (su_type step = UserInput) && negb (ag_open s) && Z.ltb 0 (ag_pending s)
           then begin_pending_turn now s else s in
  let s := match su_text_delta step with
           | Some delta =>
               if bool_decide (su_type step = AgentResponse) && negb (str_is_empty delta)
               then let '(params, s) := streaming_payload delta s in emit_and_observe now params s
               else s
           | None => s
           end in
  let '(id, s) := next_event_id s in
  match canonical_activity (EvStep step) id (effective_turn_id s) with
  | Some activity => emit_and_observe now (with_input (su_tool_info step ≫= ti_parameters) activity) s
  | None => s
  end.

Definition project_event (now : Z) (e : AgyEvent) (s : AgyShared) : AgyShared :=
  match e with
  | EvInit id _ => mark_start_ready (note_session id s)
  | EvStep step => project_step now step s
  | EvResult r => project_result now r s
  | EvUnknown _ _ => s
  end.

(** [project_agy_inbound]: a frame of the stream is consumed, everything else passes. *)
Definition project_agy_inbound (to_string : Value → string) (from_str : string → result string Value) (now : Z)
    (e : Inbound) (s : AgyShared) : option Inbound * AgyShared :=
  match e with
  | Message (UnknownEvent _ raw) =>
      (None, match parse_line from_str (to_string raw) with Some event => project_event now event s | None => s end)
  | _ => (Some e, s)
  end.

(** ** The start *)

Definition start_failure_error (reason : string) : RuntimeCommandError :=
  let bounded := take_chars 512 reason in
  if str_contains reason "invalid model" || str_contains reason "invalid effort" || str_contains reason "model selection"
  then ModelRejected bounded else InvalidSession bounded.

(** What the gate answers; [None] while it is closed. *)
Definition start_answer (s : AgyShared) : option (result RuntimeCommandError string) :=
  match ag_start s with
  | StartReady => Some (Ok (default "" (ag_session s)))
  | StartFailed reason => Some (Err (start_failure_error reason))
  | StartPending => None
  end.

(** The states the waiting thread sees, each with whether its wait had timed out. *)
Fixpoint wait_start (wakeups : list (AgyShared * bool)) : result RuntimeCommandError string :=
  match wakeups with
  | [] => Err CommandTimeout
  | (s, timed_out) :: rest =>
      match start_answer s with
      | Some answer => answer
      | None => if timed_out then Err CommandTimeout else wait_start rest
      end
  end.

(** ** The pump ([transport.rs]) *)

(** The whole process group must be reaped; the turn read is the tracker's. *)
Definition agy_child_exit (group_empty : option bool) (exit : ChildExit) (s : AgyShared) : RuntimeTerminal :=
  exit_terminal group_empty (turns_snapshot (ag_turns s)) exit.

Definition agy_pump (to_string : Value → string) (from_str : string → result string Value) (now : Z)
    (group_empty : option bool) (e : Inbound) (s : AgyShared) : AgyShared :=
  match e with
  | ChildExited exit =>
      put_publisher (emit_driver e (Some (agy_child_exit group_empty exit s)) (ag_publisher s)) s
  | _ =>
      match project_agy_inbound to_string from_str now e s with
      | (Some passed, s) => agy_emit passed s
      | (None, s) => s
      end
  end.

Definition agy_disconnected (s : AgyShared) : AgyShared :=
  put_publisher (publish_terminal stream_lost (ag_publisher s)).2 s.

(** ** The owner ([owner.rs]) *)

Definition agy_validate_session (id : string) (s : AgyShared) : result RuntimeCommandError unit :=
  if bool_decide (ag_session s = Some id) then Ok tt else Err (InvalidSession "session id does not belong to this runtime").

(** [.filter(|text| !text.is_empty())]. *)
Definition non_empty_opt (o : option string) : option string :=
  match o with Some x => if str_is_empty x then None else Some x | None => None end.

(** [admitted_model]. *)
Definition agy_admitted_model (from_str : string → result string Value) (decode_prepared : Value → option PreparedGeneralTask)
    (task : TaskRecord) : result RuntimeCommandError (option string) :=
  match task_route from_str decode_prepared task with
  | Ok prepared =>
      match admission prepared with
      | None => Err (InvalidSession "agy task is missing its admission identity")
      | Some identity =>
          if negb (agent identity ≟ "agy") then Err (InvalidSession "runtime is not the admitted agy agent")
          else Ok (non_empty_opt (model identity))
      end
  | Err message => Err (InvalidSession message)
  end.

(** [send_turn] is a check of the tracker and, later, the opening of the turn with what
    writing the line gives. *)
Definition agy_send_check (id : string) (s : AgyShared) : result RuntimeCommandError unit :=
  _ ← agy_validate_session id s;
  if turn_active (turns_snapshot (ag_turns s))
  then Err (InvalidSession "a turn is already in flight for this agy session") else Ok tt.

Definition agy_send_open (now : Z) (written : result RuntimeCommandError unit) (s : AgyShared)
    : result RuntimeCommandError (option string) * AgyShared :=
  (_ ← written; Ok None, begin_turn now s).

Definition agy_inject_turn (written : result RuntimeCommandError unit) (id : string) (s : AgyShared)
    : result RuntimeCommandError (option string) * AgyShared :=
  match agy_validate_session id s with
  | Err e => (Err e, s)
  | Ok _ => let '(r, s) := buffer_input written s in (match r with Ok _ => Ok None | Err e => Err e end, s)
  end.

(** [bootstrap_session_with_mcp], with what writing the prompt gives and the states the
    wait for the gate sees. *)
Definition agy_bootstrap (from_str : string → result string Value) (decode_prepared : Value → option PreparedGeneralTask)
    (now : Z) (written : result RuntimeCommandError unit) (waited : AgyShared → result RuntimeCommandError string)
    (task : TaskRecord) (s : AgyShared) : result RuntimeCommandError (string * option string) * AgyShared :=
  match agy_admitted_model from_str decode_prepared task with
  | Err e => (Err e, s)
  | Ok model =>
      let s := begin_turn now s in
      (_ ← written; id ← waited s; Ok (id, model), s)
  end.

(** The persisted id a resume asks for. *)
Definition persisted_session (task : TaskRecord) : result RuntimeCommandError string :=
  match rec_session_id task with
  | Some id =>
      if negb (str_is_empty id) && Nat.leb (String.length id) 512 then Ok id
      else Err (InvalidSession "task has no persisted session id")
  | None => Err (InvalidSession "task has no persisted session id")
  end.

(** [resume_session_with_mcp]: it opens no turn, and the conversation the child names
    must be the persisted one. *)
Definition agy_resume (from_str : string → result string Value) (decode_prepared : Value → option PreparedGeneralTask)
    (waited : result RuntimeCommandError string) (task : TaskRecord)
    : result RuntimeCommandError (string * option string) :=
  id ← persisted_session task;
  model ← agy_admitted_model from_str decode_prepared task;
  observed ← waited;
  if observed ≟ id then Ok (id, model)
  else Err (InvalidSession ("agy resumed conversation " +:+ observed +:+ " does not match the persisted session id")).

(** [stop_turn] up to its reap: a snapshot when nothing runs or the terminal is out
    already, else the generation whose boundary is awaited. *)
Definition agy_stop_begin (id : string) (s : AgyShared) : result RuntimeCommandError (TurnSnapshot + Z) * AgyShared :=
  match agy_validate_session id s with
  | Err e => (Err e, s)
  | Ok _ =>
      let current := turns_snapshot (ag_turns s) in
      if negb (turn_active current) then (Ok (inl current), s)
      else
        match begin_stopping (ag_publisher s) with
        | (Some _, p) => (Ok (inl current), put_publisher p s)
        | (None, p) => (Ok (inr (turn_generation current)), put_publisher p s)
        end
  end.

(** After the reap: the boundary counts as a stop when it was seen in time. *)
Definition agy_stop_end (reaped : result string StopOutcome) (waited : result RuntimeCommandError TurnSnapshot)
    (s : AgyShared) : result RuntimeCommandError TurnSnapshot * AgyShared :=
  match reaped with
  | Err message => (Err (Transport message), s)
  | Ok _ => match waited with Ok b => (Ok b, count_boundary s) | Err e => (Err e, s) end
  end.

(** [finish_process], around the reap. *)
Definition agy_finish_begin (s : AgyShared) : option RuntimeTerminal * AgyShared :=
  let '(t, p) := begin_stopping (ag_publisher s) in (t, put_publisher p s).
Definition agy_finish_end (bound : option TurnBoundary) (reap : result string StopOutcome)
    (exit_wait : option RuntimeTerminal) (s : AgyShared) : RuntimeTerminal * AgyShared :=
  let '(t, p) := publish_terminal (finish_terminal bound reap exit_wait) (ag_publisher s) in (t, put_publisher p s).

Definition agy_cleanup (reap : result string StopOutcome) (persisted : result string unit) (s : AgyShared)
    : RuntimeTerminal * AgyShared :=
  let t := cleanup_owned_group reap persisted in (t, put_publisher (publish_cleanup_terminal t (ag_publisher s)).2 s).

Definition agy_diagnostic_tail (stderr : string) (s : AgyShared) : string :=
  if str_is_empty (ag_diagnostics s) then stderr else stderr +:+ newline +:+ ag_diagnostics s.

(** The line [send_user_line] writes. *)
Definition user_line (content : string) : Value :=
  VObject [("event", VString "user"); ("message", VObject [("content", VString content)])].

(** ** The factory ([factory.rs]) *)

Inductive AgySpawnGate := GateClosed | GateEnabled.

Record AgyLaunch := mk_agy_launch {
  al_runtime : string; al_model : option string; al_effort : option AgyEffort; al_permission : AgyPermissionMode;
  al_conversation : option string }.

Definition NOT_EXECUTABLE : string := "AGY_RUNTIME_PATH must be an absolute executable file".

Definition agy_permission (m : PermissionMode) : result IoError AgyPermissionMode :=
  match m with
  | Build => Ok AgyBuild
  | Yolo => Ok AgyYolo
  | Plan | EditMode => Err (KInvalidInput, "agy admits only build and yolo permission modes")
  end.

Definition agy_effort (debug_str : string → string) (token : option string)
    : result IoError (option AgyEffort) :=
  match token with
  | None => Ok None
  | Some t =>
      match effort_parse t with
      | Some e => Ok (Some e)
      | None => Err (KInvalidInput, "unsupported agy effort " +:+ debug_str t)
      end
  end.

(** [env_runtime_path] and the gate: the environment's path, and whether a path is an
    absolute executable file. *)
Definition agy_runtime_path (executable : string → bool) (env : option string) (gate : AgySpawnGate)
    : result IoError string :=
  match gate with
  | GateClosed => Err (KPermissionDenied, "agy spawn gate is closed; production agy spawn is not enabled")
  | GateEnabled =>
      match env with
      | None => Err (KNotFound, "AGY_RUNTIME_PATH is unavailable")
      | Some path => if executable path then Ok path else Err (KInvalidInput, NOT_EXECUTABLE)
      end
  end.

Definition launch_validate (executable : string → bool) (l : AgyLaunch) : result IoError AgyLaunch :=
  if executable (al_runtime l) then Ok l else Err (KInvalidInput, NOT_EXECUTABLE).

Definition resolve_launch (from_str : string → result string Value) (decode_prepared : Value → option PreparedGeneralTask)
    (debug_str : string → string) (executable : string → bool) (env : option string) (gate : AgySpawnGate)
    (task : TaskRecord) : result IoError AgyLaunch :=
  match task_route from_str decode_prepared task with
  | Err message => Err (KInvalidInput, message)
  | Ok prepared =>
      match admission prepared with
      | None => Err (KInvalidInput, "agy task is missing its admission identity")
      | Some identity =>
          if negb (agent identity ≟ "agy") then Err (KInvalidInput, "agy factory received a non-agy task")
          else
            permission ← agy_permission (prep_permission_mode prepared);
            token ← agy_effort debug_str (effort identity);
            path ← agy_runtime_path executable env gate;
            launch_validate executable
              (mk_agy_launch path (non_empty_opt (model identity)) token permission (non_empty_opt (rec_session_id task)))
      end
  end.

(** The arguments of the child's command. *)
Definition agy_command (l : AgyLaunch) : string * list string :=
  (al_runtime l,
   launch_args (mk_launch (al_model l) (al_effort l) (Some (al_permission l)) (al_conversation l))).

(** ** Histories *)

(** What reaches a runtime while a call of the owner is under way: a frame the pump takes,
    or a lost channel. *)
Inductive AgyArrival := AgyFrame (now : Z) (group_empty : option bool) (e : Inbound) | AgyLost.

(** A step: an arrival, a send with the arrivals between its check and the opening of its
    turn, a buffered input, and what stops, finishes and forced cleanups do. *)
Inductive AgyStep :=
| AgyArrives (a : AgyArrival)
| AgySend (now : Z) (between : list AgyArrival) (written : result RuntimeCommandError unit) (id : string)
| AgyInject (written : result RuntimeCommandError unit) (id : string)
| AgyStopBegin (id : string)
| AgyStopEnd (reaped : result string StopOutcome) (waited : result RuntimeCommandError TurnSnapshot)
| AgyFinishBegin
| AgyFinishEnd (bound : option TurnBoundary) (reap : result string StopOutcome) (exit_wait : option RuntimeTerminal)
| AgyCleanup (reap : result string StopOutcome) (persisted : result string unit).

Section run.
Context (to_string : Value → string) (from_str : string → result string Value).

Definition agy_arrival (s : AgyShared) (a : AgyArrival) : AgyShared :=
  match a with
  | AgyFrame now group_empty e => agy_pump to_string from_str now group_empty e s
  | AgyLost => agy_disconnected s
  end.

Definition agy_arrivals (l : list AgyArrival) (s : AgyShared) : AgyShared := fold_left agy_arrival l s.

(** The whole of [send_turn]. *)
Definition agy_send_turn (now : Z) (between : list AgyArrival) (written : result RuntimeCommandError unit) (id : string)
    (s : AgyShared) : result RuntimeCommandError (option string) * AgyShared :=
  match agy_send_check id s with
  | Err e => (Err e, s)
  | Ok _ => agy_send_open now written (agy_arrivals between s)
  end.

Definition agy_step (s : AgyShared) (step : AgyStep) : AgyShared :=
  match step with
  | AgyArrives a => agy_arrival s a
  | AgySend now between written id => (agy_send_turn now between written id s).2
  | AgyInject written id => (agy_inject_turn written id s).2
  | AgyStopBegin id => (agy_stop_begin id s).2
  | AgyStopEnd reaped waited => (agy_stop_end reaped waited s).2
  | AgyFinishBegin => (agy_finish_begin s).2
  | AgyFinishEnd bound reap exit_wait => (agy_finish_end bound reap exit_wait s).2
  | AgyCleanup reap persisted => (agy_cleanup reap persisted s).2
  end.

Definition agy_run (steps : list AgyStep) (s : AgyShared) : AgyShared := fold_left agy_step steps s.
End run.
