(* ===== verification/AgyProps.v ===== *)
(** * Properties of the agy adapter

    The turns of an agy runtime: every input written to the child has opened one turn or
    is still buffered, and unless a send is overtaken by a buffered input a started turn
    and its boundary alternate in what reaches the sink and agree with the tracker.  A result settles as its status says;
    the start gate is final; diagnostics and the model list are bounded. *)

From stdpp Require Import pretty.
From S2P Require Import Prelude RustStr Utf8 Json General Contract StoreRecords Observation RuntimeEvents Activity RuntimeOwner Codex Recovery RpcProfiles Agy AgyRuntime.

(** ** Turn marks in the sink *)

(** A started turn is [true], a boundary [false]. *)
Definition inbound_mark (e : Inbound) : option bool :=
  match turn_kind e with
  | Some kind =>
      if kind ≟ "turn.started" then Some true
      else if (kind ≟ "turn.completed") || (kind ≟ "turn.failed") then Some false else None
  | None => None
  end.

Definition record_mark (r : LifecycleRecord) : option bool :=
  match event r with Driver e => inbound_mark e | _ => None end.

Definition turn_marks (p : Publisher) : list bool := omap record_mark (sink p).

(** The marks of a history that starts and ends turns in alternation, and the one it
    leaves open. *)
Fixpoint alternates (open : bool) (marks : list bool) : bool :=
  match marks with [] => true | m :: rest => Bool.eqb m (negb open) && alternates m rest end.

Lemma alternates_snoc open marks m :
  alternates open (marks ++ [m]) = alternates open marks && Bool.eqb m (negb (List.last marks open)).
Proof.
  revert open. induction marks as [|x marks IH]; intros open; cbn [app alternates].
  - by rewrite andb_comm.
  - rewrite IH. rewrite <- andb_assoc. f_equal. f_equal. f_equal. f_equal.
    destruct marks as [|y marks]; [done|]. cbn [List.last].
    assert (∀ l d d', List.last (y :: l) d = List.last (y :: l) d') as H; [|by apply H].
    clear. intros l. revert y. induction l as [|z l IHl]; intros y d d'; [done | apply IHl].
Qed.

Definition sink_ok (open : bool) (p : Publisher) : Prop :=
  alternates false (turn_marks p) = true
  ∧ (published_terminal p = None → List.last (turn_marks p) false = open).

Lemma publisher_new_ok : sink_ok false publisher_new.
Proof. done. Qed.

(** The marks an emission adds. *)
Lemma emit_driver_marks e t p :
  turn_marks (emit_driver e t p)
  = turn_marks p ++ match published_terminal p with
                    | Some _ => []
                    | None => match inbound_mark e with Some m => [m] | None => [] end
                    end.
Proof.
  unfold emit_driver, published_terminal, turn_marks. destruct p as [n o d l]. cbn [owner].
  destruct o, (is_exit_boundary e), t; cbn; rewrite ?omap_app; cbn;
    destruct (inbound_mark e); cbn; by rewrite ?app_nil_r.
Qed.

Lemma emit_driver_open e t p : published_terminal (emit_driver e t p) = None → published_terminal p = None.
Proof. unfold emit_driver, published_terminal. destruct p as [n o d l]. cbn. by destruct o. Qed.

Lemma emit_unmarked e t open p : inbound_mark e = None → sink_ok open p → sink_ok open (emit_driver e t p).
Proof.
  intros Hm [Ha Hl]. unfold sink_ok. rewrite emit_driver_marks, Hm.
  replace (match published_terminal p with Some _ => [] | None => [] end) with (@nil bool)
    by by destruct (published_terminal p).
  rewrite app_nil_r. split; [done|]. intros H%emit_driver_open. auto.
Qed.

Lemma emit_marked e m p : inbound_mark e = Some m → sink_ok (negb m) p → sink_ok m (emit_driver e None p).
Proof.
  intros Hm [Ha Hl]. unfold sink_ok. rewrite emit_driver_marks, Hm.
  destruct (published_terminal p) eqn:E.
  - rewrite app_nil_r. split; [done|]. intros H%emit_driver_open. congruence.
  - rewrite alternates_snoc, Ha, Hl by done. rewrite negb_involutive, eqb_reflx. split; [done|].
    intros _. by rewrite last_last.
Qed.

(** What only touches the terminal. *)
Lemma unmarked_end open p p' :
  turn_marks p' = turn_marks p → (published_terminal p' = None → published_terminal p = None) →
  sink_ok open p → sink_ok open p'.
Proof. intros E Ht [Ha Hl]. unfold sink_ok. rewrite E. split; [done | auto]. Qed.

Lemma stopping_ok open p : sink_ok open p → sink_ok open (begin_stopping p).2.
Proof. apply unmarked_end; destruct p as [n [] d l]; done. Qed.

Lemma publish_marks t p : turn_marks (publish_terminal_locked t p) = turn_marks p.
Proof. unfold turn_marks. cbn. rewrite omap_app. cbn. apply app_nil_r. Qed.

Lemma terminal_ok open t p : sink_ok open p → sink_ok open (publish_terminal t p).2.
Proof.
  unfold publish_terminal. destruct (owner p) eqn:E; cbn [snd]; [..|done];
    (apply unmarked_end; [apply publish_marks | done]).
Qed.

Lemma cleanup_ok open t p : sink_ok open p → sink_ok open (publish_cleanup_terminal t p).2.
Proof. apply unmarked_end; [apply publish_marks | done]. Qed.

(** ** The adapter's turns *)

(** [orderly] asks for the order of the marks as well. *)
Definition turns_ok (orderly : bool) (s : AgyShared) : Prop :=
  ag_open s = active (ag_turns s) ∧ (orderly = true → sink_ok (ag_open s) (ag_publisher s)).

(** Turns opened so far, and inputs that have opened none yet. *)
Definition inputs (s : AgyShared) : Z := (generation (ag_turns s) + ag_pending s)%Z.

(** Nothing of the turns changes. *)
Record quiet (s s' : AgyShared) : Prop := {
  quiet_open : ag_open s' = ag_open s;
  quiet_pending : ag_pending s' = ag_pending s;
  quiet_active : active (ag_turns s') = active (ag_turns s);
  quiet_generation : generation (ag_turns s') = generation (ag_turns s);
  quiet_classifier : ag_classifier s' = ag_classifier s;
  quiet_sink open : sink_ok open (ag_publisher s) → sink_ok open (ag_publisher s') }.

#[export] Instance quiet_refl : Reflexive quiet.
Proof. by split. Qed.
#[export] Instance quiet_trans : Transitive quiet.
Proof. intros a b c [] []. split; [congruence.. | auto]. Qed.

Lemma quiet_ok orderly s s' : quiet s s' → turns_ok orderly s → turns_ok orderly s'.
Proof. intros [] [Ho Hs]. split; [congruence|]. rewrite quiet_open0. auto. Qed.

Lemma quiet_inputs s s' : quiet s s' → inputs s' = inputs s.
Proof. intros []. unfold inputs. congruence. Qed.

(** An event that is no mark leaves the tracker's turn alone. *)
Lemma observe_unmarked now e t :
  inbound_mark e = None →
  active (turns_observe now e t) = active t ∧ generation (turns_observe now e t) = generation t.
Proof.
  unfold inbound_mark, turns_observe. destruct (turn_kind e) as [k|]; [|by destruct (active t) eqn:E; rewrite ?E].
  destruct (k ≟ "turn.started"); [done|]. destruct (k ≟ "turn.completed"), (k ≟ "turn.failed"); try done.
  by destruct (active t) eqn:E; cbn; rewrite ?E.
Qed.

Lemma lifecycle_unmarked n method : inbound_mark (lifecycle_event n method) = None.
Proof. done. Qed.

Lemma quiet_emit e s : inbound_mark e = None → quiet s (agy_emit e s).
Proof. intros H. split; try done. intros open. by apply emit_unmarked. Qed.

Lemma quiet_observe now e s : inbound_mark e = None → quiet s (agy_observe now e s).
Proof. intros H. destruct (observe_unmarked now e (ag_turns s) H). by split. Qed.

Lemma quiet_emit_observe now params s :
  inbound_mark (canonical_event params) = None → quiet s (emit_and_observe now params s).
Proof. intros H. unfold emit_and_observe. etrans; [by apply quiet_observe | by apply quiet_emit]. Qed.

Lemma quiet_sequence n s : quiet s (put_sequence n s).
Proof. by split. Qed.
Lemma quiet_session id s : quiet s (note_session id s).
Proof. unfold note_session. by destruct (str_is_empty id). Qed.
Lemma quiet_start st s : quiet s (put_start st s).
Proof. by split. Qed.
Lemma quiet_ready s : quiet s (mark_start_ready s).
Proof. unfold mark_start_ready. by destruct (ag_start s). Qed.
Lemma quiet_denied l s : quiet s (record_denied_actions l s).
Proof. unfold record_denied_actions. by destruct l. Qed.
Lemma quiet_event_id s : quiet s (next_event_id s).2.
Proof. apply quiet_sequence. Qed.
Lemma quiet_publisher p s : (∀ open, sink_ok open (ag_publisher s) → sink_ok open p) → quiet s (put_publisher p s).
Proof. by split. Qed.

(** Emission of a partial text. *)
Lemma quiet_streaming now text s :
  quiet s (let '(params, s) := streaming_payload text s in emit_and_observe now params s).
Proof.
  unfold streaming_payload. destruct (next_event_id s) as [id s1] eqn:E. cbn beta iota.
  etrans; [|by apply quiet_emit_observe].
  replace s1 with (next_event_id s).2 by by rewrite E. apply quiet_event_id.
Qed.

(** The two kinds of boundary. *)
Lemma boundary_turn now params lifecycle m s :
  inbound_mark (canonical_event params) = Some m → (m = false → active (ag_turns s) = true) →
  let s' := agy_boundary now params lifecycle s in
  ag_open s' = ag_open s ∧ ag_pending s' = ag_pending s ∧ ag_classifier s' = ag_classifier s
  ∧ active (ag_turns s') = m
  ∧ generation (ag_turns s') = (if m then saturating_add (generation (ag_turns s)) 1 else generation (ag_turns s))
  ∧ (sink_ok (negb m) (ag_publisher s) → sink_ok m (ag_publisher s')).
Proof.
  intros Hm Ha. cbv zeta. unfold agy_boundary, agy_lifecycle, agy_emit, agy_observe. cbn.
  assert (active (turns_observe now (canonical_event params) (ag_turns s)) = m
    ∧ generation (turns_observe now (canonical_event params) (ag_turns s))
      = (if m then saturating_add (generation (ag_turns s)) 1 else generation (ag_turns s))) as [E1 E2].
  { revert Hm. unfold inbound_mark, turns_observe. destruct (turn_kind _) as [k|]; [|done].
    destruct (k ≟ "turn.started"); [intros [= <-]; by destruct (active (ag_turns s))|].
    destruct (k ≟ "turn.completed"), (k ≟ "turn.failed"); intros [= <-]; by rewrite Ha. }
  split_and!; [done..| done | done |].
  intros Hs. apply emit_unmarked; [done|]. by apply emit_marked.
Qed.

Lemma quiet_turn c s : ag_classifier s = c → quiet s (put_turn c (ag_open s) s).
Proof. intros <-. by split. Qed.

(** Opening a turn; the marks stay in order when none is open. *)
Lemma begin_turn_ok orderly now s :
  turns_ok orderly s → (orderly = true → ag_open s = false) →
  let s' := begin_turn now s in
  turns_ok orderly s' ∧ ag_open s' = true ∧ ag_pending s' = ag_pending s ∧ ag_classifier s' = ag_classifier s
  ∧ generation (ag_turns s') = saturating_add (generation (ag_turns s)) 1.
Proof.
  intros [Ho Hs] Hi. cbv zeta. unfold begin_turn, emit_started.
  destruct (boundary_turn now started_params "turn.started" true (put_turn (ag_classifier s) true s))
    as (E1 & E2 & E3 & E4 & E5 & E6); [done | done |].
  split_and!; [|exact E1|exact E2|exact E3|exact E5]. split; [by rewrite E1, E4|]. rewrite E1.
  intros Hord. apply E6. specialize (Hs Hord). by rewrite (Hi Hord) in Hs.
Qed.

Lemma begin_pending_ok orderly now s :
  turns_ok orderly s → ag_open s = false →
  let s' := begin_pending_turn now s in
  turns_ok orderly s' ∧ ag_open s' = true ∧ ag_pending s' = (ag_pending s - 1)%Z
  ∧ ag_classifier s' = ag_classifier s ∧ generation (ag_turns s') = saturating_add (generation (ag_turns s)) 1.
Proof.
  intros Hok Hi. destruct (begin_turn_ok orderly now s Hok (λ _, Hi)) as ([Ha Hs] & E1 & E2 & E3 & E4).
  unfold begin_pending_turn. revert Ha Hs E1 E2 E3 E4. generalize (begin_turn now s) as t. intros t Ha Hs E1 E2 E3 E4.
  cbn. rewrite E2. by split_and!.
Qed.

(** A settlement closes the open turn. *)
Lemma failed_boundary_ok now turn_id error s :
  active (ag_turns s) = true →
  let s' := failed_boundary now turn_id error s in
  ag_open s' = ag_open s ∧ ag_pending s' = ag_pending s ∧ ag_classifier s' = ag_classifier s
  ∧ active (ag_turns s') = false ∧ generation (ag_turns s') = generation (ag_turns s)
  ∧ (sink_ok true (ag_publisher s) → sink_ok false (ag_publisher s')).
Proof.
  intros Ha. unfold failed_boundary. destruct (next_event_id s) as [id s1] eqn:E.
  injection E as <- <-.
  refine (boundary_turn now _ "turn.failed" false (put_sequence (agy_next_sequence s) s) _ (λ _, Ha)); reflexivity.
Qed.

Lemma quiet_partial now text s :
  quiet s (if str_is_empty text then s
           else let '(params, s) := streaming_payload text s in emit_and_observe now params s).
Proof. destruct (str_is_empty text); [done | apply quiet_streaming]. Qed.

Lemma settlement_ok now x s :
  active (ag_turns s) = true →
  let s' := apply_settlement now x s in
  ag_open s' = ag_open s ∧ ag_pending s' = ag_pending s ∧ ag_classifier s' = ag_classifier s
  ∧ active (ag_turns s') = false ∧ generation (ag_turns s') = generation (ag_turns s)
  ∧ (sink_ok true (ag_publisher s) → sink_ok false (ag_publisher s')).
Proof.
  intros Ha. unfold apply_settlement. cbv zeta. destruct (ts_outcome x) as [text|text error|error].
  - destruct (next_event_id s) as [id s1] eqn:E. injection E as <- <-.
    refine (boundary_turn now _ "turn.completed" false (put_sequence (agy_next_sequence s) s) _ (λ _, Ha)); reflexivity.
  - set (s1 := if str_is_empty text then _ else _).
    assert (quiet s s1) as [].
    { etrans; [apply (quiet_denied (ts_denied x)) | apply quiet_partial]. }
    rewrite <- quiet_open0, <- quiet_pending0, <- quiet_classifier0, <- quiet_generation0.
    match goal with |- context [failed_boundary now ?i ?e ?t] =>
      destruct (failed_boundary_ok now i e t) as (? & ? & ? & ? & ? & Hf) end; [congruence|].
    split_and!; auto.
  - destruct (quiet_denied (ts_denied x) s) as [].
    rewrite <- quiet_open0, <- quiet_pending0, <- quiet_classifier0, <- quiet_generation0.
    match goal with |- context [failed_boundary now ?i ?e ?t] =>
      destruct (failed_boundary_ok now i e t) as (? & ? & ? & ? & ? & Hf) end; [congruence|].
    split_and!; auto.
Qed.

Lemma settle_open_ok orderly now r s :
  turns_ok orderly s →
  turns_ok orderly (settle_open now r s) ∧ inputs (settle_open now r s) = inputs s
  ∧ ag_open (settle_open now r s) = false ∧ ag_pending (settle_open now r s) = ag_pending s.
Proof.
  intros [Ho Hs]. unfold settle_open. destruct (ag_open s) eqn:E.
  2:{ split_and!; try done. split; [by rewrite E | by rewrite E]. }
  cbn [classify]. match goal with |- context [apply_settlement now ?x ?t] =>
    destruct (settlement_ok now x t) as (E1 & E2 & E3 & E4 & E5 & E6) end; [by cbn|].
  unfold turns_ok, inputs. rewrite E1, E2, E4, E5. split; [split; [done|] | done].
  intros Hord. by apply E6, Hs.
Qed.

(** ** Steps *)

Section steps.
Context (to_string : Value → string) (from_str : string → result string Value).
Context (orderly : bool).

(** A frame as the line codec of agy delivers it: never an event of the app server. *)
Definition raw_inbound (e : Inbound) : Prop := inbound_mark e = None.
Definition raw_arrival (a : AgyArrival) : Prop := match a with AgyFrame _ _ e => raw_inbound e | AgyLost => True end.

(** No counter is at its end. *)
Definition room (s : AgyShared) : Prop :=
  (0 ≤ ag_pending s)%Z ∧ (0 ≤ generation (ag_turns s))%Z ∧ (inputs s < 2 ^ 64 - 1)%Z.

(** What a step does to the turns, at most. *)
Record conserves (s s' : AgyShared) : Prop := {
  conserves_ok : turns_ok orderly s';
  conserves_room : room s';
  conserves_inputs : inputs s' = inputs s;
  conserves_idle : ag_pending s = 0%Z → ag_open s = false → ag_open s' = false ∧ ag_pending s' = 0%Z }.

Lemma conserves_trans a b c : conserves a b → (turns_ok orderly b → room b → conserves b c) → conserves a c.
Proof.
  intros [Ok Rm In Id] H. destruct (H Ok Rm) as [Ok' Rm' In' Id']. split; [done | done | congruence |].
  intros Hp Ho. destruct (Id Hp Ho). auto.
Qed.

Lemma conserves_quiet s s' : turns_ok orderly s → room s → quiet s s' → conserves s s'.
Proof.
  intros Hok (Hp & Hg & Hi) Q. pose proof (quiet_inputs s s' Q) as E.
  split; [by eapply quiet_ok | | done |]; destruct Q; [|by intros; split; congruence].
  unfold room. rewrite E. split_and!; [lia.. | done].
Qed.

Lemma conserves_pending now s :
  turns_ok orderly s → room s → ag_open s = false → (0 < ag_pending s)%Z → conserves s (begin_pending_turn now s).
Proof.
  intros Hok (Hp & Hg & Hi) Ho Hlt. destruct (begin_pending_ok orderly now s Hok Ho) as (H1 & H2 & H3 & H4 & H5).
  assert (generation (ag_turns (begin_pending_turn now s)) = generation (ag_turns s) + 1)%Z as E.
  { rewrite H5. unfold inputs in Hi. unfold saturating_add, u64_max. lia. }
  assert (inputs (begin_pending_turn now s) = inputs s) as Ei by (unfold inputs; rewrite E, H3; lia).
  split; [done | | done | lia]. unfold room. rewrite Ei, E, H3. lia.
Qed.

Lemma conserves_settle now r s : turns_ok orderly s → room s → conserves s (settle_open now r s).
Proof.
  intros Hok Hr. destruct (settle_open_ok orderly now r s Hok) as (H1 & H2 & H3 & H4).
  split; [done | | done | by rewrite H4]. destruct Hr as (Hp & Hg & Hi). unfold room. rewrite H2, H4.
  split_and!; [done | | done]. unfold inputs in H2. lia.
Qed.

Lemma conserves_result now r s : turns_ok orderly s → room s → conserves s (project_result now r s).
Proof.
  intros Hok Hr. unfold project_result. destruct (result_start r s) as [s1|] eqn:E;
    [|apply conserves_quiet; [done | done | apply quiet_start]].
  assert (quiet s s1) as Q.
  { revert E. unfold result_start. destruct (ag_start s); [|by intros [= <-]..].
    destruct (str_is_empty (rp_conversation r)); [done|]. intros [= <-].
    etrans; [apply quiet_session | apply quiet_start]. }
  apply (conserves_trans s s1); [by apply conserves_quiet|]. intros Hok1 Hr1.
  destruct (consumes r s1) eqn:C; [|by apply conserves_settle].
  unfold consumes in C. bool_hyp.
  apply (conserves_trans s1 (begin_pending_turn now s1)); [by apply conserves_pending|].
  by intros; apply conserves_settle.
Qed.

(** Tool activity is no mark. *)
Lemma activity_unmarked e id turn a input :
  canonical_activity e id turn = Some a → inbound_mark (canonical_event (with_input input a)) = None.
Proof.
  unfold canonical_activity. destruct (tool_activity e) as [t|]; [|done]. cbn [fmap option_fmap option_map].
  intros [= <-]. unfold tool_canonical_event. destruct (ta_phase t), (ta_tool t), input; reflexivity.
Qed.

Lemma conserves_user_input now (b : bool) s :
  turns_ok orderly s → room s →
  conserves s (if b && negb (ag_open s) && Z.ltb 0 (ag_pending s) then begin_pending_turn now s else s).
Proof.
  intros Hok Hr. destruct (_ && _) eqn:C; [|by apply conserves_quiet]. bool_hyp. by apply conserves_pending.
Qed.

Lemma conserves_step now step s : turns_ok orderly s → room s → conserves s (project_step now step s).
Proof.
  intros Hok Hr. unfold project_step.
  apply (conserves_trans s (note_session (su_conversation step) s));
    [by apply conserves_quiet; [..|apply quiet_session]|].
  generalize (note_session (su_conversation step) s). clear s Hok Hr. intros s Hok Hr.
  eapply (conserves_trans s); [by apply (conserves_user_input now (bool_decide (su_type step = UserInput)))|].
  generalize (if bool_decide (su_type step = UserInput) && negb (ag_open s) && Z.ltb 0 (ag_pending s)
              then begin_pending_turn now s else s).
  clear s Hok Hr. intros s Hok Hr. set (s1 := match su_text_delta step with Some _ => _ | None => _ end).
  assert (quiet s s1) as Q.
  { subst s1. destruct (su_text_delta step); [|done]. destruct (_ && _); [apply quiet_streaming | done]. }
  apply (conserves_trans s s1); [by apply conserves_quiet|]. clearbody s1. clear s Hok Hr Q. intros Hok Hr.
  destruct (next_event_id s1) as [id s2] eqn:E. injection E as <- <-.
  apply (conserves_trans s1 (put_sequence (agy_next_sequence s1) s1));
    [by apply conserves_quiet; [..|apply quiet_sequence]|]. intros Hok2 Hr2.
  destruct (canonical_activity _ _ _) eqn:E; [|by apply conserves_quiet].
  apply conserves_quiet; [done | done |]. apply quiet_emit_observe. by eapply activity_unmarked.
Qed.

Lemma conserves_event now e s : turns_ok orderly s → room s → conserves s (project_event now e s).
Proof.
  intros Hok Hr. destruct e; cbn [project_event].
  - apply conserves_quiet; [done | done |]. etrans; [apply quiet_session | apply quiet_ready].
  - by apply conserves_step.
  - by apply conserves_result.
  - by apply conserves_quiet.
Qed.

Lemma conserves_arrival a s : raw_arrival a → turns_ok orderly s → room s → conserves s (agy_arrival to_string from_str s a).
Proof.
  intros Ha Hok Hr. destruct a as [now group e|]; cbn [agy_arrival].
  - assert (conserves s (agy_emit e s)) as Hemit.
    { apply conserves_quiet; [done | done | by apply quiet_emit]. }
    destruct e as [[]| | | | |]; cbn [agy_pump project_agy_inbound]; try exact Hemit.
    + destruct (parse_line _ _); [by apply conserves_event | by apply conserves_quiet].
    + apply conserves_quiet; [done | done |]. apply quiet_publisher. intros open. by apply emit_unmarked.
  - apply conserves_quiet; [done | done |]. apply quiet_publisher. intros open. apply terminal_ok.
Qed.

Lemma conserves_arrivals l s :
  Forall raw_arrival l → turns_ok orderly s → room s → conserves s (agy_arrivals to_string from_str l s).
Proof.
  intros Hl. revert s. induction Hl as [|a l Ha Hl IH]; intros s Hok Hr; [by apply conserves_quiet|].
  apply (conserves_trans s (agy_arrival to_string from_str s a)); [by apply conserves_arrival|]. apply IH.
Qed.

Definition is_ok {E A} (r : result E A) : bool := match r with Ok _ => true | Err _ => false end.

(** Frames come from the line codec. *)
Definition raw_step (step : AgyStep) : Prop :=
  match step with
  | AgyArrives a => raw_arrival a
  | AgySend _ between _ _ => Forall raw_arrival between
  | _ => True
  end.

(** A send is not overtaken by the consumption of an earlier buffered input: nothing
    arrives between its check and its turn, or nothing is buffered. *)
Definition calm_step (s : AgyShared) (step : AgyStep) : Prop :=
  match step with
  | AgySend _ between _ _ => between = [] ∨ ag_pending s = 0%Z
  | _ => True
  end.

Fixpoint calm (steps : list AgyStep) (s : AgyShared) : Prop :=
  match steps with
  | [] => True
  | step :: rest => calm_step s step ∧ calm rest (agy_step to_string from_str s step)
  end.

(** The inputs written to the child, by a send or into its buffer: the calls that
    return without an error. *)
Definition accepted (s : AgyShared) (step : AgyStep) : Z :=
  match step with
  | AgySend now between written id =>
      if is_ok (agy_send_turn to_string from_str now between written id s).1 then 1 else 0
  | AgyInject written id => if is_ok (agy_inject_turn written id s).1 then 1 else 0
  | _ => 0
  end.

(** A send that was admitted but whose line could not be written. *)
Definition unwritten (s : AgyShared) (step : AgyStep) : Z :=
  match step with
  | AgySend _ _ (Err _) id => if is_ok (agy_send_check id s) then 1 else 0
  | _ => 0
  end.

(** The sum of a count over the steps of a history. *)
Fixpoint tally (count : AgyShared → AgyStep → Z) (steps : list AgyStep) (s : AgyShared) : Z :=
  match steps with
  | [] => 0
  | step :: rest => count s step + tally count rest (agy_step to_string from_str s step)
  end.

Definition accounts (s s' : AgyShared) (n : Z) : Prop :=
  turns_ok orderly s' ∧ room s' ∧ inputs s' = (inputs s + n)%Z.

Lemma conserves_accounts s s' : conserves s s' → accounts s s' 0.
Proof. intros []. split_and!; [done..|lia]. Qed.

Lemma quiet_accounts s s' : turns_ok orderly s → room s → quiet s s' → accounts s s' 0.
Proof. intros. by apply conserves_accounts, conserves_quiet. Qed.

Lemma send_accounts now written s :
  turns_ok orderly s → room s → (inputs s + 1 < 2 ^ 64 - 1)%Z → (orderly = true → ag_open s = false) →
  accounts s (agy_send_open now written s).2 1.
Proof.
  intros Hok (Hp & Hg & Hi) Hb Ho. destruct (begin_turn_ok orderly now s Hok Ho) as (H1 & H2 & H3 & H4 & H5).
  cbn [agy_send_open snd]. revert H5. unfold saturating_add, u64_max, accounts, room, inputs in *.
  intros H5. rewrite H3, H5. split_and!; [done|lia..].
Qed.

Lemma send_step_accounts now between written id s :
  Forall raw_arrival between → (orderly = true → between = [] ∨ ag_pending s = 0%Z) →
  turns_ok orderly s → room s → (inputs s + 1 < 2 ^ 64 - 1)%Z → is_ok (agy_send_check id s) = true →
  accounts s (agy_send_turn to_string from_str now between written id s).2 1.
Proof.
  intros Hraw Hc Hok Hr Hb E. unfold agy_send_turn. destruct (agy_send_check id s) as [u|e] eqn:E'; [|done].
  assert (ag_open s = false) as Ho.
  { revert E'. unfold agy_send_check. destruct (agy_validate_session id s); [|done]. cbn.
    destruct Hok as [-> _]. by destruct (active (ag_turns s)). }
  destruct (conserves_arrivals between s Hraw Hok Hr) as [Ok Rm In Id].
  assert (orderly = true → ag_open (agy_arrivals to_string from_str between s) = false) as Ho'.
  { intros Hord. destruct (Hc Hord) as [->|Hp]; [done|]. by destruct (Id Hp Ho). }
  destruct (send_accounts now written _ Ok Rm ltac:(by rewrite In) Ho') as (H1 & H2 & H3).
  split_and!; [done | done | by rewrite H3, In].
Qed.

Lemma step_accounts step s :
  raw_step step → (orderly = true → calm_step s step) → turns_ok orderly s → room s →
  (inputs s + 1 < 2 ^ 64 - 1)%Z →
  accounts s (agy_step to_string from_str s step) (accepted s step + unwritten s step).
Proof.
  intros Hraw Hc Hok Hr Hb. destruct step as [a|now between written id|written id|id|reaped waited| |b reap w|reap w];
    cbn [agy_step accepted unwritten calm_step raw_step] in *; rewrite ?Z.add_0_r.
  - by apply conserves_accounts, conserves_arrival.
  - destruct (is_ok (agy_send_check id s)) eqn:E.
    + assert ((if is_ok (agy_send_turn to_string from_str now between written id s).1 then 1 else 0)
        + match written with Ok _ => 0 | Err _ => 1 end = 1)%Z as Hn.
      { unfold agy_send_turn. destruct (agy_send_check id s); [|done]. by destruct written. }
      rewrite Hn. by apply send_step_accounts.
    + unfold agy_send_turn. destruct (agy_send_check id s); [done|]. cbn.
      replace (match written with Ok _ => 0 | Err _ => 0 end)%Z with 0%Z by by destruct written.
      by apply quiet_accounts.
  - unfold agy_inject_turn. destruct (agy_validate_session id s); [|by apply quiet_accounts].
    destruct written; cbn; [|by apply quiet_accounts].
    destruct Hr as (Hp & Hg & Hi). unfold accounts, room, inputs in *. cbn. rewrite Z.mod_small by lia.
    split_and!; [done | lia..].
  - apply quiet_accounts; [done | done |]. unfold agy_stop_begin. destruct (agy_validate_session id s); [|done].
    cbv zeta. destruct (negb _); [done|].
    pose proof (λ open, stopping_ok open (ag_publisher s)) as H.
    destruct (begin_stopping (ag_publisher s)) as [[t|] p]; cbn [snd] in *; by apply quiet_publisher.
  - apply quiet_accounts; [done | done |]. unfold agy_stop_end. by destruct reaped, waited.
  - apply quiet_accounts; [done | done |]. unfold agy_finish_begin.
    pose proof (λ open, stopping_ok open (ag_publisher s)) as H.
    destruct (begin_stopping (ag_publisher s)) as [t p]. by apply quiet_publisher.
  - apply quiet_accounts; [done | done |]. unfold agy_finish_end.
    pose proof (λ open, terminal_ok open (finish_terminal b reap w) (ag_publisher s)) as H.
    destruct (publish_terminal _ _) as [t p]. by apply quiet_publisher.
  - apply quiet_accounts; [done | done |]. apply quiet_publisher. intros open. apply cleanup_ok.
Qed.

Lemma counts_range s step : (0 ≤ accepted s step + unwritten s step ≤ 1)%Z.
Proof.
  destruct step as [| now between written id | | | | | |]; cbn [accepted unwritten]; try lia.
  - unfold agy_send_turn. destruct (agy_send_check id s), written; cbn; lia.
  - destruct (is_ok _); lia.
Qed.

Lemma run_accounts steps s :
  Forall raw_step steps → (orderly = true → calm steps s) → turns_ok orderly s → room s →
  (inputs s + Z.of_nat (length steps) < 2 ^ 64 - 1)%Z →
  accounts s (agy_run to_string from_str steps s) (tally accepted steps s + tally unwritten steps s).
Proof.
  revert s. induction steps as [|step steps IH]; intros s Hraw Hc Hok Hr Hb.
  - split_and!; [done | done | cbn; lia].
  - apply Forall_cons in Hraw as [Hraw Hraws]. cbn [length] in Hb. pose proof (counts_range s step).
    destruct (step_accounts step s Hraw (λ Ho, proj1 (Hc Ho)) Hok Hr ltac:(lia)) as (H1 & H2 & H3).
    destruct (IH _ Hraws (λ Ho, proj2 (Hc Ho)) H1 H2 ltac:(lia)) as (H4 & H5 & H6).
    split_and!; [done | done |]. cbn [tally]. change (agy_run to_string from_str (step :: steps) s)
      with (agy_run to_string from_str steps (agy_step to_string from_str s step)). lia.
Qed.
End steps.

(** A runtime as a bootstrap or a resume leaves it. *)
Definition agy_fresh (s : AgyShared) : Prop := s = agy_new ∨ ∃ now, s = begin_turn now agy_new.

Lemma fresh_ok orderly s : agy_fresh s → turns_ok orderly s ∧ room s ∧ (inputs s ≤ 1)%Z.
Proof.
  assert (turns_ok orderly agy_new) as Hn by by split; [|intros _; apply publisher_new_ok].
  intros [->|[now ->]]; [by split_and!|].
  destruct (begin_turn_ok orderly now agy_new Hn (λ _, eq_refl)) as (H1 & _ & H3 & _ & H5).
  unfold room, inputs. rewrite H3, H5. split_and!; [done|..]; by vm_compute.
Qed.

(** C20. Over any history of an agy runtime - frames of its line codec, sends, buffered
    inputs, stops and cleanups, in any order - the turns opened so far and the inputs
    still buffered are together the inputs written to the child, plus one turn for each
    admitted send whose line could not be written: no input is lost and none opens two
    turns.  And as long as no send is overtaken by the consumption of an earlier buffered
    input, what the sink has seen alternates between started turns and their boundaries,
    and until a terminal is out the last of them agrees with the turn the tracker
    reports. *)
Theorem agy_inputs_accounted to_string from_str steps s :
  agy_fresh s → Forall raw_step steps → (Z.of_nat (length steps) < 2 ^ 63)%Z →
  let s' := agy_run to_string from_str steps s in
  (generation (ag_turns s') + ag_pending s'
   = inputs s + tally to_string from_str (accepted to_string from_str) steps s
     + tally to_string from_str unwritten steps s)%Z
  ∧ (calm to_string from_str steps s →
     alternates false (turn_marks (ag_publisher s')) = true
     ∧ (published_terminal (ag_publisher s') = None →
        List.last (turn_marks (ag_publisher s')) false = active (ag_turns s'))).
Proof.
  intros Hf Hraw Hn. cbv zeta. destruct (fresh_ok false s Hf) as (Hok & Hr & Hi). split.
  - destruct (run_accounts to_string from_str false steps s Hraw ltac:(done) Hok Hr ltac:(lia)) as (_ & _ & H).
    unfold inputs at 1 in H. lia.
  - intros Hc. destruct (fresh_ok true s Hf) as (Hok' & _ & _).
    destruct (run_accounts to_string from_str true steps s Hraw (λ _, Hc) Hok' Hr ltac:(lia)) as ([Ho Hs] & _ & _).
    destruct (Hs eq_refl) as [Ha Hl]. rewrite <- Ho. by split.
Qed.

(** ** Settlements *)

Definition outcome_boundary (r : ResultPayload) : TurnBoundary :=
  if bool_decide (rp_status r = Success) then BoundaryCompleted else BoundaryFailed.

(** The boundary event of a settled result. *)
Definition settled_params (id turn_id : string) (r : ResultPayload) : Value :=
  match settled_outcome r with
  | TurnCompleted text => turn_payload "turn.completed" id turn_id (Some [("response", VString text)])
  | TurnCancelled _ error | TurnFailed error =>
      turn_payload "turn.failed" id turn_id (Some [("reason_code", VString error)])
  end.

Lemma settled_completed_iff r : (∃ text, settled_outcome r = TurnCompleted text) ↔ rp_status r = Success.
Proof.
  unfold settled_outcome. split.
  - intros [text H]. destruct (rp_status r); try done. by destruct (_ ≟ _).
  - intros ->. eauto.
Qed.

(** A failure always names a reason. *)
Lemma failed_reason_named r error : settled_outcome r = TurnFailed error → error ≠ "".
Proof.
  assert (failure_text (rp_error r) (rp_status r) ≠ "") as H.
  { unfold failure_text. destruct (default "" (rp_error r)) eqn:E; [|done]. by cbn. }
  unfold settled_outcome. destruct (rp_status r); intros [= <-] || (destruct (_ ≟ _); [done|]; intros [= <-]) || done; done.
Qed.

Lemma emit_driver_sink e p :
  published_terminal p = None → is_exit_boundary e = false →
  sink (emit_driver e None p) = sink p ++ [mk_record (next_sequence p) (Driver e)]
  ∧ published_terminal (emit_driver e None p) = None.
Proof. unfold emit_driver, published_terminal. intros Ht He. rewrite He. by destruct p as [n [] d l]. Qed.

(** The records of a boundary, and the turn it leaves. *)
Lemma boundary_records now params lifecycle s :
  published_terminal (ag_publisher s) = None →
  ∃ n m k, sink (ag_publisher (agy_boundary now params lifecycle s))
         = sink (ag_publisher s) ++ [mk_record n (Driver (canonical_event params)); mk_record m (Driver (lifecycle_event k lifecycle))].
Proof.
  intros Ht. destruct (emit_driver_sink (canonical_event params) (ag_publisher s) Ht eq_refl) as [E1 T1].
  destruct (emit_driver_sink (lifecycle_event (agy_next_sequence s) lifecycle) _ T1 eq_refl) as [E2 T2].
  unfold agy_boundary, agy_lifecycle, agy_emit, agy_observe. cbn [ag_publisher put_publisher put_sequence put_turns] in *.
  unfold agy_next_sequence in *. cbn [ag_sequence put_publisher put_turns]. rewrite E2, E1, <- app_assoc. cbn [app].
  by do 3 eexists.
Qed.

Lemma failed_boundary_records now turn_id error s :
  published_terminal (ag_publisher s) = None →
  ∃ id l n m k, sink (ag_publisher (failed_boundary now turn_id error s))
    = sink (ag_publisher s) ++ l ++ [mk_record n (Driver (canonical_event
        (turn_payload "turn.failed" id turn_id (Some [("reason_code", VString error)]))));
        mk_record m (Driver (lifecycle_event k "turn.failed"))].
Proof.
  intros Ht. unfold failed_boundary. destruct (next_event_id s) as [id s1] eqn:E. injection E as <- <-.
  destruct (boundary_records now (turn_payload "turn.failed" ("agy-event-" +:+ pretty (agy_next_sequence s)) turn_id
    (Some [("reason_code", VString error)])) "turn.failed" (put_sequence (agy_next_sequence s) s) Ht) as (n & m & k & H).
  exists ("agy-event-" +:+ pretty (agy_next_sequence s)), [], n, m, k. exact H.
Qed.

(** The tracker's boundary after one that closes. *)
Lemma boundary_of now params lifecycle kind s :
  turn_kind (canonical_event params) = Some kind → active (ag_turns s) = true →
  kind = "turn.completed" ∨ kind = "turn.failed" →
  boundary (ag_turns (agy_boundary now params lifecycle s))
  = Some (if kind ≟ "turn.completed" then BoundaryCompleted else BoundaryFailed).
Proof.
  intros Hk Ha Hc. unfold agy_boundary, agy_lifecycle, agy_emit, agy_observe. cbn.
  unfold turns_observe. rewrite Hk, Ha. by destruct Hc as [-> | ->].
Qed.

Lemma failed_boundary_of now turn_id error s :
  active (ag_turns s) = true → boundary (ag_turns (failed_boundary now turn_id error s)) = Some BoundaryFailed.
Proof.
  intros Ha. unfold failed_boundary. destruct (next_event_id s) as [id s1] eqn:E. injection E as <- <-.
  by apply (boundary_of now _ "turn.failed" "turn.failed"); [|done|right].
Qed.

(** An emission that is no boundary keeps what the sink had. *)
Definition grows (s s' : AgyShared) : Prop :=
  published_terminal (ag_publisher s') = published_terminal (ag_publisher s)
  ∧ ∃ l, sink (ag_publisher s') = sink (ag_publisher s) ++ l.

Lemma partial_grows now text s :
  published_terminal (ag_publisher s) = None →
  grows s (if str_is_empty text then s
           else let '(params, s) := streaming_payload text s in emit_and_observe now params s).
Proof.
  intros Ht. destruct (str_is_empty text); [split; [done|]; exists []; by rewrite app_nil_r|].
  unfold streaming_payload. destruct (next_event_id s) as [id s1] eqn:E. injection E as <- <-.
  unfold emit_and_observe, agy_emit, agy_observe, grows. cbn [ag_publisher put_publisher put_sequence put_turns].
  match goal with |- context [emit_driver ?e None _] => destruct (emit_driver_sink e (ag_publisher s) Ht eq_refl) as [H1 H2] end.
  rewrite H1, H2. split; [done | by eexists].
Qed.

Lemma denied_publisher l s : ag_publisher (record_denied_actions l s) = ag_publisher s.
Proof. by destruct l. Qed.
Lemma denied_turns l s : ag_turns (record_denied_actions l s) = ag_turns s.
Proof. by destruct l. Qed.

Lemma settlement_spec now r s :
  active (ag_turns s) = true → published_terminal (ag_publisher s) = None →
  let s' := apply_settlement now (settle r) s in
  boundary (ag_turns s') = Some (outcome_boundary r)
  ∧ ∃ id l n m k method, sink (ag_publisher s')
      = sink (ag_publisher s) ++ l ++ [mk_record n (Driver (canonical_event (settled_params id (effective_turn_id s) r)));
                                       mk_record m (Driver (lifecycle_event k method))].
Proof.
  intros Ha Ht. cbv zeta. unfold apply_settlement, settled_params, outcome_boundary. cbn [settle ts_outcome ts_denied].
  destruct (settled_outcome r) as [text|text error|error] eqn:E.
  - rewrite bool_decide_true by (apply settled_completed_iff; eauto).
    destruct (next_event_id s) as [id s1] eqn:En. injection En as <- <-. split.
    + by apply (boundary_of now _ "turn.completed" "turn.completed"); [|done|left].
    + match goal with |- context [agy_boundary now ?p ?l ?t] => destruct (boundary_records now p l t Ht) as (n & m & k & H) end.
      eexists _, [], n, m, k, _. exact H.
  - rewrite bool_decide_false by (intros H; apply settled_completed_iff in H as [? H]; congruence).
    set (s1 := if str_is_empty text then _ else _).
    pose proof (partial_grows now text (record_denied_actions (rp_denied r) s)) as G. fold s1 in G.
    rewrite denied_publisher in G. destruct (G Ht) as [Gt [l Gl]]. rewrite denied_publisher in *.
    assert (active (ag_turns s1) = true) as Ha1.
    { pose proof (quiet_active _ _ (quiet_partial now text (record_denied_actions (rp_denied r) s))) as Q.
      fold s1 in Q. by rewrite Q, denied_turns. }
    split; [by apply failed_boundary_of|].
    destruct (failed_boundary_records now (effective_turn_id s) error s1) as (id & l' & n & m & k & H); [congruence|].
    exists id, (l ++ l'), n, m, k, "turn.failed". rewrite H, Gl. by rewrite <- !app_assoc.
  - rewrite bool_decide_false by (intros H; apply settled_completed_iff in H as [? H]; congruence).
    split; [apply failed_boundary_of; by rewrite denied_turns|].
    destruct (failed_boundary_records now (effective_turn_id s) error (record_denied_actions (rp_denied r) s))
      as (id & l' & n & m & k & H); [by rewrite denied_publisher|].
    exists id, l', n, m, k, "turn.failed". by rewrite H, denied_publisher.
Qed.

(** A result of a runtime that is idle with nothing buffered is dropped. *)
Lemma idle_result_dropped now r s :
  ag_start s ≠ StartPending → ag_open s = false → ag_pending s = 0%Z → project_result now r s = s.
Proof.
  intros Hg Ho Hp. unfold project_result, result_start. destruct (ag_start s); [done|..];
    unfold consumes, settle_open; rewrite Ho, Hp; cbn; by rewrite Ho.
Qed.

Definition later_results (later : list (Z * ResultPayload)) (s : AgyShared) : AgyShared :=
  fold_left (λ s x, project_result x.1 x.2 s) later s.

Lemma settlement_start now x s : ag_start (apply_settlement now x s) = ag_start s.
Proof.
  assert (∀ l t, ag_start (record_denied_actions l t) = ag_start t) as Hd by by intros [].
  assert (∀ turn e t, ag_start (failed_boundary now turn e t) = ag_start t) as Hf.
  { intros. unfold failed_boundary. by destruct (next_event_id t) as [id u] eqn:E; injection E as <- <-. }
  unfold apply_settlement. destruct (ts_outcome x).
  - by destruct (next_event_id s) as [id u] eqn:E; injection E as <- <-.
  - rewrite Hf. destruct (str_is_empty text); [apply Hd|].
    destruct (streaming_payload _ _) as [p u] eqn:E. injection E as <- <-. apply Hd.
  - by rewrite Hf.
Qed.

(** The first result of an open turn settles it as its status says: only [SUCCESS]
    completes it, with the response, anything else fails it with a reason.  That is what
    the sink receives last, and no later result of the idle runtime changes anything: the
    second result the stream emits after a signal cannot overwrite a settled turn. *)
Theorem agy_settled_turn_is_final now r later s :
  turns_ok true s → ag_open s = true → ag_pending s = 0%Z → ag_start s ≠ StartPending →
  published_terminal (ag_publisher s) = None →
  let s' := project_result now r s in
  ag_open s' = false ∧ boundary (ag_turns s') = Some (outcome_boundary r)
  ∧ (∃ id l n m k method, sink (ag_publisher s')
      = sink (ag_publisher s) ++ l ++ [mk_record n (Driver (canonical_event (settled_params id (effective_turn_id s) r)));
                                       mk_record m (Driver (lifecycle_event k method))])
  ∧ later_results later s' = s'.
Proof.
  intros Hok Ho Hp Hg Ht. cbv zeta.
  assert (project_result now r s = settle_open now r s) as E.
  { unfold project_result, result_start, consumes. destruct (ag_start s); [done|..]; by rewrite Ho. }
  rewrite E. destruct (settle_open_ok true now r s Hok) as (_ & _ & H1 & H2).
  assert (later_results later (settle_open now r s) = settle_open now r s) as Hl.
  { assert (ag_start (settle_open now r s) ≠ StartPending) as Hg'.
    { unfold settle_open. rewrite Ho. cbn [classify]. by rewrite settlement_start. }
    induction later as [|[now' r'] later IH]; [done|]. unfold later_results in *. cbn [fold_left fst snd].
    rewrite idle_result_dropped; [done | done | done | congruence]. }
  destruct Hok as [Ha Hs]. revert H1 Hl. unfold settle_open. rewrite Ho. cbn [classify].
  match goal with |- context [apply_settlement now ?x ?t] =>
    destruct (settlement_spec now r t) as [H3 H4]; [by cbn; rewrite <- Ha | done |] end.
  intros H1 Hl. by split_and!.
Qed.

(** ** Bounds *)

(** The adapter's diagnostics never pass 16 KiB. *)
Lemma denied_bounded l s :
  String.length (ag_diagnostics s) ≤ MAX_DIAGNOSTIC_BYTES →
  String.length (ag_diagnostics (record_denied_actions l s)) ≤ MAX_DIAGNOSTIC_BYTES.
Proof. intros H. unfold record_denied_actions. destruct l; [done|]. cbn [ag_diagnostics put_diagnostics]. apply roll_length. Qed.

(** The model list has no duplicates, no empty slug and at most 256 entries. *)
Lemma collect_models_sound lines models :
  NoDup models → "" ∉ models → length models ≤ MAX_MODELS →
  NoDup (collect_models lines models) ∧ "" ∉ collect_models lines models
  ∧ length (collect_models lines models) ≤ MAX_MODELS ∧ models `prefix_of` collect_models lines models.
Proof.
  revert models. induction lines as [|line lines IH]; intros models Hn He Hl; cbn [collect_models]; [done|].
  destruct (split_once tab line) as [[slug rest]|]; [|by apply IH].
  destruct (str_is_empty (trim slug)) eqn:E1; cbn [orb]; [by apply IH|].
  destruct (one_of (trim slug) models) eqn:E2; [by apply IH|].
  destruct (Nat.leb MAX_MODELS (length models)) eqn:E3; [by split_and!|]. apply Nat.leb_gt in E3.
  destruct (IH (models ++ [trim slug])) as (H1 & H2 & H3 & H4).
  - apply NoDup_app. split_and!; [done | | apply NoDup_singleton]. intros x Hx ->%list_elem_of_singleton.
    apply one_of_false in E2. done.
  - intros [H|H]%elem_of_app; [done|]. apply list_elem_of_singleton in H. by rewrite <- H in E1.
  - rewrite length_app. cbn. lia.
  - split_and!; [done..|]. etrans; [|exact H4]. by exists [trim slug].
Qed.

Lemma parse_models_sound output :
  NoDup (parse_models output) ∧ "" ∉ parse_models output ∧ length (parse_models output) ≤ MAX_MODELS.
Proof.
  destruct (collect_models_sound (str_lines output) []) as (H1 & H2 & H3 & _);
    [apply NoDup_nil_2 | apply not_elem_of_nil | cbn; unfold MAX_MODELS; lia | done].
Qed.

(** ** Launches *)

Lemma effort_parse_str e : effort_parse (effort_str e) = Some e.
Proof. by destruct e. Qed.

(** The command line says exactly what was selected. *)
Lemma launch_args_inj o o' :
  is_Some (lo_permission o) → is_Some (lo_permission o') → launch_args o = launch_args o' → o = o'.
Proof.
  intros [p Hp] [p' Hp']. destruct o as [m e q c], o' as [m' e' q' c']. cbn in Hp, Hp'. subst.
  unfold launch_args. cbn [lo_model lo_effort lo_permission lo_conversation].
  destruct m, m', e as [[]|], e' as [[]|], p, p', c, c'; cbn; intros H; by simplify_eq.
Qed.

(** ** Boundary cases *)

(** An [init] without an identity opens the gate, and the bootstrap answers with an empty
    session id. *)
Lemma anonymous_init_opens_gate now info :
  start_answer (project_event now (EvInit "" info) agy_new) = Some (Ok "").
Proof. done. Qed.

Module AgyDemo.
(** Three lines of a stream; the codec is a table of them. *)
Definition init_line : Value :=
  VObject [("conversation_id", VString "c1"); ("event", VString "init"); ("init", VObject []); ("tag", VString "init")].
Definition user_step : Value :=
  VObject [("event", VString "step_update");
           ("step_update", VObject [("conversation_id", VString "c1"); ("state", VString "DONE");
                                    ("step_index", VNumber (PosInt 4)); ("step_type", VString "user_input")]);
           ("tag", VString "user")].
Definition result_line (tag status : string) (turns : Z) : Value :=
  VObject [("event", VString "result");
           ("result", VObject [("conversation_id", VString "c1"); ("num_turns", VNumber (PosInt turns));
                               ("response", VString "done"); ("status", VString status)]);
           ("tag", VString tag)].
Definition first : Value := result_line "first" "SUCCESS" 1.
Definition second : Value := result_line "second" "ERROR" 2.
Definition to_string (v : Value) : string := default "" (get_str v "tag").
Definition from_str (line : string) : result string Value :=
  if line ≟ "init" then Ok init_line else if line ≟ "user" then Ok user_step
  else if line ≟ "first" then Ok first else if line ≟ "second" then Ok second else Err "unknown line".
Definition frame (v : Value) : AgyArrival := AgyFrame 0 None (Message (UnknownEvent "" v)).
Definition started : AgyShared := begin_turn 0 agy_new.

(** A first turn, an input buffered during it, its own turn, and a send. *)
Definition steps : list AgyStep :=
  [AgyArrives (frame init_line); AgyInject (Ok tt) "c1"; AgyArrives (frame first); AgyArrives (frame user_step);
   AgyArrives (frame second); AgyArrives (frame second); AgySend 7 [frame second] (Ok tt) "c1"].

(** The first turn settled, the buffered input not yet taken up. *)
Definition between_turns : AgyShared := agy_run to_string from_str (take 3 steps) started.
End AgyDemo.

(** A clean exit then counts as a completed task although an input was never processed. *)
Example buffered_input_lost_at_exit :
  ag_pending AgyDemo.between_turns = 1%Z ∧ turn_active (agy_turn_snapshot AgyDemo.between_turns) = true
  ∧ agy_child_exit (Some true) (Exited (Some 0%Z)) AgyDemo.between_turns = TCompleted (AlreadyExited (Exited (Some 0%Z))).
Proof. by vm_compute. Qed.

(** A send whose check precedes the consumption of that input starts a second turn. *)
Example overtaken_send_starts_twice :
  let s := (agy_send_turn AgyDemo.to_string AgyDemo.from_str 7 [AgyDemo.frame AgyDemo.user_step] (Ok tt) "c1"
              AgyDemo.between_turns).2 in
  turn_marks (ag_publisher s) = [true; false; true; true].
Proof. by vm_compute. Qed.

(** ** Witnesses *)

Lemma agy_inputs_accounted_witness :
  let s' := agy_run AgyDemo.to_string AgyDemo.from_str AgyDemo.steps AgyDemo.started in
  turn_marks (ag_publisher s') = [true; false; true; false; true]
  ∧ alternates false (turn_marks (ag_publisher s')) = true
  ∧ (generation (ag_turns s') + ag_pending s' = 3)%Z.
Proof.
  intros s'.
  destruct (agy_inputs_accounted AgyDemo.to_string AgyDemo.from_str AgyDemo.steps AgyDemo.started) as [H1 H2].
  - right. by exists 0%Z.
  - by repeat constructor.
  - by vm_compute.
  - split_and!; [by vm_compute | | etrans; [exact H1 | by vm_compute]].
    eapply proj1, H2. vm_compute. repeat split; by right.
Defined.

(** An overtaken send keeps the count, and a send that cannot be written adds a turn
    that no input accounts for. *)
Example unwritten_send_opens_turn :
  let s := agy_run AgyDemo.to_string AgyDemo.from_str (take 6 AgyDemo.steps) AgyDemo.started in
  let r := agy_send_turn AgyDemo.to_string AgyDemo.from_str 7 [] (Err CommandTimeout) "c1" s in
  active (ag_turns s) = false ∧ r.1 = Err CommandTimeout ∧ active (ag_turns r.2) = true.
Proof. by vm_compute. Qed.

Lemma agy_settled_turn_is_final_witness :
  let s := agy_run AgyDemo.to_string AgyDemo.from_str [AgyArrives (AgyDemo.frame AgyDemo.init_line)] AgyDemo.started in
  let r := mk_result_payload "c1" StatusError "half" (Some "interrupted") [] None None None 1 None in
  let s' := project_result 5 r s in
  boundary (ag_turns s') = Some BoundaryFailed ∧ later_results [(6%Z, r); (7%Z, r)] s' = s'.
Proof.
  intros s r s'.
  destruct (agy_settled_turn_is_final 5 r [(6%Z, r); (7%Z, r)] s) as (_ & H1 & _ & H2).
  - split; [by vm_compute | split; by vm_compute].
  - by vm_compute.
  - by vm_compute.
  - by vm_compute.
  - by vm_compute.
  - split; [etrans; [exact H1 | by vm_compute] | exact H2].
Defined.
