(* ===== verification/Transport.v ===== *)
(** * The line transport of a runtime

    [crates/external-runtime/src/lib.rs]: the codecs of a frame, the bounded line reader
    and its loop, the requests a driver has under way and the dispatcher that answers
    them, and the tail of the child's standard error.

    The child's output is a string of bytes and whether it ends in an error.  The line
    bound is an argument, [MAX_NDJSON_LINE_BYTES] in the code.  [serde_json] and the text
    of a parse error are parameters.  A channel between the dispatcher and a waiting
    request is its place in the order they were made; the sender of a channel lives in
    the table of pending requests. *)

From stdpp Require Import gmap strings.
From S2P Require Import Prelude RustStr Utf8 Json Contract Projection RuntimeEvents RuntimeOwner.

(** ** Text of arbitrary bytes *)

(** The character at the head of a string as [core::str] reads it: whether it is well
    formed, and the bytes that belong to it, or to the longest prefix of one. *)
Definition in_range (lo hi : nat) (c : ascii) : bool := Nat.leb lo (code c) && Nat.leb (code c) hi.

Definition second_ok (lead next : nat) : bool :=
  let between lo hi := Nat.leb lo next && Nat.leb next hi in
  match lead with
  | 224 => between 160 191
  | 237 => between 128 159
  | 240 => between 144 191
  | 244 => between 128 143
  | _ => between 128 191
  end.

(** How many of the next [n] bytes continue a character. *)
Fixpoint continues (n : nat) (s : string) : nat :=
  match n, s with
  | S n, String c rest => if is_continuation c then S (continues n rest) else 0
  | _, _ => 0
  end.

Definition char_head (s : string) : bool * nat :=
  match s with
  | EmptyString => (true, 0)
  | String c rest =>
      let b := code c in
      if Nat.ltb b 128 then (true, 1)
      else if in_range 194 223 c then (Nat.eqb (continues 1 rest) 1, 1 + continues 1 rest)
      else if in_range 224 239 c then
        match rest with
        | String d more =>
            if second_ok b (code d) then (Nat.eqb (continues 1 more) 1, 2 + continues 1 more) else (false, 1)
        | EmptyString => (false, 1)
        end
      else if in_range 240 244 c then
        match rest with
        | String d more =>
            if second_ok b (code d) then (Nat.eqb (continues 2 more) 2, 2 + continues 2 more) else (false, 1)
        | EmptyString => (false, 1)
        end
      else (false, 1)
  end.

Definition replacement : string := bytes3 239 191 189.

(** [String::from_utf8_lossy]; every round takes at least one byte. *)
Fixpoint lossy_loop (fuel : nat) (s : string) : string :=
  match fuel, s with
  | S fuel, String _ _ =>
      let '(valid, n) := char_head s in
      (if valid then str_take n s else replacement) +:+ lossy_loop fuel (str_drop n s)
  | _, _ => EmptyString
  end.

Definition from_utf8_lossy (s : string) : string := lossy_loop (String.length s) s.

(** ** Codecs *)

Inductive FrameCodec := ZcodeStrict | JsonRpc2 | Ndjson.

Section codec.
Context (to_string : Value → string) (from_str : string → result string Value) (serde_message : Value → string).

Definition parse_jsonrpc_line (line : string) : result ParseError WireMessage :=
  match from_str line with
  | Err message => Err (InvalidJson message)
  | Ok value =>
      match as_object value with
      | None => Err NotObject
      | Some obj =>
          if bool_decide (field_lookup "jsonrpc" obj = Some (VString "2.0"))
          then parse_line from_str serde_message (to_string (VObject (field_remove "jsonrpc" obj)))
          else Err (InvalidEnvelope "jsonrpc frame must declare version 2.0")
      end
  end.

Definition parse_ndjson_line (line : string) : result ParseError WireMessage :=
  match from_str line with
  | Err message => Err (InvalidJson message)
  | Ok value => Ok (UnknownEvent (default "" (get_str value "event")) value)
  end.

Definition parse_frame (codec : FrameCodec) (line : string) : result ParseError WireMessage :=
  match codec with
  | ZcodeStrict => parse_line from_str serde_message line
  | JsonRpc2 => parse_jsonrpc_line line
  | Ndjson => parse_ndjson_line line
  end.

(** [encode_frame] of a serialized value, and the line [send] writes. *)
Definition encode_frame (codec : FrameCodec) (v : Value) : string :=
  match codec with
  | ZcodeStrict | Ndjson => to_string v
  | JsonRpc2 =>
      to_string match v with VObject obj => VObject (field_insert "jsonrpc" (VString "2.0") obj) | _ => v end
  end.

Definition line_feed : ascii := byte_of 10.
Definition carriage_return : ascii := byte_of 13.

Definition wire_line (codec : FrameCodec) (v : Value) : string := encode_frame codec v +:+ String line_feed EmptyString.

(** ** The bounded reader *)

Section reader.
Context (cap : nat).

Definition strip_cr (line : string) : string :=
  if ends_with line (String carriage_return EmptyString) then str_take (String.length line - 1) line else line.

(** What [read_bounded_line] returns, and the bytes left. *)
Inductive LineRead := LineEnd | LineFailed | Line (line : string) (bytes : nat).

Fixpoint read_bounded (fails : bool) (s line : string) (total : nat) : LineRead * string :=
  match s with
  | EmptyString => ((if fails then LineFailed else if Nat.eqb total 0 then LineEnd else Line line total), EmptyString)
  | String c rest =>
      if Ascii.eqb c line_feed then (Line (strip_cr line) (total + 1), rest)
      else if Nat.ltb (String.length line) cap
           then read_bounded fails rest (line +:+ String c EmptyString) (total + 1)
           else (Line EmptyString (cap + 1), rest)
  end.

Definition read_bounded_line (fails : bool) (s : string) : LineRead * string := read_bounded fails s EmptyString 0.

(** ** The reader's loop *)

Context (debug_error : ParseError → string).

(** The reader's view of the turn, for the order of lifecycle frames. *)
Definition next_turn_active (kind : string) (order : LifecycleOrder) (turn_active : bool) : bool :=
  match order with
  | InOrder =>
      if kind ≟ "turn.started" then true
      else if (kind ≟ "turn.completed") || (kind ≟ "turn.failed") then false else turn_active
  | _ => turn_active
  end.

(** The frames one parsed line gives, in the order they are sent. *)
Definition line_frames (n : Z) (parsed : result ParseError WireMessage) (turn_active : bool) : list Inbound * bool :=
  match parsed with
  | Err e => ([Malformed (debug_error e)], turn_active)
  | Ok message =>
      match message with
      | Event e =>
          match event_type e with
          | Some kind =>
              let order := classify_lifecycle kind turn_active in
              ([Lifecycle n kind order; Message message], next_turn_active kind order turn_active)
          | None => ([Message message], turn_active)
          end
      | _ => ([Message message], turn_active)
      end
  end.

(** [read_loop]: every round that goes on has taken a line of at least one byte, so the
    length of the stream bounds them. *)
Fixpoint read_loop (codec : FrameCodec) (fuel : nat) (fails : bool) (s : string) (n : Z) (turn_active : bool)
    : list Inbound :=
  match fuel with
  | 0 => []
  | S fuel =>
      match read_bounded_line fails s with
      | (Line line bytes, rest) =>
          if Nat.leb bytes cap then
            let '(frames, active) := line_frames (n + 1) (parse_frame codec (from_utf8_lossy line)) turn_active in
            frames ++ read_loop codec fuel fails rest (n + 1) active
          else [OversizedLine (Z.of_nat bytes)]
      | _ => []
      end
  end.

Definition read_stream (codec : FrameCodec) (fails : bool) (s : string) : list Inbound :=
  read_loop codec (S (String.length s)) fails s 0 false.
End reader.
End codec.

(** ** Requests under way *)

(** [ln_keys] has the key of every channel, [ln_mail] what was put into them,
    [ln_out] what went to the subscribers. *)
Record Link := mk_link {
  ln_next : Z; ln_pending : gmap string nat; ln_keys : list string;
  ln_mail : list (nat * result RequestError ResponseEnvelope); ln_out : list Inbound }.

Definition link_new : Link := mk_link 1 ∅ [] [] [].

Definition put_pending_map (m : gmap string nat) (l : Link) : Link :=
  mk_link (ln_next l) m (ln_keys l) (ln_mail l) (ln_out l).
Definition post (mail : list (nat * result RequestError ResponseEnvelope)) (l : Link) : Link :=
  mk_link (ln_next l) (ln_pending l) (ln_keys l) (ln_mail l ++ mail) (ln_out l).
Definition broadcast (e : Inbound) (l : Link) : Link :=
  mk_link (ln_next l) (ln_pending l) (ln_keys l) (ln_mail l) (ln_out l ++ [e]).

(** [reserve_id]: past the last [i64] the counter is set back. *)
Definition reserve_id (l : Link) : WireId * Link :=
  let put n := mk_link n (ln_pending l) (ln_keys l) (ln_mail l) (ln_out l) in
  if Z.leb (ln_next l) i64_max then (Integer (ln_next l), put ((ln_next l + 1) mod 2 ^ 64)%Z) else (Integer 1, put 1%Z).

Section requests.
(** [serde_json::to_string] of an id. *)
Context (response_key : WireId → string).

(** [begin_request_with_id], with what writing the frame gives: the request's key and
    channel. *)
Definition begin_request_with_id (written : result string unit) (id : WireId) (l : Link)
    : result RequestError (string * nat) * Link :=
  let key := response_key id in
  let channel := length (ln_keys l) in
  let l' := mk_link (ln_next l) (<[key := channel]> (ln_pending l)) (ln_keys l ++ [key]) (ln_mail l) (ln_out l) in
  match ln_pending l !! key with
  | Some _ => (Err StreamClosed, l')
  | None =>
      match written with
      | Ok _ => (Ok (key, channel), l')
      | Err message => (Err (WriteFailed message), put_pending_map (delete key (ln_pending l')) l')
      end
  end.

Definition begin_request (written : result string unit) (l : Link) : result RequestError (string * nat) * Link :=
  let '(id, l) := reserve_id l in begin_request_with_id written id l.

(** The end of [wait], [cancel] and the drop of a request. *)
Definition finish_request (key : string) (l : Link) : Link := put_pending_map (delete key (ln_pending l)) l.

(** What [wait] returns for what it received. *)
Definition wait_result (received : option (result RequestError ResponseEnvelope)) : result RequestError ResponseEnvelope :=
  match received with
  | None => Err RequestTimeout
  | Some (Err e) => Err e
  | Some (Ok r) => match resp_error r with Some error => Err (RequestRemote error) | None => Ok r end
  end.

(** A message of the channel, or its disconnection when its sender is gone; [None] while
    the request waits. *)
Definition receive (c : nat) (l : Link) : option (result RequestError ResponseEnvelope) :=
  match list_find (λ m, m.1 = c) (ln_mail l) with
  | Some (_, (_, m)) => Some m
  | None => if bool_decide (map_Exists (λ _ c', c' = c) (ln_pending l)) then None else Some (Err StreamClosed)
  end.

(** ** The dispatcher *)

(** Every waiter is told, in the table's order. *)
Definition drain (e : RequestError) (l : Link) : Link :=
  put_pending_map ∅ (post ((λ kc, (kc.2, Err e)) <$> map_to_list (ln_pending l)) l).

Definition dispatch (e : Inbound) (l : Link) : Link :=
  match e with
  | Message (Response r) =>
      let key := response_key (resp_id r) in
      match ln_pending l !! key with
      | Some c => post [(c, Ok r)] (put_pending_map (delete key (ln_pending l)) l)
      | None =>
          broadcast (UnmatchedResponse (resp_id r) (match resp_error r with Some _ => "error" | None => "result" end)) l
      end
  | ChildExited exit => broadcast e (drain (RequestChildExited exit) l)
  | _ => broadcast e l
  end.

Definition stream_end (l : Link) : Link := drain StreamClosed l.

(** A step: a request begins, one ends, a frame is dispatched, the stream ends. *)
Inductive LinkStep :=
| LinkBegin (written : result string unit)
| LinkBeginWith (id : WireId) (written : result string unit)
| LinkFinish (key : string)
| LinkFrame (e : Inbound)
| LinkEnd.

Definition link_step (l : Link) (s : LinkStep) : Link :=
  match s with
  | LinkBegin written => (begin_request written l).2
  | LinkBeginWith id written => (begin_request_with_id written id l).2
  | LinkFinish key => finish_request key l
  | LinkFrame e => dispatch e l
  | LinkEnd => stream_end l
  end.

Definition link_run (steps : list LinkStep) (l : Link) : Link := fold_left link_step steps l.
End requests.

(** ** Standard error *)

Definition MAX_STDERR_BYTES : nat := 16 * 1024.

(** [drain_stderr] keeps the last bytes; [diagnostic_tail] decodes them and cuts the text
    again, since a replacement can be longer than what it replaces. *)
Definition retain_stderr (retained chunk : string) : string :=
  let all := retained +:+ chunk in str_drop (String.length all - MAX_STDERR_BYTES) all.

Definition drain_stderr (chunks : list string) : string := fold_left retain_stderr chunks EmptyString.

Definition stderr_tail (retained : string) : string :=
  let tail := from_utf8_lossy retained in
  let start := String.length tail - MAX_STDERR_BYTES in
  str_drop (next_boundary (String.length tail - start) tail start) tail.
