(* ===== verification/TransportProps.v ===== *)
(** * Properties of the line transport

    The reader takes a stream of lines apart exactly as they were written, whatever the
    codec, and reports a line above its bound once, with the same count; messages survive
    the trip.  A pending request receives at most one answer, under its own id, and none
    waits on after the child has exited or the stream has ended. *)

From stdpp Require Import gmap strings pretty.
From S2P Require Import Prelude RustStr Utf8 Json Contract Projection RuntimeEvents RuntimeOwner AgyProps Transport.

(** ** Lines *)

Section lines.
Context (cap : nat).

(** A line the writer can put on the wire. *)
Definition plain_line (line : string) : Prop :=
  contains_char line line_feed = false ∧ ends_with line (String carriage_return EmptyString) = false
  ∧ String.length line + 1 ≤ cap ∧ from_utf8_lossy line = line.

Lemma read_bounded_feed fails line rest acc total :
  contains_char line line_feed = false → String.length acc + String.length line ≤ cap →
  read_bounded cap fails (line +:+ String line_feed rest) acc total
  = (Line (strip_cr (acc +:+ line)) (total + String.length line + 1), rest).
Proof.
  revert acc total. induction line as [|c line IH]; intros acc total Hl Hn; cbn [String.append read_bounded].
  - rewrite Ascii.eqb_refl, string_app_nil_r. cbn. by rewrite Nat.add_0_r.
  - rewrite contains_char_cons in Hl. apply orb_false_iff in Hl as [Hc Hl]. cbn [String.length] in *.
    destruct (Ascii.eqb_spec c line_feed) as [->|Hne]; [by rewrite Ascii.eqb_refl in Hc|].
    rewrite (proj2 (Nat.ltb_lt _ _)) by lia. rewrite IH by (rewrite ?string_app_length; cbn; lia || done).
    rewrite string_app_assoc. cbn [String.append]. do 2 f_equal. lia.
Qed.

Lemma read_line_plain fails line rest :
  plain_line line → read_bounded_line cap fails (line +:+ String line_feed rest) = (Line line (String.length line + 1), rest).
Proof.
  intros (Hf & Hc & Hn & _). unfold read_bounded_line. rewrite read_bounded_feed by (cbn; lia || done).
  cbn [String.append]. unfold strip_cr. by rewrite Hc.
Qed.

(** Nothing the reader returns is above the bound but the count it reports. *)
Lemma read_bounded_range fails s acc total l n rest :
  total = String.length acc → String.length acc ≤ cap →
  read_bounded cap fails s acc total = (Line l n, rest) → String.length l ≤ cap ∧ n ≤ cap + 1.
Proof.
  revert acc total. induction s as [|c s IH]; intros acc total -> Ha; cbn [read_bounded].
  - destruct fails; [done|]. destruct (Nat.eqb _ _); [done|]. intros [= <- <- <-]. lia.
  - destruct (Ascii.eqb c line_feed).
    + intros [= <- <- <-]. split; [|lia]. unfold strip_cr. destruct (ends_with _ _); [|done].
      rewrite str_take_length. lia.
    + destruct (Nat.ltb_spec (String.length acc) cap).
      * apply IH; rewrite string_app_length; cbn; lia.
      * intros [= <- <- <-]. cbn. lia.
Qed.

(** A line is oversized with one count only. *)
Lemma oversized_count fails s l n rest :
  read_bounded_line cap fails s = (Line l n, rest) → cap < n → n = cap + 1.
Proof. intros H Hn. destruct (read_bounded_range fails s "" 0 l n rest) as [_ ?]; [done | cbn; lia | done | lia]. Qed.
End lines.

(** ** The loop *)

Section loop.
Context (to_string : Value → string) (from_str : string → result string Value) (serde_message : Value → string)
  (cap : nat) (debug_error : ParseError → string).

Notation parse_frame := (parse_frame to_string from_str serde_message).
Notation read_loop := (read_loop to_string from_str serde_message cap debug_error).
Notation read_stream := (read_stream to_string from_str serde_message cap debug_error).

(** The frames of a list of lines, one line after the other. *)
Fixpoint frames_of (codec : FrameCodec) (lines : list string) (n : Z) (active : bool) : list Inbound :=
  match lines with
  | [] => []
  | line :: rest =>
      let r := line_frames debug_error (n + 1) (parse_frame codec line) active in
      r.1 ++ frames_of codec rest (n + 1) r.2
  end.

Definition stream_of (lines : list string) : string :=
  foldr (λ line rest, line +:+ String line_feed rest) EmptyString lines.

Lemma stream_length line lines : S (String.length (stream_of lines)) ≤ String.length (stream_of (line :: lines)).
Proof. cbn [stream_of foldr]. rewrite string_app_length. cbn. fold (stream_of lines). lia. Qed.

Lemma read_loop_lines codec fails lines fuel n active :
  Forall (plain_line cap) lines → String.length (stream_of lines) < fuel →
  read_loop codec fuel fails (stream_of lines) n active = frames_of codec lines n active.
Proof.
  intros Hl. revert fuel n active. induction Hl as [|line lines Hp Hl IH]; intros fuel n active Hf.
  - destruct fuel; [done|]. cbn. by destruct fails.
  - pose proof (stream_length line lines). destruct fuel as [|fuel]; [lia|].
    cbn [Transport.read_loop]. change (stream_of (line :: lines)) with (line +:+ String line_feed (stream_of lines)).
    rewrite (read_line_plain cap fails line (stream_of lines) Hp).
    destruct Hp as (_ & _ & Hn & Hu). rewrite (proj2 (Nat.leb_le _ _)) by done. rewrite Hu.
    cbn [frames_of]. destruct (line_frames _ _ _ _) as [fs a]. cbn [fst snd]. f_equal. apply IH. lia.
Qed.

(** A stream of plain lines is taken apart as it was put together, every line parsed
    once and in order, a malformed one among them reported and skipped. *)
Lemma reader_reassembles codec fails lines :
  Forall (plain_line cap) lines → read_stream codec fails (stream_of lines) = frames_of codec lines 0 false.
Proof. intros Hl. apply read_loop_lines; [done | lia]. Qed.

(** The codec of agy never delivers a frame that names a turn: what the adapter's turns
    rely on. *)
Lemma ndjson_frames_raw fails s : Forall raw_inbound (read_stream Ndjson fails s).
Proof.
  unfold Transport.read_stream. generalize (S (String.length s)), 0%Z, false. intros fuel. revert s.
  induction fuel as [|fuel IH]; intros s n active; [done|]. cbn [Transport.read_loop].
  destruct (read_bounded_line cap fails s) as [[| |line bytes] rest]; [done | done |].
  destruct (Nat.leb bytes cap); [|by apply Forall_singleton].
  cbn [Transport.parse_frame]. unfold parse_ndjson_line. destruct (from_str _); cbn [line_frames];
    (apply Forall_cons; split; [done | apply IH]).
Qed.

(** *** Messages *)

Definition outbound (m : WireMessage) : option Value :=
  match m with
  | Request r => Some (encode_request r)
  | Response r => Some (encode_response r)
  | _ => None
  end.

(** What the protocol lets a side send. *)
Definition sendable (m : WireMessage) : Prop :=
  match m with
  | Request r => wire_id_ok (req_id r)
  | Response r => wire_id_ok (resp_id r)
      ∧ ∃ body, is_null body = false ∧ (r = success (resp_id r) body ∨ r = failure (resp_id r) body)
  | _ => False
  end.

(** The frame of a message as a line the reader accepts, with what [serde_json] promises
    of the values it prints: they parse back. *)
Definition serde_ok (v : Value) : Prop := from_str (to_string v) = Ok v.

Definition framed_value (codec : FrameCodec) (v : Value) : Value :=
  match codec, v with JsonRpc2, VObject obj => VObject (field_insert "jsonrpc" (VString "2.0") obj) | _, _ => v end.

Record sent_as (codec : FrameCodec) (m : WireMessage) (line : string) : Prop := {
  sent_ok : sendable m;
  sent_value : ∃ v, outbound m = Some v ∧ line = encode_frame to_string codec v ∧ serde_ok v ∧ serde_ok (framed_value codec v);
  sent_line : plain_line cap line }.

Lemma parse_strict m v : sendable m → outbound m = Some v → serde_ok v →
  parse_line from_str serde_message (to_string v) = Ok m.
Proof.
  destruct m as [r|r|e|method raw]; cbn [outbound sendable]; intros Hs [= <-] Hv.
  - by apply (request_round_trip from_str serde_message _ r None).
  - destruct Hs as [Hid (body & Hb & Hr)].
    revert Hid Hr. generalize (resp_id r) as id. intros id Hid [-> | ->];
      [apply (response_round_trip from_str serde_message _ id body true)
      |apply (response_round_trip from_str serde_message _ id body false)]; done.
Qed.

Lemma parse_sent codec m line : codec ≠ Ndjson → sent_as codec m line → parse_frame codec line = Ok m.
Proof.
  intros Hc [Hs (v & Ho & -> & Hv & Hf) _]. destruct codec; cbn [Transport.parse_frame encode_frame]; [|clear Hc|done].
  - by apply parse_strict.
  - unfold parse_jsonrpc_line.
    assert (∃ obj, v = VObject obj ∧ field_lookup "jsonrpc" (field_insert "jsonrpc" (VString "2.0") obj) = Some (VString "2.0")
            ∧ field_remove "jsonrpc" (field_insert "jsonrpc" (VString "2.0") obj) = obj) as (obj & -> & E1 & E2).
    { destruct m as [r|r|e|method raw]; cbn [outbound sendable] in Hs, Ho; try done; injection Ho as <-.
      - eexists. split; [done|]. split; done.
      - destruct Hs as [_ (body & _ & Hr)]. revert Hr. generalize (resp_id r) as id. intros id [-> | ->]; (eexists; split; [reflexivity|]; split; reflexivity). }
    cbn [framed_value] in Hf. unfold serde_ok in Hf. rewrite Hf. cbn [as_object]. rewrite bool_decide_true by done.
    rewrite E2. by apply parse_strict.
Qed.

(** C30. Requests and responses written to a child line by line come out of the reader as
    the same messages in the same order, under the strict codec and under JSON-RPC 2.0
    alike: framing, the version field and the bound lose and reorder nothing. *)
Theorem messages_survive_wire codec fails ms lines :
  codec ≠ Ndjson → Forall2 (sent_as codec) ms lines →
  read_stream codec fails (stream_of lines) = Message <$> ms.
Proof.
  intros Hc H. rewrite reader_reassembles.
  - generalize 0%Z, false. induction H as [|m line ms lines Hm H IH]; intros n active; [done|].
    cbn [frames_of]. rewrite (parse_sent codec m line Hc Hm). destruct Hm as [Hs _ _].
    destruct m; try done; cbn; by rewrite IH.
  - apply Forall_forall. intros line Hi. apply list_elem_of_lookup in Hi as [i Hi].
    destruct (Forall2_lookup_r _ _ _ _ _ H Hi) as (m & _ & [_ _ ?]). done.
Qed.
End loop.

(** ** Requests *)

Section links.
Context (response_key : WireId → string).

Implicit Types l : Link.

(** The table holds unanswered channels under their own keys; a channel receives at most
    one message, a response only under its key. *)
Record link_ok l : Prop := {
  pending_keyed key c : ln_pending l !! key = Some c → ln_keys l !! c = Some key;
  pending_unanswered key c : ln_pending l !! key = Some c → c ∉ (ln_mail l).*1;
  mail_once : NoDup (ln_mail l).*1;
  mail_keyed c m : (c, m) ∈ ln_mail l →
    ∃ key, ln_keys l !! c = Some key ∧ ∀ r, m = Ok r → response_key (resp_id r) = key }.

Lemma link_new_ok : link_ok link_new.
Proof. split; cbn; [done | done | apply NoDup_nil_2 | by intros c m H%not_elem_of_nil]. Qed.

Lemma key_owner l key key' c :
  link_ok l → ln_pending l !! key = Some c → ln_pending l !! key' = Some c → key = key'.
Proof. intros H H1%(pending_keyed l H) H2%(pending_keyed l H). congruence. Qed.

(** Fewer entries, and nothing else. *)
Lemma link_ok_sub m l : link_ok l → m ⊆ ln_pending l → link_ok (put_pending_map m l).
Proof.
  intros [Hk Hu Hn Hm] Hs. split; cbn; [| |done|done]; intros key c Hc; eauto using lookup_weaken.
Qed.

Lemma link_ok_finish key l : link_ok l → link_ok (finish_request key l).
Proof. intros H. apply link_ok_sub; [done | apply delete_subseteq]. Qed.

Lemma link_ok_broadcast e l : link_ok l → link_ok (broadcast e l).
Proof. by intros []. Qed.

Lemma link_ok_next n l : link_ok l → link_ok (mk_link n (ln_pending l) (ln_keys l) (ln_mail l) (ln_out l)).
Proof. by intros []. Qed.

Lemma mail_range l c : link_ok l → c ∈ (ln_mail l).*1 → c < length (ln_keys l).
Proof.
  intros H [[c' m] [-> Hm]]%list_elem_of_fmap. destruct (mail_keyed l H c' m Hm) as (key & Hk & _).
  by eapply lookup_lt_Some.
Qed.

(** A new channel. *)
Lemma link_ok_begin l key :
  link_ok l →
  link_ok (mk_link (ln_next l) (<[key := length (ln_keys l)]> (ln_pending l)) (ln_keys l ++ [key]) (ln_mail l) (ln_out l)).
Proof.
  intros H. pose proof H as [Hk Hu Hn Hm]. split; cbn.
  - intros k c [[<- <-]|[_ Hc]]%lookup_insert_Some; [by rewrite lookup_app_r, Nat.sub_diag by lia|].
    apply lookup_app_l_Some. eauto.
  - intros k c [[<- <-]|[_ Hc]]%lookup_insert_Some; [|eauto]. intros Hi%(mail_range l _ H). lia.
  - done.
  - intros c m Hi. destruct (Hm c m Hi) as (k & E & ?). exists k. split; [by apply lookup_app_l_Some | done].
Qed.

Lemma link_ok_begin_with written id l : link_ok l → link_ok (begin_request_with_id response_key written id l).2.
Proof.
  intros H. unfold begin_request_with_id. pose proof (link_ok_begin l (response_key id) H) as H'.
  destruct (ln_pending l !! response_key id); [done|]. destruct written; [done|].
  apply (link_ok_sub _ _ H'), delete_subseteq.
Qed.

(** An answer taken out of the table. *)
Lemma link_ok_answer l r c :
  link_ok l → ln_pending l !! response_key (resp_id r) = Some c →
  link_ok (post [(c, Ok r)] (put_pending_map (delete (response_key (resp_id r)) (ln_pending l)) l)).
Proof.
  intros H Hc. pose proof H as [Hk Hu Hn Hm]. split; cbn.
  - intros k c' [_ Hc']%lookup_delete_Some. eauto.
  - intros k c' [Hne Hc']%lookup_delete_Some. rewrite fmap_app. intros [Hi|Hi]%elem_of_app; [by eapply Hu|].
    apply list_elem_of_singleton in Hi. cbn in Hi. subst c'. by apply Hne, (key_owner l _ _ c).
  - rewrite fmap_app. apply NoDup_app. split_and!; [done | | apply NoDup_singleton].
    intros x Hx Hs%list_elem_of_singleton. cbn in Hs. subst x. by eapply Hu.
  - intros c' m [Hi|Hi]%elem_of_app; [eauto|]. apply list_elem_of_singleton in Hi. injection Hi as -> ->.
    exists (response_key (resp_id r)). split; [by apply Hk|]. by intros r' [= <-].
Qed.

(** The channels a drain posts to are the ones of the table. *)
Lemma drained_channels e l :
  ((λ kc : string * nat, (kc.2, (Err e : result RequestError ResponseEnvelope))) <$> map_to_list (ln_pending l)).*1
  = (map_to_list (ln_pending l)).*2.
Proof. rewrite <- list_fmap_compose. by apply list_fmap_ext. Qed.

Lemma table_channels l c : c ∈ (map_to_list (ln_pending l)).*2 ↔ ∃ key, ln_pending l !! key = Some c.
Proof.
  rewrite list_elem_of_fmap. split.
  - intros [[key c'] [-> H%elem_of_map_to_list]]. by exists key.
  - intros [key H]. exists (key, c). by rewrite elem_of_map_to_list.
Qed.

Lemma table_channels_nodup l : link_ok l → NoDup (map_to_list (ln_pending l)).*2.
Proof.
  intros H. apply NoDup_fmap_2_strong; [|apply NoDup_map_to_list].
  intros [k c] [k' c'] Hx%elem_of_map_to_list Hy%elem_of_map_to_list. cbn. intros <-.
  by rewrite (key_owner l k k' c).
Qed.

Lemma link_ok_drain e l : link_ok l → link_ok (drain e l).
Proof.
  intros H. pose proof H as [Hk Hu Hn Hm]. unfold drain. split; cbn; [done | done | |].
  - rewrite fmap_app, drained_channels. apply NoDup_app. split_and!; [done | | by apply table_channels_nodup].
    intros c Hc [key Hp]%table_channels. by eapply Hu.
  - intros c m [Hi|Hi]%elem_of_app; [eauto|]. apply list_elem_of_fmap in Hi as [[key c'] [[= -> ->] Hi]].
    apply elem_of_map_to_list in Hi. exists key. split; [by apply Hk | done].
Qed.

Lemma link_ok_step s l : link_ok l → link_ok (link_step response_key l s).
Proof.
  intros H. destruct s as [written|id written|key|e|]; cbn [link_step].
  - unfold begin_request. destruct (reserve_id l) as [id l'] eqn:E. apply link_ok_begin_with.
    revert E. unfold reserve_id. destruct (Z.leb _ _); intros [= _ <-]; by apply link_ok_next.
  - by apply link_ok_begin_with.
  - by apply link_ok_finish.
  - destruct e as [[r|r|v|method raw]| | | | |]; cbn [dispatch]; try by apply link_ok_broadcast.
    + destruct (ln_pending l !! response_key (resp_id r)) eqn:E; [by apply link_ok_answer | by apply link_ok_broadcast].
    + by apply link_ok_broadcast, link_ok_drain.
  - by apply link_ok_drain.
Qed.

Lemma link_run_ok steps l : link_ok l → link_ok (link_run response_key steps l).
Proof. revert l. induction steps as [|s steps IH]; intros l H; [done|]. by apply IH, link_ok_step. Qed.

(** With an empty table nobody waits. *)
Lemma empty_table_answers c l : ln_pending l = ∅ → receive c l ≠ None.
Proof.
  intros E. unfold receive. rewrite E. destruct (list_find _ _) as [[i [c' m]]|]; [done|].
  rewrite bool_decide_false; [done|]. intros (k & c' & H & _). done.
Qed.

(** Where a waiter is told. *)
Definition tells (s : LinkStep) : bool :=
  match s with LinkEnd | LinkFrame (ChildExited _) => true | _ => false end.

(** C13. Whatever requests begin, end and are answered, in any order: a request is given
    at most one message; a response it is given carries its own id; and once the child's
    exit or the end of the stream has been dispatched, no request begun before keeps
    waiting. *)
Theorem requests_answered_once steps s :
  let l := link_run response_key steps link_new in
  NoDup (ln_mail l).*1
  ∧ (∀ c r, (c, Ok r) ∈ ln_mail l → ln_keys l !! c = Some (response_key (resp_id r)))
  ∧ (tells s = true → ∀ c, receive c (link_step response_key l s) ≠ None).
Proof.
  cbv zeta. pose proof (link_run_ok steps link_new link_new_ok) as H. split_and!.
  - apply H.
  - intros c r Hi. destruct (mail_keyed _ H c (Ok r) Hi) as (key & E & Hr). by rewrite E, (Hr r).
  - intros Ht c. apply empty_table_answers. destruct s as [| | |[]|]; done.
Qed.

(** A response answers exactly the request of its id, once it is in the table. *)
Lemma response_delivered r c l :
  link_ok l → ln_pending l !! response_key (resp_id r) = Some c →
  receive c (dispatch response_key (Message (Response r)) l) = Some (Ok r).
Proof.
  intros H Hc. cbn [dispatch]. rewrite Hc. unfold receive. cbn [ln_mail post put_pending_map].
  assert (list_find (λ m : nat * result RequestError ResponseEnvelope, m.1 = c) (ln_mail l ++ [(c, Ok r)])
          = Some (length (ln_mail l), (c, Ok r))) as ->; [|done].
  apply list_find_app_Some. right. rewrite Nat.sub_diag. cbn. rewrite decide_True by done. split_and!; [done | | done].
  apply list_find_None, Forall_forall. intros [c' m] Hi Hc'. cbn in Hc'. subst c'.
  eapply (pending_unanswered l H); [done|]. apply list_elem_of_fmap. by exists (c, m).
Qed.
End links.

(** ** The tail of standard error *)

Lemma retain_bounded retained chunk : String.length (retain_stderr retained chunk) ≤ MAX_STDERR_BYTES.
Proof. unfold retain_stderr. rewrite str_drop_length. lia. Qed.

Lemma stderr_tail_bounded retained : String.length (stderr_tail retained) ≤ MAX_STDERR_BYTES.
Proof.
  unfold stderr_tail. set (tail := from_utf8_lossy retained). set (start := String.length tail - MAX_STDERR_BYTES).
  destruct (next_boundary_spec (String.length tail - start) tail start) as (_ & H & _); [lia..|].
  rewrite str_drop_length. lia.
Qed.

(** ** Boundary cases *)

Module TransportDemo.
Definition key (id : WireId) : string := match id with Integer n => pretty n | StringId s => s end.

(** One request and one response, printed by a table. *)
Definition request : WireMessage := Request (mk_request (Integer 1) "session/new" VNull).
Definition response : WireMessage := Response (success (Integer 7) (VBool true)).
Definition value_of (m : WireMessage) : Value := default VNull (outbound m).
Definition table : list (string * Value) :=
  [("request", framed_value JsonRpc2 (value_of request)); ("response", framed_value JsonRpc2 (value_of response));
   ("bare request", value_of request); ("bare response", value_of response)].
Definition from_str (line : string) : result string Value :=
  match list_find (λ x, x.1 = line) table with Some (_, (_, v)) => Ok v | None => Err "unknown line" end.
Definition to_string (v : Value) : string :=
  match list_find (λ x, x.2 = v) table with Some (_, (line, _)) => line | None => "" end.
End TransportDemo.

(** A second request under a pending id fails, and disconnects the first one, whose answer
    then reaches nobody. *)
Example duplicate_id_displaces_first :
  let '(first, l) := begin_request_with_id TransportDemo.key (Ok tt) (Integer 5) link_new in
  let '(second, l) := begin_request_with_id TransportDemo.key (Ok tt) (Integer 5) l in
  let l := dispatch TransportDemo.key (Message (Response (success (Integer 5) (VBool true)))) l in
  first = Ok ("5", 0) ∧ second = Err StreamClosed ∧ receive 0 l = Some (Err StreamClosed) ∧ ln_out l = [].
Proof. by vm_compute. Qed.

(** Past the last [i64] the id 1 is given out twice in a row. *)
Example exhausted_ids_repeat :
  let l := mk_link (2 ^ 63) ∅ [] [] [] in
  (reserve_id l).1 = Integer 1 ∧ (reserve_id (reserve_id l).2).1 = Integer 1.
Proof. by vm_compute. Qed.

(** ** Witnesses *)

Lemma messages_survive_wire_witness :
  read_stream TransportDemo.to_string TransportDemo.from_str (λ _, "") 64 (λ _, "malformed") JsonRpc2 false
    (stream_of ["request"; "response"]) = [Message TransportDemo.request; Message TransportDemo.response].
Proof.
  apply (messages_survive_wire TransportDemo.to_string TransportDemo.from_str (λ _, "") 64 (λ _, "malformed") JsonRpc2 false
    [TransportDemo.request; TransportDemo.response]); [done|].
  apply Forall2_cons. split; [|apply Forall2_cons; split; [|by apply Forall2_nil]]; split.
  - split; by vm_compute.
  - exists (TransportDemo.value_of TransportDemo.request). split_and!; by vm_compute.
  - split_and!; [by vm_compute | by vm_compute | cbn; lia | by vm_compute].
  - split; [split; by vm_compute|]. exists (VBool true). split; [done | by left].
  - exists (TransportDemo.value_of TransportDemo.response). split_and!; by vm_compute.
  - split_and!; [by vm_compute | by vm_compute | cbn; lia | by vm_compute].
Defined.

Lemma requests_answered_once_witness :
  let l := link_run TransportDemo.key
             [LinkBegin (Ok tt); LinkBegin (Ok tt); LinkFrame (Message (Response (success (Integer 2) (VBool true))))] link_new in
  receive 1 l = Some (Ok (success (Integer 2) (VBool true))) ∧ receive 0 l = None
  ∧ receive 0 (link_step TransportDemo.key l LinkEnd) ≠ None ∧ NoDup (ln_mail l).*1.
Proof.
  intros l. pose proof (requests_answered_once TransportDemo.key
    [LinkBegin (Ok tt); LinkBegin (Ok tt); LinkFrame (Message (Response (success (Integer 2) (VBool true))))] LinkEnd)
    as (H1 & _ & H3).
  split_and!; [by vm_compute | by vm_compute | exact (H3 eq_refl 0) | exact H1].
Defined.
