(* ===== verification/ReaperProps.v ===== *)
(** * Properties of reaping

    A signal goes only to the group of the identity the caller holds, right after an
    observation in which every member belongs to it; success means the group was last seen
    empty.  One thread at a time performs a stop, every other caller is answered with what
    a performer reported, and nobody waits for a thread that is not there. *)

From stdpp Require Import relations.
From S2P Require Import Prelude RustStr RuntimeEvents RuntimeOwner Reaper.

(** ** Lawful traces *)

(** The last look at a group. *)
Definition group_look (e : OsEvent) : option (Z * result IoError (list ProcessIdentity)) :=
  match e with Members g r => Some (g, r) | _ => None end.
Definition last_members (t : Trace) : option (Z * result IoError (list ProcessIdentity)) := last (omap group_look t).

(** The leader was seen as it was recorded, or it is gone. *)
Definition leader_checked (i : ProcessIdentity) (t : Trace) : Prop :=
  Looked (pid i) (Ok i) ∈ t ∨ ∃ m, Looked (pid i) (Err (KNotFound, m)) ∈ t.

(** The group was last seen with members of its own only; and as empty. *)
Definition seen_owned (i : ProcessIdentity) (t : Trace) : Prop :=
  (1 < pgid i)%Z ∧ ∃ members, last_members t = Some (pgid i, Ok members) ∧ Forall (λ m, member_ok i m = true) members.
Definition seen_empty (i : ProcessIdentity) (t : Trace) : Prop := last_members t = Some (pgid i, Ok []).

(** Every signal goes to the group, with that evidence before it. *)
Definition lawful (i : ProcessIdentity) (t : Trace) : Prop :=
  ∀ before target signal after, t = before ++ Signalled target signal :: after →
    target = (- pgid i)%Z ∧ (signal = TERM_SIGNAL ∨ signal = KILL_SIGNAL)
    ∧ leader_checked i before ∧ seen_owned i before.

Lemma lawful_nil i : lawful i [].
Proof. intros before ? ? after H. by destruct before. Qed.

Lemma lawful_quiet i t e : lawful i t → (∀ target signal, e ≠ Signalled target signal) → lawful i (t ++ [e]).
Proof.
  intros H He before target signal after E. destruct after as [|x after _] using rev_ind.
  - apply app_inj_tail in E as [_ ->]. by destruct (He target signal).
  - rewrite app_comm_cons, app_assoc in E. apply app_inj_tail in E as [-> _]. by eapply H.
Qed.

Lemma lawful_signal i t signal :
  lawful i t → signal = TERM_SIGNAL ∨ signal = KILL_SIGNAL → leader_checked i t → seen_owned i t →
  lawful i (t ++ [Signalled (- pgid i) signal]).
Proof.
  intros H Hs Hl Ho before target signal' after E. destruct after as [|x after _] using rev_ind.
  - apply app_inj_tail in E as [<- [= <- <-]]. done.
  - rewrite app_comm_cons, app_assoc in E. apply app_inj_tail in E as [-> _]. by eapply H.
Qed.

Lemma last_members_look t g r : last_members (t ++ [Members g r]) = Some (g, r).
Proof. unfold last_members. rewrite omap_app. apply last_snoc. Qed.

(** ** Programs *)

Section programs.
Context (platform_process : Trace → Z → result IoError ProcessIdentity)
  (platform_group : Trace → Z → result IoError (list ProcessIdentity))
  (kill : Trace → Z → Z → KillAnswer) (try_wait : Trace → result IoError (option ChildExit)).
Context (i : ProcessIdentity).

(** A program keeps the trace lawful, only adds to it, and ends as [Q] says when it
    returns. *)
Definition hoare {A} (P : Trace → Prop) (m : Os A) (Q : A → Trace → Prop) : Prop :=
  ∀ t, lawful i t → P t →
    lawful i (m t).2 ∧ t `prefix_of` (m t).2 ∧ ∀ a, (m t).1 = Ok a → Q a (m t).2.

Definition stable (F : Trace → Prop) : Prop := ∀ t t', t `prefix_of` t' → F t → F t'.

Lemma checked_stable : stable (leader_checked i).
Proof. intros t t' [k ->] [H|[m H]]; [left|right; exists m]; apply elem_of_app; by left. Qed.

Lemma hoare_ret {A} (a : A) P (Q : A → Trace → Prop) : (∀ t, P t → Q a t) → hoare P (mret a) Q.
Proof. intros H t Hl HP. split_and!; [done | done |]. intros b [= <-]. by apply H. Qed.
Lemma hoare_fail {A} e P (Q : A → Trace → Prop) : hoare P (os_fail e) Q.
Proof. by intros t Hl HP; split_and!. Qed.
Lemma hoare_lift {A} (r : result IoError A) P (Q : A → Trace → Prop) : (∀ a t, r = Ok a → P t → Q a t) → hoare P (os_lift r) Q.
Proof. intros H t Hl HP. split_and!; [done | done |]. intros a E. by apply H. Qed.

Lemma hoare_bind {A B} (m : Os A) (f : A → Os B) P Q R :
  hoare P m Q → (∀ a, hoare (Q a) (f a) R) → hoare P (m ≫= f) R.
Proof.
  intros Hm Hf t Hl HP. destruct (Hm t Hl HP) as (H1 & H2 & H3). unfold mbind, os_bind.
  destruct (m t) as [[a|e] t1]; cbn [fst snd] in *; [|done].
  destruct (Hf a t1 H1 (H3 a eq_refl)) as (H4 & H5 & H6). split_and!; [done | by etrans | done].
Qed.

Lemma hoare_try {A} (m : Os A) P (Q : A → Trace → Prop) :
  hoare P m Q → hoare P (os_try m) (λ r t, ∀ a, r = Ok a → Q a t).
Proof.
  intros Hm t Hl HP. destruct (Hm t Hl HP) as (H1 & H2 & H3). unfold os_try. destruct (m t) as [r t1].
  split_and!; [done | done |]. intros r' [= <-]. done.
Qed.

Lemma hoare_weaken {A} (m : Os A) (P P' : Trace → Prop) (Q Q' : A → Trace → Prop) :
  hoare P m Q → (∀ t, P' t → P t) → (∀ a t, Q a t → Q' a t) → hoare P' m Q'.
Proof. intros Hm HP HQ t Hl H. destruct (Hm t Hl (HP t H)) as (H1 & H2 & H3). split_and!; auto. Qed.

Lemma hoare_frame {A} (m : Os A) (F P : Trace → Prop) (Q : A → Trace → Prop) :
  stable F → hoare P m Q → hoare (λ t, F t ∧ P t) m (λ a t, F t ∧ Q a t).
Proof.
  intros HF Hm t Hl [Hf HP]. destruct (Hm t Hl HP) as (H1 & H2 & H3). split_and!; [done | done |]. eauto.
Qed.

(** Any answer is fine after a program that needs nothing. *)
Definition harmless {A} (m : Os A) : Prop := hoare (λ _, True) m (λ _ _, True).

Lemma observe_process_spec p :
  hoare (λ _, True) (observe_process platform_process p)
    (λ found t, Looked p (Ok found) ∈ t).
Proof.
  intros t Hl _. unfold observe_process. destruct (_ || _); [by split_and!|]. cbn [fst snd].
  split_and!; [by apply lawful_quiet | by eexists |]. intros found ->. apply elem_of_app. right.
  by apply list_elem_of_singleton.
Qed.

(** A look that finds nobody is in the trace as such. *)
Lemma observe_try_spec p :
  hoare (λ _, True) (os_try (observe_process platform_process p))
    (λ r t, (∀ found, r = Ok found → Looked p (Ok found) ∈ t)
            ∧ (∀ m, r = Err (KNotFound, m) → Looked p (Err (KNotFound, m)) ∈ t)).
Proof.
  intros t Hl _. unfold os_try, observe_process. destruct (_ || _).
  { split_and!; [done | done |]. intros r [= <-]. done. }
  split_and!; [by apply lawful_quiet | by eexists |]. cbn [fst snd]. intros r [= <-].
  split; intros ? ->; apply elem_of_app; right; by apply list_elem_of_singleton.
Qed.

Lemma try_wait_spec : harmless (child_try_wait try_wait).
Proof. intros t Hl _. split_and!; [by apply lawful_quiet | by eexists | done]. Qed.

Lemma group_once_spec g : hoare (λ _, True) (group_once platform_group g) (λ ms t, last_members t = Some (g, Ok ms)).
Proof.
  intros t Hl _. split_and!; [by apply lawful_quiet | by eexists |]. cbn [fst snd group_once].
  intros ms ->. apply last_members_look.
Qed.

Lemma observe_retry_spec rounds o g :
  hoare (λ _, True) (observe_retry platform_group rounds o g) (λ ms t, last_members t = Some (g, Ok ms)).
Proof.
  revert o. induction rounds as [|rounds IH]; intros o; cbn [observe_retry]; [apply hoare_fail|].
  eapply hoare_bind; [apply hoare_try, group_once_spec|]. intros [ms|[k m]]; cbn beta.
  - apply hoare_ret. intros t H. by apply H.
  - destruct k; try apply hoare_fail. eapply hoare_weaken; [apply IH | done | done].
Qed.

Lemma observe_group_spec g :
  hoare (λ _, True) (observe_process_group platform_group g) (λ ms t, last_members t = Some (g, Ok ms)).
Proof.
  unfold observe_process_group. eapply hoare_bind; [by apply (hoare_lift _ _ (λ _ _, True))|].
  intros target. apply observe_retry_spec.
Qed.

(** *** Polls *)

Notation observe_group := (observe_process_group platform_group (pgid i)).

Lemma observe_group_try :
  hoare (λ _, True) (os_try observe_group) (λ r t, ∀ ms, r = Ok ms → last_members t = Some (pgid i, Ok ms)).
Proof. apply hoare_try, observe_group_spec. Qed.

Lemma death_poll_spec rounds exit :
  hoare (λ _, True) (death_poll platform_group try_wait rounds exit (pgid i)) (λ o t, is_Some o → seen_empty i t).
Proof.
  revert exit. induction rounds as [|rounds IH]; intros exit; cbn [death_poll];
    (eapply (hoare_bind _ _ _ (λ _ _, True)); [destruct exit; [by apply hoare_ret | apply try_wait_spec]|]);
    intros e; (eapply hoare_bind; [apply observe_group_try|]); intros [ms|err]; cbv zeta beta.
  - destruct (bool_decide_reflect (ms = [])) as [->|]; [|by apply hoare_ret; intros t _ []].
    destruct e; [|by apply hoare_ret; intros t _ []]. apply hoare_ret. intros t H _. by apply H.
  - destruct (would_block err); [by apply hoare_ret; intros t _ [] | apply hoare_fail].
  - destruct (bool_decide_reflect (ms = [])) as [->|]; [|by eapply hoare_weaken; [apply IH | done | done]].
    destruct e; [|by eapply hoare_weaken; [apply IH | done | done]]. apply hoare_ret. intros t H _. by apply H.
  - destruct (would_block err); [by eapply hoare_weaken; [apply IH | done | done] | apply hoare_fail].
Qed.

Lemma group_death_spec rounds :
  hoare (λ _, True) (wait_for_group_death platform_group try_wait rounds (pgid i)) (λ o t, is_Some o → seen_empty i t).
Proof. apply death_poll_spec. Qed.

Lemma persisted_death_spec rounds :
  hoare (λ _, True) (wait_for_persisted_group_death platform_group rounds (pgid i)) (λ b t, b = true → seen_empty i t).
Proof.
  induction rounds as [|rounds IH]; cbn [wait_for_persisted_group_death];
    (eapply hoare_bind; [apply observe_group_try|]); intros [ms|err]; cbv zeta beta.
  - destruct (bool_decide_reflect (ms = [])) as [->|]; apply hoare_ret; [|done]. intros t H _. by apply H.
  - destruct (would_block err); [by apply hoare_ret | apply hoare_fail].
  - destruct (bool_decide_reflect (ms = [])) as [->|]; [|by eapply hoare_weaken; [apply IH | done | done]].
    apply hoare_ret. intros t H _. by apply H.
  - destruct (would_block err); [by eapply hoare_weaken; [apply IH | done | done] | apply hoare_fail].
Qed.

Lemma ensure_empty_spec rounds :
  hoare (λ _, True) (ensure_group_empty platform_group rounds (pgid i)) (λ _ t, seen_empty i t).
Proof.
  induction rounds as [|rounds IH]; cbn [ensure_group_empty];
    (eapply hoare_bind; [apply observe_group_try|]); intros [ms|err]; cbv zeta beta; try apply hoare_fail.
  - destruct (bool_decide_reflect (ms = [])) as [->|]; [|apply hoare_fail]. apply hoare_ret. intros t H. by apply H.
  - destruct (bool_decide_reflect (ms = [])) as [->|]; [|apply hoare_fail]. apply hoare_ret. intros t H. by apply H.
  - destruct (would_block err); [by eapply hoare_weaken; [apply IH | done | done] | apply hoare_fail].
Qed.

(** *** Evidence *)

Lemma live_group_ok ms : validate_live_group_after_term i ms = Ok tt → (1 < pgid i)%Z ∧ Forall (λ m, member_ok i m = true) ms.
Proof.
  unfold validate_live_group_after_term, validate_group_target. destruct (Z.leb_spec (pgid i) 1); [done|]. cbn [orb].
  destruct (Z.eqb _ _); [done|]. cbn [mbind result_bind]. destruct (forallb _ _) eqn:E; [|done]. intros _.
  split; [done|]. apply Forall_forall. intros m Hm. rewrite forallb_forall in E. by apply E, list_elem_of_In.
Qed.

Lemma owned_group_ok ms : validate_owned_group i ms = Ok tt → (1 < pgid i)%Z ∧ Forall (λ m, member_ok i m = true) ms.
Proof. unfold validate_owned_group. destruct (negb _); [done|]. apply live_group_ok. Qed.

(** A check that passes has seen the group and found it owned. *)
Lemma check_spec (check : list ProcessIdentity → result IoError unit) :
  (∀ ms, check ms = Ok tt → (1 < pgid i)%Z ∧ Forall (λ m, member_ok i m = true) ms) →
  hoare (leader_checked i) (members ← observe_group; os_lift (check members))
    (λ _ t, leader_checked i t ∧ seen_owned i t).
Proof.
  intros Hc. eapply hoare_bind.
  - eapply hoare_weaken; [apply (hoare_frame _ _ _ _ checked_stable (observe_group_spec (pgid i))) | done | done].
  - intros ms. apply hoare_lift. intros [] t E [Hl Hm]. destruct (Hc ms E) as [H1 H2].
    split; [done|]. split; [done|]. by exists ms.
Qed.

Lemma check_owned_spec :
  hoare (leader_checked i) (check_owned platform_group i) (λ _ t, leader_checked i t ∧ seen_owned i t).
Proof. apply (check_spec (validate_owned_group i)), owned_group_ok. Qed.
Lemma check_live_spec :
  hoare (leader_checked i) (check_live platform_group i) (λ _ t, leader_checked i t ∧ seen_owned i t).
Proof. apply (check_spec (validate_live_group_after_term i)), live_group_ok. Qed.

Lemma signal_spec signal :
  signal = TERM_SIGNAL ∨ signal = KILL_SIGNAL →
  hoare (λ t, leader_checked i t ∧ seen_owned i t) (signal_group kill (pgid i) signal) (λ _ t, leader_checked i t).
Proof.
  intros Hs. unfold signal_group. eapply (hoare_bind _ _ _ (λ target t, target = (- pgid i)%Z ∧ leader_checked i t ∧ seen_owned i t)).
  - apply hoare_lift. unfold validate_group_target. intros target t. destruct (_ || _); [done|]. by intros [= <-].
  - intros target t Hl (-> & Hc & Ho). unfold kill_call. cbn [fst snd].
    split_and!; [by apply lawful_signal | by eexists |]. intros _ _. by eapply checked_stable; [eexists|].
Qed.

(** A poll after a signal keeps the leader's check. *)
Lemma after_signal {A} (m : Os A) (Q : A → Trace → Prop) :
  hoare (λ _, True) m Q → hoare (leader_checked i) m (λ a t, leader_checked i t ∧ Q a t).
Proof. intros H. eapply hoare_weaken; [apply (hoare_frame _ _ _ _ checked_stable H) | done | done]. Qed.

Lemma escalate_spec rounds e :
  hoare (λ t, leader_checked i t ∧ seen_owned i t) (escalate platform_group kill rounds i e) (λ _ t, seen_empty i t).
Proof.
  unfold escalate. eapply hoare_bind; [apply signal_spec; by left|]. intros [].
  eapply hoare_bind; [apply after_signal, persisted_death_spec|]. intros [|]; cbn beta.
  { apply hoare_ret. intros t [_ H]. by apply H. }
  eapply hoare_bind; [eapply hoare_weaken; [apply check_live_spec | by intros t [? _] | done]|]. intros [].
  eapply hoare_bind; [apply signal_spec; by right|]. intros [].
  eapply hoare_bind; [apply after_signal, persisted_death_spec|]. intros [|]; [|apply hoare_fail].
  apply hoare_ret. intros t [_ H]. by apply H.
Qed.

Lemma same_identity_ok found : validate_same_identity i found = Ok tt → found = i.
Proof. unfold validate_same_identity. by destruct (bool_decide_reflect (i = found)). Qed.

Lemma spawn_identity_pid child : validate_spawn_identity child i = Ok tt → child = pid i.
Proof. unfold validate_spawn_identity. by destruct (Z.eqb_spec (pid i) child). Qed.

Lemma already_exited_spec rounds exit :
  hoare (λ _, True) (already_exited platform_group rounds i exit) (λ _ t, seen_empty i t).
Proof. unfold already_exited. eapply hoare_bind; [apply ensure_empty_spec|]. intros []. by apply hoare_ret. Qed.

Lemma leader_missing_spec rounds e :
  hoare (λ _, True) (leader_missing platform_group try_wait rounds i e) (λ _ t, seen_empty i t).
Proof.
  unfold leader_missing. eapply hoare_bind; [apply try_wait_spec|]. intros [exit|]; [apply already_exited_spec|].
  eapply hoare_bind; [apply group_death_spec|]. intros [exit|]; [|apply hoare_fail].
  apply hoare_ret. intros t H. apply H. eauto.
Qed.

(** The check of a leader that was found. *)
Lemma identity_checked p found :
  p = pid i →
  hoare (λ t, Looked p (Ok found) ∈ t) (os_lift (validate_same_identity i found)) (λ _ t, leader_checked i t).
Proof. intros E. apply hoare_lift. intros [] t Hs H. apply same_identity_ok in Hs. rewrite E, Hs in H. by left. Qed.

(** *** The three ways to reap *)

Lemma stop_attached_spec rounds child :
  hoare (λ _, True) (stop_attached platform_process platform_group kill try_wait rounds child i) (λ _ t, seen_empty i t).
Proof.
  unfold stop_attached. destruct child as [child|]; [|apply hoare_fail].
  eapply hoare_bind; [apply try_wait_spec|]. intros [exit|]; [apply already_exited_spec|].
  eapply (hoare_bind _ _ _ (λ _ _, child = pid i)); [by apply hoare_lift; intros [] t ?%spawn_identity_pid|]. intros [].
  eapply (hoare_bind _ _ _ (λ r t, child = pid i ∧ ∀ found, r = Ok found → Looked child (Ok found) ∈ t)).
  { intros t Hl Hc. destruct (observe_try_spec child t Hl I) as (H1 & H2 & H3). split_and!; [done | done |].
    intros r E. split; [done|]. by apply (H3 r E). }
  intros [found|e].
  2:{ destruct (not_found _); [|apply hoare_fail]. eapply hoare_weaken; [apply leader_missing_spec | done | done]. }
  eapply (hoare_bind _ _ _ (λ _, leader_checked i)).
  { intros t Hl [Hc Hf]. by apply (identity_checked child found Hc t Hl), Hf. }
  intros []. eapply hoare_bind; [apply check_owned_spec|]. intros [].
  eapply hoare_bind; [apply signal_spec; by left|]. intros [].
  eapply hoare_bind; [apply after_signal, group_death_spec|]. intros [exit|].
  { apply hoare_ret. intros t [_ H]. apply H. eauto. }
  eapply hoare_bind; [eapply hoare_weaken; [apply check_live_spec | by intros t [? _] | done]|]. intros [].
  eapply hoare_bind; [apply signal_spec; by right|]. intros [].
  eapply hoare_bind; [apply after_signal, group_death_spec|]. intros [exit|]; [|apply hoare_fail].
  apply hoare_ret. intros t [_ H]. apply H. eauto.
Qed.

Lemma stop_detached_spec rounds latched :
  hoare (λ _, True) (stop_detached platform_process platform_group kill rounds latched i) (λ _ t, seen_empty i t).
Proof.
  unfold stop_detached. cbv zeta. eapply (hoare_bind _ _ _ (λ _ _, True)); [by apply hoare_lift|]. intros [].
  eapply hoare_bind; [apply observe_try_spec|]. intros [found|e]; cbn beta.
  - eapply (hoare_bind _ _ _ (λ _, leader_checked i)).
    { eapply hoare_weaken; [by apply (identity_checked (pid i) found) | intros t [H _]; by apply H | done]. }
    intros []. eapply hoare_bind; [apply check_owned_spec|]. intros [].
    eapply hoare_bind; [apply escalate_spec|]. intros []. by apply hoare_ret.
  - destruct (not_found _); [|apply hoare_fail].
    eapply hoare_bind; [eapply hoare_weaken; [apply ensure_empty_spec | done | done]|]. intros []. by apply hoare_ret.
Qed.

Lemma stop_persisted_spec rounds :
  hoare (λ _, True) (stop_persisted platform_process platform_group kill rounds i) (λ _ t, seen_empty i t).
Proof.
  unfold stop_persisted. cbv zeta. eapply (hoare_bind _ _ _ (λ _ _, True)); [by apply hoare_lift|]. intros [].
  eapply hoare_bind; [apply observe_try_spec|]. intros [found|[k m]]; cbn beta.
  - eapply (hoare_bind _ _ _ (λ _, leader_checked i)).
    { eapply hoare_weaken; [by apply (identity_checked (pid i) found) | intros t [H _]; by apply H | done]. }
    intros []. eapply hoare_bind; [apply check_owned_spec|]. intros []. apply escalate_spec.
  - destruct k; cbn [not_found]; try apply hoare_fail.
    eapply (hoare_bind _ _ _ (λ ms t, leader_checked i t ∧ last_members t = Some (pgid i, Ok ms))).
    { eapply hoare_weaken; [apply (hoare_frame _ _ _ _ checked_stable (observe_group_spec (pgid i))) | | done].
      intros t [_ H]. split; [|done]. right. exists m. by apply H. }
    intros ms. destruct (bool_decide_reflect (ms = [])) as [->|]; [by apply hoare_ret; intros t [_ H]|].
    eapply (hoare_bind _ _ _ (λ _ t, leader_checked i t ∧ seen_owned i t)); [|intros _; apply escalate_spec]. apply hoare_lift. intros [] t Hv [Hc Hm].
    destruct (live_group_ok ms Hv) as [H1 H2]. split; [done|]. split; [done|]. by exists ms.
Qed.
End programs.

(** Run from nothing, a program signals lawfully, and a success leaves an empty group. *)
Definition reaps_safely {A} (i : ProcessIdentity) (m : Os A) : Prop :=
  lawful i (m []).2 ∧ ∀ a, (m []).1 = Ok a → seen_empty i (m []).2.

Lemma hoare_reaps {A} i (m : Os A) : hoare i (λ _, True) m (λ _ t, seen_empty i t) → reaps_safely i m.
Proof. intros H. destruct (H [] (lawful_nil i) I) as (H1 & _ & H3). by split. Qed.

(** C9. However the operating system answers, each way of reaping a process group - an
    attached child, a detached runtime, a group known only from the store - sends TERM or
    KILL to no other target than the recorded group, and only right after that group was
    observed with members of its own user and group alone and after its leader was seen
    with the recorded identity or found gone.  When it reports success, the last
    observation of the group was empty. *)
Theorem reap_signals_only_owned platform_process platform_group kill try_wait rounds child latched i :
  reaps_safely i (stop_attached platform_process platform_group kill try_wait rounds child i)
  ∧ reaps_safely i (stop_detached platform_process platform_group kill rounds latched i)
  ∧ reaps_safely i (stop_persisted platform_process platform_group kill rounds i).
Proof.
  split_and!; apply hoare_reaps; [apply stop_attached_spec | apply stop_detached_spec | apply stop_persisted_spec].
Qed.

(** ** The gate of a stop *)

Definition countb (f : StopThread → bool) (l : list StopThread) : nat := length (List.filter f l).
Definition performing (t : StopThread) : bool := match t with Performs _ => true | _ => false end.
Definition awaiting (t : StopThread) : bool := match t with Awaits _ => true | _ => false end.

Lemma countb_app f l k : countb f (l ++ k) = countb f l + countb f k.
Proof. unfold countb. by rewrite List.filter_app, length_app. Qed.

Lemma countb_insert f l i x y :
  l !! i = Some x → countb f (<[i := y]> l) + Nat.b2n (f x) = countb f l + Nat.b2n (f y).
Proof.
  revert i. induction l as [|z l IH]; intros [|i] H; [done | done | |].
  - injection H as ->. unfold countb. cbn [insert list_insert List.filter]. destruct (f x), (f y); cbn; lia.
  - specialize (IH i H). change (<[S i := y]> (z :: l)) with (z :: <[i := y]> l). unfold countb in *.
    cbn [List.filter]. destruct (f z); cbn [length]; lia.
Qed.

Lemma countb_le f l : countb f l ≤ length l.
Proof. apply List.filter_length_le. Qed.

Lemma countb_pos f l i x : l !! i = Some x → f x = true → 0 < countb f l.
Proof.
  intros H Hf. apply list_elem_of_lookup_2, list_elem_of_In in H.
  assert (In x (List.filter f l)) as Hi by by apply filter_In. unfold countb. destruct (List.filter f l); [done | cbn; lia].
Qed.

Lemma countb_find f l : 0 < countb f l → ∃ i x, l !! i = Some x ∧ f x = true.
Proof.
  induction l as [|z l IH]; [unfold countb; cbn; lia|]. destruct (f z) eqn:E; [by exists 0, z|].
  intros H. destruct IH as (i & x & ? & ?); [unfold countb in *; cbn in H; by rewrite E in H|]. by exists (S i), x.
Qed.

(** What the gate's state says of its callers. *)
Record gate_ok (G : Gate) : Prop := {
  one_performs : countb performing (gt_threads G) = match gt_state G with StopStopping _ _ => 1 | _ => 0 end;
  performs_now i g : gt_threads G !! i = Some (Performs g) → ∃ n, gt_state G = StopStopping g n;
  awaits_counted : match gt_state G with
                   | StopStopping _ n | StopFailure _ _ n => n = Z.of_nat (countb awaiting (gt_threads G))
                   | StopRunning _ => countb awaiting (gt_threads G) = 0
                   | StopStopped _ => True
                   end;
  awaits_now i g : gt_threads G !! i = Some (Awaits g) →
    match gt_state G with StopStopping g' _ | StopFailure g' _ _ => g' = g | StopRunning _ => False | _ => True end;
  answers_logged i r : gt_threads G !! i = Some (Answered r) → ∃ g, (g, r) ∈ gt_log G;
  state_logged : match gt_state G with
                 | StopStopped o => ∃ g, (g, Ok o) ∈ gt_log G
                 | StopFailure g f _ => (g, Err f) ∈ gt_log G
                 | _ => True
                 end;
  success_last before g o after :
    gt_log G = before ++ (g, Ok o) :: after → after = [] ∧ gt_state G = StopStopped o }.

Lemma gate_new_ok : gate_ok gate_new.
Proof. split; cbn; try done. by intros []. Qed.

(** Callers that fit in the counters. *)
Definition fits (G : Gate) : Prop := (Z.of_nat (length (gt_threads G)) ≤ u64_max)%Z.

(** A caller's entry: [l'] is [l] with the new thread in it, in a place of its own or of one
    that was blocked. *)
Definition entered (l : list StopThread) (t : StopThread) (l' : list StopThread) : Prop :=
  (∀ f, f Blocked = false → countb f l' = countb f l + Nat.b2n (f t)) ∧ (∀ i x, l' !! i = Some x → x = t ∨ l !! i = Some x).

Lemma entered_snoc l t : entered l t (l ++ [t]).
Proof.
  split.
  - intros f _. rewrite countb_app. unfold countb at 2. cbn. by destruct (f t).
  - intros i x [H|[_ H]]%lookup_app_Some; [by right|]. left. apply list_lookup_singleton_Some in H. by destruct H.
Qed.

Lemma entered_insert l i t : l !! i = Some Blocked → entered l t (<[i := t]> l).
Proof.
  intros H. split.
  - intros f Hf. pose proof (countb_insert f l i Blocked t H) as E. rewrite Hf in E. cbn in E. lia.
  - intros j x [(-> & <- & _)|[_ Hj]]%list_lookup_insert_Some; [by left | by right].
Qed.

Lemma begin_ok st l log l' :
  gate_ok (mk_gate st l log) → entered l (begin_stop st).2 l' → (Z.of_nat (length l') ≤ u64_max)%Z →
  gate_ok (mk_gate (begin_stop st).1 l' log).
Proof.
  intros [H1 H2 H3 H4 H5 H6 H7] [Hc Hm] Hf. cbn [gt_state gt_threads gt_log] in *.
  pose proof (Hc performing eq_refl) as Cp. pose proof (Hc awaiting eq_refl) as Ca.
  pose proof (countb_le awaiting l') as Hl.
  destruct st as [g|g n|o|g f n]; cbn [begin_stop fst snd] in *.
  - split; cbn [gt_state gt_threads gt_log]; [by rewrite Cp, H1 | | by rewrite Ca, H3 | | | done |].
    + intros i g' [[= ->]|[n Hn]%H2]%Hm; [eauto | done].
    + intros i g' [?|[]%H4]%Hm; done.
    + intros i r [?|?]%Hm; eauto; done.
    + intros before g' o after E. by destruct (H7 _ _ _ _ E).
  - assert (Z.of_nat (countb awaiting l') = n + 1)%Z as E by (rewrite Ca; cbn [Nat.b2n awaiting]; lia).
    split; cbn [gt_state gt_threads gt_log]; [rewrite Cp, H1; done | | unfold saturating_add; lia | | | done |].
    + intros i g' [?|[m [= <- _]]%H2]%Hm; [done | eauto].
    + intros i g' [[= ->]|?%H4]%Hm; done.
    + intros i r [?|?]%Hm; eauto; done.
    + intros before g' o after E'. by destruct (H7 _ _ _ _ E').
  - split; cbn [gt_state gt_threads gt_log]; [by rewrite Cp, H1 | | done | done | | done | done].
    + intros i g' [?|[m ?]%H2]%Hm; done.
    + intros i r [[= ->]|?]%Hm; eauto.
  - destruct (Z.eqb_spec n 0) as [->|Hn]; cbn [fst snd] in *.
    + split; cbn [gt_state gt_threads gt_log]; [by rewrite Cp, H1 | | rewrite Ca; cbn [Nat.b2n awaiting]; lia | | | done |].
      * intros i g' [[= ->]|[m ?]%H2]%Hm; [eauto | done].
      * intros i g' [?|Hi]%Hm; [done|]. pose proof (countb_pos awaiting l i _ Hi eq_refl). lia.
      * intros i r [?|?]%Hm; eauto; done.
      * intros before g' o after E. by destruct (H7 _ _ _ _ E).
    + split; cbn [gt_state gt_threads gt_log]; [by rewrite Cp, H1 | | rewrite Ca; cbn [Nat.b2n awaiting]; lia | | | done | done].
      * intros i g' [?|[m ?]%H2]%Hm; done.
      * intros i g' [?|?%H4]%Hm; done.
      * intros i r [?|?]%Hm; eauto; done.
Qed.

(** A thread's move from one state to another in place. *)
Lemma lookup_moved (l : list StopThread) i t j x : <[i := t]> l !! j = Some x → (j = i ∧ x = t) ∨ (j ≠ i ∧ l !! j = Some x).
Proof. intros [(-> & <- & _)|[? ?]]%list_lookup_insert_Some; [by left | right; split; [congruence | done]]. Qed.

Lemma wake_ok i g st l log :
  gate_ok (mk_gate st l log) → l !! i = Some (Awaits g) →
  gate_ok (mk_gate (wake_waiter g st).1 (<[i := (wake_waiter g st).2]> l) log).
Proof.
  intros [H1 H2 H3 H4 H5 H6 H7] Hi. cbn [gt_state gt_threads gt_log] in *. pose proof (H4 i g Hi) as Hg.
  destruct st as [g'|g' n|o|g' f n]; cbn [wake_waiter] in *; [done | subst g'; rewrite Z.eqb_refl | | subst g'; rewrite Z.eqb_refl];
    cbn [fst snd].
  - rewrite list_insert_id by done. by split.
  - pose proof (countb_insert performing l i _ (Answered (Ok o)) Hi) as Cp. cbn [Nat.b2n performing] in Cp.
    split; cbn [gt_state gt_threads gt_log]; [lia | | done | done | | done | done].
    + by intros j g' [[_ ?]|[_ [m ?]%H2]]%lookup_moved.
    + intros j r [[_ [= ->]]|[_ ?]]%lookup_moved; eauto.
  - pose proof (countb_insert performing l i _ (Answered (Err f)) Hi) as Cp.
    pose proof (countb_insert awaiting l i _ (Answered (Err f)) Hi) as Ca. cbn [Nat.b2n performing awaiting] in Cp, Ca.
    split; cbn [gt_state gt_threads gt_log]; [lia | | unfold saturating_sub; lia | | | done |].
    + by intros j g' [[_ ?]|[_ [m ?]%H2]]%lookup_moved.
    + intros j g' [[_ ?]|[_ ?%H4]]%lookup_moved; done.
    + intros j r [[_ [= ->]]|[_ ?]]%lookup_moved; eauto.
    + intros before g' o after E. by destruct (H7 _ _ _ _ E).
Qed.

Lemma finish_ok i g r st l log :
  gate_ok (mk_gate st l log) → l !! i = Some (Performs g) →
  gate_ok (mk_gate (finish_stop g r st) (<[i := Answered r]> l) (log ++ [(g, r)])).
Proof.
  intros [H1 H2 H3 H4 H5 H6 H7] Hi. cbn [gt_state gt_threads gt_log] in *. destruct (H2 i g Hi) as [n ->].
  unfold finish_stop. rewrite Z.eqb_refl.
  pose proof (countb_insert performing l i _ (Answered r) Hi) as Cp.
  pose proof (countb_insert awaiting l i _ (Answered r) Hi) as Ca. cbn [Nat.b2n performing awaiting] in Cp, Ca.
  assert (∀ j g', <[i := Answered r]> l !! j ≠ Some (Performs g')) as Hnone.
  { intros j g' Hj. pose proof (countb_pos performing _ j _ Hj eq_refl). lia. }
  assert (∀ j x, <[i := Answered r]> l !! j = Some (Answered x) → ∃ g', (g', x) ∈ log ++ [(g, r)]) as Hans.
  { intros j x [[_ [= ->]]|[_ [g' ?]%H5]]%lookup_moved.
    - exists g. apply elem_of_app. right. by apply list_elem_of_singleton.
    - exists g'. apply elem_of_app. by left. }
  assert (∀ before g' o after, log ++ [(g, r)] = before ++ (g', Ok o) :: after → after = [] ∧ r = Ok o) as Hlast.
  { intros before g' o after E. destruct after as [|x after _] using rev_ind.
    - apply app_inj_tail in E as [_ [= _ ->]]. done.
    - rewrite app_comm_cons, app_assoc in E. apply app_inj_tail in E as [E _]. by destruct (H7 _ _ _ _ E). }
  destruct r as [o|f]; split; cbn [gt_state gt_threads gt_log]; try done; try lia;
    try (by intros j g' Hj; destruct (Hnone j g')).
  - exists g. apply elem_of_app. right. by apply list_elem_of_singleton.
  - intros before g' o' after E. destruct (Hlast _ _ _ _ E) as [-> [= ->]]. done.
  - intros j g' [[_ ?]|[_ ?%H4]]%lookup_moved; done.
  - apply elem_of_app. right. by apply list_elem_of_singleton.
  - intros before g' o' after E. by destruct (Hlast _ _ _ _ E).
Qed.

Lemma step_fits G G' : gate_step G G' → fits G' → fits G.
Proof.
  unfold fits. destruct 1; cbn [gt_threads gate_put]; rewrite ?length_insert, ?length_app; cbn [length]; lia.
Qed.

Lemma gate_step_ok G G' : gate_step G G' → fits G' → gate_ok G → gate_ok G'.
Proof.
  destruct 1 as [G|G i Hi|G i g Hi|G i g r Hi]; intros Hf Hok; destruct G as [st l log];
    cbn [gt_state gt_threads gt_log gate_put] in *.
  - by apply (begin_ok st l log); [|apply entered_snoc|].
  - by apply (begin_ok st l log); [|apply entered_insert|].
  - by apply wake_ok.
  - by apply finish_ok.
Qed.

Lemma run_fits G G' : rtc gate_step G G' → fits G' → fits G.
Proof. induction 1; [done|]. intros. eapply step_fits; eauto. Qed.

Lemma gate_run_ok G G' : rtc gate_step G G' → gate_ok G → fits G' → gate_ok G'.
Proof.
  induction 1 as [|G G1 G' Hs Hr IH]; [done|]. intros Hok Hf. apply IH; [|done].
  eapply gate_step_ok; [done | by eapply run_fits | done].
Qed.

Lemma gate_reach_ok G : rtc gate_step gate_new G → fits G → gate_ok G.
Proof. intros H. apply (gate_run_ok gate_new); [done | apply gate_new_ok]. Qed.

(** C12. In every history of callers that stop a runtime, at most one performs the stop,
    and exactly one while it is under way; each caller that has its answer was given what
    some performer reported; after a success nothing is performed again; and when callers
    are held back by a failed stop, one of its waiters is still there to release them. *)
Theorem one_stop_performed G :
  rtc gate_step gate_new G → fits G →
  countb performing (gt_threads G) = match gt_state G with StopStopping _ _ => 1 | _ => 0 end
  ∧ (∀ i r, gt_threads G !! i = Some (Answered r) → ∃ g, (g, r) ∈ gt_log G)
  ∧ (∀ before g o after, gt_log G = before ++ (g, Ok o) :: after → after = [] ∧ gt_state G = StopStopped o)
  ∧ (∀ g f n, gt_state G = StopFailure g f n → n ≠ 0%Z → ∃ i, gt_threads G !! i = Some (Awaits g)).
Proof.
  intros H Hf. destruct (gate_reach_ok G H Hf) as [H1 H2 H3 H4 H5 H6 H7]. split_and!; [done | done | done |].
  intros g f n E Hn. rewrite E in H3. destruct (countb_find awaiting (gt_threads G)) as (i & x & Hi & Hx); [lia|].
  destruct x as [|g'| |]; try done. exists i. specialize (H4 i g' Hi). rewrite E in H4. by subst.
Qed.

(** ** Examples and witnesses *)

Module ReaperDemo.
Definition leader : ProcessIdentity := RuntimeOwner.mk_identity 70 70 501 "token".
Definition helper : ProcessIdentity := RuntimeOwner.mk_identity 71 70 501 "other".
Definition killed (t : Trace) : bool := existsb (λ e, match e with Signalled _ 9 => true | _ => false end) t.
(** A group that ignores TERM. *)
Definition process (_ : Trace) (_ : Z) : result IoError ProcessIdentity := Ok leader.
Definition group (t : Trace) (_ : Z) : result IoError (list ProcessIdentity) := Ok (if killed t then [] else [leader; helper]).
Definition kill (_ : Trace) (_ _ : Z) : KillAnswer := KillDone.
Definition try_wait (t : Trace) : result IoError (option ChildExit) := Ok (if killed t then Some (Signaled 9) else None).
(** The same with a process of another user in it. *)
Definition mixed (_ : Trace) (_ : Z) : result IoError (list ProcessIdentity) :=
  Ok [leader; RuntimeOwner.mk_identity 72 70 0 "root"].

Definition failed : IoError := (KTimedOut, "late").
Definition history : Gate :=
  mk_gate (StopStopped (Terminated ExitUnknown)) [Answered (Err failed); Answered (Err failed); Answered (Ok (Terminated ExitUnknown))]
    [(1%Z, Err failed); (2%Z, Ok (Terminated ExitUnknown))].
End ReaperDemo.

Definition signals (t : Trace) : list (Z * Z) := omap (λ e, match e with Signalled g s => Some (g, s) | _ => None end) t.

(** TERM, then KILL, then an empty group; and no signal at all into a mixed one. *)
Example reap_escalates :
  let r := stop_attached ReaperDemo.process ReaperDemo.group ReaperDemo.kill ReaperDemo.try_wait 2 (Some 70%Z) ReaperDemo.leader [] in
  r.1 = Ok (Terminated (Signaled 9)) ∧ signals r.2 = [(-70, 15); (-70, 9)]%Z.
Proof. by vm_compute. Qed.

Example mixed_group_refused :
  let r := stop_persisted ReaperDemo.process ReaperDemo.mixed ReaperDemo.kill 2 ReaperDemo.leader [] in
  r.1 = Err (KOther, "process-group membership is ambiguous; refusing to signal") ∧ signals r.2 = [].
Proof. by vm_compute. Qed.

Lemma one_stop_performed_witness :
  rtc gate_step gate_new ReaperDemo.history ∧ countb performing (gt_threads ReaperDemo.history) = 0.
Proof.
  assert (rtc gate_step gate_new ReaperDemo.history) as H.
  { eapply rtc_l; [apply gate_arrives|]. eapply rtc_l; [apply gate_arrives|].
    eapply rtc_l; [by apply (gate_finishes _ 0 1%Z (Err ReaperDemo.failed))|].
    eapply rtc_l; [by apply (gate_wakes _ 1 1%Z)|].
    eapply rtc_l; [apply gate_arrives|].
    eapply rtc_l; [by apply (gate_finishes _ 2 2%Z (Ok (Terminated ExitUnknown)))|]. apply rtc_refl. }
  split; [exact H|]. destruct (one_stop_performed ReaperDemo.history H) as [E _]; [by vm_compute | exact E].
Defined.
