(* ===== verification/Dsh.v ===== *)
(** * The ACP dialect of dsh

    [crates/subagents/dsh/src/acp]: the requests and the strict readings of their results
    ([transport.rs]), the model and effort selection ([model.rs]), updates and the events
    they normalize to ([update.rs]), permission offers ([permission.rs]), the folding of a
    prompt's settlement ([result.rs]) and the session ([session.rs]).

    What the driver answers to a request is an argument of the operation that sends it;
    the session keeps the frames it has sent, a frame whose write failed among them. *)

From stdpp Require Import gmap strings pretty.
From S2P Require Import Prelude RustStr Utf8 Json Contract Projection Observation RuntimeEvents Activity RuntimeOwner Codex Diagnostics RpcAgents Transport.

(** ** Frames ([transport.rs]) *)

Definition ACP_INITIALIZE : string := "initialize".
Definition SESSION_NEW : string := "session/new".
Definition SESSION_SET_CONFIG_OPTION : string := "session/set_config_option".
Definition SESSION_PROMPT : string := "session/prompt".
Definition SESSION_CANCEL : string := "session/cancel".
Definition SESSION_CLOSE : string := "session/close".
Definition SESSION_UPDATE : string := "session/update".
Definition SESSION_REQUEST_PERMISSION : string := "session/request_permission".
Definition SESSION_REQUEST_INPUT : string := "session/request_input".
Definition ACP_PROTOCOL_VERSION : Z := 1.
Definition MAX_SESSION_ID_BYTES : Z := 512.
Definition MAX_STOP_REASON_BYTES : Z := 128.

Definition opaque_id (v : option Value) (field : string) (max_bytes : Z) : result string string :=
  match v ≫= as_str with
  | Some text =>
      if bounded max_bytes text then Ok text else Err (field +:+ " must be a bounded non-empty string")
  | None => Err (field +:+ " must be a bounded non-empty string")
  end.

Definition or_else {A} (a b : option A) : option A := match a with Some x => Some x | None => b end.

Definition set_config_option_params (session config value : string) : Value :=
  VObject [("configId", VString config); ("sessionId", VString session); ("value", VString value)].
Definition prompt_params (session prompt : string) : Value :=
  VObject [("prompt", VArray [VObject [("text", VString prompt); ("type", VString "text")]]); ("sessionId", VString session)].
Definition session_params (session : string) : Value := VObject [("sessionId", VString session)].
Definition session_new_params (cwd : string) : Value := VObject [("cwd", VString cwd); ("mcpServers", VArray [])].

Definition request_input_question (params : Value) : option string :=
  text ← get_str params "prompt";
  if negb (str_is_empty text) && negb (contains_char text nul) then Some text else None.

Record AcpCapabilities := mk_caps { cap_models : bool; cap_cancel : bool; cap_permission : bool }.

Definition object_at (v : Value) (key : string) : bool :=
  match get v key with Some x => is_object x | None => false end.

Definition official_nested (result capabilities : Value) : bool :=
  match get result "agentCapabilities" with Some _ => true | None => false end
  && object_at capabilities "mcpCapabilities" && object_at capabilities "promptCapabilities"
  && match get capabilities "sessionCapabilities" with
     | Some (VObject session) => forallb (object_at (VObject session)) ["close"; "list"; "resume"]
     | _ => false
     end.

Definition parse_initialize_result (result : Value) : Prelude.result string AcpCapabilities :=
  match get result "protocolVersion" ≫= as_i64 with
  | None => Err "initialize result is missing protocolVersion"
  | Some version =>
      if negb (Z.eqb version ACP_PROTOCOL_VERSION)
      then Err ("initialize returned unsupported protocolVersion " +:+ pretty version)
      else
        let capabilities := default VNull (or_else (get result "agentCapabilities") (get result "capabilities")) in
        let nested := official_nested result capabilities in
        let flag key := default false (get capabilities key ≫= as_bool) in
        Ok (mk_caps (flag "models") (flag "cancel" || nested) (flag "permission" || nested))
  end.

Definition require_build_capabilities (c : AcpCapabilities) : result string unit :=
  if negb (cap_permission c) then Err "dsh acp server does not advertise the permission capability"
  else if negb (cap_cancel c) then Err "dsh acp server does not advertise the cancel capability" else Ok tt.

Definition parse_session_new_result (result : Value) : Prelude.result string (string * option Value) :=
  id ← opaque_id (or_else (get result "sessionId") (pointer2 result "session" "sessionId"))
         "session/new sessionId" MAX_SESSION_ID_BYTES;
  Ok (id, get result "configOptions").

Record PromptSettlement := mk_prompt_settlement { ps_stop_reason : string; ps_message : option string }.

Definition parse_prompt_settlement (result : Value) : Prelude.result string PromptSettlement :=
  stop_reason ← opaque_id (get result "stopReason") "session/prompt stopReason" MAX_STOP_REASON_BYTES;
  Ok (mk_prompt_settlement stop_reason
        (match opaque_id (get result "messageId") "session/prompt messageId" MAX_SESSION_ID_BYTES with
         | Ok id => Some id | Err _ => None end)).

(** ** Selection ([model.rs]) *)

Inductive ModelSetError := ModelTokenInvalid | ModelNotOffered | ModelRefused (message : string).
Inductive EffortSetError := EffortTokenInvalid | EffortNotOffered.

Definition MODEL_CONFIG_ID : string := "model".
Definition REASONING_EFFORT_CONFIG_ID : string := "reasoning_effort".

Definition colon_token (token : string) : result ModelSetError (string * string) :=
  match parse_colon_token token with Some sides => Ok sides | None => Err ModelTokenInvalid end.

Definition validate_effort_token (token : string) : result EffortSetError unit :=
  if bounded (Z.of_nat MAX_MODEL_TOKEN_BYTES) token then Ok tt else Err EffortTokenInvalid.

Definition config_id_offered (options : option Value) (config : string) : bool :=
  match options ≫= as_array with
  | Some l => existsb (λ o, is_str (or_else (get o "id") (get o "configId") ≫= as_str) config) l
  | None => false
  end.

(** ** Updates ([update.rs]) *)

Inductive UpdateKind :=
| AgentMessage (message : option string) (text : string) (committed : bool)
| AgentThought (text : option string)
| ToolCall (call : string) (title kind : option string)
| ToolCallUpdate (call : string) (has_result : bool)
| Untracked.

Record SessionUpdate := mk_update { up_session : option string; up_kind : UpdateKind }.

Definition block_text (content : Value) : option string :=
  text ← match content with
         | VString text => Some text
         | VObject _ => or_else (get_str content "text") (get_str content "delta")
         | _ => None
         end;
  if contains_char text nul then None else Some text.

Definition joined_content (update : Value) : option string :=
  content ← get update "content";
  match content with
  | VArray blocks => Some (String.concat "" (omap block_text blocks))
  | single => block_text single
  end.

Definition bounded_id (v : option Value) : option string :=
  text ← v ≫= as_str; if bounded 512 text then Some text else None.

Definition update_kind (discriminator : string) (update : Value) : option UpdateKind :=
  if discriminator ≟ "agent_message" then
    Some (AgentMessage (bounded_id (get update "messageId")) (default "" (joined_content update)) true)
  else if discriminator ≟ "agent_message_chunk" then
    Some (AgentMessage (bounded_id (get update "messageId")) (default "" (block_text (get_or_null update "content"))) false)
  else if one_of discriminator ["agent_thought_chunk"; "agent_thought"; "thought"] then
    Some (AgentThought (block_text (get_or_null update "content")))
  else if discriminator ≟ "tool_call" then
    call ← bounded_id (get update "toolCallId");
    Some (ToolCall call (bounded_id (get update "title")) (bounded_id (get update "kind")))
  else if discriminator ≟ "tool_call_update" then
    call ← bounded_id (get update "toolCallId");
    Some (ToolCallUpdate call (match get update "content" with Some (VArray _) => true | _ => false end))
  else Some Untracked.

Definition parse_update (params : Value) : option SessionUpdate :=
  update ← get params "update";
  discriminator ← or_else (get_str update "sessionUpdate") (get_str update "type");
  kind ← update_kind discriminator update;
  Some (mk_update (bounded_id (get params "sessionId")) kind).

Definition tool_name (k : UpdateKind) : option string :=
  match k with ToolCall _ title kind => take_chars 64 <$> or_else kind title | _ => None end.

Definition streaming (event_id turn_id : string) (payload : Fields) : Value :=
  turn_payload "model.streaming" event_id turn_id (Some payload).

Definition opt_value (o : option string) : Value := match o with Some x => VString x | None => VNull end.

Definition canonical_event_payloads (u : SessionUpdate) (event_id turn_id : string) : list Value :=
  match up_kind u with
  | AgentMessage message text committed =>
      (if str_is_empty text then []
       else [streaming event_id turn_id [("assistantMessageId", opt_value message); ("delta", VString text);
                                         ("kind", VString "text_delta")]])
      ++ (if committed
          then [streaming event_id turn_id [("assistantMessageId", opt_value message); ("kind", VString "message_finished")]]
          else [])
  | AgentThought text =>
      if is_str text "" then []
      else [streaming event_id turn_id [("delta", opt_value text); ("kind", VString "reasoning_delta")]]
  | ToolCall call title kind =>
      let name := default "dsh_tool" (take_chars 64 <$> or_else kind title) in
      [streaming event_id turn_id [("kind", VString "tool_call"); ("toolCallId", VString call); ("toolName", VString name)];
       tool_started_event event_id turn_id call (Some name)]
  | ToolCallUpdate call has_result =>
      if has_result then [tool_result_event event_id turn_id call] else [tool_started_event event_id turn_id call None]
  | Untracked => []
  end.

(** ** Permission offers ([permission.rs]) *)

Definition ALLOW_ONCE_KINDS : list string := ["allow_once"].
Definition DENY_ONCE_KINDS : list string := ["reject_once"; "deny"; "reject"].
Definition MAX_OPTIONS : nat := 16.
Definition MAX_TOOL_NAME_BYTES : nat := 64.
Definition MAX_OFFERED_REQUESTS : nat := 128.

Record PermissionOption := mk_option { po_id : option string; po_kind : string }.

Record PermissionOffer := mk_offer {
  of_request : option string; of_session : option string; of_call : option string; of_title : option string;
  of_options : list PermissionOption }.

Definition option_for (kinds : list string) (o : PermissionOffer) : option PermissionOption :=
  List.find (λ x, one_of (po_kind x) kinds) (of_options o).

Definition option_name (x : PermissionOption) : string := default (po_kind x) (po_id x).

Definition selected (id : string) : Value :=
  VObject [("outcome", VObject [("optionId", VString id); ("outcome", VString "selected")])].

Definition select (decision : string) (o : PermissionOffer) : option Value :=
  kinds ← (if decision ≟ "allow" then Some ALLOW_ONCE_KINDS
           else if decision ≟ "deny" then Some DENY_ONCE_KINDS else None);
  x ← option_for kinds o;
  Some (selected (option_name x)).

Definition tool_label (o : PermissionOffer) : option string :=
  (λ title, let start := Nat.min (String.length title) MAX_TOOL_NAME_BYTES in
            str_take (next_boundary (String.length title - start) title start) title) <$> of_title o.

Definition parse_option (v : Value) : PermissionOption :=
  mk_option (get_str v "optionId") (default "" (get_str v "kind")).

Definition parse_offer (params : Value) : option PermissionOffer :=
  options ← get params "options" ≫= as_array;
  let kept := take MAX_OPTIONS (List.filter (λ x, negb (str_is_empty (po_kind x))) (parse_option <$> options)) in
  match kept with
  | [] => None
  | _ =>
      Some (mk_offer (bounded_id (get params "requestId")) (bounded_id (get params "sessionId"))
              (bounded_id (or_else (get params "toolCallId") (pointer2 params "toolCall" "toolCallId")))
              (bounded_id (get params "title")) kept)
  end.

Definition normalize_permission_request (o : PermissionOffer) (correlated : option string) : Value :=
  let known := name ← correlated; if str_is_empty name then None else Some (take_chars MAX_TOOL_NAME_BYTES name) in
  VObject [("options", VArray ((λ x, VObject [("id", VString (option_name x)); ("kind", VString (po_kind x))]) <$> of_options o));
           ("origin", VString "dsh_acp"); ("toolCallId", opt_value (of_call o));
           ("toolName", VString (default "unknown" (or_else (tool_label o) known)))].

Definition observe_offer (key : string) (o : PermissionOffer) (cache : gmap string PermissionOffer)
    : gmap string PermissionOffer :=
  if Nat.leb MAX_OFFERED_REQUESTS (size cache) && bool_decide (cache !! key = None) then cache else <[key := o]> cache.

(** ** Settlements ([result.rs]) *)

Definition MAX_MESSAGE_BYTES : Z := 2 * 1024 * 1024.

Inductive SettlementOutcome := SettledCompleted (text : option string) | SettledFailed (reason : string).

(** The bound on one message is an argument of the model, [MAX_MESSAGE_BYTES] in the code. *)
Definition observe_committed (cap : nat) (message text : string) (m : gmap string string) : gmap string string :=
  if str_is_empty message || Nat.ltb 512 (String.length message) || contains_char message nul || contains_char text nul
  then m
  else
    let entry := default "" (m !! message) in
    if Nat.leb cap (String.length entry) then <[message := entry]> m
    else <[message := roll cap (entry +:+ text)]> m.

Definition word_char (c : ascii) : bool := is_ascii_alphanumeric c || Ascii.eqb c (byte_of 95).

Fixpoint str_filter (f : ascii → bool) (s : string) : string :=
  match s with EmptyString => EmptyString | String c s => if f c then String c (str_filter f s) else str_filter f s end.

Definition stop_reason_code (reason : string) : string :=
  if reason ≟ "max_tokens" then "MAX_TOKENS" else if reason ≟ "refusal" then "REFUSAL"
  else if reason ≟ "cancelled" then "CANCELLED"
  else "UNKNOWN_STOP_REASON_" +:+ str_take 48 (str_filter word_char reason).

Definition fold_settlement (s : PromptSettlement) (m : gmap string string) : SettlementOutcome :=
  if negb (ps_stop_reason s ≟ "end_turn") then SettledFailed (stop_reason_code (ps_stop_reason s))
  else SettledCompleted (ps_message s ≫= λ id, m !! id).

(** ** The session ([session.rs]) *)

Inductive SessionError :=
| ShapeError (message : string)
| SessionModel (e : ModelSetError)
| SessionEffort (e : EffortSetError)
| SessionTransport (message : string)
| SessionTimeout
| SessionRemote (v : Value).

(** [From<RequestError>], with the text of the other errors given. *)
Definition session_error (display : RequestError → string) (e : RequestError) : SessionError :=
  match e with
  | RequestTimeout => SessionTimeout
  | RequestRemote v => SessionRemote v
  | other => SessionTransport (display other)
  end.

(** [ac_sent] has the method and the parameters of every frame that was sent. *)
Record AcpSession := mk_acp {
  ac_session : option string; ac_options : option Value; ac_model_refused : bool; ac_effort_refused : bool;
  ac_sent : list (string * Value) }.

Definition acp_new : AcpSession := mk_acp None None false false [].

Definition acp_send (method : string) (params : Value) (s : AcpSession) : AcpSession :=
  mk_acp (ac_session s) (ac_options s) (ac_model_refused s) (ac_effort_refused s) (ac_sent s ++ [(method, params)]).
Definition refuse_model (s : AcpSession) : AcpSession :=
  mk_acp (ac_session s) (ac_options s) true (ac_effort_refused s) (ac_sent s).
Definition refuse_effort (s : AcpSession) : AcpSession :=
  mk_acp (ac_session s) (ac_options s) (ac_model_refused s) true (ac_sent s).

Section session.
Context (to_string : Value → string) (display : RequestError → string) (version : string).

Definition initialize_params : Value :=
  VObject [("clientInfo", VObject [("name", VString "external-subagent-dsh"); ("version", VString version)]);
           ("protocolVersion", i64_value ACP_PROTOCOL_VERSION)].

Definition wire_token (provider model : string) : string := to_string (VArray [VString provider; VString model]).

(** The result of an answered request. *)
Definition answered (what : string) (answer : result RequestError ResponseEnvelope) : result SessionError Value :=
  match answer with
  | Err e => Err (session_error display e)
  | Ok r => match resp_result r with Some v => Ok v | None => Err (ShapeError (what +:+ " returned no result")) end
  end.

Definition shaped {A} (r : result string A) : result SessionError A :=
  match r with Ok a => Ok a | Err message => Err (ShapeError message) end.

Definition acp_initialize (answer : result RequestError ResponseEnvelope) (s : AcpSession)
    : result SessionError AcpCapabilities * AcpSession :=
  (v ← answered "initialize" answer; shaped (parse_initialize_result v), acp_send ACP_INITIALIZE initialize_params s).

Definition acp_new_session (cwd : string) (answer : result RequestError ResponseEnvelope) (s : AcpSession)
    : result SessionError unit * AcpSession :=
  let s := acp_send SESSION_NEW (session_new_params cwd) s in
  match (v ← answered "session/new" answer; shaped (parse_session_new_result v)) with
  | Err e => (Err e, s)
  | Ok (id, options) => (Ok tt, mk_acp (Some id) options (ac_model_refused s) (ac_effort_refused s) (ac_sent s))
  end.

(** Whether an option may be selected: unknown options leave it to the server. *)
Definition may_select (config : string) (s : AcpSession) : bool :=
  match ac_options s with Some options => config_id_offered (Some options) config | None => true end.

(** The request of a selection; every failure is a refusal. *)
Definition select_option (config value : string) (refuse : AcpSession → AcpSession)
    (answer : result RequestError ResponseEnvelope) (s : AcpSession) : result SessionError unit * AcpSession :=
  let s := acp_send SESSION_SET_CONFIG_OPTION (set_config_option_params (default "" (ac_session s)) config value) s in
  match answer with
  | Ok r =>
      match resp_result r with
      | Some _ => (Ok tt, s)
      | None => (Err (session_error display (RequestRemote VNull)), refuse s)
      end
  | Err e => (Err (session_error display e), refuse s)
  end.

Definition set_model (token : string) (answer : result RequestError ResponseEnvelope) (s : AcpSession)
    : result SessionError unit * AcpSession :=
  match colon_token token with
  | Err e => (Err (SessionModel e), refuse_model s)
  | Ok (provider, model) =>
      if negb (may_select MODEL_CONFIG_ID s) then (Err (SessionModel ModelNotOffered), refuse_model s)
      else select_option MODEL_CONFIG_ID (wire_token provider model) refuse_model answer s
  end.

Definition set_reasoning_effort (token : string) (answer : result RequestError ResponseEnvelope) (s : AcpSession)
    : result SessionError unit * AcpSession :=
  match validate_effort_token token with
  | Err e => (Err (SessionEffort e), refuse_effort s)
  | Ok _ =>
      if negb (may_select REASONING_EFFORT_CONFIG_ID s) then (Err (SessionEffort EffortNotOffered), refuse_effort s)
      else select_option REASONING_EFFORT_CONFIG_ID token refuse_effort answer s
  end.

(** [prompt], with the id the driver reserved and what beginning the request gave. *)
Definition acp_prompt (text : string) (id : Z) (begun : result RequestError unit) (s : AcpSession)
    : result SessionError Z * AcpSession :=
  if ac_model_refused s then (Err (ShapeError "model selection was refused; no prompt may be sent"), s)
  else if ac_effort_refused s
       then (Err (ShapeError "reasoning effort selection was refused; no prompt may be sent"), s)
  else
    let s := acp_send SESSION_PROMPT (prompt_params (default "" (ac_session s)) text) s in
    (match begun with
     | Err e => Err (session_error display e)
     | Ok _ => if Z.ltb id 0 then Err (ShapeError "request id is negative") else Ok id
     end, s).

Definition acp_cancel (written : result string unit) (s : AcpSession) : result SessionError unit * AcpSession :=
  match ac_session s with
  | None => (Err (ShapeError "session is not open"), s)
  | Some id =>
      (match written with Ok _ => Ok tt | Err m => Err (SessionTransport m) end,
       acp_send SESSION_CANCEL (session_params id) s)
  end.

Definition acp_close (answer : result RequestError ResponseEnvelope) (s : AcpSession) : result SessionError unit * AcpSession :=
  match ac_session s with
  | None => (Err (ShapeError "session is not open"), s)
  | Some id =>
      (match answer with Ok _ => Ok tt | Err e => Err (session_error display e) end,
       acp_send SESSION_CLOSE (session_params id) s)
  end.

(** [Display]. *)
Definition model_error_display (e : ModelSetError) : string :=
  match e with
  | ModelTokenInvalid => "model token must be provider:model with non-empty sides"
  | ModelNotOffered => "dsh session advertised no model config option"
  | ModelRefused message => "dsh session rejected the model selection: " +:+ message
  end.
Definition effort_error_display (e : EffortSetError) : string :=
  match e with
  | EffortTokenInvalid => "reasoning effort token is not a bounded non-empty string"
  | EffortNotOffered => "dsh session advertised no reasoning_effort config option"
  end.
Definition session_error_display (e : SessionError) : string :=
  match e with
  | ShapeError message => "dsh acp shape error: " +:+ message
  | SessionModel e => model_error_display e
  | SessionEffort e => effort_error_display e
  | SessionTransport message => "dsh acp transport failed: " +:+ message
  | SessionTimeout => "dsh acp request deadline elapsed"
  | SessionRemote v => "dsh acp request was rejected: " +:+ to_string v
  end.
End session.
