(* ===== verification/DshRuntime.v ===== *)
(** * A dsh runtime in the daemon

    [crates/external-daemon/src/dsh/]: the shared state and the projection of inbound
    frames ([events.rs]), the pump that folds a settlement only after every frame before it
    ([transport.rs]), the bootstrap and the prompts ([session.rs]) and the answers to
    permission requests ([owner.rs]).

    The watcher of a prompt deposits its settlement; the pump takes it.  What the driver
    answers, the frames that arrive and the clock are arguments. *)

From stdpp Require Import gmap strings pretty.
From S2P Require Import Prelude RustStr Utf8 Json General Contract Projection Observation StoreRecords RuntimeEvents Activity RuntimeOwner Codex Recovery RpcProfiles AgyRuntime Transport Dsh.

Definition MAX_TRACKED_TOOLS : nat := 128.

Inductive SettledTurn := TurnSettled (s : PromptSettlement) | TurnLost (message : string).

Record DshShared := mk_dsh {
  ds_publisher : Publisher; ds_turns : TurnTracker; ds_offers : gmap string PermissionOffer;
  ds_tools : gmap string string; ds_messages : gmap string string; ds_session : option string;
  ds_prompt : option string; ds_settled : option SettledTurn; ds_sequence : Z; ds_stop_boundaries : Z }.

Definition dsh_new : DshShared := mk_dsh publisher_new turns_new ∅ ∅ ∅ None None None 0 0.

Definition dsh_put_publisher (p : Publisher) (s : DshShared) : DshShared :=
  mk_dsh p (ds_turns s) (ds_offers s) (ds_tools s) (ds_messages s) (ds_session s) (ds_prompt s) (ds_settled s)
    (ds_sequence s) (ds_stop_boundaries s).
Definition dsh_put_turns (t : TurnTracker) (s : DshShared) : DshShared :=
  mk_dsh (ds_publisher s) t (ds_offers s) (ds_tools s) (ds_messages s) (ds_session s) (ds_prompt s) (ds_settled s)
    (ds_sequence s) (ds_stop_boundaries s).
Definition dsh_put_offers (m : gmap string PermissionOffer) (s : DshShared) : DshShared :=
  mk_dsh (ds_publisher s) (ds_turns s) m (ds_tools s) (ds_messages s) (ds_session s) (ds_prompt s) (ds_settled s)
    (ds_sequence s) (ds_stop_boundaries s).
Definition dsh_put_tools (m : gmap string string) (s : DshShared) : DshShared :=
  mk_dsh (ds_publisher s) (ds_turns s) (ds_offers s) m (ds_messages s) (ds_session s) (ds_prompt s) (ds_settled s)
    (ds_sequence s) (ds_stop_boundaries s).
Definition dsh_put_messages (m : gmap string string) (s : DshShared) : DshShared :=
  mk_dsh (ds_publisher s) (ds_turns s) (ds_offers s) (ds_tools s) m (ds_session s) (ds_prompt s) (ds_settled s)
    (ds_sequence s) (ds_stop_boundaries s).
Definition dsh_put_session (id : option string) (s : DshShared) : DshShared :=
  mk_dsh (ds_publisher s) (ds_turns s) (ds_offers s) (ds_tools s) (ds_messages s) id (ds_prompt s) (ds_settled s)
    (ds_sequence s) (ds_stop_boundaries s).
Definition dsh_put_prompt (id : option string) (s : DshShared) : DshShared :=
  mk_dsh (ds_publisher s) (ds_turns s) (ds_offers s) (ds_tools s) (ds_messages s) (ds_session s) id (ds_settled s)
    (ds_sequence s) (ds_stop_boundaries s).
Definition deposit_settled_turn (t : option SettledTurn) (s : DshShared) : DshShared :=
  mk_dsh (ds_publisher s) (ds_turns s) (ds_offers s) (ds_tools s) (ds_messages s) (ds_session s) (ds_prompt s) t
    (ds_sequence s) (ds_stop_boundaries s).
Definition dsh_put_sequence (n : Z) (s : DshShared) : DshShared :=
  mk_dsh (ds_publisher s) (ds_turns s) (ds_offers s) (ds_tools s) (ds_messages s) (ds_session s) (ds_prompt s)
    (ds_settled s) n (ds_stop_boundaries s).
Definition dsh_count_boundary (s : DshShared) : DshShared :=
  mk_dsh (ds_publisher s) (ds_turns s) (ds_offers s) (ds_tools s) (ds_messages s) (ds_session s) (ds_prompt s)
    (ds_settled s) (ds_sequence s) ((ds_stop_boundaries s + 1) mod 2 ^ 64)%Z.

(** ** Emission *)

Definition dsh_next_sequence (s : DshShared) : Z := ((ds_sequence s + 1) mod 2 ^ 64)%Z.

Definition dsh_emit (e : Inbound) (s : DshShared) : DshShared :=
  dsh_put_publisher (emit_driver e None (ds_publisher s)) s.

Definition dsh_lifecycle (method : string) (s : DshShared) : DshShared :=
  let n := dsh_next_sequence s in dsh_emit (lifecycle_event n method) (dsh_put_sequence n s).

Definition dsh_observe (now : Z) (e : Inbound) (s : DshShared) : DshShared :=
  dsh_put_turns (turns_observe now e (ds_turns s)) s.

(** The sink first, then the tracker, then the lifecycle frame. *)
Definition dsh_boundary (now : Z) (params : Value) (lifecycle : string) (s : DshShared) : DshShared :=
  dsh_lifecycle lifecycle (dsh_observe now (canonical_event params) (dsh_emit (canonical_event params) s)).

Definition dsh_begin_turn (now : Z) (prompt : Z) (s : DshShared) : DshShared :=
  dsh_boundary now started_params "turn.started" (dsh_put_prompt (Some ("dsh-prompt-" +:+ pretty prompt)) s).

(** ** Boundaries *)

Definition boundary_name (b : TurnBoundary) : string :=
  match b with BoundaryCompleted => "turn.completed" | BoundaryFailed => "turn.failed" end.

Definition optional_text (key : string) (o : option string) : Fields :=
  match o with Some x => [(key, VString x)] | None => [] end.

Definition boundary_params (b : TurnBoundary) (event_id : string) (turn text reason : option string) : Value :=
  VObject [("eventId", VString event_id);
           ("payload", VObject (optional_text "reason_code" reason ++ optional_text "response" text));
           ("turnId", opt_value turn); ("type", VString (boundary_name b))].

Definition apply_boundary (now : Z) (b : TurnBoundary) (text reason : option string) (s : DshShared) : DshShared :=
  let turn := ds_prompt s in
  let n := dsh_next_sequence s in
  let s := dsh_put_sequence n (dsh_put_prompt None s) in
  dsh_boundary now (boundary_params b ("dsh-event-" +:+ pretty n) turn text reason) (boundary_name b) s.

Definition apply_prompt_settlement (now : Z) (p : PromptSettlement) (s : DshShared) : DshShared :=
  match fold_settlement p (ds_messages s) with
  | SettledCompleted text => apply_boundary now BoundaryCompleted text None s
  | SettledFailed reason => apply_boundary now BoundaryFailed None (Some reason) s
  end.

Definition apply_settled_turn (now : Z) (t : SettledTurn) (s : DshShared) : DshShared :=
  match t with
  | TurnSettled p => apply_prompt_settlement now p s
  | TurnLost message => apply_boundary now BoundaryFailed None (Some (take_chars 256 message)) s
  end.

(** What the watcher makes of the prompt's answer. *)
Definition watched (display : RequestError → string) (answer : result RequestError ResponseEnvelope) : SettledTurn :=
  match answer with
  | Err e => TurnLost (display e)
  | Ok r =>
      match resp_result r with
      | None => TurnLost "session/prompt settled without a result"
      | Some v =>
          match parse_prompt_settlement v with
          | Ok p => TurnSettled p
          | Err message => TurnLost ("dsh acp shape error: " +:+ message)
          end
      end
  end.

(** ** Inbound frames *)

Section project.
Context (correlation_key : WireId → string) (cap : nat).

Definition foreign (u : SessionUpdate) (s : DshShared) : bool :=
  match ds_session s, up_session u with Some expected, Some actual => negb (expected ≟ actual) | _, _ => false end.

Definition track_tool (k : UpdateKind) (s : DshShared) : DshShared :=
  match k with
  | ToolCall call _ _ =>
      if Nat.ltb (base.size (ds_tools s)) MAX_TRACKED_TOOLS || bool_decide (is_Some (ds_tools s !! call))
      then dsh_put_tools (<[call := default "dsh_tool" (tool_name k)]> (ds_tools s)) s else s
  | _ => s
  end.

Definition track_message (k : UpdateKind) (s : DshShared) : DshShared :=
  match k with
  | AgentMessage (Some message) text true => dsh_put_messages (observe_committed cap message text (ds_messages s)) s
  | _ => s
  end.

(** The raw input of a tool call goes with its activity. *)
Definition with_raw_input (k : UpdateKind) (params payload : Value) : Value :=
  match k with
  | ToolCall _ _ _ =>
      if is_str (get_str payload "type") "tool.updated" && is_str (pointer2 payload "payload" "kind" ≫= as_str) "started"
      then with_input (pointer2 params "update" "rawInput") payload
      else payload
  | _ => payload
  end.

Definition emit_update (now : Z) (s : DshShared) (payload : Value) : DshShared :=
  dsh_emit (canonical_event payload) (dsh_observe now (canonical_event payload) s).

Definition project_update (now : Z) (params : Value) (u : SessionUpdate) (s : DshShared) : DshShared :=
  let s := track_message (up_kind u) (track_tool (up_kind u) s) in
  let n := dsh_next_sequence s in
  let s := dsh_put_sequence n s in
  let turn := default "dsh-session" (ds_prompt s) in
  fold_left (emit_update now)
    (with_raw_input (up_kind u) params <$> canonical_event_payloads u ("dsh-event-" +:+ pretty n) turn) s.

Definition unsupported_input (id : WireId) (reason : string) : Inbound :=
  Message (Request (mk_request id INTERACTION_REQUEST_UNSUPPORTED_INPUT
    (VObject [("origin", VString "dsh_acp"); ("reason", VString reason)]))).

(** A frame is consumed, or replaced by what goes to the sink. *)
Definition project_dsh_inbound (now : Z) (e : Inbound) (s : DshShared) : option Inbound * DshShared :=
  match e with
  | Message (UnknownEvent method raw) =>
      if method ≟ SESSION_UPDATE then
        let params := get_or_null raw "params" in
        match parse_update params with
        | None => (Some e, s)
        | Some u => if foreign u s then (None, s) else (None, project_update now params u s)
        end
      else (Some e, s)
  | Message (Request r) =>
      if req_method r ≟ SESSION_REQUEST_PERMISSION then
        match parse_offer (req_params r) with
        | Some offer =>
            let correlated := of_call offer ≫= λ id, ds_tools s !! id in
            (Some (Message (Request (mk_request (req_id r) INTERACTION_REQUEST_PERMISSION
                     (normalize_permission_request offer correlated)))),
             dsh_put_offers (observe_offer (correlation_key (req_id r)) offer (ds_offers s)) s)
        | None => (Some (unsupported_input (req_id r) "dsh permission request carried no usable offer"), s)
        end
      else if req_method r ≟ SESSION_REQUEST_INPUT then
        match request_input_question (req_params r) with
        | Some question =>
            (Some (Message (Request (mk_request (req_id r) INTERACTION_REQUEST_USER_INPUT
                     (VObject [("question", VString question)])))), s)
        | None => (Some (unsupported_input (req_id r) "dsh input request carried no usable question"), s)
        end
      else (Some (unsupported_input (req_id r) "dsh server request is not a supported interaction"), s)
  | _ => (Some e, s)
  end.

(** ** The pump ([transport.rs]) *)

Definition pump_frame (now : Z) (e : Inbound) (s : DshShared) : DshShared :=
  match project_dsh_inbound now e s with (Some p, s) => dsh_emit p s | (None, s) => s end.

(** An exit path folds what the watcher deposits within its grace, when a turn is
    active. *)
Definition fold_within (now : Z) (late : option SettledTurn) (s : DshShared) : DshShared :=
  if active (ds_turns s) then
    match or_else (ds_settled s) late with
    | Some t => apply_settled_turn now t (deposit_settled_turn None s)
    | None => s
    end
  else s.

Definition finish_on_child_exit (now : Z) (group_empty : option bool) (late : option SettledTurn) (exit : ChildExit)
    (s : DshShared) : DshShared :=
  let s := fold_within now late s in
  let terminal := exit_terminal group_empty (turns_snapshot (ds_turns s)) exit in
  dsh_put_offers ∅ (dsh_put_publisher (emit_driver (ChildExited exit) (Some terminal) (ds_publisher s)) s).

Definition finish_on_lost_stream (now : Z) (late : option SettledTurn) (s : DshShared) : DshShared :=
  let s := dsh_put_offers ∅ (fold_within now late s) in
  dsh_put_publisher (publish_terminal stream_lost (ds_publisher s)).2 s.

(** How the queue of frames ends for the pump: momentarily empty, or closed. *)
Inductive QueueEnd := QueueEmpty | QueueClosed.

(** The frames taken from the queue until an exit, or the queue's end. *)
Fixpoint drain_queue (now : Z) (frames : list Inbound) (s : DshShared) : option ChildExit * DshShared :=
  match frames with
  | [] => (None, s)
  | e :: rest =>
      let s := pump_frame now e s in
      match e with ChildExited exit => (Some exit, s) | _ => drain_queue now rest s end
  end.

(** [fold_settled_turn]: the deposit is taken first, then the queue is drained, then the
    settlement is applied. *)
Definition fold_settled_turn (now : Z) (group_empty : option bool) (late : option SettledTurn) (frames : list Inbound)
    (ended : QueueEnd) (s : DshShared) : DshShared :=
  match ds_settled s with
  | None => s
  | Some t =>
      let s := deposit_settled_turn None s in
      let '(exited, s) := drain_queue now frames s in
      let s := apply_settled_turn now t s in
      match exited, ended with
      | Some exit, _ => finish_on_child_exit now group_empty late exit s
      | None, QueueClosed => finish_on_lost_stream now late s
      | None, QueueEmpty => s
      end
  end.

(** A frame of the loop. *)
Definition dsh_pump (now : Z) (group_empty : option bool) (late : option SettledTurn) (e : Inbound) (s : DshShared)
    : DshShared :=
  let s := pump_frame now e s in
  match e with ChildExited exit => finish_on_child_exit now group_empty late exit s | _ => s end.
End project.

(** ** The control plane ([session.rs], [owner.rs]) *)

Section owner.
Context (to_string : Value → string) (display : RequestError → string) (version : string).

Definition session_message (e : SessionError) : string := take_chars 512 (session_error_display to_string e).

Definition invalid_session {A} (r : result SessionError A) : result RuntimeCommandError A :=
  match r with Ok a => Ok a | Err e => Err (InvalidSession (session_message e)) end.

(** The owner's two halves: the shared state and the session. *)
Definition DshOwner : Type := DshShared * AcpSession.

(** [send_prompt], with the id reserved and what beginning the request gave. *)
Definition send_prompt (now : Z) (text : string) (id : Z) (begun : result RequestError unit) (o : DshOwner)
    : result RuntimeCommandError unit * DshOwner :=
  if active (ds_turns o.1) then (Err (InvalidSession "a prompt is already in flight for this dsh session"), o)
  else
    match acp_prompt display text id begun o.2 with
    | (Err e, session) => (Err (InvalidSession (session_message e)), (o.1, session))
    | (Ok prompt, session) => (Ok tt, (dsh_begin_turn now prompt o.1, session))
    end.

Definition dsh_rejection (e : SessionError) : string :=
  take_chars 512 match e with
                 | SessionRemote v => default (to_string v) (get_str v "message")
                 | other => session_error_display to_string other
                 end.

Definition model_error (e : SessionError) : RuntimeCommandError :=
  match e with
  | SessionRemote _ | SessionModel _ => ModelRejected (dsh_rejection e)
  | other => InvalidSession (session_message other)
  end.

(** What the server answers during a bootstrap, and whether the deadline has passed before
    each of its requests. *)
Record Answers := mk_answers {
  an_initialize : result RequestError ResponseEnvelope; an_new : result RequestError ResponseEnvelope;
  an_model : result RequestError ResponseEnvelope; an_effort : result RequestError ResponseEnvelope;
  an_prompt : result RequestError unit; an_prompt_id : Z; an_late : string → bool }.

Definition in_time (a : Answers) (what : string) : result RuntimeCommandError unit :=
  if an_late a what then Err CommandTimeout else Ok tt.

(** An operation of the session, when there is time for it. *)
Definition timed {A B} (a : Answers) (what : string) (op : AcpSession → result SessionError A * AcpSession)
    (failed : SessionError → RuntimeCommandError)
    (next : A → AcpSession → result RuntimeCommandError B * AcpSession) (s : AcpSession)
    : result RuntimeCommandError B * AcpSession :=
  match in_time a what with
  | Err e => (Err e, s)
  | Ok _ => match op s with (Ok x, s) => next x s | (Err e, s) => (Err (failed e), s) end
  end.

Definition as_invalid (e : SessionError) : RuntimeCommandError := InvalidSession (session_message e).

(** The selections, then the id and the model of the session. *)
Definition select_effort (a : Answers) (effort : option string) (done : result RuntimeCommandError unit) (s : AcpSession)
    : result RuntimeCommandError unit * AcpSession :=
  match effort with
  | None => (done, s)
  | Some token =>
      timed a "effort" (set_reasoning_effort display token (an_effort a)) as_invalid (λ _ s, (done, s)) s
  end.

Definition select_model (a : Answers) (model effort : option string) (s : AcpSession)
    : result RuntimeCommandError unit * AcpSession :=
  match model with
  | None => select_effort a effort (Ok tt) s
  | Some token =>
      timed a "model" (set_model to_string display token (an_model a)) model_error
        (λ _ s, select_effort a effort (Ok tt) s) s
  end.

(** [initialize], the capabilities, [session/new]. *)
Definition open_session (a : Answers) (cwd : string) (s : AcpSession) : result RuntimeCommandError unit * AcpSession :=
  timed a "initialize" (acp_initialize display version (an_initialize a)) as_invalid
    (λ caps s,
       match require_build_capabilities caps with
       | Err message => (Err (InvalidSession ("dsh acp shape error: " +:+ message)), s)
       | Ok _ => timed a "new" (acp_new_session display cwd (an_new a)) as_invalid (λ _ s, (Ok tt, s)) s
       end) s.

(** [bootstrap], from the task's decoded route. *)
Definition dsh_bootstrap (now : Z) (a : Answers) (route : result string PreparedGeneralTask) (cwd prompt : string)
    (o : DshOwner) : result RuntimeCommandError (string * option string) * DshOwner :=
  match route with
  | Err message => (Err (InvalidSession message), o)
  | Ok prepared =>
      let chosen := admission prepared ≫= model in
      match open_session a cwd o.2 with
      | (Err e, session) => (Err e, (o.1, session))
      | (Ok _, session) =>
          let id := default "" (ac_session session) in
          let shared := dsh_put_session (Some id) o.1 in
          match select_model a chosen (admission prepared ≫= effort) session with
          | (Err e, session) => (Err e, (shared, session))
          | (Ok _, session) =>
              match send_prompt now prompt (an_prompt_id a) (an_prompt a) (shared, session) with
              | (Err e, o) => (Err e, o)
              | (Ok _, o) => (Ok (id, chosen), o)
              end
          end
      end
  end.

Definition dsh_validate_session (id : string) (s : DshShared) : result RuntimeCommandError unit :=
  ensure (is_str (ds_session s) id) "session id does not belong to this runtime".

Definition dsh_send_turn (now : Z) (session content : string) (id : Z) (begun : result RequestError unit) (o : DshOwner)
    : result RuntimeCommandError (option string) * DshOwner :=
  match dsh_validate_session session o.1 with
  | Err e => (Err e, o)
  | Ok _ => let '(r, o) := send_prompt now content id begun o in (_ ← r; Ok None, o)
  end.

(** [stop_turn] up to its wait, and after it. *)
Definition dsh_stop_begin (session : string) (written : result string unit) (o : DshOwner)
    : result RuntimeCommandError (TurnSnapshot + Z) * DshOwner :=
  match dsh_validate_session session o.1 with
  | Err e => (Err e, o)
  | Ok _ =>
      let current := turns_snapshot (ds_turns o.1) in
      if negb (turn_active current) then (Ok (inl current), o)
      else let '(r, s) := acp_cancel written o.2 in
           (_ ← invalid_session r; Ok (inr (turn_generation current)), (o.1, s))
  end.
Definition dsh_stop_end (waited : result RuntimeCommandError TurnSnapshot) (s : DshShared)
    : result RuntimeCommandError TurnSnapshot * DshShared :=
  match waited with Ok b => (Ok b, dsh_count_boundary s) | Err e => (Err e, s) end.

Definition dsh_close_session (session : string) (answer : result RequestError ResponseEnvelope) (o : DshOwner)
    : result RuntimeCommandError unit * DshOwner :=
  match dsh_validate_session session o.1 with
  | Err e => (Err e, o)
  | Ok _ => let '(r, s) := acp_close display answer o.2 in (invalid_session r, (o.1, s))
  end.

(** [respond_request]: the value given to the driver, and what it makes of it. *)
Definition dsh_respond (parse_id : string → option WireId) (correlation_key : WireId → string)
    (sent : Value → result RequestError unit) (correlation decision : string) (content : option string) (s : DshShared)
    : result RuntimeCommandError unit * option (WireId * Value) * DshShared :=
  match parse_id correlation with
  | None => (Err (InvalidSession "stored request correlation is invalid"), None, s)
  | Some id =>
      let answer v := (match sent v with Ok _ => Ok tt | Err e => Err (from_request_error display e) end, Some (id, v)) in
      if decision ≟ "answer" then
        match content with
        | Some text => if str_is_empty (trim text) then (Err Unsupported, None, s) else (answer (VString text), s)
        | None => (Err Unsupported, None, s)
        end
      else if negb (one_of decision ["allow"; "deny"]) then (Err Unsupported, None, s)
      else
        match ds_offers s !! correlation_key id with
        | None => (Err (InvalidSession "runtime offered no matching permission response"), None, s)
        | Some offer =>
            let s := dsh_put_offers (delete (correlation_key id) (ds_offers s)) s in
            match select decision offer with
            | None => (Err (InvalidSession "the offered options do not include that decision"), None, s)
            | Some v => (answer v, s)
            end
        end
  end.

(** [finish_process] around its reap, and the forced cleanup. *)
Definition dsh_finish_begin (s : DshShared) : option RuntimeTerminal * DshShared :=
  let '(t, p) := begin_stopping (ds_publisher s) in (t, dsh_put_publisher p s).
Definition dsh_finish_end (bound : option TurnBoundary) (reap : result string StopOutcome)
    (exit_wait : option RuntimeTerminal) (s : DshShared) : RuntimeTerminal * DshShared :=
  let s := dsh_put_offers ∅ s in
  let '(t, p) := publish_terminal (finish_terminal bound reap exit_wait) (ds_publisher s) in (t, dsh_put_publisher p s).
Definition dsh_cleanup (reap : result string StopOutcome) (persisted : result string unit) (s : DshShared)
    : RuntimeTerminal * DshShared :=
  let t := cleanup_owned_group reap persisted in
  (t, dsh_put_publisher (publish_cleanup_terminal t (ds_publisher s)).2 (dsh_put_offers ∅ s)).
End owner.

(** ** Routing ([routing.rs]) *)

Inductive AgentRoute := RouteZcode | RouteDsh | RouteCodex | RouteAgy.

Definition agent_route (debug_str : string → string) (agent : string) : result string AgentRoute :=
  if agent ≟ "zcode" then Ok RouteZcode else if agent ≟ "dsh" then Ok RouteDsh
  else if agent ≟ "codex" then Ok RouteCodex else if agent ≟ "agy" then Ok RouteAgy
  else Err ("task routes to unknown agent " +:+ debug_str agent).
