(* ===== verification/DshProps.v ===== *)
(** * Properties of the dsh adapter

    A prompt leaves only after the session, and every selection the task asks for, has been
    verified, and in the order of the protocol.  A settlement is folded only after every
    frame that preceded it on the wire.  An answer to a permission request is one the server
    offered for once. *)

From stdpp Require Import gmap strings pretty relations.
From S2P Require Import Prelude RustStr Utf8 Json General Contract Projection Observation StoreRecords RuntimeEvents Activity RuntimeOwner Codex Diagnostics Recovery RpcProfiles RpcAgents AgyRuntime AgyProps Transport TransportProps Dsh DshRuntime.

(** ** Bootstrap *)

Section bootstrap.
Context (to_string : Value → string) (display : RequestError → string) (version : string).

(** A request that was answered with a result. *)
Definition verified (answer : result RequestError ResponseEnvelope) : Prop :=
  ∃ r v, answer = Ok r ∧ resp_result r = Some v.

Lemma answered_verified what answer v : answered display what answer = Ok v → verified answer.
Proof.
  unfold answered. destruct answer as [r|e]; [|done]. destruct (resp_result r) as [x|] eqn:E; [|done].
  intros _. by exists r, x.
Qed.

(** The frame of a selection, when there is one. *)
Definition selection (session config : string) (value : option string) : list (string * Value) :=
  match value with
  | Some v => [(SESSION_SET_CONFIG_OPTION, set_config_option_params session config v)]
  | None => []
  end.

Definition model_wire (model : option string) : option string :=
  '(provider, name) ← model ≫= parse_colon_token; Some (wire_token to_string provider name).

(** A step of the bootstrap: what it sends when it passes, and that it asks for nothing
    else. *)
Lemma select_option_ok config value refuse answer s s' u :
  select_option display config value refuse answer s = (Ok u, s') →
  verified answer ∧ s' = acp_send SESSION_SET_CONFIG_OPTION (set_config_option_params (default "" (ac_session s)) config value) s.
Proof.
  unfold select_option. destruct answer as [r|e]; [|done]. destruct (resp_result r) as [v|] eqn:E; [|done].
  intros [= _ <-]. split; [by exists r, v | done].
Qed.

Lemma set_model_ok token answer s s' u :
  set_model to_string display token answer s = (Ok u, s') →
  verified answer ∧ is_Some (model_wire (Some token))
  ∧ ac_sent s' = ac_sent s ++ selection (default "" (ac_session s)) MODEL_CONFIG_ID (model_wire (Some token))
  ∧ ac_session s' = ac_session s ∧ ac_model_refused s' = ac_model_refused s ∧ ac_effort_refused s' = ac_effort_refused s.
Proof.
  unfold set_model, colon_token, model_wire. cbn [mbind option_bind]. destruct (parse_colon_token token) as [[p m]|]; [|done].
  destruct (negb _); [done|]. intros [Hv ->]%select_option_ok. by split_and!; [|eexists|..].
Qed.

Lemma set_effort_ok token answer s s' u :
  set_reasoning_effort display token answer s = (Ok u, s') →
  verified answer
  ∧ ac_sent s' = ac_sent s ++ selection (default "" (ac_session s)) REASONING_EFFORT_CONFIG_ID (Some token)
  ∧ ac_session s' = ac_session s ∧ ac_model_refused s' = ac_model_refused s ∧ ac_effort_refused s' = ac_effort_refused s.
Proof.
  unfold set_reasoning_effort. destruct (validate_effort_token token); [|done]. destruct (negb _); [done|].
  intros [Hv ->]%select_option_ok. by split_and!.
Qed.

Lemma timed_ok {A B} a what (op : AcpSession → result SessionError A * AcpSession) failed
    (next : A → AcpSession → result RuntimeCommandError B * AcpSession) s b s' :
  timed a what op failed next s = (Ok b, s') → ∃ x s1, op s = (Ok x, s1) ∧ next x s1 = (Ok b, s').
Proof.
  unfold timed. destruct (in_time a what); [|done]. destruct (op s) as [[x|e] s1]; [|done]. eauto.
Qed.

Lemma select_model_ok a model effort s s' u :
  select_model to_string display a model effort s = (Ok u, s') →
  (is_Some model → verified (an_model a) ∧ is_Some (model_wire model)) ∧ (is_Some effort → verified (an_effort a))
  ∧ ac_sent s' = ac_sent s ++ selection (default "" (ac_session s)) MODEL_CONFIG_ID (model_wire model)
                          ++ selection (default "" (ac_session s)) REASONING_EFFORT_CONFIG_ID effort
  ∧ ac_session s' = ac_session s.
Proof.
  assert (∀ s s' u, select_effort to_string display a effort (Ok tt) s = (Ok u, s') →
    (is_Some effort → verified (an_effort a))
    ∧ ac_sent s' = ac_sent s ++ selection (default "" (ac_session s)) REASONING_EFFORT_CONFIG_ID effort
    ∧ ac_session s' = ac_session s) as He.
  { clear. intros s s' u. unfold select_effort. destruct effort as [token|].
    - intros (x & s1 & H & [= _ <-])%timed_ok. destruct (set_effort_ok _ _ _ _ _ H) as (H1 & H2 & H3 & _). by split_and!.
    - intros [= _ <-]. cbn. rewrite app_nil_r. split_and!; [by intros [] | done | done]. }
  unfold select_model. destruct model as [token|].
  - intros (x & s1 & H & Hn)%timed_ok. destruct (set_model_ok _ _ _ _ _ H) as (H1 & H2 & H3 & H4 & _).
    destruct (He _ _ _ Hn) as (H5 & H6 & H7). rewrite H4 in H6. split_and!; [done | done | | congruence].
    by rewrite H6, H3, <- app_assoc.
  - intros (H5 & H6 & H7)%He. split_and!; [by intros [] | done | done | done].
Qed.

Lemma open_session_ok a cwd s s' u :
  open_session to_string display version a cwd s = (Ok u, s') →
  (∃ v caps, answered display "initialize" (an_initialize a) = Ok v ∧ parse_initialize_result v = Ok caps
     ∧ cap_permission caps = true ∧ cap_cancel caps = true)
  ∧ (∃ id, ac_session s' = Some id ∧ bounded MAX_SESSION_ID_BYTES id = true)
  ∧ ac_sent s' = ac_sent s ++ [(ACP_INITIALIZE, initialize_params version); (SESSION_NEW, session_new_params cwd)].
Proof.
  unfold open_session. intros (caps & s1 & Hi & Hn)%timed_ok.
  unfold acp_initialize in Hi. injection Hi as Hi <-. apply result_bind_ok in Hi as (v & Hv & Hp).
  unfold shaped in Hp. destruct (parse_initialize_result v) as [c|] eqn:Ec; [|done]. injection Hp as ->.
  unfold require_build_capabilities in Hn. destruct (cap_permission caps) eqn:E1; [|done]. cbn [negb] in Hn.
  destruct (cap_cancel caps) eqn:E2; [|done]. cbn [negb] in Hn. apply timed_ok in Hn as (x & s2 & Hs & [= _ <-]).
  unfold acp_new_session in Hs. destruct (answered display "session/new" (an_new a)) as [w|]; [|done].
  cbn [mbind result_bind] in Hs. unfold shaped, parse_session_new_result in Hs.
  destruct (opaque_id _ _ _) as [id|] eqn:Eo; [|done]. cbn [mbind result_bind] in Hs. injection Hs as _ <-.
  split_and!; [by exists v, caps | | by cbn; rewrite <- app_assoc].
  exists id. split; [done|]. revert Eo. unfold opaque_id. destruct (_ ≫= as_str) as [t|]; [|done].
  destruct (bounded MAX_SESSION_ID_BYTES t) eqn:Eb; [|done]. by intros [= <-].
Qed.

(** C22. The bootstrap of a dsh task reports a session only when the server speaks the
    pinned protocol and offers permissions and cancellation, named the session, and
    answered every selection the task asks for with a result; and then it has sent exactly
    the frames of the protocol, in their order, the prompt last and under the session's id,
    with the model as the provider and name its token names. *)
Theorem dsh_prompt_after_verification now a prepared cwd prompt shared id chosen o :
  dsh_bootstrap to_string display version now a (Ok prepared) cwd prompt (shared, acp_new) = (Ok (id, chosen), o) →
  let model := admission prepared ≫= General.model in
  let effort := admission prepared ≫= General.effort in
  chosen = model
  ∧ (∃ v caps, answered display "initialize" (an_initialize a) = Ok v ∧ parse_initialize_result v = Ok caps
       ∧ cap_permission caps = true ∧ cap_cancel caps = true)
  ∧ bounded MAX_SESSION_ID_BYTES id = true ∧ ds_session o.1 = Some id
  ∧ (is_Some model → verified (an_model a) ∧ is_Some (model_wire model))
  ∧ (is_Some effort → verified (an_effort a))
  ∧ ac_sent o.2 = [(ACP_INITIALIZE, initialize_params version); (SESSION_NEW, session_new_params cwd)]
      ++ selection id MODEL_CONFIG_ID (model_wire model) ++ selection id REASONING_EFFORT_CONFIG_ID effort
      ++ [(SESSION_PROMPT, prompt_params id prompt)]
  ∧ active (ds_turns o.1) = true.
Proof.
  cbv zeta. unfold dsh_bootstrap. cbn [fst snd].
  destruct (open_session to_string display version a cwd acp_new) as [[u|e] s1] eqn:Eo; [|done].
  destruct (open_session_ok _ _ _ _ _ Eo) as (Hcaps & (sid & Hs & Hb) & Hsent). cbn [ac_sent acp_new app] in Hsent.
  destruct (select_model _ _ a _ _ s1) as [[u'|e] s2] eqn:Em; [|done].
  destruct (select_model_ok _ _ _ _ _ _ Em) as (Hm & He & Hsent2 & Hs2). rewrite Hs in *. cbn [default] in *.
  change (Datatypes.id sid) with sid in *.
  unfold send_prompt. cbn [fst snd]. destruct (active (ds_turns (dsh_put_session (Some sid) shared))); [done|].
  unfold acp_prompt. destruct (ac_model_refused s2); [done|]. destruct (ac_effort_refused s2); [done|].
  destruct (an_prompt a); [|done]. destruct (Z.ltb (an_prompt_id a) 0); [done|]. intros [= <- <- <-].
  cbn [fst snd]. split_and!; try done. cbn [ac_sent acp_send]. by rewrite Hsent2, Hsent, Hs2, <- !app_assoc.
Qed.

(** A refused selection blocks every later prompt. *)
Lemma refused_never_prompts text id begun s :
  ac_model_refused s || ac_effort_refused s = true → ∃ e, acp_prompt display text id begun s = (Err e, s).
Proof. unfold acp_prompt. destruct (ac_model_refused s); [eauto|]. destruct (ac_effort_refused s); [eauto | done]. Qed.

Lemma failed_model_refuses token answer s e s' :
  set_model to_string display token answer s = (Err e, s') → ac_model_refused s' = true.
Proof.
  unfold set_model, select_option. destruct (colon_token token) as [[p m]|]; [|by intros [= _ <-]].
  destruct (negb _); [by intros [= _ <-]|]. destruct answer as [r|]; [|by intros [= _ <-]].
  destruct (resp_result r); [done | by intros [= _ <-]].
Qed.
End bootstrap.

(** ** Settlements *)

Section settlement.
Context (response_key correlation_key : WireId → string) (display : RequestError → string) (cap : nat).

(** What a frame adds to the committed messages of a session. *)
Definition collect (session : option string) (m : gmap string string) (e : Inbound) : gmap string string :=
  match e with
  | Message (UnknownEvent method raw) =>
      if method ≟ SESSION_UPDATE then
        match parse_update (get_or_null raw "params") with
        | Some (mk_update actual (AgentMessage (Some message) text true)) =>
            match session, actual with
            | Some expected, Some actual =>
                if expected ≟ actual then observe_committed cap message text m else m
            | _, _ => observe_committed cap message text m
            end
        | _ => m
        end
      else m
  | _ => m
  end.

(** The parts of the state a frame leaves alone. *)
Definition same_control (s s' : DshShared) : Prop := ds_session s' = ds_session s ∧ ds_settled s' = ds_settled s.

#[local] Instance same_control_preorder : PreOrder same_control.
Proof. split; [by intros s | intros s s' s'' [] []; split; congruence]. Qed.

Lemma emit_updates_same now l s :
  same_control s (fold_left (emit_update now) l s) ∧ ds_messages (fold_left (emit_update now) l s) = ds_messages s.
Proof.
  revert s. induction l as [|v l IH]; intros s; [done|]. destruct (IH (emit_update now s v)) as [[H1 H2] H3].
  cbn [fold_left]. by split; [split; rewrite ?H1, ?H2 | rewrite H3].
Qed.

Lemma track_tool_same k s : same_control s (track_tool k s) ∧ ds_messages (track_tool k s) = ds_messages s.
Proof. unfold track_tool. destruct k; try done. by destruct (_ || _). Qed.

Lemma track_message_same k s : same_control s (track_message cap k s).
Proof. unfold track_message. by destruct k as [[message|] text []| | | |]. Qed.

Lemma project_update_same now params u s :
  same_control s (project_update cap now params u s)
  ∧ ds_messages (project_update cap now params u s) = ds_messages (track_message cap (up_kind u) s).
Proof.
  unfold project_update. match goal with |- context [fold_left _ ?l ?x] => destruct (emit_updates_same now l x) as [H1 H2] end.
  destruct (track_tool_same (up_kind u) s) as [H3 H4]. pose proof (track_message_same (up_kind u) (track_tool (up_kind u) s)) as H5.
  split; [etransitivity; [exact H3|]; etransitivity; [exact H5 | exact H1]|].
  rewrite H2. cbn [ds_messages dsh_put_sequence]. unfold track_message.
  destruct (up_kind u) as [[message|] text []| | | |]; cbn [ds_messages dsh_put_messages]; by rewrite ?H4.
Qed.

Lemma pump_frame_collects now e s :
  same_control s (pump_frame correlation_key cap now e s)
  ∧ ds_messages (pump_frame correlation_key cap now e s) = collect (ds_session s) (ds_messages s) e.
Proof.
  unfold pump_frame, project_dsh_inbound, collect. destruct e as [[r|r|v|method raw]| | | | |]; try done.
  - destruct (req_method r ≟ _); [by destruct (parse_offer _)|]. destruct (req_method r ≟ _); [|done].
    by destruct (request_input_question _).
  - destruct (method ≟ _); [|done]. destruct (parse_update _) as [[actual k]|]; [|done].
    destruct (foreign _ s) eqn:Ef.
    + split; [done|]. revert Ef. unfold foreign. cbn [up_session]. destruct (ds_session s) as [x|], actual as [y|]; try done.
      intros Hf%negb_true_iff. rewrite Hf. by destruct k as [[]? []| | | |].
    + destruct (project_update_same now (get_or_null raw "params") (mk_update actual k) s) as [H1 H2].
      split; [done|]. rewrite H2. revert Ef. unfold foreign, track_message. cbn [up_session up_kind].
      destruct k as [[message|] text []| | | |]; try done. destruct (ds_session s) as [x|], actual as [y|]; try done.
      by intros ->%negb_false_iff.
Qed.
(** A turn between its prompt and its settlement: the frames still on the wire, the
    dispatcher's table and channels, the frames queued for the pump, whether the watcher
    still waits, and the shared state. *)
Record Turn := mk_turn {
  tn_wire : list Inbound; tn_link : Link; tn_queue : list Inbound; tn_watching : bool; tn_shared : DshShared }.

(** What a dispatched frame adds to the queue. *)
Definition queued (e : Inbound) (l : Link) : list Inbound := drop (length (ln_out l)) (ln_out (dispatch response_key e l)).

(** Steps of the turn of the prompt with the key [key] and the channel [c]; other
    requests begin and end under other keys. *)
Inductive turn_step (key : string) (c : nat) : Turn → Turn → Prop :=
| turn_dispatch e wire l queue w s :
    turn_step key c (mk_turn (e :: wire) l queue w s) (mk_turn wire (dispatch response_key e l) (queue ++ queued e l) w s)
| turn_request id written wire l queue w s :
    response_key id ≠ key →
    turn_step key c (mk_turn wire l queue w s) (mk_turn wire (link_step response_key l (LinkBeginWith id written)) queue w s)
| turn_finish other wire l queue w s :
    turn_step key c (mk_turn wire l queue w s) (mk_turn wire (finish_request other l) queue w s)
| turn_end l queue w s : turn_step key c (mk_turn [] l queue w s) (mk_turn [] (stream_end l) queue w s)
| turn_watched received wire l queue s :
    received = receive c l ∨ received = None →
    turn_step key c (mk_turn wire l queue true s)
      (mk_turn wire (finish_request key l) queue false (deposit_settled_turn (Some (watched display (wait_result received))) s))
| turn_pump now e wire l queue w s :
    (∀ exit, e ≠ ChildExited exit) →
    turn_step key c (mk_turn wire l (e :: queue) w s) (mk_turn wire l queue w (pump_frame correlation_key cap now e s)).

(** The exit of the child is the last frame. *)
Fixpoint exit_last (l : list Inbound) : bool :=
  match l with
  | [] => true
  | ChildExited _ :: rest => match rest with [] => true | _ => false end
  | _ :: rest => exit_last rest
  end.

(** No frame is the response to the request with the key [key]. *)
Definition unanswered (key : string) (e : Inbound) : Prop :=
  match e with Message (Response r) => response_key (resp_id r) ≠ key | _ => True end.

Lemma queued_cases e l :
  queued e l = [e] ∨ (∃ r, e = Message (Response r)) ∧ (queued e l = [] ∨ ∃ id what, queued e l = [UnmatchedResponse id what]).
Proof.
  unfold queued. destruct e as [[r|r|v|method raw]| | | | |]; cbn [dispatch]; try (left; apply drop_app_length).
  right. split; [by exists r|]. destruct (_ !! _); cbn [ln_out post put_pending_map broadcast].
  - left. apply drop_ge. done.
  - right. rewrite drop_app_length. eauto.
Qed.

Lemma queued_collects session e l m : fold_left (collect session) (queued e l) m = collect session m e.
Proof. destruct (queued_cases e l) as [->|[[r ->] [->|(id & what & ->)]]]; done. Qed.

Lemma queued_exit_last e l queue wire :
  exit_last (queue ++ e :: wire) = true → exit_last ((queue ++ queued e l) ++ wire) = true.
Proof.
  rewrite <- app_assoc. destruct (queued_cases e l) as [->|[[r ->] H]]; [done|].
  induction queue as [|x queue IH]; cbn.
  - intros Hw. by destruct H as [->|(id & what & ->)].
  - destruct x; try done. by destruct queue.
Qed.
Section turn.
Context (key : string) (c : nat) (r : ResponseEnvelope) (before after queue0 : list Inbound).
Context (session : option string) (m0 : gmap string string).

(** What holds of a turn while its frames [before], the response, then [after] come in:
    the queue and the messages account for the frames dispatched, and only the response
    fills the channel. *)
Record turn_inv (t : Turn) (seen : list Inbound) : Prop := {
  inv_link : link_ok response_key (tn_link t);
  inv_key : ln_keys (tn_link t) !! c = Some key;
  inv_frames : before ++ Message (Response r) :: after = seen ++ tn_wire t;
  inv_exit : exit_last (tn_queue t ++ tn_wire t) = true;
  inv_session : ds_session (tn_shared t) = session;
  inv_messages : fold_left (collect session) (tn_queue t) (ds_messages (tn_shared t))
                 = fold_left (collect session) (queue0 ++ seen) m0;
  inv_mail r' : (c, Ok r') ∈ ln_mail (tn_link t) → r' = r ∧ length before < length seen;
  inv_pending : length before < length seen → ln_pending (tn_link t) !! key = None;
  inv_settled p : ds_settled (tn_shared t) = Some (TurnSettled p) →
    watched display (wait_result (Some (Ok r))) = TurnSettled p ∧ length before < length seen }.

Hypothesis key_r : response_key (resp_id r) = key.
Hypothesis before_unanswered : Forall (unanswered key) before.

(** The frame after the ones seen. *)
Lemma next_frame seen e wire :
  before ++ Message (Response r) :: after = seen ++ e :: wire →
  (length seen < length before ∧ unanswered key e) ∨ (length seen = length before ∧ e = Message (Response r))
  ∨ length before < length seen.
Proof.
  intros E. assert ((before ++ Message (Response r) :: after) !! length seen = Some e) as He
    by (rewrite E; by apply list_lookup_middle).
  destruct (Nat.lt_trichotomy (length seen) (length before)) as [H|[H|H]]; [left|right; left|by right; right].
  - split; [done|]. rewrite lookup_app_l in He by done. by eapply Forall_lookup_1.
  - split; [done|]. rewrite H, list_lookup_middle in He by done. by injection He as <-.
Qed.

(** Dispatching changes the table and the mail only at the frame's own key, or drains
    them. *)
Lemma dispatch_keys e l : ln_keys (dispatch response_key e l) = ln_keys l.
Proof. destruct e as [[x|x|v|method raw]| | | | |]; cbn [dispatch]; try done. by destruct (_ !! _). Qed.

Lemma dispatch_pending e l k : ln_pending l !! k = None → ln_pending (dispatch response_key e l) !! k = None.
Proof.
  intros Hk. destruct e as [[x|x|v|method raw]| | | | |]; cbn [dispatch]; try done.
  destruct (ln_pending l !! response_key _); [|done]. cbn [ln_pending post put_pending_map]. apply lookup_delete_None. by right.
Qed.

Lemma dispatch_answer l : ln_pending (dispatch response_key (Message (Response r)) l) !! key = None.
Proof.
  cbn [dispatch]. rewrite key_r. destruct (ln_pending l !! key) eqn:E; [|done].
  cbn [ln_pending post put_pending_map]. apply lookup_delete_eq.
Qed.

Lemma drained_errors e l c' r' : (c', Ok r') ∈ ln_mail (drain e l) → (c', Ok r') ∈ ln_mail l.
Proof.
  cbn [drain put_pending_map post ln_mail]. intros [H|H]%elem_of_app; [done|].
  by apply list_elem_of_fmap in H as [[k d] [[=] _]].
Qed.

Lemma dispatch_mail e l r' :
  link_ok response_key l → ln_keys l !! c = Some key →
  (c, Ok r') ∈ ln_mail (dispatch response_key e l) →
  (c, Ok r') ∈ ln_mail l ∨ e = Message (Response r') ∧ response_key (resp_id r') = key ∧ is_Some (ln_pending l !! key).
Proof.
  intros Hl Hk. destruct e as [[x|x|v|method raw]| | | | |]; cbn [dispatch]; try by left.
  - destruct (ln_pending l !! response_key (resp_id x)) as [d|] eqn:E; [|by left].
    cbn [ln_mail post put_pending_map]. intros [H|H]%elem_of_app; [by left|].
    apply list_elem_of_singleton in H. injection H as <- ->. right.
    pose proof (pending_keyed _ l Hl _ _ E) as E'. rewrite Hk in E'. injection E' as E'. rewrite <- E' in E. by split_and!; [| |eexists].
  - intros H. left. cbn [broadcast ln_mail] in H. by eapply drained_errors.
Qed.
Lemma inv_dispatch e wire l queue w s seen :
  turn_inv (mk_turn (e :: wire) l queue w s) seen →
  turn_inv (mk_turn wire (dispatch response_key e l) (queue ++ queued e l) w s) (seen ++ [e]).
Proof.
  intros [Hl Hk Hf Hx Hs Hm Hmail Hp Hd]. cbn [tn_wire tn_link tn_queue tn_shared] in *.
  assert (length (seen ++ [e]) = S (length seen)) as Hlen by (rewrite length_app; cbn; lia).
  split; cbn [tn_wire tn_link tn_queue tn_shared].
  - by apply (link_ok_step response_key (LinkFrame e)).
  - by rewrite dispatch_keys.
  - by rewrite Hf, <- app_assoc.
  - by apply queued_exit_last.
  - done.
  - by rewrite fold_left_app, queued_collects, Hm, app_assoc, (fold_left_app _ (queue0 ++ seen) [e]).
  - intros r' [Hi|(-> & Hr & Hsome)]%dispatch_mail; [| |done|done].
    + destruct (Hmail r' Hi). split; [done|]. lia.
    + destruct (next_frame _ _ _ Hf) as [[_ Hu]|[[H [= ->]]|H]]; [done | split; [done|]; lia |].
      by rewrite Hp in Hsome by done; destruct Hsome.
  - rewrite Hlen. intros H. destruct (next_frame _ _ _ Hf) as [[? _]|[[_ ->]|?]]; [lia | apply dispatch_answer |].
    by apply dispatch_pending, Hp.
  - intros p [E H]%Hd. split; [done|]. lia.
Qed.

Lemma receive_mail l r' : receive c l = Some (Ok r') → (c, Ok r') ∈ ln_mail l.
Proof.
  unfold receive. destruct (list_find _ _) as [[i [c' m]]|] eqn:E; [|by destruct (bool_decide _)].
  intros [= ->]. apply list_find_Some in E as (E & Hc & _). cbn in Hc. subst c'. by eapply list_elem_of_lookup_2.
Qed.

Lemma begin_with_other id written l :
  response_key id ≠ key → ln_keys l !! c = Some key →
  let l' := (begin_request_with_id response_key written id l).2 in
  ln_keys l' !! c = Some key ∧ ln_mail l' = ln_mail l ∧ (ln_pending l !! key = None → ln_pending l' !! key = None).
Proof.
  intros Hne Hk. cbv zeta. unfold begin_request_with_id.
  assert (ln_pending l !! key = None → <[response_key id := length (ln_keys l)]> (ln_pending l) !! key = None) as Hi
    by (intros H; by rewrite lookup_insert_ne).
  destruct (ln_pending l !! response_key id); [|destruct written];
    cbn [snd ln_keys ln_mail ln_pending put_pending_map]; split_and!; try done; try (by apply lookup_app_l_Some).
  intros H%Hi. apply lookup_delete_None. by right.
Qed.

(** A settlement that carries the prompt's result was made of its response. *)
Lemma settled_from_mail l p received :
  received = receive c l ∨ received = None → watched display (wait_result received) = TurnSettled p →
  ∃ r', (c, Ok r') ∈ ln_mail l ∧ watched display (wait_result (Some (Ok r'))) = TurnSettled p.
Proof.
  intros [->| ->] H; [|done]. destruct (receive c l) as [[r'|e]|] eqn:E; [|done|done].
  exists r'. split; [by apply receive_mail | done].
Qed.

Lemma turn_step_inv t t' seen : turn_inv t seen → turn_step key c t t' → ∃ seen', turn_inv t' seen'.
Proof.
  intros H Hs. destruct Hs as [e wire l queue w s|id written wire l queue w s Hne|other wire l queue w s|l queue w s
                              |received wire l queue s Hr|now e wire l queue w s He];
    [exists (seen ++ [e]); by apply inv_dispatch|..]; exists seen; destruct H as [Hl Hk Hf Hx Hs Hm Hmail Hp Hd];
    cbn [tn_wire tn_link tn_queue tn_shared] in *.
  - destruct (begin_with_other id written l Hne Hk) as (H1 & H2 & H3).
    split; cbn [tn_wire tn_link tn_queue tn_shared link_step]; rewrite ?H2; auto. by apply link_ok_begin_with.
  - split; cbn [tn_wire tn_link tn_queue tn_shared]; auto; [by apply link_ok_finish|].
    intros H. apply lookup_delete_None. auto.
  - split; cbn [tn_wire tn_link tn_queue tn_shared]; auto; [by apply link_ok_drain|].
    intros r' Hi%drained_errors. auto.
  - split; cbn [tn_wire tn_link tn_queue tn_shared]; auto; [by apply link_ok_finish| |].
    + intros H. apply lookup_delete_None. auto.
    + intros p [= E]. destruct (settled_from_mail l p received Hr E) as (r' & Hi & E'). by destruct (Hmail r' Hi) as [-> ?].
  - destruct (pump_frame_collects now e s) as [[H1 H2] H3].
    split; cbn [tn_wire tn_link tn_queue tn_shared]; rewrite ?H1, ?H2, ?H3, ?Hs; auto. by destruct e; try (by destruct (He exit)).
Qed.

Lemma drain_queue_collects now frames s exited s' :
  exit_last frames = true → drain_queue correlation_key cap now frames s = (exited, s') →
  ds_session s' = ds_session s ∧ ds_messages s' = fold_left (collect (ds_session s)) frames (ds_messages s).
Proof.
  revert s. induction frames as [|e frames IH]; intros s Hx; [by intros [= _ <-]|]. cbn [drain_queue].
  destruct (pump_frame_collects now e s) as [[H1 _] H2].
  assert (exit_last frames = true → drain_queue correlation_key cap now frames (pump_frame correlation_key cap now e s) = (exited, s') →
          ds_session s' = ds_session s
          ∧ ds_messages s' = fold_left (collect (ds_session s)) (e :: frames) (ds_messages s)) as Hn.
  { intros Hf [H3 H4]%IH; [|done]. rewrite H3, H1. split; [done|]. by rewrite H4, H1, H2. }
  destruct e; try by apply Hn. destruct frames; [|done]. intros [= _ <-]. by split; [|rewrite H2].
Qed.
End turn.
Lemma exit_last_prefix a b : exit_last (a ++ b) = true → exit_last a = true.
Proof. induction a as [|x a IH]; [done|]. destruct x; cbn; try done. by destruct a. Qed.

(** The frames seen past the response. *)
Lemma split_seen r before after seen wire :
  before ++ Message (Response r) :: after = seen ++ wire → length before < length seen →
  ∃ later, seen = before ++ Message (Response r) :: later ∧ later `prefix_of` after.
Proof.
  revert seen. induction before as [|x before IH]; intros [|y seen] E Hl; cbn in *; try lia.
  - injection E as <- E. exists seen. split; [done|]. by exists wire.
  - injection E as <- E. destruct (IH seen E) as (later & -> & ?); [lia|]. by exists later.
Qed.

(** What follows a settlement folded with the frames drained. *)
Definition after_fold (now : Z) (group_empty : option bool) (late : option SettledTurn) (exited : option ChildExit)
    (ended : QueueEnd) (s : DshShared) : DshShared :=
  match exited, ended with
  | Some exit, _ => finish_on_child_exit now group_empty late exit s
  | None, QueueClosed => finish_on_lost_stream now late s
  | None, QueueEmpty => s
  end.

Lemma turn_inv_start l key c r before after queue s :
  link_ok response_key l → ln_pending l !! key = Some c →
  exit_last (queue ++ before ++ Message (Response r) :: after) = true → ds_settled s = None →
  turn_inv key c r before after queue (ds_session s) (ds_messages s)
    (mk_turn (before ++ Message (Response r) :: after) l queue true s) [].
Proof.
  intros Hl Hp Hx Hd. split; cbn [tn_wire tn_link tn_queue tn_shared]; try done; [by apply Hl | by rewrite app_nil_r | | |].
  - intros r' Hi. exfalso. eapply (pending_unanswered _ l Hl); [done|]. apply list_elem_of_fmap. by exists (c, Ok r').
  - cbn. lia.
  - by rewrite Hd.
Qed.

Lemma turn_inv_reached key c r before after queue session m t t' seen :
  response_key (resp_id r) = key → Forall (unanswered key) before →
  rtc (turn_step key c) t t' → turn_inv key c r before after queue session m t seen →
  ∃ seen', turn_inv key c r before after queue session m t' seen'.
Proof.
  intros Hk Hb Hr. revert seen. induction Hr as [|t t1 t' Hs _ IH]; intros seen Hi; [eauto|].
  destruct (turn_step_inv _ _ _ _ _ _ _ _ Hk Hb _ _ _ Hi Hs) as [seen' Hi']. eauto.
Qed.

(** C21. However the dispatcher, the watcher of a prompt and the pump interleave, and
    whatever other requests are under way: a settlement that carries the prompt's result is
    made of the response to it, and the pump folds it with the messages of every frame that
    was queued, or came before the response on the wire, in their order, and of a prefix of
    the frames behind it. *)
Theorem settlement_sees_preceding_frames steps r c before after queue s t p now group_empty late ended :
  let key := response_key (resp_id r) in
  let l := link_run response_key steps link_new in
  ln_pending l !! key = Some c → Forall (unanswered key) before →
  exit_last (queue ++ before ++ Message (Response r) :: after) = true → ds_settled s = None →
  rtc (turn_step key c) (mk_turn (before ++ Message (Response r) :: after) l queue true s) t →
  ds_settled (tn_shared t) = Some (TurnSettled p) →
  watched display (wait_result (Some (Ok r))) = TurnSettled p
  ∧ ∃ later s1 exited, later `prefix_of` after
      ∧ ds_messages s1 = fold_left (collect (ds_session s)) (queue ++ before ++ later) (ds_messages s)
      ∧ fold_settled_turn correlation_key cap now group_empty late (tn_queue t) ended (tn_shared t)
        = after_fold now group_empty late exited ended (apply_prompt_settlement now p s1).
Proof.
  cbv zeta. intros Hp Hb Hx Hd Hr Hs. pose proof (link_run_ok response_key steps link_new (link_new_ok _)) as Hl.
  destruct (turn_inv_reached _ _ _ _ _ _ _ _ _ _ _ eq_refl Hb Hr (turn_inv_start _ _ _ _ _ _ _ _ Hl Hp Hx Hd)) as [seen H].
  destruct (inv_settled _ _ _ _ _ _ _ _ _ _ H p Hs) as [E Hlen]. split; [done|].
  unfold fold_settled_turn. rewrite Hs. destruct (drain_queue _ _ now _ _) as [exited s1] eqn:Ed.
  assert (exit_last (tn_queue t) = true) as Hq by (by eapply exit_last_prefix, inv_exit).
  destruct (drain_queue_collects _ _ _ _ _ Hq Ed) as [_ Hm]. cbn [ds_session ds_messages deposit_settled_turn] in Hm.
  destruct (split_seen _ _ _ _ _ (inv_frames _ _ _ _ _ _ _ _ _ _ H) Hlen) as (later & -> & Hpre).
  exists later, s1, exited. split_and!; [done | | done]. rewrite Hm, (inv_session _ _ _ _ _ _ _ _ _ _ H).
  rewrite (inv_messages _ _ _ _ _ _ _ _ _ _ H), !fold_left_app. done.
Qed.
End settlement.

(** ** Permissions *)

Lemma find_offered f l (x : PermissionOption) : List.find f l = Some x → x ∈ l ∧ f x = true.
Proof. intros H%find_some. by rewrite list_elem_of_In. Qed.

(** An answer given for a permission names an option of the offer made under the request's
    id, one the server offered for this once, and the offer is used up. *)
Lemma dsh_answer_was_offered display parse_id correlation_key sent correlation decision content s res id v s' :
  decision ≠ "answer" →
  dsh_respond display parse_id correlation_key sent correlation decision content s = (res, Some (id, v), s') →
  parse_id correlation = Some id
  ∧ ds_offers s' = delete (correlation_key id) (ds_offers s)
  ∧ ∃ offer x, ds_offers s !! correlation_key id = Some offer ∧ x ∈ of_options offer ∧ v = selected (option_name x)
      ∧ (decision = "allow" ∧ po_kind x ∈ ALLOW_ONCE_KINDS ∨ decision = "deny" ∧ po_kind x ∈ DENY_ONCE_KINDS).
Proof.
  intros Hd. unfold dsh_respond. destruct (parse_id correlation) as [id'|]; [|done].
  apply String.eqb_neq in Hd. rewrite Hd. destruct (negb _); [done|].
  destruct (ds_offers s !! correlation_key id') as [offer|] eqn:Eo; [|done].
  destruct (select decision offer) as [v'|] eqn:Es; [|done]. intros [= _ <- <- <-]. split_and!; [done | done|].
  revert Es. unfold select. destruct (decision ≟ "allow") eqn:Ea; [|destruct (decision ≟ "deny") eqn:Ed; [|done]];
    cbn [mbind option_bind]; destruct (option_for _ offer) as [x|] eqn:Ex; [|done| |done]; intros [= <-];
    apply find_offered in Ex as [Hx Hk%one_of_true]; exists offer, x; split_and!; try done.
  - left. split; [by apply String.eqb_eq | done].
  - right. split; [by apply String.eqb_eq | done].
Qed.

(** ** Findings *)

(** A decision the offer does not include is refused, and the offer is gone: a second,
    possible decision is refused too. *)
Lemma refused_decision_uses_offer :
  let s := dsh_put_offers {["1" := mk_offer None None None None [mk_option None "reject_once"]]} dsh_new in
  let respond := dsh_respond (λ _, "") (λ _, Some (Integer 1)) (λ _, "1") (λ _, Ok tt) "1" in
  let '(r, _, s) := respond "allow" None s in
  r = Err (InvalidSession "the offered options do not include that decision")
  ∧ (respond "deny" None s).1.1 = Err (InvalidSession "runtime offered no matching permission response").
Proof. by vm_compute. Qed.

(** The child's exit reaches the sink twice: as the frame the pump passes on, and with the
    terminal. *)
Lemma exit_delivered_twice :
  let s := dsh_pump (λ _, "") 64 0 (Some true) None (ChildExited (Exited (Some 0%Z))) dsh_new in
  omap (λ r, match event r with Driver (ChildExited x) => Some x | _ => None end) (sink (ds_publisher s))
  = [Exited (Some 0%Z); Exited (Some 0%Z)].
Proof. by vm_compute. Qed.

(** ** Witnesses *)

Module DshDemo.
Definition key (id : WireId) : string := match id with Integer n => pretty n | StringId s => s end.
Definition answer (n : Z) (v : Value) : result RequestError ResponseEnvelope := Ok (success (Integer n) v).
Definition capabilities : Value :=
  VObject [("protocolVersion", i64_value 1);
           ("agentCapabilities", VObject [("cancel", VBool true); ("permission", VBool true)])].
Definition answers : Answers :=
  mk_answers (answer 1 capabilities) (answer 2 (session_params "s1")) (answer 3 VNull) (answer 4 VNull) (Ok tt) 5
    (λ _, false).
Definition prepared : PreparedGeneralTask :=
  mk_prepared (Some (mk_admission "dsh" 1 "1" (Some "acme:large") "explicit" (Some "high") None))
    GENERAL_TASK_SCHEMA "10000000" "/repo" (mk_workspace "/repo" "/tmp/s") Build [].
Definition to_string (v : Value) : string :=
  match v with VArray [VString p; VString m] => p +:+ "," +:+ m | _ => "" end.
Definition bootstrapped := dsh_bootstrap to_string (λ _, "") "1" 0 answers (Ok prepared) "/repo" "go" (dsh_new, acp_new).

(** A committed message, then the response that names it. *)
Definition message : Inbound :=
  Message (UnknownEvent SESSION_UPDATE (VObject [("params", VObject [("sessionId", VString "s1");
    ("update", VObject [("sessionUpdate", VString "agent_message"); ("messageId", VString "m1");
                        ("content", VString "done")])])])).
Definition response : ResponseEnvelope :=
  success (Integer 1) (VObject [("stopReason", VString "end_turn"); ("messageId", VString "m1")]).
Definition steps : list LinkStep := [LinkBegin (Ok tt)].
Definition link : Link := link_run key steps link_new.
Definition started : DshShared := dsh_begin_turn 0 1 (dsh_put_session (Some "s1") dsh_new).
Definition settled : Turn :=
  mk_turn [] (finish_request "1" (dispatch key (Message (Response response)) (dispatch key message link))) [message] false
    (deposit_settled_turn (Some (TurnSettled (mk_prompt_settlement "end_turn" (Some "m1")))) started).

Lemma reaches_settled :
  rtc (turn_step key (λ _, "") (λ _, "") 64 "1" 0) (mk_turn [message; Message (Response response)] link [] true started) settled.
Proof.
  eapply rtc_l; [apply turn_dispatch|]. eapply rtc_l; [apply turn_dispatch|].
  eapply rtc_l; [apply turn_watched; by left|]. 
  match goal with |- rtc _ ?x ?y => assert (x = y) as -> by (by vm_compute) end. apply rtc_refl.
Qed.
End DshDemo.

Lemma dsh_prompt_after_verification_witness :
  (ac_sent DshDemo.bootstrapped.2.2).*1
    = [ACP_INITIALIZE; SESSION_NEW; SESSION_SET_CONFIG_OPTION; SESSION_SET_CONFIG_OPTION; SESSION_PROMPT]
  ∧ active (ds_turns DshDemo.bootstrapped.2.1) = true.
Proof.
  assert (dsh_bootstrap DshDemo.to_string (λ _, "") "1" 0 DshDemo.answers (Ok DshDemo.prepared) "/repo" "go" (dsh_new, acp_new)
          = (Ok ("s1", Some "acme:large"), DshDemo.bootstrapped.2)) as H by (by vm_compute).
  apply dsh_prompt_after_verification in H as (_ & _ & _ & _ & _ & _ & H & Ha). split; [|exact Ha].
  rewrite H. by vm_compute.
Defined.

Lemma settlement_sees_preceding_frames_witness :
  ∃ later s1 exited, later = @nil Inbound
    ∧ ds_messages s1 = {["m1" := "done"]}
    ∧ fold_settled_turn (λ _, "") 64 0 None None [DshDemo.message] QueueEmpty (tn_shared DshDemo.settled)
      = after_fold 0 None None exited QueueEmpty (apply_prompt_settlement 0 (mk_prompt_settlement "end_turn" (Some "m1")) s1).
Proof.
  destruct (settlement_sees_preceding_frames DshDemo.key (λ _, "") (λ _, "") 64 DshDemo.steps DshDemo.response 0
    [DshDemo.message] [] [] DshDemo.started DshDemo.settled (mk_prompt_settlement "end_turn" (Some "m1")) 0 None None QueueEmpty)
    as (_ & later & s1 & exited & Hl & Hm & Hf).
  - by vm_compute.
  - by apply Forall_singleton.
  - by vm_compute.
  - by vm_compute.
  - exact DshDemo.reaches_settled.
  - done.
  - exists later, s1, exited. split_and!; [by apply prefix_nil_inv | | exact Hf]. apply prefix_nil_inv in Hl. rewrite Hm, Hl. by vm_compute.
Defined.
