(* ===== verification/Mcp.v ===== *)
(** * The public tools

    [crates/external-daemon/src/mcp/]: the errors a client sees ([errors.rs]), the public
    ids and requests ([types.rs]), the inputs ([schemas.rs]), the projections of the
    daemon's views ([views.rs]) and the ten tools ([tools.rs]).

    The views that a projection copies field by field keep the type they have in the RPC.
    A tool runs against a counter of requests and the daemon behind a call, which is an
    argument: the socket of the client, or the dispatcher itself.  The encoding of a
    request is an argument; writing these types to memory cannot fail. *)

From stdpp Require Import gmap strings pretty.
From S2P Require Import Prelude RustStr Utf8 RustPath Json FileSystem General StoreRecords StoreOps Observation ObservationProps RuntimeOwner RpcErrors Recovery RpcViews RpcBound RpcWait RpcConfig RpcProfiles RpcAgents AgentStatus RpcHandlers RpcProfileProps RpcHandlerProps RpcService Messages MessageProps Admission AdmissionProps StartWait.

(** ** Errors ([errors.rs]) *)

Record PublicToolErrorBody := mk_tool_body {
  tb_code : string; tb_message : string; tb_component : option string; tb_operation : option string;
  tb_request : option string; tb_agent : option Z; tb_prompts : option Z }.

Record ToolError := mk_tool_error { te_body : PublicToolErrorBody; te_legacy : string }.

Definition tool_error (code message legacy component : string) : ToolError :=
  mk_tool_error (mk_tool_body code message (Some component) None None None None) legacy.

Definition with_operation (operation : string) (e : ToolError) : ToolError :=
  let b := te_body e in
  mk_tool_error (mk_tool_body (tb_code b) (tb_message b) (tb_component b) (Some operation) (tb_request b) (tb_agent b)
    (tb_prompts b)) (te_legacy e).
Definition with_request_id (id : string) (e : ToolError) : ToolError :=
  let b := te_body e in
  mk_tool_error (mk_tool_body (tb_code b) (tb_message b) (tb_component b) (tb_operation b) (Some id) (tb_agent b)
    (tb_prompts b)) (te_legacy e).
Definition with_prompt_count (n : Z) (e : ToolError) : ToolError :=
  let b := te_body e in
  mk_tool_error (mk_tool_body (tb_code b) (tb_message b) (tb_component b) (tb_operation b) (tb_request b) (tb_agent b)
    (Some n)) (te_legacy e).

Definition is_profile_error (detail : string) : bool := existsb (starts_with detail) PROFILE_ERROR_PREFIXES.

Definition validation_error (detail : string) : ToolError :=
  tool_error "validation" (if is_profile_error detail then detail else "request validation failed")
    ("validation: " +:+ detail) "facade".

Definition protocol_error : ToolError :=
  tool_error "protocol_error" "unexpected daemon response" "protocol_error: unexpected daemon response" "facade".

(** The public id of a task ([types.rs]). *)
Definition MIN_PUBLIC_TASK_ID : Z := 10000000.
Definition MAX_PUBLIC_TASK_ID : Z := 99999999.

Definition public_range (id : Z) : bool := Z.leb MIN_PUBLIC_TASK_ID id && Z.leb id MAX_PUBLIC_TASK_ID.

Definition public_task_id (value : string) : result ToolError Z :=
  match parse_unsigned u64_max value with
  | None => Err (validation_error "agent_id is invalid")
  | Some id => if public_range id then Ok id else Err (validation_error "agent_id is outside the allowed range")
  end.

Definition internal_task_id (value : Z) : result ToolError string :=
  if public_range value then Ok (pretty value) else Err (validation_error "agent_id is outside the allowed range").

(** The id of an earlier attribution stays. *)
Definition with_agent_id (agent : option string) (e : ToolError) : ToolError :=
  let b := te_body e in
  mk_tool_error (mk_tool_body (tb_code b) (tb_message b) (tb_component b) (tb_operation b) (tb_request b)
    (match tb_agent b with
     | Some id => Some id
     | None => value ← agent; match public_task_id value with Ok id => Some id | Err _ => None end
     end) (tb_prompts b)) (te_legacy e).

(** *** The daemon's errors *)

Definition PASSTHROUGH_DETAIL_PREFIXES : list string := ["dsh model must be"; "zcode model must be"; "agy model must be"].

Definition or_profile (detail sentence : string) : string := if is_profile_error detail then detail else sentence.
Definition spawn_detail (operation detail sentence : string) : string := if operation ≟ "spawn" then detail else sentence.

Definition public_code_message (code : RpcErrorCode) (detail operation : string) : string * string :=
  match code with
  | RMalformed | RValidation =>
      ("validation",
       if existsb (starts_with detail) PASSTHROUGH_DETAIL_PREFIXES
          || ((operation ≟ "spawn") && starts_with detail "MODEL_REJECTED") || is_profile_error detail
       then detail else "request validation failed")
  | RAgentRequired => ("subagent_required", "subagent is required")
  | RAgentUnknown =>
      ("subagent_unknown",
       if is_profile_error detail || starts_with detail "subagent is unknown" then detail else "subagent is unknown")
  | RAgentDisabled => ("agent_disabled", or_profile detail "agent is disabled")
  | RAgentUnsupported =>
      if detail ≟ "CODEX_WRITE_MANIFEST_UNSUPPORTED"
      then ("codex_write_manifest_unsupported", "codex does not support non-empty write_manifest")
      else if detail ≟ "AGY_WRITE_MANIFEST_UNSUPPORTED"
      then ("agy_write_manifest_unsupported", "agy does not support non-empty write_manifest")
      else if detail ≟ "AGY_PERMISSION_MODE_UNSUPPORTED"
      then ("agy_permission_mode_unsupported", "agy supports only the build and yolo permission modes")
      else ("agent_unsupported", or_profile detail "agent is unsupported")
  | RSteerUnsupported => ("steer_unsupported", "该 subagent 不支持 steer")
  | RModelSelectionUnsupported => ("model_selection_unsupported", "model selection is unsupported for zcode")
  | ROversized => ("oversized", "bounded response or request was too large")
  | RUnknownMethod => ("protocol_error", "daemon method is unavailable")
  | RNotFound => ("not_found", "agent task was not found")
  | RConflict =>
      ("conflict",
       if detail ≟ "WORKSPACE_BUSY" then "WORKSPACE_BUSY"
       else if detail ≟ "MESSAGE_ID_CONFLICT" then "MESSAGE_ID_CONFLICT" else "durable state conflict")
  | RUnavailable =>
      if operation ≟ "spawn" then ("unavailable", detail)
      else if detail ≟ "RUNTIME_COMMAND_FAILED" then ("runtime_command_failed", "runtime could not complete the command")
      else ("unavailable", "subagent daemon could not complete the operation")
  | RTimeout => ("timeout", spawn_detail operation detail "daemon operation timed out")
  | RRuntimeLost => ("runtime_lost", spawn_detail operation detail "agent runtime was lost")
  | RResultInvalid => ("result_invalid", spawn_detail operation detail "stored task result failed verification")
  | RPersistence => ("persistence", "durable store operation failed")
  | RInternal => ("internal", "daemon operation failed")
  end.

(** Refusals of an input: no prompt was sent. *)
Definition agent_refusal (code : RpcErrorCode) : bool :=
  match code with
  | RAgentRequired | RAgentUnknown | RAgentDisabled | RAgentUnsupported | RSteerUnsupported | RModelSelectionUnsupported => true
  | _ => false
  end.
Definition input_refusal (code : RpcErrorCode) : bool := match code with RValidation | RMalformed => true | _ => false end.

Definition legacy_of (e : RpcError) (code message : string) : string :=
  let detail := re_message e in
  let quotable := negb (detail ≟ message) && Nat.leb (String.length detail) 512 in
  match re_active_agent e with
  | Some agent => code +:+ ": " +:+ message +:+ " (active_agent_id=" +:+ agent +:+ ")"
  | None =>
      if is_profile_error detail then code +:+ ": " +:+ detail
      else if input_refusal (re_code e) && quotable then code +:+ ": " +:+ detail
      else if agent_refusal (re_code e) && quotable then code +:+ ": " +:+ message +:+ ": " +:+ detail
      else code +:+ ": " +:+ message
  end.

Definition public_error_for_op (e : RpcError) (operation : string) : ToolError :=
  let '(code, message) := public_code_message (re_code e) (re_message e) operation in
  let projected := with_agent_id (re_active_agent e) (tool_error code message (legacy_of e code message) "daemon") in
  if input_refusal (re_code e) || agent_refusal (re_code e) then with_prompt_count 0 projected else projected.

(** The kind of a failed call to the daemon. *)
Inductive CallFailure := CallTimedOut | CallWouldBlock | CallInvalidData | CallFailed.

Definition public_transport_error (kind : CallFailure) : ToolError :=
  let failed code message := tool_error code message (code +:+ ": " +:+ message) "daemon_transport" in
  match kind with
  | CallTimedOut | CallWouldBlock => failed "timeout" "daemon call exceeded its bound"
  | CallInvalidData => failed "protocol_error" "daemon returned an invalid or oversized frame"
  | CallFailed => failed "daemon_unavailable" "subagent daemon is unavailable"
  end.

Definition u64_value (n : Z) : Value := VNumber (PosInt n).

(** What the client receives: the structured error and the text beside it. *)
Definition opt_field {A} (key : string) (f : A → Value) (o : option A) : Fields :=
  match o with Some x => [(key, f x)] | None => [] end.

Definition call_tool_result (e : ToolError) : Value * string :=
  let b := te_body e in
  (VObject [("error", VObject (opt_field "agent_id" u64_value (tb_agent b) ++ [("code", VString (tb_code b))]
      ++ opt_field "component" VString (tb_component b) ++ [("message", VString (tb_message b))]
      ++ opt_field "operation" VString (tb_operation b) ++ opt_field "prompt_count" u64_value (tb_prompts b)
      ++ opt_field "request_id" VString (tb_request b)))],
   te_legacy e).

(** ** Inputs ([schemas.rs]) *)

Definition MAX_CONTENT_BYTES : nat := 16 * 1024.

Definition validate_content (value field : string) (max : nat) : result ToolError unit :=
  if str_is_empty (trim value) || Nat.ltb max (String.length value) || contains_char value (byte_of 0)
  then Err (validation_error (field +:+ " is invalid")) else Ok tt.

Record AgentSpawnInput := mk_spawn_input {
  sp_profile : option string; sp_agent : option string; sp_repository : string; sp_mode : option PermissionMode;
  sp_prompt : string; sp_write_manifest : list string; sp_model : option string; sp_effort : option string;
  sp_instructions : option string }.

Record AgentListInput := mk_list_input {
  li_agent : option string; li_repository : option string; li_phase : option TaskPhase; li_outcome : option TaskOutcome;
  li_cursor : option string; li_limit : Z }.

Inductive AgentIdOrList := SingleId (id : Z) | MultipleIds (ids : list Z).

Record AgentWaitInput := mk_wait_input { wi_agent : AgentIdOrList; wi_time : Z; wi_message : option string }.

Inductive PublicSendMode := SendQueue | SendSteer.
Definition send_mode_str (m : PublicSendMode) : string := match m with SendQueue => "queue" | SendSteer => "steer" end.

Record AgentSendInput := mk_send_input { sd_agent : Z; sd_message : option string; sd_mode : PublicSendMode; sd_content : string }.
Record AgentRespondInput := mk_respond_tool {
  rt_agent : Z; rt_request : string; rt_decision : ResponseDecision; rt_content : option string }.
Record AgentResultInput := mk_result_input { ri_agent : Z; ri_offset : nat; ri_limit : nat }.

(** The string form of the ids of a wait, some hosts send it. *)
Definition decode_string_form (from_str : string → result string Value) (raw : string) : option AgentIdOrList :=
  let trimmed := trim raw in
  if starts_with trimmed "[" then
    match from_str trimmed with
    | Ok parsed =>
        values ← as_array parsed;
        ids ← mapM as_u64 values;
        if is_nil ids then None else Some (MultipleIds ids)
    | Err _ => None
    end
  else SingleId <$> parse_unsigned u64_max trimmed.

(** [Deserialize]. *)
Definition decode_ids (from_str : string → result string Value) (v : Value) : option AgentIdOrList :=
  match v with
  | VNumber (PosInt n) => Some (SingleId n)
  | VArray values => MultipleIds <$> mapM as_u64 values
  | VString raw => decode_string_form from_str raw
  | _ => None
  end.

(** ** Projections ([types.rs], [views.rs]) *)

Inductive PublicPendingKind := PublicPermission | PublicUserInput.
Inductive PublicOperation := POpRead | POpWrite | POpCommand | POpNetwork | POpGitRef | POpUserInput | POpUnknown.

Record PublicPendingRequest := mk_public_pending {
  pp_request : string; pp_kind : PublicPendingKind; pp_tool : option string; pp_operation : PublicOperation;
  pp_summary : option string; pp_question : option QuestionView }.

Definition public_operation (operation : string) : PublicOperation :=
  if operation ≟ "read" then POpRead else if operation ≟ "write" then POpWrite
  else if operation ≟ "command" then POpCommand else if operation ≟ "network" then POpNetwork
  else if operation ≟ "git_ref_mutation" then POpGitRef else if operation ≟ "user_input" then POpUserInput
  else POpUnknown.

Definition public_pending (v : PendingRequestView) : PublicPendingRequest :=
  mk_public_pending (pv_request v) (if pv_kind v ≟ "permission" then PublicPermission else PublicUserInput) (pv_tool v)
    (public_operation (pv_operation v)) (pv_summary v) (pv_question v).

Record PublicTask := mk_public_task {
  pt_agent : Z; pt_status : string; pt_session : option string; pt_identity : InputIdentityView }.

Definition public_task (v : TaskView) : result ToolError PublicTask :=
  id ← public_task_id (tv_agent v); Ok (mk_public_task id (tv_status v) (tv_session v) (tv_identity v)).

Record PublicTaskHeader := mk_public_header { ph_agent : Z; ph_status : string }.

Definition public_header (v : TaskHeaderView) : result ToolError PublicTaskHeader :=
  id ← public_task_id (header_agent v); Ok (mk_public_header id (header_status v)).

Record AgentWaitOutput := mk_wait_output {
  wo_task : PublicTaskHeader; wo_pending : list PublicPendingRequest; wo_activity : TaskActivityView;
  wo_result : option TaskResultView; wo_timed_out : bool; wo_receipt : option MessageReceiptView }.

Definition wait_output (b : TaskWaitBody) : result ToolError AgentWaitOutput :=
  task ← public_header (wb_task b);
  Ok (mk_wait_output task (public_pending <$> wb_pending b) (wb_activity b) (wb_result b) (wb_timed_out b) (wb_receipt b)).

Record AgentWaitManyOutput := mk_wait_many { mo_waits : gmap string AgentWaitOutput; mo_error : option (gmap string string) }.

Record AgentObserveOutput := mk_observe_output {
  oo_tools : list ObservedTool; oo_reasoning : option (string * bool); oo_coverage : ObservationCoverage }.

(** The reasoning a client may see comes from a verified source and is short. *)
Definition public_reasoning (r : ObservedReasoning) : bool :=
  is_verified_public (source r) && Nat.leb (length (chars (text r))) 200.

Definition observe_output (v : TaskObservationView) : result ToolError AgentObserveOutput :=
  if negb (ov_schema v ≟ OBSERVATION_SCHEMA) || negb (ov_count_scope v ≟ "agent_lifetime")
     || match ov_reasoning v with Some r => negb (public_reasoning r) | None => thoughts_complete (ov_coverage v) end
  then Err protocol_error
  else Ok (mk_observe_output (ov_tools v) ((λ r, (text r, text_truncated r)) <$> ov_reasoning v) (ov_coverage v)).

Record PublicAgentStatus := mk_public_status {
  pa_agent : string; pa_configured : bool; pa_enabled : bool; pa_spawn_supported : bool;
  pa_version_mismatch : option (string * string); pa_permission_modes : list PermissionMode; pa_model_selection : bool;
  pa_effort_selection : bool * bool; pa_models : option AgentModelsStatusView;
  pa_local : ComponentStateView; pa_auth : ComponentStateView; pa_hi : ComponentStateView }.

Definition public_status (v : AgentStatusView) : PublicAgentStatus :=
  mk_public_status (st_agent v) (st_configured v) (st_enabled v) (st_spawn_supported v) (st_version_mismatch v)
    (st_permission_modes v) (st_model_selection v) (st_effort_selection v) (st_models v)
    (sv_state (st_local v)) (sv_state (st_auth v)) (sv_state (st_hi v)).

Record SystemStatusOutput := mk_status_output {
  so_components : list (string * ComponentStateView); so_agents : list PublicAgentStatus }.

(** Only the facade can tell that the facade is alive. *)
Definition status_output (agents : list AgentStatusView) (components : list (string * ComponentStateView)) : SystemStatusOutput :=
  mk_status_output ((λ '(name, state), (name, if name ≟ "facade" then Ready else state)) <$> components)
    (public_status <$> agents).

Definition SPAWN_INSTRUCTION : string := "Use mcp__external_subagent.wait tool to wait for a response".

Record AgentSpawnOutput := mk_spawn_output {
  uo_agent : Z; uo_status : string; uo_session : option string; uo_instruction : string }.

Record AgentRespondOutput := mk_respond_output {
  pr_disposition : ResponseDispositionView; pr_requested : ResponseDecision; pr_effective : ResponseDecision;
  pr_overrode : bool; pr_reason : option string }.

Definition public_decision (value : string) : result ToolError ResponseDecision :=
  if value ≟ "allow" then Ok Allow else if value ≟ "deny" then Ok Deny else if value ≟ "answer" then Ok Answer
  else Err protocol_error.

Definition project_response (v : ResponseOutcomeView) : result ToolError AgentRespondOutput :=
  requested ← public_decision (ov_requested v);
  effective ← public_decision (ov_effective v);
  Ok (mk_respond_output (ov_disposition v) requested effective (ov_overrode v) (ov_reason v)).

(** ** The tools ([tools.rs]) *)

Definition wait_context_id (target : WaitTarget) : option string :=
  match target with One id => Some id | Many ids => Some (pretty (length ids) +:+ " agents") end.

Definition rpc_context (method : RpcMethod) : string * option string :=
  match method with
  | SystemStatus | SystemStatusRefresh _ => ("status", None)
  | DaemonBeginDrain _ => ("drain", None)
  | DaemonDrainStatus => ("drain_status", None)
  | DaemonAbortDrain => ("drain_abort", None)
  | DaemonActivateReady => ("activate_ready", None)
  | AgentProbe _ => ("agent_probe", None)
  | AgentModels _ => ("agent_models", None)
  | SubmitGeneral _ => ("spawn", None)
  | TaskList _ => ("list", None)
  | TaskWait query => ("wait", wait_context_id (wq_agent query))
  | TaskMessage input => ("send", Some (ms_agent input))
  | TaskRespond input => ("respond", Some (rs_agent input))
  | TaskCancel id => ("cancel", Some id)
  | TaskResultPage id _ _ => ("result", Some id)
  | TaskClose id => ("close", Some id)
  | TaskObserve id => ("observe", Some id)
  end.

Definition general_manifest (input : AgentSpawnInput) : GeneralTaskManifest :=
  mk_manifest GENERAL_TASK_SCHEMA "daemon-prepared" (sp_repository input)
    (match sp_profile input with Some _ => None | None => Some (default Build (sp_mode input)) end)
    (sp_prompt input) (sp_write_manifest input).

(** A tool runs with the number of the next request and the state of the daemon. *)
Definition Tool (S A : Type) : Type := Z * S → outcome (result ToolError A * (Z * S)).

#[global] Instance tool_ret {S} : MRet (Tool S) := λ A a s, Returns (Ok a, s).
#[global] Instance tool_bind {S} : MBind (Tool S) := λ A B f m s,
  match m s with
  | Returns (Ok a, s') => f a s'
  | Returns (Err e, s') => Returns (Err e, s')
  | Panics => Panics
  end.

Definition on_error {A} (f : ToolError → ToolError) (r : result ToolError A) : result ToolError A :=
  match r with Ok a => Ok a | Err e => Err (f e) end.

Section tools.
Context {S : Type} (encode : RpcRequest → string)
  (call : Z → RpcRequest → string → S → outcome (result CallFailure RpcResponse * S)) (timeout : Z).

Definition lift {A} (r : result ToolError A) : Tool S A := λ s, Returns (r, s).

Definition attributed (operation request : string) (agent : option string) (e : ToolError) : ToolError :=
  with_agent_id agent (with_request_id request (with_operation operation e)).

Definition request_name (n : Z) : string := "subagent-mcp-" +:+ pretty n.

Definition other_request : ToolError :=
  tool_error "protocol_error" "unexpected daemon response" "protocol_error: daemon answered a different request id" "daemon".

(** What an answer of the daemon becomes. *)
Definition accepted (blame : ToolError → ToolError) (operation id : string) (answer : result CallFailure RpcResponse)
    : result ToolError RpcSuccess :=
  match answer with
  | Err kind => Err (blame (public_transport_error kind))
  | Ok response =>
      if negb (bool_decide (rp_request response = Some id)) then Err (blame other_request)
      else match rp_outcome response with
           | Ok success => Ok success
           | Err e => Err (blame (public_error_for_op e operation))
           end
  end.

Definition rpc_interruptible (bound : Z) (method : RpcMethod) : Tool S RpcSuccess := λ '(n, s),
  let '(operation, agent) := rpc_context method in
  let request := mk_request (request_name n) method in
  let next := ((n + 1) mod 2 ^ 64)%Z in
  let blame := attributed operation (rq_id request) agent in
  let encoded := encode request in
  if Nat.ltb (512 * 1024) (String.length encoded + 1)
  then Returns (Err (blame (validation_error "encoded RPC request exceeds frame cap")), (next, s))
  else '(answer, s) ← call bound request encoded s;
       Returns (accepted blame operation (rq_id request) answer, (next, s)).

Definition rpc (method : RpcMethod) : Tool S RpcSuccess := rpc_interruptible timeout method.

(** The call outlasts the wait; bounds are in milliseconds. *)
Definition rpc_wait (query : TaskWaitQuery) : Tool S RpcSuccess :=
  rpc_interruptible (Z.max timeout (1000 * saturating_add (wq_time query) 5)) (TaskWait query).
Definition rpc_spawn (input : GeneralSubmitInput) : Tool S RpcSuccess :=
  rpc_interruptible (Z.max timeout 125000) (SubmitGeneral input).

Definition unexpected {A} (operation : string) (agent : option string) : Tool S A :=
  lift (Err (with_agent_id agent (with_operation operation protocol_error))).

Definition system_status_tool (probe : bool) : Tool S SystemStatusOutput :=
  success ← rpc (if probe then SystemStatusRefresh true else SystemStatus);
  match success with
  | RsSystemStatus agents components => mret (status_output agents components)
  | _ => lift (Err (with_operation "status" protocol_error))
  end.

Definition spawn_conflict (input : AgentSpawnInput) : bool :=
  is_some (sp_profile input)
  && (is_some (sp_agent input) || is_some (sp_mode input) || is_some (sp_model input) || is_some (sp_effort input)
      || is_some (sp_instructions input)).

Definition submit_input (input : AgentSpawnInput) : GeneralSubmitInput :=
  mk_submit (sp_profile input) (sp_agent input) (sp_model input) (sp_effort input) (sp_instructions input)
    (general_manifest input).

Definition agent_spawn (input : AgentSpawnInput) : Tool S AgentSpawnOutput :=
  if spawn_conflict input then lift (Err (with_operation "spawn" (validation_error PROFILE_EXCLUSIVE)))
  else
    success ← rpc_spawn (submit_input input);
    match success with
    | RsGeneralSubmitted task =>
        id ← lift (on_error (with_operation "spawn") (public_task_id (tv_agent task)));
        mret (mk_spawn_output id (tv_status task) (tv_session task) SPAWN_INSTRUCTION)
    | _ => lift (Err (with_operation "spawn" protocol_error))
    end.

(** The target of a wait, and the id its errors name. *)
Definition wait_target (input : AgentWaitInput) : result ToolError (WaitTarget * Z) :=
  match wi_agent input with
  | SingleId id => internal ← internal_task_id id; Ok (One internal, id)
  | MultipleIds ids =>
      if is_nil ids then Err (validation_error "agent_id list must contain at least one id")
      else if Nat.ltb MAX_WAIT_AGENTS (length ids)
      then Err (validation_error ("agent_id list supports at most " +:+ pretty MAX_WAIT_AGENTS +:+ " ids"))
      else if is_some (wi_message input) then Err (validation_error "message_id is only supported with a single agent_id")
      else internal ← mapM internal_task_id ids; Ok (Many internal, default 0%Z (head ids))
  end.

Definition wait_query (input : AgentWaitInput) : result ToolError TaskWaitQuery :=
  '(target, context) ← on_error (with_operation "wait") (wait_target input);
  if Z.ltb 299 (wi_time input)
  then Err (with_agent_id (Some (match internal_task_id context with Ok id => id | Err _ => pretty context end))
              (with_operation "wait" (validation_error "wait_time must be between 0 and 299")))
  else Ok (mk_wait_query target (wi_time input) (wi_message input)).

(** The key of a body or of a marker is the public id. *)
Definition public_key (id : string) : result ToolError string :=
  n ← on_error (with_operation "wait") (public_task_id id); Ok (pretty n).

Definition wait_entry (entry : string * TaskWaitBody) : result ToolError (string * AgentWaitOutput) :=
  key ← public_key entry.1; output ← wait_output entry.2; Ok (key, output).
Definition marker_entry (entry : string * string) : result ToolError (string * string) :=
  key ← public_key entry.1; Ok (key, entry.2).

(** Insertions in order: the last one stays. *)
Definition collected {A} (entries : list (string * A)) : gmap string A :=
  fold_left (λ m kv, <[kv.1 := kv.2]> m) entries ∅.

Definition wait_many_output (waits : TaskWaitManyBody) : result ToolError AgentWaitManyOutput :=
  bodies ← mapM wait_entry (wm_bodies waits);
  markers ← mapM marker_entry (map_to_list (wm_error waits));
  let error := collected markers in
  Ok (mk_wait_many (collected bodies) (if bool_decide (error = ∅) then None else Some error)).

Definition agent_wait (input : AgentWaitInput) : Tool S (AgentWaitOutput + AgentWaitManyOutput) :=
  query ← lift (wait_query input);
  success ← rpc_wait query;
  match success with
  | RsTaskWait body => output ← lift (wait_output body); mret (inl output)
  | RsTaskWaitMany waits => output ← lift (wait_many_output waits); mret (inr output)
  | _ => lift (Err (with_operation "wait" protocol_error))
  end.

(** The id of a tool that names one task. *)
Definition named_task (operation : string) (id : Z) : Tool S string := lift (on_error (with_operation operation) (internal_task_id id)).

Definition agent_observe (id : Z) : Tool S AgentObserveOutput :=
  agent ← named_task "observe" id;
  success ← rpc (TaskObserve agent);
  match success with
  | RsTaskObserved observation =>
      lift (on_error (with_agent_id (Some agent) ∘ with_operation "observe") (observe_output observation))
  | _ => unexpected "observe" (Some agent)
  end.

Definition list_query (input : AgentListInput) : result ToolError TaskListQuery :=
  if negb (Z.leb 1 (li_limit input) && Z.leb (li_limit input) 100)
  then Err (with_operation "list" (validation_error "limit must be between 1 and 100"))
  else if negb (is_some (li_repository input))
  then Err (with_operation "list" (validation_error "at least one list scope is required"))
  else Ok (mk_list_query (li_agent input) (li_repository input) (li_phase input) (li_outcome input) (li_cursor input)
             (li_limit input)).

Definition agent_list (input : AgentListInput) : Tool S (list PublicTask * option string) :=
  query ← lift (list_query input);
  success ← rpc (TaskList query);
  match success with
  | RsTaskListed tasks next => tasks ← lift (mapM public_task tasks); mret (tasks, next)
  | _ => lift (Err (with_operation "list" protocol_error))
  end.

Definition agent_send (input : AgentSendInput) : Tool S (string * MessageDispositionView) :=
  agent ← named_task "send" (sd_agent input);
  _ ← lift (on_error (with_agent_id (Some agent) ∘ with_operation "send")
              (validate_content (sd_content input) "content" MAX_CONTENT_BYTES));
  success ← rpc (TaskMessage (mk_message_input agent (sd_message input) (send_mode_str (sd_mode input)) (sd_content input)));
  match success with
  | RsMessage message disposition _ => mret (message, disposition)
  | _ => unexpected "send" (Some agent)
  end.

(** The content of an answer: when it is given, and when it must be. *)
Definition check_respond (input : AgentRespondInput) : result ToolError unit :=
  if match rt_content input with
     | Some c => str_is_empty c || Nat.ltb MAX_CONTENT_BYTES (String.length c) || contains_char c (byte_of 0)
     | None => false
     end
  then Err (validation_error "content is invalid")
  else if match rt_decision input with
          | Answer => match rt_content input with Some c => str_is_empty (trim c) | None => true end
          | _ => false
          end
  then Err (validation_error "answer requires non-empty content")
  else Ok tt.

Definition agent_respond (input : AgentRespondInput) : Tool S AgentRespondOutput :=
  agent ← named_task "respond" (rt_agent input);
  _ ← lift (on_error (with_agent_id (Some agent) ∘ with_operation "respond") (check_respond input));
  success ← rpc (TaskRespond (mk_respond_input agent (rt_request input) (rt_decision input) (rt_content input)));
  match success with
  | RsRespond outcome _ => lift (on_error (with_agent_id (Some agent) ∘ with_operation "respond") (project_response outcome))
  | _ => unexpected "respond" (Some agent)
  end.

Definition agent_cancel (id : Z) : Tool S PublicTask :=
  agent ← named_task "cancel" id;
  success ← rpc (TaskCancel agent);
  match success with RsStopped task => lift (public_task task) | _ => unexpected "cancel" (Some agent) end.

Definition result_page (agent : string) (offset limit : nat) : Tool S (PublicTask * option TaskResultView * option string) :=
  success ← rpc (TaskResultPage agent offset limit);
  match success with
  | RsTaskResult task page instruction => task ← lift (public_task task); mret (task, page, instruction)
  | _ => unexpected "result" (Some agent)
  end.

Definition agent_result (input : AgentResultInput) : Tool S (PublicTask * option TaskResultView * option string) :=
  agent ← named_task "result" (ri_agent input); result_page agent (ri_offset input) (ri_limit input).

Definition agent_close (id : Z) : Tool S PublicTask :=
  agent ← named_task "close" id;
  success ← rpc (TaskClose agent);
  match success with RsClosed task => lift (public_task task) | _ => unexpected "close" (Some agent) end.
End tools.

(** ** Theorems *)

(** *** Ids *)

Lemma public_range_spec id : public_range id = true ↔ (10000000 ≤ id ≤ 99999999)%Z.
Proof. unfold public_range. rewrite andb_true_iff, !Z.leb_le. done. Qed.

(** An internal id comes back as the public id it was made of. *)
Lemma task_id_round_trip id s : internal_task_id id = Ok s → public_task_id s = Ok id.
Proof.
  unfold internal_task_id, public_task_id. destruct (public_range id) eqn:E; [|done]. intros [= <-].
  apply public_range_spec in E as H. rewrite parse_unsigned_pretty by (unfold u64_max; lia). by rewrite E.
Qed.

Lemma public_task_id_range s id : public_task_id s = Ok id → (10000000 ≤ id ≤ 99999999)%Z.
Proof.
  unfold public_task_id. destruct (parse_unsigned _ s) as [n|]; [|done]. destruct (public_range n) eqn:E; [|done].
  intros [= <-]. by apply public_range_spec.
Qed.

Lemma request_name_valid n : (0 ≤ n ≤ u64_max)%Z → valid_request_id (request_name n) = true.
Proof.
  intros Hn. assert (String.length (pretty n) ≤ 20) as Hl.
  { destruct n as [|p|p]; [vm_compute; lia| |lia].
    pose proof (pretty_N_go_length 20 (Npos p) "") as H. simpl in H. unfold u64_max in Hn.
    specialize (H ltac:(lia)). change (pretty (Zpos p)) with (pretty_N_go (Npos p) ""). lia. }
  unfold valid_request_id, request_name. rewrite contains_char_app, pretty_Z_no_nul, string_app_length.
  destruct (Nat.leb_spec (String.length "subagent-mcp-" + String.length (pretty n)) MAX_REQUEST_ID_BYTES) as [H|H]; [done|].
  unfold MAX_REQUEST_ID_BYTES in H. simpl in H. lia.
Qed.

(** *** Errors *)

(** Whether an error's detail may reach the client. *)
Definition disclosed (operation : string) (e : RpcError) : bool :=
  is_profile_error (re_message e)
  || match re_code e with
     | RMalformed | RValidation => true
     | RTimeout | RRuntimeLost | RResultInvalid => operation ≟ "spawn"
     | RUnavailable => (operation ≟ "spawn") || (re_message e ≟ "RUNTIME_COMMAND_FAILED")
     | RConflict => one_of (re_message e) ["WORKSPACE_BUSY"; "MESSAGE_ID_CONFLICT"]
     | code => agent_refusal code
     end.

(** Two errors that differ only in a detail that is not disclosed look the same. *)
Lemma details_hidden operation e e' :
  re_code e = re_code e' → re_active_agent e = re_active_agent e' →
  disclosed operation e = false → disclosed operation e' = false →
  public_error_for_op e operation = public_error_for_op e' operation.
Proof.
  destruct e as [code d a], e' as [code' d' a']. cbn. intros <- <-. unfold disclosed. cbn [re_code re_message].
  intros [H1 H2]%orb_false_iff [H1' H2']%orb_false_iff.
  unfold public_error_for_op, public_code_message, legacy_of, spawn_detail. cbn [re_code re_message re_active_agent].
  destruct code; cbn [agent_refusal input_refusal] in *; try done; rewrite ?H1, ?H1', ?H2, ?H2'; try done.
  - cbn [one_of existsb] in H2, H2'. apply orb_false_iff in H2 as [A B], H2' as [A' B'].
    rewrite orb_false_r in B, B'. by rewrite A, A', B, B'.
  - apply orb_false_iff in H2 as [A B], H2' as [_ B']. by rewrite A, B, B'.
Qed.

(** The hint of a list wait is not an id: the error names no agent. *)
Lemma list_hint_dropped (ids : list string) (e : ToolError) :
  length ids ≤ MAX_WAIT_AGENTS → tb_agent (te_body e) = None →
  tb_agent (te_body (with_agent_id (wait_context_id (Many ids)) e)) = None.
Proof.
  intros Hl Ha. unfold with_agent_id, wait_context_id. cbn [tb_agent te_body]. rewrite Ha.
  unfold MAX_WAIT_AGENTS in Hl. generalize dependent (length ids). intros n Hn.
  do 17 (destruct n as [|n]; [by vm_compute|]). lia.
Qed.

(** *** Calls *)

Inductive ToolCall :=
| CallStatus (probe : bool)
| CallSpawn (input : AgentSpawnInput)
| CallWait (input : AgentWaitInput)
| CallObserve (id : Z)
| CallList (input : AgentListInput)
| CallSend (input : AgentSendInput)
| CallRespond (input : AgentRespondInput)
| CallCancel (id : Z)
| CallResult (input : AgentResultInput)
| CallClose (id : Z).

Inductive ToolOutput :=
| OutStatus (o : SystemStatusOutput)
| OutSpawn (o : AgentSpawnOutput)
| OutWait (o : AgentWaitOutput + AgentWaitManyOutput)
| OutObserve (o : AgentObserveOutput)
| OutList (o : list PublicTask * option string)
| OutSend (o : string * MessageDispositionView)
| OutRespond (o : AgentRespondOutput)
| OutState (o : PublicTask)
| OutResult (o : PublicTask * option TaskResultView * option string).

(** The method a call asks for, when the facade passes it on. *)
Definition request_of (c : ToolCall) : result ToolError RpcMethod :=
  let task operation id := on_error (with_operation operation) (internal_task_id id) in
  match c with
  | CallStatus probe => Ok (if probe then SystemStatusRefresh true else SystemStatus)
  | CallSpawn input =>
      if spawn_conflict input then Err (with_operation "spawn" (validation_error PROFILE_EXCLUSIVE))
      else Ok (SubmitGeneral (submit_input input))
  | CallWait input => query ← wait_query input; Ok (TaskWait query)
  | CallObserve id => agent ← task "observe" id; Ok (TaskObserve agent)
  | CallList input => query ← list_query input; Ok (TaskList query)
  | CallSend input =>
      agent ← task "send" (sd_agent input);
      _ ← on_error (with_agent_id (Some agent) ∘ with_operation "send")
            (validate_content (sd_content input) "content" MAX_CONTENT_BYTES);
      Ok (TaskMessage (mk_message_input agent (sd_message input) (send_mode_str (sd_mode input)) (sd_content input)))
  | CallRespond input =>
      agent ← task "respond" (rt_agent input);
      _ ← on_error (with_agent_id (Some agent) ∘ with_operation "respond") (check_respond input);
      Ok (TaskRespond (mk_respond_input agent (rt_request input) (rt_decision input) (rt_content input)))
  | CallCancel id => agent ← task "cancel" id; Ok (TaskCancel agent)
  | CallResult input => agent ← task "result" (ri_agent input); Ok (TaskResultPage agent (ri_offset input) (ri_limit input))
  | CallClose id => agent ← task "close" id; Ok (TaskClose agent)
  end.

(** What the answer of the method becomes; an answer of another kind is a protocol error. *)
Definition project_answer (c : ToolCall) (success : RpcSuccess) : result ToolError ToolOutput :=
  let wrong operation id := Err (with_agent_id (Some (pretty (id : Z))) (with_operation operation protocol_error)) in
  match c, success with
  | CallStatus _, RsSystemStatus agents components => Ok (OutStatus (status_output agents components))
  | CallStatus _, _ => Err (with_operation "status" protocol_error)
  | CallSpawn _, RsGeneralSubmitted task =>
      id ← on_error (with_operation "spawn") (public_task_id (tv_agent task));
      Ok (OutSpawn (mk_spawn_output id (tv_status task) (tv_session task) SPAWN_INSTRUCTION))
  | CallSpawn _, _ => Err (with_operation "spawn" protocol_error)
  | CallWait _, RsTaskWait body => o ← wait_output body; Ok (OutWait (inl o))
  | CallWait _, RsTaskWaitMany waits => o ← wait_many_output waits; Ok (OutWait (inr o))
  | CallWait _, _ => Err (with_operation "wait" protocol_error)
  | CallObserve id, RsTaskObserved observation =>
      o ← on_error (with_agent_id (Some (pretty id)) ∘ with_operation "observe") (observe_output observation);
      Ok (OutObserve o)
  | CallObserve id, _ => wrong "observe" id
  | CallList _, RsTaskListed tasks next => tasks ← mapM public_task tasks; Ok (OutList (tasks, next))
  | CallList _, _ => Err (with_operation "list" protocol_error)
  | CallSend _, RsMessage message disposition _ => Ok (OutSend (message, disposition))
  | CallSend input, _ => wrong "send" (sd_agent input)
  | CallRespond input, RsRespond outcome _ =>
      o ← on_error (with_agent_id (Some (pretty (rt_agent input))) ∘ with_operation "respond") (project_response outcome);
      Ok (OutRespond o)
  | CallRespond input, _ => wrong "respond" (rt_agent input)
  | CallCancel _, RsStopped task => t ← public_task task; Ok (OutState t)
  | CallCancel id, _ => wrong "cancel" id
  | CallResult _, RsTaskResult task page instruction => t ← public_task task; Ok (OutResult (t, page, instruction))
  | CallResult input, _ => wrong "result" (ri_agent input)
  | CallClose _, RsClosed task => t ← public_task task; Ok (OutState t)
  | CallClose id, _ => wrong "close" id
  end.

Section calls.
Context {S : Type} (encode : RpcRequest → string)
  (call : Z → RpcRequest → string → S → outcome (result CallFailure RpcResponse * S)) (timeout : Z).

Definition run_tool (c : ToolCall) : Tool S ToolOutput :=
  match c with
  | CallStatus probe => o ← system_status_tool encode call timeout probe; mret (OutStatus o)
  | CallSpawn input => o ← agent_spawn encode call timeout input; mret (OutSpawn o)
  | CallWait input => o ← agent_wait encode call timeout input; mret (OutWait o)
  | CallObserve id => o ← agent_observe encode call timeout id; mret (OutObserve o)
  | CallList input => o ← agent_list encode call timeout input; mret (OutList o)
  | CallSend input => o ← agent_send encode call timeout input; mret (OutSend o)
  | CallRespond input => o ← agent_respond encode call timeout input; mret (OutRespond o)
  | CallCancel id => o ← agent_cancel encode call timeout id; mret (OutState o)
  | CallResult input => o ← agent_result encode call timeout input; mret (OutResult o)
  | CallClose id => o ← agent_close encode call timeout id; mret (OutState o)
  end.

(** How long a call may take. *)
Definition call_bound (method : RpcMethod) : Z :=
  match method with
  | TaskWait query => Z.max timeout (1000 * saturating_add (wq_time query) 5)
  | SubmitGeneral _ => Z.max timeout 125000
  | _ => timeout
  end.

Lemma named_task_name operation id s :
  on_error (with_operation operation) (internal_task_id id) = Ok s → s = pretty id.
Proof. unfold internal_task_id. by destruct (public_range id); [intros [= <-]|]. Qed.

(** A request is answered or not, its answer is of some kind, and its projection succeeds
    or not. *)
Ltac call_cases :=
  unfold system_status_tool, rpc, rpc_wait, rpc_spawn, unexpected, lift, mbind, mret, tool_bind, tool_ret, outcome_bind, result_bind;
  cbn [on_error call_bound]; try done;
  match goal with |- context [rpc_interruptible encode call ?b ?m ?st] =>
    destruct (rpc_interruptible encode call b m st) as [[[[]|] ?]|] end;
  try done; cbn [project_answer]; unfold mbind, result_bind;
  repeat match goal with |- context [match ?x with Ok _ => _ | Err _ => _ end] => destruct x eqn:? end; done.

(** Every tool is its checks, one request and its projection. *)
Lemma tool_shape c st :
  run_tool c st
  = match request_of c with
    | Err e => Returns (Err e, st)
    | Ok m =>
        '(r, st') ← rpc_interruptible encode call (call_bound m) m st;
        Returns (success ← r; project_answer c success, st')
    end.
Proof.
  destruct c as [probe|input|input|id|input|input|input|id|input|id]; cbn [run_tool request_of].
  - destruct probe; by call_cases.
  - unfold agent_spawn. destruct (spawn_conflict input); by call_cases.
  - unfold agent_wait. destruct (wait_query input); by call_cases.
  - unfold agent_observe, named_task. destruct (on_error _ (internal_task_id id)) eqn:E; [apply named_task_name in E as ->|];
      by call_cases.
  - unfold agent_list. destruct (list_query input); by call_cases.
  - unfold agent_send, named_task. destruct (on_error _ (internal_task_id _)) eqn:E; [apply named_task_name in E as ->|];
      [destruct (validate_content (sd_content input) "content" MAX_CONTENT_BYTES)|]; by call_cases.
  - unfold agent_respond, named_task. destruct (on_error _ (internal_task_id _)) eqn:E; [apply named_task_name in E as ->|];
      [destruct (check_respond input)|]; by call_cases.
  - unfold agent_cancel, named_task. destruct (on_error _ (internal_task_id id)) eqn:E; [apply named_task_name in E as ->|];
      by call_cases.
  - unfold agent_result, result_page, named_task. destruct (on_error _ (internal_task_id _)) eqn:E; [apply named_task_name in E as ->|];
      by call_cases.
  - unfold agent_close, named_task. destruct (on_error _ (internal_task_id id)) eqn:E; [apply named_task_name in E as ->|];
      by call_cases.
Qed.
End calls.

(** *** The facade over the dispatcher *)

(** What the dispatcher checks first of a request holds of every request the facade
    sends. *)
Definition well_posed (m : RpcMethod) : Prop :=
  match m with
  | SubmitGeneral input => profile_conflict input = false
  | TaskWait query => check_wait query = Ok tt
  | TaskList query => (1 ≤ lq_limit query ≤ MAX_LIST_TASKS)%Z ∧ is_Some (lq_repository query)
  | TaskMessage input => ms_mode input ∈ ["queue"; "steer"] ∧ validate_text (ms_content input) "content" (16 * 1024) = Ok tt
  | DaemonBeginDrain _ | DaemonAbortDrain | DaemonActivateReady => False
  | _ => True
  end.

Lemma spawn_well_posed input : spawn_conflict input = false → profile_conflict (submit_input input) = false.
Proof.
  unfold spawn_conflict, profile_conflict, submit_input, general_manifest.
  cbn [si_profile si_agent si_model si_effort si_developer_instructions si_manifest permission_mode].
  destruct (sp_profile input); [|done]. cbn [is_some andb]. rewrite orb_false_r.
  by destruct (sp_agent input), (sp_mode input), (sp_model input), (sp_effort input), (sp_instructions input).
Qed.

Lemma mapM_length {E A B} (f : A → result E B) l k : mapM f l = Ok k → length k = length l.
Proof.
  revert k. induction l as [|a l IH]; intros k; cbn; [by intros [= <-]|].
  intros (b & _ & (bs & Hbs & [= <-])%result_bind_ok)%result_bind_ok. cbn. by rewrite (IH bs).
Qed.

Lemma on_error_ok {A} f (r : result ToolError A) a : on_error f r = Ok a ↔ r = Ok a.
Proof. by destruct r. Qed.

Lemma wait_well_posed input query : wait_query input = Ok query → check_wait query = Ok tt.
Proof.
  unfold wait_query. intros ([target context] & Ht%on_error_ok & Hq)%result_bind_ok.
  destruct (Z.ltb_spec 299 (wi_time input)) as [|Htime]; [done|]. injection Hq as <-.
  unfold check_wait, MAX_WAIT. cbn [wq_time wq_agent wq_message]. rewrite (proj2 (Z.ltb_ge _ _)) by lia.
  revert Ht. unfold wait_target. destruct (wi_agent input) as [id|ids].
  - intros (internal & _ & [= <- _])%result_bind_ok. done.
  - destruct (is_nil ids) eqn:En; [done|]. destruct (Nat.ltb MAX_WAIT_AGENTS (length ids)) eqn:El; [done|].
    destruct (is_some (wi_message input)); [done|]. intros (internal & Hm%mapM_length & [= <- _])%result_bind_ok.
    rewrite Hm, El. by destruct internal, ids.
Qed.

Lemma list_well_posed input query :
  list_query input = Ok query → (1 ≤ lq_limit query ≤ MAX_LIST_TASKS)%Z ∧ is_Some (lq_repository query).
Proof.
  unfold list_query. destruct (Z.leb_spec 1 (li_limit input)), (Z.leb_spec (li_limit input) 100); try done. cbn [andb negb].
  destruct (li_repository input) as [r|] eqn:E; [|done]. intros [= <-]. by split; [|eexists].
Qed.

Lemma content_well_posed content :
  validate_content content "content" MAX_CONTENT_BYTES = Ok tt → validate_text content "content" (16 * 1024) = Ok tt.
Proof.
  unfold validate_content, validate_text. destruct content as [|c content]; [done|].
  destruct (str_is_empty (trim _)); [done|]. cbn [orb str_is_empty]. by destruct (_ || _).
Qed.

Lemma request_well_posed c m : request_of c = Ok m → well_posed m.
Proof.
  destruct c as [probe|input|input|id|input|input|input|id|input|id]; cbn [request_of].
  - by destruct probe; intros [= <-].
  - destruct (spawn_conflict input) eqn:E; [done|]. intros [= <-]. by apply spawn_well_posed.
  - intros (query & Hq & [= <-])%result_bind_ok. by eapply wait_well_posed.
  - by intros (agent & _ & [= <-])%result_bind_ok.
  - intros (query & Hq & [= <-])%result_bind_ok. by eapply list_well_posed.
  - intros (agent & _ & ([] & Hc%on_error_ok & [= <-])%result_bind_ok)%result_bind_ok. split; [|by apply content_well_posed].
    destruct (sd_mode input); [by left | by right; left].
  - by intros (agent & _ & (_ & _ & [= <-])%result_bind_ok)%result_bind_ok.
  - by intros (agent & _ & [= <-])%result_bind_ok.
  - by intros (agent & _ & [= <-])%result_bind_ok.
  - by intros (agent & _ & [= <-])%result_bind_ok.
Qed.

Section facade.
Context (from_str : string → result string Value) (decode_failure : Value → string)
  (hash_order : gmap string (list Path) → list (string * list Path)).
Context (is_executable_file : Path → bool) (codex_home : bool) (package_version : string) (to_string : Value → string).
Context (decode_prepared : Value → option PreparedGeneralTask) (decode_admission : Value → option AdmissionIdentity)
  (admission_agent : string → option string).
Context {fs : FileSystem} {S : Type} `{!Daemon S}.
Context (from_slice : string → option Value) (decode_request : Value → option RpcRequest) (encode : RpcRequest → string).

#[local] Abbreviation run :=
  (dispatch from_str decode_failure hash_order is_executable_file codex_home package_version to_string decode_prepared
     decode_admission admission_agent).
#[local] Abbreviation handle :=
  (handle_bytes from_str decode_failure hash_order is_executable_file codex_home package_version to_string decode_prepared
     decode_admission admission_agent from_slice decode_request).

(** [from_service]: the request goes to the dispatcher as bytes. *)
Definition in_process (_ : Z) (_ : RpcRequest) (bytes : string) (s : S) : outcome (result CallFailure RpcResponse * S) :=
  '(response, s) ← handle bytes s; Returns (Ok response, s).

(** serde reads back the request it wrote: an object of the three fields, with the name of
    its method. *)
Definition reads_back (r : RpcRequest) : Prop :=
  ∃ v, from_slice (encode r) = Some v ∧ stray_fields v = false
       ∧ (∀ m, get_str v "method" = Some m → is_known m = true) ∧ decode_request (with_params v) = Some r.

Definition framed_within (r : RpcRequest) : bool := Nat.leb (String.length (encode r) + 1) (512 * 1024).

Lemma handle_read_back r s :
  reads_back r → valid_request_id (rq_id r) = true → framed_within r = true →
  handle (encode r) s = '(a, s') ← run (rq_method r) s; Returns (mk_response (Some (rq_id r)) a, s').
Proof.
  intros (v & Hv & Hf & Hm & Hd) Hi Hl%Nat.leb_le. unfold handle_bytes.
  assert (Nat.ltb MAX_REQUEST_FRAME_BYTES (String.length (encode r) + 1) = false) as -> by (by apply Nat.ltb_ge).
  rewrite Hv, Hf.
  assert (match get_str v "method" with Some m => negb (is_known m) | None => false end = false) as ->.
  { destruct (get_str v "method") as [m|]; [|done]. by rewrite (Hm m eq_refl). }
  by rewrite Hd, Hi.
Qed.

End facade.

(** *** Observations *)

(** A change keeps where the reasoning comes from, and does not complete it. *)
Definition keeps_reasoning (s s' : ObservationState) : Prop :=
  reasoning_source s' = reasoning_source s ∧ (reasoning_complete s' = true → reasoning_complete s = true).

#[local] Instance keeps_reasoning_preorder : PreOrder keeps_reasoning.
Proof. split; [done|]. intros a b c [] []. split; [congruence | auto]. Qed.

Section observations.
Context (observe_to_string : Value → string).

Lemma drop_event_keeps tool s : keeps_reasoning s (drop_event tool s).
Proof. by destruct tool. Qed.

Lemma record_tool_call_keeps turn tool_call name a cut r s : keeps_reasoning s (record_tool_call turn tool_call name a cut r s).
Proof. split; [unfold record_tool_call; by repeat case_match | apply record_tool_call_extends]. Qed.

Lemma observe_reasoning_keeps delta s : keeps_reasoning s (observe_reasoning delta s).
Proof. split; [unfold observe_reasoning; by repeat case_match | apply observe_reasoning_extends]. Qed.

Lemma observe_tool_keeps params payload s : keeps_reasoning s (observe_tool observe_to_string params payload s).
Proof.
  unfold observe_tool. destruct (valid_id _) as [id|]; [|apply drop_event_keeps].
  destruct (valid_id _) as [name|]; [|apply drop_event_keeps].
  destruct (project_arguments _ _) as [[a cut] r]. apply record_tool_call_keeps.
Qed.

Lemma observe_message_keeps method params s : keeps_reasoning s (observe_message observe_to_string method params s).
Proof.
  split; [|apply observe_message_extends]. unfold observe_message. destruct (_ || _); [done|].
  destruct (get_str _ "kind") as [kind|]; [|done]. destruct (negb _); [done|]. destruct (_ && _); [done|].
  destruct (valid_id _) as [id|]; [|apply drop_event_keeps]. destruct (bool_decide _); [done|].
  destruct (full _); [apply drop_event_keeps|]. destruct (kind ≟ "tool_call"); [exact (proj1 (observe_tool_keeps _ _ _))|].
  destruct (get_str _ "delta") as [delta|]; [|done]. exact (proj1 (observe_reasoning_keeps delta _)).
Qed.

Lemma observe_descriptor_keeps d s : keeps_reasoning s (observe_descriptor observe_to_string d s).
Proof.
  split; [|apply observe_descriptor_extends]. unfold observe_descriptor. destruct (_ || _); [apply drop_event_keeps|].
  destruct (bool_decide _); [done|]. destruct (full _); [apply drop_event_keeps|].
  destruct (descriptor_arguments _ d) as [[a cut] r]. exact (proj1 (record_tool_call_keeps _ _ _ _ _ _ _)).
Qed.

Lemma merge_call_keeps newer s row : keeps_reasoning s (merge_call newer s row).
Proof.
  destruct row as [[sq id] name]. unfold merge_call. destruct (bool_decide _); [done|].
  destruct (split_identity id) as [t c]. destruct (call_detail newer name sq) as [[a cut] r]. apply record_tool_call_keeps.
Qed.

Lemma merge_guards_keeps lens put order s :
  (∀ g s, keeps_reasoning s (put g s)) → keeps_reasoning s (merge_guards lens put order s).
Proof.
  intros Hp. revert s. induction order as [|key order IH]; intros s; cbn [merge_guards]; [done|].
  destruct (full (lens s)); [done|]. etrans; [apply Hp | apply IH].
Qed.

Lemma merge_streams_keeps newer s : keeps_reasoning s (merge_streams newer s).
Proof.
  unfold merge_streams. destruct (str_is_empty (reasoning_raw newer)).
  - split; [done|]. cbn. by intros [? _]%andb_true_iff.
  - destruct (observe_reasoning_keeps (reasoning_raw newer) (set_launch_scope (launch_scope newer) s)) as [H1 H2].
    split; [exact H1|]. cbn. intros [H _]%andb_true_iff. exact (H2 H).
Qed.

Lemma merge_newer_keeps events frames newer s : keeps_reasoning s (merge_newer events frames newer s).
Proof.
  unfold merge_newer. etrans; [apply (merge_streams_keeps newer)|].
  assert (∀ rows s, keeps_reasoning s (fold_left (merge_call newer) rows s)) as Hc.
  { intros rows. induction rows as [|row rows IH]; intros s1; cbn [fold_left]; [done|]. etrans; [apply merge_call_keeps | apply IH]. }
  etrans; [apply Hc|]. etrans; [by apply (merge_guards_keeps seen_source_events set_source_events events)|].
  etrans; [by apply (merge_guards_keeps seen_descriptor_frames set_descriptor_frames frames)|]. done.
Qed.

(** The records of a task's launches, all of one adapter. *)
Inductive observed_by (adapter : string) : ObservationState → Prop :=
| by_launch scope : observed_by adapter (for_launch adapter scope)
| by_op s op : observed_by adapter s → observed_by adapter (apply_op observe_to_string s op)
| by_merge newer s events frames :
    observed_by adapter newer → observed_by adapter s →
    events ≡ₚ elements (seen_source_events newer) → frames ≡ₚ elements (seen_descriptor_frames newer) →
    observed_by adapter (merge_newer events frames newer s).

Lemma observed_by_observed adapter s : observed_by adapter s → observed observe_to_string s.
Proof. induction 1; [apply observed_launch | by apply observed_op | by apply observed_merge]. Qed.

Lemma observed_by_reasoning adapter s :
  observed_by adapter s →
  is_verified_public (reasoning_source s) = true
  ∧ (one_of adapter ["zcode"; "dsh"] = false → reasoning_complete s = false).
Proof.
  assert (∀ s s', keeps_reasoning s s' →
    is_verified_public (reasoning_source s) = true ∧ (one_of adapter ["zcode"; "dsh"] = false → reasoning_complete s = false) →
    is_verified_public (reasoning_source s') = true ∧ (one_of adapter ["zcode"; "dsh"] = false → reasoning_complete s' = false)) as Hk.
  { intros s1 s2 [H1 H2] [H3 H4]. rewrite H1. split; [done|]. intros Ha. specialize (H4 Ha).
    destruct (reasoning_complete s2); [|done]. by rewrite H2 in H4. }
  induction 1 as [scope|s op _ IH|newer s events frames _ _ _ IH _ _].
  - cbn. by destruct (adapter ≟ "dsh").
  - apply (Hk s); [|done]. destruct op; [apply observe_message_keeps | apply observe_descriptor_keeps | done].
  - by apply (Hk s); [apply merge_newer_keeps|].
Qed.
End observations.

(** What the daemon publishes of a task's record: a snapshot of it, or that there is
    none. *)
Inductive published (observe_to_string : Value → string) (adapter : string) : ObservationSnapshot → Prop :=
| published_record s : observed_by observe_to_string adapter s → published observe_to_string adapter (snapshot s)
| published_none src :
    is_verified_public src = true →
    published observe_to_string adapter
      (mk_observation_snapshot 0 [] (mk_observed_reasoning "" false src) (mk_coverage false false 0)).

Lemma published_public observe_to_string adapter snap :
  String.length (observe_to_string (VObject [])) ≤ MAX_ARGUMENT_BYTES →
  published observe_to_string adapter snap →
  public_reasoning (snapshot_reasoning snap) = true
  ∧ (one_of adapter ["zcode"; "dsh"] = false → thoughts_complete (snapshot_coverage snap) = false).
Proof.
  intros Hempty [s Hs|src Hsrc].
  - destruct (observed_by_reasoning _ _ _ Hs) as [Hp Hc]. split; [|done]. unfold public_reasoning. cbn [snapshot snapshot_reasoning source text].
    rewrite Hp. apply observed_by_observed, observed_ok in Hs; [|done]. rewrite (so_text _ _ Hs).
    destruct (reasoning_tail_spec (reasoning_raw s)) as [Hl _]. by apply Nat.leb_le.
  - split; [|done]. unfold public_reasoning. cbn. by rewrite Hsrc.
Qed.

Section observe.
Context (from_str : string → result string Value) (decode_prepared : Value → option PreparedGeneralTask).
Context {S : Type} `{!Daemon S} (observe_to_string : Value → string).
(** [serde_json] prints the empty object within the bound of an argument. *)
Context (empty_object : String.length (observe_to_string (VObject [])) ≤ MAX_ARGUMENT_BYTES).

(** C26. The observation the dispatcher answers for a task is one the facade accepts, whatever
    the runtime sent and however often its record was replaced: the client sees the tools and
    the coverage of the record, reasoning exactly for the adapters that publish it, at most
    200 characters of it and only from a verified source, and a coverage that does not call
    missing reasoning complete. *)
Theorem observations_accepted id s v s' :
  (∀ task, found from_str decode_prepared id s = Returns (Ok task, s) →
     published observe_to_string (task_agent from_str decode_prepared task) (dm_observation (task_id (rec_spec task)) s).1) →
  task_observe from_str decode_prepared id s = Returns (Ok (RsTaskObserved v), s') →
  s' = s ∧ ∃ task o, found from_str decode_prepared id s = Returns (Ok task, s) ∧ observe_output v = Ok o
    ∧ let snap := (dm_observation (task_id (rec_spec task)) s).1 in
      oo_tools o = snapshot_tools snap ∧ oo_coverage o = snapshot_coverage snap
      ∧ match oo_reasoning o with
        | Some (shown, cut) =>
            task_agent from_str decode_prepared task ∉ ["codex"; "agy"] ∧ shown = text (snapshot_reasoning snap)
            ∧ cut = text_truncated (snapshot_reasoning snap) ∧ length (chars shown) ≤ 200
            ∧ is_verified_public (source (snapshot_reasoning snap)) = true
        | None => task_agent from_str decode_prepared task ∈ ["codex"; "agy"] ∧ thoughts_complete (oo_coverage o) = false
        end.
Proof.
  intros Hpub. unfold task_observe. intros (task & s1 & Ht & H)%handler_bind_ok.
  assert (s1 = s) as -> by (unfold found in Ht; by injection Ht as _ <-). specialize (Hpub task Ht).
  unfold mbind, handler_bind, reading in H. destruct (dm_observation (task_id (rec_spec task)) s) as [snap verified] eqn:Eo.
  destruct (negb verified && _); [done|]. injection H as <- <-. split; [done|]. exists task.
  cbn [fst] in Hpub. destruct (published_public _ _ _ empty_object Hpub) as [Hr Hc]. unfold observe_output.
  cbn [ov_schema ov_count_scope ov_reasoning ov_coverage ov_tools]. rewrite !String.eqb_refl. cbn [negb orb].
  destruct (one_of (task_agent from_str decode_prepared task) ["codex"; "agy"]) eqn:Ea.
  - assert (one_of (task_agent from_str decode_prepared task) ["zcode"; "dsh"] = false) as Es.
    { apply one_of_true in Ea. set_unfold. by destruct Ea as [->|[->|[]]]. }
    rewrite (Hc Es).
    eexists. split; [done|]. split; [done|]. rewrite Eo. cbn. split_and!; [done | done | by apply one_of_true | by apply Hc].
  - rewrite Hr. eexists. split; [done|]. split; [done|]. rewrite Eo. cbn. unfold public_reasoning in Hr.
    apply andb_true_iff in Hr as [Hv Hl%Nat.leb_le]. split_and!; try done. by apply one_of_false.
Qed.
End observe.

(** ** Witnesses *)

Module McpDemo.
Definition document : Value :=
  VObject [("method", VString "task_close"); ("params", VObject []); ("request_id", VString "subagent-mcp-1")].
Definition from_slice (frame : string) : option Value := if frame ≟ "frame" then Some document else None.
Definition decode_request (_ : Value) : option RpcRequest := Some (mk_request "subagent-mcp-1" (TaskClose "10000001")).
Definition encode (_ : RpcRequest) : string := "frame".
Definition run : ToolCall → Tool (Service unit) ToolOutput :=
  run_tool encode (in_process ServiceDemo.no_json (λ _, "") (λ m, map_to_list m) (λ _, true) false "1.0.0" (λ _, "[]")
    (λ _, None) (λ _, None) (λ _, None) (fs := Tree.fs Tree.sample) from_slice decode_request) 5000.

Definition shown (o : outcome (result ToolError ToolOutput * (Z * Service unit)))
    : option (string * option string * option Z * option string * Z) :=
  match o with
  | Returns (Err e, (n, _)) =>
      let b := te_body e in Some (tb_code b, tb_operation b, tb_agent b, tb_request b, n)
  | _ => None
  end.

(** A service with tasks of codex. *)
Definition read_json (_ : string) : result string Value := Ok (VObject [("schema", VString GENERAL_TASK_SCHEMA)]).
Definition codex_task (_ : Value) : option PreparedGeneralTask :=
  Some (mk_prepared (Some (mk_admission "codex" 1 "1" None "default" None None)) GENERAL_TASK_SCHEMA "10000000" "/repo"
          (mk_workspace "/repo/10000000" "/tmp/s") Build []).
Definition service : Service unit := mk_service (MessageDemo.world ListDemo.db) drain_new (mk_evidence_store ∅ ∅) ServiceDemo.host.
Definition codex_daemon : Daemon (Service unit) :=
  service_daemon (λ _, "") read_json codex_task (λ _, "") (λ _, "") (λ _, "") MessageDemo.config "owner" (λ _ w, (true, w)) (λ w, w)
    (Tree.fs Tree.sample) Submission.create_scratch (λ _, "") (λ _, "") (λ t w, (Ok t, w))
    (λ _ _ _ w, Returns (Err wait_interrupted, w)) (λ _ _ w, Returns (Err wait_interrupted, w)).
End McpDemo.


Lemma observations_accepted_witness :
  ∃ v o, task_observe McpDemo.read_json McpDemo.codex_task (Daemon0 := McpDemo.codex_daemon) "10000000" McpDemo.service
         = Returns (Ok (RsTaskObserved v), McpDemo.service)
    ∧ observe_output v = Ok o ∧ oo_reasoning o = None.
Proof.
  destruct (task_observe McpDemo.read_json McpDemo.codex_task (Daemon0 := McpDemo.codex_daemon) "10000000" McpDemo.service)
    as [[[[]|] s']|] eqn:H; try by vm_compute in H.
  exists observation. destruct (observations_accepted McpDemo.read_json McpDemo.codex_task (λ _, "{}")
    (Daemon0 := McpDemo.codex_daemon) ltac:(vm_compute; lia) "10000000" McpDemo.service observation s') as [-> (task & o & _ & Ho & _)].
  - intros task _. cbn [dm_observation McpDemo.codex_daemon service_daemon]. unfold observed_task.
    cbn [ho_tracker sv_host McpDemo.service ServiceDemo.host fst].
    destruct (bool_decide _); [by apply (published_none (λ _, "{}") _ dsh_source) | by apply (published_none (λ _, "{}") _ verified_source)].
  - exact H.
  - exists o. split_and!; [done | exact Ho|]. vm_compute in H. injection H as <-. vm_compute in Ho. by injection Ho as <-.
Defined.
