(* ===== verification/DshProfile.v ===== *)
(** * Managed launch profiles of dsh

    [crates/subagents/dsh/src/profile.rs]: the launch rules, the three managed
    compositions, the generated manifest-build patch and the preflights, which run the
    provider twice ([--version], [--dump-config]) and judge the dumped configuration as
    untrusted data before any prompt is sent.

    A dump is a [serde_yaml::Value]: the parser and the printer of YAML are arguments, as
    are the files of the system and the answers of the two probes.  [{:?}] on a string is
    the argument [debug_str]; [windows] is [cfg!(windows)]. *)

From stdpp Require Import gmap strings pretty sorting.
From S2P Require Import Prelude RustStr Utf8 RustPath Json Projection RpcProfiles Transport Agy.

(** ** [serde_yaml::Value] *)

Inductive Yaml :=
| YNull
| YBool (b : bool)
| YNumber (n : Number)
| YString (s : string)
| YSequence (items : list Yaml)
| YMapping (m : list (Yaml * Yaml))
| YTagged (tag : string) (v : Yaml).

Definition Mapping : Type := list (Yaml * Yaml).

(** [untag_ref]: every accessor but the [match] of the walks looks through tags. *)
Fixpoint untag (v : Yaml) : Yaml := match v with YTagged _ w => untag w | _ => v end.

Definition y_str (v : Yaml) : option string := match untag v with YString s => Some s | _ => None end.
Definition y_bool (v : Yaml) : option bool := match untag v with YBool b => Some b | _ => None end.
Definition y_u64 (v : Yaml) : option Z := match untag v with YNumber (PosInt n) => Some n | _ => None end.
Definition y_seq (v : Yaml) : option (list Yaml) := match untag v with YSequence l => Some l | _ => None end.
Definition y_map (v : Yaml) : option Mapping := match untag v with YMapping m => Some m | _ => None end.
Definition y_null (v : Yaml) : bool := match untag v with YNull => true | _ => false end.

Definition is_key (key : string) (k : Yaml) : bool := match k with YString s => s ≟ key | _ => false end.

(** [Mapping::get] at a string: the keys of a mapping are distinct. *)
Fixpoint m_get (key : string) (m : Mapping) : option Yaml :=
  match m with
  | [] => None
  | (k, v) :: rest => if is_key key k then Some v else m_get key rest
  end.

(** [Value::get] and the index operator. *)
Definition y_get (v : Yaml) (key : string) : option Yaml := y_map v ≫= m_get key.
Definition y_index (v : Yaml) (key : string) : Yaml := default YNull (y_get v key).
Definition y_at (v : Yaml) (key : string) : option string := y_str (y_index v key).

Definition opt_eqb (o : option string) (s : string) : bool := match o with Some t => t ≟ s | None => false end.
Definition opt_in (o : option string) (l : list string) : bool := match o with Some t => one_of t l | None => false end.
Definition bool_is (o : option bool) (b : bool) : bool := match o with Some c => Bool.eqb c b | None => false end.

(** ** Launches *)

Record DshLaunch := mk_launch {
  l_executable : option Path;
  l_workspace : Path;
  l_home : option Path;
  l_profile : option string;
  l_version : option string;
  l_permission_mode : option string;
  l_patch : option Path;
}.

Definition DshLaunch_new (executable : option Path) (workspace : Path) (home : option Path) : DshLaunch :=
  mk_launch executable workspace home None None None None.

(** [std::process::Command] as far as it is set here. *)
Record Command := mk_command {
  c_program : string;
  c_args : list string;
  c_cwd : option Path;
  c_envs : list (string * string);
}.

Definition c_arg (a : string) (c : Command) : Command :=
  mk_command (c_program c) (c_args c ++ [a]) (c_cwd c) (c_envs c).
Definition c_env (k v : string) (c : Command) : Command :=
  mk_command (c_program c) (c_args c) (c_cwd c) (c_envs c ++ [(k, v)]).
Definition c_current_dir (d : Path) (c : Command) : Command :=
  mk_command (c_program c) (c_args c) (Some d) (c_envs c).

(** [Path::to_str]: the bytes, when they are UTF-8. *)
Definition path_to_str (p : Path) : option string := if from_utf8_lossy p ≟ p then Some p else None.

Section launch.
Context (is_file is_dir : Path → bool).

(** The error is the text of the [io::Error]. *)
Definition resolve_launch (l : DshLaunch) : result string Command :=
  match l_executable l with
  | None => Err "DSH_RUNTIME_PATH is unavailable; refusing to search the PATH"
  | Some executable =>
      if negb (is_absolute executable) then Err "DSH runtime path must be absolute"
      else if negb (is_file executable) then Err "DSH runtime path is not a regular file"
      else if negb (is_absolute (l_workspace l)) || negb (is_dir (l_workspace l)) then
        Err "DSH workspace must be an absolute directory"
      else
        let command :=
          if opt_in (extension executable ≫= path_to_str) ["js"; "cjs"; "mjs"]
          then c_arg executable (mk_command "node" [] None [])
          else mk_command executable [] None [] in
        let profile := default "acp" (l_profile l) in
        if negb (profile ≟ "acp") then Err "unsupported DSH profile"
        else
          let command := c_arg profile (c_arg "--profile" command) in
          command ←
            match l_patch l with
            | Some patch =>
                if negb (is_absolute patch) || negb (is_file patch) then
                  Err "DSH patch must be an absolute regular file"
                else Ok (c_arg patch (c_arg "--patch" command))
            | None => Ok command
            end;
          let command := c_current_dir (l_workspace l) command in
          let command :=
            match l_permission_mode l with
            | Some mode => c_env "DSH_PERMISSION_MODE" mode command
            | None => command
            end in
          match l_home l with
          | Some home =>
              if negb (is_absolute home) then Err "DSH home override must be absolute"
              else Ok (c_env "DSH_HOME" home command)
          | None => Ok command
          end
  end.
End launch.

(** ** What the probes printed *)

(** [input.replace("!!js", "")]: [skip] bytes of an occurrence are still to be dropped. *)
Fixpoint erase_js (skip : nat) (s : string) : string :=
  match s with
  | EmptyString => EmptyString
  | String c rest =>
      match skip with
      | S k => erase_js k rest
      | O => if starts_with s "!!js" then erase_js 3 rest else String c (erase_js 0 rest)
      end
  end.

Definition validate_dump_config_yaml (from_str : string → result string Yaml) (input : string)
    : result string Yaml :=
  match from_str (erase_js 0 input) with
  | Err e => Err ("invalid dsh dump-config YAML: " +:+ e)
  | Ok v =>
      match y_seq v, y_map v with
      | None, None => Err "dump-config root must be a structured sequence or mapping"
      | _, _ => Ok v
      end
  end.

(** [str::split_whitespace]: the runs of characters that are not white space. *)
Fixpoint words_of (cs : list string) (word : string) : list string :=
  match cs with
  | [] => if str_is_empty word then [] else [word]
  | c :: rest =>
      if is_whitespace c then
        if str_is_empty word then words_of rest "" else word :: words_of rest ""
      else words_of rest (word +:+ c)
  end.
Definition split_whitespace (s : string) : list string := words_of (chars s) "".

Definition starts_with_digit (s : string) : bool :=
  match s with String c _ => is_ascii_digit c | EmptyString => false end.

Definition parse_dsh_probed_version (output : string) : result string string :=
  ok_or "dsh --version returned no version" (List.find starts_with_digit (split_whitespace output)).

Definition reject_patch_application_failure (stderr : string) : result string unit :=
  match List.find (λ line, str_contains line "patch:" && str_contains line "not found")
                  (str_lines (from_utf8_lossy stderr)) with
  | Some line => Err ("dsh patch application failed without a non-zero exit: " +:+ trim line)
  | None => Ok tt
  end.

(** ** The build dump *)

Definition PINNED_APPROVAL : string :=
  "(process.env.DSH_PERMISSION_MODE ?? 'workspace-write') === 'danger-full-access' ? 'never' : 'ask'".
Definition APPROVALS : list string := ["ask"; PINNED_APPROVAL].

(** Entries that carry the id or the name. *)
Definition hits (entries : list Yaml) (id name : string) : list Yaml :=
  List.filter (λ e, opt_eqb (y_at e "id") id || opt_eqb (y_at e "name") name) entries.

Definition WIN_ONLY : string := "process.platform !== 'win32'".
Definition NOT_WIN : string := "process.platform === 'win32'".

(** [match &e["disabled"]] with the two shipped platform expressions: a tagged value is
    none of the cases. *)
Definition activation (windows : bool) (id : string) (disabled : Yaml) : option bool :=
  match disabled with
  | YNull => Some false
  | YBool b => Some b
  | YString s =>
      if (id ≟ "bash-sandbox") && (s ≟ NOT_WIN) then Some windows
      else if (id ≟ "pwsh-sandbox") && (s ≟ WIN_ONLY) then Some (negb windows)
      else None
  | _ => None
  end.

Definition should_disable (windows : bool) (id : string) : bool :=
  (id ≟ "pwsh-sandbox") && negb windows || (id ≟ "bash-sandbox") && windows.

(** Exactly one hit, which carries both the id and the name and the activation of the
    platform.  [who] is the composition's name in the messages. *)
Definition platform_entry (windows : bool) (who : string) (entries : list Yaml) (id name : string)
    : result string Yaml :=
  match hits entries id name with
  | [e] =>
      if negb (opt_eqb (y_at e "id") id) || negb (opt_eqb (y_at e "name") name)
         || negb (bool_is (activation windows id (y_index e "disabled")) (should_disable windows id))
      then Err (who +:+ " requires provider-owned " +:+ id +:+ " with the pinned platform activation")
      else Ok e
  | _ => Err (who +:+ " requires exactly one " +:+ id)
  end.

Definition SANDBOX_EXECUTORS : list (string * string * bool) :=
  [("sandbox", "@deepseek-ai/dsh-sandbox-local", false);
   ("bash-sandbox", "@deepseek-ai/dsh-bash-sandbox", true);
   ("pwsh-sandbox", "@deepseek-ai/dsh-pwsh-sandbox", false)].

Definition foreign_keys (m : Mapping) (allowed : list string) : bool :=
  existsb (λ '(k, _), negb (opt_in (y_str k) allowed)) m.

(** An executor's entry has no other keys and only its shipped configuration. *)
Definition executor_config_valid (timeout : bool) (config : Yaml) : bool :=
  if y_null config then negb timeout
  else match y_map config with
       | Some m =>
           if timeout then Nat.eqb (length m) 1
                           && match y_u64 (y_index config "timeoutMs") with
                              | Some n => Z.eqb n 60000 | None => false end
           else match m with [] => true | _ => false end
       | None => false
       end.

Definition check_executor (windows : bool) (who : string) (entries : list Yaml)
    (executor : string * string * bool) : result string unit :=
  let '(id, name, timeout) := executor in
  e ← platform_entry windows who entries id name;
  if match y_map e with
     | Some m => foreign_keys m ["id"; "name"; "disabled"; "config"]
     | None => false
     end
  then Err (who +:+ " " +:+ id +:+ " contains unverified plugin overrides")
  else if executor_config_valid timeout (y_index e "config") then Ok tt
  else Err (who +:+ " " +:+ id +:+ " contains unverified executor configuration").

Fixpoint check_each {A} (f : A → result string unit) (l : list A) : result string unit :=
  match l with [] => Ok tt | a :: rest => _ ← f a; check_each f rest end.

(** The preset the launch runs under, no other default and no settings. *)
Definition check_permission (who : string) (permission : Yaml) : result string unit :=
  let config := y_index permission "config" in
  let preset := y_index (y_index config "presets") "workspace-write" in
  if negb (opt_eqb (y_at preset "sandbox") "workspace-write")
     || negb (opt_eqb (y_at preset "approval") "ask")
  then Err (who +:+ " permission preset must preserve workspace-write and ask")
  else if match y_at config "defaultPreset" with
          | Some d => negb (d ≟ "workspace-write") | None => false end
  then Err (who +:+ " permission defaultPreset must be workspace-write")
  else match y_get config "settings" with
       | Some s =>
           if negb (y_null s) && negb (match y_map s with Some [] => true | _ => false end)
           then Err (who +:+ " permission settings overrides are not managed")
           else Ok tt
       | None => Ok tt
       end.

(** [root == Some("process.cwd()")] or the launch's workspace; both may be [None]. *)
Definition root_is_workspace (root : option string) (workspace : Path) : bool :=
  opt_eqb root "process.cwd()" || bool_decide (root = path_to_str workspace).

Definition validate_build_dump (windows : bool) (v : Yaml) (workspace : Path) : result string unit :=
  match y_seq v with
  | None => Err "build dump must contain a plugin sequence"
  | Some entries =>
      let entry := platform_entry windows "build" entries in
      policy ← entry "sandbox-policy" "@deepseek-ai/dsh-sandbox-policy";
      if negb (opt_in (y_at (y_index policy "config") "mode")
                 ["workspace-write"; "process.env.DSH_PERMISSION_MODE ?? 'workspace-write'"])
      then Err "build sandbox must resolve to workspace-write"
      else if negb (root_is_workspace (y_at (y_index policy "config") "workspaceRoot") workspace)
      then Err "build sandbox root must match the task workspace"
      else
        approval ← entry "approval" "@deepseek-ai/dsh-user-approval";
        if negb (opt_in (y_at (y_index approval "config") "policy") APPROVALS)
        then Err "build approval must resolve to ask"
        else
          _ ← check_each (check_executor windows "build" entries) SANDBOX_EXECUTORS;
          permission ← entry "permission" "@deepseek-ai/dsh-permission-presets";
          _ ← check_permission "build" permission;
          _ ← entry "fs-sandbox" "@deepseek-ai/dsh-fs-sandbox";
          _ ← entry "acp" "@deepseek-ai/dsh-acp";
          _ ← entry "acp-app-startup" "@deepseek-ai/dsh-acp-app";
          Ok tt
  end.

(** ** The walks over a dump *)

Definition DANGEROUS : list string :=
  ["tool-bash"; "tool-pwsh"; "tool-jobs"; "tool-fs"; "tool-skill"; "tool-subagent";
   "tool-subagent-fork"; "tool-subagent-control"; "tool-subagent-list-agents"; "subagent";
   "subagent-spawn-in-process"; "subagent-fork-in-process"; "tool-workflow"; "workflow-ptc";
   "ptc-runtime"; "tool-goal"; "tool-ralph"; "skill-filesystem"; "config-editor";
   "plugin-manager"; "tool-plugin-manager"; "goal-round-driver"].

Definition ALLOWED_ENABLED : list string :=
  ["timer"; "llm"; "deepseek-llm-api-extensions"; "session"; "session-log-deepseek"; "typert";
   "typert-loader"; "typert-gateway"; "session-title"; "session-title-llm"; "user-questions";
   "agent"; "plugin-package-inventory-deepseek"; "agent-default-model"; "jobs"; "llm-retry";
   "settings"; "authorization"; "deepseek-account"; "credentials"; "llm-pi-ai";
   "session-persistence-jsonl"; "attachment-local"; "session-query-sqlite";
   "session-projection"; "storage"; "storage-json"; "storage-domain";
   "session-projection-cache"; "otel"; "session-telemetry-otel"; "permission"; "shell-env";
   "fs-observation-policy"; "agent-instructions"; "skill"; "skill-badge"; "commands";
   "command-feedback"; "goal"; "command-goal"; "plan-mode"; "token-meter"; "compaction-basic";
   "command-compact"; "timeout-policy"; "spill-local"; "spill-policy";
   "session-checkpoint-policy"; "tool-result-pruner"; "image-offload"; "mcp-resources";
   "tool-todo"; "repeat-tool-reminder"; "web"; "web-search-deepseek"; "web-fetch-http";
   "tool-web"; "tools"; "system-prompt"; "agent-loop"; "fs-sandbox"; "llm-deepseek";
   "llm-deepseek-account"; "acp-app-startup"; "acp"; "subprocess"; "sandbox"; "bash-sandbox";
   "pwsh-sandbox"; "sandbox-policy"; "observe"; "tool-observe"; "tool-read"; "tool-fs-search";
   "tool-glob"; "tool-grep"; "tool-cordis"; "telemetry"; "logging"].

Definition MANIFEST_BUILD_DISABLED_IDS : list string :=
  ["tool-bash"; "tool-pwsh"; "tool-jobs"; "tool-skill"; "tool-subagent-control";
   "tool-subagent-list-agents"; "tool-subagent"; "tool-subagent-fork"; "subagent";
   "tool-workflow"; "workflow-ptc"; "ptc-runtime"; "config-editor"; "plugin-manager";
   "mcp-resources"; "tool-goal"; "tool-ralph"; "skill-filesystem"; "goal-round-driver";
   "subagent-spawn-in-process"; "subagent-fork-in-process"].

Definition CONTROLS : list string := ["sandbox-policy"; "approval"].
Definition UNMANAGED_KEYS : list string := ["runnerCommand"; "executor"; "executors"].

(** Both walks visit every mapping below a value, a mapping before its values; [check] is
    what they do at one.  A tagged value is neither case of their [match]. *)
Fixpoint walk_with {S} (check : Mapping → S → result string S) (v : Yaml) (s : S) : result string S :=
  match v with
  | YMapping m =>
      s ← check m s;
      (fix go (l : list (Yaml * Yaml)) (s : S) : result string S :=
         match l with [] => Ok s | (_, x) :: rest => s ← walk_with check x s; go rest s end) m s
  | YSequence items =>
      (fix go (l : list Yaml) (s : S) : result string S :=
         match l with [] => Ok s | x :: rest => s ← walk_with check x s; go rest s end) items s
  | _ => Ok s
  end.

Definition entry_id (m : Mapping) : option string := m_get "id" m ≫= y_str.
Definition entry_name (m : Mapping) : option string := m_get "name" m ≫= y_str.
Definition entry_disabled (m : Mapping) : option bool := m_get "disabled" m ≫= y_bool.

Definition has_key (m : Mapping) (key : string) : bool := existsb (λ '(k, _), is_key key k) m.

(** The first of the three keys that a mapping has. *)
Definition check_keys (who : string) (m : Mapping) : result string unit :=
  check_each (λ key, if has_key m key then Err (who +:+ " dump contains unmanaged " +:+ key) else Ok tt)
    UNMANAGED_KEYS.

(** A configuration of [settings] that is not an empty mapping. *)
Definition settings_drift (m : Mapping) : bool :=
  opt_eqb (entry_id m) "settings" && negb (bool_is (entry_disabled m) true)
  && match m_get "config" m with
     | Some config => match y_map config with Some [] => false | _ => true end
     | None => false
     end.

(** ** The strict dump *)

Definition pinned_control_config (m : Mapping) (id : string) (allowed : list string)
    : result string Mapping :=
  if match m_get "disabled" m with Some d => negb (bool_is (y_bool d) false) | None => false end
  then Err ("strict " +:+ id +:+ " control must not be disabled")
  else match m_get "config" m with
       | None => Err ("strict " +:+ id +:+ " control is missing its config")
       | Some config =>
           match y_map config with
           | None => Err ("strict " +:+ id +:+ " config must be a mapping")
           | Some c =>
               if existsb (λ '(k, _), negb (one_of (default "" (y_str k)) allowed)) c
               then Err ("strict " +:+ id +:+ " config contains unmanaged keys")
               else Ok c
           end
       end.

Section dumps.
Context (debug_str : string → string).

Definition check_control (m : Mapping) (id : string) (saw : nat * nat) : result string (nat * nat) :=
  if id ≟ "sandbox-policy" then
    config ← pinned_control_config m id ["mode"; "workspaceRoot"];
    if negb (opt_eqb (m_get "mode" config ≫= y_str) "read-only")
    then Err "sandbox-policy must pin mode read-only"
    else if match m_get "workspaceRoot" config with
            | Some root => negb (opt_eqb (y_str root) "process.cwd()") | None => false end
    then Err "sandbox-policy workspaceRoot must stay process.cwd()"
    else Ok (S saw.1, saw.2)
  else if id ≟ "approval" then
    config ← pinned_control_config m id ["policy"];
    if negb (opt_in (m_get "policy" config ≫= y_str) APPROVALS)
    then Err "approval must resolve to ask"
    else Ok (saw.1, S saw.2)
  else Ok saw.

(** The body of [walk] of [validate_dump_policy] at a mapping. *)
Definition strict_check (m : Mapping) (saw : nat * nat) : result string (nat * nat) :=
  saw ←
    match entry_id m with
    | Some id =>
        let enabled := negb (bool_is (entry_disabled m) true) in
        if one_of id DANGEROUS && enabled
        then Err ("dangerous DSH entry is enabled: " +:+ debug_str id)
        else if enabled && negb (one_of id ALLOWED_ENABLED) && negb (one_of id CONTROLS)
        then Err ("unknown enabled DSH entry: " +:+ debug_str id)
        else check_control m id saw
    | None => Ok saw
    end;
  _ ← check_keys "strict DSH" m;
  if settings_drift m then Err "strict DSH settings drift is not allowed" else Ok saw.

Definition validate_dump_policy (v : Yaml) : result string unit :=
  saw ← walk_with strict_check v (0, 0);
  if negb (Nat.eqb saw.1 1) then Err "dump-config requires exactly one enabled sandbox-policy"
  else if negb (Nat.eqb saw.2 1) then Err "dump-config requires exactly one enabled approval"
  else Ok tt.

(** ** The manifest-build dump *)

(** The body of [walk] of [validate_manifest_build_entries] at a mapping. *)
Definition manifest_check (guard_name : option string) (m : Mapping) (_ : unit) : result string unit :=
  let id := entry_id m in
  let name := entry_name m in
  if bool_decide (id = None) && bool_decide (name ≠ None) && bool_decide (name ≠ guard_name)
  then Err ("manifest-build dump contains an unmanaged name-only entry: Some("
              +:+ debug_str (default "" name) +:+ ")")
  else
    let enabled := negb (bool_is (entry_disabled m) true) in
    if match id with
       | Some id => enabled && one_of id DANGEROUS && negb (id ≟ "tool-fs") | None => false end
    then Err ("manifest-build enables dangerous DSH entry: " +:+ debug_str (default "" id))
    else if match id with
            | Some id => enabled && negb (one_of id ALLOWED_ENABLED) && negb (one_of id ("tool-fs" :: CONTROLS))
            | None => false end
    then Err ("manifest-build unknown enabled DSH entry: " +:+ debug_str (default "" id))
    else
      _ ← check_keys "manifest-build" m;
      if settings_drift m then Err "manifest-build settings drift is not allowed" else Ok tt.

Definition validate_manifest_build_entries (v guard : Yaml) : result string unit :=
  walk_with (manifest_check (y_at guard "name")) v tt.

Definition is_guard (e : Yaml) : bool :=
  match y_at e "name" with
  | Some name => starts_with name "file://" && ends_with name "/dsh-write-guard/lib/index.js"
  | None => false
  end.

(** [Value::Null | Value::Bool(false)]. *)
Definition stays_enabled (disabled : Yaml) : bool :=
  match disabled with YNull | YBool false => true | _ => false end.

(** The comparison of the guard's manifest, entry by entry from [index]. *)
Fixpoint manifest_matches (index : nat) (actual : list Yaml) (manifest : list Path) : result string unit :=
  match actual, manifest with
  | a :: actual, expected :: manifest =>
      expected ← ok_or "manifest-build expected manifest entries must be valid UTF-8" (path_to_str expected);
      if opt_eqb (y_str a) expected then manifest_matches (S index) actual manifest
      else Err ("manifest-build write-guard manifest mismatch at entry " +:+ pretty index)
  | _, _ => Ok tt
  end.

Definition check_guard (guard : Yaml) (manifest : list Path) : result string unit :=
  if negb (stays_enabled (y_index guard "disabled")) then
    Err "manifest-build write-guard entry must stay enabled"
  else match y_map (y_index guard "config") with
  | None => Err "manifest-build write-guard entry must carry a config mapping"
  | Some config =>
      if foreign_keys config ["manifest"] then
        Err "manifest-build write-guard config contains unmanaged keys"
      else
        actual ← ok_or "manifest-build write-guard must carry a config.manifest sequence"
                   (y_seq (y_index (y_index guard "config") "manifest"));
        if negb (Nat.eqb (length actual) (length manifest)) then
          Err "manifest-build write-guard manifest length mismatch"
        else manifest_matches 0 actual manifest
  end.

Definition with_id (entries : list Yaml) (id : string) : list Yaml :=
  List.filter (λ e, opt_eqb (y_at e "id") id) entries.

Definition exactly_one (entries : list Yaml) (id : string) : result string Yaml :=
  match with_id entries id with
  | [e] => Ok e
  | _ => Err ("manifest-build requires exactly one " +:+ id)
  end.

Definition exactly_one_named (entries : list Yaml) (id name : string) : result string Yaml :=
  match hits entries id name with
  | [e] =>
      if negb (opt_eqb (y_at e "id") id) || negb (opt_eqb (y_at e "name") name)
      then Err ("manifest-build requires provider-owned " +:+ id)
      else Ok e
  | _ => Err ("manifest-build requires exactly one " +:+ id)
  end.

(** As [platform_entry] for an entry without a platform toggle: a string is no
    activation. *)
Definition pinned_enabled (entries : list Yaml) (id name : string) : result string Yaml :=
  match hits entries id name with
  | [e] =>
      let disabled := match y_index e "disabled" with
                      | YNull => Some false | YBool b => Some b | _ => None end in
      if negb (opt_eqb (y_at e "id") id) || negb (opt_eqb (y_at e "name") name)
         || negb (bool_is disabled false)
      then Err ("manifest-build requires provider-owned " +:+ id +:+ " with the pinned platform activation")
      else Ok e
  | _ => Err ("manifest-build requires exactly one " +:+ id)
  end.

Definition check_tools (entries : list Yaml) : result string unit :=
  tool_fs ← exactly_one entries "tool-fs";
  if negb (stays_enabled (y_index tool_fs "disabled")) then Err "manifest-build requires tool-fs enabled"
  else check_each (λ id,
         e ← exactly_one entries id;
         if negb (bool_is (y_bool (y_index e "disabled")) true)
         then Err ("manifest-build requires " +:+ id +:+ " disabled") else Ok tt)
       MANIFEST_BUILD_DISABLED_IDS.

Definition check_policy (entries : list Yaml) (workspace : Path) : result string unit :=
  policy ← exactly_one_named entries "sandbox-policy" "@deepseek-ai/dsh-sandbox-policy";
  if bool_is (y_bool (y_index policy "disabled")) true then
    Err "manifest-build sandbox-policy must stay enabled"
  else match y_map (y_index policy "config") with
  | None => Err "manifest-build sandbox-policy must carry a config mapping"
  | Some config =>
      if foreign_keys config ["mode"; "workspaceRoot"] then
        Err "manifest-build sandbox-policy config contains unmanaged keys"
      else if negb (opt_eqb (m_get "mode" config ≫= y_str) "workspace-write") then
        Err "manifest-build sandbox must pin mode workspace-write"
      else match m_get "workspaceRoot" config ≫= y_str with
           | Some root =>
               if root_is_workspace (Some root) workspace then Ok tt
               else Err "manifest-build sandbox root must match the task workspace"
           | None => Ok tt
           end
  end.

Definition check_approval (entries : list Yaml) : result string unit :=
  approval ← exactly_one_named entries "approval" "@deepseek-ai/dsh-user-approval";
  if bool_is (y_bool (y_index approval "disabled")) true then
    Err "manifest-build approval must stay enabled"
  else if negb (opt_in (y_at (y_index approval "config") "policy") APPROVALS) then
    Err "manifest-build approval must resolve to ask"
  else Ok tt.

Definition validate_manifest_build_dump (windows : bool) (v : Yaml) (manifest : list Path) (workspace : Path)
    : result string unit :=
  match manifest with
  | [] => Err "manifest-build requires a non-empty write manifest"
  | _ =>
  match y_seq v with
  | None => Err "manifest-build dump must contain a plugin sequence"
  | Some entries =>
  match List.filter is_guard entries with
  | [guard] =>
      _ ← check_guard guard manifest;
      _ ← check_tools entries;
      _ ← check_policy entries workspace;
      _ ← check_approval entries;
      permission ← exactly_one_named entries "permission" "@deepseek-ai/dsh-permission-presets";
      _ ← check_permission "manifest-build" permission;
      _ ← check_each (check_executor windows "manifest-build" entries) SANDBOX_EXECUTORS;
      _ ← pinned_enabled entries "fs-sandbox" "@deepseek-ai/dsh-fs-sandbox";
      _ ← pinned_enabled entries "acp" "@deepseek-ai/dsh-acp";
      _ ← pinned_enabled entries "acp-app-startup" "@deepseek-ai/dsh-acp-app";
      validate_manifest_build_entries v guard
  | _ => Err "manifest-build requires exactly one write-guard entry"
  end
  end
  end.
End dumps.

(** ** The managed compositions *)

(** The embedded files of [profiles/dsh], as [serde_json] reads them. *)
Definition BUILD_PROFILE : Value :=
  VObject [("agent", VString "dsh");
    ("composition", VObject [("prompt_scope", VString "one-in-flight");
        ("respondable_permissions", VBool true);
        ("sandbox", VString "workspace-write")]);
    ("notes", VArray [VString "Managed DSH build composition; strict plan and full cancellation hardening are implemented by the strict-plan composition.";
        VString "Production DSH spawn still requires the daemon configuration gate and runtime preflight; this file never widens provider configuration."])].

Definition STRICT_PLAN_PROFILE : Value :=
  VObject [("agent", VString "dsh");
    ("composition", VObject [("allowed_tools", VArray [VString "Read";
            VString "Glob";
            VString "Grep";
            VString "Observe"]);
        ("denied_tools", VArray [VString "Bash";
            VString "Pwsh";
            VString "Jobs";
            VString "FsWrite";
            VString "Cordis";
            VString "Workflow";
            VString "Subagent";
            VString "Skills";
            VString "Ralph";
            VString "Unknown"]);
        ("overlay", VString "managed-patch");
        ("permission_mode", VString "read-only");
        ("sandbox", VString "read-only");
        ("unknown_entry_policy", VString "fail-closed");
        ("write_manifest", VArray [])])].

Definition MANIFEST_BUILD_PROFILE : Value :=
  VObject [("agent", VString "dsh");
    ("composition", VObject [("disabled_entries", VArray [VString "tool-bash";
            VString "tool-pwsh";
            VString "tool-jobs";
            VString "tool-skill";
            VString "tool-subagent-control";
            VString "tool-subagent-list-agents";
            VString "tool-subagent";
            VString "tool-subagent-fork";
            VString "subagent";
            VString "tool-workflow";
            VString "workflow-ptc";
            VString "ptc-runtime";
            VString "tool-goal";
            VString "tool-ralph";
            VString "skill-filesystem";
            VString "config-editor";
            VString "plugin-manager";
            VString "mcp-resources";
            VString "goal-round-driver";
            VString "subagent-spawn-in-process";
            VString "subagent-fork-in-process"]);
        ("enabled_write_tools", VArray [VString "tool-fs"]);
        ("overlay", VString "managed-patch");
        ("permission_mode", VString "workspace-write");
        ("sandbox", VString "workspace-write");
        ("unknown_entry_policy", VString "fail-closed");
        ("write_guard", VObject [("entry", VString "lib/index.js");
            ("plugin", VString "dsh-write-guard");
            ("registration", VString "prepend")]);
        ("write_manifest", VString "per-task")]);
    ("notes", VArray [VString "Managed DSH manifest-build composition: workspace-write sandbox whose only enabled write tool is tool-fs; every other write/execute/spawn tool from the strict-plan patch stays disabled.";
        VString "The per-task write manifest cannot be declared statically. It is injected by the generated patch insert config and pinned there by validate_manifest_build_dump against the caller's prepared manifest; the descriptor therefore only pins the source as per-task.";
        VString "The dsh-write-guard plugin is materialized per task from WRITE_GUARD_FILES and mounted by absolute path with a prepend registration on fs/write-intent and fs/edit-intent."])].

Definition unknown_fields (fields : Fields) (known : list string) : bool :=
  existsb (λ '(k, _), negb (one_of k known)) fields.

(** [get(key).and_then(Value::as_str) == Some(s)]. *)
Definition pins (v : Value) (key s : string) : bool := opt_eqb (get_str v key) s.

Definition DSH_AGENT_NAME : string := "dsh".

Definition validate_build_profile (profile : Value) : result string unit :=
  match as_object profile with
  | None => Err "managed dsh build profile must be an object"
  | Some obj =>
      if unknown_fields obj ["agent"; "composition"; "notes"] then
        Err "managed dsh build profile contains unknown fields"
      else if negb (pins profile "agent" DSH_AGENT_NAME) then
        Err "managed dsh build profile must declare agent=dsh"
      else
        composition ← ok_or "managed dsh build profile is missing the composition object"
                        (get profile "composition");
        match as_object composition with
        | None => Err "managed dsh composition must be an object"
        | Some cobj =>
            if unknown_fields cobj ["sandbox"; "respondable_permissions"; "prompt_scope"] then
              Err "managed dsh composition contains unknown fields"
            else if negb (pins composition "sandbox" "workspace-write") then
              Err "managed dsh build profile must pin sandbox=workspace-write"
            else if negb (match get composition "respondable_permissions" with
                          | Some (VBool true) => true | _ => false end) then
              Err "managed dsh build profile must pin respondable_permissions=true"
            else if negb (pins composition "prompt_scope" "one-in-flight") then
              Err "managed dsh build profile must pin prompt_scope=one-in-flight"
            else Ok tt
        end
  end.

Definition validate_strict_plan_profile (profile : Value) : result string unit :=
  if negb (pins profile "agent" DSH_AGENT_NAME) then Err "strict dsh profile must declare agent=dsh"
  else
    c ← ok_or "strict dsh profile missing composition" (get profile "composition");
    match pins c "sandbox" "read-only" && pins c "permission_mode" "read-only"
          && pins c "unknown_entry_policy" "fail-closed", get c "write_manifest" ≫= as_array with
    | true, Some entries =>
        match entries with
        | [] => Ok tt
        | _ => Err "strict dsh profile cannot declare write_manifest entries"
        end
    | _, _ => Err "strict dsh profile must pin read-only fail-closed composition"
    end.

Definition MANIFEST_FIELDS : list string :=
  ["sandbox"; "permission_mode"; "unknown_entry_policy"; "overlay"; "write_manifest"; "write_guard";
   "enabled_write_tools"; "disabled_entries"].

Definition guard_mount_pinned (guard : Fields) : bool :=
  negb (unknown_fields guard ["plugin"; "entry"; "registration"])
  && pins (VObject guard) "plugin" "dsh-write-guard" && pins (VObject guard) "entry" "lib/index.js"
  && pins (VObject guard) "registration" "prepend".

(** [disabled_entries] is the disabled set in any order. *)
Definition check_disabled_entries (disabled : list Value) : result string unit :=
  if negb (Nat.eqb (length disabled) (length MANIFEST_BUILD_DISABLED_IDS)) then
    Err "managed dsh manifest-build disabled_entries must mirror the strict-plan set"
  else
    actual ← traverse (λ e, ok_or "managed dsh manifest-build disabled_entries must be strings" (as_str e))
               disabled;
    if bool_decide (sort_names actual = sort_names MANIFEST_BUILD_DISABLED_IDS) then Ok tt
    else Err "managed dsh manifest-build disabled_entries must mirror the strict-plan set minus tool-fs".

Definition validate_manifest_build_profile (profile : Value) : result string unit :=
  match as_object profile with
  | None => Err "managed dsh manifest-build profile must be an object"
  | Some obj =>
      if unknown_fields obj ["agent"; "composition"; "notes"] then
        Err "managed dsh manifest-build profile contains unknown fields"
      else if negb (pins profile "agent" DSH_AGENT_NAME) then
        Err "managed dsh manifest-build profile must declare agent=dsh"
      else
        composition ← ok_or "managed dsh manifest-build profile is missing the composition object"
                        (get profile "composition");
        match as_object composition with
        | None => Err "managed dsh manifest-build composition must be an object"
        | Some c =>
            if unknown_fields c MANIFEST_FIELDS then
              Err "managed dsh manifest-build composition contains unknown fields"
            else if negb (pins composition "sandbox" "workspace-write"
                          && pins composition "permission_mode" "workspace-write"
                          && pins composition "unknown_entry_policy" "fail-closed"
                          && pins composition "overlay" "managed-patch") then
              Err "managed dsh manifest-build profile must pin a workspace-write fail-closed composition"
            else if negb (pins composition "write_manifest" "per-task") then
              Err "managed dsh manifest-build write_manifest must be per-task"
            else
              guard ← ok_or "managed dsh manifest-build profile must mount the write_guard plugin"
                        (get composition "write_guard" ≫= as_object);
              if negb (guard_mount_pinned guard) then
                Err "managed dsh manifest-build write_guard mount is not pinned"
              else
                tools ← ok_or "managed dsh manifest-build profile must pin enabled_write_tools"
                          (get composition "enabled_write_tools" ≫= as_array);
                if negb (match tools with [t] => opt_eqb (as_str t) "tool-fs" | _ => false end) then
                  Err "managed dsh manifest-build profile must enable only tool-fs writes"
                else
                  disabled ← ok_or "managed dsh manifest-build profile must pin disabled_entries"
                               (get composition "disabled_entries" ≫= as_array);
                  check_disabled_entries disabled
        end
  end.

Definition build_profile : result string Value :=
  _ ← validate_build_profile BUILD_PROFILE; Ok BUILD_PROFILE.
Definition strict_plan_profile : result string Value :=
  _ ← validate_strict_plan_profile STRICT_PLAN_PROFILE; Ok STRICT_PLAN_PROFILE.
Definition manifest_build_profile : result string Value :=
  _ ← validate_manifest_build_profile MANIFEST_BUILD_PROFILE; Ok MANIFEST_BUILD_PROFILE.

(** ** The generated patch *)

Definition yaml_mapping (pairs : list (string * Yaml)) : Yaml :=
  YMapping ((λ '(k, v), (YString k, v)) <$> pairs).

Definition patch_entry (p : Path) : result string Yaml :=
  entry ← ok_or "manifest-build write manifest entries must be valid UTF-8" (path_to_str p);
  if str_is_empty entry then Err "manifest-build write manifest entries must be non-empty"
  else Ok (YString entry).

(** The rows every patch has: the sandbox's mode and the disabled tools. *)
Definition patch_base : list Yaml :=
  yaml_mapping [("id", YString "sandbox-policy");
                ("config", yaml_mapping [("mode", YString "workspace-write")])]
  :: ((λ id, yaml_mapping [("id", YString id); ("disabled", YBool true)]) <$> MANIFEST_BUILD_DISABLED_IDS).

(** The rows of the patch, before they are printed. *)
Definition patch_rows (manifest : list Path) (guard_entry : Path) : result string Yaml :=
  match manifest with
  | [] => Err "manifest-build patch requires a non-empty write manifest"
  | _ =>
      if negb (is_absolute guard_entry) then Err "manifest-build guard entry must be an absolute path"
      else
        guard ← ok_or "manifest-build guard entry must be valid UTF-8" (path_to_str guard_entry);
        entries ← traverse patch_entry manifest;
        let insert := yaml_mapping [("name", YString guard);
                                    ("config", yaml_mapping [("manifest", YSequence entries)])] in
        Ok (YSequence (patch_base ++ [yaml_mapping [("insert", YSequence [insert])]]))
  end.

Definition manifest_build_patch (to_string : Yaml → result string string) (manifest : list Path)
    (guard_entry : Path) : result string string :=
  rows ← patch_rows manifest guard_entry;
  match to_string rows with
  | Ok text => Ok text
  | Err e => Err ("failed to serialize manifest-build patch: " +:+ e)
  end.

(** ** Preflights *)

Record ProbeOutput := mk_output {
  o_success : bool;
  o_status : string;       (** the printed exit status *)
  o_stdout : string;
  o_stderr : string;
}.

(** A probe: the command, its time limit in seconds and its cap per pipe. *)
Definition Probe : Type := Command * Z * Z.

(** [is_file] and [is_dir] answer at a moment: 0 at the check of a manifest-build patch, 1
    and 2 at the two resolutions of the launch. *)
Section preflight.
Context (is_file is_dir : nat → Path → bool) (windows : bool) (debug_str : string → string)
  (from_str : string → result string Yaml)
  (bounded_output : Command → Z → Z → result string ProbeOutput).

(** The two probes of every preflight: what was run, and what the second printed.
    [failed] words a failing exit of the second. *)
Definition probe_dump (l : DshLaunch) (failed : ProbeOutput → string)
    : list Probe * result string Yaml :=
  match resolve_launch (is_file 1) (is_dir 1) l with
  | Err e => ([], Err e)
  | Ok command =>
      let version := c_arg "--version" command in
      let ran := [(version, 10%Z, 4096%Z)] in
      match bounded_output version 10 4096 with
      | Err e => (ran, Err e)
      | Ok v =>
          if negb (o_success v) then (ran, Err "dsh version probe failed")
          else match parse_dsh_probed_version (from_utf8_lossy (o_stdout v)) with
          | Err e => (ran, Err e)
          | Ok _ =>
              match resolve_launch (is_file 2) (is_dir 2) l with
              | Err e => (ran, Err e)
              | Ok command =>
                  let dump := c_arg "--dump-config" command in
                  (ran ++ [(dump, 10%Z, (1024 * 1024)%Z)],
                   out ← bounded_output dump 10 (1024 * 1024);
                   if negb (o_success out) then Err (failed out)
                   else
                     _ ← reject_patch_application_failure (o_stderr out);
                     validate_dump_config_yaml from_str (from_utf8_lossy (o_stdout out)))
              end
          end
      end
  end.

Definition mode_is (l : DshLaunch) (mode : string) : bool := opt_eqb (l_permission_mode l) mode.

Definition preflight_build (l : DshLaunch) : list Probe * result string unit :=
  match build_profile with
  | Err e => ([], Err e)
  | Ok _ =>
      if negb (mode_is l "workspace-write") then ([], Err "build launch must pin workspace-write")
      else let '(ran, dump) := probe_dump l (λ _, "dsh build dump-config failed") in
           (ran, v ← dump; validate_build_dump windows v (l_workspace l))
  end.

Definition preflight (l : DshLaunch) : list Probe * result string unit :=
  match strict_plan_profile with
  | Err e => ([], Err e)
  | Ok _ =>
      if negb (mode_is l "read-only") || bool_decide (l_patch l = None) then
        ([], Err "strict launch must pin read-only and a managed patch")
      else let '(ran, dump) :=
             probe_dump l (λ out, "dsh dump-config exited " +:+ o_status out +:+ ": "
                                    +:+ from_utf8_lossy (o_stderr out)) in
           (ran, v ← dump; validate_dump_policy debug_str v)
  end.

Definition preflight_build_manifest (l : DshLaunch) (manifest : list Path) : list Probe * result string unit :=
  match manifest with
  | [] => ([], Err "manifest-build requires a non-empty write manifest")
  | _ =>
  match manifest_build_profile with
  | Err e => ([], Err e)
  | Ok _ =>
      if negb (mode_is l "workspace-write") then ([], Err "manifest-build launch must pin workspace-write")
      else match l_patch l with
      | None => ([], Err "manifest-build launch requires a managed patch")
      | Some patch =>
          if negb (is_absolute patch) || negb (is_file 0 patch) then
            ([], Err "manifest-build patch must be an absolute regular file")
          else let '(ran, dump) := probe_dump l (λ _, "dsh manifest-build dump-config failed") in
               (ran, v ← dump; validate_manifest_build_dump debug_str windows v manifest (l_workspace l))
      end
  end
  end.
End preflight.

(** ** The mappings of a dump *)

(** The mappings the walks visit: through values of mappings and items of sequences. *)
Inductive reaches : Yaml → Mapping → Prop :=
| reach_here m : reaches (YMapping m) m
| reach_value m k v n : (k, v) ∈ m → reaches v n → reaches (YMapping m) n
| reach_item l v n : v ∈ l → reaches v n → reaches (YSequence l) n.

(** The same in the order of the walk. *)
Fixpoint mapping_nodes (v : Yaml) : list Mapping :=
  match v with
  | YMapping m =>
      m :: (fix go (l : list (Yaml * Yaml)) : list Mapping :=
              match l with [] => [] | (_, x) :: rest => mapping_nodes x ++ go rest end) m
  | YSequence items =>
      (fix go (l : list Yaml) : list Mapping :=
         match l with [] => [] | x :: rest => mapping_nodes x ++ go rest end) items
  | _ => []
  end.

Definition value_nodes (m : Mapping) : list Mapping := m ≫= (λ '(_, x), mapping_nodes x).
Definition item_nodes (l : list Yaml) : list Mapping := l ≫= mapping_nodes.

Lemma mapping_nodes_mapping m : mapping_nodes (YMapping m) = m :: value_nodes m.
Proof. cbn. f_equal. by induction m as [|[k x] rest IH]; cbn; [|f_equal]. Qed.

Lemma mapping_nodes_sequence l : mapping_nodes (YSequence l) = item_nodes l.
Proof. cbn. by induction l as [|x rest IH]; cbn; [|f_equal]. Qed.

(** Induction on the values the walks look into. *)
Section yaml_ind.
Context (P : Yaml → Prop)
  (Pmap : ∀ m, Forall (λ p, P p.2) m → P (YMapping m))
  (Pseq : ∀ l, Forall P l → P (YSequence l))
  (Pleaf : ∀ v, match v with YMapping _ | YSequence _ => False | _ => True end → P v).

Fixpoint yaml_walk_ind (v : Yaml) : P v.
Proof.
  destruct v as [|b|n|s|l|m|t w]; try (apply Pleaf; exact I).
  - apply Pseq. induction l as [|x l IH]; constructor; [apply yaml_walk_ind | exact IH].
  - apply Pmap. induction m as [|[k x] m IH]; constructor; [apply yaml_walk_ind | exact IH].
Qed.
End yaml_ind.

Lemma reaches_nodes v n : reaches v n ↔ n ∈ mapping_nodes v.
Proof.
  revert n. induction v as [m IH|l IH|v Hleaf] using yaml_walk_ind; intros n.
  - rewrite mapping_nodes_mapping, elem_of_cons. unfold value_nodes.
    rewrite list_elem_of_bind. rewrite Forall_forall in IH. split.
    + inversion 1 as [|? k x ? Hin Hx|]; subst; [by left|]. right. exists (k, x). split; [by apply (IH (k, x)) | done].
    + intros [->|([k x] & Hx & Hin)]; [constructor|].
      eapply reach_value; [done|]. by apply (IH (k, x)).
  - rewrite mapping_nodes_sequence. unfold item_nodes. rewrite list_elem_of_bind.
    rewrite Forall_forall in IH. split.
    + inversion 1 as [| |? x ? Hin Hx]; subst. exists x. split; [by apply IH | done].
    + intros (x & Hx & Hin). eapply reach_item; [done|]. by apply IH.
  - destruct v; try done; (split; [inversion 1 | cbn; intros H; inversion H]).
Qed.

Section walks.
Context {S : Type} (check : Mapping → S → result string S).

Fixpoint check_all (nodes : list Mapping) (s : S) : result string S :=
  match nodes with [] => Ok s | m :: rest => s ← check m s; check_all rest s end.

Lemma check_all_app a b s : check_all (a ++ b) s = (s ← check_all a s; check_all b s).
Proof. revert s. induction a as [|m a IH]; intros s; cbn; [done|]. destruct (check m s); cbn; [apply IH | done]. Qed.

(** A walk is the check of the mappings in their order. *)
Lemma walk_with_nodes v s : walk_with check v s = check_all (mapping_nodes v) s.
Proof.
  revert s. induction v as [m IH|l IH|v Hleaf] using yaml_walk_ind; intros s.
  - rewrite mapping_nodes_mapping. cbn. destruct (check m s) as [s'|e]; cbn; [|done].
    unfold value_nodes. clear s. revert s'. induction IH as [|[k x] rest Hx _ IH]; intros s; [done|].
    cbn. rewrite check_all_app. cbn in Hx. rewrite Hx. destruct (check_all (mapping_nodes x) s); [apply IH | done].
  - rewrite mapping_nodes_sequence. cbn. unfold item_nodes.
    revert s. induction IH as [|x rest Hx _ IH]; intros s; [done|].
    cbn. rewrite check_all_app, Hx. destruct (check_all (mapping_nodes x) s); [apply IH | done].
  - by destruct v.
Qed.
End walks.

(** Every mapping that occurs in a dump, under tags too. *)
Fixpoint occurrences (v : Yaml) : list Mapping :=
  match v with
  | YMapping m =>
      m :: (fix go (l : list (Yaml * Yaml)) : list Mapping :=
              match l with [] => [] | (_, x) :: rest => occurrences x ++ go rest end) m
  | YSequence items =>
      (fix go (l : list Yaml) : list Mapping :=
         match l with [] => [] | x :: rest => occurrences x ++ go rest end) items
  | YTagged _ x => occurrences x
  | _ => []
  end.

(** No tag above a mapping. *)
Fixpoint untagged (v : Yaml) : bool :=
  match v with
  | YMapping m =>
      (fix go (l : list (Yaml * Yaml)) : bool :=
         match l with [] => true | (_, x) :: rest => untagged x && go rest end) m
  | YSequence items =>
      (fix go (l : list Yaml) : bool :=
         match l with [] => true | x :: rest => untagged x && go rest end) items
  | YTagged _ x => bool_decide (occurrences x = [])
  | _ => true
  end.

Lemma occurrences_untagged v : untagged v = true → occurrences v = mapping_nodes v.
Proof.
  induction v as [m IH|l IH|v Hleaf] using yaml_walk_ind; cbn.
  - intros H. f_equal. induction IH as [|[k x] rest Hx _ IH]; [done|]. bool_hyp. cbn in Hx.
    by rewrite Hx, IH.
  - induction IH as [|x rest Hx _ IH]; intros H; [done|]. bool_hyp. by rewrite Hx, IH.
  - destruct v; try done. cbn. intros H. by apply bool_decide_eq_true in H.
Qed.

(** ** What an accepted dump guarantees *)

Lemma opt_eqb_true o s : opt_eqb o s = true ↔ o = Some s.
Proof. destruct o as [t|]; cbn; [|done]. rewrite String.eqb_eq. naive_solver. Qed.

Lemma opt_in_true o l : opt_in o l = true ↔ ∃ s, o = Some s ∧ s ∈ l.
Proof. destruct o as [t|]; cbn; [rewrite one_of_true|]; naive_solver. Qed.

Lemma bool_is_true o b : bool_is o b = true ↔ o = Some b.
Proof. destruct o as [c|]; cbn; [rewrite Bool.eqb_true_iff|]; naive_solver. Qed.

Lemma check_each_ok {A} (f : A → result string unit) l :
  check_each f l = Ok tt ↔ ∀ a, a ∈ l → f a = Ok tt.
Proof.
  induction l as [|a l IH]; cbn.
  - split; [intros _ a Ha; inversion Ha | done].
  - setoid_rewrite elem_of_cons. destruct (f a) as [[]|e] eqn:Hf; cbn.
    + rewrite IH. naive_solver.
    + split; [done | intros H; rewrite <- Hf; auto].
Qed.

Lemma has_key_true m key : has_key m key = true ↔ is_Some (m_get key m).
Proof.
  induction m as [|[k v] m IH]; cbn; [split; [done | by intros [? ?]]|].
  destruct (is_key key k); cbn; [by split; [eexists|] | done].
Qed.

Lemma check_keys_ok who m :
  check_keys who m = Ok tt ↔ ∀ key, key ∈ UNMANAGED_KEYS → m_get key m = None.
Proof.
  unfold check_keys. rewrite check_each_ok. split; intros H key Hkey; specialize (H key Hkey).
  - destruct (has_key m key) eqn:E; [done|]. apply eq_None_not_Some. rewrite <- has_key_true. congruence.
  - destruct (has_key m key) eqn:E; [|done]. apply has_key_true in E as [? E]. congruence.
Qed.

(** A mapping counts as enabled unless its [disabled] is the boolean [true]. *)
Definition enabled (m : Mapping) : Prop := entry_disabled m ≠ Some true.

(** No key that replaces an executor, and no configuration of the settings. *)
Definition unextended (m : Mapping) : Prop :=
  (∀ key, key ∈ UNMANAGED_KEYS → m_get key m = None)
  ∧ (entry_id m = Some "settings" → enabled m →
     ∀ config, m_get "config" m = Some config → y_map config = Some []).

(** A policy control: never disabled, with a configuration of the managed keys. *)
Definition control_config (m : Mapping) (allowed : list string) (config : Mapping) : Prop :=
  (∀ d, m_get "disabled" m = Some d → y_bool d = Some false)
  ∧ (∃ c, m_get "config" m = Some c ∧ y_map c = Some config)
  ∧ (∀ k v, (k, v) ∈ config → default "" (y_str k) ∈ allowed).

Record strict_entry (m : Mapping) : Prop := mk_strict_entry {
  strict_managed : ∀ id, entry_id m = Some id → enabled m →
    id ∉ DANGEROUS ∧ (id ∈ ALLOWED_ENABLED ∨ id ∈ CONTROLS);
  strict_sandbox : entry_id m = Some "sandbox-policy" →
    ∃ config, control_config m ["mode"; "workspaceRoot"] config
      ∧ (m_get "mode" config ≫= y_str) = Some "read-only"
      ∧ ∀ root, m_get "workspaceRoot" config = Some root → y_str root = Some "process.cwd()";
  strict_approval : entry_id m = Some "approval" →
    ∃ config policy, control_config m ["policy"] config
      ∧ (m_get "policy" config ≫= y_str) = Some policy ∧ policy ∈ APPROVALS;
  strict_unextended : unextended m;
}.

Definition count_id (id : string) (nodes : list Mapping) : nat :=
  length (List.filter (λ m, opt_eqb (entry_id m) id) nodes).

Lemma enabled_negb m : enabled m ↔ negb (bool_is (entry_disabled m) true) = true.
Proof. unfold enabled. rewrite negb_true_iff, <- not_true_iff_false, bool_is_true. done. Qed.

Lemma settings_drift_false m :
  settings_drift m = false ↔
  (entry_id m = Some "settings" → enabled m → ∀ config, m_get "config" m = Some config → y_map config = Some []).
Proof.
  unfold settings_drift. rewrite <- not_true_iff_false, !andb_true_iff, <- enabled_negb, opt_eqb_true.
  destruct (m_get "config" m) as [c|]; [|naive_solver].
  destruct (y_map c) as [[|]|] eqn:E; naive_solver.
Qed.

Lemma pinned_control_config_ok m id allowed config :
  pinned_control_config m id allowed = Ok config ↔ control_config m allowed config.
Proof.
  unfold pinned_control_config, control_config.
  assert (Hk : ∀ c : Mapping, existsb (λ '(k, _), negb (one_of (default "" (y_str k)) allowed)) c = false
              ↔ ∀ k v, (k, v) ∈ c → default "" (y_str k) ∈ allowed).
  { intros c. rewrite existsb_false_iff. split.
    - intros H k v Hin. apply one_of_true. specialize (H _ Hin). cbn in H. by apply negb_false_iff in H.
    - intros H [k v] Hin. apply negb_false_iff, one_of_true. by eapply H. }
  destruct (m_get "disabled" m) as [d|];
    [destruct (bool_is (y_bool d) false) eqn:Hd; [apply bool_is_true in Hd|]; cbn|];
    (destruct (m_get "config" m) as [c|]; [destruct (y_map c) as [cm|] eqn:Hc|]);
    try (destruct (existsb _ cm) eqn:E); split; try done.
  all: try (intros [= <-]; repeat split; [naive_solver | naive_solver | by apply Hk]).
  all: intros (H1 & (c' & H2 & H3) & H4); simplify_eq; try done.
  all: try (apply Hk in H4; congruence).
  all: try (specialize (H1 _ eq_refl); apply bool_is_true in H1; congruence).
Qed.

Section strict.
Context (debug_str : string → string).

Definition bump (m : Mapping) (saw : nat * nat) : nat * nat :=
  (count_id "sandbox-policy" [m] + saw.1, count_id "approval" [m] + saw.2).

Lemma bump_id m id saw :
  entry_id m = Some id →
  bump m saw = ((if id ≟ "sandbox-policy" then S saw.1 else saw.1),
                (if id ≟ "approval" then S saw.2 else saw.2)).
Proof.
  intros Hid. unfold bump, count_id. cbn [List.filter length]. rewrite Hid. cbn [opt_eqb].
  by destruct (id ≟ "sandbox-policy"), (id ≟ "approval").
Qed.

(** The arms of a control in a mapping with an id. *)
Definition control_arms (m : Mapping) : Prop :=
  (entry_id m = Some "sandbox-policy" →
    ∃ config, control_config m ["mode"; "workspaceRoot"] config
      ∧ (m_get "mode" config ≫= y_str) = Some "read-only"
      ∧ ∀ root, m_get "workspaceRoot" config = Some root → y_str root = Some "process.cwd()")
  ∧ (entry_id m = Some "approval" →
    ∃ config policy, control_config m ["policy"] config
      ∧ (m_get "policy" config ≫= y_str) = Some policy ∧ policy ∈ APPROVALS).

Lemma sandbox_arm m saw saw' :
  entry_id m = Some "sandbox-policy" →
  check_control m "sandbox-policy" saw = Ok saw' ↔ control_arms m ∧ saw' = bump m saw.
Proof.
  intros Hid. rewrite (bump_id _ _ _ Hid). unfold check_control, control_arms. rewrite Hid.
  change ("sandbox-policy" ≟ "sandbox-policy") with true. change ("sandbox-policy" ≟ "approval") with false.
  cbv iota. rewrite result_bind_ok. setoid_rewrite pinned_control_config_ok. split.
  - intros (c & Hc & H). destruct (opt_eqb (m_get "mode" c ≫= y_str) "read-only") eqn:Hm; [|done].
    apply opt_eqb_true in Hm. cbn [negb] in H.
    destruct (match m_get "workspaceRoot" c with Some _ => _ | None => _ end) eqn:Hr; [done|].
    injection H as <-. split; [|done]. split; [|done]. intros _. exists c. split_and!; [done|done|].
    intros root Hroot. rewrite Hroot in Hr. by apply negb_false_iff, opt_eqb_true in Hr.
  - intros [[H _] ->]. destruct (H eq_refl) as (c & Hc & Hmode & Hroot). exists c. split; [done|].
    rewrite Hmode. cbn -[m_get]. destruct (m_get "workspaceRoot" c) as [r|]; [|done].
    by rewrite (Hroot r eq_refl).
Qed.

Lemma approval_arm m saw saw' :
  entry_id m = Some "approval" →
  check_control m "approval" saw = Ok saw' ↔ control_arms m ∧ saw' = bump m saw.
Proof.
  intros Hid. rewrite (bump_id _ _ _ Hid). unfold check_control, control_arms. rewrite Hid.
  change ("approval" ≟ "sandbox-policy") with false. change ("approval" ≟ "approval") with true.
  cbv iota. rewrite result_bind_ok. setoid_rewrite pinned_control_config_ok. split.
  - intros (c & Hc & H). destruct (negb (opt_in _ _)) eqn:Hb; [done|].
    apply negb_false_iff, opt_in_true in Hb as (p & Hp & Hin). injection H as <-. split; [|done]. split; [done|]. intros _. by exists c, p.
  - intros [[_ H] ->]. destruct (H eq_refl) as (c & p & Hc & Hp & Hin). exists c. split; [done|].
    assert (Hi : opt_in (m_get "policy" c ≫= y_str) APPROVALS = true) by (apply opt_in_true; eauto).
    by rewrite Hi.
Qed.

Lemma check_control_ok m id saw saw' :
  entry_id m = Some id →
  check_control m id saw = Ok saw' ↔ control_arms m ∧ saw' = bump m saw.
Proof.
  intros Hid. destruct (decide (id = "sandbox-policy")) as [->|H1]; [by apply sandbox_arm|].
  destruct (decide (id = "approval")) as [->|H2]; [by apply approval_arm|].
  rewrite (bump_id _ _ _ Hid). unfold check_control, control_arms. rewrite Hid.
  apply String.eqb_neq in H1 as E1. apply String.eqb_neq in H2 as E2. rewrite E1, E2.
  destruct saw as [a b]. split.
  - intros [= <-]. split; [|done]. split; intros [= ->]; done.
  - by intros [_ ->].
Qed.

Lemma strict_entry_arms m :
  strict_entry m ↔
  (∀ id, entry_id m = Some id → enabled m → id ∉ DANGEROUS ∧ (id ∈ ALLOWED_ENABLED ∨ id ∈ CONTROLS))
  ∧ control_arms m ∧ unextended m.
Proof. unfold control_arms. split; [intros []; auto | intros (? & [] & ?); by constructor]. Qed.

Lemma managed_ok m id :
  (one_of id DANGEROUS && negb (bool_is (entry_disabled m) true) = false
   ∧ negb (bool_is (entry_disabled m) true) && negb (one_of id ALLOWED_ENABLED)
       && negb (one_of id CONTROLS) = false)
  ↔ (enabled m → id ∉ DANGEROUS ∧ (id ∈ ALLOWED_ENABLED ∨ id ∈ CONTROLS)).
Proof.
  rewrite enabled_negb, <- one_of_false, <- !one_of_true.
  destruct (negb _), (one_of id DANGEROUS), (one_of id ALLOWED_ENABLED), (one_of id CONTROLS); cbn; naive_solver.
Qed.

(** One step of the walk accepts exactly the managed mappings and counts the controls. *)
Lemma strict_check_ok m saw saw' :
  strict_check debug_str m saw = Ok saw' ↔ strict_entry m ∧ saw' = bump m saw.
Proof.
  rewrite strict_entry_arms. unfold strict_check, unextended.
  setoid_rewrite <- (check_keys_ok "strict DSH" m). rewrite <- settings_drift_false.
  assert (Htail : ∀ s1, (_ ← check_keys "strict DSH" m;
             if settings_drift m then Err "strict DSH settings drift is not allowed" else Ok s1) = Ok saw'
           ↔ (check_keys "strict DSH" m = Ok tt ∧ settings_drift m = false) ∧ saw' = s1).
  { intros s1. destruct (check_keys _ m) as [[]|e]; cbn; [|naive_solver].
    destruct (settings_drift m); naive_solver. }
  rewrite result_bind_ok. setoid_rewrite Htail. clear Htail.
  destruct (entry_id m) as [id|] eqn:Hid.
  - pose proof (managed_ok m id) as Hman.
    assert (Hall : ∀ Q : string → Prop, (∀ id0, Some id = Some id0 → enabled m → Q id0) ↔ (enabled m → Q id)).
    { intros Q. split; [auto | by intros H ? [= <-]]. }
    rewrite (Hall (λ i, i ∉ DANGEROUS ∧ (i ∈ ALLOWED_ENABLED ∨ i ∈ CONTROLS))), <- Hman. clear Hall Hman.
    destruct (one_of id DANGEROUS && _); [split; [by intros (? & ? & _) | by intros (([] & _) & _)]|].
    destruct (_ && negb (one_of id CONTROLS)); [split; [by intros (? & ? & _) | by intros (([] & _) & _)]|].
    setoid_rewrite (check_control_ok m id saw _ Hid). split.
    + intros (s1 & [Ha ->] & [Hk Hd] & ->). auto.
    + intros ((_ & Ha & Hk & Hd) & ->). exists (bump m saw). auto.
  - assert (Hb : bump m saw = saw) by (unfold bump, count_id; cbn [List.filter length]; rewrite Hid; by destruct saw).
    rewrite Hb. unfold control_arms. rewrite Hid. split.
    + intros (s1 & [= <-] & [Hk Hd] & ->). by split_and!.
    + intros ((_ & _ & Hkd) & ->). exists saw. auto.
Qed.

Lemma count_id_cons id m nodes : count_id id (m :: nodes) = count_id id [m] + count_id id nodes.
Proof. unfold count_id. cbn. by destruct (opt_eqb (entry_id m) id). Qed.

Lemma check_all_strict nodes saw saw' :
  check_all (strict_check debug_str) nodes saw = Ok saw' ↔
  Forall strict_entry nodes
  ∧ saw' = (count_id "sandbox-policy" nodes + saw.1, count_id "approval" nodes + saw.2).
Proof.
  revert saw. induction nodes as [|m nodes IH]; intros saw; cbn [check_all].
  - destruct saw as [a b]. split; [intros [= <-]; done | by intros [_ ->]].
  - rewrite result_bind_ok, Forall_cons. setoid_rewrite strict_check_ok.
    rewrite (count_id_cons "sandbox-policy"), (count_id_cons "approval"). split.
    + intros (s1 & [Hm ->] & [Hn ->]%IH). split; [done|]. cbn. f_equal; lia.
    + intros [[Hm Hn] ->]. exists (bump m saw). split; [done|]. apply IH. split; [done|]. cbn. f_equal; lia.
Qed.

(** An entry of the composition: a mapping with an id or a name. *)
Definition is_entry (m : Mapping) : Prop := is_Some (m_get "id" m) ∨ is_Some (m_get "name" m).

(** The documented policy: "accepted only when every enabled entry is in the managed
    allowlist and the policy controls are present". *)
Record managed_dump (v : Yaml) : Prop := mk_managed_dump {
  md_entries : ∀ m, m ∈ occurrences v → is_entry m → enabled m →
    ∃ id, entry_id m = Some id ∧ id ∉ DANGEROUS ∧ (id ∈ ALLOWED_ENABLED ∨ id ∈ CONTROLS);
  md_controls : ∀ m, m ∈ occurrences v → control_arms m;
  md_unextended : ∀ m, m ∈ occurrences v → unextended m;
  md_sandbox : count_id "sandbox-policy" (occurrences v) = 1;
  md_approval : count_id "approval" (occurrences v) = 1;
}.

(** The shape of a dump the provider prints: entries carry a string id, none is under a
    tag. *)
Definition id_shaped (v : Yaml) : Prop :=
  untagged v = true ∧ ∀ m, m ∈ occurrences v → is_entry m → is_Some (entry_id m).

Lemma entry_id_some m id : entry_id m = Some id → is_Some (m_get "id" m).
Proof. unfold entry_id. destruct (m_get "id" m); [by eexists | done]. Qed.

(** The walk accepts a dump exactly when every mapping it reaches passes and each
    control is met once. *)
Lemma strict_walk_exact (v : Yaml) :
  validate_dump_policy debug_str v = Ok tt ↔
  (∀ m, reaches v m → strict_entry m)
  ∧ count_id "sandbox-policy" (mapping_nodes v) = 1
  ∧ count_id "approval" (mapping_nodes v) = 1.
Proof.
  unfold validate_dump_policy. rewrite result_bind_ok, walk_with_nodes.
  setoid_rewrite check_all_strict. setoid_rewrite reaches_nodes.
  change (∀ m, m ∈ mapping_nodes v → strict_entry m) with (∀ m, m ∈ mapping_nodes v → (λ n, strict_entry n) m).
  rewrite <- Forall_forall. split.
  - intros (s & [Hall ->] & H). cbn [fst snd] in H. rewrite !Nat.add_0_r in H.
    do 2 (case_step H; bool_hyp). by apply Nat.eqb_eq in Heqb, Heqb0.
  - intros (Hall & Ha & Hb). eexists. split; [by split|]. cbn [fst snd]. by rewrite Ha, Hb.
Qed.

(** C24. The strict preflight does what its documentation says, for dumps in the shape
    the provider prints: when no entry is under a YAML tag and every entry carries a
    string id, a dump is accepted if and only if every enabled entry is on the managed
    allowlist or a control, and none is dangerous; no mapping replaces an executor or
    configures the settings; and the dump carries one sandbox policy, never disabled and
    pinned read-only, and one approval, never disabled and resolving to [ask].  Outside
    that shape the code accepts more than is documented: [strict_accepts_name_only]. *)
Theorem strict_policy_exact (v : Yaml) :
  id_shaped v → validate_dump_policy debug_str v = Ok tt ↔ managed_dump v.
Proof.
  intros [Hu Hid]. rewrite strict_walk_exact. setoid_rewrite reaches_nodes.
  rewrite <- (occurrences_untagged v Hu). split.
  - intros (Hall & Ha & Hb). constructor; [| | |done|done].
    + intros m Hm He Hen. destruct (Hid m Hm He) as [id Hi]. exists id. split; [done|].
      by apply (strict_managed _ (Hall m Hm)).
    + intros m Hm. by apply strict_entry_arms, Hall.
    + intros m Hm. by apply strict_unextended, Hall.
  - intros [Hman Harms Hunext Ha Hb]. split_and!; [|done..]. intros m Hm. apply strict_entry_arms.
    split_and!; [|by apply Harms | by apply Hunext]. intros id Hi Hen.
    destruct (Hman m Hm) as (id' & Hi' & ?); [by left; apply entry_id_some in Hi | done | congruence].
Qed.
End strict.

(** *** Manifest-build *)

Record manifest_entry (guard_name : option string) (m : Mapping) : Prop := mk_manifest_entry {
  manifest_named : entry_id m = None → entry_name m = None ∨ entry_name m = guard_name;
  manifest_managed : ∀ id, entry_id m = Some id → enabled m →
    id = "tool-fs" ∨ (id ∉ DANGEROUS ∧ (id ∈ ALLOWED_ENABLED ∨ id ∈ CONTROLS));
  manifest_unextended : unextended m;
}.

Definition requires_keys (config : Mapping) (allowed : list string) : Prop :=
  ∀ k v, (k, v) ∈ config → ∃ s, y_str k = Some s ∧ s ∈ allowed.

Lemma foreign_keys_false m allowed : foreign_keys m allowed = false ↔ requires_keys m allowed.
Proof.
  unfold foreign_keys, requires_keys. rewrite existsb_false_iff. split.
  - intros H k v Hin. apply opt_in_true. specialize (H _ Hin). cbn in H. by apply negb_false_iff in H.
  - intros H [k v] Hin. apply negb_false_iff, opt_in_true. by eapply H.
Qed.

(** An entry that the build compositions pin: the only one with its id or its name. *)
Definition pinned (entries : list Yaml) (id name : string) (e : Yaml) : Prop :=
  hits entries id name = [e] ∧ y_at e "id" = Some id ∧ y_at e "name" = Some name.

(** A dump under which a manifest-build task may run. *)
Record guarded_dump (windows : bool) (manifest : list Path) (workspace : Path) (v : Yaml) : Prop :=
  mk_guarded_dump {
  g_guard : ∃ entries guard config actual,
    y_seq v = Some entries ∧ List.filter is_guard entries = [guard]
    ∧ (y_index guard "disabled" = YNull ∨ y_index guard "disabled" = YBool false)
    ∧ y_map (y_index guard "config") = Some config ∧ requires_keys config ["manifest"]
    ∧ y_seq (y_index (y_index guard "config") "manifest") = Some actual
    ∧ y_str <$> actual = Some <$> manifest
    ∧ ∀ m, reaches v m → manifest_entry (y_at guard "name") m;
  g_tools : ∃ entries, y_seq v = Some entries
    ∧ (∃ e, with_id entries "tool-fs" = [e]
         ∧ (y_index e "disabled" = YNull ∨ y_index e "disabled" = YBool false))
    ∧ ∀ id, id ∈ MANIFEST_BUILD_DISABLED_IDS →
        ∃ e, with_id entries id = [e] ∧ y_bool (y_index e "disabled") = Some true;
  g_controls : ∃ entries policy approval config answer, y_seq v = Some entries
    ∧ pinned entries "sandbox-policy" "@deepseek-ai/dsh-sandbox-policy" policy
    ∧ y_map (y_index policy "config") = Some config ∧ requires_keys config ["mode"; "workspaceRoot"]
    ∧ (m_get "mode" config ≫= y_str) = Some "workspace-write"
    ∧ (∀ root, (m_get "workspaceRoot" config ≫= y_str) = Some root →
         root = "process.cwd()" ∨ path_to_str workspace = Some root)
    ∧ pinned entries "approval" "@deepseek-ai/dsh-user-approval" approval
    ∧ y_at (y_index approval "config") "policy" = Some answer ∧ answer ∈ APPROVALS;
  g_executors : ∃ entries, y_seq v = Some entries
    ∧ ∀ id name timeout, (id, name, timeout) ∈ SANDBOX_EXECUTORS →
        ∃ e m, pinned entries id name e
          ∧ activation windows id (y_index e "disabled") = Some (should_disable windows id)
          ∧ y_map e = Some m ∧ requires_keys m ["id"; "name"; "disabled"; "config"]
          ∧ executor_config_valid timeout (y_index e "config") = true;
}.

Section manifest.
Context (debug_str : string → string).

Lemma manifest_managed_ok m id :
  (negb (bool_is (entry_disabled m) true) && one_of id DANGEROUS && negb (id ≟ "tool-fs") = false
   ∧ negb (bool_is (entry_disabled m) true) && negb (one_of id ALLOWED_ENABLED)
       && negb (one_of id ("tool-fs" :: CONTROLS)) = false)
  ↔ (enabled m → id = "tool-fs" ∨ (id ∉ DANGEROUS ∧ (id ∈ ALLOWED_ENABLED ∨ id ∈ CONTROLS))).
Proof.
  rewrite enabled_negb, <- one_of_false, <- !one_of_true, <- String.eqb_eq.
  change (one_of id ("tool-fs" :: CONTROLS)) with ((id ≟ "tool-fs") || one_of id CONTROLS).
  destruct (negb _), (id ≟ "tool-fs"), (one_of id DANGEROUS), (one_of id ALLOWED_ENABLED),
    (one_of id CONTROLS); cbn; naive_solver.
Qed.

Lemma manifest_check_ok guard_name m u :
  manifest_check debug_str guard_name m u = Ok tt → manifest_entry guard_name m.
Proof.
  unfold manifest_check. intros H.
  destruct (_ && _ && bool_decide (entry_name m ≠ guard_name)) eqn:Hname; [done|].
  destruct (match entry_id m with Some _ => _ | None => _ end) eqn:H1; [done|].
  destruct (match entry_id m with Some _ => negb _ && negb _ && _ | None => _ end) eqn:H2; [done|].
  destruct (check_keys _ m) as [[]|] eqn:Hk; [|done]. cbn in H.
  destruct (settings_drift m) eqn:Hd; [done|].
  rewrite check_keys_ok in Hk. rewrite settings_drift_false in Hd.
  constructor; [|intros id Hid|by split].
  - intros Hid. rewrite Hid in Hname. destruct (entry_name m) as [n|]; [|by left]. right.
    destruct (decide (Some n = guard_name)); [done|].
    rewrite !bool_decide_eq_true_2 in Hname by done. done.
  - rewrite Hid in H1, H2. by apply manifest_managed_ok.
Qed.

Lemma manifest_entries_ok v guard :
  validate_manifest_build_entries debug_str v guard = Ok tt →
  ∀ m, reaches v m → manifest_entry (y_at guard "name") m.
Proof.
  unfold validate_manifest_build_entries. rewrite walk_with_nodes. intros H m Hm. apply reaches_nodes in Hm.
  revert H. induction Hm as [m nodes|m n nodes _ IH]; cbn [check_all]; rewrite result_bind_ok;
    intros ([] & H1 & H2); [by eapply manifest_check_ok | by apply IH].
Qed.
End manifest.

Lemma stays_enabled_true d : stays_enabled d = true ↔ d = YNull ∨ d = YBool false.
Proof. destruct d as [|[]| | | | |]; cbn; naive_solver. Qed.

Lemma path_to_str_some p s : path_to_str p = Some s → s = p.
Proof. unfold path_to_str. destruct (_ ≟ p); naive_solver. Qed.

Lemma manifest_matches_ok index actual manifest :
  length actual = length manifest → manifest_matches index actual manifest = Ok tt →
  y_str <$> actual = Some <$> manifest.
Proof.
  revert index manifest. induction actual as [|a actual IH]; intros index [|p manifest] Hlen H; try done.
  cbn [manifest_matches] in H. rewrite result_bind_ok in H. destruct H as (s & Hs%ok_or_ok & H).
  apply path_to_str_some in Hs as ->. destruct (opt_eqb (y_str a) p) eqn:E; [|done].
  apply opt_eqb_true in E. rewrite !fmap_cons, E. f_equal. eapply IH; [|done]. by injection Hlen.
Qed.

Lemma exactly_one_ok entries id e : exactly_one entries id = Ok e → with_id entries id = [e].
Proof. unfold exactly_one. destruct (with_id entries id) as [|? [|]]; naive_solver. Qed.

Lemma exactly_one_named_ok entries id name e :
  exactly_one_named entries id name = Ok e → pinned entries id name e.
Proof.
  unfold exactly_one_named, pinned. destruct (hits entries id name) as [|x [|]]; try done.
  destruct (_ || _) eqn:E; [done|]. bool_hyp. intros [= <-]. by rewrite <- !opt_eqb_true.
Qed.

Lemma check_guard_ok guard manifest :
  check_guard guard manifest = Ok tt →
  ∃ config actual,
    (y_index guard "disabled" = YNull ∨ y_index guard "disabled" = YBool false)
    ∧ y_map (y_index guard "config") = Some config ∧ requires_keys config ["manifest"]
    ∧ y_seq (y_index (y_index guard "config") "manifest") = Some actual
    ∧ y_str <$> actual = Some <$> manifest.
Proof.
  unfold check_guard. destruct (stays_enabled _) eqn:He; [|done]. cbn [negb]. apply stays_enabled_true in He.
  destruct (y_map (y_index guard "config")) as [config|] eqn:Hc; [|done].
  destruct (foreign_keys config _) eqn:Hf; [done|]. apply foreign_keys_false in Hf.
  rewrite result_bind_ok. intros (actual & Ha%ok_or_ok & H).
  destruct (Nat.eqb _ _) eqn:Hl; [|done]. apply Nat.eqb_eq in Hl. cbn [negb] in H.
  exists config, actual. split_and!; try done. exact (manifest_matches_ok _ _ _ Hl H).
Qed.

Lemma check_tools_ok entries :
  check_tools entries = Ok tt →
  (∃ e, with_id entries "tool-fs" = [e]
     ∧ (y_index e "disabled" = YNull ∨ y_index e "disabled" = YBool false))
  ∧ ∀ id, id ∈ MANIFEST_BUILD_DISABLED_IDS →
      ∃ e, with_id entries id = [e] ∧ y_bool (y_index e "disabled") = Some true.
Proof.
  unfold check_tools. rewrite result_bind_ok. intros (e & He%exactly_one_ok & H).
  destruct (stays_enabled _) eqn:Hs; [|done]. cbn [negb] in H. apply stays_enabled_true in Hs.
  split; [eauto|]. intros id Hid. rewrite check_each_ok in H. specialize (H id Hid). cbn beta in H.
  rewrite result_bind_ok in H. destruct H as (x & Hx%exactly_one_ok & H). exists x. split; [done|].
  destruct (bool_is _ true) eqn:Hb; [|done]. by apply bool_is_true.
Qed.

Lemma check_policy_ok entries workspace :
  check_policy entries workspace = Ok tt →
  ∃ policy config, pinned entries "sandbox-policy" "@deepseek-ai/dsh-sandbox-policy" policy
    ∧ y_map (y_index policy "config") = Some config ∧ requires_keys config ["mode"; "workspaceRoot"]
    ∧ (m_get "mode" config ≫= y_str) = Some "workspace-write"
    ∧ (∀ root, (m_get "workspaceRoot" config ≫= y_str) = Some root →
         root = "process.cwd()" ∨ path_to_str workspace = Some root).
Proof.
  unfold check_policy. rewrite result_bind_ok. intros (policy & Hp%exactly_one_named_ok & H).
  destruct (bool_is _ true); [done|]. destruct (y_map _) as [config|] eqn:Hc; [|done].
  destruct (foreign_keys config _) eqn:Hf; [done|]. apply foreign_keys_false in Hf.
  destruct (opt_eqb _ "workspace-write") eqn:Hm; [|done]. cbn [negb] in H. apply opt_eqb_true in Hm.
  exists policy, config. split_and!; try done. intros root Hroot. rewrite Hroot in H.
  unfold root_is_workspace in H. destruct (_ || _) eqn:E; [|done].
  apply orb_true_iff in E as [E|E]; [apply opt_eqb_true in E as [= ->]; by left|].
  apply bool_decide_eq_true in E. by right.
Qed.

Lemma check_approval_ok entries :
  check_approval entries = Ok tt →
  ∃ approval answer, pinned entries "approval" "@deepseek-ai/dsh-user-approval" approval
    ∧ y_at (y_index approval "config") "policy" = Some answer ∧ answer ∈ APPROVALS.
Proof.
  unfold check_approval. rewrite result_bind_ok. intros (approval & Hp%exactly_one_named_ok & H).
  destruct (bool_is _ true); [done|]. destruct (opt_in _ APPROVALS) eqn:Hi; [|done].
  apply opt_in_true in Hi as (s & Hs & Hin). by exists approval, s.
Qed.

Lemma check_executor_ok windows who entries id name timeout :
  check_executor windows who entries (id, name, timeout) = Ok tt →
  ∃ e m, pinned entries id name e
    ∧ activation windows id (y_index e "disabled") = Some (should_disable windows id)
    ∧ y_map e = Some m ∧ requires_keys m ["id"; "name"; "disabled"; "config"]
    ∧ executor_config_valid timeout (y_index e "config") = true.
Proof.
  unfold check_executor, platform_entry, pinned. rewrite result_bind_ok. intros (e & He & H).
  destruct (hits entries id name) as [|x [|]]; try done. destruct (_ || _ || _) eqn:E; [done|]. bool_hyp.
  injection He as <-. rewrite opt_eqb_true in *. rewrite bool_is_true in *.
  destruct (y_map x) as [m|] eqn:Hm.
  - destruct (foreign_keys m _) eqn:Hf; [done|]. apply foreign_keys_false in Hf.
    destruct (executor_config_valid _ _) eqn:Hv; [|done]. by exists x, m.
  - exfalso. unfold y_at, y_index, y_get in *. rewrite Hm in *. done.
Qed.

(** A dump that manifest-build accepts pins the guard, the tools, the controls and the
    executors, and every mapping in it is managed. *)
Lemma manifest_dump_guarded debug_str windows v manifest workspace :
  validate_manifest_build_dump debug_str windows v manifest workspace = Ok tt →
  guarded_dump windows manifest workspace v.
Proof.
  unfold validate_manifest_build_dump. intros H. destruct manifest as [|p manifest]; [done|].
  destruct (y_seq v) as [entries|] eqn:Hv; [|done].
  destruct (List.filter is_guard entries) as [|guard [|]] eqn:Hg; try done.
  repeat (rewrite result_bind_ok in H; let x := fresh "x" in let Hx := fresh "Hx" in destruct H as (x & Hx & H)).
  destruct x, x0, x1, x2, x4, x5.
  apply check_guard_ok in Hx as (config & actual & Hguard).
  apply check_policy_ok in Hx1 as (policy & pc & Hpolicy).
  apply check_approval_ok in Hx2 as (approval & answer & Happroval).
  constructor.
  - exists entries, guard, config, actual. destruct Hguard as (? & ? & ? & ? & ?).
    split_and!; try done. by eapply manifest_entries_ok.
  - exists entries. split; [done|]. by apply check_tools_ok.
  - exists entries, policy, approval, pc, answer. by destruct Hpolicy as (? & ? & ? & ? & ?), Happroval as (? & ? & ?).
  - exists entries. split; [done|]. intros id name timeout Hin. rewrite check_each_ok in Hx5.
    by eapply check_executor_ok, Hx5.
Qed.

(** ** The patch and the launches *)

Lemma patch_entry_ok p y : patch_entry p = Ok y → y = YString p ∧ path_to_str p = Some p.
Proof.
  unfold patch_entry. rewrite result_bind_ok. intros (s & Hs%ok_or_ok & H).
  pose proof (path_to_str_some _ _ Hs) as ->. destruct (str_is_empty p); [done|]. by injection H as <-.
Qed.

Lemma manifest_matches_strings index manifest entries :
  Forall2 (λ p y, patch_entry p = Ok y) manifest entries →
  manifest_matches index entries manifest = Ok tt.
Proof.
  intros H. revert index. induction H as [|p y manifest entries [-> Hp]%patch_entry_ok _ IH]; intros index; [done|].
  cbn [manifest_matches]. rewrite Hp. cbn. by rewrite String.eqb_refl.
Qed.

(** The row the patch inserts mounts the guard by its path, and the guard's part of the
    dump check accepts the row for the manifest the patch was built from. *)
Lemma patch_carries_manifest manifest guard_entry rows :
  patch_rows manifest guard_entry = Ok rows →
  ∃ l row insert, rows = YSequence (l ++ [row]) ∧ y_seq (y_index row "insert") = Some [insert]
    ∧ y_at insert "name" = Some guard_entry ∧ check_guard insert manifest = Ok tt.
Proof.
  unfold patch_rows. destruct manifest as [|p manifest]; [done|].
  destruct (negb _); [done|]. rewrite result_bind_ok. intros (g & Hg%ok_or_ok & H).
  apply path_to_str_some in Hg as ->. rewrite result_bind_ok in H. destruct H as (entries & He%traverse_ok & H).
  set (ins := yaml_mapping [("name", YString guard_entry); ("config", yaml_mapping [("manifest", YSequence entries)])]) in H.
  exists patch_base, (yaml_mapping [("insert", YSequence [ins])]), ins.
  split_and!; [congruence | done | done |].
  change (check_guard ins (p :: manifest)) with
    (if negb (Nat.eqb (length entries) (length (p :: manifest)))
     then Err "manifest-build write-guard manifest length mismatch"
     else manifest_matches 0 entries (p :: manifest)).
  rewrite <- (Forall2_length _ _ _ He), Nat.eqb_refl. by apply manifest_matches_strings.
Qed.

(** A launch's command does not depend on the files that were looked at. *)
Lemma resolve_launch_same f d f' d' l c c' :
  resolve_launch f d l = Ok c → resolve_launch f' d' l = Ok c' → c = c'.
Proof.
  unfold resolve_launch. destruct (l_executable l) as [x|]; [|done].
  destruct (is_absolute x), (f x), (f' x), (is_absolute (l_workspace l)), (d (l_workspace l)),
    (d' (l_workspace l)); try done; cbn [negb orb].
  destruct (negb (_ ≟ "acp")); [done|]. destruct (l_patch l) as [p|].
  - destruct (is_absolute p), (f p), (f' p); try done; cbn [negb orb].
    cbn [mbind result_bind]. destruct (l_home l) as [h|]; [destruct (is_absolute h)|]; cbn [negb]; congruence.
  - cbn [mbind result_bind]. destruct (l_home l) as [h|]; [destruct (is_absolute h)|]; cbn [negb]; congruence.
Qed.

(** The command runs in the workspace, under the permission mode and with the patch of the
    launch. *)
Definition carries (l : DshLaunch) (c : Command) : Prop :=
  c_cwd c = Some (l_workspace l)
  ∧ (∀ mode, l_permission_mode l = Some mode → ("DSH_PERMISSION_MODE", mode) ∈ c_envs c)
  ∧ (∀ patch, l_patch l = Some patch → ∃ pre, c_args c = pre ++ ["--profile"; "acp"; "--patch"; patch]).

Lemma resolve_launch_carries f d l c : resolve_launch f d l = Ok c → carries l c.
Proof.
  unfold resolve_launch, carries. destruct (l_executable l) as [x|]; [|done].
  destruct (negb (is_absolute x)), (negb (f x)), (negb (is_absolute (l_workspace l)) || negb (d (l_workspace l)));
    try done.
  destruct (default "acp" (l_profile l) ≟ "acp") eqn:Ha; [|done]. apply String.eqb_eq in Ha. rewrite Ha.
  cbn [negb]. rewrite result_bind_ok. intros (c1 & Hc1 & H).
  assert (Hargs : ∀ patch, l_patch l = Some patch → ∃ pre, c_args c1 = pre ++ ["--profile"; "acp"; "--patch"; patch]).
  { intros patch Hp. rewrite Hp in Hc1. destruct (_ || _); [done|]. injection Hc1 as <-.
    destruct (opt_in _ _); [by exists [x] | by exists []]. }
  destruct (l_permission_mode l) as [mode|], (l_home l) as [h|];
    try (destruct (negb (is_absolute h)); [done|]); injection H as <-; cbn [c_cwd c_envs c_args c_env c_current_dir];
    (split_and!; [done | | done]); intros ? [= <-]; set_solver.
Qed.

Section preflights.
Context (is_file is_dir : nat → Path → bool) (windows : bool) (debug_str : string → string)
  (from_str : string → result string Yaml)
  (bounded_output : Command → Z → Z → result string ProbeOutput).

(** Both probes ran the command of the launch, and the value is what the second printed. *)
Definition probed (l : DshLaunch) (ran : list Probe) (v : Yaml) : Prop :=
  ∃ command out, (∃ f d, resolve_launch f d l = Ok command) ∧ carries l command
    ∧ ran = [(c_arg "--version" command, 10%Z, 4096%Z);
             (c_arg "--dump-config" command, 10%Z, (1024 * 1024)%Z)]
    ∧ bounded_output (c_arg "--dump-config" command) 10 (1024 * 1024) = Ok out
    ∧ o_success out = true ∧ from_str (erase_js 0 (from_utf8_lossy (o_stdout out))) = Ok v.

Lemma probe_dump_ok l failed ran v :
  probe_dump is_file is_dir from_str bounded_output l failed = (ran, Ok v) → probed l ran v.
Proof.
  clear windows debug_str. unfold probe_dump. destruct (resolve_launch (is_file 1) _ l) as [c|] eqn:H1; [|done].
  destruct (bounded_output (c_arg "--version" c) _ _) as [o|]; [|done].
  destruct (negb (o_success o)); [done|]. destruct (parse_dsh_probed_version _); [|done].
  destruct (resolve_launch (is_file 2) _ l) as [c'|] eqn:H2; [|done].
  rewrite <- (resolve_launch_same _ _ _ _ _ _ _ H1 H2). intros [= <- H].
  rewrite result_bind_ok in H. destruct H as (out & Hout & H).
  destruct (o_success out) eqn:Hs; [|done]. cbn [negb] in H.
  rewrite result_bind_ok in H. destruct H as ([] & _ & H).
  exists c, out. split_and!; try done; [by eexists _, _ | by eapply resolve_launch_carries |].
  unfold validate_dump_config_yaml in H. destruct (from_str _) as [w|]; [|done].
  destruct (y_seq w), (y_map w); naive_solver.
Qed.

(** A strict launch that passes its preflight ran read-only with a patch, and the dump it was
    judged by is the one printed under that command. *)
Lemma strict_preflight_ok l ran :
  preflight is_file is_dir debug_str from_str bounded_output l = (ran, Ok tt) →
  l_permission_mode l = Some "read-only" ∧ is_Some (l_patch l)
  ∧ ∃ v, probed l ran v ∧ validate_dump_policy debug_str v = Ok tt.
Proof.
  clear windows. unfold preflight. destruct strict_plan_profile; [|done]. unfold mode_is.
  destruct (opt_eqb (l_permission_mode l) _) eqn:Hm; [|done]. apply opt_eqb_true in Hm. cbn [negb orb].
  destruct (l_patch l) as [patch|] eqn:Hp; [|done]. rewrite bool_decide_eq_false_2 by done.
  destruct (probe_dump _ _ _ _ l _) as [ran' dump] eqn:Hd. intros [= <- H].
  rewrite result_bind_ok in H. destruct H as (v & -> & H).
  split_and!; [done | by eexists |]. exists v. split; [by eapply probe_dump_ok | done].
Qed.

(** The same of a build launch. *)
Lemma build_preflight_ok l ran :
  preflight_build is_file is_dir windows from_str bounded_output l = (ran, Ok tt) →
  l_permission_mode l = Some "workspace-write"
  ∧ ∃ v, probed l ran v ∧ validate_build_dump windows v (l_workspace l) = Ok tt.
Proof.
  clear debug_str. unfold preflight_build. destruct build_profile; [|done]. unfold mode_is.
  destruct (opt_eqb (l_permission_mode l) _) eqn:Hm; [|done]. apply opt_eqb_true in Hm. cbn [negb].
  destruct (probe_dump _ _ _ _ l _) as [ran' dump] eqn:Hd. intros [= <- H].
  rewrite result_bind_ok in H. destruct H as (v & -> & H).
  split; [done|]. exists v. split; [by eapply probe_dump_ok | done].
Qed.

(** The probes ran the command that the launch resolves to at any moment. *)
Lemma probed_command l ran v f d c :
  probed l ran v → resolve_launch f d l = Ok c →
  ran = [(c_arg "--version" c, 10%Z, 4096%Z); (c_arg "--dump-config" c, 10%Z, (1024 * 1024)%Z)].
Proof.
  intros (command & out & (f' & d' & Hr) & _ & -> & _) Hc. by rewrite (resolve_launch_same _ _ _ _ _ _ _ Hr Hc).
Qed.

(** A manifest-build launch that passes its preflight ran both probes with the pinned
    permission mode, patch and workspace, and the dump the provider printed under that very
    command mounts one enabled write guard with exactly the task's manifest, keeps every
    listed tool disabled and only [tool-fs] writing, pins the sandbox to the workspace and the
    approval to [ask], trusts only the shipped executors, and holds no enabled entry outside
    the allowlist. *)
Theorem manifest_preflight_guarded (l : DshLaunch) (manifest : list Path) (ran : list Probe) :
  preflight_build_manifest is_file is_dir windows debug_str from_str bounded_output l manifest = (ran, Ok tt) →
  l_permission_mode l = Some "workspace-write"
  ∧ (∃ patch, l_patch l = Some patch ∧ is_absolute patch = true)
  ∧ ∃ v, probed l ran v ∧ guarded_dump windows manifest (l_workspace l) v.
Proof.
  unfold preflight_build_manifest. destruct manifest as [|p manifest]; [done|].
  destruct manifest_build_profile; [|done]. unfold mode_is.
  destruct (opt_eqb (l_permission_mode l) _) eqn:Hm; [|done]. apply opt_eqb_true in Hm. cbn [negb].
  destruct (l_patch l) as [patch|] eqn:Hp; [|done].
  destruct (is_absolute patch) eqn:Ha, (is_file 0 patch); try done. cbn [negb orb].
  destruct (probe_dump _ _ _ _ l _) as [ran' dump] eqn:Hd. intros [= <- H].
  rewrite result_bind_ok in H. destruct H as (v & -> & H).
  split_and!; [done | by exists patch |]. exists v.
  split; [by eapply probe_dump_ok | by eapply manifest_dump_guarded].
Qed.
End preflights.

(** ** On concrete dumps *)

Module ProfileDemo.
Definition quoted (s : string) : string := s.
Definition row (id : string) (rest : list (string * Yaml)) : Yaml := yaml_mapping (("id", YString id) :: rest).
Definition named (id name : string) (rest : list (string * Yaml)) : Yaml :=
  row id (("name", YString ("@deepseek-ai/" +:+ name)) :: rest).
Definition cfg (fields : list (string * Yaml)) : string * Yaml := ("config", yaml_mapping fields).
Definition off : string * Yaml := ("disabled", YBool true).

Definition strict_rows : list Yaml :=
  [row "timer" []; row "tool-bash" [off]; row "sandbox-policy" [cfg [("mode", YString "read-only")]];
   row "approval" [cfg [("policy", YString PINNED_APPROVAL)]]].

Definition guard_row (paths : list string) : Yaml :=
  yaml_mapping [("name", YString "file:///t/dsh-write-guard/lib/index.js");
                cfg [("manifest", YSequence (YString <$> paths))]].

Definition build_rows (policy_rest : list (string * Yaml)) : list Yaml :=
  [named "sandbox-policy" "dsh-sandbox-policy" policy_rest;
   named "approval" "dsh-user-approval" [cfg [("policy", YString "ask")]];
   named "permission" "dsh-permission-presets"
     [cfg [("presets", yaml_mapping [("workspace-write",
        yaml_mapping [("sandbox", YString "workspace-write"); ("approval", YString "ask")])])]];
   named "sandbox" "dsh-sandbox-local" [];
   named "bash-sandbox" "dsh-bash-sandbox"
     [("disabled", YString NOT_WIN); cfg [("timeoutMs", YNumber (PosInt 60000))]];
   named "pwsh-sandbox" "dsh-pwsh-sandbox" [("disabled", YString WIN_ONLY)];
   named "fs-sandbox" "dsh-fs-sandbox" []; named "acp" "dsh-acp" [];
   named "acp-app-startup" "dsh-acp-app" []].

Definition manifest_dump (policy_rest : list (string * Yaml)) (paths : list string) : Yaml :=
  YSequence (guard_row paths :: row "tool-fs" [] :: build_rows policy_rest
               ++ ((λ id, row id [off]) <$> MANIFEST_BUILD_DISABLED_IDS)).

Definition mode : string * Yaml := cfg [("mode", YString "workspace-write")].
Definition dump : Yaml := manifest_dump [mode] ["src/a.rs"; "docs/b: c.md"].
Definition launch : DshLaunch :=
  mk_launch (Some "/opt/dsh/cli.mjs") "/work" None None None (Some "workspace-write") (Some "/t/patch.yml").

Definition all_files (_ : nat) (_ : Path) : bool := true.
(** A provider that prints its version and the dump, and a parser that reads the dump. *)
Definition provider (c : Command) (_ _ : Z) : result string ProbeOutput :=
  Ok (mk_output true "exit status: 0" (if one_of "--version" (c_args c) then "dsh 0.2.0-rc.2" else "DUMP") "").
Definition parser (text : string) : result string Yaml := if text ≟ "DUMP" then Ok dump else Err "no dump".

Definition run (l : DshLaunch) (paths : list string) : list Probe * result string unit :=
  preflight_build_manifest all_files all_files false quoted parser provider l paths.
End ProfileDemo.

(** A managed dump, one that enables a shell, and one that pins its controls twice. *)
Example strict_demo :
  validate_dump_policy ProfileDemo.quoted (YSequence ProfileDemo.strict_rows) = Ok tt
  ∧ validate_dump_policy ProfileDemo.quoted (YSequence (ProfileDemo.row "tool-bash" [] :: ProfileDemo.strict_rows))
    = Err "dangerous DSH entry is enabled: tool-bash"
  ∧ validate_dump_policy ProfileDemo.quoted (YSequence (ProfileDemo.strict_rows ++ ProfileDemo.strict_rows))
    = Err "dump-config requires exactly one enabled sandbox-policy".
Proof. vm_compute. auto. Qed.

Lemma strict_policy_exact_witness :
  managed_dump (YSequence ProfileDemo.strict_rows).
Proof.
  apply (strict_policy_exact ProfileDemo.quoted); [|by vm_compute]. split; [by vm_compute|].
  intros m Hm. assert (Forall (λ m, is_entry m → is_Some (entry_id m))
                         (occurrences (YSequence ProfileDemo.strict_rows))) as H.
  { vm_compute. repeat constructor; intros [[? H]|[? H]]; try done; by eexists. }
  rewrite Forall_forall in H. by apply H.
Defined.

(** The walk of the strict policy judges ids: an enabled entry with a name only, or one under
    a YAML tag, is accepted, whatever it loads. *)
Lemma strict_accepts_name_only :
  validate_dump_policy ProfileDemo.quoted
    (YSequence (yaml_mapping [("name", YString "file:///tmp/evil.js")]
                :: YTagged "!x" (ProfileDemo.row "tool-bash" []) :: ProfileDemo.strict_rows)) = Ok tt.
Proof. reflexivity. Qed.

(** Neither dump is managed in the documented sense. *)
Lemma name_only_not_managed :
  ¬ managed_dump (YSequence (yaml_mapping [("name", YString "file:///tmp/evil.js")] :: ProfileDemo.strict_rows))
  ∧ ¬ managed_dump (YSequence (YTagged "!x" (ProfileDemo.row "tool-bash" []) :: ProfileDemo.strict_rows)).
Proof.
  split; intros [H _ _ _ _].
  - destruct (H [(YString "name", YString "file:///tmp/evil.js")]) as (id & Hid & _); [by left | by right; eexists | done | done].
  - destruct (H [(YString "id", YString "tool-bash")]) as (id & [= <-] & Hd & _); [by left | by left; eexists | done |].
    apply Hd, one_of_true. by vm_compute.
Qed.

(** Manifest-build rejects the first, and takes an activation expression on its sandbox
    policy for enabled, which it does not on the guard. *)
Lemma manifest_accepts_disabled_expression :
  validate_manifest_build_dump ProfileDemo.quoted false
    (ProfileDemo.manifest_dump [("disabled", YString "true"); ProfileDemo.mode] ["a"]) ["a"] "/work" = Ok tt.
Proof. vm_compute. reflexivity. Qed.

Example manifest_demo :
  (ProfileDemo.run ProfileDemo.launch ["src/a.rs"; "docs/b: c.md"]).2 = Ok tt
  ∧ (ProfileDemo.run ProfileDemo.launch ["docs/b: c.md"; "src/a.rs"]).2
    = Err "manifest-build write-guard manifest mismatch at entry 0"
  ∧ ProfileDemo.run (DshLaunch_new (Some "/opt/dsh/cli.mjs") "/work" None) ["src/a.rs"]
    = ([], Err "manifest-build launch must pin workspace-write").
Proof. vm_compute. auto. Qed.

(** The shipped compositions pass their own validation. *)
Lemma managed_profiles_valid :
  build_profile = Ok BUILD_PROFILE ∧ strict_plan_profile = Ok STRICT_PLAN_PROFILE
  ∧ manifest_build_profile = Ok MANIFEST_BUILD_PROFILE.
Proof. vm_compute. auto. Qed.

Lemma manifest_preflight_guarded_witness :
  ∃ v, probed ProfileDemo.parser ProfileDemo.provider ProfileDemo.launch
         (ProfileDemo.run ProfileDemo.launch ["src/a.rs"; "docs/b: c.md"]).1 v
       ∧ guarded_dump false ["src/a.rs"; "docs/b: c.md"] "/work" v.
Proof.
  apply (manifest_preflight_guarded ProfileDemo.all_files ProfileDemo.all_files false ProfileDemo.quoted
           ProfileDemo.parser ProfileDemo.provider ProfileDemo.launch ["src/a.rs"; "docs/b: c.md"]).
  vm_compute. reflexivity.
Defined.
