(* ===== verification/Provider.v ===== *)
(** * The provider files of zcode

    [external-daemon/src/zcode/provider.rs]: the personal provider file the daemon composes
    from the user's credential, the user's own rules and the shipped template, its private
    and atomic writing, and the environment group that points a child to it.

    Reading and decoding of files, the encoder and the environment are arguments; so is what
    the operating system answers while the file is written.  Log lines are left out.  The
    modes are those of Unix. *)

From stdpp Require Import gmap strings.
From S2P Require Import Prelude RustStr RustPath Json Reaper DshProfile.

(** ** Ancestors of a path *)

(** [Path::ancestors]; a parent is shorter, so the length of the path is enough fuel
    ([ancestors_unfold]). *)
Fixpoint ancestors_from (fuel : nat) (p : Path) : list Path :=
  p :: match fuel with
       | O => []
       | S fuel => match parent p with Some q => ancestors_from fuel q | None => [] end
       end.
Definition ancestors (p : Path) : list Path := ancestors_from (String.length p) p.

(** ** Names and bounds *)

Definition BUILTIN_PROVIDER_CONFIG_ENV : string := "ZCODE_BUILTIN_PROVIDER_CONFIG_FILE".
Definition BUILTIN_PROVIDER_BUNDLED_CONFIG_ENV : string := "ZCODE_BUILTIN_PROVIDER_BUNDLED_CONFIG_FILE".
Definition PERSONAL_PROVIDER_CONFIG_ENV : string := "ZCODE_PERSONAL_PROVIDER_CONFIG_FILE".
Definition DATA_BASE_DIR_ENV : string := "ZCODE_DATA_BASE_DIR".
Definition RUNTIME_DIR : string := "zcode-runtime".
Definition PERSONAL_PROVIDER_FILE : string := "personal-provider-config.json".
Definition BUILTIN_RELATIVE : string := "config/provider/zcode-builtin.json".
Definition ZAI_PROVIDER_ID : string := "zai".
Definition ZAI_TEMPLATE_ID : string := "zai-api".
Definition ZAI_PROVIDER_NAME : string := "Z.ai Coding Plan".
Definition ZAI_ACCESS_TYPE : string := "zhipu-coding-plan-api-key".
Definition ZAI_GROUP : string := "standard-personal".
Definition MAX_PROVIDER_RULES : nat := 256.
Definition MAX_SERIALIZED_BYTES : nat := 64 * 1024.
Definition MAX_TEMPLATE_DEPTH : nat := 8.

(** ** Where things are *)

Definition data_root_for_store (store : Path) : option Path := parent store.
Definition data_root_from_environment (env : string → option string) : option Path :=
  env "EXTERNAL_SUBAGENT_STORE" ≫= data_root_for_store.

Definition derive_builtin_provider_config (is_file : Path → bool) (runtime : Path) : option Path :=
  List.find is_file ((λ a, join a BUILTIN_RELATIVE) <$> ancestors runtime).

Definition resolve_builtin_provider_config (env : string → option string) (is_file : Path → bool)
    (runtime : Path) : option Path :=
  match env BUILTIN_PROVIDER_CONFIG_ENV with
  | Some configured => if is_file configured then Some configured else None
  | None => derive_builtin_provider_config is_file runtime
  end.

(** ** The user's layer *)

Record V2Layer := mk_layer {
  provider_rules : list Value;
  model_config_rules : option Value;
  provider_order : option (list string);
}.

Section provider.
Context (debug_path : Path → string) (debug_kind : IoErrorKind → string).

Definition unusable {A} (path : Path) (reason : string) : result IoError A :=
  Err (KInvalidData, "zcode v2 provider config " +:+ debug_path path +:+ " is unusable: " +:+ reason).

Definition quote (s : string) : string := String dquote (s +:+ String dquote EmptyString).

Definition or_unusable {A} (path : Path) (reason : string) (o : option A) : result IoError A :=
  match o with Some a => Ok a | None => unusable path reason end.

Definition v2_rules (path : Path) (config : Value) : result IoError (list Value) :=
  match get config "providerConfigRules" with
  | None => Ok []
  | Some v =>
      rules ← or_unusable path (quote "config.providerConfigRules" +:+ " is not an object") (as_object v);
      match get (VObject rules) "providerRules" with
      | None => Ok []
      | Some l =>
          or_unusable path (quote "config.providerConfigRules.providerRules" +:+ " is not an array") (as_array l)
      end
  end.

Definition v2_models (path : Path) (config : Value) : result IoError (option Value) :=
  match get config "modelConfigRules" with
  | None => Ok None
  | Some v =>
      match as_object v with
      | None => unusable path (quote "config.modelConfigRules" +:+ " is not an object")
      | Some _ => Ok (Some v)
      end
  end.

Definition v2_order (path : Path) (config : Value) : result IoError (option (list string)) :=
  match get config "providerOrder" with
  | None => Ok None
  | Some v =>
      entries ← or_unusable path (quote "config.providerOrder" +:+ " is not an array") (as_array v);
      order ← traverse (λ e, or_unusable path (quote "config.providerOrder" +:+ " contains a non-string entry")
                               (as_str e)) entries;
      Ok (Some order)
  end.

Definition parse_v2_layer (path : Path) (v2 : option Value) : result IoError V2Layer :=
  match v2 with
  | None => Ok (mk_layer [] None None)
  | Some value =>
      _ ← or_unusable path "top level is not an object" (as_object value);
      match get value "config" with
      | None => Ok (mk_layer [] None None)
      | Some config =>
          _ ← or_unusable path (quote "config" +:+ " is not an object") (as_object config);
          rules ← v2_rules path config;
          models ← v2_models path config;
          order ← v2_order path config;
          Ok (mk_layer rules models order)
      end
  end.

(** ** The rule of the coding plan *)

(** [Value::pointer] along names that are no array index. *)
Definition pointer (v : Value) (names : list string) : option Value :=
  fold_left (λ o name, o ≫= λ x, get x name) names (Some v).

Definition cli_zai_api_key (cli : option Value) : option string :=
  key ← cli ≫= λ v, pointer v ["provider"; "zai"; "options"; "apiKey"] ≫= as_str;
  if str_is_empty key then None else Some key.

Definition eq_ignore_ascii_case (a b : string) : bool := to_ascii_lowercase a ≟ to_ascii_lowercase b.

Fixpoint pick_models (keys builtin order : list string) : list string :=
  match keys with
  | [] => order
  | key :: rest =>
      match List.find (λ id, eq_ignore_ascii_case id key) builtin with
      | Some id => pick_models rest builtin (if one_of id order then order else order ++ [id])
      | None => pick_models rest builtin order
      end
  end.

Definition zai_model_order (cli : option Value) (builtin : list string) : list string :=
  match cli ≫= λ v, pointer v ["provider"; "zai"; "models"] ≫= as_object with
  | None => []
  | Some models => pick_models models.*1 builtin []
  end.

Definition zai_rule (api_key : string) (model_order : list string) : Value :=
  VObject [("config", VObject [("access", VObject [("apiKey", VString api_key); ("type", VString ZAI_ACCESS_TYPE)]);
                               ("group", VString ZAI_GROUP);
                               ("modelOrder", VArray (VString <$> model_order));
                               ("personalModelIds", VArray [])]);
           ("providerId", VString ZAI_PROVIDER_ID);
           ("providerName", VString ZAI_PROVIDER_NAME);
           ("templateId", VString ZAI_TEMPLATE_ID)].

(** The depth is that of the value below the root. *)
Fixpoint find_template (v : Value) (template_id : string) (depth : nat) : option Value :=
  if Nat.ltb MAX_TEMPLATE_DEPTH depth then None
  else match v with
  | VObject fields =>
      if opt_eqb (get_str v "templateId") template_id then Some v
      else (fix go (l : list (string * Value)) : option Value :=
              match l with
              | [] => None
              | (_, child) :: rest =>
                  match find_template child template_id (S depth) with Some t => Some t | None => go rest end
              end) fields
  | VArray items =>
      (fix go (l : list Value) : option Value :=
         match l with
         | [] => None
         | child :: rest =>
             match find_template child template_id (S depth) with Some t => Some t | None => go rest end
         end) items
  | _ => None
  end.

Definition template_builtin_model_ids (builtin : Value) (template_id : string) : option (list string) :=
  match find_template builtin template_id 0 ≫= λ template, get template "config" ≫= λ config,
          get config "builtinModelIds" ≫= as_array with
  | Some ids => Some (omap as_str ids)
  | None => None
  end.

(** ** The composed document *)

Definition provider_id (rule : Value) : option string := get_str rule "providerId".
Definition is_zai (rule : Value) : bool := opt_eqb (provider_id rule) ZAI_PROVIDER_ID.

(** The rules of the user, and the synthesized one unless they define theirs. *)
Definition compose_rules (cli : option Value) (builtin : Value) (rules : list Value) : list Value :=
  if existsb is_zai rules then rules
  else match cli_zai_api_key cli with
       | Some key =>
           rules ++ [zai_rule key (zai_model_order cli (default [] (template_builtin_model_ids builtin ZAI_TEMPLATE_ID)))]
       | None => rules
       end.

Definition compose_order (cli : option Value) (user : list Value) (rules : list Value) (order : option (list string))
    : list string :=
  let order := default (omap provider_id rules) order in
  let present := existsb is_zai user || bool_decide (is_Some (cli_zai_api_key cli)) in
  if present && negb (one_of ZAI_PROVIDER_ID order) then order ++ [ZAI_PROVIDER_ID] else order.

Definition compose_root (cli : option Value) (builtin : Value) (layer : V2Layer) : Value :=
  let rules := compose_rules cli builtin (provider_rules layer) in
  let order := compose_order cli (provider_rules layer) rules (provider_order layer) in
  VObject [("config",
            VObject (match model_config_rules layer with Some m => [("modelConfigRules", m)] | None => [] end
                       ++ [("providerConfigRules", VObject [("providerRules", VArray rules)]);
                           ("providerOrder", VArray (VString <$> order))]));
           ("schemaVersion", VNumber (PosInt 1))].

Context (read_file : Path → result IoError string) (from_slice : string → result string Value)
  (to_vec : Value → result string string).

Definition load_config (path : Path) : result IoError (option Value) :=
  match read_file path with
  | Ok bytes =>
      match from_slice bytes with
      | Ok v => Ok (Some v)
      | Err e => Err (KInvalidData, debug_path path +:+ " is not valid JSON (" +:+ e +:+ ")")
      end
  | Err (KNotFound, _) => Ok None
  | Err (kind, e) => Err (kind, debug_path path +:+ " could not be read (" +:+ e +:+ ")")
  end.

(** What [generate_personal_provider_config] decides before it touches the disk. *)
Definition composed (cli_config v2_config builtin_template : Path) : result IoError string :=
  let cli := match load_config cli_config with Ok v => v | Err _ => None end in
  v2 ← match load_config v2_config with
       | Ok v => Ok v
       | Err (kind, e) =>
           Err (kind, "zcode v2 provider config is unusable (" +:+ debug_kind kind +:+ "): " +:+ e)
       end;
  builtin ← match load_config builtin_template with
            | Ok (Some v) => Ok v
            | _ => Err (KNotFound, "zcode builtin provider template " +:+ debug_path builtin_template +:+ " is unreadable")
            end;
  layer ← parse_v2_layer v2_config v2;
  if Nat.ltb MAX_PROVIDER_RULES (length (provider_rules layer)) then
    Err (KInvalidData, "zcode personal provider rules exceed the provider-rule bound")
  else
    match to_vec (compose_root cli builtin layer) with
    | Err e => Err (KInvalidData, "zcode personal provider config could not be serialized: " +:+ e)
    | Ok bytes =>
        if Nat.ltb MAX_SERIALIZED_BYTES (String.length bytes) then
          Err (KInvalidData, "zcode personal provider config exceeds the serialized byte bound")
        else Ok bytes
    end.
End provider.

(** ** Writing the file *)

Record File := mk_file { f_bytes : string; f_mode : Z }.
Record Disk := mk_disk { files : gmap Path File; dir_modes : gmap Path Z }.

Definition PRIVATE_DIR : Z := 448.   (** 0o700 *)
Definition PRIVATE_FILE : Z := 384.  (** 0o600 *)

Definition on_files (f : gmap Path File → gmap Path File) (d : Disk) : Disk := mk_disk (f (files d)) (dir_modes d).

(** What the system answers to the calls of a write, in their order; [wa_mode] is the mode a
    temporary file is created with and [wa_partial] how much of a failed write arrived. *)
Record WriteAnswers := mk_answers {
  wa_mkdir : result IoError unit;
  wa_chmod_dir : result IoError unit;
  wa_temp : result IoError Path;
  wa_mode : Z;
  wa_write : result IoError unit;
  wa_partial : string;
  wa_chmod : result IoError unit;
  wa_sync : result IoError unit;
  wa_persist : result IoError unit;
}.

(** A write is the disks it leaves one after another and its result. *)
Definition Written (A : Type) : Type := list Disk * result IoError A.

Definition ensure_private_directory (path : Path) (a : WriteAnswers) (d : Disk) : Written unit :=
  match wa_mkdir a with
  | Err e => ([], Err e)
  | Ok _ =>
      match wa_chmod_dir a with
      | Err e => ([], Err e)
      | Ok _ => ([mk_disk (files d) (<[path := PRIVATE_DIR]> (dir_modes d))], Ok tt)
      end
  end.

(** A temporary file that is dropped is removed. *)
Definition write_private_atomic (path : Path) (bytes : string) (a : WriteAnswers) (d : Disk) : Written unit :=
  match parent path with
  | None => ([], Err (KInvalidInput, "zcode personal provider config path has no parent directory"))
  | Some _ =>
      match wa_temp a with
      | Err e => ([], Err e)
      | Ok tmp =>
          let put b mode := on_files (<[tmp := mk_file b mode]>) in
          let drop_temp := on_files (delete tmp) in
          let d0 := put "" (wa_mode a) d in
          match wa_write a with
          | Err e => let d1 := put (wa_partial a) (wa_mode a) d0 in ([d0; d1; drop_temp d1], Err e)
          | Ok _ =>
              let d1 := put bytes (wa_mode a) d0 in
              match wa_chmod a with
              | Err e => ([d0; d1; drop_temp d1], Err e)
              | Ok _ =>
                  let d2 := put bytes PRIVATE_FILE d1 in
                  match wa_sync a with
                  | Err e => ([d0; d1; d2; drop_temp d2], Err e)
                  | Ok _ =>
                      match wa_persist a with
                      | Err e => ([d0; d1; d2; drop_temp d2], Err e)
                      | Ok _ =>
                          let d3 := on_files (λ m, <[path := mk_file bytes PRIVATE_FILE]> (delete tmp m)) d2 in
                          ([d0; d1; d2; d3], Ok tt)
                      end
                  end
              end
          end
      end
  end.

Definition last_disk (d : Disk) (seen : list Disk) : Disk := default d (last seen).

Section generate.
Context (debug_path : Path → string) (debug_kind : IoErrorKind → string)
  (read_file : Path → result IoError string) (from_slice : string → result string Value)
  (to_vec : Value → result string string).

Definition generate_personal_provider_config (cli_config v2_config builtin_template output_dir : Path)
    (a : WriteAnswers) (d : Disk) : Written Path :=
  match composed debug_path debug_kind read_file from_slice to_vec cli_config v2_config builtin_template with
  | Err e => ([], Err e)
  | Ok bytes =>
      let '(seen, made) := ensure_private_directory output_dir a d in
      match made with
      | Err e => (seen, Err e)
      | Ok _ =>
          let path := join output_dir PERSONAL_PROVIDER_FILE in
          let '(seen', written) := write_private_atomic path bytes a (last_disk d seen) in
          (seen ++ seen', match written with Ok _ => Ok path | Err e => Err e end)
      end
  end.

(** ** The environment group *)

Definition apply_provider_environment_for (command : Command) (builtin : option Path)
    (data_root cli_config v2_config : Path) (a : WriteAnswers) (d : Disk)
    : list Disk * Command * result IoError unit :=
  match builtin with
  | None => ([], command, Err (KNotFound, "zcode builtin provider config is unavailable"))
  | Some builtin =>
      let runtime_dir := join data_root RUNTIME_DIR in
      let '(seen, generated) := generate_personal_provider_config cli_config v2_config builtin runtime_dir a d in
      match generated with
      | Err e => (seen, command, Err e)
      | Ok file =>
          (seen,
           c_env DATA_BASE_DIR_ENV runtime_dir
             (c_env PERSONAL_PROVIDER_CONFIG_ENV file
                (c_env BUILTIN_PROVIDER_BUNDLED_CONFIG_ENV builtin
                   (c_env BUILTIN_PROVIDER_CONFIG_ENV builtin command))),
           Ok tt)
      end
  end.

(** A failure degrades: the child starts with the environment it would have had. *)
Definition apply_provider_environment (env : string → option string) (is_file : Path → bool) (command : Command)
    (runtime data_root : Path) (a : WriteAnswers) (d : Disk) : list Disk * Command :=
  match env "HOME" with
  | None => ([], command)
  | Some home =>
      (apply_provider_environment_for command (resolve_builtin_provider_config env is_file runtime) data_root
         (join home ".zcode/cli/config.json") (join home ".zcode/v2/provider_config.json") a d).1
  end.
End generate.

(** ** Ancestors *)

Lemma slen_app (a b : string) : String.length (a +:+ b) = String.length a + String.length b.
Proof. induction a as [|c a IH]; [done|]. cbn. by rewrite IH. Qed.

Lemma join_with_shorter (a b : list string) :
  a ≠ [] → b ≠ [] → String.length (join_with "/" a) < String.length (join_with "/" (a ++ b)).
Proof.
  intros Ha Hb. induction a as [|x a IH]; [done|]. destruct a as [|y a].
  - destruct b as [|z b]; [done|].
    change (join_with "/" ([x] ++ z :: b)) with (x +:+ "/" +:+ join_with "/" (z :: b)).
    rewrite !slen_app. cbn. lia.
  - change (join_with "/" (x :: y :: a)) with (x +:+ "/" +:+ join_with "/" (y :: a)).
    change (join_with "/" ((x :: y :: a) ++ b)) with (x +:+ "/" +:+ join_with "/" ((y :: a) ++ b)).
    rewrite !slen_app. specialize (IH ltac:(done)). lia.
Qed.

Lemma trim_end_prefix l : ∃ rest, l = trim_end l ++ rest.
Proof.
  induction l as [|x l [rest IH]]; [by exists []|]. cbn. destruct (trim_end l) as [|y l'] eqn:E.
  - destruct (droppable x); [by exists (x :: l) | by exists l].
  - exists rest. cbn. by rewrite IH at 1.
Qed.

(** A parent is a shorter path. *)
Lemma parent_shorter p q : parent p = Some q → String.length q < String.length p.
Proof.
  intros H. pose proof (split_char_join slash p) as Hp. unfold parent in H.
  destruct (split_char slash p) as [|h t]; [done|].
  destruct (trim_end_prefix t) as [r1 Ht].
  destruct (trim_end_spec t) as [_ [E|(init & x & E & Hx)]].
  - rewrite E in H. destruct (is_absolute p || str_is_empty h) eqn:Ea; [done|]. injection H as <-.
    bool_hyp. rewrite <- Hp. destruct h as [|c h]; [done|]. by destruct t; cbn; lia.
  - rewrite E in H, Ht. destruct (init ++ [x]) as [|y l] eqn:El; [by destruct init|]. rewrite <- El in H, Ht.
    rewrite removelast_last in H. destruct (trim_end_prefix init) as [r2 Hi].
    injection H as <-. destruct (is_absolute p && bool_decide (trim_end init = [])) eqn:Ea.
    + rewrite <- Hp. assert (str_is_empty x = false) as Hne by (unfold droppable in Hx; by bool_hyp).
      destruct x as [|c x]; [done|]. rewrite Ht.
      change (String.length "/") with 1.
      pose proof (join_with_shorter [h] ((init ++ [String c x]) ++ r1)) as Hs.
      destruct init as [|z init]; cbn in *.
      * destruct r1; cbn in *; rewrite slen_app; cbn; lia.
      * destruct (init ++ [String c x]) eqn:Ei; [by destruct init|]. rewrite slen_app. cbn.
        rewrite slen_app. cbn. lia.
    + clear Ea E. revert Hi. generalize (trim_end init) as u. intros u ->. rewrite <- Hp, Ht.
      change (String slash "") with "/".
      replace (h :: ((u ++ r2) ++ [x]) ++ r1) with ((h :: u) ++ (r2 ++ [x] ++ r1))
        by (cbn; by rewrite <- !app_assoc).
      apply (join_with_shorter (h :: u)); [done | by destruct r2].
Qed.

Lemma ancestors_fuel p n m :
  String.length p ≤ n → String.length p ≤ m → ancestors_from n p = ancestors_from m p.
Proof.
  revert p m. induction n as [|n IH]; intros p m Hn Hm; destruct m as [|m]; cbn; f_equal.
  - destruct (parent p) as [q|] eqn:E; [|done]. apply parent_shorter in E. lia.
  - destruct (parent p) as [q|] eqn:E; [|done]. apply parent_shorter in E. lia.
  - destruct (parent p) as [q|] eqn:E; [|done]. apply parent_shorter in E. apply IH; lia.
Qed.

(** The fuel of [ancestors] is enough: it is its own recursive equation. *)
Lemma ancestors_unfold p :
  ancestors p = p :: match parent p with Some q => ancestors q | None => [] end.
Proof.
  unfold ancestors. destruct (String.length p) as [|n] eqn:En; cbn; f_equal;
    (destruct (parent p) as [q|] eqn:E; [|done]); apply parent_shorter in E; [lia|].
  apply ancestors_fuel; lia.
Qed.

(** ** The composed rules *)

(** What the generated document says next to the user's layer. *)
Record faithful (cli : option Value) (layer : V2Layer) (rules : list Value) (order : list string) : Prop :=
  mk_faithful {
  (** The user's rules come first and unchanged; what follows is at most one rule, for the
      coding plan, with the user's key, and only when the user has no such rule. *)
  fa_rules : rules = provider_rules layer
    ∨ ∃ key models, cli_zai_api_key cli = Some key ∧ existsb is_zai (provider_rules layer) = false
        ∧ rules = provider_rules layer ++ [zai_rule key models];
  (** A user's order is kept, with the coding plan added at its end when it is missing. *)
  fa_order : ∀ user, provider_order layer = Some user →
    order = user ∨ (order = user ++ [ZAI_PROVIDER_ID] ∧ ZAI_PROVIDER_ID ∉ user);
  (** Every rule that names its provider is ordered when the user gave no order, and a rule
      for the coding plan always is. *)
  fa_ordered : ∀ rule id, rule ∈ rules → provider_id rule = Some id →
    provider_order layer = None ∨ id = ZAI_PROVIDER_ID → id ∈ order;
}.

Lemma zai_rule_id key models : provider_id (zai_rule key models) = Some ZAI_PROVIDER_ID.
Proof. reflexivity. Qed.

Lemma is_zai_true rule : is_zai rule = true ↔ provider_id rule = Some ZAI_PROVIDER_ID.
Proof. apply opt_eqb_true. Qed.

Lemma compose_rules_cases cli builtin rules :
  compose_rules cli builtin rules = rules
  ∨ ∃ key models, cli_zai_api_key cli = Some key ∧ existsb is_zai rules = false
      ∧ compose_rules cli builtin rules = rules ++ [zai_rule key models].
Proof.
  unfold compose_rules. destruct (existsb is_zai rules); [by left|].
  destruct (cli_zai_api_key cli) as [key|]; [|by left]. right. by eexists key, _.
Qed.

(** The coding plan is present exactly when a rule of the result is one for it. *)
Lemma zai_present cli builtin rules :
  existsb is_zai (compose_rules cli builtin rules)
  = existsb is_zai rules || bool_decide (is_Some (cli_zai_api_key cli)).
Proof.
  unfold compose_rules. destruct (existsb is_zai rules) eqn:E; [by rewrite E|].
  destruct (cli_zai_api_key cli) as [key|]; [|by rewrite E].
  rewrite existsb_app. cbn [existsb]. by rewrite orb_true_r.
Qed.

Lemma compose_faithful cli builtin layer :
  let rules := compose_rules cli builtin (provider_rules layer) in
  faithful cli layer rules (compose_order cli (provider_rules layer) rules (provider_order layer)).
Proof.
  intros rules. unfold compose_order. rewrite <- (zai_present cli builtin). fold rules.
  set (base := default (omap provider_id rules) (provider_order layer)).
  constructor; [apply compose_rules_cases | |].
  - intros user Hu. assert (base = user) as -> by (unfold base; by rewrite Hu).
    destruct (existsb is_zai rules); cbn [andb]; [|by left].
    destruct (one_of ZAI_PROVIDER_ID user) eqn:E; cbn [negb]; [by left|]. right. split; [done|].
    by apply one_of_false.
  - intros rule id Hin Hid Hcase.
    assert (Hsub : ∀ i, i ∈ base → i ∈ (if existsb is_zai rules && negb (one_of ZAI_PROVIDER_ID base)
                                        then base ++ [ZAI_PROVIDER_ID] else base)).
    { intros i Hi. destruct (_ && _); [|done]. apply elem_of_app. by left. }
    destruct Hcase as [Hnone|Hzai].
    + apply Hsub. assert (base = omap provider_id rules) as -> by (unfold base; by rewrite Hnone).
      apply list_elem_of_omap. eauto.
    + subst id. assert (existsb is_zai rules = true) as ->
        by (apply existsb_true_iff; exists rule; split; [done | by apply is_zai_true]).
      destruct (one_of ZAI_PROVIDER_ID base) eqn:E; cbn [negb andb].
      * by apply one_of_true.
      * apply elem_of_app. right. by apply list_elem_of_singleton.
Qed.

(** ** The file *)

Definition private (bytes : string) : File := mk_file bytes PRIVATE_FILE.

(** A reader of [path] sees what was there before or the whole private file. *)
Definition whole (path : Path) (bytes : string) (d d' : Disk) : Prop :=
  files d' !! path = files d !! path ∨ files d' !! path = Some (private bytes).

Lemma atomic_write path bytes a d seen r tmp :
  wa_temp a = Ok tmp → tmp ≠ path → files d !! tmp = None →
  write_private_atomic path bytes a d = (seen, r) →
  Forall (whole path bytes d) seen
  ∧ match r with
    | Ok _ => files (last_disk d seen) = <[path := private bytes]> (files d)
    | Err _ => files (last_disk d seen) = files d
    end.
Proof.
  intros Ht Hne Hfresh. unfold write_private_atomic, whole. rewrite Ht.
  destruct (parent path); [|intros [= <- <-]; by split].
  destruct (wa_write a); [destruct (wa_chmod a); [destruct (wa_sync a); [destruct (wa_persist a)|]|]|];
    intros [= <- <-]; (split;
      [ repeat (apply Forall_cons; split); try apply Forall_nil; cbn [on_files files];
        rewrite ?lookup_insert_eq, ?lookup_insert_ne, ?lookup_delete_ne, ?lookup_insert_ne by done; auto
      | unfold last_disk; cbn [last default]; unfold Datatypes.id; cbn [on_files files];
        rewrite ?insert_insert_eq, ?delete_insert_eq, ?delete_id by done; done ]).
Qed.

Lemma write_keeps_dirs path bytes a d seen r :
  write_private_atomic path bytes a d = (seen, r) → dir_modes (last_disk d seen) = dir_modes d.
Proof.
  unfold write_private_atomic. destruct (parent path); [|by intros [= <- <-]].
  destruct (wa_temp a); [|by intros [= <- <-]].
  destruct (wa_write a); [destruct (wa_chmod a); [destruct (wa_sync a); [destruct (wa_persist a)|]|]|];
    by intros [= <- <-].
Qed.

Lemma last_disk_app d a b : last_disk d (a ++ b) = last_disk (last_disk d a) b.
Proof. unfold last_disk. rewrite last_app. by destruct (last b). Qed.

Section published.
Context (debug_path : Path → string) (debug_kind : IoErrorKind → string)
  (read_file : Path → result IoError string) (from_slice : string → result string Value)
  (to_vec : Value → result string string).

Notation load := (load_config debug_path read_file from_slice).
Notation generate := (generate_personal_provider_config debug_path debug_kind read_file from_slice to_vec).

(** The bytes are the encoding of the document composed from what the files say: the
    user's layer could be read, or was absent, and is well formed. *)
Definition composed_from (cli_config v2_config builtin_template : Path) (bytes : string) : Prop :=
  ∃ cli v2 builtin layer,
    cli = match load cli_config with Ok v => v | Err _ => None end
    ∧ load v2_config = Ok v2 ∧ load builtin_template = Ok (Some builtin)
    ∧ parse_v2_layer debug_path v2_config v2 = Ok layer
    ∧ to_vec (compose_root cli builtin layer) = Ok bytes
    ∧ length (provider_rules layer) ≤ MAX_PROVIDER_RULES ∧ String.length bytes ≤ MAX_SERIALIZED_BYTES
    ∧ let rules := compose_rules cli builtin (provider_rules layer) in
      faithful cli layer rules (compose_order cli (provider_rules layer) rules (provider_order layer)).

Lemma composed_ok cli_config v2_config builtin_template bytes :
  composed debug_path debug_kind read_file from_slice to_vec cli_config v2_config builtin_template = Ok bytes →
  composed_from cli_config v2_config builtin_template bytes.
Proof.
  unfold composed. rewrite result_bind_ok. intros (v2 & Hv2 & H).
  rewrite result_bind_ok in H. destruct H as (builtin & Hb & H).
  rewrite result_bind_ok in H. destruct H as (layer & Hl & H).
  destruct (Nat.ltb _ (length (provider_rules layer))) eqn:Hn; [done|]. apply Nat.ltb_ge in Hn.
  destruct (to_vec _) as [b|] eqn:Ht; [|done]. destruct (Nat.ltb _ (String.length b)) eqn:Hs; [done|].
  apply Nat.ltb_ge in Hs. injection H as <-.
  eexists _, v2, builtin, layer. split_and!; [reflexivity| | | done | done | done | done | apply compose_faithful].
  - destruct (load v2_config) as [|[k e]]; congruence.
  - destruct (load builtin_template) as [[|]|]; congruence.
Qed.

(** C31. The personal provider file is composed faithfully and published whole: at no moment
    does its path hold anything but what it held before or the complete document, readable
    by its owner alone; the document keeps the user's rules and order and adds at most the
    coding plan's rule under the user's key; and when anything fails, a malformed layer of
    the user above all, the files are as they were. *)
Theorem provider_file_published (cli_config v2_config builtin_template output_dir : Path) (a : WriteAnswers)
    (d : Disk) (seen : list Disk) (r : result IoError Path) :
  (∀ tmp, wa_temp a = Ok tmp → tmp ≠ join output_dir PERSONAL_PROVIDER_FILE ∧ files d !! tmp = None) →
  generate cli_config v2_config builtin_template output_dir a d = (seen, r) →
  let path := join output_dir PERSONAL_PROVIDER_FILE in
  match r with
  | Ok written =>
      written = path ∧ ∃ bytes, composed_from cli_config v2_config builtin_template bytes
        ∧ Forall (whole path bytes d) seen
        ∧ files (last_disk d seen) = <[path := private bytes]> (files d)
        ∧ dir_modes (last_disk d seen) !! output_dir = Some PRIVATE_DIR
  | Err _ => files (last_disk d seen) = files d ∧ ∃ bytes, Forall (whole path bytes d) seen
  end.
Proof.
  intros Hfresh. unfold generate_personal_provider_config. set (path := join output_dir _) in *.
  destruct (composed _ _ _ _ _ _ _ _) as [bytes|] eqn:Hc; [|intros [= <- <-]; by split; [|exists ""; constructor]].
  apply composed_ok in Hc. unfold ensure_private_directory.
  destruct (wa_mkdir a); [|intros [= <- <-]; by split; [|exists bytes; constructor]].
  destruct (wa_chmod_dir a); [|intros [= <- <-]; by split; [|exists bytes; constructor]].
  set (d1 := mk_disk _ _). change (last_disk d [d1]) with d1.
  destruct (write_private_atomic path bytes a d1) as [seen' w] eqn:Hw. intros [= <- <-].
  pose proof (write_keeps_dirs _ _ _ _ _ _ Hw) as Hdirs.
  assert (last_disk d ([d1] ++ seen') = last_disk d1 seen') as Hlast by apply (last_disk_app d [d1]).
  cbn [app] in Hlast |- *. rewrite Hlast.
  assert (Forall (whole path bytes d) (d1 :: seen') ∧ match w with
          | Ok _ => files (last_disk d1 seen') = <[path := private bytes]> (files d)
          | Err _ => files (last_disk d1 seen') = files d end) as [Hall Hfiles].
  { destruct (wa_temp a) as [tmp|e] eqn:Ht.
    - destruct (Hfresh tmp eq_refl) as [Hne Hf].
      destruct (atomic_write path bytes a d1 seen' w tmp Ht Hne Hf Hw). split; [|done].
      constructor; [by left | done].
    - unfold write_private_atomic in Hw. rewrite Ht in Hw.
      destruct (parent path); injection Hw as <- <-; (split; [repeat constructor | done]). }
  destruct w; [|split; [done | by exists bytes]].
  split; [done|]. exists bytes. split_and!; try done. rewrite Hdirs. apply lookup_insert_eq.
Qed.

(** The four variables are set together or not at all. *)
Lemma provider_environment_group command builtin data_root cli_config v2_config a d seen c r :
  apply_provider_environment_for debug_path debug_kind read_file from_slice to_vec command builtin data_root
    cli_config v2_config a d = (seen, c, r) →
  match r with
  | Ok _ => ∃ template file, builtin = Some template
      ∧ c = mk_command (c_program command) (c_args command) (c_cwd command)
              (c_envs command ++ [(BUILTIN_PROVIDER_CONFIG_ENV, template);
                                  (BUILTIN_PROVIDER_BUNDLED_CONFIG_ENV, template);
                                  (PERSONAL_PROVIDER_CONFIG_ENV, file);
                                  (DATA_BASE_DIR_ENV, join data_root RUNTIME_DIR)])
  | Err _ => c = command
  end.
Proof.
  unfold apply_provider_environment_for. destruct builtin as [template|]; [|by intros [= <- <- <-]].
  destruct (generate _ _ _ _ _ _) as [seen' [file|e]]; intros [= <- <- <-]; [|done].
  exists template, file. split; [done|]. unfold c_env. cbn. by rewrite <- !app_assoc.
Qed.
End published.

(** ** A concrete home *)

Module ProviderDemo.
Definition cli : Value :=
  VObject [("provider", VObject [("zai", VObject [
    ("models", VObject [("GLM-4", VNull); ("other", VNull)]); ("options", VObject [("apiKey", VString "k")])])])].
Definition v2 (rules : list Value) : Value :=
  VObject [("config", VObject [("providerConfigRules", VObject [("providerRules", VArray rules)]);
                               ("providerOrder", VArray [VString "mine"])])].
Definition mine : Value := VObject [("providerId", VString "mine")].
Definition builtin : Value :=
  VObject [("templates", VArray [VObject [("config", VObject [("builtinModelIds", VArray [VString "glm-4"])]);
                                          ("templateId", VString ZAI_TEMPLATE_ID)]])].

(** The files of a home hold their names, and the decoder knows the documents. *)
Definition read_file (v2_present : bool) (p : Path) : result IoError string :=
  if (p ≟ "v2") && negb v2_present then Err (KNotFound, "no such file") else Ok p.
Definition from_slice (layer : Value) (s : string) : result string Value :=
  if s ≟ "cli" then Ok cli else if s ≟ "v2" then Ok layer else if s ≟ "builtin" then Ok builtin else Err "eof".
Definition to_vec (v : Value) : result string string := Ok "document".
Definition calm : WriteAnswers := mk_answers (Ok tt) (Ok tt) (Ok "/d/.tmp1") PRIVATE_FILE (Ok tt) "" (Ok tt) (Ok tt) (Ok tt).
Definition torn : WriteAnswers :=
  mk_answers (Ok tt) (Ok tt) (Ok "/d/.tmp1") PRIVATE_FILE (Err (KOther, "disk full")) "docu" (Ok tt) (Ok tt) (Ok tt).
Definition disk : Disk := mk_disk {["/d/personal-provider-config.json" := mk_file "old" PRIVATE_FILE]} ∅.
Definition text (p : Path) : string := p.
Definition kind (k : IoErrorKind) : string := "kind".

Definition run (layer : Value) (a : WriteAnswers) : Written Path :=
  generate_personal_provider_config text kind (read_file true) (from_slice layer) to_vec "cli" "v2" "builtin" "/d" a disk.
Definition content (d : Disk) : option string := f_bytes <$> files d !! "/d/personal-provider-config.json".
End ProviderDemo.

Example provider_demo :
  compose_rules (Some ProviderDemo.cli) ProviderDemo.builtin [ProviderDemo.mine]
    = [ProviderDemo.mine; zai_rule "k" ["glm-4"]]
  ∧ (let '(seen, r) := ProviderDemo.run (ProviderDemo.v2 [ProviderDemo.mine]) ProviderDemo.torn in
     (ProviderDemo.content <$> seen, r)) = ([Some "old"; Some "old"; Some "old"; Some "old"], Err (KOther, "disk full"))
  ∧ (ProviderDemo.run (VArray []) ProviderDemo.calm)
    = ([], Err (KInvalidData, "zcode v2 provider config v2 is unusable: top level is not an object")).
Proof. vm_compute. auto. Qed.

Lemma provider_file_published_witness :
  ∃ bytes, composed_from ProviderDemo.text (ProviderDemo.read_file true)
             (ProviderDemo.from_slice (ProviderDemo.v2 [ProviderDemo.mine])) ProviderDemo.to_vec "cli" "v2" "builtin" bytes
    ∧ ProviderDemo.content (last_disk ProviderDemo.disk (ProviderDemo.run (ProviderDemo.v2 [ProviderDemo.mine]) ProviderDemo.calm).1)
      = Some bytes.
Proof.
  destruct (provider_file_published ProviderDemo.text ProviderDemo.kind (ProviderDemo.read_file true)
              (ProviderDemo.from_slice (ProviderDemo.v2 [ProviderDemo.mine])) ProviderDemo.to_vec
              "cli" "v2" "builtin" "/d" ProviderDemo.calm ProviderDemo.disk
              (ProviderDemo.run (ProviderDemo.v2 [ProviderDemo.mine]) ProviderDemo.calm).1
              (Ok "/d/personal-provider-config.json")) as (_ & bytes & Hfrom & _ & Hfiles & _).
  - intros tmp [= <-]. split; [discriminate | reflexivity].
  - vm_compute. reflexivity.
  - exists bytes. split; [exact Hfrom|]. unfold ProviderDemo.content. rewrite Hfiles. reflexivity.
Defined.
