(* ===== verification/Factories.v ===== *)
(** * The factories of codex and dsh

    [external-daemon/src/codex/factory.rs] and [external-daemon/src/dsh/factory.rs]: whether
    a child may be started for a task, and what is prepared and verified before it is.

    What a factory does to the host is a list of steps; what the host answers is the record
    [Host].  A temporary directory is named by its path; its removal with its owner is left
    out.  The gates of the test harness are left out. *)

From stdpp Require Import gmap strings.
From S2P Require Import Prelude RustStr RustPath Json PolicyPaths Launcher General StoreRecords Recovery Transport Reaper DshProfile Provider.

(** ** Codex *)

Inductive CodexSpawnGate := CodexClosed | CodexEnabled.

Record CodexLaunch := mk_codex_launch { cl_runtime_path : Path; cl_home : Path }.

(** The configured home wins over the inherited one; neither is no home. *)
Definition resolve_codex_home (configured inherited : option string) : option (result string Path) :=
  match configured, inherited with
  | Some p, _ => Some (if is_absolute p then Ok p else Err "agents.codex.home must be absolute")
  | None, Some p => Some (if is_absolute p then Ok p else Err "inherited CODEX_HOME must be absolute")
  | None, None => None
  end.

(** What the metadata of a path shows: nothing, or whether it is a regular file and its
    mode.  Any execute bit will do (0o111). *)
Definition runtime_path_is_executable_file (metadata : Path → option (bool * Z)) (p : Path) : bool :=
  is_absolute p && match metadata p with
                   | Some (regular, mode) => regular && negb (Z.eqb (Z.land mode 73) 0)
                   | None => false
                   end.

Definition CODEX_NOT_EXECUTABLE : string := "CODEX_RUNTIME_PATH must be an absolute executable file".

(** A child's command with the variables it does not inherit. *)
Record CodexCommand := mk_codex_command { cc_command : Command; cc_removed : list string }.

Section codex.
Context (from_str : string → result string Value) (decode_prepared : Value → option PreparedGeneralTask)
  (env : string → option string) (metadata : Path → option (bool * Z)).

Definition codex_validate (l : CodexLaunch) : result IoError unit :=
  if negb (runtime_path_is_executable_file metadata (cl_runtime_path l)) then Err (KInvalidInput, CODEX_NOT_EXECUTABLE)
  else if negb (is_absolute (cl_home l)) then Err (KInvalidInput, "CODEX_HOME must be absolute")
  else Ok tt.

Definition codex_env_runtime_path : result IoError (option Path) :=
  match env "CODEX_RUNTIME_PATH" with
  | None => Ok None
  | Some path =>
      if runtime_path_is_executable_file metadata path then Ok (Some path)
      else Err (KInvalidInput, CODEX_NOT_EXECUTABLE)
  end.

Definition codex_from_environment : result IoError CodexLaunch :=
  found ← codex_env_runtime_path;
  runtime ← ok_or (KNotFound, "CODEX_RUNTIME_PATH is unavailable") found;
  home ← ok_or (KNotFound, "CODEX_HOME is unconfigured; refusing a ~/.codex fallback") (env "CODEX_HOME");
  let launch := mk_codex_launch runtime home in
  _ ← codex_validate launch;
  Ok launch.

Definition codex_command (l : CodexLaunch) (cwd : Path) : CodexCommand :=
  mk_codex_command
    (c_current_dir cwd
       (c_env "CODEX_HOME" (cl_home l)
          (mk_command (cl_runtime_path l) ["app-server"; "--listen"; "stdio://"] None [])))
    ["OPENAI_API_KEY"; "OPENAI_BASE_URL"].

Definition codex_resolve_launch (gate : CodexSpawnGate) (task : TaskRecord) : result IoError CodexLaunch :=
  match task_route from_str decode_prepared task with
  | Err message => Err (KInvalidInput, message)
  | Ok prepared =>
      match admission prepared with
      | None => Err (KInvalidInput, "codex task is missing its admission identity")
      | Some identity =>
          if negb (agent identity ≟ "codex") then Err (KInvalidInput, "codex factory received a non-codex task")
          else match model identity with
          | None => Err (KInvalidInput, "codex task is missing its admitted model")
          | Some _ =>
              match gate with
              | CodexClosed =>
                  Err (KPermissionDenied, "codex spawn gate is closed; production Codex spawn is not enabled")
              | CodexEnabled => codex_from_environment
              end
          end
      end
  end.

(** [spawn], up to the start of the process. *)
Definition codex_spawn (gate : CodexSpawnGate) (task : TaskRecord) : result IoError CodexCommand :=
  launch ← codex_resolve_launch gate task;
  Ok (codex_command launch (workspace_path (rec_spec task))).

(** A codex child is started for an admitted codex task, in its workspace, from an absolute
    executable, with an absolute home of its own and without inherited credentials. *)
Lemma codex_child_pinned gate task c :
  codex_spawn gate task = Ok c →
  gate = CodexEnabled
  ∧ (∃ prepared identity, task_route from_str decode_prepared task = Ok prepared
       ∧ admission prepared = Some identity ∧ agent identity = "codex" ∧ is_Some (model identity))
  ∧ runtime_path_is_executable_file metadata (c_program (cc_command c)) = true
  ∧ c_cwd (cc_command c) = Some (workspace_path (rec_spec task))
  ∧ (∃ home, c_envs (cc_command c) = [("CODEX_HOME", home)] ∧ is_absolute home = true)
  ∧ cc_removed c = ["OPENAI_API_KEY"; "OPENAI_BASE_URL"].
Proof.
  unfold codex_spawn. rewrite result_bind_ok. intros (l & Hl & [= <-]). unfold codex_resolve_launch in Hl.
  destruct (task_route _ _ task) as [prepared|] eqn:Hr; [|done].
  destruct (admission prepared) as [identity|] eqn:Hi; [|done].
  destruct (agent identity ≟ "codex") eqn:Ha; [|done]. apply String.eqb_eq in Ha. cbn [negb] in Hl.
  destruct (model identity) as [m|] eqn:Hm; [|done]. destruct gate; [done|].
  unfold codex_from_environment in Hl.
  rewrite result_bind_ok in Hl. destruct Hl as (found & _ & Hl).
  rewrite result_bind_ok in Hl. destruct Hl as (runtime & _ & Hl).
  rewrite result_bind_ok in Hl. destruct Hl as (home & _ & Hl).
  rewrite result_bind_ok in Hl. destruct Hl as ([] & Hv & [= <-]).
  unfold codex_validate in Hv. cbn [cl_runtime_path cl_home] in Hv.
  destruct (runtime_path_is_executable_file metadata runtime) eqn:Hx; [|done].
  destruct (is_absolute home) eqn:Hh; [|done].
  split_and!; try done; [exists prepared, identity; by rewrite Hm | by exists home].
Qed.
End codex.

(** ** Dsh *)

Inductive DshSpawnGate := DshClosed | DshEnabled.

(** What the factory does to the host, in order; a failed call is a step too.  [Started] is
    the child's command with the temporary directory its owner keeps. *)
Inductive HostStep :=
| MadeTemp (prefix : string)
| MadeDirs (p : Path)
| WroteFile (p : Path) (contents : string)
| Linked (target link : Path)
| Probed (p : Probe)
| Started (c : Command) (held : option Path).

(** A computation that takes steps and ends in a result. *)
Record Outcome (A : Type) := out { taken : list HostStep; answer : result IoError A }.
Arguments out {A}.
Arguments taken {A}.
Arguments answer {A}.

#[global] Instance outcome_steps_bind : MBind Outcome := fun _ _ f m =>
  match answer m with
  | Ok a => out (taken m ++ taken (f a)) (answer (f a))
  | Err e => out (taken m) (Err e)
  end.

Definition pure {A} (r : result IoError A) : Outcome A := out [] r.
Definition step {A} (s : HostStep) (r : result IoError A) : Outcome A := out [s] r.

(** The host: the environment, the file system as it answers at the moments of a spawn
    ([h_is_file] and [h_is_dir]: 0, 1 and 2 in the preflight, 3 when the command of the child
    is resolved), the two decoders, the printer of YAML, and the child itself. *)
Record Host := mk_host {
  h_env : string → option string;
  h_is_file : nat → Path → bool;
  h_is_dir : nat → Path → bool;
  h_canonicalize : Path → result string Path;
  h_dir_now : Path → bool;
  h_file_now : Path → bool;
  h_package : Path → option Value;       (** a readable JSON file *)
  h_temp : string → result string Path;
  h_create_dir_all : Path → result string unit;
  h_write : Path → string → result string unit;
  h_symlink : Path → Path → result string unit;
  h_yaml : string → result string Yaml;
  h_print : Yaml → result string string;
  h_output : Command → Z → Z → result string ProbeOutput;
  h_start : Command → option Path → result IoError unit;
  h_windows : bool;
  h_debug : string → string;
}.

(** The manifest of a task whose caller named none. *)
Definition is_workspace_root_manifest (manifest : list Path) : bool :=
  match manifest with [p] => path_eq p "." | _ => false end.

Definition display (p : Path) : string := from_utf8_lossy p.
Definition other {A} (message : string) : result IoError A := Err (KOther, message).
Definition map_other {A} (message : string → string) (r : result string A) : result IoError A :=
  match r with Ok a => Ok a | Err e => other (message e) end.

Section dsh.
Context (h : Host) (from_str : string → result string Value) (decode_prepared : Value → option PreparedGeneralTask)
  (guard_files : list (string * string)) (strict_patch : string).

Definition package_name (directory : Path) : option string :=
  h_package h (join directory "package.json") ≫= λ v, get_str v "name".

(** The loop over the parents is the search of the ancestors ([ancestors_unfold]). *)
Definition derive_dsh_fs_package (runtime : Path) : result IoError Path :=
  canonical ← map_other (λ e, "manifest-build cannot canonicalize the dsh runtime " +:+ display runtime +:+ ": " +:+ e)
                (h_canonicalize h runtime);
  start ← if h_dir_now h canonical then Ok canonical
          else match parent canonical with
               | Some p => Ok p
               | None => other ("manifest-build dsh runtime " +:+ display canonical +:+ " has no parent directory")
               end;
  match List.find (λ d, opt_eqb (package_name d) "@deepseek-ai/dsh") (ancestors start) with
  | None => other ("manifest-build cannot find a @deepseek-ai/dsh package above " +:+ display canonical)
  | Some root =>
      let dsh_fs := join root "node_modules/@deepseek-ai/dsh-fs" in
      if h_file_now h (join dsh_fs "package.json") then Ok dsh_fs
      else other ("manifest-build cannot find the nested @deepseek-ai/dsh-fs package at " +:+ display dsh_fs)
  end.

Definition make_parent (path : Path) : Outcome unit :=
  match parent path with
  | Some p =>
      step (MadeDirs p)
        (map_other (λ e, "manifest-build cannot create " +:+ display p +:+ ": " +:+ e) (h_create_dir_all h p))
  | None => pure (Ok tt)
  end.

Definition write_file (path : Path) (contents : string) : Outcome unit :=
  step (WroteFile path contents)
    (map_other (λ e, "manifest-build cannot write " +:+ display path +:+ ": " +:+ e) (h_write h path contents)).

Fixpoint write_guard_files (plugin_root : Path) (l : list (string * string)) : Outcome unit :=
  match l with
  | [] => pure (Ok tt)
  | (relative, contents) :: rest =>
      let path := join plugin_root relative in
      _ ← make_parent path;
      _ ← write_file path contents;
      write_guard_files plugin_root rest
  end.

Definition GUARD_DIR : string := "dsh-write-guard".
Definition GUARD_ENTRY : string := "lib/index.js".
Definition PATCH_FILE : string := "manifest-build.patch.yml".

(** The temporary directory and the patch in it. *)
Definition materialize_write_guard_tree (runtime : Path) (manifest : list Path) : Outcome (Path * Path) :=
  directory ← step (MadeTemp "external-dsh-manifest-")
                (map_other (λ e, "manifest-build tempdir failed: " +:+ e) (h_temp h "external-dsh-manifest-"));
  let plugin_root := join directory GUARD_DIR in
  _ ← write_guard_files plugin_root guard_files;
  dsh_fs ← pure (derive_dsh_fs_package runtime);
  let link := join plugin_root "node_modules/@deepseek-ai/dsh-fs" in
  _ ← make_parent link;
  _ ← if h_windows h then pure (other "manifest-build requires unix symlink support")
      else step (Linked dsh_fs link)
             (map_other (λ e, "manifest-build cannot link " +:+ display link +:+ " -> " +:+ display dsh_fs +:+ ": " +:+ e)
                (h_symlink h dsh_fs link));
  patch ← pure (map_other (λ e, "manifest-build patch failed: " +:+ e)
                  (manifest_build_patch (h_print h) manifest (join plugin_root GUARD_ENTRY)));
  let patch_path := join directory PATCH_FILE in
  _ ← write_file patch_path patch;
  pure (Ok (directory, patch_path)).

(** A preflight with its probes as steps; its refusal is a denial. *)
Definition judged (p : list Probe * result string unit) : Outcome unit :=
  out (Probed <$> p.1) (match p.2 with Ok u => Ok u | Err e => Err (KPermissionDenied, e) end).

(** [resolve_launch] of the child; every refusal but a missing executable is an invalid
    input. *)
Definition resolve_child (l : DshLaunch) : result IoError Command :=
  match resolve_launch (h_is_file h 3) (h_is_dir h 3) l with
  | Ok c => Ok c
  | Err e => Err (match l_executable l with None => KNotFound | Some _ => KInvalidInput end, e)
  end.

Definition env_text (name : string) : option string := h_env h name ≫= path_to_str.

Definition launch_of (executable workspace : Path) (home : option Path) (profile : option string) (mode : string)
    (patch : option Path) : DshLaunch :=
  mk_launch (Some executable) workspace home profile (env_text "DSH_VERSION") (Some mode) patch.

Definition materialize_manifest_build (runtime workspace : Path) (home : option Path) (manifest : list Path)
    : Outcome (Path * Command) :=
  tree ← materialize_write_guard_tree runtime manifest;
  let '(directory, patch_path) := tree in
  let profile := p ← env_text "DSH_PROFILE"; if p ≟ "acp" then Some p else None in
  let launch := launch_of runtime workspace home profile "workspace-write" (Some patch_path) in
  _ ← judged (preflight_build_manifest (h_is_file h) (h_is_dir h) (h_windows h) (h_debug h) (h_yaml h) (h_output h)
                launch manifest);
  command ← pure (resolve_child launch);
  pure (Ok (directory, command)).

Definition start (c : Command) (held : option Path) : Outcome unit := step (Started c held) (h_start h c held).

Definition STRICT_PATCH_FILE : string := "strict-plan.patch.yml".

(** The patch of a plan: the overriding path, or one written into a directory of its own. *)
Definition strict_patch_file : Outcome (option Path * Path) :=
  match h_env h "DSH_STRICT_PLAN_PATCH" with
  | Some p => pure (Ok (None, p))
  | None =>
      directory ← step (MadeTemp "external-dsh-strict-") (map_other (λ e, e) (h_temp h "external-dsh-strict-"));
      let path := join directory STRICT_PATCH_FILE in
      _ ← step (WroteFile path strict_patch) (map_other (λ e, e) (h_write h path strict_patch));
      pure (Ok (Some directory, path))
  end.

Definition spawn_plan (executable workspace : Path) (home : option Path) : Outcome unit :=
  prepared ← strict_patch_file;
  let '(held, patch) := prepared in
  let launch := launch_of executable workspace home (env_text "DSH_PROFILE") "read-only" (Some patch) in
  _ ← judged (preflight (h_is_file h) (h_is_dir h) (h_debug h) (h_yaml h) (h_output h) launch);
  command ← pure (resolve_child launch);
  start command held.

Definition spawn_build (executable workspace : Path) (home : option Path) : Outcome unit :=
  let launch := launch_of executable workspace home (env_text "DSH_PROFILE") "workspace-write" None in
  _ ← judged (preflight_build (h_is_file h) (h_is_dir h) (h_windows h) (h_yaml h) (h_output h) launch);
  command ← pure (resolve_child launch);
  start command None.

Definition spawn_manifest (executable workspace : Path) (home : option Path) (manifest : list Path) : Outcome unit :=
  materialized ← materialize_manifest_build executable workspace home manifest;
  let '(directory, command) := materialized in
  start command (Some directory).

Definition dsh_spawn (gate : DshSpawnGate) (task : TaskRecord) : Outcome unit :=
  match gate with
  | DshClosed => pure (Err (KPermissionDenied, "dsh spawn gate is closed; production DSH spawn is not enabled"))
  | DshEnabled =>
      match task_route from_str decode_prepared task with
      | Err message => pure (Err (KInvalidInput, message))
      | Ok prepared =>
          match h_env h "DSH_RUNTIME_PATH" with
          | None => pure (Err (KNotFound, "DSH_RUNTIME_PATH is unavailable"))
          | Some executable =>
              let home := h_env h "DSH_HOME" in
              let path := ws_path (General.workspace prepared) in
              if bool_decide (prep_permission_mode prepared = Plan) then spawn_plan executable path home
              else if is_workspace_root_manifest (prep_write_manifest prepared) then spawn_build executable path home
              else spawn_manifest executable path home (prep_write_manifest prepared)
          end
      end
  end.
End dsh.

(** ** Steps of a composition *)

Lemma taken_bind {A B} (m : Outcome A) (f : A → Outcome B) s :
  s ∈ taken (m ≫= f) ↔ s ∈ taken m ∨ ∃ a, answer m = Ok a ∧ s ∈ taken (f a).
Proof.
  unfold mbind, outcome_steps_bind. destruct m as [l [a|e]]; cbn [answer taken].
  - rewrite elem_of_app. naive_solver.
  - naive_solver.
Qed.

Lemma answer_bind {A B} (m : Outcome A) (f : A → Outcome B) b :
  answer (m ≫= f) = Ok b ↔ ∃ a, answer m = Ok a ∧ answer (f a) = Ok b.
Proof. unfold mbind, outcome_steps_bind. destruct m as [l [a|e]]; cbn [answer]; naive_solver. Qed.

(** Nothing is started. *)
Definition quiet {A} (m : Outcome A) : Prop := ∀ c held, Started c held ∉ taken m.

Lemma quiet_bind {A B} (m : Outcome A) (f : A → Outcome B) :
  quiet m → (∀ a, answer m = Ok a → quiet (f a)) → quiet (m ≫= f).
Proof. intros Hm Hf c held [H|(a & Ha & H)]%taken_bind; [by eapply Hm | by eapply Hf]. Qed.

Lemma quiet_pure {A} (r : result IoError A) : quiet (pure r).
Proof. intros c held H. inversion H. Qed.

Lemma quiet_one {A} s (r : result IoError A) :
  match s with Started _ _ => False | _ => True end → quiet (step s r).
Proof. intros Hs c held H. apply list_elem_of_singleton in H as <-. done. Qed.

Lemma quiet_judged p : quiet (judged p).
Proof. intros c held H. apply list_elem_of_fmap in H as (? & ? & _). done. Qed.

Create HintDb quiet discriminated.
#[export] Hint Resolve quiet_pure quiet_judged : quiet.
#[export] Hint Extern 1 (quiet (step _ _)) => by apply quiet_one : quiet.
#[export] Hint Extern 2 (quiet (_ ≫= _)) => apply quiet_bind; [|intros] : quiet.

Section gated.
Context (h : Host) (from_str : string → result string Value) (decode_prepared : Value → option PreparedGeneralTask)
  (guard_files : list (string * string)) (strict_patch : string).

Lemma quiet_make_parent p : quiet (make_parent h p).
Proof. unfold make_parent. destruct (parent p); auto with quiet. Qed.

Lemma quiet_write_file p t : quiet (write_file h p t).
Proof. unfold write_file. auto with quiet. Qed.

Lemma quiet_guard_files root l : quiet (write_guard_files h root l).
Proof.
  induction l as [|[relative contents] l IH]; cbn [write_guard_files]; [auto with quiet|].
  apply quiet_bind; [apply quiet_make_parent | intros _ _].
  apply quiet_bind; [apply quiet_write_file | by intros _ _].
Qed.

Hint Resolve quiet_make_parent quiet_write_file quiet_guard_files : quiet.

Lemma quiet_tree runtime manifest : quiet (materialize_write_guard_tree h guard_files runtime manifest).
Proof.
  unfold materialize_write_guard_tree. repeat (apply quiet_bind; [|intros]); auto with quiet.
  destruct (h_windows h); auto with quiet.
Qed.

Hint Resolve quiet_tree : quiet.

Lemma quiet_manifest_build runtime workspace home manifest :
  quiet (materialize_manifest_build h guard_files runtime workspace home manifest).
Proof.
  unfold materialize_manifest_build. apply quiet_bind; [auto with quiet|]. intros [directory patch] _.
  repeat (apply quiet_bind; [|intros]); auto with quiet.
Qed.

Lemma quiet_strict_patch : quiet (strict_patch_file h strict_patch).
Proof.
  unfold strict_patch_file. destruct (h_env h _); [auto with quiet|].
  repeat (apply quiet_bind; [|intros]); auto with quiet.
Qed.

(** ** What was prepared *)

(** The patch on disk is the one generated for the manifest, with the guard in the same
    directory. *)
Definition patch_written (manifest : list Path) (directory : Path) (steps : list HostStep) : Prop :=
  ∃ rows text, patch_rows manifest (join (join directory GUARD_DIR) GUARD_ENTRY) = Ok rows
    ∧ h_print h rows = Ok text ∧ WroteFile (join directory PATCH_FILE) text ∈ steps.

Lemma tree_ok runtime manifest directory patch_path :
  answer (materialize_write_guard_tree h guard_files runtime manifest) = Ok (directory, patch_path) →
  patch_path = join directory PATCH_FILE
  ∧ patch_written manifest directory (taken (materialize_write_guard_tree h guard_files runtime manifest)).
Proof.
  unfold materialize_write_guard_tree. intros H.
  apply answer_bind in H as (d & Hd & H). apply answer_bind in H as (u1 & Hu1 & H).
  apply answer_bind in H as (fs & Hfs & H). apply answer_bind in H as (u2 & Hu2 & H).
  apply answer_bind in H as (u3 & Hu3 & H). apply answer_bind in H as (patch & Hp & H).
  apply answer_bind in H as (u4 & Hu4 & [= -> <-]). split; [done|].
  cbn [answer pure] in Hp. unfold map_other, manifest_build_patch in Hp.
  destruct (patch_rows _ _) as [rows|] eqn:Hrows; [|done]. cbn [mbind result_bind] in Hp.
  destruct (h_print h rows) as [text|] eqn:Htext; [|done]. injection Hp as <-.
  exists rows, text. split_and!; [done | done |].
  apply taken_bind; right; exists directory; split; [done|].
  apply taken_bind; right; exists u1; split; [done|]. apply taken_bind; right; exists fs; split; [done|].
  apply taken_bind; right; exists u2; split; [done|]. apply taken_bind; right; exists u3; split; [done|].
  apply taken_bind; right; exists text; split; [cbn; unfold manifest_build_patch; by rewrite Hrows; cbn; rewrite Htext|].
  apply taken_bind; left. by apply list_elem_of_singleton.
Qed.

(** ** A child is started only behind its gate *)

(** The composition a task's mode and manifest ask for, as the dump of the launch shows it. *)
Definition composition (prepared : PreparedGeneralTask) (l : DshLaunch) (v : Yaml) (held : option Path)
    (steps : list HostStep) : Prop :=
  if bool_decide (prep_permission_mode prepared = Plan) then
    l_permission_mode l = Some "read-only" ∧ is_Some (l_patch l) ∧ validate_dump_policy (h_debug h) v = Ok tt
  else if is_workspace_root_manifest (prep_write_manifest prepared) then
    l_permission_mode l = Some "workspace-write" ∧ l_patch l = None
    ∧ validate_build_dump (h_windows h) v (l_workspace l) = Ok tt
  else
    l_permission_mode l = Some "workspace-write"
    ∧ guarded_dump (h_windows h) (prep_write_manifest prepared) (l_workspace l) v
    ∧ ∃ directory, held = Some directory ∧ l_patch l = Some (join directory PATCH_FILE)
        ∧ patch_written (prep_write_manifest prepared) directory steps.

(** The command was resolved from a launch in the task's workspace, and the provider was
    probed with that very command. *)
Definition verified_launch (prepared : PreparedGeneralTask) (l : DshLaunch) (v : Yaml) (c : Command)
    (steps : list HostStep) : Prop :=
  l_workspace l = ws_path (General.workspace prepared) ∧ carries l c
  ∧ (∃ ran, probed (h_yaml h) (h_output h) l ran v ∧ (∀ p, p ∈ ran → Probed p ∈ steps)
       ∧ ran = [(c_arg "--version" c, 10%Z, 4096%Z); (c_arg "--dump-config" c, 10%Z, (1024 * 1024)%Z)]).

Lemma judged_ok p u : answer (judged p) = Ok u → p.2 = Ok tt.
Proof. destruct p as [ran [[]|]]; done. Qed.

Lemma resolve_child_ok l c : resolve_child h l = Ok c → resolve_launch (h_is_file h 3) (h_is_dir h 3) l = Ok c.
Proof. unfold resolve_child. destruct (resolve_launch _ _ l); [by intros [= ->] | by destruct (l_executable l)]. Qed.

Lemma started_start c held c' held' : Started c held ∈ taken (start h c' held') → c = c' ∧ held = held'.
Proof. intros H. apply list_elem_of_singleton in H. by injection H as -> ->. Qed.

(** The tail of a spawn: a judgement, the resolution of the child, the start. *)
Lemma judged_start p l c held held' :
  Started c held ∈ taken (_ ← judged p; command ← pure (resolve_child h l); start h command held') →
  p.2 = Ok tt ∧ resolve_launch (h_is_file h 3) (h_is_dir h 3) l = Ok c ∧ held = held'.
Proof.
  intros [H|(u & Hu & H)]%taken_bind; [by apply quiet_judged in H|]. apply judged_ok in Hu.
  apply taken_bind in H as [H|(command & Hc & H)]; [by apply quiet_pure in H|].
  apply resolve_child_ok in Hc. by apply started_start in H as [-> ->].
Qed.

Lemma probes_judged {A} p (k : unit → Outcome A) x : x ∈ p.1 → Probed x ∈ taken (judged p ≫= k).
Proof. intros Hx. apply taken_bind. left. by apply list_elem_of_fmap_2. Qed.

(** A judged launch that resolves to the child's command is verified. *)
Lemma verified prepared l p v c steps :
  l_workspace l = ws_path (General.workspace prepared) → probed (h_yaml h) (h_output h) l p v →
  (∀ x, x ∈ p → Probed x ∈ steps) → resolve_launch (h_is_file h 3) (h_is_dir h 3) l = Ok c →
  verified_launch prepared l v c steps.
Proof.
  intros Hws Hp Hsteps Hc. split_and!; [done | by eapply resolve_launch_carries |].
  exists p. split_and!; [done | done | by eapply probed_command].
Qed.

Lemma plan_gated prepared executable home c held :
  prep_permission_mode prepared = Plan →
  let run := spawn_plan h strict_patch executable (ws_path (General.workspace prepared)) home in
  Started c held ∈ taken run →
  ∃ l v, verified_launch prepared l v c (taken run) ∧ composition prepared l v held (taken run).
Proof.
  intros Hmode run Hin. unfold run, spawn_plan in *. clear run.
  pose proof Hin as [H|([held' patch] & Ha & H)]%taken_bind; [by apply quiet_strict_patch in H|].
  set (l := launch_of h executable (ws_path _) home _ "read-only" (Some patch)) in *.
  destruct (judged_start _ _ _ _ _ H) as (Hok & Hc & ->).
  destruct (preflight _ _ _ _ _ l) as [ran r] eqn:Hpre. cbn [snd] in Hok. subst r.
  pose proof Hpre as (Hm & Hpatch & v & Hv & Hok)%strict_preflight_ok.
  exists l, v. split; [|unfold composition; by rewrite bool_decide_eq_true_2].
  eapply verified; [done | exact Hv | | exact Hc]. intros x Hx. apply taken_bind. right.
  eexists. split; [exact Ha|]. cbn beta iota. fold l. rewrite Hpre. by apply probes_judged.
Qed.

Lemma build_gated prepared executable home c held :
  prep_permission_mode prepared ≠ Plan → is_workspace_root_manifest (prep_write_manifest prepared) = true →
  let run := spawn_build h executable (ws_path (General.workspace prepared)) home in
  Started c held ∈ taken run →
  ∃ l v, verified_launch prepared l v c (taken run) ∧ composition prepared l v held (taken run).
Proof.
  intros Hmode Hroot run H. unfold run, spawn_build in *. clear run.
  set (l := launch_of h executable (ws_path _) home _ "workspace-write" None) in *.
  destruct (judged_start _ _ _ _ _ H) as (Hok & Hc & ->).
  destruct (preflight_build _ _ _ _ _ l) as [ran r] eqn:Hpre. cbn [snd] in Hok. subst r.
  pose proof Hpre as (Hm & v & Hv & Hok)%build_preflight_ok.
  exists l, v. split; [|unfold composition; by rewrite bool_decide_eq_false_2, Hroot].
  eapply verified; [done | exact Hv | | exact Hc]. intros x Hx. by apply probes_judged.
Qed.

Lemma manifest_build_ok runtime workspace home manifest directory command :
  let run := materialize_manifest_build h guard_files runtime workspace home manifest in
  answer run = Ok (directory, command) →
  ∃ l ran v, l_workspace l = workspace ∧ l_permission_mode l = Some "workspace-write"
    ∧ l_patch l = Some (join directory PATCH_FILE) ∧ probed (h_yaml h) (h_output h) l ran v
    ∧ (∀ x, x ∈ ran → Probed x ∈ taken run) ∧ resolve_launch (h_is_file h 3) (h_is_dir h 3) l = Ok command
    ∧ guarded_dump (h_windows h) manifest workspace v ∧ patch_written manifest directory (taken run).
Proof.
  intros run H. unfold run, materialize_manifest_build in *. clear run.
  pose proof H as ([d patch] & Htree & H1)%answer_bind.
  set (l := launch_of h runtime workspace home _ "workspace-write" (Some patch)) in *.
  apply answer_bind in H1 as (u & Hj & H1). apply answer_bind in H1 as (c & Hc & [= -> ->]).
  apply resolve_child_ok in Hc. apply judged_ok in Hj as Hok.
  destruct (preflight_build_manifest _ _ _ _ _ _ l manifest) as [ran r] eqn:Hpre. cbn [snd] in Hok. subst r.
  pose proof Hpre as (Hm & _ & v & Hv & Hg)%manifest_preflight_guarded.
  destruct (tree_ok _ _ _ _ Htree) as [-> (rows & text & Hrows & Htext & Hw)].
  exists l, ran, v. split_and!; try done.
  - intros x Hx. apply taken_bind. right. eexists. split; [exact Htree|]. cbn beta iota. fold l. rewrite Hpre.
    by apply probes_judged.
  - exists rows, text. split_and!; [done | done |]. apply taken_bind. by left.
Qed.

Lemma manifest_gated prepared executable home c held :
  prep_permission_mode prepared ≠ Plan → is_workspace_root_manifest (prep_write_manifest prepared) = false →
  let run := spawn_manifest h guard_files executable (ws_path (General.workspace prepared)) home
               (prep_write_manifest prepared) in
  Started c held ∈ taken run →
  ∃ l v, verified_launch prepared l v c (taken run) ∧ composition prepared l v held (taken run).
Proof.
  intros Hmode Hroot run H. unfold run, spawn_manifest in *. clear run.
  pose proof H as [H1|([directory command] & Ha & H1)]%taken_bind; [by apply quiet_manifest_build in H1|].
  apply started_start in H1 as [-> ->].
  destruct (manifest_build_ok _ _ _ _ _ _ Ha) as (l & ran & v & Hws & Hm & Hpatch & Hv & Hran & Hc & Hg & Hw).
  assert (Hsub : ∀ s, s ∈ taken (materialize_manifest_build h guard_files executable
                   (ws_path (General.workspace prepared)) home (prep_write_manifest prepared)) →
                 s ∈ taken (spawn_manifest h guard_files executable (ws_path (General.workspace prepared)) home
                   (prep_write_manifest prepared))) by (intros s Hs; apply taken_bind; by left).
  exists l, v. split; [eapply verified; [done | exact Hv | by intros x Hx; apply Hsub, Hran | exact Hc]|].
  unfold composition. rewrite bool_decide_eq_false_2, Hroot by done. rewrite Hws. split_and!; [done | done |].
  destruct Hw as (rows & text & Hrows & Htext & Hw). exists directory. split_and!; [done | done |].
  exists rows, text. split_and!; [done | done | by apply Hsub].
Qed.

(** C23. Dsh is started only behind its gate: whatever the host answers, a child that the
    factory starts belongs to a task that was read back, runs in that task's workspace with
    the command the provider was probed with just before, and the configuration the provider
    printed for that command was accepted for the task's mode: the strict policy under
    read-only for a plan, the build composition for a task without a manifest, and for any
    other the guarded composition with exactly the task's manifest, its patch written into
    the directory the child's owner keeps. *)
Theorem dsh_child_gated (gate : DshSpawnGate) (task : TaskRecord) (c : Command) (held : option Path) :
  let run := dsh_spawn h from_str decode_prepared guard_files strict_patch gate task in
  Started c held ∈ taken run →
  gate = DshEnabled
  ∧ ∃ prepared l v, task_route from_str decode_prepared task = Ok prepared
      ∧ verified_launch prepared l v c (taken run) ∧ composition prepared l v held (taken run).
Proof.
  intros run. unfold run, dsh_spawn. clear run.
  destruct gate; [by intros H; apply quiet_pure in H|]. intros H. split; [done|].
  destruct (task_route from_str decode_prepared task) as [prepared|]; [|by apply quiet_pure in H].
  exists prepared. destruct (h_env h "DSH_RUNTIME_PATH") as [executable|]; [|by apply quiet_pure in H].
  case_bool_decide as Hmode; [|destruct (is_workspace_root_manifest _) eqn:Hroot].
  - destruct (plan_gated _ _ _ _ _ Hmode H) as (l & v & ? & ?). by exists l, v.
  - destruct (build_gated _ _ _ _ _ Hmode Hroot H) as (l & v & ? & ?). by exists l, v.
  - destruct (manifest_gated _ _ _ _ _ Hmode Hroot H) as (l & v & ? & ?). by exists l, v.
Qed.
End gated.

(** ** A concrete host *)

Module FactoryDemo.
Definition env (name : string) : option string :=
  if name ≟ "DSH_RUNTIME_PATH" then Some "/opt/dsh/cli.mjs" else None.
(** [temp] names the directory of the guard; [parsed] is what the provider's dump says. *)
Definition host (parsed : result string Yaml) : Host :=
  mk_host env (λ _ _, true) (λ _ _, true) Ok (λ _, false) (λ _, true)
    (λ p, if p ≟ "/opt/dsh/package.json" then Some (VObject [("name", VString "@deepseek-ai/dsh")]) else None)
    (λ _, Ok "/t") (λ _, Ok tt) (λ _ _, Ok tt) (λ _ _, Ok tt) (λ _, parsed) (λ _, Ok "PATCH")
    ProfileDemo.provider (λ _ _, Ok tt) false (λ s, s).

Definition prepared (mode : PermissionMode) (manifest : list Path) : PreparedGeneralTask :=
  mk_prepared None GENERAL_TASK_SCHEMA "10000000" "/repo" (mk_workspace "/work" "/scratch") mode manifest.
Definition task : TaskRecord :=
  mk_task_record (mk_new_task "10000000" "/repo" "/work" None "{}" "go") Preparing None None 1 false false 0
    None None None None TurnIdle None None None 0.
Definition from_str (_ : string) : result string Value := Ok (VObject [("schema", VString GENERAL_TASK_SCHEMA)]).
Definition guard_files : list (string * string) := [("package.json", "{}"); ("lib/index.js", "guard")].

Definition run (parsed : result string Yaml) (mode : PermissionMode) (manifest : list Path) : Outcome unit :=
  dsh_spawn (host parsed) from_str (λ _, Some (prepared mode manifest)) guard_files "strict" DshEnabled task.

Definition starts (o : Outcome unit) : list (Command * option Path) :=
  omap (λ s, match s with Started c held => Some (c, held) | _ => None end) (taken o).

Definition manifest : list Path := ["src/a.rs"; "docs/b: c.md"].
Definition command : Command :=
  mk_command "node" ["/opt/dsh/cli.mjs"; "--profile"; "acp"; "--patch"; "/t/manifest-build.patch.yml"] (Some "/work")
    [("DSH_PERMISSION_MODE", "workspace-write")].
End FactoryDemo.

(** A manifest task starts one child; the same dump starts none for another manifest or for
    a plan, and a strict dump starts a plan. *)
Example factory_demo :
  FactoryDemo.starts (FactoryDemo.run (Ok ProfileDemo.dump) Build FactoryDemo.manifest)
    = [(FactoryDemo.command, Some "/t")]
  ∧ FactoryDemo.starts (FactoryDemo.run (Ok ProfileDemo.dump) Build ["src/b.rs"]) = []
  ∧ FactoryDemo.starts (FactoryDemo.run (Ok ProfileDemo.dump) Plan []) = []
  ∧ FactoryDemo.starts (FactoryDemo.run (Ok (YSequence ProfileDemo.strict_rows)) Plan [])
    = [(mk_command "node" ["/opt/dsh/cli.mjs"; "--profile"; "acp"; "--patch"; "/t/strict-plan.patch.yml"] (Some "/work")
          [("DSH_PERMISSION_MODE", "read-only")], Some "/t")].
Proof. vm_compute. auto. Qed.

Lemma dsh_child_gated_witness :
  ∃ l v, verified_launch (FactoryDemo.host (Ok ProfileDemo.dump)) (FactoryDemo.prepared Build FactoryDemo.manifest) l v
           FactoryDemo.command (taken (FactoryDemo.run (Ok ProfileDemo.dump) Build FactoryDemo.manifest))
    ∧ guarded_dump false FactoryDemo.manifest (l_workspace l) v.
Proof.
  destruct (dsh_child_gated (FactoryDemo.host (Ok ProfileDemo.dump)) FactoryDemo.from_str
              (λ _, Some (FactoryDemo.prepared Build FactoryDemo.manifest)) FactoryDemo.guard_files "strict"
              DshEnabled FactoryDemo.task FactoryDemo.command (Some "/t")) as (_ & p & l & v & Hr & Hv & Hc).
  - apply list_elem_of_In. vm_compute. repeat ((left; reflexivity) || right).
  - assert (p = FactoryDemo.prepared Build FactoryDemo.manifest) as -> by (vm_compute in Hr; injection Hr as <-; reflexivity).
    exists l, v. split; [exact Hv|]. by destruct Hc as (_ & Hg & _).
Defined.
